(* ===== verification/_CoqProject ===== *)
-Q . S2P
Prelude.v
Posix.v
RemoteUri.v
SwapfsErr.v
SwapfsIo.v
SwapfsControl.v
SwapfsCleaner.v
SwapfsUring.v
SwapfsManager.v
SwapfsConc.v
SwapfsThreads.v
SwapfsApi.v
HyperAio.v
FsError.v
Anonymize.v
FsTree.v
MoveDir.v
PathOps.v
CopyDir.v
ListFile.v
CopyCore.v
CopyNotify.v
FsWatcher.v
FileMapping.v
OpenFiles.v
AtomicFile.v
Streams.v
Bytes.v
ZipFormat.v
ZipTime.v
ArchiveErr.v
ArchivePath.v
ArchiveFs.v
ArchiveText.v
ArchiveStream.v
ArchiveUtils.v
ArchiveMonad.v
ZipReaderImpl.v
ZipReader.v
ZipHeaders.v
ZipWriter.v
ArchiveApi.v
ArchiveBuffer.v
ArchiveCalm.v
ArchiveMem.v
ArchiveDirectory.v
ArchiveEnd.v
ArchiveRoundtrip.v
ArchiveStored.v
ArchiveConfined.v
ArchiveSafety.v
