(* ===== verification/Prelude.v ===== *)
(** * Verification of the file_api cores

    This library models parts of the OpenHarmony file_api repository as
    executable Rocq functions and proves them correct.  This file is its
    prelude: integers of the source, a partial state monad, sums over maps,
    lists and path strings, with the tactics and hints the components share.

    ** Parts of the program and their files

    - [Posix]: the system calls the swapfs code makes, over a map from absolute
      paths to inodes.  An environment ([Env]) decides which call fails, with which
      errno, and how much a transfer moves; every theorem quantifies over it.
    - [SwapfsErr], [SwapfsIo], [SwapfsControl], [SwapfsCleaner],
      [SwapfsUring], [SwapfsManager]: the files of the same names under
      src/interfaces/kits/native/swapfs/src.  A function of the source is a
      definition of the same name; a part of one that runs under one lock is a
      definition with a suffix ([RefreshCheck], [FinishSwapIn_begin], ...).
    - [SwapfsConc], [SwapfsThreads]: any number of threads call the manager;
      a call is a program of atomic sections (a locked block, a system call, a whole
      reservation, a whole [SyncWrite] of a swap file, a whole read of one by ring or by
      [SyncRead]), and the sections interleave freely.  [SwapfsConc] has the
      invariant, as claims of the threads on entries, files and bytes, and one lemma
      per section; [SwapfsThreads] the pool of threads and the properties.
    - [SwapfsApi]: swapfs_c_api.cpp, the registry that guards managers against
      being used while or after they are destroyed.  It is proved for a
      manager that answers anything, so it needs nothing of the manager's model.
    - [HyperAio]: src/interfaces/kits/hyperaio: batched io_uring requests and
      the harvest thread.
    - [FsError]: src/utils/filemgmt_libfs: error tables and [FsError].
    - [Anonymize]: the anonymisation half of src/utils/filemgmt_libn/n_error.cpp.
    - [FsTree]: paths, file trees and the [std::filesystem] functions the path
      operations of mod_fs call, any of which may fail.
    - [MoveDir], [CopyDir], [ListFile], [CopyCore]: movedir_core.cpp, copy_dir_core.cpp,
      listfile_core.cpp and copy_core.cpp of mod_fs (src/interfaces/kits/js/src), each a
      state monad over such a tree; [CopyCore] has the registry of copies and the
      descriptors in its state as well.
    - [PathOps]: move_core.cpp, mkdir_core.cpp with the Rust functions it calls,
      rmdir_core.cpp, rename_core.cpp, unlink_core.cpp and access_core.cpp over the same
      trees.
    - [CopyNotify]: the progress thread of copy_core.cpp and the end of a copy, as two
      threads that take turns with the kernel and the writers of files.
    - [FsWatcher], [FileMapping]: class_watcher and class_filemapping of mod_fs, with
      watcher_core.cpp and mmap_core.cpp: one inotify descriptor that all watchers
      share and its thread; mappings over a memory where a wrong access is undefined.
    - [OpenFiles]: the [File] and [RandomAccessFile] objects of mod_fs with the cores
      that open, duplicate, close, read and write, over a table of descriptors; entities
      have addresses, which are the tags of fdtag_func.cpp.  It opens remote URIs with
      [RemoteUri] (src/interfaces/kits/native/remote_uri).  [AtomicFile], class_atomicfile,
      works on the same files and descriptors.
    - [Streams]: class_stream of mod_fs over the buffered streams of libc, whose threads
      take turns at its calls.
    - The archive library, src/interfaces/kits/c/compress.  Its data: [Bytes]
      (bytes, little-endian values and packed structures as instances of
      [Packed]), [ZipFormat], [ZipTime], [ArchiveErr], [ArchivePath],
      [ArchiveText].  Its effects: [ArchiveFs], a tree of files, directories and
      links with the calls of libc over it, any of which may fail ([AEnv]);
      [ArchiveStream], the files of frameworks/stream over zlib as a parameter
      ([Zlib]); [ArchiveUtils]; [ArchiveMonad], the state a reader or writer runs
      on.  Its programs: [ZipReaderImpl] and [ZipReader] (zip_reader_impl.c,
      zip_reader.c), [ZipHeaders] and [ZipWriter] (zip_writer_impl.c,
      zip_writer.c), [ArchiveApi] and [ArchiveBuffer] (the exported functions).
    - About them: [ArchiveMem] (the memory stream refines a file), [ArchiveCalm]
      (equations of the streams when no call fails), [ArchiveDirectory],
      [ArchiveEnd] and [ArchiveRoundtrip] (what is written of the entries is what
      is read), [ArchiveStored] (data that is not compressed), [ArchiveConfined]
      and [ArchiveSafety] (where extraction writes).

    ** What the theorems show

    - swapfs data: what is swapped in is what was swapped out, across threads,
      short transfers and faulty rings ([write_read_roundtrip],
      [uring_read_result], [swap_in_returns_swapped_out]).
    - swapfs space: the quota holds in every interleaving, and the provider
      refines an abstract ledger ([quota_invariant], [proxy_refines_ledger],
      [quota_holds_always], [quiescent_bookkeeping]).
    - swapfs resources: descriptors, ring slots, buffers owned by the kernel and
      managers are given back ([engines_leave_no_descriptor],
      [uring_read_releases_buffer], [ring_pool_exclusive], [api_memory_safe]).
    - swapfs cleaning: confined to stale sessions, complete, and recoverable after
      a failure ([cleanup_spares_live_sessions], [failed_removal_keeps_marker]).
    - hyperaio: every request is prepared or answered, in order and in batches.
    - moving directories: no file is lost whatever fails ([move_dir_keeps_files]).
    - operations on paths: a file that is moved is not lost ([move_keeps_file]) and
      arrives when nothing fails ([move_succeeds]); what making and removing directories
      does ([mkdir_result], [mkdir_makes_parents], [rmdirent_result]) and what asking for
      access answers ([access_answer], [local_cloud_access]).
    - copying: success means the data is there, and nothing elsewhere changes
      ([copy_dir_copies], [copy_file_result], [copy_directory_result]); no
      registration or descriptor stays ([copy_leaves_nothing]); with a listener the
      descriptors are closed once, the join returns unless all that is watched was removed
      ([removed_target_hangs]) and progress adds up ([descriptors_closed_once],
      [join_returns], [progress_reports]).
    - watching: while no call fails the right watchers are told ([watchers_told]); the
      rest are the races of stopping ([deferred_close_never_runs]).
    - mapping files: no access goes outside mapped memory ([mapping_programs_safe]), the
      objects are buffers with limit and position ([mapping_refines_buffer]) and writes
      reach exactly their bytes of the file ([write_reaches_file], [msync_exact]).
    - open files: the close of an object that is not reported closes the file the object
      was made for ([quiet_close_is_own]), failing calls leave no descriptor
      ([failed_open_leaves_nothing]), random access files read what they wrote
      ([raf_write_then_read]); descriptors in remote URIs are accounted for and come
      back ([descriptors_accounted], [convert_then_open]), but for numbers that come in
      twice ([closed_twice]); atomic files are replaced as a
      whole ([atomic_file_refines_cell]).
    - streams: each is closed once and never used after ([streams_closed_once]); what was
      written is read and, once flushed, stored ([written_is_read], [flushed_is_stored]);
      [error_sticks] and [seek_back_ignored] are defects.
    - listing: exact without a limit, bounded by it otherwise ([list_file_recursive],
      [list_file_limit]).
    - archives: the directory of a written archive comes back entry by entry
      ([directory_roundtrip], Zip64 included), stored data is extracted exactly
      ([stored_entry_extracted]), paths of entries stay below the output directory
      ([output_path_confined]) and so do the files made for them as long as no link
      is there ([extract_entry_confined]), but chains of links lead out of it
      ([symlink_chain_escapes]); the end record is found
      ([search_finds_last_record]) except where writer and reader disagree
      ([full_directory_unread]).
    - errors and anonymisation: classification of codes; masking of names equals
      a reference on characters.
    - some theorems state defects that modelling showed; the findings of the
      manifest list them.

    ** Bounds and fuel

    Loops that the environment can keep going ([EINTR], short transfers, ring
    anomalies) run on [env_fuel]; [engines_return] and [cleaner_returns] say how
    much is enough.  The recursion of the cleaner runs on [CLEANUP_FUEL], which
    its depth guard never reaches.  The loops of the archive code run on what is
    left: bytes of a buffer, of an input ([left_to_read]), of an entry
    ([save_fuel], with [z_fuel] for calls of zlib that make no progress) or entries
    of the directory; a walk over directories has a fuel of its own ([walk_fuel]).  The
    recursions over the trees of [FsTree] run on their depth ([deep]).  The loops over UTF-8 text run on the number of
    bytes left.  Sizes and counters keep their width ([u64], [u32]) wherever the
    source can wrap; identifiers of threads are bounded by [2^32].

    ** Not modelled

    Bindings (N-API, ANI, Cangjie, Rust, C wrappers), logging and tracing; the
    archive plugin, and setters and comparisons of the archive code that nothing
    calls; zlib, iconv, [localtime_r] and [mktime], which are parameters; services
    behind IPC (an environment answers for them); hard links, and symbolic links
    except where the swapfs code looks for them, [..] and permissions in paths of
    [FsTree]; signals; other processes
    changing the swap root during a call; the interleaving of one ring read
    with other threads, which share no ring with it ([ring_pool_exclusive]);
    start functions of a hyperaio context racing with its destruction; calls of the
    watcher interface that overlap each other, and watches that the kernel drops by
    itself; threads that share the table of tags, and code that closes descriptors
    of file objects behind its back; descriptor numbers
    that are used again while the progress thread of a copy polls them; streams over a
    descriptor, reading ahead, and the calls of mod_fs that are one system call each on a
    descriptor. *)

From Stdlib Require Export Ascii.
From stdpp Require Export base gmap strings list fin_maps fin_map_dom numbers pretty.

#[global] Open Scope Z_scope.

(** ** Machine integers

    Integers of the source are [Z]; every place where C++ arithmetic wraps
    goes through one of these. *)
Definition u64 (x : Z) : Z := x mod 2 ^ 64.
Definition u32 (x : Z) : Z := x mod 2 ^ 32.

#[global] Arguments u64 : simpl never.
#[global] Arguments u32 : simpl never.

Declare Scope cint_scope.
Delimit Scope cint_scope with cint.
Notation "a +₆₄ b" := (u64 (a + b)) (at level 50, left associativity) : cint_scope.
Notation "a -₆₄ b" := (u64 (a - b)) (at level 50, left associativity) : cint_scope.
Notation "a +₃₂ b" := (u32 (a + b)) (at level 50, left associativity) : cint_scope.
Notation "a -₃₂ b" := (u32 (a - b)) (at level 50, left associativity) : cint_scope.
#[global] Open Scope cint_scope.

Lemma u64_id x : 0 <= x < 2 ^ 64 → u64 x = x.
Proof. intros. by apply Z.mod_small. Qed.
Lemma u32_id x : 0 <= x < 2 ^ 32 → u32 x = x.
Proof. intros. by apply Z.mod_small. Qed.
Lemma u64_range x : 0 <= u64 x < 2 ^ 64.
Proof. by apply Z.mod_pos_bound. Qed.
Lemma u32_range x : 0 <= u32 x < 2 ^ 32.
Proof. by apply Z.mod_pos_bound. Qed.

(** ** Tactics *)

(** Reflect boolean integer comparisons of the code into propositions. *)
Ltac zbool :=
  repeat match goal with
  | H : (_ && _)%bool = true |- _ => apply andb_prop in H as [? ?]
  | H : (_ || _)%bool = false |- _ => apply orb_false_elim in H as [? ?]
  | H : negb _ = true |- _ => apply negb_true_iff in H
  | H : negb _ = false |- _ => apply negb_false_iff in H
  | H : (_ =? _) = true |- _ => apply Z.eqb_eq in H
  | H : (_ =? _) = false |- _ => apply Z.eqb_neq in H
  | H : (_ <? _) = true |- _ => apply Z.ltb_lt in H
  | H : (_ <? _) = false |- _ => apply Z.ltb_ge in H
  | H : (_ <=? _) = true |- _ => apply Z.leb_le in H
  | H : (_ <=? _) = false |- _ => apply Z.leb_gt in H
  | H : (_ >? _) = true |- _ => rewrite Z.gtb_ltb in H; apply Z.ltb_lt in H
  | H : (_ >? _) = false |- _ => rewrite Z.gtb_ltb in H; apply Z.ltb_ge in H
  | H : (_ >=? _) = true |- _ => rewrite Z.geb_leb in H; apply Z.leb_le in H
  | H : (_ >=? _) = false |- _ => rewrite Z.geb_leb in H; apply Z.leb_gt in H
  end.

(** Split every [if]/[match] of goal and hypotheses, then reflect. *)
Ltac cases := repeat (case_match; simplify_eq/=); zbool.

(** ** A partial state monad

    [st S A] runs on a state [S]; [None] is a computation that has not
    returned within the fuel of one of its loops. *)
Definition st (S A : Type) : Type := S → option (A * S).

Definition sret {S A} (a : A) : st S A := λ s, Some (a, s).
(** The computation comes first, so that the type of what it returns is known
    when the continuation is read. *)
Definition bind {S A B} (m : st S A) (f : A → st S B) : st S B := λ s,
  match m s with Some (a, s') => f a s' | None => None end.

Declare Scope st_scope.
Delimit Scope st_scope with st.
Notation "x ← y ; z" := (bind y (λ x, z))
  (at level 20, y at level 100, z at level 200, only parsing) : st_scope.
Notation "' x ← y ; z" := (bind y (λ x, z))
  (at level 20, x pattern, y at level 100, z at level 200, only parsing) : st_scope.
Notation "x ;; z" := (bind x (λ _, z))
  (at level 100, z at level 200, only parsing, right associativity) : st_scope.
#[global] Open Scope st_scope.

(** Weakest precondition: whatever the computation returns satisfies [Q]. *)
Definition wp {S A} (m : st S A) (Q : A → S → Prop) (s : S) : Prop :=
  match m s with Some (a, s') => Q a s' | None => True end.

(** The computation returns. *)
Definition returns {S A} (m : st S A) (s : S) : Prop := is_Some (m s).

Section wp.
Context {S A B : Type}.
Implicit Types (m : st S A) (s : S).

Lemma wp_ret (a : A) (Q : A → S → Prop) s : Q a s → wp (sret a) Q s.
Proof. done. Qed.
Lemma wp_bind m (f : A → st S B) Q s :
  wp m (λ a, wp (f a) Q) s → wp (bind m f) Q s.
Proof. unfold wp, bind. by destruct (m s) as [[a s']|]. Qed.
Lemma wp_mono m (P Q : A → S → Prop) s :
  (∀ a s', P a s' → Q a s') → wp m P s → wp m Q s.
Proof. unfold wp. intros HPQ. destruct (m s) as [[a s']|]; auto. Qed.
Lemma wp_elim m Q s a s' : wp m Q s → m s = Some (a, s') → Q a s'.
Proof. unfold wp. intros H E. by rewrite E in H. Qed.
Lemma wp_intro m Q s : (∀ a s', m s = Some (a, s') → Q a s') → wp m Q s.
Proof. unfold wp. destruct (m s) as [[a s']|]; auto. Qed.
Lemma wp_and m (P Q : A → S → Prop) s :
  wp m P s → wp m Q s → wp m (λ a s', P a s' ∧ Q a s') s.
Proof. unfold wp. destruct (m s) as [[a s']|]; auto. Qed.
Lemma bind_Some m (f : A → st S B) s b s'' :
  bind m f s = Some (b, s'') →
  ∃ a s', m s = Some (a, s') ∧ f a s' = Some (b, s'').
Proof. unfold bind. destruct (m s) as [[a s']|]; naive_solver. Qed.
Lemma returns_bind m (f : A → st S B) s :
  returns m s → wp m (λ a, returns (f a)) s → returns (bind m f) s.
Proof.
  unfold returns, wp, bind. destruct (m s) as [[a s']|]; [done|].
  by intros [? ?].
Qed.
Lemma wp_any m (Q : A → S → Prop) s : (∀ a s', Q a s') → wp m Q s.
Proof. intros H. apply wp_intro. auto. Qed.
Lemma returns_then m (f : A → st S B) s :
  returns m s → (∀ a s', returns (f a) s') → returns (bind m f) s.
Proof. intros Hm Hf. apply returns_bind; [done|]. by apply wp_any. Qed.
End wp.

(** Total correctness: the computation returns, and what it returns satisfies [Q]. *)
Definition twp {S A} (m : st S A) (Q : A → S → Prop) (s : S) : Prop :=
  match m s with Some (a, s') => Q a s' | None => False end.

Section twp.
Context {S A B : Type}.
Implicit Types (m : st S A) (s : S).

Lemma twp_ret (a : A) (Q : A → S → Prop) s : Q a s → twp (sret a) Q s.
Proof. done. Qed.
Lemma twp_bind m (f : A → st S B) Q s :
  twp m (λ a, twp (f a) Q) s → twp (bind m f) Q s.
Proof. unfold twp, bind. by destruct (m s) as [[a s']|]. Qed.
Lemma twp_mono m (P Q : A → S → Prop) s :
  twp m P s → (∀ a s', P a s' → Q a s') → twp m Q s.
Proof. unfold twp. intros Hm HPQ. destruct (m s) as [[a s']|]; auto. Qed.
Lemma twp_and m (P Q : A → S → Prop) s :
  twp m P s → twp m Q s → twp m (λ a s', P a s' ∧ Q a s') s.
Proof. unfold twp. by destruct (m s) as [[a s']|]. Qed.
Lemma twp_elim m Q s : twp m Q s → ∃ a s', m s = Some (a, s') ∧ Q a s'.
Proof. unfold twp. destruct (m s) as [[a s']|]; [eauto|done]. Qed.
End twp.

(** ** Sums over finite maps *)

Definition msum {K A} `{Countable K} (f : A → Z) (m : gmap K A) : Z :=
  map_fold (λ _ x acc, f x + acc) 0 m.

Section msum.
Context {K A : Type} `{Countable K}.
Implicit Types (m : gmap K A) (f g : A → Z).

Lemma msum_empty f : msum f (∅ : gmap K A) = 0.
Proof. apply map_fold_empty. Qed.
Lemma msum_insert f m i x : m !! i = None → msum f (<[i:=x]> m) = f x + msum f m.
Proof. intros Hi. unfold msum. rewrite map_fold_insert_L; [done|lia|done]. Qed.
Lemma msum_delete f m i x : m !! i = Some x → msum f m = f x + msum f (delete i m).
Proof.
  intros Hi. rewrite <-(insert_delete_id m i x) at 1 by done.
  apply msum_insert, lookup_delete_eq.
Qed.
Lemma msum_update f m i x y :
  m !! i = Some x → msum f (<[i:=y]> m) = msum f m - f x + f y.
Proof.
  intros Hi. rewrite (msum_delete f m i x Hi), <-insert_delete_eq.
  rewrite msum_insert by apply lookup_delete_eq. lia.
Qed.
Lemma msum_nonneg f m : (∀ i x, m !! i = Some x → 0 <= f x) → 0 <= msum f m.
Proof.
  induction m as [|i x m Hi IH] using map_ind; intros Hf; [by rewrite msum_empty|].
  rewrite msum_insert by done.
  assert (0 <= f x) by (eapply (Hf i); apply lookup_insert_eq).
  assert (0 <= msum f m); [|lia]. apply IH. intros j y Hj.
  apply (Hf j). rewrite lookup_insert_ne; congruence.
Qed.
Lemma msum_ge f m i x :
  (∀ j y, m !! j = Some y → 0 <= f y) → m !! i = Some x → f x <= msum f m.
Proof.
  intros Hf Hi. rewrite (msum_delete f m i x Hi).
  assert (0 <= msum f (delete i m)); [|lia].
  apply msum_nonneg. intros j y [_ Hj]%lookup_delete_Some. eauto.
Qed.
Lemma msum_ext f g m :
  (∀ i x, m !! i = Some x → f x = g x) → msum f m = msum g m.
Proof.
  induction m as [|i x m Hi IH] using map_ind; intros Hf; [done|].
  rewrite !msum_insert by done. rewrite (Hf i x) by apply lookup_insert_eq.
  rewrite IH; [done|]. intros j y Hj. apply (Hf j).
  rewrite lookup_insert_ne; congruence.
Qed.
Lemma msum_zero f m : (∀ i x, m !! i = Some x → f x = 0) → msum f m = 0.
Proof.
  induction m as [|i x m Hi IH] using map_ind; intros Hf; [done|].
  rewrite msum_insert by done. rewrite (Hf i x) by apply lookup_insert_eq.
  rewrite IH; [done|]. intros j y Hj. apply (Hf j).
  rewrite lookup_insert_ne; congruence.
Qed.
Lemma msum_zero_inv f m i x :
  (∀ j y, m !! j = Some y → 0 <= f y) → msum f m <= 0 → m !! i = Some x → f x = 0.
Proof.
  intros Hf Hs Hi. pose proof (msum_ge f m i x Hf Hi). pose proof (Hf i x Hi). lia.
Qed.
Lemma msum_pos_inv f m : 0 < msum f m → ∃ i x, m !! i = Some x ∧ 0 < f x.
Proof.
  induction m as [|i x m Hi IH] using map_ind; [by rewrite msum_empty|].
  rewrite msum_insert by done. intros Hs.
  destruct (decide (0 < f x)) as [Hx|Hx].
  - exists i, x. by rewrite lookup_insert_eq.
  - destruct IH as (j & y & Hj & Hy); [lia|]. exists j, y.
    rewrite lookup_insert_ne; [done|congruence].
Qed.
Lemma msum_le f g m :
  (∀ i x, m !! i = Some x → f x <= g x) → msum f m <= msum g m.
Proof.
  induction m as [|i x m Hi IH] using map_ind; intros Hf; [done|].
  rewrite !msum_insert by done.
  assert (f x <= g x) by (apply (Hf i); apply lookup_insert_eq).
  assert (msum f m <= msum g m); [|lia]. apply IH. intros j y Hj.
  apply (Hf j). rewrite lookup_insert_ne; congruence.
Qed.
Lemma msum_const (c : Z) m : msum (λ _, c) m = c * Z.of_nat (size m).
Proof.
  induction m as [|i x m Hi IH] using map_ind;
    [rewrite msum_empty, map_size_empty; lia|].
  rewrite msum_insert, map_size_insert_None by done. lia.
Qed.
End msum.

(** ** Lists *)

(** A transfer moves a prefix and leaves the rest. *)
Lemma take_drop_chunk {A} n (l : list A) : take n l ++ drop (length (take n l)) l = l.
Proof.
  rewrite length_take. destruct (Nat.min_spec n (length l)) as [[? ->]|[? ->]].
  - apply take_drop.
  - by rewrite take_ge, drop_ge, app_nil_r by lia.
Qed.

(** A prefix taken in two transfers. *)
Lemma take_two_steps {A} k m (l : list A) :
  (k <= m)%nat →
  take k l ++ take (m - length (take k l)) (drop (length (take k l)) l) = take m l.
Proof.
  intros Hk. rewrite length_take. destruct (Nat.min_spec k (length l)) as [[? ->]|[? ->]].
  - rewrite take_drop_commute, Nat.add_comm, Nat.sub_add by done.
    rewrite <-(take_drop k (take m l)) at 2. by rewrite take_take, Nat.min_l by lia.
  - by rewrite drop_ge, take_nil, app_nil_r, (take_ge l k), (take_ge l m) by lia.
Qed.

(** ** Path strings *)

Definition slash : Ascii.ascii := "/"%char.

Fixpoint has_slash (s : string) : bool :=
  match s with
  | EmptyString => false
  | String c s' => if Ascii.eqb c slash then true else has_slash s'
  end.

(** [rsplit s] splits at the last ['/'] ([std::string::rfind('/')]). *)
Fixpoint rsplit (s : string) : option (string * string) :=
  match s with
  | EmptyString => None
  | String c s' =>
      match rsplit s' with
      | Some (d, n) => Some (String c d, n)
      | None => if Ascii.eqb c slash then Some (EmptyString, s') else None
      end
  end.

(** The path of the entry [n] of directory [d]. *)
Definition child (d n : string) : string := d +:+ String slash n.

Lemma append_cons x (a b : string) : String x a +:+ b = String x (a +:+ b).
Proof. done. Qed.
Lemma append_nil_l (a : string) : "" +:+ a = a.
Proof. done. Qed.
Lemma append_assoc (a b c : string) : (a +:+ b) +:+ c = a +:+ (b +:+ c).
Proof. induction a as [|x a IH]; [done|]. by rewrite !append_cons, IH. Qed.
Lemma append_nil_r (a : string) : a +:+ "" = a.
Proof. induction a as [|x a IH]; [done|]. by rewrite append_cons, IH. Qed.
Lemma length_append (a b : string) :
  String.length (a +:+ b) = (String.length a + String.length b)%nat.
Proof. induction a as [|x a IH]; [done|]. rewrite append_cons. cbn. by rewrite IH. Qed.
Lemma append_inj_r (a b c : string) : a +:+ c = b +:+ c → a = b.
Proof.
  revert b. induction a as [|x a IH]; intros [|y b]; [done|..]; intros H;
    pose proof (f_equal String.length H) as Hl; rewrite !length_append in Hl;
    cbn in Hl; try lia.
  rewrite !append_cons in H. injection H as -> H. by rewrite (IH b H).
Qed.

Lemma has_slash_append a b : has_slash (a +:+ b) = has_slash a || has_slash b.
Proof.
  induction a as [|x a IH]; [done|]. rewrite append_cons. cbn.
  by destruct (Ascii.eqb x slash).
Qed.
Lemma rsplit_no_slash n : has_slash n = false → rsplit n = None.
Proof.
  induction n as [|c n IH]; [done|]. cbn.
  destruct (Ascii.eqb c slash) eqn:E; [done|]. intros H. by rewrite IH.
Qed.
Lemma rsplit_child d n : has_slash n = false → rsplit (child d n) = Some (d, n).
Proof.
  intros Hn. unfold child. induction d as [|c d IH].
  - rewrite append_nil_l. cbn. by rewrite rsplit_no_slash.
  - rewrite append_cons. cbn. by rewrite IH.
Qed.
Lemma rsplit_None n : rsplit n = None → has_slash n = false.
Proof.
  induction n as [|c n IH]; [done|]. cbn.
  destruct (rsplit n) as [[]|]; [done|]. destruct (Ascii.eqb c slash); naive_solver.
Qed.
Lemma rsplit_Some s d n : rsplit s = Some (d, n) → s = child d n ∧ has_slash n = false.
Proof.
  unfold child. revert d n. induction s as [|c s IH]; intros d n; [done|]. cbn.
  destruct (rsplit s) as [[d' n']|] eqn:E.
  - intros [= <- <-]. destruct (IH d' n' eq_refl) as [-> ?]. done.
  - destruct (Ascii.eqb c slash) eqn:Ec; [|done]. intros [= <- <-].
    apply Ascii.eqb_eq in Ec as ->. split; [done|]. by apply rsplit_None.
Qed.
Lemma child_inj d d' n n' :
  has_slash n = false → has_slash n' = false → child d n = child d' n' → d = d' ∧ n = n'.
Proof.
  intros Hn Hn' H. apply (f_equal rsplit) in H. rewrite !rsplit_child in H by done.
  by simplify_eq.
Qed.

(** [p] is strictly below directory [d]. *)
Definition under (d p : string) : Prop := ∃ r, p = child d r.

Lemma under_child d n : under d (child d n).
Proof. by exists n. Qed.
Lemma under_trans a b c : under a b → under b c → under a c.
Proof.
  intros [r ->] [r' ->]. unfold child. exists (r +:+ String slash r').
  unfold child. by rewrite append_assoc.
Qed.
Lemma under_length d p : under d p → (String.length d < String.length p)%nat.
Proof. intros [r ->]. unfold child. rewrite !length_append. cbn. lia. Qed.
Lemma under_irrefl d : ¬ under d d.
Proof. intros H%under_length. lia. Qed.

(** What remains of [s] after the prefix [pre]. *)
Fixpoint strip_prefix (pre s : string) : option string :=
  match pre, s with
  | EmptyString, _ => Some s
  | String a pre', String b s' => if Ascii.eqb a b then strip_prefix pre' s' else None
  | String _ _, EmptyString => None
  end.

Lemma strip_prefix_Some pre s r : strip_prefix pre s = Some r ↔ s = pre +:+ r.
Proof.
  revert s. induction pre as [|a pre IH]; intros s;
    [rewrite append_nil_l; cbn; split; congruence|].
  rewrite append_cons. destruct s as [|b s]; cbn; [split; congruence|].
  destruct (Ascii.eqb a b) eqn:E.
  - apply Ascii.eqb_eq in E as ->. rewrite IH. split; congruence.
  - apply Ascii.eqb_neq in E. split; congruence.
Qed.

(** The path below [d] of [p], if there is one. *)
Definition below (d p : string) : option string := strip_prefix (d +:+ String slash "") p.

Lemma below_Some d p r : below d p = Some r ↔ p = child d r.
Proof. unfold below, child. by rewrite strip_prefix_Some, append_assoc. Qed.
#[export] Instance under_dec d p : Decision (under d p).
Proof.
  destruct (below d p) as [r|] eqn:E.
  - left. exists r. by apply below_Some.
  - right. intros [r Hr%below_Some]. congruence.
Defined.

Create HintDb swapdb.
#[export] Hint Resolve under_child wp_ret u64_range u32_range : swapdb.
