(* ===== verification/Posix.v ===== *)
(** * The system-call layer

    A small POSIX: a flat map from canonical path strings to inodes, a table of
    open descriptors, and an environment that may make any call fail with any
    [errno], deliver short transfers, and answers the clock, the random source,
    [realpath] and the services the code asks.  Every call first asks the
    environment; when it injects no error the call has its documented effect.

    Paths are canonical (no symbolic link above the last component); [realpath]
    is the environment's and a symbolic link is an inode that [O_NOFOLLOW]
    refuses to open. *)

From S2P Require Import Prelude.

(** ** errno *)
Definition EPERM : Z := 1.
Definition ENOENT : Z := 2.
Definition EINTR : Z := 4.
Definition EIO : Z := 5.
Definition EBADF : Z := 9.
Definition EAGAIN : Z := 11.
Definition ENOMEM : Z := 12.
Definition EACCES : Z := 13.
Definition EBUSY : Z := 16.
Definition EEXIST : Z := 17.
Definition EXDEV : Z := 18.
Definition ENOTDIR : Z := 20.
Definition EISDIR : Z := 21.
Definition EINVAL : Z := 22.
Definition ENOSPC : Z := 28.
Definition ENOTEMPTY : Z := 39.
Definition ELOOP : Z := 40.
Definition EDQUOT : Z := 122.
Definition EWOULDBLOCK : Z := EAGAIN.

(** ** Inodes, descriptors, worlds *)
Inductive ftype := FReg | FDir | FLnk.
#[export] Instance ftype_eq_dec : EqDecision ftype.
Proof. solve_decision. Defined.

Record inode := Inode {
  i_type : ftype;
  i_uid : Z;
  i_mode : Z;               (** permission bits *)
  i_data : list Z;          (** bytes of a regular file *)
  i_lock : option Z         (** descriptor that holds [flock(LOCK_EX)] *)
}.

Record ofd := Ofd { fd_path : string; fd_pos : nat }.

Record world := World {
  w_fs : gmap string inode;
  w_fds : gmap Z ofd;
  w_nextfd : Z;
  w_clk : nat               (** number of calls made so far *)
}.

Abbreviation io := (st world).

Inductive oflag :=
  | O_RDONLY | O_WRONLY | O_RDWR | O_CREAT | O_EXCL | O_TRUNC | O_DIRECTORY
  | O_NOFOLLOW | O_CLOEXEC | O_DIRECT.
#[export] Instance oflag_eq_dec : EqDecision oflag.
Proof. solve_decision. Defined.

(** Result of a call: [SErr e] is [-1] with [errno = e]. *)
Inductive sysres (A : Type) := SErr (e : Z) | SOk (a : A).
Arguments SErr {A} e.
Arguments SOk {A} a.

(** The kinds of calls, so that hypotheses can say which of them may fail. *)
Inductive sysno :=
  | N_open | N_stat | N_unlink | N_rmdir | N_mkdir | N_rename | N_readdir | N_flock
  | N_dup | N_fdopendir | N_fsync | N_write | N_pread.

(** The environment.  Every answer depends on the number of the call. *)
Class Env := {
  env_fault : sysno → nat → Z;          (** injected errno; 0 for none *)
  env_cap : nat → nat;                  (** most bytes a transfer moves *)
  env_euid : Z;
  env_now : nat → Z;                    (** milliseconds *)
  env_rand : nat → string;              (** [MakeRandomId] *)
  env_realpath : nat → string → sysres string;
  env_system_app : nat → bool;          (** [IsSystemAppByFullTokenID] *)
  env_sa : nat → bool;                  (** storage manager SA registered *)
  env_iface : nat → bool;               (** [iface_cast] succeeds *)
  env_free : nat → sysres Z;            (** [GetFreeSize] over IPC *)
  env_fuel : nat                        (** bound on retry loops *)
}.

Section calls.
Context {EN : Env}.

Definition tick (w : world) : world :=
  World (w_fs w) (w_fds w) (w_nextfd w) (S (w_clk w)).

(** Run [body] unless the environment injects an error. *)
Definition syscall {A} (k : sysno) (body : nat → world → sysres A * world) : io (sysres A) :=
  λ w, let n := w_clk w in
       if env_fault k n =? 0 then Some (body n (tick w))
       else Some (SErr (env_fault k n), tick w).

(** An answer of the environment without effect on the world. *)
Definition ask {A} (f : nat → A) : io A := λ w, Some (f (w_clk w), tick w).

Definition set_fs (f : gmap string inode) (w : world) : world :=
  World f (w_fds w) (w_nextfd w) (w_clk w).
Definition set_fds (f : gmap Z ofd) (w : world) : world :=
  World (w_fs w) f (w_nextfd w) (w_clk w).

Definition new_fd (p : string) (w : world) : sysres Z * world :=
  (SOk (w_nextfd w),
   World (w_fs w) (<[w_nextfd w := Ofd p 0]> (w_fds w)) (w_nextfd w + 1) (w_clk w)).

Definition is_dir (f : gmap string inode) (p : string) : bool :=
  match f !! p with Some i => bool_decide (i_type i = FDir) | None => false end.

Definition dirname (p : string) : string :=
  match rsplit p with
  | Some (EmptyString, _) => "/"
  | Some (d, _) => d
  | None => "."
  end.

Definition fresh_inode (t : ftype) (mode : Z) : inode := Inode t env_euid mode [] None.

Definition open_body (p : string) (flags : list oflag) (mode : Z) (w : world) : sysres Z * world :=
  match w_fs w !! p with
  | None =>
      if bool_decide (O_CREAT ∈ flags) then
        if is_dir (w_fs w) (dirname p)
        then new_fd p (set_fs (<[p := fresh_inode FReg mode]> (w_fs w)) w)
        else (SErr ENOENT, w)
      else (SErr ENOENT, w)
  | Some i =>
      if bool_decide (O_CREAT ∈ flags) && bool_decide (O_EXCL ∈ flags) then (SErr EEXIST, w)
      else match i_type i with
      | FLnk => (SErr (if bool_decide (O_DIRECTORY ∈ flags) then ENOTDIR else ELOOP), w)
      | FDir =>
          if bool_decide (O_WRONLY ∈ flags) || bool_decide (O_RDWR ∈ flags)
          then (SErr EISDIR, w) else new_fd p w
      | FReg =>
          if bool_decide (O_DIRECTORY ∈ flags) then (SErr ENOTDIR, w)
          else if bool_decide (O_TRUNC ∈ flags)
          then new_fd p (set_fs (<[p := Inode FReg (i_uid i) (i_mode i) [] (i_lock i)]> (w_fs w)) w)
          else new_fd p w
      end
  end.

Definition sys_open (p : string) (flags : list oflag) (mode : Z) : io (sysres Z) :=
  syscall N_open (λ _, open_body p flags mode).

(** The path a descriptor is open on. *)
Definition fd_dir (fd : Z) (w : world) : option string := fd_path <$> w_fds w !! fd.

Definition at_path {A} (fd : Z) (k : string → world → sysres A * world) (w : world) :
    sysres A * world :=
  match fd_dir fd w with Some d => k d w | None => (SErr EBADF, w) end.

Definition sys_openat (fd : Z) (name : string) (flags : list oflag) (mode : Z) : io (sysres Z) :=
  syscall N_open (λ _, at_path fd (λ d, open_body (child d name) flags mode)).

(** Closing a descriptor releases the locks taken through it. *)
Definition unlock_fd (fd : Z) (i : inode) : inode :=
  if bool_decide (i_lock i = Some fd)
  then Inode (i_type i) (i_uid i) (i_mode i) (i_data i) None else i.

Definition sys_close (fd : Z) : io unit := λ w,
  Some (tt, tick (World (unlock_fd fd <$> w_fs w) (delete fd (w_fds w)) (w_nextfd w) (w_clk w))).

Definition lookup_body (p : string) (w : world) : sysres inode * world :=
  match w_fs w !! p with Some i => (SOk i, w) | None => (SErr ENOENT, w) end.

Definition sys_lstat (p : string) : io (sysres inode) := syscall N_stat (λ _, lookup_body p).
Definition sys_fstat (fd : Z) : io (sysres inode) := syscall N_stat (λ _, at_path fd lookup_body).
(** [fstatat(fd, name, AT_SYMLINK_NOFOLLOW)] *)
Definition sys_fstatat (fd : Z) (name : string) : io (sysres inode) :=
  syscall N_stat (λ _, at_path fd (λ d, lookup_body (child d name))).

Definition unlink_body (p : string) (w : world) : sysres unit * world :=
  match w_fs w !! p with
  | None => (SErr ENOENT, w)
  | Some i => if bool_decide (i_type i = FDir) then (SErr EISDIR, w)
              else (SOk tt, set_fs (delete p (w_fs w)) w)
  end.
Definition sys_unlink (p : string) : io (sysres unit) := syscall N_unlink (λ _, unlink_body p).
Definition sys_unlinkat (fd : Z) (name : string) : io (sysres unit) :=
  syscall N_unlink (λ _, at_path fd (λ d, unlink_body (child d name))).

(** Names of the entries of directory [d]. *)
Definition entry_name (d p : string) : option string :=
  match below d p with
  | Some r => if has_slash r then None else Some r
  | None => None
  end.
Definition dir_names (f : gmap string inode) (d : string) : list string :=
  omap (entry_name d) (elements (dom f)).

Definition rmdir_body (p : string) (w : world) : sysres unit * world :=
  match w_fs w !! p with
  | None => (SErr ENOENT, w)
  | Some i => if bool_decide (i_type i = FDir)
              then match dir_names (w_fs w) p with
                   | [] => (SOk tt, set_fs (delete p (w_fs w)) w)
                   | _ :: _ => (SErr ENOTEMPTY, w)
                   end
              else (SErr ENOTDIR, w)
  end.
Definition sys_rmdir (p : string) : io (sysres unit) := syscall N_rmdir (λ _, rmdir_body p).
Definition sys_rmdirat (fd : Z) (name : string) : io (sysres unit) :=
  syscall N_rmdir (λ _, at_path fd (λ d, rmdir_body (child d name))).

Definition mkdir_body (p : string) (mode : Z) (w : world) : sysres unit * world :=
  match w_fs w !! p with
  | Some _ => (SErr EEXIST, w)
  | None => if is_dir (w_fs w) (dirname p)
            then (SOk tt, set_fs (<[p := fresh_inode FDir mode]> (w_fs w)) w)
            else (SErr ENOENT, w)
  end.
Definition sys_mkdir (p : string) (mode : Z) : io (sysres unit) :=
  syscall N_mkdir (λ _, mkdir_body p mode).
Definition sys_mkdirat (fd : Z) (name : string) (mode : Z) : io (sysres unit) :=
  syscall N_mkdir (λ _, at_path fd (λ d, mkdir_body (child d name) mode)).

(** Where the path [p] is after [old] was renamed to [new]. *)
Definition moved (old new p : string) : string :=
  if bool_decide (p = old) then new
  else match below old p with Some r => child new r | None => p end.

Definition rename_body (old new : string) (w : world) : sysres unit * world :=
  match w_fs w !! old with
  | None => (SErr ENOENT, w)
  | Some i =>
      if bool_decide (old = new) then (SOk tt, w)
      else if is_dir (w_fs w) new && negb (bool_decide (i_type i = FDir)) then (SErr EISDIR, w)
      else match dir_names (w_fs w) new with
      | _ :: _ => (SErr ENOTEMPTY, w)
      | [] => (SOk tt,
          World (list_to_map (map (λ '(p, j), (moved old new p, j))
                   (map_to_list (delete new (w_fs w)))))
                ((λ o, Ofd (moved old new (fd_path o)) (fd_pos o)) <$> w_fds w)
                (w_nextfd w) (w_clk w))
      end
  end.
Definition sys_rename (old new : string) : io (sysres unit) := syscall N_rename (λ _, rename_body old new).
Definition sys_renameat (fd : Z) (old : string) (fd' : Z) (new : string) : io (sysres unit) :=
  syscall N_rename (λ _, at_path fd (λ d, at_path fd' (λ d', rename_body (child d old) (child d' new)))).

(** [readdir] over the whole directory: the names, then the error that ended
    the scan, if any. *)
Definition sys_readdir_all (fd : Z) : io (list string * Z) := λ w,
  let n := w_clk w in
  match fd_dir fd w with
  | Some d =>
      let e := env_fault N_readdir n in
      Some (firstn (if e =? 0 then length (dir_names (w_fs w) d) else env_cap n)
              (dir_names (w_fs w) d), e, tick w)
  | None => Some ([], EBADF, tick w)
  end.

(** [flock(fd, LOCK_EX | LOCK_NB)] *)
Definition sys_flock (fd : Z) : io (sysres unit) :=
  syscall N_flock (λ _, at_path fd (λ p w,
    match w_fs w !! p with
    | None => (SErr ENOENT, w)
    | Some i =>
        match i_lock i with
        | Some h => if h =? fd then (SOk tt, w) else (SErr EWOULDBLOCK, w)
        | None => (SOk tt, set_fs (<[p := Inode (i_type i) (i_uid i) (i_mode i) (i_data i) (Some fd)]>
                                    (w_fs w)) w)
        end
    end)).

(** [flock(fd, LOCK_UN)] *)
Definition sys_funlock (fd : Z) : io unit := λ w,
  Some (tt, tick (set_fs (unlock_fd fd <$> w_fs w) w)).

Definition sys_dup (fd : Z) : io (sysres Z) :=
  syscall N_dup (λ _, at_path fd new_fd).

(** [fdopendir(fd)]: the stream keeps using the descriptor. *)
Definition sys_fdopendir (fd : Z) : io (sysres unit) :=
  syscall N_fdopendir (λ _, at_path fd (λ _ w, (SOk tt, w))).

Definition sys_fsync (fd : Z) : io (sysres unit) := syscall N_fsync (λ _ w, (SOk tt, w)).

(** Overwrite [data] with [chunk] at [pos]. *)
Definition overwrite (data : list Z) (pos : nat) (chunk : list Z) : list Z :=
  firstn pos data ++ chunk ++ skipn (pos + length chunk) data.

(** [write(fd, buf, len)]: moves at most [env_cap] bytes. *)
Definition sys_write (fd : Z) (buf : list Z) : io (sysres Z) :=
  syscall N_write (λ n w,
    match w_fds w !! fd with
    | Some o =>
        match w_fs w !! fd_path o with
        | Some i =>
            let chunk := firstn (env_cap n) buf in
            (SOk (Z.of_nat (length chunk)),
             World (<[fd_path o := Inode (i_type i) (i_uid i) (i_mode i)
                        (overwrite (i_data i) (fd_pos o) chunk) (i_lock i)]> (w_fs w))
                   (<[fd := Ofd (fd_path o) (fd_pos o + length chunk)]> (w_fds w))
                   (w_nextfd w) (w_clk w))
        | None => (SErr EIO, w)
        end
    | None => (SErr EBADF, w)
    end).

(** [pread(fd, buf, len, off)]: the bytes moved into the buffer. *)
Definition sys_pread (fd : Z) (len : nat) (off : nat) : io (sysres (list Z)) :=
  syscall N_pread (λ n w,
    match w_fds w !! fd with
    | Some o =>
        match w_fs w !! fd_path o with
        | Some i => (SOk (firstn (Nat.min len (env_cap n)) (skipn off (i_data i))), w)
        | None => (SErr EIO, w)
        end
    | None => (SErr EBADF, w)
    end).

(** [realpath] *)
Definition sys_realpath (p : string) : io (sysres string) :=
  ask (λ n, env_realpath n p).
End calls.

(** A world that differs only in the number of calls made. *)
Definition same_files (w w' : world) : Prop :=
  w_fs w' = w_fs w ∧ w_fds w' = w_fds w ∧ w_nextfd w' = w_nextfd w.

Create HintDb wfdb.

(** ** Rules for the calls *)
Section rules.
Context {EN : Env}.
Implicit Types (w : world).

Lemma wp_syscall {A} k (body : nat → world → sysres A * world) Q w :
  (env_fault k (w_clk w) ≠ 0 → Q (SErr (env_fault k (w_clk w))) (tick w)) →
  (env_fault k (w_clk w) = 0 →
    Q (body (w_clk w) (tick w)).1 (body (w_clk w) (tick w)).2) →
  wp (syscall k body) Q w.
Proof.
  intros Hf Ho. unfold wp, syscall. destruct (_ =? 0) eqn:E; zbool; [|auto].
  specialize (Ho E). by destruct (body _ _).
Qed.

Lemma syscall_returns {A} k (body : nat → world → sysres A * world) w :
  returns (syscall k body) w.
Proof. unfold returns, syscall. destruct (_ =? 0); eauto. Qed.

(** Descriptors and lock holders are numbers already handed out. *)
Definition world_wf w : Prop :=
  (∀ fd o, w_fds w !! fd = Some o → fd < w_nextfd w) ∧
  (∀ p i h, w_fs w !! p = Some i → i_lock i = Some h → h < w_nextfd w).

Lemma world_wf_fresh w : world_wf w → w_fds w !! w_nextfd w = None.
Proof.
  intros [Hf _]. destruct (w_fds w !! w_nextfd w) as [o|] eqn:E; [|done].
  apply Hf in E. lia.
Qed.

(** Closing a descriptor that holds no lock leaves the files alone. *)
Lemma unlock_fd_id (fd : Z) (m : gmap string inode) :
  (∀ p i, m !! p = Some i → i_lock i ≠ Some fd) → unlock_fd fd <$> m = m.
Proof.
  intros H. apply map_eq. intros p. rewrite lookup_fmap.
  destruct (m !! p) as [i|] eqn:E; [|done]. cbn. f_equal.
  unfold unlock_fd. rewrite bool_decide_false; [done|]. eauto.
Qed.

Lemma unlock_fd_data fd i : i_data (unlock_fd fd i) = i_data i.
Proof. unfold unlock_fd. by case_bool_decide. Qed.
Lemma unlock_fd_type fd i : i_type (unlock_fd fd i) = i_type i.
Proof. unfold unlock_fd. by case_bool_decide. Qed.

Lemma wp_close fd Q w :
  Q tt (tick (World (unlock_fd fd <$> w_fs w) (delete fd (w_fds w)) (w_nextfd w) (w_clk w))) →
  wp (sys_close fd) Q w.
Proof. done. Qed.

(** What a successful [open] leaves at [p]. *)
Definition opened (w : world) (p : string) (flags : list oflag) (i : inode) : Prop :=
  match w_fs w !! p with
  | None => O_CREAT ∈ flags ∧ i_type i = FReg ∧ i_data i = [] ∧ i_lock i = None
  | Some i0 =>
      i_type i = i_type i0 ∧ i_uid i = i_uid i0 ∧ i_mode i = i_mode i0 ∧ i_lock i = i_lock i0 ∧
      (i_type i = FReg ∧ (O_DIRECTORY ∉ flags) ∧
         i_data i = (if bool_decide (O_TRUNC ∈ flags) then [] else i_data i0) ∨
       i_type i = FDir ∧ i = i0 ∧ (O_WRONLY ∉ flags) ∧ (O_RDWR ∉ flags))
  end.

Lemma open_body_spec p flags mode w :
  (∃ e, open_body p flags mode w = (SErr e, w)) ∨
  (∃ i, open_body p flags mode w =
     (SOk (w_nextfd w),
      World (<[p := i]> (w_fs w)) (<[w_nextfd w := Ofd p 0]> (w_fds w)) (w_nextfd w + 1) (w_clk w))
     ∧ opened w p flags i).
Proof.
  unfold open_body, opened, new_fd, set_fs. destruct (w_fs w !! p) as [i0|] eqn:Hp.
  - destruct (bool_decide (O_CREAT ∈ flags) && bool_decide (O_EXCL ∈ flags)); [eauto|].
    destruct (i_type i0) eqn:Ht; [| |eauto].
    + case_bool_decide; [eauto|]. right. case_bool_decide.
      * eexists. split; [reflexivity|]. cbn. split_and!; try done. by left.
      * exists i0. rewrite (insert_id (w_fs w) p i0 Hp). split_and!; try done. by left.
    + case_bool_decide; cbn; [eauto|]. case_bool_decide; [eauto|]. right.
      exists i0. rewrite (insert_id (w_fs w) p i0 Hp). split_and!; try done. by right.
  - case_bool_decide; [|eauto]. case_match; [|eauto]. right. eexists. split; [reflexivity|].
    done.
Qed.

(** Opening: an error without effect, or a new descriptor on [p]. *)
Lemma wp_open p flags mode Q w :
  (∀ e, Q (SErr e) (tick w)) →
  (∀ i, opened w p flags i →
     Q (SOk (w_nextfd w))
       (World (<[p := i]> (w_fs w)) (<[w_nextfd w := Ofd p 0]> (w_fds w))
              (w_nextfd w + 1) (S (w_clk w)))) →
  wp (sys_open p flags mode) Q w.
Proof.
  intros He Ho. apply wp_syscall; [auto|]. intros _.
  destruct (open_body_spec p flags mode (tick w)) as [[e ->]|(i & -> & Hi)]; cbn; auto.
Qed.

Lemma opened_lock w p flags i h :
  opened w p flags i → i_lock i = Some h → ∃ i0, w_fs w !! p = Some i0 ∧ i_lock i0 = Some h.
Proof. unfold opened. case_match; [intros (_&_&_&->&_); eauto|]. by intros (_&_&_&->). Qed.

(** The world after an [open] is well formed. *)
Lemma world_wf_opened w p flags i n :
  world_wf w → opened w p flags i →
  world_wf (World (<[p := i]> (w_fs w)) (<[w_nextfd w := Ofd p 0]> (w_fds w)) (w_nextfd w + 1) n).
Proof.
  intros [Hf Hl] Ho. split; cbn.
  - intros fd o [[<- _]|[_ Hfd]]%lookup_insert_Some; [lia|]. apply Hf in Hfd. lia.
  - intros q j h [[<- <-]|[_ Hq]]%lookup_insert_Some Hj.
    + destruct (opened_lock _ _ _ _ _ Ho Hj) as (i0 & Hi0 & Hl0). specialize (Hl _ _ _ Hi0 Hl0). lia.
    + specialize (Hl _ _ _ Hq Hj). lia.
Qed.

(** No lock is held through a descriptor number not handed out yet. *)
Lemma world_wf_nolock w fd p i :
  world_wf w → w_nextfd w <= fd → w_fs w !! p = Some i → i_lock i ≠ Some fd.
Proof. intros [_ Hl] Hfd Hp Hi. specialize (Hl _ _ _ Hp Hi). lia. Qed.

(** No more than [B] calls of kind [k] in a row are interrupted. *)
Definition eintr_bound (k : sysno) (B : nat) : Prop :=
  ∀ n, ∃ j, (j <= B)%nat ∧ env_fault k (n + j) ≠ EINTR.

(** Every call keeps the world well formed. *)
Definition keeps_wf {A} (m : io A) : Prop := ∀ w, world_wf w → wp m (λ _ w', world_wf w') w.

Lemma keeps_ret {A} (a : A) : keeps_wf (sret a).
Proof. by intros w Hw. Qed.
Lemma keeps_bind {A B} (m : io A) (f : A → io B) :
  keeps_wf m → (∀ a, keeps_wf (f a)) → keeps_wf (bind m f).
Proof.
  intros Hm Hf w Hw. apply wp_bind. eapply wp_mono; [|by apply Hm]. intros a w' Hw'. by apply Hf.
Qed.
Lemma keeps_none {A} : keeps_wf (A:=A) (λ _, None).
Proof. done. Qed.
Lemma keeps_ask {A} (f : nat → A) : keeps_wf (ask f).
Proof. by intros w Hw. Qed.
Lemma keeps_syscall {A} k (body : nat → world → sysres A * world) :
  (∀ n w, world_wf w → world_wf (body n w).2) → keeps_wf (syscall k body).
Proof. intros H w Hw. apply wp_syscall; [done|]. intros _. by apply H. Qed.

Lemma at_path_wf {A} fd (k : string → world → sysres A * world) w :
  (∀ p w, world_wf w → world_wf (k p w).2) → world_wf w → world_wf (at_path fd k w).2.
Proof. intros H Hw. unfold at_path. destruct (fd_dir fd w); [by apply H|done]. Qed.

(** Files may go, keep their locks, or appear unlocked. *)
Lemma world_wf_set_fs f w :
  world_wf w →
  (∀ p i h, f !! p = Some i → i_lock i = Some h → ∃ q j, w_fs w !! q = Some j ∧ i_lock j = Some h) →
  world_wf (set_fs f w).
Proof.
  intros [Hf Hl] H. split; [exact Hf|]. cbn. intros p i h Hp Hh.
  destruct (H p i h Hp Hh) as (q & j & Hq & Hj). by eapply Hl.
Qed.
Lemma world_wf_delete p w : world_wf w → world_wf (set_fs (delete p (w_fs w)) w).
Proof. intros Hw. apply world_wf_set_fs; [done|]. intros q i h [_ Hq]%lookup_delete_Some; eauto. Qed.
Lemma world_wf_fresh_inode p t mode w : world_wf w → world_wf (set_fs (<[p := fresh_inode t mode]> (w_fs w)) w).
Proof.
  intros Hw. apply world_wf_set_fs; [done|].
  intros q i h [[_ <-]|[_ Hq]]%lookup_insert_Some Hh; [done|eauto].
Qed.

Lemma open_body_wf p flags mode w : world_wf w → world_wf (open_body p flags mode w).2.
Proof.
  intros Hw. destruct (open_body_spec p flags mode w) as [[e ->]|(i & -> & Ho)]; [done|].
  by apply world_wf_opened with (flags := flags).
Qed.
Lemma lookup_body_wf p w : world_wf w → world_wf (lookup_body p w).2.
Proof. unfold lookup_body. by destruct (w_fs w !! p). Qed.
Lemma unlink_body_wf p w : world_wf w → world_wf (unlink_body p w).2.
Proof.
  intros Hw. unfold unlink_body. destruct (w_fs w !! p); [|done].
  case_bool_decide; [done|]. by apply world_wf_delete.
Qed.
Lemma rmdir_body_wf p w : world_wf w → world_wf (rmdir_body p w).2.
Proof.
  intros Hw. unfold rmdir_body. destruct (w_fs w !! p); [|done].
  case_bool_decide; [|done]. destruct (dir_names _ _); [by apply world_wf_delete|done].
Qed.
Lemma mkdir_body_wf p mode w : world_wf w → world_wf (mkdir_body p mode w).2.
Proof.
  intros Hw. unfold mkdir_body. destruct (w_fs w !! p); [done|].
  destruct (is_dir _ _); [by apply world_wf_fresh_inode|done].
Qed.
Lemma rename_body_wf old new w : world_wf w → world_wf (rename_body old new w).2.
Proof.
  intros [Hf Hl]. unfold rename_body. destruct (w_fs w !! old); [|done].
  case_bool_decide; [done|]. destruct (_ && _); [done|]. destruct (dir_names _ _); [|done].
  split; cbn.
  - intros fd o Hfd. rewrite lookup_fmap in Hfd. destruct (w_fds w !! fd) as [o'|] eqn:E; [|done].
    by eapply Hf.
  - intros q j h Hq Hh. apply elem_of_list_to_map_2, list_elem_of_In, in_map_iff in Hq
      as ([p j'] & [= _ <-] & Hin).
    apply list_elem_of_In, elem_of_map_to_list, lookup_delete_Some in Hin as [_ Hp]. by eapply Hl.
Qed.

Lemma keeps_open p flags mode : keeps_wf (sys_open p flags mode).
Proof. apply keeps_syscall. intros n w. apply open_body_wf. Qed.
Lemma keeps_openat fd name flags mode : keeps_wf (sys_openat fd name flags mode).
Proof. apply keeps_syscall. intros n w. apply at_path_wf. intros p w'. apply open_body_wf. Qed.
Lemma keeps_close fd : keeps_wf (sys_close fd).
Proof.
  intros w [Hf Hl]. apply wp_close. split; cbn.
  - intros fd' o [_ Hfd]%lookup_delete_Some. by eapply Hf.
  - intros p i h Hp Hh. rewrite lookup_fmap in Hp. destruct (w_fs w !! p) as [j|] eqn:E; [|done].
    injection Hp as <-. unfold unlock_fd in Hh. case_bool_decide; [done|]. by eapply Hl.
Qed.
Lemma keeps_funlock fd : keeps_wf (sys_funlock fd).
Proof.
  intros w Hw. apply world_wf_set_fs; [done|].
  intros p i h Hp Hh. rewrite lookup_fmap in Hp. destruct (w_fs w !! p) as [j|] eqn:E; [|done].
  injection Hp as <-. unfold unlock_fd in Hh. case_bool_decide; [done|]. eauto.
Qed.
Lemma keeps_lstat p : keeps_wf (sys_lstat p).
Proof. apply keeps_syscall. intros n w. apply lookup_body_wf. Qed.
Lemma keeps_fstat fd : keeps_wf (sys_fstat fd).
Proof. apply keeps_syscall. intros n w. apply at_path_wf. intros p w'. apply lookup_body_wf. Qed.
Lemma keeps_fstatat fd name : keeps_wf (sys_fstatat fd name).
Proof. apply keeps_syscall. intros n w. apply at_path_wf. intros p w'. apply lookup_body_wf. Qed.
Lemma keeps_unlink p : keeps_wf (sys_unlink p).
Proof. apply keeps_syscall. intros n w. apply unlink_body_wf. Qed.
Lemma keeps_unlinkat fd name : keeps_wf (sys_unlinkat fd name).
Proof. apply keeps_syscall. intros n w. apply at_path_wf. intros p w'. apply unlink_body_wf. Qed.
Lemma keeps_rmdir p : keeps_wf (sys_rmdir p).
Proof. apply keeps_syscall. intros n w. apply rmdir_body_wf. Qed.
Lemma keeps_rmdirat fd name : keeps_wf (sys_rmdirat fd name).
Proof. apply keeps_syscall. intros n w. apply at_path_wf. intros p w'. apply rmdir_body_wf. Qed.
Lemma keeps_mkdir p mode : keeps_wf (sys_mkdir p mode).
Proof. apply keeps_syscall. intros n w. apply mkdir_body_wf. Qed.
Lemma keeps_mkdirat fd name mode : keeps_wf (sys_mkdirat fd name mode).
Proof. apply keeps_syscall. intros n w. apply at_path_wf. intros p w'. apply mkdir_body_wf. Qed.
Lemma keeps_rename old new : keeps_wf (sys_rename old new).
Proof. apply keeps_syscall. intros n w. apply rename_body_wf. Qed.
Lemma keeps_renameat fd old fd' new : keeps_wf (sys_renameat fd old fd' new).
Proof.
  apply keeps_syscall. intros n w. apply at_path_wf. intros p w'. apply at_path_wf.
  intros p' w''. apply rename_body_wf.
Qed.
Lemma keeps_readdir fd : keeps_wf (sys_readdir_all fd).
Proof. intros w Hw. unfold wp, sys_readdir_all. by destruct (fd_dir fd w). Qed.
Lemma new_fd_wf p w : world_wf w → world_wf (new_fd p w).2.
Proof.
  intros [Hf Hl]. split; cbn.
  - intros fd o [[<- _]|[_ Hfd]]%lookup_insert_Some; [lia|]. apply Hf in Hfd. lia.
  - intros q i h Hq Hi. specialize (Hl _ _ _ Hq Hi). lia.
Qed.
Lemma keeps_dup fd : keeps_wf (sys_dup fd).
Proof. apply keeps_syscall. intros n w. apply at_path_wf. intros p w'. apply new_fd_wf. Qed.
Lemma keeps_fdopendir fd : keeps_wf (sys_fdopendir fd).
Proof. apply keeps_syscall. intros n w. by apply at_path_wf. Qed.
(** The lock is taken through a descriptor that is open. *)
Lemma keeps_flock fd : keeps_wf (sys_flock fd).
Proof.
  apply keeps_syscall. intros n w Hw. unfold at_path, fd_dir.
  destruct (w_fds w !! fd) as [o|] eqn:Ho; [|done]. cbn.
  destruct (w_fs w !! fd_path o) as [i|]; [|done].
  destruct (i_lock i) as [h|]; [by destruct (h =? fd)|]. destruct Hw as [Hf Hl]. split; [done|]. cbn.
  intros p j h [[_ <-]|[_ Hp]]%lookup_insert_Some Hh.
  - injection Hh as <-. by eapply Hf.
  - by eapply Hl.
Qed.
Lemma keeps_realpath p : keeps_wf (sys_realpath p).
Proof. apply keeps_ask. Qed.

Lemma overwrite_nil data pos : (pos <= length data)%nat → overwrite data pos [] = data.
Proof. intros. unfold overwrite. cbn. rewrite Nat.add_0_r. apply take_drop. Qed.

Lemma overwrite_app data pos c1 c2 :
  (pos <= length data)%nat →
  overwrite (overwrite data pos c1) (pos + length c1) c2 = overwrite data pos (c1 ++ c2).
Proof.
  intros Hp. unfold overwrite.
  rewrite (app_assoc (take pos data)), take_app_length';
    [|rewrite length_app, length_take; lia].
  rewrite drop_app_ge by (rewrite length_app, length_take; lia).
  rewrite drop_drop, !length_app, length_take, <-!app_assoc, Nat.min_l by lia.
  do 4 f_equal. lia.
Qed.

Lemma overwrite_length_ge data pos c :
  (pos <= length data)%nat → (pos + length c <= length (overwrite data pos c))%nat.
Proof. intros. unfold overwrite. rewrite !length_app, length_take. lia. Qed.

Lemma overwrite_all buf : overwrite [] 0 buf = buf.
Proof. unfold overwrite. cbn. rewrite skipn_nil. apply app_nil_r. Qed.
End rules.

(** ** Concrete environments and worlds for the witnesses *)

(** Nothing fails; transfers move at most [cap] bytes; loops get [fuel]. *)
Definition quiet_env (cap fuel : nat) : Env := {|
  env_fault := λ _ _, 0; env_cap := λ _, cap; env_euid := 1000;
  env_now := λ n, 1000 * Z.of_nat n; env_rand := λ _, "cafe";
  env_realpath := λ _ p, SOk p; env_system_app := λ _, true;
  env_sa := λ _, true; env_iface := λ _, true; env_free := λ _, SOk (10 * 2 ^ 30);
  env_fuel := fuel |}.

(** The same, but the calls whose numbers are in [ns] fail with [e]. *)
Definition faulty_env (E : Env) (ns : list nat) (e : Z) : Env := {|
  env_fault := λ k n, if bool_decide (n ∈ ns) then e else @env_fault E k n;
  env_cap := @env_cap E; env_euid := @env_euid E; env_now := @env_now E;
  env_rand := @env_rand E; env_realpath := @env_realpath E;
  env_system_app := @env_system_app E; env_sa := @env_sa E; env_iface := @env_iface E;
  env_free := @env_free E; env_fuel := @env_fuel E |}.

(** A world with the directories [ds], mode 0700, and no open descriptor. *)
Definition dirs_world (ds : list string) : world :=
  World (list_to_map ((λ d, (d, Inode FDir 1000 448 [] None)) <$> ds)) ∅ 3 0.

Lemma dirs_world_wf ds : world_wf (dirs_world ds).
Proof.
  split; cbn; [intros fd o Hfd; by rewrite lookup_empty in Hfd|].
  intros p i h Hp%elem_of_list_to_map_2 Hh.
  apply list_elem_of_fmap in Hp as (d & [= _ ->] & _). done.
Qed.

(** [world_wf], decided. *)
Definition world_wfb (w : world) : bool :=
  forallb (λ '(fd, _), fd <? w_nextfd w) (map_to_list (w_fds w)) &&
  forallb (λ '(_, i), match i_lock i with Some h => h <? w_nextfd w | None => true end)
    (map_to_list (w_fs w)).

Lemma world_wfb_sound w : world_wfb w = true → world_wf w.
Proof.
  unfold world_wfb. intros [Hf Hl]%andb_prop. rewrite forallb_forall in Hf, Hl. split.
  - intros fd o Hfd. assert (In (fd, o) (map_to_list (w_fds w))) as Hin
      by (by apply list_elem_of_In, elem_of_map_to_list).
    specialize (Hf _ Hin). cbn in Hf. lia.
  - intros p i h Hp Hh. assert (In (p, i) (map_to_list (w_fs w))) as Hin
      by (by apply list_elem_of_In, elem_of_map_to_list).
    specialize (Hl _ Hin). cbn in Hl. rewrite Hh in Hl. lia.
Qed.

#[export] Hint Resolve keeps_ret keeps_none keeps_ask keeps_open keeps_openat keeps_close
  keeps_funlock keeps_lstat keeps_fstat keeps_fstatat keeps_unlink keeps_unlinkat keeps_rmdir
  keeps_rmdirat keeps_mkdir keeps_mkdirat keeps_rename keeps_renameat keeps_readdir keeps_dup
  keeps_fdopendir keeps_flock keeps_realpath : wfdb.

(** A computation built from calls keeps the world well formed. *)
Ltac keeps_tac :=
  repeat (first
    [ progress intros
    | solve [eauto with wfdb]
    | apply keeps_bind
    | match goal with
      | |- keeps_wf (if ?b then _ else _) => destruct b
      | |- keeps_wf (match ?x with _ => _ end) => destruct x
      | |- keeps_wf (let _ := _ in _) => cbn zeta
      end ]).

(** Step through the bind and return of a computation. *)
Ltac wp_step :=
  lazymatch goal with
  | |- wp (bind _ _) _ _ => apply wp_bind
  | |- wp (sret _) _ _ => apply wp_ret
  | |- wp (syscall _ _) _ _ => apply wp_syscall
  | |- wp (sys_close _) _ _ => apply wp_close
  | |- wp (if ?b then _ else _) _ _ => destruct b eqn:?
  | |- wp (match ?x with _ => _ end) _ _ => destruct x eqn:?
  end.
