(* ===== verification/RemoteUri.v ===== *)
(** * Remote URIs: descriptors received through a binder

    Models [native/remote_uri/remote_uri.cpp].  A descriptor that another process sent is
    written into a URI and kept in [fdFromBinder] until somebody opens the URI; the set holds
    128 descriptors at most, and makes room by closing the smallest one.  Operations that
    close descriptors say which ones.  The class [Uri] of the system and the name of the
    calling package are parameters. *)

From S2P Require Import Prelude.

Definition FRAGMENT_TAG : ascii := "#".
Definition FD_TAG : ascii := "=".
Definition REMOTE_URI_TAG : string := "fdFromBinder".
Definition SCHEME_TAG : ascii := ":".
Definition SCHEME : string := "datashare".
Definition SCHEME_FILE : string := "file".
Definition MEDIALIBRARY_FILE_URI_PREFIX : string := "file://media".
Definition MEDIA : string := "/media/".
Definition MAX_URI_SIZE : nat := 128.
Definition DIGIT_LENGTH_LIMIT : nat := 9.
Definition EINVAL : Z := 22.
Definition O_RDONLY : Z := 0.

(** ** Strings *)

(** [find] of a character. *)
Fixpoint find_char (c : ascii) (s : string) : option nat :=
  match s with
  | EmptyString => None
  | String x s => if Ascii.eqb c x then Some O else S <$> find_char c s
  end.
(** [substr (pos)] *)
Fixpoint string_drop (n : nat) (s : string) : string :=
  match n, s with
  | S n, String _ s => string_drop n s
  | _, _ => s
  end.
Fixpoint string_take (n : nat) (s : string) : string :=
  match n, s with
  | S n, String x s => String x (string_take n s)
  | _, _ => EmptyString
  end.
Definition digit_value (c : ascii) : Z := Z.of_nat (nat_of_ascii c) - 48.
Definition isdigit (c : ascii) : bool := (0 <=? digit_value c) && (digit_value c <=? 9).
Definition digit (d : Z) : ascii := ascii_of_nat (Z.to_nat (d + 48)).
(** [stoi] of digits. *)
Definition stoi (s : string) : Z := fold_left (λ n c, 10 * n + digit_value c) (String.list_ascii_of_string s) 0.
(** [std::to_string] of a number below [10 ^ fuel]. *)
Fixpoint to_string_fuel (fuel : nat) (n : Z) : string :=
  match fuel with
  | O => EmptyString
  | S fuel =>
      if n <? 10 then String (digit n) EmptyString
      else to_string_fuel fuel (n / 10) +:+ String (digit (n mod 10)) EmptyString
  end.
(** Of a number that is not negative; an [int] has ten digits at most. *)
Definition to_string (n : Z) : string := to_string_fuel 10 n.

(** ** The class *)

(** [OHOS::Uri] *)
Class UriLib := { Uri_GetScheme : string → string; Uri_GetPath : string → string }.

Definition IsMediaUri {UL : UriLib} (uriString : string) : bool :=
  match String.index 0 MEDIALIBRARY_FILE_URI_PREFIX uriString with
  | Some _ => true
  | None =>
      let scheme := Uri_GetScheme uriString in
      let path := Uri_GetPath uriString in
      let len := String.length MEDIA in
      if (len <? String.length path)%nat then
        let media := string_take len path in
        (scheme =? SCHEME)%string && (media =? MEDIA)%string
      else false
  end.

Definition IsFileUri {UL : UriLib} (uriString : string) : bool := (Uri_GetScheme uriString =? SCHEME_FILE)%string.

Definition IsAllDigits (fdStr : string) : bool := forallb isdigit (String.list_ascii_of_string fdStr).

(** The smallest element, [*begin ()]. *)
Definition set_begin (X : gset Z) : option Z :=
  match elements X with [] => None | x :: l => Some (foldr Z.min x l) end.

Definition RemoveFd (fd : Z) (fdFromBinder : gset Z) : gset Z := fdFromBinder ∖ {[fd]}.

(** Whether it is one, [fd] after the call, and the set. *)
Definition IsRemoteUri (path : string) (fd flags : Z) (fdFromBinder : gset Z) : bool * Z * gset Z :=
  match find_char SCHEME_TAG path, find_char FRAGMENT_TAG path, find_char FD_TAG path with
  | Some posDatashare, Some posFragment, Some posFd =>
      let scheme := string_take posDatashare path in
      if negb (scheme =? SCHEME)%string then (false, fd, fdFromBinder) else
      let fragment := string_take (String.length REMOTE_URI_TAG) (string_drop (S posFragment) path) in
      if (fragment =? REMOTE_URI_TAG)%string then
        let fdStr := string_drop (S posFd) path in
        if IsAllDigits fdStr then
          if (DIGIT_LENGTH_LIMIT <? String.length fdStr)%nat || (String.length fdStr <? 1)%nat
          then (false, fd, fdFromBinder)
          else
            let fd := stoi fdStr in
            let fd := if (fd <? 0) || negb (flags =? O_RDONLY) then -1 else fd in
            (true, fd, RemoveFd fd fdFromBinder)
        else (true, -1, fdFromBinder)
      else (false, fd, fdFromBinder)
  | _, _, _ => (false, fd, fdFromBinder)
  end.

(** The result, the URI, the set and the descriptors it closed. *)
Definition ConvertUri (pkgName : string) (fd : Z) (fdFromBinder : gset Z) : Z * string * gset Z * list Z :=
  if fd <? 0 then (- EINVAL, EmptyString, fdFromBinder, []) else
  let '(fdFromBinder, closed) :=
    if (size fdFromBinder =? MAX_URI_SIZE)%nat then
      match set_begin fdFromBinder with
      | Some first => (fdFromBinder ∖ {[first]}, [first])
      | None => (fdFromBinder, [])
      end
    else (fdFromBinder, []) in
  let fdFromBinder := {[fd]} ∪ fdFromBinder in
  let remoteUri := SCHEME +:+ ":///" +:+ pkgName +:+ "/" +:+ String FRAGMENT_TAG EmptyString +:+
                   REMOTE_URI_TAG +:+ String FD_TAG EmptyString +:+ to_string fd in
  (0, remoteUri, fdFromBinder, closed).

Definition OpenRemoteUri (remoteUri : string) (fdFromBinder : gset Z) : Z * gset Z :=
  let fd := -1 in
  let '(_, fd, fdFromBinder) := IsRemoteUri remoteUri fd O_RDONLY fdFromBinder in
  (fd, fdFromBinder).

(** ** Numbers as text *)

Lemma list_ascii_append (a b : string) :
  String.list_ascii_of_string (a +:+ b) = String.list_ascii_of_string a ++ String.list_ascii_of_string b.
Proof. induction a as [|x a IH]; [done|]. rewrite append_cons. cbn. by rewrite IH. Qed.

Lemma digit_value_digit (d : Z) : 0 <= d < 10 → digit_value (digit d) = d.
Proof.
  intros Hd. unfold digit_value, digit. rewrite Ascii.nat_ascii_embedding by lia. lia.
Qed.

Lemma stoi_snoc (s : string) (c : ascii) :
  stoi (s +:+ String c EmptyString) = 10 * stoi s + digit_value c.
Proof. unfold stoi. by rewrite list_ascii_append, fold_left_app. Qed.

Lemma to_string_length (fuel k : nat) (n : Z) :
  (0 < k)%nat → 0 <= n < 10 ^ Z.of_nat k → (String.length (to_string_fuel fuel n) <= k)%nat.
Proof.
  revert k n. induction fuel as [|fuel IH]; intros k n Hk Hn; [cbn; lia|].
  cbn [to_string_fuel]. destruct (n <? 10) eqn:E; zbool; [cbn; lia|].
  destruct k as [|[|k]]; [lia|cbn in Hn; lia|]. rewrite length_append. cbn [String.length].
  rewrite Nat2Z.inj_succ, Z.pow_succ_r in Hn by lia.
  enough (String.length (to_string_fuel fuel (n / 10)) <= S k)%nat by lia.
  apply IH; [lia|]. split; [apply Z.div_pos; lia|apply Z.div_lt_upper_bound; lia].
Qed.

Lemma to_string_digits (fuel : nat) (n : Z) :
  (0 < fuel)%nat → 0 <= n < 10 ^ Z.of_nat fuel →
  let s := to_string_fuel fuel n in
  stoi s = n ∧ IsAllDigits s = true ∧ (0 < String.length s)%nat.
Proof.
  revert n. induction fuel as [|fuel IH]; intros n Hf Hn; [lia|].
  cbn [to_string_fuel]. destruct (n <? 10) eqn:E; zbool.
  { unfold stoi, IsAllDigits, isdigit. cbn. rewrite !digit_value_digit by lia.
    split; [lia|]. split; [|lia]. rewrite andb_true_r. apply andb_true_iff; split; apply Z.leb_le; lia. }
  destruct fuel as [|fuel]; [cbn in Hn; lia|].
  rewrite Nat2Z.inj_succ, Z.pow_succ_r in Hn by lia.
  destruct (IH (n / 10)) as (Hs & Hd & Hp);
    [lia|split; [apply Z.div_pos; lia|apply Z.div_lt_upper_bound; lia]|].
  pose proof (Z.mod_pos_bound n 10 ltac:(lia)) as Hm.
  cbv zeta. rewrite stoi_snoc, Hs, digit_value_digit, length_append by lia.
  split; [pose proof (Z_div_mod_eq_full n 10); lia|]. split; [|cbn [String.length]; lia].
  unfold IsAllDigits. rewrite list_ascii_append, forallb_app. fold (IsAllDigits (to_string_fuel (S fuel) (n / 10))).
  rewrite Hd. cbn. unfold isdigit. rewrite digit_value_digit by lia. rewrite andb_true_r.
  apply andb_true_iff; split; apply Z.leb_le; lia.
Qed.

(** ** Searching *)

(** The character does not occur. *)
Definition lacks (c : ascii) (s : string) : Prop := find_char c s = None.

Lemma find_char_append (c : ascii) (a b : string) :
  lacks c a → find_char c (a +:+ String c b) = Some (String.length a).
Proof.
  unfold lacks. induction a as [|x a IH]; [by rewrite append_nil_l; cbn; rewrite Ascii.eqb_refl|].
  rewrite append_cons. cbn. destruct (Ascii.eqb c x); [done|].
  intros H. apply fmap_None in H. by rewrite IH.
Qed.
Lemma lacks_append (c : ascii) (a b : string) : lacks c a → lacks c b → lacks c (a +:+ b).
Proof.
  unfold lacks. induction a as [|x a IH]; [by rewrite append_nil_l|]. rewrite append_cons. cbn.
  destruct (Ascii.eqb c x); [done|]. intros H Hb. apply fmap_None in H. by rewrite IH.
Qed.
Lemma take_append (a b : string) : string_take (String.length a) (a +:+ b) = a.
Proof. induction a as [|x a IH]; [done|]. rewrite append_cons. cbn. by rewrite IH. Qed.
Lemma drop_append (a b : string) : string_drop (String.length a) (a +:+ b) = b.
Proof. induction a as [|x a IH]; [done|]. rewrite append_cons. cbn. by rewrite IH. Qed.
Lemma drop_append_S (c : ascii) (a b : string) : string_drop (S (String.length a)) (a +:+ String c b) = b.
Proof. induction a as [|x a IH]; [done|]. rewrite append_cons. cbn in *. by rewrite IH. Qed.

(** ** The set *)

Lemma foldr_min_le (l : list Z) (x : Z) :
  foldr Z.min x l <= x ∧ Forall (λ y, foldr Z.min x l <= y) l ∧ foldr Z.min x l ∈ x :: l.
Proof.
  induction l as [|y l (Hx & Hl & Hin)]; cbn; [split; [lia|split; [constructor|set_solver]]|].
  split; [lia|]. split.
  - constructor; [lia|]. eapply Forall_impl; [exact Hl|]. cbn. lia.
  - destruct (Z.min_spec y (foldr Z.min x l)) as [[? ->]|[? ->]]; set_solver.
Qed.
Lemma set_begin_Some (X : gset Z) (c : Z) :
  set_begin X = Some c → c ∈ X ∧ ∀ y, y ∈ X → c <= y.
Proof.
  unfold set_begin. destruct (elements X) as [|x l] eqn:E; [done|]. intros [= <-].
  destruct (foldr_min_le l x) as (Hx & Hl & Hin). rewrite <-E, elem_of_elements in Hin.
  split; [done|]. intros y Hy. apply elem_of_elements in Hy. rewrite E in Hy.
  apply elem_of_cons in Hy as [->|Hy]; [done|]. rewrite Forall_forall in Hl. by apply Hl.
Qed.
Lemma set_begin_None (X : gset Z) : set_begin X = None → X = ∅.
Proof.
  unfold set_begin. destruct (elements X) as [|x l] eqn:E; [|done].
  by apply elements_empty_iff in E; apply leibniz_equiv in E.
Qed.

(** ** What is proved *)

Lemma append_eq (a b c d : string) : a = c → b = d → a +:+ b = c +:+ d.
Proof. by intros -> ->. Qed.
Lemma lacks_digits (c : ascii) (s : string) : isdigit c = false → IsAllDigits s = true → lacks c s.
Proof.
  intros Hc. unfold lacks, IsAllDigits. induction s as [|x s IH]; [done|]. cbn. intros [Hx Hs]%andb_prop.
  rewrite IH by done. destruct (Ascii.eqb c x) eqn:E; [|done]. apply Ascii.eqb_eq in E as ->. congruence.
Qed.

(** The URI of a descriptor of a package. *)
Definition uri_of (pkgName : string) (fd : Z) : string := (ConvertUri pkgName fd ∅).1.1.2.

Lemma ConvertUri_uri (pkg : string) (fd : Z) (X : gset Z) : (ConvertUri pkg fd X).1.1.2 = uri_of pkg fd.
Proof.
  unfold uri_of, ConvertUri. destruct (fd <? 0); [done|].
  destruct (size X =? MAX_URI_SIZE)%nat; [destruct (set_begin X)|]; done.
Qed.

Lemma IsRemoteUri_own (pkg : string) (fd fd0 flags : Z) (X : gset Z) :
  0 <= fd < 10 ^ 9 → lacks FRAGMENT_TAG pkg → lacks FD_TAG pkg →
  let got := if flags =? O_RDONLY then fd else -1 in
  IsRemoteUri (uri_of pkg fd) fd0 flags X = (true, got, RemoveFd got X).
Proof.
  intros Hfd Hh He. destruct (to_string_digits 10 fd) as (Hn & Hd & Hp); [lia|lia|].
  pose proof (to_string_length 10 9 fd ltac:(lia) ltac:(lia)) as Hl. fold (to_string fd) in *.
  set (front := "datashare:///" +:+ pkg +:+ "/").
  set (tail := REMOTE_URI_TAG +:+ String FD_TAG (to_string fd)).
  assert (Hu : uri_of pkg fd = front +:+ String FRAGMENT_TAG tail).
  { unfold uri_of, ConvertUri. rewrite (proj2 (Z.ltb_ge fd 0)) by lia.
    rewrite size_empty. cbn -[String.append to_string]. unfold front, tail. by rewrite !append_assoc. }
  assert (Hu' : uri_of pkg fd = (front +:+ String FRAGMENT_TAG REMOTE_URI_TAG) +:+ String FD_TAG (to_string fd)).
  { rewrite Hu. unfold tail. rewrite append_assoc. f_equal. }
  assert (Hs : find_char SCHEME_TAG (uri_of pkg fd) = Some 9%nat) by (rewrite Hu; reflexivity).
  assert (Hf : find_char FRAGMENT_TAG (uri_of pkg fd) = Some (String.length front)).
  { rewrite Hu. apply find_char_append. apply lacks_append; [done|]. by apply lacks_append. }
  assert (Hq : find_char FD_TAG (uri_of pkg fd) =
               Some (String.length (front +:+ String FRAGMENT_TAG REMOTE_URI_TAG))).
  { rewrite Hu'. apply find_char_append. apply lacks_append; [|done]. apply lacks_append; [done|].
    by apply lacks_append. }
  unfold IsRemoteUri. rewrite Hs, Hf, Hq. cbv zeta.
  assert (string_take 9 (uri_of pkg fd) = SCHEME) as -> by (rewrite Hu; reflexivity).
  rewrite String.eqb_refl. cbn [negb].
  rewrite (f_equal (string_drop (S (String.length front))) Hu), drop_append_S.
  unfold tail. rewrite take_append, String.eqb_refl.
  rewrite (f_equal (string_drop (S (String.length (front +:+ String FRAGMENT_TAG REMOTE_URI_TAG)))) Hu'), drop_append_S.
  rewrite Hd, Hn. rewrite (proj2 (Nat.ltb_ge _ _)) by (unfold DIGIT_LENGTH_LIMIT; lia).
  rewrite (proj2 (Nat.ltb_ge _ _)) by lia. cbn [orb]. rewrite (proj2 (Z.ltb_ge fd 0)) by lia. cbn [orb].
  by destruct (flags =? O_RDONLY).
Qed.

Lemma ConvertUri_step (pkg : string) (fd : Z) (X : gset Z) :
  0 <= fd → (size X <= MAX_URI_SIZE)%nat →
  ∃ Y closed, ConvertUri pkg fd X = (0, uri_of pkg fd, {[fd]} ∪ Y, closed) ∧ (size Y < MAX_URI_SIZE)%nat ∧
    (closed = [] ∧ Y = X ∨ ∃ c, closed = [c] ∧ c ∈ X ∧ Y = X ∖ {[c]} ∧ (∀ y, y ∈ X → c <= y) ∧ size X = MAX_URI_SIZE).
Proof.
  intros Hfd HX. pose proof (ConvertUri_uri pkg fd X) as Hu. unfold ConvertUri in *.
  rewrite (proj2 (Z.ltb_ge fd 0)) in * by lia.
  destruct (size X =? MAX_URI_SIZE)%nat eqn:E; [apply Nat.eqb_eq in E|apply Nat.eqb_neq in E].
  - destruct (set_begin X) as [c|] eqn:Ec.
    + apply set_begin_Some in Ec as [Hc Hm]. cbn [fst snd] in Hu. rewrite Hu.
      exists (X ∖ {[c]}), [c]. split; [done|]. split.
      * rewrite size_difference by set_solver. rewrite size_singleton. unfold MAX_URI_SIZE in *. lia.
      * right. by exists c.
    + apply set_begin_None in Ec as ->. by rewrite size_empty in E.
  - cbn [fst snd] in Hu. rewrite Hu. exists X, []. split; [done|]. split; [lia|]. by left.
Qed.

(** A descriptor that was written into a URI comes back from it.  For the name of a
    package without [#] and [=] and a descriptor of nine digits at most, [OpenRemoteUri] of the
    URI that [ConvertUri] made returns the descriptor and forgets it; nothing else is
    forgotten than the smallest descriptor of a full set, which is closed. *)
Theorem convert_then_open (pkg : string) (fd : Z) (X : gset Z) :
  0 <= fd < 10 ^ 9 → lacks FRAGMENT_TAG pkg → lacks FD_TAG pkg → (size X <= MAX_URI_SIZE)%nat →
  ∃ uri Y closed,
    ConvertUri pkg fd X = (0, uri, {[fd]} ∪ Y, closed) ∧
    OpenRemoteUri uri ({[fd]} ∪ Y) = (fd, Y ∖ {[fd]}) ∧
    X = Y ∪ list_to_set closed ∧
    (length closed <= 1)%nat ∧ (closed = [] ∨ size X = MAX_URI_SIZE).
Proof.
  intros Hfd Hh He HX. destruct (ConvertUri_step pkg fd X) as (Y & closed & Hc & HY & Hcl); [lia|done|].
  exists (uri_of pkg fd), Y, closed. split; [exact Hc|]. split.
  { unfold OpenRemoteUri. rewrite IsRemoteUri_own by done. cbn. f_equal. unfold RemoveFd. set_solver. }
  destruct Hcl as [[-> ->]|(c & -> & Hin & -> & ? & ?)]; cbn.
  - split; [set_solver|]. split; [lia|by left].
  - split; [|split; [lia|by right]]. apply set_eq. intros x. destruct (decide (x = c)); set_solver.
Qed.

Lemma convert_then_open_witness :
  let '(_, uri, X, closed) := ConvertUri "com.app" 7 ∅ in
  uri = "datashare:///com.app/#fdFromBinder=7"%string ∧ closed = [] ∧ OpenRemoteUri uri X = (7, ∅) ∧
  ∃ uri' Y closed', ConvertUri "com.app" 7 ∅ = (0, uri', {[7]} ∪ Y, closed') ∧
    OpenRemoteUri uri' ({[7]} ∪ Y) = (7, Y ∖ {[7]}).
Proof.
  split; [vm_compute; reflexivity|]. split; [reflexivity|]. split; [vm_compute; reflexivity|].
  destruct (convert_then_open "com.app" 7 ∅) as (uri & Y & closed & H & H' & _);
    [lia|reflexivity|reflexivity|rewrite size_empty; unfold MAX_URI_SIZE; lia|].
  exists uri, Y, closed. by split.
Defined.

(** ** Histories *)

Inductive rop := RConvert (pkg : string) (fd : Z) | RIs (uri : string) (fd flags : Z) | ROpen (uri : string).
(** What became of the descriptors. *)
Inductive event := Received (fd : Z) | Handed (fd : Z) | Closed (fd : Z).

(** A descriptor is received before [ConvertUri] is called with it. *)
Definition run_op (o : rop) (X : gset Z) : list event * gset Z :=
  match o with
  | RConvert pkg fd =>
      let '(ret, _, X', closed) := ConvertUri pkg fd X in
      ((if ret =? 0 then [Received fd] else []) ++ (Closed <$> closed), X')
  | RIs uri fd flags =>
      let '(found, fd', X') := IsRemoteUri uri fd flags X in (if found then [Handed fd'] else [], X')
  | ROpen uri => let '(fd, X') := OpenRemoteUri uri X in ([Handed fd], X')
  end.
Fixpoint run (p : list rop) (X : gset Z) : list event * gset Z :=
  match p with
  | [] => ([], X)
  | o :: p => let '(ev, X) := run_op o X in let '(ev', X) := run p X in (ev ++ ev', X)
  end.

(** The descriptors that were received and neither handed out nor closed since. *)
Definition account (X : gset Z) (e : event) : gset Z :=
  match e with Received fd => {[fd]} ∪ X | Handed fd | Closed fd => X ∖ {[fd]} end.
Definition pending (X : gset Z) (ev : list event) : gset Z := foldl account X ev.
(** The kernel gives no number that is still pending. *)
Fixpoint receives_fresh (X : gset Z) (ev : list event) : bool :=
  match ev with
  | [] => true
  | e :: ev => match e with Received fd => bool_decide (fd ∉ X) | _ => true end && receives_fresh (account X e) ev
  end.
Lemma receives_fresh_app (X : gset Z) (ev ev' : list event) :
  receives_fresh X (ev ++ ev') = receives_fresh X ev && receives_fresh (pending X ev) ev'.
Proof. revert X. induction ev as [|e ev IH]; intros X; cbn; [done|]. by rewrite IH, andb_assoc. Qed.
(** Only pending descriptors are closed. *)
Definition closes_pending (X : gset Z) (ev : list event) : Prop :=
  ∀ before fd after, ev = before ++ Closed fd :: after → fd ∈ pending X before.

Lemma closes_app (X : gset Z) (ev ev' : list event) :
  closes_pending X ev → closes_pending (pending X ev) ev' → closes_pending X (ev ++ ev').
Proof.
  intros H H' before fd after E. apply app_eq_app in E as (k & [[-> E]|[-> E]]).
  - destruct k as [|e k]; cbn in E.
    + rewrite app_nil_r in *. specialize (H' [] fd after (eq_sym E)). exact H'.
    + injection E as <- ->. by eapply H.
  - specialize (H' k fd after E). unfold pending in *. by rewrite foldl_app.
Qed.

Definition bounded (X : gset Z) : Prop := (size X <= MAX_URI_SIZE)%nat ∧ ∀ x, x ∈ X → 0 <= x.

Lemma IsRemoteUri_set (uri : string) (fd flags : Z) (X : gset Z) :
  let '(found, fd', X') := IsRemoteUri uri fd flags X in
  if found then X' = X ∖ {[fd']} ∨ fd' = -1 ∧ X' = X else X' = X ∧ fd' = fd.
Proof. unfold IsRemoteUri, RemoveFd. repeat case_match; simplify_eq; auto. Qed.

Lemma minus_one (X : gset Z) : bounded X → X ∖ {[-1]} = X.
Proof. intros [_ H]. apply set_eq. intros x. assert (x ∈ X → 0 <= x) by apply H. set_solver by lia. Qed.

Lemma bounded_minus (X : gset Z) (fd : Z) : bounded X → bounded (X ∖ {[fd]}).
Proof.
  intros [Hs Hn]. split; [|set_solver]. pose proof (subseteq_size (X ∖ {[fd]}) X ltac:(set_solver)). lia.
Qed.

Lemma closes_nil (X : gset Z) (ev : list event) : (∀ fd, Closed fd ∉ ev) → closes_pending X ev.
Proof. intros H before fd after ->. exfalso. apply (H fd). set_solver. Qed.

Lemma run_op_account (o : rop) (X : gset Z) (ev : list event) (X' : gset Z) :
  bounded X → run_op o X = (ev, X') →
  bounded X' ∧ (receives_fresh X ev = true → X' = pending X ev ∧ closes_pending X ev).
Proof.
  intros HX. destruct o as [pkg fd|uri fd flags|uri]; cbn [run_op].
  - destruct (decide (0 <= fd)) as [Hfd|Hfd].
    + destruct (ConvertUri_step pkg fd X Hfd) as (Y & closed & -> & HY & Hcl); [apply HX|]. cbn. intros [= <- <-].
      split.
      { split; [rewrite size_union_alt, size_singleton|].
        - pose proof (subseteq_size (Y ∖ {[fd]}) Y ltac:(set_solver)). lia.
        - destruct HX as [_ HX]. intros x [->%elem_of_singleton|Hx]%elem_of_union; [done|].
          destruct Hcl as [[_ ->]|(c & _ & _ & -> & _)]; set_solver. }
      intros [Hnew%bool_decide_eq_true _]%andb_prop.
      destruct Hcl as [[-> ->]|(c & -> & Hin & -> & _)]; cbn.
      * split; [done|]. apply closes_nil. set_solver.
      * split; [set_solver|]. intros before f after E. destruct before as [|e [|e' before]]; [done| |].
        -- injection E as <- <- _. cbn. set_solver.
        -- apply (f_equal length) in E. rewrite length_app in E. cbn in E. lia.
    + unfold ConvertUri. rewrite (proj2 (Z.ltb_lt fd 0)) by lia. cbn. intros [= <- <-].
      split; [done|]. intros _. split; [done|]. apply closes_nil. set_solver.
  - pose proof (IsRemoteUri_set uri fd flags X) as H. destruct (IsRemoteUri uri fd flags X) as [[found fd'] Y].
    intros [= <- <-]. destruct found; cbn.
    + split; [destruct H as [->|[-> ->]]; [by apply bounded_minus|done]|]. intros _.
      split; [destruct H as [->|[-> ->]]; [done|by rewrite minus_one]|]. apply closes_nil. set_solver.
    + destruct H as [-> _]. split; [done|]. intros _. split; [done|]. apply closes_nil. set_solver.
  - unfold OpenRemoteUri. pose proof (IsRemoteUri_set uri (-1) O_RDONLY X) as H.
    destruct (IsRemoteUri uri (-1) O_RDONLY X) as [[found fd'] Y]. intros [= <- <-]. cbn.
    assert (Y = X ∖ {[fd']}) as -> by (destruct found; naive_solver eauto using minus_one, eq_sym).
    split; [by apply bounded_minus|]. intros _. split; [done|]. apply closes_nil. set_solver.
Qed.

(** C31: descriptors from other processes are accounted for.  After any sequence of
    [ConvertUri], [IsRemoteUri] and [OpenRemoteUri] the set holds at most 128 descriptors.  If
    no number comes that was received and neither handed out nor closed since, the set holds
    exactly the descriptors of which that is true, and a descriptor is closed only while it is
    one of them: nothing is closed after it was handed out or closed before. *)
Theorem descriptors_accounted (p : list rop) (ev : list event) (X : gset Z) :
  run p ∅ = (ev, X) →
  (size X <= MAX_URI_SIZE)%nat ∧ (receives_fresh ∅ ev = true → X = pending ∅ ev ∧ closes_pending ∅ ev).
Proof.
  enough (∀ X0, bounded X0 → run p X0 = (ev, X) →
    bounded X ∧ (receives_fresh X0 ev = true → X = pending X0 ev ∧ closes_pending X0 ev)) as H.
  { intros E. destruct (H ∅) as ([? _] & ?); [|done|done]. split; [rewrite size_empty; unfold MAX_URI_SIZE; lia|set_solver]. }
  revert ev X. induction p as [|o p IH]; intros ev X X0 HX; cbn [run].
  - intros [= <- <-]. split; [done|]. intros _. split; [done|]. apply closes_nil. set_solver.
  - destruct (run_op o X0) as [ev1 X1] eqn:E1. destruct (run p X1) as [ev2 X2] eqn:E2. intros [= <- <-].
    destruct (run_op_account o X0 ev1 X1 HX E1) as (HB & Hc). destruct (IH ev2 X2 _ HB E2) as (HB' & Hc').
    split; [done|]. rewrite receives_fresh_app. intros [Hf1 Hf2]%andb_prop. destruct (Hc Hf1) as [-> Hcl].
    destruct (Hc' Hf2) as [-> Hcl']. split; [unfold pending; by rewrite foldl_app|by apply closes_app].
Qed.

(** 128 descriptors, a number that was handed out and comes again, and one too many. *)
Definition busy : list rop :=
  (RConvert "a" <$> (Z.of_nat <$> seq 3 128)) ++ [ROpen (uri_of "a" 5); RConvert "a" 5; RConvert "a" 200].
Lemma descriptors_accounted_witness :
  let '(ev, X) := run busy ∅ in
  ev !! 131%nat = Some (Closed 3) ∧ size X = 128%nat ∧ X = pending ∅ ev ∧ closes_pending ∅ ev.
Proof.
  destruct (run busy ∅) as [ev X] eqn:E.
  destruct (descriptors_accounted busy ev X E) as (_ & H).
  assert (ev = (run busy ∅).1) as Hev by (by rewrite E). assert (X = (run busy ∅).2) as HX by (by rewrite E).
  split; [|split].
  - rewrite Hev. vm_compute. reflexivity.
  - rewrite HX. vm_compute. reflexivity.
  - apply H. rewrite Hev. vm_compute. reflexivity.
Defined.

(** When the set is full and its smallest descriptor is converted again, it is closed, and the
    URI that comes back leads to a closed descriptor. *)
Lemma reconverted_is_closed (pkg : string) (fd : Z) (X : gset Z) :
  size X = MAX_URI_SIZE → 0 <= fd → fd ∈ X → (∀ y, y ∈ X → fd <= y) →
  ConvertUri pkg fd X = (0, uri_of pkg fd, X, [fd]).
Proof.
  intros HX Hfd Hin Hm. destruct (ConvertUri_step pkg fd X) as (Y & closed & Hc & HY & Hcl); [done|lia|].
  destruct Hcl as [[_ ->]|(c & -> & Hcin & -> & Hcm & _)]; [rewrite HX in HY; lia|].
  assert (c = fd) as -> by (apply Z.le_antisymm; auto).
  rewrite Hc. do 2 f_equal. apply set_eq. intros x. destruct (decide (x = fd)); set_solver.
Qed.

(** The account shows it: the set holds a descriptor that is not pending, and closes it again. *)
Definition twice : list rop := (RConvert "a" <$> (Z.of_nat <$> seq 3 128)) ++ [RConvert "a" 3; RConvert "a" 200].
Lemma closed_twice :
  receives_fresh ∅ (run twice ∅).1 = false ∧ drop 128 (run twice ∅).1 = [Received 3; Closed 3; Received 200; Closed 3].
Proof. split; vm_compute; reflexivity. Qed.
