(* ===== verification/SwapfsErr.v ===== *)
(** * Error codes of swapfs and their mapping from errno

    Models [swapfs_errcode.h] and [swapfs_err_mapper.cpp]. *)

From S2P Require Import Prelude.
From S2P Require Import Posix.

(** ** [OH_Swapfs_ErrCode] *)
Definition SWAPFS_E_OK : Z := 0.
Definition SWAPFS_E_INVAL : Z := 36200001.
Definition SWAPFS_E_DIO_ALIGN : Z := 36200002.
Definition SWAPFS_E_BUFFER_TOO_SMALL : Z := 36200003.
Definition SWAPFS_E_KEY_NOT_FOUND : Z := 36200004.
Definition SWAPFS_E_KEY_STATE_INVALID : Z := 36200005.
Definition SWAPFS_E_BUSY : Z := 36200006.
Definition SWAPFS_E_NOSPC : Z := 36200007.
Definition SWAPFS_E_QUOTA_EXCEEDED : Z := 36200008.
Definition SWAPFS_E_IO_ERROR : Z := 36200009.
Definition SWAPFS_E_FEATURE_DISABLED : Z := 36200010.
Definition SWAPFS_E_ACCES : Z := 36200011.
Definition SWAPFS_E_PATH_UNAVAILABLE : Z := 36200012.
Definition SWAPFS_E_SHUTTING_DOWN : Z := 36200013.
Definition SWAPFS_E_NOMEM : Z := 36200014.

(** [COMMON_E_PERMISSION_SYS] of the manager: not a code of the enumeration. *)
Definition COMMON_E_PERMISSION_SYS : Z := 202.

Inductive SwapfsErrContext := PATH_OPERATION | KEY_OPERATION | IO_OPERATION.

#[export] Instance SwapfsErrContext_eq_dec : EqDecision SwapfsErrContext.
Proof. solve_decision. Defined.

Definition MapErrno (err : Z) (context : SwapfsErrContext) : Z :=
  if err =? EINVAL then SWAPFS_E_INVAL
  else if (err =? EACCES) || (err =? EPERM) then SWAPFS_E_ACCES
  else if err =? ENOSPC then SWAPFS_E_NOSPC
  else if err =? EDQUOT then SWAPFS_E_QUOTA_EXCEEDED
  else if err =? EBUSY then SWAPFS_E_BUSY
  else if err =? EIO then SWAPFS_E_IO_ERROR
  else if (err =? ENOENT) || (err =? ENOTDIR) then
    match context with
    | PATH_OPERATION => SWAPFS_E_PATH_UNAVAILABLE
    | IO_OPERATION => SWAPFS_E_IO_ERROR
    | KEY_OPERATION => SWAPFS_E_KEY_NOT_FOUND
    end
  else if err =? ENOMEM then SWAPFS_E_NOMEM
  else SWAPFS_E_IO_ERROR.

(** The nine codes an errno can become. *)
Definition mapped_codes : list Z :=
  [SWAPFS_E_INVAL; SWAPFS_E_ACCES; SWAPFS_E_NOSPC; SWAPFS_E_QUOTA_EXCEEDED; SWAPFS_E_BUSY;
   SWAPFS_E_IO_ERROR; SWAPFS_E_PATH_UNAVAILABLE; SWAPFS_E_KEY_NOT_FOUND; SWAPFS_E_NOMEM].

Lemma MapErrno_mapped err c : MapErrno err c ∈ mapped_codes.
Proof. unfold MapErrno, mapped_codes. repeat case_match; set_solver. Qed.

Lemma mapped_code_range e : e ∈ mapped_codes → SWAPFS_E_INVAL <= e <= SWAPFS_E_NOMEM.
Proof.
  unfold mapped_codes. intros H.
  repeat (apply elem_of_cons in H as [->|H]; [unfold SWAPFS_E_INVAL, SWAPFS_E_NOMEM,
    SWAPFS_E_ACCES, SWAPFS_E_NOSPC, SWAPFS_E_QUOTA_EXCEEDED, SWAPFS_E_BUSY, SWAPFS_E_IO_ERROR,
    SWAPFS_E_PATH_UNAVAILABLE, SWAPFS_E_KEY_NOT_FOUND; lia|]).
  by apply elem_of_nil in H.
Qed.

Lemma MapErrno_range err c : SWAPFS_E_INVAL <= MapErrno err c <= SWAPFS_E_NOMEM.
Proof. apply mapped_code_range, MapErrno_mapped. Qed.

(** No failing call is reported as success. *)
Lemma MapErrno_not_ok err c : MapErrno err c ≠ SWAPFS_E_OK.
Proof. pose proof (MapErrno_range err c). unfold SWAPFS_E_INVAL, SWAPFS_E_OK in *. lia. Qed.
#[export] Hint Resolve MapErrno_not_ok : swapdb.
