(* ===== verification/SwapfsIo.v ===== *)
(** * The synchronous read and write engines

    Models [swapfs_sync_io_engine.cpp]: the retry loops [WriteFull] and
    [ReadFull] around [write] and [pread], and the engines that open, transfer
    and close. *)

From S2P Require Import Prelude.
From S2P Require Import Posix.
From S2P Require Import SwapfsErr.

Definition DIO_ALIGNMENT : Z := 4096.
Definition SWAP_FILE_MODE : Z := 384.  (* S_IRUSR | S_IWUSR = 0600 *)

(** A caller's buffer: its address and its bytes. *)
Record cbuf := Cbuf { buf_addr : Z; buf_bytes : list Z }.

Definition IsDioAligned (addr size : Z) : bool :=
  (addr mod DIO_ALIGNMENT =? 0) && (size mod DIO_ALIGNMENT =? 0).

Section io.
Context {EN : Env}.

(** The loop of [WriteFull]; [cursor] is what is left of the buffer. *)
Fixpoint WriteFull_loop (fuel : nat) (fd : Z) (cursor : list Z) : io Z :=
  match cursor with
  | [] => sret SWAPFS_E_OK
  | _ :: _ =>
      match fuel with
      | O => λ _, None
      | S fuel' =>
          ret ← sys_write fd cursor;
          match ret with
          | SErr e => if e =? EINTR then WriteFull_loop fuel' fd cursor
                      else sret (MapErrno e KEY_OPERATION)
          | SOk n => if n =? 0 then sret SWAPFS_E_IO_ERROR
                     else WriteFull_loop fuel' fd (skipn (Z.to_nat n) cursor)
          end
      end
  end.
Definition WriteFull (fd : Z) (buffer : list Z) : io Z := WriteFull_loop env_fuel fd buffer.

(** The loop of [ReadFull]: [acc] is the part of the buffer already filled.
    Returns the code and what was written to the buffer. *)
Fixpoint ReadFull_loop (fuel : nat) (fd : Z) (remaining : nat) (fileOffset : nat)
    (acc : list Z) : io (Z * list Z) :=
  match remaining with
  | O => sret (SWAPFS_E_OK, acc)
  | S _ =>
      match fuel with
      | O => λ _, None
      | S fuel' =>
          ret ← sys_pread fd remaining fileOffset;
          match ret with
          | SErr e => if e =? EINTR then ReadFull_loop fuel' fd remaining fileOffset acc
                      else sret (MapErrno e KEY_OPERATION, acc)
          | SOk chunk =>
              if Z.of_nat (length chunk) =? 0 then sret (SWAPFS_E_IO_ERROR, acc)
              else ReadFull_loop fuel' fd (remaining - length chunk)
                     (fileOffset + length chunk) (acc ++ chunk)
          end
      end
  end.
Definition ReadFull (fd : Z) (size offset : nat) : io (Z * list Z) :=
  ReadFull_loop env_fuel fd size offset [].

Definition OpenSwapFileForRead (path : string) (extraFlags : list oflag) : io (sysres Z) :=
  sys_open path ([O_RDONLY; O_CLOEXEC; O_NOFOLLOW] ++ extraFlags) 0.

(** [SyncReadEngine::Read]; [addr = None] is a null buffer. *)
Definition SyncRead (path : string) (addr : option Z) (size : Z) (offset : nat)
    (useDirectIo : bool) : io (Z * list Z) :=
  match addr with
  | None => sret (SWAPFS_E_INVAL, [])
  | Some a =>
      if size =? 0 then sret (SWAPFS_E_INVAL, [])
      else if useDirectIo && negb (IsDioAligned a size) then sret (SWAPFS_E_DIO_ALIGN, [])
      else
        fd ← OpenSwapFileForRead path (if useDirectIo then [O_DIRECT] else []);
        match fd with
        | SErr e => sret (MapErrno e KEY_OPERATION, [])
        | SOk fd =>
            ret ← ReadFull fd (Z.to_nat size) offset;
            sys_close fd;;
            sret ret
        end
  end.

(** [SyncWriteEngine::Write] *)
Definition SyncWrite (path : string) (buffer : option cbuf) (useDirectIo : bool) : io Z :=
  match buffer with
  | None => sret SWAPFS_E_INVAL
  | Some b =>
      if Z.of_nat (length (buf_bytes b)) =? 0 then sret SWAPFS_E_INVAL
      else
        fd ← sys_open path ([O_CREAT; O_CLOEXEC; O_NOFOLLOW; O_TRUNC; O_WRONLY] ++
                            (if useDirectIo then [O_DIRECT] else [])) SWAP_FILE_MODE;
        match fd with
        | SErr e => sret (MapErrno e KEY_OPERATION)
        | SOk fd =>
            ret ← WriteFull fd (buf_bytes b);
            ret ← (if ret =? SWAPFS_E_OK then
                     s ← sys_fsync fd;
                     sret (match s with SErr e => MapErrno e KEY_OPERATION | SOk _ => ret end)
                   else sret ret);
            sys_close fd;;
            sret ret
        end
  end.
End io.

(** ** What the loops do *)
Section io_spec.
Context {EN : Env}.
Implicit Types (w : world).

(** The file [p] holds [d], all else in the file system being as in [w]. *)
Definition file_is (w w' : world) (p : string) (i : inode) (d : list Z) : Prop :=
  w_fs w' = <[p := Inode (i_type i) (i_uid i) (i_mode i) d (i_lock i)]> (w_fs w).

Lemma file_is_refl w w' p i :
  w_fs w' = w_fs w → w_fs w !! p = Some i → file_is w w' p i (i_data i).
Proof.
  intros Hw Hp. unfold file_is. rewrite Hw, insert_id; [done|]. rewrite Hp. by destruct i.
Qed.

Lemma WriteFull_loop_spec fuel fd buf w p pos i :
  w_fds w !! fd = Some (Ofd p pos) →
  w_fs w !! p = Some i →
  (pos <= length (i_data i))%nat →
  wp (WriteFull_loop fuel fd buf) (λ r w',
    w_nextfd w' = w_nextfd w ∧
    (∃ pos', w_fds w' = <[fd := Ofd p pos']> (w_fds w)) ∧
    (∃ d, file_is w w' p i d ∧
      (r = SWAPFS_E_OK → d = overwrite (i_data i) pos buf))) w.
Proof.
  revert buf w pos i. induction fuel as [|fuel IH]; intros buf w pos i Hfd Hp Hpos.
  - destruct buf as [|b buf]; [|done]. apply wp_ret. split_and!; [done|..].
    + exists pos. by rewrite insert_id.
    + exists (i_data i). rewrite overwrite_nil by done. by eauto using file_is_refl.
  - destruct buf as [|b buf].
    { apply wp_ret. split_and!; [done|exists pos; by rewrite insert_id|].
      exists (i_data i). rewrite overwrite_nil by done. by eauto using file_is_refl. }
    cbn [WriteFull_loop]. apply wp_bind. unfold sys_write. apply wp_syscall.
    + intros Hf. case_match; zbool.
      * eapply wp_mono; [|by apply (IH (b :: buf) (tick w) pos i)].
        intros r w' (?&?&d&?&?). eauto 6.
      * apply wp_ret. split; [done|]. split; [exists pos; by rewrite insert_id|].
        exists (i_data i). split; [by apply file_is_refl|by intros ?%MapErrno_not_ok].
    + intros _. cbn. rewrite Hfd. cbn. rewrite Hp. cbn.
      set (chunk := take (env_cap (w_clk w)) (b :: buf)).
      case_match; zbool.
      * apply wp_ret. cbn. split; [done|]. split; [eauto|].
        eexists. split; [reflexivity|done].
      * set (w1 := World _ _ _ _).
        eapply wp_mono; [|apply (IH _ w1 (pos + length chunk)%nat
          (Inode (i_type i) (i_uid i) (i_mode i) (overwrite (i_data i) pos chunk) (i_lock i)))].
        -- intros r w' (Hn&[pos' Hpos']&d&Hd&Hok). split; [done|]. split.
           ++ exists pos'. rewrite Hpos'. unfold w1. cbn. by rewrite insert_insert_eq.
           ++ exists d. split.
              ** unfold file_is in *. rewrite Hd. unfold w1. cbn. by rewrite insert_insert_eq.
              ** intros Hr. rewrite (Hok Hr). cbn. rewrite overwrite_app by done.
                 f_equal. rewrite Nat2Z.id. apply take_drop_chunk.
        -- unfold w1. cbn. by rewrite lookup_insert_eq.
        -- unfold w1. cbn. by rewrite lookup_insert_eq.
        -- cbn. by apply overwrite_length_ge.
Qed.


Lemma ReadFull_loop_spec fuel fd remaining off acc w p pos i :
  w_fds w !! fd = Some (Ofd p pos) →
  w_fs w !! p = Some i →
  wp (ReadFull_loop fuel fd remaining off acc) (λ r w',
    same_files w w' ∧
    (r.1 = SWAPFS_E_OK →
      r.2 = acc ++ take remaining (drop off (i_data i)) ∧
      (remaining = O ∨ (off + remaining <= length (i_data i))%nat))) w.
Proof.
  revert remaining off acc w. induction fuel as [|fuel IH];
    intros remaining off acc w Hfd Hp.
  { destruct remaining; [|done]. apply wp_ret. split; [done|]. cbn.
    rewrite app_nil_r. auto. }
  destruct remaining as [|n].
  { apply wp_ret. split; [done|]. cbn. rewrite app_nil_r. auto. }
  cbn [ReadFull_loop]. apply wp_bind. unfold sys_pread. apply wp_syscall.
  - intros Hf. case_match; zbool.
    + eapply wp_mono; [|by apply (IH (S n) off acc (tick w))]. intros r w' [??]. by split.
    + apply wp_ret. split; [done|]. cbn. by intros ?%MapErrno_not_ok.
  - intros _. cbn. rewrite Hfd. cbn. rewrite Hp.
    set (chunk := take _ (drop off (i_data i))).
    assert (Hc : (length chunk = (S n `min` env_cap (w_clk w)) `min`
                  (length (i_data i) - off))%nat).
    { unfold chunk. by rewrite length_take, length_drop. }
    cbn [fst snd].
    case_match; zbool; [by apply wp_ret|].
    eapply wp_mono; [|by apply (IH (S n - length chunk)%nat (off + length chunk)%nat
                              (acc ++ chunk) (tick w))].
    intros r w' [Hs Hok]. split; [done|]. intros Hr.
    destruct (Hok Hr) as [-> Hlen]. split; [|lia].
    rewrite <-app_assoc, <-drop_drop. f_equal. apply take_two_steps.
    apply (Nat.le_min_l (S n) (env_cap (w_clk w))).
Qed.

(** The engines close what they open and touch only the file they are given. *)
Definition io_frame (p : string) (w w' : world) : Prop :=
  world_wf w' ∧ w_fds w' = w_fds w ∧ w_nextfd w <= w_nextfd w' ∧
  ∀ q, q ≠ p → w_fs w' !! q = w_fs w !! q.

(** Closing the descriptor an engine opened restores the descriptor table. *)
Lemma io_frame_close p flags i d w w' pos :
  world_wf w → opened w p flags i →
  w_nextfd w' = w_nextfd w + 1 →
  w_fds w' = <[w_nextfd w := Ofd p pos]> (w_fds w) →
  w_fs w' = <[p := Inode (i_type i) (i_uid i) (i_mode i) d (i_lock i)]> (w_fs w) →
  unlock_fd (w_nextfd w) <$> w_fs w' = w_fs w' ∧
  io_frame p w (tick (World (w_fs w') (delete (w_nextfd w) (w_fds w')) (w_nextfd w') (w_clk w'))).
Proof.
  intros Hwf Ho Hn Hfds Hfs.
  assert (Hlock : ∀ q j h, w_fs w' !! q = Some j → i_lock j = Some h → h < w_nextfd w).
  { rewrite Hfs. intros q j h [[<- <-]|[_ Hq]]%lookup_insert_Some Hj; cbn in Hj.
    - destruct (opened_lock _ _ _ _ _ Ho Hj) as (i0 & ? & ?). by eapply Hwf.
    - by eapply Hwf. }
  split.
  { apply unlock_fd_id. intros q j Hq Hj. specialize (Hlock _ _ _ Hq Hj). lia. }
  rewrite Hfds, delete_insert_id by (by apply world_wf_fresh).
  split_and!; cbn; [split; cbn|done|lia|].
  - intros fd o Hfd. apply Hwf in Hfd. lia.
  - intros q j h Hq Hj. specialize (Hlock _ _ _ Hq Hj). lia.
  - intros q Hq. by rewrite Hfs, lookup_insert_ne.
Qed.

Lemma SyncWrite_spec p b dio w :
  world_wf w →
  wp (SyncWrite p b dio) (λ r w', io_frame p w w' ∧
    (r = SWAPFS_E_OK → ∃ b' i, b = Some b' ∧ w_fs w' !! p = Some i ∧
       i_type i = FReg ∧ i_data i = buf_bytes b')) w.
Proof.
  intros Hwf. unfold SyncWrite.
  assert (Hid : ∀ w', same_files w w' → io_frame p w w').
  { intros w' (H1 & H2 & H3). split_and!; [|done|lia|by rewrite H1].
    unfold world_wf. by rewrite H1, H2, H3. }
  destruct b as [b|]; [|by apply wp_ret; split; [apply Hid|]].
  destruct (_ =? 0); [by apply wp_ret; split; [apply Hid|]|].
  apply wp_bind, wp_open.
  { intros e. apply wp_ret. split; [by apply Hid|by intros ?%MapErrno_not_ok]. }
  intros i Ho. assert (Hi : i_type i = FReg ∧ i_data i = []).
  { revert Ho. unfold opened. case_match.
    - intros (_&_&_&_&[(?&_&->)|(_&_&Hw&_)]); [done|]. set_solver.
    - by intros (_&?&?&_). }
  set (w1 := World _ _ _ _). apply wp_bind.
  eapply wp_mono; [|eapply (WriteFull_loop_spec _ (w_nextfd w) (buf_bytes b) w1 p 0 i)].
  2,3: apply lookup_insert_eq. 2: lia.
  intros r w' (Hn & [pos' Hfds] & d & Hd & Hok). unfold file_is in Hd.
  subst w1. cbn in Hn, Hfds, Hd. rewrite insert_insert_eq in Hd.
  rewrite insert_insert_eq in Hfds.
  assert (Hfin : ∀ w'' r', same_files w' w'' → (r' = SWAPFS_E_OK → r = SWAPFS_E_OK) →
    wp (sys_close (w_nextfd w);; sret r') (λ r w', io_frame p w w' ∧
      (r = SWAPFS_E_OK → ∃ b' i, Some b = Some b' ∧ w_fs w' !! p = Some i ∧
         i_type i = FReg ∧ i_data i = buf_bytes b')) w'').
  { intros w'' r' (H1 & H2 & H3) Hr. apply wp_bind, wp_close, wp_ret.
    destruct (io_frame_close p _ i d w w'' pos' Hwf Ho) as [Hu Hfr];
      [by rewrite H3..|by rewrite H2|by rewrite H1|]. rewrite Hu. split; [done|].
    intros Hr'. eexists b, _. split; [done|]. cbn. rewrite H1, Hd, lookup_insert_eq.
    split; [done|]. cbn. split; [by destruct Hi|].
    rewrite (Hok (Hr Hr')). destruct Hi as [_ ->]. apply overwrite_all. }
  apply wp_bind. destruct (r =? SWAPFS_E_OK) eqn:Er; zbool.
  - apply wp_bind, wp_syscall; intros _; by apply wp_ret, Hfin.
  - apply wp_ret, Hfin; done.
Qed.

Lemma SyncRead_spec p a size off dio w :
  world_wf w →
  wp (SyncRead p a size off dio) (λ r w',
    io_frame p w w' ∧
    (∀ i, w_fs w !! p = Some i → w_fs w' !! p = Some i) ∧
    (r.1 = SWAPFS_E_OK → ∃ i, w_fs w !! p = Some i ∧
       r.2 = take (Z.to_nat size) (drop off (i_data i)) ∧
       (size <= 0 ∨ (off + Z.to_nat size <= length (i_data i))%nat))) w.
Proof.
  intros Hwf. unfold SyncRead, OpenSwapFileForRead.
  assert (Hid : ∀ w', same_files w w' →
    io_frame p w w' ∧ (∀ i, w_fs w !! p = Some i → w_fs w' !! p = Some i)).
  { intros w' (H1 & H2 & H3). unfold io_frame, world_wf. rewrite H1, H2, H3.
    split_and!; try done. by apply Hwf. by apply Hwf. }
  assert (Herr : ∀ e w', same_files w w' → e ≠ SWAPFS_E_OK →
    wp (sret (e, [])) (λ r w', io_frame p w w' ∧
      (∀ i, w_fs w !! p = Some i → w_fs w' !! p = Some i) ∧
      (r.1 = SWAPFS_E_OK → ∃ i, w_fs w !! p = Some i ∧
       r.2 = take (Z.to_nat size) (drop off (i_data i)) ∧
       (size <= 0 ∨ (off + Z.to_nat size <= length (i_data i))%nat))) w').
  { intros e w' Hs He. apply wp_ret. destruct (Hid w' Hs). by split_and!. }
  destruct a as [a|]; [|by apply Herr].
  destruct (size =? 0); [by apply Herr|].
  destruct (dio && _); [by apply Herr|].
  apply wp_bind, wp_open.
  { intros e. by apply Herr; [|apply MapErrno_not_ok]. }
  intros i Ho. assert (Hi : w_fs w !! p = Some i).
  { revert Ho. unfold opened. case_match.
    - intros (Ht&Hu&Hm&Hl&[(_&_&Hd)|(_&->&_)]); [|done]. f_equal.
      rewrite bool_decide_false in Hd by (destruct dio; set_solver).
      destruct i, i0; cbn in *; congruence.
    - intros [? _]. destruct dio; set_solver. }
  set (w1 := World _ _ _ _). apply wp_bind.
  eapply wp_mono; [|eapply (ReadFull_loop_spec _ (w_nextfd w) (Z.to_nat size) off [] w1 p 0 i)].
  2,3: apply lookup_insert_eq.
  intros r w' [(H1 & H2 & H3) Hok]. apply wp_bind, wp_close, wp_ret.
  subst w1; cbn in H1, H2, H3.
  destruct (io_frame_close p _ i (i_data i) w w' 0 Hwf Ho) as [Hu Hfr];
    [done|done|by rewrite H1; destruct i|].
  rewrite Hu. split; [done|]. cbn. rewrite H1, (insert_id _ _ _ Hi).
  split; [done|]. intros Hr. destruct (Hok Hr) as [Hd Hl]. exists i.
  split_and!; [done|done|]. destruct Hl; [left|right]; lia.
Qed.

(** ** Termination of the retry loops *)
Lemma WriteFull_loop_returns B fuel fd buf w j :
  eintr_bound N_write B →
  env_fault N_write (w_clk w + j) ≠ EINTR →
  (j + 1 + (B + 1) * length buf <= fuel)%nat →
  returns (WriteFull_loop fuel fd buf) w.
Proof.
  intros HB. revert buf w j. induction fuel as [|fuel IH]; intros buf w j Hj Hf; [lia|].
  destruct buf as [|b buf]; [by eexists|]. cbn [WriteFull_loop].
  apply returns_bind; [apply syscall_returns|]. unfold sys_write. apply wp_syscall.
  - intros Hn. case_match; zbool; [|by eexists].
    destruct j as [|j]; [rewrite Nat.add_0_r in Hj; congruence|].
    apply (IH _ _ j); [|lia]. cbn. by rewrite <-Nat.add_succ_r.
  - intros Hn. cbn. destruct (w_fds w !! fd) as [o|]; [|by eexists].
    cbn. destruct (w_fs w !! fd_path o) as [i|]; [|by eexists]. cbn.
    set (chunk := take _ _). case_match; zbool; [by eexists|].
    destruct (HB (S (w_clk w))) as (j' & Hj' & Hne).
    apply (IH _ _ j'); [done|]. rewrite Nat2Z.id, length_drop. cbn [length] in *.
    destruct (length chunk) as [|c]; [done|]. nia.
Qed.

Lemma ReadFull_loop_returns B fuel fd remaining off acc w j :
  eintr_bound N_pread B →
  env_fault N_pread (w_clk w + j) ≠ EINTR →
  (j + 1 + (B + 1) * remaining <= fuel)%nat →
  returns (ReadFull_loop fuel fd remaining off acc) w.
Proof.
  intros HB. revert remaining off acc w j.
  induction fuel as [|fuel IH]; intros remaining off acc w j Hj Hf; [lia|].
  destruct remaining as [|n]; [by eexists|]. cbn [ReadFull_loop].
  apply returns_bind; [apply syscall_returns|]. unfold sys_pread. apply wp_syscall.
  - intros Hn. case_match; zbool; [|by eexists].
    destruct j as [|j]; [rewrite Nat.add_0_r in Hj; congruence|].
    apply (IH _ _ _ _ j); [|lia]. cbn. by rewrite <-Nat.add_succ_r.
  - intros Hn. cbn. destruct (w_fds w !! fd) as [o|]; [|by eexists].
    cbn. destruct (w_fs w !! fd_path o) as [i|]; [|by eexists].
    cbn [fst snd]. set (chunk := take _ _). case_match; zbool; [by eexists|].
    destruct (HB (S (w_clk w))) as (j' & Hj' & Hne).
    apply (IH _ _ _ _ j'); [done|].
    destruct (length chunk) as [|c]; [done|]. nia.
Qed.
End io_spec.

(** ** Properties *)
Section properties.
Context {EN : Env}.

(** C16: What the write engine stored is what the read engine delivers: in every
    environment, short transfers and interrupted calls included, a successful
    [SyncWriteEngine::Write] followed by a successful [SyncReadEngine::Read] of
    the same size returns the bytes written. *)
Theorem write_read_roundtrip p b dio a dio' w w1 data w2 :
  world_wf w →
  SyncWrite p (Some b) dio w = Some (SWAPFS_E_OK, w1) →
  SyncRead p a (Z.of_nat (length (buf_bytes b))) 0 dio' w1 = Some ((SWAPFS_E_OK, data), w2) →
  data = buf_bytes b.
Proof.
  intros Hwf Hw Hr.
  destruct (wp_elim _ _ _ _ _ (SyncWrite_spec p (Some b) dio w Hwf) Hw) as [Hf Hok].
  destruct (Hok eq_refl) as (b' & i & [= <-] & Hi & _ & Hd).
  pose proof (SyncRead_spec p a (Z.of_nat (length (buf_bytes b))) 0 dio' w1 (proj1 Hf)) as Hs.
  destruct (wp_elim _ _ _ _ _ Hs Hr) as (_ & _ & Hdata).
  destruct (Hdata eq_refl) as (i' & Hi' & Hd' & _). cbn in Hd'. subst data.
  rewrite Hi in Hi'. injection Hi' as <-. rewrite Hd, drop_0, Nat2Z.id. by rewrite take_ge.
Qed.

(** The engines close every descriptor they open and touch no other file:
    on every path, errors included, the descriptor table after a [Write] or a
    [Read] is the one before, and only the file named may differ. *)
Theorem engines_leave_no_descriptor p b a size off dio w :
  world_wf w →
  wp (SyncWrite p b dio) (λ _ w', io_frame p w w') w ∧
  wp (SyncRead p a size off dio) (λ _ w', io_frame p w w') w.
Proof.
  intros Hwf. split.
  - eapply wp_mono; [|by apply SyncWrite_spec]. by intros r w' [? _].
  - eapply wp_mono; [|by apply SyncRead_spec]. by intros r w' (? & _).
Qed.

(** The engines return: if no more than [B] transfers in a row are
    interrupted, fuel for [(B + 1) * (size + 1)] turns of the retry loop is
    enough for [Write] and [Read] of [size] bytes to return. *)
Theorem engines_return B p b a off dio w :
  eintr_bound N_write B → eintr_bound N_pread B →
  ((B + 1) * (length (buf_bytes b) + 1) <= env_fuel)%nat →
  returns (SyncWrite p (Some b) dio) w ∧
  returns (SyncRead p a (Z.of_nat (length (buf_bytes b))) off dio) w.
Proof.
  intros HW HR Hfuel. split.
  - unfold SyncWrite. case_match; [by eexists|].
    apply returns_bind; [apply syscall_returns|]. apply wp_intro. intros [e|fd] w1 _; [by eexists|].
    destruct (HW (w_clk w1)) as (j & Hj & Hne).
    apply returns_bind; [by apply (WriteFull_loop_returns B _ _ _ _ j); [..|lia]|].
    apply wp_intro. intros r w2 _. apply returns_bind; [|apply wp_intro; intros; by eexists].
    case_match; [|by eexists]. apply returns_bind; [apply syscall_returns|].
    apply wp_intro. intros; by eexists.
  - unfold SyncRead, OpenSwapFileForRead. destruct a as [a|]; [|by eexists].
    case_match; [by eexists|]. case_match; [by eexists|].
    apply returns_bind; [apply syscall_returns|]. apply wp_intro. intros [e|fd] w1 _; [by eexists|].
    destruct (HR (w_clk w1)) as (j & Hj & Hne).
    apply returns_bind; [by apply (ReadFull_loop_returns B _ _ _ _ _ _ j); [..|lia]|].
    apply wp_intro. intros; by eexists.
Qed.
End properties.

(** ** Witnesses: transfers of two bytes, two of them interrupted *)
Definition io_env : Env := faulty_env (quiet_env 2 40) [1%nat; 9%nat] EINTR.
Definition io_world : world := dirs_world ["/d"].
Definition io_buf : cbuf := Cbuf 8192 [104; 101; 108; 108; 111].
Definition io_world1 : world :=
  match @SyncWrite io_env "/d/1.tmp" (Some io_buf) false io_world with
  | Some (_, w) => w | None => io_world end.
Definition io_world2 : world :=
  match @SyncRead io_env "/d/1.tmp" (Some 4096) 5 0 false io_world1 with
  | Some (_, w) => w | None => io_world end.

Lemma write_read_roundtrip_witness :
  @SyncWrite io_env "/d/1.tmp" (Some io_buf) false io_world = Some (SWAPFS_E_OK, io_world1) ∧
  [104; 101; 108; 108; 111] = buf_bytes io_buf.
Proof.
  split; [vm_compute; reflexivity|].
  apply (@write_read_roundtrip io_env "/d/1.tmp" io_buf false (Some 4096) false
           io_world io_world1 _ io_world2).
  - apply dirs_world_wf.
  - vm_compute. reflexivity.
  - vm_compute. reflexivity.
Defined.

Lemma engines_leave_no_descriptor_witness :
  world_wf io_world ∧
  wp (@SyncWrite io_env "/d/1.tmp" (Some io_buf) false) (λ _ w', io_frame "/d/1.tmp" io_world w')
    io_world.
Proof.
  split; [apply dirs_world_wf|].
  apply (@engines_leave_no_descriptor io_env "/d/1.tmp" (Some io_buf) (Some 0) 5 0 false io_world).
  apply dirs_world_wf.
Defined.

Lemma io_env_eintr_bound k : @eintr_bound io_env k 1.
Proof.
  intros n. destruct (decide (n ∈ [1%nat; 9%nat])) as [E|E].
  - exists 1%nat. split; [lia|]. cbn. rewrite bool_decide_false; [done|].
    rewrite !elem_of_cons, elem_of_nil in *. lia.
  - exists 0%nat. split; [lia|]. rewrite Nat.add_0_r. cbn. by rewrite bool_decide_false.
Qed.

Lemma engines_return_witness :
  @eintr_bound io_env N_write 1 ∧
  returns (@SyncWrite io_env "/d/1.tmp" (Some io_buf) false) io_world.
Proof.
  split; [apply io_env_eintr_bound|].
  apply (@engines_return io_env 1 "/d/1.tmp" io_buf (Some 4096) 0 false io_world).
  - apply io_env_eintr_bound.
  - apply io_env_eintr_bound.
  - vm_compute. lia.
Defined.
