(* ===== verification/SwapfsControl.v ===== *)
(** * Space control of swapfs

    Models [swapfs_control.h] (the provider interface) and
    [swapfs_proxy_control.cpp] (the provider backed by the storage manager
    service): quota and device-space accounting of swap-outs.

    [SwapControlProvider] is the interface as the manager sees it;
    [SwapControlLaws] states, over an abstract [ledger], what an implementation
    promises; the proxy provider is shown to keep the promise. *)

From S2P Require Import Prelude.
From S2P Require Import Posix.
From S2P Require Import SwapfsErr.

Definition DEFAULT_SPACE_LIMIT_BYTES : Z := 1024 * 1024 * 1024.
Definition MIN_AVAILABLE_DEVICE_SPACE_BYTES : Z := 5 * 1024 * 1024 * 1024.
Definition DEFAULT_SPACE_CHECK_INTERVAL_MS : Z := 1000.

Inductive OH_SwapfsDisableReason :=
  | OH_SWAPFS_DISABLE_REASON_NONE | OH_SWAPFS_DISABLE_REASON_NOSPC.

Record OH_SwapfsStats := Stats {
  st_totalKeys : Z; st_totalDataSize : Z; st_totalOccupiedSize : Z;
  st_spaceLimitBytes : Z; st_featureEnabled : bool;
  st_disableReason : OH_SwapfsDisableReason; st_accumulatedWriteBytes : Z;
  st_lastSpaceCheckTime : Z; st_availableDeviceSpace : Z
}.

(** ** The interface *)
Class SwapControlProvider (C : Type) := {
  ctl_Init : Env → Z → Z → C → io (Z * C);
  ctl_ReserveSwapOut : Env → Z → C → io (Z * C);
  ctl_CancelReservedSwapOut : Z → C → C;
  ctl_OnSwapOutCommitted : Z → Z → C → C;
  ctl_OnEntryRemoved : Z → Z → C → C;
  ctl_OnAllEntriesRemoved : C → C;
  ctl_FillStats : Env → C → io (OH_SwapfsStats * C)
}.

(** What the accounting is about: committed keys and bytes, bytes reserved by
    swap-outs in flight, the quota. *)
Record ledger := Ledger { l_keys : Z; l_data : Z; l_occ : Z; l_pend : Z; l_limit : Z }.

(** The promise of a provider.  Sizes are those of swap files: data size and
    occupied size agree. *)
Class SwapControlLaws (C : Type) `{SwapControlProvider C} := {
  ledger_of : C → ledger;
  ctl_ok : C → Prop;
  ctl_ok_bounds c : ctl_ok c →
    0 <= l_keys (ledger_of c) ∧ 0 <= l_occ (ledger_of c) ∧ 0 <= l_data (ledger_of c) ∧
    0 <= l_pend (ledger_of c) ∧
    l_occ (ledger_of c) + l_pend (ledger_of c) <= l_limit (ledger_of c) ∧
    l_limit (ledger_of c) < 2 ^ 64;
  init_law `{EN : Env} limit interval c w : 0 <= limit < 2 ^ 64 →
    wp (ctl_Init EN limit interval c) (λ '(r, c') w', same_files w w' ∧
      (r = SWAPFS_E_OK → ctl_ok c' ∧ ledger_of c' =
        Ledger 0 0 0 0 (if limit =? 0 then DEFAULT_SPACE_LIMIT_BYTES else limit))) w;
  reserve_law `{EN : Env} n c w : ctl_ok c → 0 <= n < 2 ^ 64 →
    wp (ctl_ReserveSwapOut EN n c) (λ '(r, c') w', same_files w w' ∧ ctl_ok c' ∧
      let l := ledger_of c in
      if r =? SWAPFS_E_OK
      then l_occ l + l_pend l + n <= l_limit l ∧
           ledger_of c' = Ledger (l_keys l) (l_data l) (l_occ l) (l_pend l + n) (l_limit l)
      else ledger_of c' = l) w;
  cancel_law n c : ctl_ok c → 0 <= n <= l_pend (ledger_of c) →
    let l := ledger_of c in
    ctl_ok (ctl_CancelReservedSwapOut n c) ∧
    ledger_of (ctl_CancelReservedSwapOut n c) =
      Ledger (l_keys l) (l_data l) (l_occ l) (l_pend l - n) (l_limit l);
  commit_law n c : ctl_ok c → 0 <= n <= l_pend (ledger_of c) →
    l_keys (ledger_of c) < 2 ^ 64 - 1 → l_data (ledger_of c) = l_occ (ledger_of c) →
    let l := ledger_of c in
    ctl_ok (ctl_OnSwapOutCommitted n n c) ∧
    ledger_of (ctl_OnSwapOutCommitted n n c) =
      Ledger (l_keys l + 1) (l_data l + n) (l_occ l + n) (l_pend l - n) (l_limit l);
  removed_law n c : ctl_ok c → 0 <= n <= l_occ (ledger_of c) →
    0 < l_keys (ledger_of c) → l_data (ledger_of c) = l_occ (ledger_of c) →
    let l := ledger_of c in
    ctl_ok (ctl_OnEntryRemoved n n c) ∧
    ledger_of (ctl_OnEntryRemoved n n c) =
      Ledger (l_keys l - 1) (l_data l - n) (l_occ l - n) (l_pend l) (l_limit l);
  clear_law c : ctl_ok c →
    let l := ledger_of c in
    ctl_ok (ctl_OnAllEntriesRemoved c) ∧
    ledger_of (ctl_OnAllEntriesRemoved c) = Ledger 0 0 0 (l_pend l) (l_limit l);
  stats_law `{EN : Env} c w : ctl_ok c →
    wp (ctl_FillStats EN c) (λ '(s, c') w', same_files w w' ∧ ctl_ok c' ∧
      ledger_of c' = ledger_of c ∧
      st_totalKeys s = l_keys (ledger_of c) ∧ st_totalDataSize s = l_data (ledger_of c) ∧
      st_totalOccupiedSize s = l_occ (ledger_of c) ∧
      st_spaceLimitBytes s = l_limit (ledger_of c)) w
}.

(** ** The proxy provider *)
Record ProxySwapControlProvider := Proxy {
  proxy_ : bool;                      (** a proxy object is cached *)
  proxyUnavailable_ : bool;
  intervalMs_ : Z;
  totalKeys_ : Z;
  totalDataSize_ : Z;
  totalOccupiedSize_ : Z;
  pendingOccupiedSize_ : Z;
  committedSinceSpaceCheckBytes_ : Z;
  spaceLimitBytes_ : Z;
  featureEnabled_ : bool;
  disableReason_ : OH_SwapfsDisableReason;
  accumulatedWriteBytes_ : Z;
  lastSpaceCheckTime_ : Z;
  availableDeviceSpace_ : Z
}.

Definition new_proxy : ProxySwapControlProvider :=
  Proxy false false DEFAULT_SPACE_CHECK_INTERVAL_MS 0 0 0 0 0 DEFAULT_SPACE_LIMIT_BYTES true
        OH_SWAPFS_DISABLE_REASON_NONE 0 0 0.

Section proxy.
Context {EN : Env}.
Implicit Types (c : ProxySwapControlProvider).

Definition NowMs : io Z := ask env_now.

Definition GetStorageManagerRemote : io bool := ask env_sa.
Definition CastStorageManagerProxy : io bool := ask env_iface.

Definition set_proxy (p u : bool) c : ProxySwapControlProvider :=
  Proxy p u (intervalMs_ c) (totalKeys_ c) (totalDataSize_ c) (totalOccupiedSize_ c)
    (pendingOccupiedSize_ c) (committedSinceSpaceCheckBytes_ c) (spaceLimitBytes_ c)
    (featureEnabled_ c) (disableReason_ c) (accumulatedWriteBytes_ c) (lastSpaceCheckTime_ c)
    (availableDeviceSpace_ c).

(** [true]: the returned proxy is not null. *)
Definition GetOrCreateProxy c : io (bool * ProxySwapControlProvider) :=
  if proxy_ c then sret (true, c) else
  remote ← GetStorageManagerRemote;
  if negb remote then sret (false, set_proxy (proxy_ c) true c) else
  p ← CastStorageManagerProxy;
  if negb p then sret (false, set_proxy false true c)
  else sret (true, set_proxy true false c).

(** The common part of [Init] and of the refresh: ask the storage manager for
    the free size; [Some] when the call succeeded. *)
Definition QueryFreeSize c : io (option Z * ProxySwapControlProvider) :=
  '(ok, c) ← GetOrCreateProxy c;
  if ok then
    ret ← ask env_free;
    match ret with
    | SOk freeSize => sret (Some (u64 freeSize), c)
    | SErr _ => sret (None, c)
    end
  else sret (None, c).

Definition InitWithAvailableSpace (availableDeviceSpace spaceLimitBytes intervalMs : Z) c :
    io ProxySwapControlProvider :=
  now ← NowMs;
  let low := availableDeviceSpace <? MIN_AVAILABLE_DEVICE_SPACE_BYTES in
  sret (Proxy (proxy_ c) (proxyUnavailable_ c) intervalMs 0 0 0 0 0
    (if spaceLimitBytes =? 0 then DEFAULT_SPACE_LIMIT_BYTES else spaceLimitBytes)
    (if low then false else true)
    (if low then OH_SWAPFS_DISABLE_REASON_NOSPC else OH_SWAPFS_DISABLE_REASON_NONE)
    0 now availableDeviceSpace).

Definition Init (spaceLimitBytes intervalMs : Z) c : io (Z * ProxySwapControlProvider) :=
  '(free, c) ← QueryFreeSize c;
  let availableDeviceSpace := default 0 free in
  c ← InitWithAvailableSpace availableDeviceSpace spaceLimitBytes intervalMs c;
  sret (SWAPFS_E_OK, c).

(** [RefreshAvailableSpaceIfNeeded] in its three parts: the check under
    [stateMutex_], the query with the mutex released, the update under it. *)
Definition RefreshCheck (now : Z) c : option Z :=
  if (0 <? intervalMs_ c) && (now - lastSpaceCheckTime_ c <? intervalMs_ c) then None
  else Some (committedSinceSpaceCheckBytes_ c).

Definition RefreshQuery c : io (option Z * ProxySwapControlProvider) :=
  if proxyUnavailable_ c then sret (None, c) else QueryFreeSize c.

Definition RefreshFinish (now committedAtStart : Z) (refreshed : option Z) c :
    ProxySwapControlProvider :=
  let avail := default (availableDeviceSpace_ c) refreshed in
  let committed :=
    match refreshed with
    | Some _ =>
        if committedSinceSpaceCheckBytes_ c >=? committedAtStart
        then committedSinceSpaceCheckBytes_ c - committedAtStart else 0
    | None => committedSinceSpaceCheckBytes_ c
    end in
  let enabled := avail >=? MIN_AVAILABLE_DEVICE_SPACE_BYTES in
  Proxy (proxy_ c) (proxyUnavailable_ c) (intervalMs_ c) (totalKeys_ c) (totalDataSize_ c)
    (totalOccupiedSize_ c) (pendingOccupiedSize_ c) committed (spaceLimitBytes_ c) enabled
    (if enabled then OH_SWAPFS_DISABLE_REASON_NONE else OH_SWAPFS_DISABLE_REASON_NOSPC)
    (accumulatedWriteBytes_ c) now avail.

Definition RefreshAvailableSpaceIfNeeded c : io ProxySwapControlProvider :=
  now ← NowMs;
  match RefreshCheck now c with
  | None => sret c
  | Some committedAtStart =>
      '(refreshed, c) ← RefreshQuery c;
      sret (RefreshFinish now committedAtStart refreshed c)
  end.

Definition CheckSwapOutAllowedLocked (occupiedSize : Z) c : Z :=
  if negb (featureEnabled_ c) then SWAPFS_E_NOSPC else
  let usedSize := totalOccupiedSize_ c +₆₄ pendingOccupiedSize_ c in
  if (usedSize >? spaceLimitBytes_ c) || (occupiedSize >? spaceLimitBytes_ c -₆₄ usedSize)
  then SWAPFS_E_QUOTA_EXCEEDED else
  let writableSpace := availableDeviceSpace_ c -₆₄ MIN_AVAILABLE_DEVICE_SPACE_BYTES in
  let inFlightSpace := pendingOccupiedSize_ c +₆₄ committedSinceSpaceCheckBytes_ c in
  if (inFlightSpace <? pendingOccupiedSize_ c) || (inFlightSpace >? writableSpace) ||
     (occupiedSize >? writableSpace -₆₄ inFlightSpace)
  then SWAPFS_E_NOSPC else SWAPFS_E_OK.

(** The state with new totals. *)
Definition with_totals (keys data occ pend committed accum : Z) c : ProxySwapControlProvider :=
  Proxy (proxy_ c) (proxyUnavailable_ c) (intervalMs_ c) keys data occ pend committed
    (spaceLimitBytes_ c) (featureEnabled_ c) (disableReason_ c) accum (lastSpaceCheckTime_ c)
    (availableDeviceSpace_ c).

(** The locked part of [ReserveSwapOut]. *)
Definition ReserveLocked (occupiedSize : Z) c : Z * ProxySwapControlProvider :=
  let ret := CheckSwapOutAllowedLocked occupiedSize c in
  if negb (ret =? SWAPFS_E_OK) then (ret, c)
  else (SWAPFS_E_OK,
        with_totals (totalKeys_ c) (totalDataSize_ c) (totalOccupiedSize_ c)
          (pendingOccupiedSize_ c +₆₄ occupiedSize) (committedSinceSpaceCheckBytes_ c)
          (accumulatedWriteBytes_ c) c).

Definition ReserveSwapOut (occupiedSize : Z) c : io (Z * ProxySwapControlProvider) :=
  c ← RefreshAvailableSpaceIfNeeded c;
  sret (ReserveLocked occupiedSize c).

(** [a >= b ? a - b : 0] *)
Definition sat_sub (a b : Z) : Z := if a >=? b then a - b else 0.

Definition CancelReservedSwapOut (occupiedSize : Z) c : ProxySwapControlProvider :=
  with_totals (totalKeys_ c) (totalDataSize_ c) (totalOccupiedSize_ c)
    (sat_sub (pendingOccupiedSize_ c) occupiedSize) (committedSinceSpaceCheckBytes_ c)
    (accumulatedWriteBytes_ c) c.

Definition OnSwapOutCommitted (dataSize occupiedSize : Z) c : ProxySwapControlProvider :=
  with_totals (totalKeys_ c +₆₄ 1) (totalDataSize_ c +₆₄ dataSize)
    (totalOccupiedSize_ c +₆₄ occupiedSize) (sat_sub (pendingOccupiedSize_ c) occupiedSize)
    (committedSinceSpaceCheckBytes_ c +₆₄ occupiedSize)
    (accumulatedWriteBytes_ c +₆₄ occupiedSize) c.

Definition OnEntryRemoved (dataSize occupiedSize : Z) c : ProxySwapControlProvider :=
  with_totals (if totalKeys_ c >? 0 then totalKeys_ c - 1 else totalKeys_ c)
    (sat_sub (totalDataSize_ c) dataSize) (sat_sub (totalOccupiedSize_ c) occupiedSize)
    (pendingOccupiedSize_ c) (committedSinceSpaceCheckBytes_ c) (accumulatedWriteBytes_ c) c.

Definition OnAllEntriesRemoved c : ProxySwapControlProvider :=
  with_totals 0 0 0 (pendingOccupiedSize_ c) (committedSinceSpaceCheckBytes_ c)
    (accumulatedWriteBytes_ c) c.

Definition FillStats c : io (OH_SwapfsStats * ProxySwapControlProvider) :=
  c ← RefreshAvailableSpaceIfNeeded c;
  sret (Stats (totalKeys_ c) (totalDataSize_ c) (totalOccupiedSize_ c) (spaceLimitBytes_ c)
          (featureEnabled_ c) (disableReason_ c) (accumulatedWriteBytes_ c)
          (lastSpaceCheckTime_ c) (availableDeviceSpace_ c), c).
End proxy.

#[export] Instance proxy_provider : SwapControlProvider ProxySwapControlProvider := {
  ctl_Init := @Init;
  ctl_ReserveSwapOut := @ReserveSwapOut;
  ctl_CancelReservedSwapOut := CancelReservedSwapOut;
  ctl_OnSwapOutCommitted := OnSwapOutCommitted;
  ctl_OnEntryRemoved := OnEntryRemoved;
  ctl_OnAllEntriesRemoved := OnAllEntriesRemoved;
  ctl_FillStats := @FillStats
}.

(** ** The invariant of the proxy provider *)
Definition proxy_ledger (c : ProxySwapControlProvider) : ledger :=
  Ledger (totalKeys_ c) (totalDataSize_ c) (totalOccupiedSize_ c) (pendingOccupiedSize_ c)
    (spaceLimitBytes_ c).

(** Quota respected by commitments and reservations together, nothing near the
    end of [uint64_t], and enabled only above the device-space threshold. *)
Definition proxy_ok (c : ProxySwapControlProvider) : Prop :=
  0 <= totalKeys_ c ∧ 0 <= totalDataSize_ c ∧ 0 <= totalOccupiedSize_ c ∧
  0 <= pendingOccupiedSize_ c ∧
  totalOccupiedSize_ c + pendingOccupiedSize_ c <= spaceLimitBytes_ c ∧
  spaceLimitBytes_ c < 2 ^ 64 ∧
  0 <= committedSinceSpaceCheckBytes_ c ∧
  pendingOccupiedSize_ c + committedSinceSpaceCheckBytes_ c < 2 ^ 64 ∧
  0 <= availableDeviceSpace_ c < 2 ^ 64 ∧
  (featureEnabled_ c = true → MIN_AVAILABLE_DEVICE_SPACE_BYTES <= availableDeviceSpace_ c).

Ltac proxy_simpl :=
  unfold proxy_ok, proxy_ledger, MIN_AVAILABLE_DEVICE_SPACE_BYTES in *; cbn in *.

Section proxy_spec.
Context {EN : Env}.
Implicit Types (c : ProxySwapControlProvider) (w : world).

(** What the service calls may change: the cached proxy and its flag. *)
Definition same_space c c' : Prop :=
  ∃ p u, c' = set_proxy p u c.

Lemma same_space_refl c : same_space c c.
Proof. exists (proxy_ c), (proxyUnavailable_ c). by destruct c. Qed.

Lemma wp_ask {A} (f : nat → A) Q w : Q (f (w_clk w)) (tick w) → wp (ask f) Q w.
Proof. done. Qed.

Lemma GetOrCreateProxy_spec c w :
  wp (GetOrCreateProxy c) (λ r w', same_files w w' ∧ same_space c r.2) w.
Proof.
  unfold GetOrCreateProxy, GetStorageManagerRemote, CastStorageManagerProxy.
  destruct (proxy_ c) eqn:Hp; [apply wp_ret; split; [done|apply same_space_refl]|].
  apply wp_bind, wp_ask. destruct (negb _).
  { apply wp_ret. split; [done|]. eexists _, _. reflexivity. }
  apply wp_bind, wp_ask. destruct (negb _); apply wp_ret; (split; [done|]);
    eexists _, _; reflexivity.
Qed.

Lemma QueryFreeSize_spec c w :
  wp (QueryFreeSize c) (λ r w', same_files w w' ∧ same_space c r.2 ∧
    match r.1 with Some s => 0 <= s < 2 ^ 64 | None => True end) w.
Proof.
  unfold QueryFreeSize. apply wp_bind. eapply wp_mono; [|apply GetOrCreateProxy_spec].
  intros [ok c'] w' [Hs Hc]. destruct ok; [|by apply wp_ret].
  apply wp_bind, wp_ask. destruct (env_free _); apply wp_ret; split_and!; try done.
  all: apply u64_range.
Qed.

Lemma RefreshFinish_ok now k r c :
  proxy_ok c → match r with Some s => 0 <= s < 2 ^ 64 | None => True end → 0 <= k →
  proxy_ok (RefreshFinish now k r c) ∧ proxy_ledger (RefreshFinish now k r c) = proxy_ledger c.
Proof.
  intros Hc Hr Hk. unfold RefreshFinish. split; [|done].
  destruct r as [s|]; proxy_simpl; split_and!; try lia.
  all: repeat case_match; zbool; lia.
Qed.

Lemma same_space_ok c c' :
  same_space c c' → proxy_ok c → proxy_ok c' ∧ proxy_ledger c' = proxy_ledger c.
Proof. by intros (p & u & ->). Qed.

Lemma Refresh_spec c w :
  proxy_ok c →
  wp (RefreshAvailableSpaceIfNeeded c) (λ c' w', same_files w w' ∧ proxy_ok c' ∧
    proxy_ledger c' = proxy_ledger c) w.
Proof.
  intros Hc. unfold RefreshAvailableSpaceIfNeeded. apply wp_bind, wp_ask.
  destruct (RefreshCheck _ c) as [k|] eqn:Hk; [|by apply wp_ret].
  assert (0 <= k) as Hk0.
  { unfold RefreshCheck in Hk. case_match; simplify_eq. unfold proxy_ok in Hc. lia. }
  assert (wp (RefreshQuery c) (λ r w', same_files (tick w) w' ∧ same_space c r.2 ∧
    match r.1 with Some s => 0 <= s < 2 ^ 64 | None => True end) (tick w)) as Hq.
  { unfold RefreshQuery. destruct (proxyUnavailable_ c); [|apply QueryFreeSize_spec].
    apply wp_ret. split_and!; [done..|apply same_space_refl|done]. }
  apply wp_bind. eapply wp_mono; [|exact Hq]. intros [r c'] w' (Hs & Hsp & Hr). cbn [fst snd] in *.
  apply wp_ret. destruct (same_space_ok _ _ Hsp Hc) as [Hc' Hl'].
  destruct (RefreshFinish_ok (env_now (w_clk w)) k r c' Hc' Hr Hk0) as [? ?].
  split_and!; [apply Hs..|done|congruence].
Qed.

(** The locked check, in exact arithmetic. *)
Lemma CheckSwapOutAllowedLocked_spec n c :
  proxy_ok c → 0 <= n < 2 ^ 64 →
  CheckSwapOutAllowedLocked n c =
    if negb (featureEnabled_ c) then SWAPFS_E_NOSPC
    else if totalOccupiedSize_ c + pendingOccupiedSize_ c + n >? spaceLimitBytes_ c
    then SWAPFS_E_QUOTA_EXCEEDED
    else if MIN_AVAILABLE_DEVICE_SPACE_BYTES + pendingOccupiedSize_ c +
            committedSinceSpaceCheckBytes_ c + n >? availableDeviceSpace_ c
    then SWAPFS_E_NOSPC else SWAPFS_E_OK.
Proof.
  intros Hc Hn. unfold CheckSwapOutAllowedLocked.
  destruct (featureEnabled_ c) eqn:He; [|done]. cbn [negb]. proxy_simpl.
  destruct Hc as (?&?&?&?&?&?&?&?&?&Hav). specialize (Hav He).
  rewrite (u64_id (_ + _)) by lia. rewrite (u64_id (spaceLimitBytes_ c - _)) by lia.
  rewrite (u64_id (pendingOccupiedSize_ c + _)) by lia.
  rewrite (u64_id (availableDeviceSpace_ c - _)) by lia.
  assert (Hq : (totalOccupiedSize_ c + pendingOccupiedSize_ c >? spaceLimitBytes_ c)
    || (n >? spaceLimitBytes_ c - (totalOccupiedSize_ c + pendingOccupiedSize_ c))
    = (totalOccupiedSize_ c + pendingOccupiedSize_ c + n >? spaceLimitBytes_ c)) by lia.
  rewrite Hq. destruct (totalOccupiedSize_ c + pendingOccupiedSize_ c + n >? spaceLimitBytes_ c);
    [done|].
  set (writable := availableDeviceSpace_ c - 5 * 1024 * 1024 * 1024) in *.
  set (inflight := pendingOccupiedSize_ c + committedSinceSpaceCheckBytes_ c) in *.
  destruct (inflight >? writable) eqn:E1; zbool.
  - rewrite orb_true_r. cbn [orb].
    replace (_ >? availableDeviceSpace_ c) with true by lia. done.
  - rewrite (u64_id (writable - _)) by lia.
    replace (inflight <? pendingOccupiedSize_ c) with false by lia. cbn [orb].
    replace (n >? writable - inflight) with
      (5 * 1024 * 1024 * 1024 + pendingOccupiedSize_ c + committedSinceSpaceCheckBytes_ c + n >?
        availableDeviceSpace_ c) by lia.
    done.
Qed.

Lemma ReserveLocked_spec n c :
  proxy_ok c → 0 <= n < 2 ^ 64 →
  let '(r, c') := ReserveLocked n c in
  proxy_ok c' ∧
  if r =? SWAPFS_E_OK
  then totalOccupiedSize_ c + pendingOccupiedSize_ c + n <= spaceLimitBytes_ c ∧
       MIN_AVAILABLE_DEVICE_SPACE_BYTES + pendingOccupiedSize_ c' +
         committedSinceSpaceCheckBytes_ c' <= availableDeviceSpace_ c' ∧
       c' = with_totals (totalKeys_ c) (totalDataSize_ c) (totalOccupiedSize_ c)
              (pendingOccupiedSize_ c + n) (committedSinceSpaceCheckBytes_ c)
              (accumulatedWriteBytes_ c) c
  else c' = c.
Proof.
  intros Hc Hn. unfold ReserveLocked.
  rewrite (CheckSwapOutAllowedLocked_spec n c Hc Hn).
  destruct (featureEnabled_ c); [|done]. cbn [negb].
  destruct (totalOccupiedSize_ c + pendingOccupiedSize_ c + n >? spaceLimitBytes_ c) eqn:E1;
    [done|].
  destruct (MIN_AVAILABLE_DEVICE_SPACE_BYTES + pendingOccupiedSize_ c +
            committedSinceSpaceCheckBytes_ c + n >? availableDeviceSpace_ c) eqn:E2; [done|].
  zbool. cbn -[Z.add]. proxy_simpl. rewrite u64_id by lia. split_and!; try lia. done.
Qed.
End proxy_spec.

(** ** The proxy provider keeps the promise of the interface *)
Section proxy_laws.
Implicit Types (c : ProxySwapControlProvider).

Lemma sat_sub_le a b : b <= a → sat_sub a b = a - b.
Proof. unfold sat_sub. intros. destruct (a >=? b) eqn:E; zbool; lia. Qed.
Lemma sat_sub_nonneg a b : 0 <= b → 0 <= a → 0 <= sat_sub a b <= a.
Proof. unfold sat_sub. intros. destruct (a >=? b) eqn:E; zbool; lia. Qed.

Lemma Cancel_ok n c : proxy_ok c → 0 <= n → proxy_ok (CancelReservedSwapOut n c).
Proof.
  intros Hc Hn. pose proof (sat_sub_nonneg (pendingOccupiedSize_ c) n Hn).
  proxy_simpl. split_and!; lia || tauto.
Qed.

Lemma Commit_ok n m c :
  proxy_ok c → 0 <= n <= pendingOccupiedSize_ c → proxy_ok (OnSwapOutCommitted m n c).
Proof.
  intros Hc Hn. pose proof (u64_range (totalKeys_ c + 1)).
  pose proof (u64_range (totalDataSize_ c + m)). proxy_simpl. unfold sat_sub.
  destruct (_ >=? n) eqn:E; zbool; [|lia].
  rewrite (u64_id (totalOccupiedSize_ c + n)) by lia.
  rewrite (u64_id (committedSinceSpaceCheckBytes_ c + n)) by lia.
  split_and!; lia || tauto.
Qed.

Lemma Removed_ok n m c : proxy_ok c → 0 <= n → 0 <= m → proxy_ok (OnEntryRemoved m n c).
Proof.
  intros Hc Hn Hm. pose proof (sat_sub_nonneg (totalOccupiedSize_ c) n Hn).
  pose proof (sat_sub_nonneg (totalDataSize_ c) m Hm).
  proxy_simpl. destruct (totalKeys_ c >? 0) eqn:E; zbool; split_and!; lia || tauto.
Qed.

Lemma Clear_ok c : proxy_ok c → proxy_ok (OnAllEntriesRemoved c).
Proof. intros Hc. proxy_simpl. split_and!; lia || tauto. Qed.

Lemma Init_spec `{EN : Env} limit interval c w : 0 <= limit < 2 ^ 64 →
  wp (Init limit interval c) (λ r w', same_files w w' ∧ r.1 = SWAPFS_E_OK ∧ proxy_ok r.2 ∧
    committedSinceSpaceCheckBytes_ r.2 = 0 ∧ proxy_ledger r.2 =
      Ledger 0 0 0 0 (if limit =? 0 then DEFAULT_SPACE_LIMIT_BYTES else limit)) w.
Proof.
  intros Hl. unfold Init. apply wp_bind. eapply wp_mono; [|apply QueryFreeSize_spec].
  intros [f c'] w' (Hs & _ & Hf). cbn [fst snd] in *. apply wp_bind.
  unfold InitWithAvailableSpace, NowMs. apply wp_bind, wp_ask, wp_ret, wp_ret.
  assert (Hd : 0 <= default 0 f < 2 ^ 64) by (destruct f; cbn; [done|lia]).
  split_and!; [apply Hs..|done| |done|done].
  proxy_simpl. unfold DEFAULT_SPACE_LIMIT_BYTES.
  destruct (limit =? 0) eqn:E1, (default 0 f <? _) eqn:E2; zbool; split_and!; lia || done.
Qed.

Lemma ReserveSwapOut_spec `{EN : Env} n c w : proxy_ok c → 0 <= n < 2 ^ 64 →
  wp (ReserveSwapOut n c) (λ r w', same_files w w' ∧ proxy_ok r.2 ∧
    let l := proxy_ledger c in
    if r.1 =? SWAPFS_E_OK
    then l_occ l + l_pend l + n <= l_limit l ∧
         proxy_ledger r.2 = Ledger (l_keys l) (l_data l) (l_occ l) (l_pend l + n) (l_limit l)
    else proxy_ledger r.2 = l) w.
Proof.
  intros Hc Hn. unfold ReserveSwapOut. apply wp_bind.
  eapply wp_mono; [|by apply Refresh_spec]. intros c1 w1 (Hs & Hc1 & Hl1). apply wp_ret.
  pose proof (ReserveLocked_spec n c1 Hc1 Hn) as HR.
  destruct (ReserveLocked n c1) as [r c2]. destruct HR as [Hc2 HR].
  split; [done|]. split; [done|]. cbn [fst snd]. rewrite <-Hl1.
  destruct (r =? SWAPFS_E_OK); [|by rewrite HR]. destruct HR as (? & _ & ->). done.
Qed.

Lemma FillStats_spec `{EN : Env} c w : proxy_ok c →
  wp (FillStats c) (λ r w', same_files w w' ∧ proxy_ok r.2 ∧
    proxy_ledger r.2 = proxy_ledger c ∧
    st_totalKeys r.1 = totalKeys_ c ∧ st_totalDataSize r.1 = totalDataSize_ c ∧
    st_totalOccupiedSize r.1 = totalOccupiedSize_ c ∧
    st_spaceLimitBytes r.1 = spaceLimitBytes_ c) w.
Proof.
  intros Hc. unfold FillStats. apply wp_bind.
  eapply wp_mono; [|by apply Refresh_spec]. intros c1 w1 (Hs & Hc1 & Hl1). apply wp_ret.
  unfold proxy_ledger in *. cbn. split; [done|]. injection Hl1 as -> -> -> -> ->.
  by split_and!.
Qed.

#[export] Program Instance proxy_laws : SwapControlLaws ProxySwapControlProvider := {
  ledger_of := proxy_ledger;
  ctl_ok := proxy_ok
}.
Next Obligation. intros c Hc. proxy_simpl. lia. Qed.
Next Obligation.
  intros EN limit interval c w Hl. eapply wp_mono; [|by apply (Init_spec limit interval c w)].
  intros [r c'] w' (?&?&?&_&?). done.
Qed.
Next Obligation.
  intros EN n c w Hc Hn. eapply wp_mono; [|by apply (ReserveSwapOut_spec n c w)].
  by intros [r c'] w' ?.
Qed.
Next Obligation.
  intros n c Hc Hn l. split; [apply Cancel_ok; [done|lia]|].
  unfold l. proxy_simpl. unfold sat_sub. destruct (_ >=? _) eqn:E; zbool; [done|lia].
Qed.
Next Obligation.
  intros n c Hc Hn Hk Hd l. cbn in *. split; [by apply Commit_ok|].
  unfold l. proxy_simpl. unfold sat_sub.
  rewrite !u64_id by lia. destruct (_ >=? _) eqn:E; zbool; [done|lia].
Qed.
Next Obligation.
  intros n c Hc Hn Hk Hd l. cbn in *. split; [apply Removed_ok; (done || lia)|].
  unfold l. proxy_simpl. rewrite !sat_sub_le by lia.
  destruct (_ >? _) eqn:E; zbool; [done|lia].
Qed.
Next Obligation. intros c Hc l. split; [by apply Clear_ok|done]. Qed.
Next Obligation.
  intros EN c w Hc. eapply wp_mono; [|by apply (FillStats_spec c w)].
  by intros [s c'] w' ?.
Qed.
End proxy_laws.

(** ** The provider under interleaving

    [stateMutex_] makes each locked part atomic; [refreshMutex_] allows one
    refresh at a time, whose query runs while other threads reserve, commit,
    cancel and remove.  [cs_refresh] is the refresh in flight: the time it
    read, its [committedAtStart], and (ghost) the bytes committed since. *)
Record cstate := CState {
  cs_c : ProxySwapControlProvider;
  cs_refresh : option (Z * Z * Z)
}.

Inductive clabel :=
  | LReserve (n r : Z) | LCancel (n : Z) | LCommit (n : Z) | LRemove (n : Z) | LClear
  | LRefresh.

Definition commit_ghost (n : Z) (r : option (Z * Z * Z)) : option (Z * Z * Z) :=
  match r with Some (now, k, g) => Some (now, k, g + n) | None => None end.

Inductive cstep : clabel → cstate → cstate → Prop :=
  | step_refresh_begin c now k :
      RefreshCheck now c = Some k →
      cstep LRefresh (CState c None) (CState c (Some (now, k, 0)))
  | step_refresh_query (EN : Env) c now k g r c' w w' :
      RefreshQuery c w = Some ((r, c'), w') →
      cstep LRefresh (CState c (Some (now, k, g)))
            (CState (RefreshFinish now k r c') None)
  | step_reserve n c f r c' :
      0 <= n < 2 ^ 64 →
      ReserveLocked n c = (r, c') →
      cstep (LReserve n r) (CState c f) (CState c' f)
  | step_cancel n c f :
      0 <= n <= pendingOccupiedSize_ c →
      cstep (LCancel n) (CState c f) (CState (CancelReservedSwapOut n c) f)
  | step_commit n c f :
      0 <= n <= pendingOccupiedSize_ c → totalKeys_ c < 2 ^ 64 - 1 →
      totalDataSize_ c = totalOccupiedSize_ c →
      cstep (LCommit n) (CState c f) (CState (OnSwapOutCommitted n n c) (commit_ghost n f))
  | step_remove n c f :
      0 <= n <= totalOccupiedSize_ c → 0 < totalKeys_ c →
      totalDataSize_ c = totalOccupiedSize_ c →
      cstep (LRemove n) (CState c f) (CState (OnEntryRemoved n n c) f)
  | step_clear c f :
      cstep LClear (CState c f) (CState (OnAllEntriesRemoved c) f).

(** States after [Init] with a quota below [2^64]. *)
Inductive creach : cstate → Prop :=
  | creach_init (EN : Env) limit interval c0 w r c w' :
      0 <= limit < 2 ^ 64 →
      Init limit interval c0 w = Some ((r, c), w') →
      creach (CState c None)
  | creach_step l s s' : creach s → cstep l s s' → creach s'.

(** What the ledger does on each label. *)
Definition ledger_step (lab : clabel) (l l' : ledger) : Prop :=
  match lab with
  | LReserve n r =>
      if r =? SWAPFS_E_OK
      then l_occ l + l_pend l + n <= l_limit l ∧
           l' = Ledger (l_keys l) (l_data l) (l_occ l) (l_pend l + n) (l_limit l)
      else l' = l
  | LCancel n => l' = Ledger (l_keys l) (l_data l) (l_occ l) (l_pend l - n) (l_limit l)
  | LCommit n =>
      l' = Ledger (l_keys l + 1) (l_data l + n) (l_occ l + n) (l_pend l - n) (l_limit l)
  | LRemove n => l' = Ledger (l_keys l - 1) (l_data l - n) (l_occ l - n) (l_pend l) (l_limit l)
  | LClear => l' = Ledger 0 0 0 (l_pend l) (l_limit l)
  | LRefresh => l' = l
  end.

Definition refresh_inv (s : cstate) : Prop :=
  match cs_refresh s with
  | Some (_, k, g) => 0 <= k ∧ 0 <= g ∧ committedSinceSpaceCheckBytes_ (cs_c s) = k + g
  | None => True
  end.

Lemma RefreshQuery_spec `{EN : Env} c w :
  wp (RefreshQuery c) (λ r w', same_files w w' ∧ same_space c r.2 ∧
    match r.1 with Some s => 0 <= s < 2 ^ 64 | None => True end) w.
Proof.
  unfold RefreshQuery. destruct (proxyUnavailable_ c); [|apply QueryFreeSize_spec].
  apply wp_ret. split_and!; [done|apply same_space_refl|done].
Qed.

Lemma cstep_sound lab s s' :
  proxy_ok (cs_c s) → refresh_inv s → cstep lab s s' →
  (proxy_ok (cs_c s') ∧ refresh_inv s') ∧
  ledger_step lab (proxy_ledger (cs_c s)) (proxy_ledger (cs_c s')).
Proof.
  intros Hc Hr Hstep. destruct Hstep as
    [c now k Hk|EN c now k g r c' w w' Hq|n c f r c' Hn HR|n c f Hn|n c f Hn Hk Hd
    |n c f Hn Hk Hd|c f]; cbn [cs_c cs_refresh] in *.
  - split; [split; [done|]|done]. unfold RefreshCheck in Hk. case_match; simplify_eq.
    unfold refresh_inv, proxy_ok in *. cbn. lia.
  - destruct (wp_elim _ _ _ _ _ (RefreshQuery_spec c w) Hq) as (_ & Hs & Hr').
    cbn [fst snd] in *. destruct (same_space_ok _ _ Hs Hc) as [Hc' Hl'].
    unfold refresh_inv in Hr. cbn in Hr.
    destruct (RefreshFinish_ok now k r c' Hc' Hr') as [? Hl]; [lia|].
    split; [done|]. cbn. congruence.
  - pose proof (ReserveLocked_spec n c Hc Hn) as Hs. rewrite HR in Hs. destruct Hs as [Hc' Hs].
    unfold ledger_step, refresh_inv in *. cbn in *. destruct (r =? SWAPFS_E_OK).
    + by destruct Hs as (? & _ & ->).
    + by subst.
  - split; [split; [by apply Cancel_ok; [|lia]|done]|].
    cbn. unfold proxy_ledger. cbn. by rewrite sat_sub_le by lia.
  - destruct (@commit_law _ _ proxy_laws n c Hc Hn Hk Hd) as [Hc' Hl]. split; [split; [done|]|done].
    unfold refresh_inv in *. cbn in *. destruct f as [[[now k] g]|]; [|done]. cbn.
    proxy_simpl. rewrite u64_id by lia. lia.
  - destruct (@removed_law _ _ proxy_laws n c Hc Hn Hk Hd) as [Hc' Hl]. done.
  - destruct (@clear_law _ _ proxy_laws c Hc) as [Hc' Hl]. done.
Qed.

Lemma creach_ok s : creach s → proxy_ok (cs_c s) ∧ refresh_inv s.
Proof.
  induction 1 as [EN limit interval c0 w r c w' Hl Hi|l s s' _ [Hc Hr] Hs].
  - destruct (wp_elim _ _ _ _ _ (Init_spec limit interval c0 w Hl) Hi) as (_ & _ & ? & _). done.
  - by apply (cstep_sound l s s').
Qed.

(** ** Properties *)

(** C6: The quota is never exceeded: whatever the interleaving of reserving, committing,
    cancelling and removing swap files with a refresh in flight, where no more is cancelled or
    committed than is reserved and no more removed than is stored, committed bytes plus reserved
    bytes stay within the quota, the counters of both and of the bytes committed since the last
    check do not wrap around, and the feature is enabled only with at least 5 GiB free on the
    device. *)
Theorem quota_invariant s :
  creach s →
  let c := cs_c s in
  0 <= totalOccupiedSize_ c ∧ 0 <= pendingOccupiedSize_ c ∧
  totalOccupiedSize_ c + pendingOccupiedSize_ c <= spaceLimitBytes_ c < 2 ^ 64 ∧
  0 <= committedSinceSpaceCheckBytes_ c ∧
  pendingOccupiedSize_ c + committedSinceSpaceCheckBytes_ c < 2 ^ 64 ∧
  (featureEnabled_ c = true → MIN_AVAILABLE_DEVICE_SPACE_BYTES <= availableDeviceSpace_ c < 2 ^ 64).
Proof.
  intros Hs c. destruct (creach_ok s Hs) as [Hc _]. fold c in Hc. unfold proxy_ok in Hc.
  split_and!; try lia. intros He. split; [tauto|lia].
Qed.

(** C17: The provider implements the abstract ledger: each atomic part of it, in
    any reachable state, does to (keys, data bytes, occupied bytes, reserved
    bytes, quota) exactly what the ledger does, a reservation being granted
    only within the quota; a refresh leaves the ledger alone. *)
Theorem proxy_refines_ledger lab s s' :
  creach s → cstep lab s s' →
  ledger_step lab (proxy_ledger (cs_c s)) (proxy_ledger (cs_c s')).
Proof.
  intros Hs Hstep. destruct (creach_ok s Hs) as [Hc Hr].
  by apply (cstep_sound lab s s').
Qed.

(** [ReserveSwapOut] decides in exact arithmetic: with [c'] the state it
    leaves, it answers OK iff the feature is enabled, the quota has room for
    the committed, reserved and requested bytes, and the device has room for
    5 GiB plus the bytes in flight, those committed since the last space check
    and those requested; the codes of the refusals are as the code says. *)
Theorem reserve_decision (EN : Env) n c w r c' w' :
  proxy_ok c → 0 <= n < 2 ^ 64 →
  ReserveSwapOut n c w = Some ((r, c'), w') →
  r = (if negb (featureEnabled_ c') then SWAPFS_E_NOSPC
       else if totalOccupiedSize_ c + pendingOccupiedSize_ c + n >? spaceLimitBytes_ c
       then SWAPFS_E_QUOTA_EXCEEDED
       else if MIN_AVAILABLE_DEVICE_SPACE_BYTES + pendingOccupiedSize_ c +
               committedSinceSpaceCheckBytes_ c' + n >? availableDeviceSpace_ c'
       then SWAPFS_E_NOSPC else SWAPFS_E_OK).
Proof.
  intros Hc Hn HR. unfold ReserveSwapOut in HR.
  apply bind_Some in HR as (c1 & w1 & Hrf & HR).
  destruct (wp_elim _ _ _ _ _ (Refresh_spec c w Hc) Hrf) as (_ & Hc1 & Hl1).
  injection HR as HR _. unfold proxy_ledger in Hl1. injection Hl1 as H1 H2 H3 H4 H5.
  rewrite <-H3, <-H4, <-H5. unfold ReserveLocked in HR.
  rewrite (CheckSwapOutAllowedLocked_spec n c1 Hc1 Hn) in HR.
  destruct (featureEnabled_ c1) eqn:He; cbn [negb] in HR;
    [|by injection HR as <- <-; rewrite He].
  destruct (totalOccupiedSize_ c1 + pendingOccupiedSize_ c1 + n >? spaceLimitBytes_ c1) eqn:E1;
    [by injection HR as <- <-; rewrite He|].
  destruct (MIN_AVAILABLE_DEVICE_SPACE_BYTES + pendingOccupiedSize_ c1 +
            committedSinceSpaceCheckBytes_ c1 + n >? availableDeviceSpace_ c1) eqn:E2;
    injection HR as <- <-; cbn -[Z.add]; by rewrite He, ?E1, ?E2.
Qed.

(** A refresh loses no concurrent commit: when the query that ends a
    refresh succeeds, [committedSinceSpaceCheckBytes_] is exactly the number of
    bytes committed by other threads since the refresh read
    [committedAtStart]. *)
Theorem refresh_keeps_concurrent_commits c now k g free :
  creach (CState c (Some (now, k, g))) →
  committedSinceSpaceCheckBytes_ (RefreshFinish now k (Some free) c) = g ∧
  availableDeviceSpace_ (RefreshFinish now k (Some free) c) = free.
Proof.
  intros Hs. destruct (creach_ok _ Hs) as [_ Hr]. unfold refresh_inv in Hr. cbn in Hr.
  cbn. destruct Hr as (?&?&->). destruct (_ >=? _) eqn:E; zbool; [|lia]. split; [lia|done].
Qed.

(** The service was found unavailable while the recorded space was too low. *)
Definition stuck_disabled (c : ProxySwapControlProvider) : Prop :=
  proxyUnavailable_ c = true ∧ featureEnabled_ c = false ∧
  availableDeviceSpace_ c < MIN_AVAILABLE_DEVICE_SPACE_BYTES.

(** An unavailable storage manager is never asked again: once a lookup of
    the service failed while the recorded free space was below the threshold
    (which is how [Init] leaves the provider when the service is not up yet),
    every operation keeps that state and every reservation is refused with
    NOSPC, whatever the service would answer later. *)
Theorem unavailable_service_is_sticky c :
  stuck_disabled c →
  (∀ lab s s', cs_c s = c → cstep lab s s' → stuck_disabled (cs_c s')) ∧
  (∀ (EN : Env) n w, wp (ReserveSwapOut n c) (λ r _, r.1 = SWAPFS_E_NOSPC) w).
Proof.
  intros (Hu & He & Ha). split.
  - intros lab s s' Hs Hstep. destruct Hstep; cbn in Hs |- *; subst; try done.
    + unfold RefreshQuery in *. rewrite Hu in *. match goal with H : sret _ _ = _ |- _ =>
        injection H as <- <- <- end.
      unfold stuck_disabled. cbn. destruct (_ >=? _) eqn:E; zbool; [lia|done].
    + unfold ReserveLocked, CheckSwapOutAllowedLocked in *. rewrite He in *. cbn in *.
      by simplify_eq.
  - intros EN n w. unfold ReserveSwapOut, RefreshAvailableSpaceIfNeeded, NowMs.
    apply wp_bind, wp_bind, wp_ask. destruct (RefreshCheck _ c) as [k|].
    + unfold RefreshQuery. rewrite Hu. apply wp_bind, wp_ret, wp_ret, wp_ret.
      unfold ReserveLocked, CheckSwapOutAllowedLocked. cbn.
      destruct (_ >=? MIN_AVAILABLE_DEVICE_SPACE_BYTES) eqn:E; zbool; [lia|done].
    + apply wp_ret, wp_ret. unfold ReserveLocked, CheckSwapOutAllowedLocked. by rewrite He.
Qed.

(** ** Witnesses: a quota of 8192 bytes on a device with 10 GiB free *)
Definition ctl_env : Env := quiet_env 4 4.
Definition ctl_world : world := dirs_world ["/swap"].

Definition run_or {A} (d : A) (m : io A) (w : world) : A :=
  match m w with Some (a, _) => a | None => d end.

(** After [Init]; after a reservation of 4096 bytes; after its commitment. *)
Definition ctl0 : ProxySwapControlProvider :=
  (run_or (0, new_proxy) (@Init ctl_env 8192 1000 new_proxy) ctl_world).2.
Definition ctl1 : ProxySwapControlProvider := (ReserveLocked 4096 ctl0).2.
Definition ctl2 : ProxySwapControlProvider := OnSwapOutCommitted 4096 4096 ctl1.

Lemma ctl0_reach : creach (CState ctl0 None).
Proof.
  eapply (creach_init ctl_env 8192 1000 new_proxy ctl_world); [lia|].
  vm_compute. reflexivity.
Qed.
Lemma ctl1_step : cstep (LReserve 4096 SWAPFS_E_OK) (CState ctl0 None) (CState ctl1 None).
Proof. constructor; [lia|]. vm_compute. reflexivity. Qed.
Lemma ctl1_reach : creach (CState ctl1 None).
Proof. exact (creach_step _ _ _ ctl0_reach ctl1_step). Qed.

(** A refresh in flight while the reservation is committed. *)
Definition ctl_refresh1 : cstate := CState ctl1 (Some (5000, 0, 0)).
Definition ctl_refresh2 : cstate := CState ctl2 (Some (5000, 0, 4096)).
Lemma ctl_refresh2_reach : creach ctl_refresh2.
Proof.
  assert (creach ctl_refresh1) as H1.
  { eapply creach_step; [apply ctl1_reach|]. apply (step_refresh_begin ctl1 5000 0).
    vm_compute. reflexivity. }
  eapply creach_step; [exact H1|].
  apply (step_commit 4096 ctl1 (Some (5000, 0, 0))); vm_compute; try done; by intros [].
Qed.

Lemma quota_invariant_witness :
  creach ctl_refresh2 ∧ totalOccupiedSize_ ctl2 + pendingOccupiedSize_ ctl2 <= 8192.
Proof.
  split; [apply ctl_refresh2_reach|].
  destruct (quota_invariant ctl_refresh2 ctl_refresh2_reach) as (_ & _ & [H _] & _).
  exact H.
Defined.

Lemma proxy_refines_ledger_witness :
  ledger_step (LReserve 4096 SWAPFS_E_OK) (proxy_ledger ctl0) (proxy_ledger ctl1).
Proof.
  apply (proxy_refines_ledger (LReserve 4096 SWAPFS_E_OK) (CState ctl0 None) (CState ctl1 None)).
  - apply ctl0_reach.
  - apply ctl1_step.
Defined.

Lemma reserve_decision_witness :
  (run_or (0, ctl1) (@ReserveSwapOut ctl_env 4097 ctl1) ctl_world).1 = SWAPFS_E_QUOTA_EXCEEDED.
Proof.
  destruct (@ReserveSwapOut ctl_env 4097 ctl1 ctl_world) as [[[r c'] w']|] eqn:E;
    [|vm_compute in E; discriminate].
  assert (proxy_ok ctl1) as Hok by (apply (creach_ok _ ctl1_reach)).
  pose proof (reserve_decision ctl_env 4097 ctl1 ctl_world r c' w' Hok ltac:(lia) E) as Hr.
  unfold run_or. rewrite E. cbn [fst]. rewrite Hr.
  assert (c' = (run_or (0, ctl1) (@ReserveSwapOut ctl_env 4097 ctl1) ctl_world).2) as ->
    by (unfold run_or; by rewrite E).
  vm_compute. reflexivity.
Defined.

Lemma refresh_keeps_concurrent_commits_witness :
  committedSinceSpaceCheckBytes_ (RefreshFinish 5000 0 (Some (9 * 2 ^ 30)) ctl2) = 4096.
Proof.
  apply (refresh_keeps_concurrent_commits ctl2 5000 0 4096 (9 * 2 ^ 30)).
  apply ctl_refresh2_reach.
Defined.

(** The service registry does not know the storage manager yet. *)
Definition early_env : Env := {|
  env_fault := λ _ _, 0; env_cap := λ _, 4%nat; env_euid := 1000;
  env_now := λ n, 1000 * Z.of_nat n; env_rand := λ _, ""; env_realpath := λ _ p, SOk p;
  env_system_app := λ _, true; env_sa := λ _, false; env_iface := λ _, true;
  env_free := λ _, SOk (10 * 2 ^ 30); env_fuel := 4 |}.
Definition ctl_early : ProxySwapControlProvider :=
  (run_or (0, new_proxy) (@Init early_env 8192 1000 new_proxy) ctl_world).2.

Lemma unavailable_service_is_sticky_witness :
  stuck_disabled ctl_early ∧
  wp (@ReserveSwapOut ctl_env 4096 ctl_early) (λ r _, r.1 = SWAPFS_E_NOSPC) ctl_world.
Proof.
  assert (stuck_disabled ctl_early) as H by (vm_compute; split_and!; reflexivity).
  split; [exact H|]. apply (unavailable_service_is_sticky ctl_early H).
Defined.
