(* ===== verification/SwapfsCleaner.v ===== *)
(** * The session cleaner of swapfs

    Models [swapfs_session_cleaner.cpp]: the check of a removal path, the
    cleanup lock, and the recursive removal of session trees.  [SErr]/[SOk]
    carry the [errno] the code leaves; a [UniqueFd] is a descriptor closed where
    its scope ends.  [readdir] delivers the names present when the scan starts.

    The recursion of [RemoveEntryAt] runs on fuel; [CLEANUP_FUEL] is one more
    than the levels the depth guard lets through, so it never runs out. *)

From S2P Require Import Prelude.
From S2P Require Import Posix.
From S2P Require Import SwapfsErr.

Definition LOCK_FILE_MODE : Z := 384.
Definition SESSION_PREFIX : string := "session-".
Definition CREATING_PREFIX : string := ".creating-".
Definition SESSION_MARKER : string := ".swapfs-session".
Definition CLEANUP_LOCK_RETRY_COUNT : nat := 10.
Definition MAX_CLEANUP_DEPTH : Z := 16.
Definition MAX_PATH_LENGTH : nat := 4095.

Definition CLEANUP_FUEL : nat := 18.

Definition IsAbsolutePath (path : string) : bool :=
  match path with
  | EmptyString => false
  | String c _ => Ascii.eqb c slash && (String.length path <=? MAX_PATH_LENGTH)%nat
  end.

(** [s.resize(s.find_last_not_of('/') + 1)]; empty when there is none. *)
Fixpoint rtrim_slash (s : string) : string :=
  match s with
  | EmptyString => EmptyString
  | String c s' =>
      match rtrim_slash s' with
      | EmptyString => if Ascii.eqb c slash then EmptyString else String c EmptyString
      | t => String c t
      end
  end.

Definition StartsWith (value prefix : string) : bool :=
  match strip_prefix prefix value with Some _ => true | None => false end.

Definition IsUnderRoot (canonicalPath root : string) : bool :=
  match rtrim_slash root with
  | EmptyString => false
  | canonicalRoot =>
      (canonicalPath =? canonicalRoot)%string ||
      StartsWith canonicalPath (canonicalRoot +:+ String slash "")
  end.

Inductive SessionState := ACTIVE | INACTIVE | UNKNOWN.
#[export] Instance SessionState_eq_dec : EqDecision SessionState.
Proof. solve_decision. Defined.

Section cleaner.
Context {EN : Env}.

Definition ResolveRemovalPath (path safeRoot : string) : io (sysres string) :=
  if negb (IsAbsolutePath path) || negb (IsAbsolutePath safeRoot) then sret (SErr EINVAL) else
  match rsplit path with
  | None => sret (SErr EINVAL)  (* an absolute path holds a '/' *)
  | Some (dir, name) =>
      if (name =? "")%string then sret (SErr EINVAL) else
      if (name =? ".")%string || (name =? "..")%string then sret (SErr EINVAL) else
      realRoot ← sys_realpath safeRoot;
      match realRoot with
      | SErr e => sret (SErr e)
      | SOk realRoot =>
          let parent := if (dir =? "")%string then "/" else dir in
          realParent ← sys_realpath parent;
          match realParent with
          | SErr e => sret (SErr e)
          | SOk realParent =>
              if negb (IsUnderRoot realParent realRoot) then sret (SErr EACCES)
              else sret (SOk (child realParent name))
          end
      end
  end.

Definition DIR_FLAGS : list oflag := [O_RDONLY; O_DIRECTORY; O_CLOEXEC; O_NOFOLLOW].

(** The attempts of [AcquireCleanupLock] on an open [cleanup.lock]. *)
Fixpoint LockAttempts (attempts : nat) (lockFd : Z) : io Z :=
  match attempts with
  | O => sret SWAPFS_E_BUSY
  | S attempts' =>
      r ← sys_flock lockFd;
      match r with
      | SOk _ => sret SWAPFS_E_OK
      | SErr err =>
          if negb (err =? EWOULDBLOCK) && negb (err =? EAGAIN) && negb (err =? EINTR)
          then sret (MapErrno err PATH_OPERATION)
          else LockAttempts attempts' lockFd
      end
  end.

(** Returns the code and the two descriptors as the caller gets them. *)
Definition AcquireCleanupLock (swapRootPath_ : string) : io (Z * option Z * option Z) :=
  rootFd ← sys_open swapRootPath_ DIR_FLAGS 0;
  match rootFd with
  | SErr _ => sret (SWAPFS_E_PATH_UNAVAILABLE, None, None)
  | SOk rootFd =>
      lockFd ← sys_openat rootFd "cleanup.lock" [O_CREAT; O_CLOEXEC; O_RDWR; O_NOFOLLOW]
                 LOCK_FILE_MODE;
      match lockFd with
      | SErr e => sret (MapErrno e PATH_OPERATION, Some rootFd, None)
      | SOk lockFd =>
          r ← LockAttempts CLEANUP_LOCK_RETRY_COUNT lockFd;
          if r =? SWAPFS_E_OK then sret (r, Some rootFd, Some lockFd)
          else sys_close lockFd;; sret (r, Some rootFd, None)
      end
  end.

(** The [do ... while (err == EINTR)] loop of [GetSessionStateAt]. *)
Fixpoint SessionLock_loop (fuel : nat) (lockFd : Z) : io (sysres unit) :=
  match fuel with
  | O => λ _, None
  | S fuel' =>
      r ← sys_flock lockFd;
      match r with
      | SOk _ => sret (SOk tt)
      | SErr err => if err =? EINTR then SessionLock_loop fuel' lockFd else sret (SErr err)
      end
  end.

Definition GetSessionStateAt (sessionFd : Z) : io (SessionState * option Z) :=
  lockFd ← sys_openat sessionFd "session.lock" [O_CLOEXEC; O_RDWR; O_NOFOLLOW] 0;
  match lockFd with
  | SErr e => sret (if e =? ENOENT then INACTIVE else UNKNOWN, None)
  | SOk lockFd =>
      r ← SessionLock_loop env_fuel lockFd;
      match r with
      | SOk _ => sret (INACTIVE, Some lockFd)
      | SErr err =>
          sys_close lockFd;;
          sret (if (err =? EWOULDBLOCK) || (err =? EAGAIN) then ACTIVE else UNKNOWN, None)
      end
  end.

Definition ok_of {A} (r : sysres A) : bool :=
  match r with SOk _ => true | SErr _ => false end.

(** The [readdir] loop of [RemoveTreeContentsAt]; [rec] is [RemoveEntryAt]. *)
Fixpoint RemoveEntries (rec : Z → string → Z → io bool) (dirFd : Z) (depth : Z)
    (names : list string) (removed : bool) : io bool :=
  match names with
  | [] => sret removed
  | name :: names' =>
      if (name =? ".")%string || (name =? "..")%string
      then RemoveEntries rec dirFd depth names' removed else
      keepMarker ← (if (name =? SESSION_MARKER)%string then
                      st ← sys_fstatat dirFd name;
                      sret (match st with
                            | SOk i => bool_decide (i_type i = FReg) | SErr _ => false end)
                    else sret false);
      if (keepMarker : bool) then RemoveEntries rec dirFd depth names' removed else
      ok ← rec dirFd name (depth + 1);
      RemoveEntries rec dirFd depth names' (if (ok : bool) then removed else false)
  end.

(** The loop, its [errno] check and the removal of the marker. *)
Definition ScanAndRemove (rec : Z → string → Z → io bool) (scanFd dirFd depth : Z) : io bool :=
  '(names, err) ← sys_readdir_all scanFd;
  removed ← RemoveEntries rec dirFd depth names true;
  let removed := if negb (err =? 0) then false else removed in
  if (removed : bool) then
    r ← sys_unlinkat dirFd SESSION_MARKER;
    sret (match r with SErr e => if negb (e =? ENOENT) then false else removed | SOk _ => removed end)
  else sret removed.

Definition RemoveTreeContentsAt (rec : Z → string → Z → io bool) (dirFd depth : Z) : io bool :=
  scanFd ← sys_dup dirFd;
  match scanFd with
  | SErr _ => sret false
  | SOk scanFd =>
      dir ← sys_fdopendir scanFd;
      match dir with
      | SErr _ => sys_close scanFd;; sret false
      | SOk _ =>
          removed ← ScanAndRemove rec scanFd dirFd depth;
          sys_close scanFd;;
          sret removed
      end
  end.

Fixpoint RemoveEntryAt (fuel : nat) (parentFd : Z) (name : string) (depth : Z) : io bool :=
  match fuel with
  | O => λ _, None
  | S fuel' =>
      if depth >? MAX_CLEANUP_DEPTH then sret false else
      st ← sys_fstatat parentFd name;
      match st with
      | SErr _ => sret false
      | SOk i =>
          if negb (bool_decide (i_type i = FDir)) then
            r ← sys_unlinkat parentFd name;
            sret (ok_of r)
          else
            childFd ← sys_openat parentFd name DIR_FLAGS 0;
            match childFd with
            | SErr _ => sret false
            | SOk childFd =>
                ok ← RemoveTreeContentsAt (RemoveEntryAt fuel') childFd depth;
                sys_close childFd;;
                if negb ok then sret false
                else r ← sys_rmdirat parentFd name; sret (ok_of r)
            end
      end
  end.

Definition path_result (ok : bool) : Z := if ok then SWAPFS_E_OK else SWAPFS_E_PATH_UNAVAILABLE.

Definition RemoveSessionTree (path safeRoot : string) : io Z :=
  p ← ResolveRemovalPath path safeRoot;
  match p with
  | SErr _ => sret SWAPFS_E_PATH_UNAVAILABLE
  | SOk canonicalPath =>
      st ← sys_lstat canonicalPath;
      match st with
      | SErr e => sret (path_result (e =? ENOENT))
      | SOk i =>
          if negb (bool_decide (i_type i = FDir)) then
            r ← sys_unlink canonicalPath; sret (path_result (ok_of r))
          else
            dirFd ← sys_open canonicalPath DIR_FLAGS 0;
            match dirFd with
            | SErr _ => sret SWAPFS_E_PATH_UNAVAILABLE
            | SOk dirFd =>
                ok ← RemoveTreeContentsAt (RemoveEntryAt CLEANUP_FUEL) dirFd 0;
                sys_close dirFd;;
                if negb ok then sret SWAPFS_E_PATH_UNAVAILABLE
                else r ← sys_rmdir canonicalPath; sret (path_result (ok_of r))
            end
      end
  end.

Definition RemoveSessionAt (rootFd : Z) (name : string) : io Z :=
  ok ← RemoveEntryAt CLEANUP_FUEL rootFd name 0;
  sret (path_result ok).

(** What [CleanupSessionEntry] does with the session directory open. *)
Definition CleanupOpenSession (rootFd : Z) (name : string) (sessionFd : Z) (isSession : bool) :
    io bool :=
  marked ← (if isSession then
              st ← sys_fstatat sessionFd SESSION_MARKER;
              sret (match st with SOk i => bool_decide (i_type i = FReg) | SErr _ => false end)
            else sret true);
  if negb marked then sret false else
  '(state, sessionLock) ← GetSessionStateAt sessionFd;
  ok ← (if bool_decide (state = INACTIVE) then RemoveEntryAt CLEANUP_FUEL rootFd name 0
        else sret false);
  (match sessionLock with Some fd => sys_close fd | None => sret tt end);;
  sret ok.

Definition CleanupSessionEntry (rootFd : Z) (name : string) : io bool :=
  let isSession := StartsWith name SESSION_PREFIX in
  if negb isSession && negb (StartsWith name CREATING_PREFIX) then sret false else
  st ← sys_fstatat rootFd name;
  if match st with SOk i => negb (bool_decide (i_type i = FDir)) | SErr _ => true end
  then sret false else
  sessionFd ← sys_openat rootFd name DIR_FLAGS 0;
  match sessionFd with
  | SErr _ => sret false
  | SOk sessionFd =>
      ok ← CleanupOpenSession rootFd name sessionFd isSession;
      sys_close sessionFd;;
      sret ok
  end.

(** The [readdir] loop: the number of entries cleaned. *)
Fixpoint CleanupEntries (rootFd : Z) (names : list string) (cleanedCount : Z) : io Z :=
  match names with
  | [] => sret cleanedCount
  | name :: names' =>
      ok ← CleanupSessionEntry rootFd name;
      CleanupEntries rootFd names' (if (ok : bool) then cleanedCount + 1 else cleanedCount)
  end.

Definition CleanupInactiveSessionsLocked (rootFd : Z) : io Z :=
  if rootFd <? 0 then sret SWAPFS_E_PATH_UNAVAILABLE else
  scanFd ← sys_dup rootFd;
  match scanFd with
  | SErr _ => sret SWAPFS_E_PATH_UNAVAILABLE
  | SOk scanFd =>
      root ← sys_fdopendir scanFd;
      match root with
      | SErr _ => sys_close scanFd;; sret SWAPFS_E_PATH_UNAVAILABLE
      | SOk _ =>
          '(names, readErr) ← sys_readdir_all scanFd;
          CleanupEntries rootFd names 0;;
          sys_close scanFd;;
          sret (path_result (readErr =? 0))
      end
  end.
End cleaner.

(** ** The cleaner keeps the world well formed *)
Section cleaner_wf.
Context {EN : Env}.

Lemma keeps_RemoveEntries rec dirFd depth names removed :
  (∀ fd n d, keeps_wf (rec fd n d)) → keeps_wf (RemoveEntries rec dirFd depth names removed).
Proof.
  intros Hrec. revert removed. induction names as [|n names IH]; intros removed; cbn [RemoveEntries];
    keeps_tac.
Qed.
Lemma keeps_RemoveTreeContentsAt rec dirFd depth :
  (∀ fd n d, keeps_wf (rec fd n d)) → keeps_wf (RemoveTreeContentsAt rec dirFd depth).
Proof.
  intros Hrec. unfold RemoveTreeContentsAt, ScanAndRemove.
  pose proof (λ dirFd depth names removed, keeps_RemoveEntries rec dirFd depth names removed Hrec).
  keeps_tac.
Qed.
Lemma keeps_RemoveEntryAt fuel fd n depth : keeps_wf (RemoveEntryAt fuel fd n depth).
Proof.
  revert fd n depth. induction fuel as [|fuel IH]; intros fd n depth; cbn [RemoveEntryAt];
    [apply keeps_none|].
  pose proof (λ d k, keeps_RemoveTreeContentsAt (RemoveEntryAt fuel) d k IH). keeps_tac.
Qed.
Lemma keeps_ResolveRemovalPath path safeRoot : keeps_wf (ResolveRemovalPath path safeRoot).
Proof. unfold ResolveRemovalPath. keeps_tac. Qed.
Lemma keeps_RemoveSessionTree path safeRoot : keeps_wf (RemoveSessionTree path safeRoot).
Proof.
  unfold RemoveSessionTree. pose proof keeps_ResolveRemovalPath.
  pose proof (λ d k, keeps_RemoveTreeContentsAt (RemoveEntryAt CLEANUP_FUEL) d k
    (keeps_RemoveEntryAt CLEANUP_FUEL)). keeps_tac.
Qed.
Lemma keeps_RemoveSessionAt fd name : keeps_wf (RemoveSessionAt fd name).
Proof. unfold RemoveSessionAt. pose proof keeps_RemoveEntryAt. keeps_tac. Qed.
Lemma keeps_LockAttempts n fd : keeps_wf (LockAttempts n fd).
Proof. induction n as [|n IH]; cbn [LockAttempts]; keeps_tac. Qed.
Lemma keeps_AcquireCleanupLock p : keeps_wf (AcquireCleanupLock p).
Proof. unfold AcquireCleanupLock. pose proof keeps_LockAttempts. keeps_tac. Qed.
Lemma keeps_SessionLock_loop n fd : keeps_wf (SessionLock_loop n fd).
Proof. induction n as [|n IH]; cbn [SessionLock_loop]; keeps_tac. Qed.
Lemma keeps_CleanupSessionEntry fd name : keeps_wf (CleanupSessionEntry fd name).
Proof.
  unfold CleanupSessionEntry, CleanupOpenSession, GetSessionStateAt.
  pose proof keeps_SessionLock_loop. pose proof keeps_RemoveEntryAt. keeps_tac.
Qed.
Lemma keeps_CleanupInactiveSessionsLocked fd : keeps_wf (CleanupInactiveSessionsLocked fd).
Proof.
  assert (∀ names k, keeps_wf (CleanupEntries fd names k)) as He.
  { induction names as [|n names IH]; intros k; cbn [CleanupEntries]; [keeps_tac|].
    pose proof keeps_CleanupSessionEntry. keeps_tac. }
  unfold CleanupInactiveSessionsLocked. keeps_tac.
Qed.
End cleaner_wf.
#[export] Hint Resolve keeps_RemoveSessionTree keeps_RemoveSessionAt keeps_AcquireCleanupLock
  keeps_CleanupInactiveSessionsLocked : wfdb.

(** ** Trees *)

Definition at_or_under (d p : string) : Prop := p = d ∨ under d p.

Lemma at_or_under_refl d : at_or_under d d.
Proof. by left. Qed.
Lemma at_or_under_child d n p : at_or_under (child d n) p → under d p.
Proof. intros [->|H]; [apply under_child|]. eapply under_trans; [apply under_child|done]. Qed.
Lemma at_or_under_trans a b c : at_or_under a b → at_or_under b c → at_or_under a c.
Proof.
  intros [->|H] [->|H']; [by left|by right|by right|]. right. by eapply under_trans.
Qed.
#[export] Hint Resolve at_or_under_refl at_or_under_child : swapdb.

(** The part of [r] before its first ['/']. *)
Fixpoint first_part (r : string) : string :=
  match r with
  | EmptyString => EmptyString
  | String c r' => if Ascii.eqb c slash then EmptyString else String c (first_part r')
  end.

Lemma first_part_no_slash r : has_slash (first_part r) = false.
Proof.
  induction r as [|c r IH]; [done|]. cbn. destruct (Ascii.eqb c slash) eqn:E; [done|].
  cbn. by rewrite E.
Qed.
Lemma first_part_split r : r = first_part r ∨ ∃ r', r = child (first_part r) r'.
Proof.
  induction r as [|c r IH]; [by left|]. cbn. destruct (Ascii.eqb c slash) eqn:E.
  - apply Ascii.eqb_eq in E as ->. right. by exists r.
  - destruct IH as [IH|[r' IH]]; [left; congruence|]. right. exists r'.
    unfold child in *. rewrite append_cons. congruence.
Qed.

Lemma child_assoc d n r : child (child d n) r = child d (child n r).
Proof. unfold child. by rewrite append_assoc. Qed.

(** What lies below [d], by its first component. *)
Lemma under_first d r : at_or_under (child d (first_part r)) (child d r).
Proof.
  destruct (first_part_split r) as [E|[r' E]].
  - left. by rewrite <-E.
  - right. exists r'. by rewrite child_assoc, <-E.
Qed.

Lemma first_part_plain n : has_slash n = false → first_part n = n.
Proof.
  induction n as [|c n IH]; [done|]. cbn. destruct (Ascii.eqb c slash); [done|].
  intros H. by rewrite IH.
Qed.
Lemma first_part_child n r : has_slash n = false → first_part (child n r) = n.
Proof.
  unfold child. induction n as [|c n IH]; [done|]. rewrite append_cons. cbn.
  destruct (Ascii.eqb c slash); [done|]. intros H. by rewrite IH.
Qed.
Lemma child_inj_r d r r' : child d r = child d r' → r = r'.
Proof.
  intros H. pose proof (proj2 (below_Some d (child d r) r) eq_refl) as H1.
  rewrite H in H1. rewrite (proj2 (below_Some d (child d r') r') eq_refl) in H1. congruence.
Qed.

Lemma has_slash_child d r : has_slash (child d r) = true.
Proof. unfold child. rewrite has_slash_append. cbn. by rewrite orb_true_r. Qed.

(** Sibling trees are disjoint. *)
Lemma at_or_under_sibling d n m p :
  has_slash n = false → has_slash m = false →
  at_or_under (child d n) p → at_or_under (child d m) p → n = m.
Proof.
  intros Hn Hm [->|[r ->]] [H|[r' H]].
  - by apply child_inj_r in H.
  - rewrite child_assoc in H. apply child_inj_r in H. subst n. by rewrite has_slash_child in Hn.
  - rewrite child_assoc in H. apply child_inj_r in H. subst m. by rewrite has_slash_child in Hm.
  - rewrite !child_assoc in H. apply child_inj_r in H.
    rewrite <-(first_part_child n r), H by done. by rewrite first_part_child.
Qed.

Lemma entry_name_Some d p n : entry_name d p = Some n ↔ p = child d n ∧ has_slash n = false.
Proof.
  unfold entry_name. destruct (below d p) as [r|] eqn:E.
  - apply below_Some in E as ->. split.
    + destruct (has_slash r) eqn:Er; [done|]. by intros [= ->].
    + intros [H Hn]. apply child_inj_r in H as ->. by rewrite Hn.
  - split; [done|]. intros [Hp%below_Some _]. congruence.
Qed.
Lemma elem_of_dir_names f d n :
  n ∈ dir_names f d ↔ is_Some (f !! child d n) ∧ has_slash n = false.
Proof.
  unfold dir_names. rewrite list_elem_of_omap. split.
  - intros (p & Hp & [-> Hn]%entry_name_Some). apply elem_of_elements, elem_of_dom in Hp. done.
  - intros [Hf Hn]. exists (child d n). rewrite elem_of_elements, elem_of_dom.
    split; [done|]. by apply entry_name_Some.
Qed.

Lemma omap_NoDup {A B} (f : A → option B) (l : list A) :
  (∀ x y b, f x = Some b → f y = Some b → x = y) → NoDup l → NoDup (omap f l).
Proof.
  intros Hf. induction 1 as [|x l Hx _ IH]; cbn; [constructor|].
  destruct (f x) as [b|] eqn:E; [|done]. constructor; [|done].
  rewrite list_elem_of_omap. intros (y & Hy & Ey). by rewrite (Hf x y b E Ey) in Hx.
Qed.
Lemma dir_names_NoDup f d : NoDup (dir_names f d).
Proof.
  apply omap_NoDup; [|apply NoDup_elements].
  intros x y b [-> _]%entry_name_Some [-> _]%entry_name_Some. done.
Qed.

(** The part of the file system below [t] is a tree: what is there hangs off
    [t] or off a directory, under a name that is neither ["."] nor [".."]. *)
Definition tree_ok (t : string) (f : gmap string inode) : Prop :=
  ∀ p q n, under t p → is_Some (f !! p) → p = child q n → has_slash n = false →
    (q = t ∨ is_dir f q = true) ∧ n ≠ "." ∧ n ≠ "..".

Lemma is_dir_Some f p : is_dir f p = true ↔ ∃ i, f !! p = Some i ∧ i_type i = FDir.
Proof.
  unfold is_dir. destruct (f !! p) as [i|]; [|naive_solver].
  rewrite bool_decide_eq_true. naive_solver.
Qed.

Lemma under_parent t q n : has_slash n = false → under t (child q n) → at_or_under t q.
Proof.
  intros Hn [r Hr]. destruct (rsplit r) as [[d m]|] eqn:E.
  - apply rsplit_Some in E as [-> Hm]. rewrite <-child_assoc in Hr.
    apply child_inj in Hr as [-> _]; [|done..]. right. apply under_child.
  - apply rsplit_None in E. apply child_inj in Hr as [-> _]; [|done..]. by left.
Qed.
Lemma under_rsplit t p : under t p → ∃ q n, p = child q n ∧ has_slash n = false.
Proof.
  intros [r ->]. destruct (rsplit r) as [[d m]|] eqn:E.
  - apply rsplit_Some in E as [-> Hm]. exists (child t d), m. by rewrite child_assoc.
  - apply rsplit_None in E. eauto.
Qed.

(** A directory of the tree without entries has nothing below it. *)
Lemma tree_empty t f d :
  tree_ok t f → at_or_under t d → dir_names f d = [] →
  ∀ p, under d p → f !! p = None.
Proof.
  intros Ht Hd He p. remember (String.length p) as l eqn:El. revert p El.
  induction l as [l IH] using lt_wf_ind. intros p El Hp. destruct (f !! p) as [i|] eqn:Hi; [|done]. exfalso.
  destruct (under_rsplit d p Hp) as (q & n & -> & Hn).
  destruct (under_parent d q n Hn Hp) as [->|Hq].
  - assert (n ∈ dir_names f d) as Hin by (apply elem_of_dir_names; eauto).
    rewrite He in Hin. by apply elem_of_nil in Hin.
  - assert (under t (child q n)) as Hu.
    { destruct Hd as [->|Hd]; [done|]. by eapply under_trans. }
    pose proof (under_length _ _ Hq).
    destruct (Ht (child q n) q n Hu (mk_is_Some _ _ Hi) eq_refl Hn) as [[->|Hdir] _].
    + destruct Hd as [->|Hd%under_length]; lia.
    + apply is_dir_Some in Hdir as (j & Hj & _).
      rewrite (IH (String.length q)) in Hj; try done. subst l. by apply under_length, under_child.
Qed.

(** Removing a leaf keeps the tree. *)
Lemma tree_ok_delete t f p :
  tree_ok t f → p ≠ t →
  (∀ n, has_slash n = false → is_Some (f !! child p n) → False) →
  tree_ok t (delete p f).
Proof.
  intros Ht Hp Hleaf q d n Hu [i Hi] -> Hn. apply lookup_delete_Some in Hi as [Hne Hi].
  destruct (Ht (child d n) d n Hu (mk_is_Some _ _ Hi) eq_refl Hn) as [[->|Hd] ?]; [auto|].
  split; [|done]. right. apply is_dir_Some. apply is_dir_Some in Hd as (j & Hj & ?).
  exists j. rewrite lookup_delete_ne; [done|]. intros ->. apply (Hleaf n); eauto.
Qed.

(** ** Rules for the calls of the cleaner *)
Section cleaner_rules.
Context {EN : Env}.
Implicit Types (w : world).

(** Calls of kind [k] never fail by injection. *)
Definition never (k : sysno) : Prop := ∀ n, env_fault k n = 0.
Definition no_faults : Prop := ∀ k, never k.

(** A call relative to a descriptor is the call on the joined path. *)
Lemma at_call {A} k (body : string → world → sysres A * world) fd d Q w :
  fd_dir fd w = Some d → wp (syscall k (λ _, body d)) Q w →
  wp (syscall k (λ _, at_path fd body)) Q w.
Proof.
  intros Hd. unfold wp, syscall, at_path.
  change (fd_dir fd (tick w)) with (fd_dir fd w). by rewrite Hd.
Qed.

Lemma wp_lstat p Q w :
  (∀ e, (never N_stat → w_fs w !! p = None) →
        (e = ENOENT → (∀ n, env_fault N_stat n ≠ ENOENT) → w_fs w !! p = None) →
        Q (SErr e) (tick w)) →
  (∀ i, w_fs w !! p = Some i → Q (SOk i) (tick w)) →
  wp (sys_lstat p) Q w.
Proof.
  intros He Ho. apply wp_syscall.
  { intros Hf. apply He; [intros Hn; by rewrite Hn in Hf|]. intros E Hh. by destruct (Hh _ E). }
  intros _. unfold lookup_body. cbn. destruct (w_fs w !! p) eqn:E; cbn; auto.
Qed.

Lemma wp_unlink p Q w :
  (∀ e, (never N_unlink → e = ENOENT ∧ w_fs w !! p = None ∨
           ∃ i, w_fs w !! p = Some i ∧ i_type i = FDir) → Q (SErr e) (tick w)) →
  (∀ i, w_fs w !! p = Some i → i_type i ≠ FDir →
     Q (SOk tt) (tick (set_fs (delete p (w_fs w)) w))) →
  wp (sys_unlink p) Q w.
Proof.
  intros He Ho. apply wp_syscall; [intros Hf; apply He; intros Hn; by rewrite Hn in Hf|].
  intros _. unfold unlink_body. cbn. destruct (w_fs w !! p) as [i|] eqn:E; cbn; [|auto].
  case_bool_decide; cbn; [eauto|]. by apply (Ho i).
Qed.

Lemma wp_rmdir p Q w :
  (∀ e, (never N_rmdir → ∀ i, w_fs w !! p = Some i → i_type i = FDir →
           dir_names (w_fs w) p ≠ []) → Q (SErr e) (tick w)) →
  (∀ i, w_fs w !! p = Some i → i_type i = FDir → dir_names (w_fs w) p = [] →
     Q (SOk tt) (tick (set_fs (delete p (w_fs w)) w))) →
  wp (sys_rmdir p) Q w.
Proof.
  intros He Ho. apply wp_syscall; [intros Hf; apply He; intros Hn; by rewrite Hn in Hf|].
  intros _. unfold rmdir_body. cbn.
  destruct (w_fs w !! p) as [i|] eqn:E; cbn; [|apply He; naive_solver].
  case_bool_decide; cbn; [|apply He; naive_solver].
  destruct (dir_names (w_fs w) p) eqn:En; cbn; [by apply (Ho i)|].
  apply He. naive_solver.
Qed.

Lemma open_dir_body p w :
  match w_fs w !! p with
  | Some i => i_type i = FDir →
      open_body p DIR_FLAGS 0 w =
        (SOk (w_nextfd w),
         World (w_fs w) (<[w_nextfd w := Ofd p 0]> (w_fds w)) (w_nextfd w + 1) (w_clk w))
  | None => True end ∧
  (is_dir (w_fs w) p = false → ∃ e, open_body p DIR_FLAGS 0 w = (SErr e, w)).
Proof.
  unfold open_body, is_dir. destruct (w_fs w !! p) as [i|]; [|split; [done|by eexists]].
  destruct (i_type i) eqn:Et; (split; [by intros|]); intros H; [by eexists|done|by eexists].
Qed.

Lemma wp_open_dir p Q w :
  (∀ e, (never N_open → is_dir (w_fs w) p = false) → Q (SErr e) (tick w)) →
  (∀ i, w_fs w !! p = Some i → i_type i = FDir →
     Q (SOk (w_nextfd w))
       (World (w_fs w) (<[w_nextfd w := Ofd p 0]> (w_fds w)) (w_nextfd w + 1) (S (w_clk w)))) →
  wp (sys_open p DIR_FLAGS 0) Q w.
Proof.
  intros He Ho. apply wp_syscall; [intros Hf; apply He; intros Hn; by rewrite Hn in Hf|].
  intros _. destruct (open_dir_body p (tick w)) as [H1 H2].
  destruct (is_dir (w_fs w) p) eqn:E.
  - apply is_dir_Some in E as (i & Hi & Ht). change (w_fs (tick w)) with (w_fs w) in H1.
    rewrite Hi in H1. rewrite (H1 Ht). by apply (Ho i).
  - destruct (H2 E) as [e ->]. cbn. auto.
Qed.

Lemma wp_fstatat fd d name Q w :
  fd_dir fd w = Some d →
  (∀ e, (never N_stat → w_fs w !! child d name = None) → Q (SErr e) (tick w)) →
  (∀ i, w_fs w !! child d name = Some i → Q (SOk i) (tick w)) →
  wp (sys_fstatat fd name) Q w.
Proof. intros Hd He Ho. eapply at_call; [exact Hd|]. apply wp_lstat; auto. Qed.

Lemma wp_unlinkat fd d name Q w :
  fd_dir fd w = Some d →
  (∀ e, (never N_unlink → e = ENOENT ∧ w_fs w !! child d name = None ∨
           ∃ i, w_fs w !! child d name = Some i ∧ i_type i = FDir) → Q (SErr e) (tick w)) →
  (∀ i, w_fs w !! child d name = Some i → i_type i ≠ FDir →
     Q (SOk tt) (tick (set_fs (delete (child d name) (w_fs w)) w))) →
  wp (sys_unlinkat fd name) Q w.
Proof. intros Hd He Ho. eapply at_call; [exact Hd|]. by apply wp_unlink. Qed.

Lemma wp_rmdirat fd d name Q w :
  fd_dir fd w = Some d →
  (∀ e, (never N_rmdir → ∀ i, w_fs w !! child d name = Some i → i_type i = FDir →
           dir_names (w_fs w) (child d name) ≠ []) → Q (SErr e) (tick w)) →
  (∀ i, w_fs w !! child d name = Some i → i_type i = FDir →
     dir_names (w_fs w) (child d name) = [] →
     Q (SOk tt) (tick (set_fs (delete (child d name) (w_fs w)) w))) →
  wp (sys_rmdirat fd name) Q w.
Proof. intros Hd He Ho. eapply at_call; [exact Hd|]. by apply wp_rmdir. Qed.

Lemma wp_openat_dir fd d name Q w :
  fd_dir fd w = Some d →
  (∀ e, (never N_open → is_dir (w_fs w) (child d name) = false) → Q (SErr e) (tick w)) →
  (∀ i, w_fs w !! child d name = Some i → i_type i = FDir →
     Q (SOk (w_nextfd w))
       (World (w_fs w) (<[w_nextfd w := Ofd (child d name) 0]> (w_fds w)) (w_nextfd w + 1)
              (S (w_clk w)))) →
  wp (sys_openat fd name DIR_FLAGS 0) Q w.
Proof. intros Hd He Ho. eapply at_call; [exact Hd|]. by apply wp_open_dir. Qed.

Lemma wp_dup fd d Q w :
  fd_dir fd w = Some d →
  (∀ e, (never N_dup → False) → Q (SErr e) (tick w)) →
  (Q (SOk (w_nextfd w))
     (World (w_fs w) (<[w_nextfd w := Ofd d 0]> (w_fds w)) (w_nextfd w + 1) (S (w_clk w)))) →
  wp (sys_dup fd) Q w.
Proof.
  intros Hd He Ho. apply wp_syscall; [intros Hf; apply He; intros Hn; by rewrite Hn in Hf|].
  intros _. unfold at_path. change (fd_dir fd (tick w)) with (fd_dir fd w). by rewrite Hd.
Qed.

Lemma wp_fdopendir fd d Q w :
  fd_dir fd w = Some d →
  (∀ e, (never N_fdopendir → False) → Q (SErr e) (tick w)) →
  Q (SOk tt) (tick w) →
  wp (sys_fdopendir fd) Q w.
Proof.
  intros Hd He Ho. apply wp_syscall; [intros Hf; apply He; intros Hn; by rewrite Hn in Hf|].
  intros _. unfold at_path. change (fd_dir fd (tick w)) with (fd_dir fd w). by rewrite Hd.
Qed.

Lemma wp_readdir fd d Q w :
  fd_dir fd w = Some d →
  (∀ names e, names ⊆ dir_names (w_fs w) d →
     (never N_readdir → e = 0) → (e = 0 → names = dir_names (w_fs w) d) →
     Q (names, e) (tick w)) →
  wp (sys_readdir_all fd) Q w.
Proof.
  intros Hd Ho. unfold wp, sys_readdir_all. rewrite Hd. apply Ho.
  - intros n Hn%list_elem_of_In. rewrite <-(take_drop
      (if env_fault N_readdir (w_clk w) =? 0 then length (dir_names (w_fs w) d)
       else env_cap (w_clk w)) (dir_names (w_fs w) d)).
    apply elem_of_app. left. by apply list_elem_of_In.
  - auto.
  - intros ->. cbn. by rewrite firstn_all.
Qed.
End cleaner_rules.

(** ** Removal: files in [P] may be gone, all else is as before *)
Definition removal (P : string → Prop) (w w' : world) : Prop :=
  world_wf w' ∧ w_fds w' = w_fds w ∧ w_nextfd w <= w_nextfd w' ∧
  ∀ q, w_fs w' !! q = w_fs w !! q ∨ w_fs w' !! q = None ∧ P q.

Lemma removal_same P w w' : world_wf w → same_files w w' → removal P w w'.
Proof.
  intros Hwf (H1 & H2 & H3). unfold removal, world_wf in *. rewrite H1, H2, H3.
  split_and!; [apply Hwf..|done|done|auto].
Qed.
Lemma removal_mono (P Q : string → Prop) w w' :
  (∀ q, P q → Q q) → removal P w w' → removal Q w w'.
Proof. intros HPQ (H1 & H2 & H3 & H4). split_and!; try done. intros q. destruct (H4 q); naive_solver. Qed.
Lemma removal_trans P w1 w2 w3 : removal P w1 w2 → removal P w2 w3 → removal P w1 w3.
Proof.
  intros (_ & H1 & H2 & H3) (Hw & H1' & H2' & H3'). split_and!; [done|congruence|lia|].
  intros q. destruct (H3' q) as [->|[-> ?]]; [apply H3|].
  destruct (H3 q) as [<-|[? ?]]; auto.
Qed.
Lemma removal_lookup P w w' q i :
  removal P w w' → w_fs w' !! q = Some i → w_fs w !! q = Some i.
Proof. intros (_ & _ & _ & H) Hq. destruct (H q) as [<-|[E _]]; congruence. Qed.
Lemma removal_keep P w w' q : removal P w w' → ¬ P q → w_fs w' !! q = w_fs w !! q.
Proof. intros (_ & _ & _ & H) HP. destruct (H q) as [E|[_ ?]]; [done|by destruct HP]. Qed.
Lemma removal_None P w w' q : removal P w w' → w_fs w !! q = None → w_fs w' !! q = None.
Proof. intros (_ & _ & _ & H) HP. destruct (H q) as [->|[? _]]; done. Qed.
Lemma removal_fd P w w' fd : removal P w w' → fd_dir fd w' = fd_dir fd w.
Proof. intros (_ & H & _). unfold fd_dir. by rewrite H. Qed.

Lemma removal_delete (P : string → Prop) w p :
  world_wf w → P p → removal P w (tick (set_fs (delete p (w_fs w)) w)).
Proof.
  intros [Hf Hl] HP. split_and!; cbn; [split; cbn| |lia|]; try done.
  - intros q i h [_ Hq]%lookup_delete_Some. by eapply Hl.
  - intros q. destruct (decide (q = p)) as [->|Hne].
    + right. by rewrite lookup_delete_eq.
    + left. by rewrite lookup_delete_ne.
Qed.

Lemma world_wf_new_fd w p n :
  world_wf w →
  world_wf (World (w_fs w) (<[w_nextfd w := Ofd p 0]> (w_fds w)) (w_nextfd w + 1) n).
Proof.
  intros [Hf Hl]. split; cbn.
  - intros fd o [[<- _]|[_ Hfd]]%lookup_insert_Some; [lia|]. apply Hf in Hfd. lia.
  - intros q i h Hq Hi. specialize (Hl _ _ _ Hq Hi). lia.
Qed.

(** A descriptor opened, used while files are removed, and closed. *)
Lemma removal_bracket P w p n w' :
  world_wf w →
  removal P (World (w_fs w) (<[w_nextfd w := Ofd p 0]> (w_fds w)) (w_nextfd w + 1) n) w' →
  unlock_fd (w_nextfd w) <$> w_fs w' = w_fs w' ∧
  removal P w (tick (World (w_fs w') (delete (w_nextfd w) (w_fds w')) (w_nextfd w') (w_clk w'))).
Proof.
  intros Hwf Hr. pose proof Hr as ([Hf Hl] & Hfds & Hn & Hq). cbn in *.
  assert (Hlock : ∀ q j h, w_fs w' !! q = Some j → i_lock j = Some h → h < w_nextfd w).
  { intros q j h Hj Hh. apply (removal_lookup _ _ _ _ _ Hr) in Hj. by eapply Hwf. }
  split; [apply unlock_fd_id; intros q j Hj Hh; specialize (Hlock _ _ _ Hj Hh); lia|].
  split_and!; cbn; [split; cbn| |lia|].
  - intros fd o [_ Hfd]%lookup_delete_Some. by eapply Hf.
  - intros q j h Hj Hh. specialize (Hlock _ _ _ Hj Hh). lia.
  - rewrite Hfds, delete_insert_id; [done|by apply world_wf_fresh].
  - exact Hq.
Qed.

Lemma fd_dir_new w p n fd d :
  world_wf w → fd_dir fd w = Some d →
  fd_dir fd (World (w_fs w) (<[w_nextfd w := Ofd p 0]> (w_fds w)) (w_nextfd w + 1) n) = Some d.
Proof.
  intros Hwf Hd. unfold fd_dir in *. cbn. rewrite lookup_insert_ne; [done|].
  intros <-. by rewrite (world_wf_fresh w Hwf) in Hd.
Qed.
Lemma fd_dir_fresh w p n :
  fd_dir (w_nextfd w)
    (World (w_fs w) (<[w_nextfd w := Ofd p 0]> (w_fds w)) (w_nextfd w + 1) n) = Some p.
Proof. unfold fd_dir. cbn. by rewrite lookup_insert_eq. Qed.

(** Components of a relative path below the first. *)
Fixpoint nslash (r : string) : nat :=
  match r with
  | EmptyString => O
  | String c r' => if Ascii.eqb c slash then S (nslash r') else nslash r'
  end.
Lemma nslash_child n r : nslash (child n r) = S (nslash n + nslash r).
Proof.
  unfold child. induction n as [|c n IH]; [done|]. rewrite append_cons. cbn.
  rewrite IH. by destruct (Ascii.eqb c slash).
Qed.

(** Everything below [d] is within the depth guard when [d] is entered at
    depth [k]. *)
Definition depth_ok (f : gmap string inode) (d : string) (k : Z) : Prop :=
  ∀ r, is_Some (f !! child d r) → k + Z.of_nat (nslash r) + 1 <= MAX_CLEANUP_DEPTH.

Lemma depth_ok_child f d n k :
  depth_ok f d k → depth_ok f (child d n) (k + 1).
Proof.
  intros H r Hr. rewrite child_assoc in Hr. specialize (H _ Hr).
  rewrite nslash_child in H. lia.
Qed.
Lemma depth_ok_removal P w w' d k :
  removal P w w' → depth_ok (w_fs w) d k → depth_ok (w_fs w') d k.
Proof.
  intros Hr H r [i Hi]. apply H. eexists. by eapply removal_lookup.
Qed.

(** ** The recursive removal *)
Section removal_spec.
Context {EN : Env}.
Context (t : string).
Implicit Types (w : world).

(** What removing the entry [n] of [d] at [depth] may do and achieves. *)
Definition entry_post (d n : string) (depth : Z) (w : world) (b : bool) (w' : world) : Prop :=
  removal (at_or_under (child d n)) w w' ∧ tree_ok t (w_fs w') ∧
  (b = true → ∀ q, at_or_under (child d n) q → w_fs w' !! q = None) ∧
  (no_faults → is_Some (w_fs w !! child d n) → depth <= MAX_CLEANUP_DEPTH →
     depth_ok (w_fs w) (child d n) depth → b = true).

Definition entry_spec (rec : Z → string → Z → io bool) : Prop := ∀ fd d n depth w,
  world_wf w → fd_dir fd w = Some d → at_or_under t d → tree_ok t (w_fs w) →
  has_slash n = false → wp (rec fd n depth) (entry_post d n depth w) w.

Definition marker_kept (d : string) (w w' : world) : Prop :=
  ∀ i, w_fs w !! child d SESSION_MARKER = Some i → i_type i = FReg →
       w_fs w' !! child d SESSION_MARKER = Some i.

Lemma child_ne_top d n : at_or_under t d → child d n ≠ t.
Proof.
  intros Hd E. assert (under t t) as H; [|by apply under_irrefl in H].
  rewrite <-E at 2. destruct Hd as [->|Hd]; [apply under_child|].
  eapply under_trans; [done|apply under_child].
Qed.

(** Entries of [names] that the loop was to remove are gone. *)
Definition swept (d : string) (names : list string) (w' : world) : Prop :=
  ∀ n, n ∈ names → w_fs w' !! child d n = None ∨
    n = SESSION_MARKER ∧ ∃ i, w_fs w' !! child d n = Some i ∧ i_type i = FReg.

Definition loop_post (d : string) (depth : Z) (names : list string) (removed : bool) (w : world)
    (b : bool) (w' : world) : Prop :=
  removal (under d) w w' ∧ tree_ok t (w_fs w') ∧
  (never N_stat → marker_kept d w w') ∧
  (no_faults → depth_ok (w_fs w) d depth → NoDup names →
     (∀ n, n ∈ names → is_Some (w_fs w !! child d n)) → b = removed ∧ swept d names w').

(** One more entry, handled from [w] to [w1]. *)
Lemma loop_post_cons d depth name names removed removed' w w1 b w' :
  has_slash name = false → Forall (λ n, has_slash n = false) names →
  removal (at_or_under (child d name)) w w1 →
  (never N_stat → name ≠ SESSION_MARKER ∨ marker_kept d w w1) →
  (no_faults → depth_ok (w_fs w) d depth → is_Some (w_fs w !! child d name) →
     removed' = removed ∧ swept d [name] w1) →
  loop_post d depth names removed' w1 b w' →
  loop_post d depth (name :: names) removed w b w'.
Proof.
  intros Hn Hns Hr Hm Hc (Hr' & Ht' & Hm' & Hc').
  assert (Hrd : removal (under d) w w1).
  { eapply removal_mono; [|exact Hr]. eauto with swapdb. }
  split; [by eapply removal_trans|]. split; [done|]. split.
  - intros Hs i Hi Hreg. apply (Hm' Hs); [|done].
    destruct (Hm Hs) as [Hne|Hk]; [|by apply Hk].
    rewrite (removal_keep _ _ _ _ Hr); [done|]. intros Hu. apply Hne.
    by apply (at_or_under_sibling d name SESSION_MARKER (child d SESSION_MARKER));
      [|done| |left].
  - intros Hnf Hd Hdup Hin. apply NoDup_cons in Hdup as [Hnotin Hdup].
    rewrite Forall_forall in Hns.
    destruct (Hc Hnf Hd) as [-> Hsw]; [apply Hin; by left|].
    destruct Hc' as [-> Hsw']; [done|by eapply depth_ok_removal|done|..].
    { intros n Hinn. rewrite (removal_keep _ _ _ _ Hr); [apply Hin; by right|].
      intros Hu. assert (name = n) as ->; [|done].
      apply (at_or_under_sibling d name n (child d n)); auto with swapdb. }
    split; [done|]. intros n [->|Hinn]%elem_of_cons; [|by apply Hsw'].
    destruct (Hsw name) as [E|[-> (i & Hi & Hreg)]]; [by left| |].
    + left. by eapply removal_None.
    + right. split; [done|]. exists i. split; [|done].
      destruct (Hm' (Hnf N_stat) i Hi Hreg). done.
Qed.

Lemma RemoveEntries_spec rec dirFd d depth names removed w :
  entry_spec rec → world_wf w → fd_dir dirFd w = Some d → at_or_under t d → tree_ok t (w_fs w) →
  Forall (λ n, has_slash n = false) names →
  wp (RemoveEntries rec dirFd depth names removed) (loop_post d depth names removed w) w.
Proof.
  intros Hrec. revert removed w. induction names as [|name names IH];
    intros removed w Hwf Hfd Hd Ht Hns; cbn [RemoveEntries].
  { apply wp_ret. split_and!; [by apply removal_same|done|by intros _ i|].
    intros _ _ _ _. split; [done|]. by intros n ?%elem_of_nil. }
  apply Forall_cons in Hns as [Hn Hns].
  assert (Hskip : ∀ w1, same_files w w1 →
    (no_faults → is_Some (w_fs w !! child d name) → swept d [name] w1) →
    wp (RemoveEntries rec dirFd depth names removed)
       (loop_post d depth (name :: names) removed w) w1).
  { intros w1 Hs Hsw. pose proof (removal_same (at_or_under (child d name)) w w1 Hwf Hs) as Hr.
    pose proof Hs as (E1 & E2 & E3). eapply wp_mono; [|apply IH]; try done.
    - intros b w'. apply loop_post_cons; try done.
      + intros _. right. intros i. by rewrite E1.
      + intros Hnf _ Hsome. split; [done|]. auto.
    - apply Hr.
    - by rewrite (removal_fd _ _ _ _ Hr).
    - by rewrite E1. }
  destruct ((name =? ".")%string || (name =? "..")%string) eqn:Hdot.
  { apply Hskip; [done|]. intros _ Hsome. exfalso.
    destruct (Ht (child d name) d name) as (_ & H1 & H2); try done.
    { destruct Hd as [->|Hd]; [apply under_child|eapply under_trans; eauto with swapdb]. }
    apply orb_prop in Hdot as [?%String.eqb_eq|?%String.eqb_eq]; done. }
  assert (Hdo : ∀ w1, same_files w w1 →
    (never N_stat → name ≠ SESSION_MARKER ∨
       ∀ i, w_fs w !! child d SESSION_MARKER = Some i → i_type i ≠ FReg) →
    wp (ok ← rec dirFd name (depth + 1);
        RemoveEntries rec dirFd depth names (if (ok : bool) then removed else false))
       (loop_post d depth (name :: names) removed w) w1).
  { intros w1 Hs Hmk. pose proof (removal_same (at_or_under (child d name)) w w1 Hwf Hs) as Hr.
    pose proof Hs as (E1 & E2 & E3).
    apply wp_bind. eapply wp_mono; [|apply (Hrec dirFd d name (depth + 1) w1)]; try done.
    2: apply Hr. 2: by rewrite (removal_fd _ _ _ _ Hr). 2: by rewrite E1.
    intros b w2 (Hr2 & Ht2 & Hgone & Hcomp).
    pose proof (removal_trans _ _ _ _ Hr Hr2) as Hr02.
    eapply wp_mono; [|apply IH]; try done.
    - intros b' w'. apply loop_post_cons; try done.
      + intros Hst. destruct (Hmk Hst) as [?|Hno]; [by left|right].
        intros i Hi Hreg. by destruct (Hno i Hi).
      + intros Hnf Hdep Hsome. assert (b = true) as ->.
        { apply Hcomp; rewrite ?E1; try done.
          - destruct Hsome as [i Hi]. specialize (Hdep name (mk_is_Some _ _ Hi)). lia.
          - by apply depth_ok_child. }
        split; [done|]. intros n ->%list_elem_of_singleton. left. apply Hgone; auto with swapdb.
    - apply Hr2.
    - by rewrite (removal_fd _ _ _ _ Hr02). }
  apply wp_bind. destruct (name =? SESSION_MARKER)%string eqn:Hmark.
  - apply String.eqb_eq in Hmark as ->. apply wp_bind.
    eapply wp_fstatat; [exact Hfd|intros e He|intros i Hi]; apply wp_ret.
    + apply Hdo; [done|]. intros Hst. right. intros i. by rewrite (He Hst).
    + case_bool_decide as Hreg.
      * apply Hskip; [done|]. intros _ _ n ->%list_elem_of_singleton. right.
        split; [done|]. by exists i.
      * apply Hdo; [done|]. intros _. right. intros j. rewrite Hi. by intros [= <-].
  - apply wp_ret, Hdo; [done|]. intros _. left. by apply String.eqb_neq.
Qed.

(** What [RemoveTreeContentsAt] does to the directory [d]. *)
Definition contents_post (d : string) (depth : Z) (w : world) (b : bool) (w' : world) : Prop :=
  removal (under d) w w' ∧ tree_ok t (w_fs w') ∧
  (never N_stat → b = false → marker_kept d w w') ∧
  (no_faults → depth_ok (w_fs w) d depth → b = true ∧ dir_names (w_fs w') d = []).

Lemma dir_names_nil f d : (∀ n, has_slash n = false → f !! child d n = None) → dir_names f d = [].
Proof.
  intros H. apply elem_of_nil_inv. intros n [[i Hi] Hn]%elem_of_dir_names.
  by rewrite H in Hi.
Qed.

Lemma ScanAndRemove_spec rec scanFd dirFd d depth w :
  entry_spec rec → world_wf w → fd_dir dirFd w = Some d → fd_dir scanFd w = Some d →
  at_or_under t d → tree_ok t (w_fs w) →
  wp (ScanAndRemove rec scanFd dirFd depth) (contents_post d depth w) w.
Proof.
  intros Hrec Hwf Hfd Hscan Hd Ht. apply wp_bind. eapply wp_readdir; [exact Hscan|].
  intros names e Hsub He0 Hall. apply wp_bind.
  assert (Hns : Forall (λ n, has_slash n = false) names).
  { apply Forall_forall. by intros n [_ ?]%Hsub%elem_of_dir_names. }
  eapply wp_mono; [|by apply (RemoveEntries_spec rec dirFd d depth names true (tick w))].
  intros removed w1 (Hr & Ht1 & Hm & Hc).
  change (w_fs (tick w)) with (w_fs w) in *.
  assert (Hr0 : removal (under d) w w1).
  { eapply removal_trans; [|exact Hr]. by apply removal_same. }
  assert (Hc' : no_faults → depth_ok (w_fs w) d depth → removed = true ∧ e = 0 ∧
    (∀ n, has_slash n = false → w_fs w1 !! child d n = None ∨
       n = SESSION_MARKER ∧ ∃ i, w_fs w1 !! child d n = Some i ∧ i_type i = FReg)).
  { intros Hnf Hdep. specialize (He0 (Hnf _)). subst e. specialize (Hall eq_refl). subst names.
    destruct (Hc Hnf Hdep (dir_names_NoDup _ _)) as [-> Hsw].
    { by intros n [? _]%elem_of_dir_names. }
    split_and!; [done|done|]. intros n Hn. destruct (w_fs w !! child d n) as [i|] eqn:E.
    - apply Hsw, elem_of_dir_names. by rewrite E.
    - left. by eapply removal_None. }
  cbn zeta. set (removed' := if negb (e =? 0) then false else removed).
  destruct removed' eqn:Hrem'.
  2: { apply wp_ret. split; [done|]. split; [done|]. split; [by intros Hst _; apply Hm|].
       intros Hnf Hdep. destruct (Hc' Hnf Hdep) as (-> & -> & _). done. }
  assert (fd_dir dirFd w1 = Some d) as Hfd1 by (by rewrite (removal_fd _ _ _ _ Hr)).
  apply wp_bind. eapply wp_unlinkat; [exact Hfd1|intros e' He'|intros i Hi Hreg]; apply wp_ret.
  - split; [exact Hr0|]. split; [done|]. split; [by intros Hst _; apply Hm|].
    intros Hnf Hdep. destruct (Hc' Hnf Hdep) as (_ & _ & Hg).
    assert (e' = ENOENT ∧ w_fs w1 !! child d SESSION_MARKER = None) as [-> Hno].
    { destruct (He' (Hnf _)) as [?|(i & Hi & Hdir)]; [done|].
      destruct (Hg SESSION_MARKER) as [E|[_ (j & Hj & Hreg)]]; [done|congruence|congruence]. }
    split; [done|]. apply dir_names_nil. intros n Hn. cbn.
    destruct (Hg n Hn) as [|[-> _]]; done.
  - assert (Hdel : removal (under d) w1
      (tick (set_fs (delete (child d SESSION_MARKER) (w_fs w1)) w1))).
    { apply removal_delete; [apply Hr|apply under_child]. }
    split; [by eapply removal_trans|]. split; [|split; [by intros _|]].
    + cbn. apply tree_ok_delete; [done|by apply child_ne_top|].
      intros n Hn [j Hj]. destruct (Ht1 (child (child d SESSION_MARKER) n)
        (child d SESSION_MARKER) n) as [[E|E] _]; try done.
      * eapply under_trans; [|apply under_child].
        destruct Hd as [->|Hd]; [apply under_child|eapply under_trans; eauto with swapdb].
      * by apply (child_ne_top d SESSION_MARKER Hd).
      * apply is_dir_Some in E as (k & Hk & Hdir). congruence.
    + intros Hnf Hdep. destruct (Hc' Hnf Hdep) as (_ & _ & Hg). split; [done|].
      apply dir_names_nil. intros n Hn. cbn. destruct (Hg n Hn) as [E|[-> _]].
      * apply lookup_delete_None. by right.
      * apply lookup_delete_eq.
Qed.

(** Wrapping in a descriptor opened before and closed after. *)
Lemma contents_post_bracket d depth w b w' p n :
  world_wf w →
  contents_post d depth (World (w_fs w) (<[w_nextfd w := Ofd p 0]> (w_fds w)) (w_nextfd w + 1) n) b w' →
  contents_post d depth w b
    (tick (World (unlock_fd (w_nextfd w) <$> w_fs w') (delete (w_nextfd w) (w_fds w'))
             (w_nextfd w') (w_clk w'))).
Proof.
  intros Hwf (Hr & Ht & Hm & Hc). destruct (removal_bracket _ _ _ _ _ Hwf Hr) as [Hu Hr'].
  rewrite Hu. split_and!; [exact Hr'|exact Ht|exact Hm|exact Hc].
Qed.

Lemma contents_post_tick d depth w b w' :
  contents_post d depth (tick w) b w' → contents_post d depth w b w'.
Proof. done. Qed.

Lemma contents_post_fail d depth w w' :
  world_wf w → same_files w w' → tree_ok t (w_fs w) → (no_faults → False) →
  contents_post d depth w false w'.
Proof.
  intros Hwf Hs Ht Hf. pose proof Hs as (E & _). split; [by apply removal_same|].
  rewrite E. split; [done|]. split; [|naive_solver]. intros _ _ i. by rewrite E.
Qed.

Lemma RemoveTreeContentsAt_spec rec dirFd d depth w :
  entry_spec rec → world_wf w → fd_dir dirFd w = Some d →
  at_or_under t d → tree_ok t (w_fs w) →
  wp (RemoveTreeContentsAt rec dirFd depth) (contents_post d depth w) w.
Proof.
  intros Hrec Hwf Hfd Hd Ht. apply wp_bind. eapply wp_dup; [exact Hfd|intros e He|].
  { apply wp_ret, contents_post_fail; [done..|]. intros Hnf. by apply He. }
  set (w1 := World _ _ _ _). assert (world_wf w1) as Hwf1 by (by apply world_wf_new_fd).
  assert (fd_dir (w_nextfd w) w1 = Some d) as Hscan by apply fd_dir_fresh.
  apply wp_bind. eapply wp_fdopendir; [exact Hscan|intros e He|].
  - apply wp_bind, wp_close, wp_ret.
    eapply (contents_post_bracket d depth w false (tick w1)); [done|].
    apply contents_post_fail; try done. intros Hnf. by apply He.
  - apply wp_bind. eapply wp_mono; [|apply (ScanAndRemove_spec rec (w_nextfd w) dirFd d depth (tick w1)); try done].
    + intros b w2 Hp. apply wp_bind, wp_close, wp_ret. by apply (contents_post_bracket d depth w b w2 d (S (S (w_clk w)))).
    + by apply (fd_dir_new w d (S (w_clk w))).
Qed.

(** The failing exits: nothing outside the entry is gone. *)
Lemma entry_fail d n depth w w1 :
  removal (at_or_under (child d n)) w w1 → tree_ok t (w_fs w1) →
  (no_faults → is_Some (w_fs w !! child d n) → depth <= MAX_CLEANUP_DEPTH →
   depth_ok (w_fs w) (child d n) depth → False) →
  wp (sret false) (entry_post d n depth w) w1.
Proof. intros Hr Ht1 Hf. apply wp_ret. split_and!; [done|done|done|]. intros. exfalso. eauto. Qed.
(** The last step, when nothing is left below the entry. *)
Lemma entry_removed d n depth w w1 :
  at_or_under t d → removal (at_or_under (child d n)) w w1 → tree_ok t (w_fs w1) →
  (∀ m, has_slash m = false → is_Some (w_fs w1 !! child (child d n) m) → False) →
  entry_post d n depth w true (tick (set_fs (delete (child d n) (w_fs w1)) w1)).
Proof.
  intros Hd Hr Ht1 Hleaf.
  assert (Hdel : removal (at_or_under (child d n)) w1
    (tick (set_fs (delete (child d n) (w_fs w1)) w1))).
  { apply removal_delete; [apply Hr|by left]. }
  assert (Hdn : at_or_under t (child d n)).
  { eapply at_or_under_trans; [done|right; apply under_child]. }
  assert (Htd : tree_ok t (delete (child d n) (w_fs w1))).
  { apply tree_ok_delete; [done|by apply child_ne_top|done]. }
  split_and!; [by eapply removal_trans|done| |done]. intros _ q [->|Hq]; cbn.
  - apply lookup_delete_eq.
  - apply (tree_empty t _ (child d n)); [done|done| |done]. apply dir_names_nil.
    intros m Hm. destruct (delete (child d n) (w_fs w1) !! child (child d n) m) as [j|] eqn:Ej;
      [|done].
    apply lookup_delete_Some in Ej as [_ Ej]. exfalso. eauto.
Qed.

Lemma RemoveEntryAt_spec fuel : entry_spec (RemoveEntryAt fuel).
Proof.
  induction fuel as [|fuel IH]; intros fd d n depth w Hwf Hfd Hd Ht Hn; [done|].
  cbn [RemoveEntryAt].
  pose proof (entry_fail d n depth w) as Hfail.
  assert (Hsame : ∀ w1, same_files w w1 → removal (at_or_under (child d n)) w w1)
    by (intros; by apply removal_same).
  destruct (depth >? MAX_CLEANUP_DEPTH) eqn:Hdepth; zbool.
  { apply Hfail; [by apply Hsame|done|]. intros. lia. }
  apply wp_bind. eapply wp_fstatat; [exact Hfd|intros e He|intros i Hi].
  { apply Hfail; [by apply Hsame|done|]. intros Hnf Hs. rewrite He in Hs; [by destruct Hs|done]. }
  pose proof (λ w1, entry_removed d n depth w w1 Hd) as Hrm.
  case_bool_decide as Hdir; cbn [negb].
  2: { apply wp_bind. eapply wp_unlinkat; [exact Hfd|intros e He|intros j Hj Hnd].
       - apply Hfail; [by apply Hsame|done|]. change (w_fs (tick w)) with (w_fs w) in He.
         intros Hnf. destruct (He (Hnf _)) as [[_ E]|(k & Hk & ?)]; congruence.
       - apply wp_ret, (Hrm (tick w)); [by apply Hsame|done|]. intros m Hm [k Hk].
         destruct (Ht (child (child d n) m) (child d n) m) as [[E|E] _]; try done.
         + eapply under_trans; [|apply under_child].
           destruct Hd as [->|Hd]; [apply under_child|eapply under_trans; eauto with swapdb].
         + by eapply child_ne_top.
         + apply is_dir_Some in E as (k' & Hk' & ?). cbn in Hj. congruence. }
  apply wp_bind. eapply wp_openat_dir; [exact Hfd|intros e He|intros j Hj _].
  { apply Hfail; [by apply Hsame|done|]. intros Hnf _ _ _. specialize (He (Hnf _)).
    cbn in He. assert (is_dir (w_fs w) (child d n) = true) as E; [|congruence].
    apply is_dir_Some. eauto. }
  cbn [w_fs w_fds w_nextfd w_clk tick] in *. set (w1 := World _ _ _ _).
  assert (world_wf w1) as Hwf1 by (by apply (world_wf_new_fd w)).
  apply wp_bind. eapply wp_mono; [|apply (RemoveTreeContentsAt_spec (RemoveEntryAt fuel)
    (w_nextfd w) (child d n) depth w1)]; try done.
  2: { apply (fd_dir_fresh w). }
  2: { eapply at_or_under_trans; [done|right; apply under_child]. }
  intros b w2 Hp. apply wp_bind, wp_close.
  apply (contents_post_bracket (child d n) depth w b w2 _ _ Hwf) in Hp.
  set (w3 := tick _) in *. destruct Hp as (Hr & Ht3 & _ & Hc).
  assert (Hr' : removal (at_or_under (child d n)) w w3).
  { eapply removal_mono; [|exact Hr]. by right. }
  assert (Hi3 : w_fs w3 !! child d n = Some i).
  { rewrite (removal_keep _ _ _ _ Hr); [done|]. apply under_irrefl. }
  destruct b; cbn [negb].
  2: { apply Hfail; try done. intros Hnf _ _ Hdep. by destruct (Hc Hnf Hdep). }
  assert (fd_dir fd w3 = Some d) as Hfd3 by (by rewrite (removal_fd _ _ _ _ Hr)).
  apply wp_bind. eapply wp_rmdirat; [exact Hfd3|intros e He|intros k Hk _ Hemp].
  - cbn [ok_of]. apply Hfail; try done. intros Hnf _ _ Hdep. destruct (Hc Hnf Hdep) as [_ Hemp].
    by apply (He (Hnf _) i).
  - apply wp_ret, (Hrm w3); try done. intros m Hm Hsome.
    assert (m ∈ dir_names (w_fs w3) (child d n)) as Hin by (by apply elem_of_dir_names).
    rewrite Hemp in Hin. by apply elem_of_nil in Hin.
Qed.
End removal_spec.

(** ** Sessions *)

(** [name] is what [CleanupSessionEntry] may remove: a directory with a session
    name that carries a regular marker (or a [.creating-] name), whose
    [session.lock] nobody holds. *)
Definition stale (f : gmap string inode) (root name : string) : Prop :=
  has_slash name = false ∧ is_dir f (child root name) = true ∧
  (StartsWith name SESSION_PREFIX = true ∧
     (∃ i, f !! child (child root name) SESSION_MARKER = Some i ∧ i_type i = FReg) ∨
   StartsWith name SESSION_PREFIX = false ∧ StartsWith name CREATING_PREFIX = true) ∧
  ∀ i, f !! child (child root name) "session.lock" = Some i → i_lock i = None.

Section sessions.
Context {EN : Env}.
Implicit Types (w : world).

(** [ENOENT] means what it says. *)
Definition honest_open : Prop := ∀ n, env_fault N_open n ≠ ENOENT.

Definition lock_taken (i : inode) (fd : Z) : inode :=
  Inode (i_type i) (i_uid i) (i_mode i) (i_data i) (Some fd).

Lemma wp_open_lock fd d Q w :
  let p := child d "session.lock" in
  fd_dir fd w = Some d →
  (∀ e, (e = ENOENT → honest_open → w_fs w !! p = None) →
     (never N_open → match w_fs w !! p with Some i => i_type i ≠ FReg | None => e = ENOENT end) →
     Q (SErr e) (tick w)) →
  (∀ i, w_fs w !! p = Some i →
     Q (SOk (w_nextfd w))
       (World (w_fs w) (<[w_nextfd w := Ofd p 0]> (w_fds w)) (w_nextfd w + 1) (S (w_clk w)))) →
  wp (sys_openat fd "session.lock" [O_CLOEXEC; O_RDWR; O_NOFOLLOW] 0) Q w.
Proof.
  intros p Hd He Ho. apply wp_syscall.
  { intros Hf. apply He; [|intros Hn; by rewrite Hn in Hf]. intros E Hh. by destruct (Hh (w_clk w)). }
  intros _. unfold at_path. change (fd_dir fd (tick w)) with (fd_dir fd w). rewrite Hd.
  fold p. unfold open_body. cbn [w_fs tick].
  destruct (w_fs w !! p) as [i|] eqn:Hp; [|apply He; [done|by rewrite ?Hp]].
  destruct (i_type i) eqn:Et; [by apply (Ho i)|apply He; [done|by rewrite ?Hp; congruence]..].
Qed.

Lemma wp_flock fd p i Q w :
  fd_dir fd w = Some p → w_fs w !! p = Some i →
  (∀ e, (never N_flock → i_lock i = None → False) →
        (never N_flock → e ≠ EINTR) → Q (SErr e) (tick w)) →
  (i_lock i = None → Q (SOk tt) (tick (set_fs (<[p := lock_taken i fd]> (w_fs w)) w))) →
  (i_lock i = Some fd → Q (SOk tt) (tick w)) →
  wp (sys_flock fd) Q w.
Proof.
  intros Hd Hp He Hn Hs. apply wp_syscall; [intros Hf; apply He; intros Hz; by rewrite Hz in Hf|].
  intros _. unfold at_path. change (fd_dir fd (tick w)) with (fd_dir fd w). rewrite Hd.
  cbn [w_fs tick]. rewrite Hp. destruct (i_lock i) as [h|] eqn:Hl; [|by apply Hn].
  destruct (h =? fd) eqn:E; zbool; [subst; by apply Hs|]. by apply He.
Qed.

Lemma SessionLock_loop_spec fuel fd p i w :
  fd_dir fd w = Some p → w_fs w !! p = Some i → i_lock i ≠ Some fd →
  wp (SessionLock_loop fuel fd) (λ r w',
    match r with
    | SOk _ => i_lock i = None ∧ w_fs w' = <[p := lock_taken i fd]> (w_fs w) ∧
               w_fds w' = w_fds w ∧ w_nextfd w' = w_nextfd w
    | SErr e => same_files w w' ∧ (never N_flock → i_lock i = None → False)
    end) w.
Proof.
  revert w. induction fuel as [|fuel IH]; intros w Hd Hp Hl; [done|]. cbn [SessionLock_loop].
  apply wp_bind. eapply (wp_flock fd p i); [done|done|intros e H1 H2|intros Hn|done].
  - destruct (e =? EINTR) eqn:E; zbool; [|by apply wp_ret].
    eapply wp_mono; [|by apply (IH (tick w))]. intros [e'|[]] w'; done.
  - by apply wp_ret.
Qed.

(** What [GetSessionStateAt] finds out, and the lock it takes. *)
Definition state_post (d : string) (w : world) (r : SessionState * option Z) (w' : world) : Prop :=
  let p := child d "session.lock" in
  match r.2 with
  | None => world_wf w' ∧ w_fs w' = w_fs w ∧ w_fds w' = w_fds w ∧ w_nextfd w <= w_nextfd w' ∧
      (r.1 = INACTIVE → honest_open → w_fs w !! p = None)
  | Some lfd => lfd = w_nextfd w ∧ r.1 = INACTIVE ∧ ∃ i, w_fs w !! p = Some i ∧ i_lock i = None ∧
      w_fs w' = <[p := lock_taken i lfd]> (w_fs w) ∧
      w_fds w' = <[lfd := Ofd p 0]> (w_fds w) ∧ w_nextfd w' = w_nextfd w + 1
  end ∧
  (no_faults → match w_fs w !! p with Some i => i_type i = FReg ∧ i_lock i = None | None => True end →
     r.1 = INACTIVE).

Lemma GetSessionStateAt_spec fd d w :
  world_wf w → fd_dir fd w = Some d → wp (GetSessionStateAt fd) (state_post d w) w.
Proof.
  intros Hwf Hd. unfold GetSessionStateAt. apply wp_bind.
  eapply wp_open_lock; [exact Hd|intros e H1 H2|intros i Hi].
  - apply wp_ret. unfold state_post. cbn. split; [split; [done|]; split_and!; try done|].
    + destruct (e =? ENOENT) eqn:E; zbool; [|done]. auto.
    + intros Hnf Hl. specialize (H2 (Hnf _)). destruct (w_fs w !! _) as [i|]; [by destruct Hl|].
      by subst.
  - set (p := child d "session.lock") in *. set (w1 := World _ _ _ _). apply wp_bind.
    assert (i_lock i ≠ Some (w_nextfd w)) as Hno by (eapply world_wf_nolock; eauto; lia).
    eapply wp_mono; [|apply (SessionLock_loop_spec _ (w_nextfd w) p i w1); [|done|done]].
    2: apply (fd_dir_fresh w).
    intros [e|[]] w2.
    + intros [(E1 & E2 & E3) Hf]. apply wp_bind, wp_close, wp_ret.
      assert (removal (λ _, False) w1 w2) as Hr.
      { apply removal_same; [by apply (world_wf_new_fd w)|done]. }
      destruct (removal_bracket _ w p _ w2 Hwf Hr) as [Hu Hr']. rewrite Hu.
      unfold state_post. cbn [fst snd]. fold p. split.
      * destruct Hr' as (Hwf' & Hfd' & Hn' & _). split; [done|]. split_and!; try done.
        by destruct (_ || _).
      * intros Hnf. rewrite Hi. intros [_ Hl]. exfalso. by apply Hf.
    + intros (Hl & E1 & E2 & E3). apply wp_ret. unfold state_post. cbn [fst snd]. fold p.
      split; [|done]. split_and!; try done. exists i. by split_and!.
Qed.

(** Removing a session under its lock, then letting go of the lock. *)
Lemma removal_unlock P d w w1 w2 i :
  let p := child d "session.lock" in let lfd := w_nextfd w in
  world_wf w → w_fs w !! p = Some i → i_lock i = None →
  w_fs w1 = <[p := lock_taken i lfd]> (w_fs w) → w_fds w1 = <[lfd := Ofd p 0]> (w_fds w) →
  w_nextfd w1 = w_nextfd w + 1 → removal P w1 w2 →
  removal P w (tick (World (unlock_fd lfd <$> w_fs w2) (delete lfd (w_fds w2)) (w_nextfd w2) (w_clk w2))).
Proof.
  intros p lfd Hwf Hi Hl E1 E2 E3 Hr. pose proof Hr as ([Hf2 Hl2] & Hfds & Hn & Hq).
  assert (Hfs : ∀ q, unlock_fd lfd <$> w_fs w1 !! q = w_fs w !! q).
  { intros q. rewrite E1. destruct (decide (q = p)) as [->|Hne].
    - rewrite lookup_insert_eq, Hi. cbn. unfold unlock_fd. cbn. rewrite bool_decide_true by done.
      destruct i; cbn in *; by subst.
    - rewrite lookup_insert_ne by done. destruct (w_fs w !! q) as [j|] eqn:Ej; [|done]. cbn.
      f_equal. unfold unlock_fd. rewrite bool_decide_false; [done|].
      eapply world_wf_nolock; eauto. unfold lfd. lia. }
  split_and!; cbn; [split; cbn| |lia|].
  - intros fd o [_ Hfd]%lookup_delete_Some. by eapply Hf2.
  - intros q j h Hj Hh. rewrite lookup_fmap in Hj. destruct (w_fs w2 !! q) as [k|] eqn:Ek; [|done].
    injection Hj as <-. eapply (Hl2 q k); [done|]. unfold unlock_fd in Hh. by case_bool_decide.
  - rewrite Hfds, E2, delete_insert_id; [done|by apply world_wf_fresh].
  - intros q. rewrite lookup_fmap. destruct (Hq q) as [->|[-> ?]]; auto.
Qed.
End sessions.

Lemma tree_ok_ext t f f' :
  (∀ q, i_type <$> f !! q = i_type <$> f' !! q) → tree_ok t f → tree_ok t f'.
Proof.
  intros He Ht p q n Hu [i Hi] -> Hn. specialize (He (child q n)) as Hc. rewrite Hi in Hc.
  destruct (f !! child q n) as [j|] eqn:Hj; [|done].
  destruct (Ht (child q n) q n Hu (mk_is_Some _ _ Hj) eq_refl Hn) as [Hq ?]. split; [|done].
  destruct Hq as [->|Hq]; [by left|right]. apply is_dir_Some in Hq as (k & Hk & Hd).
  specialize (He q). rewrite Hk in He. destruct (f' !! q) as [k'|] eqn:Hk'; [|done].
  apply is_dir_Some. exists k'. split; [done|]. cbn in He. congruence.
Qed.
Lemma unlock_type fd (f : gmap string inode) q :
  i_type <$> (unlock_fd fd <$> f) !! q = i_type <$> f !! q.
Proof. rewrite lookup_fmap. destruct (f !! q); [|done]. cbn. by rewrite unlock_fd_type. Qed.
Lemma lock_type (f : gmap string inode) p i fd q :
  f !! p = Some i → i_type <$> <[p := lock_taken i fd]> f !! q = i_type <$> f !! q.
Proof.
  intros Hp. destruct (decide (q = p)) as [->|Hne]; [by rewrite lookup_insert_eq, Hp|].
  by rewrite lookup_insert_ne.
Qed.
Lemma depth_ok_ext f f' d k :
  (∀ q, i_type <$> f !! q = i_type <$> f' !! q) → depth_ok f d k → depth_ok f' d k.
Proof.
  intros He H r [i Hi]. apply H. specialize (He (child d r)). rewrite Hi in He.
  by destruct (f !! child d r).
Qed.

Section cleanup.
Context {EN : Env} (root : string) (Hhonest : honest_open).
Implicit Types (w : world).

(** What handling the entry [name] of the swap root may do and achieves. *)
Definition cleanup_post (name : string) (w : world) (b : bool) (w' : world) : Prop :=
  removal (λ q, stale (w_fs w) root name ∧ at_or_under (child root name) q) w w' ∧
  tree_ok root (w_fs w') ∧
  (no_faults → stale (w_fs w) root name → depth_ok (w_fs w) (child root name) 0 →
   (∀ i, w_fs w !! child (child root name) "session.lock" = Some i → i_type i = FReg) →
   b = true ∧ ∀ q, at_or_under (child root name) q → w_fs w' !! q = None).

Lemma cleanup_post_idle name w w' :
  world_wf w → tree_ok root (w_fs w) → removal (λ _, False) w w' →
  (no_faults → stale (w_fs w) root name →
   (∀ i, w_fs w !! child (child root name) "session.lock" = Some i → i_type i = FReg) → False) →
  cleanup_post name w false w'.
Proof.
  intros Hwf Ht Hr Hf. split; [by eapply removal_mono; [|exact Hr]|]. split.
  - eapply tree_ok_ext; [|exact Ht]. intros q. rewrite (removal_keep _ _ _ q Hr); [done|by intros []].
  - intros. exfalso. eauto.
Qed.

Lemma removal_False_trans P w1 w2 w3 :
  removal (λ _, False) w1 w2 → removal P w2 w3 → removal P w1 w3.
Proof. intros H. apply removal_trans. by eapply removal_mono; [|exact H]. Qed.

(** The entry [name], a directory, carries the prefix of a session, or of one being made;
    the first kind has its marker. *)
Definition session_entry (name : string) (w : world) : Prop :=
  let d := child root name in
  has_slash name = false ∧ is_dir (w_fs w) d = true ∧
  StartsWith name SESSION_PREFIX || StartsWith name CREATING_PREFIX = true ∧
  (StartsWith name SESSION_PREFIX = true → ∃ i, w_fs w !! child d SESSION_MARKER = Some i ∧ i_type i = FReg).

Lemma session_stale name w :
  session_entry name w →
  (∀ j, w_fs w !! child (child root name) "session.lock" = Some j → i_lock j = None) →
  stale (w_fs w) root name.
Proof.
  intros (Hn & Hdir & Hpre & Hmark) Hl. split; [done|]. split; [done|]. split; [|done].
  destruct (StartsWith name SESSION_PREFIX) eqn:Es; [left; by auto|right].
  by destruct (StartsWith name CREATING_PREFIX).
Qed.

(** What the removal under the lock [lfd] of the session leaves once the lock is closed. *)
Lemma cleanup_locked name rootFd lfd w w1 w2 :
  world_wf w → same_files w w1 → fd_dir rootFd w = Some root → tree_ok root (w_fs w) → session_entry name w →
  state_post (child root name) w1 (INACTIVE, Some lfd) w2 →
  wp (ok ← RemoveEntryAt CLEANUP_FUEL rootFd name 0; sys_close lfd;; sret ok) (cleanup_post name w) w2.
Proof.
  intros Hwf (E1 & E2 & E3) Hroot Ht He [Hst _]. set (d := child root name) in *.
  pose proof He as (Hn & Hdir & _). fold d in Hdir.
  assert (world_wf w1) as Hwf1 by (by apply (removal_same (λ _, False) w)).
  destruct Hst as (-> & _ & j & Hi & Hl & F1 & F2 & F3). rewrite E1 in Hi.
  assert (stale (w_fs w) root name) as Hstale.
  { apply session_stale; [done|]. intros k Hk. unfold d in *. congruence. }
  assert (Htyp : ∀ q, i_type <$> w_fs w !! q = i_type <$> w_fs w2 !! q).
  { intros q. rewrite F1, E1, lock_type; done. }
  assert (world_wf w2) as Hwf2.
  { destruct Hwf1 as [Hf Hlo]. split; rewrite ?F1, ?F2, F3.
    - intros fd o [[<- _]|[_ Hfd]]%lookup_insert_Some; [lia|]. apply Hf in Hfd. lia.
    - intros q k h [[_ <-]|[_ Hq]]%lookup_insert_Some Hh; [cbn in Hh; simplify_eq; lia|].
      specialize (Hlo _ _ _ Hq Hh). lia. }
  apply wp_bind.
  eapply wp_mono; [|apply (RemoveEntryAt_spec root CLEANUP_FUEL rootFd root name 0 w2); try done].
  - intros b w3 (Hr & Ht3 & Hgone & Hc). apply wp_bind, wp_close, wp_ret.
    pose proof (removal_unlock _ d w1 w2 w3 j Hwf1 ltac:(by rewrite E1) Hl F1 F2 F3 Hr) as Hr'.
    split; [|split].
    + eapply removal_False_trans; [by apply (removal_same (λ _, False) w)|]. by eapply removal_mono; [|exact Hr'].
    + eapply tree_ok_ext; [|exact Ht3]. intros q. cbn. by rewrite unlock_type.
    + intros Hnf _ Hdep Hreg. assert (b = true) as ->.
      { apply Hc; [done| |done|by eapply depth_ok_ext].
        apply is_dir_Some in Hdir as (k & Hk & _). specialize (Htyp (child root name)).
        fold d in Htyp. rewrite Hk in Htyp. fold d. destruct (w_fs w2 !! d); done. }
      split; [done|]. intros q Hq. cbn. by rewrite lookup_fmap, Hgone.
  - unfold fd_dir in *. rewrite F2, lookup_insert_ne, E2; [done|].
    intros E. rewrite <-E, <-E2 in Hroot. by rewrite (world_wf_fresh w1 Hwf1) in Hroot.
  - by left.
  - by eapply tree_ok_ext.
Qed.
(** And without one, when the session has none. *)
Lemma cleanup_unlocked name rootFd w w2 :
  removal (λ _, False) w w2 → w_fs w2 = w_fs w → w_fds w2 = w_fds w →
  fd_dir rootFd w = Some root → tree_ok root (w_fs w) → session_entry name w →
  w_fs w !! child (child root name) "session.lock" = None →
  wp (RemoveEntryAt CLEANUP_FUEL rootFd name 0) (cleanup_post name w) w2.
Proof.
  intros Hr2 F1 F2 Hroot Ht He Hin. pose proof He as (Hn & Hdir & _).
  eapply wp_mono; [|apply (RemoveEntryAt_spec root CLEANUP_FUEL rootFd root name 0 w2); try done].
  - intros b w3 (Hr & Ht3 & Hgone & Hc). split; [|split].
    + eapply removal_False_trans; [done|]. eapply removal_mono; [|exact Hr].
      intros q Hq. split; [|done]. apply session_stale; [done|]. intros j. by rewrite Hin.
    + done.
    + intros Hnf _ Hdep Hreg. assert (b = true) as ->.
      { apply Hc; rewrite ?F1; try done.
        apply is_dir_Some in Hdir as (k & Hk & _). by exists k. }
      split; [done|]. by apply Hgone.
  - apply Hr2.
  - by rewrite (removal_fd _ _ _ _ Hr2).
  - by left.
  - by rewrite F1.
Qed.
(** The part of [CleanupOpenSession] behind the check of the marker. *)
Lemma session_judged name rootFd sfd w w1 :
  world_wf w → same_files w w1 → fd_dir rootFd w = Some root → fd_dir sfd w = Some (child root name) →
  tree_ok root (w_fs w) → session_entry name w →
  wp ('(state, sessionLock) ← GetSessionStateAt sfd;
      ok ← (if bool_decide (state = INACTIVE) then RemoveEntryAt CLEANUP_FUEL rootFd name 0
            else sret false);
      (match sessionLock with Some fd => sys_close fd | None => sret tt end);;
      sret ok) (cleanup_post name w) w1.
Proof.
  intros Hwf Hs Hroot Hsfd Ht He. pose proof Hs as (E1 & E2 & E3).
  pose proof (removal_same (λ _, False) w w1 Hwf Hs) as Hr1.
  apply wp_bind. eapply wp_mono; [|apply (GetSessionStateAt_spec sfd (child root name) w1); [apply Hr1|]].
  2: by rewrite (removal_fd _ _ _ _ Hr1).
  intros [state [lfd|]] w2 Hst.
  - pose proof Hst as [(_ & Ei & i & _) _]. cbn in Ei. subst state.
    rewrite bool_decide_true by done. by eapply cleanup_locked.
  - destruct Hst as [(Hwf2 & F1 & F2 & F3 & Hin) Hcomp]. cbn [fst snd] in *. rewrite E1 in F1, Hin, Hcomp.
    assert (Hr2 : removal (λ _, False) w w2).
    { split_and!; [apply Hwf2..|congruence|lia|]. intros q. left. by rewrite F1. }
    apply wp_bind. case_bool_decide as Hsi.
    + eapply wp_mono; [|eapply (cleanup_unlocked name rootFd w w2); try done; [congruence|by apply Hin]].
      intros b w3 H. by apply wp_bind, wp_ret, wp_ret.
    + apply wp_ret, wp_bind, wp_ret, wp_ret, cleanup_post_idle; try done.
      intros Hnf (_ & _ & _ & Hl) Hreg. apply Hsi, Hcomp; [done|].
      destruct (w_fs w !! _) as [i|] eqn:Ei; [|done]. split; [by apply Hreg|by apply Hl].
Qed.

Lemma CleanupOpenSession_spec rootFd sfd name w :
  world_wf w → fd_dir rootFd w = Some root → fd_dir sfd w = Some (child root name) →
  tree_ok root (w_fs w) → has_slash name = false → is_dir (w_fs w) (child root name) = true →
  StartsWith name SESSION_PREFIX || StartsWith name CREATING_PREFIX = true →
  wp (CleanupOpenSession rootFd name sfd (StartsWith name SESSION_PREFIX))
     (cleanup_post name w) w.
Proof.
  intros Hwf Hroot Hsfd Ht Hn Hdir Hpre.
  assert (Hgo : ∀ w1, same_files w w1 →
    (StartsWith name SESSION_PREFIX = true →
       ∃ i, w_fs w !! child (child root name) SESSION_MARKER = Some i ∧ i_type i = FReg) → _)
    by (intros w1 Hs Hm; apply (session_judged name rootFd sfd w w1); try done; by split_and!).
  unfold CleanupOpenSession. apply wp_bind. destruct (StartsWith name SESSION_PREFIX) eqn:Es.
  - apply wp_bind. eapply wp_fstatat; [exact Hsfd|intros e He|intros i Hi]; apply wp_ret.
    + cbn [negb]. apply wp_ret, cleanup_post_idle; [done..|by apply removal_same|].
      intros Hnf (_ & _ & [(_ & i & Hi & _)|[? _]] & _); [|congruence].
      rewrite (He (Hnf _)) in Hi. done.
    + case_bool_decide as Hreg; cbn [negb]; [apply Hgo; eauto; done|].
      apply wp_ret, cleanup_post_idle; [done..|by apply removal_same|].
      intros Hnf (_ & _ & [(_ & j & Hj & ?)|[? _]] & _); [|congruence]. congruence.
  - apply wp_ret. cbn [negb]. by apply Hgo.
Qed.

Lemma cleanup_post_bracket name w b w' p n :
  world_wf w →
  cleanup_post name (World (w_fs w) (<[w_nextfd w := Ofd p 0]> (w_fds w)) (w_nextfd w + 1) n) b w' →
  cleanup_post name w b
    (tick (World (unlock_fd (w_nextfd w) <$> w_fs w') (delete (w_nextfd w) (w_fds w'))
             (w_nextfd w') (w_clk w'))).
Proof.
  intros Hwf (Hr & Ht & Hc). destruct (removal_bracket _ _ _ _ _ Hwf Hr) as [Hu Hr'].
  rewrite Hu. split_and!; [exact Hr'|exact Ht|exact Hc].
Qed.

Lemma CleanupSessionEntry_spec rootFd name w :
  world_wf w → fd_dir rootFd w = Some root → tree_ok root (w_fs w) → has_slash name = false →
  wp (CleanupSessionEntry rootFd name) (cleanup_post name w) w.
Proof.
  intros Hwf Hroot Ht Hn. unfold CleanupSessionEntry.
  destruct (StartsWith name SESSION_PREFIX || StartsWith name CREATING_PREFIX) eqn:Hpre.
  2: { apply orb_false_elim in Hpre as [Hs Hcr]. rewrite Hs, Hcr. cbn [negb andb].
       apply wp_ret, cleanup_post_idle; [done..|by apply removal_same|].
       intros _ (_ & _ & [[? _]|[_ ?]] & _); congruence. }
  rewrite <-negb_orb, Hpre. cbn [negb]. apply wp_bind.
  eapply wp_fstatat; [exact Hroot|intros e He|intros i Hi].
  { apply wp_ret, cleanup_post_idle; [done..|by apply removal_same|].
    intros Hnf (_ & (j & Hj & _)%is_dir_Some & _). rewrite (He (Hnf _)) in Hj. done. }
  case_bool_decide as Hdir; cbn [negb].
  2: { apply wp_ret, cleanup_post_idle; [done..|by apply removal_same|].
       intros _ (_ & (j & Hj & ?)%is_dir_Some & _). congruence. }
  apply wp_bind. eapply wp_openat_dir; [exact Hroot|intros e He|intros j Hj _].
  { apply wp_ret, cleanup_post_idle; [done..|by apply removal_same|].
    intros Hnf (_ & Hd & _). specialize (He (Hnf _)). cbn in He. congruence. }
  cbn [w_fs w_fds w_nextfd w_clk tick] in *.
  set (w1 := World _ _ _ _). apply wp_bind.
  eapply wp_mono; [|apply (CleanupOpenSession_spec rootFd (w_nextfd w) name w1); try done].
  - intros b w2 Hp. apply wp_bind, wp_close, wp_ret. by apply (cleanup_post_bracket name w b w2 _ _ Hwf Hp).
  - by apply (world_wf_new_fd w).
  - by apply (fd_dir_new w).
  - apply (fd_dir_fresh w).
  - apply is_dir_Some. eauto.
Qed.

Lemma stale_removal P w w' name :
  removal P w w' → (∀ q, P q → ∃ n, stale (w_fs w) root n ∧ at_or_under (child root n) q) →
  stale (w_fs w') root name → stale (w_fs w) root name.
Proof.
  intros Hr HP (Hn & Hd & Hm & Hl). split; [done|]. split; [|split].
  - apply is_dir_Some in Hd as (i & Hi & ?). apply is_dir_Some. exists i.
    split; [by eapply removal_lookup|done].
  - destruct Hm as [(Hs & i & Hi & Hreg)|Hm]; [left|by right]. split; [done|].
    exists i. split; [by eapply removal_lookup|done].
  - intros i Hi. pose proof Hr as (_ & _ & _ & Hq).
    destruct (Hq (child (child root name) "session.lock")) as [E|[_ (m & Hst & Hu)%HP]].
    + apply Hl. by rewrite E.
    + assert (m = name) as ->.
      { eapply (at_or_under_sibling root m name); [apply Hst|done|exact Hu|].
        right. apply under_child. }
      by apply Hst.
Qed.

(** What the sweep of the swap root may do and achieves. *)
Definition sweep_post (names : list string) (w w' : world) : Prop :=
  removal (λ q, ∃ name, stale (w_fs w) root name ∧ at_or_under (child root name) q) w w' ∧
  tree_ok root (w_fs w') ∧
  (no_faults → ∀ name, name ∈ names → stale (w_fs w) root name →
     depth_ok (w_fs w) (child root name) 0 →
     (∀ i, w_fs w !! child (child root name) "session.lock" = Some i → i_type i = FReg) →
     ∀ q, at_or_under (child root name) q → w_fs w' !! q = None).

(** A sibling's session is the same after another one was handled. *)
Lemma stale_sibling n w b w1 name :
  has_slash n = false → n ≠ name → cleanup_post n w b w1 →
  stale (w_fs w) root name → stale (w_fs w1) root name.
Proof.
  intros Hn Hne (Hr & _ & _) Hst. pose proof Hst as (Hnm & Hd & Hm & Hl).
  assert (Hk : ∀ q, at_or_under (child root name) q → w_fs w1 !! q = w_fs w !! q).
  { intros q Hq. apply (removal_keep _ _ _ _ Hr). intros [_ Hu]. apply Hne.
    by apply (at_or_under_sibling root n name q). }
  split; [done|]. split; [|split].
  - unfold is_dir in *. by rewrite Hk by (by left).
  - destruct Hm as [(Hs & i & Hi & Hreg)|Hm]; [left|by right]. split; [done|].
    exists i. split; [|done]. rewrite Hk; [done|]. right. apply under_child.
  - intros i. rewrite Hk; [apply Hl|]. right. apply under_child.
Qed.

Lemma CleanupEntries_spec rootFd names k w :
  world_wf w → fd_dir rootFd w = Some root → tree_ok root (w_fs w) →
  Forall (λ n, has_slash n = false) names →
  wp (CleanupEntries rootFd names k) (λ _ w', sweep_post names w w') w.
Proof.
  revert k w. induction names as [|n names IH]; intros k w Hwf Hroot Ht Hns; cbn [CleanupEntries].
  { apply wp_ret. split; [by apply removal_same|]. split; [done|]. by intros _ ? ?%elem_of_nil. }
  apply Forall_cons in Hns as [Hn Hns]. apply wp_bind.
  eapply wp_mono; [|by apply CleanupSessionEntry_spec]. intros b w1 Hp.
  pose proof Hp as (Hr & Ht1 & Hc).
  eapply wp_mono; [|apply IH; try done; [apply Hr|by rewrite (removal_fd _ _ _ _ Hr)]].
  intros k' w' (Hr' & Ht' & Hc').
  assert (Hr1 : removal (λ q, ∃ name, stale (w_fs w) root name ∧ at_or_under (child root name) q) w w1).
  { eapply removal_mono; [|exact Hr]. intros q Hq. by exists n. }
  split; [eapply removal_trans; [exact Hr1|]|split; [done|]].
  { eapply removal_mono; [|exact Hr']. intros q (m & Hm & Hq). exists m. split; [|done].
    by eapply stale_removal. }
  intros Hnf name Hin Hst Hdep Hreg q Hq. destruct (decide (n = name)) as [->|Hne].
  - destruct (Hc Hnf Hst Hdep Hreg) as [_ Hg]. eapply removal_None; [exact Hr'|by apply Hg].
  - apply elem_of_cons in Hin as [?|Hin]; [by subst|].
    apply (Hc' Hnf name Hin); [by eapply stale_sibling|by eapply depth_ok_removal| |done].
    intros i Hi. apply Hreg. by eapply removal_lookup.
Qed.

Lemma CleanupInactiveSessionsLocked_spec rootFd w :
  world_wf w → fd_dir rootFd w = Some root → tree_ok root (w_fs w) →
  wp (CleanupInactiveSessionsLocked rootFd)
     (λ _ w', sweep_post (if rootFd <? 0 then [] else dir_names (w_fs w) root) w w') w.
Proof.
  intros Hwf Hroot Ht. unfold CleanupInactiveSessionsLocked.
  assert (Hidle : ∀ names w', removal (λ _, False) w w' → (no_faults → names = []) →
    sweep_post names w w').
  { intros names w' Hr Hf. split; [by eapply removal_mono; [|exact Hr]|]. split.
    - eapply tree_ok_ext; [|exact Ht]. intros q. rewrite (removal_keep _ _ _ q Hr); [done|by intros []].
    - intros Hnf name. rewrite (Hf Hnf). by intros ?%elem_of_nil. }
  destruct (rootFd <? 0); [apply wp_ret, Hidle; [by apply removal_same|done]|].
  apply wp_bind. eapply wp_dup; [exact Hroot|intros e He|].
  { apply wp_ret, Hidle; [by apply removal_same|]. intros Hnf. by destruct (He (Hnf _)). }
  set (w1 := World _ _ _ _). assert (world_wf w1) as Hwf1 by (by apply (world_wf_new_fd w)).
  assert (fd_dir (w_nextfd w) w1 = Some root) as Hscan by apply (fd_dir_fresh w).
  apply wp_bind. eapply wp_fdopendir; [exact Hscan|intros e He|].
  { apply wp_bind, wp_close, wp_ret, Hidle; [|intros Hnf; by destruct (He (Hnf _))].
    destruct (removal_bracket (λ _, False) w root (S (w_clk w)) (tick w1) Hwf) as [Hu Hr];
      [by apply removal_same|]. by rewrite Hu. }
  apply wp_bind. eapply wp_readdir; [exact Hscan|]. intros names e Hsub He0 Hall. apply wp_bind.
  eapply wp_mono; [|apply (CleanupEntries_spec rootFd names 0 (tick (tick w1)))]; try done.
  - intros k w2 (Hr & Ht2 & Hc). apply wp_bind, wp_close, wp_ret.
    destruct (removal_bracket _ w root _ w2 Hwf (removal_trans _ _ _ _ ltac:(by apply removal_same) Hr))
      as [Hu Hr']. rewrite Hu. split; [exact Hr'|]. split; [exact Ht2|].
    intros Hnf. specialize (Hall (He0 (Hnf _))). cbn in Hall. rewrite <-Hall. by apply Hc.
  - by apply (fd_dir_new w).
  - apply Forall_forall. by intros n [_ ?]%Hsub%elem_of_dir_names.
Qed.
End cleanup.

(** ** Whole file systems *)

(** Every file hangs off a directory (or off the empty prefix of an absolute
    path), under a name that is neither ["."] nor [".."]. *)
Definition fs_tree (f : gmap string inode) : Prop :=
  ∀ p q n, is_Some (f !! p) → p = child q n → has_slash n = false →
    (q = "" ∨ is_dir f q = true) ∧ n ≠ "." ∧ n ≠ "..".

(** The same, decided. *)
Definition fs_treeb (f : gmap string inode) : bool :=
  forallb (λ '(p, _), match rsplit p with
    | Some (q, n) => ((q =? "")%string || is_dir f q) && negb (n =? ".")%string &&
                     negb (n =? "..")%string
    | None => true end) (map_to_list f).

Lemma fs_treeb_sound f : fs_treeb f = true → fs_tree f.
Proof.
  unfold fs_treeb. rewrite forallb_forall. intros H p q n [i Hi] -> Hn.
  assert (In (child q n, i) (map_to_list f)) as Hin by (by apply list_elem_of_In, elem_of_map_to_list).
  specialize (H _ Hin). cbn beta iota in H. rewrite rsplit_child in H by done. apply andb_prop in H as [[Hq Hd]%andb_prop Hdd].
  apply negb_true_iff, String.eqb_neq in Hd. apply negb_true_iff, String.eqb_neq in Hdd.
  split; [|done]. apply orb_prop in Hq as [?%String.eqb_eq|?]; auto.
Qed.

Lemma fs_tree_tree_ok f t : fs_tree f → tree_ok t f.
Proof.
  intros Hf p q n Hu Hs -> Hn. destruct (Hf (child q n) q n Hs eq_refl Hn) as [[->|Hq] ?]; auto.
  split; [left|done]. destruct (under_parent t "" n Hn Hu) as [E|[r E]]; [by subst|].
  apply (f_equal String.length) in E. unfold child in E. rewrite length_append in E. cbn in E. lia.
Qed.

Lemma child_not_empty d n : child d n ≠ "".
Proof.
  intros E%(f_equal String.length). unfold child in E. rewrite length_append in E. cbn in E. lia.
Qed.

(** Nothing is below a path that is not a directory, or is an empty one. *)
Lemma fs_tree_leaf f p :
  fs_tree f → p ≠ "" → is_dir f p = false ∨ dir_names f p = [] →
  ∀ q, under p q → f !! q = None.
Proof.
  intros Hf Hp Hl. apply (tree_empty p); [by apply fs_tree_tree_ok|by left|].
  destruct Hl as [Hl|Hl]; [|done]. apply elem_of_nil_inv. intros n [Hs Hn]%elem_of_dir_names.
  destruct (Hf (child p n) p n Hs eq_refl Hn) as [[?|?] _]; congruence.
Qed.

Section session_tree.
Context {EN : Env}.
Implicit Types (w : world).

Lemma ResolveRemovalPath_spec path safeRoot w :
  wp (ResolveRemovalPath path safeRoot) (λ r w', same_files w w' ∧
    ∀ p, r = SOk p → ∃ realRoot realParent dir name k k',
      rsplit path = Some (dir, name) ∧ (name ∉ [""; "."; ".."]) ∧
      env_realpath k safeRoot = SOk realRoot ∧
      env_realpath k' (if (dir =? "")%string then "/" else dir) = SOk realParent ∧
      IsUnderRoot realParent realRoot = true ∧ p = child realParent name) w.
Proof.
  unfold ResolveRemovalPath. destruct (negb _ || negb _); [by apply wp_ret|].
  destruct (rsplit path) as [[dir name]|] eqn:Hs; [|by apply wp_ret].
  destruct (name =? "")%string eqn:E1; [by apply wp_ret|].
  destruct ((name =? ".")%string || (name =? "..")%string) eqn:E2; [by apply wp_ret|].
  apply wp_bind. unfold sys_realpath. unfold wp at 1, ask. cbn [fst snd].
  destruct (env_realpath (w_clk w) safeRoot) as [|realRoot] eqn:Hr; [done|].
  apply wp_bind. unfold wp at 1. cbn [w_clk tick].
  destruct (env_realpath (S (w_clk w)) _) as [|realParent] eqn:Hp; [done|].
  destruct (negb _) eqn:Hu; [done|]. apply negb_false_iff in Hu. apply wp_ret.
  split; [done|]. intros p [= <-]. exists realRoot, realParent, dir, name, (w_clk w), (S (w_clk w)).
  split_and!; try done. apply String.eqb_neq in E1.
  apply orb_false_elim in E2 as [E2%String.eqb_neq E3%String.eqb_neq]. set_solver.
Qed.

Definition honest_stat : Prop := ∀ n, env_fault N_stat n ≠ ENOENT.

(** What removing the resolved path [p] may do and achieves. *)
Definition tree_removed (p : string) (w : world) (r : Z) (w' : world) : Prop :=
  removal (at_or_under p) w w' ∧
  (r = SWAPFS_E_OK → ∀ q, at_or_under p q → w_fs w' !! q = None).

(** Removing a leaf of the tree for good. *)
Lemma removal_leaf p w w1 :
  world_wf w → removal (under p) w w1 → p ≠ "" →
  (∀ q, under p q → w_fs w1 !! q = None) →
  tree_removed p w SWAPFS_E_OK (tick (set_fs (delete p (w_fs w1)) w1)).
Proof.
  intros Hwf Hr Hp Hleaf. split.
  - eapply removal_trans; [eapply removal_mono; [|exact Hr]; by right|].
    apply removal_delete; [apply Hr|by left].
  - intros _ q [->|Hq]; cbn; [apply lookup_delete_eq|].
    apply lookup_delete_None. right. by apply Hleaf.
Qed.

Lemma tree_removed_fail p w w' :
  removal (at_or_under p) w w' → tree_removed p w SWAPFS_E_PATH_UNAVAILABLE w'.
Proof. by split. Qed.

Lemma RemoveSessionTree_spec path safeRoot w :
  world_wf w → fs_tree (w_fs w) → honest_stat →
  wp (RemoveSessionTree path safeRoot) (λ r w', r ≠ SWAPFS_E_OK ∧ same_files w w' ∨
    ∃ realRoot realParent dir name k k',
      rsplit path = Some (dir, name) ∧ (name ∉ [""; "."; ".."]) ∧
      env_realpath k safeRoot = SOk realRoot ∧
      env_realpath k' (if (dir =? "")%string then "/" else dir) = SOk realParent ∧
      IsUnderRoot realParent realRoot = true ∧ tree_removed (child realParent name) w r w') w.
Proof.
  intros Hwf Hf Hh. unfold RemoveSessionTree. apply wp_bind.
  eapply wp_mono; [|apply ResolveRemovalPath_spec]. intros [e|p] w1 [Hs Hres].
  { apply wp_ret. by left. }
  destruct (Hres p eq_refl) as (rr & rp & dir & name & k & k' & H1 & H2 & H3 & H4 & H5 & Hp).
  enough (wp (st ← sys_lstat p; match st with
      | SErr e => sret (path_result (e =? ENOENT))
      | SOk i => if negb (bool_decide (i_type i = FDir))
          then r ← sys_unlink p; sret (path_result (ok_of r))
          else dirFd ← sys_open p DIR_FLAGS 0;
            match dirFd with
            | SErr _ => sret SWAPFS_E_PATH_UNAVAILABLE
            | SOk dirFd =>
                ok ← RemoveTreeContentsAt (RemoveEntryAt CLEANUP_FUEL) dirFd 0;
                sys_close dirFd;;
                if negb ok then sret SWAPFS_E_PATH_UNAVAILABLE
                else r ← sys_rmdir p; sret (path_result (ok_of r))
            end end) (tree_removed p w) w1) as Hgo.
  { eapply wp_mono; [|exact Hgo]. intros r w' Hr. right.
    exists rr, rp, dir, name, k, k'. by subst p. }
  assert (p ≠ "") as Hne by (subst p; apply child_not_empty).
  pose proof Hs as (E1 & E2 & E3).
  assert (Hr1 : ∀ P w', same_files w1 w' → removal P w w').
  { intros P w' (F1 & F2 & F3). apply removal_same; [done|]. split_and!; congruence. }
  apply wp_bind, wp_lstat; [intros e _ He|intros i Hi]; rewrite E1 in *.
  { apply wp_ret. split; [by apply Hr1|]. unfold path_result. destruct (e =? ENOENT) eqn:E; [|done].
    zbool. subst e. intros _ q [->|Hq]; cbn; rewrite E1; [by apply He|].
    apply (fs_tree_leaf _ p); try done. left. unfold is_dir. by rewrite He. }
  case_bool_decide as Hdir; cbn [negb].
  2: { apply wp_bind, wp_unlink; [intros e _|intros j Hj Hnd]; apply wp_ret.
       - by apply tree_removed_fail, Hr1.
       - cbn in Hj. apply (removal_leaf p w (tick w1)); [done|by apply Hr1|done|].
         intros q Hq. cbn. rewrite E1. apply (fs_tree_leaf _ p); try done. left.
         unfold is_dir. rewrite Hi. by rewrite bool_decide_false. }
  apply wp_bind, wp_open_dir; [intros e _|intros j Hj _].
  { by apply wp_ret, tree_removed_fail, Hr1. }
  cbn [w_fs w_fds w_nextfd w_clk tick] in *. set (w2 := World _ _ _ _).
  assert (world_wf (tick (tick w1))) as Hwf1 by (by apply (Hr1 (λ _, False))).
  assert (world_wf w2) as Hwf2 by (by apply (world_wf_new_fd (tick (tick w1)))).
  apply wp_bind. eapply wp_mono; [|apply (RemoveTreeContentsAt_spec p (RemoveEntryAt CLEANUP_FUEL)
    (w_nextfd w1) p 0 w2)]; try done.
  2: apply RemoveEntryAt_spec. 2: apply (fd_dir_fresh w1). 2: by left.
  2: { cbn. rewrite E1. by apply fs_tree_tree_ok. }
  intros b w3 (Hr & Ht3 & _). apply wp_bind, wp_close.
  destruct (removal_bracket _ (tick (tick w1)) p _ w3 Hwf1 Hr) as [Hu Hr3].
  change (w_nextfd (tick (tick w1))) with (w_nextfd w1) in *. rewrite Hu.
  set (w4 := tick (World (w_fs w3) (delete (w_nextfd w1) (w_fds w3)) (w_nextfd w3) (w_clk w3))) in *.
  assert (Hr4 : removal (under p) w w4) by (eapply removal_trans; [|exact Hr3]; by apply Hr1).
  assert (Hr4' : removal (at_or_under p) w w4) by (eapply removal_mono; [|exact Hr4]; by right).
  destruct b; cbn [negb]; [|by apply wp_ret, tree_removed_fail].
  apply wp_bind, wp_rmdir; [intros e _|intros m Hm _ Hemp]; apply wp_ret.
  - by apply tree_removed_fail.
  - apply removal_leaf; try done. apply (tree_empty p); [exact Ht3|by left|done].
Qed.

(** ** The recursion ends *)
Definition rec_returns (rec : Z → string → Z → io bool) (depth : Z) : Prop :=
  ∀ fd n w, returns (rec fd n depth) w.

Lemma RemoveEntries_returns rec fd depth names removed w :
  rec_returns rec (depth + 1) → returns (RemoveEntries rec fd depth names removed) w.
Proof.
  intros Hrec. revert removed w. induction names as [|n names IH]; intros removed w; [by eexists|].
  cbn [RemoveEntries]. destruct (_ || _); [apply IH|]. apply returns_then.
  - destruct (n =? SESSION_MARKER)%string; [|by eexists].
    apply returns_then; [apply syscall_returns|by eexists].
  - intros [] w'; [apply IH|]. apply returns_then; [apply Hrec|intros; apply IH].
Qed.

Lemma RemoveTreeContentsAt_returns rec fd depth w :
  rec_returns rec (depth + 1) → returns (RemoveTreeContentsAt rec fd depth) w.
Proof.
  intros Hrec. apply returns_then; [apply syscall_returns|]. intros [e|sfd] w1; [by eexists|].
  apply returns_then; [apply syscall_returns|]. intros [e|[]] w2; [by eexists|].
  apply returns_then; [|by eexists]. apply returns_then.
  { unfold returns, sys_readdir_all. destruct (fd_dir sfd w2); by eexists. }
  intros [names err] w3. apply returns_then; [by apply RemoveEntries_returns|].
  intros b w4. cbn zeta. destruct (if negb (err =? 0) then false else b); [|by eexists].
  apply returns_then; [apply syscall_returns|by eexists].
Qed.

Lemma RemoveEntryAt_returns fuel depth :
  depth <= 17 → 18 - depth <= Z.of_nat fuel → rec_returns (RemoveEntryAt fuel) depth.
Proof.
  revert depth. induction fuel as [|fuel IH]; intros depth H1 H2 fd n w; [lia|].
  cbn [RemoveEntryAt]. destruct (depth >? MAX_CLEANUP_DEPTH) eqn:E; zbool; [by eexists|].
  unfold MAX_CLEANUP_DEPTH in E.
  apply returns_then; [apply syscall_returns|]. intros [e|i] w1; [by eexists|].
  destruct (negb _); (apply returns_then; [apply syscall_returns|]); [by eexists|].
  intros [e|cfd] w2; [by eexists|].
  apply returns_then; [apply RemoveTreeContentsAt_returns, IH; lia|]. intros b w3.
  apply returns_then; [by eexists|]. intros _ w4. destruct b; [|by eexists].
  apply returns_then; [apply syscall_returns|by eexists].
Qed.

Lemma SessionLock_loop_returns fuel fd j w :
  env_fault N_flock (w_clk w + j) ≠ EINTR → (j < fuel)%nat → returns (SessionLock_loop fuel fd) w.
Proof.
  revert j w. induction fuel as [|fuel IH]; intros j w Hj Hf; [lia|]. cbn [SessionLock_loop].
  apply returns_bind; [apply syscall_returns|]. apply wp_syscall.
  - intros _. destruct (_ =? EINTR) eqn:E; zbool; [|by eexists].
    destruct j as [|j]; [by rewrite Nat.add_0_r in Hj|].
    apply (IH j); [|lia]. cbn. by rewrite <-Nat.add_succ_r.
  - intros _. unfold at_path. destruct (fd_dir fd _) as [p|]; [|by eexists].
    destruct (_ !! p) as [i|]; [|by eexists]. destruct (i_lock i) as [h|]; [|by eexists].
    destruct (h =? fd); by eexists.
Qed.

Lemma CleanupSessionEntry_returns B rootFd name w :
  eintr_bound N_flock B → (B < env_fuel)%nat → returns (CleanupSessionEntry rootFd name) w.
Proof.
  intros HB Hfuel. unfold CleanupSessionEntry. destruct (_ && _); [by eexists|].
  apply returns_then; [apply syscall_returns|]. intros [e|i] w1; [by eexists|].
  destruct (negb (bool_decide (i_type i = FDir))); [by eexists|].
  apply returns_then; [apply syscall_returns|]. intros [e|sfd] w2; [by eexists|].
  apply returns_then; [|by eexists]. apply returns_then.
  { destruct (StartsWith name SESSION_PREFIX); [|by eexists].
    apply returns_then; [apply syscall_returns|by eexists]. }
  intros [] w3; cbn [negb]; [|by eexists]. apply returns_then.
  - apply returns_then; [apply syscall_returns|]. intros [e|lfd] w4; [by eexists|].
    destruct (HB (w_clk w4)) as (j & Hj & Hne). apply returns_then.
    + apply (SessionLock_loop_returns _ _ j); [done|lia].
    + intros [e|[]] w5; by eexists.
  - intros [state lock] w4. apply returns_then.
    + destruct (bool_decide _); [|by eexists]. by apply RemoveEntryAt_returns.
    + intros b w5. apply returns_then; [|by eexists]. destruct lock; by eexists.
Qed.

(** What passes the test is the root or below it. *)
Lemma IsUnderRoot_sound p root :
  IsUnderRoot p root = true → rtrim_slash root ≠ "" ∧ at_or_under (rtrim_slash root) p.
Proof.
  unfold IsUnderRoot. destruct (rtrim_slash root) as [|c t] eqn:E; [done|].
  intros H. split; [done|]. apply orb_true_iff in H as [H|H].
  - left. by apply String.eqb_eq.
  - right. unfold StartsWith in H. destruct (strip_prefix _ p) as [r|] eqn:Hs; [|done].
    exists r. by apply below_Some.
Qed.

(** ** Properties *)

(** C10: [RemoveSessionTree] stays inside the swap root: it refuses the path
    leaving every file alone, or the parent directory resolves to a place at
    or under the resolved safe root, nothing outside the named entry of that
    directory changes, every descriptor is given back, and when it answers OK
    the entry and everything below it are gone. *)
Theorem remove_session_tree_confined path safeRoot w :
  world_wf w → fs_tree (w_fs w) → honest_stat →
  wp (RemoveSessionTree path safeRoot) (λ r w', r ≠ SWAPFS_E_OK ∧ same_files w w' ∨
    ∃ realRoot realParent dir name k k',
      rsplit path = Some (dir, name) ∧ (name ∉ [""; "."; ".."]) ∧
      env_realpath k safeRoot = SOk realRoot ∧
      env_realpath k' (if (dir =? "")%string then "/" else dir) = SOk realParent ∧
      (rtrim_slash realRoot ≠ "" ∧ at_or_under (rtrim_slash realRoot) realParent) ∧
      let p := child realParent name in
      w_fds w' = w_fds w ∧ (∀ q, ¬ at_or_under p q → w_fs w' !! q = w_fs w !! q) ∧
      (r = SWAPFS_E_OK → ∀ q, at_or_under p q → w_fs w' !! q = None)) w.
Proof.
  intros Hwf Hf Hh. eapply wp_mono; [|by apply RemoveSessionTree_spec].
  intros r w' [?|(rr & rp & dir & name & k & k' & H1 & H2 & H3 & H4 & H5 & Hr & Hok)]; [by left|].
  right. exists rr, rp, dir, name, k, k'. do 4 (split; [done|]).
  split; [by apply IsUnderRoot_sound|]. cbn zeta. pose proof Hr as (_ & Hfds & _). split; [done|]. split; [|done].
  intros q. by apply removal_keep.
Qed.

(** A session whose contents could not be removed completely stays a
    session: when [RemoveTreeContentsAt] fails, whatever failed and however deep,
    the regular marker file of the directory is still there, so that a later
    cleanup recognises it (as long as [fstatat] itself does not fail). *)
Theorem failed_removal_keeps_marker dirFd d depth w :
  world_wf w → fd_dir dirFd w = Some d → tree_ok d (w_fs w) → never N_stat →
  wp (RemoveTreeContentsAt (RemoveEntryAt CLEANUP_FUEL) dirFd depth)
    (λ b w', b = false → marker_kept d w w') w.
Proof.
  intros Hwf Hd Ht Hst. eapply wp_mono; [|apply (RemoveTreeContentsAt_spec d); try done].
  - intros b w' (_ & _ & Hm & _). by apply Hm.
  - apply RemoveEntryAt_spec.
  - by left.
Qed.

(** C9: Cleanup touches stale sessions only: whatever calls fail, as long as [open] says
    [ENOENT] only of what is not there, a path that differs after [CleanupInactiveSessionsLocked]
    is gone, and lies in a directory of the swap root with a session name and a regular marker, or
    with a [.creating-] name, whose [session.lock] nobody held. Running sessions, foreign entries,
    session directories without a marker, symbolic links and everything outside the root are as
    before, and so is the descriptor table. *)
Theorem cleanup_spares_live_sessions rootFd root w :
  world_wf w → fd_dir rootFd w = Some root → tree_ok root (w_fs w) → honest_open →
  wp (CleanupInactiveSessionsLocked rootFd) (λ _ w', w_fds w' = w_fds w ∧
    ∀ q, w_fs w' !! q = w_fs w !! q ∨ w_fs w' !! q = None ∧
      ∃ name, stale (w_fs w) root name ∧ at_or_under (child root name) q) w.
Proof.
  intros Hwf Hd Ht Hh.
  eapply wp_mono; [|by apply (CleanupInactiveSessionsLocked_spec root Hh)].
  intros r w' ((_ & Hfds & _ & Hq) & _). done.
Qed.

(** C18: Cleanup is complete: with no failing call, every stale session of the swap root whose
    tree is within the depth guard, and whose [session.lock] is a regular file if there is one, is
    gone afterwards. *)
Theorem cleanup_removes_stale_sessions rootFd root name w :
  world_wf w → fd_dir rootFd w = Some root → tree_ok root (w_fs w) → no_faults → 0 <= rootFd →
  stale (w_fs w) root name → depth_ok (w_fs w) (child root name) 0 →
  (∀ i, w_fs w !! child (child root name) "session.lock" = Some i → i_type i = FReg) →
  wp (CleanupInactiveSessionsLocked rootFd)
    (λ _ w', ∀ q, at_or_under (child root name) q → w_fs w' !! q = None) w.
Proof.
  intros Hwf Hd Ht Hnf Hfd Hst Hdep Hreg.
  assert (honest_open) as Hh by (intros n; by rewrite (Hnf N_open)).
  eapply wp_mono; [|by apply (CleanupInactiveSessionsLocked_spec root Hh)].
  intros r w' (_ & _ & Hc). replace (rootFd <? 0) with false in Hc by lia.
  apply (Hc Hnf); try done. apply elem_of_dir_names.
  destruct Hst as (Hn & (i & Hi & _)%is_dir_Some & _). eauto.
Qed.

Lemma ResolveRemovalPath_returns path safeRoot w : returns (ResolveRemovalPath path safeRoot) w.
Proof.
  unfold ResolveRemovalPath. destruct (_ || _); [by eexists|].
  destruct (rsplit path) as [[dir n]|]; [|by eexists].
  destruct (n =? "")%string; [by eexists|]. destruct (_ || _); [by eexists|].
  apply returns_then; [by eexists|]. intros [e|rr] w1; [by eexists|].
  apply returns_then; [by eexists|]. intros [e|rp] w2; [by eexists|].
  destruct (negb _); by eexists.
Qed.

Lemma RemoveSessionTree_returns path safeRoot w : returns (RemoveSessionTree path safeRoot) w.
Proof.
  apply returns_then; [apply ResolveRemovalPath_returns|].
  intros [e|p] w1; [by eexists|]. apply returns_then; [apply syscall_returns|].
  intros [e|i] w2; [by eexists|].
  destruct (negb _); (apply returns_then; [apply syscall_returns|]); [by eexists|].
  intros [e|fd] w3; [by eexists|]. apply returns_then.
  { by apply RemoveTreeContentsAt_returns, RemoveEntryAt_returns. }
  intros b w4. apply returns_then; [by eexists|]. intros _ w5. destruct b; [|by eexists].
  apply returns_then; [apply syscall_returns|by eexists].
Qed.

Lemma CleanupInactiveSessionsLocked_returns B rootFd w :
  eintr_bound N_flock B → (B < env_fuel)%nat → returns (CleanupInactiveSessionsLocked rootFd) w.
Proof.
  intros HB Hf. unfold CleanupInactiveSessionsLocked. destruct (rootFd <? 0); [by eexists|].
  apply returns_then; [apply syscall_returns|]. intros [e|sfd] w1; [by eexists|].
  apply returns_then; [apply syscall_returns|]. intros [e|[]] w2; [by eexists|].
  apply returns_then; [unfold returns, sys_readdir_all; destruct (fd_dir sfd w2); by eexists|].
  intros [names e] w3. apply returns_then; [|by eexists].
  generalize 0. revert w3. induction names as [|n names IH]; intros w3 k; [by eexists|].
  cbn [CleanupEntries]. apply returns_then; [by eapply CleanupSessionEntry_returns|].
  intros b w4. apply IH.
Qed.

(** C38: The cleaner ends on every file tree: the depth guard bounds the
    recursion, so [RemoveSessionAt] and [RemoveSessionTree] return whatever
    the tree and whatever fails, and so does [CleanupInactiveSessionsLocked]
    when no more than [B] calls of [flock] in a row are interrupted. *)
Theorem cleaner_returns B rootFd name path safeRoot w :
  eintr_bound N_flock B → (B < env_fuel)%nat →
  returns (RemoveSessionAt rootFd name) w ∧ returns (RemoveSessionTree path safeRoot) w ∧
  returns (CleanupInactiveSessionsLocked rootFd) w.
Proof.
  intros HB Hf. split_and!.
  - apply returns_then; [by apply RemoveEntryAt_returns|by eexists].
  - apply RemoveSessionTree_returns.
  - by eapply CleanupInactiveSessionsLocked_returns.
Qed.
End session_tree.

(** ** Witnesses: a swap root with a stale session, a running one (its lock is
    held by descriptor 4) and a foreign directory *)
Definition dir_inode : inode := Inode FDir 1000 448 [] None.
Definition file_inode (d : list Z) (l : option Z) : inode := Inode FReg 1000 384 d l.

Definition cleaner_world : world :=
  World (list_to_map [
    ("/swap", dir_inode);
    ("/swap/session-a", dir_inode);
    ("/swap/session-a/.swapfs-session", file_inode [] None);
    ("/swap/session-a/session.lock", file_inode [] None);
    ("/swap/session-a/1.tmp", file_inode [7; 7] None);
    ("/swap/session-b", dir_inode);
    ("/swap/session-b/.swapfs-session", file_inode [] None);
    ("/swap/session-b/session.lock", file_inode [] (Some 4));
    ("/swap/keep", dir_inode)])
  (<[3 := Ofd "/swap" 0]> (<[4 := Ofd "/swap/session-b/session.lock" 0]> ∅)) 5 0.

Definition cleaner_env : Env := quiet_env 4 3.

Lemma cleaner_world_wf : world_wf cleaner_world.
Proof. apply world_wfb_sound. vm_compute. reflexivity. Qed.
Lemma cleaner_world_tree : fs_tree (w_fs cleaner_world).
Proof. apply fs_treeb_sound. vm_compute. reflexivity. Qed.
Lemma quiet_no_faults cap fuel : @no_faults (quiet_env cap fuel).
Proof. by intros k n. Qed.

Lemma remove_session_tree_confined_witness :
  wp (@RemoveSessionTree cleaner_env "/swap/session-a" "/swap") (λ r w',
    (r ≠ SWAPFS_E_OK ∨ w_fs w' !! "/swap/session-a" = None) ∧
    w_fs w' !! "/swap/session-b" = Some dir_inode) cleaner_world.
Proof.
  eapply wp_mono; [|apply (@remove_session_tree_confined cleaner_env)].
  - intros r w' [[? (-> & _)]|(rr & rp & dir & name & k & k' & H1 & _ & _ & H4 & _ & _ & Hk & Hok)].
    + split; [by left|]. vm_compute. reflexivity.
    + injection H1 as <- <-. cbn in H4. injection H4 as <-. split.
      * destruct (decide (r = SWAPFS_E_OK)) as [E|E]; [right; apply (Hok E); by left|by left].
      * rewrite Hk; [vm_compute; reflexivity|]. intros Hu.
        assert ("session-a" = "session-b") as E; [|done].
        apply (at_or_under_sibling "/swap" _ _ "/swap/session-b"); [done|done|exact Hu|by left].
  - apply cleaner_world_wf.
  - apply cleaner_world_tree.
  - by intros n.
Defined.

(** Deleting a file fails here, so the removal does. *)
Definition marker_unlink_env : Env := {|
  env_fault := λ k n, match k with N_unlink => EIO | _ => 0 end;
  env_cap := λ _, 4%nat; env_euid := 1000; env_now := λ _, 0; env_rand := λ _, "";
  env_realpath := λ _ p, SOk p; env_system_app := λ _, true; env_sa := λ _, true;
  env_iface := λ _, true; env_free := λ _, SOk 0; env_fuel := 3 |}.

Definition session_world : world :=
  World (w_fs cleaner_world) (<[3 := Ofd "/swap/session-a" 0]> ∅) 5 0.

Lemma failed_removal_keeps_marker_witness :
  match @RemoveTreeContentsAt marker_unlink_env (@RemoveEntryAt marker_unlink_env CLEANUP_FUEL) 3 0
          session_world with
  | Some (b, w') => b = false ∧
      w_fs w' !! "/swap/session-a/.swapfs-session" = Some (file_inode [] None)
  | None => False
  end.
Proof.
  assert (world_wf session_world) as Hwf by (apply world_wfb_sound; vm_compute; reflexivity).
  assert (tree_ok "/swap/session-a" (w_fs session_world)) as Ht
    by (apply fs_tree_tree_ok, cleaner_world_tree).
  pose proof (@failed_removal_keeps_marker marker_unlink_env 3 "/swap/session-a" 0 session_world
    Hwf eq_refl Ht ltac:(by intros n)) as H.
  unfold wp in H. destruct (RemoveTreeContentsAt _ _ _ _) as [[b w']|] eqn:E;
    [|vm_compute in E; discriminate].
  assert (b = false) as -> by (vm_compute in E; congruence).
  split; [done|]. apply (H eq_refl); [vm_compute; reflexivity|done].
Defined.

Lemma cleanup_spares_live_sessions_witness :
  wp (@CleanupInactiveSessionsLocked cleaner_env 3) (λ _ w', w_fds w' = w_fds cleaner_world)
    cleaner_world ∧ ¬ stale (w_fs cleaner_world) "/swap" "session-b".
Proof.
  split.
  - eapply wp_mono; [|apply (@cleanup_spares_live_sessions cleaner_env 3 "/swap")].
    + by intros r w' [? _].
    + apply cleaner_world_wf.
    + reflexivity.
    + apply fs_tree_tree_ok, cleaner_world_tree.
    + by intros n.
  - intros (_ & _ & _ & Hl). by specialize (Hl (file_inode [] (Some 4)) eq_refl).
Defined.

Lemma session_a_depth : depth_ok (w_fs cleaner_world) "/swap/session-a" 0.
Proof.
  intros r Hr. assert (String.length r <= 15)%nat as Hl.
  { destruct Hr as [i Hi]. apply elem_of_map_to_list in Hi.
    assert (forallb (λ '(p, _), (String.length p <=? 31)%nat) (map_to_list (w_fs cleaner_world)) = true)
      as Hall by (vm_compute; reflexivity).
    rewrite forallb_forall in Hall. apply list_elem_of_In in Hi. specialize (Hall _ Hi).
    cbn beta iota in Hall. unfold child in Hall. rewrite length_append in Hall. cbn in Hall.
    apply Nat.leb_le in Hall. lia. }
  assert (nslash r <= String.length r)%nat as Hn.
  { clear. induction r as [|c r IH]; [done|]. cbn. destruct (Ascii.eqb c slash); lia. }
  unfold MAX_CLEANUP_DEPTH. lia.
Qed.

Lemma cleanup_removes_stale_sessions_witness :
  stale (w_fs cleaner_world) "/swap" "session-a" ∧
  wp (@CleanupInactiveSessionsLocked cleaner_env 3)
    (λ _ w', w_fs w' !! "/swap/session-a" = None) cleaner_world.
Proof.
  assert (stale (w_fs cleaner_world) "/swap" "session-a") as Hst.
  { split_and!; [reflexivity|vm_compute; reflexivity|left; split; [reflexivity|]|].
    - exists (file_inode [] None). split; vm_compute; reflexivity.
    - intros i. vm_compute. by intros [= <-]. }
  split; [exact Hst|].
  eapply wp_mono; [|apply (@cleanup_removes_stale_sessions cleaner_env 3 "/swap" "session-a")].
  - intros r w' H. apply (H "/swap/session-a"). by left.
  - apply cleaner_world_wf.
  - reflexivity.
  - apply fs_tree_tree_ok, cleaner_world_tree.
  - apply quiet_no_faults.
  - lia.
  - exact Hst.
  - apply session_a_depth.
  - intros i. vm_compute. by intros [= <-].
Defined.

Lemma cleaner_returns_witness :
  returns (@RemoveSessionTree cleaner_env "/swap/session-a" "/swap") cleaner_world.
Proof.
  apply (@cleaner_returns cleaner_env 0 3 "session-a" "/swap/session-a" "/swap" cleaner_world).
  - intros n. by exists 0%nat.
  - vm_compute. lia.
Defined.
