(* ===== verification/SwapfsUring.v ===== *)
(** * The io_uring read engine of swapfs

    Models [swapfs_uring_read_engine.cpp] with [SWAPFS_USE_LIBURING]: the pool of
    rings, the submission of one read, and the wait for its completion.

    liburing is not part of the repository: the class [Liburing] is its answers,
    one for every call, whatever they are.  Every call is logged; what the
    kernel owns is read off the log.  A wait on [poolCv_] that cannot proceed is
    a computation that does not return; the threads that share the pool are a
    step relation. *)

From S2P Require Import Prelude.
From S2P Require Import Posix.
From S2P Require Import SwapfsErr.
From S2P Require Import SwapfsIo.

Definition URING_QUEUE_DEPTH : Z := 64.
Definition URING_POOL_SIZE : nat := 4.

Record RingSlot := Slot { available : bool; inUse : bool }.

(** A completion: the user data and the result. *)
Record io_uring_cqe := Cqe { cqe_data64 : Z; cqe_res : Z }.

(** The calls into liburing; the number is the ring's slot. *)
Inductive uevent :=
  | L_queue_init (ring : nat) (ret : Z)
  | L_queue_exit (ring : nat)
  | L_get_sqe (ring : nat) (ok : bool)
  | L_prep_read (ring : nat) (fd size offset requestId : Z)
  | L_prep_cancel (ring : nat) (requestId cancelId : Z)
  | L_submit (ring : nat) (ret : Z)
  | L_wait_cqe (ring : nat) (ret : Z) (got : bool)
  | L_cqe_seen (ring : nat) (data64 : Z).

(** What liburing and the access-token service answer to call number [n]. *)
Class Liburing := {
  lu_permission : nat → bool;
  lu_queue_init : nat → Z;
  lu_get_sqe : nat → bool;
  lu_submit : nat → Z;
  lu_wait_cqe : nat → Z * option io_uring_cqe
}.

Record ustate := UState {
  slots_ : list RingSlot;
  initializeFlag_ : bool;
  nextRequestId_ : Z;
  shuttingDown_ : bool;
  us_world : world;
  us_log : list uevent
}.

Record WaitState := Wait { ws_error : Z; ws_rebuild : bool; ws_cancelAttempted : bool }.

Section uring.
Context {EN : Env} {LU : Liburing}.

Definition set_slots (l : list RingSlot) (s : ustate) : ustate :=
  UState l (initializeFlag_ s) (nextRequestId_ s) (shuttingDown_ s) (us_world s) (us_log s).
Definition log_event (e : uevent) (s : ustate) : ustate :=
  UState (slots_ s) (initializeFlag_ s) (nextRequestId_ s) (shuttingDown_ s) (us_world s)
    (us_log s ++ [e]).

(** A call of liburing: its answer, and its entry in the log. *)
Definition lib {A} (answer : nat → A) (event : A → uevent) : st ustate A := λ s,
  let a := answer (length (us_log s)) in Some (a, log_event (event a) s).

Definition lift {A} (m : io A) : st ustate A := λ s,
  match m (us_world s) with
  | Some (a, w) => Some (a, UState (slots_ s) (initializeFlag_ s) (nextRequestId_ s)
                              (shuttingDown_ s) w (us_log s))
  | None => None
  end.

(** ** [LibUringAdapter] *)
Definition QueueInit (ring : nat) : st ustate Z := lib lu_queue_init (L_queue_init ring).
Definition QueueExit (ring : nat) : st ustate unit := lib (λ _, tt) (λ _, L_queue_exit ring).
Definition GetSqe (ring : nat) : st ustate bool := lib lu_get_sqe (L_get_sqe ring).
Definition Submit (ring : nat) : st ustate Z := lib lu_submit (L_submit ring).
Definition Cancel (ring : nat) (requestId cancelId : Z) : st ustate Z :=
  sqe ← lib lu_get_sqe (L_get_sqe ring);
  if negb sqe then sret (- EAGAIN) else
  lib (λ _, tt) (λ _, L_prep_cancel ring requestId cancelId);;
  lib lu_submit (L_submit ring).
Definition WaitCqe (ring : nat) : st ustate (Z * option io_uring_cqe) :=
  lib lu_wait_cqe (λ a, L_wait_cqe ring a.1 (match a.2 with Some _ => true | None => false end)).
Definition CqeSeen (ring : nat) (cqe : io_uring_cqe) : st ustate unit :=
  lib (λ _, tt) (λ _, L_cqe_seen ring (cqe_data64 cqe)).

(** ** The pool *)
Definition HasAvailableRing (slots : list RingSlot) : bool := existsb available slots.
Definition free_slot (slot : RingSlot) : bool := available slot && negb (inUse slot).

Definition set_available (i : nat) (b : bool) (slots : list RingSlot) : list RingSlot :=
  alter (λ slot, Slot b (inUse slot)) i slots.
Definition set_inUse (i : nat) (b : bool) (slots : list RingSlot) : list RingSlot :=
  alter (λ slot, Slot (available slot) b) i slots.

(** The loop of [InitializePool] over the slots from [i] on. *)
Fixpoint InitializeSlots (n i : nat) : st ustate unit :=
  match n with
  | O => sret tt
  | S n' =>
      ret ← QueueInit i;
      (λ s, Some (tt, set_slots (set_available i (ret =? 0) (slots_ s)) s));;
      InitializeSlots n' (S i)
  end.

Definition InitializePool : st ustate unit := λ s,
  if lu_permission (length (us_log s)) then InitializeSlots URING_POOL_SIZE 0 s else Some (tt, s).

Definition set_initialized (s : ustate) : ustate :=
  UState (slots_ s) true (nextRequestId_ s) (shuttingDown_ s) (us_world s) (us_log s).

Definition IsAvailable : st ustate bool := λ s,
  match (if initializeFlag_ s then Some (tt, s)
         else match InitializePool s with
              | Some (_, s') => Some (tt, set_initialized s') | None => None end) with
  | Some (_, s') => Some (negb (shuttingDown_ s') && HasAvailableRing (slots_ s'), s')
  | None => None
  end.

(** The predicate [AcquireSlot] waits for, and what it does once it holds:
    [None] is the null pointer. *)
Definition acquire_ready (shuttingDown : bool) (slots : list RingSlot) : bool :=
  shuttingDown || negb (HasAvailableRing slots) || existsb free_slot slots.

Definition acquire_slot (shuttingDown : bool) (slots : list RingSlot) :
    option nat * list RingSlot :=
  if shuttingDown || negb (HasAvailableRing slots) then (None, slots)
  else match list_find (λ slot, free_slot slot = true) slots with
       | Some (i, _) => (Some i, set_inUse i true slots)
       | None => (None, slots)  (* excluded by [acquire_ready] *)
       end.

Definition AcquireSlot : st ustate (option nat) := λ s,
  if acquire_ready (shuttingDown_ s) (slots_ s) then
    let '(r, slots) := acquire_slot (shuttingDown_ s) (slots_ s) in Some (r, set_slots slots s)
  else None.

Definition ReleaseSlot (slot : nat) : st ustate unit := λ s,
  Some (tt, set_slots (set_inUse slot false (slots_ s)) s).

Definition RebuildSlot (slot : nat) : st ustate unit :=
  QueueExit slot;;
  ret ← QueueInit slot;
  (λ s, Some (tt, set_slots (set_available slot (ret =? 0) (slots_ s)) s)).

(** [nextRequestId_.fetch_add(1)] *)
Definition NextRequestId : st ustate Z := λ s,
  Some (nextRequestId_ s,
        UState (slots_ s) (initializeFlag_ s) (nextRequestId_ s +₆₄ 1) (shuttingDown_ s)
          (us_world s) (us_log s)).

(** ** One read *)
Fixpoint Submit_loop (fuel : nat) (slot : nat) : st ustate Z :=
  match fuel with
  | O => λ _, None
  | S fuel' => ret ← Submit slot; if ret =? - EINTR then Submit_loop fuel' slot else sret ret
  end.

Fixpoint Cancel_loop (fuel : nat) (slot : nat) (requestId cancelId : Z) : st ustate Z :=
  match fuel with
  | O => λ _, None
  | S fuel' =>
      ret ← Cancel slot requestId cancelId;
      if ret =? - EINTR then Cancel_loop fuel' slot requestId cancelId else sret ret
  end.

Definition HandleWaitFailure (slot : nat) (requestId waitRet : Z) (state : WaitState) :
    st ustate WaitState :=
  let error := if ws_error state =? SWAPFS_E_OK
               then (if waitRet <? 0 then MapErrno (- waitRet) IO_OPERATION else SWAPFS_E_IO_ERROR)
               else ws_error state in
  if ws_cancelAttempted state then sret (Wait error true true) else
  cancelId ← NextRequestId;
  Cancel_loop env_fuel slot requestId cancelId;;
  sret (Wait error true true).

(** The code and the result of the request's completion. *)
Fixpoint WaitForCompletion (fuel : nat) (slot : nat) (requestId size : Z) (state : WaitState) :
    st ustate (Z * Z) :=
  match fuel with
  | O => λ _, None
  | S fuel' =>
      '(waitRet, cqe) ← WaitCqe slot;
      if waitRet =? - EINTR then WaitForCompletion fuel' slot requestId size state else
      match (if waitRet <? 0 then None else cqe) with
      | None =>
          state ← HandleWaitFailure slot requestId waitRet state;
          WaitForCompletion fuel' slot requestId size state
      | Some cqe =>
          CqeSeen slot cqe;;
          if negb (cqe_data64 cqe =? requestId)
          then WaitForCompletion fuel' slot requestId size
                 (Wait SWAPFS_E_IO_ERROR true (ws_cancelAttempted state))
          else
            (if ws_rebuild state then RebuildSlot slot else sret tt);;
            if negb (ws_error state =? SWAPFS_E_OK) then sret (ws_error state, cqe_res cqe)
            else if cqe_res cqe <? 0 then sret (MapErrno (- cqe_res cqe) IO_OPERATION, cqe_res cqe)
            else sret (if cqe_res cqe =? size then SWAPFS_E_OK else SWAPFS_E_IO_ERROR, cqe_res cqe)
      end
  end.

Definition SubmitRead (slot : nat) (fd size offset : Z) : st ustate (Z * Z) :=
  requestId ← NextRequestId;
  sqe ← GetSqe slot;
  if negb sqe then RebuildSlot slot;; sret (SWAPFS_E_IO_ERROR, 0) else
  lib (λ _, tt) (λ _, L_prep_read slot fd size offset requestId);;
  submitRet ← Submit_loop env_fuel slot;
  if submitRet <=? 0 then
    RebuildSlot slot;;
    sret (if submitRet <? 0 then MapErrno (- submitRet) IO_OPERATION else SWAPFS_E_IO_ERROR, 0)
  else
    WaitForCompletion env_fuel slot requestId size
      (Wait (if submitRet =? 1 then SWAPFS_E_OK else SWAPFS_E_IO_ERROR) (negb (submitRet =? 1))
            false).

(** What a completed read of result [res] moved into the buffer: [res] bytes of
    the file at [offset], as documented for [io_uring_prep_read]. *)
Definition kernel_data (w : world) (fd offset res : Z) : list Z :=
  match w_fds w !! fd with
  | Some o => match w_fs w !! fd_path o with
              | Some i => take (Z.to_nat res) (drop (Z.to_nat offset) (i_data i)) | None => [] end
  | None => []
  end.

(** The code, and the bytes moved into the buffer when it is OK. *)
Definition Read (path : string) (addr size offset : Z) : st ustate (Z * list Z) :=
  available ← IsAvailable;
  if negb available then sret (SWAPFS_E_FEATURE_DISABLED, []) else
  if negb (IsDioAligned addr size) then sret (SWAPFS_E_DIO_ALIGN, []) else
  slot ← AcquireSlot;
  match slot with
  | None => sret (SWAPFS_E_FEATURE_DISABLED, [])
  | Some slot =>
      fd ← lift (OpenSwapFileForRead path [O_DIRECT]);
      match fd with
      | SErr e => ReleaseSlot slot;; sret (MapErrno e IO_OPERATION, [])
      | SOk fd =>
          '(ret, res) ← SubmitRead slot fd size offset;
          data ← (λ s, Some (if ret =? SWAPFS_E_OK then kernel_data (us_world s) fd offset res
                             else [], s));
          lift (sys_close fd);;
          ReleaseSlot slot;;
          sret (ret, data)
      end
  end.
End uring.

(** ** What the kernel owns, read off the log *)

(** For the read request [id]: its entry is prepared and not submitted; the
    kernel owns it and its buffer; no ring was torn down while the kernel owned
    it; the ring has misbehaved since it was last set up; it ever did. *)
Record kstate := K {
  k_prep : bool; k_owned : bool; k_safe : bool; k_dirty : bool; k_anom : bool
}.

Definition spoil (b : bool) (k : kstate) : kstate :=
  K (k_prep k) (k_owned k) (k_safe k) (k_dirty k || b) (k_anom k || b).

Definition kstep (id : Z) (k : kstate) (e : uevent) : kstate :=
  match e with
  | L_prep_read _ _ _ _ i =>
      if i =? id then K true (k_owned k) (k_safe k) (k_dirty k) (k_anom k) else k
  | L_submit _ ret =>
      let k := spoil (negb (ret =? - EINTR) && negb (ret =? 1)) k in
      if (0 <? ret) && k_prep k then K false true (k_safe k) (k_dirty k) (k_anom k) else k
  | L_cqe_seen _ d =>
      if d =? id then K (k_prep k) false (k_safe k) (k_dirty k) (k_anom k) else spoil true k
  | L_queue_exit _ => K false (k_owned k) (k_safe k && negb (k_owned k)) false (k_anom k)
  | L_get_sqe _ ok => spoil (negb ok) k
  | L_prep_cancel _ _ _ => spoil true k
  | L_wait_cqe _ ret got => spoil (negb (ret =? - EINTR) && ((ret <? 0) || negb got)) k
  | L_queue_init _ _ => k
  end.

Definition kernel (id : Z) (evs : list uevent) (k : kstate) : kstate := fold_left (kstep id) evs k.
Definition k_idle : kstate := K false false true false false.

Section uring_spec.
Context {EN : Env} {LU : Liburing}.
Context (id : Z).
Implicit Types (s : ustate).

(** From [s] to [s'] the kernel's view of the request went from [k] to [k'];
    files, flags and the ownership of slots are as before. *)
Definition via (k : kstate) (s : ustate) (k' : kstate) (s' : ustate) : Prop :=
  (∃ evs, us_log s' = us_log s ++ evs ∧ kernel id evs k = k') ∧
  us_world s' = us_world s ∧ shuttingDown_ s' = shuttingDown_ s ∧
  initializeFlag_ s' = initializeFlag_ s ∧ inUse <$> slots_ s' = inUse <$> slots_ s.

Lemma via_refl k s : via k s k s.
Proof. split; [|done]. exists []. by rewrite app_nil_r. Qed.
Lemma via_trans k1 s1 k2 s2 k3 s3 : via k1 s1 k2 s2 → via k2 s2 k3 s3 → via k1 s1 k3 s3.
Proof.
  intros ((e1 & H1 & H1') & H2 & H3 & H4 & H5) ((e2 & G1 & G1') & G2 & G3 & G4 & G5).
  split; [|by repeat split; congruence]. exists (e1 ++ e2). split.
  - by rewrite G1, H1, app_assoc.
  - unfold kernel in *. by rewrite fold_left_app, H1'.
Qed.

Lemma wp_lib {A} (answer : nat → A) event Q s :
  (∀ k, via k s (kstep id k (event (answer (length (us_log s)))))
         (log_event (event (answer (length (us_log s)))) s)) →
  Q (answer (length (us_log s))) (log_event (event (answer (length (us_log s)))) s) →
  wp (lib answer event) Q s.
Proof. done. Qed.
Lemma via_event e s k : via k s (kstep id k e) (log_event e s).
Proof. split; [|done]. by exists [e]. Qed.
Lemma via_slots f s k :
  inUse <$> f (slots_ s) = inUse <$> slots_ s → via k s k (set_slots (f (slots_ s)) s).
Proof. intros H. split; [|done]. exists []. by rewrite app_nil_r. Qed.
Lemma via_next k s : via k s k (UState (slots_ s) (initializeFlag_ s) (nextRequestId_ s +₆₄ 1)
  (shuttingDown_ s) (us_world s) (us_log s)).
Proof. split; [|done]. exists []. by rewrite app_nil_r. Qed.

Lemma set_available_inUse i b l : inUse <$> set_available i b l = inUse <$> l.
Proof.
  unfold set_available. revert i. induction l as [|x l IH]; intros [|i]; cbn; [done..|].
  f_equal. apply IH.
Qed.

(** Tearing down an unowned ring is safe and cleans it. *)
Lemma RebuildSlot_spec slot s k :
  wp (RebuildSlot slot) (λ _ s',
    via k s (K false (k_owned k) (k_safe k && negb (k_owned k)) false (k_anom k)) s') s.
Proof.
  unfold RebuildSlot, QueueExit, QueueInit.
  apply wp_bind. unfold wp at 1, lib. apply wp_bind. unfold wp at 1, lib. unfold wp.
  set (s1 := log_event _ s). set (s2 := log_event _ s1).
  eapply via_trans; [apply (via_event (L_queue_exit slot))|].
  eapply via_trans; [apply (via_event (L_queue_init slot (lu_queue_init (length (us_log s1)))) s1)|].
  apply (via_slots (set_available slot (lu_queue_init (length (us_log s1)) =? 0)) s2).
  apply set_available_inUse.
Qed.

(** What a wait for the request keeps: the kernel owns it, nothing was torn
    down, and a ring that misbehaved is marked for rebuilding, with an error. *)
Definition waiting (k : kstate) (state : WaitState) : Prop :=
  k_prep k = false ∧ k_owned k = true ∧ k_safe k = true ∧
  (k_dirty k = true → ws_rebuild state = true) ∧
  (k_anom k = true → ws_error state ≠ SWAPFS_E_OK).

Lemma waiting_spoil k state b :
  waiting k state → (b = true → ws_rebuild state = true ∧ ws_error state ≠ SWAPFS_E_OK) →
  waiting (spoil b k) state.
Proof.
  intros (H1 & H2 & H3 & H4 & H5) Hb. split_and!; try done; cbn; destruct b; rewrite ?orb_false_r;
    auto; intros _; by apply Hb.
Qed.

Lemma Cancel_spec slot requestId cancelId s k state :
  waiting k state → ws_rebuild state = true → ws_error state ≠ SWAPFS_E_OK →
  wp (Cancel slot requestId cancelId) (λ _ s', ∃ k', via k s k' s' ∧ waiting k' state) s.
Proof.
  intros Hk Hr He. unfold Cancel. apply wp_bind. unfold wp at 1, lib.
  set (e1 := L_get_sqe _ _). pose proof (via_event e1 s k) as V1.
  assert (waiting (kstep id k e1) state) as W1 by (by apply waiting_spoil).
  destruct (negb _); [apply wp_ret; eauto|].
  apply wp_bind. unfold wp at 1, lib. set (e2 := L_prep_cancel _ _ _). set (s1 := log_event e1 s) in *.
  pose proof (via_event e2 s1 (kstep id k e1)) as V2.
  assert (waiting (kstep id (kstep id k e1) e2) state) as W2 by (by apply waiting_spoil).
  unfold wp. set (s2 := log_event e2 s1) in *. set (e3 := L_submit _ _).
  exists (kstep id (kstep id (kstep id k e1) e2) e3). split.
  - eapply via_trans; [exact V1|]. eapply via_trans; [exact V2|]. apply via_event.
  - generalize dependent (kstep id (kstep id k e1) e2). intros k2 _ W2. cbn.
    pose proof W2 as (-> & _). rewrite andb_false_r. by apply waiting_spoil.
Qed.

Lemma Cancel_loop_spec fuel slot requestId cancelId s k state :
  waiting k state → ws_rebuild state = true → ws_error state ≠ SWAPFS_E_OK →
  wp (Cancel_loop fuel slot requestId cancelId) (λ _ s', ∃ k', via k s k' s' ∧ waiting k' state) s.
Proof.
  intros Hk Hr He. revert s k Hk. induction fuel as [|fuel IH]; intros s k Hk; [done|].
  cbn [Cancel_loop]. apply wp_bind. eapply wp_mono; [|by apply Cancel_spec].
  intros ret s1 (k1 & V1 & W1). destruct (ret =? - EINTR); [|apply wp_ret; eauto].
  eapply wp_mono; [|by apply (IH s1 k1)]. intros r s2 (k2 & V2 & W2).
  exists k2. split; [by eapply via_trans|done].
Qed.

Lemma HandleWaitFailure_spec slot requestId waitRet state s k :
  k_prep k = false → k_owned k = true → k_safe k = true →
  wp (HandleWaitFailure slot requestId waitRet state) (λ state' s', ∃ k', via k s k' s' ∧
    waiting k' state' ∧ ws_rebuild state' = true) s.
Proof.
  intros H1 H2 H3. unfold HandleWaitFailure.
  set (error := if ws_error state =? SWAPFS_E_OK then _ else _).
  assert (error ≠ SWAPFS_E_OK) as He.
  { unfold error. destruct (ws_error state =? SWAPFS_E_OK) eqn:E; zbool; [|done].
    destruct (waitRet <? 0); [apply MapErrno_not_ok|done]. }
  assert (waiting k (Wait error true true)) as Hw by (split_and!; done).
  destruct (ws_cancelAttempted state).
  { apply wp_ret. exists k. split; [apply via_refl|done]. }
  apply wp_bind. unfold wp at 1, NextRequestId. set (s1 := UState _ _ _ _ _ _).
  apply wp_bind. eapply wp_mono; [|by apply (Cancel_loop_spec env_fuel slot requestId _ s1 k)].
  intros ret s2 (k2 & V2 & W2). apply wp_ret. exists k2. split; [|done].
  eapply via_trans; [apply (via_next k s)|done].
Qed.

Definition released (k : kstate) : Prop :=
  k_owned k = false ∧ k_safe k = true ∧ k_dirty k = false.

Lemma WaitForCompletion_spec fuel slot size state s k :
  waiting k state →
  wp (WaitForCompletion fuel slot id size state) (λ r s', ∃ k', via k s k' s' ∧ released k' ∧
    (r.1 = SWAPFS_E_OK → k_anom k' = false ∧ r.2 = size)) s.
Proof.
  revert state s k. induction fuel as [|fuel IH]; intros state s k Hk; [done|].
  cbn [WaitForCompletion]. apply wp_bind. unfold wp at 1, WaitCqe, lib.
  set (a := lu_wait_cqe _). set (e := L_wait_cqe _ _ _).
  set (s1 := log_event e s). pose proof (via_event e s k) as V1. fold s1 in V1.
  assert (Hloop : ∀ state' s' k', via k s k' s' → waiting k' state' →
    wp (WaitForCompletion fuel slot id size state') (λ r s', ∃ k', via k s k' s' ∧ released k' ∧
      (r.1 = SWAPFS_E_OK → k_anom k' = false ∧ r.2 = size)) s').
  { intros state' s' k' V W. eapply wp_mono; [|by apply (IH state' s' k')].
    intros r s'' (k'' & V' & Hr). exists k''. split; [by eapply via_trans|done]. }
  destruct a as [waitRet cqe] eqn:Ea. subst a. cbn [fst snd] in *.
  destruct (waitRet =? - EINTR) eqn:Eintr.
  { eapply Hloop; [exact V1|]. unfold e. cbn. rewrite Eintr. cbn.
    by apply waiting_spoil. }
  destruct (if waitRet <? 0 then None else cqe) as [c|] eqn:Ec.
  2: { apply wp_bind. pose proof Hk as (H1 & H2 & H3 & _).
       eapply wp_mono; [|apply (HandleWaitFailure_spec slot id waitRet state s1 (kstep id k e))]; try done.
       intros state' s2 (k2 & V2 & W2 & _). eapply Hloop; [|exact W2]. by eapply via_trans. }
  destruct (waitRet <? 0) eqn:Elt; [done|]. subst cqe.
  assert (waiting (kstep id k e) state) as W1.
  { unfold e. cbn. rewrite Eintr, Elt. cbn. by apply waiting_spoil. }
  generalize dependent (kstep id k e). intros k1 V1 W1.
  apply wp_bind. unfold wp at 1, CqeSeen, lib. set (e2 := L_cqe_seen _ _).
  pose proof (via_event e2 s1 k1) as V2. set (s2 := log_event e2 s1) in *.
  pose proof (via_trans _ _ _ _ _ _ V1 V2) as V3. cbn [kstep e2] in V3. unfold e2 in V3. cbn in V3.
  destruct (cqe_data64 c =? id) eqn:Eid; cbn [negb].
  2: { eapply Hloop; [exact V3|]. destruct W1 as (H1 & H2 & H3 & _). by split_and!. }
  destruct W1 as (H1 & H2 & H3 & H4 & H5).
  assert (Hfin : ∀ s3 k3, via k s k3 s3 → released k3 → k_anom k3 = k_anom k1 →
    wp (if negb (ws_error state =? SWAPFS_E_OK) then sret (ws_error state, cqe_res c)
        else if cqe_res c <? 0 then sret (MapErrno (- cqe_res c) IO_OPERATION, cqe_res c)
        else sret (if cqe_res c =? size then SWAPFS_E_OK else SWAPFS_E_IO_ERROR, cqe_res c))
      (λ r s', ∃ k', via k s k' s' ∧ released k' ∧
        (r.1 = SWAPFS_E_OK → k_anom k' = false ∧ r.2 = size)) s3).
  { intros s3 k3 V R Ha. destruct (ws_error state =? SWAPFS_E_OK) eqn:Ee; zbool; cbn [negb].
    - destruct (cqe_res c <? 0); apply wp_ret; exists k3; (split; [done|]); (split; [done|]); cbn.
      + by intros ?%MapErrno_not_ok.
      + destruct (cqe_res c =? size) eqn:Es; zbool; [|done]. intros _. split; [|done].
        rewrite Ha. destruct (k_anom k1); [by destruct H5|done].
    - apply wp_ret. exists k3. split_and!; done. }
  apply wp_bind. destruct (ws_rebuild state) eqn:Erb.
  - eapply wp_mono; [|apply (RebuildSlot_spec slot s2 (K (k_prep k1) false (k_safe k1) (k_dirty k1) (k_anom k1)))].
    intros [] s3 V4. eapply Hfin; [by eapply via_trans|split_and!; cbn; by rewrite ?H3|done].
  - apply wp_ret. eapply Hfin; [exact V3| |done]. split_and!; cbn; try done.
    destruct (k_dirty k1); [|done]. specialize (H4 eq_refl). congruence.
Qed.

Lemma Submit_loop_spec fuel slot s p d a :
  wp (Submit_loop fuel slot) (λ ret s', ∃ k',
    via (K p false true d a) s k' s' ∧
    k' = K (if 0 <? ret then false else p) (if 0 <? ret then p else false) true
           (d || negb (ret =? 1)) (a || negb (ret =? 1))) s.
Proof.
  revert s. induction fuel as [|fuel IH]; intros s; [done|]. cbn [Submit_loop].
  apply wp_bind. unfold wp at 1, Submit, lib. set (ret := lu_submit _).
  pose proof (via_event (L_submit slot ret) s (K p false true d a)) as V.
  set (s1 := log_event _ s) in *. cbn in V. destruct (ret =? - EINTR) eqn:E; cbn in V; unfold spoil in V; cbn in V.
  - zbool. replace (0 <? ret) with false in V by (rewrite E; done). cbn in V.
    rewrite !orb_false_r in V. eapply wp_mono; [|apply IH].
    intros r s2 (k2 & V2 & ->). eexists. split; [by eapply via_trans|done].
  - apply wp_ret. eexists. split; [exact V|]. cbn. destruct (0 <? ret), p; done.
Qed.

Lemma SubmitRead_spec slot fd size offset s :
  id = nextRequestId_ s →
  wp (SubmitRead slot fd size offset) (λ r s', ∃ k', via k_idle s k' s' ∧ released k' ∧
    (r.1 = SWAPFS_E_OK → k_anom k' = false ∧ r.2 = size)) s.
Proof.
  intros Hid. unfold SubmitRead. apply wp_bind. unfold wp at 1, NextRequestId.
  pose proof (via_next k_idle s) as V0. set (s0 := UState _ _ _ _ _ _) in *. rewrite <-Hid.
  apply wp_bind. unfold wp at 1, GetSqe, lib. set (ok := lu_get_sqe _).
  pose proof (via_trans _ _ _ _ _ _ V0 (via_event (L_get_sqe slot ok) s0 _)) as V1. clear V0.
  set (s1 := log_event _ s0) in *.
  assert (Hfail : ∀ s' k e r, via k_idle s k s' → k_owned k = false → k_safe k = true →
    e ≠ SWAPFS_E_OK →
    wp (RebuildSlot slot;; sret (e, r)) (λ r s', ∃ k', via k_idle s k' s' ∧ released k' ∧
      (r.1 = SWAPFS_E_OK → k_anom k' = false ∧ r.2 = size)) s').
  { intros s' k e r V H1 H2 He. apply wp_bind. eapply wp_mono; [|apply (RebuildSlot_spec slot s' k)].
    intros [] s2 V2. apply wp_ret. eexists. split; [by eapply via_trans|].
    split_and!; cbn; try done. by rewrite H1, H2. }
  destruct ok; cbn [negb] in *; [|by eapply Hfail; [exact V1|..]].
  apply wp_bind. unfold wp at 1, lib.
  pose proof (via_trans _ _ _ _ _ _ V1 (via_event (L_prep_read slot fd size offset id) s1 _)) as V2.
  clear V1. set (s2 := log_event _ s1) in *. cbn in V2. rewrite Z.eqb_refl in V2.
  apply wp_bind. eapply wp_mono; [|apply (Submit_loop_spec env_fuel slot s2 true false false)].
  intros ret s3 (k3 & V3 & ->). pose proof (via_trans _ _ _ _ _ _ V2 V3) as V. clear V2 V3.
  destruct (ret <=? 0) eqn:E; zbool.
  - replace (0 <? ret) with false in V by lia. eapply Hfail; [exact V|done|done|].
    destruct (ret <? 0); [apply MapErrno_not_ok|done].
  - replace (0 <? ret) with true in V by lia.
    eapply wp_mono; [|eapply WaitForCompletion_spec].
    + intros r s4 (k4 & V4 & H). exists k4. split; [by eapply via_trans|done].
    + split_and!; cbn; try done. destruct (ret =? 1); done.
Qed.

Lemma set_inUse_fmap i b l : inUse <$> set_inUse i b l = alter (λ _, b) i (inUse <$> l).
Proof.
  unfold set_inUse. revert i. induction l as [|x l IH]; intros [|i]; cbn; [done..|].
  f_equal. apply IH.
Qed.

(** What a whole read does to the engine. *)
Definition read_frame (path : string) (s s' : ustate) (k : kstate) : Prop :=
  (∃ evs, us_log s' = us_log s ++ evs ∧ kernel id evs k_idle = k) ∧ released k ∧
  inUse <$> slots_ s' = inUse <$> slots_ s ∧ io_frame path (us_world s) (us_world s').

Lemma InitializeSlots_spec n i s k :
  wp (InitializeSlots n i) (λ _ s', via k s k s' ∧ nextRequestId_ s' = nextRequestId_ s) s.
Proof.
  revert i s. induction n as [|n IH]; intros i s; [split; [apply via_refl|done]|].
  cbn [InitializeSlots]. apply wp_bind. unfold wp at 1, QueueInit, lib.
  pose proof (via_event (L_queue_init i (lu_queue_init (length (us_log s)))) s k) as V1.
  set (s1 := log_event _ s) in *. apply wp_bind. unfold wp at 1.
  pose proof (via_slots (set_available i (lu_queue_init (length (us_log s)) =? 0)) s1 k
    (set_available_inUse _ _ _)) as V2.
  eapply wp_mono; [|apply IH]. intros [] s' [V3 Hn]. split; [|done].
  eapply via_trans; [exact V1|]. by eapply via_trans.
Qed.

Lemma IsAvailable_spec s :
  wp IsAvailable (λ _ s', (∃ evs, us_log s' = us_log s ++ evs ∧ kernel id evs k_idle = k_idle) ∧
    us_world s' = us_world s ∧ nextRequestId_ s' = nextRequestId_ s ∧
    inUse <$> slots_ s' = inUse <$> slots_ s) s.
Proof.
  assert (Hself : ∃ evs, us_log s = us_log s ++ evs ∧ kernel id evs k_idle = k_idle).
  { exists []. by rewrite app_nil_r. }
  unfold wp, IsAvailable. destruct (initializeFlag_ s); [done|].
  unfold InitializePool. destruct (lu_permission _); [|done].
  pose proof (InitializeSlots_spec URING_POOL_SIZE 0 s k_idle) as H. unfold wp in H.
  destruct (InitializeSlots URING_POOL_SIZE 0 s) as [[[] s']|]; [|done].
  destruct H as [(Hl & Hw & _ & _ & Hs) Hn]. done.
Qed.

Lemma acquire_slot_Some sd l i l' :
  acquire_slot sd l = (Some i, l') →
  sd = false ∧ l' = set_inUse i true l ∧ ∃ sl, l !! i = Some sl ∧ free_slot sl = true.
Proof.
  unfold acquire_slot. destruct (sd || _) eqn:E; [done|]. apply orb_false_elim in E as [-> _].
  destruct (list_find _ l) as [[j sl]|] eqn:F; [|done]. intros [= -> <-].
  apply list_find_Some in F as (? & ? & _). eauto.
Qed.
Lemma acquire_slot_None sd l l' : acquire_slot sd l = (None, l') → l' = l.
Proof.
  unfold acquire_slot. destruct (sd || _); [by intros [= <-]|].
  destruct (list_find _ l) as [[j sl]|]; [done|by intros [= <-]].
Qed.

(** Acquiring, keeping and releasing a slot leaves the flags as they were. *)
Lemma inUse_bracket l l2 i sl :
  l !! i = Some sl → free_slot sl = true → inUse <$> l2 = inUse <$> set_inUse i true l →
  inUse <$> set_inUse i false l2 = inUse <$> l.
Proof.
  intros Hi Hf H. rewrite set_inUse_fmap, H, set_inUse_fmap.
  unfold free_slot in Hf. apply andb_prop in Hf as [_ Hf%negb_true_iff]. clear H.
  revert i Hi. induction l as [|x l IH]; intros [|i] Hi; cbn in *; simplify_eq; [|f_equal; by apply IH].
  by rewrite Hf.
Qed.

Lemma open_read_spec path extra w :
  world_wf w → (∀ f, f ∈ extra → f = O_DIRECT) →
  wp (OpenSwapFileForRead path extra) (λ r w',
    match r with
    | SErr _ => same_files w w'
    | SOk fd => fd = w_nextfd w ∧ ∃ i, w_fs w !! path = Some i ∧ opened w path
        ([O_RDONLY; O_CLOEXEC; O_NOFOLLOW] ++ extra) i ∧
        w' = World (w_fs w) (<[fd := Ofd path 0]> (w_fds w)) (w_nextfd w + 1) (S (w_clk w))
    end) w.
Proof.
  intros Hwf Hex. apply wp_open; [done|]. intros i Ho. split; [done|].
  assert (∀ f, f ∈ [O_RDONLY; O_CLOEXEC; O_NOFOLLOW] ++ extra →
    f = O_RDONLY ∨ f = O_CLOEXEC ∨ f = O_NOFOLLOW ∨ f = O_DIRECT) as Hfl.
  { intros f [Hf|Hf]%elem_of_app; [set_solver|]. apply Hex in Hf. auto. }
  assert (w_fs w !! path = Some i) as Hi.
  { pose proof Ho as Ho'. unfold opened in Ho'. destruct (w_fs w !! path) as [i0|].
    - f_equal. destruct Ho' as (Ht & Hu & Hm & Hl & [(_ & _ & Hd)|(_ & -> & _)]); [|done].
      rewrite bool_decide_false in Hd by (intros Hf%Hfl; naive_solver).
      destruct i, i0; cbn in *; congruence.
    - destruct Ho' as [Hf%Hfl _]. naive_solver. }
  exists i. split; [done|]. split; [done|]. by rewrite (insert_id _ _ _ Hi).
Qed.
End uring_spec.

Section uring_read.
Context {EN : Env} {LU : Liburing}.
Implicit Types (s : ustate).

(** What a read does, all paths. *)
Definition read_post (path : string) (size offset : Z) (s : ustate) (r : Z * list Z) (s' : ustate) :
    Prop :=
  (∃ evs k, us_log s' = us_log s ++ evs ∧ kernel (nextRequestId_ s) evs k_idle = k ∧ released k ∧
     (r.1 = SWAPFS_E_OK → k_anom k = false)) ∧
  inUse <$> slots_ s' = inUse <$> slots_ s ∧ io_frame path (us_world s) (us_world s') ∧
  (∀ i, w_fs (us_world s) !! path = Some i → w_fs (us_world s') !! path = Some i) ∧
  (r.1 = SWAPFS_E_OK → ∃ i, w_fs (us_world s) !! path = Some i ∧
     r.2 = take (Z.to_nat size) (drop (Z.to_nat offset) (i_data i))).

Lemma read_post_none path size offset s s' e d :
  world_wf (us_world s) → e ≠ SWAPFS_E_OK →
  (∃ evs, us_log s' = us_log s ++ evs ∧ kernel (nextRequestId_ s) evs k_idle = k_idle) →
  same_files (us_world s) (us_world s') → inUse <$> slots_ s' = inUse <$> slots_ s →
  read_post path size offset s (e, d) s'.
Proof.
  intros Hwf He (evs & Hl & Hk) (H1 & H2 & H3) Hs. split; [by exists evs, k_idle|].
  unfold io_frame, world_wf. rewrite H1, H2, H3. by split_and!; try apply Hwf.
Qed.

Lemma Read_spec path addr size offset s :
  world_wf (us_world s) → wp (Read path addr size offset) (read_post path size offset s) s.
Proof.
  intros Hwf. unfold Read. apply wp_bind.
  eapply wp_mono; [|apply (IsAvailable_spec (nextRequestId_ s))].
  intros av s1 (Hl1 & Hw1 & Hn1 & Hs1).
  destruct av; cbn [negb]; [|by apply wp_ret, read_post_none; try rewrite Hw1].
  destruct (IsDioAligned addr size); cbn [negb]; [|by apply wp_ret, read_post_none; try rewrite Hw1].
  apply wp_bind. unfold AcquireSlot, wp at 1. destruct (acquire_ready _ _); [|done].
  destruct (acquire_slot (shuttingDown_ s1) (slots_ s1)) as [[slot|] l] eqn:Hacq.
  2: { apply acquire_slot_None in Hacq as ->.
       by apply wp_ret, read_post_none; cbn; try rewrite Hw1. }
  apply acquire_slot_Some in Hacq as (_ & -> & sl & Hsl & Hfree).
  set (s2 := set_slots _ s1). apply wp_bind. unfold lift, wp at 1. cbn [us_world set_slots s2].
  assert (world_wf (us_world s1)) as Hwf1 by (by rewrite Hw1).
  pose proof (open_read_spec path [O_DIRECT] (us_world s1) Hwf1 ltac:(set_solver)) as Ho.
  unfold wp in Ho. destruct (OpenSwapFileForRead path [O_DIRECT] (us_world s1)) as [[[e|fd] w2]|];
    [| |done]; cbn [slots_ set_slots s2 initializeFlag_ nextRequestId_ shuttingDown_ us_log].
  { apply wp_bind. unfold wp at 1, ReleaseSlot. apply wp_ret, read_post_none; cbn; try done.
    - apply MapErrno_not_ok.
    - by rewrite <-Hw1.
    - rewrite <-Hs1. by eapply inUse_bracket. }
  destruct Ho as (-> & i & Hi & Hop & ->). set (s3 := UState _ _ _ _ _ _).
  apply wp_bind. eapply wp_mono; [|by apply (SubmitRead_spec (nextRequestId_ s) slot _ size offset s3)].
  intros [ret res] s4 (k & ((evs & Hl4 & Hk) & Hw4 & _ & _ & Hs4) & Hrel & Hok). cbn [fst snd] in *.
  apply wp_bind. unfold wp at 1. apply wp_bind. unfold lift, wp at 1, sys_close.
  apply wp_bind. unfold wp at 1, ReleaseSlot. apply wp_ret.
  destruct (io_frame_close path _ i (i_data i) (us_world s1) (us_world s4) 0 Hwf1 Hop) as [Hu Hfr].
  { by rewrite Hw4. } { by rewrite Hw4. }
  { rewrite Hw4. cbn. rewrite insert_id; [done|]. rewrite Hi. by destruct i. }
  rewrite Hu in *. split; [|split; [|split; [|split]]]; cbn.
  - destruct Hl1 as (evs1 & Hl1 & Hk1). exists (evs1 ++ evs), k. split_and!.
    + rewrite Hl4. cbn. by rewrite Hl1, app_assoc.
    + unfold kernel in *. by rewrite fold_left_app, Hk1.
    + done.
    + intros E. by apply Hok.
  - rewrite <-Hs1. by eapply inUse_bracket.
  - by rewrite <-Hw1.
  - rewrite Hw4, <-Hw1. done.
  - intros ->. destruct (Hok eq_refl) as [_ ->]. exists i. rewrite <-Hw1. split; [done|]. cbn.
    unfold kernel_data. rewrite Hw4. cbn. rewrite lookup_insert_eq. cbn. by rewrite Hi.
Qed.
End uring_read.

(** ** The pool under its threads

    [p_hold] is the slot each reading thread has; the parts under [poolMutex_]
    are atomic. *)
Record pool := Pool { p_slots : list RingSlot; p_shut : bool; p_hold : gmap nat nat }.

(** The destructor's wait for the readers. *)
Definition destroy_ready (slots : list RingSlot) : bool := forallb (λ slot, negb (inUse slot)) slots.

Inductive pool_step : pool → pool → Prop :=
  | pool_acquire t i slots slots' hold :
      hold !! t = None → acquire_ready false slots = true →
      acquire_slot false slots = (Some i, slots') →
      pool_step (Pool slots false hold) (Pool slots' false (<[t := i]> hold))
  | pool_rebuild t i b slots sd hold :
      hold !! t = Some i →
      pool_step (Pool slots sd hold) (Pool (set_available i b slots) sd hold)
  | pool_release t i slots sd hold :
      hold !! t = Some i →
      pool_step (Pool slots sd hold) (Pool (set_inUse i false slots) sd (delete t hold))
  | pool_shutdown slots sd hold :
      pool_step (Pool slots sd hold) (Pool slots true hold).

Inductive pool_reach : pool → Prop :=
  | pool_init slots : Forall (λ slot, inUse slot = false) slots → pool_reach (Pool slots false ∅)
  | pool_more p p' : pool_reach p → pool_step p p' → pool_reach p'.

Definition pool_inv (p : pool) : Prop :=
  (∀ t t' i, p_hold p !! t = Some i → p_hold p !! t' = Some i → t = t') ∧
  ∀ i, (inUse <$> p_slots p) !! i = Some true ↔ ∃ t, p_hold p !! t = Some i.

Lemma set_inUse_lookup i j b l :
  (inUse <$> set_inUse i b l) !! j =
    if decide (i = j) then (λ _, b) <$> (inUse <$> l) !! j else (inUse <$> l) !! j.
Proof.
  rewrite set_inUse_fmap. destruct (decide (i = j)) as [->|Hne].
  - apply list_lookup_alter_eq.
  - by apply list_lookup_alter_ne.
Qed.

Lemma ring_step_inv p p' : pool_inv p → pool_step p p' → pool_inv p'.
Proof.
  intros [Hinj Huse] Hs. destruct Hs as [t i slots slots' hold Ht Hr Ha|t i b slots sd hold Ht
    |t i slots sd hold Ht|slots sd hold]; cbn in *.
  - apply acquire_slot_Some in Ha as (_ & -> & sl & Hi & Hf).
    assert (∀ t', hold !! t' ≠ Some i) as Hfree.
    { intros t' Ht'. assert (Some true = Some (inUse sl)) as E.
      { rewrite <-(proj2 (Huse i)) by eauto. by rewrite list_lookup_fmap, Hi. }
      unfold free_slot in Hf. destruct (available sl), (inUse sl); done. }
    split; cbn.
    + intros t1 t2 j [[<- <-]|[? H1]]%lookup_insert_Some [[<- E]|[? H2]]%lookup_insert_Some;
        subst; [done|naive_solver..].
    + intros j. rewrite set_inUse_lookup. destruct (decide (i = j)) as [<-|Hne].
      * rewrite list_lookup_fmap, Hi. cbn. split; [|done]. intros _. exists t. apply lookup_insert_eq.
      * rewrite Huse. split; intros [t' Ht'].
        -- exists t'. rewrite lookup_insert_ne; [done|congruence].
        -- apply lookup_insert_Some in Ht' as [[_ ?]|[_ ?]]; [done|eauto].
  - unfold pool_inv. cbn. by rewrite set_available_inUse.
  - split; cbn.
    + intros t1 t2 j [_ H1]%lookup_delete_Some [_ H2]%lookup_delete_Some. eauto.
    + intros j. rewrite set_inUse_lookup. destruct (decide (i = j)) as [<-|Hne].
      * destruct (_ !! i) eqn:E; cbn; (split; [done|]); intros (t' & [Hn Ht']%lookup_delete_Some);
          by destruct Hn; apply (Hinj _ _ i).
      * rewrite Huse. split; intros [t' Ht'].
        -- exists t'. rewrite lookup_delete_ne; [done|congruence].
        -- apply lookup_delete_Some in Ht' as [_ ?]. eauto.
  - done.
Qed.

Lemma ring_reach_inv p : pool_reach p → pool_inv p.
Proof.
  induction 1 as [slots Hf|p p' _ IH Hs]; [|by eapply ring_step_inv].
  split; cbn; [done|]. intros i. rewrite list_lookup_fmap. split; [|by intros [t ?]].
  destruct (slots !! i) as [sl|] eqn:E; [|done]. cbn. intros [= Hu].
  rewrite Forall_lookup in Hf. by rewrite (Hf _ _ E) in Hu.
Qed.

(** ** Properties *)

(** C8: A read never leaves its buffer with the kernel: whatever liburing
    answers (short or failing submissions, failing waits, foreign completions,
    failing cancellations), when [UringReadEngine::Read] returns, the kernel
    no longer owns the request, no ring was torn down while it did, a ring that
    misbehaved has been set up again before it goes back to the pool, the
    slot is released and the descriptor closed. *)
Theorem uring_read_releases_buffer (EN : Env) (LU : Liburing) path addr size offset s :
  world_wf (us_world s) →
  wp (Read path addr size offset) (λ _ s',
    (∃ evs, us_log s' = us_log s ++ evs ∧ released (kernel (nextRequestId_ s) evs k_idle)) ∧
    inUse <$> slots_ s' = inUse <$> slots_ s ∧
    w_fds (us_world s') = w_fds (us_world s)) s.
Proof.
  intros Hwf. eapply wp_mono; [|by apply Read_spec].
  intros r s' ((evs & k & Hl & Hk & Hr & _) & Hs & (_ & Hf & _) & _). split; [|done].
  exists evs. by rewrite Hk.
Qed.

(** OK is the whole truth: when [Read] answers OK, the ring showed no
    anomaly during the call (exactly one entry was submitted, no wait failed
    and no foreign completion arrived) and the buffer holds exactly [size]
    bytes of the file at [offset]; no file has changed. *)
Theorem uring_read_result (EN : Env) (LU : Liburing) path addr size offset s r data s' :
  world_wf (us_world s) →
  Read path addr size offset s = Some ((r, data), s') → r = SWAPFS_E_OK →
  (∃ evs, us_log s' = us_log s ++ evs ∧ k_anom (kernel (nextRequestId_ s) evs k_idle) = false) ∧
  ∃ i, w_fs (us_world s) !! path = Some i ∧ w_fs (us_world s') !! path = Some i ∧
    data = take (Z.to_nat size) (drop (Z.to_nat offset) (i_data i)).
Proof.
  intros Hwf HR ->. destruct (wp_elim _ _ _ _ _ (Read_spec path addr size offset s Hwf) HR)
    as ((evs & k & Hl & Hk & _ & Ha) & _ & _ & Hsame & Hd). split.
  - exists evs. split; [done|]. rewrite Hk. by apply Ha.
  - destruct (Hd eq_refl) as (i & Hi & ?). exists i. auto.
Qed.

(** C12: The ring pool is safe: under any interleaving of acquiring, rebuilding and releasing
    rings and of the shutdown no two threads have the same ring; a thread has to wait only
    while another one has an available ring; and the condition of the destructor for tearing
    the rings down holds only when no thread has one. *)
Theorem ring_pool_exclusive p :
  pool_reach p →
  (∀ t t' i, p_hold p !! t = Some i → p_hold p !! t' = Some i → t = t') ∧
  (acquire_ready (p_shut p) (p_slots p) = false →
     ∃ t i slot, p_hold p !! t = Some i ∧ p_slots p !! i = Some slot ∧ available slot = true) ∧
  (destroy_ready (p_slots p) = true → p_hold p = ∅).
Proof.
  intros Hp. destruct (ring_reach_inv p Hp) as [Hinj Huse]. split; [done|]. split.
  - unfold acquire_ready. intros [[_ Hav]%orb_false_elim Hfree]%orb_false_elim.
    apply negb_false_iff, existsb_exists in Hav as (slot & Hin & Hslot).
    apply list_elem_of_In, list_elem_of_lookup in Hin as [i Hi].
    assert (inUse slot = true) as Hus.
    { destruct (inUse slot) eqn:E; [done|]. assert (existsb free_slot (p_slots p) = true); [|congruence].
      apply existsb_exists. exists slot. split; [|unfold free_slot; by rewrite Hslot, E].
      apply list_elem_of_In, list_elem_of_lookup. eauto. }
    destruct (proj1 (Huse i)) as [t Ht]; [by rewrite list_lookup_fmap, Hi; cbn; rewrite Hus|].
    eauto 6.
  - unfold destroy_ready. rewrite forallb_forall. intros Hall. apply map_empty. intros t.
    destruct (p_hold p !! t) as [i|] eqn:Ht; [|done]. exfalso.
    assert ((inUse <$> p_slots p) !! i = Some true) as Hi by (apply Huse; eauto).
    rewrite list_lookup_fmap in Hi. destruct (p_slots p !! i) as [sl|] eqn:E; [|done].
    cbn in Hi. injection Hi as Hi.
    assert (In sl (p_slots p)) as Hin%Hall by (apply list_elem_of_In, list_elem_of_lookup; eauto).
    by rewrite Hi in Hin.
Qed.

(** ** Witnesses *)
Definition uring_env : Env := quiet_env 4096 8.

(** Everything works; the only wait answers request 1 with [res]. *)
Definition good_uring (res : Z) : Liburing := {|
  lu_permission := λ _, true; lu_queue_init := λ _, 0; lu_get_sqe := λ _, true;
  lu_submit := λ _, 1; lu_wait_cqe := λ _, (0, Some (Cqe 1 res)) |}.

(** Submissions are interrupted once, the first wait fails, its cancellation
    too, and a foreign completion comes first. *)
Definition bad_uring : Liburing := {|
  lu_permission := λ _, true; lu_queue_init := λ _, 0; lu_get_sqe := λ n, (n <? 9)%nat;
  lu_submit := λ n, if (n =? 6)%nat then - EINTR else 1;
  lu_wait_cqe := λ n, if (n =? 8)%nat then (- EIO, None)
                      else if (n <? 12)%nat then (0, Some (Cqe 77 0)) else (0, Some (Cqe 1 4096)) |}.

Definition uring_file : inode := Inode FReg 1000 384 (repeat 7 4096) None.
Definition uring_world : world := World {[ "/d/1.swap" := uring_file ]} ∅ 3 0.
Definition uring_state : ustate :=
  UState (repeat (Slot false false) URING_POOL_SIZE) false 1 false uring_world [].

Lemma uring_world_wf : world_wf (us_world uring_state).
Proof. apply world_wfb_sound. vm_compute. reflexivity. Qed.

Lemma uring_read_releases_buffer_witness :
  match @Read uring_env bad_uring "/d/1.swap" 0 4096 0 uring_state with
  | Some ((r, _), s') => r = SWAPFS_E_IO_ERROR ∧
      ∃ evs, us_log s' = us_log uring_state ++ evs ∧ k_owned (kernel 1 evs k_idle) = false
  | None => False
  end.
Proof.
  pose proof (@uring_read_releases_buffer uring_env bad_uring "/d/1.swap" 0 4096 0 uring_state
    uring_world_wf) as H.
  unfold wp in H. destruct (Read _ _ _ _ _) as [[[r d] s']|] eqn:E; [|vm_compute in E; discriminate].
  destruct H as [(evs & Hl & Ho & _) _]. split.
  - assert (r = match @Read uring_env bad_uring "/d/1.swap" 0 4096 0 uring_state with
      | Some ((r, _), _) => r | None => 0 end) as -> by (by rewrite E).
    vm_compute. reflexivity.
  - exists evs. split; [exact Hl|exact Ho].
Defined.

Lemma uring_read_result_witness :
  match @Read uring_env (good_uring 4096) "/d/1.swap" 0 4096 0 uring_state with
  | Some ((r, d), _) => r = SWAPFS_E_OK ∧
      ∃ i, w_fs uring_world !! "/d/1.swap" = Some i ∧ d = take 4096 (drop 0 (i_data i))
  | None => False
  end.
Proof.
  destruct (Read _ _ _ _ _) as [[[r d] s']|] eqn:E; [|vm_compute in E; discriminate].
  assert (r = SWAPFS_E_OK) as Hr.
  { assert (r = match @Read uring_env (good_uring 4096) "/d/1.swap" 0 4096 0 uring_state with
      | Some ((r, _), _) => r | None => 0 end) as -> by (by rewrite E).
    vm_compute. reflexivity. }
  split; [exact Hr|].
  destruct (@uring_read_result uring_env (good_uring 4096) "/d/1.swap" 0 4096 0 uring_state r d s'
    uring_world_wf E Hr) as (_ & i & Hi & _ & Hd).
  exists i. split; [exact Hi|exact Hd].
Defined.

Definition pool_one : pool := Pool [Slot true false] false ∅.
Definition pool_two : pool := Pool [Slot true true] false {[ 5%nat := 0%nat ]}.
Lemma pool_two_reach : pool_reach pool_two.
Proof.
  eapply (pool_more pool_one); [by repeat constructor|].
  apply (pool_acquire 5 0 [Slot true false] [Slot true true] ∅); vm_compute; reflexivity.
Qed.

Lemma ring_pool_exclusive_witness :
  acquire_ready (p_shut pool_two) (p_slots pool_two) = false ∧
  ∃ t i slot, p_hold pool_two !! t = Some i ∧ p_slots pool_two !! i = Some slot ∧
    available slot = true.
Proof.
  assert (acquire_ready (p_shut pool_two) (p_slots pool_two) = false) as H by (vm_compute; reflexivity).
  split; [exact H|]. apply (ring_pool_exclusive pool_two pool_two_reach). exact H.
Defined.
