(* ===== verification/SwapfsManager.v ===== *)
(** * The manager of swapfs

    Models [swapfs_manager.cpp] and [swapfs_manager.h]: the swap root and the
    session, swap-out, swap-in, queries and removal, against any space-control
    provider.

    What runs under [mutex_] is one function on the manager's state; what runs
    outside it is an input/output computation.  An API call is a [prog]: a
    sequence of atomic actions.  [run] executes it alone; [SwapfsConc]
    interleaves the actions of many calls. *)

From S2P Require Import Prelude.
From S2P Require Import Posix.
From S2P Require Import SwapfsErr.
From S2P Require Import SwapfsIo.
From S2P Require Import SwapfsControl.
From S2P Require Import SwapfsCleaner.
From S2P Require Import SwapfsUring.

Definition DIR_MODE : Z := 448.  (* S_IRWXU = 0700 *)
Definition SWAPFS_DIR_NAME : string := "swapfs".
Definition ROOT_MARKER : string := ".swapfs-root".
Definition NON_OWNER_PERMS : Z := 63.  (* S_IRWXG | S_IRWXO = 0077 *)
Definition DEFAULT_SWAPFS_TEMP_PATH : string := "/data/storage/el2/base/temp".
Definition DEFAULT_SWAPFS_ROOT_PATH : string := "/data/storage/el2/base/temp/swapfs".

Record OH_SwapfsConfig := Config {
  c_swapRootPath : option string; c_spaceLimitBytes : Z; c_useDirectIo : bool
}.

Record SwapfsConfigInner := ConfigInner {
  swapRootPath : string; spaceLimitBytes : Z; useDirectIo : bool; managerId : string
}.

Inductive OH_SwapfsKeyStatus :=
  OH_SWAPFS_KEY_STATUS_ACTIVE | OH_SWAPFS_KEY_STATUS_REMOVING.
#[export] Instance OH_SwapfsKeyStatus_eq_dec : EqDecision OH_SwapfsKeyStatus.
Proof. solve_decision. Defined.

Record SwapKeyEntry := Entry {
  keyId : Z; path : string; dataSize : Z; createTime : Z; status : OH_SwapfsKeyStatus;
  readCount : Z
}.
Definition no_entry : SwapKeyEntry := Entry 0 "" 0 0 OH_SWAPFS_KEY_STATUS_ACTIVE 0.

Definition set_status (st : OH_SwapfsKeyStatus) (e : SwapKeyEntry) : SwapKeyEntry :=
  Entry (keyId e) (path e) (dataSize e) (createTime e) st (readCount e).
Definition set_readCount (n : Z) (e : SwapKeyEntry) : SwapKeyEntry :=
  Entry (keyId e) (path e) (dataSize e) (createTime e) (status e) n.

Record OH_SwapfsDataInfo := DataInfo {
  di_keyId : Z; di_dataSize : Z; di_occupiedSize : Z; di_createTime : Z;
  di_status : OH_SwapfsKeyStatus; di_canSwapIn : bool
}.

Record SwapOutContext := OutContext {
  ctx_keyId : Z; ctx_tmpPath : string; ctx_swapPath : string; ctx_useDirectIo : bool
}.

(** ** Programs of atomic actions *)
Inductive prog (S A : Type) : Type :=
  | Ret (a : A)
  | Act (B : Type) (m : st S B) (k : B → prog S A).
Arguments Ret {S A} a.
Arguments Act {S A B} m k.

Fixpoint pbind {S A B} (p : prog S A) (f : A → prog S B) : prog S B :=
  match p with
  | Ret a => f a
  | Act m k => Act m (λ b, pbind (k b) f)
  end.
Definition act {S A} (m : st S A) : prog S A := Act m Ret.

(** Executed alone. *)
Fixpoint run {S A} (p : prog S A) : st S A :=
  match p with
  | Ret a => sret a
  | Act m k => bind m (λ b, run (k b))
  end.

Declare Scope prog_scope.
Delimit Scope prog_scope with prog.
Notation "x ⟸ p ; q" := (pbind p (λ x, q))
  (at level 20, p at level 100, q at level 200, only parsing) : prog_scope.
Notation "' x ⟸ p ; q" := (pbind p (λ x, q))
  (at level 20, x pattern, p at level 100, q at level 200, only parsing) : prog_scope.
#[global] Open Scope prog_scope.

Lemma run_pbind {S A B} (p : prog S A) (f : A → prog S B) s :
  run (pbind p f) s = bind (run p) (λ a, run (f a)) s.
Proof.
  revert s. induction p as [a|B0 m k IH]; intros s; [done|]. cbn. unfold bind.
  destruct (m s) as [[b s']|]; [|done]. apply IH.
Qed.

(** ** Paths *)

(** [while (basePath.size() > 1 && basePath.back() == '/') basePath.pop_back();] *)
Fixpoint pop_slashes (n : nat) (basePath : string) : string :=
  match n with
  | O => basePath
  | S n' =>
      let len := String.length basePath in
      if (1 <? len)%nat && bool_decide (String.get (len - 1) basePath = Some slash)
      then pop_slashes n' (String.substring 0 (len - 1) basePath) else basePath
  end.

Definition BuildSwapRootPath (basePath : string) : string :=
  let basePath := pop_slashes (String.length basePath) basePath in
  if (basePath =? "/")%string then basePath +:+ SWAPFS_DIR_NAME
  else basePath +:+ "/" +:+ SWAPFS_DIR_NAME.

Definition BuildDataRoot (sessionPath : string) : string := sessionPath +:+ "/data".

Definition KeyFile (sessionPath : string) (keyId : Z) (ext : string) : string :=
  BuildDataRoot sessionPath +:+ "/" +:+ pretty keyId +:+ ext.

Section manager.
Context {EN : Env} {LU : Liburing} {C : Type} {CP : SwapControlProvider C}.

Record SwapfsManager := Manager {
  config_ : SwapfsConfigInner;
  control_ : C;
  entries_ : gmap Z SwapKeyEntry;
  sessionPath_ : string;
  nextKeyId_ : Z;
  activeOps_ : Z;
  sessionLockFd_ : Z;
  removeAllInProgress_ : bool;
  initialized_ : bool;
  shuttingDown_ : bool
}.

Record machine := Machine { mc_mgr : SwapfsManager; mc_ur : ustate }.

Definition set_entries (es : gmap Z SwapKeyEntry) (m : SwapfsManager) : SwapfsManager :=
  Manager (config_ m) (control_ m) es (sessionPath_ m) (nextKeyId_ m) (activeOps_ m)
    (sessionLockFd_ m) (removeAllInProgress_ m) (initialized_ m) (shuttingDown_ m).
Definition set_control (c : C) (m : SwapfsManager) : SwapfsManager :=
  Manager (config_ m) c (entries_ m) (sessionPath_ m) (nextKeyId_ m) (activeOps_ m)
    (sessionLockFd_ m) (removeAllInProgress_ m) (initialized_ m) (shuttingDown_ m).
Definition set_activeOps (n : Z) (m : SwapfsManager) : SwapfsManager :=
  Manager (config_ m) (control_ m) (entries_ m) (sessionPath_ m) (nextKeyId_ m) n
    (sessionLockFd_ m) (removeAllInProgress_ m) (initialized_ m) (shuttingDown_ m).
Definition set_removeAll (b : bool) (m : SwapfsManager) : SwapfsManager :=
  Manager (config_ m) (control_ m) (entries_ m) (sessionPath_ m) (nextKeyId_ m) (activeOps_ m)
    (sessionLockFd_ m) b (initialized_ m) (shuttingDown_ m).
Definition set_shuttingDown (b : bool) (m : SwapfsManager) : SwapfsManager :=
  Manager (config_ m) (control_ m) (entries_ m) (sessionPath_ m) (nextKeyId_ m) (activeOps_ m)
    (sessionLockFd_ m) (removeAllInProgress_ m) (initialized_ m) b.

(** ** The parts under [mutex_] *)


Definition no_context : SwapOutContext := OutContext 0 "" "" false.

Definition PrepareForSwapOut (b : cbuf) (m : SwapfsManager) :
    (Z * SwapOutContext) * SwapfsManager :=
  if negb (initialized_ m) then ((SWAPFS_E_INVAL, no_context), m) else
  if shuttingDown_ m then ((SWAPFS_E_SHUTTING_DOWN, no_context), m) else
  let dio := useDirectIo (config_ m) in
  if dio && negb (IsDioAligned (buf_addr b) (Z.of_nat (length (buf_bytes b))))
  then ((SWAPFS_E_DIO_ALIGN, no_context), m) else
  if removeAllInProgress_ m then ((SWAPFS_E_BUSY, no_context), m) else
  let k := nextKeyId_ m in
  ((SWAPFS_E_OK,
    OutContext k (KeyFile (sessionPath_ m) k ".tmp") (KeyFile (sessionPath_ m) k ".swap") dio),
   Manager (config_ m) (control_ m) (entries_ m) (sessionPath_ m) (k +₆₄ 1) (activeOps_ m +₃₂ 1)
     (sessionLockFd_ m) (removeAllInProgress_ m) (initialized_ m) (shuttingDown_ m)).

Definition CommitSwapOutEntry (entry : SwapKeyEntry) (m : SwapfsManager) : Z * SwapfsManager :=
  (keyId entry,
   set_control (ctl_OnSwapOutCommitted (dataSize entry) (dataSize entry) (control_ m))
     (set_entries (<[keyId entry := entry]> (entries_ m)) m)).

Definition PrepareForSwapIn (m : SwapfsManager) : (Z * bool) * SwapfsManager :=
  if negb (initialized_ m) then ((SWAPFS_E_INVAL, false), m) else
  if shuttingDown_ m then ((SWAPFS_E_SHUTTING_DOWN, false), m) else
  ((SWAPFS_E_OK, useDirectIo (config_ m)), set_activeOps (activeOps_ m +₃₂ 1) m).

Definition LookupKeyForSwapIn (k : Z) (m : SwapfsManager) : (Z * SwapKeyEntry) * SwapfsManager :=
  match entries_ m !! k with
  | None => ((SWAPFS_E_KEY_NOT_FOUND, no_entry), m)
  | Some e =>
      if negb (bool_decide (status e = OH_SWAPFS_KEY_STATUS_ACTIVE))
      then ((SWAPFS_E_KEY_STATE_INVALID, no_entry), m)
      else let e' := set_readCount (readCount e +₃₂ 1) e in
           ((SWAPFS_E_OK, e'), set_entries (<[k := e']> (entries_ m)) m)
  end.

(** The first part of [FinishSwapIn]: [Some] is the deferred removal. *)
Definition FinishSwapIn_begin (k : Z) (m : SwapfsManager) : option (string * Z) * SwapfsManager :=
  match entries_ m !! k with
  | None => (None, m)
  | Some e =>
      let e' := set_readCount (readCount e -₃₂ 1) e in
      let m' := set_entries (<[k := e']> (entries_ m)) m in
      if negb (bool_decide (status e' = OH_SWAPFS_KEY_STATUS_REMOVING)) || (readCount e' >? 0)
      then (None, m') else (Some (path e', dataSize e'), m')
  end.

Definition FinishSwapIn_end (k removedSize : Z) (removed : bool) (m : SwapfsManager) :
    unit * SwapfsManager :=
  match entries_ m !! k with
  | None => (tt, m)
  | Some e =>
      if negb removed
      then (tt, set_entries (<[k := set_status OH_SWAPFS_KEY_STATUS_ACTIVE e]> (entries_ m)) m)
      else (tt, set_entries (delete k (entries_ m))
                  (set_control (ctl_OnEntryRemoved removedSize removedSize (control_ m)) m))
  end.

Definition EndOperation (m : SwapfsManager) : unit * SwapfsManager :=
  (tt, set_activeOps (activeOps_ m -₃₂ 1) m).

(** [QueryData] with its parameter check; the information is given when OK. *)
Definition QueryData (k : Z) (hasInfo : bool) (m : SwapfsManager) : Z * option OH_SwapfsDataInfo :=
  if (k =? 0) || negb hasInfo then (SWAPFS_E_INVAL, None) else
  if negb (initialized_ m) then (SWAPFS_E_INVAL, None) else
  if shuttingDown_ m then (SWAPFS_E_SHUTTING_DOWN, None) else
  match entries_ m !! k with
  | None => (SWAPFS_E_KEY_NOT_FOUND, None)
  | Some e =>
      if negb (bool_decide (status e = OH_SWAPFS_KEY_STATUS_ACTIVE))
      then (SWAPFS_E_KEY_STATE_INVALID, None)
      else (SWAPFS_E_OK, Some (DataInfo (keyId e) (dataSize e) (dataSize e) (createTime e)
                                 (status e) true))
  end.

Definition GetStats_begin (m : SwapfsManager) : Z * SwapfsManager :=
  if negb (initialized_ m) then (SWAPFS_E_INVAL, m) else
  if shuttingDown_ m then (SWAPFS_E_SHUTTING_DOWN, m) else
  (SWAPFS_E_OK, set_activeOps (activeOps_ m +₃₂ 1) m).

(** [no_entry], whose path is empty, stands for a removal left to a reader. *)
Definition PrepareRemoveEntry (k : Z) (m : SwapfsManager) : (Z * SwapKeyEntry) * SwapfsManager :=
  if negb (initialized_ m) then ((SWAPFS_E_INVAL, no_entry), m) else
  if shuttingDown_ m then ((SWAPFS_E_SHUTTING_DOWN, no_entry), m) else
  match entries_ m !! k with
  | None => ((SWAPFS_E_KEY_NOT_FOUND, no_entry), m)
  | Some e =>
      if negb (bool_decide (status e = OH_SWAPFS_KEY_STATUS_ACTIVE))
      then ((SWAPFS_E_KEY_STATE_INVALID, no_entry), m)
      else
        let e' := set_status OH_SWAPFS_KEY_STATUS_REMOVING e in
        let m' := set_entries (<[k := e']> (entries_ m)) m in
        if readCount e' =? 0
        then ((SWAPFS_E_OK, e'), set_activeOps (activeOps_ m +₃₂ 1) m')
        else ((SWAPFS_E_OK, no_entry), m')
  end.

(** What [FinalizeRemoveEntry] and the end of [RemoveAllData] do to one entry. *)
Definition FinalizeRemoveEntry (entry : SwapKeyEntry) (removed : bool) (m : SwapfsManager) :
    unit * SwapfsManager :=
  match entries_ m !! keyId entry with
  | None => (tt, m)
  | Some e =>
      if removed
      then (tt, set_entries (delete (keyId entry) (entries_ m))
                  (set_control (ctl_OnEntryRemoved (dataSize entry) (dataSize entry) (control_ m)) m))
      else (tt, set_entries (<[keyId entry := set_status OH_SWAPFS_KEY_STATUS_ACTIVE e]> (entries_ m)) m)
  end.

(** The order of an [unordered_map] is not specified; this is one. *)
Definition CollectRemovableEntries (m : SwapfsManager) :
    (Z * list SwapKeyEntry) * SwapfsManager :=
  if negb (initialized_ m) then ((SWAPFS_E_INVAL, []), m) else
  if shuttingDown_ m then ((SWAPFS_E_SHUTTING_DOWN, []), m) else
  if activeOps_ m >? 0 then ((SWAPFS_E_BUSY, []), m) else
  let entriesToRemove := (map_to_list (entries_ m)).*2 in
  let m := set_entries (set_status OH_SWAPFS_KEY_STATUS_REMOVING <$> entries_ m) m in
  match entriesToRemove with
  | [] => ((SWAPFS_E_OK, entriesToRemove), m)
  | _ :: _ => ((SWAPFS_E_OK, entriesToRemove),
               set_removeAll true (set_activeOps (activeOps_ m +₃₂ 1) m))
  end.

(** The last locked part of [RemoveAllData]. *)
Fixpoint RemoveAll_loop (l : list (SwapKeyEntry * bool)) (m : SwapfsManager) : SwapfsManager :=
  match l with
  | [] => m
  | (entry, removed) :: l' => RemoveAll_loop l' (FinalizeRemoveEntry entry removed m).2
  end.
Definition RemoveAll_end (l : list (SwapKeyEntry * bool)) (m : SwapfsManager) :
    unit * SwapfsManager :=
  (tt, set_removeAll false (RemoveAll_loop l m)).

(** ** Actions *)
Definition locked {A} (f : SwapfsManager → A * SwapfsManager) : st machine A := λ M,
  let '(a, m) := f (mc_mgr M) in Some (a, Machine m (mc_ur M)).
Definition uring {A} (u : st ustate A) : st machine A := λ M,
  match u (mc_ur M) with Some (a, ur) => Some (a, Machine (mc_mgr M) ur) | None => None end.
Definition sysio {A} (i : io A) : st machine A := uring (lift i).
Definition controlio {A} (f : C → io (A * C)) : st machine A := λ M,
  match sysio (f (control_ (mc_mgr M))) M with
  | Some ((a, c), M') => Some (a, Machine (set_control c (mc_mgr M')) (mc_ur M'))
  | None => None
  end.
Definition control (f : C → C) : st machine unit :=
  locked (λ m, (tt, set_control (f (control_ m)) m)).

(** [ActiveOperationGuard]: [EndOperation] when the scope is left. *)
Definition active_operation {A} (p : prog machine A) : prog machine A :=
  a ⟸ p; _ ⟸ act (locked EndOperation); Ret a.

Definition RemoveSwapFile (p : string) (ignoreMissing : bool) : io Z :=
  r ← sys_unlink p;
  match r with
  | SOk _ => sret SWAPFS_E_OK
  | SErr e => if ignoreMissing && (e =? ENOENT) then sret SWAPFS_E_OK
              else sret (MapErrno e KEY_OPERATION)
  end.

(** ** [SwapOut]: the code, and the key when it is OK *)
Definition SwapOut (buffer : option cbuf) (hasKeyId : bool) : prog machine (Z * option Z) :=
  match buffer with
  | None => Ret (SWAPFS_E_INVAL, None)
  | Some b =>
      let size := Z.of_nat (length (buf_bytes b)) in
      if (size =? 0) || negb hasKeyId then Ret (SWAPFS_E_INVAL, None) else
      '(prepRet, context) ⟸ act (locked (PrepareForSwapOut b));
      if negb (prepRet =? SWAPFS_E_OK) then Ret (prepRet, None) else
      active_operation (
        reserveRet ⟸ act (controlio (ctl_ReserveSwapOut EN size));
        if negb (reserveRet =? SWAPFS_E_OK) then Ret (reserveRet, None) else
        ret ⟸ act (sysio (SyncWrite (ctx_tmpPath context) (Some b) (ctx_useDirectIo context)));
        ret ⟸ (if ret =? SWAPFS_E_OK then
                 r ⟸ act (sysio (sys_rename (ctx_tmpPath context) (ctx_swapPath context)));
                 Ret (match r with SErr e => MapErrno e PATH_OPERATION | SOk _ => ret end)
               else Ret ret);
        if negb (ret =? SWAPFS_E_OK) then
          _ ⟸ act (sysio (RemoveSwapFile (ctx_tmpPath context) true));
          _ ⟸ act (control (ctl_CancelReservedSwapOut size));
          Ret (ret, None)
        else
          now ⟸ act (sysio NowMs);
          k ⟸ act (locked (CommitSwapOutEntry
                (Entry (ctx_keyId context) (ctx_swapPath context) size now
                   OH_SWAPFS_KEY_STATUS_ACTIVE 0)));
          Ret (SWAPFS_E_OK, Some k))
  end.

(** ** [SwapIn]: the code, and what is read when it is OK *)
Definition ExecuteSwapInRead (entry : SwapKeyEntry) (addr : Z) (useDirectIo : bool) :
    st machine (Z * list Z) := λ M,
  if useDirectIo then
    bind (uring IsAvailable) (λ available,
      if available then uring (Read (path entry) addr (dataSize entry) 0)
      else sysio (SyncRead (path entry) (Some addr) (dataSize entry) 0 true)) M
  else sysio (SyncRead (path entry) (Some addr) (dataSize entry) 0 false) M.

Definition FinishSwapIn (k : Z) : prog machine unit :=
  deferred ⟸ act (locked (FinishSwapIn_begin k));
  match deferred with
  | None => Ret tt
  | Some (pathToRemove, removedSize) =>
      r ⟸ act (sysio (RemoveSwapFile pathToRemove false));
      act (locked (FinishSwapIn_end k removedSize (r =? SWAPFS_E_OK)))
  end.

Definition SwapIn (k : Z) (addr : option Z) (bufferSize : Z) :
    prog machine (Z * option (list Z)) :=
  match addr with
  | None => Ret (SWAPFS_E_INVAL, None)
  | Some a =>
      if (k =? 0) || (bufferSize =? 0) then Ret (SWAPFS_E_INVAL, None) else
      '(prepRet, useDirectIo) ⟸ act (locked PrepareForSwapIn);
      if negb (prepRet =? SWAPFS_E_OK) then Ret (prepRet, None) else
      active_operation (
        if useDirectIo && negb (IsDioAligned a bufferSize) then Ret (SWAPFS_E_DIO_ALIGN, None) else
        '(lookupRet, entry) ⟸ act (locked (LookupKeyForSwapIn k));
        if negb (lookupRet =? SWAPFS_E_OK) then Ret (lookupRet, None) else
        if bufferSize <? dataSize entry then
          _ ⟸ FinishSwapIn k; Ret (SWAPFS_E_BUFFER_TOO_SMALL, None)
        else
          '(ret, data) ⟸ act (ExecuteSwapInRead entry a useDirectIo);
          if negb (ret =? SWAPFS_E_OK) then _ ⟸ FinishSwapIn k; Ret (ret, None)
          else _ ⟸ FinishSwapIn k; Ret (SWAPFS_E_OK, Some data))
  end.

Definition QueryDataCall (k : Z) (hasInfo : bool) : prog machine (Z * option OH_SwapfsDataInfo) :=
  act (locked (λ m, (QueryData k hasInfo m, m))).

Definition GetStats (hasStats : bool) : prog machine (Z * option OH_SwapfsStats) :=
  if negb hasStats then Ret (SWAPFS_E_INVAL, None) else
  r ⟸ act (locked GetStats_begin);
  if negb (r =? SWAPFS_E_OK) then Ret (r, None) else
  active_operation (
    s ⟸ act (controlio (ctl_FillStats EN));
    Ret (SWAPFS_E_OK, Some s)).

(** ** Removal *)
Definition RemoveData (k : Z) : prog machine Z :=
  if k =? 0 then Ret SWAPFS_E_INVAL else
  '(prepRet, entry) ⟸ act (locked (PrepareRemoveEntry k));
  if negb (prepRet =? SWAPFS_E_OK) then Ret prepRet else
  if (path entry =? "")%string then Ret SWAPFS_E_OK else
  active_operation (
    removeRet ⟸ act (sysio (RemoveSwapFile (path entry) false));
    let removed := removeRet =? SWAPFS_E_OK in
    _ ⟸ act (locked (FinalizeRemoveEntry entry removed));
    if negb removed then Ret removeRet else Ret SWAPFS_E_OK).

(** The unlink loop of [RemoveAllData]: what was removed, and the first error. *)
Fixpoint RemoveAll_files (l : list SwapKeyEntry) (removedEntries : list (SwapKeyEntry * bool))
    (firstError : Z) : prog machine (list (SwapKeyEntry * bool) * Z) :=
  match l with
  | [] => Ret (removedEntries, firstError)
  | entry :: l' =>
      removeRet ⟸ act (sysio (RemoveSwapFile (path entry) false));
      let removed := removeRet =? SWAPFS_E_OK in
      RemoveAll_files l' (removedEntries ++ [(entry, removed)])
        (if negb removed && (firstError =? SWAPFS_E_OK) then removeRet else firstError)
  end.

Definition RemoveAllData : prog machine Z :=
  '(prepRet, entriesToRemove) ⟸ act (locked CollectRemovableEntries);
  if negb (prepRet =? SWAPFS_E_OK) then Ret prepRet else
  match entriesToRemove with
  | [] => Ret SWAPFS_E_OK
  | _ :: _ =>
      active_operation (
        '(removedEntries, firstError) ⟸ RemoveAll_files entriesToRemove [] SWAPFS_E_OK;
        _ ⟸ act (locked (RemoveAll_end removedEntries));
        if negb (firstError =? SWAPFS_E_OK) then Ret firstError else Ret SWAPFS_E_OK)
  end.

(** ** The swap root and the session *)
Definition IsSystemApp : io bool := ask env_system_app.
Definition MakeRandomId : io string := ask env_rand.

Definition CreateMarkerFileAt (dirFd : Z) (name : string) : io Z :=
  markerFd ← sys_openat dirFd name [O_CREAT; O_CLOEXEC; O_EXCL; O_NOFOLLOW; O_WRONLY] LOCK_FILE_MODE;
  match markerFd with
  | SErr e => sret (MapErrno e PATH_OPERATION)
  | SOk fd => sys_close fd;; sret SWAPFS_E_OK
  end.

Definition IsPrivateOwned (st : inode) (directory : bool) : bool :=
  bool_decide (i_type st = if directory then FDir else FReg) && (i_uid st =? env_euid) &&
  (Z.land (i_mode st) NON_OWNER_PERMS =? 0).

Definition ValidateSwapRoot (p : string) : io Z :=
  rootFd ← sys_open p DIR_FLAGS 0;
  match rootFd with
  | SErr _ => sret SWAPFS_E_PATH_UNAVAILABLE
  | SOk rootFd =>
      ret ← (
        rootStat ← sys_fstat rootFd;
        if match rootStat with SErr _ => true | SOk st => negb (IsPrivateOwned st true) end
        then sret SWAPFS_E_PATH_UNAVAILABLE else
        markerFd ← sys_openat rootFd ROOT_MARKER [O_RDONLY; O_CLOEXEC; O_NOFOLLOW] 0;
        match markerFd with
        | SErr _ => sret SWAPFS_E_PATH_UNAVAILABLE
        | SOk markerFd =>
            markerStat ← sys_fstat markerFd;
            sys_close markerFd;;
            sret (if match markerStat with SErr _ => true | SOk st => negb (IsPrivateOwned st false) end
                  then SWAPFS_E_PATH_UNAVAILABLE else SWAPFS_E_OK)
        end);
      sys_close rootFd;;
      sret ret
  end.

Definition ResolveConfig (config : option OH_SwapfsConfig) : io SwapfsConfigInner :=
  let basePath := match config with
    | Some c => match c_swapRootPath c with
                | Some p => if (p =? "")%string then DEFAULT_SWAPFS_TEMP_PATH else p
                | None => DEFAULT_SWAPFS_TEMP_PATH end
    | None => DEFAULT_SWAPFS_TEMP_PATH end in
  let limit := match config with
    | Some c => if c_spaceLimitBytes c >? 0 then c_spaceLimitBytes c else DEFAULT_SPACE_LIMIT_BYTES
    | None => DEFAULT_SPACE_LIMIT_BYTES end in
  let dio := match config with Some c => c_useDirectIo c | None => false end in
  id ← MakeRandomId;
  sret (ConfigInner (BuildSwapRootPath basePath) limit dio id).

Definition set_rootPath (p : string) (cfg : SwapfsConfigInner) : SwapfsConfigInner :=
  ConfigInner p (spaceLimitBytes cfg) (useDirectIo cfg) (managerId cfg).

(** [PrepareSwapRoot] after the parent directory is resolved. *)
Definition CreateSwapRoot (cfg : SwapfsConfigInner) : io Z :=
  let root := swapRootPath cfg in
  m ← sys_mkdir root DIR_MODE;
  match m with
  | SErr e => if negb (e =? EEXIST) then sret (MapErrno e PATH_OPERATION) else ValidateSwapRoot root
  | SOk _ =>
      rootFd ← sys_open root DIR_FLAGS 0;
      match rootFd with
      | SErr _ => sys_rmdir root;; sret SWAPFS_E_PATH_UNAVAILABLE
      | SOk rootFd =>
          markerRet ← CreateMarkerFileAt rootFd ROOT_MARKER;
          sys_close rootFd;;
          if negb (markerRet =? SWAPFS_E_OK) then sys_rmdir root;; sret markerRet
          else ValidateSwapRoot root
      end
  end.

(** The code, and the configuration with the canonical root. *)
Definition PrepareSwapRoot (cfg : SwapfsConfigInner) : io (Z * SwapfsConfigInner) :=
  if negb (IsAbsolutePath (swapRootPath cfg)) then sret (SWAPFS_E_INVAL, cfg) else
  m ← (if (swapRootPath cfg =? DEFAULT_SWAPFS_ROOT_PATH)%string
       then sys_mkdir DEFAULT_SWAPFS_TEMP_PATH DIR_MODE else sret (SOk tt));
  match (match m with SErr e => if negb (e =? EEXIST) then Some e else None | SOk _ => None end) with
  | Some e => sret (MapErrno e PATH_OPERATION, cfg)
  | None =>
      match rsplit (swapRootPath cfg) with
      | None => sret (SWAPFS_E_INVAL, cfg)  (* an absolute path holds a '/' *)
      | Some (dir, name) =>
          let parent := if (dir =? "")%string then "/" else dir in
          resolved ← sys_realpath parent;
          match resolved with
          | SErr e => sret (MapErrno e PATH_OPERATION, cfg)
          | SOk canonicalParent =>
              let cfg := set_rootPath (if (canonicalParent =? "/")%string
                                       then canonicalParent +:+ name
                                       else canonicalParent +:+ "/" +:+ name) cfg in
              ret ← CreateSwapRoot cfg;
              sret (ret, cfg)
          end
      end
  end.

(** The code, and the session directory's descriptor when OK. *)
Definition CreateSessionLayoutAt (rootFd : Z) (name : string) : io (Z * option Z) :=
  m ← sys_mkdirat rootFd name DIR_MODE;
  match m with
  | SErr e => sret (MapErrno e PATH_OPERATION, None)
  | SOk _ =>
      sessionFd ← sys_openat rootFd name DIR_FLAGS 0;
      match sessionFd with
      | SErr e => RemoveSessionAt rootFd name;; sret (MapErrno e PATH_OPERATION, None)
      | SOk sessionFd =>
          ret ← CreateMarkerFileAt sessionFd SESSION_MARKER;
          if negb (ret =? SWAPFS_E_OK) then
            sys_close sessionFd;; RemoveSessionAt rootFd name;; sret (ret, None)
          else
            d ← sys_mkdirat sessionFd "data" DIR_MODE;
            match d with
            | SErr err =>
                sys_close sessionFd;; RemoveSessionAt rootFd name;;
                sret (MapErrno err PATH_OPERATION, None)
            | SOk _ => sret (SWAPFS_E_OK, Some sessionFd)
            end
      end
  end.

(** [CloseSessionLock]: the descriptor afterwards. *)
Definition CloseSessionLock (fd : Z) : io Z :=
  if fd >=? 0 then sys_funlock fd;; sys_close fd;; sret (-1) else sret fd.

(** The code, [sessionLockFd_] (which was [lockFd0]), and [sessionPath_] when it
    was set. *)
Definition CreateSessionLocked (cfg : SwapfsConfigInner) (lockFd0 rootFd : Z) :
    io (Z * Z * option string) :=
  id1 ← MakeRandomId;
  id2 ← MakeRandomId;
  let creatingName := ".creating-" +:+ managerId cfg +:+ "-" +:+ id1 in
  let finalName := "session-" +:+ managerId cfg +:+ "-" +:+ id2 in
  '(ret, creatingFd) ← CreateSessionLayoutAt rootFd creatingName;
  match creatingFd with
  | None => sret (ret, lockFd0, None)
  | Some creatingFd =>
      lockFd ← sys_openat creatingFd "session.lock" [O_CREAT; O_CLOEXEC; O_EXCL; O_NOFOLLOW; O_RDWR]
                 LOCK_FILE_MODE;
      match lockFd with
      | SErr err =>
          sys_close creatingFd;; RemoveSessionAt rootFd creatingName;;
          sret (MapErrno err PATH_OPERATION, -1, None)
      | SOk lockFd =>
          r ← (l ← sys_flock lockFd;
               match l with
               | SErr e => sret (SErr e)
               | SOk _ => sys_renameat rootFd creatingName rootFd finalName
               end);
          match r with
          | SErr err =>
              fd ← CloseSessionLock lockFd;
              sys_close creatingFd;; RemoveSessionAt rootFd creatingName;;
              sret (MapErrno err PATH_OPERATION, fd, None)
          | SOk _ =>
              sys_close creatingFd;;
              sret (SWAPFS_E_OK, lockFd, Some (swapRootPath cfg +:+ "/" +:+ finalName))
          end
      end
  end.

Definition close_opt (fd : option Z) : io unit :=
  match fd with Some fd => sys_close fd | None => sret tt end.

Definition PrepareSession (cfg : SwapfsConfigInner) (lockFd0 : Z) : io (Z * Z * option string) :=
  '(ret, rootFd, cleanupLock) ← AcquireCleanupLock (swapRootPath cfg);
  r ← (match rootFd with
       | Some root =>
           if negb (ret =? SWAPFS_E_OK) then sret (ret, lockFd0, None) else
           ret ← CleanupInactiveSessionsLocked root;
           if negb (ret =? SWAPFS_E_OK) then sret (ret, lockFd0, None)
           else CreateSessionLocked cfg lockFd0 root
       | None => sret (ret, lockFd0, None)
       end);
  close_opt cleanupLock;;
  close_opt rootFd;;
  sret r.

(** [RemoveSessionDir]: [sessionPath_] is empty afterwards. *)
Definition RemoveSessionDir (cfg : SwapfsConfigInner) (sessionPath : string) : io unit :=
  if (sessionPath =? "")%string then sret tt
  else RemoveSessionTree sessionPath (swapRootPath cfg);; sret tt.

Definition set_session (cfg : SwapfsConfigInner) (sp : string) (fd : Z) (m : SwapfsManager) :
    SwapfsManager :=
  Manager cfg (control_ m) (entries_ m) sp (nextKeyId_ m) (activeOps_ m) fd
    (removeAllInProgress_ m) (initialized_ m) (shuttingDown_ m).
Definition set_initialized (b : bool) (m : SwapfsManager) : SwapfsManager :=
  Manager (config_ m) (control_ m) (entries_ m) (sessionPath_ m) (nextKeyId_ m) (activeOps_ m)
    (sessionLockFd_ m) (removeAllInProgress_ m) b (shuttingDown_ m).

Definition update (f : SwapfsManager → SwapfsManager) : st machine unit :=
  locked (λ m, (tt, f m)).

(** [Init] under [mutex_], the configuration resolved. *)
Definition InitLocked (config : option OH_SwapfsConfig) : st machine Z := λ M,
  if initialized_ (mc_mgr M) then Some (SWAPFS_E_BUSY, M) else
  (cfg ← sysio (ResolveConfig config);
   '(ret, cfg) ← sysio (PrepareSwapRoot cfg);
   update (λ m, set_session cfg (sessionPath_ m) (sessionLockFd_ m) m);;
   if negb (ret =? SWAPFS_E_OK) then sret ret else
   '(ret, lockFd, sp) ← (λ M, sysio (PrepareSession cfg (sessionLockFd_ (mc_mgr M))) M);
   update (λ m, set_session cfg (default (sessionPath_ m) sp) lockFd m);;
   if negb (ret =? SWAPFS_E_OK) then
     (λ M, sysio (RemoveSessionDir cfg (sessionPath_ (mc_mgr M))) M);;
     update (λ m, set_session cfg "" (sessionLockFd_ m) m);;
     sret ret
   else
   ret ← controlio (ctl_Init EN (spaceLimitBytes cfg) DEFAULT_SPACE_CHECK_INTERVAL_MS);
   if negb (ret =? SWAPFS_E_OK) then
     (λ M, sysio (RemoveSessionDir cfg (sessionPath_ (mc_mgr M))) M);;
     fd ← sysio (CloseSessionLock lockFd);
     update (λ m, set_session cfg "" fd m);;
     sret ret
   else
   update (set_initialized true);;
   sret SWAPFS_E_OK) M.

Definition InitManager (config : option OH_SwapfsConfig) : prog machine Z :=
  sys ⟸ act (sysio IsSystemApp);
  if negb sys then Ret COMMON_E_PERMISSION_SYS else act (InitLocked config).

(** ** Destruction *)
Definition AllEntriesCleanLocked (m : SwapfsManager) : bool := activeOps_ m =? 0.

(** [WaitForActiveOps] as it returns: scheduled while operations are active, it
    is the time-out. *)
Definition WaitForActiveOps : st machine bool := locked (λ m, (AllEntriesCleanLocked m, m)).

(** What [Destroy] and the destructor share at the end. *)
Definition ClearManager : st machine unit :=
  fd ← (λ M, sysio (CloseSessionLock (sessionLockFd_ (mc_mgr M))) M);
  update (λ m, Manager (config_ m) (ctl_OnAllEntriesRemoved (control_ m)) ∅ (sessionPath_ m)
    (nextKeyId_ m) (activeOps_ m) fd (removeAllInProgress_ m) false false).

Definition RemoveSession : st machine unit :=
  (λ M, sysio (RemoveSessionDir (config_ (mc_mgr M)) (sessionPath_ (mc_mgr M))) M);;
  update (λ m, set_session (config_ m) "" (sessionLockFd_ m) m).

Definition Destroy_end (clean : bool) : st machine Z :=
  if negb clean then update (set_shuttingDown false);; sret SWAPFS_E_BUSY
  else RemoveSession;; ClearManager;; sret SWAPFS_E_OK.

Definition Destroy : prog machine Z :=
  _ ⟸ act (update (set_shuttingDown true));
  clean ⟸ act WaitForActiveOps;
  act (Destroy_end clean).

(** The destructor. *)
Definition DestroyManager : prog machine unit :=
  live ⟸ act (locked (λ m, if negb (initialized_ m) then (false, m) else (true, set_shuttingDown true m)));
  if negb live then Ret tt else
  clean ⟸ act WaitForActiveOps;
  act (λ M, if negb (initialized_ (mc_mgr M)) then Some (tt, M)
            else ((if clean : bool then RemoveSession else sret tt);; ClearManager) M).
End manager.
