(* ===== verification/SwapfsConc.v ===== *)
(** * The manager of swapfs under concurrency

    The calls of [SwapfsManager] interleaved action by action.  A thread carries
    a claim on the shared state (an operation it counts as active, a key it
    reads, writes or removes); the invariant ties the manager's counters, the
    provider's ledger, the entries and the files to the claims of all threads;
    [safe] says that a program keeps it. *)

From S2P Require Import Prelude.
From S2P Require Import Posix.
From S2P Require Import SwapfsErr.
From S2P Require Import SwapfsIo.
From S2P Require Import SwapfsControl.
From S2P Require Import SwapfsCleaner.
From S2P Require Import SwapfsUring.
From S2P Require Import SwapfsManager.

(** ** Names of key files *)
Lemma append_inj_tail (a b s t : string) :
  String.length s = String.length t → a +:+ s = b +:+ t → a = b ∧ s = t.
Proof.
  intros Hl. revert b. induction a as [|x a IH]; intros [|y b] H.
  - done.
  - rewrite append_nil_l, append_cons in H. apply (f_equal String.length) in H. cbn in H.
    rewrite length_append in H. lia.
  - rewrite append_nil_l, append_cons in H. apply (f_equal String.length) in H. cbn in H.
    rewrite length_append in H. lia.
  - rewrite !append_cons in H. injection H as -> H. destruct (IH _ H) as [-> ->]. done.
Qed.

Lemma pretty_N_char_slash x : Ascii.eqb (pretty_N_char x) slash = false.
Proof. unfold pretty_N_char. by repeat case_match. Qed.

Lemma pretty_N_go_slash n s : has_slash s = false → has_slash (pretty_N_go n s) = false.
Proof.
  revert s. induction (N.lt_wf_0 n) as [n _ IH]; intros s Hs.
  destruct (decide (n = 0%N)) as [->|Hn]; [by rewrite pretty_N_go_0|].
  rewrite pretty_N_go_step by lia. apply IH; [apply N.div_lt; lia|].
  cbn. by rewrite pretty_N_char_slash.
Qed.

Lemma pretty_Z_slash (k : Z) : has_slash (pretty k) = false.
Proof.
  assert (∀ n : N, has_slash (pretty n) = false) as Hn.
  { intros n. unfold pretty, pretty_N. case_decide; [done|]. by apply pretty_N_go_slash. }
  destruct k as [|p|p]; cbn; [done|apply Hn|].
  change (has_slash ("-" +:+ pretty (N.pos p)) = false). by rewrite has_slash_append, Hn.
Qed.

Section names.
Context (SP : string).

Definition tmpFile (k : Z) : string := KeyFile SP k ".tmp".
Definition swapFile (k : Z) : string := KeyFile SP k ".swap".

Lemma KeyFile_child k ext : KeyFile SP k ext = child (BuildDataRoot SP) (pretty k +:+ ext).
Proof. reflexivity. Qed.
Lemma KeyFile_slash (k : Z) ext :
  has_slash ext = false → has_slash (pretty k +:+ ext) = false.
Proof. intros H. by rewrite has_slash_append, pretty_Z_slash, H. Qed.

Lemma KeyFile_inj (k k' : Z) ext : KeyFile SP k ext = KeyFile SP k' ext → k = k'.
Proof.
  rewrite !KeyFile_child. intros H%child_inj_r%append_inj_r. by apply (inj pretty).
Qed.
Lemma tmp_swap_ne k k' : tmpFile k ≠ swapFile k'.
Proof.
  unfold tmpFile, swapFile. rewrite !KeyFile_child. intros H%child_inj_r.
  change ".tmp" with ("." +:+ "tmp") in H. change ".swap" with (".s" +:+ "wap") in H.
  rewrite <-!append_assoc in H. by apply append_inj_tail in H as [_ ?].
Qed.
Lemma tmp_inj k k' : tmpFile k = tmpFile k' → k = k'.
Proof. apply KeyFile_inj. Qed.
Lemma swap_inj k k' : swapFile k = swapFile k' → k = k'.
Proof. apply KeyFile_inj. Qed.

Lemma KeyFile_not_under (k k' : Z) ext ext' :
  has_slash ext = false → has_slash ext' = false →
  ¬ under (KeyFile SP k ext) (KeyFile SP k' ext').
Proof.
  intros He He' [r H]. rewrite !KeyFile_child, child_assoc in H. apply child_inj_r in H.
  pose proof (KeyFile_slash k' ext' He') as Hs. by rewrite H, has_slash_child in Hs.
Qed.
End names.

(** ** [rename] *)
Lemma moved_preimage old new p q :
  moved old new p = q → q ≠ new → ¬ under new q → p = q.
Proof.
  unfold moved. case_bool_decide; [congruence|]. destruct (below old p) as [r|]; [|done].
  intros <- _ Hu. destruct Hu. apply under_child.
Qed.
Lemma moved_same old new q : q ≠ old → ¬ under old q → moved old new q = q.
Proof.
  intros Hne Hu. unfold moved. rewrite bool_decide_false by done.
  destruct (below old q) as [r|] eqn:E; [|done]. apply below_Some in E as ->.
  destruct Hu. apply under_child.
Qed.
Lemma moved_new old new p : moved old new p = new → p = old ∨ p = new.
Proof.
  unfold moved. case_bool_decide; [by left|]. destruct (below old p) as [r|].
  - intros Hc. exfalso. apply (under_irrefl new). by exists r.
  - auto.
Qed.

(** What a rename of a file does: [new] is what [old] was, others stay. *)
Definition renamed (old new : string) (w w' : world) : Prop :=
  (∀ q, q ≠ old → q ≠ new → ¬ under old q → ¬ under new q → w_fs w' !! q = w_fs w !! q) ∧
  w_fs w' !! new = w_fs w !! old.

Lemma rename_body_spec old new w w' r :
  old ≠ new → rename_body old new w = (r, w') →
  match r with
  | SErr _ => w' = w
  | SOk _ => renamed old new w w' ∧ (world_wf w → world_wf w')
  end.
Proof.
  intros Hne H. unfold rename_body in H. destruct (w_fs w !! old) as [i|] eqn:Hi; [|by simplify_eq].
  rewrite bool_decide_false in H by done.
  destruct (is_dir (w_fs w) new && negb (bool_decide (i_type i = FDir))) eqn:Eb; [by simplify_eq|].
  destruct (dir_names (w_fs w) new) eqn:Hd; [|by simplify_eq]. injection H as <- <-.
  set (l := map _ _).
  assert (Hl : ∀ q j, (q, j) ∈ l ↔ ∃ p, q = moved old new p ∧ p ≠ new ∧ w_fs w !! p = Some j).
  { intros q j. unfold l. rewrite list_elem_of_In, in_map_iff. split.
    - intros ([p j'] & [= <- <-] & Hin). apply list_elem_of_In, elem_of_map_to_list in Hin.
      apply lookup_delete_Some in Hin as [? ?]. eauto.
    - intros (p & -> & Hp & Hj). exists (p, j). split; [done|].
      apply list_elem_of_In, elem_of_map_to_list, lookup_delete_Some. auto. }
  split; [split; cbn|].
  - intros q H1 H2 H3 H4. destruct (w_fs w !! q) as [j|] eqn:Ej.
    + apply elem_of_list_to_map_1'.
      * intros j' (p & Hp & _ & Hj')%Hl. symmetry in Hp. apply moved_preimage in Hp; [|done..].
        congruence.
      * apply Hl. exists q. by rewrite moved_same.
    + apply not_elem_of_list_to_map_1. intros Hin. apply list_elem_of_fmap in Hin as ([q' j] & -> & Hin).
      apply Hl in Hin as (p & Hp & _ & Hj). symmetry in Hp. apply moved_preimage in Hp; [|done..].
      cbn in Ej. congruence.
  - rewrite Hi. apply elem_of_list_to_map_1'.
    + intros j' (p & Hp & Hpn & Hj')%Hl. symmetry in Hp. apply moved_new in Hp as [->|?]; congruence.
    + apply Hl. exists old. unfold moved. by rewrite bool_decide_true.
  - intros Hwf. pose proof (rename_body_wf old new w Hwf) as Hw. unfold rename_body in Hw.
    rewrite Hi, bool_decide_false, Eb, Hd in Hw by done. exact Hw.
Qed.

Lemma wp_rename `{EN : Env} old new Q w :
  old ≠ new → world_wf w →
  (∀ e, Q (SErr e) (tick w)) →
  (∀ w', renamed old new w w' → world_wf w' → Q (SOk tt) w') →
  wp (sys_rename old new) Q w.
Proof.
  intros Hne Hwf He Ho. apply wp_syscall; [auto|]. intros _.
  destruct (rename_body old new (tick w)) as [r w'] eqn:E.
  pose proof (rename_body_spec old new (tick w) w' r Hne E) as H. destruct r as [e|[]]; cbn.
  - by subst.
  - destruct H as [Hr Hw]. apply Ho; [exact Hr|by apply Hw].
Qed.

(** ** Claims of threads *)

(** How far the file of a swap-out is. *)
Inductive stage := SNone | STmp (d : list Z) | SSwap (d : list Z).

Inductive claim :=
  | Idle                                            (** nothing *)
  | Active                                          (** counted in [activeOps_] *)
  | Out (k n : Z) (reserved : bool) (st : stage)    (** swapping [n] bytes out as [k] *)
  | Reading (k : Z)                                 (** counted in [readCount] of [k] *)
  | Removing (k : Z) (gone : bool)                  (** the remover of [k] *)
  | RemovingAll (ks gone : gset Z)                  (** the remover of every key *)
  | Destroying (step : nat).                        (** 0 begun, 1 waiting, 2 nobody active *)

Definition c_active (c : claim) : Z := match c with Idle | Destroying _ => 0 | _ => 1 end.
Definition c_reserved (c : claim) : Z := match c with Out _ n true _ => n | _ => 0 end.
Definition c_out (k : Z) (c : claim) : Z :=
  match c with Out k' _ _ _ => Z.b2z (bool_decide (k' = k)) | _ => 0 end.
Definition c_read (k : Z) (c : claim) : Z :=
  match c with Reading k' => Z.b2z (bool_decide (k' = k)) | _ => 0 end.
Definition c_remove (k : Z) (c : claim) : Z :=
  match c with
  | Removing k' _ => Z.b2z (bool_decide (k' = k)) | RemovingAll _ _ => 1 | _ => 0 end.
Definition c_gone (k : Z) (c : claim) : Z :=
  match c with
  | Removing k' true => Z.b2z (bool_decide (k' = k))
  | RemovingAll _ g => Z.b2z (bool_decide (k ∈ g)) | _ => 0 end.
Definition c_all (c : claim) : Z := match c with RemovingAll _ _ => 1 | _ => 0 end.
Definition c_destroy (c : claim) : Z := match c with Destroying _ => 1 | _ => 0 end.

Abbreviation claims := (gmap nat claim).

Section weights.
Implicit Types (R : claims).

Lemma msum_unit_le_size (f : claim → Z) R :
  (∀ c, 0 <= f c <= 1) → 0 <= msum f R <= Z.of_nat (size R).
Proof.
  intros Hf. split; [apply msum_nonneg; intros; apply Hf|].
  replace (Z.of_nat (size R)) with (1 * Z.of_nat (size R)) by lia.
  rewrite <-msum_const. apply msum_le. intros; apply Hf.
Qed.

Lemma b2z_range b : 0 <= Z.b2z b <= 1.
Proof. destruct b; cbn; lia. Qed.
Lemma c_active_range c : 0 <= c_active c <= 1.
Proof. destruct c; cbn; lia. Qed.
Lemma c_out_range k c : 0 <= c_out k c <= 1.
Proof. destruct c; cbn; try lia; apply b2z_range. Qed.
Lemma c_read_range k c : 0 <= c_read k c <= 1.
Proof. destruct c; cbn; try lia; apply b2z_range. Qed.
Lemma c_remove_range k c : 0 <= c_remove k c <= 1.
Proof. destruct c; cbn; try lia; apply b2z_range. Qed.
Lemma c_gone_range k c : 0 <= c_gone k c <= 1.
Proof. destruct c as [| | | |? []|ks g|]; cbn; try lia; apply b2z_range. Qed.
Lemma c_gone_remove k c : c_gone k c <= c_remove k c.
Proof. destruct c as [| | | |? []|ks g|]; cbn; try lia; apply b2z_range. Qed.
Lemma c_all_range c : 0 <= c_all c <= 1.
Proof. destruct c; cbn; lia. Qed.
Lemma c_destroy_range c : 0 <= c_destroy c <= 1.
Proof. destruct c; cbn; lia. Qed.

(** A sum of at most one leaves room for one thread. *)
Lemma msum_unique (f : claim → Z) R t t' c c' :
  (∀ c, 0 <= f c) → msum f R <= 1 → R !! t = Some c → R !! t' = Some c' →
  0 < f c → 0 < f c' → t = t'.
Proof.
  intros Hf Hs Ht Ht' Hc Hc'. destruct (decide (t = t')) as [|Hne]; [done|]. exfalso.
  rewrite (msum_delete f R t c Ht) in Hs.
  assert (f c' <= msum f (delete t R)) as Hge; [|lia].
  apply (msum_ge f _ t' c'); [intros; apply Hf|by rewrite lookup_delete_ne].
Qed.
End weights.

(** Compute the projections of a manager given by its fields. *)
Ltac mgr_cbn :=
  cbn [mc_mgr mc_ur config_ control_ entries_ sessionPath_ nextKeyId_ activeOps_ sessionLockFd_
       removeAllInProgress_ initialized_ shuttingDown_ set_entries set_control set_activeOps
       set_removeAll set_shuttingDown set_session set_initialized].

(** ** The invariant *)
Section invariant.
Context {EN : Env} {LU : Liburing} {C : Type} {CP : SwapControlProvider C} {CL : SwapControlLaws C}.
Context (SP : string).

(** Files of the machine. *)
Definition fs_of (M : @machine C) : gmap string inode := w_fs (us_world (mc_ur M)).

Definition file_holds (fs : gmap string inode) (p : string) (d : list Z) : Prop :=
  ∃ i, fs !! p = Some i ∧ i_data i = d.

Definition stage_ok (fs : gmap string inode) (k n : Z) (st : stage) : Prop :=
  match st with
  | SNone => True
  | STmp d => file_holds fs (tmpFile SP k) d ∧ Z.of_nat (length d) = n
  | SSwap d => file_holds fs (swapFile SP k) d ∧ Z.of_nat (length d) = n
  end.

Definition entry_ok (fs : gmap string inode) (R : claims) (D : gmap Z (list Z)) (next k : Z)
    (e : SwapKeyEntry) : Prop :=
  keyId e = k ∧ 1 <= k < next ∧ path e = swapFile SP k ∧ 0 < dataSize e ∧
  readCount e = msum (c_read k) R ∧
  match status e with
  | OH_SWAPFS_KEY_STATUS_ACTIVE => msum (c_remove k) R = 0
  | OH_SWAPFS_KEY_STATUS_REMOVING =>
      0 < msum (c_read k) R ∧ msum (c_remove k) R = 0 ∨
      msum (c_read k) R = 0 ∧ msum (c_remove k) R = 1
  end ∧
  ∃ d, D !! k = Some d ∧ dataSize e = Z.of_nat (length d) ∧
    (msum (c_gone k) R = 0 → file_holds fs (swapFile SP k) d).

(** What one claim says. *)
Definition claim_ok (m : @SwapfsManager C) (fs : gmap string inode) (c : claim) : Prop :=
  match c with
  | Out k n _ st => 1 <= k < nextKeyId_ m ∧ 0 < n < 2 ^ 64 ∧ stage_ok fs k n st
  | RemovingAll ks _ => dom (entries_ m) = ks
  | Destroying (S j) => shuttingDown_ m = true ∧ (j = 0%nat ∨ activeOps_ m = 0)
  | _ => True
  end.

(** [D] is (ghost) the bytes swapped out under each key. *)
Record Inv (M : @machine C) (R : claims) (D : gmap Z (list Z)) : Prop := {
  inv_wf : world_wf (us_world (mc_ur M));
  inv_ops : activeOps_ (mc_mgr M) = msum c_active R;
  inv_size : Z.of_nat (size R) < 2 ^ 32;
  inv_next : 1 <= nextKeyId_ (mc_mgr M) < 2 ^ 64;
  inv_ctl : ctl_ok (control_ (mc_mgr M));
  inv_keys : l_keys (ledger_of (control_ (mc_mgr M))) = Z.of_nat (size (entries_ (mc_mgr M)));
  inv_occ : l_occ (ledger_of (control_ (mc_mgr M))) = msum dataSize (entries_ (mc_mgr M));
  inv_data : l_data (ledger_of (control_ (mc_mgr M))) = l_occ (ledger_of (control_ (mc_mgr M)));
  inv_pend : l_pend (ledger_of (control_ (mc_mgr M))) = msum c_reserved R;
  inv_entry : ∀ k e, entries_ (mc_mgr M) !! k = Some e →
    entry_ok (fs_of M) R D (nextKeyId_ (mc_mgr M)) k e;
  inv_absent : ∀ k, entries_ (mc_mgr M) !! k = None →
    msum (c_read k) R = 0 ∧ msum (c_remove k) R = msum c_all R;
  inv_claim : ∀ t c, R !! t = Some c → claim_ok (mc_mgr M) (fs_of M) c;
  inv_out : ∀ k, msum (c_out k) R <= 1 ∧
    (msum (c_out k) R = 1 → entries_ (mc_mgr M) !! k = None ∧ D !! k = None);
  inv_all : msum c_all R = Z.b2z (removeAllInProgress_ (mc_mgr M)) ∧
    (msum c_all R = 1 → ∀ k, msum (c_out k) R = 0);
  inv_destroy : msum c_destroy R <= 1;
  inv_up : if initialized_ (mc_mgr M) then sessionPath_ (mc_mgr M) = SP
           else entries_ (mc_mgr M) = ∅ ∧ msum c_active R = 0;
  inv_D : ∀ k d, D !! k = Some d → k < nextKeyId_ (mc_mgr M)
}.

(** ** Safe programs *)

(** From any state in which its thread has the claim [c] and [K] is known of the
    data, the action keeps the invariant and [Φ] holds of its answer and of what
    the thread then has. *)
Definition step {B} (a : st (@machine C) B) (c : claim) (K : gmap Z (list Z))
    (Φ : B → claim → gmap Z (list Z) → Prop) : Prop :=
  ∀ M R D t, Inv M R D → R !! t = Some c → K ⊆ D → nextKeyId_ (mc_mgr M) < 2 ^ 64 - 1 →
  wp a (λ b M', ∃ c' K' D', (D ⊆ D') ∧ (K' ⊆ D') ∧ c_destroy c' = c_destroy c ∧
    Inv M' (<[t := c']> R) D' ∧ Φ b c' K') M.

Fixpoint safe {A} (p : prog (@machine C) A) (Q : A → claim → gmap Z (list Z) → Prop) (c : claim)
    (K : gmap Z (list Z)) : Prop :=
  match p with
  | Ret a => Q a c K
  | Act m k => step m c K (λ b c' K', safe (k b) Q c' K')
  end.

Lemma step_mono {B} (a : st (@machine C) B) c K (Φ Ψ : B → claim → gmap Z (list Z) → Prop) :
  (∀ b c' K', Φ b c' K' → Ψ b c' K') → step a c K Φ → step a c K Ψ.
Proof.
  intros H Ha M R D t HI Ht HK Hn. eapply wp_mono; [|by apply (Ha M R D t)].
  intros b M' (c' & K' & D' & ?&?&?&?&?). exists c', K', D'. auto 10.
Qed.

Lemma safe_mono {A} (p : prog (@machine C) A) Q Q' c K :
  (∀ a c K, Q a c K → Q' a c K) → safe p Q c K → safe p Q' c K.
Proof.
  intros H. revert c K. induction p as [a|B m k IH]; intros c K; cbn; [apply H|].
  apply step_mono. intros b c' K'. apply IH.
Qed.
Lemma safe_bind {A B} (p : prog (@machine C) A) (f : A → prog (@machine C) B) Q c K :
  safe p (λ a c' K', safe (f a) Q c' K') c K → safe (pbind p f) Q c K.
Proof.
  revert c K. induction p as [a|B0 m k IH]; intros c K; cbn; [done|].
  apply step_mono. intros b c' K'. apply IH.
Qed.
Lemma safe_act {B} (a : st (@machine C) B) Q c K : step a c K Q → safe (act a) Q c K.
Proof. done. Qed.

(** ** Sums after one claim changed *)
Lemma sum_upd (f : claim → Z) (R : claims) t c c' :
  R !! t = Some c → msum f (<[t := c']> R) = msum f R - f c + f c'.
Proof. apply msum_update. Qed.
Lemma size_upd (R : claims) t c c' : R !! t = Some c → size (<[t := c']> R) = size R.
Proof. intros Ht. apply map_size_insert_Some. by exists c. Qed.

Lemma sum_ge (f : claim → Z) (R : claims) t c :
  (∀ c, 0 <= f c) → R !! t = Some c → f c <= msum f R.
Proof. intros Hf Ht. apply (msum_ge f R t c); [intros; apply Hf|done]. Qed.

(** The reader and active counts do not wrap. *)
Lemma inv_ops_room M R D t c :
  Inv M R D → R !! t = Some c → c_active c = 0 → activeOps_ (mc_mgr M) +₃₂ 1 = activeOps_ (mc_mgr M) + 1.
Proof.
  intros HI Ht Hc. pose proof (inv_ops _ _ _ HI) as Ho. pose proof (inv_size _ _ _ HI) as Hs.
  pose proof (msum_unit_le_size c_active R c_active_range).
  pose proof (msum_unit_le_size c_active (<[t := Active]> R) c_active_range) as H2.
  rewrite (sum_upd _ _ _ _ _ Ht), (size_upd _ _ _ _ Ht) in H2. cbn in H2.
  apply u32_id. lia.
Qed.
Lemma read_room M R D t c k :
  Inv M R D → R !! t = Some c → c_read k c = 0 → msum (c_read k) R +₃₂ 1 = msum (c_read k) R + 1.
Proof.
  intros HI Ht Hc. pose proof (inv_size _ _ _ HI) as Hs.
  pose proof (msum_unit_le_size (c_read k) R (c_read_range k)).
  pose proof (msum_unit_le_size (c_read k) (<[t := Reading k]> R) (c_read_range k)) as H2.
  rewrite (sum_upd _ _ _ _ _ Ht), (size_upd _ _ _ _ Ht) in H2. cbn in H2.
  rewrite bool_decide_true in H2 by done. cbn in H2. apply u32_id. lia.
Qed.

(** A key being removed is an entry, hence not being swapped out. *)
Lemma gone_not_out M R D t t' c c' k n b sg :
  Inv M R D → R !! t = Some c → R !! t' = Some (Out k n b sg) →
  c_remove k c' = c_remove k c → c_all c' = c_all c → c_gone k c' ≠ 0 → False.
Proof.
  intros HI Ht Ht' Hrem Hall Hg.
  destruct HI as [I1 I2 I3 I4 I5 I6 I7 I8 I9 I10 I11 I12 I13 I14 I15 I16 I17].
  assert (0 < c_remove k c') as Hr.
  { pose proof (c_gone_range k c'). destruct c' as [| | | |k' []|ks g|]; cbn in Hg |- *; try lia.
    destruct (bool_decide (k' = k)) eqn:E; cbn in *; lia. }
  assert (msum (c_out k) R = 1) as Hout1.
  { destruct (I13 k) as [Hle _].
    pose proof (sum_ge (c_out k) R t' _ (λ c, proj1 (c_out_range k c)) Ht') as Hge.
    cbn in Hge. rewrite bool_decide_true in Hge by done. cbn in Hge. lia. }
  destruct (I13 k) as [_ Hnone]. destruct (Hnone Hout1) as [He _].
  destruct (I11 k He) as [_ Hra]. rewrite Hrem in Hr.
  pose proof (sum_ge (c_remove k) R t c (λ c, proj1 (c_remove_range k c)) Ht).
  pose proof (c_all_range c). destruct I14 as [Ia Ib].
  assert (msum c_all R = 1) as Hall1.
  { pose proof (b2z_range (removeAllInProgress_ (mc_mgr M))). lia. }
  rewrite Ib in Hout1; done.
Qed.

(** An action on files only. *)
Lemma Inv_io M ur' R D t c c' :
  Inv M R D → R !! t = Some c → world_wf (us_world ur') →
  c_active c' = c_active c → c_reserved c' = c_reserved c → (∀ k, c_out k c' = c_out k c) →
  (∀ k, c_read k c' = c_read k c) → (∀ k, c_remove k c' = c_remove k c) →
  (∀ k, c_gone k c <= c_gone k c') → c_all c' = c_all c → c_destroy c' = c_destroy c →
  claim_ok (mc_mgr M) (w_fs (us_world ur')) c' →
  (∀ k i, c_out k c = 0 → c_gone k c' = 0 →
     (fs_of M !! tmpFile SP k = Some i → w_fs (us_world ur') !! tmpFile SP k = Some i) ∧
     (fs_of M !! swapFile SP k = Some i → w_fs (us_world ur') !! swapFile SP k = Some i)) →
  Inv (Machine (mc_mgr M) ur') (<[t := c']> R) D.
Proof.
  intros HI Ht Hwf Ha Hres Hout Hread Hrem Hgone Hall Hdes Hcl Hfile.
  pose proof HI as [I1 I2 I3 I4 I5 I6 I7 I8 I9 I10 I11 I12 I13 I14 I15 I16 I17].
  assert (Hs : ∀ f, f c' = f c → msum f (<[t := c']> R) = msum f R).
  { intros f E. rewrite (sum_upd f _ _ _ _ Ht). lia. }
  constructor; cbn [mc_mgr mc_ur]; try done.
  - by rewrite Hs.
  - by rewrite (size_upd _ _ _ _ Ht).
  - by rewrite Hs.
  - intros k e He. destruct (I10 k e He) as (E1 & E2 & E3 & E4 & E5 & E6 & d & E7 & E8 & E9).
    unfold entry_ok. rewrite (Hs _ (Hread k)), (Hs _ (Hrem k)).
    do 6 (split; [done|]). exists d. split; [done|].
    split; [done|]. intros Hg. rewrite (sum_upd _ _ _ _ _ Ht) in Hg. specialize (Hgone k).
    pose proof (sum_ge (c_gone k) R t c (λ c, proj1 (c_gone_range k c)) Ht).
    pose proof (c_gone_range k c). pose proof (c_gone_range k c').
    destruct E9 as (i & Hi & Hd); [lia|]. exists i. split; [|done].
    apply (Hfile k i); [|lia|done].
    destruct (I13 k) as [Hle Hnone]. pose proof (c_out_range k c).
    pose proof (sum_ge (c_out k) R t c (λ c, proj1 (c_out_range k c)) Ht).
    destruct (decide (c_out k c = 0)) as [|Hne]; [done|].
    destruct Hnone as [Hnone _]; [lia|]. congruence.
  - intros k Hk. rewrite (Hs _ (Hread k)), (Hs _ (Hrem k)), (Hs _ Hall). by apply I11.
  - intros t' c1 [[<- <-]|[Hne Ht']]%lookup_insert_Some; [done|].
    specialize (I12 t' c1 Ht'). destruct c1 as [| |k n b sg| | |ks g|[|j]]; try done.
    destruct I12 as (K1 & K2 & K3). split; [done|]. split; [done|].
    assert (c_out k c = 0) as Ho.
    { destruct (I13 k) as [Hle _]. pose proof (c_out_range k c).
      destruct (decide (c_out k c = 0)) as [|Hn0]; [done|]. exfalso. apply Hne.
      apply (msum_unique (c_out k) R t t' c (Out k n b sg)); try done.
      - intros c0. apply c_out_range.
      - lia.
      - cbn. by rewrite bool_decide_true. }
    destruct (decide (c_gone k c' = 0)) as [Hg|Hg].
    + destruct sg as [|d|d]; cbn in *; [done|..]; destruct K3 as [(i & Hi & Hd) Hl];
        (split; [|done]); exists i; (split; [|done]); by apply (Hfile k i).
    + exfalso. by eapply (gone_not_out M R D t t' c c' k).
  - intros k. rewrite (Hs _ (Hout k)). apply I13.
  - rewrite (Hs _ Hall). destruct I14 as [Ia Ib]. split; [done|]. intros H1 k.
    rewrite (Hs _ (Hout k)). by apply Ib.
  - by rewrite Hs.
  - destruct (initialized_ _); [done|]. by rewrite Hs.
Qed.

(** ** Actions on files *)
Definition same_weights (c c' : claim) : Prop :=
  c_active c' = c_active c ∧ c_reserved c' = c_reserved c ∧ (∀ k, c_out k c' = c_out k c) ∧
  (∀ k, c_read k c' = c_read k c) ∧ (∀ k, c_remove k c' = c_remove k c) ∧
  (∀ k, c_gone k c <= c_gone k c') ∧ c_all c' = c_all c ∧ c_destroy c' = c_destroy c.

Lemma same_weights_refl c : same_weights c c.
Proof. by split_and!. Qed.
Lemma same_weights_out k n b st st' : same_weights (Out k n b st) (Out k n b st').
Proof. by split_and!. Qed.

(** The files of keys that the claims [c] and [c'] do not own are kept. *)
Definition keeps_files (c c' : claim) (fs fs' : gmap string inode) : Prop :=
  ∀ k i, c_out k c = 0 → c_gone k c' = 0 →
    (fs !! tmpFile SP k = Some i → fs' !! tmpFile SP k = Some i) ∧
    (fs !! swapFile SP k = Some i → fs' !! swapFile SP k = Some i).

Lemma step_uring {B} (u : st ustate B) c K Φ :
  (∀ M R D t, Inv M R D → R !! t = Some c → K ⊆ D →
    wp u (λ b ur', ∃ c', same_weights c c' ∧ world_wf (us_world ur') ∧
      claim_ok (mc_mgr M) (w_fs (us_world ur')) c' ∧
      keeps_files c c' (fs_of M) (w_fs (us_world ur')) ∧ Φ b c' K) (mc_ur M)) →
  step (uring u) c K Φ.
Proof.
  intros H M R D t HI Ht HK _. specialize (H M R D t HI Ht HK).
  unfold wp, uring in *. destruct (u (mc_ur M)) as [[b ur']|]; [|done].
  destruct H as (c' & (W1 & W2 & W3 & W4 & W5 & W6 & W7 & W8) & Hwf & Hcl & Hf & HΦ).
  exists c', K, D. split_and!; try done. by eapply Inv_io.
Qed.

Lemma step_sysio {B} (i : io B) c K Φ :
  (∀ M R D t, Inv M R D → R !! t = Some c → K ⊆ D →
    wp i (λ b w', ∃ c', same_weights c c' ∧ world_wf w' ∧ claim_ok (mc_mgr M) (w_fs w') c' ∧
      keeps_files c c' (fs_of M) (w_fs w') ∧ Φ b c' K) (us_world (mc_ur M))) →
  step (sysio i) c K Φ.
Proof.
  intros H. apply step_uring. intros M R D t HI Ht HK. specialize (H M R D t HI Ht HK).
  unfold wp, lift in *. by destruct (i (us_world (mc_ur M))) as [[b w']|].
Qed.

(** What the claim of a thread says, from the invariant. *)
Lemma inv_own M R D t c : Inv M R D → R !! t = Some c → claim_ok (mc_mgr M) (fs_of M) c.
Proof. intros HI Ht. exact (inv_claim _ _ _ HI t c Ht). Qed.

Lemma out_other k n b st k' : c_out k' (Out k n b st) = 0 → k' ≠ k.
Proof. cbn. intros H ->. by rewrite bool_decide_true in H. Qed.

Lemma keeps_files_out k n b st c' fs fs' :
  (∀ q, q ≠ tmpFile SP k → q ≠ swapFile SP k → fs' !! q = fs !! q) →
  keeps_files (Out k n b st) c' fs fs'.
Proof.
  intros H k' i Hne%out_other _. split; intros Hi; rewrite H; try done.
  - by intros ?%tmp_inj.
  - apply tmp_swap_ne.
  - intros E. by apply (tmp_swap_ne SP k k').
  - by intros ?%swap_inj.
Qed.

Lemma step_write k n b dio K :
  n = Z.of_nat (length (buf_bytes b)) →
  step (sysio (SyncWrite (tmpFile SP k) (Some b) dio)) (Out k n true SNone) K (λ r c' K', K' = K ∧
    c' = Out k n true (if r =? SWAPFS_E_OK then STmp (buf_bytes b) else SNone)).
Proof.
  intros Hn. apply step_sysio. intros M R D t HI Ht HK.
  pose proof (inv_own _ _ _ _ _ HI Ht) as (C1 & C2 & _).
  eapply wp_mono; [|apply SyncWrite_spec; exact (inv_wf _ _ _ HI)].
  intros r w' [(Hwf & _ & _ & Hq) Hok]. eexists. split; [apply same_weights_out|].
  split; [done|]. split; [|split; [|done]].
  - split; [done|]. split; [done|]. destruct (r =? SWAPFS_E_OK) eqn:E; zbool; [|done].
    destruct (Hok E) as (b' & i & [= <-] & Hi & _ & Hd). split; [by exists i|done].
  - apply keeps_files_out. intros q H1 _. by apply Hq.
Qed.

Lemma step_rename k n d K :
  step (sysio (sys_rename (tmpFile SP k) (swapFile SP k))) (Out k n true (STmp d)) K (λ r c' K',
    K' = K ∧ c' = Out k n true (match r with SOk _ => SSwap d | SErr _ => STmp d end)).
Proof.
  apply step_sysio. intros M R D t HI Ht HK.
  pose proof (inv_own _ _ _ _ _ HI Ht) as (C1 & C2 & (i & Hi & Hd) & Hl).
  apply wp_rename; [apply tmp_swap_ne|exact (inv_wf _ _ _ HI)|..].
  - intros e. eexists. split; [apply same_weights_out|]. split; [exact (inv_wf _ _ _ HI)|].
    split; [|split; [by intros k' i' _ _|done]]. split; [done|]. split; [done|].
    split; [by exists i|done].
  - intros w' [Hq Hnew] Hwf. eexists. split; [apply same_weights_out|]. split; [done|].
    split; [|split; [|done]].
    + split; [done|]. split; [done|]. split; [|done]. exists i. rewrite Hnew. done.
    + intros k' j Hk%out_other _.
      assert (∀ ext, has_slash ext = false →
        ¬ under (tmpFile SP k) (KeyFile SP k' ext) ∧ ¬ under (swapFile SP k) (KeyFile SP k' ext))
        as Hu by (intros ext He; split; by apply KeyFile_not_under).
      split; intros Hj; rewrite Hq; try done; try (by apply Hu).
      * by intros ?%tmp_inj.
      * apply tmp_swap_ne.
      * intros E. by apply (tmp_swap_ne SP k k').
      * by intros ?%swap_inj.
Qed.

Lemma RemoveSwapFile_spec p ignoreMissing w :
  world_wf w →
  wp (RemoveSwapFile p ignoreMissing) (λ r w', world_wf w' ∧
    (∀ q, q ≠ p → w_fs w' !! q = w_fs w !! q) ∧
    (ignoreMissing = false → r ≠ SWAPFS_E_OK → w_fs w' = w_fs w)) w.
Proof.
  intros Hwf. unfold RemoveSwapFile. apply wp_bind, wp_unlink.
  - intros e _. destruct (ignoreMissing && (e =? ENOENT)); by apply wp_ret.
  - intros i Hi Hd. apply wp_ret. split; [|split; [|done]].
    + by apply (removal_delete (λ _, True)).
    + intros q Hne. cbn. by rewrite lookup_delete_ne.
Qed.

Lemma step_remove_tmp k n b st K :
  step (sysio (RemoveSwapFile (tmpFile SP k) true)) (Out k n b st) K (λ _ c' K',
    K' = K ∧ c' = Out k n b SNone).
Proof.
  apply step_sysio. intros M R D t HI Ht HK.
  pose proof (inv_own _ _ _ _ _ HI Ht) as (C1 & C2 & _).
  eapply wp_mono; [|apply RemoveSwapFile_spec; exact (inv_wf _ _ _ HI)].
  intros r w' (Hwf & Hq & _). exists (Out k n b SNone). split; [apply same_weights_out|].
  split; [done|]. split; [by do 2 (split; [done|])|]. split; [|done]. apply keeps_files_out. intros q H _. by apply Hq.
Qed.

Lemma step_remove_swap k K :
  step (sysio (RemoveSwapFile (swapFile SP k) false)) (Removing k false) K (λ r c' K',
    K' = K ∧ c' = Removing k (r =? SWAPFS_E_OK)).
Proof.
  apply step_sysio. intros M R D t HI Ht HK.
  eapply wp_mono; [|apply RemoveSwapFile_spec; exact (inv_wf _ _ _ HI)].
  intros r w' (Hwf & Hq & Hsame). exists (Removing k (r =? SWAPFS_E_OK)).
  destruct (r =? SWAPFS_E_OK) eqn:E; zbool; (split; [split_and!; try done; intros; cbn; try apply b2z_range; lia|]);
    (split; [done|]); (split; [done|]); (split; [|done]).
  - intros k' i _ Hg. cbn in Hg. assert (k ≠ k') as Hne.
    { intros ->. by rewrite bool_decide_true in Hg. }
    split; intros Hi; rewrite Hq; try done.
    + apply tmp_swap_ne.
    + by intros ?%swap_inj.
  - intros k' i _ _. unfold fs_of. by rewrite Hsame.
Qed.

Lemma step_remove_all_swap k ks g K :
  step (sysio (RemoveSwapFile (swapFile SP k) false)) (RemovingAll ks g) K (λ r c' K',
    K' = K ∧ c' = RemovingAll ks (if r =? SWAPFS_E_OK then {[k]} ∪ g else g)).
Proof.
  apply step_sysio. intros M R D t HI Ht HK.
  eapply wp_mono; [|apply RemoveSwapFile_spec; exact (inv_wf _ _ _ HI)].
  intros r w' (Hwf & Hq & Hsame). exists (RemovingAll ks (if r =? SWAPFS_E_OK then {[k]} ∪ g else g)).
  split; [|split; [done|split; [exact (inv_own _ _ _ _ _ HI Ht)|split; [|done]]]].
  - split_and!; try done. intros k'. cbn. destruct (r =? SWAPFS_E_OK); [|done].
    destruct (decide (k' ∈ g)) as [Hin|Hin].
    + rewrite (bool_decide_true (k' ∈ {[k]} ∪ g)) by set_solver. apply b2z_range.
    + rewrite bool_decide_false by done. apply b2z_range.
  - destruct (r =? SWAPFS_E_OK) eqn:E; zbool.
    + intros k' i _ Hg. cbn in Hg. assert (k ≠ k') as Hne.
      { intros ->. rewrite bool_decide_true in Hg by set_solver. done. }
      split; intros Hi; rewrite Hq; try done.
      * apply tmp_swap_ne.
      * by intros ?%swap_inj.
    + intros k' i _ _. unfold fs_of. by rewrite Hsame.
Qed.

Lemma step_now c K :
  step (sysio NowMs) c K (λ _ c' K', K' = K ∧ c' = c).
Proof.
  apply step_sysio. intros M R D t HI Ht HK. unfold NowMs. apply wp_ask.
  exists c. split; [apply same_weights_refl|]. split; [exact (inv_wf _ _ _ HI)|].
  split; [exact (inv_own _ _ _ _ _ HI Ht)|]. split; [|done]. by intros k i _ _.
Qed.

(** ** Actions on counters *)

(** An entry after a claim changed that does not bear on it. *)
Lemma entry_ok_upd fs R D next next' k e t c c' :
  R !! t = Some c → c_read k c' = c_read k c → c_remove k c' = c_remove k c →
  c_gone k c <= c_gone k c' → next <= next' →
  entry_ok fs R D next k e → entry_ok fs (<[t := c']> R) D next' k e.
Proof.
  intros Ht H1 H2 H3 Hn (E1 & E2 & E3 & E4 & E5 & E6 & d & E7 & E8 & E9). unfold entry_ok.
  rewrite !(sum_upd _ _ _ _ _ Ht), H1, H2, !Z.sub_add.
  split; [done|]. split; [lia|]. do 4 (split; [done|]). exists d. split; [done|]. split; [done|].
  pose proof (sum_ge (c_gone k) R t c (λ c, proj1 (c_gone_range k c)) Ht).
  pose proof (c_gone_range k c'). pose proof (c_gone_range k c). intros Hg. apply E9. lia.
Qed.

(** Two destroying threads are one. *)
Lemma destroy_unique M R D t t' j j' :
  Inv M R D → R !! t = Some (Destroying j) → R !! t' = Some (Destroying j') → t = t'.
Proof.
  intros HI Ht Ht'. apply (msum_unique c_destroy R t t' _ _ (λ c, proj1 (c_destroy_range c))
    (inv_destroy _ _ _ HI) Ht Ht'); cbn; lia.
Qed.

Definition with_counters (m : @SwapfsManager C) (ctl : C) (ops : Z) : SwapfsManager :=
  Manager (config_ m) ctl (entries_ m) (sessionPath_ m) (nextKeyId_ m) ops (sessionLockFd_ m)
    (removeAllInProgress_ m) (initialized_ m) (shuttingDown_ m).

Lemma Inv_counters M R D t c c' ctl ops ur' :
  Inv M R D → R !! t = Some c → same_files (us_world (mc_ur M)) (us_world ur') →
  (∀ k, c_out k c' <= c_out k c) → (∀ k, c_read k c' = c_read k c) →
  (∀ k, c_remove k c' = c_remove k c) → (∀ k, c_gone k c <= c_gone k c') → c_all c' = c_all c →
  c_destroy c' = c_destroy c →
  ops = activeOps_ (mc_mgr M) - c_active c + c_active c' →
  (c_active c < c_active c' → initialized_ (mc_mgr M) = true ∧ shuttingDown_ (mc_mgr M) = false) →
  ctl_ok ctl →
  (let l := ledger_of (control_ (mc_mgr M)) in ledger_of ctl =
     Ledger (l_keys l) (l_data l) (l_occ l) (l_pend l - c_reserved c + c_reserved c') (l_limit l)) →
  claim_ok (with_counters (mc_mgr M) ctl ops) (fs_of M) c' →
  Inv (Machine (with_counters (mc_mgr M) ctl ops) ur') (<[t := c']> R) D.
Proof.
  intros HI Ht (F1 & F2 & F3) Hout Hread Hrem Hgone Hall Hdes Hops Hact Hctl Hled Hcl.
  pose proof HI as [I1 I2 I3 I4 I5 I6 I7 I8 I9 I10 I11 I12 I13 I14 I15 I16 I17].
  cbn zeta in Hled. constructor; unfold with_counters; mgr_cbn; rewrite ?(size_upd _ _ _ _ Ht);
    try done.
  - unfold world_wf in *. by rewrite F1, F2, F3.
  - rewrite (sum_upd _ _ _ _ _ Ht), Hops. lia.
  - by rewrite Hled.
  - by rewrite Hled.
  - by rewrite Hled.
  - rewrite Hled, (sum_upd _ _ _ _ _ Ht). cbn. lia.
  - intros k e He. unfold fs_of. cbn [mc_ur]. rewrite F1.
    eapply (entry_ok_upd _ _ _ (nextKeyId_ (mc_mgr M))); eauto; try lia.
  - intros k Hk. rewrite !(sum_upd _ _ _ _ _ Ht), Hread, Hrem, Hall, !Z.sub_add. by apply I11.
  - intros t' c1 [[<- <-]|[Hne Ht']]%lookup_insert_Some; unfold fs_of; cbn [mc_ur]; rewrite F1; [done|].
    specialize (I12 t' c1 Ht'). destruct c1 as [| |k n b sg| | |ks g|[|j]]; try done.
    destruct I12 as [Hsd Hj]. split; [done|]. destruct Hj as [?|Hj]; [by left|].
    cbn. destruct (decide (c_active c < c_active c')) as [Hlt|Hge].
    + destruct (Hact Hlt). congruence.
    + right. pose proof (sum_ge c_active R t c (λ c, proj1 (c_active_range c)) Ht).
      pose proof (c_active_range c'). lia.
  - intros k. specialize (Hout k). destruct (I13 k) as [H1 H2].
    rewrite (sum_upd _ _ _ _ _ Ht). split; [lia|]. intros E. apply H2.
    pose proof (c_out_range k c). lia.
  - rewrite (sum_upd _ _ _ _ _ Ht), Hall, Z.sub_add. destruct I14 as [Ia Ib]. split; [done|].
    intros E k. rewrite (sum_upd _ _ _ _ _ Ht). specialize (Ib E k). specialize (Hout k).
    pose proof (sum_ge (c_out k) R t c (λ c, proj1 (c_out_range k c)) Ht).
    pose proof (c_out_range k c'). lia.
  - rewrite (sum_upd _ _ _ _ _ Ht). lia.
  - destruct (initialized_ (mc_mgr M)) eqn:Ei; [done|]. destruct I16 as [He Ha]. split; [done|].
    rewrite (sum_upd _ _ _ _ _ Ht).
    pose proof (sum_ge c_active R t c (λ c, proj1 (c_active_range c)) Ht).
    destruct (decide (c_active c < c_active c')) as [Hlt|Hge]; [destruct (Hact Hlt); congruence|].
    pose proof (c_active_range c'). pose proof (c_active_range c). lia.
Qed.

(** A counters-only change, when the claim stays. *)
Lemma Inv_id M R D t c : Inv M R D → R !! t = Some c → Inv M (<[t := c]> R) D.
Proof. intros HI Ht. by rewrite insert_id. Qed.

Lemma ledger_eta (l : ledger) a b :
  a = b → l = Ledger (l_keys l) (l_data l) (l_occ l) (l_pend l - a + b) (l_limit l).
Proof. intros ->. destruct l. cbn. f_equal. lia. Qed.

Lemma step_controlio {B} (f : C → io (B * C)) c K (Φ : B → claim → gmap Z (list Z) → Prop) :
  (∀ M R D t, Inv M R D → R !! t = Some c →
    wp (f (control_ (mc_mgr M))) (λ '(b, ctl) w', ∃ c', same_files (us_world (mc_ur M)) w' ∧
      (c_active c' = c_active c ∧ (∀ k, c_out k c' = c_out k c) ∧ (∀ k, c_read k c' = c_read k c) ∧
       (∀ k, c_remove k c' = c_remove k c) ∧ (∀ k, c_gone k c' = c_gone k c) ∧ c_all c' = c_all c ∧
       c_destroy c' = c_destroy c) ∧
      ctl_ok ctl ∧
      (let l := ledger_of (control_ (mc_mgr M)) in ledger_of ctl =
        Ledger (l_keys l) (l_data l) (l_occ l) (l_pend l - c_reserved c + c_reserved c') (l_limit l)) ∧
      claim_ok (mc_mgr M) (fs_of M) c' ∧ Φ b c' K) (us_world (mc_ur M))) →
  step (controlio f) c K Φ.
Proof.
  intros H M R D t HI Ht HK _. specialize (H M R D t HI Ht).
  unfold wp, controlio, sysio, uring, lift in *.
  destruct (f (control_ (mc_mgr M)) (us_world (mc_ur M))) as [[[b ctl] w']|]; [|done]. cbn [mc_mgr mc_ur].
  destruct H as (c' & Hs & (W1 & W2 & W3 & W4 & W5 & W6 & W7) & Hok & Hl & Hcl & HΦ).
  exists c', K, D. split; [done|]. split; [done|]. split; [done|]. split; [|done].
  assert (set_control ctl (mc_mgr M) = with_counters (mc_mgr M) ctl (activeOps_ (mc_mgr M))) as ->
    by done.
  apply (Inv_counters M R D t c c'); try done; try lia; intros k; rewrite ?W2, ?W5; lia.
Qed.

Lemma step_reserve k n K :
  step (controlio (ctl_ReserveSwapOut EN n)) (Out k n false SNone) K (λ r c' K', K' = K ∧
    c' = Out k n (r =? SWAPFS_E_OK) SNone).
Proof.
  apply step_controlio. intros M R D t HI Ht.
  pose proof (inv_own _ _ _ _ _ HI Ht) as (C1 & C2 & _).
  eapply wp_mono; [|apply (reserve_law n); [exact (inv_ctl _ _ _ HI)|lia]].
  intros [r ctl] w' (Hs & Hok & Hl). exists (Out k n (r =? SWAPFS_E_OK) SNone). split; [exact Hs|]. split; [by split_and!|].
  split; [done|]. split; [|split; [by do 2 (split; [done|])|done]].
  cbn zeta in *. destruct (r =? SWAPFS_E_OK).
  - destruct Hl as [_ ->]. cbn. f_equal. lia.
  - rewrite Hl. by apply ledger_eta.
Qed.

Lemma out_reserved M R D t k n st :
  Inv M R D → R !! t = Some (Out k n true st) → n <= msum c_reserved R.
Proof.
  intros HI Ht. apply (msum_ge c_reserved R t (Out k n true st)); [|done].
  intros t' c Ht'. pose proof (inv_claim _ _ _ HI t' c Ht') as Hc.
  destruct c as [| |k' m []| | | |]; cbn in *; lia.
Qed.

Lemma step_cancel k n K :
  step (control (ctl_CancelReservedSwapOut n)) (Out k n true SNone) K (λ _ c' K', K' = K ∧
    c' = Out k n false SNone).
Proof.
  intros M R D t HI Ht HK _. pose proof (inv_own _ _ _ _ _ HI Ht) as (C1 & C2 & _).
  pose proof (out_reserved _ _ _ _ _ _ _ HI Ht) as Hn. rewrite <-(inv_pend _ _ _ HI) in Hn.
  destruct (cancel_law n (control_ (mc_mgr M)) (inv_ctl _ _ _ HI) ltac:(lia)) as [Hok Hl].
  unfold wp, control, locked. exists (Out k n false SNone), K, D.
  split; [done|]. split; [done|]. split; [done|]. split; [|done].
  apply (Inv_counters M R D t (Out k n true SNone) (Out k n false SNone)
    _ (activeOps_ (mc_mgr M)) (mc_ur M)); try done; cbn; try lia.
  rewrite Hl. f_equal. lia.
Qed.

(** [EndOperation] of a thread that is counted and holds nothing else. *)
Lemma step_end c K :
  c_active c = 1 → c_reserved c = 0 → (∀ k, c_read k c = 0) → (∀ k, c_remove k c = 0) →
  (∀ k, c_gone k c = 0) → c_all c = 0 → c_destroy c = 0 →
  step (locked EndOperation) c K (λ _ c' K', K' = K ∧ c' = Idle).
Proof.
  intros Ha Hr Hrd Hrm Hg Hal Hd M R D t HI Ht HK _. unfold wp, locked, EndOperation.
  exists Idle, K, D. split; [done|]. split; [done|]. split; [done|]. split; [|done].
  pose proof (inv_ops _ _ _ HI) as Ho. pose proof (inv_size _ _ _ HI) as Hs.
  pose proof (sum_ge c_active R t c (λ c, proj1 (c_active_range c)) Ht) as Hge.
  pose proof (msum_unit_le_size c_active R c_active_range) as Hle.
  assert (activeOps_ (mc_mgr M) -₃₂ 1 = activeOps_ (mc_mgr M) - 1) as E by (apply u32_id; lia).
  rewrite E. apply (Inv_counters M R D t c Idle (control_ (mc_mgr M)) (activeOps_ (mc_mgr M) - 1));
    try done; try (intros k; cbn; rewrite ?Hrd, ?Hrm, ?Hg; pose proof (c_out_range k c); lia); cbn; try lia.
  - exact (inv_ctl _ _ _ HI).
  - rewrite Hr. by apply ledger_eta.
Qed.

(** A call that only counts itself, or is refused. *)
Lemma step_begin {B} (f : @SwapfsManager C → B * SwapfsManager) K (ok : B → bool) :
  (∀ m, (ok (f m).1 = false ∧ (f m).2 = m) ∨
        (ok (f m).1 = true ∧ initialized_ m = true ∧ shuttingDown_ m = false ∧
         (f m).2 = set_activeOps (activeOps_ m +₃₂ 1) m)) →
  step (locked f) Idle K (λ b c' K', K' = K ∧ c' = if ok b then Active else Idle).
Proof.
  intros Hf M R D t HI Ht HK _. unfold wp, locked. specialize (Hf (mc_mgr M)).
  destruct (f (mc_mgr M)) as [b m]. cbn [fst snd] in Hf.
  exists (if ok b then Active else Idle), K, D. split; [done|]. split; [done|].
  destruct Hf as [[-> ->]|(-> & Hi & Hsd & ->)]; (split; [done|]); (split; [|done]).
  - destruct M. by apply Inv_id.
  - rewrite (inv_ops_room _ _ _ _ _ HI Ht) by done.
    apply (Inv_counters M R D t Idle Active (control_ (mc_mgr M)) (activeOps_ (mc_mgr M) + 1));
      try done; cbn; try lia.
    + exact (inv_ctl _ _ _ HI).
    + by apply ledger_eta.
Qed.

(** ** Actions on one entry *)
Definition with_entries (m : @SwapfsManager C) (es : gmap Z SwapKeyEntry) (ctl : C) (ops : Z) :
    SwapfsManager :=
  Manager (config_ m) ctl es (sessionPath_ m) (nextKeyId_ m) ops (sessionLockFd_ m)
    (removeAllInProgress_ m) (initialized_ m) (shuttingDown_ m).

Lemma Inv_entry M R D t c c' k0 es ctl ops D' :
  Inv M R D → R !! t = Some c → initialized_ (mc_mgr M) = true →
  (∀ k, k ≠ k0 → es !! k = entries_ (mc_mgr M) !! k ∧ D' !! k = D !! k ∧ c_read k c' = c_read k c ∧
     c_remove k c' = c_remove k c ∧ c_gone k c <= c_gone k c') →
  (∀ k, c_out k c' <= c_out k c) → c_all c' = c_all c → c_destroy c' = c_destroy c →
  ops = activeOps_ (mc_mgr M) - c_active c + c_active c' →
  (c_active c < c_active c' → shuttingDown_ (mc_mgr M) = false) →
  ctl_ok ctl →
  (let l := ledger_of (control_ (mc_mgr M)) in ledger_of ctl =
     Ledger (Z.of_nat (size es)) (msum dataSize es) (msum dataSize es)
       (l_pend l - c_reserved c + c_reserved c') (l_limit l)) →
  (msum c_all R = 0 ∨ dom es = dom (entries_ (mc_mgr M))) →
  (D' !! k0 = D !! k0 ∨ k0 < nextKeyId_ (mc_mgr M) ∧ msum (c_out k0) (<[t := c']> R) = 0) →
  match es !! k0 with
  | Some e => entry_ok (fs_of M) (<[t := c']> R) D' (nextKeyId_ (mc_mgr M)) k0 e ∧
              msum (c_out k0) (<[t := c']> R) = 0
  | None => msum (c_read k0) (<[t := c']> R) = 0 ∧
            msum (c_remove k0) (<[t := c']> R) = msum c_all (<[t := c']> R)
  end →
  claim_ok (with_entries (mc_mgr M) es ctl ops) (fs_of M) c' →
  Inv (Machine (with_entries (mc_mgr M) es ctl ops) (mc_ur M)) (<[t := c']> R) D'.
Proof.
  intros HI Ht Hinit Hother Hout Hall Hdes Hops Hact Hctl Hled Hdom HD Hk0 Hcl.
  pose proof HI as [I1 I2 I3 I4 I5 I6 I7 I8 I9 I10 I11 I12 I13 I14 I15 I16 I17].
  assert (Houtle : ∀ k, msum (c_out k) (<[t := c']> R) <= msum (c_out k) R).
  { intros k. rewrite (sum_upd _ _ _ _ _ Ht). specialize (Hout k). lia. }
  cbn zeta in Hled. constructor; unfold with_entries; mgr_cbn; rewrite ?(size_upd _ _ _ _ Ht), ?Hled;
    try done.
  - rewrite (sum_upd _ _ _ _ _ Ht), Hops. lia.
  - rewrite (sum_upd _ _ _ _ _ Ht). cbn. lia.
  - intros k e He. destruct (decide (k = k0)) as [->|Hne].
    + rewrite He in Hk0. apply Hk0.
    + destruct (Hother k Hne) as (H1 & H2 & H3 & H4 & H5). rewrite H1 in He.
      pose proof (entry_ok_upd _ _ _ _ _ _ _ _ _ _ Ht H3 H4 H5 (Z.le_refl _) (I10 k e He)) as Hok.
      unfold entry_ok in Hok |- *. rewrite H2. exact Hok.
  - intros k Hk. destruct (decide (k = k0)) as [->|Hne].
    + by rewrite Hk in Hk0.
    + destruct (Hother k Hne) as (H1 & H2 & H3 & H4 & H5). rewrite H1 in Hk.
      rewrite !(sum_upd _ _ _ _ _ Ht), H3, H4, Hall, !Z.sub_add. by apply I11.
  - intros t' c1 [[<- <-]|[Hne Ht']]%lookup_insert_Some; [done|].
    specialize (I12 t' c1 Ht'). destruct c1 as [| |k n b sg| | |ks g|[|j]]; try done.
    { destruct Hdom as [H0|Hdom]; [|cbn in *; congruence]. exfalso.
      pose proof (sum_ge c_all R t' _ (λ c, proj1 (c_all_range c)) Ht') as Hge. cbn in Hge. lia. }
    destruct I12 as [Hsd Hj]. split; [done|]. destruct Hj as [?|Hj]; [by left|]. right. cbn.
    pose proof (sum_ge c_active R t c (λ c, proj1 (c_active_range c)) Ht).
    destruct (decide (c_active c < c_active c')) as [Hlt|Hge]; [rewrite Hact in Hsd; done|].
    pose proof (c_active_range c'). lia.
  - intros k. specialize (Houtle k) as Hle. destruct (I13 k) as [H1 H2]. split; [lia|]. intros E.
    assert (msum (c_out k) R = 1) as E' by lia. destruct (H2 E') as [He HDk].
    destruct (decide (k = k0)) as [->|Hne].
    + destruct (es !! k0) as [e|] eqn:Ek; [lia|]. split; [done|].
      destruct HD as [->|[_ ?]]; [done|lia].
    + destruct (Hother k Hne) as (-> & -> & _). done.
  - rewrite (sum_upd _ _ _ _ _ Ht), Hall, Z.sub_add. destruct I14 as [Ia Ib]. split; [done|].
    intros E k. specialize (Houtle k). rewrite Ib in Houtle by done.
    pose proof (msum_unit_le_size (c_out k) (<[t := c']> R) (c_out_range k)). lia.
  - rewrite (sum_upd _ _ _ _ _ Ht). lia.
  - by rewrite Hinit in *.
  - intros k d Hd. destruct (decide (k = k0)) as [->|Hne].
    + destruct HD as [E|[? _]]; [|done]. rewrite E in Hd. by eapply I17.
    + destruct (Hother k Hne) as (_ & E & _). rewrite E in Hd. by eapply I17.
Qed.

Lemma inv_initialized M R D t c :
  Inv M R D → R !! t = Some c → c_active c = 1 → initialized_ (mc_mgr M) = true.
Proof.
  intros HI Ht Hc. pose proof (inv_up _ _ _ HI) as Hu.
  destruct (initialized_ (mc_mgr M)); [done|]. destruct Hu as [_ Hu].
  pose proof (sum_ge c_active R t c (λ c, proj1 (c_active_range c)) Ht). lia.
Qed.

(** Where an entry is, no swap-out of its key is running. *)
Lemma inv_entry_no_out M R D k e :
  Inv M R D → entries_ (mc_mgr M) !! k = Some e → msum (c_out k) R = 0.
Proof.
  intros HI He. destruct (inv_out _ _ _ HI k) as [H1 H2].
  pose proof (msum_unit_le_size (c_out k) R (c_out_range k)).
  destruct (decide (msum (c_out k) R = 1)) as [E|]; [|lia]. destruct (H2 E). congruence.
Qed.

Lemma ledger_same M R D :
  Inv M R D → let l := ledger_of (control_ (mc_mgr M)) in
  l = Ledger (Z.of_nat (size (entries_ (mc_mgr M)))) (msum dataSize (entries_ (mc_mgr M)))
        (msum dataSize (entries_ (mc_mgr M))) (l_pend l) (l_limit l).
Proof.
  intros HI l. pose proof (inv_keys _ _ _ HI). pose proof (inv_occ _ _ _ HI).
  pose proof (inv_data _ _ _ HI). unfold l. destruct (ledger_of _). cbn in *. congruence.
Qed.

(** An entry replaced by one of the same size leaves the sums. *)
Lemma same_size_sums (es : gmap Z SwapKeyEntry) k e e' :
  es !! k = Some e → dataSize e' = dataSize e →
  size (<[k := e']> es) = size es ∧ msum dataSize (<[k := e']> es) = msum dataSize es.
Proof.
  intros He Hd. split; [apply map_size_insert_Some; by exists e|].
  rewrite (msum_update _ _ _ _ _ He). lia.
Qed.
Lemma delete_sums (es : gmap Z SwapKeyEntry) k e :
  es !! k = Some e →
  Z.of_nat (size (delete k es)) = Z.of_nat (size es) - 1 ∧
  msum dataSize (delete k es) = msum dataSize es - dataSize e.
Proof.
  intros He. rewrite (msum_delete dataSize es k e He), map_size_delete_Some by (by exists e).
  assert (size es ≠ 0%nat) as Hs by (eapply (map_size_ne_0_lookup_2 _ k); by exists e). lia.
Qed.

(** The lookup of a swap-in: the entry is active, its data are known. *)
Lemma step_lookup k K :
  step (locked (LookupKeyForSwapIn k)) Active K (λ '(r, e) c' K', (K ⊆ K') ∧
    if r =? SWAPFS_E_OK
    then c' = Reading k ∧ path e = swapFile SP k ∧
      ∃ d, K' !! k = Some d ∧ dataSize e = Z.of_nat (length d)
    else c' = Active).
Proof.
  intros M R D t HI Ht HK _. unfold wp, locked, LookupKeyForSwapIn.
  assert (∀ r, (r =? SWAPFS_E_OK) = false → ∃ c' K' D', (D ⊆ D') ∧ (K' ⊆ D') ∧
    c_destroy c' = c_destroy Active ∧ Inv (Machine (mc_mgr M) (mc_ur M)) (<[t := c']> R) D' ∧
    ((K ⊆ K') ∧ if r =? SWAPFS_E_OK then c' = Reading k ∧ path no_entry = swapFile SP k ∧
       ∃ d, K' !! k = Some d ∧ dataSize no_entry = Z.of_nat (length d) else c' = Active)) as Hfail.
  { intros r Hr. exists Active, K, D. rewrite Hr. split_and!; try done.
    destruct M. by apply Inv_id. }
  destruct (entries_ (mc_mgr M) !! k) as [e|] eqn:He; [|by apply Hfail].
  case_bool_decide as Hst; cbn [negb]; [|by apply Hfail].
  destruct (inv_entry _ _ _ HI k e He) as (E1 & E2 & E3 & E4 & E5 & E6 & d & E7 & E8 & E9).
  rewrite Hst in E6.
  exists (Reading k), D, D. split; [done|]. split; [done|]. split; [done|].
  split; [|split; [done|]; cbn; split; [done|]; split; [done|]; eauto].
  set (e' := set_readCount _ e).
  destruct (same_size_sums _ k e e' He eq_refl) as [Hsz Hsum].
  apply (Inv_entry M R D t Active (Reading k) k (<[k := e']> (entries_ (mc_mgr M)))
    (control_ (mc_mgr M)) (activeOps_ (mc_mgr M)) D); try done; cbn; try lia.
  - by eapply inv_initialized.
  - intros k' Hne. rewrite lookup_insert_ne, bool_decide_false by congruence. done.
  - exact (inv_ctl _ _ _ HI).
  - rewrite Hsz, Hsum, Z.sub_0_r, Z.add_0_r. by apply (ledger_same _ R D).
  - right. rewrite dom_insert_L. assert (k ∈ dom (entries_ (mc_mgr M))) by (by apply elem_of_dom_2 in He).
    set_solver.
  - by left.
  - rewrite lookup_insert_eq. split.
    + split; [done|]. split; [done|]. split; [done|]. split; [done|]. cbn [e' readCount set_readCount status].
      rewrite Hst, !(sum_upd _ _ _ _ _ Ht), E5, (read_room _ _ _ _ _ k HI Ht) by done. cbn.
      rewrite bool_decide_true by done. split; [cbn; lia|]. split; [lia|].
      exists d. split; [done|]. split; [done|]. intros Hg. apply E9. lia.
    + rewrite (sum_upd _ _ _ _ _ Ht). cbn. rewrite (inv_entry_no_out _ _ _ _ _ HI He). lia.
Qed.

(** A remover is no part of a removal of all. *)
Lemma remove_all_lt (R : claims) t k b :
  R !! t = Some (Removing k b) → msum c_all R + 1 <= msum (c_remove k) R.
Proof.
  intros Ht. rewrite (msum_delete c_all R t _ Ht), (msum_delete (c_remove k) R t _ Ht). cbn.
  rewrite bool_decide_true by done. cbn.
  assert (msum c_all (delete t R) <= msum (c_remove k) (delete t R)); [|lia].
  apply msum_le. intros t' c _. destruct c; cbn; try lia. apply b2z_range.
Qed.

Lemma inv_reading M R D t k :
  Inv M R D → R !! t = Some (Reading k) → ∃ e, entries_ (mc_mgr M) !! k = Some e.
Proof.
  intros HI Ht. destruct (entries_ (mc_mgr M) !! k) as [e|] eqn:He; [eauto|]. exfalso.
  destruct (inv_absent _ _ _ HI k He) as [H0 _].
  pose proof (sum_ge (c_read k) R t _ (λ c, proj1 (c_read_range k c)) Ht) as Hge.
  cbn in Hge. rewrite bool_decide_true in Hge by done. cbn in Hge. lia.
Qed.

(** The entry a thread removes is there, marked, and has no reader. *)
Lemma inv_removing M R D t k b :
  Inv M R D → R !! t = Some (Removing k b) → msum c_all R = 0 ∧
  ∃ e, entries_ (mc_mgr M) !! k = Some e ∧ status e = OH_SWAPFS_KEY_STATUS_REMOVING ∧
    msum (c_read k) R = 0 ∧ msum (c_remove k) R = 1.
Proof.
  intros HI Ht. pose proof (remove_all_lt _ _ _ _ Ht) as Hlt.
  pose proof (msum_unit_le_size c_all R c_all_range).
  destruct (entries_ (mc_mgr M) !! k) as [e|] eqn:He.
  - destruct (inv_entry _ _ _ HI k e He) as (_ & _ & _ & _ & _ & E6 & _).
    destruct (status e) eqn:Es; [lia|]. destruct E6 as [?|[? ?]]; [lia|]. split; [lia|]. eauto.
  - destruct (inv_absent _ _ _ HI k He). lia.
Qed.

Lemma entry_size_le (es : gmap Z SwapKeyEntry) k e :
  (∀ k e, es !! k = Some e → 0 < dataSize e) → es !! k = Some e →
  0 < dataSize e <= msum dataSize es ∧ 0 < Z.of_nat (size es) <= msum dataSize es.
Proof.
  intros Hpos He. assert (∀ j x, es !! j = Some x → 0 <= dataSize x) as Hnn.
  { intros j x Hj. specialize (Hpos j x Hj). lia. }
  pose proof (msum_ge dataSize es k e Hnn He). specialize (Hpos k e He) as Hk. split; [lia|].
  assert (size es ≠ 0%nat) as Hs by (eapply (map_size_ne_0_lookup_2 _ k); by exists e).
  assert (msum (λ _, 1) es <= msum dataSize es) as Hle.
  { apply msum_le. intros j x Hj. specialize (Hpos j x Hj). lia. }
  rewrite msum_const in Hle. lia.
Qed.

Lemma inv_sizes_pos M R D : Inv M R D → ∀ k e, entries_ (mc_mgr M) !! k = Some e → 0 < dataSize e.
Proof. intros HI k e He. apply (inv_entry _ _ _ HI k e He). Qed.

(** A reader [t] of [k] that leaves its entry as [e'], of the same size. *)
Lemma Inv_read_done M R D t k e e' c' :
  Inv M R D → R !! t = Some (Reading k) → entries_ (mc_mgr M) !! k = Some e → dataSize e' = dataSize e →
  c' = Active ∨ c' = Removing k false →
  entry_ok (fs_of M) (<[t := c']> R) D (nextKeyId_ (mc_mgr M)) k e' →
  Inv (Machine (set_entries (<[k := e']> (entries_ (mc_mgr M))) (mc_mgr M)) (mc_ur M)) (<[t := c']> R) D.
Proof.
  intros HI Ht He Hdata Hc' Hok. destruct (same_size_sums _ k e e' He Hdata) as [Hsz Hsum].
  apply (Inv_entry M R D t (Reading k) c' k (<[k := e']> (entries_ (mc_mgr M)))
    (control_ (mc_mgr M)) (activeOps_ (mc_mgr M)) D); try done.
  - by eapply inv_initialized.
  - intros k' Hne. rewrite lookup_insert_ne by congruence. do 2 (split; [done|]).
    destruct Hc' as [-> | ->]; cbn; rewrite !bool_decide_false by congruence; done.
  - by destruct Hc' as [-> | ->].
  - by destruct Hc' as [-> | ->].
  - by destruct Hc' as [-> | ->].
  - destruct Hc' as [-> | ->]; cbn; lia.
  - destruct Hc' as [-> | ->]; cbn; lia.
  - exact (inv_ctl _ _ _ HI).
  - rewrite Hsz, Hsum. replace (c_reserved c') with 0 by (by destruct Hc' as [-> | ->]). cbn.
    rewrite Z.sub_0_r, Z.add_0_r. by apply (ledger_same _ R D).
  - right. rewrite dom_insert_L. apply elem_of_dom_2 in He. set_solver.
  - by left.
  - rewrite lookup_insert_eq. split; [done|]. rewrite (sum_upd _ _ _ _ _ Ht).
    rewrite (inv_entry_no_out _ _ _ _ _ HI He). by destruct Hc' as [-> | ->].
  - by destruct Hc' as [-> | ->].
Qed.

Lemma step_finish_begin k K :
  step (locked (FinishSwapIn_begin k)) (Reading k) K (λ r c' K', (K ⊆ K') ∧
    match r with
    | None => c' = Active
    | Some (p, n) => c' = Removing k false ∧ p = swapFile SP k ∧
        ∃ d, K' !! k = Some d ∧ n = Z.of_nat (length d)
    end).
Proof.
  intros M R D t HI Ht HK _. unfold wp, locked, FinishSwapIn_begin.
  destruct (inv_reading _ _ _ _ _ HI Ht) as [e He]. rewrite He.
  destruct (inv_entry _ _ _ HI k e He) as (E1 & E2 & E3 & E4 & E5 & E6 & d & E7 & E8 & E9).
  pose proof (sum_ge (c_read k) R t _ (λ c, proj1 (c_read_range k c)) Ht) as Hge.
  cbn in Hge. rewrite bool_decide_true in Hge by done. cbn in Hge.
  pose proof (msum_unit_le_size (c_read k) R (c_read_range k)) as Hle.
  pose proof (inv_size _ _ _ HI) as Hsize.
  assert (readCount e -₃₂ 1 = msum (c_read k) R - 1) as Hrc by (rewrite E5; apply u32_id; lia).
  set (e' := set_readCount _ e).
  pose proof (λ c', Inv_read_done M R D t k e e' c' HI Ht He eq_refl) as Hinv.
  assert (Hentry : ∀ c', c_read k c' = 0 → c_gone k c' = 0 →
    match status e with
    | OH_SWAPFS_KEY_STATUS_ACTIVE => c_remove k c' = 0
    | OH_SWAPFS_KEY_STATUS_REMOVING => 0 < msum (c_read k) R - 1 ∧ c_remove k c' = 0 ∨
        msum (c_read k) R - 1 = 0 ∧ c_remove k c' = 1 end →
    entry_ok (fs_of M) (<[t := c']> R) D (nextKeyId_ (mc_mgr M)) k e').
  { intros c' Hr Hg Hs. unfold entry_ok. rewrite !(sum_upd _ _ _ _ _ Ht). cbn.
    rewrite bool_decide_true, Hr, Hg by done. cbn.
    do 4 (split; [done|]). split; [lia|]. split; [destruct (status e); lia|].
    exists d. split; [done|]. split; [done|]. intros H0. apply E9. lia. }
  destruct (negb (bool_decide (status e' = OH_SWAPFS_KEY_STATUS_REMOVING)) || (readCount e' >? 0)) eqn:Eb.
  - exists Active, K, D. do 3 (split; [done|]). split; [|done].
    apply Hinv; [by left|]. apply Hentry; [done|done|]. cbn in Eb.
    destruct (status e); [done|]. rewrite bool_decide_true in Eb by done. cbn in Eb.
    rewrite Hrc in Eb. zbool. left. cbn. lia.
  - exists (Removing k false), D, D. do 3 (split; [done|]). split; [|split; [done|]; split; [done|]; eauto].
    apply orb_false_elim in Eb as [Es Ec]. apply negb_false_iff, bool_decide_eq_true in Es.
    cbn in Es, Ec. apply Hinv; [by right|]. apply Hentry; [done|done|]. rewrite Es. zbool.
    right. cbn. rewrite bool_decide_true by done. cbn. lia.
Qed.

Lemma step_finish_end k n b K :
  (∃ d, K !! k = Some d ∧ n = Z.of_nat (length d)) →
  step (locked (FinishSwapIn_end k n b)) (Removing k b) K (λ _ c' K', K' = K ∧ c' = Active).
Proof.
  intros (d & HKd & Hn) M R D t HI Ht HK _. unfold wp, locked, FinishSwapIn_end.
  destruct (inv_removing _ _ _ _ _ _ HI Ht) as (Hall & e & He & Hst & Hrd & Hrm). rewrite He.
  destruct (inv_entry _ _ _ HI k e He) as (E1 & E2 & E3 & E4 & E5 & E6 & d' & E7 & E8 & E9).
  assert (d' = d) as -> by (eapply lookup_weaken in HKd; [|exact HK]; congruence).
  destruct (entry_size_le _ k e (inv_sizes_pos _ _ _ HI) He) as [Hde Hsz].
  assert (Hgo : ∀ es ctl, (∀ k', k' ≠ k → es !! k' = entries_ (mc_mgr M) !! k') → ctl_ok ctl →
    (let l := ledger_of (control_ (mc_mgr M)) in ledger_of ctl =
       Ledger (Z.of_nat (size es)) (msum dataSize es) (msum dataSize es) (l_pend l) (l_limit l)) →
    match es !! k with
    | Some e => b = false ∧ status e = OH_SWAPFS_KEY_STATUS_ACTIVE ∧
        keyId e = k ∧ path e = swapFile SP k ∧ readCount e = 0 ∧ dataSize e = Z.of_nat (length d)
    | None => True end →
    ∃ c' K' D', (D ⊆ D') ∧ (K' ⊆ D') ∧ c_destroy c' = c_destroy (Removing k b) ∧
      Inv (Machine (with_entries (mc_mgr M) es ctl (activeOps_ (mc_mgr M))) (mc_ur M))
        (<[t := c']> R) D' ∧ K' = K ∧ c' = Active).
  { intros es ctl Hes Hctl Hled Hk. exists Active, K, D. do 3 (split; [done|]). split; [|done].
    apply (Inv_entry M R D t (Removing k b) Active k); try done; try (cbn; lia).
    - by eapply inv_initialized.
    - intros k' Hne. split; [by apply Hes|]. cbn. rewrite bool_decide_false by done.
      split_and!; try done. destruct b; cbn; lia.
    - cbn. by rewrite Z.sub_0_r, Z.add_0_r.
    - by left.
    - rewrite !(sum_upd _ _ _ _ _ Ht), (inv_entry_no_out _ _ _ _ _ HI He), Hall. cbn.
      rewrite bool_decide_true by done. cbn.
      destruct (es !! k) as [e1|] eqn:Ek; [|lia]. destruct Hk as (-> & Hact & K1 & K2 & K3 & K4).
      split; [|done]. unfold entry_ok. rewrite !(sum_upd _ _ _ _ _ Ht), Hrd, Hrm. cbn.
      rewrite bool_decide_true by done. cbn. rewrite Hact. cbn.
      split; [done|]. split; [done|]. split; [done|]. split; [lia|]. split; [lia|]. split; [lia|].
      exists d. split; [done|]. split; [done|]. intros Hg. apply E9. lia. }
  destruct b; cbn [negb].
  - destruct (delete_sums _ k e He) as [D1 D2].
    destruct (removed_law n (control_ (mc_mgr M)) (inv_ctl _ _ _ HI)) as [Hok Hl].
    { rewrite (inv_occ _ _ _ HI). lia. } { rewrite (inv_keys _ _ _ HI). lia. }
    { exact (inv_data _ _ _ HI). }
    apply (Hgo (delete k (entries_ (mc_mgr M))) (ctl_OnEntryRemoved n n (control_ (mc_mgr M)))).
    + intros k' Hne. by rewrite lookup_delete_ne.
    + done.
    + cbn zeta. rewrite Hl, D1, D2, (inv_keys _ _ _ HI), (inv_data _ _ _ HI), (inv_occ _ _ _ HI), Hn, E8.
      done.
    + by rewrite lookup_delete_eq.
  - set (e' := set_status _ e). destruct (same_size_sums _ k e e' He eq_refl) as [S1 S2].
    apply (Hgo (<[k := e']> (entries_ (mc_mgr M))) (control_ (mc_mgr M))).
    + intros k' Hne. by rewrite lookup_insert_ne.
    + exact (inv_ctl _ _ _ HI).
    + cbn zeta. rewrite S1, S2. by apply (ledger_same _ R D).
    + rewrite lookup_insert_eq. split; [done|]. split; [done|]. split; [done|]. split; [done|].
      split; [cbn; lia|done].
Qed.

(** [FinalizeRemoveEntry] is the same locked part. *)
Lemma FinalizeRemoveEntry_eq (e : SwapKeyEntry) b (m : @SwapfsManager C) :
  FinalizeRemoveEntry e b m = FinishSwapIn_end (keyId e) (dataSize e) b m.
Proof.
  unfold FinalizeRemoveEntry, FinishSwapIn_end. by destruct (entries_ m !! keyId e), b.
Qed.

(** An action that leaves the state alone. *)
Lemma step_pure {B} (f : @SwapfsManager C → B) c K :
  step (locked (λ m, (f m, m))) c K (λ _ c' K', K' = K ∧ c' = c).
Proof.
  intros M R D t HI Ht HK _. unfold wp, locked. exists c, K, D. do 3 (split; [done|]).
  split; [|done]. destruct M. by apply Inv_id.
Qed.

(** The entry [k] marked for removal by the idle thread [t], which takes it when nobody reads. *)
Lemma Inv_remove_marked M R D t k e d c' :
  Inv M R D → R !! t = Some Idle → entries_ (mc_mgr M) !! k = Some e →
  status e = OH_SWAPFS_KEY_STATUS_ACTIVE → initialized_ (mc_mgr M) = true →
  shuttingDown_ (mc_mgr M) = false → msum c_all R = 0 → D !! k = Some d → dataSize e = Z.of_nat (length d) →
  (c' = Idle ∧ 0 < readCount e ∨ c' = Removing k false ∧ readCount e = 0) →
  Inv (Machine (with_entries (mc_mgr M)
        (<[k := set_status OH_SWAPFS_KEY_STATUS_REMOVING e]> (entries_ (mc_mgr M))) (control_ (mc_mgr M))
        (activeOps_ (mc_mgr M) + c_active c')) (mc_ur M)) (<[t := c']> R) D.
Proof.
  intros HI Ht He Hst Hin Hsd Hall E7 E8 Hc'.
  destruct (inv_entry _ _ _ HI k e He) as (E1 & E2 & E3 & E4 & E5 & E6 & d1 & E7' & E8' & E9).
  assert (d1 = d) as -> by congruence.
  rewrite Hst in E6. set (e' := set_status _ e).
  destruct (same_size_sums _ k e e' He eq_refl) as [Hsz Hsum].
  assert (c_read k c' = 0 ∧ c_out k c' = 0 ∧ c_gone k c' = 0) as (W1 & W2 & W3)
    by (destruct Hc' as [[-> _]|[-> _]]; done).
  apply (Inv_entry M R D t Idle c' k); try done.
  - intros k' Hne. rewrite lookup_insert_ne by congruence.
    destruct Hc' as [[-> _]|[-> _]]; cbn; rewrite ?bool_decide_false by congruence; done.
  - by destruct Hc' as [[-> _]|[-> _]].
  - by destruct Hc' as [[-> _]|[-> _]].
  - by destruct Hc' as [[-> _]|[-> _]].
  - cbn. lia.
  - exact (inv_ctl _ _ _ HI).
  - rewrite Hsz, Hsum. replace (c_reserved c') with 0 by (by destruct Hc' as [[-> _]|[-> _]]). cbn.
    rewrite Z.sub_0_r, Z.add_0_r. by apply (ledger_same _ R D).
  - by left.
  - by left.
  - rewrite lookup_insert_eq, (sum_upd _ _ _ _ _ Ht), (inv_entry_no_out _ _ _ _ _ HI He), W2.
    split; [|done]. unfold entry_ok. rewrite !(sum_upd _ _ _ _ _ Ht), W1, W3, E6. cbn.
    do 4 (split; [done|]). split; [lia|]. split.
    + destruct Hc' as [[-> ?]|[-> ?]]; cbn; rewrite ?bool_decide_true by done; cbn; lia.
    + exists d. split; [done|]. split; [done|]. intros H0. apply E9. lia.
  - by destruct Hc' as [[-> _]|[-> _]].
Qed.

Lemma step_prepare_remove k K :
  step (locked (PrepareRemoveEntry k)) Idle K (λ '(r, e) c' K', (K ⊆ K') ∧
    if (r =? SWAPFS_E_OK) && negb (path e =? "")%string
    then c' = Removing k false ∧ keyId e = k ∧ path e = swapFile SP k ∧
      ∃ d, K' !! k = Some d ∧ dataSize e = Z.of_nat (length d)
    else c' = Idle).
Proof.
  intros M R D t HI Ht HK _. unfold wp, locked, PrepareRemoveEntry.
  assert (Hidle : ∀ r M', Inv M' (<[t := Idle]> R) D → ∃ c' K' D', (D ⊆ D') ∧ (K' ⊆ D') ∧
    c_destroy c' = c_destroy Idle ∧ Inv M' (<[t := c']> R) D' ∧ (K ⊆ K') ∧
    if (r =? SWAPFS_E_OK) && negb (path no_entry =? "")%string
    then c' = Removing k false ∧ keyId no_entry = k ∧ path no_entry = swapFile SP k ∧
      ∃ d, K' !! k = Some d ∧ dataSize no_entry = Z.of_nat (length d)
    else c' = Idle).
  { intros r M' HI'. exists Idle, K, D. rewrite andb_false_r. by split_and!. }
  assert (Hsame : Inv (Machine (mc_mgr M) (mc_ur M)) (<[t := Idle]> R) D)
    by (destruct M; by apply Inv_id).
  destruct (initialized_ (mc_mgr M)) eqn:Hin; cbn [negb]; [|by apply Hidle].
  destruct (shuttingDown_ (mc_mgr M)) eqn:Hsd; [by apply Hidle|].
  destruct (entries_ (mc_mgr M) !! k) as [e|] eqn:He; [|by apply Hidle].
  case_bool_decide as Hst; cbn [negb]; [|by apply Hidle].
  destruct (inv_entry _ _ _ HI k e He) as (E1 & E2 & E3 & E4 & E5 & E6 & d & E7 & E8 & E9).
  rewrite Hst in E6. set (e' := set_status _ e).
  destruct (same_size_sums _ k e e' He eq_refl) as [Hsz Hsum].
  assert (msum c_all R = 0) as Hall.
  { pose proof (msum_unit_le_size c_all R c_all_range).
    assert (msum c_all R <= msum (c_remove k) R); [|lia].
    apply msum_le. intros t' c _. destruct c; cbn; try lia. apply b2z_range. }
  pose proof (λ c', Inv_remove_marked M R D t k e d c' HI Ht He Hst Hin Hsd Hall E7 E8) as Hinv.
  fold e' in Hinv.
  pose proof (msum_unit_le_size (c_read k) R (c_read_range k)).
  cbn [readCount e' set_status]. destruct (readCount e =? 0) eqn:Erc; zbool.
  - exists (Removing k false), D, D. do 3 (split; [done|]). split; [|split; [done|]].
    + replace (set_activeOps _ _) with
        (with_entries (mc_mgr M) (<[k := e']> (entries_ (mc_mgr M))) (control_ (mc_mgr M))
          (activeOps_ (mc_mgr M) + c_active (Removing k false))); [apply Hinv; auto|].
      unfold with_entries, set_activeOps, set_entries. cbn [activeOps_ c_active].
      by rewrite (inv_ops_room _ _ _ _ _ HI Ht).
    + cbn. rewrite E3. assert ((swapFile SP k =? "")%string = false) as ->.
      { apply String.eqb_neq. unfold swapFile. rewrite KeyFile_child. apply child_not_empty. }
      cbn. do 3 (split; [done|]). eauto.
  - apply Hidle. replace (set_entries _ _) with
      (with_entries (mc_mgr M) (<[k := e']> (entries_ (mc_mgr M))) (control_ (mc_mgr M))
        (activeOps_ (mc_mgr M) + c_active Idle)); [apply Hinv; left; split; [done|lia]|].
    unfold with_entries, set_entries. cbn. f_equal. lia.
Qed.

Lemma step_commit k n d now K :
  step (locked (CommitSwapOutEntry
      (Entry k (swapFile SP k) n now OH_SWAPFS_KEY_STATUS_ACTIVE 0))) (Out k n true (SSwap d)) K
    (λ r c' K', r = k ∧ c' = Active ∧ (K ⊆ K') ∧ K' !! k = Some d).
Proof.
  intros M R D t HI Ht HK _. unfold wp, locked, CommitSwapOutEntry. cbn [keyId dataSize].
  pose proof (inv_own _ _ _ _ _ HI Ht) as (C1 & C2 & Hfile & Hlen).
  assert (msum (c_out k) R = 1) as Hout.
  { destruct (inv_out _ _ _ HI k) as [H1 _].
    pose proof (sum_ge (c_out k) R t _ (λ c, proj1 (c_out_range k c)) Ht) as Hge. cbn in Hge.
    rewrite bool_decide_true in Hge by done. cbn in Hge. lia. }
  destruct (inv_out _ _ _ HI k) as [_ Hnone]. destruct (Hnone Hout) as [He HD].
  assert (msum c_all R = 0) as Hall.
  { destruct (inv_all _ _ _ HI) as [H1 H2]. pose proof (b2z_range (removeAllInProgress_ (mc_mgr M))).
    destruct (decide (msum c_all R = 1)) as [E|]; [|lia]. specialize (H2 E k). lia. }
  destruct (inv_absent _ _ _ HI k He) as [Hrd Hrm]. rewrite Hall in Hrm.
  pose proof (out_reserved _ _ _ _ _ _ _ HI Ht) as Hpend. rewrite <-(inv_pend _ _ _ HI) in Hpend.
  pose proof (ctl_ok_bounds _ (inv_ctl _ _ _ HI)) as (B1 & B2 & B3 & B4 & B5 & B6).
  assert (Z.of_nat (size (entries_ (mc_mgr M))) <= msum dataSize (entries_ (mc_mgr M))) as Hsz.
  { destruct (decide (entries_ (mc_mgr M) = ∅)) as [->|Hne]; [by rewrite map_size_empty, msum_empty|].
    apply map_choose in Hne as (k1 & e1 & He1).
    apply (entry_size_le _ k1 e1 (inv_sizes_pos _ _ _ HI) He1). }
  pose proof (inv_keys _ _ _ HI) as Hk. pose proof (inv_occ _ _ _ HI) as Ho.
  pose proof (inv_data _ _ _ HI) as Hda.
  destruct (commit_law n (control_ (mc_mgr M)) (inv_ctl _ _ _ HI)) as [Hok Hl]; [lia|lia|done|].
  set (e := Entry _ _ _ _ _ _). exists Active, (<[k := d]> D), (<[k := d]> D).
  split; [by apply insert_subseteq|]. split; [done|]. split; [done|].
  split; [|split; [done|]; split; [done|]; split; [|apply lookup_insert_eq]].
  2: { etrans; [exact HK|]. by apply insert_subseteq. }
  apply (Inv_entry M R D t (Out k n true (SSwap d)) Active k (<[k := e]> (entries_ (mc_mgr M)))
    _ (activeOps_ (mc_mgr M))); try done; try (cbn; lia).
  - by eapply inv_initialized.
  - intros k' Hne. rewrite !lookup_insert_ne by congruence. done.
  - intros k'. cbn. apply b2z_range.
  - cbn zeta. rewrite Hl, map_size_insert_None, msum_insert by done. cbn. f_equal; lia.
  - right. split; [lia|]. rewrite (sum_upd _ _ _ _ _ Ht), Hout. cbn. by rewrite bool_decide_true.
  - rewrite lookup_insert_eq. rewrite (sum_upd _ _ _ _ _ Ht), Hout. cbn.
    rewrite bool_decide_true by done. split; [|done]. unfold entry_ok.
    rewrite !(sum_upd _ _ _ _ _ Ht), lookup_insert_eq, Hrd, Hrm. cbn.
    do 3 (split; [done|]). split; [lia|]. split; [done|]. split; [done|].
    exists d. split; [done|]. split; [lia|]. done.
Qed.

(** A new key. *)
Lemma step_prepare_out b K :
  0 < Z.of_nat (length (buf_bytes b)) < 2 ^ 64 →
  step (locked (PrepareForSwapOut b)) Idle K (λ '(r, ctx) c' K', K' = K ∧
    if r =? SWAPFS_E_OK
    then ctx_tmpPath ctx = tmpFile SP (ctx_keyId ctx) ∧
      ctx_swapPath ctx = swapFile SP (ctx_keyId ctx) ∧
      c' = Out (ctx_keyId ctx) (Z.of_nat (length (buf_bytes b))) false SNone
    else c' = Idle).
Proof.
  intros Hn M R D t HI Ht HK Hnext. unfold wp, locked, PrepareForSwapOut.
  assert (Hidle : ∀ r, (r =? SWAPFS_E_OK) = false → ∃ c' K' D', (D ⊆ D') ∧ (K' ⊆ D') ∧
    c_destroy c' = c_destroy Idle ∧ Inv (Machine (mc_mgr M) (mc_ur M)) (<[t := c']> R) D' ∧ K' = K ∧
    if r =? SWAPFS_E_OK then ctx_tmpPath no_context = tmpFile SP (ctx_keyId no_context) ∧
      ctx_swapPath no_context = swapFile SP (ctx_keyId no_context) ∧
      c' = Out (ctx_keyId no_context) (Z.of_nat (length (buf_bytes b))) false SNone else c' = Idle).
  { intros r Hr. exists Idle, K, D. rewrite Hr. do 3 (split; [done|]). split; [|done].
    destruct M. by apply Inv_id. }
  destruct (initialized_ (mc_mgr M)) eqn:Hin; cbn [negb]; [|by apply Hidle].
  destruct (shuttingDown_ (mc_mgr M)) eqn:Hsd; [by apply Hidle|].
  destruct (_ && _); [by apply Hidle|].
  destruct (removeAllInProgress_ (mc_mgr M)) eqn:Hra; [by apply Hidle|].
  set (k := nextKeyId_ (mc_mgr M)) in *. set (n := Z.of_nat _) in *.
  pose proof (inv_up _ _ _ HI) as Hup. rewrite Hin in Hup.
  exists (Out k n false SNone), K, D. do 3 (split; [done|]).
  split; [|split; [done|]; cbn; by rewrite Hup].
  pose proof HI as [I1 I2 I3 I4 I5 I6 I7 I8 I9 I10 I11 I12 I13 I14 I15 I16 I17].
  fold k in I4, I10, I12, I17.
  assert (k +₆₄ 1 = k + 1) as Hk by (apply u64_id; lia).
  assert (entries_ (mc_mgr M) !! k = None) as Hek.
  { destruct (entries_ (mc_mgr M) !! k) as [e|] eqn:E; [|done].
    destruct (I10 k e E) as (_ & ? & _). lia. }
  assert (D !! k = None) as HDk.
  { destruct (D !! k) as [d|] eqn:E; [|done]. specialize (I17 k d E). lia. }
  assert (msum (c_out k) R = 0) as Hok.
  { apply msum_zero. intros t' c Ht'. specialize (I12 t' c Ht').
    destruct c; cbn; try done. cbn in I12. fold k in I12. rewrite bool_decide_false by lia. done. }
  constructor; mgr_cbn; rewrite ?Hk, ?(size_upd _ _ _ _ Ht); try done.
  - rewrite (inv_ops_room _ _ _ _ _ HI Ht), (sum_upd _ _ _ _ _ Ht) by done. cbn. lia.
  - lia.
  - rewrite (sum_upd _ _ _ _ _ Ht). cbn. lia.
  - intros k' e He. eapply (entry_ok_upd _ _ _ k); [exact Ht|done|done|done|lia|by apply I10].
  - intros k' He. rewrite !(sum_upd _ _ _ _ _ Ht). cbn. rewrite !Z.sub_0_r, !Z.add_0_r. by apply I11.
  - intros t' c1 [[<- <-]|[Hne Ht']]%lookup_insert_Some.
    + cbn. rewrite ?Hk. split; [lia|]. split; [lia|done].
    + specialize (I12 t' c1 Ht'). destruct c1 as [| |k1 n1 b1 sg| | |ks g|[|j]]; try done.
      * destruct I12 as (? & ? & ?). split; [cbn; lia|done].
      * destruct I12 as [? _]. congruence.
  - intros k'. rewrite (sum_upd _ _ _ _ _ Ht). cbn. destruct (decide (k = k')) as [<-|Hne].
    + rewrite bool_decide_true, Hok by done. split; [cbn; lia|done].
    + rewrite bool_decide_false by done. cbn. rewrite Z.sub_0_r, Z.add_0_r. apply I13.
  - rewrite (sum_upd _ _ _ _ _ Ht). cbn. destruct I14 as [Ia _]. rewrite Ia. rewrite Hra. by split.
  - rewrite (sum_upd _ _ _ _ _ Ht). cbn. lia.
  - intros k' d Hd. specialize (I17 k' d Hd). lia.
Qed.

(** The read of a swap-in: an OK means the entry's bytes. *)
Lemma ExecuteSwapInRead_spec e addr dio M :
  world_wf (us_world (mc_ur M)) →
  wp (ExecuteSwapInRead e addr dio) (λ r M', mc_mgr M' = mc_mgr M ∧
    world_wf (us_world (mc_ur M')) ∧
    (∀ q i, fs_of M !! q = Some i → fs_of M' !! q = Some i) ∧
    (r.1 = SWAPFS_E_OK → ∃ i, fs_of M !! path e = Some i ∧
       r.2 = take (Z.to_nat (dataSize e)) (i_data i))) M.
Proof.
  intros Hwf.
  assert (Hsync : ∀ M1 b, mc_mgr M1 = mc_mgr M → us_world (mc_ur M1) = us_world (mc_ur M) →
    wp (sysio (SyncRead (path e) (Some addr) (dataSize e) 0 b)) (λ r M', mc_mgr M' = mc_mgr M ∧
      world_wf (us_world (mc_ur M')) ∧ (∀ q i, fs_of M !! q = Some i → fs_of M' !! q = Some i) ∧
      (r.1 = SWAPFS_E_OK → ∃ i, fs_of M !! path e = Some i ∧
         r.2 = take (Z.to_nat (dataSize e)) (i_data i))) M1).
  { intros M1 b Hm Hw. unfold sysio, uring, lift, wp.
    pose proof (SyncRead_spec (path e) (Some addr) (dataSize e) 0 b (us_world (mc_ur M1))) as H.
    rewrite Hw in H |- *. specialize (H Hwf). unfold wp in H.
    destruct (SyncRead _ _ _ _ _ _) as [[r w']|]; [|done]. cbn.
    destruct H as ((Hwf' & _ & _ & Hq) & Hsame & Hok). split; [done|]. split; [done|]. split.
    - intros q i Hi. unfold fs_of. cbn. destruct (decide (q = path e)) as [->|Hne]; [by apply Hsame|].
      by rewrite Hq.
    - intros E. destruct (Hok E) as (i & Hi & Hd & _). exists i. by rewrite Hd, drop_0. }
  unfold ExecuteSwapInRead, wp. destruct dio; [|by apply Hsync].
  change (wp (bind (uring IsAvailable) (λ available,
    if available then uring (Read (path e) addr (dataSize e) 0)
    else sysio (SyncRead (path e) (Some addr) (dataSize e) 0 true)))
    (λ r M', mc_mgr M' = mc_mgr M ∧ world_wf (us_world (mc_ur M')) ∧
      (∀ q i, fs_of M !! q = Some i → fs_of M' !! q = Some i) ∧
      (r.1 = SWAPFS_E_OK → ∃ i, fs_of M !! path e = Some i ∧
         r.2 = take (Z.to_nat (dataSize e)) (i_data i))) M).
  apply wp_bind. unfold wp at 1, uring. pose proof (IsAvailable_spec 0 (mc_ur M)) as Ha. unfold wp in Ha.
  destruct (IsAvailable (mc_ur M)) as [[b ur]|]; [|done]. destruct Ha as (_ & Hw & _ & _).
  destruct b; [|by apply Hsync]. unfold wp, uring. cbn [mc_ur mc_mgr].
  pose proof (Read_spec (path e) addr (dataSize e) 0 ur) as H. rewrite Hw in H. specialize (H Hwf).
  unfold wp in H. destruct (Read _ _ _ _ ur) as [[r ur']|]; [|done]. cbn.
  destruct H as (_ & _ & (Hwf' & _ & _ & Hq) & Hsame & Hok). rewrite Hw in *.
  split; [done|]. split; [done|]. split.
  - intros q i Hi. unfold fs_of. cbn. destruct (decide (q = path e)) as [->|Hne]; [by apply Hsame|].
    by rewrite Hq.
  - intros E. destruct (Hok E) as (i & Hi & Hd). exists i. by rewrite Hd.
Qed.

Lemma step_read k e addr dio d K :
  path e = swapFile SP k → K !! k = Some d → dataSize e = Z.of_nat (length d) →
  step (ExecuteSwapInRead e addr dio) (Reading k) K (λ r c' K', K' = K ∧ c' = Reading k ∧
    (r.1 = SWAPFS_E_OK → r.2 = d)).
Proof.
  intros Hp HKd Hlen M R D t HI Ht HK _.
  eapply wp_mono; [|apply ExecuteSwapInRead_spec; exact (inv_wf _ _ _ HI)].
  intros r M' (Hm & Hwf & Hf & Hok). exists (Reading k), K, D. do 3 (split; [done|]). split.
  - destruct M' as [m' ur']. cbn in Hm. subst m'.
    apply (Inv_io M ur' R D t (Reading k) (Reading k)); try done.
    intros k' i _ _. split; by apply Hf.
  - split; [done|]. split; [done|]. intros E. destruct (Hok E) as (i & Hi & ->). rewrite Hp in Hi.
    destruct (inv_reading _ _ _ _ _ HI Ht) as [e1 He1].
    destruct (inv_entry _ _ _ HI k e1 He1) as (_ & _ & _ & _ & _ & E6 & d' & E7 & _ & E9).
    assert (d' = d) as -> by (eapply lookup_weaken in HKd; [|exact HK]; congruence).
    assert (0 < msum (c_read k) R) as Hrd.
    { pose proof (sum_ge (c_read k) R t _ (λ c, proj1 (c_read_range k c)) Ht) as Hge. cbn in Hge.
      rewrite bool_decide_true in Hge by done. cbn in Hge. lia. }
    assert (msum (c_remove k) R = 0) as Hrm by (destruct (status e1); lia).
    destruct E9 as (j & Hj & Hd); [|].
    + pose proof (msum_unit_le_size (c_gone k) R (c_gone_range k)).
      assert (msum (c_gone k) R <= msum (c_remove k) R); [|lia]. apply msum_le.
      intros t' c _. apply c_gone_remove.
    + assert (j = i) as -> by congruence. rewrite Hd, Hlen, Nat2Z.id. by apply take_ge.
Qed.

(** ** Removing everything *)
Lemma weight_zero (f : claim → Z) (R : claims) :
  (∀ c, 0 <= f c <= c_active c) → msum c_active R = 0 → msum f R = 0.
Proof.
  intros Hf Hz. assert (0 <= msum f R) by (apply msum_nonneg; intros; apply Hf).
  assert (msum f R <= msum c_active R); [|lia]. apply msum_le. intros; apply Hf.
Qed.
Lemma c_read_active k c : 0 <= c_read k c <= c_active c.
Proof. pose proof (c_read_range k c). destruct c; cbn in *; lia. Qed.
Lemma c_remove_active k c : 0 <= c_remove k c <= c_active c.
Proof. pose proof (c_remove_range k c). destruct c; cbn in *; lia. Qed.
Lemma c_out_active k c : 0 <= c_out k c <= c_active c.
Proof. pose proof (c_out_range k c). destruct c; cbn in *; lia. Qed.
Lemma c_gone_active k c : 0 <= c_gone k c <= c_active c.
Proof. pose proof (c_gone_range k c). destruct c as [| | | |? []|ks g|]; cbn in *; lia. Qed.
Lemma c_all_active c : 0 <= c_all c <= c_active c.
Proof. destruct c; cbn in *; lia. Qed.

Lemma msum_fmap (f : SwapKeyEntry → SwapKeyEntry) (es : gmap Z SwapKeyEntry) :
  (∀ e, dataSize (f e) = dataSize e) → msum dataSize (f <$> es) = msum dataSize es.
Proof.
  intros Hf. induction es as [|k e es Hk IH] using map_ind; [by rewrite fmap_empty|].
  rewrite fmap_insert, !msum_insert, IH, Hf; [done|done|]. by rewrite lookup_fmap, Hk.
Qed.

(** What a removal of all knows of the entries it collected. *)
Definition collected (K : gmap Z (list Z)) (ks : gset Z) (l : list SwapKeyEntry) : Prop :=
  NoDup (keyId <$> l) ∧ (∀ k, k ∈ ks ↔ k ∈ keyId <$> l) ∧
  Forall (λ e, path e = swapFile SP (keyId e) ∧
    ∃ d, K !! keyId e = Some d ∧ dataSize e = Z.of_nat (length d)) l.

Lemma collected_entries M R D :
  Inv M R D → collected D (dom (entries_ (mc_mgr M))) (map_to_list (entries_ (mc_mgr M))).*2.
Proof.
  intros HI. assert (keyId <$> (map_to_list (entries_ (mc_mgr M))).*2 =
    (map_to_list (entries_ (mc_mgr M))).*1) as Hk.
  { rewrite <-list_fmap_compose. apply list_fmap_ext. intros i [k e] Hi. cbn.
    apply list_elem_of_lookup_2, elem_of_map_to_list in Hi.
    apply (inv_entry _ _ _ HI k e Hi). }
  split; [|split].
  - rewrite Hk. apply NoDup_fst_map_to_list.
  - intros k. rewrite Hk, elem_of_dom. split.
    + intros [e He]. apply list_elem_of_fmap. exists (k, e). split; [done|]. by apply elem_of_map_to_list.
    + intros ([k' e] & -> & He)%list_elem_of_fmap. exists e. by apply elem_of_map_to_list in He.
  - apply Forall_forall. intros e ([k e'] & -> & He)%list_elem_of_fmap.
    apply elem_of_map_to_list in He. cbn.
    destruct (inv_entry _ _ _ HI k e' He) as (-> & _ & E3 & _ & _ & _ & d & E7 & E8 & _). eauto.
Qed.

Lemma step_collect K :
  step (locked CollectRemovableEntries) Idle K (λ '(r, l) c' K', (K ⊆ K') ∧
    if (r =? SWAPFS_E_OK) && negb (bool_decide (l = []))
    then ∃ ks, c' = RemovingAll ks ∅ ∧ collected K' ks l
    else c' = Idle).
Proof.
  intros M R D t HI Ht HK _. unfold wp, locked, CollectRemovableEntries.
  assert (Hidle : ∀ r, ∃ c' K' D', (D ⊆ D') ∧ (K' ⊆ D') ∧
    c_destroy c' = c_destroy Idle ∧ Inv (Machine (mc_mgr M) (mc_ur M)) (<[t := c']> R) D' ∧ (K ⊆ K') ∧
    if (r =? SWAPFS_E_OK) && negb (bool_decide (@nil SwapKeyEntry = []))
    then ∃ ks, c' = RemovingAll ks ∅ ∧ collected K' ks [] else c' = Idle).
  { intros r. exists Idle, K, D. rewrite (bool_decide_true ([] = [])), andb_false_r by done.
    do 3 (split; [done|]). split; [|done]. destruct M. by apply Inv_id. }
  destruct (initialized_ (mc_mgr M)) eqn:Hin; cbn [negb]; [|by apply Hidle].
  destruct (shuttingDown_ (mc_mgr M)) eqn:Hsd; [by apply Hidle|].
  destruct (activeOps_ (mc_mgr M) >? 0) eqn:Hops; zbool; [by apply Hidle|].
  pose proof (collected_entries _ _ _ HI) as Hcol.
  destruct (map_to_list (entries_ (mc_mgr M))).*2 as [|e0 l] eqn:El.
  { assert (entries_ (mc_mgr M) = ∅) as He.
    { apply map_to_list_empty_iff. by destruct (map_to_list (entries_ (mc_mgr M))). }
    replace (set_entries _ _) with (mc_mgr M); [by apply Hidle|]. unfold set_entries.
    rewrite He, fmap_empty, <-He. by destruct (mc_mgr M). }
  exists (RemovingAll (dom (entries_ (mc_mgr M))) ∅), D, D. do 3 (split; [done|]).
  split; [|split; [done|]; cbn; eauto].
  pose proof HI as [I1 I2 I3 I4 I5 I6 I7 I8 I9 I10 I11 I12 I13 I14 I15 I16 I17].
  pose proof (msum_unit_le_size c_active R c_active_range).
  assert (msum c_active R = 0) as Hz by lia.
  assert (Hzero : ∀ f, (∀ c, 0 <= f c <= c_active c) → msum f R = 0)
    by (intros f Hf; by apply weight_zero).
  constructor; mgr_cbn; rewrite ?(size_upd _ _ _ _ Ht); try done.
  - rewrite (inv_ops_room _ _ _ _ _ HI Ht), (sum_upd _ _ _ _ _ Ht) by done. cbn. lia.
  - by rewrite map_size_fmap.
  - by rewrite msum_fmap.
  - rewrite (sum_upd _ _ _ _ _ Ht). cbn. lia.
  - intros k e He. rewrite lookup_fmap in He. destruct (entries_ (mc_mgr M) !! k) as [e1|] eqn:He1; [|done].
    injection He as <-. destruct (I10 k e1 He1) as (E1 & E2 & E3 & E4 & E5 & E6 & d & E7 & E8 & E9).
    unfold entry_ok. rewrite !(sum_upd _ _ _ _ _ Ht), (Hzero _ (c_read_active k)),
      (Hzero _ (c_remove_active k)), (Hzero _ (c_gone_active k)). cbn.
    rewrite (Hzero _ (c_read_active k)) in E5. do 5 (split; [done|]). split; [by right|].
    exists d. split; [done|]. split; [done|]. intros _. apply E9. apply Hzero, c_gone_active.
  - intros k _. rewrite !(sum_upd _ _ _ _ _ Ht), (Hzero _ (c_read_active k)),
      (Hzero _ (c_remove_active k)), (Hzero _ c_all_active). done.
  - intros t' c1 [[<- <-]|[Hne Ht']]%lookup_insert_Some; [cbn; by rewrite dom_fmap_L|].
    specialize (I12 t' c1 Ht'). destruct c1 as [| |k1 n1 b1 sg| | |ks g|[|j]]; try done.
    + cbn in *. by rewrite dom_fmap_L.
    + destruct I12 as [? _]. congruence.
  - intros k. rewrite (sum_upd _ _ _ _ _ Ht), (Hzero _ (c_out_active k)). cbn. lia.
  - rewrite (sum_upd _ _ _ _ _ Ht), (Hzero _ c_all_active). cbn. split; [done|].
    intros _ k. rewrite (sum_upd _ _ _ _ _ Ht), (Hzero _ (c_out_active k)). done.
  - rewrite (sum_upd _ _ _ _ _ Ht). cbn. lia.
  - by rewrite Hin in I16 |- *.
Qed.

(** The bookkeeping loop at the end of [RemoveAllData]. *)
Lemma RemoveAll_loop_spec (l : list (SwapKeyEntry * bool)) (m : @SwapfsManager C) :
  NoDup (keyId <$> l.*1) →
  (∀ (e : SwapKeyEntry) (b : bool), (e, b) ∈ l → ∃ e0, entries_ m !! keyId e = Some e0 ∧ dataSize e0 = dataSize e) →
  (∀ k e, entries_ m !! k = Some e → 0 < dataSize e) →
  ctl_ok (control_ m) → l_data (ledger_of (control_ m)) = l_occ (ledger_of (control_ m)) →
  l_keys (ledger_of (control_ m)) = Z.of_nat (size (entries_ m)) →
  l_occ (ledger_of (control_ m)) = msum dataSize (entries_ m) →
  ∃ (es : gmap Z SwapKeyEntry) (ctl : C), RemoveAll_loop l m = with_entries m es ctl (activeOps_ m) ∧ ctl_ok ctl ∧
    (let lg : ledger := ledger_of (control_ m) in ledger_of ctl =
       Ledger (Z.of_nat (size es)) (msum dataSize es) (msum dataSize es) (l_pend lg) (l_limit lg)) ∧
    (∀ k : Z, k ∉ (keyId <$> l.*1) → es !! k = entries_ m !! k) ∧
    (∀ (e : SwapKeyEntry) (b : bool), (e, b) ∈ l → es !! keyId e =
       if b then None else set_status OH_SWAPFS_KEY_STATUS_ACTIVE <$> entries_ m !! keyId e).
Proof.
  revert m. induction l as [|[e b] l IH]; intros m Hnd Hin Hpos Hok Hda Hke Hoc.
  - exists (entries_ m), (control_ m). split; [by destruct m|]. split; [done|]. split.
    + cbn zeta. destruct (ledger_of (control_ m)). cbn in *. congruence.
    + split; [done|]. by intros e b ?%elem_of_nil.
  - cbn in Hnd. apply NoDup_cons in Hnd as [Hnotin Hnd].
    destruct (Hin e b) as (e0 & He0 & Hsz); [by left|].
    destruct (entry_size_le _ _ _ Hpos He0) as [Hde Hsize].
    cbn [RemoveAll_loop]. rewrite FinalizeRemoveEntry_eq. unfold FinishSwapIn_end. rewrite He0.
    set (m1 := (if negb b then _ else _).2).
    assert (Hm1 : ∃ es1 ctl1, m1 = with_entries m es1 ctl1 (activeOps_ m) ∧ ctl_ok ctl1 ∧
      (let lg := ledger_of (control_ m) in ledger_of ctl1 =
         Ledger (Z.of_nat (size es1)) (msum dataSize es1) (msum dataSize es1) (l_pend lg) (l_limit lg)) ∧
      (∀ k, k ≠ keyId e → es1 !! k = entries_ m !! k) ∧
      es1 !! keyId e = (if b then None else Some (set_status OH_SWAPFS_KEY_STATUS_ACTIVE e0))).
    { unfold m1. destruct b; cbn [negb snd].
      - destruct (delete_sums _ _ _ He0) as [D1 D2].
        destruct (removed_law (dataSize e) (control_ m) Hok) as [Hok' Hl]; [lia|lia|done|].
        exists (delete (keyId e) (entries_ m)), (ctl_OnEntryRemoved (dataSize e) (dataSize e) (control_ m)).
        split; [reflexivity|]. split; [exact Hok'|]. split.
        + cbn zeta. rewrite Hl, D1, D2, Hke, Hda, Hoc, Hsz. done.
        + split; [|apply lookup_delete_eq]. intros k Hne. by rewrite lookup_delete_ne.
      - set (e1 := set_status _ e0). destruct (same_size_sums _ _ e0 e1 He0 eq_refl) as [S1 S2].
        exists (<[keyId e := e1]> (entries_ m)), (control_ m). split; [by destruct m|].
        split; [done|]. split.
        + cbn zeta. rewrite S1, S2. destruct (ledger_of (control_ m)). cbn in *. congruence.
        + split; [|apply lookup_insert_eq]. intros k Hne. by rewrite lookup_insert_ne. }
    destruct Hm1 as (es1 & ctl1 & -> & Hok1 & Hl1 & Hk1 & He1). cbn zeta in Hl1.
    destruct (IH (with_entries m es1 ctl1 (activeOps_ m))) as (es & ctl & Heq & Hok2 & Hl2 & Hk2 & He2);
      unfold with_entries; mgr_cbn; rewrite ?Hl1; try done.
    + intros e' b' Hin'. destruct (Hin e' b') as (e0' & He0' & Hsz'); [by right|].
      exists e0'. rewrite Hk1; [done|]. intros E. apply Hnotin. rewrite <-E.
      apply list_elem_of_fmap. exists e'. split; [done|]. apply list_elem_of_fmap. by exists (e', b').
    + intros k e' He'. destruct (decide (k = keyId e)) as [->|Hne].
      * rewrite He1 in He'. destruct b; [done|]. injection He' as <-. cbn. by eapply Hpos.
      * rewrite Hk1 in He' by done. by eapply Hpos.
    + exists es, ctl. split; [exact Heq|]. split; [done|]. split.
      * cbn zeta in Hl2 |- *. unfold with_entries in Hl2. cbn in Hl2. rewrite Hl2, Hl1. done.
      * unfold with_entries in Hk2, He2. cbn in Hk2, He2. split.
        -- intros k Hk. cbn in Hk. apply not_elem_of_cons in Hk as [Hne Hk].
           rewrite Hk2 by done. by apply Hk1.
        -- intros e' b' [[= -> ->]|Hin']%elem_of_cons.
           ++ rewrite Hk2 by done. rewrite He1, He0. by destruct b.
           ++ rewrite (He2 e' b' Hin'). rewrite Hk1; [done|]. intros E. apply Hnotin. rewrite <-E.
              apply list_elem_of_fmap. exists e'. split; [done|]. apply list_elem_of_fmap. by exists (e', b').
Qed.
End invariant.
