(* ===== verification/SwapfsThreads.v ===== *)
(** * Threads of swapfs calls

    The programs of the public calls keep the invariant of [SwapfsConc], the
    pool of threads that interleaves them, and what every reachable pool
    guarantees. *)

From S2P Require Import Prelude.
From S2P Require Import Posix.
From S2P Require Import SwapfsErr.
From S2P Require Import SwapfsIo.
From S2P Require Import SwapfsControl.
From S2P Require Import SwapfsCleaner.
From S2P Require Import SwapfsUring.
From S2P Require Import SwapfsManager.
From S2P Require Import SwapfsConc.

Create HintDb updb.

(** ** Calls, threads, the pool *)
Inductive call :=
  | CallSwapOut (buffer : option cbuf) (hasKeyId : bool)
  | CallSwapIn (k : Z) (addr : option Z) (bufferSize : Z)
  | CallQueryData (k : Z) (hasInfo : bool)
  | CallGetStats (hasStats : bool)
  | CallRemoveData (k : Z)
  | CallRemoveAllData
  | CallDestroy.

Inductive outcome :=
  | OCode (r : Z)
  | OSwapOut (r : Z) (keyId : option Z)
  | OSwapIn (r : Z) (data : option (list Z))
  | OQueryData (r : Z) (info : option OH_SwapfsDataInfo)
  | OGetStats (r : Z) (stats : option OH_SwapfsStats).

Definition is_destroy (c : call) : bool := match c with CallDestroy => true | _ => false end.

(** The buffer of a caller fits its [size_t]. *)
Definition call_fits (c : call) : bool :=
  match c with CallSwapOut (Some b) _ => Z.of_nat (length (buf_bytes b)) <? 2 ^ 64 | _ => true end.

Section pool.
Context {EN : Env} {LU : Liburing} {C : Type} {CP : SwapControlProvider C}.

Definition call_prog (c : call) : prog (@machine C) outcome :=
  match c with
  | CallSwapOut b h => '(r, k) ⟸ SwapOut b h; Ret (OSwapOut r k)
  | CallSwapIn k a n => '(r, d) ⟸ SwapIn k a n; Ret (OSwapIn r d)
  | CallQueryData k h => '(r, i) ⟸ QueryDataCall k h; Ret (OQueryData r i)
  | CallGetStats h => '(r, s) ⟸ GetStats h; Ret (OGetStats r s)
  | CallRemoveData k => r ⟸ RemoveData k; Ret (OCode r)
  | CallRemoveAllData => r ⟸ RemoveAllData; Ret (OCode r)
  | CallDestroy => r ⟸ Destroy; Ret (OCode r)
  end.

Record thread := Thread { th_call : call; th_prog : prog (@machine C) outcome }.

Record pool := Pool {
  p_machine : @machine C;
  p_threads : gmap nat thread;
  p_log : list (call * outcome)       (** the calls that returned *)
}.

Inductive event := Spawn (t : nat) (c : call) | Step (t : nat) | Finish (t : nat).

(** The bounds of the environment: fewer than 2^32 threads, keys not used up, one
    [Destroy] at a time (the C interface admits one). *)
Definition spawn_ok (t : nat) (c : call) (P : pool) : bool :=
  bool_decide (p_threads P !! t = None) && call_fits c &&
  (Z.of_nat (size (p_threads P)) <? 2 ^ 32 - 1) &&
  (negb (is_destroy c) || forallb (λ th, negb (is_destroy (th_call th))) (map_to_list (p_threads P)).*2).

Definition pool_step (ev : event) (P : pool) : option pool :=
  match ev with
  | Spawn t c =>
      if spawn_ok t c P
      then Some (Pool (p_machine P) (<[t := Thread c (call_prog c)]> (p_threads P)) (p_log P))
      else None
  | Step t =>
      match p_threads P !! t with
      | Some (Thread c (Act m k)) =>
          if nextKeyId_ (mc_mgr (p_machine P)) <? 2 ^ 64 - 1 then
            match m (p_machine P) with
            | Some (b, M') => Some (Pool M' (<[t := Thread c (k b)]> (p_threads P)) (p_log P))
            | None => None
            end
          else None
      | _ => None
      end
  | Finish t =>
      match p_threads P !! t with
      | Some (Thread c (Ret o)) => Some (Pool (p_machine P) (delete t (p_threads P)) (p_log P ++ [(c, o)]))
      | _ => None
      end
  end.

Fixpoint pool_run (evs : list event) (P : pool) : option pool :=
  match evs with
  | [] => Some P
  | ev :: evs => match pool_step ev P with Some P' => pool_run evs P' | None => None end
  end.

(** A manager as constructed. *)
Definition new_manager (ctl : C) : @SwapfsManager C :=
  Manager (ConfigInner "" 0 false "") ctl ∅ "" 1 0 (-1) false false false.

(** The pools that follow a successful [Init] of a new manager. *)
Inductive pool_reach : pool → Prop :=
  | reach_init config ctl ur M' :
      world_wf (us_world ur) → (∀ c, config = Some c → 0 <= c_spaceLimitBytes c < 2 ^ 64) →
      InitLocked config (Machine (new_manager ctl) ur) = Some (SWAPFS_E_OK, M') →
      pool_reach (Pool M' ∅ [])
  | reach_step ev P P' : pool_reach P → pool_step ev P = Some P' → pool_reach P'.

Lemma pool_run_reach evs P P' : pool_reach P → pool_run evs P = Some P' → pool_reach P'.
Proof.
  revert P. induction evs as [|ev evs IH]; intros P HP H; cbn in H; [by simplify_eq|].
  destruct (pool_step ev P) as [P1|] eqn:E; [|done]. eapply IH; [|exact H]. by eapply reach_step.
Qed.
End pool.

(** ** [Init] starts the invariant *)
Section init.
Context {EN : Env} {LU : Liburing} {C : Type} {CP : SwapControlProvider C} {CL : SwapControlLaws C}.

Lemma keeps_PrepareSwapRoot cfg : keeps_wf (PrepareSwapRoot cfg).
Proof.
  unfold PrepareSwapRoot, CreateSwapRoot, ValidateSwapRoot, CreateMarkerFileAt. keeps_tac.
Qed.
Lemma keeps_CreateSessionLocked cfg fd root : keeps_wf (CreateSessionLocked cfg fd root).
Proof.
  unfold CreateSessionLocked, CreateSessionLayoutAt, CreateMarkerFileAt, MakeRandomId, CloseSessionLock.
  pose proof keeps_RemoveSessionAt. keeps_tac.
Qed.
Lemma keeps_RemoveSessionDir cfg p : keeps_wf (RemoveSessionDir cfg p).
Proof. unfold RemoveSessionDir. pose proof keeps_RemoveSessionTree. keeps_tac. Qed.
Lemma keeps_CloseSessionLock fd : keeps_wf (CloseSessionLock fd).
Proof. unfold CloseSessionLock. keeps_tac. Qed.
Lemma keeps_PrepareSession cfg fd : keeps_wf (PrepareSession cfg fd).
Proof.
  unfold PrepareSession, close_opt. pose proof keeps_CreateSessionLocked.
  pose proof keeps_AcquireCleanupLock. pose proof keeps_CleanupInactiveSessionsLocked. keeps_tac.
Qed.
Lemma keeps_ResolveConfig config : keeps_wf (ResolveConfig config).
Proof. unfold ResolveConfig, MakeRandomId. keeps_tac. Qed.

Lemma wp_sysio_wf {A} (i : io A) (Q : A → @machine C → Prop) M :
  keeps_wf i → world_wf (us_world (mc_ur M)) →
  (∀ a ur', world_wf (us_world ur') → Q a (Machine (mc_mgr M) ur')) → wp (sysio i) Q M.
Proof.
  intros Hk Hwf HQ. specialize (Hk _ Hwf). unfold wp, sysio, uring, lift in *.
  destruct (i (us_world (mc_ur M))) as [[a w']|]; [|done]. by apply HQ.
Qed.

Lemma wp_update (f : @SwapfsManager C → SwapfsManager) (Q : unit → @machine C → Prop) M :
  Q tt (Machine (f (mc_mgr M)) (mc_ur M)) → wp (update f) Q M.
Proof. done. Qed.


Lemma ResolveConfig_limit config w :
  (∀ c, config = Some c → 0 <= c_spaceLimitBytes c < 2 ^ 64) →
  wp (ResolveConfig config) (λ cfg _, 0 <= spaceLimitBytes cfg < 2 ^ 64) w.
Proof.
  intros Hc. unfold ResolveConfig, MakeRandomId. apply wp_bind, wp_ask, wp_ret. cbn.
  destruct config as [c|]; [|done]. specialize (Hc c eq_refl). by destruct (c_spaceLimitBytes c >? 0).
Qed.

Lemma PrepareSwapRoot_limit cfg w :
  wp (PrepareSwapRoot cfg) (λ r _, spaceLimitBytes r.2 = spaceLimitBytes cfg) w.
Proof.
  unfold PrepareSwapRoot. destruct (negb (IsAbsolutePath _)); [by apply wp_ret|].
  apply wp_bind, wp_any. intros m w1. destruct (match m with SErr e => _ | SOk _ => _ end) as [e|];
    [by apply wp_ret|].
  destruct (rsplit (swapRootPath cfg)) as [[dir name]|]; [|by apply wp_ret].
  apply wp_bind, wp_any. intros [e|p] w2; [by apply wp_ret|].
  apply wp_bind, wp_any. intros r w3. by apply wp_ret.
Qed.

Lemma wp_sysio {A} (i : io A) (P : A → Prop) (Q : A → @machine C → Prop) M :
  keeps_wf i → world_wf (us_world (mc_ur M)) → wp i (λ a _, P a) (us_world (mc_ur M)) →
  (∀ a ur', P a → world_wf (us_world ur') → Q a (Machine (mc_mgr M) ur')) → wp (sysio i) Q M.
Proof.
  intros Hk Hwf HP HQ. specialize (Hk _ Hwf). unfold wp, sysio, uring, lift in *.
  destruct (i (us_world (mc_ur M))) as [[a w']|]; [|done]. by apply HQ.
Qed.

Lemma wp_controlio {A} (f : C → io (A * C)) (Q : A → @machine C → Prop) M :
  wp (f (control_ (mc_mgr M))) (λ '(a, ctl) w', ∀ ur', us_world ur' = w' →
    Q a (Machine (set_control ctl (mc_mgr M)) ur')) (us_world (mc_ur M)) →
  wp (controlio f) Q M.
Proof.
  unfold wp, controlio, sysio, uring, lift. destruct (f _ _) as [[[a ctl] w']|]; [|done].
  intros H. by apply H.
Qed.

Lemma same_files_wf w w' : same_files w w' → world_wf w → world_wf w'.
Proof. intros (F1 & F2 & F3). unfold world_wf. by rewrite F1, F2, F3. Qed.

Lemma Inv_start cfg ctl sp fd ur limit :
  world_wf (us_world ur) → ctl_ok ctl → ledger_of ctl = Ledger 0 0 0 0 limit →
  Inv sp (Machine (Manager cfg ctl ∅ sp 1 0 fd false true false) ur) ∅ ∅.
Proof.
  intros Hwf Hok Hl. constructor; mgr_cbn; rewrite ?Hl; try done.
  all: by rewrite ?msum_empty.
Qed.

Lemma InitLocked_spec config ctl ur :
  world_wf (us_world ur) → (∀ c, config = Some c → 0 <= c_spaceLimitBytes c < 2 ^ 64) →
  wp (InitLocked config) (λ r M', r = SWAPFS_E_OK → Inv (sessionPath_ (mc_mgr M')) M' ∅ ∅)
    (Machine (new_manager ctl) ur).
Proof.
  intros Hwf Hc. unfold wp, InitLocked. cbn [mc_mgr initialized_ new_manager].
  match goal with |- match ?m ?M with _ => _ end => change (wp m (λ r M',
    r = SWAPFS_E_OK → Inv (sessionPath_ (mc_mgr M')) M' ∅ ∅) M) end.
  apply wp_bind. eapply wp_sysio; [apply keeps_ResolveConfig|done|by apply ResolveConfig_limit|].
  intros cfg0 ur1 Hlim Hwf1. apply wp_bind.
  eapply (wp_sysio _ (λ r, spaceLimitBytes r.2 = spaceLimitBytes cfg0));
    [apply keeps_PrepareSwapRoot|done|apply PrepareSwapRoot_limit|].
  intros [r cfg] ur2 Hcfg Hwf2. cbn in Hcfg, Hlim. rewrite <-Hcfg in Hlim. clear Hcfg cfg0. apply wp_bind, wp_update.
  destruct (r =? SWAPFS_E_OK) eqn:Er; cbn [negb]; [|apply wp_ret; by intros ->].
  apply wp_bind. apply wp_sysio_wf; [apply keeps_PrepareSession|done|].
  intros [[r3 lockFd] sp] ur3 Hwf3. apply wp_bind, wp_update.
  destruct (r3 =? SWAPFS_E_OK) eqn:Er3; cbn [negb].
  2: { apply wp_bind, wp_sysio_wf; [apply keeps_RemoveSessionDir|done|]. intros [] ur4 _.
       apply wp_bind, wp_update, wp_ret. by intros ->. }
  apply wp_bind, wp_controlio. eapply wp_mono; [|by apply init_law].
  intros [r4 ctl'] w4 [Hsame Hok] ur4 Hur4. cbn in Hsame.
  destruct (r4 =? SWAPFS_E_OK) eqn:Er4; cbn [negb].
  - apply wp_bind, wp_update, wp_ret. intros _. zbool. destruct (Hok Er4) as [Hctl Hled].
    eapply Inv_start; [|done|done]. cbn. rewrite Hur4. by eapply same_files_wf.
  - apply wp_bind, wp_sysio_wf; [apply keeps_RemoveSessionDir|..|].
    { cbn. rewrite Hur4. by eapply same_files_wf. }
    intros [] ur5 Hwf5. apply wp_bind, wp_sysio_wf; [apply keeps_CloseSessionLock|done|].
    intros fd ur6 _. apply wp_bind, wp_update, wp_ret. by intros ->.
Qed.

(** [Destroy] alone, nobody active. *)
Lemma sysio_some {A} (i : io A) (M : @machine C) :
  returns i (us_world (mc_ur M)) → ∃ a ur, sysio i M = Some (a, Machine (mc_mgr M) ur).
Proof.
  intros [[a w] H]. unfold sysio, uring, lift. rewrite H. eauto.
Qed.

Lemma RemoveSessionDir_returns cfg p w : returns (RemoveSessionDir cfg p) w.
Proof.
  unfold RemoveSessionDir. destruct (p =? "")%string; [by eexists|].
  apply returns_then; [apply RemoveSessionTree_returns|by eexists].
Qed.
Lemma CloseSessionLock_returns fd w : returns (CloseSessionLock fd) w.
Proof. unfold CloseSessionLock. destruct (fd >=? 0); by eexists. Qed.

Lemma Destroy_alone (M : @machine C) :
  activeOps_ (mc_mgr M) = 0 →
  ∃ M', run Destroy M = Some (SWAPFS_E_OK, M') ∧
    initialized_ (mc_mgr M') = false ∧ entries_ (mc_mgr M') = ∅ ∧ sessionPath_ (mc_mgr M') = "".
Proof.
  intros Hops. set (M1 := Machine (set_shuttingDown true (mc_mgr M)) (mc_ur M)).
  assert (run Destroy M = Destroy_end true M1) as ->.
  { cbn [run Destroy pbind act]. unfold bind, update, locked, WaitForActiveOps, locked,
      AllEntriesCleanLocked. cbn -[Destroy_end]. rewrite Hops. cbn -[Destroy_end].
    fold M1. by destruct (Destroy_end true M1) as [[? ?]|]. }
  unfold Destroy_end, RemoveSession, ClearManager. cbn [negb]. unfold bind.
  destruct (sysio_some (RemoveSessionDir (config_ (mc_mgr M1)) (sessionPath_ (mc_mgr M1))) M1
    (RemoveSessionDir_returns _ _ _)) as (u & ur1 & E1). rewrite E1.
  set (m2 := set_session (config_ (mc_mgr M1)) "" (sessionLockFd_ (mc_mgr M1)) (mc_mgr M1)).
  destruct (sysio_some (CloseSessionLock (sessionLockFd_ m2)) (Machine m2 ur1)
    (CloseSessionLock_returns _ _)) as (fd & ur2 & E2).
  unfold update at 1, locked at 1. cbn [mc_mgr mc_ur]. fold m2. rewrite E2.
  eexists. split; [reflexivity|]. by split_and!.
Qed.
End init.

Section threads.
Context {EN : Env} {LU : Liburing} {C : Type} {CP : SwapControlProvider C} {CL : SwapControlLaws C}.
Context (SP : string).

#[local] Abbreviation Inv := (SwapfsConc.Inv SP).
#[local] Abbreviation step := (SwapfsConc.step SP).
#[local] Abbreviation safe := (SwapfsConc.safe SP).
Implicit Types (M : @machine C) (R : claims) (D K : gmap Z (list Z)).

(** ** The end of a removal of all *)

(** Under the claim every entry is marked, unread, and removed by this thread only. *)
Lemma inv_removing_all M R D t ks g :
  Inv M R D → R !! t = Some (RemovingAll ks g) →
  dom (entries_ (mc_mgr M)) = ks ∧ msum c_all R = 1 ∧
  ∀ k, msum (c_read k) R = 0 ∧ msum (c_remove k) R = 1 ∧ msum (c_out k) R = 0.
Proof.
  intros HI Ht. split; [exact (inv_own _ _ _ _ _ _ HI Ht)|].
  destruct (inv_all _ _ _ _ HI) as [Ha Ho].
  pose proof (sum_ge c_all R t _ (λ c, proj1 (c_all_range c)) Ht) as Hge. cbn in Hge.
  pose proof (b2z_range (removeAllInProgress_ (mc_mgr M))).
  assert (msum c_all R = 1) as Hall by lia. split; [done|]. intros k.
  pose proof (sum_ge (c_remove k) R t _ (λ c, proj1 (c_remove_range k c)) Ht) as Hr. cbn in Hr.
  specialize (Ho Hall k).
  destruct (entries_ (mc_mgr M) !! k) as [e|] eqn:He.
  - destruct (inv_entry _ _ _ _ HI k e He) as (_ & _ & _ & _ & _ & E6 & _).
    destruct (status e); lia.
  - destruct (inv_absent _ _ _ _ HI k He). lia.
Qed.

Lemma step_remove_all_end l ks g K :
  collected SP K ks l.*1 → (∀ e b, (e, b) ∈ l → (b = true ↔ keyId e ∈ g)) →
  step (locked (RemoveAll_end l)) (RemovingAll ks g) K (λ _ c' K', K' = K ∧ c' = Active).
Proof.
  intros (Hnd & Hks & Hfa) Hg M R D t HI Ht HK _. unfold wp, locked, RemoveAll_end.
  destruct (inv_removing_all _ _ _ _ _ _ HI Ht) as (Hdom & Hall & Hk).
  assert (Hl : ∀ e b, (e, b) ∈ l → ∃ e0, entries_ (mc_mgr M) !! keyId e = Some e0 ∧ dataSize e0 = dataSize e).
  { intros e b Hin. assert (e ∈ l.*1) as Hin1 by (apply list_elem_of_fmap; by exists (e, b)).
    rewrite Forall_forall in Hfa. destruct (Hfa e Hin1) as (_ & d & HKd & Hsz).
    assert (keyId e ∈ ks) as Hek by (apply Hks, list_elem_of_fmap; by exists e).
    rewrite <-Hdom in Hek. apply elem_of_dom in Hek as [e0 He0]. exists e0. split; [done|].
    destruct (inv_entry _ _ _ _ HI _ _ He0) as (_ & _ & _ & _ & _ & _ & d' & E7 & E8 & _).
    eapply lookup_weaken in HKd; [|exact HK]. congruence. }
  pose proof HI as [I1 I2 I3 I4 I5 I6 I7 I8 I9 I10 I11 I12 I13 I14 I15 I16 I17].
  destruct (RemoveAll_loop_spec l (mc_mgr M)) as (es & ctl & -> & Hok & Hled & Hout & Hin);
    try done; [by eapply inv_sizes_pos|].
  assert (Hes : ∀ k e, es !! k = Some e → ∃ e0, entries_ (mc_mgr M) !! k = Some e0 ∧ (k ∉ g) ∧
    e = set_status OH_SWAPFS_KEY_STATUS_ACTIVE e0).
  { intros k e He. destruct (decide (k ∈ keyId <$> l.*1)) as [Hkl|Hkl].
    - apply list_elem_of_fmap in Hkl as (e1 & -> & ([e2 b] & -> & Hb)%list_elem_of_fmap). cbn in *.
      rewrite (Hin _ _ Hb) in He. destruct b; [done|].
      destruct (entries_ (mc_mgr M) !! keyId e2) as [e0|] eqn:E0; [|done]. cbn in He.
      exists e0. split; [done|]. split; [|congruence]. intros Hbad. by apply (Hg _ _ Hb) in Hbad.
    - rewrite Hout in He by done. destruct Hkl. apply Hks. rewrite <-Hdom. by apply elem_of_dom_2 in He. }
  exists Active, K, D. do 3 (split; [done|]). split; [|done].
  cbn zeta in Hled. constructor; unfold with_entries; mgr_cbn; rewrite ?(size_upd _ _ _ _ Ht), ?Hled;
    try done.
  - rewrite (sum_upd _ _ _ _ _ Ht). cbn. lia.
  - rewrite (sum_upd _ _ _ _ _ Ht). cbn. lia.
  - intros k e He. destruct (Hes k e He) as (e0 & He0 & Hkg & ->).
    destruct (I10 k e0 He0) as (E1 & E2 & E3 & E4 & E5 & E6 & d & E7 & E8 & E9).
    destruct (Hk k) as (K1 & K2 & K3). unfold entry_ok. rewrite !(sum_upd _ _ _ _ _ Ht), K1, K2. cbn.
    do 4 (split; [done|]). split; [lia|]. split; [lia|]. exists d. split; [done|]. split; [done|].
    rewrite bool_decide_false by done. cbn. intros H0. apply E9. lia.
  - intros k _. destruct (Hk k) as (K1 & K2 & K3).
    rewrite !(sum_upd _ _ _ _ _ Ht), K1, K2, Hall. done.
  - intros t' c1 [[<- <-]|[Hne Ht']]%lookup_insert_Some; [done|].
    specialize (I12 t' c1 Ht'). destruct c1 as [| |k n b sg| | |ks' g'|[|j]]; try done.
    destruct Hne. apply (msum_unique c_all R t t' _ _ (λ c, proj1 (c_all_range c)) ltac:(lia) Ht Ht');
      cbn; lia.
  - intros k. rewrite (sum_upd _ _ _ _ _ Ht). destruct (Hk k) as (_ & _ & ->). cbn. lia.
  - rewrite (sum_upd _ _ _ _ _ Ht), Hall. cbn. done.
  - rewrite (sum_upd _ _ _ _ _ Ht). cbn. lia.
  - by rewrite (inv_initialized _ _ _ _ _ _ HI Ht eq_refl) in *.
Qed.

(** The unlink loop: each entry is marked with whether its file is gone. *)
Lemma files_safe l acc err ks g K :
  NoDup (keyId <$> acc.*1 ++ l) → Forall (λ e, path e = swapFile SP (keyId e)) l →
  (∀ e b, (e, b) ∈ acc → (b = true ↔ keyId e ∈ g)) → (∀ k, k ∈ g → k ∈ keyId <$> acc.*1) →
  safe (RemoveAll_files l acc err) (λ '(res, _) c' K', K' = K ∧ ∃ g', c' = RemovingAll ks g' ∧
    res.*1 = acc.*1 ++ l ∧ ∀ e b, (e, b) ∈ res → (b = true ↔ keyId e ∈ g'))
    (RemovingAll ks g) K.
Proof.
  revert acc err g. induction l as [|e l IH]; intros acc err g Hnd Hp Hacc Hg; cbn [RemoveAll_files].
  - split; [done|]. exists g. by rewrite app_nil_r.
  - assert (Hassoc : ∀ b : bool, (acc ++ [(e, b)]).*1 ++ l = acc.*1 ++ e :: l)
      by (intros b; by rewrite fmap_app, <-app_assoc).
    apply Forall_cons in Hp as [-> Hp]. apply safe_bind, safe_act.
    eapply step_mono; [|apply step_remove_all_swap]. intros r c' K' [-> ->].
    assert (keyId e ∉ keyId <$> acc.*1) as Hne.
    { rewrite fmap_app in Hnd. cbn in Hnd. apply NoDup_app in Hnd as (_ & Hd & _). intros Hin. apply (Hd _ Hin). by left. }
    set (g1 := if r =? SWAPFS_E_OK then _ else g).
    eapply safe_mono; [|apply (IH _ _ g1); try done].
    + intros [res err'] c' K' [-> (g' & -> & Hres & Hin)]. split; [done|]. exists g'.
      split; [done|]. split; [|done]. by rewrite Hres, Hassoc.
    + by rewrite Hassoc.
    + intros e' b [Hin|Hin]%elem_of_app.
      * rewrite (Hacc _ _ Hin). assert (keyId e' ≠ keyId e) as Hk.
        { intros E. apply Hne. rewrite <-E. apply list_elem_of_fmap. exists e'. split; [done|].
          apply list_elem_of_fmap. by exists (e', b). }
        unfold g1. destruct (r =? SWAPFS_E_OK); [|done]. set_solver.
      * apply list_elem_of_singleton in Hin as [= -> ->]. unfold g1.
        destruct (r =? SWAPFS_E_OK); [set_solver|]. split; [done|]. intros Hin. by apply Hg in Hin.
    + intros k. rewrite !fmap_app, elem_of_app. cbn. unfold g1.
      destruct (r =? SWAPFS_E_OK); [|auto]. rewrite elem_of_union, elem_of_singleton.
      intros [-> |Hk]; [right; by left|auto].
Qed.

(** ** Statistics *)
Lemma step_stats c K :
  step (controlio (ctl_FillStats EN)) c K (λ _ c' K', K' = K ∧ c' = c).
Proof.
  apply step_controlio. intros M R D t HI Ht.
  eapply wp_mono; [|apply stats_law, (inv_ctl _ _ _ _ HI)].
  intros [s ctl] w' (Hs & Hok & Hl & _). exists c. split; [done|]. split; [by split_and!|].
  split; [done|]. split; [|split; [exact (inv_own _ _ _ _ _ _ HI Ht)|done]].
  cbn zeta. rewrite Hl. by apply ledger_eta.
Qed.

(** ** Destruction *)
Lemma Inv_shutdown M R D t c c' b :
  Inv M R D → R !! t = Some c → c_destroy c = 1 → c_destroy c' = 1 →
  claim_ok SP (set_shuttingDown b (mc_mgr M)) (fs_of M) c' →
  Inv (Machine (set_shuttingDown b (mc_mgr M)) (mc_ur M)) (<[t := c']> R) D.
Proof.
  intros HI Ht Hc Hc' Hcl.
  assert (∃ j, c = Destroying j) as [j ->] by (destruct c; cbn in Hc; try done; eauto).
  assert (∃ j', c' = Destroying j') as [j' ->] by (destruct c'; cbn in Hc'; try done; eauto).
  pose proof HI as [I1 I2 I3 I4 I5 I6 I7 I8 I9 I10 I11 I12 I13 I14 I15 I16 I17].
  assert (Hs : ∀ f, f (Destroying j') = f (Destroying j) → msum f (<[t := Destroying j']> R) = msum f R).
  { intros f E. rewrite (sum_upd f _ _ _ _ Ht). lia. }
  constructor; mgr_cbn; rewrite ?(size_upd _ _ _ _ Ht), ?Hs by done; try done.
  - intros k e He. apply (entry_ok_upd _ _ _ _ (nextKeyId_ (mc_mgr M)) _ _ _ _ _ _ Ht); try done; lia || auto.
  - intros k He. rewrite !Hs by done. by apply I11.
  - intros t' c1 [[<- <-]|[Hne Ht']]%lookup_insert_Some; [done|].
    specialize (I12 t' c1 Ht'). destruct c1 as [| |k n b' sg| | |ks g|[|i]]; try done.
    destruct Hne. by eapply destroy_unique.
  - intros k. rewrite Hs by done. apply I13.
  - split; [apply I14|]. intros E k. rewrite Hs by done. by apply I14.
Qed.

Lemma step_destroy_begin K :
  step (update (set_shuttingDown true)) (Destroying 0) K (λ _ c' K', K' = K ∧ c' = Destroying 1).
Proof.
  intros M R D t HI Ht HK _. unfold wp, update, locked. exists (Destroying 1), K, D.
  do 3 (split; [done|]). split; [|done]. eapply Inv_shutdown; try done. split; [done|by left].
Qed.

Lemma step_destroy_wait K :
  step WaitForActiveOps (Destroying 1) K (λ b c' K', K' = K ∧
    c' = Destroying (if b then 2 else 1)%nat).
Proof.
  intros M R D t HI Ht HK _. unfold wp, WaitForActiveOps, locked, AllEntriesCleanLocked.
  pose proof (inv_own _ _ _ _ _ _ HI Ht) as [Hsd _].
  exists (Destroying (if activeOps_ (mc_mgr M) =? 0 then 2 else 1)), K, D.
  do 3 (split; [done|]). split; [|done].
  replace (mc_mgr M) with (set_shuttingDown true (mc_mgr M)) at 1
    by (destruct (mc_mgr M); cbn in Hsd; by subst).
  eapply Inv_shutdown; try done. destruct (activeOps_ (mc_mgr M) =? 0) eqn:E; zbool.
  - split; [done|]. by right.
  - split; [done|]. by left.
Qed.

(** With nobody active the others hold nothing. *)
Lemma nobody_active M R D t' c :
  Inv M R D → activeOps_ (mc_mgr M) = 0 → R !! t' = Some c → c = Idle ∨ ∃ j, c = Destroying j.
Proof.
  intros HI Hops Ht'. pose proof (inv_ops _ _ _ _ HI).
  pose proof (sum_ge c_active R t' _ (λ c, proj1 (c_active_range c)) Ht').
  destruct c; cbn in *; eauto; lia.
Qed.

Lemma Inv_cleared M R D t j fd cfg sp ur' :
  Inv M R D → R !! t = Some (Destroying j) → activeOps_ (mc_mgr M) = 0 → world_wf (us_world ur') →
  Inv (Machine (Manager cfg (ctl_OnAllEntriesRemoved (control_ (mc_mgr M))) ∅ sp
        (nextKeyId_ (mc_mgr M)) (activeOps_ (mc_mgr M)) fd (removeAllInProgress_ (mc_mgr M)) false false)
        ur') (<[t := Destroying 0]> R) D.
Proof.
  intros HI Ht Hops Hwf.
  pose proof HI as [I1 I2 I3 I4 I5 I6 I7 I8 I9 I10 I11 I12 I13 I14 I15 I16 I17].
  destruct (clear_law _ I5) as [Hok Hl].
  assert (Hs : ∀ f, f (Destroying 0) = f (Destroying j) → msum f (<[t := Destroying 0]> R) = msum f R).
  { intros f E. rewrite (sum_upd f _ _ _ _ Ht). lia. }
  assert (Hzero : ∀ f, (∀ c, 0 <= f c <= c_active c) → msum f R = 0)
    by (intros f Hf; apply weight_zero; [done|lia]).
  cbn zeta in Hl. constructor; mgr_cbn; rewrite ?(size_upd _ _ _ _ Ht), ?Hl, ?Hs by done; try done.
  - intros k _. rewrite !Hs by done.
    by rewrite (Hzero _ (c_read_active k)), (Hzero _ (c_remove_active k)), (Hzero _ c_all_active).
  - intros t' c1 [[<- <-]|[Hne Ht']]%lookup_insert_Some; [done|].
    destruct (nobody_active _ _ _ _ _ HI Hops Ht') as [-> |[i ->]]; [done|].
    destruct Hne. by eapply destroy_unique.
  - intros k. rewrite Hs, (Hzero _ (c_out_active k)) by done. split; [lia|done].
  - rewrite (Hzero _ c_all_active) in *. split; [apply I14|done].
  - split; [done|lia].
Qed.

Lemma step_destroy_end b K :
  step (Destroy_end b) (Destroying (if b then 2 else 1)%nat) K (λ r c' K', K' = K ∧
    c' = Destroying 0).
Proof.
  intros M R D t HI Ht HK _. pose proof (inv_own _ _ _ _ _ _ HI Ht) as Hcl.
  unfold Destroy_end. destruct b; cbn [negb].
  - assert (activeOps_ (mc_mgr M) = 0) as Hops by (destruct Hcl as [_ [?|?]]; done).
    pose proof (inv_wf _ _ _ _ HI) as Hwf. unfold RemoveSession, ClearManager.
    repeat (apply wp_bind). apply wp_sysio_wf; [apply keeps_RemoveSessionDir|done|]. intros [] ur1 Hwf1.
    apply wp_update, wp_bind, wp_bind. apply wp_sysio_wf; [apply keeps_CloseSessionLock|done|].
    intros fd ur2 Hwf2. apply wp_update, wp_ret. exists (Destroying 0), K, D.
    do 3 (split; [done|]). split; [|done]. exact (Inv_cleared M R D t 2 fd _ _ ur2 HI Ht Hops Hwf2).
  - apply wp_bind, wp_update, wp_ret. exists (Destroying 0), K, D. do 3 (split; [done|]).
    split; [|done]. by eapply Inv_shutdown.
Qed.

(** ** The public calls keep the invariant *)
Lemma safe_step {B X} (a : st (@machine C) B) (k : B → prog (@machine C) X) Φ Q c K :
  step a c K Φ → (∀ b c' K', Φ b c' K' → safe (k b) Q c' K') → safe (pbind (act a) k) Q c K.
Proof. intros Ha Hk. apply safe_bind, safe_act. by eapply step_mono. Qed.

(** A counted call gives its count back. *)
Lemma safe_active_operation {A} (p : prog (@machine C) A) Q c K :
  safe p (λ a c' K', (c' = Active ∨ ∃ k n st, c' = Out k n false st) ∧ Q a Idle K') c K →
  safe (active_operation p) Q c K.
Proof.
  intros H. apply safe_bind. eapply safe_mono; [|exact H]. intros a c' K' [Hc HQ].
  eapply safe_step; [apply step_end; by destruct Hc as [-> |(k & n & st & ->)]|].
  intros [] c2 K2 [-> ->]. exact HQ.
Qed.

Lemma SwapOut_safe buffer hk K :
  (∀ b, buffer = Some b → Z.of_nat (length (buf_bytes b)) < 2 ^ 64) →
  safe (SwapOut buffer hk) (λ '(r, ko) c' K', c' = Idle ∧ (r = SWAPFS_E_OK →
    ∃ b k, buffer = Some b ∧ ko = Some k ∧ K' !! k = Some (buf_bytes b))) Idle K.
Proof.
  intros Hlen. unfold SwapOut. destruct buffer as [b|]; [|by split]. specialize (Hlen b eq_refl).
  set (n := Z.of_nat (length (buf_bytes b))) in *. destruct ((n =? 0) || negb hk) eqn:E0; [by split|].
  apply orb_false_elim in E0 as [E0 _]. zbool.
  eapply safe_step; [apply step_prepare_out; lia|]. intros [r ctx] c' K' [-> Hc].
  destruct (r =? SWAPFS_E_OK) eqn:Er; cbn [negb]; [|split; [done|]; by intros ->].
  destruct Hc as (Htmp & Hswap & ->). rewrite Htmp, Hswap. fold n. set (k := ctx_keyId ctx) in *.
  apply safe_active_operation.
  eapply safe_step; [apply step_reserve|]. intros rr c' K' [-> ->].
  destruct (rr =? SWAPFS_E_OK) eqn:Err; cbn [negb]; [|split; [eauto|split; [done|]; by intros ->]].
  eapply safe_step; [by apply step_write|]. intros w c' K' [-> ->].
  apply safe_bind.
  apply (safe_mono _ _ (λ r c' K', K' = K ∧ c' = Out k n true
    (if r =? SWAPFS_E_OK then SSwap (buf_bytes b)
     else match c' with Out _ _ _ st => st | _ => SNone end))).
  - intros r2 c' K' [-> ->]. destruct (r2 =? SWAPFS_E_OK) eqn:Er2; cbn [negb].
    + eapply safe_step; [apply step_now|]. intros now c1 K1 [-> ->].
      eapply safe_step; [apply step_commit|]. intros k' c1 K1 (-> & -> & _ & HK1).
      split; [by left|]. split; [done|]. eauto.
    + eapply safe_step; [apply step_remove_tmp|]. intros _ c1 K1 [-> ->].
      eapply safe_step; [apply step_cancel|]. intros _ c1 K1 [-> ->].
      split; [eauto|]. split; [done|]. by intros ->.
  - destruct (w =? SWAPFS_E_OK) eqn:Ew; [|split; [done|]; by rewrite Ew].
    eapply safe_step; [apply step_rename|]. intros [e|[]] c' K' [-> ->]; (split; [done|]).
    + destruct (MapErrno e PATH_OPERATION =? SWAPFS_E_OK) eqn:Em; [|done].
      zbool. exfalso. by eapply MapErrno_not_ok.
    + by rewrite Ew.
Qed.

Lemma FinishSwapIn_safe k K :
  safe (FinishSwapIn k) (λ _ c' K', c' = Active ∧ (K ⊆ K')) (Reading k) K.
Proof.
  unfold FinishSwapIn. eapply safe_step; [apply step_finish_begin|]. intros [[p n]|] c' K' [HK Hr].
  - destruct Hr as (-> & -> & Hd).
    eapply safe_step; [apply step_remove_swap|]. intros r c1 K1 [-> ->].
    apply safe_act. eapply step_mono; [|by apply step_finish_end]. intros [] c1 K1 [-> ->]. done.
  - by subst.
Qed.

Lemma SwapIn_safe k addr n K :
  safe (SwapIn k addr n) (λ '(r, data) c' K', c' = Idle ∧
    (r = SWAPFS_E_OK → ∃ d, data = Some d ∧ K' !! k = Some d)) Idle K.
Proof.
  unfold SwapIn. destruct addr as [a|]; [|by split]. destruct ((k =? 0) || (n =? 0)); [by split|].
  eapply safe_step; [apply (step_begin _ _ _ (λ x, x.1 =? SWAPFS_E_OK))|].
  { intros m. unfold PrepareForSwapIn. destruct (initialized_ m); [|by left].
    destruct (shuttingDown_ m); [by left|by right]. }
  intros [r dio] c' K' [-> ->]. cbn [fst]. destruct (r =? SWAPFS_E_OK) eqn:Er; cbn [negb];
    [|split; [done|]; by intros ->].
  apply safe_active_operation.
  destruct (dio && negb (IsDioAligned a n)); [split; [by left|by split]|].
  eapply safe_step; [apply step_lookup|]. intros [lr e] c' K1 [HK1 Hl].
  destruct (lr =? SWAPFS_E_OK) eqn:El; cbn [negb];
    [|subst; split; [by left|]; split; [done|]; by intros ->].
  destruct Hl as (-> & Hp & d & Hd & Hsz).
  destruct (n <? dataSize e).
  - apply safe_bind. eapply safe_mono; [|apply FinishSwapIn_safe].
    intros [] c' K2 [-> _]. split; [by left|by split].
  - eapply safe_step; [by eapply step_read|]. intros [r2 data] c' K2 (-> & -> & Hok). cbn in Hok.
    destruct (r2 =? SWAPFS_E_OK) eqn:Er2; cbn [negb]; apply safe_bind;
      (eapply safe_mono; [|apply FinishSwapIn_safe]); intros [] c' K2 [-> HK2]; (split; [by left|]).
    + split; [done|]. intros _. exists d. zbool. rewrite Hok by done. split; [done|].
      by eapply lookup_weaken.
    + split; [done|]. by intros ->.
Qed.

Lemma QueryData_safe k hi K : safe (QueryDataCall k hi) (λ _ c' _, c' = Idle) Idle K.
Proof. apply safe_act. eapply step_mono; [|apply step_pure]. by intros a c' K' [-> ->]. Qed.

Lemma GetStats_safe hs K : safe (GetStats hs) (λ _ c' _, c' = Idle) Idle K.
Proof.
  unfold GetStats. destruct hs; cbn [negb]; [|done].
  eapply safe_step; [apply (step_begin _ _ _ (λ x, x =? SWAPFS_E_OK))|].
  { intros m. unfold GetStats_begin. destruct (initialized_ m); [|by left].
    destruct (shuttingDown_ m); [by left|by right]. }
  intros r c' K' [-> ->]. destruct (r =? SWAPFS_E_OK); cbn [negb]; [|done].
  apply safe_active_operation. eapply safe_step; [apply step_stats|].
  intros s c' K' [-> ->]. split; [by left|done].
Qed.

Lemma step_finalize e k b K :
  keyId e = k → (∃ d, K !! k = Some d ∧ dataSize e = Z.of_nat (length d)) →
  step (locked (FinalizeRemoveEntry e b)) (Removing k b) K (λ _ c' K', K' = K ∧ c' = Active).
Proof.
  intros <- Hd M R D t HI Ht HK Hn. unfold wp, locked. rewrite FinalizeRemoveEntry_eq.
  exact (step_finish_end SP _ _ b K Hd M R D t HI Ht HK Hn).
Qed.

Lemma RemoveData_safe k K : safe (RemoveData k) (λ _ c' _, c' = Idle) Idle K.
Proof.
  unfold RemoveData. destruct (k =? 0); [done|].
  eapply safe_step; [apply step_prepare_remove|]. intros [r e] c' K' [HK Hc].
  destruct (r =? SWAPFS_E_OK); cbn [negb andb] in *; [|by subst].
  destruct (path e =? "")%string; cbn [negb] in *; [by subst|].
  destruct Hc as (-> & Hid & Hp & Hd). rewrite Hp. apply safe_active_operation.
  eapply safe_step; [apply step_remove_swap|]. intros rr c' K1 [-> ->].
  eapply safe_step; [by apply step_finalize|].
  intros [] c' K2 [_ ->]. destruct (rr =? SWAPFS_E_OK); (split; [by left|done]).
Qed.

Lemma RemoveAllData_safe K : safe RemoveAllData (λ _ c' _, c' = Idle) Idle K.
Proof.
  unfold RemoveAllData. eapply safe_step; [apply step_collect|]. intros [r l] c' K' [HK Hc].
  destruct (r =? SWAPFS_E_OK); cbn [negb andb] in *; [|by subst].
  destruct l as [|e l]; [by subst|]. destruct Hc as (ks & -> & Hcol).
  apply safe_active_operation, safe_bind.
  destruct Hcol as (Hnd & Hks & Hfa).
  eapply safe_mono; [|apply (files_safe (e :: l) [] SWAPFS_E_OK ks ∅ K')].
  - intros [res err] c' K1 [-> (g & -> & Hres & Hin)].
    eapply safe_step; [apply step_remove_all_end; [rewrite Hres; by split_and!|done]|].
    intros [] c' K1 [-> ->]. destruct (err =? SWAPFS_E_OK); (split; [by left|done]).
  - done.
  - eapply Forall_impl; [exact Hfa|]. by intros x [? _].
  - by intros ?? ?%elem_of_nil.
  - by intros k ?%elem_of_empty.
Qed.

Lemma Destroy_safe K : safe Destroy (λ _ c' _, c' = Destroying 0) (Destroying 0) K.
Proof.
  unfold Destroy. eapply safe_step; [apply step_destroy_begin|]. intros [] c' K' [-> ->].
  eapply safe_step; [apply step_destroy_wait|]. intros b c' K' [-> ->].
  apply safe_act. eapply step_mono; [|apply step_destroy_end]. by intros r c' K' [-> ->].
Qed.

(** ** The invariant of the pool *)

(** Only [Destroy] ends the manager: the other calls leave [initialized_] alone. *)
Definition keeps_up {B} (m : st (@machine C) B) : Prop :=
  ∀ M b M', m M = Some (b, M') → initialized_ (mc_mgr M') = initialized_ (mc_mgr M).

Fixpoint all_keep_up {A} (p : prog (@machine C) A) : Prop :=
  match p with Ret _ => True | Act m k => keeps_up m ∧ ∀ b, all_keep_up (k b) end.

Lemma akp_bind {A B} (p : prog (@machine C) A) (f : A → prog (@machine C) B) :
  all_keep_up p → (∀ a, all_keep_up (f a)) → all_keep_up (pbind p f).
Proof. intros Hp Hf. induction p as [a|B0 m k IH]; cbn in *; [done|]. destruct Hp. auto. Qed.
Lemma akp_act {B} (m : st (@machine C) B) : keeps_up m → all_keep_up (act m).
Proof. done. Qed.
Lemma akp_ret {A} (a : A) : all_keep_up (Ret a).
Proof. done. Qed.

Lemma up_locked {B} (f : @SwapfsManager C → B * SwapfsManager) :
  (∀ m, initialized_ (f m).2 = initialized_ m) → keeps_up (locked f).
Proof.
  intros Hf M b M' H. unfold locked in H. specialize (Hf (mc_mgr M)).
  destruct (f (mc_mgr M)). by injection H as <- <-.
Qed.
Lemma up_uring {B} (u : st ustate B) : keeps_up (uring u).
Proof. intros M b M' H. unfold uring in H. destruct (u (mc_ur M)) as [[? ?]|]; by simplify_eq. Qed.
Lemma up_sysio {B} (i : io B) : keeps_up (sysio i).
Proof. apply up_uring. Qed.
Lemma up_controlio {B} (f : C → io (B * C)) : keeps_up (controlio f).
Proof.
  intros M b M' H. unfold controlio in H.
  destruct (sysio _ M) as [[[b1 c] M1]|] eqn:E; [|done]. injection H as <- <-. cbn.
  by eapply up_sysio.
Qed.
Lemma up_control (f : C → C) : keeps_up (control f).
Proof. by apply up_locked. Qed.
Lemma up_read e addr dio : keeps_up (ExecuteSwapInRead e addr dio).
Proof.
  intros M b M' H. unfold ExecuteSwapInRead, bind in H. destruct dio; [|by eapply up_sysio].
  destruct (uring IsAvailable M) as [[a M1]|] eqn:E; [|done]. apply up_uring in E. rewrite <-E.
  destruct a; [by eapply up_uring|by eapply up_sysio].
Qed.
#[local] Hint Resolve akp_act akp_ret up_sysio up_controlio up_control up_read : updb.

Ltac up_tac :=
  repeat first
    [ solve [eauto with updb] | apply akp_bind; [|intros ?] | case_match
    | apply akp_act, up_locked; intros ?; cbn; repeat case_match; reflexivity ].

Lemma up_FinishSwapIn k : all_keep_up (FinishSwapIn k).
Proof.
  unfold FinishSwapIn, FinishSwapIn_begin, FinishSwapIn_end. up_tac.
Qed.
#[local] Hint Resolve up_FinishSwapIn : updb.

Lemma up_FinalizeRemoveEntry e b (m : @SwapfsManager C) :
  initialized_ (FinalizeRemoveEntry e b m).2 = initialized_ m.
Proof. unfold FinalizeRemoveEntry. by repeat case_match. Qed.
Lemma up_RemoveAll_loop l (m : @SwapfsManager C) : initialized_ (RemoveAll_loop l m) = initialized_ m.
Proof.
  revert m. induction l as [|[e b] l IH]; intros m; [done|]. cbn [RemoveAll_loop].
  by rewrite IH, up_FinalizeRemoveEntry.
Qed.
Lemma up_RemoveAll_files l acc err : all_keep_up (RemoveAll_files l acc err).
Proof. revert acc err. induction l as [|e l IH]; intros acc err; cbn [RemoveAll_files]; up_tac. Qed.
#[local] Hint Resolve up_RemoveAll_files : updb.
Lemma up_RemoveAll_end l : keeps_up (locked (RemoveAll_end l)).
Proof. apply up_locked. intros m. apply up_RemoveAll_loop. Qed.
Lemma up_Finalize e b : keeps_up (locked (FinalizeRemoveEntry e b)).
Proof. apply up_locked, up_FinalizeRemoveEntry. Qed.
#[local] Hint Resolve up_RemoveAll_end up_Finalize : updb.

Lemma call_keeps_up c : is_destroy c = false → all_keep_up (call_prog c).
Proof.
  destruct c as [b h|k a n|k h|h|k| |]; intros Hd; try done; cbn [call_prog];
    unfold SwapOut, SwapIn, QueryDataCall, GetStats, RemoveData, RemoveAllData, active_operation,
      PrepareForSwapOut, CommitSwapOutEntry, PrepareForSwapIn, LookupKeyForSwapIn, GetStats_begin,
      PrepareRemoveEntry, CollectRemovableEntries, EndOperation.
  all: up_tac.
Qed.


(** What an answer says of the data swapped out. *)
Definition outcome_ok (c : call) (o : outcome) (K : gmap Z (list Z)) : Prop :=
  match c, o with
  | CallSwapOut b _, OSwapOut r ko => r = SWAPFS_E_OK →
      ∃ b' k, b = Some b' ∧ ko = Some k ∧ K !! k = Some (buf_bytes b')
  | CallSwapIn k _ _, OSwapIn r d => r = SWAPFS_E_OK → ∃ d', d = Some d' ∧ K !! k = Some d'
  | _, _ => True
  end.

Definition call_claim (c : call) : claim := if is_destroy c then Destroying 0 else Idle.

Lemma call_safe c K :
  call_fits c = true →
  safe (call_prog c) (λ o c' K', c' = call_claim c ∧ outcome_ok c o K') (call_claim c) K.
Proof.
  intros Hfit. destruct c as [b h|k a n|k h|h|k| |]; cbn [call_prog call_claim is_destroy]; apply safe_bind.
  - eapply safe_mono; [|apply SwapOut_safe].
    + by intros [r ko] c' K' [-> Hr].
    + intros b' ->. cbn in Hfit. by zbool.
  - eapply safe_mono; [|apply SwapIn_safe]. by intros [r d] c' K' [-> Hr].
  - eapply safe_mono; [|apply QueryData_safe]. by intros [r i] c' K' ->.
  - eapply safe_mono; [|apply GetStats_safe]. by intros [r i] c' K' ->.
  - eapply safe_mono; [|apply RemoveData_safe]. by intros r c' K' ->.
  - eapply safe_mono; [|apply RemoveAllData_safe]. by intros r c' K' ->.
  - eapply safe_mono; [|apply Destroy_safe]. by intros r c' K' ->.
Qed.

(** A thread that appears and one that is done. *)
Lemma Inv_spawn M R D t b :
  Inv M R D → R !! t = None → Z.of_nat (size R) < 2 ^ 32 - 1 →
  (b = true → msum c_destroy R = 0) →
  Inv M (<[t := if b then Destroying 0 else Idle]> R) D.
Proof.
  intros HI Ht Hsz Hb. set (c := if b then _ else _).
  pose proof HI as [I1 I2 I3 I4 I5 I6 I7 I8 I9 I10 I11 I12 I13 I14 I15 I16 I17].
  assert (Hs : ∀ f, f c = 0 → msum f (<[t := c]> R) = msum f R).
  { intros f E. rewrite msum_insert by done. lia. }
  assert (Hz : ∀ f, f Idle = 0 → f (Destroying 0) = 0 → msum f (<[t := c]> R) = msum f R).
  { intros f E1 E2. apply Hs. by destruct b. }
  constructor; rewrite ?Hz by done; try done.
  - rewrite map_size_insert_None by done. lia.
  - intros k e He. destruct (I10 k e He) as (E1 & E2 & E3 & E4 & E5 & E6 & d & E7 & E8 & E9).
    unfold entry_ok. rewrite !Hz by done. do 6 (split; [done|]). eauto.
  - intros k He. rewrite !Hz by done. by apply I11.
  - intros t' c1 [[<- <-]|[Hne Ht']]%lookup_insert_Some; [by destruct b|]. by eapply I12.
  - intros k. rewrite Hz by done. apply I13.
  - split; [apply I14|]. intros E k. rewrite Hz by done. by apply I14.
  - rewrite msum_insert by done. destruct b; cbn; [|lia]. rewrite Hb by done. lia.
Qed.

Lemma Inv_retire M R D t c :
  Inv M R D → R !! t = Some c → c = Idle ∨ c = Destroying 0 → Inv M (delete t R) D.
Proof.
  intros HI Ht Hc.
  pose proof HI as [I1 I2 I3 I4 I5 I6 I7 I8 I9 I10 I11 I12 I13 I14 I15 I16 I17].
  assert (Hz : ∀ f, f Idle = 0 → f (Destroying 0) = 0 → msum f (delete t R) = msum f R).
  { intros f E1 E2. rewrite (msum_delete f R t c Ht). destruct Hc as [-> | ->]; lia. }
  constructor; rewrite ?Hz by done; try done.
  - rewrite map_size_delete_Some by (by exists c). lia.
  - intros k e He. destruct (I10 k e He) as (E1 & E2 & E3 & E4 & E5 & E6 & d & E7 & E8 & E9).
    unfold entry_ok. rewrite !Hz by done. do 6 (split; [done|]). eauto.
  - intros k He. rewrite !Hz by done. by apply I11.
  - intros t' c1 [Hne Ht']%lookup_delete_Some. by eapply I12.
  - intros k. rewrite Hz by done. apply I13.
  - split; [apply I14|]. intros E k. rewrite Hz by done. by apply I14.
  - rewrite (msum_delete c_destroy R t c Ht) in I15. pose proof (c_destroy_range c). lia.
Qed.

(** Where a [Destroy] can be, with the claim it has there. *)
Inductive destroy_at : prog (@machine C) outcome → claim → Prop :=
  | at_begin : destroy_at (call_prog CallDestroy) (Destroying 0)
  | at_wait : destroy_at (pbind (clean ⟸ act WaitForActiveOps; act (Destroy_end clean))
      (λ r, Ret (OCode r))) (Destroying 1)
  | at_end b : destroy_at (pbind (act (Destroy_end b)) (λ r, Ret (OCode r)))
      (Destroying (if b then 2 else 1)%nat)
  | at_ret r : destroy_at (Ret (OCode r)) (Destroying 0).

(** Another call is at a point of a safe program. *)
Definition thread_ok (th : @thread C) (c : claim) (K : gmap Z (list Z)) : Prop :=
  if is_destroy (th_call th) then th_call th = CallDestroy ∧ destroy_at (th_prog th) c
  else c_destroy c = 0 ∧ all_keep_up (th_prog th) ∧
    safe (th_prog th) (λ o c' K', c' = Idle ∧ outcome_ok (th_call th) o K') c K.

Lemma thread_ok_destroy th c K :
  thread_ok th c K → c_destroy c = Z.b2z (is_destroy (th_call th)).
Proof.
  unfold thread_ok. destruct (is_destroy (th_call th)); [intros [_ H]; by destruct H|].
  by intros [? _].
Qed.

(** What returned is true of the data. *)
Definition pool_inv (P : @pool C) : Prop :=
  ∃ R D, Inv (p_machine P) R D ∧ dom R = dom (p_threads P) ∧
    (∀ t th, p_threads P !! t = Some th → ∃ c K, R !! t = Some c ∧ (K ⊆ D) ∧ thread_ok th c K) ∧
    (∀ c o, (c, o) ∈ p_log P → outcome_ok c o D).

Lemma outcome_ok_mono c o K K' : K ⊆ K' → outcome_ok c o K → outcome_ok c o K'.
Proof.
  intros HK. destruct c, o; cbn; try done; intros H E; destruct (H E) as (x & y); naive_solver eauto using lookup_weaken.
Qed.

Lemma no_destroy_weight (ths : gmap nat (@thread C)) R :
  dom R = dom ths →
  (∀ t th, ths !! t = Some th → ∃ c, R !! t = Some c ∧ c_destroy c = Z.b2z (is_destroy (th_call th))) →
  forallb (λ th, negb (is_destroy (th_call th))) (map_to_list ths).*2 = true → msum c_destroy R = 0.
Proof.
  intros Hdom Hth Hf. apply msum_zero. intros t c Hc.
  assert (t ∈ dom ths) as [th Ht]%elem_of_dom by (rewrite <-Hdom; by apply elem_of_dom_2 in Hc).
  destruct (Hth t th Ht) as (c1 & Hc1 & Hd). assert (c1 = c) as -> by congruence.
  rewrite Hd. assert (negb (is_destroy (th_call th)) = true) as Hn; [|by destruct (is_destroy _)].
  rewrite forallb_forall in Hf. apply Hf, list_elem_of_In, list_elem_of_fmap. exists (t, th).
  split; [done|]. by apply elem_of_map_to_list.
Qed.

Lemma new_thread_ok c K :
  call_fits c = true → thread_ok (Thread c (call_prog c)) (call_claim c) K.
Proof.
  intros Hfit. pose proof (call_safe c K Hfit) as Hs. unfold thread_ok, call_claim in *. cbn.
  destruct (is_destroy c) eqn:Ed.
  - destruct c; try done. split; [done|constructor].
  - split; [done|]. split; [by apply call_keeps_up|done].
Qed.

Lemma pool_spawn_inv t c P : pool_inv P → spawn_ok t c P = true →
  pool_inv (Pool (p_machine P) (<[t := Thread c (call_prog c)]> (p_threads P)) (p_log P)).
Proof.
  intros (R & D & HI & Hdom & Hth & Hlog) Hok. unfold spawn_ok in Hok.
  apply andb_prop in Hok as [Hok Hd]. apply andb_prop in Hok as [Hok Hsz].
  apply andb_prop in Hok as [Hnone Hfit]. apply bool_decide_eq_true in Hnone. zbool.
  assert (R !! t = None) as HRt by (apply not_elem_of_dom; rewrite Hdom; by apply not_elem_of_dom).
  exists (<[t := call_claim c]> R), D. cbn [p_machine p_threads p_log].
  split; [|split; [by rewrite !dom_insert_L, Hdom|split; [|done]]].
  - apply Inv_spawn; [done|done|..].
    + rewrite <-size_dom, Hdom, size_dom. lia.
    + intros Hc. rewrite Hc in Hd. cbn in Hd.
      eapply no_destroy_weight; [exact Hdom| |exact Hd].
      intros t' th Ht'. destruct (Hth t' th Ht') as (c1 & K & ? & _ & Hc1%thread_ok_destroy). eauto.
  - intros t' th [[<- <-]|[Hne Ht']]%lookup_insert_Some.
    + exists (call_claim c), ∅. split; [apply lookup_insert_eq|]. split; [apply map_empty_subseteq|].
      by apply new_thread_ok.
    + destruct (Hth t' th Ht') as (c1 & K & ? & ?). exists c1, K.
      split; [by rewrite lookup_insert_ne|done].
Qed.

(** One action of a thread whose rest is fine afterwards. *)
Lemma pool_act_inv t cl {B} (m : st (@machine C) B) k b M' P (R : claims) D c K :
  Inv (p_machine P) R D → dom R = dom (p_threads P) →
  (∀ t th, p_threads P !! t = Some th → ∃ c K, R !! t = Some c ∧ (K ⊆ D) ∧ thread_ok th c K) →
  (∀ c o, (c, o) ∈ p_log P → outcome_ok c o D) →
  R !! t = Some c → (K ⊆ D) → nextKeyId_ (mc_mgr (p_machine P)) < 2 ^ 64 - 1 →
  step m c K (λ b c' K', thread_ok (Thread cl (k b)) c' K') → m (p_machine P) = Some (b, M') →
  pool_inv (Pool M' (<[t := Thread cl (k b)]> (p_threads P)) (p_log P)).
Proof.
  intros HI Hdom Hth Hlog HR HK Hn Hstep Hm.
  pose proof (Hstep _ R D t HI HR HK Hn) as Hs. unfold wp in Hs. rewrite Hm in Hs.
  destruct Hs as (c' & K' & D' & HD & HK' & Hd' & HI' & Hok).
  exists (<[t := c']> R), D'. split; [exact HI'|]. cbn [p_machine p_threads p_log].
  split; [by rewrite !dom_insert_L, Hdom|]. split.
  - intros t' th [[<- <-]|[Hne Ht']]%lookup_insert_Some.
    + exists c', K'. split; [apply lookup_insert_eq|]. by split.
    + destruct (Hth t' th Ht') as (c1 & K1 & ? & ? & ?). exists c1, K1.
      split; [by rewrite lookup_insert_ne|]. split; [by etrans|done].
  - intros c1 o Hin. eapply outcome_ok_mono; [exact HD|by apply Hlog].
Qed.

(** The actions of [Destroy]. *)
Lemma destroy_step p c K :
  destroy_at p c → match p with
  | Act m k => step m c K (λ b c' K', thread_ok (Thread CallDestroy (k b)) c' K')
  | Ret _ => c = Destroying 0 end.
Proof.
  intros [| |b|r]; cbn [call_prog Destroy pbind act]; [..|done].
  - eapply step_mono; [|apply step_destroy_begin]. intros [] c' K' [-> ->]. split; [done|].
    apply at_wait.
  - eapply step_mono; [|apply step_destroy_wait]. intros b c' K' [-> ->]. split; [done|].
    apply at_end.
  - eapply step_mono; [|apply step_destroy_end]. intros r c' K' [-> ->]. split; [done|].
    apply at_ret.
Qed.

Lemma thread_step c p cl K :
  thread_ok (Thread cl p) c K → match p with
  | Act m k => step m c K (λ b c' K', thread_ok (Thread cl (k b)) c' K')
  | Ret o => c = call_claim cl ∧ outcome_ok cl o K end.
Proof.
  unfold thread_ok, call_claim. cbn [th_call th_prog]. destruct (is_destroy cl) eqn:Ed.
  - intros [-> H]. pose proof (destroy_step p c K H) as Hd. destruct p; [by split|].
    eapply step_mono; [|exact Hd]. by intros b c' K'.
  - intros (Hc & Hup & Hs). destruct p as [o|B m k]; [done|]. destruct Hup as [_ Hup].
    intros M R D t HI Ht HK Hn. eapply wp_mono; [|by apply (Hs M R D t)].
    intros b M' (c' & K' & D' & ? & ? & Hc' & ? & ?). exists c', K', D'.
    do 4 (split; [done|]). split; [congruence|]. by split.
Qed.

Lemma pool_finish_inv t c o P :
  pool_inv P → p_threads P !! t = Some (Thread c (Ret o)) →
  pool_inv (Pool (p_machine P) (delete t (p_threads P)) (p_log P ++ [(c, o)])).
Proof.
  intros (R & D & HI & Hdom & Hth & Hlog) Ht.
  destruct (Hth t _ Ht) as (c0 & K & HR & HK & [Hc Ho]%thread_step).
  exists (delete t R), D. cbn [p_machine p_threads p_log].
  split; [|split; [by rewrite !dom_delete_L, Hdom|split]].
  - eapply Inv_retire; [done|exact HR|]. subst c0. unfold call_claim. destruct (is_destroy c); auto.
  - intros t' th [Hne Ht']%lookup_delete_Some. destruct (Hth t' th Ht') as (c1 & K1 & ? & ?).
    exists c1, K1. split; [by rewrite lookup_delete_ne|done].
  - intros c1 o1 [Hin|Hin]%elem_of_app; [by apply Hlog|].
    apply list_elem_of_singleton in Hin as [= -> ->]. by eapply outcome_ok_mono.
Qed.

Lemma pool_step_inv ev P P' : pool_inv P → pool_step ev P = Some P' → pool_inv P'.
Proof.
  intros HP H. destruct ev as [t c|t|t]; cbn in H.
  - destruct (spawn_ok t c P) eqn:E; [|done]. injection H as <-. by apply pool_spawn_inv.
  - destruct (p_threads P !! t) as [[c [o|B m k]]|] eqn:Ht; try done.
    destruct (nextKeyId_ _ <? _) eqn:En; [|done]. zbool.
    destruct (m (p_machine P)) as [[b M']|] eqn:Em; [|done]. injection H as <-.
    destruct HP as (R & D & HI & Hdom & Hth & Hlog).
    destruct (Hth t _ Ht) as (c0 & K & HR & HK & Hok%thread_step). by eapply pool_act_inv.
  - destruct (p_threads P !! t) as [[c [o|B m k]]|] eqn:Ht; try done. injection H as <-.
    by apply pool_finish_inv.
Qed.

(** What the end of the manager leaves: no entry, no session, no lock. *)
Definition ended (m m' : @SwapfsManager C) : Prop :=
  activeOps_ m = 0 ∧ shuttingDown_ m = true ∧ entries_ m' = ∅ ∧ sessionPath_ m' = "" ∧
  sessionLockFd_ m' < 0 ∧ shuttingDown_ m' = false ∧
  control_ m' = ctl_OnAllEntriesRemoved (control_ m).

Lemma CloseSessionLock_fd fd w : wp (CloseSessionLock fd) (λ fd' _, fd' < 0) w.
Proof.
  unfold CloseSessionLock. destruct (fd >=? 0) eqn:E; [|apply wp_ret; zbool; lia].
  apply wp_bind, wp_any. intros. apply wp_bind, wp_any. intros. by apply wp_ret.
Qed.

Lemma wp_sysio_mgr {A} (i : io A) (P : A → Prop) (Q : A → @machine C → Prop) M :
  (∀ w, wp i (λ a _, P a) w) → (∀ a ur', P a → Q a (Machine (mc_mgr M) ur')) → wp (sysio i) Q M.
Proof.
  intros Hi HQ. specialize (Hi (us_world (mc_ur M))). unfold wp, sysio, uring, lift in *.
  destruct (i _) as [[a w']|]; [|done]. by apply HQ.
Qed.

Lemma Destroy_end_down M :
  claim_ok SP (mc_mgr M) (fs_of M) (Destroying 2) →
  wp (Destroy_end true) (λ _ M', ended (mc_mgr M) (mc_mgr M')) M.
Proof.
  intros [Hsd [?|Hops]]; [done|]. unfold Destroy_end, RemoveSession, ClearManager. cbn [negb].
  do 2 apply wp_bind. apply (wp_sysio_mgr _ (λ _, True)); [intros w; by apply wp_any|].
  intros [] ur1 _. apply wp_update, wp_bind, wp_bind.
  eapply wp_sysio_mgr; [apply CloseSessionLock_fd|]. intros fd ur2 Hfd.
  apply wp_update, wp_ret. by split_and!.
Qed.

Lemma destroy_down p c M :
  destroy_at p c → claim_ok SP (mc_mgr M) (fs_of M) c → match p with
  | Act m k => ∀ b M', m M = Some (b, M') → initialized_ (mc_mgr M) = true →
      initialized_ (mc_mgr M') = false → ended (mc_mgr M) (mc_mgr M')
  | Ret _ => True end.
Proof.
  intros [| |[]|r] Hcl; cbn [call_prog Destroy pbind act]; try done; intros x M' Hm Hi Hi'.
  1,2: injection Hm as _ <-; cbn in Hi'; congruence.
  - pose proof (Destroy_end_down M Hcl) as H. unfold wp in H. by rewrite Hm in H.
  - injection Hm as _ <-. cbn in Hi'. congruence.
Qed.
End threads.

Section guarantees.
Context {EN : Env} {LU : Liburing} {C : Type} {CP : SwapControlProvider C} {CL : SwapControlLaws C}.
Implicit Types (P : @pool C).

Lemma pool_reach_inv P : pool_reach P → ∃ SP, pool_inv SP P.
Proof.
  induction 1 as [config ctl ur M' Hwf Hc Hinit|ev P P' _ [SP IH] Hs].
  - exists (sessionPath_ (mc_mgr M')), ∅, ∅.
    pose proof (InitLocked_spec config ctl ur Hwf Hc) as H. unfold wp in H. rewrite Hinit in H.
    split; [by apply H|]. split; [done|]. split; [done|]. by intros c o ?%elem_of_nil.
  - exists SP. by eapply pool_step_inv.
Qed.

(** ** What the calls guarantee *)

(** C1: whatever calls run in between, a swap-in that succeeds returns exactly the bytes
    that the swap-out of its key was given. *)
Theorem swap_in_returns_swapped_out P b h k a n d :
  pool_reach P →
  (CallSwapOut (Some b) h, OSwapOut SWAPFS_E_OK (Some k)) ∈ p_log P →
  (CallSwapIn k a n, OSwapIn SWAPFS_E_OK (Some d)) ∈ p_log P →
  d = buf_bytes b.
Proof.
  intros [SP (R & D & _ & _ & _ & Hlog)]%pool_reach_inv Hout Hin.
  destruct (Hlog _ _ Hout eq_refl) as (b' & k' & [= <-] & [= <-] & HD).
  destruct (Hlog _ _ Hin eq_refl) as (d' & [= <-] & HD'). congruence.
Qed.

(** C11: when no call is running the bookkeeping is exact: no operation is counted, every
    entry is active and unread, nothing is reserved, the provider accounts for exactly
    the entries, and the swap file of each holds its size. *)
Theorem quiescent_bookkeeping P :
  pool_reach P → p_threads P = ∅ →
  let m := mc_mgr (p_machine P) in
  activeOps_ m = 0 ∧ removeAllInProgress_ m = false ∧
  (∀ k e, entries_ m !! k = Some e → keyId e = k ∧ status e = OH_SWAPFS_KEY_STATUS_ACTIVE ∧
     readCount e = 0 ∧ path e = KeyFile (sessionPath_ m) k ".swap" ∧
     ∃ i, w_fs (us_world (mc_ur (p_machine P))) !! path e = Some i ∧
       Z.of_nat (length (i_data i)) = dataSize e) ∧
  l_pend (ledger_of (control_ m)) = 0 ∧
  l_keys (ledger_of (control_ m)) = Z.of_nat (size (entries_ m)) ∧
  l_occ (ledger_of (control_ m)) = msum dataSize (entries_ m).
Proof.
  intros [SP (R & D & HI & Hdom & _)]%pool_reach_inv Hnone; cbn zeta. rewrite Hnone, dom_empty_L in Hdom.
  apply dom_empty_inv_L in Hdom. subst R.
  split; [by rewrite (inv_ops _ _ _ _ HI)|]. split.
  { destruct (inv_all _ _ _ _ HI) as [H _]. rewrite msum_empty in H. by destruct (removeAllInProgress_ _). }
  split; [|split; [by rewrite (inv_pend _ _ _ _ HI)|split;
    [exact (inv_keys _ _ _ _ HI)|exact (inv_occ _ _ _ _ HI)]]].
  intros k e He. destruct (inv_entry _ _ _ _ HI k e He) as (E1 & E2 & E3 & E4 & E5 & E6 & d & E7 & E8 & E9).
  rewrite !msum_empty in *. split; [done|]. split; [destruct (status e); [done|lia]|].
  split; [done|]. pose proof (inv_up _ _ _ _ HI) as Hup.
  destruct (initialized_ (mc_mgr (p_machine P))); [|destruct Hup as [Hem _]; by rewrite Hem in He].
  rewrite Hup. split; [done|]. destruct E9 as (i & Hi & Hd); [done|]. exists i. rewrite E3.
  split; [done|]. rewrite Hd. lia.
Qed.

(** At every moment the bytes of the entries and the bytes of running swap-outs
    together stay within the quota. *)
Theorem quota_holds_always P :
  pool_reach P → let m := mc_mgr (p_machine P) in
  0 <= l_pend (ledger_of (control_ m)) ∧
  msum dataSize (entries_ m) + l_pend (ledger_of (control_ m)) <= l_limit (ledger_of (control_ m)).
Proof.
  intros [SP (R & D & HI & _)]%pool_reach_inv; cbn zeta.
  pose proof (ctl_ok_bounds _ (inv_ctl _ _ _ _ HI)). rewrite <-(inv_occ _ _ _ _ HI). lia.
Qed.

(** The file of every key that may still be read is in place: as long as a key is
    active or has a reader, its swap file holds the whole of its data. *)
Theorem readable_key_keeps_file P k e :
  pool_reach P → entries_ (mc_mgr (p_machine P)) !! k = Some e →
  status e = OH_SWAPFS_KEY_STATUS_ACTIVE ∨ 0 < readCount e →
  path e = KeyFile (sessionPath_ (mc_mgr (p_machine P))) k ".swap" ∧
  ∃ i, w_fs (us_world (mc_ur (p_machine P))) !! path e = Some i ∧
    Z.of_nat (length (i_data i)) = dataSize e.
Proof.
  intros [SP (R & D & HI & _)]%pool_reach_inv He Hr.
  destruct (inv_entry _ _ _ _ HI k e He) as (E1 & E2 & E3 & E4 & E5 & E6 & d & E7 & E8 & E9).
  pose proof (inv_up _ _ _ _ HI) as Hup.
  destruct (initialized_ (mc_mgr (p_machine P))); [|destruct Hup as [Hem _]; by rewrite Hem in He].
  rewrite Hup. split; [done|].
  assert (msum (c_remove k) R = 0) as Hrm by (destruct (status e), Hr; try done; lia).
  assert (msum (c_gone k) R <= msum (c_remove k) R) as Hle.
  { apply msum_le. intros t c _. apply c_gone_remove. }
  pose proof (msum_unit_le_size (c_gone k) R (c_gone_range k)).
  destruct E9 as (i & Hi & Hd); [lia|]. exists i. rewrite E3. split; [done|]. rewrite Hd. lia.
Qed.

(** The manager is ended by [Destroy] only, and only at a moment when no operation is
    counted; what is left has no entry, no session and no session lock. *)
Theorem destroy_waits_for_operations ev P P' :
  pool_reach P → pool_step ev P = Some P' →
  initialized_ (mc_mgr (p_machine P)) = true → initialized_ (mc_mgr (p_machine P')) = false →
  (∃ t th, ev = Step t ∧ p_threads P !! t = Some th ∧ th_call th = CallDestroy) ∧
  ended (mc_mgr (p_machine P)) (mc_mgr (p_machine P')).
Proof.
  intros [SP (R & D & HI & _ & Hth & _)]%pool_reach_inv Hs Hi Hi'.
  destruct ev as [t c|t|t]; cbn in Hs.
  - destruct (spawn_ok t c P); [|done]. injection Hs as <-. cbn in *. congruence.
  - destruct (p_threads P !! t) as [[c [o|B m k]]|] eqn:Ht; try done.
    destruct (nextKeyId_ _ <? _) eqn:En; [|done].
    destruct (m (p_machine P)) as [[b M']|] eqn:Em; [|done]. injection Hs as <-. cbn in Hi'.
    destruct (Hth t _ Ht) as (c0 & K & HR & _ & Hok). unfold thread_ok in Hok. cbn in Hok.
    destruct (is_destroy c).
    + destruct Hok as [-> Hat]. split; [by eauto|].
      by eapply (destroy_down SP _ _ _ Hat (inv_claim _ _ _ _ HI t c0 HR)).
    + destruct Hok as (_ & [Hup _] & _). rewrite (Hup _ _ _ Em) in Hi'. congruence.
  - destruct (p_threads P !! t) as [[c [o|B m k]]|] eqn:Ht; try done. injection Hs as <-.
    cbn in *. congruence.
Qed.

(** [Destroy] cannot be held up: started when no call runs, as the C interface
    guarantees, it returns OK whatever the file system answers, and the manager is
    ended.  (Nothing is waited for, so the time-out of [WaitForActiveOps] is idle.) *)
Theorem undisturbed_destroy_succeeds P :
  pool_reach P → p_threads P = ∅ →
  ∃ M', run Destroy (p_machine P) = Some (SWAPFS_E_OK, M') ∧
    initialized_ (mc_mgr M') = false ∧ entries_ (mc_mgr M') = ∅ ∧ sessionPath_ (mc_mgr M') = "".
Proof.
  intros [SP (R & D & HI & Hdom & _)]%pool_reach_inv Hnone. rewrite Hnone, dom_empty_L in Hdom.
  apply dom_empty_inv_L in Hdom. subst R.
  assert (activeOps_ (mc_mgr (p_machine P)) = 0) as Hops by (by rewrite (inv_ops _ _ _ _ HI)).
  apply (Destroy_alone (p_machine P) Hops).
Qed.
End guarantees.

(** ** Witnesses: one key swapped out; then a swap-in during which the key is
    removed; then [Destroy] *)
Definition thr_env : Env := quiet_env 64 8.
Definition thr_world : world := dirs_world ["/"; "/swap"].
Definition thr_ring : ustate := UState (repeat (Slot false false) URING_POOL_SIZE) false 1 false thr_world [].
Definition thr_config : option OH_SwapfsConfig := Some (Config (Some "/swap") 8192 false).
Definition thr_buf : cbuf := Cbuf 4096 [1; 2; 3].

#[local] Existing Instance thr_env.
Definition thr_uring : Liburing := good_uring 3.
#[local] Existing Instance thr_uring.

Definition thr_machine : @machine ProxySwapControlProvider := Machine (new_manager new_proxy) thr_ring.
Definition thr_pool0 : @pool ProxySwapControlProvider :=
  Pool (match InitLocked thr_config thr_machine with Some (_, M) => M | None => thr_machine end) ∅ [].
Definition thr_after (evs : list event) : @pool ProxySwapControlProvider :=
  default thr_pool0 (pool_run evs thr_pool0).

Definition thr_out : list event := Spawn 1 (CallSwapOut (Some thr_buf) true) :: repeat (Step 1) 7 ++ [Finish 1].
Definition thr_reading : list event :=
  thr_out ++ [Spawn 2 (CallSwapIn 1 (Some 0) 16); Step 2; Step 2; Spawn 3 (CallRemoveData 1); Step 3; Finish 3].
Definition thr_read : list event := thr_reading ++ repeat (Step 2) 5 ++ [Finish 2].
Definition thr_destroying : list event := thr_read ++ [Spawn 4 CallDestroy; Step 4; Step 4].

Lemma thr_world_wf : world_wf (us_world thr_ring).
Proof. apply world_wfb_sound. vm_compute. reflexivity. Qed.

Lemma thr_pool0_reach : pool_reach thr_pool0.
Proof.
  apply (reach_init thr_config new_proxy thr_ring); [apply thr_world_wf|..].
  - by intros c [= <-].
  - assert (Hr : fst <$> InitLocked thr_config thr_machine = Some SWAPFS_E_OK)
      by (vm_compute; reflexivity).
    unfold thr_pool0. fold thr_machine.
    destruct (InitLocked thr_config thr_machine) as [[r M]|]; [|done]. cbn in Hr. by injection Hr as ->.
Qed.

Definition is_someb {A} (o : option A) : bool := match o with Some _ => true | None => false end.

Lemma thr_reach evs : is_someb (pool_run evs thr_pool0) = true → pool_reach (thr_after evs).
Proof.
  unfold thr_after. destruct (pool_run evs thr_pool0) as [P|] eqn:HP; [|done]. intros _.
  eapply pool_run_reach; [apply thr_pool0_reach|exact HP].
Qed.

Lemma undisturbed_destroy_succeeds_witness :
  match run Destroy (p_machine (thr_after thr_out)) with
  | Some (r, M') => r = SWAPFS_E_OK ∧ initialized_ (mc_mgr M') = false
  | None => False end.
Proof.
  destruct (undisturbed_destroy_succeeds (thr_after thr_out)) as (M' & -> & H & _).
  - apply thr_reach. vm_compute. reflexivity.
  - vm_compute. reflexivity.
  - split; [reflexivity|exact H].
Defined.

Lemma swap_in_returns_swapped_out_witness :
  (p_log (thr_after thr_read)).*2 = [OSwapOut 0 (Some 1); OCode 0; OSwapIn 0 (Some [1; 2; 3])] ∧
  [1; 2; 3] = buf_bytes thr_buf.
Proof.
  split; [vm_compute; reflexivity|].
  apply (swap_in_returns_swapped_out (thr_after thr_read) thr_buf true 1 (Some 0) 16).
  - apply thr_reach. vm_compute. reflexivity.
  - apply (list_elem_of_lookup_2 _ 0). vm_compute. reflexivity.
  - apply (list_elem_of_lookup_2 _ 2). vm_compute. reflexivity.
Defined.

Lemma quiescent_bookkeeping_witness :
  size (entries_ (mc_mgr (p_machine (thr_after thr_out)))) = 1%nat ∧
  l_occ (ledger_of (control_ (mc_mgr (p_machine (thr_after thr_out))))) = 3.
Proof.
  split; [vm_compute; reflexivity|].
  destruct (quiescent_bookkeeping (thr_after thr_out)) as (_ & _ & _ & _ & _ & H).
  - apply thr_reach. vm_compute. reflexivity.
  - vm_compute. reflexivity.
  - rewrite H. vm_compute. reflexivity.
Defined.

Lemma quota_holds_always_witness :
  msum dataSize (entries_ (mc_mgr (p_machine (thr_after thr_reading)))) <= 8192.
Proof.
  pose proof (quota_holds_always (thr_after thr_reading)) as H.
  assert (l_limit (ledger_of (control_ (mc_mgr (p_machine (thr_after thr_reading))))) = 8192) as E
    by (vm_compute; reflexivity).
  cbn zeta in H. rewrite E in H. destruct H as [H1 H2]; [|lia].
  apply thr_reach. vm_compute. reflexivity.
Defined.

(** The reader holds the removal back. *)
Lemma readable_key_keeps_file_witness :
  ∃ e, entries_ (mc_mgr (p_machine (thr_after thr_reading))) !! 1 = Some e ∧
    status e = OH_SWAPFS_KEY_STATUS_REMOVING ∧
    ∃ i, w_fs (us_world (mc_ur (p_machine (thr_after thr_reading)))) !! path e = Some i ∧
      Z.of_nat (length (i_data i)) = 3.
Proof.
  set (e := default no_entry (entries_ (mc_mgr (p_machine (thr_after thr_reading))) !! 1)).
  exists e. split; [vm_compute; reflexivity|]. split; [vm_compute; reflexivity|].
  destruct (readable_key_keeps_file (thr_after thr_reading) 1 e) as (_ & i & Hi & Hd).
  - apply thr_reach. vm_compute. reflexivity.
  - vm_compute. reflexivity.
  - right. vm_compute. reflexivity.
  - exists i. split; [exact Hi|]. rewrite Hd. vm_compute. reflexivity.
Defined.

Lemma destroy_waits_for_operations_witness :
  match pool_step (Step 4) (thr_after thr_destroying) with
  | Some P' => ended (mc_mgr (p_machine (thr_after thr_destroying))) (mc_mgr (p_machine P'))
  | None => False end.
Proof.
  assert (H : (λ P', initialized_ (mc_mgr (p_machine P'))) <$> pool_step (Step 4) (thr_after thr_destroying)
    = Some false) by (vm_compute; reflexivity).
  destruct (pool_step (Step 4) (thr_after thr_destroying)) as [P'|] eqn:E; [|done].
  injection H as H. apply (destroy_waits_for_operations (Step 4) (thr_after thr_destroying) P').
  - apply thr_reach. vm_compute. reflexivity.
  - exact E.
  - vm_compute. reflexivity.
  - exact H.
Defined.
