(* ===== verification/SwapfsApi.v ===== *)
(** * The C interface of swapfs

    Models [swapfs_c_api.cpp]: the registry of managers ([g_managerStates]), the
    guard of every call ([ApiCallGuard]) and the life cycle of a manager object
    from [SwapfsNativeCreateManager] to [SwapfsNativeDestroyManager].

    A function of the interface is a [handler]: the atomic actions it performs
    (registry operations under [g_managerStateMutex], allocation, deletion, and
    the call into the manager) in the order of the code.  Any number of threads
    run handlers on any pointers, stale ones included.  What a manager answers,
    and the address an allocation returns, are inputs. *)

From S2P Require Import Prelude.
From S2P Require Import SwapfsErr.

Record ManagerApiState := ApiState { activeCalls : Z; destroying : bool }.

Record api := Api {
  g_managerStates : gmap Z ManagerApiState;
  live : gset Z;         (** allocated and not yet deleted *)
  bad_access : bool      (** a manager outside [live] was used or deleted *)
}.

(** ** The operations on the registry *)
Definition with_states (g : gmap Z ManagerApiState) (s : api) : api := Api g (live s) (bad_access s).

Definition RegisterManager (manager : Z) (s : api) : api :=
  match g_managerStates s !! manager with
  | None => with_states (<[manager := ApiState 0 false]> (g_managerStates s)) s
  | Some _ => s   (* [emplace] keeps an entry that is there *)
  end.

(** The constructor of [ApiCallGuard]: its status. *)
Definition ApiCallGuard (manager : Z) (s : api) : Z * api :=
  if manager =? 0 then (SWAPFS_E_INVAL, s) else
  match g_managerStates s !! manager with
  | None => (SWAPFS_E_SHUTTING_DOWN, s)
  | Some st =>
      if destroying st then (SWAPFS_E_SHUTTING_DOWN, s)
      else (SWAPFS_E_OK,
            with_states (<[manager := ApiState (activeCalls st +₃₂ 1) false]> (g_managerStates s)) s)
  end.

(** Its destructor, when the guard holds [manager]. *)
Definition ApiCallGuard_end (manager : Z) (s : api) : api :=
  match g_managerStates s !! manager with
  | Some st =>
      if activeCalls st >? 0
      then with_states (<[manager := ApiState (activeCalls st - 1) (destroying st)]>
                          (g_managerStates s)) s
      else s
  | None => s
  end.

Definition BeginDestroy (manager : Z) (s : api) : Z * api :=
  match g_managerStates s !! manager with
  | None => (SWAPFS_E_SHUTTING_DOWN, s)
  | Some st =>
      if destroying st || (activeCalls st >? 0) then (SWAPFS_E_BUSY, s)
      else (SWAPFS_E_OK, with_states (<[manager := ApiState (activeCalls st) true]> (g_managerStates s)) s)
  end.

Definition RestoreDestroyable (manager : Z) (s : api) : api :=
  match g_managerStates s !! manager with
  | Some st => with_states (<[manager := ApiState (activeCalls st) false]> (g_managerStates s)) s
  | None => s
  end.

Definition UnregisterManager (manager : Z) (s : api) : api :=
  with_states (delete manager (g_managerStates s)) s.

(** ** Handlers *)
Inductive operation := OpInit | OpDestroy | OpCall.

Inductive action :=
  | New                                  (** [new (std::nothrow)]: 0 is a failure *)
  | Delete (manager : Z)
  | Impl (manager : Z) (op : operation)  (** a method of [manager->impl] runs *)
  | Register (manager : Z)
  | Enter (manager : Z)                  (** the guard is built *)
  | Leave (manager : Z)                  (** the guard is left *)
  | Begin (manager : Z)
  | Restorable (manager : Z)
  | Unregister (manager : Z).

(** The answer is a code and, for a creation, the manager. *)
Inductive handler :=
  | Done (ret manager : Z)
  | Do (a : action) (k : Z → handler).

Definition SwapfsNativeCreateManager (hasOut : bool) : handler :=
  if negb hasOut then Done SWAPFS_E_INVAL 0 else
  Do New (λ manager,
    if manager =? 0 then Done SWAPFS_E_NOMEM 0 else
    Do (Impl manager OpInit) (λ ret,
      if negb (ret =? SWAPFS_E_OK) then Do (Delete manager) (λ _, Done ret 0)
      else Do (Register manager) (λ _, Done SWAPFS_E_OK manager))).

Definition SwapfsNativeDestroyManager (manager : Z) : handler :=
  if manager =? 0 then Done SWAPFS_E_INVAL 0 else
  Do (Begin manager) (λ beginRet,
    if negb (beginRet =? SWAPFS_E_OK) then Done beginRet 0 else
    Do (Impl manager OpDestroy) (λ ret,
      if ret =? SWAPFS_E_OK
      then Do (Unregister manager) (λ _, Do (Delete manager) (λ _, Done ret 0))
      else Do (Restorable manager) (λ _, Done ret 0))).

(** The guarded part of the other functions. *)
Definition guarded (manager : Z) : handler :=
  Do (Enter manager) (λ status,
    if negb (status =? SWAPFS_E_OK) then Done status 0 else
    Do (Impl manager OpCall) (λ ret, Do (Leave manager) (λ _, Done ret 0))).

Definition SwapfsNativeSwapOut (manager : Z) (hasRequest hasKeyId : bool) : handler :=
  if negb hasRequest || negb hasKeyId then Done SWAPFS_E_INVAL 0 else guarded manager.
Definition SwapfsNativeSwapIn (manager : Z) (hasRequest : bool) : handler :=
  if negb hasRequest then Done SWAPFS_E_INVAL 0 else guarded manager.
Definition SwapfsNativeQueryData (manager keyId : Z) (hasInfo : bool) : handler :=
  if (keyId =? 0) || negb hasInfo then Done SWAPFS_E_INVAL 0 else guarded manager.
Definition SwapfsNativeGetStats (manager : Z) (hasStats : bool) : handler :=
  if negb hasStats then Done SWAPFS_E_INVAL 0 else guarded manager.
Definition SwapfsNativeRemoveData (manager keyId : Z) : handler :=
  if keyId =? 0 then Done SWAPFS_E_INVAL 0 else guarded manager.
Definition SwapfsNativeRemoveAllData (manager : Z) : handler := guarded manager.

(** The functions of the interface with their arguments. *)
Inductive request :=
  | RqCreate (hasOut : bool)
  | RqDestroy (manager : Z)
  | RqSwapOut (manager : Z) (hasRequest hasKeyId : bool)
  | RqSwapIn (manager : Z) (hasRequest : bool)
  | RqQueryData (manager keyId : Z) (hasInfo : bool)
  | RqGetStats (manager : Z) (hasStats : bool)
  | RqRemoveData (manager keyId : Z)
  | RqRemoveAllData (manager : Z).

Definition handler_of (rq : request) : handler :=
  match rq with
  | RqCreate o => SwapfsNativeCreateManager o
  | RqDestroy m => SwapfsNativeDestroyManager m
  | RqSwapOut m r k => SwapfsNativeSwapOut m r k
  | RqSwapIn m r => SwapfsNativeSwapIn m r
  | RqQueryData m k i => SwapfsNativeQueryData m k i
  | RqGetStats m st => SwapfsNativeGetStats m st
  | RqRemoveData m k => SwapfsNativeRemoveData m k
  | RqRemoveAllData m => SwapfsNativeRemoveAllData m
  end.

(** ** One action *)
Definition touch (manager : Z) (s : api) : api :=
  Api (g_managerStates s) (live s) (bad_access s || bool_decide (manager ∉ live s)).

(** [input] is the answer of the allocator or of the manager; an allocator never
    returns memory that is in use. *)
Definition do_action (a : action) (input : Z) (s : api) : option (Z * api) :=
  match a with
  | New =>
      if bool_decide (input ∈ live s) then None
      else Some (input, if input =? 0 then s
                        else Api (g_managerStates s) ({[input]} ∪ live s) (bad_access s))
  | Delete m => Some (0, let s := touch m s in
                         Api (g_managerStates s) (live s ∖ {[m]}) (bad_access s))
  | Impl m _ => Some (input, touch m s)
  | Register m => Some (0, RegisterManager m s)
  | Enter m => Some (ApiCallGuard m s)
  | Leave m => Some (0, ApiCallGuard_end m s)
  | Begin m => Some (BeginDestroy m s)
  | Restorable m => Some (0, RestoreDestroyable m s)
  | Unregister m => Some (0, UnregisterManager m s)
  end.

Record apool := APool { ap_api : api; ap_threads : gmap nat handler }.

(** A thread calls, performs its next action with the given input, or returns. *)
Inductive aevent := ECall (t : nat) (rq : request) | EAct (t : nat) (input : Z) | EReturn (t : nat).

Definition apool_step (ev : aevent) (p : apool) : option apool :=
  let (s, ths) := p in
  match ev with
  | ECall t rq =>
      if bool_decide (ths !! t = None) && (Z.of_nat (size ths) <? 2 ^ 32 - 1)
      then Some (APool s (<[t := handler_of rq]> ths)) else None
  | EAct t input =>
      match ths !! t with
      | Some (Do a k) =>
          match do_action a input s with
          | Some (r, s') => Some (APool s' (<[t := k r]> ths))
          | None => None
          end
      | _ => None
      end
  | EReturn t =>
      match ths !! t with Some (Done _ _) => Some (APool s (delete t ths)) | _ => None end
  end.

Definition apool_start : apool := APool (Api ∅ ∅ false) ∅.

Fixpoint apool_run (evs : list aevent) (p : apool) : option apool :=
  match evs with
  | [] => Some p
  | ev :: evs => match apool_step ev p with Some p' => apool_run evs p' | None => None end
  end.

Inductive apool_reach : apool → Prop :=
  | ar_start : apool_reach apool_start
  | ar_step ev p p' : apool_reach p → apool_step ev p = Some p' → apool_reach p'.

Lemma apool_run_reach evs p p' : apool_reach p → apool_run evs p = Some p' → apool_reach p'.
Proof.
  revert p. induction evs as [|ev evs IH]; intros p Hp H; cbn [apool_run] in H; [by simplify_eq|].
  destruct (apool_step ev p) as [p1|] eqn:E; [|done]. eapply IH; [|exact H]. by eapply ar_step.
Qed.

(** ** Typestate of a thread *)
Inductive hold :=
  | HNone                (** no manager *)
  | HNew (m : Z)         (** allocated [m], not registered *)
  | HInside (m : Z)      (** in a guarded call on [m] *)
  | HDestroy (m : Z)     (** marked [m] as being destroyed *)
  | HDead (m : Z).       (** took [m] out of the registry *)

Definition may_run (h : hold) (m : Z) (op : operation) : Prop :=
  match op with OpInit => h = HNew m | OpCall => h = HInside m | OpDestroy => h = HDestroy m end.

Fixpoint well_held (p : handler) (h : hold) : Prop :=
  match p with
  | Done _ _ => h = HNone
  | Do a k =>
      match a with
      | New => h = HNone ∧ ∀ r, well_held (k r) (if r =? 0 then HNone else HNew r)
      | Delete m => (h = HNew m ∨ h = HDead m) ∧ ∀ r, well_held (k r) HNone
      | Impl m op => may_run h m op ∧ ∀ r, well_held (k r) h
      | Register m => h = HNew m ∧ ∀ r, well_held (k r) HNone
      | Enter m => h = HNone ∧ ∀ r, well_held (k r) (if r =? SWAPFS_E_OK then HInside m else HNone)
      | Leave m => h = HInside m ∧ ∀ r, well_held (k r) HNone
      | Begin m => h = HNone ∧ ∀ r, well_held (k r) (if r =? SWAPFS_E_OK then HDestroy m else HNone)
      | Restorable m => h = HDestroy m ∧ ∀ r, well_held (k r) HNone
      | Unregister m => h = HDestroy m ∧ ∀ r, well_held (k r) (HDead m)
      end
  end.

Lemma guarded_held m : well_held (guarded m) HNone.
Proof.
  split; [done|]. intros r. destruct (r =? SWAPFS_E_OK) eqn:E; cbn [negb]; [|done].
  split; [done|]. intros r'. by split.
Qed.

Lemma handler_held rq : well_held (handler_of rq) HNone.
Proof.
  destruct rq as [o|m|m r k|m r|m k i|m s|m k|m]; cbn [handler_of].
  - destruct o; [|done]. split; [done|]. intros m. cbn.
    destruct (m =? 0) eqn:E; [done|]. split; [done|]. intros r.
    destruct (r =? SWAPFS_E_OK); cbn [negb]; (split; [auto|done]).
  - unfold SwapfsNativeDestroyManager. destruct (m =? 0); [done|]. split; [done|]. intros r.
    destruct (r =? SWAPFS_E_OK) eqn:E; cbn [negb]; [|done]. split; [done|]. intros r'.
    destruct (r' =? SWAPFS_E_OK); split; try done. intros _. split; [by right|done].
  - unfold SwapfsNativeSwapOut. destruct (negb r || negb k); [done|apply guarded_held].
  - unfold SwapfsNativeSwapIn. destruct (negb r); [done|apply guarded_held].
  - unfold SwapfsNativeQueryData. destruct ((k =? 0) || negb i); [done|apply guarded_held].
  - unfold SwapfsNativeGetStats. destruct (negb s); [done|apply guarded_held].
  - unfold SwapfsNativeRemoveData. destruct (k =? 0); [done|apply guarded_held].
  - apply guarded_held.
Qed.

(** Weights of the holds on one manager. *)
Definition h_inside (m : Z) (h : hold) : Z :=
  match h with HInside m' => Z.b2z (bool_decide (m' = m)) | _ => 0 end.
Definition h_destroy (m : Z) (h : hold) : Z :=
  match h with HDestroy m' => Z.b2z (bool_decide (m' = m)) | _ => 0 end.
Definition h_own (m : Z) (h : hold) : Z :=
  match h with HNew m' | HDead m' => Z.b2z (bool_decide (m' = m)) | _ => 0 end.

Lemma h_inside_range m h : 0 <= h_inside m h <= 1.
Proof. destruct h; cbn; try lia; by destruct (bool_decide _). Qed.
Lemma h_destroy_range m h : 0 <= h_destroy m h <= 1.
Proof. destruct h; cbn; try lia; by destruct (bool_decide _). Qed.
Lemma h_own_range m h : 0 <= h_own m h <= 1.
Proof. destruct h; cbn; try lia; by destruct (bool_decide _). Qed.

(** What the registry and the heap say of one manager, given what its threads hold:
    [i] threads inside, [d] destroying, [o] owning it outside the registry. *)
Definition manager_ok (s : api) (m i d o : Z) : Prop :=
  match g_managerStates s !! m with
  | Some st => m ∈ live s ∧ activeCalls st = i ∧ d = Z.b2z (destroying st) ∧ o = 0 ∧
      (destroying st = true → i = 0)
  | None => i = 0 ∧ d = 0 ∧ (o = 0 ∨ o = 1 ∧ m ∈ live s)
  end.

Record api_inv (s : api) (R : gmap nat hold) : Prop := {
  ai_bad : bad_access s = false;
  ai_null : 0 ∉ live s;
  ai_size : Z.of_nat (size R) < 2 ^ 32;
  ai_ok : ∀ m, manager_ok s m (msum (h_inside m) R) (msum (h_destroy m) R) (msum (h_own m) R)
}.

Definition apool_inv (p : apool) : Prop :=
  ∃ R, api_inv (ap_api p) R ∧ dom R = dom (ap_threads p) ∧
    ∀ t h, ap_threads p !! t = Some h → ∃ c, R !! t = Some c ∧ well_held h c.

(** ** Every action keeps the invariant *)
Section preservation.
Implicit Types (s : api) (R : gmap nat hold).

Lemma hold_le (f : hold → Z) R t c :
  (∀ h, 0 <= f h) → R !! t = Some c → f c <= msum f R.
Proof. intros Hf Ht. by apply (msum_ge f R t c); [intros; apply Hf|]. Qed.

Lemma api_inv_upd s s' R t c c' m :
  api_inv s R → R !! t = Some c → bad_access s' = false → (0 ∉ live s') →
  (∀ m', m' ≠ m → g_managerStates s' !! m' = g_managerStates s !! m' ∧
     (m' ∈ live s ↔ m' ∈ live s') ∧
     h_inside m' c' = h_inside m' c ∧ h_destroy m' c' = h_destroy m' c ∧ h_own m' c' = h_own m' c) →
  manager_ok s' m (msum (h_inside m) R - h_inside m c + h_inside m c')
    (msum (h_destroy m) R - h_destroy m c + h_destroy m c')
    (msum (h_own m) R - h_own m c + h_own m c') →
  api_inv s' (<[t := c']> R).
Proof.
  intros [I1 I2 I3 I4] Ht Hb H0 Ho Hm. constructor; [done|done|..].
  - rewrite map_size_insert_Some by (by exists c). done.
  - intros m'. rewrite !(msum_update _ _ _ _ _ Ht). destruct (decide (m' = m)) as [->|Hne]; [done|].
    destruct (Ho m' Hne) as (H1 & H2 & H3 & H4 & H5). rewrite H3, H4, H5, !Z.sub_add.
    specialize (I4 m'). unfold manager_ok in *. rewrite H1.
    destruct (g_managerStates s !! m'); rewrite <-H2; exact I4.
Qed.

(** What one's own hold says. *)
Lemma own_inside s R t m :
  api_inv s R → R !! t = Some (HInside m) → 1 <= msum (h_inside m) R ∧
  ∃ st, g_managerStates s !! m = Some st ∧ (m ∈ live s) ∧ activeCalls st = msum (h_inside m) R ∧
    destroying st = false ∧ msum (h_destroy m) R = 0 ∧ msum (h_own m) R = 0.
Proof.
  intros HI Ht. pose proof (hold_le (h_inside m) R t _ (λ h, proj1 (h_inside_range m h)) Ht) as Hge.
  cbn in Hge. rewrite bool_decide_true in Hge by done. cbn in Hge. split; [done|].
  pose proof (ai_ok _ _ HI m) as H. unfold manager_ok in H.
  destruct (g_managerStates s !! m) as [st|]; [|lia]. destruct H as (? & ? & ? & ? & ?).
  exists st. destruct (destroying st); cbn in *; [naive_solver lia|]. by split_and!.
Qed.

Lemma own_destroy s R t m :
  api_inv s R → R !! t = Some (HDestroy m) →
  ∃ st, g_managerStates s !! m = Some st ∧ (m ∈ live s) ∧ activeCalls st = 0 ∧
    destroying st = true ∧ msum (h_inside m) R = 0 ∧ msum (h_destroy m) R = 1 ∧ msum (h_own m) R = 0.
Proof.
  intros HI Ht. pose proof (hold_le (h_destroy m) R t _ (λ h, proj1 (h_destroy_range m h)) Ht) as Hge.
  cbn in Hge. rewrite bool_decide_true in Hge by done. cbn in Hge.
  pose proof (ai_ok _ _ HI m) as H. unfold manager_ok in H.
  destruct (g_managerStates s !! m) as [st|]; [|lia]. destruct H as (? & ? & ? & ? & Hi).
  exists st. destruct (destroying st); cbn in *; [|lia]. specialize (Hi eq_refl).
  split_and!; try done; lia.
Qed.

Lemma own_own s R t m c :
  api_inv s R → R !! t = Some c → c = HNew m ∨ c = HDead m →
  g_managerStates s !! m = None ∧ (m ∈ live s) ∧ msum (h_inside m) R = 0 ∧
  msum (h_destroy m) R = 0 ∧ msum (h_own m) R = 1.
Proof.
  intros HI Ht Hc. pose proof (hold_le (h_own m) R t _ (λ h, proj1 (h_own_range m h)) Ht) as Hge.
  assert (h_own m c = 1) as E by (destruct Hc as [-> | ->]; cbn; by rewrite bool_decide_true).
  rewrite E in Hge. pose proof (ai_ok _ _ HI m) as H. unfold manager_ok in H.
  destruct (g_managerStates s !! m) as [st|]; [lia|]. destruct H as (? & ? & [?|[? ?]]); [lia|].
  by split_and!.
Qed.

(** Other managers are not concerned. *)
Ltac others := let m' := fresh "m'" in let Hne := fresh "Hne" in
  intros m' Hne; cbn; rewrite ?lookup_insert_ne, ?lookup_delete_ne, ?bool_decide_false by congruence;
  split_and!; try done; set_solver.

Lemma touch_live m s : m ∈ live s → touch m s = s.
Proof.
  intros H. unfold touch. rewrite bool_decide_false by (by intros ?). rewrite orb_false_r. by destruct s.
Qed.

Lemma inside_room s R t c m :
  api_inv s R → R !! t = Some c → h_inside m c = 0 →
  0 <= msum (h_inside m) R < 2 ^ 32 - 1.
Proof.
  intros HI Ht Hc. pose proof (ai_size _ _ HI) as Hs.
  assert (Hle : ∀ R, msum (h_inside m) R <= Z.of_nat (size R)).
  { intros R0. replace (Z.of_nat (size R0)) with (1 * Z.of_nat (size R0)) by lia.
    rewrite <-msum_const. apply msum_le. intros; apply h_inside_range. }
  specialize (Hle (<[t := HInside m]> R)). rewrite (msum_update _ _ _ _ _ Ht), Hc in Hle. cbn in Hle.
  rewrite map_size_insert_Some in Hle by (by exists c). rewrite bool_decide_true in Hle by done.
  cbn in Hle. split; [apply msum_nonneg; intros; apply h_inside_range|lia].
Qed.

(** An action of a thread that holds what it needs keeps the invariant, with what it holds then. *)
Definition keeps_api (a : action) : Prop := ∀ k input r s s' R t c,
  api_inv s R → R !! t = Some c → well_held (Do a k) c → do_action a input s = Some (r, s') →
  ∃ c', api_inv s' (<[t := c']> R) ∧ well_held (k r) c'.
Ltac an_action :=
  intros k input r s s' R t c HI Ht Hh Ha;
  pose proof (ai_bad _ _ HI) as Hb; pose proof (ai_null _ _ HI) as H0;
  cbn [well_held] in Hh; cbn [do_action] in Ha; destruct Hh as [Hc Hk].

Lemma api_New : keeps_api New.
Proof.
  an_action.
  case_bool_decide as Hin; [done|]. injection Ha as <- <-. subst c.
  eexists. split; [|apply Hk]. destruct (input =? 0) eqn:E; zbool.
  + rewrite insert_id by done. exact HI.
  + apply (api_inv_upd s _ R t HNone _ input HI Ht); cbn; [done|set_solver|others|].
    pose proof (ai_ok _ _ HI input) as H. unfold manager_ok in *. cbn.
    rewrite bool_decide_true by done. cbn.
    destruct (g_managerStates s !! input) as [st|]; [by destruct H|].
    destruct H as (? & ? & [?|[? ?]]); [|done]. split_and!; [lia|lia|]. right. split; [lia|set_solver].
Qed.

Lemma api_Delete (m : Z) : keeps_api (Delete m).
Proof.
  an_action.
  destruct (own_own s R t m c HI Ht Hc) as (H1 & H2 & H3 & H4 & H5).
  cbn zeta in Ha. rewrite (touch_live m s H2) in Ha. injection Ha as <- <-.
  exists HNone. split; [|apply Hk].
  apply (api_inv_upd s _ R t c _ m HI Ht); cbn; [done|set_solver|destruct Hc as [-> | ->]; others|].
  unfold manager_ok. cbn. rewrite H1, H3, H4, H5.
  destruct Hc as [-> | ->]; cbn; rewrite bool_decide_true by done; cbn; auto.
Qed.

Lemma api_Impl (m : Z) (op : operation) : keeps_api (Impl m op).
Proof.
  an_action.
  exists c. split; [|apply Hk].
  assert (m ∈ live s) as Hl.
  { destruct op; cbn in Hc; subst c.
    - by destruct (own_own s R t m _ HI Ht (or_introl eq_refl)) as (_ & ? & _).
    - by destruct (own_destroy s R t m HI Ht) as (? & _ & ? & _).
    - by destruct (own_inside s R t m HI Ht) as (_ & ? & _ & ? & _). }
  rewrite (touch_live m s Hl) in Ha. injection Ha as <- <-. by rewrite insert_id.
Qed.

Lemma api_Register (m : Z) : keeps_api (Register m).
Proof.
  an_action.
  subst c. injection Ha as <- <-. exists HNone. split; [|apply Hk].
  destruct (own_own s R t m _ HI Ht (or_introl eq_refl)) as (H1 & H2 & H3 & H4 & H5).
  unfold RegisterManager. rewrite H1.
  apply (api_inv_upd s _ R t (HNew m) _ m HI Ht); cbn; [done|done|others|].
  unfold manager_ok. cbn. rewrite lookup_insert_eq, H3, H4, H5, bool_decide_true by done. cbn.
  by split_and!.
Qed.

Lemma api_Enter (m : Z) : keeps_api (Enter m).
Proof.
  an_action.
  subst c. unfold ApiCallGuard in Ha.
  assert (∀ r, (r =? SWAPFS_E_OK) = false → ∃ c', api_inv s (<[t := c']> R) ∧ well_held (k r) c') as Hno.
  { intros r' Hr. specialize (Hk r'). rewrite Hr in Hk. exists HNone. rewrite insert_id by done. auto. }
  destruct (m =? 0) eqn:E0; [injection Ha as <- <-; by apply Hno|].
  destruct (g_managerStates s !! m) as [st|] eqn:Es; [|injection Ha as <- <-; by apply Hno].
  destruct (destroying st) eqn:Ed; injection Ha as <- <-; [by apply Hno|].
  exists (HInside m). split; [|apply (Hk SWAPFS_E_OK)].
  apply (api_inv_upd s _ R t HNone _ m HI Ht); cbn; [done|done|others|].
  pose proof (inside_room s R t _ m HI Ht eq_refl) as Hroom.
  pose proof (ai_ok _ _ HI m) as H. unfold manager_ok in *. rewrite Es in H. cbn.
  rewrite lookup_insert_eq, bool_decide_true by done. cbn. destruct H as (H1 & H2 & H3 & H4 & H5).
  rewrite H2, Ed in *. cbn in *. split_and!; try done; try lia.
  etrans; [apply u32_id; lia|lia].
Qed.

Lemma api_Leave (m : Z) : keeps_api (Leave m).
Proof.
  an_action.
  subst c. injection Ha as <- <-. exists HNone. split; [|apply Hk].
  destruct (own_inside s R t m HI Ht) as (Hge & st & H1 & H2 & H3 & H4 & H5 & H6).
  unfold ApiCallGuard_end. rewrite H1, H3.
  destruct (msum (h_inside m) R >? 0) eqn:E; zbool; [|lia].
  apply (api_inv_upd s _ R t (HInside m) _ m HI Ht); cbn; [done|done|others|].
  unfold manager_ok. cbn. rewrite lookup_insert_eq, H4, H5, H6, bool_decide_true by done. cbn.
  split_and!; try done; lia.
Qed.

Lemma api_Begin (m : Z) : keeps_api (Begin m).
Proof.
  an_action.
  subst c. unfold BeginDestroy in Ha.
  assert (∀ r, (r =? SWAPFS_E_OK) = false → ∃ c', api_inv s (<[t := c']> R) ∧ well_held (k r) c') as Hno.
  { intros r' Hr. specialize (Hk r'). rewrite Hr in Hk. exists HNone. rewrite insert_id by done. auto. }
  destruct (g_managerStates s !! m) as [st|] eqn:Es; [|injection Ha as <- <-; by apply Hno].
  destruct (destroying st || (activeCalls st >? 0)) eqn:Ed; injection Ha as <- <-; [by apply Hno|].
  apply orb_false_elim in Ed as [Ed Ec]. zbool.
  exists (HDestroy m). split; [|apply (Hk SWAPFS_E_OK)].
  apply (api_inv_upd s _ R t HNone _ m HI Ht); cbn; [done|done|others|].
  pose proof (inside_room s R t _ m HI Ht eq_refl) as Hroom.
  pose proof (ai_ok _ _ HI m) as H. unfold manager_ok in *. rewrite Es in H. cbn.
  rewrite lookup_insert_eq, bool_decide_true by done. cbn. destruct H as (H1 & H2 & H3 & H4 & H5).
  rewrite Ed in *. cbn in *. split_and!; try done; lia.
Qed.

Lemma api_Restorable (m : Z) : keeps_api (Restorable m).
Proof.
  an_action.
  subst c. injection Ha as <- <-. exists HNone. split; [|apply Hk].
  destruct (own_destroy s R t m HI Ht) as (st & H1 & H2 & H3 & H4 & H5 & H6 & H7).
  unfold RestoreDestroyable. rewrite H1.
  apply (api_inv_upd s _ R t (HDestroy m) _ m HI Ht); cbn; [done|done|others|].
  unfold manager_ok. cbn. rewrite lookup_insert_eq, H3, H5, H6, H7, bool_decide_true by done. cbn.
  by split_and!.
Qed.

Lemma api_Unregister (m : Z) : keeps_api (Unregister m).
Proof.
  an_action.
  subst c. injection Ha as <- <-. exists (HDead m). split; [|apply Hk].
  destruct (own_destroy s R t m HI Ht) as (st & H1 & H2 & H3 & H4 & H5 & H6 & H7).
  unfold UnregisterManager.
  apply (api_inv_upd s _ R t (HDestroy m) _ m HI Ht); cbn; [done|done|others|].
  unfold manager_ok. cbn. rewrite lookup_delete_eq, H5, H6, H7, bool_decide_true by done. cbn. auto.
Qed.

Lemma action_inv a k input r s s' R t c :
  api_inv s R → R !! t = Some c → well_held (Do a k) c → do_action a input s = Some (r, s') →
  ∃ c', api_inv s' (<[t := c']> R) ∧ well_held (k r) c'.
Proof.
  enough (keeps_api a) as H by (by apply H).
  destruct a; auto using api_New, api_Delete, api_Impl, api_Register, api_Enter, api_Leave, api_Begin, api_Restorable, api_Unregister.
Qed.
End preservation.

Lemma apool_reach_inv p : apool_reach p → apool_inv p.
Proof.
  induction 1 as [|ev [s ths] p' _ (R & HI & Hdom & Hth) Hs].
  { exists ∅. split; [|by split]. constructor; try done. intros m. unfold manager_ok. cbn. rewrite lookup_empty.
    rewrite !msum_empty. by auto. }
  cbn [ap_api ap_threads] in *. destruct ev as [t rq|t input|t]; cbn in Hs.
  - case_bool_decide as Hnone; [|done]. cbn in Hs. destruct (_ <? _) eqn:E; [|done]. zbool.
    injection Hs as <-. exists (<[t := HNone]> R).
    assert (R !! t = None) as HRt by (apply not_elem_of_dom; rewrite Hdom; by apply not_elem_of_dom).
    cbn. split; [|split; [by rewrite !dom_insert_L, Hdom|]].
    + destruct HI as [I1 I2 I3 I4]. constructor; [done|done|..].
      * rewrite map_size_insert_None by done. rewrite <-size_dom, Hdom, size_dom. lia.
      * intros m. rewrite !msum_insert by done. cbn. apply I4.
    + intros t' h [[<- <-]|[Hne Ht']]%lookup_insert_Some.
      * exists HNone. split; [apply lookup_insert_eq|apply handler_held].
      * destruct (Hth t' h Ht') as (c & ? & ?). exists c. by rewrite lookup_insert_ne.
  - destruct (ths !! t) as [[r m|a k]|] eqn:Ht; try done.
    destruct (do_action a input s) as [[r s']|] eqn:Ha; [|done]. injection Hs as <-.
    destruct (Hth t _ Ht) as (c & HRt & Hh).
    destruct (action_inv a k input r s s' R t c HI HRt Hh Ha) as (c' & HI' & Hh').
    exists (<[t := c']> R). cbn. split; [done|]. split; [by rewrite !dom_insert_L, Hdom|].
    intros t' h [[<- <-]|[Hne Ht']]%lookup_insert_Some.
    + exists c'. split; [apply lookup_insert_eq|done].
    + destruct (Hth t' h Ht') as (c1 & ? & ?). exists c1. by rewrite lookup_insert_ne.
  - destruct (ths !! t) as [[r m|a k]|] eqn:Ht; try done. injection Hs as <-.
    destruct (Hth t _ Ht) as (c & HRt & Hh). cbn in Hh. subst c. exists (delete t R). cbn.
    split; [|split; [by rewrite !dom_delete_L, Hdom|]].
    + destruct HI as [I1 I2 I3 I4]. constructor; [done|done|..].
      * rewrite map_size_delete_Some by (by exists HNone). lia.
      * intros m'. specialize (I4 m'). rewrite !(msum_delete _ R t _ HRt) in I4. exact I4.
    + intros t' h [Hne Ht']%lookup_delete_Some. destruct (Hth t' h Ht') as (c & ? & ?).
      exists c. by rewrite lookup_delete_ne.
Qed.

(** ** What the interface guarantees *)

(** C7: No use after free, whatever the clients do: in any interleaving of calls with any
    pointers, stale and null ones included, no manager is used or deleted that is not
    allocated, and every registered manager is allocated. *)
Theorem api_memory_safe p :
  apool_reach p → bad_access (ap_api p) = false ∧
  ∀ m, is_Some (g_managerStates (ap_api p) !! m) → m ∈ live (ap_api p).
Proof.
  intros (R & HI & _)%apool_reach_inv. split; [exact (ai_bad _ _ HI)|].
  intros m [st Hst]. pose proof (ai_ok _ _ HI m) as H. unfold manager_ok in H. rewrite Hst in H.
  apply H.
Qed.

(** A destruction has the manager to itself: while [Destroy] of a manager runs, no
    other function of the manager runs in any thread, and no call is counted on it. *)
Theorem api_destroy_exclusive p t m k :
  apool_reach p → ap_threads p !! t = Some (Do (Impl m OpDestroy) k) →
  (∀ t' op k', ap_threads p !! t' = Some (Do (Impl m op) k') → t' = t) ∧
  g_managerStates (ap_api p) !! m = Some (ApiState 0 true).
Proof.
  intros (R & HI & Hdom & Hth)%apool_reach_inv Ht.
  destruct (Hth t _ Ht) as (c & HRt & Hc & _). cbn in Hc. subst c.
  destruct (own_destroy _ _ _ _ HI HRt) as (st & H1 & H2 & H3 & H4 & H5 & H6 & H7). split.
  - intros t' op k' Ht'. destruct (Hth t' _ Ht') as (c & HRt' & Hc & _). destruct op; cbn in Hc; subst c.
    + destruct (own_own _ _ _ m _ HI HRt' (or_introl eq_refl)) as (? & _). congruence.
    + destruct (decide (t' = t)) as [|Hne]; [done|]. exfalso.
      rewrite (msum_delete (h_destroy m) R t _ HRt) in H6.
      assert (1 <= msum (h_destroy m) (delete t R)) as Hge.
      { etrans; [|apply (hold_le (h_destroy m) (delete t R) t' (HDestroy m)
          (λ h, proj1 (h_destroy_range m h))); by rewrite lookup_delete_ne].
        cbn. by rewrite bool_decide_true. }
      cbn in H6. rewrite bool_decide_true in H6 by done. cbn in H6. lia.
    + destruct (own_inside _ _ _ m HI HRt') as (Hge & _). lia.
  - rewrite H1. destruct st. cbn in *. by subst.
Qed.

(** Calls are balanced: when no call is running, no manager has a call counted or is
    marked as being destroyed, so that destroying it is not refused. *)
Theorem api_calls_balanced p m st :
  apool_reach p → ap_threads p = ∅ → g_managerStates (ap_api p) !! m = Some st →
  st = ApiState 0 false ∧ (BeginDestroy m (ap_api p)).1 = SWAPFS_E_OK.
Proof.
  intros (R & HI & Hdom & _)%apool_reach_inv Hnone Hst. rewrite Hnone, dom_empty_L in Hdom.
  apply dom_empty_inv_L in Hdom. subst R. pose proof (ai_ok _ _ HI m) as H. unfold manager_ok in H.
  rewrite Hst, !msum_empty in H. destruct H as (_ & H1 & H2 & _).
  destruct st as [n d]. cbn in *. subst n. destruct d; [done|]. split; [done|].
  unfold BeginDestroy. by rewrite Hst.
Qed.

(** ** Witnesses: a manager is created at 7, a call runs on it and returns, a destruction
    begins; a stale pointer is used meanwhile *)
Definition api_created : list aevent :=
  [ECall 1 (RqCreate true); EAct 1 7; EAct 1 0; EAct 1 0; EReturn 1].
Definition api_called : list aevent :=
  api_created ++ [ECall 1 (RqSwapIn 7 true); ECall 2 (RqGetStats 9 true); EAct 2 0; EAct 1 0; EAct 1 0;
                  EAct 1 0; EReturn 1; EReturn 2].
Definition api_destroying : list aevent :=
  api_called ++ [ECall 3 (RqDestroy 7); EAct 3 0; ECall 4 (RqRemoveAllData 7); EAct 4 0].
Definition api_after (evs : list aevent) : apool := default apool_start (apool_run evs apool_start).

Lemma api_after_reach evs : apool_reach (api_after evs).
Proof.
  unfold api_after. destruct (apool_run evs apool_start) as [p|] eqn:E; cbn; [|constructor].
  eapply apool_run_reach; [constructor|exact E].
Qed.

Lemma api_memory_safe_witness :
  7 ∈ live (ap_api (api_after api_destroying)).
Proof.
  apply (api_memory_safe (api_after api_destroying)); [apply api_after_reach|].
  exists (ApiState 0 true). vm_compute. reflexivity.
Defined.

Lemma api_destroy_exclusive_witness :
  g_managerStates (ap_api (api_after api_destroying)) !! 7 = Some (ApiState 0 true).
Proof.
  eapply (api_destroy_exclusive (api_after api_destroying) 3 7).
  - apply api_after_reach.
  - vm_compute. reflexivity.
Defined.

Lemma api_calls_balanced_witness :
  (BeginDestroy 7 (ap_api (api_after api_called))).1 = SWAPFS_E_OK.
Proof.
  apply (api_calls_balanced (api_after api_called) 7 (ApiState 0 false)).
  - apply api_after_reach.
  - vm_compute. reflexivity.
  - vm_compute. reflexivity.
Defined.
