(* ===== verification/HyperAio.v ===== *)
(** * Asynchronous I/O in batches (hyperaio)

    Models [hyperaio.cpp]: the context of [HyperAio], the three functions that
    turn a request array into batches of submission queue entries, the answers
    given when entries or submissions fail, the harvesting of completions and
    the life cycle.  liburing is a parameter: what its calls answer is any
    function of the number of the call.

    [StartOpenReqs], [StartReadReqs] and [StartCancelReqs] are the same code but
    for the entry they prepare and the counter they bump; the model says so by
    one loop with these two as arguments. *)

From S2P Require Import Prelude.

Definition URING_QUEUE_SIZE : Z := 512.
Definition BATCH_SIZE : Z := 128.
Definition RETRIES : nat := 3.
Definition EOK : Z := 0.
Definition IOURING_APP_PERMISSION : Z := 1.
Definition errno_EBUSY : Z := 16.
Definition errno_EINVAL : Z := 22.
Definition errno_ENOTSUP : Z := 95.

Record ReadInfo := Read { r_fd : Z; r_len : Z; r_offset : Z; r_buf : Z; r_userData : Z }.
Record OpenInfo := Open { o_dfd : Z; o_flags : Z; o_mode : Z; o_path : Z; o_userData : Z }.
Record CancelInfo := Cancel { c_userData : Z; c_targetUserData : Z }.
Record IoResponse := Response { userData : Z; res : Z; flags : Z }.

(** A submission queue entry, a completion. *)
Inductive sqe_op :=
  | PrepOpenat (dfd path flags mode : Z) | PrepRead (fd buf len offset : Z) | PrepCancel (target : Z).
Record sqe := Sqe { sqe_data : Z; sqe_what : sqe_op }.
Record cqe := Cqe { cqe_user_data : Z; cqe_res : Z; cqe_flags : Z }.

(** What liburing and the access token service answer to call number [n]. *)
Class AioLib := {
  al_permission : nat → bool;
  al_queue_init : nat → Z;
  al_get_sqe : nat → bool;
  al_submit : nat → Z;
  al_wait_cqe : nat → Z * option cqe
}.

(** The members of the class; [pImpl_], [ioResultCallBack_] and [harvestThread_]
    are whether they are set, [harvestThread_] whether it is joinable. *)
Record HyperAio := Aio {
  pImpl_ : bool;
  ioResultCallBack_ : bool;
  harvestThread_ : bool;
  stopThread_ : bool;
  initialized_ : bool;
  destroyed_ : bool;
  openReqCount_ : Z;
  readReqCount_ : Z;
  cancelReqCount_ : Z;
  cqeCount_ : Z;
  pendingCqeCount_ : Z
}.

Inductive tevent :=
  | T_prep (e : sqe)                          (** an entry is filled in *)
  | T_submit (ret : Z) (taken : list sqe)     (** the kernel takes [taken] *)
  | T_wait (ret : Z) (c : option cqe)
  | T_answer (r : IoResponse)                 (** [ioResultCallBack_] is called *)
  | T_exit.                                   (** [io_uring_queue_exit] *)

Record aio := State {
  ctx : HyperAio;
  sq : list sqe;          (** prepared and not yet taken by the kernel *)
  trace : list tevent;
  clk : nat               (** number of library calls so far *)
}.

Definition new_HyperAio : HyperAio := Aio false false false true false false 0 0 0 0 0.

Definition with_ctx (f : HyperAio → HyperAio) : st aio unit := λ s,
  Some (tt, State (f (ctx s)) (sq s) (trace s) (clk s)).
Definition get_ctx {A} (f : HyperAio → A) : st aio A := λ s, Some (f (ctx s), s).
Definition emit (e : tevent) : st aio unit := λ s,
  Some (tt, State (ctx s) (sq s) (trace s ++ [e]) (clk s)).
Definition ask_lib {A} (f : nat → A) : st aio A := λ s,
  Some (f (clk s), State (ctx s) (sq s) (trace s) (S (clk s))).

Definition bump_open (n : Z) (h : HyperAio) : HyperAio :=
  Aio (pImpl_ h) (ioResultCallBack_ h) (harvestThread_ h) (stopThread_ h) (initialized_ h) (destroyed_ h)
    (openReqCount_ h +₃₂ n) (readReqCount_ h) (cancelReqCount_ h) (cqeCount_ h) (pendingCqeCount_ h).
Definition bump_read (n : Z) (h : HyperAio) : HyperAio :=
  Aio (pImpl_ h) (ioResultCallBack_ h) (harvestThread_ h) (stopThread_ h) (initialized_ h) (destroyed_ h)
    (openReqCount_ h) (readReqCount_ h +₃₂ n) (cancelReqCount_ h) (cqeCount_ h) (pendingCqeCount_ h).
Definition bump_cancel (n : Z) (h : HyperAio) : HyperAio :=
  Aio (pImpl_ h) (ioResultCallBack_ h) (harvestThread_ h) (stopThread_ h) (initialized_ h) (destroyed_ h)
    (openReqCount_ h) (readReqCount_ h) (cancelReqCount_ h +₃₂ n) (cqeCount_ h) (pendingCqeCount_ h).
Definition set_pending (p : Z) (h : HyperAio) : HyperAio :=
  Aio (pImpl_ h) (ioResultCallBack_ h) (harvestThread_ h) (stopThread_ h) (initialized_ h) (destroyed_ h)
    (openReqCount_ h) (readReqCount_ h) (cancelReqCount_ h) (cqeCount_ h) p.
Definition bump_cqe (h : HyperAio) : HyperAio :=
  Aio (pImpl_ h) (ioResultCallBack_ h) (harvestThread_ h) (stopThread_ h) (initialized_ h) (destroyed_ h)
    (openReqCount_ h) (readReqCount_ h) (cancelReqCount_ h) (cqeCount_ h +₃₂ 1) (pendingCqeCount_ h).
Definition set_life (impl cb thread stop init destr : bool) (h : HyperAio) : HyperAio :=
  Aio impl cb thread stop init destr (openReqCount_ h) (readReqCount_ h) (cancelReqCount_ h)
    (cqeCount_ h) (pendingCqeCount_ h).

Definition ValidateReqNum (reqNum : Z) : bool := (reqNum >? 0) && (reqNum <=? URING_QUEUE_SIZE).

Section hyperaio.
Context {AL : AioLib}.

Definition HasAccessIouringPermission : st aio bool := ask_lib al_permission.

Definition SupportIouring : st aio Z :=
  b ← HasAccessIouringPermission;
  sret (if b : bool then Z.lor 0 IOURING_APP_PERMISSION else 0).

(** [io_uring_submit]: a failure takes nothing, a success up to its answer. *)
Definition io_uring_submit : st aio Z := λ s,
  let ret := al_submit (clk s) in
  let n := if ret <? 0 then 0%nat else Z.to_nat ret in
  Some (ret, State (ctx s) (drop n (sq s)) (trace s ++ [T_submit ret (take n (sq s))]) (S (clk s))).

(** An entry of the ring, filled in. *)
Definition prep (e : sqe) : st aio unit := λ s,
  Some (tt, State (ctx s) (sq s ++ [e]) (trace s ++ [T_prep e]) (clk s)).

(** Whether an entry was obtained. *)
Fixpoint GetSqe_loop (n : nat) : st aio bool :=
  match n with
  | O => sret false
  | S n' =>
      sqe ← ask_lib al_get_sqe;
      if sqe : bool then sret true else io_uring_submit;; GetSqe_loop n'
  end.
Definition GetSqeWithRetry : st aio bool := GetSqe_loop RETRIES.

Definition CtxInit (callBack : bool) : st aio Z :=
  init ← get_ctx initialized_;
  if init : bool then sret EOK else
  if negb callBack then sret (- errno_EINVAL) else
  with_ctx (λ h, set_life true (ioResultCallBack_ h) (harvestThread_ h) (stopThread_ h)
                   (initialized_ h) (destroyed_ h) h);;
  ret ← ask_lib al_queue_init;
  if ret <? 0 then sret ret else
  with_ctx (λ h, set_life true true true false true (destroyed_ h) h);;
  sret EOK.

(** Every request of [errorVec] is answered with [errorcode]; [errorVec] is empty
    afterwards. *)
Fixpoint HandleRequestError (errorVec : list Z) (errorcode : Z) : st aio unit :=
  match errorVec with
  | [] => sret tt
  | userdata :: l => emit (T_answer (Response userdata errorcode 0));; HandleRequestError l errorcode
  end.

Definition HandleSqeError (count : Z) (infoVec : list Z) : st aio unit :=
  if count >? 0 then
    ret ← io_uring_submit;
    (if ret <? 0 then HandleRequestError infoVec ret else sret tt);;
    with_ctx (bump_read count)
  else sret tt.

Definition CheckParameter (reqNum : Z) : st aio Z :=
  h ← get_ctx id;
  sret (if negb (pImpl_ h) then - errno_EINVAL
        else if negb (initialized_ h) then - errno_EINVAL
        else if destroyed_ h then - errno_EINVAL
        else if negb (ValidateReqNum reqNum) then - errno_EINVAL
        else EOK).

(** The loop of the three functions, from request [i] on. *)
Section start.
Context {A : Type} (ud : A → Z) (mk : A → sqe_op) (bump : Z → HyperAio → HyperAio).

Definition sqe_of (r : A) : sqe := Sqe (ud r) (mk r).

Definition submit_batch (count : Z) (infoVec : list Z) : st aio (list Z) :=
  ret ← io_uring_submit;
  infoVec ← (if ret <? 0 then HandleRequestError infoVec (- errno_EBUSY);; sret [] else sret infoVec);
  with_ctx (bump count);;
  with_ctx (λ h, set_pending (pendingCqeCount_ h +₃₂ count) h);;
  sret infoVec.

Fixpoint Start_loop (reqs : list A) (count : Z) (infoVec : list Z) : st aio unit :=
  match reqs with
  | [] => sret tt
  | r :: rest =>
      ok ← GetSqeWithRetry;
      if negb ok then
        HandleSqeError count infoVec;;
        HandleRequestError (ud <$> reqs) (- errno_EBUSY)
      else
        prep (sqe_of r);;
        let count := count +₃₂ 1 in
        let infoVec := infoVec ++ [ud r] in
        if (count >=? BATCH_SIZE) || (match rest with [] => true | _ => false end) then
          infoVec ← submit_batch count infoVec;
          Start_loop rest 0 infoVec
        else Start_loop rest count infoVec
  end.

(** [None] is a null [req] or a null array. *)
Definition StartReqs (req : option (list A)) : st aio Z :=
  match req with
  | None => sret (- errno_EINVAL)
  | Some reqs =>
      ret ← CheckParameter (Z.of_nat (length reqs));
      if ret <? 0 then sret ret else Start_loop reqs 0 [];; sret EOK
  end.
End start.

Definition StartOpenReqs : option (list OpenInfo) → st aio Z :=
  StartReqs o_userData (λ r, PrepOpenat (o_dfd r) (o_path r) (o_flags r) (o_mode r)) bump_open.
Definition StartReadReqs : option (list ReadInfo) → st aio Z :=
  StartReqs r_userData (λ r, PrepRead (r_fd r) (r_buf r) (r_len r) (r_offset r)) bump_read.
Definition StartCancelReqs : option (list CancelInfo) → st aio Z :=
  StartReqs c_userData (λ r, PrepCancel (c_targetUserData r)) bump_cancel.

Definition GetIoResult : st aio unit :=
  '(ret, c) ← ask_lib al_wait_cqe;
  emit (T_wait ret c);;
  with_ctx (λ h, set_pending (pendingCqeCount_ h -₃₂ 1) h);;
  match (if ret <? 0 then None else c) with
  | None => sret tt
  | Some c =>
      with_ctx bump_cqe;;
      cb ← get_ctx ioResultCallBack_;
      if cb : bool then emit (T_answer (Response (cqe_user_data c) (cqe_res c) (cqe_flags c)))
      else sret tt
  end.

(** [while (pendingCqeCount_ > 0) GetIoResult();], under [cqeMutex_]. *)
Fixpoint Harvest_drain (fuel : nat) : st aio unit :=
  match fuel with
  | O => λ _, None
  | S fuel' =>
      n ← get_ctx pendingCqeCount_;
      if n >? 0 then GetIoResult;; Harvest_drain fuel' else sret tt
  end.

(** A turn of [HarvestRes] from the wake-up on: whether the thread ends. *)
Definition Harvest_turn (fuel : nat) : st aio bool :=
  Harvest_drain fuel;; get_ctx stopThread_.

(** [join] waits for the turn of the harvest thread that sees [stopThread_]. *)
Definition DestroyCtx (fuel : nat) : st aio Z :=
  init ← get_ctx initialized_;
  if negb init then sret EOK else
  with_ctx (λ h, set_life (pImpl_ h) (ioResultCallBack_ h) (harvestThread_ h) (stopThread_ h)
                   (initialized_ h) true h);;
  joinable ← get_ctx harvestThread_;
  (if joinable : bool then
     with_ctx (λ h, set_life (pImpl_ h) (ioResultCallBack_ h) (harvestThread_ h) true
                      (initialized_ h) (destroyed_ h) h);;
     Harvest_turn fuel;;
     with_ctx (λ h, set_life (pImpl_ h) (ioResultCallBack_ h) false (stopThread_ h)
                      (initialized_ h) (destroyed_ h) h)
   else sret tt);;
  impl ← get_ctx pImpl_;
  (if impl : bool then emit T_exit else sret tt);;
  with_ctx (λ h, set_life (pImpl_ h) (ioResultCallBack_ h) (harvestThread_ h) (stopThread_ h)
                   false (destroyed_ h) h);;
  sret EOK.
End hyperaio.

(** The build without liburing. *)
Definition SupportIouring_none : Z := 0.
Definition unsupported : Z := - errno_ENOTSUP.

(** ** What a trace shows *)
Definition prepared : list tevent → list sqe := omap (λ e, match e with T_prep e => Some e | _ => None end).
Definition answers : list tevent → list IoResponse :=
  omap (λ e, match e with T_answer r => Some r | _ => None end).
Definition batches : list tevent → list (list sqe) :=
  omap (λ e, match e with T_submit _ l => Some l | _ => None end).
Definition submits_ok (tr : list tevent) : Prop :=
  Forall (λ e, match e with T_submit ret _ => 0 <= ret | _ => True end) tr.

Lemma prepared_app a b : prepared (a ++ b) = prepared a ++ prepared b.
Proof. apply omap_app. Qed.
Lemma answers_app a b : answers (a ++ b) = answers a ++ answers b.
Proof. apply omap_app. Qed.
Lemma batches_app a b : batches (a ++ b) = batches a ++ batches b.
Proof. apply omap_app. Qed.
Lemma submits_ok_app a b : submits_ok (a ++ b) ↔ submits_ok a ∧ submits_ok b.
Proof. apply Forall_app. Qed.

(** The state moved on by [tr]: what was prepared is with the kernel or still in the
    queue, in order. *)
Definition moved (s s' : aio) (tr : list tevent) : Prop :=
  trace s' = trace s ++ tr ∧ sq s ++ prepared tr = concat (batches tr) ++ sq s'.

Lemma moved_refl s : moved s s [].
Proof. split; cbn; by rewrite ?app_nil_r. Qed.
Lemma moved_trans s s1 s2 t1 t2 : moved s s1 t1 → moved s1 s2 t2 → moved s s2 (t1 ++ t2).
Proof.
  intros [H1 H2] [H3 H4]. split.
  - by rewrite H3, H1, app_assoc.
  - by rewrite prepared_app, app_assoc, H2, <-app_assoc, H4, app_assoc, batches_app, concat_app.
Qed.

Definition alive (h h' : HyperAio) : Prop :=
  pImpl_ h' = pImpl_ h ∧ ioResultCallBack_ h' = ioResultCallBack_ h ∧
  harvestThread_ h' = harvestThread_ h ∧ stopThread_ h' = stopThread_ h ∧
  initialized_ h' = initialized_ h ∧ destroyed_ h' = destroyed_ h.
Lemma alive_refl h : alive h h.
Proof. by split_and!. Qed.
Lemma alive_trans h1 h2 h3 : alive h1 h2 → alive h2 h3 → alive h1 h3.
Proof. intros (?&?&?&?&?&?) (?&?&?&?&?&?). by split_and!; etrans. Qed.

Section facts.
Context {AL : AioLib}.

Lemma submit_spec s :
  wp io_uring_submit (λ ret s', ctx s' = ctx s ∧ ∃ tr, moved s s' tr ∧ prepared tr = [] ∧
    answers tr = [] ∧ (submits_ok tr ↔ 0 <= ret)) s.
Proof.
  unfold wp, io_uring_submit. split; [done|]. set (n := if _ <? 0 then _ else _).
  exists [T_submit (al_submit (clk s)) (take n (sq s))]. split; [|split; [done|split; [done|]]].
  - split; [done|]. cbn. by rewrite !app_nil_r, take_drop.
  - unfold submits_ok. rewrite Forall_singleton. done.
Qed.

Lemma HandleRequestError_spec l e s :
  wp (HandleRequestError l e) (λ _ s', ctx s' = ctx s ∧ ∃ tr, moved s s' tr ∧ prepared tr = [] ∧
    answers tr = (λ u, Response u e 0) <$> l ∧ submits_ok tr) s.
Proof.
  revert s. induction l as [|u l IH]; intros s; cbn [HandleRequestError].
  - apply wp_ret. split; [done|]. exists []. split; [apply moved_refl|]. split_and!; try done. constructor.
  - apply wp_bind. unfold wp at 1, emit.
    eapply wp_mono; [|apply IH]. intros [] s' (Hc & tr & Hm & H1 & H2 & H3). split; [done|].
    exists (T_answer (Response u e 0) :: tr). split; [|split; [done|split]].
    + change (T_answer (Response u e 0) :: tr) with ([T_answer (Response u e 0)] ++ tr).
      eapply moved_trans; [|exact Hm]. split; [done|]. cbn. by rewrite app_nil_r.
    + cbn. by rewrite <-H2.
    + by constructor.
Qed.

(** Only submissions happen while waiting for an entry. *)
Lemma GetSqe_spec n s :
  wp (GetSqe_loop n) (λ ok s', ctx s' = ctx s ∧ (∃ tr, moved s s' tr ∧ prepared tr = [] ∧
    answers tr = []) ∧ ((∀ k, al_get_sqe k = true) → n ≠ 0%nat → ok = true ∧ sq s' = sq s ∧ trace s' = trace s)) s.
Proof.
  revert s. induction n as [|n IH]; intros s; cbn [GetSqe_loop].
  - apply wp_ret. split; [done|]. split; [|done]. exists []. split; [apply moved_refl|done].
  - apply wp_bind. unfold wp at 1, ask_lib. destruct (al_get_sqe (clk s)) eqn:E.
    + apply wp_ret. split; [done|]. split; [|done]. exists []. split; [|done]. split; cbn; by rewrite ?app_nil_r.
    + apply wp_bind. set (s0 := State _ _ _ _). eapply wp_mono; [|apply submit_spec].
      intros ret s1 (Hc & tr & Hm & H1 & H2 & _). eapply wp_mono; [|apply IH].
      intros ok s2 (Hc2 & (tr2 & Hm2 & H3 & H4) & _). split; [by rewrite Hc2, Hc|]. split.
      * exists (tr ++ tr2). rewrite prepared_app, answers_app, H1, H2, H3, H4. split; [|done].
        eapply moved_trans; [|exact Hm2]. exact Hm.
      * intros Hall. by rewrite Hall in E.
Qed.

Section start.
Context {A : Type} (ud : A → Z) (mk : A → sqe_op) (bump : Z → HyperAio → HyperAio).
(** The counter of the function is none of those looked at here. *)
Definition plain_bump : Prop :=
  ∀ n h, alive h (bump n h) ∧ pendingCqeCount_ (bump n h) = pendingCqeCount_ h.
Hypothesis Hbump : plain_bump.

Definition busy (r : A) : IoResponse := Response (ud r) (- errno_EBUSY) 0.

(** Completions announced to the harvest thread: whole batches only, unless every
    request got its entry. *)
Definition announced (served : Z) (all : bool) : Z :=
  if all then served else BATCH_SIZE * (served / BATCH_SIZE).

Definition start_post (reqs : list A) (c0 : Z) (infoVec : list Z) (s s' : aio) : Prop :=
  ∃ front back early tr, reqs = front ++ back ∧ moved s s' tr ∧
    prepared tr = sqe_of ud mk <$> front ∧ answers tr = early ++ (busy <$> back) ∧
    (submits_ok tr → early = []) ∧
    Forall (λ a, userData a ∈ infoVec ++ (ud <$> front)) early ∧
    alive (ctx s) (ctx s') ∧
    pendingCqeCount_ (ctx s') = u32 (pendingCqeCount_ (ctx s) +
      announced (c0 + Z.of_nat (length front)) (match back with [] => true | _ => false end)) ∧
    ((∀ n, al_get_sqe n = true) → back = []).

Lemma submit_batch_spec count infoVec s :
  wp (submit_batch bump count infoVec) (λ infoVec' s', ∃ tr early, moved s s' tr ∧ prepared tr = [] ∧
    answers tr = early ∧ (submits_ok tr → early = []) ∧ Forall (λ a, userData a ∈ infoVec) early ∧
    (infoVec' ⊆ infoVec) ∧ alive (ctx s) (ctx s') ∧
    pendingCqeCount_ (ctx s') = pendingCqeCount_ (ctx s) +₃₂ count) s.
Proof using Hbump.
  unfold submit_batch. apply wp_bind. eapply wp_mono; [|apply submit_spec].
  intros ret s1 (Hc1 & t1 & Hm1 & P1 & A1 & O1). apply wp_bind.
  assert (Hend : ∀ infoVec' early t2 s2, ctx s2 = ctx s1 → moved s1 s2 t2 → prepared t2 = [] →
    answers t2 = early → (submits_ok (t1 ++ t2) → early = []) →
    Forall (λ a, userData a ∈ infoVec) early → infoVec' ⊆ infoVec →
    wp (with_ctx (bump count);; with_ctx (λ h, set_pending (pendingCqeCount_ h +₃₂ count) h);;
        sret infoVec') (λ infoVec' s', ∃ tr early, moved s s' tr ∧ prepared tr = [] ∧
      answers tr = early ∧ (submits_ok tr → early = []) ∧ Forall (λ a, userData a ∈ infoVec) early ∧
      (infoVec' ⊆ infoVec) ∧ alive (ctx s) (ctx s') ∧
      pendingCqeCount_ (ctx s') = pendingCqeCount_ (ctx s) +₃₂ count) s2).
  { intros iv early t2 s2 Hc2 Hm2 P2 A2 O2 Hf Hiv. unfold wp, bind, with_ctx, sret. cbn [ctx sq trace clk].
    destruct (Hbump count (ctx s2)) as [Ha Hp]. exists (t1 ++ t2), early.
    split; [exact (moved_trans _ _ _ _ _ Hm1 Hm2)|]. rewrite prepared_app, answers_app, P1, P2, A1, A2.
    do 5 (split; [done|]). cbn. rewrite Hp, Hc2, Hc1. split; [|done].
    rewrite Hc2, Hc1 in Ha. exact Ha. }
  destruct (ret <? 0) eqn:E; zbool.
  - apply wp_bind. eapply wp_mono; [|apply HandleRequestError_spec].
    intros [] s2 (Hc2 & t2 & Hm2 & P2 & A2 & O2). apply wp_ret. eapply Hend; try done.
    + intros [O _]%submits_ok_app. apply O1 in O. lia.
    + apply Forall_fmap, Forall_forall. by intros u Hu.
    + by intros u ?%elem_of_nil.
  - apply wp_ret. apply (Hend infoVec [] [] s1); try done. apply moved_refl.
Qed.

Lemma HandleSqeError_spec count infoVec s :
  wp (HandleSqeError count infoVec) (λ _ s', ∃ tr early, moved s s' tr ∧ prepared tr = [] ∧
    answers tr = early ∧ (submits_ok tr → early = []) ∧ Forall (λ a, userData a ∈ infoVec) early ∧
    alive (ctx s) (ctx s') ∧ pendingCqeCount_ (ctx s') = pendingCqeCount_ (ctx s)) s.
Proof.
  unfold HandleSqeError. destruct (count >? 0).
  2: { apply wp_ret. exists [], []. split; [apply moved_refl|]. by split_and!. }
  apply wp_bind. eapply wp_mono; [|apply submit_spec].
  intros ret s1 (Hc1 & t1 & Hm1 & P1 & A1 & O1). apply wp_bind. destruct (ret <? 0) eqn:E; zbool.
  - eapply wp_mono; [|apply HandleRequestError_spec]. intros [] s2 (Hc2 & t2 & Hm2 & P2 & A2 & O2).
    unfold wp, with_ctx. exists (t1 ++ t2), (answers (t1 ++ t2)).
    split; [exact (moved_trans _ _ _ _ _ Hm1 Hm2)|]. rewrite prepared_app, answers_app, P1, P2, A1, A2.
    split; [done|]. split; [done|]. split.
    { intros [O _]%submits_ok_app. apply O1 in O. lia. }
    split; [apply Forall_fmap, Forall_forall; by intros u Hu|]. cbn. rewrite Hc2, Hc1. by split_and!.
  - apply wp_ret. unfold wp, with_ctx. exists t1, []. split; [exact Hm1|]. cbn. rewrite Hc1.
    by split_and!.
Qed.

(** One request refused: it and all that follow are answered. *)
Lemma refuse_spec reqs c0 infoVec s :
  0 <= c0 < BATCH_SIZE → 0 <= pendingCqeCount_ (ctx s) < 2 ^ 32 → reqs ≠ [] →
  ¬ (∀ n, al_get_sqe n = true) →
  wp (HandleSqeError c0 infoVec;; HandleRequestError (ud <$> reqs) (- errno_EBUSY))
    (λ _ s', start_post reqs c0 infoVec s s') s.
Proof.
  intros Hc0 Hp Hne Hno. apply wp_bind. eapply wp_mono; [|apply HandleSqeError_spec].
  intros [] s1 (t1 & early & Hm1 & P1 & A1 & O1 & F1 & L1 & Q1).
  eapply wp_mono; [|apply HandleRequestError_spec]. intros [] s2 (Hc2 & t2 & Hm2 & P2 & A2 & O2).
  exists [], reqs, early, (t1 ++ t2). split; [done|]. split; [exact (moved_trans _ _ _ _ _ Hm1 Hm2)|].
  rewrite prepared_app, answers_app, P1, P2, A1, A2. split; [done|].
  split; [by rewrite <-list_fmap_compose|]. split; [intros [O _]%submits_ok_app; by apply O1|].
  split; [cbn; by rewrite app_nil_r|]. rewrite Hc2. split; [done|]. split; [|done].
  destruct reqs; [done|]. cbn. rewrite Q1. unfold announced, BATCH_SIZE in *.
  rewrite Z.div_small, u32_id by lia. lia.
Qed.

(** One request more at the front. *)
Lemma start_post_cons r rest c0 iv c1 iv' s s1 s2 t1 early :
  moved s s1 t1 → prepared t1 = [sqe_of ud mk r] → answers t1 = early → (submits_ok t1 → early = []) →
  Forall (λ a, userData a ∈ iv ++ [ud r]) early → (iv' ⊆ iv ++ [ud r]) →
  alive (ctx s) (ctx s1) →
  pendingCqeCount_ (ctx s1) = u32 (pendingCqeCount_ (ctx s) + (c0 + 1 - c1)) →
  (rest = [] → c1 = 0) → (rest ≠ [] → c0 + 1 - c1 = 0 ∨ c0 + 1 - c1 = BATCH_SIZE) →
  start_post rest c1 iv' s1 s2 → start_post (r :: rest) c0 iv s s2.
Proof.
  intros Hm P1 A1 O1 F1 Hiv L1 Q1 Hr0 Hr (front & back & early' & tr & -> & Hm2 & P2 & A2 & O2 & F2 & L2 & Q2 & G).
  exists (r :: front), back, (early ++ early'), (t1 ++ tr). split; [done|].
  split; [exact (moved_trans _ _ _ _ _ Hm Hm2)|]. rewrite prepared_app, answers_app, P1, A1, P2, A2.
  split; [done|]. split; [by rewrite <-app_assoc|].
  split; [intros [H1 H2]%submits_ok_app; by rewrite O1, O2|]. split; [|split; [by eapply alive_trans|split; [|done]]].
  - rewrite fmap_cons. apply Forall_app. split; (eapply Forall_impl; [eassumption|]); intros a Ha; cbn beta in Ha;
      rewrite elem_of_app, elem_of_cons; apply elem_of_app in Ha as [Ha|Ha]; auto.
    + apply list_elem_of_singleton in Ha. auto.
    + apply Hiv, elem_of_app in Ha as [?|?%list_elem_of_singleton]; auto.
  - rewrite Q2, Q1. unfold u32. rewrite Z.add_mod_idemp_l by lia. f_equal. unfold announced.
    cbn [length]. destruct back as [|b back]; [lia|].
    destruct Hr as [E|E]; [by destruct front|..]; unfold BATCH_SIZE in *.
    + replace (c0 + Z.of_nat (S (length front))) with (c1 + Z.of_nat (length front)) by lia. lia.
    + replace (c0 + Z.of_nat (S (length front))) with (c1 + Z.of_nat (length front) + 1 * 128) by lia.
      rewrite Z.div_add by lia. lia.
Qed.

Lemma Start_loop_spec reqs c0 infoVec s :
  0 <= c0 < BATCH_SIZE → (reqs = [] → c0 = 0) → 0 <= pendingCqeCount_ (ctx s) < 2 ^ 32 →
  wp (Start_loop ud mk bump reqs c0 infoVec) (λ _ s', start_post reqs c0 infoVec s s') s.
Proof using Hbump.
  revert c0 infoVec s. induction reqs as [|r rest IH]; intros c0 infoVec s Hc0 Hnil Hp; cbn [Start_loop].
  { rewrite Hnil by done. apply wp_ret. exists [], [], [], []. split; [done|]. split; [apply moved_refl|].
    do 4 (split; [done|]). split; [apply alive_refl|]. split; [|done]. cbn. by rewrite Z.add_0_r, u32_id. }
  apply wp_bind. unfold GetSqeWithRetry. eapply wp_mono; [|apply GetSqe_spec].
  intros ok s1 (Hc1 & (t1 & Hm1 & P1 & A1) & Hall).
  assert (Hfront : ∀ s2 s3 t2, start_post (r :: rest) c0 infoVec s2 s3 → ctx s2 = ctx s → moved s s2 t2 →
    prepared t2 = [] → answers t2 = [] → start_post (r :: rest) c0 infoVec s s3).
  { intros s2 s3 t2 (front & back & early & tr & E & Hm & P & An & O & F & L & Q & G) Hc Hm2 P2 A2.
    exists front, back, early, (t2 ++ tr). split; [done|]. split; [exact (moved_trans _ _ _ _ _ Hm2 Hm)|].
    rewrite prepared_app, answers_app, P2, A2, <-Hc. split; [done|]. split; [done|].
    split; [intros [_ H]%submits_ok_app; by apply O|done]. }
  destruct ok; cbn [negb].
  2: { eapply wp_mono; [|apply refuse_spec; try done; [by rewrite Hc1|]].
       - intros [] s2 H. by eapply Hfront.
       - intros H. destruct (Hall H) as [? _]; done. }
  apply wp_bind. unfold wp at 1, prep. set (s2 := State _ _ _ _).
  assert (moved s1 s2 [T_prep (sqe_of ud mk r)]) as Hm2.
  { split; [done|]. cbn. done. }
  assert (c0 +₃₂ 1 = c0 + 1) as Hadd by (unfold BATCH_SIZE in *; apply u32_id; lia).
  rewrite Hadd. cbn zeta.
  destruct ((c0 + 1 >=? BATCH_SIZE) || _) eqn:Eb.
  - apply wp_bind. eapply wp_mono; [|apply submit_batch_spec].
    intros iv' s3 (t3 & early & Hm3 & P3 & A3 & O3 & F3 & Hiv & L3 & Q3).
    eapply wp_mono; [|apply (IH 0 iv' s3); [done|done|rewrite Q3; apply u32_range]].
    intros [] s4 H4. apply (Hfront s1 s4 t1); try done.
    eapply (start_post_cons r rest c0 infoVec 0 iv' s1 s3 s4 ([T_prep (sqe_of ud mk r)] ++ t3) early);
      try done.
    + exact (moved_trans _ _ _ _ _ Hm2 Hm3).
    + by rewrite prepared_app, P3.
    + intros [_ O]%submits_ok_app. by apply O3.
    + rewrite Q3. cbn. f_equal. lia.
    + intros Hne. right. destruct rest; [done|]. rewrite orb_false_r in Eb. zbool.
      unfold BATCH_SIZE in *. lia.
  - apply orb_false_elim in Eb as [Eb En]. zbool. assert (rest ≠ []) as Hne by (by destruct rest).
    eapply wp_mono; [|apply (IH (c0 + 1) (infoVec ++ [ud r]) s2); [lia|done|cbn; by rewrite Hc1]].
    intros [] s4 H4. apply (Hfront s1 s4 t1); try done.
    eapply (start_post_cons r rest c0 infoVec (c0 + 1) _ s1 s2 s4 [T_prep (sqe_of ud mk r)] []); try done.
    + cbn. rewrite Z.sub_diag, Z.add_0_r, u32_id; [done|by rewrite Hc1].
    + intros _. left. lia.
Qed.
End start.
End facts.

(** ** What the functions guarantee *)
Section guarantees.
Context {AL : AioLib}.

Lemma HandleRequestError_returns l e s : returns (HandleRequestError l e) s.
Proof. revert s. induction l as [|u l IH]; intros s; [by eexists|]. apply IH. Qed.
Lemma GetSqe_returns n s : returns (GetSqe_loop n) s.
Proof.
  revert s. induction n as [|n IH]; intros s; [by eexists|]. cbn [GetSqe_loop].
  apply returns_then; [by eexists|]. intros [] s1; [by eexists|apply IH].
Qed.
Lemma HandleSqeError_returns c l s : returns (HandleSqeError c l) s.
Proof.
  unfold HandleSqeError. destruct (c >? 0); [|by eexists]. apply returns_then; [by eexists|].
  intros ret s1. apply returns_then; [|by eexists].
  destruct (ret <? 0); [apply HandleRequestError_returns|by eexists].
Qed.
Lemma submit_batch_returns bump c l s : returns (submit_batch bump c l) s.
Proof.
  unfold submit_batch. apply returns_then; [by eexists|]. intros ret s1.
  apply returns_then; [|by eexists].
  destruct (ret <? 0); [|by eexists]. apply returns_then; [apply HandleRequestError_returns|by eexists].
Qed.
Lemma Start_loop_returns {A} (ud : A → Z) mk bump reqs c0 iv s :
  returns (Start_loop ud mk bump reqs c0 iv) s.
Proof.
  revert c0 iv s. induction reqs as [|r rest IH]; intros c0 iv s; [by eexists|]. cbn [Start_loop].
  apply returns_then; [apply GetSqe_returns|]. intros ok s1. destruct ok; cbn [negb].
  - apply returns_then; [by eexists|]. intros [] s2. destruct (_ || _); [|apply IH].
    apply returns_then; [apply submit_batch_returns|]. intros iv' s3. apply IH.
  - apply returns_then; [apply HandleSqeError_returns|]. intros [] s2. apply HandleRequestError_returns.
Qed.

Definition can_start (h : HyperAio) (n : Z) : bool :=
  pImpl_ h && initialized_ h && negb (destroyed_ h) && ValidateReqNum n.

Lemma CheckParameter_eq n s :
  CheckParameter n s = Some (if can_start (ctx s) n then EOK else - errno_EINVAL, s).
Proof.
  unfold CheckParameter, can_start, get_ctx, bind, sret, id.
  by destruct (pImpl_ _), (initialized_ _), (destroyed_ _), (ValidateReqNum n).
Qed.

Lemma StartReqs_eq {A} (ud : A → Z) mk bump reqs s :
  StartReqs ud mk bump (Some reqs) s =
    if can_start (ctx s) (Z.of_nat (length reqs))
    then match Start_loop ud mk bump reqs 0 [] s with Some (_, s') => Some (EOK, s') | None => None end
    else Some (- errno_EINVAL, s).
Proof.
  unfold StartReqs, bind at 1. rewrite CheckParameter_eq. destruct (can_start _ _); [|done].
  change (EOK <? 0) with false. unfold bind. by destruct (Start_loop _ _ _ _ _ _ _) as [[[] ?]|].
Qed.

(** C39: Every request is accounted for: a start function refuses a bad context, a bad
    array or a bad size without doing anything; otherwise it returns EOK, the requests
    split into a front whose entries were prepared, in order, and a back that got no
    entry and was answered -EBUSY, each once; what was prepared is with the kernel or
    still in the queue; further answers come from failed submissions only and are about
    requests of the front; and the harvest thread is told of whole batches. *)
Theorem start_accounts_for_requests {A} (ud : A → Z) mk bump req s :
  plain_bump bump → 0 <= pendingCqeCount_ (ctx s) < 2 ^ 32 →
  if match req with Some reqs => can_start (ctx s) (Z.of_nat (length reqs)) | None => false end
  then ∃ s' front back early tr,
    StartReqs ud mk bump req s = Some (EOK, s') ∧ req = Some (front ++ back) ∧ moved s s' tr ∧
    prepared tr = sqe_of ud mk <$> front ∧ answers tr = early ++ (busy ud <$> back) ∧
    (submits_ok tr → early = []) ∧ Forall (λ a, userData a ∈ ud <$> front) early ∧
    ((∀ n, al_get_sqe n = true) → back = []) ∧
    pendingCqeCount_ (ctx s') = pendingCqeCount_ (ctx s) +₃₂
      announced (Z.of_nat (length front)) (match back with [] => true | _ => false end)
  else StartReqs ud mk bump req s = Some (- errno_EINVAL, s).
Proof.
  intros Hb Hp. destruct req as [reqs|]; [|done]. rewrite StartReqs_eq.
  destruct (can_start _ _); [|done].
  destruct (Start_loop_returns ud mk bump reqs 0 [] s) as [[[] s'] Hs].
  pose proof (Start_loop_spec ud mk bump Hb reqs 0 [] s ltac:(done) ltac:(done) Hp) as H.
  unfold wp in H. rewrite Hs in H |- *.
  destruct H as (front & back & early & tr & -> & Hm & P & An & O & F & L & Q & G).
  exists s', front, back, early, tr. cbn in F. by split_and!.
Qed.

(** *** Batches *)

(** The reference: consecutive groups of at most [BATCH_SIZE]. *)
Fixpoint chunks {B} (fuel : nat) (l : list B) : list (list B) :=
  match fuel, l with
  | S fuel', _ :: _ => take 128 l :: chunks fuel' (drop 128 l)
  | _, _ => []
  end.

Lemma chunks_step {B} fuel (q l : list B) :
  (0 < length q <= 128)%nat → length q = 128%nat ∨ l = [] → chunks (S fuel) (q ++ l) = q :: chunks fuel l.
Proof.
  intros Hq Hl. destruct q as [|e q]; [cbn in Hq; lia|]. cbn [chunks app].
  change (e :: q ++ l) with ((e :: q) ++ l). destruct Hl as [Hl| ->].
  - by rewrite take_app_length', drop_app_length'.
  - rewrite app_nil_r, take_ge, drop_ge by lia. by destruct fuel.
Qed.

(** The ring always has room and the kernel takes all it is offered. *)
Definition smooth : Prop := (∀ n, al_get_sqe n = true) ∧ ∀ n, BATCH_SIZE <= al_submit n.

Lemma submit_batch_smooth bump c l s :
  smooth → Z.of_nat (length (sq s)) <= BATCH_SIZE →
  ∃ s', submit_batch bump c l s = Some (l, s') ∧ sq s' = [] ∧
    trace s' = trace s ++ [T_submit (al_submit (clk s)) (sq s)].
Proof.
  intros [_ Hsm] Hlen. specialize (Hsm (clk s)). unfold BATCH_SIZE in *.
  unfold submit_batch, io_uring_submit, bind, sret, with_ctx.
  destruct (al_submit (clk s) <? 0) eqn:E; zbool; [lia|]. cbn.
  rewrite drop_ge, take_ge by lia. eauto.
Qed.

Lemma Start_loop_smooth {A} (ud : A → Z) mk bump reqs c0 iv s fuel :
  smooth → c0 = Z.of_nat (length (sq s)) → c0 < BATCH_SIZE → (reqs = [] → sq s = []) →
  (length (sq s ++ (sqe_of ud mk <$> reqs)) <= fuel)%nat →
  ∃ s' tr, Start_loop ud mk bump reqs c0 iv s = Some (tt, s') ∧ trace s' = trace s ++ tr ∧ sq s' = [] ∧
    answers tr = [] ∧ batches tr = chunks fuel (sq s ++ (sqe_of ud mk <$> reqs)).
Proof.
  intros Hsm. revert c0 iv s fuel. induction reqs as [|r rest IH]; intros c0 iv s fuel Hc0 Hlt Hnil Hf.
  { rewrite Hnil by done. exists s, []. rewrite app_nil_r. split_and!; try done; [by apply Hnil|].
    by destruct fuel. }
  cbn [Start_loop]. unfold bind at 1.
  assert (GetSqeWithRetry s = Some (true, State (ctx s) (sq s) (trace s) (S (clk s)))) as ->.
  { unfold GetSqeWithRetry. cbn. unfold bind, ask_lib. by rewrite (proj1 Hsm). }
  cbn [negb]. unfold bind at 1, prep. cbn [ctx sq trace clk]. set (s1 := State _ _ _ _).
  assert (length (sq s1) = S (length (sq s))) as Hl1 by (cbn; rewrite length_app; cbn; lia).
  assert (c0 +₃₂ 1 = Z.of_nat (length (sq s1))) as Hadd.
  { rewrite Hl1. unfold BATCH_SIZE in *. rewrite u32_id; lia. }
  rewrite Hadd. cbn zeta. assert (sq s ++ (sqe_of ud mk <$> r :: rest) = sq s1 ++ (sqe_of ud mk <$> rest)) as Heq.
  { cbn. by rewrite <-app_assoc. }
  rewrite Heq in Hf |- *.
  assert (Hgo : ∀ s2 tr1 c2 iv2 fuel2, trace s2 = trace s ++ tr1 → answers tr1 = [] →
    batches tr1 ++ chunks fuel2 (sq s2 ++ (sqe_of ud mk <$> rest)) = chunks fuel (sq s1 ++ (sqe_of ud mk <$> rest)) →
    c2 = Z.of_nat (length (sq s2)) → c2 < BATCH_SIZE → (rest = [] → sq s2 = []) →
    (length (sq s2 ++ (sqe_of ud mk <$> rest)) <= fuel2)%nat →
    ∃ s' tr, Start_loop ud mk bump rest c2 iv2 s2 = Some (tt, s') ∧ trace s' = trace s ++ tr ∧
      sq s' = [] ∧ answers tr = [] ∧ batches tr = chunks fuel (sq s1 ++ (sqe_of ud mk <$> rest))).
  { intros s2 tr1 c2 iv2 fuel2 Ht1 A1 B1 H1 H2 H3 H4.
    destruct (IH c2 iv2 s2 fuel2 H1 H2 H3 H4) as (s' & tr & Hs' & Ht & Hsq & An & Bn).
    exists s', (tr1 ++ tr). split; [done|]. split; [by rewrite Ht, Ht1, app_assoc|]. split; [done|].
    by rewrite answers_app, batches_app, A1, An, Bn, B1. }
  destruct ((Z.of_nat (length (sq s1)) >=? BATCH_SIZE) || _) eqn:Eb.
  - unfold bind. destruct (submit_batch_smooth bump (Z.of_nat (length (sq s1))) (iv ++ [ud r]) s1 Hsm) as
      (s2 & -> & Hsq2 & Ht2); [unfold BATCH_SIZE in *; lia|].
    destruct fuel as [|fuel]; [rewrite length_app in Hf; lia|].
    apply (Hgo s2 [T_prep (sqe_of ud mk r); T_submit (al_submit (clk s1)) (sq s1)] 0 _ fuel);
      rewrite ?Hsq2; try done.
    + rewrite Ht2. cbn. by rewrite <-app_assoc.
    + rewrite app_nil_l. symmetry. apply (chunks_step fuel (sq s1) (sqe_of ud mk <$> rest)).
      * unfold BATCH_SIZE in *. lia.
      * destruct rest as [|r2 rest]; [by right|left]. rewrite orb_false_r in Eb. zbool.
        unfold BATCH_SIZE in *. lia.
    + rewrite app_nil_l. rewrite length_app in Hf. lia.
  - apply orb_false_elim in Eb as [Eb En]. zbool.
    apply (Hgo s1 [T_prep (sqe_of ud mk r)] _ _ fuel); try done. by intros ->.
Qed.

(** With room in the ring and a kernel that takes what it is offered, the requests
    reach the kernel all, in order, in the batches of the reference [chunks]: full ones
    of 128 and a last one of the rest; nothing is answered early. *)
Theorem start_submits_batches {A} (ud : A → Z) mk bump reqs s :
  smooth → can_start (ctx s) (Z.of_nat (length reqs)) = true → sq s = [] →
  ∃ s' tr, StartReqs ud mk bump (Some reqs) s = Some (EOK, s') ∧ trace s' = trace s ++ tr ∧ sq s' = [] ∧
    answers tr = [] ∧ batches tr = chunks (length reqs) (sqe_of ud mk <$> reqs).
Proof.
  intros Hsm Hok Hsq. rewrite StartReqs_eq, Hok.
  destruct (Start_loop_smooth ud mk bump reqs 0 [] s (length reqs) Hsm) as (s' & tr & Hs & Ht & Hq & An & B);
    rewrite ?Hsq; try done.
  { by rewrite app_nil_l, length_fmap. }
  rewrite Hsq in B. exists s', tr. by rewrite Hs.
Qed.
End guarantees.

(** *** Harvesting and the end of a context *)
Section harvest.
Context {AL : AioLib}.

(** The completions that waits number [n], ..., [n + k - 1] deliver. *)
Definition completions (n k : nat) : list IoResponse :=
  omap (λ i, let '(ret, c) := al_wait_cqe i in
             if ret <? 0 then None
             else (λ c, Response (cqe_user_data c) (cqe_res c) (cqe_flags c)) <$> c) (seq n k).

Lemma GetIoResult_eq s :
  ioResultCallBack_ (ctx s) = true →
  ∃ s' tr, GetIoResult s = Some (tt, s') ∧ clk s' = S (clk s) ∧ sq s' = sq s ∧ trace s' = trace s ++ tr ∧
    alive (ctx s) (ctx s') ∧ pendingCqeCount_ (ctx s') = pendingCqeCount_ (ctx s) -₃₂ 1 ∧
    answers tr = completions (clk s) 1 ∧ (T_exit ∉ tr).
Proof.
  intros Hcb. unfold GetIoResult, bind, ask_lib, emit, with_ctx, get_ctx, sret, completions. cbn.
  destruct (al_wait_cqe (clk s)) as [ret c]. cbn [sq trace clk ctx].
  assert (Hcase : match (if ret <? 0 then None else c) with Some c0 => c = Some c0 ∧ (ret <? 0) = false
    | None => (ret <? 0) = true ∨ c = None end) by (destruct (ret <? 0), c; auto).
  destruct (if ret <? 0 then None else c) as [c0|].
  - destruct Hcase as [-> ->]. cbn. rewrite Hcb. eexists _, [T_wait ret (Some c0); T_answer _].
    split; [reflexivity|]. cbn. do 2 (split; [done|]). split; [by rewrite <-app_assoc|].
    split; [by split_and!|]. split; [done|]. split; [done|]. set_solver.
  - eexists _, [T_wait ret c]. split; [reflexivity|]. cbn. do 3 (split; [done|]). split; [by split_and!|].
    split; [done|]. split; [|set_solver]. destruct Hcase as [-> | ->]; [done|]. by destruct (ret <? 0).
Qed.

Lemma completions_S n k : completions n (S k) = completions n 1 ++ completions (S n) k.
Proof. unfold completions. cbn [seq]. by rewrite <-(omap_app _ [n]). Qed.

Lemma Harvest_drain_eq fuel s n :
  ioResultCallBack_ (ctx s) = true → pendingCqeCount_ (ctx s) = Z.of_nat n → Z.of_nat n < 2 ^ 32 →
  (n < fuel)%nat →
  ∃ s' tr, Harvest_drain fuel s = Some (tt, s') ∧ sq s' = sq s ∧ trace s' = trace s ++ tr ∧
    alive (ctx s) (ctx s') ∧ pendingCqeCount_ (ctx s') = 0 ∧ answers tr = completions (clk s) n ∧
    (T_exit ∉ tr).
Proof.
  revert fuel s. induction n as [|n IH]; intros [|fuel] s Hcb Hp Hn Hf; try lia; cbn [Harvest_drain];
    unfold bind at 1, get_ctx; rewrite Hp.
  - exists s, []. rewrite app_nil_r. split; [done|]. split_and!; try done; set_solver.
  - destruct (Z.of_nat (S n) >? 0) eqn:E; zbool; [|lia].
    destruct (GetIoResult_eq s Hcb) as (s1 & t1 & E1 & Hc1 & Hq1 & Ht1 & L1 & P1 & A1 & X1).
    unfold bind. rewrite E1. rewrite Hp, u32_id in P1 by lia.
    destruct (IH fuel s1) as (s2 & t2 & E2 & Hq2 & Ht2 & L2 & P2 & A2 & X2); try lia.
    { destruct L1 as (_ & -> & _). done. }
    rewrite E2. exists s2, (t1 ++ t2). split; [done|]. split; [by rewrite Hq2|].
    split; [by rewrite Ht2, Ht1, app_assoc|]. split; [by eapply alive_trans|]. split; [done|].
    rewrite answers_app, A1, A2, Hc1, (completions_S _ n). split; [done|]. rewrite elem_of_app. tauto.
Qed.

Lemma Harvest_drain_alive fuel s u s' : Harvest_drain fuel s = Some (u, s') → alive (ctx s) (ctx s').
Proof.
  revert s. induction fuel as [|fuel IH]; intros s H; cbn [Harvest_drain] in H; [done|].
  apply bind_Some in H as (k & s0 & [= <- <-] & H). destruct (_ >? 0); [|injection H as _ <-; apply alive_refl].
  apply bind_Some in H as ([] & s1 & Hg & H). apply IH in H. eapply alive_trans; [|exact H]. clear H.
  unfold GetIoResult in Hg. apply bind_Some in Hg as ([ret c] & sa & [= _ <-] & Hg).
  apply bind_Some in Hg as ([] & sb & [= <-] & Hg). apply bind_Some in Hg as ([] & sc & [= <-] & Hg).
  destruct (if ret <? 0 then None else c); [|injection Hg as <-; by split_and!].
  apply bind_Some in Hg as ([] & sd & [= <-] & Hg). apply bind_Some in Hg as (cb & se & [= <- <-] & Hg).
  destruct (ioResultCallBack_ _); injection Hg as <-; by split_and!.
Qed.

(** [DestroyCtx] loses no announced completion: it returns EOK after the harvest
    thread has waited for every pending one and delivered each that arrived, in order;
    only then is the ring torn down. *)
Theorem destroy_harvests_everything s n fuel :
  initialized_ (ctx s) = true → harvestThread_ (ctx s) = true → pImpl_ (ctx s) = true →
  ioResultCallBack_ (ctx s) = true →
  pendingCqeCount_ (ctx s) = Z.of_nat n → Z.of_nat n < 2 ^ 32 → (n < fuel)%nat →
  ∃ s' tr, DestroyCtx fuel s = Some (EOK, s') ∧ trace s' = trace s ++ tr ++ [T_exit] ∧ (T_exit ∉ tr) ∧
    answers tr = completions (clk s) n ∧ pendingCqeCount_ (ctx s') = 0 ∧
    initialized_ (ctx s') = false ∧ destroyed_ (ctx s') = true ∧ harvestThread_ (ctx s') = false.
Proof.
  intros Hi Ht Him Hcb Hp Hn Hf. unfold DestroyCtx, bind at 1, get_ctx at 1. rewrite Hi. cbn [negb].
  unfold bind at 1, with_ctx at 1. cbn [ctx sq trace clk]. unfold bind at 1, get_ctx at 1. cbn [ctx].
  cbn [set_life harvestThread_]. rewrite Ht. unfold Harvest_turn.
  unfold bind at 1 2, with_ctx at 1. cbn [ctx sq trace clk].
  set (s1 := State _ _ _ _).
  destruct (Harvest_drain_eq fuel s1 n) as (s2 & tr & E & Hq & Htr & L & P & A & X); try done.
  unfold bind at 1 2. rewrite E. unfold get_ctx, bind, with_ctx, emit, sret. cbn.
  destruct L as (L1 & _ & _ & _ & _ & L6). rewrite L1. cbn [ctx s1 pImpl_ set_life]. rewrite Him. cbn.
  eexists _, tr. split; [reflexivity|]. cbn. rewrite Htr, <-app_assoc.
  do 5 (split; [done|]). by rewrite L6.
Qed.

(** A context is good for one life: after [DestroyCtx] a second [CtxInit] returns
    EOK, but [destroyed_] is still set and every request is refused. *)
Theorem context_not_reusable fuel s r s1 s2 {A} (ud : A → Z) mk bump req :
  initialized_ (ctx s) = true → DestroyCtx fuel s = Some (r, s1) → CtxInit true s1 = Some (EOK, s2) →
  initialized_ (ctx s2) = true ∧ StartReqs ud mk bump req s2 = Some (- errno_EINVAL, s2).
Proof.
  intros Hi Hd Hc. assert (destroyed_ (ctx s1) = true ∧ initialized_ (ctx s1) = false) as [Hd1 Hi1].
  { unfold DestroyCtx in Hd. apply bind_Some in Hd as (i & s0 & [= <- <-] & Hd). rewrite Hi in Hd.
    cbn [negb] in Hd. apply bind_Some in Hd as ([] & s3 & [= <-] & Hd).
    apply bind_Some in Hd as (j & s4 & [= <- <-] & Hd). apply bind_Some in Hd as ([] & s5 & Hj & Hd).
    apply bind_Some in Hd as (im & s6 & [= <- <-] & Hd). apply bind_Some in Hd as ([] & s7 & Him & Hd).
    apply bind_Some in Hd as ([] & s8 & [= <-] & [= <- <-]). cbn. split; [|done].
    assert (destroyed_ (ctx s5) = true) as H5.
    { destruct (harvestThread_ _) in Hj; [|by injection Hj as <-].
      apply bind_Some in Hj as ([] & sa & [= <-] & Hj). apply bind_Some in Hj as (b & sb & Ht & [= <-]).
      apply bind_Some in Ht as ([] & sc & Hdr & [= <- <-]). cbn.
      pose proof (Harvest_drain_alive fuel _ _ _ Hdr) as Hl. apply Hl. }
    destruct (pImpl_ (ctx s5)); by injection Him as <-. }
  assert (initialized_ (ctx s2) = true ∧ destroyed_ (ctx s2) = true) as [Hi2 Hd2].
  { unfold CtxInit in Hc. apply bind_Some in Hc as (i & s0 & [= <- <-] & Hc). rewrite Hi1 in Hc.
    cbn [negb] in Hc. apply bind_Some in Hc as ([] & s3 & [= <-] & Hc).
    apply bind_Some in Hc as (ret & s4 & [= <- <-] & Hc). destruct (_ <? 0) eqn:E.
    - injection Hc as Hr _. zbool. unfold EOK in Hr. lia.
    - apply bind_Some in Hc as ([] & s5 & [= <-] & [= <-]). cbn. done. }
  split; [done|]. destruct req as [reqs|]; [|done]. rewrite StartReqs_eq. unfold can_start.
  rewrite Hd2. by rewrite andb_false_r.
Qed.
End harvest.

(** ** Witnesses and two defects *)
Definition ready : aio := State (Aio true true true false true false 0 0 0 0 0) [] [] 0.
Definition read_reqs (n : nat) : list ReadInfo :=
  (λ i, Read 5 4096 (4096 * Z.of_nat i) 0 (100 + Z.of_nat i)) <$> seq 0 n.
Definition open_reqs (n : nat) : list OpenInfo := (λ i, Open 5 0 0 0 (100 + Z.of_nat i)) <$> seq 0 n.

(** Everything works; the library calls in [full] find the ring full, those in
    [broken] fail. *)
Definition test_lib (full broken : list nat) : AioLib := {|
  al_permission := λ _, true; al_queue_init := λ _, 0;
  al_get_sqe := λ n, bool_decide (n ∉ full);
  al_submit := λ n, if bool_decide (n ∈ broken) then -5 else 512;
  al_wait_cqe := λ n, if bool_decide (n ∈ broken) then (-5, None)
                      else (0, Some (Cqe (100 + Z.of_nat n) 4096 0)) |}.

Lemma plain_bump_read : plain_bump bump_read.
Proof. intros n h. split; [by split_and!|done]. Qed.
Lemma plain_bump_open : plain_bump bump_open.
Proof. intros n h. split; [by split_and!|done]. Qed.

(** A request can be answered twice: [readInfoVec] is not cleared after a batch was
    submitted, so when a later batch of the same call fails, requests that the kernel has
    already taken are answered -EBUSY although their completions are still to come. *)
Theorem failed_batch_answers_submitted_requests :
  ∃ (AL : AioLib) s' e, StartReadReqs (Some (read_reqs 129)) ready = Some (EOK, s') ∧
    e ∈ concat (batches (trace s')) ∧ Response (sqe_data e) (- errno_EBUSY) 0 ∈ answers (trace s').
Proof.
  exists (test_lib [] [130%nat]).
  set (r := @StartReadReqs (test_lib [] [130%nat]) (Some (read_reqs 129)) ready).
  exists (match r with Some (_, s') => s' | None => ready end), (Sqe 100 (PrepRead 5 0 4096 0)).
  split; [|split].
  - assert (H : fst <$> r = Some EOK) by (vm_compute; reflexivity).
    destruct r as [[x s']|]; [|done]. cbn in H. by injection H as ->.
  - apply (list_elem_of_lookup_2 _ 0). vm_compute. reflexivity.
  - apply (list_elem_of_lookup_2 _ 0). vm_compute. reflexivity.
Qed.

(** Completions can go unharvested: when the ring is full in the middle of a batch,
    the requests prepared before are submitted by [HandleSqeError], which neither
    announces them to the harvest thread nor counts them where they belong: here an open
    request is with the kernel, no completion is awaited, and it is counted as a read. *)
Theorem leftover_requests_not_announced :
  ∃ (AL : AioLib) s', StartOpenReqs (Some (open_reqs 2)) ready = Some (EOK, s') ∧
    sqe_data <$> concat (batches (trace s')) = [100] ∧ pendingCqeCount_ (ctx s') = 0 ∧
    openReqCount_ (ctx s') = 0 ∧ readReqCount_ (ctx s') = 1.
Proof.
  exists (test_lib [1; 3; 5]%nat [2; 4]%nat).
  set (r := @StartOpenReqs (test_lib [1; 3; 5]%nat [2; 4]%nat) (Some (open_reqs 2)) ready).
  exists (match r with Some (_, s') => s' | None => ready end).
  assert (H : fst <$> r = Some EOK) by (vm_compute; reflexivity).
  split; [|vm_compute; by split_and!]. destruct r as [[x s']|]; [|done]. cbn in H. by injection H as ->.
Qed.

Lemma start_accounts_for_requests_witness :
  ∃ s', @StartReadReqs (test_lib [] []) (Some (read_reqs 3)) ready = Some (EOK, s') ∧
    pendingCqeCount_ (ctx s') = 3.
Proof.
  destruct (@start_accounts_for_requests (test_lib [] []) _ r_userData
    (λ r, PrepRead (r_fd r) (r_buf r) (r_len r) (r_offset r)) bump_read (Some (read_reqs 3)) ready
    plain_bump_read ltac:(done)) as (s' & front & back & early & tr & Hs & Hreq & _ & _ & _ & _ & _ & Hb & Hp).
  exists s'. split; [exact Hs|]. rewrite Hp. specialize (Hb ltac:(done)). subst back.
  rewrite app_nil_r in Hreq. injection Hreq as <-. vm_compute. reflexivity.
Defined.

Lemma start_submits_batches_witness :
  ∃ s' tr, @StartReadReqs (test_lib [] []) (Some (read_reqs 300)) ready = Some (EOK, s') ∧
    trace s' = trace ready ++ tr ∧ length <$> batches tr = [128; 128; 44]%nat.
Proof.
  destruct (@start_submits_batches (test_lib [] []) _ r_userData
    (λ r, PrepRead (r_fd r) (r_buf r) (r_len r) (r_offset r)) bump_read (read_reqs 300) ready)
    as (s' & tr & Hs & Ht & _ & _ & Hb).
  - split; done.
  - vm_compute. reflexivity.
  - reflexivity.
  - exists s', tr. split; [exact Hs|]. split; [exact Ht|]. rewrite Hb. vm_compute. reflexivity.
Defined.

Definition pending3 : aio := State (Aio true true true false true false 0 3 0 0 3) [] [] 0.

Lemma destroy_harvests_everything_witness :
  ∃ s', @DestroyCtx (test_lib [] [1%nat]) 10 pending3 = Some (EOK, s') ∧
    userData <$> answers (trace s') = [100; 102] ∧ pendingCqeCount_ (ctx s') = 0.
Proof.
  destruct (@destroy_harvests_everything (test_lib [] [1%nat]) pending3 3 10)
    as (s' & tr & Hs & Ht & _ & Ha & Hp & _); try done; [lia|].
  exists s'. split; [exact Hs|]. split; [|exact Hp]. rewrite Ht, !answers_app, Ha. vm_compute. reflexivity.
Defined.

Definition aio_destroyed : aio :=
  match @DestroyCtx (test_lib [] []) 10 pending3 with Some (_, s) => s | None => pending3 end.
Definition aio_again : aio :=
  match @CtxInit (test_lib [] []) true aio_destroyed with Some (_, s) => s | None => pending3 end.

Lemma context_not_reusable_witness :
  @StartReadReqs (test_lib [] []) (Some (read_reqs 3)) aio_again = Some (- errno_EINVAL, aio_again).
Proof.
  apply (@context_not_reusable (test_lib [] []) 10 pending3 EOK aio_destroyed aio_again); vm_compute; reflexivity.
Defined.
