(* ===== verification/FsError.v ===== *)
(** * Errors of the file interfaces

    Models [fs_error.cpp] and [fs_error.h]: the tables from errno values, libuv
    codes and soft-bus codes to the error codes and messages of the JavaScript
    and native interfaces, and the [FsError] that looks a code up in them.
    errno values are those of Linux.  [uv_err_name] is libuv's. *)

From S2P Require Import Prelude.

(** ** errno.h *)
Module Errno.
Definition EPERM : Z := 1.
Definition ENOENT : Z := 2.
Definition ESRCH : Z := 3.
Definition EINTR : Z := 4.
Definition EIO : Z := 5.
Definition ENXIO : Z := 6.
Definition E2BIG : Z := 7.
Definition EBADF : Z := 9.
Definition ECHILD : Z := 10.
Definition EAGAIN : Z := 11.
Definition ENOMEM : Z := 12.
Definition EACCES : Z := 13.
Definition EFAULT : Z := 14.
Definition EBUSY : Z := 16.
Definition EEXIST : Z := 17.
Definition EXDEV : Z := 18.
Definition ENODEV : Z := 19.
Definition ENOTDIR : Z := 20.
Definition EISDIR : Z := 21.
Definition EINVAL : Z := 22.
Definition ENFILE : Z := 23.
Definition EMFILE : Z := 24.
Definition ETXTBSY : Z := 26.
Definition EFBIG : Z := 27.
Definition ENOSPC : Z := 28.
Definition ESPIPE : Z := 29.
Definition EROFS : Z := 30.
Definition EMLINK : Z := 31.
Definition EDEADLK : Z := 35.
Definition ENAMETOOLONG : Z := 36.
Definition ENOLCK : Z := 37.
Definition ENOSYS : Z := 38.
Definition ENOTEMPTY : Z := 39.
Definition ELOOP : Z := 40.
Definition EWOULDBLOCK : Z := 11.
Definition EBADR : Z := 53.
Definition ENOSTR : Z := 60.
Definition ENODATA : Z := 61.
Definition EOVERFLOW : Z := 75.
Definition EBADFD : Z := 77.
Definition ERESTART : Z := 85.
Definition ENETUNREACH : Z := 101.
Definition ECONNABORTED : Z := 103.
Definition EDQUOT : Z := 122.
Definition ECANCELED : Z := 125.
End Errno.
Import Errno.

(** ** Constants *)
Definition UNKNOWN_ERR : Z := -1.
Definition NO_TASK_ERR : Z := -2.
Definition CANCEL_ERR : Z := -3.
Definition ERRNO_NOERR : Z := 0.
Definition NO_ERR_MSG_ERR : Z := -13999999.
Definition ECONNECTIONFAIL : Z := 45.
Definition ECONNECTIONABORT : Z := 46.
Definition STORAGE_SERVICE_SYS_CAP_TAG : Z := 13600000.
Definition FILEIO_SYS_CAP_TAG : Z := 13900000.
Definition USER_FILE_MANAGER_SYS_CAP_TAG : Z := 14000000.
Definition USER_FILE_SERVICE_SYS_CAP_TAG : Z := 14300000.
Definition DISTRIBUTEDFILE_SERVICE_SYS_CAP_TAG : Z := 22400000.
Definition SOFTBUS_TRANS_FILE_PERMISSION_DENIED : Z := -426114938.
Definition SOFTBUS_TRANS_FILE_DISK_QUOTA_EXCEEDED : Z := -426114937.
Definition SOFTBUS_TRANS_FILE_NO_MEMORY : Z := -426114936.
Definition SOFTBUS_TRANS_FILE_NETWORK_ERROR : Z := -426114935.
Definition SOFTBUS_TRANS_FILE_NOT_FOUND : Z := -426114934.
Definition SOFTBUS_TRANS_FILE_EXISTED : Z := -426114933.
Definition DFS_CANCEL_SUCCESS : Z := 204.

Inductive ErrCodeSuffixOfFileIO :=
  | E_PERM | E_NOENT | E_SRCH | E_INTR | E_IO | E_NXIO | E_2BIG | E_BADF | E_CHILD | E_AGAIN
  | E_NOMEM | E_ACCES | E_FAULT | E_BUSY | E_EXIST | E_XDEV | E_NODEV | E_NOTDIR | E_ISDIR
  | E_INVAL | E_NFILE | E_MFILE | E_TXTBSY | E_FBIG | E_NOSPC | E_SPIPE | E_ROFS | E_MLINK
  | E_DEADLK | E_NAMETOOLONG | E_NOSYS | E_NOTEMPTY | E_LOOP | E_WOULDBLOCK | E_BADR | E_NOSTR
  | E_NODATA | E_OVERFLOW | E_BADFD | E_RESTART | E_DQUOT | E_UKERR | E_NOLCK | E_NETUNREACH
  | E_CONNECTION_FAIL | E_CONNECTION_ABORT | E_NOTASK | E_UNCANCELED | E_CANCELED
  | E_INTERN_RES | E_MMAP_OOB | E_MMAP_FREE | E_MMAP_RO | E_MMAP_ACCS | E_MMAP_UNSUP
  | E_MMAP_FILE.
Definition ErrCodeSuffixOfFileIO_value (e : ErrCodeSuffixOfFileIO) : Z :=
  match e with
  | E_PERM => 1 | E_NOENT => 2 | E_SRCH => 3 | E_INTR => 4 | E_IO => 5 | E_NXIO => 6
  | E_2BIG => 7 | E_BADF => 8 | E_CHILD => 9 | E_AGAIN => 10 | E_NOMEM => 11 | E_ACCES => 12
  | E_FAULT => 13 | E_BUSY => 14 | E_EXIST => 15 | E_XDEV => 16 | E_NODEV => 17
  | E_NOTDIR => 18 | E_ISDIR => 19 | E_INVAL => 20 | E_NFILE => 21 | E_MFILE => 22
  | E_TXTBSY => 23 | E_FBIG => 24 | E_NOSPC => 25 | E_SPIPE => 26 | E_ROFS => 27
  | E_MLINK => 28 | E_DEADLK => 29 | E_NAMETOOLONG => 30 | E_NOSYS => 31 | E_NOTEMPTY => 32
  | E_LOOP => 33 | E_WOULDBLOCK => 34 | E_BADR => 35 | E_NOSTR => 36 | E_NODATA => 37
  | E_OVERFLOW => 38 | E_BADFD => 39 | E_RESTART => 40 | E_DQUOT => 41 | E_UKERR => 42
  | E_NOLCK => 43 | E_NETUNREACH => 44 | E_CONNECTION_FAIL => 45 | E_CONNECTION_ABORT => 46
  | E_NOTASK => 47 | E_UNCANCELED => 48 | E_CANCELED => 49 | E_INTERN_RES => 50
  | E_MMAP_OOB => 51 | E_MMAP_FREE => 52 | E_MMAP_RO => 53 | E_MMAP_ACCS => 54
  | E_MMAP_UNSUP => 55 | E_MMAP_FILE => 56
  end.
Coercion ErrCodeSuffixOfFileIO_value : ErrCodeSuffixOfFileIO >-> Z.

Inductive ErrCodeSuffixOfUserFileManager :=
  | E_DISPLAYNAME | E_URIM | E_SUFFIX | E_TRASH | E_OPEN_MODE | E_NOT_ALBUM | E_ROOT_DIR
  | E_MOVE_DENIED | E_RENAME_DENIED | E_RELATIVEPATH | E_INNER_FAIL | E_FILE_TYPE | E_FILE_KEY
  | E_INPUT.
Definition ErrCodeSuffixOfUserFileManager_value (e : ErrCodeSuffixOfUserFileManager) : Z :=
  match e with
  | E_DISPLAYNAME => 1 | E_URIM => 2 | E_SUFFIX => 3 | E_TRASH => 4 | E_OPEN_MODE => 5
  | E_NOT_ALBUM => 6 | E_ROOT_DIR => 7 | E_MOVE_DENIED => 8 | E_RENAME_DENIED => 9
  | E_RELATIVEPATH => 10 | E_INNER_FAIL => 11 | E_FILE_TYPE => 12 | E_FILE_KEY => 13
  | E_INPUT => 14
  end.
Coercion ErrCodeSuffixOfUserFileManager_value : ErrCodeSuffixOfUserFileManager >-> Z.

Inductive ErrCodeSuffixOfStorageService :=
  | E_IPCSS | E_NOTSUPPORTEDFS | E_MOUNT | E_UNMOUNT | E_VOLUMESTATE | E_PREPARE | E_DELETE
  | E_NOOBJECT | E_OUTOFRANGE.
Definition ErrCodeSuffixOfStorageService_value (e : ErrCodeSuffixOfStorageService) : Z :=
  match e with
  | E_IPCSS => 1 | E_NOTSUPPORTEDFS => 2 | E_MOUNT => 3 | E_UNMOUNT => 4 | E_VOLUMESTATE => 5
  | E_PREPARE => 6 | E_DELETE => 7 | E_NOOBJECT => 8 | E_OUTOFRANGE => 9
  end.
Coercion ErrCodeSuffixOfStorageService_value : ErrCodeSuffixOfStorageService >-> Z.

Inductive ErrCodeSuffixOfUserFileService :=
  | E_IPCS | E_URIS | E_GETINFO | E_GETRESULT | E_REGISTER | E_REMOVE | E_INIT | E_NOTIFY
  | E_CONNECT | E_CALLBACK_AND_URI_HAS_NOT_RELATIONS | E_CALLBACK_IS_NOT_REGISTER
  | E_CAN_NOT_FIND_URI | E_DO_NOT_HAVE_PARENT | E_LOAD_SA | E_COUNT.
Definition ErrCodeSuffixOfUserFileService_value (e : ErrCodeSuffixOfUserFileService) : Z :=
  match e with
  | E_IPCS => 1 | E_URIS => 2 | E_GETINFO => 3 | E_GETRESULT => 4 | E_REGISTER => 5
  | E_REMOVE => 6 | E_INIT => 7 | E_NOTIFY => 8 | E_CONNECT => 9
  | E_CALLBACK_AND_URI_HAS_NOT_RELATIONS => 10 | E_CALLBACK_IS_NOT_REGISTER => 11
  | E_CAN_NOT_FIND_URI => 12 | E_DO_NOT_HAVE_PARENT => 13 | E_LOAD_SA => 14 | E_COUNT => 15
  end.
Coercion ErrCodeSuffixOfUserFileService_value : ErrCodeSuffixOfUserFileService >-> Z.

Inductive ErrCodeSuffixOfDistributedFile :=
  | E_CLOUD_NOT_READY | E_NETWORK_ERR | E_BATTERY_WARNING | E_EXCEED_MAX_LIMIT
  | E_DATABASE_FAILED.
Definition ErrCodeSuffixOfDistributedFile_value (e : ErrCodeSuffixOfDistributedFile) : Z :=
  match e with
  | E_CLOUD_NOT_READY => 1 | E_NETWORK_ERR => 2 | E_BATTERY_WARNING => 3
  | E_EXCEED_MAX_LIMIT => 4 | E_DATABASE_FAILED => 5
  end.
Coercion ErrCodeSuffixOfDistributedFile_value : ErrCodeSuffixOfDistributedFile >-> Z.

Inductive CommonErrCode :=
  | E_PERMISSION | E_PERMISSION_SYS | E_PARAMS | E_DEVICENOTSUPPORT | E_OSNOTSUPPORT
  | E_UNKNOWN_ERROR.
Definition CommonErrCode_value (e : CommonErrCode) : Z :=
  match e with
  | E_PERMISSION => 201 | E_PERMISSION_SYS => 202 | E_PARAMS => 401
  | E_DEVICENOTSUPPORT => 801 | E_OSNOTSUPPORT => 901 | E_UNKNOWN_ERROR => 13900042
  end.
Coercion CommonErrCode_value : CommonErrCode >-> Z.

(** ** Tables, in the order of the source *)
Definition softbusErr2ErrCodeTable : list (Z * Z) := [
  (SOFTBUS_TRANS_FILE_PERMISSION_DENIED, EPERM);
  (SOFTBUS_TRANS_FILE_DISK_QUOTA_EXCEEDED, EIO);
  (SOFTBUS_TRANS_FILE_NO_MEMORY, ENOMEM);
  (SOFTBUS_TRANS_FILE_NETWORK_ERROR, ENETUNREACH);
  (SOFTBUS_TRANS_FILE_NOT_FOUND, ENOENT);
  (SOFTBUS_TRANS_FILE_EXISTED, EEXIST);
  (DFS_CANCEL_SUCCESS, ECANCELED)].

Local Open Scope string_scope.
Definition uvCode2ErrCodeTable : list (string * Z) := [
  ("EPERM", EPERM);
  ("ENOENT", ENOENT);
  ("ESRCH", ESRCH);
  ("EINTR", EINTR);
  ("EIO", EIO);
  ("ENXIO", ENXIO);
  ("E2BIG", E2BIG);
  ("EBADF", EBADF);
  ("ECHILD", ECHILD);
  ("EAGAIN", EAGAIN);
  ("ENOMEM", ENOMEM);
  ("EACCES", EACCES);
  ("EFAULT", EFAULT);
  ("EBUSY", EBUSY);
  ("EEXIST", EEXIST);
  ("EXDEV", EXDEV);
  ("ENODEV", ENODEV);
  ("ENOTDIR", ENOTDIR);
  ("EISDIR", EISDIR);
  ("EINVAL", EINVAL);
  ("ENFILE", ENFILE);
  ("EMFILE", EMFILE);
  ("ETXTBSY", ETXTBSY);
  ("EFBIG", EFBIG);
  ("ENOSPC", ENOSPC);
  ("ESPIPE", ESPIPE);
  ("EROFS", EROFS);
  ("EMLINK", EMLINK);
  ("EDEADLK", EDEADLK);
  ("ENAMETOOLONG", ENAMETOOLONG);
  ("ENOSYS", ENOSYS);
  ("ENOTEMPTY", ENOTEMPTY);
  ("ELOOP", ELOOP);
  ("EWOULDBLOCK", EWOULDBLOCK);
  ("EBADR", EBADR);
  ("ENOSTR", ENOSTR);
  ("ENODATA", ENODATA);
  ("EOVERFLOW", EOVERFLOW);
  ("EBADFD", EBADFD);
  ("ERESTART", ERESTART);
  ("EDQUOT", EDQUOT);
  ("ENETUNREACH", ENETUNREACH);
  ("ECONNECTIONFAIL", ECONNECTIONFAIL);
  ("ECONNECTIONABORT", ECONNECTIONABORT);
  ("ECANCELED", ECANCELED);
  ("ECONNABORTED", ECONNABORTED)].

Definition errCodeTable_errno : list (Z * (Z * string)) := [
  (ERRNO_NOERR, (ERRNO_NOERR, "No error imformation"%string));
  (EPERM, (FILEIO_SYS_CAP_TAG + E_PERM, "Operation not permitted"%string));
  (ENOENT, (FILEIO_SYS_CAP_TAG + E_NOENT, "No such file or directory"%string));
  (ESRCH, (FILEIO_SYS_CAP_TAG + E_SRCH, "No such process"%string));
  (EINTR, (FILEIO_SYS_CAP_TAG + E_INTR, "Interrupted system call"%string));
  (EIO, (FILEIO_SYS_CAP_TAG + E_IO, "I/O error"%string));
  (ENXIO, (FILEIO_SYS_CAP_TAG + E_NXIO, "No such device or address"%string));
  (E2BIG, (FILEIO_SYS_CAP_TAG + E_2BIG, "Arg list too long"%string));
  (EBADF, (FILEIO_SYS_CAP_TAG + E_BADF, "Bad file descriptor"%string));
  (ECHILD, (FILEIO_SYS_CAP_TAG + E_CHILD, "No child processes"%string));
  (EAGAIN, (FILEIO_SYS_CAP_TAG + E_AGAIN, "Try again"%string));
  (ENOMEM, (FILEIO_SYS_CAP_TAG + E_NOMEM, "Out of memory"%string));
  (EACCES, (FILEIO_SYS_CAP_TAG + E_ACCES, "Permission denied"%string));
  (EFAULT, (FILEIO_SYS_CAP_TAG + E_FAULT, "Bad address"%string));
  (EBUSY, (FILEIO_SYS_CAP_TAG + E_BUSY, "Device or resource busy"%string));
  (EEXIST, (FILEIO_SYS_CAP_TAG + E_EXIST, "File exists"%string));
  (EXDEV, (FILEIO_SYS_CAP_TAG + E_XDEV, "Cross-device link"%string));
  (ENODEV, (FILEIO_SYS_CAP_TAG + E_NODEV, "No such device"%string));
  (ENOTDIR, (FILEIO_SYS_CAP_TAG + E_NOTDIR, "Not a directory"%string));
  (EISDIR, (FILEIO_SYS_CAP_TAG + E_ISDIR, "Is a directory"%string));
  (EINVAL, (FILEIO_SYS_CAP_TAG + E_INVAL, "Invalid argument"%string));
  (ENFILE, (FILEIO_SYS_CAP_TAG + E_NFILE, "File table overflow"%string));
  (EMFILE, (FILEIO_SYS_CAP_TAG + E_MFILE, "Too many open files"%string));
  (ETXTBSY, (FILEIO_SYS_CAP_TAG + E_TXTBSY, "Text file busy"%string));
  (EFBIG, (FILEIO_SYS_CAP_TAG + E_FBIG, "File too large"%string));
  (ENOSPC, (FILEIO_SYS_CAP_TAG + E_NOSPC, "No space left on device"%string));
  (ESPIPE, (FILEIO_SYS_CAP_TAG + E_SPIPE, "Illegal seek"%string));
  (EROFS, (FILEIO_SYS_CAP_TAG + E_ROFS, "Read-only file system"%string));
  (EMLINK, (FILEIO_SYS_CAP_TAG + E_MLINK, "Too many links"%string));
  (EDEADLK, (FILEIO_SYS_CAP_TAG + E_DEADLK, "Resource deadlock would occur"%string));
  (ENAMETOOLONG, (FILEIO_SYS_CAP_TAG + E_NAMETOOLONG, "File name too long"%string));
  (ENOSYS, (FILEIO_SYS_CAP_TAG + E_NOSYS, "Function not implemented"%string));
  (ENOTEMPTY, (FILEIO_SYS_CAP_TAG + E_NOTEMPTY, "Directory not empty"%string));
  (ELOOP, (FILEIO_SYS_CAP_TAG + E_LOOP, "Too many symbolic links encountered"%string));
  (EWOULDBLOCK, (FILEIO_SYS_CAP_TAG + E_WOULDBLOCK, "Operation would block"%string));
  (EBADR, (FILEIO_SYS_CAP_TAG + E_BADR, "Invalid request descriptor"%string));
  (ENOSTR, (FILEIO_SYS_CAP_TAG + E_NOSTR, "Device not a stream"%string));
  (ENODATA, (FILEIO_SYS_CAP_TAG + E_NODATA, "No data available"%string));
  (EOVERFLOW, (FILEIO_SYS_CAP_TAG + E_OVERFLOW, "Value too large for defined data type"%string));
  (EBADFD, (FILEIO_SYS_CAP_TAG + E_BADFD, "File descriptor in bad state"%string));
  (ERESTART, (FILEIO_SYS_CAP_TAG + E_RESTART, "Interrupted system call should be restarted"%string));
  (EDQUOT, (FILEIO_SYS_CAP_TAG + E_DQUOT, "Quota exceeded"%string));
  (UNKNOWN_ERR, (FILEIO_SYS_CAP_TAG + E_UKERR, "Unknown error"%string));
  (ENOLCK, (FILEIO_SYS_CAP_TAG + E_NOLCK, "No record locks available"%string));
  (ENETUNREACH, (FILEIO_SYS_CAP_TAG + E_NETUNREACH, "Network is unreachable"%string));
  (ECONNECTIONFAIL, (FILEIO_SYS_CAP_TAG + E_CONNECTION_FAIL, "Connection failed"%string));
  (ECONNECTIONABORT, (FILEIO_SYS_CAP_TAG + E_CONNECTION_ABORT, "Software caused connection abort"%string));
  (ECONNABORTED, (FILEIO_SYS_CAP_TAG + E_CONNECTION_ABORT, "Software caused connection abort"%string));
  (NO_TASK_ERR, (FILEIO_SYS_CAP_TAG + E_NOTASK, "No task can be canceled"%string));
  (CANCEL_ERR, (FILEIO_SYS_CAP_TAG + E_UNCANCELED, "Failed to cancel"%string));
  (ECANCELED, (FILEIO_SYS_CAP_TAG + E_CANCELED, "Operation canceled"%string))].

Definition errCodeTable_fileio : list (Z * (Z * string)) := [
  (FILEIO_SYS_CAP_TAG + E_PERM, (FILEIO_SYS_CAP_TAG + E_PERM, "Operation not permitted"%string));
  (FILEIO_SYS_CAP_TAG + E_NOENT, (FILEIO_SYS_CAP_TAG + E_NOENT, "No such file or directory"%string));
  (FILEIO_SYS_CAP_TAG + E_SRCH, (FILEIO_SYS_CAP_TAG + E_SRCH, "No such process"%string));
  (FILEIO_SYS_CAP_TAG + E_INTR, (FILEIO_SYS_CAP_TAG + E_INTR, "Interrupted system call"%string));
  (FILEIO_SYS_CAP_TAG + E_IO, (FILEIO_SYS_CAP_TAG + E_IO, "I/O error"%string));
  (FILEIO_SYS_CAP_TAG + E_NXIO, (FILEIO_SYS_CAP_TAG + E_NXIO, "No such device or address"%string));
  (FILEIO_SYS_CAP_TAG + E_2BIG, (FILEIO_SYS_CAP_TAG + E_2BIG, "Arg list too long"%string));
  (FILEIO_SYS_CAP_TAG + E_BADF, (FILEIO_SYS_CAP_TAG + E_BADF, "Bad file descriptor"%string));
  (FILEIO_SYS_CAP_TAG + E_CHILD, (FILEIO_SYS_CAP_TAG + E_CHILD, "No child processes"%string));
  (FILEIO_SYS_CAP_TAG + E_AGAIN, (FILEIO_SYS_CAP_TAG + E_AGAIN, "Try again"%string));
  (FILEIO_SYS_CAP_TAG + E_NOMEM, (FILEIO_SYS_CAP_TAG + E_NOMEM, "Out of memory"%string));
  (FILEIO_SYS_CAP_TAG + E_ACCES, (FILEIO_SYS_CAP_TAG + E_ACCES, "Permission denied"%string));
  (FILEIO_SYS_CAP_TAG + E_FAULT, (FILEIO_SYS_CAP_TAG + E_FAULT, "Bad address"%string));
  (FILEIO_SYS_CAP_TAG + E_BUSY, (FILEIO_SYS_CAP_TAG + E_BUSY, "Device or resource busy"%string));
  (FILEIO_SYS_CAP_TAG + E_EXIST, (FILEIO_SYS_CAP_TAG + E_EXIST, "File exists"%string));
  (FILEIO_SYS_CAP_TAG + E_XDEV, (FILEIO_SYS_CAP_TAG + E_XDEV, "Cross-device link"%string));
  (FILEIO_SYS_CAP_TAG + E_NODEV, (FILEIO_SYS_CAP_TAG + E_NODEV, "No such device"%string));
  (FILEIO_SYS_CAP_TAG + E_NOTDIR, (FILEIO_SYS_CAP_TAG + E_NOTDIR, "Not a directory"%string));
  (FILEIO_SYS_CAP_TAG + E_ISDIR, (FILEIO_SYS_CAP_TAG + E_ISDIR, "Is a directory"%string));
  (FILEIO_SYS_CAP_TAG + E_INVAL, (FILEIO_SYS_CAP_TAG + E_INVAL, "Invalid argument"%string));
  (FILEIO_SYS_CAP_TAG + E_NFILE, (FILEIO_SYS_CAP_TAG + E_NFILE, "File table overflow"%string));
  (FILEIO_SYS_CAP_TAG + E_MFILE, (FILEIO_SYS_CAP_TAG + E_MFILE, "Too many open files"%string));
  (FILEIO_SYS_CAP_TAG + E_TXTBSY, (FILEIO_SYS_CAP_TAG + E_TXTBSY, "Text file busy"%string));
  (FILEIO_SYS_CAP_TAG + E_FBIG, (FILEIO_SYS_CAP_TAG + E_FBIG, "File too large"%string));
  (FILEIO_SYS_CAP_TAG + E_NOSPC, (FILEIO_SYS_CAP_TAG + E_NOSPC, "No space left on device"%string));
  (FILEIO_SYS_CAP_TAG + E_SPIPE, (FILEIO_SYS_CAP_TAG + E_SPIPE, "Illegal seek"%string));
  (FILEIO_SYS_CAP_TAG + E_ROFS, (FILEIO_SYS_CAP_TAG + E_ROFS, "Read-only file system"%string));
  (FILEIO_SYS_CAP_TAG + E_MLINK, (FILEIO_SYS_CAP_TAG + E_MLINK, "Too many links"%string));
  (FILEIO_SYS_CAP_TAG + E_DEADLK, (FILEIO_SYS_CAP_TAG + E_DEADLK, "Resource deadlock would occur"%string));
  (FILEIO_SYS_CAP_TAG + E_NAMETOOLONG, (FILEIO_SYS_CAP_TAG + E_NAMETOOLONG, "File name too long"%string));
  (FILEIO_SYS_CAP_TAG + E_NOSYS, (FILEIO_SYS_CAP_TAG + E_NOSYS, "Function not implemented"%string));
  (FILEIO_SYS_CAP_TAG + E_NOTEMPTY, (FILEIO_SYS_CAP_TAG + E_NOTEMPTY, "Directory not empty"%string));
  (FILEIO_SYS_CAP_TAG + E_LOOP, (FILEIO_SYS_CAP_TAG + E_LOOP, "Too many symbolic links encountered"%string));
  (FILEIO_SYS_CAP_TAG + E_WOULDBLOCK, (FILEIO_SYS_CAP_TAG + E_WOULDBLOCK, "Operation would block"%string));
  (FILEIO_SYS_CAP_TAG + E_BADR, (FILEIO_SYS_CAP_TAG + E_BADR, "Invalid request descriptor"%string));
  (FILEIO_SYS_CAP_TAG + E_NOSTR, (FILEIO_SYS_CAP_TAG + E_NOSTR, "Device not a stream"%string));
  (FILEIO_SYS_CAP_TAG + E_NODATA, (FILEIO_SYS_CAP_TAG + E_NODATA, "No data available"%string));
  (FILEIO_SYS_CAP_TAG + E_OVERFLOW, (FILEIO_SYS_CAP_TAG + E_OVERFLOW, "Value too large for defined data type"%string));
  (FILEIO_SYS_CAP_TAG + E_BADFD, (FILEIO_SYS_CAP_TAG + E_BADFD, "File descriptor in bad state"%string));
  (FILEIO_SYS_CAP_TAG + E_RESTART, (FILEIO_SYS_CAP_TAG + E_RESTART, "Interrupted system call should be restarted"%string));
  (FILEIO_SYS_CAP_TAG + E_DQUOT, (FILEIO_SYS_CAP_TAG + E_DQUOT, "Quota exceeded"%string));
  (FILEIO_SYS_CAP_TAG + E_UKERR, (FILEIO_SYS_CAP_TAG + E_UKERR, "Unknown error"%string));
  (FILEIO_SYS_CAP_TAG + E_NOLCK, (FILEIO_SYS_CAP_TAG + E_NOLCK, "No record locks available"%string));
  (FILEIO_SYS_CAP_TAG + E_NETUNREACH, (FILEIO_SYS_CAP_TAG + E_NETUNREACH, "Network is unreachable"%string));
  (FILEIO_SYS_CAP_TAG + E_CONNECTION_FAIL, (FILEIO_SYS_CAP_TAG + E_CONNECTION_FAIL, "Connection failed"%string));
  (FILEIO_SYS_CAP_TAG + E_CONNECTION_ABORT, (FILEIO_SYS_CAP_TAG + E_CONNECTION_ABORT, "Software caused connection abort"%string));
  (FILEIO_SYS_CAP_TAG + E_INTERN_RES, (FILEIO_SYS_CAP_TAG + E_INTERN_RES, "Internal resource error"%string));
  (FILEIO_SYS_CAP_TAG + E_MMAP_OOB, (FILEIO_SYS_CAP_TAG + E_MMAP_OOB, "Buffer read/write out of bounds"%string));
  (FILEIO_SYS_CAP_TAG + E_MMAP_FREE, (FILEIO_SYS_CAP_TAG + E_MMAP_FREE, "Mmap buffer released"%string));
  (FILEIO_SYS_CAP_TAG + E_MMAP_RO, (FILEIO_SYS_CAP_TAG + E_MMAP_RO, "Read-only mmap buffer"%string));
  (FILEIO_SYS_CAP_TAG + E_MMAP_ACCS, (FILEIO_SYS_CAP_TAG + E_MMAP_ACCS, "Mmap buffer is inaccessible"%string));
  (FILEIO_SYS_CAP_TAG + E_MMAP_UNSUP, (FILEIO_SYS_CAP_TAG + E_MMAP_UNSUP, "Mmap operation not supported"%string));
  (FILEIO_SYS_CAP_TAG + E_MMAP_FILE, (FILEIO_SYS_CAP_TAG + E_MMAP_FILE, "Mmap does not support mapping this file"%string))].

Definition errCodeTable_services : list (Z * (Z * string)) := [
  (USER_FILE_MANAGER_SYS_CAP_TAG + E_DISPLAYNAME, (USER_FILE_MANAGER_SYS_CAP_TAG + E_DISPLAYNAME, "Invalid display name"%string));
  (USER_FILE_MANAGER_SYS_CAP_TAG + E_URIM, (USER_FILE_MANAGER_SYS_CAP_TAG + E_URIM, "Invalid uri"%string));
  (USER_FILE_MANAGER_SYS_CAP_TAG + E_SUFFIX, (USER_FILE_MANAGER_SYS_CAP_TAG + E_SUFFIX, "Invalid file extension"%string));
  (USER_FILE_MANAGER_SYS_CAP_TAG + E_TRASH, (USER_FILE_MANAGER_SYS_CAP_TAG + E_TRASH, "File has been put into trash bin"%string));
  (USER_FILE_MANAGER_SYS_CAP_TAG + E_OPEN_MODE, (USER_FILE_MANAGER_SYS_CAP_TAG + E_OPEN_MODE, "Invalid open mode"%string));
  (USER_FILE_MANAGER_SYS_CAP_TAG + E_NOT_ALBUM, (USER_FILE_MANAGER_SYS_CAP_TAG + E_NOT_ALBUM, "The uri is not album"%string));
  (USER_FILE_MANAGER_SYS_CAP_TAG + E_ROOT_DIR, (USER_FILE_MANAGER_SYS_CAP_TAG + E_ROOT_DIR, "Invalid root dir"%string));
  (USER_FILE_MANAGER_SYS_CAP_TAG + E_MOVE_DENIED, (USER_FILE_MANAGER_SYS_CAP_TAG + E_MOVE_DENIED, "Failed to move as dir check failed"%string));
  (USER_FILE_MANAGER_SYS_CAP_TAG + E_RENAME_DENIED, (USER_FILE_MANAGER_SYS_CAP_TAG + E_RENAME_DENIED, "Failed to rename as dir check failed"%string));
  (USER_FILE_MANAGER_SYS_CAP_TAG + E_RELATIVEPATH, (USER_FILE_MANAGER_SYS_CAP_TAG + E_RELATIVEPATH, "Relative path not exist or invalid"%string));
  (USER_FILE_MANAGER_SYS_CAP_TAG + E_INNER_FAIL, (USER_FILE_MANAGER_SYS_CAP_TAG + E_INNER_FAIL, "MediaLibrary inner fail"%string));
  (USER_FILE_MANAGER_SYS_CAP_TAG + E_FILE_TYPE, (USER_FILE_MANAGER_SYS_CAP_TAG + E_FILE_TYPE, "File type is not allow in the directory"%string));
  (USER_FILE_MANAGER_SYS_CAP_TAG + E_FILE_KEY, (USER_FILE_MANAGER_SYS_CAP_TAG + E_FILE_KEY, "Member not exist"%string));
  (USER_FILE_MANAGER_SYS_CAP_TAG + E_INPUT, (USER_FILE_MANAGER_SYS_CAP_TAG + E_INPUT, "Wrong input parameter"%string));
  (STORAGE_SERVICE_SYS_CAP_TAG + E_IPCSS, (STORAGE_SERVICE_SYS_CAP_TAG + E_IPCSS, "IPC error"%string));
  (STORAGE_SERVICE_SYS_CAP_TAG + E_NOTSUPPORTEDFS, (STORAGE_SERVICE_SYS_CAP_TAG + E_NOTSUPPORTEDFS, "Not supported filesystem"%string));
  (STORAGE_SERVICE_SYS_CAP_TAG + E_MOUNT, (STORAGE_SERVICE_SYS_CAP_TAG + E_MOUNT, "Failed to mount"%string));
  (STORAGE_SERVICE_SYS_CAP_TAG + E_UNMOUNT, (STORAGE_SERVICE_SYS_CAP_TAG + E_UNMOUNT, "Failed to unmount"%string));
  (STORAGE_SERVICE_SYS_CAP_TAG + E_VOLUMESTATE, (STORAGE_SERVICE_SYS_CAP_TAG + E_VOLUMESTATE, "Incorrect volume state"%string));
  (STORAGE_SERVICE_SYS_CAP_TAG + E_PREPARE, (STORAGE_SERVICE_SYS_CAP_TAG + E_PREPARE, "Prepare directory or node error"%string));
  (STORAGE_SERVICE_SYS_CAP_TAG + E_DELETE, (STORAGE_SERVICE_SYS_CAP_TAG + E_DELETE, "Delete directory or node error"%string));
  (STORAGE_SERVICE_SYS_CAP_TAG + E_NOOBJECT, (STORAGE_SERVICE_SYS_CAP_TAG + E_NOOBJECT, "No such object"%string));
  (STORAGE_SERVICE_SYS_CAP_TAG + E_OUTOFRANGE, (STORAGE_SERVICE_SYS_CAP_TAG + E_OUTOFRANGE, "User id out of range"%string));
  (STORAGE_SERVICE_SYS_CAP_TAG + E_NOOBJECT, (STORAGE_SERVICE_SYS_CAP_TAG + E_NOOBJECT, "No such object"%string));
  (USER_FILE_SERVICE_SYS_CAP_TAG + E_IPCS, (USER_FILE_SERVICE_SYS_CAP_TAG + E_IPCS, "IPC error"%string));
  (USER_FILE_SERVICE_SYS_CAP_TAG + E_URIS, (USER_FILE_SERVICE_SYS_CAP_TAG + E_URIS, "Invalid uri"%string));
  (USER_FILE_SERVICE_SYS_CAP_TAG + E_GETINFO, (USER_FILE_SERVICE_SYS_CAP_TAG + E_GETINFO, "Fail to get fileextension info"%string));
  (USER_FILE_SERVICE_SYS_CAP_TAG + E_GETRESULT, (USER_FILE_SERVICE_SYS_CAP_TAG + E_GETRESULT, "Get wrong result"%string));
  (USER_FILE_SERVICE_SYS_CAP_TAG + E_REGISTER, (USER_FILE_SERVICE_SYS_CAP_TAG + E_REGISTER, "Fail to register notification"%string));
  (USER_FILE_SERVICE_SYS_CAP_TAG + E_REMOVE, (USER_FILE_SERVICE_SYS_CAP_TAG + E_REMOVE, "Fail to remove notification"%string));
  (USER_FILE_SERVICE_SYS_CAP_TAG + E_INIT, (USER_FILE_SERVICE_SYS_CAP_TAG + E_INIT, "Fail to init notification agent"%string));
  (USER_FILE_SERVICE_SYS_CAP_TAG + E_NOTIFY, (USER_FILE_SERVICE_SYS_CAP_TAG + E_NOTIFY, "Fail to notify agent"%string));
  (USER_FILE_SERVICE_SYS_CAP_TAG + E_CONNECT, (USER_FILE_SERVICE_SYS_CAP_TAG + E_CONNECT, "Fail to connect file access extension ability"%string));
  (USER_FILE_SERVICE_SYS_CAP_TAG + E_CALLBACK_AND_URI_HAS_NOT_RELATIONS, (USER_FILE_SERVICE_SYS_CAP_TAG + E_CALLBACK_AND_URI_HAS_NOT_RELATIONS, "The uri has no relationship with the callback and cannot be unregistered"%string));
  (USER_FILE_SERVICE_SYS_CAP_TAG + E_CALLBACK_IS_NOT_REGISTER, (USER_FILE_SERVICE_SYS_CAP_TAG + E_CALLBACK_IS_NOT_REGISTER, "Cannot unregister the callback that has not been registered"%string));
  (USER_FILE_SERVICE_SYS_CAP_TAG + E_CAN_NOT_FIND_URI, (USER_FILE_SERVICE_SYS_CAP_TAG + E_CAN_NOT_FIND_URI, "Can not find registered uri"%string));
  (USER_FILE_SERVICE_SYS_CAP_TAG + E_DO_NOT_HAVE_PARENT, (USER_FILE_SERVICE_SYS_CAP_TAG + E_DO_NOT_HAVE_PARENT, "Do not have parent uri"%string));
  (USER_FILE_SERVICE_SYS_CAP_TAG + E_LOAD_SA, (USER_FILE_SERVICE_SYS_CAP_TAG + E_LOAD_SA, "Fail to load system ability"%string));
  (USER_FILE_SERVICE_SYS_CAP_TAG + E_COUNT, (USER_FILE_SERVICE_SYS_CAP_TAG + E_COUNT, "Too many records"%string));
  ((E_PERMISSION : Z), ((E_PERMISSION : Z), "Permission verification failed"%string));
  ((E_PERMISSION_SYS : Z), ((E_PERMISSION_SYS : Z), "The caller is not a system application"%string));
  ((E_PARAMS : Z), ((E_PARAMS : Z), "The input parameter is invalid"%string));
  ((E_DEVICENOTSUPPORT : Z), ((E_DEVICENOTSUPPORT : Z), "The device doesn't support this api"%string));
  ((E_OSNOTSUPPORT : Z), ((E_OSNOTSUPPORT : Z), "The os doesn't support this api"%string));
  (DISTRIBUTEDFILE_SERVICE_SYS_CAP_TAG + E_CLOUD_NOT_READY, (DISTRIBUTEDFILE_SERVICE_SYS_CAP_TAG + E_CLOUD_NOT_READY, "Cloud status not ready"%string));
  (DISTRIBUTEDFILE_SERVICE_SYS_CAP_TAG + E_NETWORK_ERR, (DISTRIBUTEDFILE_SERVICE_SYS_CAP_TAG + E_NETWORK_ERR, "Network unavailable"%string));
  (DISTRIBUTEDFILE_SERVICE_SYS_CAP_TAG + E_BATTERY_WARNING, (DISTRIBUTEDFILE_SERVICE_SYS_CAP_TAG + E_BATTERY_WARNING, "Battery level warning"%string));
  (DISTRIBUTEDFILE_SERVICE_SYS_CAP_TAG + E_EXCEED_MAX_LIMIT, (DISTRIBUTEDFILE_SERVICE_SYS_CAP_TAG + E_EXCEED_MAX_LIMIT, "Exceed the maximum limit"%string));
  (DISTRIBUTEDFILE_SERVICE_SYS_CAP_TAG + E_DATABASE_FAILED, (DISTRIBUTEDFILE_SERVICE_SYS_CAP_TAG + E_DATABASE_FAILED, "Database operation failed"%string))].

(** An initialiser of [unordered_map] keeps the first pair of a key. *)
Definition errCodeTable : list (Z * (Z * string)) :=
  errCodeTable_errno ++ errCodeTable_fileio ++ errCodeTable_services.

Local Open Scope Z_scope.

(** ** FsError *)

(** [unordered_map::find] on a table given by its initialiser. *)
Definition find_first {K V} `{EqDecision K} (k : K) (t : list (K * V)) : option V :=
  snd <$> List.find (λ e, bool_decide (e.1 = k)) t.

Lemma find_first_Some {K V} `{EqDecision K} (k : K) (t : list (K * V)) v :
  find_first k t = Some v → (k, v) ∈ t.
Proof.
  unfold find_first. rewrite fmap_Some. intros [[k' v'] [Hf ->]].
  apply List.find_some in Hf as [Hin Hk]. apply bool_decide_eq_true in Hk. cbn in Hk.
  subst. by apply list_elem_of_In.
Qed.

(** The two members of [class FsError]. *)
Record fs_error := FsErr { errno_ : Z; errMsg_ : string }.

Section fs_error.
Context (uv_err_name : Z → string).

Definition ConvertUVCode2ErrCode (errCode : Z) : Z :=
  if decide (errCode >= 0) then errCode
  else
    let uvCode := uv_err_name errCode in
    match find_first uvCode uvCode2ErrCodeTable with
    | Some c => c
    | None => NO_ERR_MSG_ERR
    end.

(** [errCodeTable.at(UNKNOWN_ERR)]; [at] throws when the key is missing. *)
Definition unknown_error : option (Z * string) := find_first UNKNOWN_ERR errCodeTable.

(** The constructors; [None] is the exception of [at]. *)
Definition FsError_code (errCode : Z) : option fs_error :=
  let genericCode := ConvertUVCode2ErrCode errCode in
  match find_first genericCode errCodeTable with
  | Some (c, m) => Some (FsErr c m)
  | None =>
      match unknown_error with
      | Some (c, m) => Some (FsErr c (m +:+ " Internal errno is "%string +:+ pretty (Z.abs errCode)))
      | None => None
      end
  end.

Definition FsError_msg (errCode : Z) (errMsg : string) : option fs_error :=
  let genericCode := ConvertUVCode2ErrCode errCode in
  match find_first genericCode errCodeTable with
  | Some (c, _) => Some (FsErr c errMsg)
  | None =>
      match unknown_error with
      | Some (c, _) => Some (FsErr c errMsg)
      | None => None
      end
  end.

Definition GetErrNo (e : fs_error) : Z := errno_ e.
Definition GetErrMsg (e : fs_error) : string := errMsg_ e.
Definition operator_bool (e : fs_error) : bool := negb (errno_ e =? ERRNO_NOERR).

(** The codes about cancelling a task. *)
Definition cancellation_codes : list Z :=
  [FILEIO_SYS_CAP_TAG + E_NOTASK; FILEIO_SYS_CAP_TAG + E_UNCANCELED;
   FILEIO_SYS_CAP_TAG + E_CANCELED].

(** *** Lemmas *)

(** A property of every entry of a table, decided by running through it. *)
Lemma find_first_all {K V} `{EqDecision K} (P : K * V → bool) (t : list (K * V)) k v :
  forallb P t = true → find_first k t = Some v → P (k, v) = true.
Proof.
  intros HP Hf. rewrite List.forallb_forall in HP. apply HP.
  by apply list_elem_of_In, find_first_Some.
Qed.

Lemma unknown_error_eq :
  unknown_error = Some (FILEIO_SYS_CAP_TAG + E_UKERR, "Unknown error"%string).
Proof. vm_compute. done. Qed.

(** Every generic code is an errno value or the one of a missing message. *)
Lemma Convert_range errCode :
  0 <= ConvertUVCode2ErrCode errCode ∨ ConvertUVCode2ErrCode errCode = NO_ERR_MSG_ERR.
Proof.
  unfold ConvertUVCode2ErrCode. case_decide; [lia|]. case_match eqn:Hf; [|by right].
  apply (find_first_all (λ e, 0 <=? e.2)) in Hf; [cbn in Hf; lia|by vm_compute].
Qed.

Lemma Convert_zero errCode : ConvertUVCode2ErrCode errCode = 0 ↔ errCode = 0.
Proof.
  unfold ConvertUVCode2ErrCode. case_decide; [done|]. split; [|lia].
  case_match eqn:Hf; [|done].
  apply (find_first_all (λ e, negb (e.2 =? 0))) in Hf; [cbn in Hf; zbool; lia|by vm_compute].
Qed.

(** The code a constructor ends up with. *)
Definition final_code (errCode : Z) : Z :=
  match find_first (ConvertUVCode2ErrCode errCode) errCodeTable with
  | Some (c, _) => c
  | None => FILEIO_SYS_CAP_TAG + E_UKERR
  end.

Lemma FsError_code_errno errCode :
  ∃ m, FsError_code errCode = Some (FsErr (final_code errCode) m).
Proof.
  unfold FsError_code, final_code. rewrite unknown_error_eq.
  case_match; [case_match|]; eauto.
Qed.

Lemma FsError_msg_errno errCode m :
  FsError_msg errCode m = Some (FsErr (final_code errCode) m).
Proof.
  unfold FsError_msg, final_code. rewrite unknown_error_eq. by repeat case_match.
Qed.

(** A check of the entries that lookups of generic codes can reach. *)
Lemma final_code_all (P : Z → Z → bool) errCode :
  forallb (λ '(k, (c, _)), (k <? 0) && negb (k =? NO_ERR_MSG_ERR) || P k c) errCodeTable = true →
  (∀ k, find_first k errCodeTable = None → P k (FILEIO_SYS_CAP_TAG + E_UKERR) = true) →
  P (ConvertUVCode2ErrCode errCode) (final_code errCode) = true.
Proof.
  intros HP Hn. unfold final_code.
  destruct (find_first _ errCodeTable) as [[c m]|] eqn:Hf; [|by apply Hn].
  apply (find_first_all _ _ _ _ HP) in Hf. cbn in Hf.
  apply orb_true_iff in Hf as [Hf|Hf]; [|done].
  apply andb_true_iff in Hf as [H1 H2]. zbool.
  destruct (Convert_range errCode); [lia|done].
Qed.

(** ** Properties *)

(** Constructing an error never throws, the two constructors agree on the
    code, and the error is set exactly when the code given is not zero; a
    negative code libuv names after an errno value gives the error of that errno
    value. *)
Theorem fs_error_classifies (errCode : Z) (msg : string) :
  ∃ e e', FsError_code errCode = Some e ∧ FsError_msg errCode msg = Some e' ∧
    GetErrNo e' = GetErrNo e ∧ GetErrMsg e' = msg ∧
    operator_bool e = bool_decide (errCode ≠ 0) ∧
    (∀ v, errCode < 0 → find_first (uv_err_name errCode) uvCode2ErrCodeTable = Some v →
      FsError_code v = Some e).
Proof.
  destruct (FsError_code_errno errCode) as [m Hm].
  eexists _, _. split_and!; [exact Hm|apply FsError_msg_errno|done|done| |].
  - unfold operator_bool, ERRNO_NOERR; cbn [errno_].
    unshelve epose proof (final_code_all (λ k c, Bool.eqb (k =? 0) (c =? 0)) errCode _ _) as H; [by vm_compute| |].
    { intros k Hk. cbv beta. destruct (k =? 0) eqn:E; [|by vm_compute]. zbool. subst. by vm_compute in Hk. }
    apply Bool.eqb_prop in H. rewrite <- H.
    pose proof (Convert_zero errCode) as Hz.
    case_bool_decide; [apply negb_true_iff, Z.eqb_neq|apply negb_false_iff, Z.eqb_eq]; tauto.
  - intros v Hneg Hv. rewrite <- Hm. unfold FsError_code.
    assert (ConvertUVCode2ErrCode errCode = v) as ->.
    { unfold ConvertUVCode2ErrCode. rewrite Hv. case_decide; [lia|done]. }
    apply (find_first_all (λ e, (0 <=? e.2) &&
      match find_first e.2 errCodeTable with Some _ => true | None => false end)%bool) in Hv;
      [|by vm_compute]. cbn [snd] in Hv. apply andb_true_iff in Hv as [H0 Hin].
    unfold ConvertUVCode2ErrCode. zbool. rewrite decide_True by lia.
    by destruct (find_first v errCodeTable).
Qed.

(** An error code given to [FsError] again stays the same code, except for
    the three codes of task cancellation, which have no entry of their own and
    become the unknown error. *)
Theorem fs_error_rewrap (errCode : Z) (e : fs_error) :
  FsError_code errCode = Some e →
  ∃ e', FsError_code (GetErrNo e) = Some e' ∧
    GetErrNo e' =
      (if bool_decide (GetErrNo e ∈ cancellation_codes)
       then FILEIO_SYS_CAP_TAG + E_UKERR else GetErrNo e).
Proof.
  intros He. destruct (FsError_code_errno errCode) as [m Hm].
  rewrite Hm in He. injection He as <-. cbn [GetErrNo errno_].
  destruct (FsError_code_errno (final_code errCode)) as [m' Hm'].
  eexists. split; [exact Hm'|]. cbn [GetErrNo errno_].
  set (want := λ c : Z, if bool_decide (c ∈ cancellation_codes)
    then FILEIO_SYS_CAP_TAG + E_UKERR else c).
  assert (∀ c, 0 <= c → final_code c =
    match find_first c errCodeTable with
    | Some (d, _) => d | None => FILEIO_SYS_CAP_TAG + E_UKERR end) as Hpos.
  { intros c Hc. unfold final_code, ConvertUVCode2ErrCode. by rewrite decide_True by lia. }
  unshelve epose proof (final_code_all (λ _ c, (0 <=? c) && (match find_first c errCodeTable with
    | Some (d, _) => d | None => FILEIO_SYS_CAP_TAG + E_UKERR end =? want c)) errCode _ _) as H; [by vm_compute|by intros; vm_compute|].
  apply andb_true_iff in H as [H0 H]. zbool. by rewrite Hpos.
Qed.

(** The codes for a missing task and for a failed cancellation cannot be
    reported: whatever libuv's names are, no code makes an [FsError] with
    either, although the table has entries for [NO_TASK_ERR] and [CANCEL_ERR]. *)
Theorem cancel_failures_unreportable (errCode : Z) :
  is_Some (find_first NO_TASK_ERR errCodeTable) ∧ is_Some (find_first CANCEL_ERR errCodeTable) ∧
  (GetErrNo <$> FsError_code errCode ≠ Some (FILEIO_SYS_CAP_TAG + E_NOTASK)) ∧
  (GetErrNo <$> FsError_code errCode ≠ Some (FILEIO_SYS_CAP_TAG + E_UNCANCELED)).
Proof.
  do 2 (split; [apply not_eq_None_Some; by vm_compute|]).
  destruct (FsError_code_errno errCode) as [m ->]. cbn [fmap option_fmap option_map GetErrNo errno_].
  unshelve epose proof (final_code_all (λ _ c, negb (c =? FILEIO_SYS_CAP_TAG + E_NOTASK) &&
    negb (c =? FILEIO_SYS_CAP_TAG + E_UNCANCELED)) errCode _ _) as H; [by vm_compute|by intros; vm_compute|].
  apply andb_true_iff in H as [H1 H2]. zbool. split; congruence.
Qed.
End fs_error.

(** *** Witnesses *)

(** libuv's names of the first three errno values. *)
Definition sample_names (e : Z) : string :=
  match e with
  | -1 => "EPERM" | -2 => "ENOENT" | -3 => "ESRCH" | _ => "Unknown system error"
  end%string.

Lemma fs_error_rewrap_witness :
  ∃ e, FsError_code sample_names (-2) = Some e ∧ GetErrNo e = 13900002 ∧
  ∃ e', FsError_code sample_names 13900002 = Some e' ∧ GetErrNo e' = 13900002.
Proof.
  exists (FsErr 13900002 "No such file or directory"). split; [by vm_compute|]. split; [done|].
  exact (fs_error_rewrap sample_names (-2) _ eq_refl).
Defined.

Lemma fs_error_classifies_witness :
  ∃ e, FsError_code sample_names (-1) = Some e ∧ FsError_code sample_names Errno.EPERM = Some e.
Proof.
  destruct (fs_error_classifies sample_names (-1) "") as (e & _ & He & _ & _ & _ & _ & Hv).
  exists e. split; [exact He|]. apply Hv; [lia|by vm_compute].
Defined.
