(* ===== verification/Anonymize.v ===== *)
(** * Anonymising names and paths for messages

    Models the path-hiding half of [n_error.cpp]: UTF-8 scanning
    ([Utf8CharLen] .. [TruncateToBytes]), [AnonymizeName] and [AnonymizePath].
    A [std::string] is the list of its bytes (each a [Z] below 256) and a
    [size_t] index is a [nat]: every index stays below the length of a string
    plus four.  The loops that advance by a computed character length run on
    fuel equal to the bytes left, which is enough because every character is
    at least one byte long ([Utf8CharsNum_fuel], [Truncate_fuel]). *)

From S2P Require Import Prelude.

Local Open Scope nat_scope.

Definition NAME_THRESH_LONG : nat := 6.
Definition NAME_THRESH_MID : nat := 4.
Definition NAME_THRESH_SHORT : nat := 2.
Definition SHOW_FIRST_LONG : nat := 2.
Definition SHOW_LAST_LONG : nat := 1.
Definition SHOW_FIRST_MID : nat := 1.
Definition SHOW_LAST_MID : nat := 1.
Definition SHOW_FIRST_SHORT : nat := 1.
Definition ANON_CHAR : Z := 42.
Definition SUFFIX_LEN : nat := 3.
Definition PATH_MAX_LEN : nat := 4096.
Definition NAME_MAX_LEN : nat := 256.
Definition CHAR_LEN_1BYTE : nat := 1.
Definition CHAR_LEN_2BYTE : nat := 2.
Definition CHAR_LEN_3BYTE : nat := 3.
Definition CHAR_LEN_4BYTE : nat := 4.

#[global] Arguments PATH_MAX_LEN : simpl never.
#[global] Arguments NAME_MAX_LEN : simpl never.

Abbreviation bytes := (list Z).
Abbreviation SLASH := 47%Z.
Abbreviation DOT := 46%Z.
Abbreviation COLON := 58%Z.

(** [s[i]]; [std::string] holds a NUL at index [size()]. *)
Definition at_ (s : bytes) (i : nat) : Z := s !!! i.

(** [s.substr(pos, n)]. *)
Definition substr (s : bytes) (pos n : nat) : bytes := take n (drop pos s).

(** ** UTF-8 scanning *)

Definition Utf8CharLen (lead : Z) : nat :=
  if (lead <? 0x80)%Z then CHAR_LEN_1BYTE
  else if (Z.land lead 0xE0 =? 0xC0)%Z then CHAR_LEN_2BYTE
  else if (Z.land lead 0xF0 =? 0xE0)%Z then CHAR_LEN_3BYTE
  else if (Z.land lead 0xF8 =? 0xF0)%Z then CHAR_LEN_4BYTE
  else CHAR_LEN_1BYTE.

Fixpoint Utf8CharsNum_loop (fuel : nat) (s : bytes) (i count : nat) : nat :=
  match fuel with
  | 0 => count
  | S fuel =>
      if i <? length s
      then Utf8CharsNum_loop fuel s (i + Utf8CharLen (at_ s i)) (S count)
      else count
  end.

Definition Utf8CharsNum (s : bytes) : nat := Utf8CharsNum_loop (length s) s 0 0.

(** The loop over [c < n]; returns the final [i]. *)
Fixpoint Utf8FirstN_loop (n : nat) (s : bytes) (i : nat) : nat :=
  match n with
  | 0 => i
  | S n => if i <? length s then Utf8FirstN_loop n s (i + Utf8CharLen (at_ s i)) else i
  end.

Definition Utf8FirstN (s : bytes) (n : nat) : bytes := substr s 0 (Utf8FirstN_loop n s 0).

Definition is_cont (b : Z) : bool := (Z.land b 0xC0 =? 0x80)%Z.

(** [while (end > 0 && is_cont(s[end])) end--;] *)
Fixpoint skip_back (s : bytes) (end_ : nat) : nat :=
  match end_ with
  | 0 => 0
  | S e => if is_cont (at_ s end_) then skip_back s e else end_
  end.

Fixpoint Utf8LastN_loop (n : nat) (s : bytes) (end_ : nat) : nat :=
  match n with
  | 0 => end_
  | S n => if 0 <? end_ then Utf8LastN_loop n s (skip_back s (end_ - 1)) else end_
  end.

Definition Utf8LastN (s : bytes) (n : nat) : bytes := drop (Utf8LastN_loop n s (length s)) s.

Fixpoint TruncateToBytes_loop (fuel : nat) (s : bytes) (maxBytes i : nat) : nat :=
  match fuel with
  | 0 => i
  | S fuel =>
      if i <? length s then
        let charLen := Utf8CharLen (at_ s i) in
        if maxBytes <? i + charLen then i
        else TruncateToBytes_loop fuel s maxBytes (i + charLen)
      else i
  end.

Definition TruncateToBytes (s : bytes) (maxBytes : nat) : bytes :=
  if length s <=? maxBytes then s
  else substr s 0 (TruncateToBytes_loop (length s) s maxBytes 0).

(** ** Names and paths *)

Definition stars (n : nat) : bytes := replicate n ANON_CHAR.

Definition AnonymizeName (name : bytes) : bytes :=
  let len := Utf8CharsNum name in
  if NAME_THRESH_LONG <=? len then
    Utf8FirstN name SHOW_FIRST_LONG
      ++ stars (len - SHOW_FIRST_LONG - SHOW_LAST_LONG)
      ++ Utf8LastN name SHOW_LAST_LONG
  else if NAME_THRESH_MID <=? len then
    Utf8FirstN name SHOW_FIRST_MID
      ++ stars (len - SHOW_FIRST_MID - SHOW_LAST_MID)
      ++ Utf8LastN name SHOW_LAST_MID
  else if NAME_THRESH_SHORT <=? len then
    Utf8FirstN name SHOW_FIRST_SHORT ++ stars (len - SHOW_FIRST_SHORT)
  else if len =? 1 then stars 1
  else name.

(** [std::string::find] of a string; the first position it starts at. *)
Fixpoint find_str (pat s : bytes) (i : nat) : option nat :=
  if decide (take (length pat) s = pat) then Some i
  else match s with [] => None | _ :: s => find_str pat s (S i) end.

(** [rfind] of one character. *)
Definition rfind_char (c : Z) (s : bytes) : option nat :=
  (λ i, length s - 1 - i) <$> (fst <$> list_find (eq c) (reverse s)).

(** The loop [for (i = 0; i <= rest.size(); i++)] that cuts at ['/']; the list
    holds the values [i] takes. *)
Fixpoint split_loop (is_ : list nat) (rest : bytes) (start : nat) (parts : list bytes)
    : list bytes :=
  match is_ with
  | [] => parts
  | i :: is_ =>
      if (i =? length rest) || (at_ rest i =? SLASH)%Z
      then split_loop is_ rest (i + 1) (parts ++ [substr rest start (i - start)])
      else split_loop is_ rest start parts
  end.

Definition split_parts (rest : bytes) : list bytes :=
  split_loop (seq 0 (S (length rest))) rest 0 [].

(** What the loop over the parts appends for one part. *)
Definition anonymize_part (part : bytes) (isLast : bool) : bytes :=
  let p := TruncateToBytes part NAME_MAX_LEN in
  match rfind_char DOT p with
  | Some dot =>
      if isLast then
        let before := substr p 0 dot in
        let after := drop (dot + 1) p in
        (if decide (before = []) then [] else AnonymizeName before)
          ++ [DOT] ++ AnonymizeName after
      else AnonymizeName p
  | None => AnonymizeName p
  end.

Fixpoint anonymize_parts (i n : nat) (parts : list bytes) (result : bytes) : bytes :=
  match parts with
  | [] => result
  | p :: parts =>
      let result := if 0 <? i then result ++ [SLASH] else result in
      let isLast := i =? n - 1 in
      anonymize_parts (S i) n parts (result ++ anonymize_part p isLast)
  end.

Definition AnonymizePath (path : bytes) : bytes :=
  if decide (path = []) then []
  else
    let input := TruncateToBytes path PATH_MAX_LEN in
    let '(prefix, rest) :=
      match find_str [COLON; SLASH; SLASH] input 0 with
      | Some pos => (substr input 0 (pos + SUFFIX_LEN), drop (pos + SUFFIX_LEN) input)
      | None => ([], input)
      end in
    let parts := split_parts rest in
    anonymize_parts 0 (length parts) parts prefix.

(** ** Well-formed text

    A character is a byte that does not continue another one, followed by as
    many continuation bytes as it announces.  Every valid UTF-8 string is a
    sequence of such characters. *)
Definition wf_char (c : bytes) : Prop :=
  ∃ lead conts, c = lead :: conts ∧ is_cont lead = false ∧
    length c = Utf8CharLen lead ∧ Forall (λ b, is_cont b = true) conts.

Lemma CharLen_pos b : 1 <= Utf8CharLen b.
Proof. unfold Utf8CharLen. repeat case_match; cbv; lia. Qed.

Lemma at_app_r (a b : bytes) k : at_ (a ++ b) (length a + k) = at_ b k.
Proof.
  unfold at_. rewrite !list_lookup_total_alt, lookup_app_r by lia. do 3 f_equal. lia.
Qed.

Lemma at_app_0 (a b : bytes) : at_ (a ++ b) (length a) = at_ b 0.
Proof. rewrite <- (at_app_r a b 0). f_equal. lia. Qed.

Section wf.
Context (cs : list bytes) (Hcs : Forall wf_char cs).

Lemma at_char pre c post :
  cs = pre ++ c :: post → Utf8CharLen (at_ (concat cs) (length (concat pre))) = length c
    ∧ length (concat pre) < length (concat cs).
Proof using Hcs.
  intros ->. apply Forall_app in Hcs as [_ Hc].
  apply Forall_cons in Hc as [(lead & conts & -> & _ & Hl & _) _].
  rewrite concat_app, at_app_0. cbn -[length]. split; [done|].
  rewrite length_app. cbn. lia.
Qed.

Lemma CharsNum_chars fuel pre post k :
  cs = pre ++ post → length (concat post) <= fuel →
  Utf8CharsNum_loop fuel (concat cs) (length (concat pre)) k = k + length post.
Proof using Hcs.
  revert pre post k. induction fuel as [|fuel IH]; intros pre post k Heq Hf; destruct post as [|c post].
  - cbn. lia.
  - destruct (at_char _ _ _ Heq) as [_ Hlt]. exfalso. rewrite Heq in Hlt.
    rewrite concat_app, length_app in Hlt. lia.
  - cbn [Utf8CharsNum_loop length]. rewrite Heq, app_nil_r.
    destruct (Nat.ltb_spec (length (concat pre)) (length (concat pre))); lia.
  - destruct (at_char _ _ _ Heq) as [Hc Hlt]. cbn [Utf8CharsNum_loop]. rewrite Hc.
    apply Nat.ltb_lt in Hlt as ->.
    assert (length (concat pre) + length c = length (concat (pre ++ [c]))) as ->.
    { rewrite concat_app, length_app. cbn. rewrite app_nil_r. lia. }
    rewrite IH with (post := post); cbn [length]; [lia| |].
    + by rewrite <- app_assoc.
    + cbn in Hf. rewrite length_app in Hf. pose proof (CharLen_pos (at_ (concat cs) (length (concat pre)))). lia.
Qed.

Lemma FirstN_chars n pre post :
  cs = pre ++ post →
  Utf8FirstN_loop n (concat cs) (length (concat pre)) = length (concat (pre ++ take n post)).
Proof using Hcs.
  revert pre post. induction n as [|n IH]; intros pre post Heq.
  { cbn. by rewrite app_nil_r. }
  cbn [Utf8FirstN_loop]. destruct post as [|c post].
  - rewrite take_nil, app_nil_r. rewrite Heq, app_nil_r. by rewrite Nat.ltb_irrefl.
  - destruct (at_char _ _ _ Heq) as [Hc Hlt]. rewrite Hc. apply Nat.ltb_lt in Hlt as ->.
    assert (length (concat pre) + length c = length (concat (pre ++ [c]))) as ->.
    { rewrite concat_app, length_app. cbn. rewrite app_nil_r. lia. }
    rewrite IH with (post := post); [|by rewrite <- app_assoc].
    by rewrite <- app_assoc.
Qed.

Lemma Truncate_chars fuel pre post maxBytes :
  cs = pre ++ post → length (concat post) <= fuel → length (concat pre) <= maxBytes →
  ∃ k, TruncateToBytes_loop fuel (concat cs) maxBytes (length (concat pre)) =
         length (concat (pre ++ take k post)) ∧
    length (concat (pre ++ take k post)) <= maxBytes ∧
    (∀ c, post !! k = Some c → maxBytes < length (concat (pre ++ take (S k) post))).
Proof using Hcs.
  revert pre post. induction fuel as [|fuel IH]; intros pre post Heq Hf Hm; destruct post as [|c post].
  - exists 0. cbn. rewrite app_nil_r. done.
  - destruct (at_char _ _ _ Heq) as [_ Hlt]. exfalso. rewrite Heq in Hlt.
    rewrite concat_app, length_app in Hlt. lia.
  - exists 0. cbn [TruncateToBytes_loop take]. rewrite Heq, app_nil_r, Nat.ltb_irrefl. done.
  - destruct (at_char _ _ _ Heq) as [Hc Hlt]. cbn [TruncateToBytes_loop]. rewrite Hc.
    apply Nat.ltb_lt in Hlt as ->.
    assert (length (concat pre) + length c = length (concat (pre ++ [c]))) as ->.
    { rewrite concat_app, length_app. cbn. rewrite app_nil_r. lia. }
    destruct (Nat.ltb_spec maxBytes (length (concat (pre ++ [c])))) as [Hgt|Hle].
    + exists 0. cbn [take]. rewrite app_nil_r. split_and!; [done|lia|]. intros ? _. exact Hgt.
    + destruct (IH (pre ++ [c]) post) as (k & H1 & H2 & H3); [by rewrite <- app_assoc| |lia|].
      { cbn in Hf. rewrite length_app in Hf.
        pose proof (CharLen_pos (at_ (concat cs) (length (concat pre)))). lia. }
      exists (S k). cbn [take lookup list_lookup].
      rewrite <- !app_assoc in *. split_and!; [done|done|]. intros c' Hc'.
      specialize (H3 c' Hc'). exact H3.
Qed.
End wf.

(** ** Fuel: one unit per byte left is enough, on any bytes *)

Lemma Utf8CharsNum_fuel f1 f2 s i k :
  length s - i <= f1 → length s - i <= f2 →
  Utf8CharsNum_loop f1 s i k = Utf8CharsNum_loop f2 s i k.
Proof.
  revert f2 i k. induction f1 as [|f1 IH]; intros [|f2] i k H1 H2; cbn [Utf8CharsNum_loop];
    try done; destruct (Nat.ltb_spec i (length s)); try done; try lia.
  pose proof (CharLen_pos (at_ s i)). apply IH; lia.
Qed.

Lemma Truncate_fuel f1 f2 s n i :
  length s - i <= f1 → length s - i <= f2 →
  TruncateToBytes_loop f1 s n i = TruncateToBytes_loop f2 s n i.
Proof.
  revert f2 i. induction f1 as [|f1 IH]; intros [|f2] i H1 H2; cbn [TruncateToBytes_loop];
    try done; destruct (Nat.ltb_spec i (length s)); try done; try lia.
  pose proof (CharLen_pos (at_ s i)). case_match; [done|]. apply IH; lia.
Qed.

(** ** Scanning backwards *)

Lemma skip_back_conts A lead conts B k :
  is_cont lead = false → Forall (λ b, is_cont b = true) conts → k <= length conts →
  skip_back (A ++ lead :: conts ++ B) (length A + k) = length A.
Proof.
  intros Hl Hc. induction k as [|k IH]; intros Hk.
  - rewrite Nat.add_0_r. destruct (length A) eqn:E; [done|]. cbn [skip_back].
    rewrite <- E, at_app_0. cbn. by rewrite Hl.
  - rewrite Nat.add_succ_r. cbn [skip_back].
    rewrite <- Nat.add_succ_r, at_app_r. unfold at_.
    destruct (lookup_lt_is_Some_2 conts k) as [b Hb]; [lia|].
    rewrite (list_lookup_total_correct _ _ b) by (cbn; by apply lookup_app_l_Some).
    rewrite Forall_lookup in Hc. rewrite (Hc _ _ Hb). apply IH. lia.
Qed.

Lemma LastN_chars n cs B :
  Forall wf_char cs →
  Utf8LastN_loop n (concat cs ++ B) (length (concat cs))
  = length (concat (take (length cs - n) cs)).
Proof.
  revert cs B. induction n as [|n IH]; intros cs B Hcs.
  { by rewrite Nat.sub_0_r, firstn_all. }
  cbn [Utf8LastN_loop]. destruct cs as [|c cs _] using rev_ind; [done|].
  apply Forall_app in Hcs as [Hcs Hc]. apply Forall_cons in Hc as [Hc _].
  destruct Hc as (lead & conts & -> & Hl & Hlen & Hconts).
  rewrite concat_app, !length_app. cbn [concat length]. rewrite app_nil_r. cbn [length].
  destruct (Nat.ltb_spec 0 (length (concat cs) + S (length conts))) as [_|]; [|lia].
  replace (length (concat cs) + S (length conts) - 1) with (length (concat cs) + length conts) by lia.
  rewrite <- app_assoc. cbn [app]. rewrite skip_back_conts by (done || lia).
  rewrite IH by done. rewrite take_app_le by lia. do 3 f_equal. lia.
Qed.

Lemma drop_concat k (cs : list bytes) :
  drop (length (concat (take k cs))) (concat cs) = concat (drop k cs).
Proof. rewrite <- (take_drop k cs) at 2. rewrite concat_app. apply drop_app_length. Qed.

Lemma take_concat k (cs : list bytes) :
  take (length (concat (take k cs))) (concat cs) = concat (take k cs).
Proof. rewrite <- (take_drop k cs) at 2. rewrite concat_app. apply take_app_length. Qed.

Section wf_strings.
Context (cs : list bytes) (Hcs : Forall wf_char cs).

Lemma CharsNum_wf : Utf8CharsNum (concat cs) = length cs.
Proof using Hcs. exact (CharsNum_chars cs Hcs _ [] cs 0 eq_refl (le_n _)). Qed.

Lemma FirstN_wf n : Utf8FirstN (concat cs) n = concat (take n cs).
Proof using Hcs.
  unfold Utf8FirstN, substr. rewrite drop_0.
  pose proof (FirstN_chars cs Hcs n [] cs eq_refl) as H. cbn [concat length app] in H.
  rewrite H. apply take_concat.
Qed.

Lemma LastN_wf n : Utf8LastN (concat cs) n = concat (drop (length cs - n) cs).
Proof using Hcs.
  unfold Utf8LastN. pose proof (LastN_chars n cs [] Hcs) as H. rewrite app_nil_r in H.
  rewrite H. apply drop_concat.
Qed.
End wf_strings.

(** ** Reference: masking a list of characters *)

(** How many characters of a name of [n] characters show at each end. *)
Definition shown (n : nat) : nat * nat :=
  if 6 <=? n then (2, 1) else if 4 <=? n then (1, 1) else if 2 <=? n then (1, 0) else (0, 0).

Definition mask (cs : list bytes) : list bytes :=
  let '(f, l) := shown (length cs) in
  take f cs ++ replicate (length cs - f - l) [ANON_CHAR] ++ drop (length cs - l) cs.

Lemma mask_length cs : length (mask cs) = length cs.
Proof.
  unfold mask, shown. repeat case_match; simplify_eq; zbool;
    rewrite !length_app, length_take, length_replicate, length_drop;
    repeat match goal with H : (_ <=? _) = _ |- _ =>
      first [apply Nat.leb_le in H|apply Nat.leb_gt in H] end; lia.
Qed.

Lemma concat_stars n : concat (replicate n [ANON_CHAR]) = stars n.
Proof. induction n as [|n IH]; [done|]. cbn [replicate concat]. by rewrite IH. Qed.

Lemma star_wf : wf_char [ANON_CHAR].
Proof. exists ANON_CHAR, []. by split_and!. Qed.

Lemma mask_wf cs : Forall wf_char cs → Forall wf_char (mask cs).
Proof.
  intros H. unfold mask. destruct (shown _) as [f l].
  rewrite !Forall_app. split_and!; [by apply Forall_take| |by apply Forall_drop].
  apply Forall_replicate, star_wf.
Qed.

Lemma mask_idem cs : mask (mask cs) = mask cs.
Proof.
  unfold mask at 1. rewrite mask_length. unfold mask. destruct (shown (length cs)) as [f l] eqn:E.
  assert (f + l <= length cs).
  { unfold shown in E. repeat case_match; simplify_eq;
      repeat match goal with H : (_ <=? _) = _ |- _ => apply Nat.leb_le in H end; lia. }
  assert (length (take f cs) = f) as Hf by (rewrite length_take; lia).
  rewrite take_app_le, take_ge by lia. f_equal. f_equal.
  rewrite app_assoc, drop_app_ge by (rewrite length_app, length_replicate; lia).
  rewrite length_app, length_replicate, Hf.
  replace (length cs - l - (f + (length cs - f - l))) with 0 by lia. apply drop_0.
Qed.

Lemma AnonymizeName_mask cs :
  Forall wf_char cs → AnonymizeName (concat cs) = concat (mask cs).
Proof.
  intros Hcs. unfold AnonymizeName, mask, shown. rewrite CharsNum_wf by done.
  unfold NAME_THRESH_LONG, NAME_THRESH_MID, NAME_THRESH_SHORT.
  repeat case_match; simplify_eq; rewrite ?FirstN_wf, ?LastN_wf by done;
    rewrite !concat_app, concat_stars; try done.
  - by rewrite !Nat.sub_0_r, drop_all, app_nil_r.
  - destruct cs as [|c [|]]; try done.
  - destruct cs as [|c [|]]; done.
Qed.

(** ** Cutting a path into parts *)

(** Parts joined by ['/']. *)
Fixpoint join (ps : list bytes) : bytes :=
  match ps with
  | [] => []
  | [p] => p
  | p :: ps => p ++ [SLASH] ++ join ps
  end.

Lemma join_cons p q ps : join (p :: q :: ps) = p ++ [SLASH] ++ join (q :: ps).
Proof. done. Qed.

Lemma at_lookup s i b : s !! i = Some b → at_ s i = b.
Proof. apply list_lookup_total_correct. Qed.

(** Inside a part without ['/'] the loop only advances. *)
Lemma split_skip rest pre p post n is_ parts :
  rest = pre ++ p ++ post → SLASH ∉ p → n <= length p →
  split_loop (seq (length pre + (length p - n)) n ++ is_) rest (length pre) parts
  = split_loop is_ rest (length pre) parts.
Proof.
  intros -> Hp. induction n as [|n IH]; intros Hn; [done|]. cbn [seq app split_loop].
  destruct (lookup_lt_is_Some_2 p (length p - S n)) as [b Hb]; [lia|].
  assert (b ≠ SLASH) as Hne by (intros ->; apply Hp; eapply list_elem_of_lookup_2; eauto).
  rewrite at_app_r, (at_lookup _ _ b) by (by apply lookup_app_l_Some).
  apply Z.eqb_neq in Hne as ->. rewrite orb_false_r.
  destruct (Nat.eqb_spec (length pre + (length p - S n)) (length (pre ++ p ++ post))) as [He|_].
  { rewrite !length_app in He. lia. }
  replace (S (length pre + (length p - S n))) with (length pre + (length p - n)) by lia.
  apply IH. lia.
Qed.

Lemma split_join ps rest pre parts :
  ps ≠ [] → rest = pre ++ join ps → (∀ p, p ∈ ps → SLASH ∉ p) →
  split_loop (seq (length pre) (S (length (join ps)))) rest (length pre) parts = parts ++ ps.
Proof.
  revert pre parts. induction ps as [|p ps IH]; intros pre parts Hne Heq Hps; [done|].
  assert (SLASH ∉ p) as Hp by (apply Hps; left).
  destruct ps as [|q ps].
  - cbn [join] in *. rewrite seq_S. 
    pose proof (split_skip rest pre p [] (length p) [length pre + length p] parts) as H.
    rewrite Nat.sub_diag, Nat.add_0_r in H. rewrite H by (done || by rewrite app_nil_r).
    cbn [split_loop]. subst rest. rewrite length_app, Nat.eqb_refl. cbn [orb].
    unfold substr. rewrite drop_app_length, take_ge by lia. done.
  - rewrite join_cons in *.
    assert (S (length (p ++ [SLASH] ++ join (q :: ps))) = length p + S (S (length (join (q :: ps))))) as ->.
    { rewrite !length_app. cbn [length]. lia. }
    rewrite seq_app.
    pose proof (split_skip rest pre p ([SLASH] ++ join (q :: ps)) (length p)) as H.
    rewrite Nat.sub_diag, Nat.add_0_r in H. rewrite H by done. clear H.
    rewrite <- cons_seq. cbn [split_loop].
    assert (at_ rest (length pre + length p) = SLASH) as ->.
    { rewrite Heq, at_app_r, at_app_0. done. }
    rewrite Z.eqb_refl, orb_true_r.
    assert (substr rest (length pre) (length pre + length p - length pre) = p) as ->.
    { unfold substr. rewrite Heq, drop_app_length.
      replace (length pre + length p - length pre) with (length p) by lia. apply take_app_length. }
    assert (S (length pre + length p) = length (pre ++ p ++ [SLASH])) as Hl.
    { rewrite !length_app. cbn. lia. }
    replace (length pre + length p + 1) with (length (pre ++ p ++ [SLASH])) by lia.
    rewrite Hl, IH; [by rewrite <- app_assoc|done| |].
    + rewrite Heq. by rewrite <- !app_assoc.
    + intros r Hr. apply Hps. by right.
Qed.

Lemma split_parts_join ps :
  ps ≠ [] → (∀ p, p ∈ ps → SLASH ∉ p) → split_parts (join ps) = ps.
Proof. intros Hne Hps. exact (split_join ps (join ps) [] [] Hne eq_refl Hps). Qed.

(** ** Putting the anonymised parts together *)

Lemma anonymize_parts_join i n ps last result :
  0 < i → n = i + S (length ps) →
  anonymize_parts i n (ps ++ [last]) result =
  result ++ [SLASH] ++ join (((λ p, anonymize_part p false) <$> ps) ++ [anonymize_part last true]).
Proof.
  intros Hi ->. apply Nat.ltb_lt in Hi. revert i Hi result.
  induction ps as [|p ps IH]; intros i Hi result; cbn [app anonymize_parts fmap list_fmap].
  - rewrite Hi. cbn [length]. replace (i + 1 - 1) with i by lia. rewrite Nat.eqb_refl.
    by rewrite <- app_assoc.
  - rewrite Hi. cbn [length].
    destruct (Nat.eqb_spec i (i + S (S (length ps)) - 1)) as [|_]; [lia|].
    replace (i + S (S (length ps))) with (S i + S (length ps)) by lia.
    rewrite IH by (by apply Nat.ltb_lt; lia).
    rewrite <- !app_assoc. cbn [app]. repeat f_equal.
    by destruct ps.
Qed.

Lemma anonymize_parts_all ps last prefix :
  anonymize_parts 0 (length (ps ++ [last])) (ps ++ [last]) prefix =
  prefix ++ join (((λ p, anonymize_part p false) <$> ps) ++ [anonymize_part last true]).
Proof.
  rewrite length_app. cbn [length]. destruct ps as [|p ps]; [done|].
  cbn [app anonymize_parts length fmap list_fmap]. rewrite Nat.ltb_irrefl.
  destruct (Nat.eqb_spec 0 (S (length ps) + 1 - 1)) as [|_]; [lia|].
  rewrite anonymize_parts_join by lia. rewrite <- app_assoc. by destruct ps.
Qed.

(** ** Extensions *)

Lemma list_find_snoc_none {A} (P : A → Prop) `{∀ x, Decision (P x)} (l : list A) x r :
  Forall (λ y, ¬ P y) l → P x → list_find P (l ++ x :: r) = Some (length l, x).
Proof.
  intros Hl Hx. apply list_find_Some. split_and!; [by apply list_lookup_middle|done|].
  intros j y Hj Hlt. rewrite lookup_app_l in Hj by done.
  rewrite Forall_lookup in Hl. eauto.
Qed.

Lemma rfind_last before after :
  DOT ∉ after → rfind_char DOT (before ++ DOT :: after) = Some (length before).
Proof.
  intros Hd. unfold rfind_char. rewrite reverse_app, reverse_cons, <- app_assoc. cbn [app].
  rewrite list_find_snoc_none; [|apply Forall_forall; intros y Hy <-; by apply Hd, elem_of_reverse|done].
  cbn. rewrite length_reverse, length_app. cbn. f_equal. lia.
Qed.

Lemma anonymize_part_extension before after :
  DOT ∉ after → length (before ++ DOT :: after) <= NAME_MAX_LEN →
  anonymize_part (before ++ DOT :: after) true =
  AnonymizeName before ++ [DOT] ++ AnonymizeName after.
Proof.
  intros Hd Hl. unfold anonymize_part, TruncateToBytes. apply Nat.leb_le in Hl as ->.
  rewrite rfind_last by done. unfold substr. rewrite drop_0, take_app_length.
  replace (length before + 1) with (length (before ++ [DOT])) by (rewrite length_app; done).
  change (DOT :: after) with ([DOT] ++ after). rewrite (app_assoc before [DOT] after), drop_app_length.
  by case_decide; subst.
Qed.

(** Bytes that only continue characters count as one character each, but
    scanning backwards runs over all of them. *)
Lemma CharLen_cont b : is_cont b = true → (0 <= b < 256)%Z → Utf8CharLen b = 1.
Proof.
  intros Hc Hb.
  assert (forallb (λ n, implb (is_cont (Z.of_nat n)) (Utf8CharLen (Z.of_nat n) =? 1)) (seq 0 256)
    = true) as H by (vm_compute; reflexivity).
  rewrite List.forallb_forall in H. specialize (H (Z.to_nat b)).
  rewrite Z2Nat.id, Hc in H by lia. apply Nat.eqb_eq, H, in_seq. lia.
Qed.

Section conts.
Context (s : bytes) (Hs : Forall (λ b, is_cont b = true ∧ (0 <= b < 256)%Z) s).

Lemma CharLen_conts i : i < length s → Utf8CharLen (at_ s i) = 1.
Proof using Hs.
  intros Hi. destruct (lookup_lt_is_Some_2 s i Hi) as [b Hb].
  rewrite (at_lookup _ _ _ Hb). rewrite Forall_lookup in Hs.
  destruct (Hs _ _ Hb). by apply CharLen_cont.
Qed.

Lemma CharsNum_conts fuel i k :
  length s - i <= fuel → i <= length s → Utf8CharsNum_loop fuel s i k = k + (length s - i).
Proof using Hs.
  revert i k. induction fuel as [|fuel IH]; intros i k Hf Hi; cbn [Utf8CharsNum_loop]; [lia|].
  destruct (Nat.ltb_spec i (length s)); [|lia].
  rewrite CharLen_conts by done. rewrite IH by lia. lia.
Qed.

Lemma FirstN_conts n : n <= length s → Utf8FirstN s n = take n s.
Proof using Hs.
  intros Hn. unfold Utf8FirstN, substr. rewrite drop_0. f_equal.
  assert (∀ m i, i + m <= length s → Utf8FirstN_loop m s i = i + m) as H.
  { induction m as [|m IH]; intros i Hi; cbn [Utf8FirstN_loop]; [lia|].
    destruct (Nat.ltb_spec i (length s)); [|lia].
    rewrite CharLen_conts by done. rewrite IH by lia. lia. }
  by rewrite H.
Qed.

Lemma skip_back_all e : e < length s → skip_back s e = 0.
Proof using Hs.
  induction e as [|e IH]; intros He; [done|]. cbn [skip_back].
  destruct (lookup_lt_is_Some_2 s (S e) He) as [b Hb]. rewrite (at_lookup _ _ _ Hb).
  rewrite Forall_lookup in Hs. destruct (Hs _ _ Hb) as [-> _]. apply IH. lia.
Qed.

Lemma LastN_conts : 0 < length s → Utf8LastN s 1 = s.
Proof using Hs.
  intros H0. unfold Utf8LastN. cbn [Utf8LastN_loop].
  destruct (Nat.ltb_spec 0 (length s)); [|lia]. by rewrite skip_back_all by lia.
Qed.
End conts.

(** ** Properties *)

(** C40: a name made of well-formed characters is replaced by itself with all
    but the characters that may show turned into ['*'], one per character; the
    number of characters is kept and anonymising again changes nothing. *)
Theorem anonymize_name_masks (cs : list bytes) :
  Forall wf_char cs →
  AnonymizeName (concat cs) = concat (mask cs) ∧
  Utf8CharsNum (AnonymizeName (concat cs)) = length cs ∧
  AnonymizeName (AnonymizeName (concat cs)) = AnonymizeName (concat cs).
Proof.
  intros Hcs. pose proof (mask_wf _ Hcs) as Hm. rewrite (AnonymizeName_mask cs) by done.
  split_and!; [done| |].
  - rewrite CharsNum_wf by done. apply mask_length.
  - by rewrite AnonymizeName_mask, mask_idem.
Qed.

(** Truncating well-formed text keeps the longest sequence of whole
    characters that fits. *)
Theorem truncate_keeps_whole_chars (cs : list bytes) (maxBytes : nat) :
  Forall wf_char cs →
  ∃ k, TruncateToBytes (concat cs) maxBytes = concat (take k cs) ∧
    length (concat (take k cs)) <= maxBytes ∧
    (∀ c, cs !! k = Some c → maxBytes < length (concat (take (S k) cs))).
Proof.
  intros Hcs. unfold TruncateToBytes.
  destruct (Nat.leb_spec (length (concat cs)) maxBytes) as [Hle|Hgt].
  - exists (length cs). rewrite firstn_all. split_and!; [done|done|].
    intros c Hc. apply lookup_lt_Some in Hc. lia.
  - destruct (Truncate_chars cs Hcs (length (concat cs)) [] cs maxBytes) as (k & H1 & H2 & H3);
      [done|done|cbn; lia|]. cbn [concat length app] in *.
    exists k. unfold substr. rewrite drop_0, H1, take_concat. done.
Qed.

(** A path that needs no truncation keeps its scheme and its separators;
    every part is anonymised on its own, and in the last one the name and the
    extension after the last dot separately. *)
Theorem anonymize_path_parts (scheme : bytes) (ps : list bytes) (last : bytes) :
  let path := scheme ++ join (ps ++ [last]) in
  (∀ p, p ∈ ps ++ [last] → (SLASH ∉ p) ∧ length p <= NAME_MAX_LEN) →
  length path <= PATH_MAX_LEN →
  match find_str [COLON; SLASH; SLASH] path 0 with
  | Some pos => length scheme = pos + SUFFIX_LEN
  | None => scheme = []
  end →
  AnonymizePath path = scheme ++
    join ((AnonymizeName <$> ps) ++ [anonymize_part last true]) ∧
  (DOT ∉ last → anonymize_part last true = AnonymizeName last) ∧
  (∀ before after, last = before ++ DOT :: after → DOT ∉ after →
    anonymize_part last true = AnonymizeName before ++ [DOT] ++ AnonymizeName after).
Proof.
  intros path Hps Hlen Hfind.
  assert (split_parts (join (ps ++ [last])) = ps ++ [last]) as Hsplit.
  { apply split_parts_join; [by destruct ps|]. intros p Hp. by apply Hps. }
  assert ((λ p, anonymize_part p false) <$> ps = AnonymizeName <$> ps) as Hmap.
  { apply list_fmap_ext. intros i p Hp. unfold anonymize_part, TruncateToBytes.
    destruct (Hps p) as [_ Hl]; [apply elem_of_app; left; by eapply list_elem_of_lookup_2|].
    apply Nat.leb_le in Hl as ->. by destruct (rfind_char DOT p). }
  split_and!.
  - unfold AnonymizePath, TruncateToBytes. apply Nat.leb_le in Hlen as ->.
    rewrite <- Hmap. destruct (decide (path = [])) as [He|_].
    { subst path. apply app_nil in He as [-> He].
      destruct ps as [|p [|]]; cbn in He; [by subst last|by destruct p|by destruct p]. }
    case_match eqn:Hf.
    + unfold substr. rewrite <- Hfind, drop_0. unfold path.
      rewrite take_app_length, drop_app_length, !Hsplit. apply anonymize_parts_all.
    + subst scheme. cbn [app] in path. unfold path. rewrite !Hsplit. apply anonymize_parts_all.
  - intros Hd. unfold anonymize_part, TruncateToBytes.
    destruct (Hps last) as [_ Hl]; [apply elem_of_app; right; left|].
    apply Nat.leb_le in Hl as ->.
    assert (rfind_char DOT last = None) as ->; [|done].
    unfold rfind_char. rewrite (proj2 (list_find_None (eq DOT) (reverse last))); [done|].
    apply Forall_forall. intros x Hx <-. by apply Hd, elem_of_reverse.
  - intros before after -> Hd. apply anonymize_part_extension; [done|].
    apply Hps. apply elem_of_app; right; left.
Qed.

(** A name of six or more bytes that all look like the middle of a
    character (text in another encoding) is shown in full: the scan for the
    last character runs back to the start of the name. *)
Theorem malformed_name_shown (s : bytes) :
  Forall (λ b, is_cont b = true ∧ (0 <= b < 256)%Z) s → 6 <= length s →
  AnonymizeName s = take 2 s ++ stars (length s - 3) ++ s.
Proof.
  intros Hs Hl. unfold AnonymizeName.
  assert (Utf8CharsNum s = length s) as ->.
  { unfold Utf8CharsNum. rewrite (CharsNum_conts s Hs) by lia. lia. }
  unfold NAME_THRESH_LONG. apply Nat.leb_le in Hl as Hle. rewrite Hle.
  unfold SHOW_FIRST_LONG, SHOW_LAST_LONG.
  rewrite (FirstN_conts s Hs), (LastN_conts s Hs) by lia.
  do 3 f_equal. lia.
Qed.

(** *** Witnesses *)

(** The bytes of a literal. *)
Definition b_of (s : string) : bytes :=
  (λ c, Z.of_N (Ascii.N_of_ascii c)) <$> String.list_ascii_of_string s.

(** "a" and the two characters U+00E9 and U+4E2D. *)
Definition sample_chars : list bytes :=
  [[97]; [0xC3; 0xA9]; [0xE4; 0xB8; 0xAD]; [98]; [99]; [0xC3; 0xA9]]%Z.

Lemma sample_chars_wf : Forall wf_char sample_chars.
Proof.
  repeat constructor; eexists _, _; split_and!;
    try reflexivity; repeat constructor.
Qed.

Lemma anonymize_name_masks_witness :
  AnonymizeName (concat sample_chars) =
    [97; 0xC3; 0xA9; 42; 42; 42; 0xC3; 0xA9]%Z ∧
  AnonymizeName (concat sample_chars) = concat (mask sample_chars).
Proof.
  split; [vm_compute; reflexivity|].
  exact (proj1 (anonymize_name_masks sample_chars sample_chars_wf)).
Defined.

Lemma truncate_keeps_whole_chars_witness :
  TruncateToBytes (concat sample_chars) 5 = [97; 0xC3; 0xA9]%Z ∧
  ∃ k, TruncateToBytes (concat sample_chars) 5 = concat (take k sample_chars).
Proof.
  split; [vm_compute; reflexivity|].
  destruct (truncate_keeps_whole_chars sample_chars 5 sample_chars_wf) as (k & H & _).
  exists k. exact H.
Defined.

Lemma anonymize_path_parts_witness :
  AnonymizePath (b_of "file://docs/storage/a.tar.gz") = b_of "file://d**s/st****e/a***r.g*" ∧
  AnonymizePath (b_of "file://docs/storage/a.tar.gz") =
    b_of "file://" ++ join ((AnonymizeName <$> [b_of "docs"; b_of "storage"])
                              ++ [anonymize_part (b_of "a.tar.gz") true]).
Proof.
  split; [vm_compute; reflexivity|].
  apply (anonymize_path_parts (b_of "file://") [b_of "docs"; b_of "storage"] (b_of "a.tar.gz")).
  - intros p Hp. apply list_elem_of_In in Hp. cbn in Hp.
    destruct Hp as [<-|[<-|[<-|[]]]]; (split;
      [apply (bool_decide_unpack _); vm_compute; exact I|apply Nat.leb_le; vm_compute; reflexivity]).
  - apply Nat.leb_le. vm_compute. reflexivity.
  - vm_compute. reflexivity.
Defined.

Lemma malformed_name_shown_witness :
  AnonymizeName [0xB0; 0xB1; 0xB2; 0xB3; 0xB4; 0xB5]%Z =
  [0xB0; 0xB1; 42; 42; 42; 0xB0; 0xB1; 0xB2; 0xB3; 0xB4; 0xB5]%Z.
Proof.
  apply (malformed_name_shown [0xB0; 0xB1; 0xB2; 0xB3; 0xB4; 0xB5]%Z).
  - repeat constructor; discriminate.
  - cbn. lia.
Defined.
