(* ===== verification/FsTree.v ===== *)
(** * File trees and [std::filesystem]

    The file system the path operations of [mod_fs] work on: a finite map from
    absolute paths, as lists of names, to nodes.  Strings resolve to paths the
    way the kernel does it without links and without [..]: empty names and [.]
    are skipped ([resolve]).  The functions of [std::filesystem] and
    [scandir] the code calls are given by their documented behaviour; an
    environment decides which calls fail, with which error, and whether the file
    system reports the types of directory entries.  Every function is total. *)

From stdpp Require Import sorting.
From S2P Require Import Prelude.

(** ** Paths and nodes *)

Abbreviation path := (list string).

Inductive node := NFile (data : list Z) | NDir | NSpecial.
#[export] Instance node_eq_dec : EqDecision node.
Proof. solve_decision. Defined.

Abbreviation tree := (gmap path node).

(** The parts of a string between slashes. *)
Fixpoint split_slash (s : string) : list string :=
  match s with
  | EmptyString => [""%string]
  | String c s' =>
      if Ascii.eqb c slash then ""%string :: split_slash s'
      else match split_slash s' with
           | h :: t => String c h :: t
           | [] => [String c EmptyString]
           end
  end.

(** The elements of a [filesystem::path]: the root directory, the names, and an
    empty one after a slash at the end. *)
Definition path_elems (s : string) : list string :=
  let parts := split_slash s in
  let names := filter (λ n, n ≠ "")%string parts in
  (if (match s with String c _ => Ascii.eqb c slash | EmptyString => false end) then ["/"%string] else [])
  ++ names
  ++ (if bool_decide (List.last parts "x"%string = ""%string) && bool_decide (names ≠ []) then [""%string] else []).

(** The elements of [path(s).parent_path()]. *)
Definition parent_elems (s : string) : list string :=
  match path_elems s with
  | ["/"%string] => ["/"%string]
  | l => removelast l
  end.

Definition resolve (s : string) : path :=
  filter (λ n, n ≠ "" ∧ n ≠ ".")%string (split_slash s).

(** Names an entry can have. *)
Definition valid_name (n : string) : Prop :=
  (n ≠ "" ∧ n ≠ "." ∧ n ≠ "..")%string ∧ has_slash n = false.

(** The tree below [d], with paths relative to [d]. *)
Definition subtree (d : path) (f : tree) : tree :=
  map_fold (λ p y t, if decide (d `prefix_of` p) then <[drop (length d) p := y]> t else t) ∅ f.

(** [f] without what is at or below [d]. *)
Definition prune (d : path) (f : tree) : tree := filter (λ py, ¬ d `prefix_of` py.1) f.

(** [old] and all below it, moved to [new] in place of what was there. *)
Definition relocate (old new : path) (f : tree) : tree :=
  kmap (app new) (subtree old f) ∪ prune new (prune old f).

(** Names of the entries of [d]. *)
Definition names (f : tree) (d : path) : list string :=
  omap (λ p, match rev p with
             | n :: q => if decide (rev q = d) then Some n else None
             | [] => None
             end) (elements (dom f)).

(** Orders: deeper paths first; names in byte order ([alphasort]). *)
Definition deeper (p q : path) : Prop := (length q <= length p)%nat.
#[export] Instance deeper_dec p q : Decision (deeper p q).
Proof. unfold deeper. apply _. Defined.
Definition name_le (a b : string) : Prop := String.leb a b = true.
#[export] Instance name_le_dec a b : Decision (name_le a b).
Proof. unfold name_le. apply _. Defined.

(** Directory entries: the name, and the type where it is known. *)
Inductive dtype := DT_UNKNOWN | DT_DIR | DT_REG | DT_LNK | DT_OTHER.
#[export] Instance dtype_eq_dec : EqDecision dtype.
Proof. solve_decision. Defined.
Record dirent := Dirent { d_name : string; d_type : dtype }.
Definition dirent_le (a b : dirent) : Prop := name_le (d_name a) (d_name b).
#[export] Instance dirent_le_dec a b : Decision (dirent_le a b).
Proof. unfold dirent_le. apply _. Defined.

(** Paths at or below [d], the deeper ones first. *)
Definition paths_under (f : tree) (d : path) : list path :=
  merge_sort deeper (filter (λ p, d `prefix_of` p) (elements (dom f))).

Definition is_dir (f : tree) (p : path) : bool := bool_decide (f !! p = Some NDir).

(** ** Errors *)
Definition ENOENT : Z := 2.
Definition ENOMEM : Z := 12.
Definition EEXIST : Z := 17.
Definition EXDEV : Z := 18.
Definition ENOTDIR : Z := 20.
Definition EISDIR : Z := 21.
Definition EINVAL : Z := 22.
Definition ENOTEMPTY : Z := 39.
Definition ENOTSUP : Z := 95.

(** ** Calls *)
Inductive fscall :=
  | F_stat | F_remove | F_copy | F_rename | F_mkdir | F_scandir | F_alloc
  | F_open | F_fstat | F_sendfile.

Class FsEnv := {
  fs_fault : fscall → nat → Z;       (** injected error of the n-th call; 0 for none *)
  fs_partial : nat → option nat;     (** bytes a failed copy left in a new file, or
                                         a transfer moves at most *)
  fs_dtype : path → bool;            (** [d_type] is reported for the entry *)
  fs_link : path → bool;             (** the special file is a symbolic link *)
  fs_order : list string → list string;  (** the order entries are read in *)
  fs_real : ∀ k n, fs_fault k n ≠ ENOENT ∧ fs_fault k n ≠ ENOTDIR;
                                     (** nothing is reported missing that is there *)
  fs_order_perm : ∀ l, fs_order l ≡ₚ l
}.

Record fstate := FState { files : tree; calls : nat }.

Section calls.
Context {FE : FsEnv}.

(** A call that fails with the injected error [bad], or runs [good]. *)
Definition fcall {A} (k : fscall) (bad : Z → tree → A * tree) (good : tree → A * tree) : st fstate A :=
  λ s, let e := fs_fault k (calls s) in
       let '(a, f) := if e =? 0 then good (files s) else bad e (files s) in
       Some (a, FState f (S (calls s))).

(** [stat] as [status(p, ec)] uses it: the node and the error. *)
Definition status (p : string) : st fstate (option node * Z) :=
  fcall F_stat (λ e f, ((None, e), f))
    (λ f, match f !! resolve p with Some y => ((Some y, 0), f) | None => ((None, ENOENT), f) end).

(** [exists(p, ec)] and [ec]. *)
Definition exists_ (p : string) : st fstate (bool * Z) :=
  '(_, e) ← status p;
  sret (if e =? 0 then (true, 0)
        else if (e =? ENOENT) || (e =? ENOTDIR) then (false, 0) else (false, e)).

(** [is_directory(p, ec)] and [ec]. *)
Definition is_directory (p : string) : st fstate (bool * Z) :=
  '(t, e) ← status p; sret (bool_decide (t = Some NDir), e).

(** [is_empty(p, ec)]; an error answers [false]. *)
Definition is_empty (p : string) : st fstate bool :=
  '(t, e) ← status p;
  match t with
  | Some NDir =>
      fcall F_scandir (λ _ f, (false, f))
        (λ f, (match names f (resolve p) with [] => true | _ => false end, f))
  | Some (NFile data) => sret (match data with [] => true | _ => false end)
  | _ => sret false
  end.

Definition remove_body (q : path) (f : tree) : (bool * Z) * tree :=
  match f !! q with
  | None => ((false, 0), f)
  | Some NDir =>
      match names f q with
      | [] => ((true, 0), delete q f)
      | _ => ((false, ENOTEMPTY), f)
      end
  | Some _ => ((true, 0), delete q f)
  end.

(** [remove(p, ec)]: a missing file is no error. *)
Definition remove_at (q : path) : st fstate (bool * Z) :=
  fcall F_remove (λ e f, ((false, e), f)) (remove_body q).
Definition remove (p : string) : st fstate (bool * Z) := remove_at (resolve p).

(** [remove_all(p, ec)]: the contents first; the first error ends it. *)
Fixpoint remove_each (ps : list path) : st fstate Z :=
  match ps with
  | [] => sret 0
  | q :: ps => '(_, e) ← remove_at q; if e =? 0 then remove_each ps else sret e
  end.
Definition remove_all (p : string) : st fstate Z := λ s,
  remove_each (paths_under (files s) (resolve p)) s.

(** Whether [copy_file(from, to, overwrite_existing)] can run. *)
Definition copy_check (src dst : path) (f : tree) : Z + list Z :=
  match f !! src with
  | None => inl ENOENT
  | Some (NFile data) =>
      if decide (src = dst) then inl EEXIST else
      match f !! dst with
      | Some (NFile _) => inr data
      | Some _ => inl ENOTSUP
      | None => if is_dir f (removelast dst) && bool_decide (dst ≠ []) then inr data else inl ENOENT
      end
  | Some _ => inl ENOTSUP
  end.

Definition copy_file (from to : string) : st fstate (bool * Z) :=
  λ s, let src := resolve from in let dst := resolve to in
  fcall F_copy
    (λ e f, ((false, e), match copy_check src dst f, fs_partial (calls s) with
                         | inr data, Some k => <[dst := NFile (take k data)]> f
                         | _, _ => f
                         end))
    (λ f, match copy_check src dst f with
          | inl e => ((false, e), f)
          | inr data => ((true, 0), <[dst := NFile data]> f)
          end) s.

Definition rename_body (old new : path) (f : tree) : Z * tree :=
  match f !! old with
  | None => (ENOENT, f)
  | Some y =>
      if decide (old = new) then (0, f)
      else if decide (old `prefix_of` new) then (EINVAL, f)
      else match f !! new with
      | None =>
          if is_dir f (removelast new) && bool_decide (new ≠ [])
          then (0, relocate old new f) else (ENOENT, f)
      | Some NDir =>
          if bool_decide (y = NDir) then
            match names f new with [] => (0, relocate old new f) | _ => (ENOTEMPTY, f) end
          else (EISDIR, f)
      | Some _ => if bool_decide (y = NDir) then (ENOTDIR, f) else (0, relocate old new f)
      end
  end.

(** [rename(old, new, ec)]; returns [ec]. *)
Definition rename (old new : string) : st fstate Z :=
  fcall F_rename (λ e f, (e, f)) (rename_body (resolve old) (resolve new)).

Definition mkdir_body (q : path) (f : tree) : (bool * Z) * tree :=
  match f !! q with
  | Some NDir => ((false, 0), f)
  | Some _ => ((false, EEXIST), f)
  | None => if is_dir f (removelast q) && bool_decide (q ≠ [])
            then ((true, 0), <[q := NDir]> f) else ((false, ENOENT), f)
  end.

(** [create_directory(p, ec)]: an existing directory is no error. *)
Definition create_directory (p : string) : st fstate (bool * Z) :=
  fcall F_mkdir (λ e f, ((false, e), f)) (mkdir_body (resolve p)).

(** The type of an entry, where the file system reports it. *)
Definition entry_type (f : tree) (p : path) : dtype :=
  if fs_dtype p then
    match f !! p with
    | Some NDir => DT_DIR
    | Some (NFile _) => DT_REG
    | Some NSpecial => if fs_link p then DT_LNK else DT_OTHER
    | None => DT_UNKNOWN
    end
  else DT_UNKNOWN.

(** The entries of a directory as [readdir] gives them, or the error. *)
Definition readdir_all (p : string) : st fstate (Z + list dirent) :=
  let d := resolve p in
  fcall F_scandir (λ e f, (inl e, f))
    (λ f, if is_dir f d then
            (inr (Dirent "." DT_DIR :: Dirent ".." DT_DIR
                  :: map (λ n, Dirent n (entry_type f (d ++ [n]))) (fs_order (names f d))), f)
          else (inl (if f !! d is Some _ then ENOTDIR else ENOENT), f)).

(** [scandir(p, filter, alphasort)], or its error. *)
Definition scandir_types (p : string) (filt : string → bool) : st fstate (Z + list dirent) :=
  r ← readdir_all p;
  sret (match r with
        | inl e => inl e
        | inr l => inr (merge_sort dirent_le (List.filter (λ e, filt (d_name e)) l))
        end).

(** The same for callers that ignore errors: the names, each with whether its
    [d_type] is [DT_DIR]; [None] is a failure. *)
Definition scandir (p : string) (filt : string → bool) : st fstate (option (list (string * bool))) :=
  r ← scandir_types p filt;
  sret (match r with
        | inl _ => None
        | inr l => Some (map (λ e, (d_name e, bool_decide (d_type e = DT_DIR))) l)
        end).

(** [new (nothrow)] *)
Definition alloc : st fstate bool := fcall F_alloc (λ _ f, (false, f)) (λ f, (true, f)).
End calls.

(** ** Paths *)

Lemma split_slash_cons s : ∃ h t, split_slash s = h :: t.
Proof. destruct s as [|c s]; cbn; [eauto|]. destruct (Ascii.eqb c slash); [eauto|]. destruct (split_slash s); eauto. Qed.

Lemma split_slash_child d n : split_slash (child d n) = split_slash d ++ split_slash n.
Proof.
  unfold child. induction d as [|c d IH]; [done|]. rewrite append_cons. cbn [split_slash].
  destruct (Ascii.eqb c slash); [by rewrite IH|].
  rewrite IH. destruct (split_slash_cons d) as (h & t & ->). done.
Qed.

Lemma resolve_child d n : resolve (child d n) = resolve d ++ resolve n.
Proof. unfold resolve. by rewrite split_slash_child, filter_app. Qed.

Lemma split_slash_name n : has_slash n = false → split_slash n = [n].
Proof.
  induction n as [|c n IH]; [done|]. cbn. destruct (Ascii.eqb c slash) eqn:E; [done|].
  intros H. by rewrite (IH H).
Qed.

Lemma resolve_name n : valid_name n → resolve n = [n].
Proof.
  intros ((H1 & H2 & _) & Hs). unfold resolve. rewrite split_slash_name by done.
  by rewrite filter_cons_True by done.
Qed.

Lemma resolve_entry d n : valid_name n → resolve (child d n) = resolve d ++ [n].
Proof. intros H. by rewrite resolve_child, (resolve_name n). Qed.

(** Two paths of which none is at or below the other. *)
Definition apart (a b : path) : Prop := ¬ a `prefix_of` b ∧ ¬ b `prefix_of` a.

Lemma prefix_or_both (a b c : path) :
  a `prefix_of` c → b `prefix_of` c → a `prefix_of` b ∨ b `prefix_of` a.
Proof.
  revert b c. induction a as [|x a IH]; intros b c; [left; apply prefix_nil|].
  destruct b as [|y b]; [right; apply prefix_nil|]. destruct c as [|z c].
  { intros H. by apply prefix_nil_not in H. }
  intros H1 H2. pose proof (prefix_cons_inv_1 _ _ _ _ H1). pose proof (prefix_cons_inv_1 _ _ _ _ H2).
  apply prefix_cons_inv_2 in H1, H2. subst. destruct (IH b c H1 H2); [left|right]; by apply prefix_cons.
Qed.

Lemma apart_sym a b : apart a b → apart b a.
Proof. unfold apart. tauto. Qed.
Lemma apart_r a b c : apart a b → b `prefix_of` c → ¬ a `prefix_of` c.
Proof. intros [H1 H2] Hc Ha. destruct (prefix_or_both a b c); auto. Qed.
Lemma apart_below a b r r' : apart a b → apart (a ++ r) (b ++ r').
Proof.
  intros Hab. split; intros H.
  - apply (apart_r a b (b ++ r') Hab); [by eexists|]. etrans; [by eexists|exact H].
  - apply (apart_r b a (a ++ r) (apart_sym _ _ Hab)); [by eexists|]. etrans; [by eexists|exact H].
Qed.
Lemma apart_sub a b r : apart a b → ¬ a `prefix_of` b ++ r.
Proof. intros H. eapply apart_r; [done|]. by eexists. Qed.
Lemma apart_siblings (d : path) n m : n ≠ m → apart (d ++ [n]) (d ++ [m]).
Proof.
  intros Hne. split; intros H%prefix_app_inv%prefix_cons_inv_1; congruence.
Qed.

(** ** Trees *)

Lemma lookup_subtree d f r : subtree d f !! r = f !! (d ++ r).
Proof.
  unfold subtree. revert r.
  apply (map_fold_weak_ind (λ t f, ∀ r : path, t !! r = f !! (d ++ r))); [done|].
  intros p y m t _ IH r. case_decide as Hd.
  - destruct Hd as [k ->]. rewrite drop_app_length. destruct (decide (r = k)) as [->|Hne].
    + by rewrite !lookup_insert_eq.
    + rewrite !lookup_insert_ne; [apply IH| |congruence]. by intros ?%(inj (app d)).
  - rewrite lookup_insert_ne; [apply IH|]. intros ->. apply Hd. by eexists.
Qed.

Lemma lookup_prune d f p : prune d f !! p = if decide (d `prefix_of` p) then None else f !! p.
Proof.
  unfold prune. case_decide as Hd.
  - apply map_lookup_filter_None_2. right. intros y _. cbn. tauto.
  - destruct (f !! p) eqn:E.
    + by apply map_lookup_filter_Some_2.
    + apply map_lookup_filter_None_2. by left.
Qed.

Lemma lookup_relocate_in old new f r : relocate old new f !! (new ++ r) = f !! (old ++ r).
Proof.
  unfold relocate. destruct (f !! (old ++ r)) as [y|] eqn:E.
  - apply lookup_union_Some_l. rewrite lookup_kmap, lookup_subtree by apply _. done.
  - apply lookup_union_None. rewrite lookup_kmap, lookup_subtree, lookup_prune by apply _.
    split; [done|]. rewrite decide_True; [done|by eexists].
Qed.

Lemma lookup_relocate_out old new f p :
  ¬ new `prefix_of` p → relocate old new f !! p = if decide (old `prefix_of` p) then None else f !! p.
Proof.
  intros Hp. unfold relocate. rewrite lookup_union_r.
  - rewrite lookup_prune, decide_False, lookup_prune by done. done.
  - destruct (kmap (app new) (subtree old f) !! p) eqn:E; [|done].
    apply lookup_kmap_Some in E as (r & -> & _); [|apply _]. destruct Hp. by eexists.
Qed.

Lemma elem_of_names f d n : n ∈ names f d ↔ is_Some (f !! (d ++ [n])).
Proof.
  unfold names. rewrite list_elem_of_omap. setoid_rewrite elem_of_elements.
  setoid_rewrite elem_of_dom. split.
  - intros (p & Hp & Hn). destruct (rev p) as [|m q] eqn:E; [done|]. case_decide as Hd; [|done].
    simplify_eq. rewrite <- (rev_involutive p), E in Hp. exact Hp.
  - intros Hn. exists (d ++ [n]). split; [done|]. rewrite rev_unit, rev_involutive.
    by rewrite decide_True.
Qed.

Lemma NoDup_names f d : NoDup (names f d).
Proof.
  unfold names. set (name_in := λ p : path, _). generalize (NoDup_elements (dom f)).
  induction (elements (dom f)) as [|p l IH]; [constructor|].
  rewrite NoDup_cons. intros [Hp Hl]. cbn. destruct (name_in p) as [n|] eqn:E; [|by apply IH].
  apply NoDup_cons. split; [|by apply IH].
  rewrite list_elem_of_omap. intros (q & Hq & Hn). apply Hp.
  assert (∀ r, name_in r = Some n → r = d ++ [n]) as Hr.
  { intros r. unfold name_in. destruct (rev r) as [|m t] eqn:Er; [done|]. case_decide as Hd; [|done].
    intros [= ->]. rewrite <- (rev_involutive r), Er. cbn. by rewrite Hd. }
  rewrite (Hr p E), <- (Hr q Hn). done.
Qed.

(** Every entry is in a directory and has a valid name. *)
Definition wf_below (d : path) (f : tree) : Prop :=
  ∀ r n, is_Some (f !! (d ++ r ++ [n])) → f !! (d ++ r) = Some NDir ∧ valid_name n.
Definition wf_tree (f : tree) : Prop := f !! [] = Some NDir ∧ wf_below [] f.

Lemma wf_below_sub d r f : wf_below d f → wf_below (d ++ r) f.
Proof. intros H r' n. rewrite <- !app_assoc, (app_assoc r). apply H. Qed.
Lemma wf_tree_below d f : wf_tree f → wf_below d f.
Proof. intros [_ H]. by apply (wf_below_sub [] d). Qed.
Lemma wf_below_ext d f f' : (∀ r, f' !! (d ++ r) = f !! (d ++ r)) → wf_below d f → wf_below d f'.
Proof. intros E H r n. rewrite !E. apply H. Qed.

(** Below what is not a directory there is nothing. *)
Lemma wf_below_leaf d f r :
  wf_below d f → f !! d ≠ Some NDir → is_Some (f !! (d ++ r)) → r = [].
Proof.
  intros Hwf Hd. destruct r as [|n r _] using List.rev_ind; [done|]. intros H.
  destruct (Hwf _ _ H) as [Hr _]. exfalso. clear H.
  induction r as [|m r IH] using List.rev_ind; [rewrite app_nil_r in Hr; done|].
  apply IH. by apply (Hwf r m).
Qed.

Lemma wf_below_first d f n r :
  wf_below d f → is_Some (f !! (d ++ n :: r)) → is_Some (f !! (d ++ [n])).
Proof.
  intros Hwf. induction r as [|m r IH] using List.rev_ind; [done|]. intros H.
  apply IH. destruct (Hwf (n :: r) m H) as [-> _]. by eexists.
Qed.

Lemma names_nil_below d f r :
  wf_below d f → names f d = [] → is_Some (f !! (d ++ r)) → r = [].
Proof.
  intros Hwf Hn. destruct r as [|n r]; [done|]. intros H. exfalso.
  assert (n ∈ names f d) as Hin; [|rewrite Hn in Hin; by apply elem_of_nil in Hin].
  apply elem_of_names. by eapply wf_below_first.
Qed.

(** ** Rules for the calls *)
Section rules.
Context {FE : FsEnv}.
Implicit Types (s : fstate) (f : tree).

(** What can be injected. *)
Definition fault_code (k : fscall) (e : Z) : Prop :=
  e ≠ 0 ∧ e ≠ ENOENT ∧ e ≠ ENOTDIR ∧ ∃ n, e = fs_fault k n.

Lemma twp_fcall {A} (k : fscall) (bad : Z → tree → A * tree) (good : tree → A * tree) (Q : A → fstate → Prop) s :
  (∀ e s', fault_code k e → files s' = (bad e (files s)).2 → Q (bad e (files s)).1 s') →
  (∀ s', files s' = (good (files s)).2 → Q (good (files s)).1 s') →
  twp (fcall k bad good) Q s.
Proof.
  intros Hb Hg. unfold twp, fcall. destruct (fs_fault k (calls s) =? 0) eqn:E; zbool.
  - specialize (Hg (FState (good (files s)).2 (S (calls s))) eq_refl). by destruct (good (files s)).
  - destruct (fs_real k (calls s)).
    specialize (Hb _ (FState (bad (fs_fault k (calls s)) (files s)).2 (S (calls s)))
      ltac:(by split_and!; eauto) eq_refl). by destruct (bad _ (files s)).
Qed.

Lemma twp_status p (Q : option node * Z → fstate → Prop) s :
  (∀ e s', fault_code F_stat e → files s' = files s → Q (None, e) s') →
  (∀ s', files s' = files s →
    Q (match files s !! resolve p with Some y => (Some y, 0) | None => (None, ENOENT) end) s') →
  twp (status p) Q s.
Proof.
  intros Hb Hg. apply twp_fcall; [intros e s' He Hs; by apply Hb|].
  intros s' Hs. specialize (Hg s'). destruct (files s !! resolve p); by apply Hg.
Qed.

Lemma twp_exists p (Q : bool * Z → fstate → Prop) s :
  (∀ e s', fault_code F_stat e → files s' = files s → Q (false, e) s') →
  (∀ s', files s' = files s → Q (bool_decide (is_Some (files s !! resolve p)), 0) s') →
  twp (exists_ p) Q s.
Proof.
  intros Hb Hg. apply twp_bind, twp_status.
  - intros e s' He Hs. apply twp_ret. destruct He as (H0 & H1 & H2 & Hn) eqn:EHe. clear EHe.
    apply Z.eqb_neq in H0 as E0, H1 as E1, H2 as E2. rewrite E0, E1, E2. apply Hb; [by split_and!|done].
  - intros s' Hs. specialize (Hg s' Hs). destruct (files s !! resolve p); by apply twp_ret.
Qed.

Lemma twp_is_directory p (Q : bool * Z → fstate → Prop) s :
  (∀ e s', fault_code F_stat e → files s' = files s → Q (false, e) s') →
  (∀ e s', files s' = files s → Q (is_dir (files s) (resolve p), e) s') →
  twp (is_directory p) Q s.
Proof.
  intros Hb Hg. apply twp_bind, twp_status.
  - intros e s' He Hs. apply twp_ret. by apply Hb.
  - intros s' Hs. apply (Hg (match files s !! resolve p with Some _ => 0 | None => ENOENT end)) in Hs.
    unfold is_dir in Hs. destruct (files s !! resolve p); by apply twp_ret.
Qed.

Lemma twp_is_empty p (Q : bool → fstate → Prop) s :
  (∀ b s', files s' = files s →
    (b = true → names (files s) (resolve p) ≠ [] → files s !! resolve p ≠ Some NDir) → Q b s') →
  twp (is_empty p) Q s.
Proof.
  intros HQ. apply twp_bind, twp_status.
  - intros e s' He Hs. apply twp_ret. apply HQ; [done|discriminate].
  - intros s' Hs. destruct (files s !! resolve p) as [[| |]|] eqn:E; try apply twp_ret;
      try (apply HQ; done).
    apply twp_fcall; [intros e s2 _ H2; cbn [fst snd] in *; apply HQ; [congruence|discriminate]|].
    intros s2 H2. cbn [fst snd] in *. apply HQ; [congruence|]. rewrite Hs.
    by destruct (names (files s) (resolve p)).
Qed.

(** Removing one path. *)
Definition removed_at (q : path) (r : bool * Z) f f' : Prop :=
  (r.1 = true → r.2 = 0) ∧
  (f' = f ∧ r.1 = false ∧ (r.2 = 0 → f !! q = None) ∨
   f' = delete q f ∧ r.1 = true ∧ is_Some (f !! q) ∧ (f !! q = Some NDir → names f q = [])).

Lemma twp_remove_at q (Q : bool * Z → fstate → Prop) s :
  (∀ r s', removed_at q r (files s) (files s') → Q r s') → twp (remove_at q) Q s.
Proof.
  intros HQ. apply twp_fcall.
  - intros e s' (He & _) Hs. apply HQ. split; [done|]. left. by split_and!.
  - intros s' Hs. apply HQ. rewrite Hs. unfold remove_body.
    destruct (files s !! q) as [[| |]|] eqn:E; cbn [fst snd].
    + split; [done|]. right. split_and!; naive_solver.
    + destruct (names (files s) q) eqn:En; cbn [fst snd]; (split; [done|]); [right|left]; naive_solver.
    + split; [done|]. right. split_and!; naive_solver.
    + split; [done|]. left. by split_and!.
Qed.

Lemma removed_at_gone q r f f' : removed_at q r f f' → r.2 = 0 → f' !! q = None.
Proof. intros [_ [(-> & _ & H)|(-> & _)]] E; [by apply H|apply lookup_delete_eq]. Qed.

(** Every path is as before or gone. *)
Definition pruned f f' : Prop := ∀ p, f' !! p = f !! p ∨ f' !! p = None.

Lemma pruned_refl f : pruned f f.
Proof. by left. Qed.
Lemma pruned_trans f1 f2 f3 : pruned f1 f2 → pruned f2 f3 → pruned f1 f3.
Proof. intros H1 H2 p. destruct (H2 p) as [->|]; auto. Qed.
Lemma removed_at_pruned q r f f' : removed_at q r f f' → pruned f f'.
Proof.
  intros [_ [(-> & _)|(-> & _)]] p; [by left|]. destruct (decide (p = q)) as [->|?].
  - right. apply lookup_delete_eq.
  - left. by apply lookup_delete_ne.
Qed.
Lemma removed_at_other q r f f' p : removed_at q r f f' → p ≠ q → f' !! p = f !! p.
Proof. intros [_ [(-> & _)|(-> & _)]] Hp; [done|]. by apply lookup_delete_ne. Qed.

Lemma twp_remove_each ps (Q : Z → fstate → Prop) s :
  (∀ e s', pruned (files s) (files s') → (∀ p, p ∉ ps → files s' !! p = files s !! p) →
    (e = 0 → ∀ p, p ∈ ps → files s' !! p = None) → Q e s') →
  twp (remove_each ps) Q s.
Proof.
  revert s Q. induction ps as [|q ps IH]; intros s Q HQ; cbn [remove_each].
  - apply twp_ret, HQ; [apply pruned_refl|done|]. intros _ p Hp. by apply elem_of_nil in Hp.
  - apply twp_bind, twp_remove_at. intros [b e] s1 H1.
    pose proof (removed_at_pruned _ _ _ _ H1) as Hp1.
    destruct (e =? 0) eqn:E; zbool.
    + apply IH. intros e' s2 Hp Ho Hg. apply HQ; [by eapply pruned_trans| |].
      * intros p [Hq Hps]%not_elem_of_cons. rewrite (Ho p Hps). by eapply removed_at_other.
      * intros E' p [->|Hin]%elem_of_cons; [|by apply Hg].
        destruct (Hp q) as [->|]; [|done]. eapply removed_at_gone; eauto.
    + apply twp_ret, HQ; [done| |done]. intros p [Hq _]%not_elem_of_cons.
      by eapply removed_at_other.
Qed.

Lemma elem_of_paths_under f d p : p ∈ paths_under f d ↔ d `prefix_of` p ∧ is_Some (f !! p).
Proof.
  unfold paths_under. rewrite merge_sort_Permutation, list_elem_of_filter, elem_of_elements, elem_of_dom.
  done.
Qed.

Lemma twp_remove_all p (Q : Z → fstate → Prop) s :
  (∀ e s', pruned (files s) (files s') →
    (∀ q, ¬ resolve p `prefix_of` q → files s' !! q = files s !! q) →
    (e = 0 → ∀ r, files s' !! (resolve p ++ r) = None) → Q e s') →
  twp (remove_all p) Q s.
Proof.
  intros HQ. unfold twp, remove_all. apply twp_remove_each. intros e s' Hp Ho Hg. apply HQ; [done| |].
  - intros q Hq. apply Ho. rewrite elem_of_paths_under. tauto.
  - intros E r. destruct (files s !! (resolve p ++ r)) eqn:Ef.
    + apply Hg; [done|]. apply elem_of_paths_under. split; [by eexists|by eexists].
    + destruct (Hp (resolve p ++ r)) as [->|]; done.
Qed.

Lemma twp_copy_file from to (Q : bool * Z → fstate → Prop) s :
  (∀ e s', e ≠ 0 → (files s' = files s ∨ ∃ x, files s' = <[resolve to := x]> (files s)) →
    Q (false, e) s') →
  (∀ data s', files s !! resolve from = Some (NFile data) → resolve from ≠ resolve to →
    files s' = <[resolve to := NFile data]> (files s) → Q (true, 0) s') →
  twp (copy_file from to) Q s.
Proof.
  intros Hb Hg. unfold twp, copy_file. apply twp_fcall.
  - intros e s' (He & _) Hs. cbn [fst snd] in *. apply Hb; [done|]. rewrite Hs.
    destruct (copy_check _ _ _) as [|data]; [by left|].
    destruct (fs_partial _); [right; by eexists|by left].
  - intros s' Hs. destruct (copy_check (resolve from) (resolve to) (files s)) as [e|data] eqn:E;
      cbn [fst snd] in *.
    + apply Hb; [|by left]. unfold copy_check in E. repeat case_match; simplify_eq; done.
    + unfold copy_check in E. destruct (files s !! resolve from) as [[]|] eqn:Ef; try done.
      case_decide; [done|]. repeat case_match; simplify_eq; by eapply Hg.
Qed.

(** A rename that takes effect. *)
Definition renamed (old new : path) f f' : Prop :=
  is_Some (f !! old) ∧ (¬ old `prefix_of` new) ∧ f' = relocate old new f.

Lemma twp_rename from to (Q : Z → fstate → Prop) s :
  resolve from ≠ resolve to →
  (∀ e s', e ≠ 0 → files s' = files s → Q e s') →
  (∀ s', renamed (resolve from) (resolve to) (files s) (files s') → Q 0 s') →
  twp (rename from to) Q s.
Proof.
  intros Hne Hb Hg. apply twp_fcall.
  - intros e s' (He & _) Hs. by apply Hb.
  - intros s' Hs. unfold rename_body in *.
    destruct (files s !! resolve from) as [y|] eqn:Ef; [|by apply Hb].
    rewrite decide_False in Hs |- * by done.
    destruct (decide (resolve from `prefix_of` resolve to)) as [Hp|Hp]; [by apply Hb|].
    repeat case_match; cbn [fst snd] in *; try (by apply Hb); apply Hg; (split_and!; [by eexists|done|done]).
Qed.

Lemma twp_create_directory p (Q : bool * Z → fstate → Prop) s :
  files s !! resolve p = None →
  (∀ e s', e ≠ 0 → files s' = files s → Q (false, e) s') →
  (∀ s', files s' = <[resolve p := NDir]> (files s) → Q (true, 0) s') →
  twp (create_directory p) Q s.
Proof.
  intros Hn Hb Hg. apply twp_fcall.
  - intros e s' (He & _) Hs. by apply Hb.
  - intros s' Hs. unfold mkdir_body in *. rewrite Hn in *.
    case_match; cbn [fst snd] in *; [by apply Hg|by apply Hb].
Qed.

(** A successful scan: no name twice, every entry of the directory that passes
    the filter, with its type. *)
Definition listed (f : tree) (d : path) (filt : string → bool) (l : list dirent) : Prop :=
  NoDup (d_name <$> l) ∧
  (∀ e, e ∈ l → filt (d_name e) = true ∧
     (d_name e ∈ [".";".."]%string ∨
      d_name e ∈ names f d ∧ d_type e = entry_type f (d ++ [d_name e]))) ∧
  (∀ n, n ∈ names f d → filt n = true → n ∈ d_name <$> l).

(** All a directory has, with the two entries for itself and the one above. *)
Definition raw_dirents (f : tree) (d : path) : list dirent :=
  Dirent "." DT_DIR :: Dirent ".." DT_DIR
    :: map (λ n, Dirent n (entry_type f (d ++ [n]))) (fs_order (names f d)).

Lemma raw_names f d : d_name <$> raw_dirents f d = ("." :: ".." :: fs_order (names f d))%string.
Proof.
  unfold raw_dirents. cbn. do 2 f_equal. rewrite <- list_fmap_compose. apply list_fmap_id.
Qed.

Lemma NoDup_raw f d : wf_below d f → NoDup (d_name <$> raw_dirents f d).
Proof.
  intros Hwf. rewrite raw_names, fs_order_perm.
  assert (∀ n, n ∈ names f d → valid_name n) as Hv.
  { intros n Hn%elem_of_names. by apply (Hwf [] n). }
  rewrite !NoDup_cons, !not_elem_of_cons. split_and!; [done| | |apply NoDup_names];
    intros Hn%Hv; by destruct Hn as ((? & ? & ?) & ?).
Qed.

Lemma elem_of_raw f d e : e ∈ raw_dirents f d →
  d_name e ∈ [".";".."]%string ∨ d_name e ∈ names f d ∧ d_type e = entry_type f (d ++ [d_name e]).
Proof.
  unfold raw_dirents. intros [->|[->|H]%elem_of_cons]%elem_of_cons; [left; set_solver..|right].
  apply list_elem_of_In, in_map_iff in H as (n & <- & Hn). apply list_elem_of_In in Hn.
  by rewrite fs_order_perm in Hn.
Qed.

Lemma NoDup_names_filter (P : dirent → bool) (l : list dirent) :
  NoDup (d_name <$> l) → NoDup (d_name <$> List.filter P l).
Proof.
  induction l as [|e l IH]; [done|]. cbn. intros [He Hl]%NoDup_cons.
  destruct (P e); [|by apply IH]. cbn. apply NoDup_cons. split; [|by apply IH].
  intros (x & Ex & Hx)%list_elem_of_fmap. apply He. apply list_elem_of_fmap. exists x. split; [done|].
  apply list_elem_of_In, filter_In in Hx as [Hx _]. by apply list_elem_of_In.
Qed.

Lemma listed_sorted f d filt :
  wf_below d f → listed f d filt (merge_sort dirent_le (List.filter (λ e, filt (d_name e)) (raw_dirents f d))).
Proof.
  intros Hwf. set (l := List.filter _ _).
  assert (Hperm : merge_sort dirent_le l ≡ₚ l) by apply merge_sort_Permutation.
  split_and!.
  - rewrite Hperm. by apply NoDup_names_filter, NoDup_raw.
  - intros e. rewrite Hperm. intros [He Hf]%list_elem_of_In%filter_In. split; [done|].
    by apply elem_of_raw, list_elem_of_In.
  - intros n Hn Hf. rewrite Hperm. apply list_elem_of_fmap.
    exists (Dirent n (entry_type f (d ++ [n]))). split; [done|].
    apply list_elem_of_In, filter_In. split; [|done]. apply list_elem_of_In. unfold raw_dirents.
    rewrite !elem_of_cons. do 2 right. apply list_elem_of_In, in_map_iff. exists n. split; [done|].
    apply list_elem_of_In. by rewrite fs_order_perm.
Qed.

Lemma twp_readdir_all p (Q : Z + list dirent → fstate → Prop) s :
  (∀ e s', files s' = files s → fault_code F_scandir e ∨
     e ≠ 0 ∧ files s !! resolve p ≠ Some NDir → Q (inl e) s') →
  (∀ s', files s' = files s → files s !! resolve p = Some NDir →
    Q (inr (raw_dirents (files s) (resolve p))) s') →
  twp (readdir_all p) Q s.
Proof.
  intros Hb Hg. apply twp_fcall.
  - intros e s' He Hs. apply Hb; [done|by left].
  - intros s' Hs. destruct (is_dir (files s) (resolve p)) eqn:Ed; cbn [fst snd] in *.
    + apply bool_decide_eq_true in Ed. by apply Hg.
    + apply bool_decide_eq_false in Ed. apply Hb; [done|]. right. split; [|done].
      by destruct (_ !! _).
Qed.

Lemma twp_scandir_types p filt (Q : Z + list dirent → fstate → Prop) s :
  wf_below (resolve p) (files s) →
  (∀ e s', files s' = files s → fault_code F_scandir e ∨
     e ≠ 0 ∧ files s !! resolve p ≠ Some NDir → Q (inl e) s') →
  (∀ l s', files s' = files s → files s !! resolve p = Some NDir →
    listed (files s) (resolve p) filt l → Q (inr l) s') →
  twp (scandir_types p filt) Q s.
Proof.
  intros Hwf Hb Hg. apply twp_bind, twp_readdir_all.
  - intros e s' Hs He. apply twp_ret. by apply Hb.
  - intros s' Hs Hd. apply twp_ret. apply Hg; [done|done|]. by apply listed_sorted.
Qed.

(** The same for [scandir]. *)
Definition scanned (f : tree) (d : path) (filt : string → bool) (l : list (string * bool)) : Prop :=
  NoDup l.*1 ∧ (∀ n, n ∈ l.*1 → filt n = true ∧ (n ∈ [".";".."]%string ∨ n ∈ names f d)) ∧
  (∀ n, n ∈ names f d → filt n = true → n ∈ l.*1) ∧
  (∀ n, (n, true) ∈ l → n ∉ [".";".."]%string → f !! (d ++ [n]) = Some NDir).

Lemma entry_type_dir f p : entry_type f p = DT_DIR → f !! p = Some NDir.
Proof. unfold entry_type. destruct (fs_dtype p), (f !! p) as [[]|], (fs_link p); naive_solver. Qed.

Lemma listed_scanned f d filt l :
  listed f d filt l → scanned f d filt (map (λ e, (d_name e, bool_decide (d_type e = DT_DIR))) l).
Proof.
  intros (Hnd & Hin & Hall).
  assert ((map (λ e, (d_name e, bool_decide (d_type e = DT_DIR))) l).*1 = d_name <$> l) as Hfst.
  { change (map ?g l) with (g <$> l). by rewrite <- list_fmap_compose. }
  unfold scanned. rewrite Hfst. split_and!; [done| |done|].
  - intros n (e & -> & He)%list_elem_of_fmap. destruct (Hin e He) as [? [?|[? _]]]; auto.
  - intros n Hn Hd. apply list_elem_of_In, in_map_iff in Hn as (e & [= <- Ht] & He%list_elem_of_In).
    apply bool_decide_eq_true in Ht. destruct (Hin e He) as [_ [?|[_ Ht']]]; [done|].
    apply entry_type_dir. congruence.
Qed.

Lemma twp_scandir p filt (Q : option (list (string * bool)) → fstate → Prop) s :
  wf_below (resolve p) (files s) →
  (∀ s', files s' = files s →
    (∃ n, fs_fault F_scandir n ≠ 0) ∨ files s !! resolve p ≠ Some NDir → Q None s') →
  (∀ l s', files s' = files s → files s !! resolve p = Some NDir →
    scanned (files s) (resolve p) filt l → Q (Some l) s') →
  twp (scandir p filt) Q s.
Proof.
  intros Hwf Hb Hg. apply twp_bind, twp_scandir_types; [done| |].
  - intros e s' Hs He. apply twp_ret, Hb; [done|].
    destruct He as [(He & _ & _ & n & ->)|[_ He]]; [left; by exists n|by right].
  - intros l s' Hs Hd Hl. apply twp_ret, Hg; [done|done|]. by apply listed_scanned.
Qed.
End rules.

(** ** Calls that do not fail *)
Section calm.
Context {FE : FsEnv}.
Implicit Types (s : fstate) (f : tree).

Definition never_fails (k : fscall) : Prop := ∀ n, fs_fault k n = 0.

Lemma twp_fcall_calm {A} (k : fscall) (bad : Z → tree → A * tree) (good : tree → A * tree)
    (Q : A → fstate → Prop) s :
  never_fails k → (∀ s', files s' = (good (files s)).2 → Q (good (files s)).1 s') →
  twp (fcall k bad good) Q s.
Proof.
  intros Hk Hg. apply twp_fcall; [|done]. intros e s' (He & _ & _ & n & ->). by rewrite Hk in He.
Qed.

Lemma twp_fcall_fails {A} (k : fscall) (bad : Z → tree → A * tree) (good : tree → A * tree)
    (Q : A → fstate → Prop) s :
  (∀ n, fs_fault k n ≠ 0) → (∀ e s', files s' = (bad e (files s)).2 → Q (bad e (files s)).1 s') →
  twp (fcall k bad good) Q s.
Proof.
  intros Hk Hb. unfold twp, fcall. destruct (fs_fault k (calls s) =? 0) eqn:E; zbool; [by destruct (Hk (calls s))|].
  specialize (Hb (fs_fault k (calls s)) (FState (bad (fs_fault k (calls s)) (files s)).2 (S (calls s))) eq_refl).
  by destruct (bad _ (files s)).
Qed.

Lemma twp_exists_calm p (Q : bool * Z → fstate → Prop) s :
  never_fails F_stat →
  (∀ s', files s' = files s → Q (bool_decide (is_Some (files s !! resolve p)), 0) s') →
  twp (exists_ p) Q s.
Proof.
  intros Hk Hg. apply twp_exists; [|done]. intros e s' (He & _ & _ & n & ->). by rewrite Hk in He.
Qed.

Lemma twp_is_directory_calm p (Q : bool * Z → fstate → Prop) s :
  never_fails F_stat →
  (∀ e s', files s' = files s → Q (is_dir (files s) (resolve p), e) s') →
  twp (is_directory p) Q s.
Proof.
  intros Hk Hg. apply twp_is_directory; [|done]. intros e s' (He & _ & _ & n & ->). by rewrite Hk in He.
Qed.

Lemma twp_rename_calm from to (Q : Z → fstate → Prop) s :
  never_fails F_rename →
  (∀ s', files s' = (rename_body (resolve from) (resolve to) (files s)).2 →
    Q (rename_body (resolve from) (resolve to) (files s)).1 s') →
  twp (rename from to) Q s.
Proof. intros Hk. by apply twp_fcall_calm. Qed.

#[global] Instance deeper_trans : Transitive deeper.
Proof. intros p q r. unfold deeper. lia. Qed.
#[global] Instance deeper_total : Total deeper.
Proof. intros p q. unfold deeper. lia. Qed.

Lemma remove_body_empty q f :
  names f q = [] → (remove_body q f).1.2 = 0 ∧ (remove_body q f).2 = delete q f.
Proof.
  intros Hn. unfold remove_body. rewrite Hn.
  destruct (f !! q) as [[]|] eqn:E; cbn; try done. by rewrite delete_id.
Qed.

(** Children first, no directory is found full. *)
Lemma remove_each_calm d ps (Q : Z → fstate → Prop) s :
  never_fails F_remove → StronglySorted deeper ps → Forall (λ p, d `prefix_of` p) ps →
  (∀ p, d `prefix_of` p → is_Some (files s !! p) → p ∈ ps) →
  (∀ s', (∀ p, ¬ d `prefix_of` p → files s' !! p = files s !! p) →
    (∀ r, files s' !! (d ++ r) = None) → Q 0 s') →
  twp (remove_each ps) Q s.
Proof.
  intros Hk. revert s Q. induction ps as [|q ps IH]; intros s Q Hs Hd Hall HQ; cbn [remove_each].
  - apply twp_ret, HQ; [done|]. intros r. destruct (files s !! (d ++ r)) eqn:E; [|done].
    exfalso. eapply not_elem_of_nil, Hall; [by eexists|by eexists].
  - apply StronglySorted_inv in Hs as [Hs Hq]. apply Forall_cons in Hd as [Hdq Hd].
    assert (names (files s) q = []) as Hn.
    { destruct (names (files s) q) as [|n l] eqn:En; [done|exfalso].
      assert (n ∈ names (files s) q) as Hin by (rewrite En; by left).
      apply elem_of_names in Hin. apply Hall in Hin; [|etrans; [exact Hdq|by eexists]].
      assert (length q < length (q ++ [n]))%nat by (rewrite length_app; cbn; lia).
      apply elem_of_cons in Hin as [E|Hin]; [rewrite E in *; lia|].
      rewrite Forall_forall in Hq. specialize (Hq _ Hin). unfold deeper in Hq. lia. }
    apply twp_bind, twp_fcall_calm; [done|]. intros s1 Hf.
    destruct (remove_body_empty q (files s) Hn) as [He Hdel]. rewrite Hdel in Hf.
    destruct (remove_body q (files s)).1 as [b e]. cbn [snd] in He. subst e. cbn.
    apply IH; [done|done| |].
    + intros p Hp Hin. rewrite Hf in Hin. destruct (decide (p = q)) as [->|Hne].
      { rewrite lookup_delete_eq in Hin. by destruct Hin. }
      rewrite lookup_delete_ne in Hin by done. apply Hall in Hin; [|done].
      by apply elem_of_cons in Hin as [?|?].
    + intros s2 Ho Hg. apply HQ; [|done]. intros p Hp. rewrite Ho, Hf by done.
      apply lookup_delete_ne. by intros ->.
Qed.

Lemma twp_remove_all_calm p (Q : Z → fstate → Prop) s :
  never_fails F_remove →
  (∀ s', (∀ q, ¬ resolve p `prefix_of` q → files s' !! q = files s !! q) →
    (∀ r, files s' !! (resolve p ++ r) = None) → Q 0 s') →
  twp (remove_all p) Q s.
Proof.
  intros Hk HQ. unfold twp, remove_all. apply (remove_each_calm (resolve p)); [done| | | |done].
  - apply StronglySorted_merge_sort; apply _.
  - apply Forall_forall. intros q Hq. by apply elem_of_paths_under in Hq as [? _].
  - intros q Hq Hs. by apply elem_of_paths_under.
Qed.

Lemma tree_is_dir_Some f p : is_dir f p = true ↔ f !! p = Some NDir.
Proof. apply bool_decide_eq_true. Qed.
End calm.

(** ** Depth and siblings *)

(** The tree below [s] is less than [n] levels deep. *)
Definition deep (s : path) (f : tree) (n : nat) : Prop :=
  (0 < n)%nat ∧ ∀ r, is_Some (f !! (s ++ r)) → (length r < n)%nat.
Lemma deep_ext d f f' n : (∀ r, f' !! (d ++ r) = f !! (d ++ r)) → deep d f n → deep d f' n.
Proof. intros E [H0 H]. split; [done|]. intros r. rewrite E. apply H. Qed.

(** Entries with different names do not disturb each other. *)
Lemma sibling_frame s d n m r :
  apart s d → n ≠ m →
  (¬ s ++ [n] `prefix_of` s ++ [m] ++ r ∧ ¬ d ++ [n] `prefix_of` s ++ [m] ++ r) ∧
  (¬ s ++ [n] `prefix_of` d ++ [m] ++ r ∧ ¬ d ++ [n] `prefix_of` d ++ [m] ++ r).
Proof.
  intros Ha Hne. rewrite (app_assoc s), (app_assoc d).
  split_and!; apply apart_sub;
    first [by apply apart_siblings|by apply apart_below|by apply apart_sym, apart_below].
Qed.

(** ** Deciding the hypotheses on concrete trees *)

(** [wf_tree], decided. *)
Definition valid_nameb (n : string) : bool :=
  (negb (n =? "") && negb (n =? ".") && negb (n =? ".."))%string && negb (has_slash n).
Definition wf_treeb (f : tree) : bool :=
  is_dir f [] && forallb (λ p, match rev p with
    | [] => true | n :: q => is_dir f (rev q) && valid_nameb n end) (elements (dom f)).

Lemma wf_treeb_sound f : wf_treeb f = true → wf_tree f.
Proof.
  intros [H0 H]%andb_prop. split; [by apply tree_is_dir_Some|]. intros r n Hin.
  rewrite List.forallb_forall in H. specialize (H (r ++ [n])). cbn [app] in *.
  rewrite rev_unit, rev_involutive in H.
  destruct (andb_prop _ _ (H ltac:(by apply list_elem_of_In, elem_of_elements, elem_of_dom))) as [Hd Hv].
  split; [by apply tree_is_dir_Some|]. unfold valid_nameb in Hv.
  apply andb_prop in Hv as [Hv Hs]. apply andb_prop in Hv as [Hv H3]. apply andb_prop in Hv as [H1 H2].
  apply negb_true_iff in H1, H2, H3, Hs. apply String.eqb_neq in H1, H2, H3. by repeat split.
Qed.

Definition deepb (s : path) (f : tree) (n : nat) : bool :=
  (0 <? n)%nat && forallb (λ p, implb (bool_decide (s `prefix_of` p))
    (length p - length s <? n)%nat) (elements (dom f)).
Lemma deepb_sound s f n : deepb s f n = true → deep s f n.
Proof.
  intros [H0 H]%andb_prop. split; [by apply Nat.ltb_lt|]. intros r Hr.
  rewrite List.forallb_forall in H. specialize (H (s ++ r)).
  rewrite bool_decide_eq_true_2 in H by (by eexists). cbn in H. apply Nat.ltb_lt in H.
  - rewrite length_app in H. lia.
  - by apply list_elem_of_In, elem_of_elements, elem_of_dom.
Qed.

Lemma apart_dec_sound a b :
  bool_decide (a `prefix_of` b) || bool_decide (b `prefix_of` a) = false → apart a b.
Proof.
  intros [H1 H2]%orb_false_elim. split; [by apply bool_decide_eq_false in H1|by apply bool_decide_eq_false in H2].
Qed.
