(* ===== verification/MoveDir.v ===== *)
(** * Moving a directory

    Models [movedir_core.cpp] over the file system of [FsTree]: merging the
    source into a directory of the same name below the destination, with the
    four modes, renaming where the device allows and copying where it does not.
    The [deque] of conflicting files is passed along; a string is concatenated
    and cut the way the source does it, so that a trailing slash means here what
    it means there.  [RecurMoveDir] recurses into directories; fuel bounds the
    depth, and more than the depth of the source tree is enough. *)

From S2P Require Import Prelude FsTree.

Definition ERRNO_NOERR : Z := 0.
Definition DIRMODE_MIN : Z := 0.
Definition DIRMODE_MAX : Z := 3.

Inductive ModeOfMoveDir :=
  | DIRMODE_DIRECTORY_THROW_ERR | DIRMODE_FILE_THROW_ERR
  | DIRMODE_FILE_REPLACE | DIRMODE_DIRECTORY_REPLACE.
Definition mode_value (m : ModeOfMoveDir) : Z :=
  match m with
  | DIRMODE_DIRECTORY_THROW_ERR => 0 | DIRMODE_FILE_THROW_ERR => 1
  | DIRMODE_FILE_REPLACE => 2 | DIRMODE_DIRECTORY_REPLACE => 3
  end.
Coercion mode_value : ModeOfMoveDir >-> Z.

Record ErrFiles := ErrFile { srcFiles : string; destFiles : string }.
Record MoveDirResult := MoveResult {
  fsResult : option Z;                   (** the error, [None] for success *)
  errFiles : option (list ErrFiles)
}.

Section movedir.
Context {FE : FsEnv}.

Definition JudgeExistAndEmpty (path : string) : st fstate (bool * bool) :=
  '(ex, _) ← exists_ path;
  if ex : bool then
    em ← is_empty path;
    sret (if em : bool then (true, true) else (true, false))
  else sret (false, false).

Definition RmDirectory (path : string) : st fstate Z :=
  '(ex, existsErrCode) ← exists_ path;
  if ex : bool then
    removeErrCode ← remove_all path;
    sret (if negb (removeErrCode =? 0) then removeErrCode else ERRNO_NOERR)
  else sret (if negb (existsErrCode =? ERRNO_NOERR) then existsErrCode else ERRNO_NOERR).

Definition RemovePath (pathStr : string) : st fstate Z :=
  '(ok, errCode) ← remove pathStr;
  sret (if negb ok then errCode else ERRNO_NOERR).

Definition CopyAndDeleteFile (src dest : string) : st fstate Z :=
  '(ex, _) ← exists_ dest;
  removeRes ← (if ex : bool then RemovePath dest else sret 0);
  if negb (removeRes =? 0) then sret removeRes else
  '(ok, errCode) ← copy_file src dest;
  if negb ok then sret errCode else RemovePath src.

Definition RenameFile (src dest : string) (mode : Z) (errfiles : list ErrFiles) :
    st fstate (Z * list ErrFiles) :=
  '(ex, _) ← exists_ dest;
  '(dir, _) ← (if ex : bool then is_directory dest else sret (false, 0));
  if ex && dir then sret (ERRNO_NOERR, ErrFile src dest :: errfiles) else
  if ex && (mode =? DIRMODE_FILE_THROW_ERR)
  then sret (ERRNO_NOERR, errfiles ++ [ErrFile src dest]) else
  errCode ← rename src dest;
  if errCode =? EXDEV then ret ← CopyAndDeleteFile src dest; sret (ret, errfiles)
  else sret (errCode, errfiles).

(** [scandir] keeps an entry when this is not [FILE_DISMATCH]. *)
Definition FilterFunc (d_name : string) : bool :=
  if (d_name =? ".")%string || (d_name =? "..")%string then false else true.

(** The calls of [RecurMoveDir] go through [rec]. *)
Section rec.
Context (rec : string → string → Z → list ErrFiles → st fstate (Z * list ErrFiles)).

Definition RenameDir (src dest : string) (mode : Z) (errfiles : list ErrFiles) :
    st fstate (Z * list ErrFiles) :=
  '(ex, errCode) ← exists_ dest;
  if ex : bool then rec src dest mode errfiles
  else if negb (errCode =? ERRNO_NOERR) then sret (errCode, errfiles)
  else
    errCode ← rename src dest;
    if errCode =? EXDEV then
      '(created, errCode) ← create_directory dest;
      if negb created then sret (errCode, errfiles) else rec src dest mode errfiles
    else if negb (errCode =? 0) then sret (errCode, errfiles)
    else sret (ERRNO_NOERR, errfiles).

(** The loop over [namelist]; an entry has its name and whether its [d_type] is
    [DT_DIR]. *)
Fixpoint MoveEntries (srcPath destPath : string) (mode : Z) (namelist : list (string * bool))
    (errfiles : list ErrFiles) : st fstate (Z * list ErrFiles) :=
  match namelist with
  | [] => sret (ERRNO_NOERR, errfiles)
  | (d_name, isDir) :: namelist =>
      let src := child srcPath d_name in
      let dest := child destPath d_name in
      if isDir : bool then
        '(res, errfiles') ← RenameDir src dest mode errfiles;
        if negb (res =? ERRNO_NOERR) then sret (res, errfiles')
        else if negb (length errfiles =? length errfiles')%nat
        then MoveEntries srcPath destPath mode namelist errfiles'
        else
          res ← RemovePath src;
          if negb (res =? 0) then sret (res, errfiles')
          else MoveEntries srcPath destPath mode namelist errfiles'
      else
        '(res, errfiles') ← RenameFile src dest mode errfiles;
        if negb (res =? ERRNO_NOERR) then sret (res, errfiles')
        else MoveEntries srcPath destPath mode namelist errfiles'
  end.
End rec.

Fixpoint RecurMoveDir (fuel : nat) (srcPath destPath : string) (mode : Z)
    (errfiles : list ErrFiles) : st fstate (Z * list ErrFiles) :=
  match fuel with
  | O => λ _, None
  | S fuel =>
      '(dir, _) ← is_directory destPath;
      if negb dir then sret (ERRNO_NOERR, ErrFile srcPath destPath :: errfiles) else
      ptr ← alloc;
      if negb ptr then sret (ENOMEM, errfiles) else
      namelist ← scandir srcPath FilterFunc;
      (* a failure answers [num = -1], and the loop does not run *)
      MoveEntries (RecurMoveDir fuel) srcPath destPath mode (default [] namelist) errfiles
  end.

(** The end of [MoveDirFunc]: move, then remove what is left of the source. *)
Definition MoveAndClean (fuel : nat) (src destStr : string) (mode : Z) (errfiles : list ErrFiles) :
    st fstate (Z * list ErrFiles) :=
  '(res, errfiles) ← RenameDir (RecurMoveDir fuel) src destStr mode errfiles;
  if res =? ERRNO_NOERR then
    match errfiles with
    | _ :: _ => sret (EEXIST, errfiles)
    | [] =>
        removeRes ← RmDirectory src;
        sret (if negb (removeRes =? 0) then removeRes else res, errfiles)
    end
  else sret (res, errfiles).

(** A destination that has contents, [full], is dealt with first. *)
Definition MoveOver (fuel : nat) (src destStr : string) (mode : Z) (full : bool)
    (errfiles : list ErrFiles) : st fstate (Z * list ErrFiles) :=
  removeRes ← (if full && (mode =? DIRMODE_DIRECTORY_REPLACE) then RmDirectory destStr else sret 0);
  if negb (removeRes =? 0) then sret (removeRes, errfiles) else
  if full && (mode =? DIRMODE_DIRECTORY_THROW_ERR) then sret (ENOTEMPTY, errfiles) else
  MoveAndClean fuel src destStr mode errfiles.

Definition MoveDirFunc (fuel : nat) (src dest : string) (mode : Z) (errfiles : list ErrFiles) :
    st fstate (Z * list ErrFiles) :=
  match rsplit src with
  | None => sret (EINVAL, errfiles)
  | Some (_, name) =>
      let destStr := child dest name in
      '(destStrExist, destStrEmpty) ← JudgeExistAndEmpty destStr;
      MoveOver fuel src destStr mode (destStrExist && negb destStrEmpty) errfiles
  end.

Definition ValidMoveDirArg (src dest : string) (mode : option Z) : st fstate (bool * Z) :=
  '(srcDir, _) ← is_directory src;
  if negb srcDir then sret (false, 0) else
  '(destDir, _) ← is_directory dest;
  if negb destDir then sret (false, 0) else
  sret (match mode with
        | Some modeType =>
            if (modeType <? DIRMODE_MIN) || (modeType >? DIRMODE_MAX) then (false, 0)
            else (true, modeType)
        | None => (true, 0)
        end).

Definition DoMoveDir (fuel : nat) (src dest : string) (modeType : option Z) :
    st fstate MoveDirResult :=
  '(succ, mode) ← ValidMoveDirArg src dest modeType;
  if negb succ then sret (MoveResult (Some EINVAL) None) else
  '(ret, errfiles) ← MoveDirFunc fuel src dest mode [];
  sret (if ret =? EEXIST then MoveResult (Some EEXIST) (Some errfiles)
        else if negb (ret =? 0) then MoveResult (Some ret) None
        else MoveResult None None).
End movedir.

(** ** What moving one entry does *)

(** Every file of [s] keeps its data, there or at the same place below [d]. *)
Definition kept (s d : path) (f f' : tree) : Prop :=
  ∀ r x, f !! (s ++ r) = Some (NFile x) →
    f' !! (s ++ r) = Some (NFile x) ∨ f' !! (d ++ r) = Some (NFile x).
Definition all_moved (s d : path) (f f' : tree) : Prop :=
  ∀ r x, f !! (s ++ r) = Some (NFile x) → f' !! (d ++ r) = Some (NFile x).
Definition framed (s d : path) (f f' : tree) : Prop :=
  ∀ p, ¬ s `prefix_of` p → ¬ d `prefix_of` p → f' !! p = f !! p.
Definition shrinks (s : path) (f f' : tree) : Prop :=
  ∀ r, f' !! (s ++ r) = f !! (s ++ r) ∨ f' !! (s ++ r) = None.

Record entry_post (s d : path) (errs : list ErrFiles) (f : tree) (ret : Z) (errs' : list ErrFiles)
    (f' : tree) : Prop := {
  ep_kept : kept s d f f';
  ep_done : ret = 0 → length errs' = length errs → all_moved s d f f';
  ep_frame : framed s d f f';
  ep_shrink : shrinks s f f';
  ep_errs : (length errs <= length errs')%nat
}.

Lemma entry_post_same s d errs f ret errs' :
  (length errs <= length errs')%nat → (ret = 0 → length errs' = length errs → False) →
  entry_post s d errs f ret errs' f.
Proof.
  intros Hl Hd. split; [by intros r x; left|intros E1 E2; by destruct Hd|done|by left|done].
Qed.

Lemma renamed_post s d errs f f' : apart s d → renamed s d f f' → entry_post s d errs f 0 errs f'.
Proof.
  intros Ha (_ & _ & ->).
  assert (all_moved s d f (relocate s d f)) as Hm by (intros r x Hx; by rewrite lookup_relocate_in).
  split; [intros r x Hx; right; by apply Hm|done| | |done].
  - intros p Hs Hd. by rewrite lookup_relocate_out, decide_False.
  - intros r. right. rewrite lookup_relocate_out, decide_True; [done|by eexists|].
    by apply apart_sub, apart_sym.
Qed.

(** Changes at and below [d] first. *)
Lemma entry_post_before s d errs f f1 ret errs' f' :
  apart s d → (∀ p, ¬ d `prefix_of` p → f1 !! p = f !! p) →
  entry_post s d errs f1 ret errs' f' → entry_post s d errs f ret errs' f'.
Proof.
  intros Ha Hf [Hk Hd Hfr Hsh He].
  assert (∀ r, f1 !! (s ++ r) = f !! (s ++ r)) as Hs.
  { intros r. apply Hf. by apply apart_sub, apart_sym. }
  split; [intros r x; rewrite <- Hs; apply Hk|intros E1 E2 r x; rewrite <- Hs; by apply Hd| | |done].
  - intros p H1 H2. rewrite <- (Hf p H2). by apply Hfr.
  - intros r. rewrite <- Hs. apply Hsh.
Qed.

(** [s] itself, which is no file, may go afterwards. *)
Lemma entry_post_after s d errs f ret errs' f1 f' r :
  apart s d → f !! s = Some NDir → removed_at s r f1 f' →
  entry_post s d errs f ret errs' f1 → entry_post s d errs f ret errs' f'.
Proof.
  intros Ha Hdir Hr [Hk Hd Hfr Hsh He].
  assert (∀ p, p ≠ s → f' !! p = f1 !! p) as Ho by (intros p; eapply removed_at_other; exact Hr).
  assert (∀ k x, f !! (s ++ k) = Some (NFile x) → s ++ k ≠ s ∧ d ++ k ≠ s) as Hne.
  { intros k x Hx. split; intros E; [rewrite E in Hx; congruence|].
    destruct Ha as [_ Ha]. apply Ha. rewrite <- E. by eexists. }
  split; [| | | |done].
  - intros k x Hx. destruct (Hne k x Hx) as [N1 N2]. rewrite !Ho by done. by apply Hk.
  - intros E1 E2 k x Hx. destruct (Hne k x Hx) as [N1 N2]. rewrite Ho by done. by apply Hd.
  - intros p H1 H2. rewrite Ho; [by apply Hfr|]. intros ->. by apply H1.
  - intros k. destruct (removed_at_pruned _ _ _ _ Hr (s ++ k)) as [->|]; [apply Hsh|by right].
Qed.

Section specs.
Context {FE : FsEnv}.

Lemma twp_RemovePath p (Q : Z → fstate → Prop) s :
  (∀ r s', removed_at (resolve p) r (files s) (files s') → Q r.2 s') →
  twp (RemovePath p) Q s.
Proof.
  intros HQ. apply twp_bind, twp_remove_at. intros [b e] s' Hr. apply twp_ret.
  specialize (HQ _ _ Hr). cbn [snd] in HQ. destruct b; [|done].
  destruct Hr as [Hr _]. cbn [fst snd] in Hr. by rewrite Hr in HQ.
Qed.

(** Copying one file over the destination. *)
Lemma CopyAndDeleteFile_spec src dest errs s :
  apart (resolve src) (resolve dest) → wf_below (resolve src) (files s) →
  twp (CopyAndDeleteFile src dest)
    (λ ret s', entry_post (resolve src) (resolve dest) errs (files s) ret errs (files s')) s.
Proof.
  intros Ha Hwf. set (sp := resolve src) in *. set (dp := resolve dest) in *.
  assert (Hfail : ∀ f1 ret, (∀ p, p ≠ dp → f1 !! p = files s !! p) → ret ≠ 0 →
    entry_post sp dp errs (files s) ret errs f1).
  { intros f1 ret Hf1 Hne. apply (entry_post_before _ _ _ _ f1); [done| |by apply entry_post_same].
    intros p Hp. apply Hf1. intros ->. by apply Hp. }
  assert (Hgo : ∀ removeRes s1, (∀ p, p ≠ dp → files s1 !! p = files s !! p) →
    twp (if negb (removeRes =? 0) then sret removeRes else
         '(ok, errCode) ← copy_file src dest; if negb ok then sret errCode else RemovePath src)
      (λ ret s', entry_post sp dp errs (files s) ret errs (files s')) s1).
  { intros removeRes s1 H1. destruct (removeRes =? 0) eqn:E; zbool; cbn [negb].
    2: { by apply twp_ret, Hfail. }
    apply twp_bind, twp_copy_file.
    - intros e s2 He Hs2. fold dp in Hs2. apply twp_ret, Hfail; [|done]. intros p Hp.
      destruct Hs2 as [->|[x ->]]; [by apply H1|]. rewrite lookup_insert_ne by done. by apply H1.
    - intros data s2 Hsrc Hne Hs2. cbn [negb]. apply twp_RemovePath. intros [b e] s3 Hr. cbn [snd]. fold sp dp in Hsrc, Hne, Hs2, Hr.
      rewrite H1 in Hsrc by done.
      assert (∀ p, p ≠ sp → p ≠ dp → files s3 !! p = files s !! p) as Ho.
      { intros p Hp1 Hp2. rewrite (removed_at_other _ _ _ _ _ Hr Hp1), Hs2, lookup_insert_ne by done.
        by apply H1. }
      assert (files s3 !! dp = Some (NFile data)) as Hdp.
      { rewrite (removed_at_other _ _ _ _ _ Hr) by done. by rewrite Hs2, lookup_insert_eq. }
      assert (all_moved sp dp (files s) (files s3)) as Hm.
      { intros r x Hx. assert (r = []) as ->.
        { apply (wf_below_leaf sp (files s)); [done|by rewrite Hsrc|by eexists]. }
        rewrite app_nil_r in *. congruence. }
      split; [intros r x Hx; right; by apply Hm|done| | |done].
      + intros p N1 N2. apply Ho; intros ->; [by apply N1|by apply N2].
      + intros r. destruct (removed_at_pruned _ _ _ _ Hr (sp ++ r)) as [->|]; [left|by right].
        rewrite Hs2, lookup_insert_ne, H1; [done| |];
          [intros E'|intros E']; by apply (apart_sub dp sp r (apart_sym _ _ Ha)); rewrite <- E'. }
  unfold CopyAndDeleteFile. apply twp_bind, twp_exists.
  - intros e s1 _ H1. apply twp_bind, twp_ret, Hgo. by rewrite H1.
  - intros s1 H1. apply twp_bind. destruct (bool_decide _).
    + apply twp_RemovePath. intros r s2 Hr. fold dp in Hr. apply Hgo. intros p Hp.
      by rewrite (removed_at_other _ _ _ _ _ Hr Hp), H1.
    + apply twp_ret, Hgo. by rewrite H1.
Qed.

Lemma RenameFile_spec src dest mode errs s :
  apart (resolve src) (resolve dest) → wf_below (resolve src) (files s) →
  twp (RenameFile src dest mode errs) (λ r s',
    entry_post (resolve src) (resolve dest) errs (files s) r.1 r.2 (files s')) s.
Proof.
  intros Ha Hwf. unfold RenameFile.
  assert (Hgo : ∀ s1, files s1 = files s →
    twp (errCode ← rename src dest;
         if errCode =? EXDEV then ret ← CopyAndDeleteFile src dest; sret (ret, errs)
         else sret (errCode, errs)) (λ r s',
      entry_post (resolve src) (resolve dest) errs (files s) r.1 r.2 (files s')) s1).
  { intros s1 H1. apply twp_bind, twp_rename.
    - intros E. rewrite E in Ha. by destruct Ha as [[] _].
    - intros e s2 He Hs2. destruct (e =? EXDEV) eqn:E; zbool.
      + apply twp_bind. eapply twp_mono; [apply (CopyAndDeleteFile_spec src dest errs)|].
        * done.
        * by rewrite Hs2, H1.
        * intros ret s3 H3. apply twp_ret. by rewrite Hs2, H1 in H3.
      + apply twp_ret. rewrite Hs2, H1. by apply entry_post_same.
    - intros s2 Hr. apply twp_ret. rewrite H1 in Hr. by apply renamed_post. }
  assert (Hend : ∀ ex dir s2, files s2 = files s →
    twp (if ex && dir then sret (ERRNO_NOERR, ErrFile src dest :: errs) else
         if ex && (mode =? DIRMODE_FILE_THROW_ERR)
         then sret (ERRNO_NOERR, errs ++ [ErrFile src dest]) else
         errCode ← rename src dest;
         if errCode =? EXDEV then ret ← CopyAndDeleteFile src dest; sret (ret, errs)
         else sret (errCode, errs)) (λ r s',
      entry_post (resolve src) (resolve dest) errs (files s) r.1 r.2 (files s')) s2).
  { intros ex dir s2 H2. destruct (ex && dir); [|destruct (ex && _)]; [| |by apply Hgo];
      apply twp_ret; rewrite H2; apply entry_post_same; cbn; rewrite ?length_app; cbn; lia. }
  apply twp_bind, twp_exists.
  - intros e s1 _ H1. apply twp_bind, twp_ret. by apply Hend.
  - intros s1 H1. apply twp_bind. destruct (bool_decide _); [|apply twp_ret; by apply Hend].
    apply twp_is_directory; intros e s2 **; apply Hend; congruence.
Qed.

(** What the recursive calls guarantee for trees less than [n] deep. *)
Definition rec_ok (n : nat)
    (rec : string → string → Z → list ErrFiles → st fstate (Z * list ErrFiles)) : Prop :=
  ∀ src dest mode errs s, apart (resolve src) (resolve dest) → wf_below (resolve src) (files s) →
    files s !! resolve src = Some NDir → deep (resolve src) (files s) n →
    twp (rec src dest mode errs) (λ r s',
      entry_post (resolve src) (resolve dest) errs (files s) r.1 r.2 (files s')) s.

Lemma RenameDir_spec n rec : rec_ok n rec → rec_ok n (RenameDir rec).
Proof.
  intros Hrec src dest mode errs s Ha Hwf Hdir Hdeep. unfold RenameDir.
  apply twp_bind, twp_exists.
  { intros e s1 (He & _) H1. apply Z.eqb_neq in He as E. unfold ERRNO_NOERR. rewrite E. cbn [negb].
    apply twp_ret. rewrite H1. by apply entry_post_same. }
  intros s1 H1. destruct (bool_decide _) eqn:Ex.
  { rewrite <- H1 in *. by apply Hrec. }
  apply bool_decide_eq_false in Ex. cbn [negb]. unfold ERRNO_NOERR. rewrite Z.eqb_refl. cbn [negb].
  apply twp_bind, twp_rename.
  - intros E. rewrite E in Ha. by destruct Ha as [[] _].
  - intros e s2 He Hs2. destruct (e =? EXDEV) eqn:E; zbool.
    + apply twp_bind, twp_create_directory.
      * rewrite Hs2, H1. by apply eq_None_not_Some.
      * intros e3 s3 He3 Hs3. cbn [negb]. apply twp_ret. rewrite Hs3, Hs2, H1. by apply entry_post_same.
      * intros s3 Hs3. cbn [negb]. rewrite Hs2, H1 in Hs3.
        assert (∀ p, ¬ resolve dest `prefix_of` p → files s3 !! p = files s !! p) as Hf.
        { intros p Hp. rewrite Hs3, lookup_insert_ne; [done|]. intros E'. apply Hp. by rewrite E'. }
        assert (∀ r, files s3 !! (resolve src ++ r) = files s !! (resolve src ++ r)) as Hsub.
        { intros r. apply Hf. by apply apart_sub, apart_sym. }
        eapply twp_mono.
        -- apply Hrec; [done|by eapply wf_below_ext| |by eapply deep_ext].
           specialize (Hsub []). rewrite app_nil_r in Hsub. by rewrite Hsub.
        -- intros r s4 H4. by eapply entry_post_before.
    + apply Z.eqb_neq in He as E0. rewrite E0. cbn [negb]. apply twp_ret. rewrite Hs2, H1.
      by apply entry_post_same.
  - intros s2 Hr. cbn. apply twp_ret. rewrite H1 in Hr. by apply renamed_post.
Qed.

(** The entries [ns] of [s] moved to [d]. *)
Record loop_post (s d : path) (ns : list string) (errs : list ErrFiles) (f : tree) (ret : Z)
    (errs' : list ErrFiles) (f' : tree) : Prop := {
  lp_kept n : n ∈ ns → kept (s ++ [n]) (d ++ [n]) f f';
  lp_done n : n ∈ ns → ret = 0 → length errs' = length errs → all_moved (s ++ [n]) (d ++ [n]) f f';
  lp_frame p : (∀ n, n ∈ ns → ¬ s ++ [n] `prefix_of` p ∧ ¬ d ++ [n] `prefix_of` p) → f' !! p = f !! p;
  lp_shrink n : n ∈ ns → shrinks (s ++ [n]) f f';
  lp_errs : (length errs <= length errs')%nat
}.

Lemma entry_sibling s d n m errs f ret errs' f1 r :
  apart s d → n ≠ m → entry_post (s ++ [n]) (d ++ [n]) errs f ret errs' f1 →
  f1 !! ((s ++ [m]) ++ r) = f !! ((s ++ [m]) ++ r) ∧ f1 !! ((d ++ [m]) ++ r) = f !! ((d ++ [m]) ++ r).
Proof.
  intros Ha Hne H. destruct (sibling_frame s d n m r Ha Hne) as [[H1 H2] [H3 H4]].
  rewrite <- !app_assoc. split; by apply (ep_frame _ _ _ _ _ _ _ H).
Qed.

Lemma loop_post_stop s d n ns errs f ret errs' f1 :
  apart s d → n ∉ ns → ret ≠ 0 → entry_post (s ++ [n]) (d ++ [n]) errs f ret errs' f1 →
  loop_post s d (n :: ns) errs f ret errs' f1.
Proof.
  intros Ha Hn Hret He. pose proof He as [Hk Hd Hfr Hsh Hl].
  assert (∀ m r, m ∈ ns → f1 !! ((s ++ [m]) ++ r) = f !! ((s ++ [m]) ++ r)) as Hs.
  { intros m r Hm. apply (entry_sibling s d n m errs f ret errs' f1 r Ha); [|done]. by intros ->. }
  split; [| | | |done].
  - intros m [->|Hm]%elem_of_cons; [done|]. intros r x Hx. left. by rewrite Hs.
  - done.
  - intros p Hp. destruct (Hp n) as [? ?]; [left|]. by apply Hfr.
  - intros m [->|Hm]%elem_of_cons; [done|]. intros r. left. by apply Hs.
Qed.

Lemma entries_post_cons s d n ns errs f errs1 f1 ret errs' f' :
  apart s d → n ∉ ns → entry_post (s ++ [n]) (d ++ [n]) errs f 0 errs1 f1 →
  loop_post s d ns errs1 f1 ret errs' f' → loop_post s d (n :: ns) errs f ret errs' f'.
Proof.
  intros Ha Hn He [Hk2 Hd2 Hfr2 Hsh2 Hl2]. pose proof He as [Hk Hd Hfr Hsh Hl].
  assert (∀ m r, m ∈ ns → f1 !! ((s ++ [m]) ++ r) = f !! ((s ++ [m]) ++ r)) as Hs.
  { intros m r Hm. apply (entry_sibling s d n m errs f 0 errs1 f1 r Ha); [|done]. by intros ->. }
  assert (∀ r, f' !! ((s ++ [n]) ++ r) = f1 !! ((s ++ [n]) ++ r) ∧
               f' !! ((d ++ [n]) ++ r) = f1 !! ((d ++ [n]) ++ r)) as Hn2.
  { intros r. rewrite <- !app_assoc. split; apply Hfr2; intros m Hm;
      (destruct (sibling_frame s d m n r Ha) as [[H1 H2] [H3 H4]]; [by intros ->|done]). }
  split; [| | | |lia].
  - intros m [->|Hm]%elem_of_cons r x Hx.
    + destruct (Hn2 r) as [-> ->]. by apply Hk.
    + apply Hk2; [done|]. by rewrite Hs.
  - intros m [->|Hm]%elem_of_cons Hret Hlen r x Hx.
    + destruct (Hn2 r) as [_ ->]. apply Hd; [done|lia|done].
    + apply Hd2; [done|done|lia|]. by rewrite Hs.
  - intros p Hp. rewrite Hfr2; [|intros m Hm; apply Hp; by right].
    destruct (Hp n) as [? ?]; [left|]. by apply Hfr.
  - intros m [->|Hm]%elem_of_cons r.
    + destruct (Hn2 r) as [-> _]. apply Hsh.
    + rewrite <- Hs by done. by apply Hsh2.
Qed.

Lemma entry_post_fail s d errs f ret ret' errs' f' :
  ret' ≠ 0 → entry_post s d errs f ret errs' f' → entry_post s d errs f ret' errs' f'.
Proof. intros Hr [Hk Hd Hfr Hsh Hl]. by split. Qed.

(** What is known of an entry before it is moved. *)
Definition entry_ready (s : path) (n : nat) (f : tree) (e : string * bool) : Prop :=
  valid_name e.1 ∧ wf_below (s ++ [e.1]) f ∧
  (e.2 = true → f !! (s ++ [e.1]) = Some NDir ∧ deep (s ++ [e.1]) f n).

Lemma entry_ready_ext s n f f' e :
  (∀ r, f' !! ((s ++ [e.1]) ++ r) = f !! ((s ++ [e.1]) ++ r)) →
  entry_ready s n f e → entry_ready s n f' e.
Proof.
  intros E (H1 & H2 & H3). split; [done|]. split; [by eapply wf_below_ext|]. intros Hd.
  destruct (H3 Hd) as [H4 H5]. split; [|by eapply deep_ext].
  specialize (E []). rewrite app_nil_r in E. by rewrite E.
Qed.

Lemma MoveEntries_spec n rec src dest mode ns errs s :
  rec_ok n rec → apart (resolve src) (resolve dest) → NoDup ns.*1 →
  Forall (entry_ready (resolve src) n (files s)) ns →
  twp (MoveEntries rec src dest mode ns errs) (λ r s',
    loop_post (resolve src) (resolve dest) ns.*1 errs (files s) r.1 r.2 (files s')) s.
Proof.
  intros Hrec Ha. revert errs s. induction ns as [|[name isDir] ns IH]; intros errs s Hnd Hready.
  { apply twp_ret. split; try done; intros m Hm; by apply elem_of_nil in Hm. }
  cbn [fmap list_fmap fst] in *. apply NoDup_cons in Hnd as [Hn Hnd].
  apply Forall_cons in Hready as [(Hv & Hwf & Hdir) Hready]. cbn [fst snd] in *.
  pose proof (resolve_entry src name Hv) as Es. pose proof (resolve_entry dest name Hv) as Ed.
  assert (Ha' : apart (resolve (child src name)) (resolve (child dest name))).
  { rewrite Es, Ed. by apply apart_below. }
  (* once the entry is moved *)
  assert (Hgo : ∀ errs1 s1,
    entry_post (resolve src ++ [name]) (resolve dest ++ [name]) errs (files s) 0 errs1 (files s1) →
    twp (MoveEntries rec src dest mode ns errs1) (λ r s',
      loop_post (resolve src) (resolve dest) (name :: ns.*1) errs (files s) r.1 r.2 (files s')) s1).
  { intros errs1 s1 He. eapply twp_mono; [apply IH; [done|]|].
    - rewrite Forall_forall in Hready |- *. intros e Hin. eapply entry_ready_ext; [|by apply Hready].
      assert (name ≠ e.1) as Hne by (intros ->; apply Hn, list_elem_of_fmap; by exists e).
      intros r. exact (proj1 (entry_sibling _ _ _ _ _ _ _ _ _ r Ha Hne He)).
    - intros r s' Hl. by eapply entries_post_cons. }
  cbn [MoveEntries]. destruct isDir.
  - destruct (Hdir eq_refl) as [Hd Hdeep]. apply twp_bind. eapply twp_mono.
    { apply (RenameDir_spec n rec Hrec); [done|by rewrite Es..]. }
    intros [res errs1] s1 He. cbn [fst snd] in He. rewrite Es, Ed in He. unfold ERRNO_NOERR.
    destruct (res =? 0) eqn:Er; zbool; cbn [negb]; [|by apply twp_ret, loop_post_stop].
    subst res. destruct (length errs =? length errs1)%nat eqn:El; cbn [negb]; [|by apply Hgo].
    apply twp_bind, twp_RemovePath. rewrite Es. intros r s2 Hr.
    assert (entry_post (resolve src ++ [name]) (resolve dest ++ [name]) errs (files s) 0 errs1 (files s2)) as He2.
    { eapply entry_post_after; [by apply apart_below|done|exact Hr|exact He]. }
    destruct (r.2 =? 0) eqn:Er; zbool; cbn [negb]; [by apply Hgo|].
    apply twp_ret, loop_post_stop; try done. by eapply entry_post_fail.
  - apply twp_bind. eapply twp_mono; [apply RenameFile_spec; [done|by rewrite Es]|].
    intros [res errs1] s1 He. cbn [fst snd] in He. rewrite Es, Ed in He. unfold ERRNO_NOERR.
    destruct (res =? 0) eqn:Er; zbool; cbn [negb]; [|by apply twp_ret, loop_post_stop].
    subst res. by apply Hgo.
Qed.

(** All the entries of a directory make the directory. *)
Lemma loop_entry_post s d l errs f ret errs' f' :
  apart s d → wf_below s f → f !! s = Some NDir → scanned f s FilterFunc l →
  loop_post s d l.*1 errs f ret errs' f' → entry_post s d errs f ret errs' f'.
Proof.
  intros Ha Hwf Hdir (_ & _ & Hall & _) [Hk Hd Hfr Hsh Hl].
  assert (Hfile : ∀ r x, f !! (s ++ r) = Some (NFile x) → ∃ m r', r = m :: r' ∧ m ∈ l.*1).
  { intros r x Hx. destruct r as [|m r]; [rewrite app_nil_r in Hx; congruence|].
    exists m, r. split; [done|]. destruct (wf_below_first s f m r Hwf) as [y Hy]; [by eexists|].
    apply Hall; [apply elem_of_names; by eexists|].
    destruct (Hwf [] m) as [_ ((_ & H1 & H2) & _)]; [by eexists|].
    unfold FilterFunc. apply String.eqb_neq in H1 as ->, H2 as ->. done. }
  assert (Hsplit : ∀ (a : path) m r', a ++ m :: r' = (a ++ [m]) ++ r') by (intros; by rewrite <- app_assoc).
  split; [| | | |done].
  - intros r x Hx. destruct (Hfile r x Hx) as (m & r' & -> & Hm). rewrite (Hsplit s m r') in Hx |- *.
    rewrite (Hsplit d m r'). by apply Hk.
  - intros E1 E2 r x Hx. destruct (Hfile r x Hx) as (m & r' & -> & Hm). rewrite (Hsplit s m r') in Hx.
    rewrite (Hsplit d m r'). by apply (Hd m).
  - intros p H1 H2. apply Hfr. intros n _. split; intros Hp;
      [apply H1|apply H2]; (etrans; [|exact Hp]); by eexists.
  - intros r. destruct r as [|m r].
    + left. rewrite app_nil_r. apply Hfr. intros n _. split.
      * intros Hp%prefix_length. rewrite length_app in Hp. cbn in Hp. lia.
      * intros Hp. destruct Ha as [_ Ha]. apply Ha. etrans; [|exact Hp]. by eexists.
    + rewrite (Hsplit s m r). destruct (decide (m ∈ l.*1)) as [Hm|Hm]; [by apply Hsh|left].
      rewrite <- (Hsplit s m r). apply Hfr. intros n Hn.
      destruct (sibling_frame s d n m r Ha) as [H _]; [by intros ->|exact H].
Qed.

(** Directories can be read. *)
Definition scans : Prop := ∀ n, fs_fault F_scandir n = 0.

Lemma RecurMoveDir_spec n : scans → rec_ok n (RecurMoveDir n).
Proof.
  intros Hscan. induction n as [|n IH]; intros src dest mode errs s Ha Hwf Hdir Hdeep.
  { destruct Hdeep as [H0 _]. lia. }
  cbn [RecurMoveDir].
  assert (Hpush : ∀ s1, files s1 = files s → entry_post (resolve src) (resolve dest) errs (files s)
    ERRNO_NOERR (ErrFile src dest :: errs) (files s1)).
  { intros s1 ->. apply entry_post_same; cbn; lia. }
  assert (Hnext : ∀ s1, files s1 = files s →
    twp (ptr ← alloc;
         if negb ptr then sret (ENOMEM, errs) else
         namelist ← scandir src FilterFunc;
         MoveEntries (RecurMoveDir n) src dest mode (default [] namelist) errs)
      (λ r s', entry_post (resolve src) (resolve dest) errs (files s) r.1 r.2 (files s')) s1).
  { intros s1 H1. apply twp_bind, twp_fcall; cbn [fst snd negb].
    { intros e s2 _ H2. apply twp_ret. rewrite H2, H1. by apply entry_post_same. }
    intros s2 H2. apply twp_bind, twp_scandir; rewrite H2, H1; [done| |].
    { intros s3 _ [[k Hk]|Hn]; [by destruct (Hk (Hscan k))|congruence]. }
    intros l s3 H3 _ Hl. cbn [default]. eapply twp_mono.
    - apply (MoveEntries_spec n); [done|done|apply Hl|].
      rewrite H3. apply Forall_forall. intros [m b] Hin. unfold entry_ready. cbn [fst snd].
      destruct Hl as (_ & Hin' & _ & Hdirs). destruct (Hin' m) as [Hf Hm].
      { apply list_elem_of_fmap. by exists (m, b). }
      assert (m ∈ names (files s) (resolve src)) as Hnm.
      { destruct Hm as [Hm|?]; [|done]. unfold FilterFunc in Hf. set_unfold in Hm.
        destruct Hm as [->|[->|[]]]; done. }
      apply elem_of_names in Hnm. split; [by apply (Hwf [] m)|].
      split; [by apply wf_below_sub|]. intros ->. assert (m ∉ [".";".."]%string) as Hdot.
      { apply (Hwf [] m) in Hnm as [_ ((_ & H4 & H5) & _)]. set_solver. }
      specialize (Hdirs m Hin Hdot). split; [done|].
      destruct Hdeep as [_ Hdeep]. split.
      + specialize (Hdeep [m]). rewrite Hdirs in Hdeep. cbn in Hdeep. apply Nat.succ_lt_mono, Hdeep.
        by eexists.
      + intros r. rewrite <- app_assoc. intros Hr%Hdeep. cbn in Hr. lia.
    - intros r s4 H4. rewrite H3 in H4. by eapply loop_entry_post. }
  apply twp_bind, twp_is_directory.
  - intros e s1 _ H1. apply twp_ret. by apply Hpush.
  - intros e s1 H1. destruct (is_dir _ _); cbn [negb]; [by apply Hnext|].
    apply twp_ret. by apply Hpush.
Qed.

Lemma twp_RmDirectory p (Q : Z → fstate → Prop) s :
  (∀ ret s', (∀ q, ¬ resolve p `prefix_of` q → files s' !! q = files s !! q) →
    (ret ≠ 0 ∨ files s' !! resolve p = None) → pruned (files s) (files s') → Q ret s') →
  twp (RmDirectory p) Q s.
Proof.
  intros HQ. unfold RmDirectory, ERRNO_NOERR. apply twp_bind, twp_exists.
  - intros e s1 (He & _) H1. apply Z.eqb_neq in He as E. rewrite E. cbn [negb]. apply twp_ret, HQ;
      rewrite ?H1; [done|by left|apply pruned_refl].
  - intros s1 H1. destruct (bool_decide _) eqn:Ex.
    + apply twp_bind, twp_remove_all. rewrite H1. intros e s2 Hp Ho Hg. apply twp_ret.
      assert ((if negb (e =? 0) then e else 0) = e) as ->.
      { destruct (e =? 0) eqn:E; zbool; by subst. }
      apply HQ; [done| |done]. destruct (decide (e = 0)) as [E|E]; [right|by left].
      specialize (Hg E []). by rewrite app_nil_r in Hg.
    + apply bool_decide_eq_false in Ex. apply twp_ret, HQ; rewrite ?H1; [done| |apply pruned_refl].
      right. by apply eq_None_not_Some.
Qed.

(** What holds of the two trees after a move, whatever its result. *)
Definition move_post (s d : path) (f : tree) (failed : bool) (f' : tree) : Prop :=
  kept s d f f' ∧ framed s d f f' ∧ (failed = false → all_moved s d f f' ∧ f' !! s = None).

Lemma move_post_fail s d errs f ret errs' f' :
  entry_post s d errs f ret errs' f' → move_post s d f true f'.
Proof. intros [Hk _ Hf _ _]. by split_and!. Qed.

(** Removing the source once it was moved. *)
Lemma move_post_clean s d f f1 f' failed :
  apart s d → entry_post s d [] f 0 [] f1 → (∀ q, ¬ s `prefix_of` q → f' !! q = f1 !! q) →
  (failed = false → f' !! s = None) → move_post s d f failed f'.
Proof.
  intros Ha [_ Hd Hf _ _] Ho Hs. specialize (Hd eq_refl eq_refl).
  assert (all_moved s d f f') as Hm.
  { intros r x Hx. rewrite Ho by (by apply apart_sub). by apply Hd. }
  split; [intros r x Hx; right; by apply Hm|]. split; [|by auto].
  intros p H1 H2. rewrite Ho by done. by apply Hf.
Qed.

Section move.
Context (n : nat) (src destStr : string) (mode : Z) (f : tree).
Abbreviation sp := (resolve src).
Abbreviation dp := (resolve destStr).
Context (Hscan : scans) (Ha : apart sp dp) (Hwf : wf_below sp f) (Hdir : f !! sp = Some NDir)
  (Hdeep : deep sp f n).

(** From any tree that differs at or below the destination only. *)
Definition dest_only (s : fstate) : Prop := ∀ p, ¬ dp `prefix_of` p → files s !! p = f !! p.

Lemma dest_only_fail s : dest_only s → move_post sp dp f true (files s).
Proof using Ha.
  intros H. apply (move_post_fail _ _ [] _ 1 []). eapply entry_post_before; [done|exact H|].
  by apply entry_post_same.
Qed.

Lemma MoveAndClean_spec s :
  dest_only s → twp (MoveAndClean n src destStr mode []) (λ r s',
    move_post sp dp f (negb (r.1 =? 0)) (files s')) s.
Proof using Hscan Ha Hwf Hdir Hdeep.
  intros H1. assert (∀ r, files s !! (sp ++ r) = f !! (sp ++ r)) as Hsub.
  { intros r. apply H1. by apply apart_sub, apart_sym. }
  apply twp_bind. eapply twp_mono.
  { apply (RenameDir_spec n _ (RecurMoveDir_spec n Hscan)); [done|by eapply wf_below_ext| |by eapply deep_ext].
    specialize (Hsub []). rewrite app_nil_r in Hsub. by rewrite Hsub. }
  intros [res errs] s2 He. cbn [fst snd] in He.
  apply (entry_post_before _ _ _ f) in He; [|done|done].
  unfold ERRNO_NOERR. destruct (res =? 0) eqn:Er; zbool.
  2: { apply twp_ret. cbn [fst]. apply Z.eqb_neq in Er as ->. by eapply move_post_fail. }
  subst res. destruct errs as [|e errs].
  2: { apply twp_ret. cbn. by eapply move_post_fail. }
  apply twp_bind, twp_RmDirectory. intros ret s3 Ho Hret _. apply twp_ret. cbn [fst].
  eapply (move_post_clean _ _ _ (files s2)); [done|exact He|done|].
  destruct (ret =? 0) eqn:E; cbn [negb]; zbool; [intros _; by destruct Hret|].
  apply Z.eqb_neq in E as ->. done.
Qed.

Lemma MoveOver_spec full s :
  files s = f → twp (MoveOver n src destStr mode full []) (λ r s',
    move_post sp dp f (negb (r.1 =? 0)) (files s')) s.
Proof using Hscan Ha Hwf Hdir Hdeep.
  intros H1. unfold MoveOver.
  assert (Hrest : ∀ removeRes s2, dest_only s2 →
    twp (if negb (removeRes =? 0) then sret (removeRes, []) else
         if full && (mode =? DIRMODE_DIRECTORY_THROW_ERR) then sret (ENOTEMPTY, []) else
         MoveAndClean n src destStr mode []) (λ r s',
      move_post sp dp f (negb (r.1 =? 0)) (files s')) s2).
  { intros removeRes s2 H2. pose proof (dest_only_fail s2 H2) as Hf.
    destruct (removeRes =? 0) eqn:E; cbn [negb].
    - destruct (full && _); [by apply twp_ret|by apply MoveAndClean_spec].
    - apply twp_ret. cbn [fst]. by rewrite E. }
  apply twp_bind. destruct (full && (mode =? DIRMODE_DIRECTORY_REPLACE)).
  - apply twp_RmDirectory. intros ret s2 Ho _ _. apply Hrest. intros p Hp. by rewrite Ho, H1.
  - apply twp_ret, Hrest. intros p _. by rewrite H1.
Qed.
End move.

Lemma twp_JudgeExistAndEmpty p (Q : bool * bool → fstate → Prop) s :
  (∀ r s', files s' = files s → Q r s') → twp (JudgeExistAndEmpty p) Q s.
Proof.
  intros HQ. apply twp_bind, twp_exists.
  - intros e s1 _ H1. apply twp_ret. by apply HQ.
  - intros s1 H1. destruct (bool_decide _); [|apply twp_ret; by apply HQ].
    apply twp_bind, twp_is_empty. intros [] s2 H2 _; apply twp_ret, HQ; congruence.
Qed.

Lemma twp_ValidMoveDirArg src dest mode (Q : bool * Z → fstate → Prop) s :
  (∀ m s', files s' = files s → Q (false, m) s') →
  (∀ s', files s' = files s → files s !! resolve src = Some NDir →
    files s !! resolve dest = Some NDir → 0 <= default 0 mode <= 3 → Q (true, default 0 mode) s') →
  twp (ValidMoveDirArg src dest mode) Q s.
Proof.
  intros Hb Hg. apply twp_bind, twp_is_directory; [intros e s1 _ H1; apply twp_ret; by apply Hb|].
  intros e s1 H1. destruct (is_dir _ _) eqn:E1; cbn [negb]; [|apply twp_ret; by apply Hb].
  apply twp_bind, twp_is_directory; [intros e2 s2 _ H2; apply twp_ret, Hb; congruence|].
  intros e2 s2 H2. destruct (is_dir (files s1) _) eqn:E2; cbn [negb]; [|apply twp_ret, Hb; congruence].
  apply bool_decide_eq_true in E1, E2. rewrite H1 in E2. rewrite H1 in H2. apply twp_ret.
  destruct mode as [m|]; [|by apply (Hg s2)]. cbn [default] in *.
  unfold DIRMODE_MIN, DIRMODE_MAX. destruct (_ || _) eqn:E; [by apply Hb|]. zbool. apply Hg; try done.
Qed.

(** C20: moving a directory never loses a file: when the destination path is
    neither at, above nor below the source and directories can be read, then
    however calls fail and whatever the mode, [DoMoveDir] returns, every file of
    the source has its data at its place below the source or the destination,
    and nothing elsewhere changed; on success every file is below the destination
    and the source is gone. *)
Theorem move_dir_keeps_files (n : nat) (src dest d0 name : string) (mode : option Z) (s : fstate) :
  scans → rsplit src = Some (d0, name) → wf_tree (files s) →
  apart (resolve src) (resolve (child dest name)) → deep (resolve src) (files s) n →
  ∃ res s', DoMoveDir n src dest mode s = Some (res, s') ∧
    (∀ r x, files s !! (resolve src ++ r) = Some (NFile x) →
       files s' !! (resolve src ++ r) = Some (NFile x) ∨
       files s' !! (resolve (child dest name) ++ r) = Some (NFile x)) ∧
    (∀ p, ¬ resolve src `prefix_of` p → ¬ resolve (child dest name) `prefix_of` p →
       files s' !! p = files s !! p) ∧
    (fsResult res = None → files s' !! resolve src = None ∧
       ∀ r x, files s !! (resolve src ++ r) = Some (NFile x) →
         files s' !! (resolve (child dest name) ++ r) = Some (NFile x)).
Proof.
  intros Hscan Hsplit Hwf Ha Hdeep.
  assert (twp (DoMoveDir n src dest mode) (λ res s', move_post (resolve src)
    (resolve (child dest name)) (files s) (bool_decide (fsResult res ≠ None)) (files s')) s) as H.
  { apply twp_bind, twp_ValidMoveDirArg.
    - intros m s1 H1. cbn [negb]. apply twp_ret. rewrite H1.
      apply (move_post_fail _ _ [] _ 1 []). by apply entry_post_same.
    - intros s1 H1 Hdir _ _. cbn [negb]. apply twp_bind.
      unfold MoveDirFunc. rewrite Hsplit. apply twp_bind, twp_JudgeExistAndEmpty.
      intros [ex em] s2 H2. eapply twp_mono.
      { apply (MoveOver_spec n src (child dest name) (default 0 mode) (files s)); try done;
          [by apply wf_tree_below|congruence]. }
      intros [ret errs] s3 Hm. cbn [fst] in Hm. apply twp_ret.
      unfold EEXIST. destruct (ret =? 0) eqn:E; zbool; cbn [negb] in *.
      + by subst ret.
      + destruct (ret =? 17); exact Hm. }
  apply twp_elim in H as (res & s' & E & Hk & Hf & Hd). exists res, s'. split; [done|].
  split; [done|]. split; [done|]. intros Hr. rewrite bool_decide_eq_false_2 in Hd by (rewrite Hr; naive_solver).
  destruct (Hd eq_refl). done.
Qed.
End specs.

(** ** Moves in which nothing fails *)
Section calm.
Context {FE : FsEnv}.
Implicit Types (s : fstate) (f : tree).

(** No call fails, except perhaps [scandir]. *)
Definition calm : Prop := ∀ k, k ≠ F_scandir → never_fails k.

Lemma twp_RmDirectory_calm p (Q : Z → fstate → Prop) s :
  calm → files s !! resolve p ≠ None →
  (∀ s', (∀ q, ¬ resolve p `prefix_of` q → files s' !! q = files s !! q) →
    (∀ r, files s' !! (resolve p ++ r) = None) → Q 0 s') →
  twp (RmDirectory p) Q s.
Proof.
  intros Hc Hp HQ. apply twp_bind, twp_exists_calm; [by apply Hc|]. intros s1 H1.
  rewrite bool_decide_eq_true_2 by (by apply not_eq_None_Some).
  apply twp_bind, twp_remove_all_calm; [by apply Hc|]. rewrite H1. intros s2 Ho Hg.
  cbn. apply twp_ret. by apply HQ.
Qed.

Lemma twp_ValidMoveDirArg_calm src dest mode (Q : bool * Z → fstate → Prop) s :
  calm → files s !! resolve src = Some NDir → files s !! resolve dest = Some NDir →
  0 <= default 0 mode <= 3 → (∀ s', files s' = files s → Q (true, default 0 mode) s') →
  twp (ValidMoveDirArg src dest mode) Q s.
Proof.
  intros Hc Hs Hd Hm HQ. apply twp_bind, twp_is_directory_calm; [by apply Hc|]. intros e s1 H1.
  apply tree_is_dir_Some in Hs as ->. cbn [negb].
  apply twp_bind, twp_is_directory_calm; [by apply Hc|]. intros e2 s2 H2. rewrite H1 in H2 |- *.
  apply tree_is_dir_Some in Hd as ->. cbn [negb]. apply twp_ret.
  destruct mode as [m|]; [|by apply (HQ s2)]. cbn in Hm, HQ |- *. unfold DIRMODE_MIN, DIRMODE_MAX.
  destruct (m <? 0) eqn:E1; [zbool; lia|]. destruct (m >? 3) eqn:E2; [zbool; lia|]. by apply HQ.
Qed.

(** What [JudgeExistAndEmpty] says of a directory with contents. *)
Lemma twp_Judge_full p (Q : bool * bool → fstate → Prop) s :
  calm → files s !! resolve p = Some NDir → names (files s) (resolve p) ≠ [] →
  (∀ s', files s' = files s → Q (true, false) s') → twp (JudgeExistAndEmpty p) Q s.
Proof.
  intros Hc Hd Hn HQ. apply twp_bind, twp_exists_calm; [by apply Hc|]. intros s1 H1.
  rewrite Hd, bool_decide_eq_true_2 by (by eexists). apply twp_bind, twp_is_empty.
  intros [] s2 H2 Hb; [|apply twp_ret, HQ; congruence].
  exfalso. rewrite H1 in Hb. by apply Hb.
Qed.

Lemma twp_Judge_absent p (Q : bool * bool → fstate → Prop) s :
  calm → files s !! resolve p = None →
  (∀ s', files s' = files s → Q (false, false) s') → twp (JudgeExistAndEmpty p) Q s.
Proof.
  intros Hc Hd HQ. apply twp_bind, twp_exists_calm; [by apply Hc|]. intros s1 H1.
  rewrite Hd, bool_decide_eq_false_2 by (by intros []). apply twp_ret. by apply HQ.
Qed.

(** The source is renamed to a place that is free. *)
Lemma MoveAndClean_renames n src destStr mode s :
  calm → apart (resolve src) (resolve destStr) → is_Some (files s !! resolve src) →
  files s !! resolve destStr = None → files s !! removelast (resolve destStr) = Some NDir →
  twp (MoveAndClean n src destStr mode []) (λ r s',
    r = (0, []) ∧ files s' = relocate (resolve src) (resolve destStr) (files s)) s.
Proof.
  intros Hc Ha [y Hs] Hd Hp. apply twp_bind, twp_bind, twp_exists_calm; [by apply Hc|]. intros s1 H1.
  rewrite Hd, bool_decide_eq_false_2 by (by intros []). cbn.
  apply twp_bind, twp_rename_calm; [by apply Hc|]. rewrite H1.
  assert (rename_body (resolve src) (resolve destStr) (files s) =
    (0, relocate (resolve src) (resolve destStr) (files s))) as ->.
  { unfold rename_body. rewrite Hs, Hd. apply tree_is_dir_Some in Hp as ->.
    rewrite decide_False by (intros E; rewrite E in Ha; by destruct Ha as [[] _]).
    rewrite decide_False by (by destruct Ha).
    rewrite bool_decide_eq_true_2; [done|]. intros E. rewrite E in Ha. destruct Ha as [_ Ha].
    apply Ha, prefix_nil. }
  cbn [fst snd]. intros s2 H2. cbn. apply twp_ret.
  apply twp_bind, twp_bind, twp_exists_calm; [by apply Hc|]. intros s3 H3.
  assert (files s2 !! resolve src = None) as ->.
  { rewrite H2, lookup_relocate_out, decide_True; [done|done|by destruct Ha]. }
  rewrite bool_decide_eq_false_2 by (by intros []). cbn. apply twp_ret, twp_ret.
  split; [done|]. congruence.
Qed.

Lemma DoMoveDir_calm n src dest d0 name mode s (Q : Z * list ErrFiles → fstate → Prop) :
  calm → rsplit src = Some (d0, name) → files s !! resolve src = Some NDir →
  files s !! resolve dest = Some NDir → 0 <= default 0 mode <= 3 →
  (∀ s1, files s1 = files s → twp (JudgeExistAndEmpty (child dest name)) (λ r s2,
     twp (MoveOver n src (child dest name) (default 0 mode) (r.1 && negb r.2) []) Q s2) s1) →
  ∃ r s', Q r s' ∧ DoMoveDir n src dest mode s =
    Some (if r.1 =? EEXIST then MoveResult (Some EEXIST) (Some r.2)
          else if negb (r.1 =? 0) then MoveResult (Some r.1) None else MoveResult None None, s').
Proof.
  intros Hc Hsplit Hs Hd Hm HQ.
  assert (twp (ValidMoveDirArg src dest mode) (λ r s1, r = (true, default 0 mode) ∧ files s1 = files s) s)
    as (r1 & s1 & E1 & -> & H1)%twp_elim by (by apply twp_ValidMoveDirArg_calm).
  assert (twp (MoveDirFunc n src dest (default 0 mode) []) Q s1) as (r2 & s2 & E2 & H2)%twp_elim.
  { unfold MoveDirFunc. rewrite Hsplit. apply twp_bind. eapply twp_mono; [by apply HQ|].
    by intros [ex em] s2. }
  exists r2, s2. split; [done|]. unfold DoMoveDir. unfold bind at 1. rewrite E1. cbn [negb].
  unfold bind. rewrite E2. by destruct r2.
Qed.

(** Moving to a place that is free is one rename: with no failing call,
    [DoMoveDir] succeeds in every mode, the whole tree of the source is at the
    destination and nothing else differs. *)
Theorem move_dir_renames n src dest d0 name mode s :
  calm → rsplit src = Some (d0, name) → valid_name name →
  files s !! resolve src = Some NDir → files s !! resolve dest = Some NDir →
  files s !! (resolve dest ++ [name]) = None → apart (resolve src) (resolve dest ++ [name]) →
  0 <= default 0 mode <= 3 →
  ∃ s', DoMoveDir n src dest mode s = Some (MoveResult None None, s') ∧
    (∀ r, files s' !! ((resolve dest ++ [name]) ++ r) = files s !! (resolve src ++ r)) ∧
    (∀ r, files s' !! (resolve src ++ r) = None) ∧
    (∀ p, ¬ resolve src `prefix_of` p → ¬ resolve dest ++ [name] `prefix_of` p →
       files s' !! p = files s !! p).
Proof.
  intros Hc Hsplit Hv Hs Hd Hnone Ha Hm. pose proof (resolve_entry dest name Hv) as Ed.
  rewrite <- Ed in *.
  destruct (DoMoveDir_calm n src dest d0 name mode s (λ r s', r = (0, []) ∧
    files s' = relocate (resolve src) (resolve (child dest name)) (files s)))
    as (r & s' & [-> Hf] & E); try done.
  { intros s1 H1. apply twp_Judge_absent; [done|by rewrite H1|]. intros s2 H2. cbn [fst snd andb].
    rewrite <- H1, <- H2. apply twp_bind, twp_ret. cbn.
    apply MoveAndClean_renames; rewrite ?H2, ?H1; [done|done|by eexists|done|].
    by rewrite Ed, removelast_last. }
  exists s'. split; [exact E|]. rewrite Hf. split_and!.
  - intros r. apply lookup_relocate_in.
  - intros r. rewrite lookup_relocate_out, decide_True; [done|by eexists|].
    by apply apart_sub, apart_sym.
  - intros p H1 H2. by rewrite lookup_relocate_out, decide_False.
Qed.

(** Moving a directory to where it already is destroys it: with no failing
    call, [moveDir] of a directory with contents into its own parent in mode
    [DIRMODE_DIRECTORY_REPLACE] removes the directory and all below it, and then
    reports that the source does not exist. *)
Theorem move_onto_itself_destroys n src dest d0 name s :
  calm → rsplit src = Some (d0, name) → resolve (child dest name) = resolve src →
  files s !! resolve src = Some NDir → files s !! resolve dest = Some NDir →
  names (files s) (resolve src) ≠ [] →
  ∃ s', DoMoveDir n src dest (Some (mode_value DIRMODE_DIRECTORY_REPLACE)) s
        = Some (MoveResult (Some ENOENT) None, s') ∧
    (∀ r, files s' !! (resolve src ++ r) = None) ∧
    (∀ p, ¬ resolve src `prefix_of` p → files s' !! p = files s !! p).
Proof.
  intros Hc Hsplit Esrc Hs Hd Hn.
  destruct (DoMoveDir_calm n src dest d0 name (Some 3) s (λ r s', r = (ENOENT, []) ∧
    (∀ r, files s' !! (resolve src ++ r) = None) ∧
    (∀ p, ¬ resolve src `prefix_of` p → files s' !! p = files s !! p)))
    as (r & s' & [-> Hf] & E); try done.
  { intros s1 H1. apply twp_Judge_full; rewrite ?Esrc, ?H1; [done|done|done|]. intros s2 H2.
    apply twp_bind. cbn. apply twp_RmDirectory_calm; rewrite ?Esrc, ?H2; [done|congruence|].
    intros s3 Ho Hg. cbn. pose proof (Hg []) as Hg0. rewrite app_nil_r in Hg0.
    apply twp_bind, twp_bind, twp_exists_calm; [by apply Hc|]. intros s4 H4. rewrite Esrc, Hg0. cbn.
    apply twp_bind, twp_rename_calm; [by apply Hc|]. rewrite Esrc, H4. unfold rename_body. rewrite Hg0.
    cbn. intros s5 H5. apply twp_ret. cbn. apply twp_ret. rewrite H5. split; [done|].
    split; [done|]. intros p Hp. rewrite Ho by done. congruence. }
  exists s'. split; [exact E|done].
Qed.

(** A trailing slash makes the destination directory itself the target:
    with no failing call, [moveDir] of "src/" into [dest] in mode
    [DIRMODE_DIRECTORY_REPLACE] deletes all [dest] contained and puts the source
    in its place. *)
Theorem trailing_slash_replaces_destination n src dest s :
  calm → wf_tree (files s) → apart (resolve src) (resolve dest) →
  files s !! resolve src = Some NDir → files s !! resolve dest = Some NDir →
  names (files s) (resolve dest) ≠ [] →
  ∃ s', DoMoveDir n (child src "") dest (Some (mode_value DIRMODE_DIRECTORY_REPLACE)) s
        = Some (MoveResult None None, s') ∧
    (∀ r, files s' !! (resolve dest ++ r) = files s !! (resolve src ++ r)) ∧
    (∀ r, files s' !! (resolve src ++ r) = None).
Proof.
  intros Hc Hwf Ha Hs Hd Hn.
  assert (∀ d, resolve (child d "") = resolve d) as Er.
  { intros d. rewrite resolve_child. apply app_nil_r. }
  assert (rsplit (child src "") = Some (src, "")%string) as Hsplit by (by apply rsplit_child).
  destruct (DoMoveDir_calm n (child src "") dest src "" (Some 3) s (λ r s', r = (0, []) ∧
    (∀ r, files s' !! (resolve dest ++ r) = files s !! (resolve src ++ r)) ∧
    (∀ r, files s' !! (resolve src ++ r) = None)))
    as (r & s' & [-> Hf] & E); rewrite ?Er; try done.
  { intros s1 H1. apply twp_Judge_full; rewrite ?Er, ?H1; [done|done|done|]. intros s2 H2.
    apply twp_bind. cbn. apply twp_RmDirectory_calm; rewrite ?Er, ?H2; [done|congruence|].
    intros s3 Ho Hg. cbn. pose proof (Hg []) as Hg0. rewrite app_nil_r in Hg0.
    assert (∀ r, files s3 !! (resolve src ++ r) = files s !! (resolve src ++ r)) as Hsub.
    { intros r. rewrite Ho by (by apply apart_sub, apart_sym). congruence. }
    eapply twp_mono.
    - apply MoveAndClean_renames; rewrite ?Er; try done.
      + specialize (Hsub []). rewrite app_nil_r in Hsub. rewrite Hsub, Hs. by eexists.
      + destruct (resolve dest) as [|m q _] eqn:Eq using List.rev_ind.
        { destruct Ha as [_ Ha]. destruct Ha. apply prefix_nil. }
        rewrite removelast_last. rewrite Ho.
        * rewrite ?H2, ?H1. destruct Hwf as [_ Hwf]. apply (Hwf q m). exact (mk_is_Some _ _ Hd).
        * intros Hp%prefix_length. rewrite length_app in Hp. cbn in Hp. lia.
    - intros r s4 [-> ->]. rewrite !Er. split; [done|]. split; intros r.
      + by rewrite lookup_relocate_in.
      + rewrite lookup_relocate_out, decide_True; [done|by eexists|by apply apart_sub, apart_sym]. }
  exists s'. split; [exact E|done].
Qed.

(** A source that cannot be listed is destroyed: when the target exists and
    [scandir] fails (for want of descriptors or memory, say) while other calls
    work, moving in one of the file modes reports success, but nothing was moved
    and the source is deleted with all its files. *)
Theorem unlisted_source_destroyed n src dest d0 name mode s :
  calm → (∀ k, fs_fault F_scandir k ≠ 0) → rsplit src = Some (d0, name) →
  files s !! resolve src = Some NDir → files s !! resolve dest = Some NDir →
  files s !! resolve (child dest name) = Some NDir →
  mode = DIRMODE_FILE_THROW_ERR ∨ mode = DIRMODE_FILE_REPLACE →
  ∃ s', DoMoveDir (S n) src dest (Some (mode_value mode)) s = Some (MoveResult None None, s') ∧
    (∀ r, files s' !! (resolve src ++ r) = None) ∧
    (∀ p, ¬ resolve src `prefix_of` p → files s' !! p = files s !! p).
Proof.
  intros Hc Hscan Hsplit Hs Hd Ht Hmode.
  destruct (DoMoveDir_calm (S n) src dest d0 name (Some (mode_value mode)) s (λ r s', r = (0, []) ∧
    (∀ r, files s' !! (resolve src ++ r) = None) ∧
    (∀ p, ¬ resolve src `prefix_of` p → files s' !! p = files s !! p)))
    as (r & s' & [-> Hf] & E); try done.
  { by destruct Hmode as [-> | ->]. }
  2: { exists s'. split; [exact E|done]. }
  intros s1 H1. apply twp_JudgeExistAndEmpty. intros r s2 H2. rewrite H1 in H2.
  assert (MoveOver (S n) src (child dest name) (default 0 (Some (mode_value mode))) (r.1 && negb r.2) []
    = bind (sret 0) (λ _, MoveAndClean (S n) src (child dest name) (mode_value mode) [])) as ->.
  { unfold MoveOver. destruct Hmode as [-> | ->]; cbn; by rewrite andb_false_r. }
  apply twp_bind, twp_ret, twp_bind, twp_bind, twp_exists_calm; [by apply Hc|]. intros s3 H3.
  rewrite H2, Ht. cbn [RecurMoveDir]. rewrite bool_decide_eq_true_2 by (by eexists).
  apply twp_bind, twp_is_directory_calm; [by apply Hc|]. intros e s4 H4. rewrite H3, H2.
  apply tree_is_dir_Some in Ht as ->. cbn [negb].
  apply twp_bind, twp_fcall_calm; [by apply Hc|]. intros s5 H5. cbn [fst snd negb] in *.
  apply twp_bind, twp_bind, twp_bind, twp_fcall_fails; [done|]. intros e6 s6 H6. cbn.
  apply twp_ret, twp_ret. cbn. apply twp_ret. cbn.
  apply twp_bind, twp_RmDirectory_calm; rewrite ?H6; cbn [snd]; [done|congruence|].
  intros s7 Ho Hg. apply twp_ret. cbn. split; [done|]. split; [done|].
  intros p Hp. rewrite Ho by done. congruence.
Qed.
End calm.

(** ** Witnesses *)

(** Nothing fails, and renaming works; [dev] makes every rename cross devices
    and [scan] makes scanning fail. *)
Definition plain_fault (dev scan : bool) (k : fscall) : Z :=
  match k with
  | F_rename => if dev then EXDEV else 0
  | F_scandir => if scan then 24 else 0
  | _ => 0
  end.
#[local] Instance plain_env (dev scan : bool) : FsEnv.
Proof.
  refine {| fs_fault := λ k _, plain_fault dev scan k; fs_partial := λ _, None; fs_dtype := λ _, true;
    fs_link := λ _, false; fs_order := λ l, l |}.
  - intros k n. destruct k, dev, scan; done.
  - done.
Defined.

Definition sample_tree : tree := list_to_map [
  ([], NDir); (["a"], NDir); (["a"; "src"], NDir); (["a"; "src"; "f"], NFile [1; 2]);
  (["a"; "src"; "sub"], NDir); (["a"; "src"; "sub"; "g"], NFile [3]);
  (["b"], NDir); (["b"; "src"], NDir); (["b"; "src"; "h"], NFile [4]); (["c"], NDir)]%string.
Definition sample : fstate := FState sample_tree 0.

Lemma sample_wf : wf_tree sample_tree.
Proof. apply wf_treeb_sound. vm_compute. reflexivity. Qed.

(** Across devices into a directory that exists: entries are copied one by one. *)
Lemma move_dir_keeps_files_witness :
  ∃ res s', @DoMoveDir (plain_env true false) 5 "/a/src" "/b" (Some 2) sample = Some (res, s') ∧
    fsResult res = None ∧ files s' !! ["b"; "src"; "sub"; "g"]%string = Some (NFile [3]).
Proof.
  destruct (@move_dir_keeps_files (plain_env true false) 5 "/a/src" "/b" "/a" "src" (Some 2) sample)
    as (res & s' & E & _ & _ & Hd).
  - by intros n.
  - reflexivity.
  - apply sample_wf.
  - apply apart_dec_sound. vm_compute. reflexivity.
  - apply deepb_sound. vm_compute. reflexivity.
  - exists res, s'. split; [exact E|].
    assert (fsResult <$> (fst <$> @DoMoveDir (plain_env true false) 5 "/a/src" "/b" (Some 2) sample)
      = Some None) as Hr by (vm_compute; reflexivity).
    rewrite E in Hr. injection Hr as Hr. split; [exact Hr|].
    destruct (Hd Hr) as [_ Hm]. exact (Hm ["sub"; "g"]%string [3] eq_refl).
Defined.

Lemma plain_calm scan : @calm (plain_env false scan).
Proof. intros [] Hk n; try reflexivity. by destruct Hk. Qed.

Lemma move_dir_renames_witness :
  ∃ s', @DoMoveDir (plain_env false false) 0 "/a/src" "/c" None sample = Some (MoveResult None None, s') ∧
    files s' !! ["c"; "src"; "f"]%string = Some (NFile [1; 2]).
Proof.
  destruct (@move_dir_renames (plain_env false false) 0 "/a/src" "/c" "/a" "src" None sample)
    as (s' & E & Hin & _); try reflexivity.
  - apply plain_calm.
  - by repeat split.
  - apply apart_dec_sound. vm_compute. reflexivity.
  - cbn. lia.
  - exists s'. split; [exact E|]. exact (Hin ["f"]%string).
Defined.

Lemma move_onto_itself_destroys_witness :
  ∃ s', @DoMoveDir (plain_env false false) 0 "/a/src" "/a" (Some 3) sample
        = Some (MoveResult (Some ENOENT) None, s') ∧ files s' !! ["a"; "src"; "f"]%string = None.
Proof.
  destruct (@move_onto_itself_destroys (plain_env false false) 0 "/a/src" "/a" "/a" "src" sample)
    as (s' & E & Hin & _); try reflexivity.
  - apply plain_calm.
  - vm_compute. discriminate.
  - exists s'. split; [exact E|]. exact (Hin ["f"]%string).
Defined.

Lemma trailing_slash_replaces_destination_witness :
  ∃ s', @DoMoveDir (plain_env false false) 0 "/a/src/" "/b" (Some 3) sample
        = Some (MoveResult None None, s') ∧
    files s' !! ["b"; "f"]%string = Some (NFile [1; 2]) ∧
    files s' !! ["b"; "src"; "h"]%string = None.
Proof.
  destruct (@trailing_slash_replaces_destination (plain_env false false) 0 "/a/src" "/b" sample)
    as (s' & E & Hin & _); try reflexivity.
  - apply plain_calm.
  - apply sample_wf.
  - apply apart_dec_sound. vm_compute. reflexivity.
  - vm_compute. discriminate.
  - exists s'. split; [exact E|]. split; [exact (Hin ["f"]%string)|exact (Hin ["src"; "h"]%string)].
Defined.

Lemma unlisted_source_destroyed_witness :
  ∃ s', @DoMoveDir (plain_env false true) 1 "/a/src" "/b" (Some 2) sample
        = Some (MoveResult None None, s') ∧ files s' !! ["a"; "src"; "f"]%string = None.
Proof.
  destruct (@unlisted_source_destroyed (plain_env false true) 0 "/a/src" "/b" "/a" "src"
    DIRMODE_FILE_REPLACE sample) as (s' & E & Hin & _); try reflexivity.
  - apply plain_calm.
  - by intros k.
  - by right.
  - exists s'. split; [exact E|]. exact (Hin ["f"]%string).
Defined.
