(* ===== verification/PathOps.v ===== *)
(** * Operations on one path

    Models, over the file system of [FsTree], the operations of [mod_fs] that take one
    or two paths: moving a file ([move_core.cpp]), making directories ([mkdir_core.cpp],
    with [create_dir] of the Rust library it calls), removing a directory
    ([rmdir_core.cpp]), renaming and removing files ([rename_core.cpp],
    [unlink_core.cpp]) and asking whether a file is there ([access_core.cpp], with the
    files of the cloud and of other devices).  It is the build for OpenHarmony: musl,
    and neither Windows nor iOS.

    A call of libuv answers an error as a negative number, one of the kernel as a
    positive one; the code returns both, and so does the model.  Permissions are not
    part of the file system: a call they refuse is one that the environment makes fail. *)

From S2P Require Import Prelude FsTree.

Definition ERRNO_NOERR : Z := 0.
Definition MODE_FORCE_MOVE : Z := 0.
Definition MODE_THROW_ERR : Z := 1.

(** ** The calls *)

(** The error of a path that names nothing: a file on the way to it is not a directory. *)
Definition missing (f : tree) (q : path) : Z :=
  if existsb (λ n, match f !! take n q with Some NDir | None => false | Some _ => true end) (seq 0 (length q))
  then ENOTDIR else ENOENT.
Definition look (f : tree) (p : string) : Z + node :=
  if (p =? "")%string then inl ENOENT
  else match f !! resolve p with Some y => inr y | None => inl (missing f (resolve p)) end.

(** libuv's form of an error. *)
Definition uv (e : Z) : Z := - Z.abs e.

Section calls.
Context {FE : FsEnv}.

Definition uv_fs_stat (p : string) : st fstate Z :=
  fcall F_stat (λ e f, (uv e, f)) (λ f, (match look f p with inl e => uv e | inr _ => 0 end, f)).
(** Whether it is there and, if the environment so decides, not accessible in this way. *)
Definition uv_fs_access (p : string) (mode : Z) : st fstate Z := uv_fs_stat p.
Definition uv_fs_unlink (p : string) : st fstate Z :=
  fcall F_remove (λ e f, (uv e, f))
    (λ f, match look f p with
          | inl e => (uv e, f)
          | inr NDir => (uv EISDIR, f)
          | inr _ => (0, delete (resolve p) f)
          end).
Definition uv_fs_rename (old new : string) : st fstate Z :=
  if (old =? "")%string || (new =? "")%string then sret (uv ENOENT)
  else e ← rename old new; sret (uv e).

(** [mkdir], answering [errno]. *)
Definition mkdir_errno (q : path) : st fstate Z :=
  fcall F_mkdir (λ e f, (e, f))
    (λ f, match f !! q with
          | Some _ => (EEXIST, f)
          | None => if is_dir f (removelast q) && bool_decide (q ≠ []) then (0, <[q := NDir]> f)
                    else (missing f q, f)
          end).
Definition uv_fs_mkdir (p : string) : st fstate Z :=
  if (p =? "")%string then sret (uv ENOENT) else e ← mkdir_errno (resolve p); sret (uv e).

(** ** Moving a file *)

Definition CheckDir (p : string) : st fstate bool :=
  if (p =? "")%string then sret false
  else '(dir, _) ← is_directory p; sret dir.

(** [None]: the arguments are not valid. *)
Definition ValidMoveArg (src dest : string) (mode : option Z) : st fstate (option Z) :=
  srcDir ← CheckDir src;
  if srcDir : bool then sret None else
  destDir ← CheckDir dest;
  if destDir : bool then sret None else
  sret (match mode with
        | Some modeType =>
            if negb (modeType =? MODE_FORCE_MOVE) && negb (modeType =? MODE_THROW_ERR) then None
            else Some modeType
        | None => Some 0
        end).

Definition CopyAndDeleteFile (src dest : string) : st fstate Z :=
  statReq ← alloc;
  if negb statReq then sret ENOMEM else
  ret ← uv_fs_stat src;
  if ret <? 0 then sret ret else
  '(ex, _) ← exists_ dest;
  removed ← (if ex : bool
             then '(ok, errCode) ← remove dest; sret (if negb ok then Some errCode else None)
             else sret None);
  match removed with
  | Some errCode => sret errCode
  | None =>
      '(ok, errCode) ← copy_file src dest;
      if negb ok then sret errCode else
      ret ← uv_fs_unlink src;
      if ret <? 0 then
        result ← uv_fs_unlink dest;
        sret (if result <? 0 then result else ret)
      else sret ERRNO_NOERR
  end.

Definition RenameFile (src dest : string) : st fstate Z :=
  ret ← uv_fs_rename src dest;
  if (ret <? 0) && (ret =? - EXDEV) then CopyAndDeleteFile src dest
  else sret (if ret <? 0 then ret else ERRNO_NOERR).

Definition W_OK : Z := 2.
Definition MoveFile (src dest : string) (mode : Z) : st fstate Z :=
  ret ← uv_fs_access src W_OK;
  if ret <? 0 then sret ret else
  if mode =? MODE_THROW_ERR then
    ret ← uv_fs_access dest 0;
    if ret =? 0 then sret EEXIST
    else if (ret <? 0) && negb (ret =? - ENOENT) then sret ret
    else RenameFile src dest
  else RenameFile src dest.

(** The answer: the error, or nothing. *)
Definition result_of (ret : Z) : option Z := if ret =? 0 then None else Some ret.

Definition DoMove (src dest : string) (mode : option Z) : st fstate (option Z) :=
  arg ← ValidMoveArg src dest mode;
  match arg with
  | None => sret (Some EINVAL)
  | Some modeType => ret ← MoveFile src dest modeType; sret (result_of ret)
  end.

(** ** Renaming and removing *)

Definition DoRename (src dest : string) : st fstate (option Z) :=
  renameReq ← alloc;
  if negb renameReq then sret (Some ENOMEM) else
  ret ← uv_fs_rename src dest;
  sret (if ret <? 0 then Some ret else None).

Definition DoUnlink (src : string) : st fstate (option Z) :=
  unlinkReq ← alloc;
  if negb unlinkReq then sret (Some ENOMEM) else
  ret ← uv_fs_unlink src;
  sret (if ret <? 0 then Some ret else None).

(** [remove_all] with the number of files it removed, which counts when it succeeds. *)
Definition remove_all_count (p : string) : st fstate (nat * Z) := λ s,
  (e ← remove_all p; sret (length (paths_under (files s) (resolve p)), e)) s.

Definition RmDirent (fpath : string) : st fstate Z :=
  '(num, errCode) ← remove_all_count fpath;
  if negb (errCode =? ERRNO_NOERR) then sret errCode else
  if (num =? 0)%nat then sret ENOENT else
  '(ex, errCode) ← exists_ fpath;
  if ex : bool then sret ENOENT else
  if negb (errCode =? ERRNO_NOERR) then sret errCode else sret ERRNO_NOERR.

Definition DoRmdirent (fpath : string) : st fstate (option Z) :=
  if (fpath =? "")%string then sret (Some EINVAL) else
  err ← RmDirent fpath; sret (result_of err).

(** ** Making directories *)

(** [str::from_utf8] of the bytes, as [CStr::to_str] uses it. *)
Definition cont (lo hi b : Z) : bool := (lo <=? b) && (b <=? hi).
Fixpoint utf8 (s : list Z) : bool :=
  match s with
  | [] => true
  | b :: s1 =>
      if b <? 0x80 then utf8 s1 else
      match s1 with
      | c :: s2 =>
          if cont 0xC2 0xDF b then cont 0x80 0xBF c && utf8 s2 else
          match s2 with
          | d :: s3 =>
              if b =? 0xE0 then cont 0xA0 0xBF c && cont 0x80 0xBF d && utf8 s3 else
              if b =? 0xED then cont 0x80 0x9F c && cont 0x80 0xBF d && utf8 s3 else
              if cont 0xE1 0xEF b then cont 0x80 0xBF c && cont 0x80 0xBF d && utf8 s3 else
              match s3 with
              | e :: s4 =>
                  (if b =? 0xF0 then cont 0x90 0xBF c
                   else if b =? 0xF4 then cont 0x80 0x8F c
                   else cont 0xF1 0xF3 b && cont 0x80 0xBF c)
                  && cont 0x80 0xBF d && cont 0x80 0xBF e && utf8 s4
              | [] => false
              end
          | [] => false
          end
      | [] => false
      end
  end.
Definition bytes_of (p : string) : list Z :=
  map (λ c, Z.of_N (Ascii.N_of_ascii c)) (String.list_ascii_of_string p).

Inductive MakeDirectionMode := Single | Multiple.
Definition UNKNOWN_ERROR : Z := 13900042.

Definition path_is_dir (q : path) : st fstate bool :=
  fcall F_stat (λ _ f, (false, f)) (λ f, (is_dir f q, f)).

(** [create_dir_all] of the path whose names, last one first, are [rq]; it answers the
    [errno] that [error_control] makes of an error. *)
Fixpoint create_dir_all (rq : path) : st fstate Z :=
  err ← mkdir_errno (rev rq);
  if err =? 0 then sret 0 else
  if negb (err =? ENOENT) then dir ← path_is_dir (rev rq); sret (if dir : bool then 0 else err) else
  match rq with
  | [] => sret UNKNOWN_ERROR
  | _ :: parent =>
      err ← create_dir_all parent;
      if negb (err =? 0) then sret err else
      err ← mkdir_errno (rev rq);
      if err =? 0 then sret 0 else
      dir ← path_is_dir (rev rq); sret (if dir : bool then 0 else err)
  end.

(** The result of [Mkdirs]: the [errno] where it answers [-1]. *)
Definition Mkdirs (p : string) (mode : MakeDirectionMode) : st fstate Z :=
  if negb (utf8 (bytes_of p)) then sret EINVAL else
  match mode with
  | Single => if (p =? "")%string then sret ENOENT else mkdir_errno (resolve p)
  | Multiple => if (p =? "")%string then sret 0 else create_dir_all (rev (resolve p))
  end.

Definition UvAccess (p : string) (mode : Z) : st fstate Z :=
  accessReq ← alloc;
  if negb accessReq then sret ENOMEM else uv_fs_access p mode.

Definition MkdirCore (p : string) : st fstate Z :=
  mkdirReq ← alloc;
  if negb mkdirReq then sret ENOMEM else uv_fs_mkdir p.

Definition MkdirExec (p : string) (recursion hasOption : bool) : st fstate Z :=
  if hasOption then
    ret ← UvAccess p 0;
    if ret =? ERRNO_NOERR then sret EEXIST else
    if negb (ret =? - ENOENT) then sret ret else
    errno ← Mkdirs p (if recursion then Multiple else Single);
    if negb (errno =? 0) then sret errno else
    ret ← UvAccess p 0;
    sret (if negb (ret =? 0) then ret else ERRNO_NOERR)
  else
    ret ← MkdirCore p;
    sret (if negb (ret =? 0) then ret else ERRNO_NOERR).

Definition DoMkdir (p : string) (recursion : option bool) : st fstate (option Z) :=
  let hasOption := bool_decide (is_Some recursion) in
  let mkdirRecursion := default false recursion in
  err ← MkdirExec p mkdirRecursion hasOption; sret (result_of err).
End calls.

(** ** Asking for access *)

Definition CLOUDDISK_FILE_PREFIX : string := "/data/storage/el2/cloud".
Definition DISTRIBUTED_FILE_PREFIX : string := "/data/storage/el2/distributedfiles".
Definition PHYSICAL_PATH_HEAD : string := "/mnt/hmdfs/".
Definition PHYSICAL_PATH_TAIL : string := "/account/device_view/local/data/".
Definition POSITION_LOCAL : ascii := "1".
Definition POSITION_BOTH : ascii := "3".
Definition DEFAULT_FLAG : Z := -1.
Definition LOCAL_FLAG : Z := 0.

(** What the system answers besides the file system. *)
Class AccessEnv := {
  ac_location : string → Z + ascii;  (** the attribute [user.cloud.location], or the error *)
  ac_user : string;                  (** the decimal number of the user *)
  ac_bundle : string                 (** the name of the calling bundle, empty if unknown *)
}.

Section access.
Context {FE : FsEnv} {AE : AccessEnv}.

Definition IsCloudOrDistributedFilePath (p : string) : bool :=
  String.prefix CLOUDDISK_FILE_PREFIX p || String.prefix DISTRIBUTED_FILE_PREFIX p.

(** The path with the user and the bundle put in place of their marks. *)
Definition physical_path (p : string) : string :=
  PHYSICAL_PATH_HEAD +:+ ac_user +:+ PHYSICAL_PATH_TAIL +:+ ac_bundle
  +:+ String.substring (String.length DISTRIBUTED_FILE_PREFIX)
        (String.length p - String.length DISTRIBUTED_FILE_PREFIX) p.

Definition HandleLocalCheck (p : string) (mode : Z) : st fstate Z :=
  if String.prefix CLOUDDISK_FILE_PREFIX p then
    sret (match ac_location p with
          | inl errno => errno
          | inr v => if bool_decide (v = POSITION_LOCAL) || bool_decide (v = POSITION_BOTH) then 0 else ENOENT
          end)
  else if String.prefix DISTRIBUTED_FILE_PREFIX p then UvAccess (physical_path p) mode
  else sret ENOENT.

Definition Access (p : string) (mode flag : Z) : st fstate Z :=
  if (flag =? LOCAL_FLAG) && IsCloudOrDistributedFilePath p then HandleLocalCheck p mode
  else UvAccess p mode.

Definition GetMode (modeOpt : option Z) : Z * bool :=
  match modeOpt with
  | Some mode => if Z.land mode 0x06 =? mode then (mode, true) else (-1, true)
  | None => (-1, false)
  end.

Definition ValidAccessArgs (p : string) (modeOpt : option Z) : option Z :=
  if (p =? "")%string then None else
  let '(mode, hasMode) := GetMode modeOpt in
  if (mode <? 0) && hasMode then None else Some (if hasMode then mode else 0).

(** The answer: an error, or whether there is access. *)
Definition access_result (ret : Z) : Z + bool :=
  if (ret <? 0) && negb (ret =? - ENOENT) then inl ret else inr (ret =? 0).

Definition DoAccess (p : string) (mode : option Z) : st fstate (Z + bool) :=
  match ValidAccessArgs p mode with
  | None => sret (inl EINVAL)
  | Some finalMode => ret ← Access p finalMode DEFAULT_FLAG; sret (access_result ret)
  end.
Definition DoAccess_flag (p : string) (mode flag : Z) : st fstate (Z + bool) :=
  match ValidAccessArgs p (Some mode) with
  | None => sret (inl EINVAL)
  | Some finalMode => ret ← Access p finalMode flag; sret (access_result ret)
  end.
End access.

(** ** What the calls do *)

(** [p] names nothing. *)
Definition absent (f : tree) (p : string) : Prop := p = ""%string ∨ f !! resolve p = None.

(** The errors that calls are made to fail with are [errno] values. *)
Class ErrnoPositive {FE : FsEnv} := errno_positive : ∀ k n, 0 <= fs_fault k n.

Lemma missing_pos f q : 0 < missing f q.
Proof. unfold missing. by destruct (existsb _ _). Qed.
Lemma look_error f p e : look f p = inl e → 0 < e ∧ absent f p.
Proof.
  unfold look, absent. destruct (p =? "")%string eqn:E.
  - intros [= <-]. apply String.eqb_eq in E. split; [done|by left].
  - destruct (f !! resolve p) eqn:Ef; [done|]. intros [= <-]. split; [apply missing_pos|by right].
Qed.
Lemma look_node f p y : look f p = inr y → f !! resolve p = Some y.
Proof. unfold look. destruct (p =? "")%string; [done|]. destruct (f !! resolve p); congruence. Qed.
Lemma look_named f p y : look f p = inr y → p ≠ ""%string.
Proof. unfold look. by intros H ->. Qed.

Section rules.
Context {FE : FsEnv} {EP : ErrnoPositive}.
Implicit Types (s : fstate) (f : tree).

Lemma fault_pos k e : fault_code k e → 0 < e ∧ e ≠ ENOENT.
Proof. intros (H1 & H2 & _ & n & ->). pose proof (errno_positive k n). split; [lia|done]. Qed.

Lemma uv_neg e : 0 < e → uv e < 0.
Proof. unfold uv. lia. Qed.

Lemma twp_uv_stat p (Q : Z → fstate → Prop) s :
  (∀ ret s', files s' = files s → ret < 0 → (ret = - ENOENT → absent (files s) p) → Q ret s') →
  (∀ s', files s' = files s → p ≠ ""%string ∧ is_Some (files s !! resolve p) → Q 0 s') →
  twp (uv_fs_stat p) Q s.
Proof.
  intros Hb Hg. apply twp_fcall.
  - intros e s' [He Hn]%fault_pos Hs. apply Hb; [done|by apply uv_neg|]. unfold uv, ENOENT in *. cbn [fst]. lia.
  - intros s' Hs. cbn [fst snd] in *. destruct (look (files s) p) as [e|y] eqn:E.
    + apply look_error in E as [He Ha]. apply Hb; [done|by apply uv_neg|done].
    + apply Hg; [done|]. split; [by eapply look_named|]. eexists. by apply look_node.
Qed.

Lemma twp_uv_unlink p (Q : Z → fstate → Prop) s :
  (∀ ret s', files s' = files s → ret < 0 → Q ret s') →
  (∀ s', files s' = delete (resolve p) (files s) → files s !! resolve p ≠ Some NDir → Q 0 s') →
  twp (uv_fs_unlink p) Q s.
Proof.
  intros Hb Hg. apply twp_fcall.
  - intros e s' [He _]%fault_pos Hs. apply Hb; [done|by apply uv_neg].
  - intros s' Hs. destruct (look (files s) p) as [e|y] eqn:E; cbn [fst snd] in *.
    + apply look_error in E as [He _]. apply Hb; [done|by apply uv_neg].
    + apply look_node in E. destruct y; cbn [fst snd] in *; [apply Hg|by apply Hb|apply Hg]; congruence.
Qed.

(** A file renamed to another path. *)
Lemma relocate_file f old new data :
  wf_tree f → f !! old = Some (NFile data) → ¬ old `prefix_of` new → f !! new ≠ Some NDir →
  relocate old new f = <[new := NFile data]> (delete old f).
Proof.
  intros [_ Hwf] Ho Hp Hn. apply map_eq. intros p.
  assert (∀ q r, f !! q ≠ Some NDir → r ≠ [] → f !! (q ++ r) = None) as Hleaf.
  { intros q r Hq Hr. destruct (f !! (q ++ r)) eqn:E; [|done]. exfalso. apply Hr.
    apply (wf_below_leaf q f r); [by apply (wf_below_sub [] q)|done|by eexists]. }
  destruct (decide (new `prefix_of` p)) as [[r ->]|Hnp].
  - rewrite lookup_relocate_in. destruct (decide (r = [])) as [->|Hr].
    + by rewrite !app_nil_r, Ho, lookup_insert_eq.
    + rewrite lookup_insert_ne, (Hleaf old r) by (congruence || (intros E; apply Hr; by apply (app_inv_head new); rewrite app_nil_r)).
      symmetry. apply lookup_delete_None. right. by apply Hleaf.
  - rewrite lookup_relocate_out by done. rewrite lookup_insert_ne by (intros ->; by apply Hnp).
    case_decide as Hop.
    + destruct Hop as [r ->]. destruct (decide (r = [])) as [->|Hr].
      * by rewrite app_nil_r, lookup_delete_eq.
      * symmetry. apply lookup_delete_None. right. apply Hleaf; congruence.
    + rewrite lookup_delete_ne; [done|]. intros ->. by apply Hop.
Qed.

Lemma twp_uv_rename old new data (Q : Z → fstate → Prop) s :
  wf_tree (files s) → files s !! resolve old = Some (NFile data) → resolve old ≠ resolve new →
  (∀ ret s', files s' = files s → ret < 0 → Q ret s') →
  (∀ s', files s' = <[resolve new := NFile data]> (delete (resolve old) (files s)) → Q 0 s') →
  twp (uv_fs_rename old new) Q s.
Proof.
  intros Hwf Ho Hne Hb Hg. unfold uv_fs_rename.
  destruct (_ || _); [by apply twp_ret, Hb|]. apply twp_bind, twp_fcall.
  - intros e s' [He _]%fault_pos Hs. apply twp_ret, Hb; [done|by apply uv_neg].
  - intros s' Hs. apply twp_ret. unfold rename_body in *. rewrite Ho in *.
    rewrite decide_False in Hs |- * by done.
    destruct (decide (resolve old `prefix_of` resolve new)) as [Hp|Hp]; [by apply Hb|].
    rewrite bool_decide_eq_false_2 in Hs |- * by done.
    destruct (files s !! resolve new) as [[| |]|] eqn:En; cbn [fst snd] in *; try (by apply Hb).
    1-2: apply Hg; rewrite Hs; apply relocate_file; congruence.
    destruct (_ && _); cbn [fst snd] in *; [|by apply Hb].
    apply Hg. rewrite Hs. apply relocate_file; congruence.
Qed.

(** ** Moving *)

(** A file with [data] moved from [q] to [q'], or not: in between the two paths nothing changes. *)
Definition move_post (q q' : path) (data : list Z) (f : tree) (ret : Z) (f' : tree) : Prop :=
  (∀ p, p ≠ q → p ≠ q' → f' !! p = f !! p) ∧
  if ret =? 0 then f' !! q' = Some (NFile data) ∧ f' !! q = None else f' !! q = Some (NFile data).

Lemma not_moved q q' data f ret f' :
  ret ≠ 0 → f !! q = Some (NFile data) → (∀ p, p ≠ q' → f' !! p = f !! p) → q ≠ q' →
  move_post q q' data f ret f'.
Proof. intros Hr%Z.eqb_neq Hq Hf Hne. split; [auto|]. by rewrite Hr, Hf. Qed.

Lemma copy_and_delete_moves src dest data s :
  files s !! resolve src = Some (NFile data) → resolve src ≠ resolve dest →
  twp (CopyAndDeleteFile src dest) (λ ret s',
    move_post (resolve src) (resolve dest) data (files s) ret (files s')) s.
Proof.
  intros Hs Hne. unfold CopyAndDeleteFile. set (q := resolve src) in *. set (q' := resolve dest) in *.
  assert (∀ ret s', ret ≠ 0 → (∀ p, p ≠ q' → files s' !! p = files s !! p) →
    move_post q q' data (files s) ret (files s')) as Hfail by (intros; by apply not_moved).
  apply twp_bind, twp_fcall.
  { intros e s1 _ H1. apply twp_ret, Hfail; [done|]. intros p _. by rewrite H1. }
  intros s1 H1. cbn [fst snd negb] in *. apply twp_bind, twp_uv_stat.
  { intros ret s2 H2 Hr _. rewrite (proj2 (Z.ltb_lt _ _) Hr). apply twp_ret, Hfail; [lia|]. intros p _. by rewrite H2, H1. }
  intros s2 H2 _. cbn [Z.ltb Z.compare]. rewrite <- H1, <- H2 in Hfail, Hs |- *. clear s s1 H1 H2. rename s2 into s.
  assert (Hcopy : ∀ s', (∀ p, p ≠ q' → files s' !! p = files s !! p) →
    twp ('(ok, errCode) ← copy_file src dest;
         if negb ok then sret errCode else
         ret ← uv_fs_unlink src;
         if ret <? 0 then result ← uv_fs_unlink dest; sret (if result <? 0 then result else ret)
         else sret ERRNO_NOERR) (λ ret s', move_post q q' data (files s) ret (files s')) s').
  { intros s3 H3. apply twp_bind, twp_copy_file; fold q q'.
    - intros e s4 He H4. apply twp_ret, Hfail; [done|]. intros p Hp.
      destruct H4 as [->|[x ->]]; [|rewrite lookup_insert_ne by done]; by apply H3.
    - intros data' s4 Hd _ H4. rewrite H3, Hs in Hd by done. injection Hd as <-.
      assert (∀ p, p ≠ q' → files s4 !! p = files s !! p) as H4'.
      { intros p Hp. rewrite H4, lookup_insert_ne by done. by apply H3. }
      apply twp_bind, twp_uv_unlink; fold q.
      + intros ret s5 H5 Hr. rewrite (proj2 (Z.ltb_lt _ _) Hr). apply twp_bind, twp_uv_unlink; fold q'.
        * intros ret' s6 H6 Hr'. rewrite (proj2 (Z.ltb_lt _ _) Hr').
          apply twp_ret, Hfail; [lia|]. intros p Hp. rewrite H6, H5. by apply H4'.
        * intros s6 H6 _. cbn [Z.ltb Z.compare]. apply twp_ret, Hfail; [lia|]. intros p Hp.
          rewrite H6, lookup_delete_ne, H5 by done. by apply H4'.
      + intros s5 H5 _. cbn [Z.ltb Z.compare]. apply twp_ret. split.
        * intros p Hp Hp'. rewrite H5, lookup_delete_ne by done. by apply H4'.
        * cbn. rewrite H5, lookup_delete_eq, lookup_delete_ne, H4, lookup_insert_eq by done. done. }
  apply twp_bind, twp_exists.
  { intros e s3 _ H3. apply twp_bind, twp_ret, Hcopy. intros p _. by rewrite H3. }
  intros s3 H3. fold q'. case_bool_decide as Hex.
  - apply twp_bind, twp_bind, twp_remove_at; fold q'. intros [ok e] s4 H4. rewrite H3 in H4.
    apply twp_ret. destruct ok; cbn [negb].
    + apply Hcopy. intros p Hp. by eapply removed_at_other.
    + apply twp_ret, Hfail; [|intros p Hp; by eapply removed_at_other].
      intros ->. destruct H4 as [_ [(_ & _ & H)|(_ & [=] & _)]]. cbn in H.
      rewrite (H eq_refl) in Hex. by destruct Hex.
  - apply twp_bind, twp_ret, Hcopy. intros p _. by rewrite H3.
Qed.
Lemma rename_file_moves src dest data s :
  wf_tree (files s) → files s !! resolve src = Some (NFile data) → resolve src ≠ resolve dest →
  twp (RenameFile src dest) (λ ret s',
    move_post (resolve src) (resolve dest) data (files s) ret (files s')) s.
Proof.
  intros Hwf Hs Hne. apply twp_bind, (twp_uv_rename src dest data); [done..| |].
  - intros ret s1 H1 Hr. rewrite (proj2 (Z.ltb_lt _ _) Hr). cbn [andb]. destruct (ret =? - EXDEV).
    + rewrite <- H1 in *. by apply copy_and_delete_moves.
    + apply twp_ret, not_moved; [lia|done| |done]. intros p _. by rewrite H1.
  - intros s1 H1. apply twp_ret. cbn. split.
    + intros p Hp Hp'. by rewrite H1, lookup_insert_ne, lookup_delete_ne by done.
    + cbn. by rewrite H1, lookup_insert_eq, lookup_insert_ne, lookup_delete_eq by done.
Qed.

(** What is there already stays when it is not to be replaced. *)
Lemma move_file_moves src dest mode data s :
  wf_tree (files s) → files s !! resolve src = Some (NFile data) → resolve src ≠ resolve dest →
  twp (MoveFile src dest mode) (λ ret s',
    move_post (resolve src) (resolve dest) data (files s) ret (files s') ∧
    (mode = MODE_THROW_ERR → dest ≠ "" → is_Some (files s !! resolve dest) → ret ≠ 0 ∧ files s' = files s)) s.
Proof.
  intros Hwf Hs Hne. assert (∀ ret s', ret ≠ 0 → files s' = files s →
    move_post (resolve src) (resolve dest) data (files s) ret (files s') ∧
    (mode = MODE_THROW_ERR → dest ≠ "" → is_Some (files s !! resolve dest) → ret ≠ 0 ∧ files s' = files s)) as Hfail.
  { intros ret s' Hr Hf. split; [|done]. apply not_moved; [done|done| |done]. intros p _. by rewrite Hf. }
  apply twp_bind, twp_uv_stat.
  { intros ret s1 H1 Hr _. rewrite (proj2 (Z.ltb_lt _ _) Hr). apply twp_ret, Hfail; [lia|done]. }
  intros s1 H1 _. cbn [Z.ltb Z.compare]. destruct (mode =? MODE_THROW_ERR) eqn:Em; zbool.
  - apply twp_bind, twp_uv_stat.
    + intros ret s2 H2 Hr Ha. assert (ret =? 0 = false) as -> by lia. rewrite (proj2 (Z.ltb_lt _ _) Hr). cbn [andb].
      destruct (ret =? - ENOENT) eqn:En; cbn [negb]; zbool.
      * rewrite H1 in H2, Ha.
        eapply twp_mono; [apply (rename_file_moves src dest data); rewrite ?H2; done|].
        intros r s3 H3. rewrite H2 in H3. split; [done|]. intros _ Hd [y Hy].
        destruct (Ha En) as [?|Hno]; congruence.
      * apply twp_ret, Hfail; [lia|congruence].
    + intros s2 H2 _. apply twp_ret, Hfail; [done|congruence].
  - rewrite <- H1 in *. eapply twp_mono; [by apply rename_file_moves|]. intros r s2 H2. split; [done|]. congruence.
Qed.

Lemma twp_CheckDir p (Q : bool → fstate → Prop) s :
  (∀ b s', files s' = files s → (b = true → is_dir (files s) (resolve p) = true) → Q b s') → twp (CheckDir p) Q s.
Proof.
  intros HQ. unfold CheckDir. destruct (p =? "")%string; [by apply twp_ret, HQ|].
  apply twp_bind, twp_is_directory.
  - intros e s' _ Hs. by apply twp_ret, HQ.
  - intros e s' Hs. by apply twp_ret, HQ.
Qed.

(** What a move of a file with [data] may come to. *)
Definition move_outcome (src dest : string) (mode : option Z) (data : list Z) (f : tree) (r : option Z) (f' : tree) : Prop :=
  (∀ p, p ≠ resolve src → p ≠ resolve dest → f' !! p = f !! p) ∧
  match r with
  | None => f' !! resolve dest = Some (NFile data) ∧ f' !! resolve src = None
  | Some e => e ≠ 0 ∧ f' !! resolve src = Some (NFile data)
  end ∧
  (mode = Some MODE_THROW_ERR → dest ≠ "" → is_Some (f !! resolve dest) → is_Some r ∧ f' = f).

(** C19: However calls fail, a move of a file returns and the file is not lost: when it
    succeeds the data is at the destination and nothing at the source, otherwise the
    source is as it was.  No third path changes, and a destination that is not to be
    replaced is kept. *)
Theorem move_keeps_file (src dest : string) (mode : option Z) (data : list Z) s :
  wf_tree (files s) → files s !! resolve src = Some (NFile data) → resolve src ≠ resolve dest →
  twp (DoMove src dest mode) (λ r s', move_outcome src dest mode data (files s) r (files s')) s.
Proof.
  intros Hwf Hs Hne.
  assert (∀ f, f = files s → move_outcome src dest mode data (files s) (Some EINVAL) f) as Hinv
    by (intros f ->; split_and!; [done..|naive_solver]).
  apply twp_bind, twp_bind, twp_CheckDir. intros b s1 H1 _. destruct b; [apply twp_ret, twp_ret, Hinv; congruence|].
  apply twp_bind, twp_CheckDir. intros b s2 H2 _. rewrite H1 in H2.
  destruct b; [apply twp_ret, twp_ret, Hinv; congruence|]. apply twp_ret.
  assert (∀ m, (mode = Some MODE_THROW_ERR → m = MODE_THROW_ERR) →
    twp (ret ← MoveFile src dest m; sret (result_of ret))
      (λ r s', move_outcome src dest mode data (files s) r (files s')) s2) as Hgo.
  { intros m Hm. apply twp_bind.
    eapply twp_mono; [apply (move_file_moves src dest m data); rewrite ?H2; done|].
    intros ret s3 [[H3 H4] H5]. rewrite H2 in H3, H5. apply twp_ret. unfold result_of.
    split; [done|]. destruct (ret =? 0) eqn:E; zbool.
    - split; [done|]. intros Hmode%Hm Hd He. by destruct (H5 Hmode Hd He).
    - split; [done|]. intros Hmode%Hm Hd He. destruct (H5 Hmode Hd He) as [_ ?]. split; [by eexists|done]. }
  destruct mode as [m|]; [|by apply Hgo].
  destruct (_ && _); [apply twp_ret, Hinv; congruence|]. apply Hgo. congruence.
Qed.

(** ** Removing *)

(** However calls fail, removing a directory returns, creates nothing and removes
    nothing outside it; it succeeds only if something was there, and then nothing is
    left of it. *)
Theorem rmdirent_result (fpath : string) s :
  twp (DoRmdirent fpath) (λ r s',
    pruned (files s) (files s') ∧
    (∀ q, ¬ resolve fpath `prefix_of` q → files s' !! q = files s !! q) ∧
    match r with
    | None => (∃ q, is_Some (files s !! (resolve fpath ++ q))) ∧ ∀ q, files s' !! (resolve fpath ++ q) = None
    | Some e => e ≠ 0
    end) s.
Proof.
  unfold DoRmdirent. destruct (fpath =? "")%string; [by apply twp_ret; split_and!; [apply pruned_refl|..]|].
  apply twp_bind, twp_bind. unfold remove_all_count. apply twp_bind, twp_remove_all. intros e s1 H1 H2 H3.
  apply twp_ret. unfold result_of. destruct (e =? ERRNO_NOERR) eqn:Ee; zbool; cbn [negb].
  2: { apply twp_ret, twp_ret. rewrite (proj2 (Z.eqb_neq e 0) Ee). by split_and!. }
  specialize (H3 Ee). destruct (_ =? 0)%nat eqn:En.
  { by apply twp_ret, twp_ret; split_and!. }
  apply Nat.eqb_neq in En. assert (∃ q, is_Some (files s !! (resolve fpath ++ q))) as Hex.
  { destruct (paths_under (files s) (resolve fpath)) as [|p l] eqn:El; [done|].
    assert (p ∈ paths_under (files s) (resolve fpath)) as Hp by (rewrite El; by left).
    apply elem_of_paths_under in Hp as [[q ->] Hp]. by exists q. }
  apply twp_bind, twp_exists.
  - intros e' s2 He' Hs2. destruct He' as [He' _]. 
    change ERRNO_NOERR with 0. rewrite (proj2 (Z.eqb_neq e' 0) He'). apply twp_ret, twp_ret.
    rewrite (proj2 (Z.eqb_neq e' 0) He'), Hs2. by split_and!.
  - intros s2 Hs2. specialize (H3 []) as H0. rewrite app_nil_r in H0. rewrite H0, bool_decide_eq_false_2 by (by intros []).
    cbn. apply twp_ret, twp_ret. cbn. rewrite Hs2. by split_and!.
Qed.

(** ** Making directories *)

(** Nothing changes but directories on the way to [q] that are new. *)
Definition made (q : path) (f f' : tree) : Prop :=
  ∀ p, f' !! p = f !! p ∨ f !! p = None ∧ f' !! p = Some NDir ∧ p `prefix_of` q.
Lemma made_refl q f : made q f f.
Proof. by left. Qed.
Lemma made_insert q f : f !! q = None → made q f (<[q := NDir]> f).
Proof.
  intros Hq p. destruct (decide (p = q)) as [->|Hne]; [right|left].
  - by rewrite lookup_insert_eq.
  - by rewrite lookup_insert_ne.
Qed.
Lemma made_trans q q' f f1 f2 : made q f f1 → q `prefix_of` q' → made q' f1 f2 → made q' f f2.
Proof.
  intros H1 Hq H2 p. destruct (H1 p) as [E|(E1 & E2 & E3)], (H2 p) as [F|(F1 & F2 & F3)].
  - left. congruence.
  - right. by rewrite <- E.
  - right. rewrite F. split_and!; [done..|by etrans].
  - congruence.
Qed.

Lemma twp_mkdir_errno q (Q : Z → fstate → Prop) s :
  (∀ e s', files s' = files s → 0 < e → Q e s') →
  (∀ s', files s' = <[q := NDir]> (files s) → files s !! q = None → Q 0 s') →
  twp (mkdir_errno q) Q s.
Proof.
  intros Hb Hg. apply twp_fcall.
  - intros e s' [He _]%fault_pos Hs. by apply Hb.
  - intros s' Hs. destruct (files s !! q) eqn:E; cbn [fst snd] in *; [by apply Hb|].
    destruct (_ && _); cbn [fst snd] in *; [by apply Hg|]. apply Hb; [done|apply missing_pos].
Qed.
Lemma twp_path_is_dir q (Q : bool → fstate → Prop) s :
  (∀ b s', files s' = files s → (b = true → files s !! q = Some NDir) → Q b s') → twp (path_is_dir q) Q s.
Proof.
  intros HQ. apply twp_fcall; intros; apply HQ; try done; intros; by apply tree_is_dir_Some.
Qed.

(** What [create_dir_all] and its parts achieve. *)
Definition dir_post (q : path) (f : tree) (e : Z) (f' : tree) : Prop :=
  made q f f' ∧ (e = 0 → f' !! q = Some NDir).

Lemma mkdir_or_is_dir q f s (Q : Z → fstate → Prop) :
  made q f (files s) → (∀ e s', dir_post q f e (files s') → Q e s') →
  twp (err ← mkdir_errno q; if err =? 0 then sret 0 else
       dir ← path_is_dir q; sret (if dir : bool then 0 else err)) Q s.
Proof.
  intros Hm HQ. apply twp_bind, twp_mkdir_errno.
  - intros e s1 H1 He. assert (e =? 0 = false) as -> by lia. apply twp_bind, twp_path_is_dir.
    intros b s2 H2 Hb. apply twp_ret, HQ. rewrite H2, H1 in *. split; [done|].
    destruct b; [auto|lia].
  - intros s1 H1 Hq. apply twp_ret, HQ. rewrite H1. split; [|intros _; apply lookup_insert_eq].
    eapply made_trans; [exact Hm|done|]. by apply made_insert.
Qed.

Lemma create_dir_all_spec rq s :
  twp (create_dir_all rq) (λ e s', dir_post (rev rq) (files s) e (files s')) s.
Proof.
  revert s. induction rq as [|n parent IH]; intros s; cbn [create_dir_all]; apply twp_bind, twp_mkdir_errno.
  1, 3: intros e s1 H1 He; assert (e =? 0 = false) as -> by lia; destruct (e =? ENOENT) eqn:Ee; cbn [negb];
    [|apply twp_bind, twp_path_is_dir; intros b s2 H2 Hb; apply twp_ret; rewrite H2, H1 in *;
      split; [apply made_refl|]; destruct b; [by auto|lia]].
  - apply twp_ret. rewrite H1. by split; [apply made_refl|].
  - rewrite <- H1. apply twp_bind. eapply twp_mono; [apply IH|]. intros e' s2 [Hm Hd]. cbn [rev].
    assert (rev parent `prefix_of` rev parent ++ [n]) as Hp by (by eexists).
    assert (made (rev parent ++ [n]) (files s1) (files s2)) as Hm2
      by (eapply made_trans; [exact Hm|exact Hp|apply made_refl]).
    destruct (e' =? 0) eqn:Ee'; cbn [negb]; zbool; [by apply (mkdir_or_is_dir _ (files s1))|].
    apply twp_ret. by split.
  - intros s1 H1 Hq. apply twp_ret. rewrite H1. split; [by apply made_insert|intros _; apply lookup_insert_eq].
  - intros s1 H1 Hq. apply twp_ret. rewrite H1. split; [by apply made_insert|intros _; apply lookup_insert_eq].
Qed.

Lemma twp_uv_mkdir p (Q : Z → fstate → Prop) s :
  (∀ ret s', files s' = files s → ret < 0 → Q ret s') →
  (∀ s', files s' = <[resolve p := NDir]> (files s) → files s !! resolve p = None → Q 0 s') →
  twp (uv_fs_mkdir p) Q s.
Proof.
  intros Hb Hg. unfold uv_fs_mkdir. destruct (p =? "")%string; [by apply twp_ret, Hb|].
  apply twp_bind, twp_mkdir_errno.
  - intros e s' Hs He. apply twp_ret, Hb; [done|by apply uv_neg].
  - intros s' Hs Hq. by apply twp_ret, Hg.
Qed.

(** [UvAccess], which may fail with a positive number. *)
Lemma twp_UvAccess p mode (Q : Z → fstate → Prop) s :
  (∀ ret s', files s' = files s → ret ≠ 0 → (ret = - ENOENT → absent (files s) p) → Q ret s') →
  (∀ s', files s' = files s → p ≠ ""%string ∧ is_Some (files s !! resolve p) → Q 0 s') →
  twp (UvAccess p mode) Q s.
Proof.
  intros Hb Hg. apply twp_bind, twp_fcall.
  - intros e s1 _ H1. by apply twp_ret, Hb.
  - intros s1 H1. cbn [fst snd negb] in *. apply twp_uv_stat; rewrite H1.
    + intros ret s2 H2 Hr Ha. apply Hb; [done|lia|done].
    + intros s2 H2 Hp. by apply Hg.
Qed.

Lemma twp_Mkdirs p mode (Q : Z → fstate → Prop) s :
  (∀ errno s', made (resolve p) (files s) (files s') →
    (errno = 0 → p ≠ ""%string → files s' !! resolve p = Some NDir) → Q errno s') →
  twp (Mkdirs p mode) Q s.
Proof.
  intros HQ. unfold Mkdirs. destruct (utf8 _); cbn [negb]; [|by apply twp_ret, HQ; [apply made_refl|]].
  destruct (p =? "")%string eqn:E.
  { apply String.eqb_eq in E. destruct mode; apply twp_ret, HQ; by try apply made_refl. }
  destruct mode.
  - apply twp_mkdir_errno; intros; rewrite ?H; apply HQ.
    1: by rewrite H; apply made_refl. 1: lia.
    + rewrite H. by apply made_insert.
    + intros _ _. rewrite H. apply lookup_insert_eq.
  - eapply twp_mono; [apply create_dir_all_spec|]. rewrite rev_involutive. intros e s' [Hm Hd]. by apply HQ; auto.
Qed.

(** However calls fail, making a directory returns, removes and changes nothing and adds
    nothing but directories on the way to it; it succeeds only if nothing was there, and
    then the directory is. *)
Theorem mkdir_result (p : string) (recursion : option bool) s :
  twp (DoMkdir p recursion) (λ r s',
    made (resolve p) (files s) (files s') ∧
    match r with
    | None => files s !! resolve p = None ∧ files s' !! resolve p = Some NDir
    | Some e => e ≠ 0
    end) s.
Proof.
  assert (∀ ret s', made (resolve p) (files s) (files s') → ret ≠ 0 →
    made (resolve p) (files s) (files s') ∧
    match result_of ret with
    | None => files s !! resolve p = None ∧ files s' !! resolve p = Some NDir
    | Some e => e ≠ 0
    end) as Hfail by (intros ret s' Hm Hr; unfold result_of; by rewrite (proj2 (Z.eqb_neq ret 0) Hr)).
  assert (∀ s', files s' = files s → made (resolve p) (files s) (files s')) as Hsame by (intros s' ->; apply made_refl).
  apply twp_bind. destruct recursion as [recursion|]; cbn [default is_Some].
  - rewrite bool_decide_eq_true_2 by by eexists. apply twp_bind, twp_UvAccess.
    2: { intros s1 H1 _. apply twp_ret, twp_ret, Hfail; [auto|done]. }
    intros ret s1 H1 Hr Ha. change ERRNO_NOERR with 0. rewrite (proj2 (Z.eqb_neq ret 0) Hr).
    destruct (ret =? - ENOENT) eqn:En; cbn [negb]; zbool; [|apply twp_ret, twp_ret, Hfail; auto].
    specialize (Ha En). apply twp_bind, twp_Mkdirs. rewrite H1. intros errno s2 Hm Hd.
    destruct (errno =? 0) eqn:Ee; cbn [negb]; zbool; [|apply twp_ret, twp_ret, Hfail; auto].
    apply twp_bind, twp_UvAccess.
    + intros ret' s3 H3 Hr' _. rewrite (proj2 (Z.eqb_neq ret' 0) Hr'). cbn [negb].
      apply twp_ret, twp_ret, Hfail; [by rewrite H3|done].
    + intros s3 H3 [Hp _]. apply twp_ret, twp_ret. cbn. rewrite H3. split; [done|].
      destruct Ha as [?|Ha]; [done|]. auto.
  - rewrite bool_decide_eq_false_2 by by intros []. apply twp_bind. unfold MkdirCore. apply twp_bind, twp_fcall.
    { intros e s1 _ H1. apply twp_ret, twp_ret, twp_ret, (Hfail ENOMEM); [by apply Hsame|done]. }
    intros s1 H1. cbn [fst snd negb] in *. apply twp_uv_mkdir; rewrite H1.
    + intros ret s2 H2 Hr. assert (ret ≠ 0) as Hr0 by lia. rewrite (proj2 (Z.eqb_neq ret 0) Hr0). cbn [negb].
      apply twp_ret, twp_ret, Hfail; auto.
    + intros s2 H2 Hq. apply twp_ret, twp_ret. cbn. rewrite H2.
      split; [by apply made_insert|]. by rewrite lookup_insert_eq.
Qed.
End rules.

(** ** When nothing fails *)

Section calm.
Context {FE : FsEnv}.
Implicit Types (s : fstate) (f : tree).

Lemma twp_uv_stat_calm p y (Q : Z → fstate → Prop) s :
  never_fails F_stat → p ≠ ""%string → files s !! resolve p = Some y →
  (∀ s', files s' = files s → Q 0 s') → twp (uv_fs_stat p) Q s.
Proof.
  intros Hc Hp Hy HQ. apply twp_fcall_calm; [done|]. intros s' Hs. unfold look in *.
  apply String.eqb_neq in Hp as ->. rewrite Hy in *. by apply HQ.
Qed.
Lemma twp_uv_unlink_calm p data (Q : Z → fstate → Prop) s :
  never_fails F_remove → p ≠ ""%string → files s !! resolve p = Some (NFile data) →
  (∀ s', files s' = delete (resolve p) (files s) → Q 0 s') → twp (uv_fs_unlink p) Q s.
Proof.
  intros Hc Hp Hy HQ. apply twp_fcall_calm; [done|]. intros s' Hs. unfold look in *.
  apply String.eqb_neq in Hp as E. rewrite E, Hy in *. by apply HQ.
Qed.
Lemma twp_CheckDir_calm p (Q : bool → fstate → Prop) s :
  never_fails F_stat → p ≠ ""%string → (∀ s', files s' = files s → Q (is_dir (files s) (resolve p)) s') → twp (CheckDir p) Q s.
Proof.
  intros Hc Hp HQ. unfold CheckDir. apply String.eqb_neq in Hp as ->.
  apply twp_bind, twp_is_directory_calm; [done|]. intros e s' Hs. by apply twp_ret, HQ.
Qed.

(** A place a file can be moved to: in a directory, and not itself one. *)
Definition free_place (f : tree) (q : path) : Prop := is_dir f (removelast q) = true ∧ f !! q ≠ Some NDir.

Lemma CopyAndDeleteFile_calm src dest data s :
  (∀ k, k ≠ F_rename → never_fails k) → src ≠ ""%string → files s !! [] = Some NDir →
  files s !! resolve src = Some (NFile data) → resolve src ≠ resolve dest → free_place (files s) (resolve dest) →
  twp (CopyAndDeleteFile src dest) (λ ret _, ret = 0) s.
Proof.
  intros Hc Hp Hroot Hs Hne [Hpar Hnd]. unfold CopyAndDeleteFile.
  apply twp_bind, twp_fcall_calm; [by apply Hc|]. intros s1 H1. cbn [fst snd negb] in *. rewrite <- H1 in *.
  apply twp_bind, (twp_uv_stat_calm src (NFile data)); [by apply Hc|done..|]. intros s2 H2. cbn [Z.ltb Z.compare].
  rewrite <- H2 in *. clear H1 H2.
  assert (resolve dest ≠ []) as Hd0 by (intros E; apply Hnd; congruence).
  assert (Hcopy : ∀ s', files s' !! resolve src = Some (NFile data) → is_dir (files s') (removelast (resolve dest)) = true →
    (files s' !! resolve dest = None) →
    twp ('(ok, errCode) ← copy_file src dest;
         if negb ok then sret errCode else
         ret ← uv_fs_unlink src;
         if ret <? 0 then result ← uv_fs_unlink dest; sret (if result <? 0 then result else ret)
         else sret ERRNO_NOERR) (λ ret _, ret = 0) s').
  { intros s3 F1 F2 F3. apply twp_bind. unfold twp, copy_file. apply twp_fcall_calm; [by apply Hc|].
    intros s4 H4. unfold copy_check in *. rewrite F1, F3, F2 in *.
    rewrite decide_False, bool_decide_eq_true_2 in * by done. cbn [fst snd negb andb] in *.
    apply twp_bind, (twp_uv_unlink_calm src data); [by apply Hc|done|by rewrite H4, lookup_insert_ne|].
    intros s5 H5. by apply twp_ret. }
  apply twp_bind, twp_exists_calm; [by apply Hc|]. intros s3 H3. case_bool_decide as Hex.
  - apply twp_bind, twp_bind, twp_fcall_calm; [by apply Hc|]. intros s4 H4. rewrite H3 in H4 |- *. unfold remove_body in *.
    destruct Hex as [y Hy]. rewrite Hy in H4 |- *.
    destruct y; try congruence; cbn [fst snd] in *; apply twp_ret; cbn [negb];
      (apply Hcopy; [by rewrite H4, lookup_delete_ne|rewrite H4|by rewrite H4, lookup_delete_eq]);
      apply tree_is_dir_Some; apply tree_is_dir_Some in Hpar; rewrite lookup_delete_ne; congruence.
  - apply twp_bind, twp_ret, Hcopy; rewrite H3; [done..|]. by apply eq_None_not_Some.
Qed.

Lemma RenameFile_calm src dest data s :
  (∀ k, k ≠ F_rename → never_fails k) → (∀ n, fs_fault F_rename n = 0 ∨ fs_fault F_rename n = EXDEV) →
  src ≠ ""%string → dest ≠ ""%string → wf_tree (files s) →
  files s !! resolve src = Some (NFile data) → resolve src ≠ resolve dest → free_place (files s) (resolve dest) →
  twp (RenameFile src dest) (λ ret _, ret = 0) s.
Proof.
  intros Hc Hx Hp Hd [Hroot Hwf] Hs Hne Hfree. pose proof Hfree as [Hpar Hnd]. unfold RenameFile, uv_fs_rename.
  apply String.eqb_neq in Hp as E1, Hd as E2. rewrite E1, E2. apply twp_bind, twp_bind, twp_fcall.
  - intros e s1 (He & _ & _ & n & ->) H1. apply twp_ret. destruct (Hx n) as [E|E]; [done|]. rewrite E. cbn.
    apply (CopyAndDeleteFile_calm src dest data); rewrite ?H1; done.
  - intros s1 H1. apply twp_ret. unfold rename_body in *. rewrite Hs in *.
    assert (¬ resolve src `prefix_of` resolve dest) as Hnp.
    { intros [r Hr]. apply tree_is_dir_Some in Hpar. rewrite Hr in Hpar. destruct r as [|x r _] using rev_ind.
      { by rewrite app_nil_r in Hr. }
      rewrite app_assoc, removelast_last in Hpar.
      assert (r = []) as ->; [|rewrite app_nil_r in Hpar; congruence].
      apply (wf_below_leaf (resolve src) (files s) r); [by apply (wf_below_sub [] (resolve src))|congruence|by eexists]. }
    rewrite !decide_False in H1 |- * by done. rewrite bool_decide_eq_false_2 in H1 |- * by done.
    destruct (files s !! resolve dest) as [[| |]|] eqn:En; [by apply twp_ret|done|by apply twp_ret|].
    assert (bool_decide (resolve dest ≠ []) = true) as ->.
    { apply bool_decide_eq_true_2. intros E. rewrite E in En. congruence. }
    rewrite Hpar. by apply twp_ret.
Qed.

(** When nothing fails, renaming aside, which may not be possible between devices, a move
    of a file to a place in a directory succeeds. *)
Theorem move_succeeds (src dest : string) (data : list Z) s :
  (∀ k, k ≠ F_rename → never_fails k) → (∀ n, fs_fault F_rename n = 0 ∨ fs_fault F_rename n = EXDEV) →
  src ≠ ""%string → dest ≠ ""%string → wf_tree (files s) →
  files s !! resolve src = Some (NFile data) → resolve src ≠ resolve dest → free_place (files s) (resolve dest) →
  twp (DoMove src dest None) (λ r _, r = None) s.
Proof.
  intros Hc Hx Hp Hd Hwf Hs Hne Hfree. assert (never_fails F_stat) as Hst by by apply Hc.
  apply twp_bind, twp_bind, twp_CheckDir_calm; [done..|]. intros s1 H1.
  assert (is_dir (files s) (resolve src) = false) as -> by (unfold is_dir; by rewrite Hs, bool_decide_eq_false_2).
  apply twp_bind, twp_CheckDir_calm; [done..|]. intros s2 H2. rewrite H1 in H2 |- *.
  assert (is_dir (files s) (resolve dest) = false) as -> by (by apply bool_decide_eq_false_2, Hfree).
  apply twp_ret, twp_bind, twp_bind, (twp_uv_stat_calm src (NFile data)); [done..|by rewrite H2|].
  intros s3 H3. cbn [Z.ltb Z.compare Z.eqb MODE_THROW_ERR].
  eapply twp_mono; [apply (RenameFile_calm src dest data); rewrite ?H3, ?H2; done|].
  intros ret s4 ->. by apply twp_ret.
Qed.

(** *** Making directories *)

Lemma missing_clear f q : (∀ n, f !! take n q = None ∨ f !! take n q = Some NDir) → missing f q = ENOENT.
Proof.
  intros H. unfold missing. destruct (existsb _ _) eqn:E; [|done]. apply existsb_exists in E as (n & _ & Hn).
  destruct (H n) as [E|E]; by rewrite E in Hn.
Qed.
Lemma twp_mkdir_calm q (Q : Z → fstate → Prop) s :
  never_fails F_mkdir → (∀ n, files s !! take n q = None ∨ files s !! take n q = Some NDir) →
  (∀ s', files s' = files s → files s !! q = Some NDir → Q EEXIST s') →
  (∀ s', files s' = <[q := NDir]> (files s) → files s !! q = None → files s !! removelast q = Some NDir → q ≠ [] → Q 0 s') →
  (∀ s', files s' = files s → files s !! q = None → files s !! removelast q ≠ Some NDir ∨ q = [] → Q ENOENT s') →
  twp (mkdir_errno q) Q s.
Proof.
  intros Hc Hq H1 H2 H3. apply twp_fcall_calm; [done|]. intros s' Hs.
  destruct (files s !! q) as [y|] eqn:E; cbn [fst snd] in *.
  - apply H1; [done|]. destruct (Hq (length q)) as [F|F]; rewrite firstn_all in F; congruence.
  - destruct (is_dir _ _) eqn:Ed; cbn [andb] in *; [|rewrite (missing_clear _ _ Hq) in *; apply H3; [done..|]].
    + apply tree_is_dir_Some in Ed. case_bool_decide as En; cbn [fst snd] in *; [by apply H2|].
      rewrite (missing_clear _ _ Hq). apply H3; [done..|]. right. by destruct q.
    + left. intros F%tree_is_dir_Some. congruence.
Qed.

(** On the way to [q] there are directories, and nothing below the first that is missing. *)
Definition open_way (q : path) (f : tree) : Prop := ∀ n, f !! take n q = None ∨ f !! take n q = Some NDir.
Definition clear_way (q : path) (f : tree) : Prop :=
  f !! [] = Some NDir ∧ open_way q f ∧ ∀ n m, (n <= m)%nat → f !! take n q = None → f !! take m q = None.

Lemma wf_clear_way q f : wf_tree f → open_way q f → clear_way q f.
Proof.
  intros [H0 Hwf] Ho. split; [done|]. split; [done|]. intros n m Hnm Hn.
  destruct (f !! take m q) eqn:E; [exfalso|done].
  assert (take m q = take n q ++ drop n (take m q)) as Em.
  { rewrite <- (take_drop n (take m q)) at 1. by rewrite take_take, Nat.min_l by lia. }
  rewrite Em in E. assert (drop n (take m q) = []) as Ed.
  { apply (wf_below_leaf (take n q) f); [by apply (wf_below_sub [] (take n q))|congruence|by eexists]. }
  rewrite Ed, app_nil_r in E. congruence.
Qed.
Lemma take_snoc (q : path) x k : take (Nat.min k (length q)) (q ++ [x]) = take k q.
Proof.
  rewrite take_app_le by lia. destruct (decide (k <= length q)%nat) as [Hk|Hk].
  - by rewrite Nat.min_l.
  - by rewrite Nat.min_r, !take_ge by lia.
Qed.
Lemma clear_way_parent q x f : clear_way (q ++ [x]) f → clear_way q f.
Proof.
  intros (H0 & Ho & Hc). split; [done|]. split.
  - intros k. rewrite <- (take_snoc q x k). apply Ho.
  - intros n m Hnm. rewrite <- (take_snoc q x n), <- (take_snoc q x m). apply Hc. lia.
Qed.
Lemma made_open_way q q' f f' : made q' f f' → open_way q f → open_way q f'.
Proof. intros Hm H n. destruct (Hm (take n q)) as [->|(_ & E & _)]; auto. Qed.

Definition all_dirs (q : path) (f : tree) : Prop := ∀ n, f !! take n q = Some NDir.
Lemma clear_way_dirs q f k n :
  clear_way q f → f !! take k q = Some NDir → (n <= k)%nat → f !! take n q = Some NDir.
Proof. intros (_ & Ho & Hc) Hk Hn. destruct (Ho n) as [E|E]; [|done]. by rewrite (Hc n k Hn E) in Hk. Qed.
Lemma clear_way_all q f : clear_way q f → f !! q = Some NDir → all_dirs q f.
Proof.
  intros Hc Hq n. apply (clear_way_dirs q f (n + length q)); [done|by rewrite take_ge by lia|lia].
Qed.
Lemma all_dirs_snoc q x f f' : all_dirs q f → f' = <[q ++ [x] := NDir]> f → all_dirs (q ++ [x]) f'.
Proof.
  intros Ha -> n. destruct (decide (n <= length q)%nat) as [Hn|Hn].
  - rewrite take_app_le by done. rewrite lookup_insert_ne; [apply Ha|].
    intros E. apply (f_equal length) in E. rewrite length_app, length_take in E. cbn in E. lia.
  - rewrite take_ge by (rewrite length_app; cbn; lia). apply lookup_insert_eq.
Qed.

Lemma create_dir_all_calm rq s :
  never_fails F_mkdir → never_fails F_stat → clear_way (rev rq) (files s) →
  twp (create_dir_all rq) (λ e s', e = 0 ∧ made (rev rq) (files s) (files s') ∧ all_dirs (rev rq) (files s')) s.
Proof.
  intros Hm Hst. revert s. induction rq as [|x parent IH]; intros s Hw; pose proof Hw as (H0 & Ho & _);
    cbn [create_dir_all]; apply twp_bind, twp_mkdir_calm; try done.
  1, 3: intros s1 H1 Hd; apply twp_bind, twp_fcall_calm; [done|]; intros s2 H2; apply twp_ret; cbn [fst snd] in *;
    rewrite H1 in H2; rewrite H1, (proj2 (tree_is_dir_Some _ _) Hd), H2; split; [done|]; split; [apply made_refl|];
    by apply clear_way_all.
  - intros s1 H1 Hq _. cbn in Hq. congruence.
  - intros s1 H1 Hq Hp _. apply twp_ret. split; [done|]. split; [rewrite H1; by apply made_insert|].
    cbn [rev] in *. rewrite removelast_last in Hp. eapply all_dirs_snoc; [|exact H1].
    by apply clear_way_all; [apply clear_way_parent in Hw|].
  - intros s1 H1 Hq _. rewrite <- H1 in *. cbn [rev] in *. cbn [Z.eqb ENOENT negb Pos.eqb].
    apply twp_bind. eapply twp_mono; [by eapply IH, clear_way_parent|]. intros e s2 (-> & Hm2 & Hd2). cbn [Z.eqb negb].
    assert (rev parent `prefix_of` rev parent ++ [x]) as Hp by (by eexists).
    assert (files s2 !! (rev parent ++ [x]) = None) as Hq2.
    { destruct (Hm2 (rev parent ++ [x])) as [->|(_ & _ & [k Hk])]; [done|].
      apply (f_equal length) in Hk. rewrite !length_app in Hk. cbn in Hk. lia. }
    apply twp_bind, twp_mkdir_calm; [done|by eapply made_open_way|congruence|..].
    + intros s3 H3 _ _ _. apply twp_ret. split; [done|]. split; [|by eapply all_dirs_snoc].
      rewrite H3. eapply made_trans; [exact Hm2|exact Hp|]. by apply made_insert.
    + intros s3 H3 _ [Hx|Hx]; [|by destruct (rev parent)].
      rewrite removelast_last in Hx. specialize (Hd2 (length (rev parent))). by rewrite firstn_all in Hd2.
Qed.

Lemma twp_UvAccess_absent p mode (Q : Z → fstate → Prop) s :
  never_fails F_alloc → never_fails F_stat → files s !! resolve p = None → missing (files s) (resolve p) = ENOENT →
  (∀ s', files s' = files s → Q (- ENOENT) s') → twp (UvAccess p mode) Q s.
Proof.
  intros Ha Hst Hp He HQ. apply twp_bind, twp_fcall_calm; [done|]. intros s1 H1. cbn [fst snd negb] in *.
  apply twp_fcall_calm; [done|]. intros s2 H2. rewrite H1 in *. unfold look in *. rewrite Hp, He in *.
  destruct (p =? "")%string; by apply HQ.
Qed.

(** When nothing fails, a recursive call makes the directory and all that are missing on
    the way to it. *)
Theorem mkdir_makes_parents (p : string) s :
  (∀ k, never_fails k) → p ≠ ""%string → utf8 (bytes_of p) = true →
  wf_tree (files s) → open_way (resolve p) (files s) → files s !! resolve p = None →
  twp (DoMkdir p (Some true)) (λ r s',
    r = None ∧ all_dirs (resolve p) (files s') ∧
    ∀ q, ¬ q `prefix_of` resolve p → files s' !! q = files s !! q) s.
Proof.
  intros Hc Hp Hu Hwf Ho Hq. pose proof (wf_clear_way _ _ Hwf Ho) as Hw. apply twp_bind. cbn [default].
  rewrite bool_decide_eq_true_2 by by eexists. apply twp_bind, twp_UvAccess_absent; [done..|by apply missing_clear|].
  intros s1 H1. cbn [Z.eqb Z.opp ENOENT ERRNO_NOERR Pos.eqb negb]. apply twp_bind. unfold Mkdirs.
  apply String.eqb_neq in Hp as Ep. rewrite Hu, Ep. cbn [negb].
  eapply twp_mono; [apply create_dir_all_calm; rewrite ?H1, ?rev_involutive; done|].
  rewrite rev_involutive, H1. intros e s2 (-> & Hm & Hd). cbn [Z.eqb negb]. apply twp_bind. unfold UvAccess.
  apply twp_bind, twp_fcall_calm; [done|]. intros s3 H3. cbn [fst snd negb] in *.
  eapply twp_uv_stat_calm; [done..| |].
  { rewrite H3. specialize (Hd (length (resolve p))). by rewrite firstn_all in Hd. }
  intros s4 H4. apply twp_ret, twp_ret. rewrite H4, H3. split; [done|]. split; [done|].
  intros q Hn. by destruct (Hm q) as [?|(_ & _ & ?)].
Qed.
End calm.

(** ** Access *)

Section access_answers.
Context {FE : FsEnv} {AE : AccessEnv}.

Lemma twp_UvAccess_calm p mode (Q : Z → fstate → Prop) s :
  (∀ k, never_fails k) →
  (∀ s', files s' = files s → Q (match look (files s) p with inl e => - Z.abs e | inr _ => 0 end) s') →
  twp (UvAccess p mode) Q s.
Proof.
  intros Hc HQ. apply twp_bind, twp_fcall_calm; [done|]. intros s1 H1. cbn [fst snd negb] in *.
  apply twp_fcall_calm; [done|]. intros s2 H2. rewrite H1 in *. by apply HQ.
Qed.

(** When nothing fails, the question whether a path can be accessed is answered, and
    nothing is changed: yes for what is there, no for what is not, and an error when
    something on the way is not a directory. *)
Theorem access_answer (p : string) (mode : option Z) s :
  (∀ k, never_fails k) → p ≠ ""%string → match mode with Some m => 0 <= m ∧ Z.land m 6 = m | None => True end →
  twp (DoAccess p mode) (λ r s', files s' = files s ∧
    r = if decide (is_Some (files s !! resolve p)) then inr true
        else if missing (files s) (resolve p) =? ENOENT then inr false else inl (- ENOTDIR)) s.
Proof.
  intros Hc Hp Hmode. unfold DoAccess, ValidAccessArgs. apply String.eqb_neq in Hp as Ep. rewrite Ep.
  assert (∃ m, (let '(m, hasMode) := GetMode mode in
    if (m <? 0) && hasMode then None else Some (if hasMode then m else 0)) = Some m) as [m ->].
  { destruct mode as [m|]; [|by eexists]. destruct Hmode as [H0 Hm]. unfold GetMode. rewrite Hm, Z.eqb_refl.
    rewrite (proj2 (Z.ltb_ge m 0) H0). by eexists. }
  apply twp_bind. unfold Access. cbn [Z.eqb DEFAULT_FLAG LOCAL_FLAG andb].
  apply twp_UvAccess_calm; [done|]. intros s' Hs. apply twp_ret. split; [done|]. unfold look. rewrite Ep.
  destruct (files s !! resolve p) as [y|] eqn:Ey.
  - by rewrite decide_True by by eexists.
  - rewrite decide_False by by intros []. unfold missing. by destruct (existsb _ _).
Qed.

(** Asked about a file of the cloud disk on this device, the code never answers an error:
    whatever keeps it from finding out counts as the file not being here. *)
Theorem local_cloud_access (p : string) (mode : Z) s :
  String.prefix CLOUDDISK_FILE_PREFIX p = true → 0 <= mode → Z.land mode 6 = mode →
  (∀ e, ac_location p = inl e → 0 < e) →
  twp (DoAccess_flag p mode LOCAL_FLAG) (λ r s', s' = s ∧
    r = inr match ac_location p with
            | inl _ => false
            | inr v => bool_decide (v = POSITION_LOCAL ∨ v = POSITION_BOTH)
            end) s.
Proof.
  intros Hp H0 Hm He. unfold DoAccess_flag, ValidAccessArgs, GetMode. destruct (p =? "")%string eqn:Ep.
  { apply String.eqb_eq in Ep as ->. done. }
  rewrite Hm, Z.eqb_refl, (proj2 (Z.ltb_ge mode 0) H0). cbn [andb]. apply twp_bind.
  unfold Access, IsCloudOrDistributedFilePath, HandleLocalCheck. rewrite Hp. cbn [Z.eqb LOCAL_FLAG andb orb].
  apply twp_ret, twp_ret. split; [done|]. destruct (ac_location p) as [e|v].
  - specialize (He e eq_refl). unfold access_result.
    rewrite (proj2 (Z.ltb_ge e 0)), (proj2 (Z.eqb_neq e 0)) by lia. done.
  - destruct (decide (v = POSITION_LOCAL)) as [->|H1]; [done|]. rewrite (bool_decide_eq_false_2 _ H1).
    destruct (decide (v = POSITION_BOTH)) as [->|H2]; [done|]. rewrite (bool_decide_eq_false_2 _ H2).
    rewrite bool_decide_eq_false_2 by tauto. done.
Qed.
End access_answers.

(** ** Witnesses *)

(** Renaming crosses devices if [dev], copying fails if [full], nothing else does. *)
Definition sample_fault (dev full : bool) (k : fscall) : Z :=
  match k with F_rename => if dev then EXDEV else 0 | F_copy => if full then 28 else 0 | _ => 0 end.
#[local] Instance sample_env (dev full : bool) : FsEnv.
Proof.
  refine {| fs_fault := λ k _, sample_fault dev full k; fs_partial := λ _, None; fs_dtype := λ _, true;
    fs_link := λ _, false; fs_order := λ l, l |}.
  - intros k n. destruct k, dev, full; done.
  - done.
Defined.
#[local] Instance sample_positive dev full : @ErrnoPositive (sample_env dev full).
Proof. intros [] n; destruct dev, full; vm_compute; discriminate. Qed.
Lemma sample_calm k : @never_fails (sample_env false false) k.
Proof. intros n. by destruct k. Qed.
Lemma sample_calm_but_rename dev k : k ≠ F_rename → @never_fails (sample_env dev false) k.
Proof. intros Hk n. by destruct k. Qed.
#[local] Instance sample_access : AccessEnv :=
  {| ac_location := λ _, inl 13; ac_user := "100"; ac_bundle := "com.example" |}.

Definition sample_files : tree := list_to_map [
  ([], NDir); (["a"], NDir); (["a"; "f"], NFile [1; 2]); (["b"], NDir); (["b"; "g"], NFile [3])]%string.
Definition sample : fstate := FState sample_files 0.
Lemma sample_files_wf : wf_tree sample_files.
Proof. apply wf_treeb_sound. vm_compute. reflexivity. Qed.

Lemma move_keeps_file_witness :
  ∃ r s', @DoMove (sample_env true true) "/a/f" "/b/g" None sample = Some (r, s') ∧
    move_outcome "/a/f" "/b/g" None [1; 2] sample_files r (files s').
Proof.
  destruct (twp_elim _ _ _ (@move_keeps_file (sample_env true true) (sample_positive true true)
    "/a/f" "/b/g" None [1; 2] sample sample_files_wf eq_refl ltac:(vm_compute; discriminate))) as (r & s' & E & H).
  exists r, s'. split; [exact E|exact H].
Defined.

Lemma move_succeeds_witness :
  ∃ s', @DoMove (sample_env true false) "/a/f" "/b/g" None sample = Some (None, s').
Proof.
  destruct (twp_elim _ _ _ (@move_succeeds (sample_env true false) "/a/f" "/b/g" [1; 2] sample
    (sample_calm_but_rename true) ltac:(by right) ltac:(discriminate) ltac:(discriminate) sample_files_wf eq_refl
    ltac:(vm_compute; discriminate) ltac:(split; [reflexivity|vm_compute; discriminate]))) as (r & s' & E & Hr).
  exists s'. by rewrite E, Hr.
Defined.

Lemma mkdir_makes_parents_witness :
  ∃ s', @DoMkdir (sample_env false false) "/b/x/y" (Some true) sample = Some (None, s') ∧
    files s' !! ["b"; "x"]%string = Some NDir.
Proof.
  destruct (twp_elim _ _ _ (@mkdir_makes_parents (sample_env false false) "/b/x/y" sample sample_calm
    ltac:(discriminate) eq_refl sample_files_wf
    ltac:(intros [|[|[|[|n]]]]; vm_compute; auto) eq_refl)) as (r & s' & E & Hr & Hd & _).
  exists s'. split; [by rewrite E, Hr|]. exact (Hd 2%nat).
Defined.

Lemma access_answer_witness :
  ∃ s', @DoAccess (sample_env false false) sample_access "/a/f" (Some 4) sample = Some (inr true, s').
Proof.
  destruct (twp_elim _ _ _ (@access_answer (sample_env false false) sample_access "/a/f" (Some 4) sample sample_calm
    ltac:(discriminate) ltac:(split; [lia|reflexivity]))) as (r & s' & E & _ & Hr).
  exists s'. by rewrite E, Hr.
Defined.

Lemma local_cloud_access_witness :
  @DoAccess_flag (sample_env false false) sample_access "/data/storage/el2/cloud/f" 0 LOCAL_FLAG sample = Some (inr false, sample).
Proof.
  destruct (twp_elim _ _ _ (@local_cloud_access (sample_env false false) sample_access "/data/storage/el2/cloud/f" 0 sample
    eq_refl ltac:(lia) eq_refl ltac:(by intros e [= <-]))) as (r & s' & E & -> & ->).
  exact E.
Defined.

(** A file that cannot be copied to the other device stays, but what was at the
    destination is gone. *)
Example move_loses_destination :
  fst <$> @DoMove (sample_env true true) "/a/f" "/b/g" None sample = Some (Some 28) ∧
  (λ '(_, s'), (files s' !! ["a"; "f"]%string, files s' !! ["b"; "g"]%string)) <$>
    @DoMove (sample_env true true) "/a/f" "/b/g" None sample = Some (Some (NFile [1; 2]), None).
Proof. split; vm_compute; reflexivity. Qed.

(** Removing the directory [/a/f], which is a file, removes the file. *)
Example rmdir_of_a_file :
  (λ '(r, s'), (r, files s' !! ["a"; "f"]%string)) <$> @DoRmdirent (sample_env false false) "/a/f" sample = Some (None, None).
Proof. vm_compute. reflexivity. Qed.
