(* ===== verification/CopyDir.v ===== *)
(** * Copying a directory

    Models [copy_dir_core.cpp] of [mod_fs] over the file system of [FsTree]: the
    checks on the arguments, which compare them as strings, and the recursive copy
    that merges the source into a directory of its name below the destination,
    either replacing files that are there or listing them as conflicts.  Fuel bounds
    the depth of the recursion; more than the depth of the source tree is enough. *)

From S2P Require Import Prelude FsTree.

Definition ERRNO_NOERR : Z := 0.
Definition COPYMODE_MIN : Z := 0.
Definition COPYMODE_MAX : Z := 1.

Inductive ModeOfCopyDir := DIRMODE_FILE_COPY_THROW_ERR | DIRMODE_FILE_COPY_REPLACE.
Definition mode_value (m : ModeOfCopyDir) : Z :=
  match m with DIRMODE_FILE_COPY_THROW_ERR => 0 | DIRMODE_FILE_COPY_REPLACE => 1 end.
Coercion mode_value : ModeOfCopyDir >-> Z.

Record ConflictFiles := Conflict { srcFiles : string; destFiles : string }.
Record CopyDirResult := CopyResult {
  fsResult : option Z;                   (** the error, [None] for success *)
  errFiles : option (list ConflictFiles)
}.

(** ** Arguments *)

Definition EndWithSlash (src : string) : bool :=
  bool_decide (String.get (String.length src - 1) src = Some slash).

(** [dest.find(src) == 0] is [prefix]. *)
Definition AllowToCopy (src dest : string) : bool :=
  if (src =? dest)%string then false
  else if (if EndWithSlash src then String.prefix src dest else String.prefix (src +:+ "/") dest) then false
  else if bool_decide (parent_elems src = path_elems dest) then false
  else true.

Section copydir.
Context {FE : FsEnv}.

Definition ParseAndCheckOperand (src dest : string) (mode : option Z) : st fstate (bool * Z) :=
  '(srcDir, _) ← is_directory src;
  if negb srcDir then sret (false, 0) else
  '(destDir, _) ← is_directory dest;
  if negb destDir then sret (false, 0) else
  if negb (AllowToCopy src dest) then sret (false, 0) else
  sret (match mode with
        | Some modeValue =>
            if (modeValue <? COPYMODE_MIN) || (modeValue >? COPYMODE_MAX) then (false, 0)
            else (true, modeValue)
        | None => (true, 0)
        end).

(** ** The copy *)

Definition MakeDir (path : string) : st fstate Z :=
  '(ok, errCode) ← create_directory path;
  sret (if negb ok then errCode else ERRNO_NOERR).

Definition RemoveFile (destPath : string) : st fstate Z :=
  '(ok, errCode) ← remove destPath;
  sret (if negb ok then errCode else ERRNO_NOERR).

Definition CopyFile (src dest : string) (mode : Z) : st fstate Z :=
  '(ex, errCode) ← exists_ dest;
  ret ← (if ex : bool then if mode =? DIRMODE_FILE_COPY_THROW_ERR then sret EEXIST else RemoveFile dest
         else sret 0);
  if negb (ret =? 0) then sret ret else
  if negb (errCode =? ERRNO_NOERR) then sret errCode else
  '(ok, errCode) ← copy_file src dest;
  sret (if negb ok then errCode else ERRNO_NOERR).

Definition FilterFunc (d_name : string) : bool :=
  if (d_name =? ".")%string || (d_name =? "..")%string then false else true.

(** Make the destination unless it is there: [CopySubDir] and [CopyDirFunc]. *)
Definition MakeIfAbsent (destPath : string) : st fstate Z :=
  '(ex, errCode) ← exists_ destPath;
  if negb ex && (errCode =? ERRNO_NOERR) then MakeDir destPath
  else sret (if negb (errCode =? ERRNO_NOERR) then errCode else ERRNO_NOERR).

Section rec.
Context (rec : string → string → Z → list ConflictFiles → st fstate (Z * list ConflictFiles)).

Definition CopySubDir (srcPath destPath : string) (mode : Z) (errfiles : list ConflictFiles) :
    st fstate (Z * list ConflictFiles) :=
  res ← MakeIfAbsent destPath;
  if negb (res =? ERRNO_NOERR) then sret (res, errfiles) else rec srcPath destPath mode errfiles.

(** The loop over [namelist]. *)
Fixpoint CopyEntries (srcPath destPath : string) (mode : Z) (namelist : list dirent)
    (errfiles : list ConflictFiles) : st fstate (Z * list ConflictFiles) :=
  match namelist with
  | [] => sret (ERRNO_NOERR, errfiles)
  | e :: namelist =>
      let src := child srcPath (d_name e) in
      let dest := child destPath (d_name e) in
      if bool_decide (d_type e = DT_DIR) then
        '(res, errfiles) ← CopySubDir src dest mode errfiles;
        if res =? ERRNO_NOERR then CopyEntries srcPath destPath mode namelist errfiles
        else sret (res, errfiles)
      else
        res ← CopyFile src dest mode;
        if res =? EEXIST then
          CopyEntries srcPath destPath mode namelist (errfiles ++ [Conflict src dest])
        else if res =? ERRNO_NOERR then CopyEntries srcPath destPath mode namelist errfiles
        else sret (res, errfiles)
  end.
End rec.

Fixpoint RecurCopyDir (fuel : nat) (srcPath destPath : string) (mode : Z)
    (errfiles : list ConflictFiles) : st fstate (Z * list ConflictFiles) :=
  match fuel with
  | O => λ _, None
  | S fuel =>
      ptr ← alloc;
      if negb ptr then sret (ENOMEM, errfiles) else
      r ← scandir_types srcPath FilterFunc;
      match r with
      | inl errno => sret (errno, errfiles)
      | inr namelist => CopyEntries (RecurCopyDir fuel) srcPath destPath mode namelist errfiles
      end
  end.

Definition CopyDirFunc (fuel : nat) (src dest : string) (mode : Z) (errfiles : list ConflictFiles) :
    st fstate (Z * list ConflictFiles) :=
  match rsplit src with
  | None => sret (EINVAL, errfiles)
  | Some (_, name) =>
      let destStr := child dest name in
      res ← MakeIfAbsent destStr;
      if negb (res =? ERRNO_NOERR) then sret (res, errfiles) else
      '(res, errfiles) ← RecurCopyDir fuel src destStr mode errfiles;
      sret (if (match errfiles with [] => false | _ => true end) && (res =? ERRNO_NOERR)
            then (EEXIST, errfiles) else (res, errfiles))
  end.

Definition DoCopyDir (fuel : nat) (src dest : string) (mode : option Z) : st fstate CopyDirResult :=
  '(succ, modeValue) ← ParseAndCheckOperand src dest mode;
  if negb succ then sret (CopyResult (Some EINVAL) None) else
  '(ret, errfiles) ← CopyDirFunc fuel src dest modeValue [];
  sret (if (ret =? EEXIST) && (modeValue =? DIRMODE_FILE_COPY_THROW_ERR)
        then CopyResult (Some EEXIST) (Some errfiles)
        else if negb (ret =? 0) then CopyResult (Some ret) None
        else CopyResult None None).
End copydir.

Example allow_prefix : AllowToCopy "/a/b" "/a/b/c" = false ∧ AllowToCopy "/a/b" "/a/" = true
  ∧ AllowToCopy "/a/b" "/a" = false ∧ AllowToCopy "/a/b" "/a//b/c" = true ∧ AllowToCopy "/a/b/" "/a/b" = false.
Proof. by vm_compute. Qed.

(** ** What copying one entry does *)

(** An entry of [l] says that the place below [d] of what is at [r] below [s] was taken. *)
Definition conflict (l : list ConflictFiles) (s d r : path) (f : tree) : Prop :=
  ∃ c, c ∈ l ∧ resolve (srcFiles c) = s ++ r ∧ resolve (destFiles c) = d ++ r ∧ is_Some (f !! (d ++ r)).

(** What is at [r] below [s] arrived below [d], but for the conflicts in [l]: a directory
    made or found, a file copied. *)
Definition arrived (l : list ConflictFiles) (s d : path) (f f' : tree) : Prop :=
  ∀ r y, f !! (s ++ r) = Some y →
    match y with
    | NDir => is_Some (f' !! (d ++ r))
    | _ => f' !! (d ++ r) = Some y ∨ conflict l s d r f
    end.

(** Every conflict of [l] is of something below [s] that is no directory and a place
    that was taken. *)
Definition genuine (l : list ConflictFiles) (s d : path) (f : tree) : Prop :=
  ∀ c, c ∈ l → ∃ r, is_Some (f !! (s ++ r)) ∧ f !! (s ++ r) ≠ Some NDir ∧
    resolve (srcFiles c) = s ++ r ∧ resolve (destFiles c) = d ++ r ∧ is_Some (f !! (d ++ r)).

Record copy_post (s d : path) (mode : Z) (errs : list ConflictFiles) (f : tree) (ret : Z)
    (errs' : list ConflictFiles) (f' : tree) : Prop := {
  cp_frame p : ¬ d `prefix_of` p → f' !! p = f !! p;
  cp_stay p : mode = 0 → is_Some (f !! p) → f' !! p = f !! p;
  cp_new : ∃ new, errs' = errs ++ new ∧ (mode = 0 → genuine new s d f) ∧ (mode ≠ 0 → new = []) ∧
             (ret = 0 → arrived new s d f f');
  cp_ret : ret ≠ EEXIST
}.

Lemma copy_post_same s d mode errs f ret :
  ret ≠ 0 → ret ≠ EEXIST → copy_post s d mode errs f ret errs f.
Proof.
  intros Hr Hx. split; [done..| |done]. exists []. rewrite app_nil_r.
  split_and!; [done| |done|done]. intros _ c Hc. by apply elem_of_nil in Hc.
Qed.

Lemma genuine_nil s d f : genuine [] s d f.
Proof. intros c Hc. by apply elem_of_nil in Hc. Qed.

Lemma arrived_mono l l' s d f f' : l ⊆ l' → arrived l s d f f' → arrived l' s d f f'.
Proof.
  intros Hl H r y Hy. specialize (H r y Hy). destruct y; [|done|];
    (destruct H as [H|(c & Hc & H)]; [by left|right; exists c; split; [by apply Hl|done]]).
Qed.

(** An entry that was not there is added. *)
Lemma added_stays (f : tree) (q : path) (x : node) (p : path) : f !! q = None → is_Some (f !! p) → <[q := x]> f !! p = f !! p.
Proof. intros Hq Hp. rewrite lookup_insert_ne; [done|]. intros ->. rewrite Hq in Hp. by destruct Hp. Qed.

Section specs.
Context {FE : FsEnv}.

(** No call claims that something exists when it does not. *)
Definition no_false_EEXIST : Prop := ∀ k n, fs_fault k n ≠ EEXIST.

Lemma remove_at_errors q s :
  no_false_EEXIST → twp (remove_at q) (λ r _, r.2 ≠ EEXIST) s.
Proof.
  intros Hnf. apply twp_fcall; [intros e s' (_ & _ & _ & n & ->) _; apply Hnf|]. intros s' _.
  unfold remove_body. repeat case_match; done.
Qed.

Lemma twp_RemoveFile p (Q : Z → fstate → Prop) s :
  no_false_EEXIST →
  (∀ r s', removed_at (resolve p) r (files s) (files s') → r.2 ≠ EEXIST → Q r.2 s') →
  twp (RemoveFile p) Q s.
Proof.
  intros Hnf HQ. apply twp_bind. eapply twp_mono.
  { apply (twp_and _ (λ r s', removed_at (resolve p) r (files s) (files s')));
      [by apply twp_remove_at|by apply remove_at_errors]. }
  intros [b e] s' [Hr He]. apply twp_ret. specialize (HQ _ _ Hr He). cbn [snd] in HQ. destruct b; [|done].
  destruct Hr as [Hr _]. cbn [fst snd] in Hr. by rewrite Hr in HQ.
Qed.

(** The outcome of copying one file: what changes, and when it is a conflict. *)
Definition file_post (sp dp : path) (mode : Z) (f : tree) (ret : Z) (f' : tree) : Prop :=
  (∀ p, p ≠ dp → f' !! p = f !! p) ∧ (mode = 0 → is_Some (f !! dp) → f' !! dp = f !! dp) ∧
  (ret = 0 → ∃ x, f !! sp = Some (NFile x) ∧ f' !! dp = Some (NFile x)) ∧
  (ret = EEXIST → mode = 0 ∧ is_Some (f !! dp)).

Lemma copy_file_errors src dst f e :
  src ≠ dst → copy_check src dst f = inl e → e ≠ 0 ∧ e ≠ EEXIST.
Proof. unfold copy_check. intros. repeat case_match; simplify_eq; done. Qed.

Lemma twp_copy_file_strict from to (Q : bool * Z → fstate → Prop) s :
  no_false_EEXIST → resolve from ≠ resolve to →
  (∀ e s', e ≠ 0 → e ≠ EEXIST → (files s' = files s ∨ ∃ x, files s' = <[resolve to := x]> (files s)) →
    Q (false, e) s') →
  (∀ data s', files s !! resolve from = Some (NFile data) →
    files s' = <[resolve to := NFile data]> (files s) → Q (true, 0) s') →
  twp (copy_file from to) Q s.
Proof.
  intros Hnf Hne Hb Hg. unfold twp, copy_file. apply twp_fcall.
  - intros e s' (He & _ & _ & n & ->) Hs. cbn [fst snd] in *. apply Hb; [done|apply Hnf|]. rewrite Hs.
    destruct (copy_check _ _ _) as [|data]; [by left|].
    destruct (fs_partial _); [right; by eexists|by left].
  - intros s' Hs. destruct (copy_check (resolve from) (resolve to) (files s)) as [e|data] eqn:E;
      cbn [fst snd] in *.
    + destruct (copy_file_errors _ _ _ _ Hne E). apply Hb; [done|done|by left].
    + apply (Hg data); [|done]. unfold copy_check in E. repeat case_match; simplify_eq; done.
Qed.

Lemma CopyFile_spec src dest mode s :
  no_false_EEXIST → resolve src ≠ resolve dest →
  twp (CopyFile src dest mode)
    (λ ret s', file_post (resolve src) (resolve dest) mode (files s) ret (files s')) s.
Proof.
  intros Hnf Hne. set (sp := resolve src) in *. set (dp := resolve dest) in *.
  assert (Hcopy : ∀ s1, (∀ p, p ≠ dp → files s1 !! p = files s !! p) →
    (mode = 0 → is_Some (files s !! dp) → False) →
    twp ('(ok, errCode) ← copy_file src dest; sret (if negb ok then errCode else ERRNO_NOERR))
      (λ ret s', file_post sp dp mode (files s) ret (files s')) s1).
  { intros s1 H1 Hm. apply twp_bind, twp_copy_file_strict; [done|done| |]; fold sp dp.
    - intros e s2 He He' Hs2. apply twp_ret. cbn [negb]. split_and!; [|naive_solver|done|done].
      intros p Hp. destruct Hs2 as [->|[x ->]]; [by apply H1|]. rewrite lookup_insert_ne by done. by apply H1.
    - intros data s2 Hsrc Hs2. apply twp_ret. cbn [negb]. rewrite H1 in Hsrc by done. rewrite Hs2.
      split_and!; [|naive_solver| |done].
      + intros p Hp. rewrite lookup_insert_ne by done. by apply H1.
      + intros _. exists data. by rewrite lookup_insert_eq. }
  unfold CopyFile. apply twp_bind, twp_exists; fold dp.
  - intros e s1 (He & _ & _ & n & E) H1. apply twp_bind, twp_ret. cbn [negb Z.eqb].
    apply Z.eqb_neq in He as E0. unfold ERRNO_NOERR. rewrite E0. cbn [negb]. apply twp_ret.
    rewrite H1. split_and!; [done..| |]; [done|]. intros ->. by destruct (Hnf F_stat n).
  - intros s1 H1. destruct (bool_decide _) eqn:Ex.
    + apply bool_decide_eq_true in Ex. apply twp_bind. change (mode_value DIRMODE_FILE_COPY_THROW_ERR) with 0.
      destruct (mode =? 0) eqn:Em; zbool.
      * apply twp_ret. cbn. apply twp_ret. rewrite H1. by split_and!.
      * apply twp_RemoveFile; [done|]. fold dp. intros [b e] s2 Hr Hee. rewrite H1 in Hr. cbn [snd] in *.
        destruct (e =? 0) eqn:Ee; zbool; cbn [negb].
        -- apply Hcopy; [|done]. intros p Hp. by rewrite (removed_at_other _ _ _ _ _ Hr Hp).
        -- apply twp_ret. split_and!; [|done..]. intros p Hp. by rewrite (removed_at_other _ _ _ _ _ Hr Hp).
    + apply bool_decide_eq_false in Ex. apply twp_bind, twp_ret. cbn. apply Hcopy; [by rewrite H1|done].
Qed.
(** The kinds of entries are reported. *)
Definition types_reported : Prop := ∀ p, fs_dtype p = true.

(** A copied or conflicting file, as an entry. *)
Lemma file_entry_post src dest mode errs f ret f' :
  apart (resolve src) (resolve dest) → wf_below (resolve src) f → is_Some (f !! resolve src) →
  f !! resolve src ≠ Some NDir → file_post (resolve src) (resolve dest) mode f ret f' →
  let conflicted := bool_decide (ret = EEXIST) in
  copy_post (resolve src) (resolve dest) mode errs f (if conflicted then 0 else ret)
    (if conflicted then errs ++ [Conflict src dest] else errs) f'.
Proof.
  set (sp := resolve src). set (dp := resolve dest). intros Ha Hwf Hsome Hleaf (Ho & Hst & Hok & Hex).
  assert (∀ r, is_Some (f !! (sp ++ r)) → r = []) as Hr.
  { intros r. by apply (wf_below_leaf sp f). }
  assert (∀ p, ¬ dp `prefix_of` p → f' !! p = f !! p) as Hfr.
  { intros p Hp. apply Ho. intros ->. by apply Hp. }
  assert (∀ p, mode = 0 → is_Some (f !! p) → f' !! p = f !! p) as Hstay.
  { intros p Hm Hp. destruct (decide (p = dp)) as [->|Hne]; [by apply Hst|by apply Ho]. }
  cbn. case_bool_decide as Hc.
  - destruct (Hex Hc) as [Hm Hd]. split; [done|done| |done].
    assert (conflict [Conflict src dest] sp dp [] f) as Hcf.
    { exists (Conflict src dest). rewrite !app_nil_r. split_and!; [by left|done..]. }
    exists [Conflict src dest]. split_and!; [done| |done|].
    + intros _ c ->%list_elem_of_singleton. exists []. rewrite !app_nil_r. by split_and!.
    + intros _ r y Hy. assert (r = []) as -> by (apply Hr; by eexists).
      destruct y; [by right| |by right]. by rewrite app_nil_r in Hy.
  - split; [done|done| |done]. exists []. rewrite app_nil_r.
    split_and!; [done|intros _; apply genuine_nil|done|]. intros E r y Hy.
    assert (r = []) as -> by (apply Hr; by eexists). rewrite app_nil_r in *.
    destruct (Hok E) as (x & Hx & Hx'). rewrite Hx in Hy. injection Hy as <-. by left.
Qed.

(** The entries [ns] of [s] copied to [d]. *)
Record loop_post (s d : path) (mode : Z) (ns : list string) (errs : list ConflictFiles) (f : tree) (ret : Z)
    (errs' : list ConflictFiles) (f' : tree) : Prop := {
  lp_frame p : (∀ n, n ∈ ns → ¬ d ++ [n] `prefix_of` p) → f' !! p = f !! p;
  lp_stay p : mode = 0 → is_Some (f !! p) → f' !! p = f !! p;
  lp_new : ∃ new, errs' = errs ++ new ∧
             (mode = 0 → ∀ c, c ∈ new → ∃ n, n ∈ ns ∧ genuine [c] (s ++ [n]) (d ++ [n]) f) ∧
             (mode ≠ 0 → new = []) ∧
             (ret = 0 → ∀ n, n ∈ ns → arrived new (s ++ [n]) (d ++ [n]) f f');
  lp_ret : ret ≠ EEXIST
}.

(** A genuine conflict of an entry is one of the directory. *)
Lemma genuine_up c s d n f : genuine [c] (s ++ [n]) (d ++ [n]) f →
  ∃ r, is_Some (f !! (s ++ r)) ∧ f !! (s ++ r) ≠ Some NDir ∧ resolve (srcFiles c) = s ++ r
       ∧ resolve (destFiles c) = d ++ r ∧ is_Some (f !! (d ++ r)).
Proof.
  intros H. destruct (H c) as (r & H1 & H2 & H3 & H4 & H5); [by apply list_elem_of_singleton|]. exists (n :: r).
  rewrite (cons_middle n s r), (cons_middle n d r), (app_assoc s), (app_assoc d). by split_and!.
Qed.

Lemma genuine_one l c s d f : genuine l s d f → c ∈ l → genuine [c] s d f.
Proof. intros H Hc x ->%list_elem_of_singleton. by apply H. Qed.

(** What [arrived] and [genuine] look at. *)
Lemma arrived_ext l s d f1 f f1' f' :
  (∀ r, f1 !! (s ++ r) = f !! (s ++ r)) → (∀ r, f1 !! (d ++ r) = f !! (d ++ r)) →
  (∀ r, f1' !! (d ++ r) = f' !! (d ++ r)) → arrived l s d f1 f1' → arrived l s d f f'.
Proof.
  intros Es Ed Ed' H r y Hy. rewrite <- Es in Hy. specialize (H r y Hy). rewrite Ed' in H.
  destruct y; [|done|]; (destruct H as [H|(c & Hc)]; [by left|right; exists c; by rewrite <- Ed]).
Qed.

Lemma genuine_ext l s d f1 f :
  (∀ r, f1 !! (s ++ r) = f !! (s ++ r)) → (∀ r, f1 !! (d ++ r) = f !! (d ++ r)) →
  genuine l s d f1 → genuine l s d f.
Proof.
  intros Es Ed H c Hc. destruct (H c Hc) as (r & H1 & H2). exists r. by rewrite <- Es, <- Ed.
Qed.

(** Copying one entry leaves the others as they are. *)
Lemma copy_sibling s d n m mode errs f ret errs' f1 r :
  apart s d → n ≠ m → copy_post (s ++ [n]) (d ++ [n]) mode errs f ret errs' f1 →
  f1 !! ((s ++ [m]) ++ r) = f !! ((s ++ [m]) ++ r) ∧ f1 !! ((d ++ [m]) ++ r) = f !! ((d ++ [m]) ++ r).
Proof.
  intros Ha Hne H. destruct (sibling_frame s d n m r Ha Hne) as [[H1 H2] [H3 H4]].
  rewrite <- !app_assoc. split; by apply (cp_frame _ _ _ _ _ _ _ _ H).
Qed.

Lemma copy_post_stop s d mode n ns errs f ret errs' f1 :
  ret ≠ 0 → copy_post (s ++ [n]) (d ++ [n]) mode errs f ret errs' f1 →
  loop_post s d mode (n :: ns) errs f ret errs' f1.
Proof.
  intros Hret [Hfr Hst (new & -> & Hg & Hn & _) Hx]. split; [|done| |done].
  - intros p Hp. apply Hfr, Hp. by left.
  - exists new. split_and!; [done| |done|done]. intros Hm c Hc. exists n. split; [by left|].
    apply (genuine_one new); auto.
Qed.

Lemma copy_post_cons s d mode n ns errs f errs1 f1 ret errs' f' :
  apart s d → n ∉ ns → copy_post (s ++ [n]) (d ++ [n]) mode errs f 0 errs1 f1 →
  loop_post s d mode ns errs1 f1 ret errs' f' → loop_post s d mode (n :: ns) errs f ret errs' f'.
Proof.
  intros Ha Hn He [Hfr2 Hst2 (new2 & -> & Hg2 & Hn2 & Ha2) Hx].
  pose proof He as [Hfr Hst (new & -> & Hg & Hnn & Har) _].
  assert (∀ m r, m ∈ ns → f1 !! ((s ++ [m]) ++ r) = f !! ((s ++ [m]) ++ r)
                        ∧ f1 !! ((d ++ [m]) ++ r) = f !! ((d ++ [m]) ++ r)) as Hsib.
  { intros m r Hm. eapply copy_sibling; [done| |exact He]. by intros ->. }
  assert (∀ r, f' !! ((d ++ [n]) ++ r) = f1 !! ((d ++ [n]) ++ r)) as Hd.
  { intros r. apply Hfr2. intros m Hm. apply apart_sub, apart_siblings. by intros ->. }
  split; [| | |done].
  - intros p Hp. rewrite Hfr2; [|intros m Hm; apply Hp; by right]. apply Hfr, Hp. by left.
  - intros p Hm Hp. pose proof (Hst p Hm Hp) as E. rewrite Hst2; [done|done|]. by rewrite E.
  - exists (new ++ new2). rewrite app_assoc. split_and!; [done| | |].
    + intros Hm c [Hc|Hc]%elem_of_app.
      * exists n. split; [by left|]. apply (genuine_one new); auto.
      * destruct (Hg2 Hm c Hc) as (m & Hin & H). exists m. split; [by right|].
        apply (genuine_ext _ _ _ f1 f); [..|exact H]; intros r; by apply (Hsib m r).
    + intros Hm. by rewrite (Hnn Hm), (Hn2 Hm).
    + intros Hr m [->|Hm]%elem_of_cons.
      * eapply (arrived_mono new); [set_solver|].
        apply (arrived_ext _ _ _ f f f1 f'); [done|done| |by apply Har]. intros r. by rewrite Hd.
      * eapply (arrived_mono new2); [set_solver|].
        apply (arrived_ext _ _ _ f1 f f' f'); [| |done|by apply Ha2]; intros r; by apply (Hsib m r).
Qed.
(** The destination directory, made or found. *)
Lemma twp_MakeIfAbsent p (Q : Z → fstate → Prop) s :
  no_false_EEXIST →
  (∀ e s', e ≠ 0 → e ≠ EEXIST → files s' = files s → Q e s') →
  (∀ s', is_Some (files s !! resolve p) → files s' = files s → Q 0 s') →
  (∀ s', files s !! resolve p = None → files s' = <[resolve p := NDir]> (files s) → Q 0 s') →
  twp (MakeIfAbsent p) Q s.
Proof.
  intros Hnf Hb Hs Hn. apply twp_bind, twp_exists.
  - intros e s1 (He & _ & _ & n & En) H1. apply Z.eqb_neq in He as E0. unfold ERRNO_NOERR. rewrite E0.
    cbn. apply twp_ret, Hb; [done|rewrite En; apply Hnf|done].
  - intros s1 H1. destruct (bool_decide _) eqn:Ex; cbn.
    + apply bool_decide_eq_true in Ex. apply twp_ret. by apply Hs.
    + apply bool_decide_eq_false, eq_None_not_Some in Ex. apply twp_bind, twp_fcall; rewrite H1.
      * intros e s2 (He & _ & _ & n & ->) H2. apply twp_ret. cbn. by apply Hb.
      * unfold mkdir_body. rewrite Ex. intros s2 H2. apply twp_ret.
        destruct (is_dir _ _ && _); cbn in *; [by apply Hn|by apply Hb].
Qed.

(** What the recursive calls guarantee for trees less than [n] deep. *)
Definition rec_ok (n : nat)
    (rec : string → string → Z → list ConflictFiles → st fstate (Z * list ConflictFiles)) : Prop :=
  ∀ src dest mode errs s, apart (resolve src) (resolve dest) → wf_below (resolve src) (files s) →
    wf_below (resolve dest) (files s) →
    files s !! resolve src = Some NDir → is_Some (files s !! resolve dest) →
    deep (resolve src) (files s) n →
    twp (rec src dest mode errs) (λ r s',
      copy_post (resolve src) (resolve dest) mode errs (files s) r.1 r.2 (files s')) s.

(** Making a directory that was not there, first. *)
Lemma copy_post_made s d mode errs f ret errs' f' :
  apart s d → f !! s = Some NDir → f !! d = None → wf_below d f →
  copy_post s d mode errs (<[d := NDir]> f) ret errs' f' → copy_post s d mode errs f ret errs' f'.
Proof.
  intros Ha Hs Hd Hwf [Hfr Hst (new & -> & Hg & Hnn & Har) Hx].
  assert (∀ p, ¬ d `prefix_of` p → <[d := NDir]> f !! p = f !! p) as Hout.
  { intros p Hp. apply lookup_insert_ne. by intros ->. }
  assert (∀ r, <[d := NDir]> f !! (s ++ r) = f !! (s ++ r)) as Hsub.
  { intros r. apply Hout. by apply apart_sub, apart_sym. }
  (* nothing was below [d] *)
  assert (new = []) as ->.
  { destruct (decide (mode = 0)) as [Hm|Hm]; [|by apply Hnn]. specialize (Hg Hm).
    destruct new as [|c new]; [done|exfalso]. destruct (Hg c) as (r & _ & H2 & _ & _ & H5); [by left|].
    rewrite Hsub in H2. destruct r as [|m r]; [by rewrite app_nil_r in H2|].
    rewrite lookup_insert_ne in H5; [|intros E; apply (f_equal length) in E; rewrite length_app in E; cbn in E; lia].
    apply (wf_below_leaf d f) in H5; [done|done|by rewrite Hd]. }
  split; [| | |done].
  - intros p Hp. rewrite Hfr by done. by apply Hout.
  - intros p Hm Hp. rewrite Hst; [apply Hout|done|]; [|by rewrite added_stays].
    intros [k ->]. destruct k as [|m k]; [rewrite app_nil_r, Hd in Hp; by destruct Hp|].
    apply (wf_below_leaf d f) in Hp; [done|done|by rewrite Hd].
  - exists []. split_and!; [done|intros _; apply genuine_nil|done|]. intros Hr r y Hy.
    specialize (Har Hr r y). rewrite Hsub in Har. specialize (Har Hy).
    destruct y; [|done|]; (destruct Har as [?|(c & Hc & _)]; [by left|by apply elem_of_nil in Hc]).
Qed.

Lemma CopySubDir_spec n rec src dest mode errs s :
  no_false_EEXIST → rec_ok n rec →
  apart (resolve src) (resolve dest) → wf_below (resolve src) (files s) →
  wf_below (resolve dest) (files s) → files s !! resolve src = Some NDir →
  deep (resolve src) (files s) n →
  twp (CopySubDir rec src dest mode errs) (λ r s',
    copy_post (resolve src) (resolve dest) mode errs (files s) r.1 r.2 (files s')) s.
Proof.
  intros Hnf Hrec Ha Hws Hwd Hs Hdeep. apply twp_bind, twp_MakeIfAbsent; [done| | |]; unfold ERRNO_NOERR.
  - intros e s1 He He' H1. apply Z.eqb_neq in He as E0. rewrite E0. apply twp_ret. rewrite H1.
    by apply copy_post_same.
  - intros s1 Hd H1. rewrite <- H1 in *. by apply Hrec.
  - intros s1 Hd H1. cbn. eapply twp_mono; [|intros r s2; apply copy_post_made; done].
    assert (∀ r, files s1 !! (resolve src ++ r) = files s !! (resolve src ++ r)) as Hsub.
    { intros r. rewrite H1. apply lookup_insert_ne. intros E.
      by apply (apart_sub _ _ r (apart_sym _ _ Ha)); rewrite <- E. }
    rewrite <- H1. apply Hrec; [done|by eapply wf_below_ext| | | |by eapply deep_ext].
    + intros r m. rewrite H1. intros Hr. exfalso. rewrite lookup_insert_ne in Hr.
      * apply (wf_below_leaf _ _ _ Hwd) in Hr; [by destruct r|by rewrite Hd].
      * intros E. apply (f_equal length) in E. rewrite !length_app in E. cbn in E. lia.
    + specialize (Hsub []). rewrite app_nil_r in Hsub. by rewrite Hsub.
    + rewrite H1, lookup_insert_eq. by eexists.
Qed.
(** What is known of an entry before it is copied. *)
Definition entry_ready (s d : path) (n : nat) (f : tree) (e : dirent) : Prop :=
  valid_name (d_name e) ∧ wf_below (s ++ [d_name e]) f ∧ wf_below (d ++ [d_name e]) f ∧
  is_Some (f !! (s ++ [d_name e])) ∧
  (d_type e = DT_DIR ↔ f !! (s ++ [d_name e]) = Some NDir) ∧
  (d_type e = DT_DIR → deep (s ++ [d_name e]) f n).

Lemma copy_ready_ext s d n f f' e :
  (∀ r, f' !! ((s ++ [d_name e]) ++ r) = f !! ((s ++ [d_name e]) ++ r)) →
  (∀ r, f' !! ((d ++ [d_name e]) ++ r) = f !! ((d ++ [d_name e]) ++ r)) →
  entry_ready s d n f e → entry_ready s d n f' e.
Proof.
  intros E Ed (H1 & H2 & H3 & H4 & H5 & H6). pose proof (E []) as E0. rewrite app_nil_r in E0.
  split; [done|]. rewrite E0. split_and!; try done; [by eapply wf_below_ext..|].
  intros Hd. eapply deep_ext; [exact E|by apply H6].
Qed.

Lemma CopyEntries_spec n rec src dest mode ns errs s :
  no_false_EEXIST → rec_ok n rec → apart (resolve src) (resolve dest) → NoDup (d_name <$> ns) →
  Forall (entry_ready (resolve src) (resolve dest) n (files s)) ns →
  twp (CopyEntries rec src dest mode ns errs) (λ r s',
    loop_post (resolve src) (resolve dest) mode (d_name <$> ns) errs (files s) r.1 r.2 (files s')) s.
Proof.
  intros Hnf Hrec Ha. revert errs s. induction ns as [|e ns IH]; intros errs s Hnd Hready.
  { apply twp_ret. split; [done|done| |done]. exists []. rewrite app_nil_r.
    split_and!; [done| |done|]; [intros _ c Hc|intros _ m Hm]; by apply elem_of_nil in Hm || apply elem_of_nil in Hc. }
  cbn [fmap list_fmap] in *. apply NoDup_cons in Hnd as [Hn Hnd].
  apply Forall_cons in Hready as [(Hv & Hws & Hwd & Hsome & Hty & Hdeep) Hready].
  pose proof (resolve_entry src _ Hv) as Es. pose proof (resolve_entry dest _ Hv) as Ed.
  assert (Ha' : apart (resolve (child src (d_name e))) (resolve (child dest (d_name e)))).
  { rewrite Es, Ed. by apply apart_below. }
  (* once the entry is copied *)
  assert (Hgo : ∀ errs1 s1,
    copy_post (resolve src ++ [d_name e]) (resolve dest ++ [d_name e]) mode errs (files s) 0 errs1 (files s1) →
    twp (CopyEntries rec src dest mode ns errs1) (λ r s',
      loop_post (resolve src) (resolve dest) mode (d_name e :: (d_name <$> ns)) errs (files s) r.1 r.2 (files s')) s1).
  { intros errs1 s1 He. eapply twp_mono; [apply IH; [done|]|].
    - rewrite Forall_forall in Hready |- *. intros e' Hin.
      assert (d_name e ≠ d_name e') as Hne.
      { intros E. apply Hn, list_elem_of_fmap. by exists e'. }
      eapply copy_ready_ext; [| |by apply Hready]; intros r; by apply (copy_sibling _ _ _ _ _ _ _ _ _ _ r Ha Hne He).
    - intros r s' Hl. by eapply copy_post_cons. }
  cbn [CopyEntries]. case_bool_decide as Hdir.
  - apply twp_bind. eapply twp_mono.
    { apply (CopySubDir_spec n); rewrite ?Es, ?Ed; try done; [by apply apart_below|by apply Hty|by apply Hdeep]. }
    rewrite Es, Ed. intros [res errs1] s1 He. cbn [fst snd] in He. unfold ERRNO_NOERR.
    destruct (res =? 0) eqn:Er; zbool; [subst res; by apply Hgo|by apply twp_ret, copy_post_stop].
  - apply twp_bind. eapply twp_mono.
    { apply CopyFile_spec; [done|]. rewrite Es, Ed. intros E. rewrite Es, Ed, E in Ha'.
      by destruct Ha' as [[] _]. }
    intros ret s1 Hf. eapply (file_entry_post _ _ mode errs) in Hf; [|done|by rewrite Es..|].
    2: { rewrite Es. intros H. by apply Hdir, Hty. }
    cbn in Hf. rewrite Es, Ed in Hf. unfold ERRNO_NOERR. case_bool_decide as Hx.
    + apply Z.eqb_eq in Hx as ->. by apply Hgo.
    + apply Z.eqb_neq in Hx as ->. destruct (ret =? 0) eqn:Er; zbool; [subst ret; by apply Hgo|].
      by apply twp_ret, copy_post_stop.
Qed.

(** All the entries of a directory make the directory. *)
Lemma copy_entry_post s d mode l errs f ret errs' f' :
  apart s d → wf_below s f → f !! s = Some NDir → is_Some (f !! d) → listed f s FilterFunc l →
  loop_post s d mode (d_name <$> l) errs f ret errs' f' → copy_post s d mode errs f ret errs' f'.
Proof.
  intros Ha Hwf Hdir Hd (_ & _ & Hall) [Hfr Hst (new & -> & Hg & Hnn & Har) Hx].
  split; [|done| |done].
  - intros p Hp. apply Hfr. intros n _ Hp'. apply Hp. etrans; [|exact Hp']. by eexists.
  - exists new. split_and!; [done| |done|].
    + intros Hm c Hc. destruct (Hg Hm c Hc) as (n & _ & H). by eapply genuine_up.
    + intros Hr r y Hy. destruct r as [|m r].
      { rewrite !app_nil_r in *. rewrite Hdir in Hy. injection Hy as <-. rewrite Hfr; [done|].
        intros n _ Hp%prefix_length. rewrite length_app in Hp. cbn in Hp. lia. }
      assert (m ∈ d_name <$> l) as Hm.
      { destruct (wf_below_first s f m r Hwf) as [z Hz]; [by eexists|].
        apply Hall; [apply elem_of_names; by eexists|].
        destruct (Hwf [] m) as [_ ((_ & H1 & H2) & _)]; [by eexists|].
        unfold FilterFunc. apply String.eqb_neq in H1 as ->, H2 as ->. done. }
      specialize (Har Hr m Hm r y). rewrite <- !app_assoc in Har. specialize (Har Hy).
      destruct y; [|done|]; (destruct Har as [?|(c & Hc & Hc')]; [by left|right]; exists c;
        by rewrite <- !app_assoc in Hc').
Qed.

Lemma RecurCopyDir_spec n : no_false_EEXIST → types_reported → rec_ok n (RecurCopyDir n).
Proof.
  intros Hnf Hty. induction n as [|n IH]; intros src dest mode errs s Ha Hws Hwd Hdir Hd Hdeep.
  { destruct Hdeep as [H0 _]. lia. }
  cbn [RecurCopyDir]. apply twp_bind, twp_fcall; cbn [fst snd negb].
  { intros e s1 _ H1. apply twp_ret. rewrite H1. by apply copy_post_same. }
  intros s1 H1. apply twp_bind, twp_scandir_types; rewrite H1; [done| |].
  { intros e s2 H2 He. apply twp_ret. rewrite H2.
    destruct He as [(He & _ & _ & k & Hk)|[_ He]]; [|done].
    apply copy_post_same; [done|]. cbn. rewrite Hk. apply Hnf. }
  intros l s2 H2 _ Hl. eapply twp_mono.
  - apply (CopyEntries_spec n); [done|done|done|apply Hl|].
    rewrite H2. apply Forall_forall. intros e He. destruct Hl as (_ & Hin & _).
    destruct (Hin e He) as [Hf [Hdot|[Hnm Ht]]].
    { exfalso. unfold FilterFunc in Hf. set_unfold in Hdot. by destruct Hdot as [E|[E|[]]]; rewrite E in Hf. }
    apply elem_of_names in Hnm as Hsome. destruct (Hws [] (d_name e) Hsome) as [_ Hv].
    assert (d_type e = DT_DIR ↔ files s !! (resolve src ++ [d_name e]) = Some NDir) as Htd.
    { rewrite Ht. split; [apply entry_type_dir|]. intros E. unfold entry_type. by rewrite Hty, E. }
    split; [exact Hv|]. do 2 (split; [by apply wf_below_sub|]). do 2 (split; [done|]).
    intros E. destruct Hdeep as [_ Hdeep]. split.
    + specialize (Hdeep [d_name e]). cbn in Hdeep. apply Nat.succ_lt_mono, Hdeep. done.
    + intros r. rewrite <- app_assoc. intros Hr%Hdeep. cbn in Hr. lia.
  - intros r s3 H3. rewrite H2 in H3. by eapply copy_entry_post.
Qed.

Lemma twp_ParseAndCheckOperand src dest mode (Q : bool * Z → fstate → Prop) s :
  (∀ m s', files s' = files s → Q (false, m) s') →
  (∀ s', files s' = files s → files s !! resolve src = Some NDir →
    files s !! resolve dest = Some NDir → 0 <= default 0 mode <= 1 → Q (true, default 0 mode) s') →
  twp (ParseAndCheckOperand src dest mode) Q s.
Proof.
  intros Hb Hg. apply twp_bind, twp_is_directory; [intros e s1 _ H1; apply twp_ret; by apply Hb|].
  intros e s1 H1. destruct (is_dir _ _) eqn:E1; cbn [negb]; [|apply twp_ret; by apply Hb].
  apply twp_bind, twp_is_directory; [intros e2 s2 _ H2; apply twp_ret, Hb; congruence|].
  intros e2 s2 H2. destruct (is_dir (files s1) _) eqn:E2; cbn [negb]; [|apply twp_ret, Hb; congruence].
  apply bool_decide_eq_true in E1, E2. rewrite H1 in E2. rewrite H1 in H2.
  destruct (AllowToCopy src dest); cbn [negb]; [|by apply twp_ret, Hb]. apply twp_ret.
  destruct mode as [m|]; [|by apply (Hg s2)]. cbn [default] in *.
  unfold COPYMODE_MIN, COPYMODE_MAX. destruct (_ || _) eqn:E; [by apply Hb|]. zbool. apply Hg; try done.
Qed.

(** What a whole copy leaves: [l] are the conflicts that are reported. *)
Definition dir_post (s d : path) (mode : Z) (f : tree) (res : CopyDirResult) (f' : tree) : Prop :=
  (∀ p, ¬ d `prefix_of` p → f' !! p = f !! p) ∧
  (mode = 0 → ∀ p, is_Some (f !! p) → f' !! p = f !! p) ∧
  (fsResult res = None → arrived [] s d f f') ∧
  (∀ l, errFiles res = Some l → mode = 0 ∧ l ≠ [] ∧ genuine l s d f ∧ arrived l s d f f').

Lemma dir_post_same s d mode f e : dir_post s d mode f (CopyResult (Some e) None) f.
Proof. by split_and!. Qed.

(** From the end of [RecurCopyDir] to the result. *)
Lemma dir_post_end s d mode f ret errs f' :
  copy_post s d mode [] f ret errs f' →
  let ret' := if (match errs with [] => false | _ => true end) && (ret =? ERRNO_NOERR) then EEXIST else ret in
  dir_post s d mode f (if (ret' =? EEXIST) && (mode =? DIRMODE_FILE_COPY_THROW_ERR)
    then CopyResult (Some EEXIST) (Some errs)
    else if negb (ret' =? 0) then CopyResult (Some ret') None else CopyResult None None) f'.
Proof.
  intros [Hfr Hst (new & E & Hg & Hnn & Har) Hx]. cbn in E. subst errs.
  change (mode_value DIRMODE_FILE_COPY_THROW_ERR) with 0. unfold ERRNO_NOERR.
  destruct new as [|c new]; cbn.
  - apply Z.eqb_neq in Hx as ->. cbn. destruct (ret =? 0) eqn:Er; zbool; cbn.
    + subst ret. split_and!; [done|naive_solver|naive_solver|done].
    + split_and!; [done|naive_solver|done|done].
  - destruct (ret =? 0) eqn:Er; zbool; cbn.
    + destruct (mode =? 0) eqn:Em; zbool; cbn; [|split_and!; [done|naive_solver|done|done]].
      split_and!; [done|naive_solver|done|]. intros l [= <-]. split_and!; [done|done|by apply Hg|by apply Har].
    + apply Z.eqb_neq in Hx as ->. cbn. apply Z.eqb_neq in Er as ->. split_and!; [done|naive_solver|done|done].
Qed.

(** The whole is one [CopySubDir]. *)
Lemma CopyDirFunc_sub n src dest d0 name mode s :
  rsplit src = Some (d0, name) →
  CopyDirFunc n src dest mode [] s =
    bind (CopySubDir (RecurCopyDir n) src (child dest name) mode []) (λ '(res, errfiles),
      sret (if (match errfiles with [] => false | _ => true end) && (res =? ERRNO_NOERR)
            then (EEXIST, errfiles) else (res, errfiles))) s.
Proof.
  intros Hsplit. unfold CopyDirFunc, CopySubDir. rewrite Hsplit. unfold bind.
  destruct (MakeIfAbsent (child dest name) s) as [[res s1]|]; [|done].
  by destruct (res =? ERRNO_NOERR).
Qed.

(** C36: copying a directory to a place that is neither at, above nor below it, where the
    kinds of entries are reported and no call says [EEXIST] by mistake, returns, changes nothing
    outside the target directory and in mode [DIRMODE_FILE_COPY_THROW_ERR] nothing that was there;
    on success everything below the source is below the target, and when conflicts are reported
    they are exactly files of the source whose place was taken, and all the rest was copied. *)
Theorem copy_dir_copies (n : nat) (src dest d0 name : string) (mode : option Z) (s : fstate) :
  no_false_EEXIST → types_reported → rsplit src = Some (d0, name) → wf_tree (files s) →
  apart (resolve src) (resolve (child dest name)) → deep (resolve src) (files s) n →
  ∃ res s', DoCopyDir n src dest mode s = Some (res, s') ∧
    dir_post (resolve src) (resolve (child dest name)) (default 0 mode) (files s) res (files s').
Proof.
  intros Hnf Hty Hsplit Hwf Ha Hdeep. apply twp_elim, twp_bind, twp_ParseAndCheckOperand.
  { intros m s1 H1. apply twp_ret. rewrite H1. apply dir_post_same. }
  intros s1 H1 Hsd _ Hm. cbn [negb]. apply twp_bind. unfold twp at 1.
  rewrite (CopyDirFunc_sub _ _ _ _ _ _ _ Hsplit). rewrite <- H1 in *.
  apply twp_bind. eapply twp_mono.
  { apply (CopySubDir_spec n); try done; [by apply RecurCopyDir_spec|by apply wf_tree_below..]. }
  intros [ret errs] s2 Hp%dir_post_end. cbn [fst snd] in Hp. apply twp_ret.
  destruct ((match errs with [] => false | _ => true end) && (ret =? ERRNO_NOERR)); by apply twp_ret.
Qed.
End specs.

(** ** A destination that is the parent of the source under another name *)
Section calm.
Context {FE : FsEnv}.

Definition nothing_fails : Prop := ∀ k, never_fails k.

Lemma twp_MakeIfAbsent_calm p (Q : Z → fstate → Prop) s :
  nothing_fails → is_Some (files s !! resolve p) → (∀ s', files s' = files s → Q 0 s') →
  twp (MakeIfAbsent p) Q s.
Proof.
  intros Hc Hp HQ. apply twp_bind, twp_exists_calm; [apply Hc|]. intros s1 H1.
  rewrite bool_decide_eq_true_2 by done. cbn. apply twp_ret. by apply HQ.
Qed.

(** Replacing a file by itself removes it. *)
Lemma CopyFile_onto_itself src dest s :
  nothing_fails → resolve dest = resolve src → (∃ x, files s !! resolve src = Some (NFile x)) →
  twp (CopyFile src dest DIRMODE_FILE_COPY_REPLACE)
    (λ ret s', ret = ENOENT ∧ files s' = delete (resolve src) (files s)) s.
Proof.
  intros Hc E [x Hx]. apply twp_bind, twp_exists_calm; [apply Hc|]. rewrite E, Hx. intros s1 H1.
  rewrite bool_decide_eq_true_2 by (by eexists). cbn. apply twp_bind, twp_bind, twp_fcall_calm; [apply Hc|].
  rewrite H1, E. unfold remove_body. rewrite Hx. cbn [fst snd]. intros s2 H2.
  apply twp_ret. cbn. apply twp_bind. unfold twp, copy_file. apply twp_fcall_calm; [apply Hc|].
  rewrite H2. unfold copy_check. rewrite lookup_delete_eq. cbn [fst snd]. intros s3 H3.
  apply twp_ret. cbn. by rewrite H3.
Qed.

Lemma twp_ParseAndCheckOperand_calm src dest m (Q : bool * Z → fstate → Prop) s :
  nothing_fails → files s !! resolve src = Some NDir → files s !! resolve dest = Some NDir →
  AllowToCopy src dest = true → 0 <= m <= 1 → (∀ s', files s' = files s → Q (true, m) s') →
  twp (ParseAndCheckOperand src dest (Some m)) Q s.
Proof.
  intros Hc Hs Hd Ha Hm HQ. apply twp_bind, twp_is_directory_calm; [apply Hc|]. intros e s1 H1.
  apply tree_is_dir_Some in Hs as ->. cbn [negb].
  apply twp_bind, twp_is_directory_calm; [apply Hc|]. intros e2 s2 H2. rewrite H1 in H2 |- *.
  apply tree_is_dir_Some in Hd as ->. rewrite Ha. cbn [negb]. apply twp_ret.
  unfold COPYMODE_MIN, COPYMODE_MAX. destruct (_ || _) eqn:E; [|by apply HQ].
  apply orb_true_iff in E as [E|E]; zbool; lia.
Qed.

(** Copying a directory to its own parent is refused, but the parents are compared as they
    are spelled: when the destination is the parent directory under another name (with a
    slash at its end, say), no call fails and the source has files only, mode
    [DIRMODE_FILE_COPY_REPLACE] deletes one of the files and reports that it is missing. *)
Theorem copy_onto_itself_destroys (n : nat) (src dest d0 name : string) (s : fstate) :
  nothing_fails → rsplit src = Some (d0, name) → resolve (child dest name) = resolve src →
  AllowToCopy src dest = true → wf_tree (files s) →
  files s !! resolve src = Some NDir → files s !! resolve dest = Some NDir →
  names (files s) (resolve src) ≠ [] →
  (∀ m y, files s !! (resolve src ++ [m]) = Some y → ∃ x, y = NFile x) →
  ∃ s' m x, DoCopyDir (S n) src dest (Some (mode_value DIRMODE_FILE_COPY_REPLACE)) s
              = Some (CopyResult (Some ENOENT) None, s') ∧
    files s !! (resolve src ++ [m]) = Some (NFile x) ∧
    files s' = delete (resolve src ++ [m]) (files s).
Proof.
  intros Hc Hsplit Esrc Hallow Hwf Hs Hd Hn Hfiles.
  assert (twp (DoCopyDir (S n) src dest (Some 1)) (λ res s', res = CopyResult (Some ENOENT) None ∧
    ∃ m x, files s !! (resolve src ++ [m]) = Some (NFile x) ∧
      files s' = delete (resolve src ++ [m]) (files s)) s)
    as (res & s' & E & -> & m & x & Hm & H)%twp_elim; [|by exists s', m, x].
  apply twp_bind, twp_ParseAndCheckOperand_calm; [done..|]. intros s1 H1. cbn [negb].
  apply twp_bind. unfold CopyDirFunc. rewrite Hsplit.
  apply twp_bind, twp_MakeIfAbsent_calm; [done|rewrite Esrc, H1, Hs; by eexists|]. intros s2 H2.
  cbn [Z.eqb negb RecurCopyDir ERRNO_NOERR]. apply twp_bind, twp_bind, twp_fcall_calm; [apply Hc|].
  intros s3 H3. cbn [fst snd negb] in *. rewrite H2, H1 in H3.
  apply twp_bind, twp_scandir_types; rewrite H3; [by apply wf_tree_below| |].
  { intros e s4 _ [(He & _ & _ & k & Hk)|[_ He]]; [|done]. by rewrite (Hc F_scandir k) in Hk. }
  intros l s4 H4 _ (Hnd & Hin & Hall). destruct (names (files s) (resolve src)) as [|m0 ms] eqn:En; [done|].
  assert (∀ m, m ∈ m0 :: ms → valid_name m ∧ FilterFunc m = true) as Hv.
  { intros m Hm. rewrite <- En in Hm. apply elem_of_names in Hm. destruct Hwf as [_ Hwf].
    destruct (wf_below_sub [] (resolve src) _ Hwf [] m) as [_ Hv]; [done|]. split; [done|].
    destruct Hv as ((_ & V1 & V2) & _). unfold FilterFunc.
    by apply String.eqb_neq in V1 as ->, V2 as ->. }
  destruct l as [|e l].
  { exfalso. destruct (Hv m0) as [_ Hf]; [by left|]. eapply not_elem_of_nil, (Hall m0); [by left|done]. }
  destruct (Hin e) as [Hf [Hdot|[Hm Ht]]]; [by left|..].
  { exfalso. unfold FilterFunc in Hf. set_unfold in Hdot. by destruct Hdot as [E|[E|[]]]; rewrite E in Hf. }
  destruct (Hv _ Hm) as [Hvm _]. rewrite <- En in Hm. apply elem_of_names in Hm as [y Hy].
  destruct (Hfiles _ _ Hy) as [x ->]. cbn [CopyEntries].
  rewrite bool_decide_eq_false_2.
  2: { intros Hd'. rewrite Ht in Hd'. apply entry_type_dir in Hd'. by rewrite Hy in Hd'. }
  pose proof (resolve_entry src _ Hvm) as Es. pose proof (resolve_entry (child dest name) _ Hvm) as Ed.
  apply twp_bind. eapply twp_mono.
  { apply CopyFile_onto_itself; [done|by rewrite Ed, Es, Esrc|]. rewrite Es, H4. by exists x. }
  intros ret s5 [-> H5]. cbn. apply twp_ret. cbn. apply twp_ret. cbn. apply twp_ret. split; [done|].
  exists (d_name e), x. by rewrite H5, Es, H4.
Qed.
End calm.

(** ** Witnesses *)

#[local] Instance plain_env : FsEnv.
Proof.
  refine {| fs_fault := λ _ _, 0; fs_partial := λ _, None; fs_dtype := λ _, true;
    fs_link := λ _, false; fs_order := λ l, l |}; done.
Defined.

Definition sample_tree : tree := list_to_map [
  ([], NDir); (["a"], NDir); (["a"; "src"], NDir); (["a"; "src"; "f"], NFile [1; 2]);
  (["a"; "src"; "sub"], NDir); (["a"; "src"; "sub"; "g"], NFile [3]);
  (["b"], NDir); (["b"; "src"], NDir); (["b"; "src"; "f"], NFile [4]);
  (["d"], NDir); (["d"; "h"], NFile [5])]%string.
Definition sample : fstate := FState sample_tree 0.
Lemma source_wf : wf_tree sample_tree.
Proof. apply wf_treeb_sound. vm_compute. reflexivity. Qed.

(** One file is in the way, the other is copied. *)
Lemma copy_dir_copies_witness :
  ∃ res s', DoCopyDir 5 "/a/src" "/b" None sample = Some (res, s') ∧
    res = CopyResult (Some EEXIST) (Some [Conflict "/a/src/f" "/b/src/f"]) ∧
    files s' !! ["b"; "src"; "f"]%string = Some (NFile [4]) ∧
    files s' !! ["b"; "src"; "sub"; "g"]%string = Some (NFile [3]).
Proof.
  destruct (copy_dir_copies 5 "/a/src" "/b" "/a" "src" None sample)
    as (res & s' & E & _ & Hst & _ & Hl).
  - done.
  - done.
  - reflexivity.
  - apply source_wf.
  - apply apart_dec_sound. vm_compute. reflexivity.
  - apply deepb_sound. vm_compute. reflexivity.
  - exists res, s'. split; [exact E|].
    assert (fst <$> DoCopyDir 5 "/a/src" "/b" None sample
      = Some (CopyResult (Some EEXIST) (Some [Conflict "/a/src/f" "/b/src/f"]))) as Hr by (vm_compute; reflexivity).
    rewrite E in Hr. injection Hr as ->. split; [reflexivity|].
    split; [apply (Hst eq_refl ["b"; "src"; "f"]%string); by eexists|].
    destruct (Hl _ eq_refl) as (_ & _ & _ & Har).
    destruct (Har ["sub"; "g"]%string (NFile [3]) eq_refl) as [H|(c & Hc & Hc' & _)]; [exact H|exfalso].
    apply list_elem_of_singleton in Hc as ->. by vm_compute in Hc'.
Defined.

Lemma copy_onto_itself_destroys_witness :
  ∃ s' m x, DoCopyDir 1 "/b/src" "/b/" (Some (mode_value DIRMODE_FILE_COPY_REPLACE)) sample
              = Some (CopyResult (Some ENOENT) None, s') ∧
    sample_tree !! (["b"; "src"; m])%string = Some (NFile x) ∧
    files s' = delete (["b"; "src"; m])%string sample_tree.
Proof.
  apply (copy_onto_itself_destroys 0 "/b/src" "/b/" "/b" "src" sample); try reflexivity.
  - by intros k n.
  - apply source_wf.
  - vm_compute. discriminate.
  - intros m y H. change (resolve "/b/src") with ["b"; "src"]%string in H.
    apply elem_of_list_to_map_2 in H.
    repeat (apply elem_of_cons in H as [H|H]; [by inversion H; eexists|]). by apply elem_of_nil in H.
Defined.
