(* ===== verification/ListFile.v ===== *)
(** * Listing a directory

    Models [listfile_core.cpp] of [mod_fs]: the options, the filters, the callback
    [FilterFunc] that [scandir] calls for every entry, and the recursive and the flat
    listing.  The options of the call in progress are a variable of the thread,
    [g_optionArgs]; it is part of the state here, and counts the entries that matched.
    Numbers of the source that are C++ doubles are IEEE numbers of [SpecFloat].
    [fnmatch] and what [stat] says of times and of directories' sizes are parameters.
    Fuel bounds the depth of the recursion. *)

From Stdlib Require Import SpecFloat.
From S2P Require Import Prelude FsTree.

Definition ERRNO_NOERR : Z := 0.
Definition MAX_SUFFIX_LENGTH : Z := 256.

(** A [double] that holds an integer. *)
Definition double_of (n : Z) : spec_float := binary_normalize 53 1024 n 0 false.

#[global] Arguments double_of : simpl never.

(** Conversion of an [int64_t] to [int]. *)
Definition to_int (x : Z) : Z := (x + 2 ^ 31) mod 2 ^ 32 - 2 ^ 31.

Record FileFilter := mkFileFilter {
  suffix_ : list string;
  displayName_ : list string;
  fileSizeOver_ : Z;
  lastModifiedAfter_ : spec_float
}.

Record OptionArgs := mkOptionArgs {
  filter : FileFilter;
  listNum : Z;
  countNum : Z;
  recursion : bool;
  path : string
}.

Definition OptionArgs_Clear : OptionArgs :=
  mkOptionArgs (mkFileFilter [] [] (-1) (double_of (-1))) 0 0 false "".

(** The options of a caller. *)
Record FsFilter := mkFsFilter {
  f_suffix : option (list string);
  f_displayName : option (list string);
  f_fileSizeOver : option Z;
  f_lastModifiedAfter : option spec_float
}.
Record FsListFileOptions := mkFsListFileOptions {
  o_recursion : bool;
  o_listNum : option Z;
  o_filter : option FsFilter
}.

(** ** Options *)

Definition isalnum (c : Ascii.ascii) : bool :=
  let n := Z.of_nat (nat_of_ascii c) in
  ((48 <=? n) && (n <=? 57)) || ((65 <=? n) && (n <=? 90)) || ((97 <=? n) && (n <=? 122)).

Fixpoint all_alnum (s : string) : bool :=
  match s with EmptyString => true | String c s => isalnum c && all_alnum s end.

Definition CheckSuffix (suffixs : list string) : bool :=
  forallb (λ s, let n := Z.of_nat (String.length s) in
    if (n <=? 1) || (n >? MAX_SUFFIX_LENGTH) then false
    else match s with
         | String c s => if negb (Ascii.eqb c ".") then false else all_alnum s
         | EmptyString => false
         end) suffixs.

(** The filter after the fields that were accepted, and whether all were. *)
Definition ValidFileFilterParam (fsFilter : FsFilter) (flt : FileFilter) : bool * FileFilter :=
  let step (ok : FileFilter → bool * FileFilter) (r : bool * FileFilter) :=
    if r.1 then ok r.2 else r in
  let r := match f_suffix fsFilter with
           | Some suffixs =>
               if negb (CheckSuffix suffixs) || bool_decide (suffixs = []) then (false, flt)
               else (true, mkFileFilter suffixs (displayName_ flt) (fileSizeOver_ flt) (lastModifiedAfter_ flt))
           | None => (true, flt)
           end in
  let r := step (λ flt, match f_displayName fsFilter with
           | Some displayNames =>
               if bool_decide (displayNames = []) then (false, flt)
               else (true, mkFileFilter (suffix_ flt) displayNames (fileSizeOver_ flt) (lastModifiedAfter_ flt))
           | None => (true, flt)
           end) r in
  let r := step (λ flt, match f_fileSizeOver fsFilter with
           | Some fileSizeOver =>
               if fileSizeOver <? 0 then (false, flt)
               else (true, mkFileFilter (suffix_ flt) (displayName_ flt) fileSizeOver (lastModifiedAfter_ flt))
           | None => (true, flt)
           end) r in
  step (λ flt, match f_lastModifiedAfter fsFilter with
           | Some lastModifiedAfter =>
               if SFltb lastModifiedAfter (double_of 0) then (false, flt)
               else (true, mkFileFilter (suffix_ flt) (displayName_ flt) (fileSizeOver_ flt) lastModifiedAfter)
           | None => (true, flt)
           end) r.

Definition ValidOptionParam (pathArg : string) (opt : option FsListFileOptions) : bool * OptionArgs :=
  let a := mkOptionArgs (filter OptionArgs_Clear) 0 0 false pathArg in
  match opt with
  | None => (true, a)
  | Some op =>
      let r := match o_listNum op with
               | Some listNum => if listNum <? 0 then (false, a)
                   else (true, mkOptionArgs (filter a) (to_int listNum) 0 false pathArg)
               | None => (true, a)
               end in
      if negb r.1 then r else
      let a := mkOptionArgs (filter r.2) (listNum r.2) 0 (o_recursion op) pathArg in
      match o_filter op with
      | Some fsFilter =>
          let '(ret, flt) := ValidFileFilterParam fsFilter (filter a) in
          (ret, mkOptionArgs flt (listNum a) 0 (recursion a) pathArg)
      | None => (true, a)
      end
  end.

(** ** State *)

Record lstate := LState { disk : fstate; g_optionArgs : OptionArgs }.

Definition on_disk {A} (m : st fstate A) : st lstate A := λ s,
  match m (disk s) with Some (a, d) => Some (a, LState d (g_optionArgs s)) | None => None end.
Definition args : st lstate OptionArgs := λ s, Some (g_optionArgs s, s).
Definition set_args (a : OptionArgs) : st lstate unit := λ s, Some (tt, LState (disk s) a).

Class ListEnv := {
  fnmatch : string → string → bool;      (** [fnmatch(p, n, FNM_PATHNAME | FNM_PERIOD) == 0] *)
  st_mtime : list string → Z;            (** of the file at a path *)
  st_dirsize : list string → Z           (** [st_size] of what is no regular file *)
}.

Section listfile.
Context {FE : FsEnv} {LE : ListEnv}.

(** ** Filters *)

Definition last_dot (s : string) : option string :=
  (fix go s := match s with
     | EmptyString => None
     | String c t => match go t with
                     | Some r => Some r
                     | None => if Ascii.eqb c "." then Some s else None
                     end
     end) s.

Definition FilterSuffix (suffixs : list string) (e : dirent) : bool :=
  if bool_decide (d_type e = DT_DIR) then true
  else match last_dot (d_name e) with
       | None => false
       | Some suffixStr => existsb (String.eqb suffixStr) suffixs
       end.

Definition FilterDisplayname (displaynames : list string) (e : dirent) : bool :=
  existsb (λ p, fnmatch p (d_name e)) displaynames.

Definition size_of (p : list string) (n : node) : Z :=
  match n with NFile data => Z.of_nat (length data) | _ => st_dirsize p end.

Definition FilterFilesizeOver (fFileSizeOver : Z) (e : dirent) : st lstate bool :=
  if fFileSizeOver <? 0 then sret true else
  a ← args;
  let stPath := child (path a) (d_name e) in
  '(info, res) ← on_disk (status stPath);
  sret (match info with
        | Some n => if negb (res =? 0) then false else size_of (resolve stPath) n >? fFileSizeOver
        | None => false
        end).

Definition FilterLastModifyTime (lastModifiedAfter : spec_float) (e : dirent) : st lstate bool :=
  if SFltb lastModifiedAfter (double_of 0) then sret true else
  a ← args;
  let stPath := child (path a) (d_name e) in
  '(info, res) ← on_disk (status stPath);
  sret (match info with
        | Some _ => if negb (res =? 0) then false
                    else SFltb lastModifiedAfter (double_of (st_mtime (resolve stPath)))
        | None => false
        end).

Definition count_one : st lstate unit :=
  a ← args; set_args (mkOptionArgs (filter a) (listNum a) (countNum a + 1) (recursion a) (path a)).

Definition FilterResult (e : dirent) : st lstate bool :=
  a ← args;
  let fSuffixs := suffix_ (filter a) in
  if negb (FilterSuffix fSuffixs e) && bool_decide (fSuffixs ≠ []) then sret false else
  let fDisplaynames := displayName_ (filter a) in
  if negb (FilterDisplayname fDisplaynames e) && bool_decide (fDisplaynames ≠ []) then sret false else
  big ← FilterFilesizeOver (fileSizeOver_ (filter a)) e;
  if negb big then sret false else
  new ← FilterLastModifyTime (lastModifiedAfter_ (filter a)) e;
  if negb new then sret false else
  _ ← count_one; sret true.

Definition FilterFunc (e : dirent) : st lstate bool :=
  if (d_name e =? ".")%string || (d_name e =? "..")%string then sret false else
  a ← args;
  if (countNum a <? listNum a) || (listNum a =? 0) then
    if bool_decide (d_type e = DT_DIR) && recursion a then sret true else FilterResult e
  else sret false.

(** [scandir(path, &namelist, FilterFunc, nullptr)]. *)
Fixpoint select (l : list dirent) : st lstate (list dirent) :=
  match l with
  | [] => sret []
  | e :: l => b ← FilterFunc e; r ← select l; sret (if b : bool then e :: r else r)
  end.
Definition scandir_filtered (p : string) : st lstate (Z + list dirent) :=
  r ← on_disk (readdir_all p);
  match r with
  | inl errno => sret (inl errno)
  | inr l => l ← select l; sret (inr l)
  end.

(** ** Listing *)

Definition FilterFileRes (p : string) (dirents : list string) : st lstate (Z * list string) :=
  ptr ← on_disk alloc;
  if negb ptr then sret (ENOMEM, dirents) else
  r ← scandir_filtered p;
  sret (match r with
        | inl errno => (errno, dirents)
        | inr namelist => (ERRNO_NOERR, dirents ++ map d_name namelist)
        end).

Definition set_path (p : string) : st lstate unit :=
  a ← args; set_args (mkOptionArgs (filter a) (listNum a) (countNum a) (recursion a) p).

Section rec.
Context (rec : string → list string → st lstate (Z * list string)).

(** The loop of [RecursiveFunc].  The recursive call is given [g_optionArgs.path] itself;
    the callee puts it back before it reads its argument again. *)
Fixpoint RecursiveEntries (p : string) (namelist : list dirent) (dirents : list string) :
    st lstate (Z * list string) :=
  match namelist with
  | [] => sret (ERRNO_NOERR, dirents)
  | e :: namelist =>
      if bool_decide (d_type e = DT_REG) then
        RecursiveEntries p namelist (dirents ++ [child p (d_name e)])
      else if bool_decide (d_type e = DT_DIR) then
        a ← args;
        let pathTemp := path a in
        _ ← set_path (child pathTemp (d_name e));
        a ← args;
        '(ret, dirents) ← rec (path a) dirents;
        if negb (ret =? ERRNO_NOERR) then sret (ret, dirents) else
        _ ← set_path pathTemp;
        RecursiveEntries p namelist dirents
      else RecursiveEntries p namelist dirents
  end.
End rec.

Fixpoint RecursiveFunc (fuel : nat) (p : string) (dirents : list string) : st lstate (Z * list string) :=
  match fuel with
  | O => λ _, None
  | S fuel =>
      ptr ← on_disk alloc;
      if negb ptr then sret (ENOMEM, dirents) else
      r ← scandir_filtered p;
      match r with
      | inl errno => sret (errno, dirents)
      | inr namelist => RecursiveEntries (RecursiveFunc fuel) p namelist dirents
      end
  end.

Definition substr (n : nat) (s : string) : string := String.substring n (String.length s - n) s.

Definition DoListFileVector (p : string) (dirents : list string) (recursion : bool) : list string :=
  if recursion then map (substr (String.length p)) dirents else dirents.

Definition DoListFile (fuel : nat) (p : string) (opt : option FsListFileOptions) :
    st lstate (Z + list string) :=
  let '(ok, a) := ValidOptionParam p opt in
  _ ← set_args a;
  if negb ok then sret (inl EINVAL) else
  '(ret, direntsRes) ← (if recursion a then RecursiveFunc fuel p [] else FilterFileRes p []);
  if negb (ret =? 0) then sret (inl ret) else
  a ← args;
  let direntsRes := DoListFileVector p direntsRes (recursion a) in
  _ ← set_args OptionArgs_Clear;
  sret (inr direntsRes).

(** ** What the filter decides *)

(** An entry passes the filter in directory [p] of tree [f]. *)
Definition passes (flt : FileFilter) (p : string) (f : tree) (e : dirent) : bool :=
  (FilterSuffix (suffix_ flt) e || bool_decide (suffix_ flt = [])) &&
  (FilterDisplayname (displayName_ flt) e || bool_decide (displayName_ flt = [])) &&
  ((fileSizeOver_ flt <? 0) ||
   match f !! resolve (child p (d_name e)) with
   | Some n => size_of (resolve (child p (d_name e))) n >? fileSizeOver_ flt
   | None => false
   end) &&
  (SFltb (lastModifiedAfter_ flt) (double_of 0) ||
   match f !! resolve (child p (d_name e)) with
   | Some _ => SFltb (lastModifiedAfter_ flt) (double_of (st_mtime (resolve (child p (d_name e)))))
   | None => false
   end).

(** The entry is counted when it matches. *)
Definition tallied (a : OptionArgs) (e : dirent) : bool :=
  negb (bool_decide (d_type e = DT_DIR) && recursion a).
Definition room (a : OptionArgs) : bool := (countNum a <? listNum a) || (listNum a =? 0).
Definition dots (e : dirent) : bool := ((d_name e =? ".")%string || (d_name e =? "..")%string).
Definition verdict (a : OptionArgs) (f : tree) (e : dirent) : bool :=
  negb (dots e) && room a && (negb (tallied a e) || passes (filter a) (path a) f e).

Definition bump (a : OptionArgs) (k : Z) : OptionArgs :=
  mkOptionArgs (filter a) (listNum a) (countNum a + k) (recursion a) (path a).

Lemma bump_0 a : bump a 0 = a.
Proof. destruct a. unfold bump. cbn. by rewrite Z.add_0_r. Qed.

Lemma twp_on_disk {A} (m : st fstate A) (Q : A → lstate → Prop) s :
  twp m (λ a d, Q a (LState d (g_optionArgs s))) (disk s) → twp (on_disk m) Q s.
Proof. unfold twp, on_disk. by destruct (m (disk s)) as [[]|]. Qed.

Lemma twp_args (Q : OptionArgs → lstate → Prop) s : Q (g_optionArgs s) s → twp args Q s.
Proof. done. Qed.

(** The two filters that call [stat]. *)
Definition stat_filter (skip : bool) (test : list string → node → bool) (e : dirent) : st lstate bool :=
  if skip then sret true else
  a ← args;
  let stPath := child (path a) (d_name e) in
  '(info, res) ← on_disk (status stPath);
  sret (match info with
        | Some n => if negb (res =? 0) then false else test (resolve stPath) n
        | None => false
        end).

Lemma stat_filter_spec skip test e s :
  twp (stat_filter skip test e) (λ b s', g_optionArgs s' = g_optionArgs s ∧ files (disk s') = files (disk s) ∧
    (never_fails F_stat → b = skip ||
       let q := resolve (child (path (g_optionArgs s)) (d_name e)) in
       match files (disk s) !! q with Some n => test q n | None => false end)) s.
Proof.
  destruct skip; [by apply twp_ret|]. apply twp_bind, twp_args, twp_bind, twp_on_disk, twp_status.
  - intros err d (He & _ & _ & n & ->) Hd. apply twp_ret. split_and!; [done|done|].
    intros Hc. by rewrite Hc in He.
  - intros d Hd. cbn [disk]. destruct (files (disk s) !! _); by apply twp_ret.
Qed.

Lemma FilterResult_spec e s :
  twp (FilterResult e) (λ b s', g_optionArgs s' = bump (g_optionArgs s) (if b then 1 else 0) ∧
    files (disk s') = files (disk s) ∧
    (never_fails F_stat → b = passes (filter (g_optionArgs s)) (path (g_optionArgs s)) (files (disk s)) e)) s.
Proof.
  set (a := g_optionArgs s). apply twp_bind, twp_args. fold a.
  assert (∀ b (l : list string), negb b && bool_decide (l ≠ []) = negb (b || bool_decide (l = []))) as Hneg.
  { intros b l. destruct b; cbn; [done|]. destruct (decide (l = [])) as [E|E].
    - by rewrite (bool_decide_eq_true_2 _ E), bool_decide_eq_false_2 by naive_solver.
    - by rewrite (bool_decide_eq_false_2 _ E), bool_decide_eq_true_2. }
  cbv zeta. rewrite !Hneg. unfold passes.
  destruct (FilterSuffix _ e || _); cbn [negb andb]; [|by apply twp_ret; rewrite bump_0].
  destruct (FilterDisplayname _ e || _); cbn [negb andb]; [|by apply twp_ret; rewrite bump_0].
  apply twp_bind. change (FilterFilesizeOver (fileSizeOver_ (filter a)) e)
    with (stat_filter (fileSizeOver_ (filter a) <? 0) (λ q n, size_of q n >? fileSizeOver_ (filter a)) e).
  eapply twp_mono; [apply stat_filter_spec|]. intros big s1 (Ha1 & Hf1 & Hbig). fold a in Ha1, Hbig.
  destruct big; cbn [negb].
  2: { apply twp_ret. rewrite bump_0. split_and!; [done|done|]. intros Hc. specialize (Hbig Hc). cbn in Hbig.
       by rewrite <- Hbig. }
  apply twp_bind. change (FilterLastModifyTime (lastModifiedAfter_ (filter a)) e)
    with (stat_filter (SFltb (lastModifiedAfter_ (filter a)) (double_of 0))
      (λ q _, SFltb (lastModifiedAfter_ (filter a)) (double_of (st_mtime q))) e).
  eapply twp_mono; [apply stat_filter_spec|]. intros new s2 (Ha2 & Hf2 & Hnew).
  rewrite Hf1, Ha1 in *. cbn in Hbig, Hnew.
  destruct new; cbn [negb]; apply twp_ret; rewrite ?bump_0; cbn [disk g_optionArgs].
  - rewrite Ha2. split_and!; [done|done|]. intros Hc. by rewrite <- Hbig, <- Hnew.
  - split_and!; [done|done|]. intros Hc. by rewrite <- Hbig, <- Hnew.
Qed.

Lemma FilterFunc_spec e s :
  let a := g_optionArgs s in
  twp (FilterFunc e) (λ b s', g_optionArgs s' = bump a (if b && tallied a e then 1 else 0) ∧
    files (disk s') = files (disk s) ∧ (b = true → room a = true ∧ dots e = false) ∧
    (never_fails F_stat → b = verdict a (files (disk s)) e)) s.
Proof.
  intros a. unfold FilterFunc, verdict. fold (dots e). destruct (dots e); cbn [negb andb].
  { apply twp_ret. cbn. by rewrite bump_0. }
  apply twp_bind, twp_args. fold a. fold (room a). destruct (room a); cbn [andb].
  2: { apply twp_ret. cbn. by rewrite bump_0. }
  unfold tallied. destruct (bool_decide (d_type e = DT_DIR) && recursion a); cbn [negb orb].
  { apply twp_ret. cbn. by rewrite bump_0. }
  eapply twp_mono; [apply FilterResult_spec|]. cbn. intros b s' (Ha & Hf & Hb). fold a in Ha, Hb.
  rewrite andb_true_r. by split_and!.
Qed.

(** How many of the entries count. *)
Definition tally (rec : bool) (l : list dirent) : Z :=
  Z.of_nat (length (List.filter (λ e, negb (bool_decide (d_type e = DT_DIR) && rec)) l)).

Definition within (a : OptionArgs) : Prop := listNum a = 0 ∨ countNum a <= listNum a.

Lemma tally_cons rec e l :
  tally rec (e :: l) = (if negb (bool_decide (d_type e = DT_DIR) && rec) then 1 else 0) + tally rec l.
Proof. unfold tally. cbn [List.filter]. destruct (negb _); cbn [length]; lia. Qed.

Lemma bump_bump a k m : bump (bump a k) m = bump a (k + m).
Proof. unfold bump. cbn. by rewrite Z.add_assoc. Qed.

Lemma verdict_bump a k f e : listNum a = 0 → verdict (bump a k) f e = verdict a f e.
Proof. intros H. unfold verdict, room. cbn. by rewrite H, !orb_true_r. Qed.

Lemma select_spec l s :
  let a := g_optionArgs s in
  twp (select l) (λ r s', g_optionArgs s' = bump a (tally (recursion a) r) ∧
    files (disk s') = files (disk s) ∧ (within a → within (g_optionArgs s')) ∧
    r `sublist_of` l ∧ Forall (λ e, dots e = false) r ∧
    (never_fails F_stat → listNum a = 0 → r = List.filter (verdict a (files (disk s))) l)) s.
Proof.
  revert s. induction l as [|e l IH]; intros s a.
  { apply twp_ret. change (tally _ []) with 0. rewrite bump_0. split_and!; [done..|constructor|constructor|done]. }
  cbn [select]. apply twp_bind. eapply twp_mono; [apply FilterFunc_spec|]. fold a.
  intros b s1 (Ha1 & Hf1 & Hroom & Hb). apply twp_bind. eapply twp_mono; [apply IH|].
  intros r s2 (Ha2 & Hf2 & Hw & Hsub & Hdots & Hr). apply twp_ret. rewrite Hf1, Ha1 in *.
  set (k := if b && tallied a e then 1 else 0) in *. change (recursion (bump a k)) with (recursion a) in *.
  rewrite bump_bump in Ha2. split; [|split; [done|split_and!]].
  - rewrite Ha2. f_equal. unfold k, tallied. destruct b; cbn [andb]; [by rewrite tally_cons|lia].
  - intros Hin. apply Hw. unfold within in *. cbn. unfold k. destruct b; cbn [andb]; [|by rewrite Z.add_0_r].
    destruct (Hroom eq_refl) as [Hroom' _]. unfold room in Hroom'. destruct (tallied a e); [|by rewrite Z.add_0_r].
    destruct (listNum a =? 0) eqn:E; zbool; [by left|]. rewrite orb_false_r in Hroom'. zbool. lia.
  - destruct b; [by constructor|by constructor].
  - destruct b; [|done]. constructor; [by apply Hroom|done].
  - intros Hc Hl. rewrite (Hb Hc) in *. cbn [List.filter].
    assert (List.filter (verdict (bump a k) (files (disk s))) l = List.filter (verdict a (files (disk s))) l) as E.
    { apply List.filter_ext. intros x. by apply verdict_bump. }
    rewrite E in Hr. specialize (Hr Hc Hl). by rewrite Hr.
Qed.

Lemma scandir_filtered_spec p s :
  let a := g_optionArgs s in let f := files (disk s) in
  twp (scandir_filtered p) (λ r s', files (disk s') = f ∧
    match r with
    | inl e => g_optionArgs s' = a ∧ (fault_code F_scandir e ∨ e ≠ 0 ∧ f !! resolve p ≠ Some NDir)
    | inr l => g_optionArgs s' = bump a (tally (recursion a) l) ∧ (within a → within (g_optionArgs s')) ∧
        f !! resolve p = Some NDir ∧ l `sublist_of` raw_dirents f (resolve p) ∧ Forall (λ e, dots e = false) l ∧
        (never_fails F_stat → listNum a = 0 → l = List.filter (verdict a f) (raw_dirents f (resolve p)))
    end) s.
Proof.
  intros a f. apply twp_bind, twp_on_disk, twp_readdir_all.
  - intros e d Hd He. apply twp_ret. by split_and!.
  - intros d Hd Hdir. apply twp_bind. eapply twp_mono; [apply select_spec|]. cbn [disk g_optionArgs].
    rewrite Hd. intros l s' (H1 & H2 & H3 & H4 & H5 & H6). apply twp_ret. by split_and!.
Qed.

(** ** The limit *)

Lemma twp_wp {A} (m : st lstate A) (Q : A → lstate → Prop) s : twp m Q s → wp m Q s.
Proof. unfold twp, wp. by destruct (m s) as [[]|]. Qed.
Lemma wp_args (Q : OptionArgs → lstate → Prop) s : Q (g_optionArgs s) s → wp args Q s.
Proof. done. Qed.
Lemma wp_set_path p (Q : unit → lstate → Prop) s :
  let a := g_optionArgs s in
  Q tt (LState (disk s) (mkOptionArgs (filter a) (listNum a) (countNum a) (recursion a) p)) →
  wp (set_path p) Q s.
Proof. done. Qed.

(** A listing that went well counted [k] entries, at least those it added and the
    [pending] ones had been counted before. *)
Definition counted (a : OptionArgs) (before pending : Z) (r : Z * list string) (s' : lstate) : Prop :=
  r.1 = 0 → ∃ k, g_optionArgs s' = bump a k ∧ (within a → within (g_optionArgs s')) ∧
    Z.of_nat (length r.2) <= before + pending + k.

Definition rec_counts (rec : string → list string → st lstate (Z * list string)) : Prop :=
  ∀ p dirents s, recursion (g_optionArgs s) = true →
    wp (rec p dirents) (counted (g_optionArgs s) (Z.of_nat (length dirents)) 0) s.

Lemma RecursiveEntries_counts rec p ns dirents s :
  rec_counts rec → recursion (g_optionArgs s) = true →
  wp (RecursiveEntries rec p ns dirents)
    (counted (g_optionArgs s) (Z.of_nat (length dirents)) (tally true ns)) s.
Proof.
  intros Hrec. revert dirents s. induction ns as [|e ns IH]; intros dirents s Hr.
  { apply wp_ret. intros _. exists 0. rewrite bump_0. split_and!; [done|done|]. change (tally true []) with 0. cbn. lia. }
  cbn [RecursiveEntries]. rewrite tally_cons, andb_true_r.
  destruct (decide (d_type e = DT_REG)) as [Hreg|Hreg];
    [rewrite (bool_decide_eq_true_2 _ Hreg)|rewrite (bool_decide_eq_false_2 _ Hreg)].
  { rewrite bool_decide_eq_false_2 by congruence. cbn [negb]. eapply wp_mono; [|by apply IH]. intros r s' H E. destruct (H E) as (k & H1 & H2 & H3).
    exists k. split_and!; [done|done|]. rewrite length_app in H3. cbn in H3. lia. }
  destruct (decide (d_type e = DT_DIR)) as [Hdir|Hdir];
    [rewrite (bool_decide_eq_true_2 _ Hdir)|rewrite (bool_decide_eq_false_2 _ Hdir)]; cbn [negb].
  2: { eapply wp_mono; [|by apply IH]. intros r s' H E. destruct (H E) as (k & H1 & H2 & H3).
    exists k. split_and!; [done|done|]. lia. }
  apply wp_bind, wp_args. cbv zeta. apply wp_bind, wp_set_path. cbv zeta.
  apply wp_bind, wp_args, wp_bind. cbn [g_optionArgs path].
  eapply wp_mono; [|by apply Hrec]. intros [ret dirents1] s1 H1. cbn [g_optionArgs] in H1.
  unfold ERRNO_NOERR. destruct (ret =? 0) eqn:E; zbool; cbn [negb]; [|by apply wp_ret; intros E'].
  destruct (H1 E) as (k & Hg & Hw & Hl). apply wp_bind, wp_set_path. cbv zeta. rewrite Hg in *. cbn [bump filter listNum countNum recursion].
  eapply wp_mono; [|by apply IH]. cbn [g_optionArgs]. intros r s' H E'. destruct (H E') as (k' & Hg' & Hw' & Hl').
  exists (k + k'). split_and!; [|intros Hin; apply Hw', Hw, Hin|cbn in Hl; lia].
  rewrite Hg'. unfold bump. cbn. by rewrite Z.add_assoc.
Qed.

Lemma RecursiveFunc_counts n : rec_counts (RecursiveFunc n).
Proof.
  induction n as [|n IH]; intros p dirents s Hr; [done|]. cbn [RecursiveFunc].
  apply wp_bind, twp_wp, twp_on_disk, twp_fcall; cbn [fst snd negb].
  { intros e d _ _. by apply wp_ret. }
  intros d _. apply wp_bind, twp_wp. eapply twp_mono; [apply scandir_filtered_spec|].
  cbn [disk g_optionArgs]. intros [e|ns] s1 [_ H]; [apply wp_ret|].
  { destruct H as [_ [(He & _)|(He & _)]]; by intros E. }
  destruct H as (Hg & Hw & _). eapply wp_mono; [|apply RecursiveEntries_counts; [done|by rewrite Hg]].
  intros r s' H E. destruct (H E) as (k & Hg' & Hw' & Hl). rewrite Hr in *. exists (tally true ns + k).
  rewrite Hg', Hg, bump_bump. split_and!; [done| |lia]. intros Hin. rewrite <- bump_bump, <- Hg, <- Hg'. auto.
Qed.

Lemma FilterFileRes_counts p dirents s :
  recursion (g_optionArgs s) = false →
  wp (FilterFileRes p dirents) (counted (g_optionArgs s) (Z.of_nat (length dirents)) 0) s.
Proof.
  intros Hr. apply wp_bind, twp_wp, twp_on_disk, twp_fcall; cbn [fst snd negb].
  { intros e d _ _. by apply wp_ret. }
  intros d _. apply wp_bind, twp_wp. eapply twp_mono; [apply scandir_filtered_spec|].
  cbn [disk g_optionArgs]. intros [e|ns] s1 [_ H]; apply wp_ret.
  { destruct H as [_ [(He & _)|(He & _)]]; by intros E. }
  destruct H as (Hg & Hw & _). intros _. eexists. split; [exact Hg|]. split; [done|].
  rewrite Hr. cbn [snd]. rewrite length_app, length_map. unfold tally.
  assert (List.filter (λ e : dirent, negb (bool_decide (d_type e = DT_DIR) && false)) ns = ns) as ->; [|lia].
  clear. induction ns as [|e ns IH]; [done|]. cbn. by rewrite andb_false_r, IH.
Qed.

(** The options a call runs with. *)
Lemma ValidOptionParam_true p opt a :
  ValidOptionParam p opt = (true, a) →
  countNum a = 0 ∧ path a = p ∧
  match opt with
  | None => a = mkOptionArgs (filter OptionArgs_Clear) 0 0 false p
  | Some op => recursion a = o_recursion op ∧
      listNum a = match o_listNum op with Some k => to_int k | None => 0 end ∧
      (o_filter op = None → filter a = filter OptionArgs_Clear)
  end.
Proof.
  unfold ValidOptionParam. destruct opt as [[r k fl]|]; [|intros [= <-]; by split_and!].
  cbn [o_listNum o_recursion o_filter]. destruct k as [k|].
  - destruct (k <? 0); [done|]. cbn [negb fst snd]. destruct fl as [fl|].
    + destruct (ValidFileFilterParam _ _) as [ret flt]. intros [= -> <-]. by split_and!.
    + intros [= <-]. by split_and!.
  - cbn [negb fst snd]. destruct fl as [fl|].
    + destruct (ValidFileFilterParam _ _) as [ret flt]. intros [= -> <-]. by split_and!.
    + intros [= <-]. by split_and!.
Qed.

(** The limit is kept: whatever calls fail, a listing with a limit that fits an [int]
    and is not zero never has more entries than the limit, flat or recursive. *)
Theorem list_file_limit (n : nat) (p : string) (op : FsListFileOptions) (k : Z) (s s' : lstate)
    (l : list string) :
  o_listNum op = Some k → 0 < k < 2 ^ 31 →
  DoListFile n p (Some op) s = Some (inr l, s') → Z.of_nat (length l) <= k.
Proof.
  intros Hk Hpos E0.
  enough (wp (DoListFile n p (Some op)) (λ r _, match r with
    | inr l => Z.of_nat (length l) <= k | inl _ => True end) s) as H by exact (wp_elim _ _ _ _ _ H E0).
  clear E0. unfold DoListFile. destruct (ValidOptionParam p (Some op)) as [ok a] eqn:Ev.
  change (wp (bind (set_args a) ?f) ?Q s) with (wp (f tt) Q (LState (disk s) a)). cbv beta.
  destruct ok; cbn [negb]; [|by apply wp_ret].
  apply ValidOptionParam_true in Ev as (Hc & Hp & Hrec & Hl & _). rewrite Hk in Hl.
  assert (to_int k = k) as Ek by (unfold to_int; rewrite Z.mod_small; lia). rewrite Ek in Hl.
  apply wp_bind. eapply wp_mono with (P := counted a 0 0).
  2: { destruct (recursion a) eqn:Er; [apply (RecursiveFunc_counts n p [])|apply (FilterFileRes_counts p [])]; done. }
  intros [ret res] s1 H1. destruct (ret =? 0) eqn:E; zbool; cbn [negb]; [|by apply wp_ret].
  destruct (H1 E) as (m & Hg & Hw & Hlen). apply wp_bind, wp_args. cbv zeta.
  change (wp (bind (set_args ?a) ?f) ?Q ?s) with (wp (f tt) Q (LState (disk s) a)). apply wp_ret.
  assert (within (g_optionArgs s1)) as Hwi by (apply Hw; unfold within; lia).
  rewrite Hg in Hwi. unfold within in Hwi. cbn in Hwi, Hlen. unfold DoListFileVector.
  destruct (recursion (g_optionArgs s1)); rewrite ?length_map; lia.
Qed.

(** ** What a recursive listing without a limit contains *)

(** The names [l] behind slashes. *)
Fixpoint joined (l : list string) : string :=
  match l with [] => "" | n :: l => child "" n +:+ joined l end.

Lemma child_joined p n l : child p n +:+ joined l = p +:+ joined (n :: l).
Proof. unfold child. cbn. by rewrite <- !append_assoc. Qed.

(** The reference: every regular file below [p] that passes, by its full path. *)
Fixpoint files_below (n : nat) (flt : FileFilter) (f : tree) (p : string) : list string :=
  match n with
  | O => []
  | S n =>
      flat_map (λ e,
        if dots e then [] else
        if bool_decide (d_type e = DT_REG) then
          if passes flt p f e then [child p (d_name e)] else []
        else if bool_decide (d_type e = DT_DIR) then files_below n flt f (child p (d_name e))
        else []) (raw_dirents f (resolve p))
  end.

(** No call fails and no limit is set. *)
Definition nothing_fails : Prop := ∀ k, never_fails k.

Definition lists_all (n : nat) (rec : string → list string → st lstate (Z * list string)) : Prop :=
  ∀ p dirents s, let a := g_optionArgs s in
    listNum a = 0 → recursion a = true → path a = p → wf_tree (files (disk s)) →
    files (disk s) !! resolve p = Some NDir → deep (resolve p) (files (disk s)) n →
    twp (rec p dirents) (λ r s', r = (0, dirents ++ files_below n (filter a) (files (disk s)) p) ∧
      files (disk s') = files (disk s) ∧ ∃ k, g_optionArgs s' = bump a k) s.

(** What the loop adds for the entries that were selected. *)
Definition listed_entries (n : nat) (flt : FileFilter) (f : tree) (p : string) (ns : list dirent) : list string :=
  flat_map (λ e, if bool_decide (d_type e = DT_REG) then [child p (d_name e)]
    else if bool_decide (d_type e = DT_DIR) then files_below n flt f (child p (d_name e)) else []) ns.

Lemma RecursiveEntries_all n rec p ns dirents s :
  let a := g_optionArgs s in let f := files (disk s) in
  lists_all n rec → listNum a = 0 → recursion a = true → path a = p → wf_tree f →
  Forall (λ e, d_type e = DT_DIR → valid_name (d_name e) ∧ f !! (resolve p ++ [d_name e]) = Some NDir ∧
    deep (resolve p ++ [d_name e]) f n) ns →
  twp (RecursiveEntries rec p ns dirents) (λ r s',
    r = (0, dirents ++ listed_entries n (filter a) f p ns) ∧ files (disk s') = f ∧ ∃ k, g_optionArgs s' = bump a k) s.
Proof.
  intros a f Hrec Hl Hr Hp Hwf. subst a f. revert dirents s Hl Hr Hp Hwf.
  induction ns as [|e ns IH]; intros dirents s Hl Hr Hp Hwf Hns.
  { apply twp_ret. rewrite app_nil_r. split_and!; [done|done|]. exists 0. by rewrite bump_0. }
  apply Forall_cons in Hns as [He Hns]. cbn [RecursiveEntries listed_entries flat_map].
  fold (listed_entries n (filter (g_optionArgs s)) (files (disk s)) p ns).
  destruct (decide (d_type e = DT_REG)) as [Hreg|Hreg];
    [rewrite (bool_decide_eq_true_2 _ Hreg)|rewrite (bool_decide_eq_false_2 _ Hreg)].
  { eapply twp_mono; [by apply IH|]. intros r s' [-> H]. by rewrite <- app_assoc. }
  destruct (decide (d_type e = DT_DIR)) as [Hdir|Hdir];
    [rewrite (bool_decide_eq_true_2 _ Hdir)|rewrite (bool_decide_eq_false_2 _ Hdir); by apply IH].
  destruct (He Hdir) as (Hv & Hd & Hdeep). pose proof (resolve_entry p _ Hv) as Ep. rewrite <- Ep in *.
  apply twp_bind, twp_args. cbv zeta. rewrite Hp. apply twp_bind.
  change (twp (set_path ?q) ?Q s) with (Q tt (LState (disk s) (mkOptionArgs (filter (g_optionArgs s))
    (listNum (g_optionArgs s)) (countNum (g_optionArgs s)) (recursion (g_optionArgs s)) q))). cbv beta.
  apply twp_bind, twp_args, twp_bind. cbn [g_optionArgs path]. eapply twp_mono; [by apply Hrec|].
  cbn [g_optionArgs disk filter]. intros r s1 (-> & Hf1 & k & Hk). cbn [Z.eqb negb ERRNO_NOERR].
  apply twp_bind.
  change (twp (set_path ?q) ?Q s1) with (Q tt (LState (disk s1) (mkOptionArgs (filter (g_optionArgs s1))
    (listNum (g_optionArgs s1)) (countNum (g_optionArgs s1)) (recursion (g_optionArgs s1)) q))). cbv beta.
  rewrite Hk. cbn [bump filter listNum countNum recursion].
  eapply twp_mono; [apply IH; cbn [g_optionArgs disk listNum recursion path]; rewrite ?Hf1; done|].
  cbn [g_optionArgs disk filter]. rewrite Hf1. intros r s' (-> & Hf' & k' & Hk').
  rewrite <- app_assoc. split_and!; [done|done|]. exists (k + k'). rewrite Hk'.
  unfold bump. cbn. f_equal; [lia|congruence].
Qed.

Lemma flat_map_filter {A B} (P : A → bool) (g : A → list B) l :
  flat_map g (List.filter P l) = flat_map (λ x, if P x then g x else []) l.
Proof. induction l as [|x l IH]; [done|]. cbn. destruct (P x); cbn; by rewrite IH. Qed.

Lemma listed_entries_filter n a f p l :
  listNum a = 0 → recursion a = true → path a = p →
  listed_entries n (filter a) f p (List.filter (verdict a f) l) =
  flat_map (λ e,
        if dots e then [] else
        if bool_decide (d_type e = DT_REG) then
          if passes (filter a) p f e then [child p (d_name e)] else []
        else if bool_decide (d_type e = DT_DIR) then files_below n (filter a) f (child p (d_name e))
        else []) l.
Proof.
  intros Hl Hr <-. unfold listed_entries. rewrite flat_map_filter. apply flat_map_ext. intros e.
  unfold verdict, room, tallied. rewrite Hl, Hr, orb_true_r. destruct (dots e); [done|].
  cbn [negb andb]. rewrite andb_true_r, negb_involutive.
  destruct (decide (d_type e = DT_DIR)) as [E|E];
    [rewrite (bool_decide_eq_true_2 _ E)|rewrite (bool_decide_eq_false_2 _ E)]; cbn [orb].
  - by rewrite bool_decide_eq_false_2 by congruence.
  - destruct (passes _ _ _ e); [done|]. by destruct (bool_decide _).
Qed.

Lemma RecursiveFunc_all n : nothing_fails → lists_all n (RecursiveFunc n).
Proof.
  intros Hc. induction n as [|n IH]; intros p dirents s a Hl Hr Hp Hwf Hd Hdeep.
  { destruct Hdeep as [H _]. lia. }
  cbn [RecursiveFunc]. apply twp_bind, twp_on_disk, twp_fcall_calm; [apply Hc|]. cbn [fst snd negb].
  intros d Hfd. apply twp_bind. eapply twp_mono; [apply scandir_filtered_spec|].
  cbn [disk g_optionArgs]. rewrite Hfd. fold a. intros [e|ns] s1 [Hf1 H].
  { destruct H as [_ [(He & _ & _ & k & Hk)|[_ He]]]; [by rewrite (Hc F_scandir k) in Hk|done]. }
  destruct H as (Hg & _ & _ & Hsub & Hdots & Hns). specialize (Hns (Hc _) Hl).
  eapply twp_mono.
  - apply (RecursiveEntries_all n); rewrite ?Hg, ?Hf1; try done.
    rewrite Forall_forall in Hdots |- *. intros e He Hdir. pose proof (Hdots e He) as Hnd.
    apply (sublist_subseteq _ _ Hsub) in He. apply elem_of_raw in He as [He|[Hnm Ht]].
    { exfalso. unfold dots in Hnd. set_unfold in He. by destruct He as [E|[E|[]]]; rewrite E in Hnd. }
    rewrite Hdir in Ht. symmetry in Ht. apply entry_type_dir in Ht. destruct Hdeep as [_ Hdeep].
    split; [|split; [done|split]].
    + destruct Hwf as [_ Hwf]. by apply (wf_below_sub [] (resolve p) _ Hwf [] (d_name e)).
    + specialize (Hdeep [d_name e]). cbn in Hdeep. apply Nat.succ_lt_mono, Hdeep. by eexists.
    + intros r. rewrite <- app_assoc. intros Hr'%Hdeep. cbn in Hr'. lia.
  - cbn. rewrite Hg, Hf1. intros r s' (-> & Hf' & k & Hk). rewrite bump_bump in Hk.
    split_and!; [|done|by eexists]. do 2 f_equal. rewrite Hns.
    exact (listed_entries_filter n a _ p _ Hl Hr Hp).
Qed.

Definition types_reported : Prop := ∀ p, fs_dtype p = true.

(** A regular file below [p], at the names [q] and then [m], that passes the filter there. *)
Definition selected (flt : FileFilter) (f : tree) (p : string) (q : list string) (m : string) : Prop :=
  (∃ data, f !! (resolve p ++ q ++ [m]) = Some (NFile data)) ∧
  passes flt (p +:+ joined q) f (Dirent m DT_REG) = true.

Lemma elem_of_raw_dirents f d m y :
  types_reported → f !! (d ++ [m]) = Some y → y ≠ NSpecial →
  Dirent m (match y with NDir => DT_DIR | _ => DT_REG end) ∈ raw_dirents f d.
Proof.
  intros Hty Hy Hns. unfold raw_dirents. rewrite !elem_of_cons. do 2 right.
  apply list_elem_of_In, in_map_iff. exists m. split.
  - unfold entry_type. rewrite Hty, Hy. by destruct y.
  - apply list_elem_of_In. rewrite fs_order_perm. apply elem_of_names. by eexists.
Qed.

Lemma valid_no_dots e : valid_name (d_name e) → dots e = false.
Proof. intros ((_ & H1 & H2) & _). unfold dots. by apply String.eqb_neq in H1 as ->, H2 as ->. Qed.

(** A directory of a directory that is [S n] deep is [n] deep. *)
Lemma deep_entry n f p :
  wf_tree f → deep (resolve p) f (S n) → ∀ m, f !! (resolve p ++ [m]) = Some NDir →
  valid_name m ∧ resolve (child p m) = resolve p ++ [m] ∧ deep (resolve (child p m)) f n.
Proof.
  intros Hwf Hdeep m Hm. assert (valid_name m) as Hv.
  { destruct Hwf as [_ Hwf]. apply (wf_below_sub [] (resolve p) _ Hwf [] m). by eexists. }
  split; [done|]. rewrite (resolve_entry p m Hv). split; [done|]. destruct Hdeep as [_ Hdeep]. split.
  - specialize (Hdeep [m]). cbn in Hdeep. apply Nat.succ_lt_mono, Hdeep. by eexists.
  - intros r. rewrite <- app_assoc. intros Hr%Hdeep. cbn in Hr. lia.
Qed.

Lemma elem_of_files_below n flt f p x :
  types_reported → wf_tree f → f !! resolve p = Some NDir → deep (resolve p) f n →
  x ∈ files_below n flt f p ↔ ∃ q m, selected flt f p q m ∧ x = p +:+ joined (q ++ [m]).
Proof.
  intros Hty Hwf. revert p. induction n as [|n IH]; intros p Hd Hdeep.
  { destruct Hdeep as [H _]. lia. }
  pose proof (deep_entry n f p Hwf Hdeep) as Hsub.
  change (files_below (S n) flt f p) with (flat_map (λ e,
        if dots e then [] else
        if bool_decide (d_type e = DT_REG) then
          if passes flt p f e then [child p (d_name e)] else []
        else if bool_decide (d_type e = DT_DIR) then files_below n flt f (child p (d_name e))
        else []) (raw_dirents f (resolve p))).
  rewrite list_elem_of_In, in_flat_map. split.
  - intros (e & He & Hx). apply list_elem_of_In in He, Hx. destruct (dots e) eqn:Hdots; [by apply elem_of_nil in Hx|].
    apply elem_of_raw in He as [He|[Hnm Ht]].
    { exfalso. unfold dots in Hdots. set_unfold in He. by destruct He as [E|[E|[]]]; rewrite E in Hdots. }
    destruct (decide (d_type e = DT_REG)) as [E|E];
      [rewrite (bool_decide_eq_true_2 _ E) in Hx|rewrite (bool_decide_eq_false_2 _ E) in Hx].
    + destruct (passes flt p f e) eqn:Hp; [|by apply elem_of_nil in Hx].
      apply list_elem_of_singleton in Hx as ->. exists [], (d_name e). split; [split|].
      * rewrite E in Ht. unfold entry_type in Ht. destruct (fs_dtype _); [|done].
        cbn [app]. destruct (fs_link _), (f !! (resolve p ++ [d_name e])) as [[data| |]|];
          try discriminate Ht; by exists data.
      * cbn [joined]. rewrite append_nil_r. by destruct e; cbn in E; subst.
      * cbn. unfold child. by rewrite append_nil_r.
    + case_bool_decide as E'; [|by apply elem_of_nil in Hx]. rewrite E' in Ht. symmetry in Ht.
      apply entry_type_dir in Ht. destruct (Hsub _ Ht) as (_ & Er & Hdp).
      apply IH in Hx as (q & m & ([data Hdata] & Hp) & ->); [|by rewrite Er|done].
      exists (d_name e :: q), m. rewrite Er, <- app_assoc in Hdata. rewrite child_joined in Hp.
      split; [split; [by exists data|done]|]. apply child_joined.
  - intros (q & m & ([data Hdata] & Hp) & ->). destruct q as [|m0 q].
    + cbn [app] in *. pose proof (elem_of_raw_dirents f (resolve p) m _ Hty Hdata ltac:(done)) as Hraw.
      eexists. split; [by apply list_elem_of_In|]. cbn [joined] in Hp. rewrite append_nil_r in Hp.
      rewrite valid_no_dots, bool_decide_eq_true_2, Hp; [|done|].
      * apply list_elem_of_In, list_elem_of_singleton. cbn. unfold child. by rewrite append_nil_r.
      * destruct Hwf as [_ Hwf]. apply (wf_below_sub [] (resolve p) _ Hwf [] m). by eexists.
    + assert (f !! (resolve p ++ [m0]) = Some NDir) as Hm0.
      { destruct Hwf as [_ Hwf]. pose proof (wf_below_sub [] (resolve p) f Hwf) as Hb. cbn [app] in Hb.
        destruct (decide (f !! (resolve p ++ [m0]) = Some NDir)) as [?|Hn]; [done|exfalso].
        apply (wf_below_leaf _ f (q ++ [m])) in Hn; [by destruct q|by apply wf_below_sub|].
        rewrite <- app_assoc. by eexists. }
      destruct (Hsub m0 Hm0) as (Hv & Er & Hdp).
      exists (Dirent m0 DT_DIR). split; [apply list_elem_of_In, (elem_of_raw_dirents f (resolve p) m0 NDir); done|].
      rewrite valid_no_dots by done. cbn [d_type d_name]. rewrite bool_decide_eq_false_2, bool_decide_eq_true_2 by done.
      apply list_elem_of_In, IH; [by rewrite Er|done|]. exists q, m. split; [split|].
      * exists data. by rewrite Er, <- app_assoc.
      * by rewrite child_joined.
      * symmetry. apply child_joined.
Qed.

Lemma substr_append p x : substr (String.length p) (p +:+ x) = x.
Proof.
  unfold substr. rewrite length_append, Nat.add_comm, Nat.add_sub.
  assert (∀ y, String.substring 0 (String.length y) y = y) as H0.
  { intros y. induction y as [|d y IH]; [done|]. cbn. by rewrite IH. }
  induction p as [|c p IH]; [|exact IH]. apply H0.
Qed.

(** C37: a recursive listing is complete and exact: when no call fails, the kinds of entries
    are reported and no limit is set, it succeeds and contains, by their path below the
    directory, precisely the regular files at any depth that pass the filter. *)
Theorem list_file_recursive (n : nat) (p : string) (op : FsListFileOptions) (a : OptionArgs) (s : lstate) :
  nothing_fails → types_reported → wf_tree (files (disk s)) →
  files (disk s) !! resolve p = Some NDir → deep (resolve p) (files (disk s)) n →
  ValidOptionParam p (Some op) = (true, a) → o_recursion op = true → o_listNum op = None →
  ∃ l s', DoListFile n p (Some op) s = Some (inr l, s') ∧ files (disk s') = files (disk s) ∧
    ∀ x, x ∈ l ↔ ∃ q m, selected (filter a) (files (disk s)) p q m ∧ x = joined (q ++ [m]).
Proof.
  intros Hc Hty Hwf Hd Hdeep Ev Hrec Hlim.
  apply ValidOptionParam_true in Ev as Hv. destruct Hv as (_ & Hp & Hr & Hl & _). rewrite Hlim in Hl. rewrite Hrec in Hr.
  assert (twp (DoListFile n p (Some op)) (λ r s', files (disk s') = files (disk s) ∧
    r = inr (map (substr (String.length p)) (files_below n (filter a) (files (disk s)) p))) s)
    as (r & s' & E & Hf & ->)%twp_elim.
  { unfold DoListFile. rewrite Ev.
    change (twp (bind (set_args a) ?f) ?Q s) with (twp (f tt) Q (LState (disk s) a)). cbv beta. cbn [negb].
    rewrite Hr. apply twp_bind. eapply twp_mono; [by apply (RecursiveFunc_all n)|].
    cbn [disk g_optionArgs]. intros r s1 (-> & Hf1 & k & Hk). cbn [Z.eqb negb].
    apply twp_bind, twp_args. cbv zeta.
    change (twp (bind (set_args ?a) ?f) ?Q s1) with (twp (f tt) Q (LState (disk s1) a)). apply twp_ret.
    rewrite Hk. cbn [bump recursion disk]. rewrite Hr. by split. }
  eexists _, s'. split; [exact E|]. split; [done|]. intros x. rewrite list_elem_of_In, in_map_iff. split.
  - intros (y & <- & Hy). apply list_elem_of_In, elem_of_files_below in Hy as (q & m & Hs & ->); try done.
    exists q, m. split; [done|]. apply substr_append.
  - intros (q & m & Hs & ->). exists (p +:+ joined (q ++ [m])). split; [apply substr_append|].
    apply list_elem_of_In, elem_of_files_below; try done. by exists q, m.
Qed.
End listfile.

(** ** Witnesses *)

#[local] Instance plain_env : FsEnv.
Proof.
  refine {| fs_fault := λ _ _, 0; fs_partial := λ _, None; fs_dtype := λ _, true;
    fs_link := λ _, true; fs_order := λ l, l |}; done.
Defined.
#[local] Instance plain_list : ListEnv :=
  {| fnmatch := String.eqb; st_mtime := λ _, 100; st_dirsize := λ _, 4096 |}.

Definition sample_tree : tree := list_to_map [
  ([], NDir); (["a"], NDir); (["a"; "f.txt"], NFile [1; 2]); (["a"; "l"], NSpecial);
  (["a"; "sub"], NDir); (["a"; "sub"; "g.txt"], NFile [3]); (["a"; "sub"; "h.bin"], NFile [4])]%string.
Definition sample : lstate := LState (FState sample_tree 0) OptionArgs_Clear.
Definition txt_filter : FsFilter := mkFsFilter (Some [".txt"%string]) None (Some 0) None.
Definition limited : FsListFileOptions := mkFsListFileOptions true (Some 1) None.
Definition unlimited : FsListFileOptions := mkFsListFileOptions true None (Some txt_filter).

Lemma list_file_limit_witness :
  ∃ l s', DoListFile 5 "/a" (Some limited) sample = Some (inr l, s') ∧ Z.of_nat (length l) <= 1.
Proof.
  destruct (DoListFile 5 "/a" (Some limited) sample) as [[[e|l] s']|] eqn:E.
  - vm_compute in E. discriminate.
  - exists l, s'. split; [exact eq_refl|]. apply (list_file_limit 5 "/a" limited 1 sample s' l); [reflexivity|lia|exact E].
  - vm_compute in E. discriminate.
Defined.

Lemma list_file_recursive_witness :
  ∃ l s', DoListFile 5 "/a" (Some unlimited) sample = Some (inr l, s') ∧ "/sub/g.txt"%string ∈ l
    ∧ "/sub/h.bin"%string ∉ l.
Proof.
  destruct (list_file_recursive 5 "/a" unlimited
    (mkOptionArgs (mkFileFilter [".txt"%string] [] 0 (double_of (-1))) 0 0 true "/a") sample) as (l & s' & E & _ & Hl).
  - by intros k n.
  - by intros q.
  - apply wf_treeb_sound. vm_compute. reflexivity.
  - reflexivity.
  - apply deepb_sound. vm_compute. reflexivity.
  - vm_compute. reflexivity.
  - reflexivity.
  - reflexivity.
  - exists l, s'. split; [exact E|]. split.
    + apply Hl. exists ["sub"%string], "g.txt"%string. split; [split; [by exists [3]|]|]; vm_compute; reflexivity.
    + assert ((fst <$> DoListFile 5 "/a" (Some unlimited) sample) = Some (inr ["/f.txt"; "/sub/g.txt"]%string)) as Hr
        by (vm_compute; reflexivity).
      rewrite E in Hr. injection Hr as ->. apply (bool_decide_unpack _). vm_compute. exact I.
Defined.

(** A link is counted, and so uses up the limit, but not listed. *)
Example link_uses_limit :
  fst <$> DoListFile 5 "/a" (Some limited)
    (LState (FState (list_to_map [([], NDir); (["a"], NDir); (["a"; "l"], NSpecial);
       (["a"; "sub"], NDir); (["a"; "sub"; "g.txt"], NFile [3])]%string) 0) OptionArgs_Clear)
  = Some (inr []).
Proof. by vm_compute. Qed.
