(* ===== verification/CopyCore.v ===== *)
(** * Copying files and directories by URI

    Models [copy_core.cpp] of [mod_fs]: the checks, the registry of copies in
    progress, the copy itself with its [sendfile] loop and the watches it sets for
    its progress listener, and the result of [DoCopy].  The thread that reports
    progress is modelled in [CopyNotify]; here it only matters for
    the error it may leave.  URIs, the media library, [inotify] and the copy from a
    remote device are parameters ([CopyEnv]).  Fuel bounds the depth of directories;
    the [sendfile] loop runs on the size that is left. *)

From coqutil Require Import Datatypes.RecordSetters.
From S2P Require Import Prelude FsTree.
Import TriangleBracketNotations.
#[local] Open Scope record_set.

Definition ERRNO_NOERR : Z := 0.
Definition EPERM : Z := 1.
Definition EIO : Z := 5.
Definition ENXIO : Z := 6.
Definition ECANCELED : Z := 125.
Definition E_PERMISSION : Z := 201.
Definition E_PARAMS : Z := 401.
Definition UNKNOWN_ERR : Z := 13900042.
Definition MAX_SIZE : Z := 1024 * 1024 * 4.
Definition FILE_PREFIX_NAME : string := "file://".
Definition NETWORK_PARA : string := "?networkid=".
Definition MEDIA : string := "media".

(** ** Objects of a copy *)

Record ReceiveInfo := mkReceiveInfo {
  ri_path : string;
  fileList : gmap string Z
}.

Record FsCallbackObject := mkFsCallbackObject {
  listener : bool;                       (** not null *)
  cb_notifyFd : Z;
  cb_eventFd : Z;
  wds : list (Z * ReceiveInfo);
  totalSize : Z;
  progressSize : Z;
  maxProgressSize : Z;
  errorCode : Z
}.
Definition new_callback (l : bool) : FsCallbackObject := mkFsCallbackObject l (-1) (-1) [] 0 0 0 0.

Record FsFileInfos := mkFsFileInfos {
  srcUri : string;
  destUri : string;
  srcPath : string;
  destPath : string;
  isFile : bool;
  notifyFd : Z;
  eventFd : Z;
  run : bool;
  hasListener : bool;
  taskSignal : bool;                     (** not null *)
  filePaths : gset string;
  exceptionCode : Z
}.

(** Copies are told apart by their URIs ([operator==] and [operator<]). *)
Definition key (i : FsFileInfos) : string * string := (srcUri i, destUri i).

(** What the process knows: the disk, the copy this call is about, the registry, the
    pairs given to the listener, the descriptors for notifications that are open, and
    whether the signal was marked as remote. *)
Record cstate := mkcstate {
  disk : fstate;
  infos : FsFileInfos;
  callbackMap : gmap (string * string) FsCallbackObject;
  reports : list (Z * Z);
  open_fds : gset Z;
  remote_marked : bool
}.

Class CopyEnv := {
  authority : string → string;                 (** [Uri::GetAuthority] *)
  FileUri_GetRealPath : string → string;
  FileUri_GetPath : string → string;
  media_open : string → Z + list Z;            (** the media library: an error or the data *)
  needCancel : nat → bool;                     (** the signal was cancelled by then *)
  k_inotify_init : nat → Z + Z;                (** [inl] an errno, [inr] a descriptor *)
  k_eventfd : nat → Z + Z;
  k_add_watch : nat → string → Z + Z;
  CopyFileFromSoftBus : string → string → Z;
  thread_exception : Z                         (** what the progress thread left *)
}.

Record CopyOptions := mkCopyOptions { progressListener : bool; copySignal : bool }.

(** ** Strings *)

(** [s.find(pat) != npos] *)
Fixpoint contains (pat s : string) : bool :=
  String.prefix pat s || match s with EmptyString => false | String _ s => contains pat s end.

Definition IsValidUri (uri : string) : bool := String.prefix FILE_PREFIX_NAME uri.
Definition ValidOperand (uriStr : string) : bool := IsValidUri uriStr.
Definition ValidParams (src dest : string) : bool := ValidOperand src && ValidOperand dest.
Definition IsRemoteUri (uri : string) : bool := contains NETWORK_PARA uri.

Definition ends_with_slash (s : string) : bool :=
  bool_decide (String.get (String.length s - 1) s = Some slash).

(** [p /= q] and [p.parent_path()] of [filesystem::path] on strings without double slashes. *)
Definition path_append (p q : string) : string :=
  if String.prefix "/" q then q
  else if (p =? "")%string || ends_with_slash p then p +:+ q else child p q.
Definition path_parent (p : string) : string :=
  if (p =? "/")%string then "/"
  else match rsplit p with
       | Some (d, _) => if (d =? "")%string then "/" else d
       | None => ""
       end.

Definition GetRealPath (path : string) : string :=
  fold_left (λ realPath component,
    if (component =? ".")%string then realPath
    else if (component =? "..")%string then path_parent realPath
    else path_append realPath component) (path_elems path) "".

(** [append the slash unless it is there] *)
Definition with_slash (s : string) : string := if ends_with_slash s then s else s +:+ "/".

Section copy.
Context {FE : FsEnv} {CE : CopyEnv}.

(** ** Calls *)

Definition on_disk {A} (m : st fstate A) : st cstate A := λ s,
  match m (disk s) with
  | Some (a, d) => Some (a, s <| disk := d |>)
  | None => None
  end.
Definition get_infos : st cstate FsFileInfos := λ s, Some (infos s, s).
Definition set_infos (f : FsFileInfos → FsFileInfos) : st cstate unit := λ s,
  Some (tt, s <| infos := f (infos s) |>).
Definition find_callback : st cstate (option FsCallbackObject) := λ s,
  Some (callbackMap s !! key (infos s), s).
Definition set_callback (f : FsCallbackObject → FsCallbackObject) : st cstate unit := λ s,
  Some (tt, s <| callbackMap := alter f (key (infos s)) (callbackMap s) |>).
(** A call of the kernel that the environment answers. *)
Definition kernel {A} (f : nat → A) : st cstate A := λ s,
  Some (f (calls (disk s)), s <| disk := FState (files (disk s)) (S (calls (disk s))) |>).

(** What a source descriptor reads from. *)
Inductive source := FromPath (p : path) | FromMedia (data : list Z).

(** [open] for reading; special files are not opened. *)
Definition open_read (p : string) : st fstate (Z + path) :=
  fcall F_open (λ e f, (inl e, f))
    (λ f, (match f !! resolve p with
           | Some NSpecial => inl ENXIO
           | Some _ => inr (resolve p)
           | None => inl ENOENT
           end, f)).

(** [open] with [O_RDWR | O_CREAT]; what is there is kept. *)
Definition open_create (p : string) : st fstate (Z + path) :=
  let q := resolve p in
  fcall F_open (λ e f, (inl e, f))
    (λ f, match f !! q with
          | Some (NFile _) => (inr q, f)
          | Some NDir => (inl EISDIR, f)
          | Some NSpecial => (inl ENXIO, f)
          | None => if is_dir f (removelast q) && bool_decide (q ≠ [])
                    then (inr q, <[q := NFile []]> f) else (inl ENOENT, f)
          end).

(** The data a descriptor reads, if it is a file. *)
Definition src_data (src : source) (f : tree) : option (list Z) :=
  match src with
  | FromMedia data => Some data
  | FromPath p => match f !! p with Some (NFile data) => Some data | _ => None end
  end.

Definition fstat_size (src : source) : st fstate (Z + Z) :=
  fcall F_fstat (λ e f, (inl e, f))
    (λ f, (inr (match src_data src f with Some data => Z.of_nat (length data) | None => 0 end), f)).

(** [data] written at [pos] into [old]. *)
Definition splice (old : list Z) (pos : nat) (data : list Z) : list Z :=
  take pos (old ++ replicate (pos - length old) 0) ++ data ++ drop (pos + length data) old.

(** [sendfile] from [offset] to the destination, whose position is [offset] too; it moves
    at least one byte when there is one. *)
Definition sendfile (dst : path) (src : source) (offset : Z) (count : Z) : st fstate (Z + Z) := λ s,
  fcall F_sendfile (λ e f, (inl e, f))
    (λ f, match src_data src f, f !! dst with
          | Some data, Some (NFile old) =>
              let avail := take (Z.to_nat count) (drop (Z.to_nat offset) data) in
              let n := match fs_partial (calls s) with Some k => Nat.max 1 k | None => length avail end in
              let chunk := take n avail in
              (inr (Z.of_nat (length chunk)), <[dst := NFile (splice old (Z.to_nat offset) chunk)]> f)
          | _, _ => (inl EINVAL, f)
          end) s.

(** ** Copying one file *)

Definition OpenSrcFile (srcPth : string) : st cstate (Z + source) :=
  i ← get_infos;
  if (authority (srcUri i) =? MEDIA)%string then
    sret (match media_open (srcUri i) with inl e => inl e | inr data => inr (FromMedia data) end)
  else
    r ← on_disk (open_read srcPth);
    sret (match r with inl errno => inl errno | inr p => inr (FromPath p) end).

(** [CheckCancelIfNeed] of the signal, if there is one. *)
Definition check_cancel : st cstate bool :=
  i ← get_infos; b ← kernel needCancel; sret (taskSignal i && b).

Fixpoint SendFileCore_loop (fuel : nat) (src : source) (dst : path) (offset size : Z) : st cstate (Z + Z) :=
  match fuel with
  | O => λ _, None
  | S fuel =>
      if size >=? 0 then
        r ← on_disk (sendfile dst src offset MAX_SIZE);
        match r with
        | inl errno => sret (inl errno)
        | inr ret =>
            c ← check_cancel;
            if c : bool then sret (inl ECANCELED) else
            let offset := offset + ret in
            let size := size - ret in
            if ret =? 0 then sret (inr size) else SendFileCore_loop fuel src dst offset size
        end
      else sret (inr size)
  end.

Definition SendFileCore (src : source) (dst : path) : st cstate Z :=
  ptr ← on_disk alloc;
  if negb ptr then sret ENOMEM else
  r ← on_disk (fstat_size src);
  match r with
  | inl errno => sret errno
  | inr size =>
      r ← SendFileCore_loop (S (S (Z.to_nat size))) src dst 0 size;
      sret (match r with
            | inl errno => errno
            | inr size => if negb (size =? 0) then EIO else ERRNO_NOERR
            end)
  end.

Definition CopyFile (src dest : string) : st cstate Z :=
  r ← OpenSrcFile src;
  match r with
  | inl ret => sret ret
  | inr srcFd =>
      r ← on_disk (open_create dest);
      match r with
      | inl errno => sret errno
      | inr destFd =>
          ptr ← on_disk alloc;
          if negb ptr then sret ENOMEM else SendFileCore srcFd destFd
      end
  end.

(** ** Checks and directories *)

Definition CheckOrCreatePath (destPath : string) : st cstate Z :=
  '(ex, errCode) ← on_disk (exists_ destPath);
  if negb ex && (errCode =? ERRNO_NOERR) then
    r ← on_disk (open_create destPath);
    sret (match r with inl errno => errno | inr _ => ERRNO_NOERR end)
  else sret (if negb (errCode =? 0) then errCode else ERRNO_NOERR).

Definition IsDirectory (path : string) : st cstate bool :=
  '(t, _) ← on_disk (status path); sret (bool_decide (t = Some NDir)).
Definition IsFile (path : string) : st cstate bool :=
  '(t, _) ← on_disk (status path); sret (match t with Some (NFile _) => true | _ => false end).
Definition IsMediaUri (uriPath : string) : bool := (authority uriPath =? MEDIA)%string.

(** The size of what [stat] finds; of a directory it is not known. *)
Definition GetFileSize (path : string) : st cstate (Z * Z) :=
  '(t, e) ← on_disk (status path);
  sret (match t with
        | Some (NFile data) => (ERRNO_NOERR, Z.of_nat (length data))
        | Some _ => (ERRNO_NOERR, 0)
        | None => (e, 0)
        end).

Definition MakeDir (path : string) : st cstate Z :=
  '(ok, errCode) ← on_disk (create_directory path);
  sret (if negb ok then errCode else ERRNO_NOERR).

Definition FilterFunc (d_name : string) : bool :=
  if (d_name =? ".")%string || (d_name =? "..")%string then false else true.

(** The loop of [GetDirSize]; a failing [scandir] answers -1, and it does not run. *)
Section sizes.
Context (rec : string → st cstate Z).
Fixpoint DirSizes (path : string) (namelist : list dirent) (size : Z) : st cstate Z :=
  match namelist with
  | [] => sret size
  | e :: namelist =>
      let dest := child path (d_name e) in
      if bool_decide (d_type e = DT_LNK) then DirSizes path namelist size
      else if bool_decide (d_type e = DT_DIR) then
        sub ← rec dest; DirSizes path namelist (size + sub)
      else
        '(err, st_size) ← GetFileSize dest;
        if negb (err =? 0) then sret size else DirSizes path namelist (size + st_size)
  end.
End sizes.
Fixpoint GetDirSize (fuel : nat) (path : string) : st cstate Z :=
  match fuel with
  | O => λ _, None
  | S fuel =>
      ptr ← on_disk alloc;
      if negb ptr then sret ENOMEM else
      r ← on_disk (scandir_types path FilterFunc);
      DirSizes (GetDirSize fuel) path (match r with inl _ => [] | inr l => l end) 0
  end.

(** Watch a directory that is copied to, if there is a listener. *)
Definition watch_dir (destPath : string) : st cstate Z :=
  i ← get_infos;
  if notifyFd i >=? 0 then
    r ← kernel (λ n, k_add_watch n destPath);
    match r with
    | inl errno => sret errno
    | inr newWd =>
        iter ← find_callback;
        ptr ← on_disk alloc;
        if negb ptr then sret ENOMEM else
        match iter with
        | None => sret UNKNOWN_ERR
        | Some _ =>
            _ ← set_callback (λ c, c <| wds := wds c ++ [(newWd, mkReceiveInfo destPath ∅)] |>);
            sret ERRNO_NOERR
        end
    end
  else sret ERRNO_NOERR.

(** The calls of [RecurCopyDir] go through [rec]. *)
Section rec.
Context (rec : string → string → st cstate Z).

Definition CopySubDir (srcPath destPath : string) : st cstate Z :=
  '(ex, errCode) ← on_disk (exists_ destPath);
  res ← (if negb ex && (errCode =? ERRNO_NOERR) then MakeDir destPath
         else sret (if negb (errCode =? ERRNO_NOERR) then errCode else ERRNO_NOERR));
  if negb (res =? ERRNO_NOERR) then sret res else
  res ← watch_dir destPath;
  if negb (res =? ERRNO_NOERR) then sret res else rec srcPath destPath.

Fixpoint CopyEntries (srcPath destPath : string) (namelist : list dirent) : st cstate Z :=
  match namelist with
  | [] => sret ERRNO_NOERR
  | e :: namelist =>
      let src := child srcPath (d_name e) in
      let dest := child destPath (d_name e) in
      if bool_decide (d_type e = DT_LNK) then CopyEntries srcPath destPath namelist else
      ret ← (if bool_decide (d_type e = DT_DIR) then CopySubDir src dest
             else
               _ ← set_infos (λ i, i <| filePaths := {[ dest ]} ∪ filePaths i |>);
               CopyFile src dest);
      if negb (ret =? ERRNO_NOERR) then sret ret else CopyEntries srcPath destPath namelist
  end.
End rec.

Fixpoint RecurCopyDir (fuel : nat) (srcPath destPath : string) : st cstate Z :=
  match fuel with
  | O => λ _, None
  | S fuel =>
      ptr ← on_disk alloc;
      if negb ptr then sret ENOMEM else
      r ← on_disk (scandir_types srcPath FilterFunc);
      CopyEntries (RecurCopyDir fuel) srcPath destPath (match r with inl _ => [] | inr l => l end)
  end.

Definition CopyDirFunc (fuel : nat) (src dest : string) : st cstate Z :=
  if String.prefix src dest then sret EINVAL else
  let parent := parent_elems src in
  let dirName := match parent with [] => "" | _ => let n := List.last parent "" in
                   if (n =? "/")%string then "" else n end in
  CopySubDir (RecurCopyDir fuel) src (child dest dirName).

Definition ExecCopy (fuel : nat) : st cstate Z :=
  i ← get_infos;
  destFile ← (if isFile i then IsFile (destPath i) else sret false);
  if destFile : bool then CopyFile (srcPath i) (destPath i) else
  destDir ← (if isFile i then sret false else IsDirectory (destPath i));
  if destDir : bool then
    _ ← set_infos (λ i, i <| srcPath := with_slash (srcPath i) |> <| destPath := with_slash (destPath i) |>);
    i ← get_infos;
    CopyDirFunc fuel (srcPath i) (destPath i)
  else sret EINVAL.

(** ** Listeners *)

(** The descriptors of a callback object, where it has any. *)
Definition cb_fds (c : FsCallbackObject) : gset Z :=
  (if cb_eventFd c =? -1 then ∅ else {[ cb_eventFd c ]}) ∪ (if cb_notifyFd c =? -1 then ∅ else {[ cb_notifyFd c ]}).

(** [FsCallbackObject::CloseFd] *)
Definition CloseFd : st cstate unit :=
  iter ← find_callback;
  match iter with
  | None => sret tt
  | Some c =>
      _ ← (λ s, Some (tt, s <| open_fds := open_fds s ∖ cb_fds c |>));
      set_callback (λ c, c <| cb_eventFd := -1 |> <| cb_notifyFd := -1 |>)
  end.

Definition CloseNotifyFd : st cstate unit :=
  _ ← set_infos (λ i, i <| eventFd := -1 |> <| notifyFd := -1 |>); CloseFd.

(** A descriptor that the kernel gave. *)
Definition opened (fd : Z) : st cstate unit := λ s, Some (tt, s <| open_fds := {[ fd ]} ∪ open_fds s |>).

(** The watch on the destination and the total size, once there are descriptors. *)
Definition watch_destination (fuel : nat) : st cstate Z :=
  i ← get_infos;
  r ← kernel (λ n, k_add_watch n (destPath i));
  match r with
  | inl errCode => _ ← CloseNotifyFd; sret errCode
  | inr newWd =>
      ptr ← on_disk alloc;
      if negb ptr then _ ← CloseNotifyFd; sret ENOMEM else
      _ ← set_callback (λ c, c <| wds := wds c ++ [(newWd, mkReceiveInfo (destPath i) ∅)] |>);
      if negb (isFile i) then
        size ← GetDirSize fuel (srcPath i);
        _ ← set_callback (λ c, c <| totalSize := u64 size |>);
        sret ERRNO_NOERR
      else
        '(err, fileSize) ← GetFileSize (srcPath i);
        _ ← (if err =? ERRNO_NOERR then set_callback (λ c, c <| totalSize := fileSize |>) else sret tt);
        sret err
  end.

Definition SubscribeLocalListener (fuel : nat) : st cstate Z :=
  r ← kernel k_inotify_init;
  match r with
  | inl errno => _ ← set_infos (λ i, i <| notifyFd := -1 |>); sret errno
  | inr nfd =>
      _ ← opened nfd;
      _ ← set_infos (λ i, i <| notifyFd := nfd |>);
      r ← kernel k_eventfd;
      match r with
      | inl errno => _ ← set_infos (λ i, i <| eventFd := -1 |>); sret errno
      | inr efd =>
          _ ← opened efd;
          _ ← set_infos (λ i, i <| eventFd := efd |>);
          _ ← set_callback (λ c, c <| cb_notifyFd := nfd |> <| cb_eventFd := efd |>);
          watch_destination fuel
      end
  end.

Definition ExecLocal (fuel : nat) : st cstate Z :=
  i ← get_infos;
  ret ← (if isFile i then
           if (srcPath i =? destPath i)%string then sret EINVAL else CheckOrCreatePath (destPath i)
         else sret ERRNO_NOERR);
  if negb (ret =? ERRNO_NOERR) then sret ret else
  if negb (hasListener i) then ExecCopy fuel else
  ret ← SubscribeLocalListener fuel;
  if negb (ret =? ERRNO_NOERR) then sret ret else ExecCopy fuel.

Definition RegisterListener : st cstate bool :=
  ptr ← on_disk alloc;
  if negb ptr then sret false else
  iter ← find_callback;
  match iter with
  | Some _ => sret false
  | None => λ s, Some (true, s <| callbackMap := <[key (infos s) := new_callback (hasListener (infos s))]> (callbackMap s) |>)
  end.

(** The entry was the last reference, so the callback object is destroyed. *)
Definition UnregisterListener : st cstate unit :=
  _ ← CloseFd;
  λ s, Some (tt, s <| callbackMap := delete (key (infos s)) (callbackMap s) |>).

(** [OnFileReceive], with [GetUVEntry] and [ReceiveComplete]. *)
Definition OnFileReceive : st cstate unit :=
  iter ← find_callback;
  match iter with
  | None => sret tt
  | Some c =>
      ptr ← on_disk alloc;
      if negb ptr then sret tt else
      let processedSize := progressSize c in
      if processedSize <? maxProgressSize c then sret tt else
      _ ← set_callback (λ c, c <| maxProgressSize := processedSize |>);
      if negb (listener c) then sret tt else
      λ s, Some (tt, s <| reports := reports s ++ [(processedSize, totalSize c)] |>)
  end.

Definition CopyComplete : st cstate unit :=
  i ← get_infos;
  if hasListener i then
    _ ← set_callback (λ c, c <| progressSize := totalSize c |>);
    OnFileReceive
  else sret tt.

(** ** The call *)

Definition CreateFileInfos (srcU destU : string) (options : option CopyOptions) : st cstate Z :=
  ptr ← on_disk alloc;
  if negb ptr then sret ENOMEM else
  let sp := GetRealPath (FileUri_GetRealPath srcU) in
  let dp := GetRealPath (FileUri_GetPath destU) in
  isF ← (if IsMediaUri srcU then sret true else IsFile sp);
  let lst := match options with Some o => progressListener o | None => false end in
  let sig := match options with Some o => copySignal o | None => false end in
  _ ← set_infos (λ _, mkFsFileInfos srcU destU sp dp isF (-1) (-1) true lst sig ∅ ERRNO_NOERR);
  sret ERRNO_NOERR.

(** The progress thread was joined: what it left is there. *)
Definition WaitNotifyFinished : st cstate unit :=
  i ← get_infos;
  if hasListener i then set_infos (λ i, i <| exceptionCode := thread_exception |>) else sret tt.

Definition DoCopy (fuel : nat) (src dest : string) (options : option CopyOptions) : st cstate (option Z) :=
  if negb (ValidParams src dest) then sret (Some E_PARAMS) else
  errCode ← CreateFileInfos src dest options;
  if negb (errCode =? ERRNO_NOERR) then sret (Some errCode) else
  callback ← RegisterListener;
  if negb callback then sret (Some EINVAL) else
  i ← get_infos;
  if IsRemoteUri (srcUri i) then
    _ ← (if taskSignal i then λ s, Some (tt, s <| remote_marked := true |>) else sret tt);
    let ret := CopyFileFromSoftBus (srcUri i) (destUri i) in
    _ ← UnregisterListener;
    sret (if negb (ret =? ERRNO_NOERR) then Some ret else None)
  else
    result ← ExecLocal fuel;
    _ ← CloseNotifyFd;
    _ ← set_infos (λ i, i <| run := false |>);
    _ ← WaitNotifyFinished;
    if negb (result =? ERRNO_NOERR) then
      _ ← set_infos (λ i, i <| exceptionCode := result |>);
      _ ← UnregisterListener;
      sret (Some result)
    else
      _ ← CopyComplete;
      _ ← UnregisterListener;
      i ← get_infos;
      sret (if negb (exceptionCode i =? ERRNO_NOERR) then Some (exceptionCode i) else None).
End copy.

(** ** What copying one file does *)
Section file_specs.
Context {FE : FsEnv} {CE : CopyEnv}.

Lemma twp_core_disk {A} (m : st fstate A) (Q : A → cstate → Prop) s :
  twp m (λ a d, Q a (s <| disk := d |>)) (disk s) → twp (on_disk m) Q s.
Proof. unfold twp, on_disk. by destruct (m (disk s)) as [[]|]. Qed.

(** The start of [data] over the start of [old]. *)
Definition overlay (k : nat) (data old : list Z) : list Z := take k data ++ drop k old.

Lemma overlay_all data old : overlay (length data) data old = data ++ drop (length data) old.
Proof. unfold overlay. by rewrite firstn_all. Qed.

Lemma splice_overlay k data old chunk rest :
  drop k data = chunk ++ rest → (k <= length data)%nat →
  splice (overlay k data old) k chunk = overlay (k + length chunk) data old.
Proof.
  intros Hd Hk. unfold splice, overlay.
  assert (length (take k data) = k) as Hl by (rewrite length_take; lia).
  assert (take k ((take k data ++ drop k old) ++ replicate (k - length (take k data ++ drop k old)) 0)
    = take k data) as ->.
  { rewrite <- app_assoc. rewrite take_app_le by lia. by rewrite take_ge by lia. }
  assert (drop (k + length chunk) (take k data ++ drop k old) = drop (k + length chunk) old) as ->.
  { rewrite drop_app_ge by lia. rewrite Hl, drop_drop. f_equal. lia. }
  rewrite app_assoc. f_equal.
  assert (data = take k data ++ chunk ++ rest) as E by (by rewrite <- Hd, take_drop).
  rewrite E at 2. rewrite app_assoc, take_app_le by (rewrite length_app; lia).
  rewrite (take_ge (take k data ++ chunk)); [done|rewrite length_app; lia].
Qed.

(** Only the registry-independent part of the state changes. *)
Definition same_but_disk (s s' : cstate) : Prop := s' = s <| disk := disk s' |>.

Lemma same_but_disk_refl s : same_but_disk s s.
Proof. by destruct s. Qed.
Lemma same_but_disk_trans s1 s2 s3 : same_but_disk s1 s2 → same_but_disk s2 s3 → same_but_disk s1 s3.
Proof. unfold same_but_disk. intros -> ->. by destruct s1. Qed.
Lemma disk_set s d : disk (s <| disk := d |>) = d.
Proof. done. Qed.
Lemma same_but_disk_set s d : same_but_disk s (s <| disk := d |>).
Proof. by destruct s. Qed.

Lemma twp_kernel {A} (f : nat → A) (Q : A → cstate → Prop) s :
  (∀ a s', same_but_disk s s' → files (disk s') = files (disk s) → Q a s') → twp (kernel f) Q s.
Proof. intros H. apply H; [apply same_but_disk_set|done]. Qed.

Lemma twp_check_cancel (Q : bool → cstate → Prop) s :
  (∀ b s', same_but_disk s s' → files (disk s') = files (disk s) → Q b s') → twp check_cancel Q s.
Proof. intros H. apply twp_bind. apply H; [apply same_but_disk_set|done]. Qed.

Definition elsewhere (q : path) (f f' : tree) : Prop := ∀ p, p ≠ q → f' !! p = f !! p.

Lemma twp_sendfile dst src data old off count (Q : Z + Z → fstate → Prop) s :
  src_data src (files s) = Some data → files s !! dst = Some (NFile old) → 0 <= off → 0 < count →
  (∀ e s', e ≠ 0 → files s' = files s → Q (inl e) s') →
  (∀ chunk rest s', drop (Z.to_nat off) data = chunk ++ rest → (chunk = [] → rest = []) →
    files s' = <[dst := NFile (splice old (Z.to_nat off) chunk)]> (files s) →
    Q (inr (Z.of_nat (length chunk))) s') →
  twp (sendfile dst src off count) Q s.
Proof.
  intros Hd Ho Hoff Hc Hb Hg. unfold twp, sendfile. apply twp_fcall.
  - intros e s' (He & _) Hs. by apply Hb.
  - intros s'. rewrite Hd, Ho. cbn [fst snd]. set (avail := take (Z.to_nat count) (drop (Z.to_nat off) data)).
    set (n := match fs_partial (calls s) with Some k => Nat.max 1 k | None => length avail end). intros Hs.
    apply (Hg (take n avail) (drop n avail ++ drop (Z.to_nat count) (drop (Z.to_nat off) data)) s'); [| |exact Hs].
    + rewrite app_assoc, take_drop. unfold avail. by rewrite take_drop.
    + intros E. assert (avail = []) as E'.
      { destruct avail as [|x l]; [done|]. unfold n in E. destruct (fs_partial (calls s)) as [k|]; [|done].
        destruct (Nat.max 1 k) eqn:Ek; [lia|done]. }
      rewrite E', drop_nil. cbn [app]. unfold avail in E'.
      destruct (drop (Z.to_nat off) data) as [|x l]; [by rewrite drop_nil|].
      destruct (Z.to_nat count) eqn:Ec; [lia|done].
Qed.

(** The destination holds the first [k] bytes of the source over what it had. *)
Definition overlaid (dst : path) (data old : list Z) (f f' : tree) : Prop :=
  elsewhere dst f f' ∧ ∃ k, (k <= length data)%nat ∧ f' !! dst = Some (NFile (overlay k data old)).

Lemma src_data_elsewhere src dst f f' :
  (src ≠ FromPath dst) → elsewhere dst f f' → src_data src f' = src_data src f.
Proof. destruct src as [p|]; [|done]. cbn. intros Hne H. rewrite H; [done|congruence]. Qed.

(** From [k] bytes on, with [size] bytes left, the loop goes on to the end, a failure or a
    cancellation. *)
Lemma SendFileCore_loop_spec fuel src dst data old f0 k s :
  src ≠ FromPath dst → src_data src f0 = Some data → (k <= length data)%nat →
  elsewhere dst f0 (files (disk s)) → files (disk s) !! dst = Some (NFile (overlay k data old)) →
  (length data - k < fuel)%nat →
  twp (SendFileCore_loop fuel src dst (Z.of_nat k) (Z.of_nat (length data - k)))
    (λ r s', same_but_disk s s' ∧ overlaid dst data old f0 (files (disk s')) ∧
       match r with
       | inl e => e ≠ 0
       | inr size => size = 0 ∧ files (disk s') !! dst = Some (NFile (data ++ drop (length data) old))
       end) s.
Proof.
  intros Hne Hdata. revert k s. induction fuel as [|fuel IH]; intros k s Hk Hel Hd Hfuel; [lia|].
  cbn [SendFileCore_loop]. assert ((Z.of_nat (length data - k) >=? 0) = true) as -> by (apply Z.geb_le; lia).
  apply twp_bind, twp_core_disk.
  apply (twp_sendfile dst src data (overlay k data old)); [|done|lia|unfold MAX_SIZE; lia|..].
  { by rewrite (src_data_elsewhere _ dst f0). }
  { intros e d He Hd'. apply twp_ret. split; [apply same_but_disk_set|]. rewrite disk_set. split; [|done].
    rewrite Hd'. split; [done|]. by exists k. }
  intros chunk rest d. rewrite Nat2Z.id. intros Hdrop Hend Hd'.
  rewrite (splice_overlay k data old chunk rest Hdrop Hk) in Hd'.
  assert (length data - k = length chunk + length rest)%nat as Hlen.
  { rewrite <- length_app, <- Hdrop, length_drop. done. }
  apply twp_bind, twp_check_cancel. intros c s1 Hs1 Hf1. rewrite disk_set in Hf1.
  assert (same_but_disk s s1) as Hsame.
  { eapply same_but_disk_trans; [apply same_but_disk_set|exact Hs1]. }
  assert (elsewhere dst f0 (files (disk s1))) as Hel1.
  { intros p Hp. rewrite Hf1, Hd', lookup_insert_ne by done. by apply Hel. }
  assert (files (disk s1) !! dst = Some (NFile (overlay (k + length chunk) data old))) as Hdst.
  { by rewrite Hf1, Hd', lookup_insert_eq. }
  destruct c.
  { apply twp_ret. split; [done|]. split; [|done]. split; [done|]. exists (k + length chunk)%nat.
    split; [lia|done]. }
  destruct (Z.of_nat (length chunk) =? 0) eqn:E0; zbool.
  - assert (chunk = []) as -> by (destruct chunk; [done|cbn in E0; lia]). rewrite (Hend eq_refl) in *. cbn in *.
    apply twp_ret. rewrite Nat.add_0_r in Hdst. assert (k = length data) as -> by lia.
    split; [done|]. split; [split; [done|by exists (length data)]|]. split; [lia|].
    by rewrite overlay_all in Hdst.
  - replace (Z.of_nat k + Z.of_nat (length chunk)) with (Z.of_nat (k + length chunk)) by lia.
    replace (Z.of_nat (length data - k) - Z.of_nat (length chunk))
      with (Z.of_nat (length data - (k + length chunk))) by lia.
    eapply twp_mono; [apply IH; [lia|done|done|lia]|]. intros r s' (H1 & H2). split; [|done].
    by eapply same_but_disk_trans.
Qed.

(** What a copy reads. *)
Definition reads (i : FsFileInfos) (src : string) (f : tree) : option (list Z) :=
  if (authority (srcUri i) =? MEDIA)%string
  then match media_open (srcUri i) with inr data => Some data | inl _ => None end
  else match f !! resolve src with Some (NFile data) => Some data | _ => None end.

(** What was at the destination: a file, or nothing. *)
Definition had (q : path) (f : tree) (old : list Z) : Prop :=
  f !! q = Some (NFile old) ∨ f !! q = None ∧ old = [].

Record file_copied (i : FsFileInfos) (src dest : string) (f : tree) (ret : Z) (f' : tree) : Prop := {
  fc_else : elsewhere (resolve dest) f f';
  fc_dest : f' !! resolve dest = f !! resolve dest ∨
            ∃ old new, had (resolve dest) f old ∧ f' !! resolve dest = Some (NFile new);
  fc_done : ret = 0 → ∃ data old, reads i src f = Some data ∧ had (resolve dest) f old ∧
              f' !! resolve dest = Some (NFile (data ++ drop (length data) old))
}.

Lemma file_copied_same i src dest f ret : ret ≠ 0 → file_copied i src dest f ret f.
Proof. intros H. split; [done|by left|done]. Qed.

(** The source and destination are not the same file. *)
Definition distinct (i : FsFileInfos) (src dest : string) : Prop :=
  authority (srcUri i) = MEDIA ∨ resolve src ≠ resolve dest.

Lemma media_errors (i : FsFileInfos) e :
  (∀ u, media_open u ≠ inl 0) → media_open (srcUri i) = inl e → e ≠ 0.
Proof. intros H E ->. by apply H in E. Qed.

(** [SendFileCore] into a destination that holds [old]. *)
Lemma SendFileCore_spec src dst old f0 s :
  src ≠ FromPath dst → elsewhere dst f0 (files (disk s)) → files (disk s) !! dst = Some (NFile old) →
  twp (SendFileCore src dst) (λ ret s', same_but_disk s s' ∧ elsewhere dst f0 (files (disk s')) ∧
    (∃ new, files (disk s') !! dst = Some (NFile new)) ∧
    (ret = 0 → ∃ data, src_data src f0 = Some data ∧
       files (disk s') !! dst = Some (NFile (data ++ drop (length data) old)))) s.
Proof.
  intros Hne Hel Hd. apply twp_bind, twp_core_disk, twp_fcall.
  { intros e d _ Hf. cbn [fst snd negb] in *. apply twp_ret. rewrite disk_set, Hf.
    split; [apply same_but_disk_set|]. split_and!; [done|by eexists|done]. }
  intros d Hf. cbn [fst snd negb] in *. apply twp_bind, twp_core_disk, twp_fcall; rewrite disk_set.
  { intros e d2 (He & _) Hf2. cbn [fst snd] in *. apply twp_ret. rewrite disk_set, Hf2, Hf.
    split; [by eapply same_but_disk_trans; apply same_but_disk_set|]. split_and!; [done|by eexists|done]. }
  intros d2 Hf2. cbn [fst snd] in *. rewrite Hf in Hf2 |- *.
  assert (src_data src (files (disk s)) = src_data src f0) as Hs by by apply (src_data_elsewhere _ dst).
  rewrite Hs. destruct (src_data src f0) as [data|] eqn:Hdata.
  - apply twp_bind. rewrite Nat2Z.id. eapply twp_mono.
    { pose proof (SendFileCore_loop_spec (S (S (length data))) src dst data old f0 0
        ((s <| disk := d |>) <| disk := d2 |>) Hne Hdata) as H.
      rewrite Nat.sub_0_r in H. apply H; [lia|by rewrite disk_set, Hf2| |lia].
      rewrite disk_set, Hf2, Hd. done. }
    intros r s' (Hsame & (Hel' & k & _ & Hk) & Hr). apply twp_ret.
    split; [eapply same_but_disk_trans; [|exact Hsame]; eapply same_but_disk_trans; apply same_but_disk_set|].
    split; [done|]. split; [by eexists|]. destruct r as [e|size]; [done|].
    destruct Hr as [-> Hr]. intros _. by exists data.
  - (* nothing can be read: the first transfer fails *)
    apply twp_bind. cbn [SendFileCore_loop Z.to_nat]. change (0 >=? 0) with true. cbv iota.
    apply twp_bind, twp_core_disk. unfold twp, sendfile. rewrite disk_set. apply twp_fcall; rewrite Hf2.
    { intros e d3 (He & _) Hf3. cbn [fst snd] in *. apply twp_ret, twp_ret. rewrite disk_set, Hf3.
      split; [do 2 (eapply same_but_disk_trans; [apply same_but_disk_set|]); apply same_but_disk_set|].
      split_and!; [done|by eexists|done]. }
    intros d3 Hf3. rewrite Hs in *. cbn [fst snd] in *. apply twp_ret, twp_ret. rewrite disk_set, Hf3.
    split; [do 2 (eapply same_but_disk_trans; [apply same_but_disk_set|]); apply same_but_disk_set|].
    split_and!; [done|by eexists|done].
Qed.

Lemma twp_get_infos (Q : FsFileInfos → cstate → Prop) s : Q (infos s) s → twp get_infos Q s.
Proof. done. Qed.

(** The source is opened, or nothing happened. *)
Lemma OpenSrcFile_spec src (Q : Z + source → cstate → Prop) s :
  (∀ u, media_open u ≠ inl 0) →
  (∀ e s', e ≠ 0 → same_but_disk s s' → files (disk s') = files (disk s) → Q (inl e) s') →
  (∀ x s', same_but_disk s s' → files (disk s') = files (disk s) →
     src_data x (files (disk s)) = reads (infos s) src (files (disk s)) →
     (authority (srcUri (infos s)) = MEDIA ∨ x = FromPath (resolve src)) →
     (authority (srcUri (infos s)) = MEDIA → ∃ data, x = FromMedia data) → Q (inr x) s') →
  twp (OpenSrcFile src) Q s.
Proof.
  intros Hm Hb Hg. apply twp_bind, twp_get_infos. unfold reads in Hg.
  destruct (authority (srcUri (infos s)) =? MEDIA)%string eqn:Ea.
  - apply String.eqb_eq in Ea. apply twp_ret. destruct (media_open (srcUri (infos s))) as [e|data] eqn:Em.
    + apply Hb; [by eapply media_errors|apply same_but_disk_refl|done].
    + apply Hg; [apply same_but_disk_refl|done|done|by left|by eexists].
  - apply String.eqb_neq in Ea. apply twp_bind, twp_core_disk, twp_fcall.
    + intros e d (He & _) Hf. apply twp_ret, Hb; [done|apply same_but_disk_set|by rewrite disk_set].
    + intros d Hf. cbn [fst snd] in *. apply twp_ret.
      destruct (files (disk s) !! resolve src) as [[data| |]|] eqn:Es.
      * apply Hg; [apply same_but_disk_set|by rewrite disk_set|cbn; by rewrite Es|by right|done].
      * apply Hg; [apply same_but_disk_set|by rewrite disk_set|cbn; by rewrite Es|by right|done].
      * apply Hb; [done|apply same_but_disk_set|by rewrite disk_set].
      * apply Hb; [done|apply same_but_disk_set|by rewrite disk_set].
Qed.

Lemma core_CopyFile_spec src dest s :
  (∀ u, media_open u ≠ inl 0) → distinct (infos s) src dest →
  twp (CopyFile src dest) (λ ret s', same_but_disk s s' ∧
    file_copied (infos s) src dest (files (disk s)) ret (files (disk s'))) s.
Proof.
  intros Hm Hne. apply twp_bind, OpenSrcFile_spec; [done| |].
  { intros e s1 He H1 Hf1. apply twp_ret. rewrite Hf1. split; [done|by apply file_copied_same]. }
  intros x s1 H1 Hf1 Hx Hpath Hmedia. apply twp_bind, twp_core_disk, twp_fcall; rewrite Hf1.
  { intros e d (He & _) Hf. cbn [fst snd] in *. apply twp_ret. rewrite disk_set, Hf.
    split; [eapply same_but_disk_trans; [exact H1|apply same_but_disk_set]|by apply file_copied_same]. }
  set (q := resolve dest) in *. set (f := files (disk s)) in *.
  assert (x ≠ FromPath q) as Hxq.
  { destruct Hne as [Ha|Hp]; [destruct (Hmedia Ha) as [data ->]; done|].
    destruct Hpath as [Ha| ->]; [destruct (Hmedia Ha) as [data ->]; done|]. intros [= E]. by apply Hp. }
  (* the destination is open *)
  assert (Hgo : ∀ old d, had q f old → elsewhere q f (files d) → files d !! q = Some (NFile old) →
    twp (ptr ← on_disk alloc; if negb ptr then sret ENOMEM else SendFileCore x q)
      (λ ret s', same_but_disk s s' ∧ file_copied (infos s) src dest f ret (files (disk s'))) (s1 <| disk := d |>)).
  { intros old d Hold Hel Hd. apply twp_bind, twp_core_disk, twp_fcall; rewrite disk_set.
    - intros e d2 _ Hf2. cbn [fst snd negb] in *. apply twp_ret. rewrite disk_set, Hf2.
      split; [eapply same_but_disk_trans; [exact H1|]; eapply same_but_disk_trans; apply same_but_disk_set|].
      split; [done|right; by eexists _, _|done].
    - intros d2 Hf2. cbn [fst snd negb] in *. eapply twp_mono.
      { apply (SendFileCore_spec x q old f); [done|by rewrite disk_set, Hf2..]. }
      intros ret s' (Hs' & Hel' & [new Hnew] & Hok).
      split; [eapply same_but_disk_trans; [exact H1|]; eapply same_but_disk_trans; [|exact Hs'];
        eapply same_but_disk_trans; apply same_but_disk_set|].
      split; [done|right; by eexists _, _|]. intros E. destruct (Hok E) as (data & Hdata & Hdone).
      exists data, old. rewrite Hx in Hdata. by split_and!. }
  intros d. fold q. destruct (f !! q) as [[old| |]|] eqn:Eq; cbn [fst snd]; intros Hf.
  - apply (Hgo old); [by left|by rewrite Hf|by rewrite Hf].
  - apply twp_ret. rewrite disk_set, Hf.
    split; [eapply same_but_disk_trans; [exact H1|apply same_but_disk_set]|by apply file_copied_same].
  - apply twp_ret. rewrite disk_set, Hf.
    split; [eapply same_but_disk_trans; [exact H1|apply same_but_disk_set]|by apply file_copied_same].
  - destruct (is_dir f (removelast q) && bool_decide (q ≠ [])); cbn [fst snd] in *.
    + apply (Hgo []); [by right|rewrite Hf; intros p Hp; by rewrite lookup_insert_ne|by rewrite Hf, lookup_insert_eq].
    + apply twp_ret. rewrite disk_set, Hf.
      split; [eapply same_but_disk_trans; [exact H1|apply same_but_disk_set]|by apply file_copied_same].
Qed.
End file_specs.

(** ** What copying a directory does *)
Section tree_specs.
Context {FE : FsEnv} {CE : CopyEnv}.

(** What the copy itself leaves as it is. *)
Definition fixed_part (i : FsFileInfos) : FsFileInfos :=
  i <| filePaths := ∅ |> <| srcPath := "" |> <| destPath := "" |>.
Definition fds (c : FsCallbackObject) : Z * Z * bool := (cb_notifyFd c, cb_eventFd c, listener c).

Definition light (s s' : cstate) : Prop :=
  fixed_part (infos s') = fixed_part (infos s) ∧ fds <$> callbackMap s' = fds <$> callbackMap s ∧
  reports s' = reports s ∧ open_fds s' = open_fds s ∧ remote_marked s' = remote_marked s ∧
  delete (key (infos s)) (callbackMap s') = delete (key (infos s)) (callbackMap s).

Lemma fixed_key i j : fixed_part i = fixed_part j → key i = key j.
Proof. intros H. unfold key. by rewrite (f_equal srcUri H : srcUri i = srcUri j), (f_equal destUri H : destUri i = destUri j). Qed.

Lemma light_refl s : light s s.
Proof. by split_and!. Qed.
Lemma light_trans s1 s2 s3 : light s1 s2 → light s2 s3 → light s1 s3.
Proof.
  intros (H1&H2&H3&H4&H5&H6) (K1&K2&K3&K4&K5&K6). unfold light. rewrite (fixed_key _ _ H1) in K6.
  split_and!; etrans; eassumption.
Qed.
Lemma same_light s s' : same_but_disk s s' → light s s'.
Proof. unfold same_but_disk. intros ->. by split_and!. Qed.

Lemma light_srcUri s s' : light s s' → srcUri (infos s') = srcUri (infos s).
Proof. intros (H & _). by apply (f_equal srcUri) in H. Qed.

(** The watches of a callback object do not matter. *)
Lemma light_alter s g :
  (∀ c, fds (g c) = fds c) → light s (s <| callbackMap := alter g (key (infos s)) (callbackMap s) |>).
Proof.
  intros Hg. split_and!; [done| |done..|].
  - change (callbackMap (s <| callbackMap := ?m |>)) with m. apply map_eq. intros k. rewrite !lookup_fmap.
    destruct (decide (k = key (infos s))) as [->|Hk]; [|by rewrite lookup_alter_ne].
    rewrite lookup_alter_eq. destruct (callbackMap s !! _); [|done]. cbn. by rewrite Hg.
  - change (callbackMap (s <| callbackMap := ?m |>)) with m. apply map_eq. intros k.
    destruct (decide (k = key (infos s))) as [->|Hk]; [by rewrite !lookup_delete_eq|].
    by rewrite !lookup_delete_ne, lookup_alter_ne.
Qed.

(** A step on the disk that leaves its files. *)
Definition idle (s s' : cstate) : Prop := light s s' ∧ files (disk s') = files (disk s).
Lemma idle_refl s : idle s s.
Proof. split; [apply light_refl|done]. Qed.
Lemma idle_trans s1 s2 s3 : idle s1 s2 → idle s2 s3 → idle s1 s3.
Proof. intros [H1 E1] [H2 E2]. split; [by eapply light_trans|congruence]. Qed.
Lemma idle_disk s d : files d = files (disk s) → idle s (s <| disk := d |>).
Proof. intros H. split; [apply same_light, same_but_disk_set|exact H]. Qed.

Lemma twp_alloc (Q : bool → cstate → Prop) s : (∀ b s', idle s s' → Q b s') → twp (on_disk alloc) Q s.
Proof.
  intros HQ. apply twp_core_disk, twp_fcall; [intros e d _ Hd|intros d Hd]; apply HQ; by apply idle_disk.
Qed.

Lemma twp_watch_dir p (Q : Z → cstate → Prop) s :
  (∀ r s', idle s s' → Q r s') → twp (watch_dir p) Q s.
Proof.
  intros HQ. apply twp_bind, twp_get_infos. destruct (notifyFd (infos s) >=? 0); [|apply twp_ret, HQ, idle_refl].
  apply twp_bind, twp_kernel. intros r s1 H1 Hf1.
  assert (idle s s1) as Hi1 by (split; [by apply same_light|done]).
  destruct r as [e|wd]; [by apply twp_ret, HQ|].
  apply twp_bind. change (twp find_callback ?R s1) with (R (callbackMap s1 !! key (infos s1)) s1). cbv beta.
  apply twp_bind, twp_alloc. intros b s2 Hi2. pose proof (idle_trans _ _ _ Hi1 Hi2) as Hi.
  destruct b; cbn [negb]; [|by apply twp_ret, HQ].
  destruct (callbackMap s1 !! key (infos s1)); [|by apply twp_ret, HQ].
  apply twp_bind. change (twp (set_callback ?g) ?R s2)
    with (R tt (s2 <| callbackMap := alter g (key (infos s2)) (callbackMap s2) |>)). cbv beta.
  apply twp_ret, HQ. eapply idle_trans; [exact Hi|]. split; [|done]. by apply light_alter.
Qed.

(** What is below [s] arrived below [d]: directories are there, files were written over what
    was there. *)
Definition copied_below (s d : path) (f f' : tree) : Prop :=
  ∀ r y, f !! (s ++ r) = Some y →
    match y with
    | NFile data => ∃ old, had (d ++ r) f old ∧ f' !! (d ++ r) = Some (NFile (data ++ drop (length data) old))
    | NDir => is_Some (f' !! (d ++ r))
    | NSpecial => True
    end.

(** Nothing is removed, and directories and files stay what they are. *)
Definition stays (f f' : tree) : Prop :=
  (∀ p, f !! p = Some NDir → f' !! p = Some NDir) ∧
  (∀ p old, f !! p = Some (NFile old) → ∃ new, f' !! p = Some (NFile new)).

Record tree_copied (s d : path) (f : tree) (ret : Z) (f' : tree) : Prop := {
  tc_frame p : ¬ d `prefix_of` p → f' !! p = f !! p;
  tc_stays : stays f f';
  tc_done : ret = 0 → copied_below s d f f'
}.

Lemma stays_refl f : stays f f.
Proof. split; [done|eauto]. Qed.
Lemma stays_trans f1 f2 f3 : stays f1 f2 → stays f2 f3 → stays f1 f3.
Proof. intros [H1 H2] [H3 H4]. split; [by auto|]. intros p old Hp. destruct (H2 p old Hp) as [new ?]. eauto. Qed.

Lemma tree_copied_same s d f ret : ret ≠ 0 → tree_copied s d f ret f.
Proof. intros H. split; [done|apply stays_refl|done]. Qed.

(** One file, as a tree. *)
Lemma file_tree_copied i src dest f ret f' :
  wf_below (resolve src) f → authority (srcUri i) ≠ MEDIA → f !! resolve src ≠ Some NDir →
  file_copied i src dest f ret f' → tree_copied (resolve src) (resolve dest) f ret f'.
Proof.
  intros Hwf Ha Hleaf [Hel Hd Hok]. split.
  - intros p Hp. apply Hel. by intros ->.
  - split.
    + intros p Hp. destruct (decide (p = resolve dest)) as [->|Hne]; [|by rewrite Hel].
      destruct Hd as [->|(old & new & [Hh|[Hh _]] & _)]; [done|congruence..].
    + intros p old Hp. destruct (decide (p = resolve dest)) as [->|Hne]; [|rewrite Hel by done; eauto].
      destruct Hd as [->|(old' & new & _ & Hh)]; eauto.
  - intros E r y Hy. destruct (Hok E) as (data & old & Hr & Hh & Hn). unfold reads in Hr.
    apply String.eqb_neq in Ha as Ea. rewrite Ea in Hr.
    assert (r = []) as -> by (apply (wf_below_leaf (resolve src) f); [done..|by eexists]).
    rewrite app_nil_r in *. rewrite Hy in Hr. destruct y as [data'| |]; simplify_eq. by exists old.
Qed.

(** What the recursive calls guarantee for trees less than [n] deep. *)
Definition rec_ok (n : nat) (rec : string → string → st cstate Z) : Prop :=
  ∀ src dest s, apart (resolve src) (resolve dest) → wf_below (resolve src) (files (disk s)) →
    wf_below (resolve dest) (files (disk s)) → authority (srcUri (infos s)) ≠ MEDIA →
    files (disk s) !! resolve src = Some NDir → is_Some (files (disk s) !! resolve dest) →
    deep (resolve src) (files (disk s)) n →
    twp (rec src dest) (λ ret s', light s s' ∧
      tree_copied (resolve src) (resolve dest) (files (disk s)) ret (files (disk s'))) s.

Lemma tree_copied_made s d f ret f' :
  apart s d → f !! s = Some NDir → f !! d = None →
  tree_copied s d (<[d := NDir]> f) ret f' → tree_copied s d f ret f'.
Proof.
  intros Ha Hs Hd [Hfr [Hst1 Hst2] Hok].
  assert (∀ p, p ≠ d → <[d := NDir]> f !! p = f !! p) as Hout by (intros p Hp; by apply lookup_insert_ne).
  split.
  - intros p Hp. rewrite Hfr by done. apply Hout. by intros ->.
  - split.
    + intros p Hp. apply Hst1. rewrite Hout; [done|]. intros ->. congruence.
    + intros p old Hp. eapply Hst2. rewrite Hout; [exact Hp|]. intros ->. congruence.
  - intros E r y Hy. assert (s ++ r ≠ d) as Hne.
    { intros E'. apply (apart_sub d s r (apart_sym _ _ Ha)). by rewrite E'. }
    specialize (Hok E r y). rewrite Hout in Hok by done. specialize (Hok Hy). destruct y; [|done..].
    destruct Hok as (old & Hh & Hn). exists old. split; [|done]. unfold had in *.
    destruct r as [|m r]; [rewrite app_nil_r in Hy; congruence|].
    rewrite Hout in Hh; [done|]. intros E'. apply (f_equal length) in E'. rewrite length_app in E'. cbn in E'. lia.
Qed.

(** A destination directory that is there or made. *)
Lemma twp_make (destPath : string) (Q : Z → cstate → Prop) s :
  (∀ e s', e ≠ 0 → idle s s' → Q e s') →
  (∀ s', is_Some (files (disk s) !! resolve destPath) → idle s s' → Q 0 s') →
  (∀ s', files (disk s) !! resolve destPath = None → light s s' →
     files (disk s') = <[resolve destPath := NDir]> (files (disk s)) → Q 0 s') →
  twp ('(ex, errCode) ← on_disk (exists_ destPath);
       (if negb ex && (errCode =? ERRNO_NOERR) then MakeDir destPath
        else sret (if negb (errCode =? ERRNO_NOERR) then errCode else ERRNO_NOERR))) Q s.
Proof.
  intros Hb Hs Hn. apply twp_bind, twp_core_disk, twp_exists.
  - intros e d (He & _) Hd. apply Z.eqb_neq in He as E0. unfold ERRNO_NOERR. rewrite E0.
    cbn. apply twp_ret, Hb; [done|by apply idle_disk].
  - intros d Hd. destruct (bool_decide _) eqn:Ex; cbn [negb andb]; change (0 =? ERRNO_NOERR) with true;
      cbn [negb]; cbv iota.
    + apply bool_decide_eq_true in Ex. apply twp_ret, Hs; [done|by apply idle_disk].
    + apply bool_decide_eq_false, eq_None_not_Some in Ex.
      assert (∀ d2, files d2 = files (disk s) → idle s ((s <| disk := d |>) <| disk := d2 |>)) as Hidle.
      { intros d2 H2. apply (idle_trans _ (s <| disk := d |>)); [by apply idle_disk|].
        apply idle_disk. rewrite disk_set. congruence. }
      apply twp_bind, twp_core_disk, twp_fcall; rewrite disk_set, Hd; cbn [fst snd].
      * intros e d2 (He & _) H2. apply twp_ret. cbn [negb]. by apply Hb, Hidle.
      * unfold mkdir_body. rewrite Ex. intros d2 H2. apply twp_ret.
        destruct (is_dir _ _ && _); cbn [fst snd negb] in *.
        -- apply Hn; [done| |by rewrite disk_set]. eapply light_trans; apply same_light, same_but_disk_set.
        -- by apply Hb, Hidle.
Qed.

Lemma core_CopySubDir_spec n rec : rec_ok n rec → ∀ src dest s,
  apart (resolve src) (resolve dest) → wf_below (resolve src) (files (disk s)) →
  wf_below (resolve dest) (files (disk s)) → authority (srcUri (infos s)) ≠ MEDIA →
  files (disk s) !! resolve src = Some NDir → deep (resolve src) (files (disk s)) n →
  twp (CopySubDir rec src dest) (λ ret s', light s s' ∧
    tree_copied (resolve src) (resolve dest) (files (disk s)) ret (files (disk s'))) s.
Proof.
  intros Hrec src dest s Ha Hws Hwd Hau Hs Hdeep. unfold CopySubDir.
  assert (Hassoc : ∀ k (s0 : cstate),
    bind (on_disk (exists_ dest)) (λ '(ex, errCode),
      bind (if negb ex && (errCode =? ERRNO_NOERR) then MakeDir dest
            else sret (if negb (errCode =? ERRNO_NOERR) then errCode else ERRNO_NOERR)) k) s0
    = bind (bind (on_disk (exists_ dest)) (λ '(ex, errCode),
      if negb ex && (errCode =? ERRNO_NOERR) then MakeDir dest
      else sret (if negb (errCode =? ERRNO_NOERR) then errCode else ERRNO_NOERR))) (k : Z → st cstate Z) s0).
  { intros k s0. unfold bind at 1 3 4. by destruct (on_disk (exists_ dest) s0) as [[[ex e] s1]|]. }
  unfold twp at 1. rewrite Hassoc. clear Hassoc. apply twp_bind, twp_make.
  - intros e s1 He [Hl1 Hf1]. apply Z.eqb_neq in He as E0. unfold ERRNO_NOERR. rewrite E0. apply twp_ret.
    rewrite Hf1. split; [done|by apply tree_copied_same].
  - intros s1 Hd H1. cbn. apply twp_bind, twp_watch_dir. intros r s2 H2.
    destruct (idle_trans _ _ _ H1 H2) as [Hl2 Hf2]. unfold ERRNO_NOERR. destruct (r =? 0) eqn:Er; zbool; cbn [negb].
    2: { apply twp_ret. rewrite Hf2. split; [done|by apply tree_copied_same]. }
    rewrite <- Hf2 in *. eapply twp_mono; [apply Hrec; try done; by rewrite (light_srcUri _ _ Hl2)|].
    intros ret s3 [Hl3 Ht]. split; [by eapply light_trans|done].
  - intros s1 Hd Hl1 Hf1. cbn. apply twp_bind, twp_watch_dir. intros r s2 [Hl2 Hf2].
    assert (∀ r, <[resolve dest := NDir]> (files (disk s)) !! (resolve src ++ r) = files (disk s) !! (resolve src ++ r)) as Hsub.
    { intros k. apply lookup_insert_ne. intros E. by apply (apart_sub _ _ k (apart_sym _ _ Ha)); rewrite <- E. }
    rewrite Hf1 in Hf2. pose proof (light_trans _ _ _ Hl1 Hl2) as Hl.
    unfold ERRNO_NOERR. destruct (r =? 0) eqn:Er; zbool; cbn [negb].
    2: { apply twp_ret. split; [done|]. rewrite Hf2. apply tree_copied_made; [done..|by apply tree_copied_same]. }
    eapply twp_mono.
    { apply Hrec; [done|rewrite Hf2; by eapply wf_below_ext| |by rewrite (light_srcUri _ _ Hl)| | |].
      - rewrite Hf2. intros k m Hk. exfalso. rewrite lookup_insert_ne in Hk.
        + apply (wf_below_leaf _ _ _ Hwd) in Hk; [by destruct k|by rewrite Hd].
        + intros E. apply (f_equal length) in E. rewrite !length_app in E. cbn in E. lia.
      - rewrite Hf2. specialize (Hsub []). rewrite app_nil_r in Hsub. by rewrite Hsub.
      - rewrite Hf2, lookup_insert_eq. by eexists.
      - rewrite Hf2. by eapply deep_ext. }
    intros ret s3 [Hl3 Ht]. split; [by eapply light_trans|]. rewrite Hf2 in Ht. by apply tree_copied_made.
Qed.

(** The entries [ns] of [s] copied to [d]. *)
Record loop_copied (s d : path) (ns : list string) (f : tree) (ret : Z) (f' : tree) : Prop := {
  lc_frame p : (∀ n, n ∈ ns → ¬ d ++ [n] `prefix_of` p) → f' !! p = f !! p;
  lc_stays : stays f f';
  lc_done n : n ∈ ns → ret = 0 → copied_below (s ++ [n]) (d ++ [n]) f f'
}.

Lemma copied_below_ext s d f1 f f1' f' :
  (∀ r, f1 !! (s ++ r) = f !! (s ++ r)) → (∀ r, f1 !! (d ++ r) = f !! (d ++ r)) →
  (∀ r, f1' !! (d ++ r) = f' !! (d ++ r)) → copied_below s d f1 f1' → copied_below s d f f'.
Proof.
  intros Es Ed Ed' H r y Hy. rewrite <- Es in Hy. specialize (H r y Hy). rewrite Ed' in H.
  destruct y; [|done..]. unfold had in *. by rewrite <- Ed.
Qed.

Lemma tree_sibling s d n m f ret f1 r :
  apart s d → n ≠ m → tree_copied (s ++ [n]) (d ++ [n]) f ret f1 →
  f1 !! ((s ++ [m]) ++ r) = f !! ((s ++ [m]) ++ r) ∧ f1 !! ((d ++ [m]) ++ r) = f !! ((d ++ [m]) ++ r).
Proof.
  intros Ha Hne H. destruct (sibling_frame s d n m r Ha Hne) as [[H1 H2] [H3 H4]].
  rewrite <- !app_assoc. split; by apply (tc_frame _ _ _ _ _ H).
Qed.

Lemma loop_copied_cons s d n ns f f1 ret f' :
  apart s d → n ∉ ns → tree_copied (s ++ [n]) (d ++ [n]) f 0 f1 →
  loop_copied s d ns f1 ret f' → loop_copied s d (n :: ns) f ret f'.
Proof.
  intros Ha Hn He [Hfr2 Hst2 Hok2]. pose proof He as [Hfr Hst Hok].
  assert (∀ m r, m ∈ ns → f1 !! ((s ++ [m]) ++ r) = f !! ((s ++ [m]) ++ r)
                        ∧ f1 !! ((d ++ [m]) ++ r) = f !! ((d ++ [m]) ++ r)) as Hsib.
  { intros m r Hm. eapply tree_sibling; [done| |exact He]. by intros ->. }
  assert (∀ r, f' !! ((d ++ [n]) ++ r) = f1 !! ((d ++ [n]) ++ r)) as Hd.
  { intros r. apply Hfr2. intros m Hm. apply apart_sub, apart_siblings. by intros ->. }
  split.
  - intros p Hp. rewrite Hfr2; [|intros m Hm; apply Hp; by right]. apply Hfr, Hp. by left.
  - by eapply stays_trans.
  - intros m [->|Hm]%elem_of_cons Hr.
    + apply (copied_below_ext _ _ f f f1 f'); [done|done| |by apply Hok]. intros r. by rewrite Hd.
    + apply (copied_below_ext _ _ f1 f f' f'); [| |done|by apply Hok2]; intros r; by apply (Hsib m r).
Qed.

Lemma loop_copied_stop s d n ns f ret f1 :
  ret ≠ 0 → tree_copied (s ++ [n]) (d ++ [n]) f ret f1 → loop_copied s d (n :: ns) f ret f1.
Proof.
  intros Hr [Hfr Hst _]. split; [|done|done]. intros p Hp. apply Hfr, Hp. by left.
Qed.

(** What is known of an entry before it is copied. *)
Definition entry_ready (s d : path) (n : nat) (f : tree) (e : dirent) : Prop :=
  valid_name (d_name e) ∧ wf_below (s ++ [d_name e]) f ∧ wf_below (d ++ [d_name e]) f ∧
  (d_type e = DT_DIR ↔ f !! (s ++ [d_name e]) = Some NDir) ∧
  (d_type e = DT_DIR → deep (s ++ [d_name e]) f n) ∧
  (d_type e = DT_LNK → f !! (s ++ [d_name e]) = Some NSpecial).

Lemma core_ready_ext s d n f f' e :
  (∀ r, f' !! ((s ++ [d_name e]) ++ r) = f !! ((s ++ [d_name e]) ++ r)) →
  (∀ r, f' !! ((d ++ [d_name e]) ++ r) = f !! ((d ++ [d_name e]) ++ r)) →
  entry_ready s d n f e → entry_ready s d n f' e.
Proof.
  intros E Ed (H1 & H2 & H3 & H4 & H5 & H6). pose proof (E []) as E0. rewrite app_nil_r in E0.
  split; [done|]. split; [by eapply wf_below_ext|]. split; [by eapply wf_below_ext|]. rewrite E0.
  split; [done|]. split; [|done]. intros Hd. eapply deep_ext; [exact E|by apply H5].
Qed.

Lemma core_CopyEntries_spec n rec src dest ns s :
  (∀ u, media_open u ≠ inl 0) → rec_ok n rec → apart (resolve src) (resolve dest) → NoDup (d_name <$> ns) →
  authority (srcUri (infos s)) ≠ MEDIA →
  Forall (entry_ready (resolve src) (resolve dest) n (files (disk s))) ns →
  twp (CopyEntries rec src dest ns) (λ ret s', light s s' ∧
    loop_copied (resolve src) (resolve dest) (d_name <$> ns) (files (disk s)) ret (files (disk s'))) s.
Proof.
  intros Hm Hrec Ha. revert s. induction ns as [|e ns IH]; intros s Hnd Hau Hready.
  { apply twp_ret. split; [apply light_refl|]. split; [done|apply stays_refl|]. intros m Hm'. by apply elem_of_nil in Hm'. }
  cbn [fmap list_fmap] in *. apply NoDup_cons in Hnd as [Hn Hnd].
  apply Forall_cons in Hready as [(Hv & Hws & Hwd & Hty & Hdeep & Hlnk) Hready].
  pose proof (resolve_entry src _ Hv) as Es. pose proof (resolve_entry dest _ Hv) as Ed.
  assert (Ha' : apart (resolve src ++ [d_name e]) (resolve dest ++ [d_name e])) by by apply apart_below.
  (* once the entry is copied *)
  assert (Hgo : ∀ s1, light s s1 →
    tree_copied (resolve src ++ [d_name e]) (resolve dest ++ [d_name e]) (files (disk s)) 0 (files (disk s1)) →
    twp (CopyEntries rec src dest ns) (λ ret s', light s s' ∧
      loop_copied (resolve src) (resolve dest) (d_name e :: (d_name <$> ns)) (files (disk s)) ret (files (disk s'))) s1).
  { intros s1 Hl He. eapply twp_mono; [apply IH; [done|by rewrite (light_srcUri _ _ Hl)|]|].
    - rewrite Forall_forall in Hready |- *. intros e' Hin.
      assert (d_name e ≠ d_name e') as Hne by (intros E; apply Hn, list_elem_of_fmap; by exists e').
      eapply core_ready_ext; [| |by apply Hready]; intros r; by apply (tree_sibling _ _ _ _ _ _ _ r Ha Hne He).
    - intros ret s' [Hl' Hc]. split; [by eapply light_trans|by eapply loop_copied_cons]. }
  cbn [CopyEntries]. destruct (decide (d_type e = DT_LNK)) as [El|El];
    [rewrite (bool_decide_eq_true_2 _ El)|rewrite (bool_decide_eq_false_2 _ El)].
  { apply Hgo; [apply light_refl|]. split; [done|apply stays_refl|]. intros _ r y Hy.
    assert (r = []) as ->.
    { apply (wf_below_leaf (resolve src ++ [d_name e]) (files (disk s))); [done|by rewrite (Hlnk El)|by eexists]. }
    rewrite app_nil_r, (Hlnk El) in Hy. by injection Hy as <-. }
  (* whichever way it is copied *)
  assert (Hret : ∀ ret s1, light s s1 →
    tree_copied (resolve src ++ [d_name e]) (resolve dest ++ [d_name e]) (files (disk s)) ret (files (disk s1)) →
    twp (if negb (ret =? ERRNO_NOERR) then sret ret else CopyEntries rec src dest ns) (λ ret s', light s s' ∧
      loop_copied (resolve src) (resolve dest) (d_name e :: (d_name <$> ns)) (files (disk s)) ret (files (disk s'))) s1).
  { intros ret s1 Hl Ht. unfold ERRNO_NOERR. destruct (ret =? 0) eqn:Er; zbool; cbn [negb].
    - subst ret. by apply Hgo.
    - apply twp_ret. split; [done|by apply loop_copied_stop]. }
  apply twp_bind. destruct (decide (d_type e = DT_DIR)) as [Hd|Hd];
    [rewrite (bool_decide_eq_true_2 _ Hd)|rewrite (bool_decide_eq_false_2 _ Hd)].
  - eapply twp_mono.
    { apply (core_CopySubDir_spec n rec Hrec); rewrite ?Es, ?Ed; try done; [by apply Hty|by apply Hdeep]. }
    rewrite Es, Ed. intros ret s1 [Hl Ht]. by apply Hret.
  - apply twp_bind. change (twp (set_infos ?g) ?R s) with (R tt (s <| infos := g (infos s) |>)). cbv beta.
    set (s0 := s <| infos := _ |>). assert (light s s0) as Hl0 by (by split_and!).
    change (files (disk s)) with (files (disk s0)) in *. eapply twp_mono.
    { apply core_CopyFile_spec; [done|]. right. rewrite Es, Ed. intros E. rewrite E in Ha'. by destruct Ha' as [[] _]. }
    intros ret s1 [Hsame Hc]. apply Hret; [eapply light_trans; [exact Hl0|by apply same_light]|].
    rewrite <- Es, <- Ed. eapply file_tree_copied; [by rewrite Es|by rewrite (light_srcUri _ _ Hl0)| |exact Hc].
    rewrite Es. intros H. by apply Hd, Hty.
Qed.

Lemma loop_tree_copied s d l f ret f' :
  apart s d → wf_below s f → f !! s = Some NDir → is_Some (f !! d) → listed f s FilterFunc l →
  loop_copied s d (d_name <$> l) f ret f' → tree_copied s d f ret f'.
Proof.
  intros Ha Hwf Hdir Hd (_ & _ & Hall) [Hfr Hst Hok]. split; [|done|].
  - intros p Hp. apply Hfr. intros n _ Hp'. apply Hp. etrans; [|exact Hp']. by eexists.
  - intros Hr r y Hy. destruct r as [|m r].
    { rewrite !app_nil_r in *. rewrite Hdir in Hy. injection Hy as <-. rewrite Hfr; [done|].
      intros n _ Hp%prefix_length. rewrite length_app in Hp. cbn in Hp. lia. }
    assert (m ∈ d_name <$> l) as Hm.
    { destruct (wf_below_first s f m r Hwf) as [z Hz]; [by eexists|].
      apply Hall; [apply elem_of_names; by eexists|].
      destruct (Hwf [] m) as [_ ((_ & H1 & H2) & _)]; [by eexists|].
      unfold FilterFunc. apply String.eqb_neq in H1 as ->, H2 as ->. done. }
    specialize (Hok m Hm Hr r y). rewrite <- !app_assoc in Hok. exact (Hok Hy).
Qed.

Definition types_reported : Prop := ∀ p, fs_dtype p = true.

Lemma entry_type_link f p : entry_type f p = DT_LNK → f !! p = Some NSpecial.
Proof. unfold entry_type. destruct (fs_dtype p), (f !! p) as [[]|]; naive_solver. Qed.

Lemma core_RecurCopyDir_spec n :
  (∀ u, media_open u ≠ inl 0) → never_fails F_scandir → types_reported → rec_ok n (RecurCopyDir n).
Proof.
  intros Hm Hscan Hty. induction n as [|n IH]; intros src dest s Ha Hws Hwd Hau Hdir Hd Hdeep.
  { destruct Hdeep as [H0 _]. lia. }
  cbn [RecurCopyDir]. apply twp_bind, twp_alloc. intros b s1 [Hl1 Hf1]. destruct b; cbn [negb].
  2: { apply twp_ret. rewrite Hf1. split; [done|by apply tree_copied_same]. }
  rewrite <- Hf1 in *. apply twp_bind, twp_core_disk, twp_scandir_types; [done| |].
  { intros e d _ [(He & _ & _ & k & Hk)|[_ He]]; [by rewrite (Hscan k) in Hk|done]. }
  intros l d Hfd _ Hl. assert (light s (s1 <| disk := d |>)) as Hl2.
  { eapply light_trans; [exact Hl1|apply same_light, same_but_disk_set]. }
  rewrite <- Hfd in *. change (files d) with (files (disk (s1 <| disk := d |>))) in *.
  eapply twp_mono.
  - apply (core_CopyEntries_spec n); [done|done|done|apply Hl|by rewrite (light_srcUri _ _ Hl2)|].
    apply Forall_forall. intros e He. destruct Hl as (_ & Hin & _).
    destruct (Hin e He) as [Hf [Hdot|[Hnm Ht]]].
    { exfalso. unfold FilterFunc in Hf. set_unfold in Hdot. by destruct Hdot as [E|[E|[]]]; rewrite E in Hf. }
    apply elem_of_names in Hnm as Hsome. destruct (Hws [] (d_name e) Hsome) as [_ Hv].
    split; [exact Hv|]. do 2 (split; [by apply wf_below_sub|]). split; [|split].
    + rewrite Ht. split; [apply entry_type_dir|]. intros E. unfold entry_type. by rewrite Hty, E.
    + intros E. destruct Hdeep as [_ Hdeep]. split.
      * specialize (Hdeep [d_name e]). cbn in Hdeep. apply Nat.succ_lt_mono, Hdeep. done.
      * intros r. rewrite <- app_assoc. intros Hr%Hdeep. cbn in Hr. lia.
    + rewrite Ht. apply entry_type_link.
  - intros ret s3 [Hl3 Hc]. split; [by eapply light_trans|]. by eapply loop_tree_copied.
Qed.

(** [ExecCopy] of a directory. *)
Definition target_dir (src dest : string) : string :=
  let parent := parent_elems (with_slash src) in
  child (with_slash dest) (match parent with [] => "" | _ => let n := List.last parent "" in
                             if (n =? "/")%string then "" else n end).

Lemma resolve_with_slash p : resolve (with_slash p) = resolve p.
Proof.
  unfold with_slash. destruct (ends_with_slash p); [done|]. change (p +:+ "/") with (child p "").
  rewrite resolve_child. apply app_nil_r.
Qed.
End tree_specs.

(** ** What every copy leaves behind *)
Section cleanup.
Context {FE : FsEnv} {CE : CopyEnv}.

(** A part of the copy that changes the disk, the watches and the list of files only. *)
Definition lightly {A} (m : st cstate A) : Prop := ∀ s, wp m (λ _ s', light s s') s.

Lemma lightly_ret {A} (a : A) : lightly (sret a).
Proof. intros s. apply wp_ret, light_refl. Qed.
Lemma lightly_bind {A B} (m : st cstate A) (f : A → st cstate B) :
  lightly m → (∀ a, lightly (f a)) → lightly (bind m f).
Proof.
  intros Hm Hf s. apply wp_bind. eapply wp_mono; [|apply Hm]. intros a s1 H1.
  eapply wp_mono; [|apply Hf]. intros b s2. by apply light_trans.
Qed.
Lemma lightly_on_disk {A} (m : st fstate A) : lightly (on_disk m).
Proof.
  intros s. unfold wp, on_disk. destruct (m (disk s)) as [[a d]|]; [|done]. apply same_light, same_but_disk_set.
Qed.
Lemma lightly_kernel {A} (f : nat → A) : lightly (kernel f).
Proof. intros s. apply same_light, same_but_disk_set. Qed.
Lemma lightly_get_infos : lightly get_infos.
Proof. intros s. apply light_refl. Qed.
Lemma lightly_find : lightly find_callback.
Proof. intros s. apply light_refl. Qed.
Lemma lightly_callback g : (∀ c, fds (g c) = fds c) → lightly (set_callback g).
Proof. intros Hg s. by apply light_alter. Qed.
Lemma lightly_paths g : lightly (set_infos (λ i, i <| filePaths := g i |>)).
Proof. intros s. by split_and!. Qed.
Lemma lightly_none {A} : lightly (λ _, None : option (A * cstate)).
Proof. done. Qed.

Create HintDb light.
Hint Resolve lightly_ret lightly_on_disk lightly_kernel lightly_get_infos lightly_find lightly_paths lightly_none : light.

Ltac lightly :=
  repeat first [ progress eauto with light | apply lightly_bind; [|intros ?] | case_match ].

Lemma lightly_check_cancel : lightly check_cancel.
Proof. unfold check_cancel. lightly. Qed.
Hint Resolve lightly_check_cancel : light.
Lemma lightly_SendFileCore_loop n src dst off size : lightly (SendFileCore_loop n src dst off size).
Proof. revert off size. induction n as [|n IH]; intros off size; cbn [SendFileCore_loop]; lightly. Qed.
Hint Resolve lightly_SendFileCore_loop : light.
Lemma lightly_SendFileCore src dst : lightly (SendFileCore src dst).
Proof. unfold SendFileCore. lightly. Qed.
Hint Resolve lightly_SendFileCore : light.
Lemma lightly_OpenSrcFile src : lightly (OpenSrcFile src).
Proof. unfold OpenSrcFile. lightly. Qed.
Hint Resolve lightly_OpenSrcFile : light.
Lemma lightly_CopyFile src dst : lightly (CopyFile src dst).
Proof. unfold CopyFile. lightly. Qed.
Hint Resolve lightly_CopyFile : light.
Lemma lightly_watch_dir p : lightly (watch_dir p).
Proof. unfold watch_dir. lightly. by apply lightly_callback. Qed.
Lemma lightly_status p : lightly (on_disk (status p)).
Proof. apply lightly_on_disk. Qed.
Hint Resolve lightly_watch_dir : light.
Lemma lightly_MakeDir p : lightly (MakeDir p).
Proof. unfold MakeDir. lightly. Qed.
Lemma lightly_IsFile p : lightly (IsFile p).
Proof. unfold IsFile. lightly. Qed.
Lemma lightly_IsDirectory p : lightly (IsDirectory p).
Proof. unfold IsDirectory. lightly. Qed.
Lemma lightly_GetFileSize p : lightly (GetFileSize p).
Proof. unfold GetFileSize. lightly. Qed.
Lemma lightly_CheckOrCreatePath p : lightly (CheckOrCreatePath p).
Proof. unfold CheckOrCreatePath. lightly. Qed.
Hint Resolve lightly_MakeDir lightly_IsFile lightly_IsDirectory lightly_GetFileSize lightly_CheckOrCreatePath : light.
Lemma lightly_CopySubDir rec src dst : (∀ a b, lightly (rec a b)) → lightly (CopySubDir rec src dst).
Proof. intros H. unfold CopySubDir. lightly. Qed.
Hint Resolve lightly_CopySubDir : light.
Lemma lightly_CopyEntries rec src dst l : (∀ a b, lightly (rec a b)) → lightly (CopyEntries rec src dst l).
Proof.
  intros H. induction l as [|e l IH]; cbn [CopyEntries]; lightly.
Qed.
Hint Resolve lightly_CopyEntries : light.
Lemma lightly_RecurCopyDir n src dst : lightly (RecurCopyDir n src dst).
Proof.
  revert src dst. induction n as [|n IH]; intros src dst; cbn [RecurCopyDir]; lightly.
Qed.
Hint Resolve lightly_RecurCopyDir : light.
Lemma lightly_CopyDirFunc n src dst : lightly (CopyDirFunc n src dst).
Proof. unfold CopyDirFunc. lightly. Qed.
Hint Resolve lightly_CopyDirFunc : light.

Lemma lightly_set_paths g h : lightly (set_infos (λ i, i <| srcPath := g i |> <| destPath := h i |>)).
Proof. intros s. by split_and!. Qed.
Hint Resolve lightly_set_paths : light.
Lemma lightly_ExecCopy n : lightly (ExecCopy n).
Proof. unfold ExecCopy. lightly. Qed.
Lemma lightly_DirSizes rec p l size : (∀ q, lightly (rec q)) → lightly (DirSizes rec p l size).
Proof. intros H. revert size. induction l as [|e l IH]; intros size; cbn [DirSizes]; lightly. Qed.
Hint Resolve lightly_DirSizes lightly_ExecCopy : light.
Lemma lightly_GetDirSize n p : lightly (GetDirSize n p).
Proof. revert p. induction n as [|n IH]; intros p; cbn [GetDirSize]; lightly. Qed.
Hint Resolve lightly_GetDirSize : light.

(** From the registration in [s0] on: the entry is there, with the descriptors that were
    opened since. *)
Record held (s0 s : cstate) : Prop := {
  hd_key : key (infos s) = key (infos s0);
  hd_rest : delete (key (infos s0)) (callbackMap s) = delete (key (infos s0)) (callbackMap s0);
  hd_entry : ∃ c, callbackMap s !! key (infos s0) = Some c ∧ open_fds s = open_fds s0 ∪ cb_fds c ∧
               cb_fds c ## open_fds s0
}.

Lemma cb_fds_fds c c' : fds c = fds c' → cb_fds c = cb_fds c'.
Proof. unfold fds, cb_fds. by intros [= -> -> _]. Qed.

Lemma light_held s0 s s' : light s s' → held s0 s → held s0 s'.
Proof.
  intros (H1 & H2 & _ & H4 & _ & H6) [Hk Hr (c & Hc & Ho & Hd)].
  split; [by rewrite (fixed_key _ _ H1)|by rewrite <- Hk, H6, Hk|].
  apply (f_equal (λ m, m !! key (infos s0))) in H2. rewrite !lookup_fmap, Hc in H2.
  destruct (callbackMap s' !! key (infos s0)) as [c'|]; [|done]. injection H2 as E1 E2 E3.
  exists c'. rewrite (cb_fds_fds c' c); [by rewrite H4|]. unfold fds. congruence.
Qed.

Definition holding {A} (m : st cstate A) : Prop := ∀ s0 s, held s0 s → wp m (λ _, held s0) s.

Lemma holding_lightly {A} (m : st cstate A) : lightly m → holding m.
Proof. intros H s0 s Hs. eapply wp_mono; [|apply H]. intros a s' Hl. exact (light_held _ _ _ Hl Hs). Qed.
Lemma holding_bind {A B} (m : st cstate A) (f : A → st cstate B) :
  holding m → (∀ a, holding (f a)) → holding (bind m f).
Proof.
  intros Hm Hf s0 s Hs. apply wp_bind. eapply wp_mono; [|by apply Hm]. intros a s1 H1. by apply Hf.
Qed.
Lemma holding_infos g : (∀ i, key (g i) = key i) → holding (set_infos g).
Proof. intros Hg s0 s [Hk Hr He]. split; [by rewrite <- Hk, <- (Hg (infos s))|done|done]. Qed.
Lemma holding_callback g : (∀ c, cb_fds (g c) = cb_fds c) → holding (set_callback g).
Proof.
  intros Hg s0 s [Hk Hr (c & Hc & Ho & Hd)].
  change (wp (set_callback g) ?Q s) with (Q tt (s <| callbackMap := alter g (key (infos s)) (callbackMap s) |>)).
  cbv beta. rewrite Hk. split; [done| |].
  - change (callbackMap (s <| callbackMap := ?m |>)) with m. rewrite <- Hr. apply map_eq. intros k.
    destruct (decide (k = key (infos s0))) as [->|Hne]; [by rewrite !lookup_delete_eq|].
    by rewrite !lookup_delete_ne, lookup_alter_ne.
  - exists (g c). rewrite Hg. split; [|done]. change (callbackMap (s <| callbackMap := ?m |>)) with m.
    by rewrite lookup_alter_eq, Hc.
Qed.

Definition no_fds (c : FsCallbackObject) : FsCallbackObject := c <| cb_eventFd := -1 |> <| cb_notifyFd := -1 |>.
Lemma no_fds_empty c : cb_fds (no_fds c) = ∅.
Proof. unfold cb_fds, no_fds. cbn. set_solver. Qed.

(** Closing, with the entry there: nothing that was opened since stays open. *)
Lemma CloseFd_held s0 s :
  held s0 s → wp CloseFd (λ _ s', held s0 s' ∧ open_fds s' = open_fds s0) s.
Proof.
  intros [Hk Hr (c & Hc & Ho & Hd)]. unfold CloseFd. apply wp_bind.
  change (wp find_callback ?R s) with (R (callbackMap s !! key (infos s)) s). cbv beta. rewrite Hk, Hc.
  apply wp_bind. set (s1 := s <| open_fds := open_fds s ∖ cb_fds c |>).
  change (wp (set_callback no_fds) (λ _ s', held s0 s' ∧ open_fds s' = open_fds s0) s1).
  change (wp (set_callback no_fds) ?Q s1) with (Q tt (s1 <| callbackMap := alter no_fds (key (infos s)) (callbackMap s) |>)).
  cbv beta. rewrite Hk. assert (open_fds s ∖ cb_fds c = open_fds s0) as E by (rewrite Ho; set_solver).
  split; [|exact E]. split; [done| |].
  - change (callbackMap (s1 <| callbackMap := ?m |>)) with m. rewrite <- Hr. apply map_eq. intros k.
    destruct (decide (k = key (infos s0))) as [->|Hne]; [by rewrite !lookup_delete_eq|].
    by rewrite !lookup_delete_ne, lookup_alter_ne.
  - exists (no_fds c). rewrite no_fds_empty. change (callbackMap (s1 <| callbackMap := ?m |>)) with m.
    rewrite lookup_alter_eq, Hc. split; [done|]. split; [|set_solver].
    change (open_fds (s1 <| callbackMap := ?m |>)) with (open_fds s ∖ cb_fds c). rewrite E. set_solver.
Qed.

(** The kernel gives descriptors that are not in use, and event descriptors always. *)
Definition fresh_fds (used : gset Z) : Prop :=
  (∀ n fd, k_inotify_init n = inr fd → 0 <= fd ∧ fd ∉ used) ∧
  (∀ n fd, k_eventfd n = inr fd → 0 <= fd ∧ fd ∉ used).
Definition eventfd_works : Prop := ∀ n e, k_eventfd n ≠ inl e.

Lemma held_set_infos s0 s g : (∀ i, key (g i) = key i) → held s0 s → held s0 (s <| infos := g (infos s) |>).
Proof. intros Hg [Hk Hr He]. split; [by rewrite <- Hk, <- (Hg (infos s))|done|done]. Qed.

(** After the descriptors were stored in the entry. *)
Lemma held_stored s0 s nfd efd :
  held s0 s → open_fds s = open_fds s0 → nfd ∉ open_fds s0 → efd ∉ open_fds s0 → 0 <= nfd → 0 <= efd →
  held s0 (s <| open_fds := {[ efd ]} ∪ ({[ nfd ]} ∪ open_fds s) |>
             <| callbackMap := alter (λ c, c <| cb_notifyFd := nfd |> <| cb_eventFd := efd |>) (key (infos s)) (callbackMap s) |>).
Proof.
  intros [Hk Hr (c & Hc & _)] Ho Hn He Hn0 He0. rewrite Hk. set (g := λ c0 : FsCallbackObject, _). split; [done| |].
  - change (callbackMap (?x <| callbackMap := ?m |>)) with m. rewrite <- Hr. apply map_eq. intros k.
    destruct (decide (k = key (infos s0))) as [->|Hne]; [by rewrite !lookup_delete_eq|].
    by rewrite !lookup_delete_ne, lookup_alter_ne.
  - exists (g c). change (callbackMap (?x <| callbackMap := ?m |>)) with m. rewrite lookup_alter_eq, Hc.
    assert (cb_fds (g c) = {[ efd ]} ∪ {[ nfd ]}) as ->.
    { change (cb_fds (g c)) with ((if efd =? -1 then ∅ else {[ efd ]}) ∪ (if nfd =? -1 then ∅ else {[ nfd ]}) : gset Z).
      destruct (Z.eqb_spec efd (-1)); [lia|]. by destruct (Z.eqb_spec nfd (-1)); [lia|]. }
    split; [done|]. change (open_fds (?x <| open_fds := ?m |> <| callbackMap := ?y |>)) with m. rewrite Ho.
    split; set_solver.
Qed.

Lemma CloseNotifyFd_holding : holding CloseNotifyFd.
Proof.
  apply holding_bind; [by apply holding_infos|]. intros _ s0 s Hs.
  eapply wp_mono; [|by apply CloseFd_held]. by intros _ s' [H _].
Qed.

Lemma watch_destination_holding n : holding (watch_destination n).
Proof.
  assert (∀ g, (∀ c, fds (g c) = fds c) → holding (set_callback g)) as Hcb.
  { intros g Hg. apply holding_callback. intros c. by apply cb_fds_fds. }
  unfold watch_destination.
  repeat first [ by apply holding_lightly; eauto with light | by apply Hcb | apply CloseNotifyFd_holding
               | apply holding_bind; [|intros ?] | case_match ].
Qed.

Lemma SubscribeLocalListener_held n s0 s :
  fresh_fds (open_fds s0) → eventfd_works → held s0 s → open_fds s = open_fds s0 →
  wp (SubscribeLocalListener n) (λ _, held s0) s.
Proof.
  intros [Hfn Hfe] Hev Hs Ho. apply wp_bind.
  pose proof (light_held s0 s _ (same_light _ _ (same_but_disk_set s (FState (files (disk s)) (S (calls (disk s)))))) Hs) as H1.
  change (wp (kernel k_inotify_init) ?Q s) with (Q (k_inotify_init (calls (disk s)))
    (s <| disk := FState (files (disk s)) (S (calls (disk s))) |>)). cbv beta.
  set (s1 := s <| disk := _ |>) in *. destruct (k_inotify_init (calls (disk s))) as [e|nfd] eqn:En.
  { assert (holding (bind (set_infos (λ i, i <| notifyFd := -1 |>)) (λ _, sret e))) as H.
    { apply holding_bind; [by apply holding_infos|]. intros _. apply holding_lightly, lightly_ret. }
    by apply H. }
  destruct (Hfn _ _ En) as [Hn0 Hn].
  (* the two descriptors are given and stored *)
  apply wp_bind. change (wp (opened nfd) ?Q s1) with (Q tt (s1 <| open_fds := {[ nfd ]} ∪ open_fds s1 |>)). cbv beta.
  apply wp_bind. change (wp (set_infos ?g) ?Q ?x) with (Q tt (x <| infos := g (infos x) |>)). cbv beta.
  apply wp_bind. change (wp (kernel k_eventfd) ?Q ?x) with (Q (k_eventfd (calls (disk x)))
    (x <| disk := FState (files (disk x)) (S (calls (disk x))) |>)). cbv beta.
  destruct (k_eventfd _) as [e|efd] eqn:Ee; [by apply Hev in Ee|]. destruct (Hfe _ _ Ee) as [He0 He].
  apply wp_bind. change (wp (opened efd) ?Q ?x) with (Q tt (x <| open_fds := {[ efd ]} ∪ open_fds x |>)). cbv beta.
  apply wp_bind. change (wp (set_infos ?g) ?Q ?x) with (Q tt (x <| infos := g (infos x) |>)). cbv beta.
  apply wp_bind. change (wp (set_callback ?g) ?Q ?x) with
    (Q tt (x <| callbackMap := alter g (key (infos x)) (callbackMap x) |>)). cbv beta.
  match goal with |- wp _ _ ?x => assert (held s0 x) as H2 end.
  { pose proof (held_stored s0 s1 nfd efd H1 Ho Hn He Hn0 He0) as H.
    apply (held_set_infos _ _ (λ i, i <| notifyFd := nfd |>)) in H; [|done].
    apply (held_set_infos _ _ (λ i, i <| eventFd := efd |>)) in H; [|done].
    eapply light_held; [|exact H]. by split_and!. }
  by apply watch_destination_holding.
Qed.

Lemma ExecLocal_held n s0 s :
  fresh_fds (open_fds s0) → eventfd_works → held s0 s → open_fds s = open_fds s0 →
  wp (ExecLocal n) (λ _, held s0) s.
Proof.
  intros Hf He Hs Ho. apply wp_bind. change (wp get_infos ?Q s) with (Q (infos s) s). cbv beta. apply wp_bind.
  assert (lightly (if isFile (infos s) then
    if (srcPath (infos s) =? destPath (infos s))%string then sret EINVAL else CheckOrCreatePath (destPath (infos s))
    else sret ERRNO_NOERR)) as Hl by lightly.
  eapply wp_mono; [|apply Hl]. intros ret s1 H1. pose proof (light_held _ _ _ H1 Hs) as Hs1.
  assert (open_fds s1 = open_fds s0) as Ho1 by (destruct H1 as (_ & _ & _ & -> & _); exact Ho).
  destruct (negb (ret =? ERRNO_NOERR)); [by apply wp_ret|].
  destruct (negb (hasListener (infos s))); [by apply (holding_lightly _ (lightly_ExecCopy n))|].
  apply wp_bind. eapply wp_mono; [|by apply SubscribeLocalListener_held]. intros r s2 H2.
  destruct (negb (r =? ERRNO_NOERR)); [by apply wp_ret|by apply (holding_lightly _ (lightly_ExecCopy n))].
Qed.

(** The end of a copy: the registry and the descriptors are as before. *)
Lemma UnregisterListener_held s0 s m :
  held s0 s → callbackMap s0 = <[key (infos s0) := new_callback (hasListener (infos s0))]> m → m !! key (infos s0) = None →
  wp UnregisterListener (λ _ s', callbackMap s' = m ∧ open_fds s' = open_fds s0 ∧ infos s' = infos s) s.
Proof.
  intros Hs Hm Hnone. apply wp_bind. eapply wp_mono.
  2: { apply wp_and; [apply (CloseFd_held s0 s Hs)|].
       apply (wp_intro _ (λ _ s', infos s' = infos s)). intros [] s' E. unfold CloseFd, bind in E.
       change (find_callback s) with (Some (callbackMap s !! key (infos s), s)) in E. cbv beta iota in E.
       destruct (callbackMap s !! key (infos s)); injection E as <-; done. }
  intros [] s1 [[H1 Ho] Hi]. unfold wp. split; [|split; [exact Ho|exact Hi]].
  change (callbackMap (s1 <| callbackMap := ?x |>)) with x. rewrite (hd_key _ _ H1), (hd_rest _ _ H1), Hm.
  by apply delete_insert_id.
Qed.

Lemma holding_OnFileReceive : holding OnFileReceive.
Proof.
  unfold OnFileReceive. apply holding_bind; [apply holding_lightly, lightly_find|]. intros [c|]; [|apply holding_lightly, lightly_ret].
  apply holding_bind; [apply holding_lightly, lightly_on_disk|]. intros b.
  destruct (negb b); [apply holding_lightly, lightly_ret|].
  destruct (_ <? _); [apply holding_lightly, lightly_ret|].
  apply holding_bind; [by apply holding_callback|]. intros _.
  destruct (negb _); [apply holding_lightly, lightly_ret|]. intros s0 s [Hk Hr He]. by split.
Qed.

Lemma holding_CopyComplete : holding CopyComplete.
Proof.
  apply holding_bind; [apply holding_lightly, lightly_get_infos|]. intros i.
  destruct (hasListener i); [|apply holding_lightly, lightly_ret].
  apply holding_bind; [by apply holding_callback|]. intros _. apply holding_OnFileReceive.
Qed.

Lemma holding_Wait : holding WaitNotifyFinished.
Proof.
  apply holding_bind; [apply holding_lightly, lightly_get_infos|]. intros i.
  destruct (hasListener i); [by apply holding_infos|apply holding_lightly, lightly_ret].
Qed.

(** After the registration: [s] is the state before, [s0] the one with the entry. *)
Definition registered_in (s s0 : cstate) : Prop :=
  callbackMap s0 = <[key (infos s0) := new_callback (hasListener (infos s0))]> (callbackMap s) ∧
  callbackMap s !! key (infos s0) = None ∧ open_fds s0 = open_fds s.

Lemma registered_held s s0 : registered_in s s0 → held s0 s0.
Proof.
  intros (Hm & _ & _). split; [done|done|]. exists (new_callback (hasListener (infos s0))).
  rewrite Hm, lookup_insert_eq. split; [done|]. unfold cb_fds. cbn. set_solver.
Qed.

(** What is left of a copy is as it was. *)
Definition clean (s s' : cstate) : Prop := callbackMap s' = callbackMap s ∧ open_fds s' = open_fds s.

Lemma wp_unregister {A} s s0 s1 (a : A) :
  registered_in s s0 → held s0 s1 → wp (bind UnregisterListener (λ _, sret a)) (λ _ s', clean s s') s1.
Proof.
  intros (Hm & Hn & Ho) Hs. apply wp_bind. eapply wp_mono; [|by eapply UnregisterListener_held].
  intros _ s' (H1 & H2 & _). apply wp_ret. split; [done|congruence].
Qed.

Lemma wp_on_disk {A} (m : st fstate A) (Q : A → cstate → Prop) s :
  (∀ a d, Q a (s <| disk := d |>)) → wp (on_disk m) Q s.
Proof. intros H. unfold wp, on_disk. by destruct (m (disk s)) as [[a d]|]. Qed.

Lemma wp_RegisterListener (Q : bool → cstate → Prop) s :
  (∀ d, Q false (s <| disk := d |>)) → (∀ s', registered_in s s' → Q true s') → wp RegisterListener Q s.
Proof.
  intros Hb Hg. apply wp_bind, wp_on_disk. intros [] d; cbn [negb]; [|by apply wp_ret].
  apply wp_bind. change (wp find_callback ?R ?x) with (R (callbackMap x !! key (infos x)) x). cbv beta.
  destruct (callbackMap _ !! _) eqn:E; [by apply wp_ret|].
  match goal with |- wp _ _ ?x => change (wp (λ s1, Some (true, ?g s1)) Q x) with (Q true (g x)) end.
  apply Hg. split_and!; [done|exact E|done].
Qed.

Lemma wp_CreateFileInfos srcU destU opts (Q : Z → cstate → Prop) s :
  (∀ e s', callbackMap s' = callbackMap s → open_fds s' = open_fds s → Q e s') →
  wp (CreateFileInfos srcU destU opts) Q s.
Proof.
  intros HQ. apply wp_bind, wp_on_disk. intros [] d; cbn [negb]; [|by apply wp_ret, HQ].
  apply wp_bind. destruct (IsMediaUri srcU).
  - apply wp_ret. apply wp_bind. change (wp (set_infos ?g) ?R ?x) with (R tt (x <| infos := g (infos x) |>)). cbv beta.
    by apply wp_ret, HQ.
  - apply wp_bind, wp_on_disk. intros [t e] d2. apply wp_ret, wp_bind.
    change (wp (set_infos ?g) ?R ?x) with (R tt (x <| infos := g (infos x) |>)). cbv beta. by apply wp_ret, HQ.
Qed.

(** C33: a copy leaves nothing behind: whatever its arguments and whatever calls fail but for
    [eventfd], which must give a descriptor, when [DoCopy] returns, no registration of it is left,
    those of other copies are as they were, and every descriptor it opened for its listener is
    closed. *)
Theorem copy_leaves_nothing (n : nat) (src dest : string) (options : option CopyOptions) (s s' : cstate)
    (r : option Z) :
  fresh_fds (open_fds s) → eventfd_works → DoCopy n src dest options s = Some (r, s') →
  callbackMap s' = callbackMap s ∧ open_fds s' = open_fds s.
Proof.
  intros Hf He E. enough (wp (DoCopy n src dest options) (λ _ s', clean s s') s) as H by exact (wp_elim _ _ _ _ _ H E).
  clear E s' r. unfold DoCopy. destruct (negb (ValidParams src dest)); [by apply wp_ret|].
  apply wp_bind, wp_CreateFileInfos. intros e s1 Hm1 Ho1. destruct (negb (e =? ERRNO_NOERR)); [by apply wp_ret|].
  assert (∀ t, clean s1 t → clean s t) as Hclean by (intros t [H1 H2]; split; congruence).
  apply wp_bind, wp_RegisterListener; [intros d; by apply wp_ret|].
  intros s0 Hreg. cbn [negb]. pose proof (registered_held _ _ Hreg) as Hs0.
  assert (holding (set_infos (λ i, i <| run := false |>))) as Hrun by (by apply holding_infos).
  assert (∀ e, holding (set_infos (λ i, i <| exceptionCode := e |>))) as Hexc by (intros e'; by apply holding_infos).
  assert (open_fds s0 = open_fds s1) as Ho0 by by destruct Hreg as (_ & _ & ->).
  apply wp_bind. change (wp get_infos ?Q s0) with (Q (infos s0) s0). cbv beta.
  destruct (IsRemoteUri (srcUri (infos s0))).
  { apply wp_bind. eapply wp_mono with (P := λ _, held s0); [|].
    - intros [] s2 H2. eapply wp_mono; [|apply (wp_unregister s1 s0); [exact Hreg|assumption]]. intros a t. apply Hclean.
    - destruct (taskSignal (infos s0)); [|by apply wp_ret]. destruct Hs0 as [Hk Hr Hc]. by split. }
  apply wp_bind. eapply wp_mono; [|apply (ExecLocal_held n s0); rewrite ?Ho0, ?Ho1; done].
  intros result s2 H2. apply wp_bind. eapply wp_mono; [|exact (CloseNotifyFd_holding s0 _ H2)]. intros [] s3 H3.
  apply wp_bind. eapply wp_mono; [|exact (Hrun s0 _ H3)]. intros [] s4 H4.
  apply wp_bind. eapply wp_mono; [|exact (holding_Wait s0 _ H4)]. intros [] s5 H5.
  destruct (negb (result =? ERRNO_NOERR)).
  - apply wp_bind. eapply wp_mono; [|exact (Hexc result s0 _ H5)].
    intros [] s6 H6. eapply wp_mono; [|apply (wp_unregister s1 s0); [exact Hreg|assumption]]. intros a t. apply Hclean.
  - apply wp_bind. eapply wp_mono; [|exact (holding_CopyComplete s0 _ H5)]. intros [] s6 H6.
    apply wp_bind. destruct Hreg as (Hm & Hn & _).
    eapply wp_mono; [|exact (UnregisterListener_held s0 _ _ H6 Hm Hn)]. intros [] s7 (H7 & H8 & _).
    apply wp_bind. change (wp get_infos ?Q s7) with (Q (infos s7) s7). cbv beta. apply wp_ret, Hclean. split; congruence.
Qed.
End cleanup.

(** ** The whole call *)
Section result.
Context {FE : FsEnv} {CE : CopyEnv}.

(** The parts of the copy's record that decide what is copied. *)
Definition core (i : FsFileInfos) := (srcUri i, destUri i, srcPath i, destPath i, isFile i, hasListener i).
Definition still (s s' : cstate) : Prop := files (disk s') = files (disk s) ∧ core (infos s') = core (infos s).

Lemma still_refl s : still s s.
Proof. done. Qed.
Lemma still_trans s1 s2 s3 : still s1 s2 → still s2 s3 → still s1 s3.
Proof. unfold still. intros [-> ->] [-> ->]. done. Qed.

(** Parts that return and change neither files nor the core. *)
Definition view (s : cstate) := (files (disk s), core (infos s)).
Definition steady (f : tree * (string * string * string * string * bool * bool)) {A} (m : st cstate A) : Prop :=
  ∀ s, view s = f → twp m (λ _ s', still s s') s.

Lemma steady_ret f {A} (a : A) : steady f (sret a).
Proof. intros s _. apply twp_ret, still_refl. Qed.
Lemma steady_bind f {A B} (m : st cstate A) (k : A → st cstate B) :
  steady f m → (∀ a, steady f (k a)) → steady f (bind m k).
Proof.
  intros Hm Hk s Hs. apply twp_bind. eapply twp_mono; [by apply Hm|]. intros a s1 H1.
  eapply twp_mono; [apply Hk; unfold view in *; destruct H1 as [-> ->]; done|]. intros b s2. by apply still_trans.
Qed.
Lemma steady_disk f {A} (m : st fstate A) :
  (∀ d, files d = f.1 → twp m (λ _ d', files d' = f.1) d) → steady f (on_disk m).
Proof.
  intros H s Hs. apply twp_core_disk. eapply twp_mono; [apply H; by rewrite <- Hs|]. intros a d Hd. split; [|done].
  rewrite disk_set. by rewrite Hd, <- Hs.
Qed.
Lemma steady_get f {A} (k : FsFileInfos → st cstate A) :
  (∀ i, core i = f.2 → steady f (k i)) → steady f (bind get_infos k).
Proof. intros H s Hs. apply twp_bind. change (twp (k (infos s)) (λ _ s', still s s') s). apply H; [by rewrite <- Hs|done]. Qed.
Lemma steady_alloc f : steady f (on_disk alloc).
Proof. apply steady_disk. intros d Hd. apply twp_fcall; [intros e d' _ H|intros d' H]; cbn [snd] in H; congruence. Qed.
Lemma steady_status f p : steady f (on_disk (status p)).
Proof. apply steady_disk. intros d Hd. apply twp_status; [intros e d' _ H|intros d' H]; congruence. Qed.
Lemma steady_kernel f {A} (g : nat → A) : steady f (kernel g).
Proof. intros s _. by apply twp_kernel; intros a s' -> H. Qed.
Lemma steady_get_infos f : steady f get_infos.
Proof. intros s _. apply still_refl. Qed.
Lemma steady_find f : steady f find_callback.
Proof. intros s _. apply still_refl. Qed.
Lemma steady_callback f g : steady f (set_callback g).
Proof. intros s _. by split. Qed.
Lemma steady_infos f g : (∀ i, core (g i) = core i) → steady f (set_infos g).
Proof. intros H s _. split; [done|]. apply H. Qed.
Lemma steady_opened f fd : steady f (opened fd).
Proof. intros s _. by split. Qed.

Create HintDb steady.
Hint Resolve steady_ret steady_alloc steady_status steady_kernel steady_get_infos steady_find steady_callback
  steady_opened : steady.
Ltac steady := repeat first [ progress eauto with steady | apply steady_bind; [|intros ?] | by apply steady_infos | case_match ].

Lemma steady_GetFileSize f p : steady f (GetFileSize p).
Proof. unfold GetFileSize. steady. Qed.
Hint Resolve steady_GetFileSize : steady.
Lemma steady_CloseFd f : steady f CloseFd.
Proof. unfold CloseFd. steady. all: intros s _; by split. Qed.
Hint Resolve steady_CloseFd : steady.
Lemma steady_CloseNotifyFd f : steady f CloseNotifyFd.
Proof. unfold CloseNotifyFd. steady. Qed.
Lemma steady_Unregister f : steady f UnregisterListener.
Proof. unfold UnregisterListener. steady. all: intros s _; by split. Qed.
Lemma steady_OnFileReceive f : steady f OnFileReceive.
Proof. unfold OnFileReceive. steady. all: intros s _; by split. Qed.
Hint Resolve steady_CloseNotifyFd steady_Unregister steady_OnFileReceive : steady.
Lemma steady_CopyComplete f : steady f CopyComplete.
Proof. unfold CopyComplete. steady. Qed.
Lemma steady_Wait f : steady f WaitNotifyFinished.
Proof. unfold WaitNotifyFinished. steady. Qed.
Hint Resolve steady_CopyComplete steady_Wait : steady.

Lemma steady_DirSizes f rec p l size :
  Forall (λ e, d_type e = DT_DIR → steady f (rec (child p (d_name e)))) l → steady f (DirSizes rec p l size).
Proof.
  revert size. induction l as [|e l IH]; intros size; cbn [DirSizes]; [steady|]. intros [He Hl]%Forall_cons.
  case_bool_decide; [by apply IH|]. case_bool_decide as Hd.
  - apply steady_bind; [by apply He|]. intros sub. by apply IH.
  - apply steady_bind; [steady|]. intros [err sz]. destruct (negb (err =? 0)); [steady|by apply IH].
Qed.

Lemma steady_GetDirSize n f p :
  wf_below (resolve p) f.1 → deep (resolve p) f.1 n → steady f (GetDirSize n p).
Proof.
  revert p. induction n as [|n IH]; intros p Hwf [H0 Hdeep]; [lia|]. cbn [GetDirSize].
  apply steady_bind; [steady|]. intros b. destruct b; cbn [negb]; [|steady].
  intros s Hs. assert (files (disk s) = f.1) as Hf by by rewrite <- Hs.
  apply twp_bind, twp_core_disk, twp_scandir_types; rewrite Hf; [done| |].
  { intros e d Hd _. cbn [DirSizes]. apply twp_ret. split; [rewrite disk_set; congruence|done]. }
  intros l d Hd Hdir Hl. eapply twp_mono.
  - apply (steady_DirSizes f); [|rewrite <- Hs; unfold view; rewrite disk_set, Hd, <- Hf; done]. apply Forall_forall; intros e He Ht.
    destruct Hl as (_ & Hin & _). destruct (Hin e He) as [Hx [Hdot|[Hnm Hty]]].
    { exfalso. unfold FilterFunc in Hx. set_unfold in Hdot. by destruct Hdot as [E|[E|[]]]; rewrite E in Hx. }
    apply elem_of_names in Hnm as Hsome. destruct (Hwf [] (d_name e) Hsome) as [_ Hv].
    rewrite Hty in Ht. apply entry_type_dir in Ht.
    apply IH; rewrite (resolve_entry p _ Hv); [by apply wf_below_sub|]. split.
    + specialize (Hdeep [d_name e] Hsome). cbn in Hdeep. lia.
    + intros r. rewrite <- app_assoc. intros Hr%Hdeep. cbn in Hr. lia.
  - intros a s' H. eapply still_trans; [|exact H]. split; [rewrite disk_set; congruence|done].
Qed.

Lemma steady_watch_destination n f :
  f.2.1.2 = true ∨ wf_below (resolve (f.2.1.1.1.2)) f.1 ∧ deep (resolve (f.2.1.1.1.2)) f.1 n →
  steady f (watch_destination n).
Proof.
  intros H. unfold watch_destination. apply steady_get. intros i Hi. apply steady_bind; [steady|]. intros r.
  destruct r as [e|wd]; [steady|]. apply steady_bind; [steady|]. intros b. destruct b; cbn [negb]; [|steady].
  apply steady_bind; [steady|]. intros _. rewrite <- Hi in H. cbn in H. destruct (isFile i); cbn [negb]; [steady|].
  destruct H as [?|[Hw Hd]]; [done|]. apply steady_bind; [by apply steady_GetDirSize|steady].
Qed.

Lemma steady_Subscribe n f :
  f.2.1.2 = true ∨ wf_below (resolve (f.2.1.1.1.2)) f.1 ∧ deep (resolve (f.2.1.1.1.2)) f.1 n →
  steady f (SubscribeLocalListener n).
Proof.
  intros H. pose proof (steady_watch_destination n f H). unfold SubscribeLocalListener.
  steady.
Qed.

(** A call that returns [r] with files [f'] where [P r f'] holds. *)
Definition ends {A} (P : A → tree → Prop) (m : st cstate A) (s : cstate) : Prop :=
  twp m (λ r s', P r (files (disk s'))) s.

Lemma ends_bind_steady f {A B} (m : st cstate A) (k : A → st cstate B) P s :
  steady f m → view s = f → (∀ a s1, view s1 = f → ends P (k a) s1) → ends P (bind m k) s.
Proof.
  intros Hm Hs Hk. apply twp_bind. eapply twp_mono; [by apply Hm|]. intros a s1 [H1 H2]. apply Hk.
  rewrite <- Hs. unfold view. congruence.
Qed.

(** The view of a copy that was just registered. *)
Definition starts (src dest : string) (opts : option CopyOptions) (isF : bool) (f : tree) :=
  (f, (src, dest, GetRealPath (FileUri_GetRealPath src), GetRealPath (FileUri_GetPath dest), isF,
       match opts with Some o => progressListener o | None => false end)).

Lemma ends_CreateFileInfos {A} (src dest : string) (opts : option CopyOptions) (isF : bool) (s : cstate) (P : A → tree → Prop) (k : Z → st cstate A) :
  (∀ s1, files (disk s1) = files (disk s) →
    ends (λ (b : bool) (f : tree), b = isF ∧ f = files (disk s))
      (if IsMediaUri src then sret true else IsFile (GetRealPath (FileUri_GetRealPath src))) s1) →
  (∀ s1, files (disk s1) = files (disk s) → ends P (k ENOMEM) s1) →
  (∀ s1, view s1 = starts src dest opts isF (files (disk s)) → ends P (k ERRNO_NOERR) s1) →
  ends P (bind (CreateFileInfos src dest opts) k) s.
Proof.
  intros Hb He Hk. apply twp_bind, twp_bind, twp_alloc. intros b s1 [_ H1].
  destruct b; cbn [negb]; [|by apply twp_ret, He].
  apply twp_bind. eapply twp_mono; [by apply Hb|]. cbv beta. intros b s2 [-> H2].
  apply Hk. unfold view, starts. by rewrite <- H2.
Qed.

Lemma steady_RegisterListener f : steady f RegisterListener.
Proof. unfold RegisterListener. steady. all: intros s _; by split. Qed.
Lemma steady_mark f (b : bool) : steady f (if b then λ s, Some (tt, s <| remote_marked := true |>) else sret tt).
Proof. destruct b; intros s _; by split. Qed.

(** What follows the copy itself. *)
Lemma ends_after (result : Z) (P : Z → tree → Prop) (s : cstate) :
  P result (files (disk s)) →
  ends (λ (r : option Z) (f' : tree), ∃ ret, P ret f' ∧ (r = None → ret = 0))
    (_ ← CloseNotifyFd;
     _ ← set_infos (λ i, i <| run := false |>);
     _ ← WaitNotifyFinished;
     if negb (result =? ERRNO_NOERR) then
       _ ← set_infos (λ i, i <| exceptionCode := result |>);
       _ ← UnregisterListener;
       sret (Some result)
     else
       _ ← CopyComplete;
       _ ← UnregisterListener;
       i ← get_infos;
       sret (if negb (exceptionCode i =? ERRNO_NOERR) then Some (exceptionCode i) else None)) s.
Proof.
  intros HP. assert (∀ a s1, view s1 = view s → (a = None → result = 0) →
    ends (λ (r : option Z) (f' : tree), ∃ ret, P ret f' ∧ (r = None → ret = 0)) (sret a) s1) as Hend.
  { intros a s1 [= Hv _] Ha. apply twp_ret. exists result. by rewrite Hv. }
  apply (ends_bind_steady (view s)); [steady|done|]. intros [] s1 H1.
  apply (ends_bind_steady (view s)); [steady|done|]. intros [] s2 H2.
  apply (ends_bind_steady (view s)); [steady|done|]. intros [] s3 H3.
  destruct (result =? ERRNO_NOERR) eqn:E; zbool; cbn [negb].
  - apply (ends_bind_steady (view s)); [steady|done|]. intros [] s4 H4.
    apply (ends_bind_steady (view s)); [steady|done|]. intros [] s5 H5.
    apply (ends_bind_steady (view s)); [steady|done|]. intros i s6 H6. by apply Hend.
  - apply (ends_bind_steady (view s)); [steady|done|]. intros [] s4 H4.
    apply (ends_bind_steady (view s)); [steady|done|]. intros [] s5 H5. by apply Hend.
Qed.

(** [DoCopy] of a local source ends the way [ExecLocal] does. *)
Lemma DoCopy_ends (n : nat) (src dest : string) (opts : option CopyOptions) (isF : bool) (s : cstate) (P : Z → tree → Prop) :
  (∀ e, e ≠ 0 → P e (files (disk s))) → IsRemoteUri src = false →
  (∀ s1, files (disk s1) = files (disk s) →
    ends (λ (b : bool) (f : tree), b = isF ∧ f = files (disk s))
      (if IsMediaUri src then sret true else IsFile (GetRealPath (FileUri_GetRealPath src))) s1) →
  (∀ s1, view s1 = starts src dest opts isF (files (disk s)) → ends P (ExecLocal n) s1) →
  ends (λ (r : option Z) (f' : tree), ∃ ret, P ret f' ∧ (r = None → ret = 0)) (DoCopy n src dest opts) s.
Proof.
  intros HP Hrem Hb Hx. assert (∀ e s1, e ≠ 0 → files (disk s1) = files (disk s) →
    ends (λ (r : option Z) (f' : tree), ∃ ret, P ret f' ∧ (r = None → ret = 0)) (sret (Some e)) s1) as Hend.
  { intros e s1 He Hs. apply twp_ret. exists e. rewrite Hs. split; [by apply HP|done]. }
  unfold DoCopy. destruct (negb (ValidParams src dest)); [by apply Hend|].
  eapply ends_CreateFileInfos; [exact Hb|by intros s1 H1; apply Hend|]. intros s1 H1. cbn [negb].
  change (negb (ERRNO_NOERR =? ERRNO_NOERR)) with false. cbv iota.
  assert (∀ s2, view s2 = starts src dest opts isF (files (disk s)) → files (disk s2) = files (disk s)) as Hf.
  { by intros s2 [= -> _]. }
  eapply ends_bind_steady; [apply steady_RegisterListener|exact H1|]. intros b s2 H2.
  destruct b; cbn [negb]; [|by apply Hend, Hf].
  apply twp_bind, twp_get_infos. assert (srcUri (infos s2) = src) as -> by by injection H2.
  rewrite Hrem. apply twp_bind. eapply twp_mono; [by apply Hx|]. intros ret s3 H3. by apply ends_after.
Qed.


(** *** One file *)

(** The data a copy from [src] reads. *)
Definition source_data (src : string) (f : tree) : option (list Z) :=
  if IsMediaUri src then match media_open src with inr data => Some data | inl _ => None end
  else match f !! resolve (GetRealPath (FileUri_GetRealPath src)) with Some (NFile data) => Some data | _ => None end.

(** [data] was written to [q] in [f], over what was there. *)
Definition written (q : path) (data : list Z) (f : tree) (ret : Z) (f' : tree) : Prop :=
  elsewhere q f f' ∧
  (ret = 0 → ∃ old, had q f old ∧ f' !! q = Some (NFile (data ++ drop (length data) old))).

Lemma written_same q data f ret : ret ≠ 0 → written q data f ret f.
Proof. intros H. by split. Qed.

(** [f1] is [f], with an empty file at [q] if there was nothing. *)
Definition touched (q : path) (f f1 : tree) : Prop :=
  f1 = f ∨ f !! q = None ∧ f1 = <[q := NFile []]> f.

Lemma touched_written q data f f1 ret f' : touched q f f1 → written q data f1 ret f' → written q data f ret f'.
Proof.
  intros [->|[Hn ->]] [Hel Hok]; [done|]. split.
  - intros p Hp. rewrite Hel by done. by apply lookup_insert_ne.
  - intros E. destruct (Hok E) as (old & [Hh|[Hh ->]] & Hnew); rewrite lookup_insert_eq in Hh; simplify_eq.
    exists []. split; [by right|done].
Qed.

(** A call that leaves the core as it is and may touch [q]. *)
Lemma CheckOrCreatePath_touches dp (Q : Z → cstate → Prop) s :
  (∀ e s', core (infos s') = core (infos s) → touched (resolve dp) (files (disk s)) (files (disk s')) → Q e s') →
  twp (CheckOrCreatePath dp) Q s.
Proof.
  intros HQ. apply twp_bind, twp_core_disk.
  assert (∀ e d, files d = files (disk s) → Q e (s <| disk := d |>)) as Hsame.
  { intros e d Hd. apply HQ; [done|]. left. by rewrite disk_set. }
  apply twp_exists.
  - intros e d (He & _) Hd. apply Z.eqb_neq in He as E0. unfold ERRNO_NOERR. rewrite E0. cbn.
    apply twp_ret. by apply Hsame.
  - intros d Hd. destruct (bool_decide _) eqn:Ex; cbn [negb andb]; [by apply twp_ret, Hsame|].
    change (0 =? ERRNO_NOERR) with true. cbv iota. apply bool_decide_eq_false, eq_None_not_Some in Ex.
    apply twp_bind, twp_core_disk, twp_fcall; rewrite disk_set.
    + intros e d2 _ H2. apply twp_ret. cbn [fst snd] in *. apply HQ; [done|]. left. rewrite disk_set. congruence.
    + rewrite Hd, Ex. intros d2 H2. apply twp_ret, HQ; [done|]. rewrite disk_set, H2.
      destruct (_ && _); cbn [snd]; [by right|by left].
Qed.


Lemma twp_IsFile p (Q : bool → cstate → Prop) s :
  (∀ b d, files d = files (disk s) → (b = true → ∃ old, files (disk s) !! resolve p = Some (NFile old)) →
    Q b (s <| disk := d |>)) → twp (IsFile p) Q s.
Proof.
  intros HQ. apply twp_bind, twp_core_disk, twp_status.
  - intros e d _ Hd. apply twp_ret. by apply HQ.
  - intros d Hd. destruct (files (disk s) !! resolve p) as [[old| |]|] eqn:E; apply twp_ret, HQ; try done. by eexists.
Qed.

Lemma reads_core i j : srcUri i = srcUri j → reads i = reads j.
Proof. unfold reads. by intros ->. Qed.

Lemma ExecCopy_file n s su du sp dp lst f data :
  (∀ u, media_open u ≠ inl 0) → view s = (f, (su, du, sp, dp, true, lst)) →
  (authority su = MEDIA ∨ resolve sp ≠ resolve dp) → reads (infos s) sp f = Some data →
  ends (written (resolve dp) data f) (ExecCopy n) s.
Proof.
  intros Hm Hv Hne Hr. injection Hv as Hf Hsu Hdu Hsp Hdp HisF _.
  unfold ExecCopy. apply twp_bind, twp_get_infos. rewrite HisF, Hdp, Hsp.
  apply twp_bind, twp_IsFile. intros b d Hd Hb. destruct b.
  - eapply twp_mono; [apply core_CopyFile_spec; [done|by rewrite <- Hsu in Hne]|]. intros ret s' (_ & [Hel _ Hok]).
    rewrite disk_set, Hd, Hf in Hel, Hok. split; [done|]. intros E.
    destruct (Hok E) as (data' & old & Hr' & Hh & Hnew). exists old. split; [done|].
    change (infos (s <| disk := d |>)) with (infos s) in Hr'. congruence.
  - apply twp_bind, twp_ret, twp_ret. rewrite disk_set, Hd, Hf. by apply written_same.
Qed.

Lemma ExecLocal_file n s su du sp dp lst f data :
  (∀ u, media_open u ≠ inl 0) → view s = (f, (su, du, sp, dp, true, lst)) →
  (authority su = MEDIA ∨ resolve sp ≠ resolve dp) → reads (infos s) sp f = Some data →
  ends (written (resolve dp) data f) (ExecLocal n) s.
Proof.
  intros Hm Hv Hne Hr. injection Hv as Hf Hsu Hdu Hsp Hdp HisF Hlst.
  unfold ExecLocal. apply twp_bind, twp_get_infos. rewrite HisF, Hdp, Hsp, Hlst. subst f.
  assert (∀ e (s1 : cstate), e ≠ 0 → touched (resolve dp) (files (disk s)) (files (disk s1)) →
    ends (written (resolve dp) data (files (disk s))) (sret e) s1) as Hend.
  { intros e s1 He Ht. apply twp_ret. eapply touched_written; [done|by apply written_same]. }
  apply twp_bind. destruct (sp =? dp)%string; [apply twp_ret; cbn; by apply Hend; [|left]|].
  apply CheckOrCreatePath_touches. intros ret s1 Hc Ht. unfold ERRNO_NOERR.
  destruct (ret =? 0) eqn:E0; zbool; cbn [negb]; [|by apply Hend].
  assert (∀ s2, view s2 = (files (disk s1), (su, du, sp, dp, true, lst)) →
    ends (written (resolve dp) data (files (disk s))) (ExecCopy n) s2) as Hgo.
  { intros s2 H2. pose proof H2 as Hv2. injection Hv2 as Hf2 Hsu2 _. eapply twp_mono.
    - eapply (ExecCopy_file n s2 su du sp dp lst); [done|exact H2|done|].
      rewrite (reads_core _ (infos s)) by congruence. rewrite <- Hr. unfold reads. rewrite Hsu.
      destruct Hne as [Ha|Hne]; [by rewrite Ha|]. destruct (_ =? MEDIA)%string; [done|].
      destruct Ht as [Ht|[_ Ht]]; rewrite Ht; [done|]. by rewrite lookup_insert_ne.
    - intros r s3. cbv beta. by apply touched_written. }
  assert (view s1 = (files (disk s1), (su, du, sp, dp, true, lst))) as H1 by (unfold view; rewrite Hc; unfold core; congruence).
  destruct lst; cbn [negb]; [|by apply Hgo].
  eapply ends_bind_steady; [|exact H1|]; [apply steady_Subscribe; by left|]. intros r s2 H2.
  destruct (r =? 0) eqn:Er; zbool; cbn [negb]; [by apply Hgo|]. apply Hend; [done|]. injection H2 as H2 _. by rewrite H2.
Qed.

(** A file copy that reports success wrote the file: for a source that is a file or a
    media asset, other than the destination, [DoCopy] always returns; nothing but the
    destination changes; and if it answers no error, the destination starts with the data of
    the source, followed by what a longer old file had after them. *)
Theorem copy_file_result (n : nat) (src dest : string) (options : option CopyOptions) (s : cstate) (data : list Z) :
  let dp := GetRealPath (FileUri_GetPath dest) in
  never_fails F_stat → (∀ u, media_open u ≠ inl 0) → IsRemoteUri src = false →
  source_data src (files (disk s)) = Some data →
  (IsMediaUri src = true ∨ resolve (GetRealPath (FileUri_GetRealPath src)) ≠ resolve dp) →
  ∃ r s', DoCopy n src dest options s = Some (r, s') ∧
    (∀ p, p ≠ resolve dp → files (disk s') !! p = files (disk s) !! p) ∧
    (r = None → ∃ old, had (resolve dp) (files (disk s)) old ∧
       files (disk s') !! resolve dp = Some (NFile (data ++ drop (length data) old))).
Proof.
  intros dp Hst Hm Hrem Hsrc Hne.
  assert (ends (λ (r : option Z) (f' : tree), ∃ ret, written (resolve dp) data (files (disk s)) ret f' ∧ (r = None → ret = 0))
    (DoCopy n src dest options) s) as H; [|unfold ends, twp in H; destruct (DoCopy _ _ _ _ _) as [[r s']|]; [|done];
    destruct H as (ret & [Hel Hok] & Hr); exists r, s'; split_and!; [done..|auto]].
  eapply (DoCopy_ends n src dest options true); [intros e He; by apply written_same|done| |].
  - intros s1 H1. destruct (IsMediaUri src) eqn:E; [apply twp_ret; by rewrite H1|].
    unfold source_data in Hsrc. rewrite E in Hsrc. apply twp_bind, twp_core_disk, twp_status.
    + intros e d (He & _ & _ & k & Hk) _. by rewrite (Hst k) in Hk.
    + intros d Hd. rewrite <- H1 in Hsrc. destruct (files (disk s1) !! _) as [[]|]; try done.
      apply twp_ret. by rewrite disk_set, Hd.
  - intros s1 H1. apply (ExecLocal_file n s1 _ _ _ _ _ _ data Hm H1).
    + destruct Hne as [Ha|]; [left; by apply String.eqb_eq|by right].
    + injection H1 as _ Hsu _. unfold source_data, IsMediaUri in Hsrc. unfold reads. rewrite Hsu. exact Hsrc.
Qed.


(** *** A directory *)

(** What a directory copy needs of the tree it starts on. *)
Record copyable (n : nat) (sp dp : string) (f : tree) : Prop := {
  ca_dir : f !! resolve sp = Some NDir;
  ca_apart : apart (resolve sp) (resolve (target_dir sp dp));
  ca_src : wf_below (resolve sp) f;
  ca_dest : wf_below (resolve (target_dir sp dp)) f;
  ca_deep : deep (resolve sp) f n
}.

Lemma ExecCopy_dir n s su du sp dp lst f :
  (∀ u, media_open u ≠ inl 0) → never_fails F_scandir → types_reported → authority su ≠ MEDIA →
  copyable n sp dp f → view s = (f, (su, du, sp, dp, false, lst)) →
  ends (tree_copied (resolve sp) (resolve (target_dir sp dp)) f) (ExecCopy n) s.
Proof.
  intros Hm Hscan Hty Hau [Hd Ha Hws Hwd Hdeep] Hv. injection Hv as Hf Hsu Hdu Hsp Hdp HisF _.
  unfold ExecCopy. apply twp_bind, twp_get_infos. rewrite HisF, Hdp.
  apply twp_bind, twp_ret. cbn iota. apply twp_bind, twp_bind, twp_core_disk.
  assert (∀ (t : option node * Z) (d : fstate), files d = f →
    twp (let '(t, _) := t in sret (bool_decide (t = Some NDir)))
      (λ b, twp (if b : bool then
         _ ← set_infos (λ i, i <| srcPath := with_slash (srcPath i) |> <| destPath := with_slash (destPath i) |>);
         i ← get_infos; CopyDirFunc n (srcPath i) (destPath i)
       else sret EINVAL)
      (λ ret s', tree_copied (resolve sp) (resolve (target_dir sp dp)) f ret (files (disk s')))) (s <| disk := d |>)) as Hgo.
  2: { apply twp_status.
    - intros e d _ E. apply (Hgo (None, e)). congruence.
    - intros d E. refine (Hgo (match files (disk s) !! resolve dp with Some y => (Some y, 0) | None => (None, ENOENT) end) d _).
      congruence. }
  intros [t e] d H. apply twp_ret. case_bool_decide.
  2: { apply twp_ret. rewrite disk_set, H. by apply tree_copied_same. }
  apply twp_bind. change (twp (set_infos ?g) ?Q ?x) with (Q tt (x <| infos := g (infos x) |>)). cbv beta.
  set (s1 := _ <| infos := _ |>). assert (files (disk s1) = f) as Hf1 by exact H.
  assert (srcUri (infos s1) = su) as Hu by exact Hsu.
  apply twp_bind, twp_get_infos.
  change (srcPath (infos s1)) with (with_slash (srcPath (infos s))).
  change (destPath (infos s1)) with (with_slash (destPath (infos s))). rewrite Hsp, Hdp.
  unfold CopyDirFunc. destruct (String.prefix _ _); [apply twp_ret; rewrite Hf1; by apply tree_copied_same|].
  change (child (with_slash dp) _) with (target_dir sp dp).
  eapply twp_mono.
  - apply (core_CopySubDir_spec n); rewrite ?resolve_with_slash, ?Hf1, ?Hu; try done.
    by apply core_RecurCopyDir_spec.
  - intros ret s2 [_ Ht]. cbv beta. by rewrite resolve_with_slash, Hf1 in Ht.
Qed.

Lemma ExecLocal_dir n s su du sp dp lst f :
  (∀ u, media_open u ≠ inl 0) → never_fails F_scandir → types_reported → authority su ≠ MEDIA →
  copyable n sp dp f → view s = (f, (su, du, sp, dp, false, lst)) →
  ends (tree_copied (resolve sp) (resolve (target_dir sp dp)) f) (ExecLocal n) s.
Proof.
  intros Hm Hscan Hty Hau Hca Hv. pose proof Hv as Hv'. injection Hv' as Hf Hsu Hdu Hsp Hdp HisF Hlst.
  unfold ExecLocal. apply twp_bind, twp_get_infos. rewrite HisF, Hlst.
  apply twp_bind, twp_ret. unfold ERRNO_NOERR. cbn [Z.eqb negb].
  destruct lst; cbn [negb]; [|by eapply ExecCopy_dir].
  eapply ends_bind_steady; [|exact Hv|].
  { apply steady_Subscribe. right. destruct Hca. by split. }
  intros r s2 H2. destruct (r =? 0) eqn:Er; zbool; cbn [negb]; [by eapply ExecCopy_dir|].
  apply twp_ret. injection H2 as H2 _. rewrite H2. by apply tree_copied_same.
Qed.

(** C32: a directory copy that reports success copied the tree: for a local source directory
    and a target apart from it, when [stat] and [scandir] do not fail and the kinds of entries are
    reported, [DoCopy] always returns; nothing outside the target changes, no directory or file of
    the target is removed or replaced by something else; and if it answers no error, every
    directory of the source is in the target and every file is there with the data of the source
    first. *)
Theorem copy_directory_result (n : nat) (src dest : string) (options : option CopyOptions) (s : cstate) :
  let sp := GetRealPath (FileUri_GetRealPath src) in
  let dp := GetRealPath (FileUri_GetPath dest) in
  never_fails F_stat → never_fails F_scandir → types_reported → (∀ u, media_open u ≠ inl 0) →
  IsRemoteUri src = false → IsMediaUri src = false → copyable n sp dp (files (disk s)) →
  ∃ r s', DoCopy n src dest options s = Some (r, s') ∧
    (∀ p, ¬ resolve (target_dir sp dp) `prefix_of` p → files (disk s') !! p = files (disk s) !! p) ∧
    stays (files (disk s)) (files (disk s')) ∧
    (r = None → copied_below (resolve sp) (resolve (target_dir sp dp)) (files (disk s)) (files (disk s'))).
Proof.
  intros sp dp Hst Hscan Hty Hm Hrem Hmed Hca.
  assert (ends (λ (r : option Z) (f' : tree), ∃ ret,
    tree_copied (resolve sp) (resolve (target_dir sp dp)) (files (disk s)) ret f' ∧ (r = None → ret = 0))
    (DoCopy n src dest options) s) as H; [|unfold ends, twp in H; destruct (DoCopy _ _ _ _ _) as [[r s']|]; [|done];
    destruct H as (ret & [Hel Hs Hok] & Hr); exists r, s'; split; [done|split; [done|split; [done|auto]]]].
  apply (DoCopy_ends n src dest options false); [intros e He; by apply tree_copied_same|done| |].
  - intros s1 H1. rewrite Hmed. apply twp_bind, twp_core_disk, twp_status.
    + intros e d (He & _ & _ & k & Hk) _. by rewrite (Hst k) in Hk.
    + intros d Hd. destruct Hca as [Hdir _ _ _ _]. fold sp. rewrite H1, Hdir. apply twp_ret.
      rewrite disk_set. split; [done|congruence].
  - intros s1 H1. eapply (ExecLocal_dir n s1); [done..| |exact Hca|exact H1].
    intros E. unfold IsMediaUri in Hmed. apply String.eqb_neq in Hmed. by apply Hmed.
Qed.
End result.

(** ** Witnesses *)

#[local] Instance plain_fs : FsEnv.
Proof.
  refine {| fs_fault := λ _ _, 0; fs_partial := λ _, Some 2%nat; fs_dtype := λ _, true;
    fs_link := λ _, true; fs_order := λ l, l |}; done.
Defined.
(** URIs name a path after their scheme; the progress thread leaves no error. *)
#[local] Instance plain_copy : CopyEnv := {|
  authority := λ _, "";
  FileUri_GetRealPath := λ u, String.substring 7 (String.length u) u;
  FileUri_GetPath := λ u, String.substring 7 (String.length u) u;
  media_open := λ _, inl ENOENT; needCancel := λ _, false;
  k_inotify_init := λ _, inr 40; k_eventfd := λ _, inr 41; k_add_watch := λ n _, inr (Z.of_nat n);
  CopyFileFromSoftBus := λ _ _, 0; thread_exception := 0 |}.

Definition sample_tree : tree := list_to_map [
  ([], NDir); (["a"], NDir); (["a"; "f"], NFile [1; 2; 3]); (["a"; "sub"], NDir); (["a"; "sub"; "g"], NFile [4]);
  (["b"], NDir); (["b"; "old"], NFile [7; 7; 7; 7; 9]); (["b"; "a"], NDir); (["b"; "a"; "f"], NFile [8])]%string.
Definition no_infos : FsFileInfos := mkFsFileInfos "" "" "" "" false (-1) (-1) true false false ∅ 0.
Definition sample : cstate := mkcstate (FState sample_tree 0) no_infos ∅ [] {[ 3 ]} false.
Definition listening : option CopyOptions := Some (mkCopyOptions true false).
Lemma core_sample_wf : wf_tree sample_tree.
Proof. apply wf_treeb_sound. vm_compute. reflexivity. Qed.

Lemma copy_file_result_witness :
  ∃ r s', DoCopy 0 "file:///a/f" "file:///b/old" listening sample = Some (r, s') ∧ r = None ∧
    files (disk s') !! ["b"; "old"]%string = Some (NFile [1; 2; 3; 7; 9]).
Proof.
  destruct (copy_file_result 0 "file:///a/f" "file:///b/old" listening sample [1; 2; 3]) as (r & s' & E & _ & Hr).
  - by intros n.
  - done.
  - reflexivity.
  - vm_compute. reflexivity.
  - right. vm_compute. discriminate.
  - exists r, s'. split; [exact E|].
    assert (fst <$> DoCopy 0 "file:///a/f" "file:///b/old" listening sample = Some None) as Hn by (vm_compute; reflexivity).
    rewrite E in Hn. injection Hn as ->. split; [reflexivity|].
    destruct (Hr eq_refl) as (old & [Ho|[Ho _]] & Hd); [|by vm_compute in Ho].
    change (Some (NFile [7; 7; 7; 7; 9]) = Some (NFile old)) in Ho. injection Ho as <-. exact Hd.
Defined.

Lemma copy_directory_result_witness :
  ∃ r s', DoCopy 5 "file:///a" "file:///b" listening sample = Some (r, s') ∧ r = None ∧
    files (disk s') !! ["b"; "a"; "sub"; "g"]%string = Some (NFile [4]).
Proof.
  destruct (copy_directory_result 5 "file:///a" "file:///b" listening sample) as (r & s' & E & _ & _ & Hr).
  - by intros n.
  - by intros n.
  - by intros p.
  - done.
  - reflexivity.
  - reflexivity.
  - split.
    + reflexivity.
    + apply apart_dec_sound. vm_compute. reflexivity.
    + apply wf_tree_below, core_sample_wf.
    + apply wf_tree_below, core_sample_wf.
    + apply deepb_sound. vm_compute. reflexivity.
  - exists r, s'. split; [exact E|].
    assert (fst <$> DoCopy 5 "file:///a" "file:///b" listening sample = Some None) as Hn by (vm_compute; reflexivity).
    rewrite E in Hn. injection Hn as ->. split; [reflexivity|].
    destruct (Hr eq_refl ["sub"; "g"]%string (NFile [4])) as (old & [Ho|[Ho Ho']] & Hd); [reflexivity|by vm_compute in Ho|].
    rewrite Ho' in Hd. exact Hd.
Defined.

Lemma copy_leaves_nothing_witness :
  ∃ r s', DoCopy 5 "file:///a" "file:///b" listening sample = Some (r, s') ∧ open_fds s' = {[ 3 ]} ∧ callbackMap s' = ∅.
Proof.
  destruct (DoCopy 5 "file:///a" "file:///b" listening sample) as [[r s']|] eqn:E; [|by vm_compute in E].
  exists r, s'. split; [exact eq_refl|].
  destruct (copy_leaves_nothing 5 "file:///a" "file:///b" listening sample s' r) as [Hm Ho].
  - split; intros n fd [= <-]; (split; [lia|]); vm_compute; discriminate.
  - by intros n e.
  - exact E.
  - exact (conj Ho Hm).
Defined.
