(* ===== verification/CopyNotify.v ===== *)
(** * The progress thread of a copy

    Models the second half of [copy_core.cpp]: the thread [GetNotifyEvent] that reads
    the watches of a copy and reports progress, and the end of [DoCopy] that closes the
    descriptors under it and joins it.  The two threads, the kernel and whoever writes to
    the files take turns in any order; a turn is what one of them does between two points
    where the other can be seen.  [act] is one turn, executable, [None] when it cannot be
    taken; [run_acts] is a schedule.  An interrupted [read] is tried again and is no turn.
    The unlocked fields of [infos] are read and written as a whole.

    The kernel's side is that of Linux: closing a descriptor does not wake a [poll] that
    waits for it, an event that is queued does, and removing a watch queues one
    ([IN_IGNORED]); a [poll] that is woken looks at its descriptors again.  A watch goes by
    itself when its file or directory is removed.  Descriptor numbers are not used again
    while a copy runs. *)

From Stdlib Require Import Sorted.
From stdpp Require Import sorting.
From coqutil Require Import Datatypes.RecordSetters.
From S2P Require Import Prelude FsTree CopyCore.
Import TriangleBracketNotations.
#[local] Open Scope record_set.

(** An [inotify_event]: the watch and the name. *)
Record event := mkevent { ev_wd : Z; ev_name : string }.

(** At most this many events fit [BUF_SIZE] bytes, 16 and more each. *)
Definition MAX_EVENTS : nat := 64.
Definition EINTR : Z := 4.

(** ** The progress of a copy *)

(** [find_if] over the watches, and a change of what it finds. *)
Fixpoint find_wd (wd : Z) (l : list (Z * ReceiveInfo)) : option ReceiveInfo :=
  match l with
  | [] => None
  | (w, r) :: l => if w =? wd then Some r else find_wd wd l
  end.
Fixpoint update_wd (wd : Z) (r' : ReceiveInfo) (l : list (Z * ReceiveInfo)) : list (Z * ReceiveInfo) :=
  match l with
  | [] => []
  | (w, r) :: l => if w =? wd then (w, r') :: l else (w, r) :: update_wd wd r' l
  end.

Definition GetReceivedInfo (wd : Z) (callback : FsCallbackObject) : option ReceiveInfo := find_wd wd (wds callback).
Definition CheckFileValid (filePath : string) (i : FsFileInfos) : bool := bool_decide (filePath ∈ filePaths i).

(** [GetFileSize] answers an error and a size. *)
Definition file_sizes := string → Z * Z.

(** The entry of [filePath] set to [size]. *)
Definition record_size (wd : Z) (r : ReceiveInfo) (filePath : string) (size : Z) (l : list (Z * ReceiveInfo)) :=
  update_wd wd (mkReceiveInfo (ri_path r) (<[filePath := size]> (fileList r))) l.

Definition UpdateProgressSize (sizes : file_sizes) (filePath : string) (wd : Z) (receivedInfo : ReceiveInfo)
    (callback : FsCallbackObject) : Z * FsCallbackObject :=
  let '(err, size) := sizes filePath in
  if negb (err =? ERRNO_NOERR) then (err, callback) else
  match fileList receivedInfo !! filePath with
  | None =>
      (ERRNO_NOERR, callback <| wds := record_size wd receivedInfo filePath size (wds callback) |>
                             <| progressSize := progressSize callback +₆₄ size |>)
  | Some old =>
      (ERRNO_NOERR,
       if size >? old then
         callback <| wds := record_size wd receivedInfo filePath size (wds callback) |>
                  <| progressSize := progressSize callback +₆₄ (size -₆₄ old) |>
       else callback)
  end.

(** Go on, the error, report; and the callback. *)
Definition HandleProgress (sizes : file_sizes) (ev : event) (i : FsFileInfos) (callback : FsCallbackObject) :
    (bool * Z * bool) * FsCallbackObject :=
  match GetReceivedInfo (ev_wd ev) callback with
  | None => ((true, EINVAL, false), callback)
  | Some receivedInfo =>
      if negb (isFile i) then
        let fileName := child (ri_path receivedInfo) (ev_name ev) in
        if negb (CheckFileValid fileName i) then ((true, EINVAL, false), callback) else
        let '(err, callback) := UpdateProgressSize sizes fileName (ev_wd ev) receivedInfo callback in
        if negb (err =? ERRNO_NOERR) then ((false, err, false), callback)
        else ((true, errorCode callback, true), callback)
      else
        let '(err, fileSize) := sizes (ri_path receivedInfo) in
        if negb (err =? ERRNO_NOERR) then ((false, err, false), callback)
        else ((true, errorCode callback, true), callback <| progressSize := fileSize |>)
  end.

(** [GetUVEntry] and [ReceiveComplete]: the callback and what the listener is given. *)
Definition ReceiveComplete (callback : FsCallbackObject) : FsCallbackObject * list (Z * Z) :=
  let processedSize := progressSize callback in
  if processedSize <? maxProgressSize callback then (callback, []) else
  (callback <| maxProgressSize := processedSize |>,
   if listener callback then [(processedSize, totalSize callback)] else []).

(** ** Two threads *)

(** Where a thread is in [CloseNotifyFd]; at [C4] it closes the event descriptor, at [C5] it
    still has to remove these watches and then closes the other one. *)
Inductive cpc := C1 | C2 | C3 | C4 | C5 (l : list Z).
(** The copying thread: copying, closing, before [run = false], joining, returned. *)
Inductive mpc := MCopy | MClose (c : cpc) | MRun | MJoin | MDone.
(** The progress thread: the test of its loop, [poll], waiting in [poll], the first lock of
    [ReadNotifyEventLocked], [read], the events it got, the second lock, closing, the
    condition variable, returned. *)
Inductive rpc :=
  | RLoop | RPoll | RBlocked | RLock | RRead | REvents (buf : list event) | RUnlock | RClose (c : cpc) | RWait | RDone.
#[global] Instance mpc_eq_dec : EqDecision mpc.
Proof. intros x y. unfold Decision. repeat decide equality. Defined.
#[global] Instance rpc_eq_dec : EqDecision rpc.
Proof. intros x y. unfold Decision. decide equality; repeat decide equality. Defined.

Record nstate := mkn {
  n_infos : FsFileInfos;
  n_cb : FsCallbackObject;
  closed : bool;
  reading : bool;
  event_open : bool;                     (** the event descriptor is open *)
  event_closes : nat;                    (** how often it was closed *)
  fds_open : bool;                       (** the descriptor of the watches is open *)
  closes : nat;                          (** how often it was closed *)
  kwatches : gset Z;                     (** watches the kernel has *)
  queue : list event;                    (** events the kernel holds *)
  sizes : file_sizes;
  given : list (Z * Z);                  (** what the listener was given *)
  main : mpc;
  reader : rpc
}.

(** What a turn meets: the result of [poll], the number of events a [read] gives, whether
    it is time to report and there is memory for it, and whether the copy succeeded. *)
Record oracle := mkoracle { o_poll : Z; o_read : nat; o_report : bool; o_ok : bool }.

(** [inotify_rm_watch]; of a watch that is gone it is an error, which the code ignores. *)
Definition inotify_rm_watch (wd : Z) (s : nstate) : nstate :=
  if bool_decide (wd ∈ kwatches s)
  then s <| kwatches := kwatches s ∖ {[ wd ]} |> <| queue := queue s ++ [mkevent wd ""] |> else s.

(** One step of [CloseFd]: the event descriptor, a watch, or the descriptor of the watches. *)
Definition CloseFd_turn (rest : option (list Z)) (s : nstate) : nstate * option cpc :=
  match rest with
  | None =>
      let s := if cb_eventFd (n_cb s) =? -1 then s
               else s <| n_cb := (n_cb s) <| cb_eventFd := -1 |> |>
                      <| event_open := false |> <| event_closes := S (event_closes s) |> in
      (s, if cb_notifyFd (n_cb s) =? -1 then None else Some (C5 ((wds (n_cb s)).*1)))
  | Some (wd :: l) => (inotify_rm_watch wd s, Some (C5 l))
  | Some [] =>
      (s <| n_cb := (n_cb s) <| cb_notifyFd := -1 |> |> <| fds_open := false |> <| closes := S (closes s) |>, None)
  end.

(** One step of [CloseNotifyFd]. *)
Definition close_turn (c : cpc) (s : nstate) : nstate * option cpc :=
  match c with
  | C1 => (s <| closed := false |>, Some C2)
  | C2 => (s <| n_infos := (n_infos s) <| eventFd := -1 |> |>, Some C3)
  | C3 => (s <| n_infos := (n_infos s) <| notifyFd := -1 |> |>, Some C4)
  | C4 => CloseFd_turn None s
  | C5 l => CloseFd_turn (Some l) s
  end.

(** One event of the buffer, from the test of [run] on. *)
Definition event_turn (o : oracle) (ev : event) (buf : list event) (s : nstate) : nstate :=
  if negb (run (n_infos s)) then s <| reader := RUnlock |> else
  let '((needContinue, errCode, needSend), callback) := HandleProgress (sizes s) ev (n_infos s) (n_cb s) in
  let s := s <| n_cb := callback |> in
  if negb needContinue then
    s <| n_infos := (n_infos s) <| exceptionCode := errCode |> |> <| reader := RUnlock |>
  else if negb needSend then s <| reader := REvents buf |>
  else if progressSize callback =? totalSize callback then
    s <| n_infos := (n_infos s) <| run := false |> |> <| reader := RUnlock |>
  else if o_report o then
    let '(callback, out) := ReceiveComplete callback in
    s <| n_cb := callback |> <| given := given s ++ out |> <| reader := REvents buf |>
  else s <| reader := REvents buf |>.

(** [GetNotifyEvent], with [ReadNotifyEventLocked] and [ReadNotifyEvent]. *)
Definition reader_turn (o : oracle) (s : nstate) : option nstate :=
  let i := n_infos s in
  match reader s with
  | RLoop =>
      Some (s <| reader := if run i && (exceptionCode i =? ERRNO_NOERR) && negb (eventFd i =? -1) && negb (notifyFd i =? -1)
                           then RPoll else RDone |>)
  | RPoll =>
      if o_poll o =? 0 then
        if negb (event_open s) then Some (s <| n_infos := i <| run := false |> |> <| reader := RDone |>)
        else Some (s <| reader := match queue s with [] => RBlocked | _ => RLock end |>)
      else if o_poll o =? EINTR then Some (s <| reader := RLoop |>)
      else Some (s <| n_infos := i <| exceptionCode := o_poll o |> |> <| reader := RDone |>)
  | RBlocked =>
      if o_poll o =? EINTR then Some (s <| reader := RLoop |>)
      else match queue s with [] => None | _ => Some (s <| reader := RPoll |>) end
  | RLock => Some (if closed s then s <| reader := RWait |> else s <| reading := true |> <| reader := RRead |>)
  | RRead =>
      if negb (run i) || (notifyFd i =? -1) || negb (fds_open s) then Some (s <| reader := REvents [] |>)
      else match queue s with
           | [] => None
           | q => let n := Nat.max 1 (Nat.min (o_read o) MAX_EVENTS) in
                  Some (s <| queue := drop n q |> <| reader := REvents (take n q) |>)
           end
  | REvents [] => Some (s <| reader := RUnlock |>)
  | REvents (ev :: buf) => Some (event_turn o ev buf s)
  | RUnlock => Some (s <| reading := false |> <| reader := if closed s then RClose C1 else RWait |>)
  | RClose c =>
      let '(s, next) := close_turn c s in
      Some (s <| reader := match next with Some c => RClose c | None => RWait end |>)
  | RWait => Some (s <| reader := RLoop |>)
  | RDone => None
  end.

Definition CopyComplete (s : nstate) : nstate :=
  let '(callback, out) := ReceiveComplete ((n_cb s) <| progressSize := totalSize (n_cb s) |>) in
  s <| n_cb := callback |> <| given := given s ++ out |>.

(** The end of [DoCopy]: [CloseNotifyFdLocked], [run = false], the join and
    [CopyComplete]. *)
Definition main_turn (o : oracle) (s : nstate) : option nstate :=
  match main s with
  | MCopy => Some (s <| closed := true |> <| main := if reading s then MRun else MClose C1 |>)
  | MClose c =>
      let '(s, next) := close_turn c s in
      Some (s <| main := match next with Some c => MClose c | None => MRun end |>)
  | MRun => Some (s <| n_infos := (n_infos s) <| run := false |> |> <| main := MJoin |>)
  | MJoin =>
      if bool_decide (reader s = RDone)
      then Some ((if o_ok o then CopyComplete s else s) <| main := MDone |>) else None
  | MDone => None
  end.

(** The copy and the rest of the world: a file changes its size, an event comes, a watched
    file or directory is removed, the copy watches a directory or begins with a file. *)
Inductive change :=
  Write (p : string) (r : Z * Z) | Notify (ev : event) | Gone (wd : Z) | Watch (wd : Z) (p : string) | Begin (p : string).
Definition world_turn (c : change) (s : nstate) : option nstate :=
  match c with
  | Write p r => if (0 <=? r.2) && (r.2 <? 2 ^ 64) then Some (s <| sizes := λ q, if (q =? p)%string then r else sizes s q |>) else None
  | Notify ev => if fds_open s then Some (s <| queue := queue s ++ [ev] |>) else None
  | Gone wd => if bool_decide (wd ∈ kwatches s) then Some (inotify_rm_watch wd s) else None
  | Watch wd p =>
      if bool_decide (main s = MCopy)
      then Some (s <| n_cb := (n_cb s) <| wds := wds (n_cb s) ++ [(wd, mkReceiveInfo p ∅)] |> |>
                   <| kwatches := {[ wd ]} ∪ kwatches s |>) else None
  | Begin p =>
      if bool_decide (main s = MCopy)
      then Some (s <| n_infos := (n_infos s) <| filePaths := {[ p ]} ∪ filePaths (n_infos s) |> |>) else None
  end.

Inductive turn := Main (o : oracle) | Reader (o : oracle) | World (c : change).
Definition act (t : turn) (s : nstate) : option nstate :=
  match t with Main o => main_turn o s | Reader o => reader_turn o s | World c => world_turn c s end.
Fixpoint run_acts (l : list turn) (s : nstate) : option nstate :=
  match l with
  | [] => Some s
  | t :: l => match act t s with Some s => run_acts l s | None => None end
  end.

(** Just after [StartNotify]: the descriptors are open, the target is watched and nothing
    was counted. *)
Record initial (s : nstate) : Prop := {
  in_main : main s = MCopy;
  in_reader : reader s = RLoop;
  in_closed : closed s = false;
  in_reading : reading s = false;
  in_open : event_open s = true ∧ fds_open s = true;
  in_cb : cb_eventFd (n_cb s) ≠ -1 ∧ cb_notifyFd (n_cb s) ≠ -1;
  in_closes : event_closes s = 0%nat ∧ closes s = 0%nat;
  in_watched : wds (n_cb s) ≠ [] ∧ kwatches s = list_to_set (wds (n_cb s)).*1;
  in_given : given s = [];
  in_progress : progressSize (n_cb s) = 0 ∧ maxProgressSize (n_cb s) = 0;
  in_wds : Forall (λ item, fileList item.2 = ∅) (wds (n_cb s));
  in_sizes : ∀ p, 0 <= (sizes s p).2 < 2 ^ 64
}.
Definition reachable (s : nstate) : Prop := ∃ s0 l, initial s0 ∧ run_acts l s0 = Some s.
(** Reachable while the watch [wd], one of the first, does not go by itself. *)
Definition reachable_watched (wd : Z) (s : nstate) : Prop :=
  ∃ s0 l, initial s0 ∧ wd ∈ (wds (n_cb s0)).*1 ∧ World (Gone wd) ∉ l ∧ run_acts l s0 = Some s.

(** ** Invariants *)

Lemma reachable_ind (I : nstate → Prop) :
  (∀ s, initial s → I s) → (∀ t s s', I s → act t s = Some s' → I s') → ∀ s, reachable s → I s.
Proof.
  intros H0 Hs s (s0 & l & Hi & Hr). apply H0 in Hi. revert s0 Hi Hr.
  induction l as [|t l IH]; intros s0 Hi Hr; cbn in Hr; [by simplify_eq|].
  destruct (act t s0) as [s1|] eqn:E; [|done]. eapply IH; [|exact Hr]. by eapply Hs.
Qed.

Definition in_read (r : rpc) : bool := match r with RRead | REvents _ | RUnlock => true | _ => false end.
Definition closing (r : rpc) : option cpc := match r with RClose c => Some c | _ => None end.

(** The two descriptors, open or closed once. *)
Definition event_is (o : bool) (s : nstate) : Prop :=
  event_open s = o ∧ event_closes s = (if o then 0 else 1)%nat ∧ (cb_eventFd (n_cb s) = -1 ↔ o = false).
Definition notify_is (o : bool) (s : nstate) : Prop :=
  fds_open s = o ∧ closes s = (if o then 0 else 1)%nat ∧ (cb_notifyFd (n_cb s) = -1 ↔ o = false).
(** What [CloseNotifyFd] has done before a step. *)
Definition before (c : cpc) (s : nstate) : Prop :=
  notify_is true s ∧ event_is (match c with C5 _ => false | _ => true end) s ∧
  closed s = match c with C1 => true | _ => false end ∧
  (match c with C1 | C2 => True | _ => eventFd (n_infos s) = -1 end) ∧
  (match c with C1 | C2 | C3 => True | _ => notifyFd (n_infos s) = -1 end).
(** It is over. *)
Definition shut (s : nstate) : Prop :=
  notify_is false s ∧ event_is false s ∧ closed s = false ∧ eventFd (n_infos s) = -1 ∧ notifyFd (n_infos s) = -1.
Definition opened_fds (s : nstate) : Prop := notify_is true s ∧ event_is true s.

(** Who closes. *)
Definition phase (s : nstate) : Prop :=
  match main s with
  | MCopy => opened_fds s ∧ closed s = false ∧ closing (reader s) = None
  | MClose c => before c s ∧ closing (reader s) = None ∧ (c = C1 → in_read (reader s) = false)
  | MRun | MJoin | MDone =>
      shut s ∧ closing (reader s) = None
      ∨ opened_fds s ∧ closed s = true ∧ in_read (reader s) = true
      ∨ ∃ c, reader s = RClose c ∧ before c s
  end.
Record inv (s : nstate) : Prop := {
  i_phase : phase s;
  i_reading : reading s = in_read (reader s);
  i_buf : match reader s with REvents buf => (length buf <= MAX_EVENTS)%nat | _ => True end;
  i_queue : (reader s = RLock ∨ reader s = RRead) → fds_open s = true → queue s ≠ [];
  i_done : main s = MDone → reader s = RDone
}.

Lemma initial_inv s : initial s → inv s.
Proof.
  intros [Hm Hr Hc Hrd [Ho1 Ho2] [Hcb1 Hcb2] [Hn1 Hn2] _ _ _ _ _]. split; rewrite ?Hr; try done.
  - unfold phase. rewrite Hm, Hr. by repeat split.
  - by intros [?|?].
  - by rewrite Hm.
Qed.

(** Progress changes the callback in its counters only. *)
Definition fds_of (c : FsCallbackObject) : Z * Z * list Z := (cb_eventFd c, cb_notifyFd c, (wds c).*1).

Lemma update_wd_wds wd r l : (update_wd wd r l).*1 = l.*1.
Proof.
  induction l as [|[w r'] l IH]; [done|]. cbn [update_wd]. destruct (w =? wd); [done|]. cbn [fmap list_fmap fst]. by f_equal.
Qed.
Lemma HandleProgress_fds sz ev i c : fds_of (HandleProgress sz ev i c).2 = fds_of c.
Proof.
  unfold HandleProgress, UpdateProgressSize, record_size. repeat (case_match; simplify_eq; try done).
  all: apply (f_equal (pair _)), update_wd_wds.
Qed.
Lemma ReceiveComplete_fds c : fds_of (ReceiveComplete c).1 = fds_of c.
Proof. unfold ReceiveComplete. by destruct (_ <? _). Qed.

(** What a turn on an event leaves alone. *)
Record same_fds (s s' : nstate) : Prop := {
  sf_cb : fds_of (n_cb s') = fds_of (n_cb s);
  sf_event : eventFd (n_infos s') = eventFd (n_infos s);
  sf_notify : notifyFd (n_infos s') = notifyFd (n_infos s);
  sf_rest : closed s' = closed s ∧ reading s' = reading s ∧ fds_open s' = fds_open s ∧ closes s' = closes s ∧
            event_open s' = event_open s ∧ event_closes s' = event_closes s ∧ kwatches s' = kwatches s ∧
            main s' = main s
}.
Lemma same_fds_event o s s' : same_fds s s' → event_is o s → event_is o s'.
Proof.
  intros [H1 _ _ (_ & _ & _ & _ & H2 & H3 & _)]. unfold event_is. rewrite H2, H3.
  injection H1 as H1 _ _. by rewrite H1.
Qed.
Lemma same_fds_notify o s s' : same_fds s s' → notify_is o s → notify_is o s'.
Proof.
  intros [H1 _ _ (_ & _ & H2 & H3 & _)]. unfold notify_is. rewrite H2, H3. injection H1 as _ H1 _. by rewrite H1.
Qed.

Lemma event_turn_fds o ev buf s :
  same_fds s (event_turn o ev buf s) ∧
  (reader (event_turn o ev buf s) = RUnlock ∨ reader (event_turn o ev buf s) = REvents buf).
Proof.
  unfold event_turn. destruct (run (n_infos s)); cbn [negb]; [|split; [done|by left]].
  pose proof (HandleProgress_fds (sizes s) ev (n_infos s) (n_cb s)) as H.
  destruct (HandleProgress _ _ _ _) as [[[b e] b'] c]. cbn [snd] in H.
  destruct b; cbn [negb]; [|split; [done|by left]]. destruct b'; cbn [negb]; [|split; [done|by right]].
  destruct (_ =? _); [split; [done|by left]|]. destruct (o_report o); [|split; [done|by right]].
  pose proof (ReceiveComplete_fds c) as H2. destruct (ReceiveComplete c) as [c' out]. cbn [fst] in H2.
  split; [|by right]. split; [change (fds_of c' = fds_of (n_cb s)); congruence|done..].
Qed.

(** [CloseNotifyFd] goes from step to step; what it does to the queue and the watches. *)
Lemma inotify_rm_watch_spec wd s :
  let s' := inotify_rm_watch wd s in
  same_fds s (s' <| kwatches := kwatches s |>) ∧ reader s' = reader s ∧
  (queue s ≠ [] → queue s' ≠ []) ∧ (wd ∈ kwatches s → queue s' ≠ []) ∧
  kwatches s' = kwatches s ∖ {[ wd ]}.
Proof.
  cbn. unfold inotify_rm_watch. case_bool_decide as H; (split; [done|]); (split; [done|]).
  - split; [intros _|split; [intros _|done]]; change (queue s ++ [mkevent wd ""] ≠ []); by destruct (queue s).
  - cbn. split; [done|]. split; [done|]. set_solver.
Qed.

Lemma close_turn_before c s s' next :
  before c s → close_turn c s = (s', next) →
  main s' = main s ∧ reader s' = reader s ∧ reading s' = reading s ∧ (queue s ≠ [] → queue s' ≠ []) ∧
  match next with Some c' => before c' s' ∧ c' ≠ C1 | None => shut s' end.
Proof.
  intros (Hn & He & Hc & Hi & Hj) E. destruct c as [| | | |[|wd l]]; cbn [close_turn CloseFd_turn] in E.
  1-3: injection E as <- <-; do 4 (split; [done|]); by split; [split_and!|].
  - destruct Hn as (Hn1 & Hn2 & Hn3), He as (He1 & He2 & He3).
    destruct (Z.eqb_spec (cb_eventFd (n_cb s)) (-1)) as [H|_]; [by apply He3 in H|].
    assert ((cb_notifyFd (n_cb s) =? -1) = false) as H by (apply Z.eqb_neq; by intros H%Hn3).
    cbv zeta in E. change (cb_notifyFd (n_cb (_ <| event_closes := _ |>))) with (cb_notifyFd (n_cb s)) in E. rewrite H in E.
    injection E as <- <-. do 4 (split; [done|]).
    split; [|done].
    split; [by split_and!|]. split; [|by split_and!]. unfold event_is. split; [done|]. split; [cbn; by rewrite He2|done].
  - injection E as <- <-. destruct Hn as (Hn1 & Hn2 & Hn3). do 4 (split; [done|]).
    split; [|by split_and!]. split; [done|]. split; [cbn; by rewrite Hn2|done].
  - injection E as <- <-. pose proof (inotify_rm_watch_spec wd s) as (_ & _ & H & _).
    unfold inotify_rm_watch in *. case_bool_decide; do 3 (split; [done|]); (split; [exact H|]);
      by split; [split_and!|].
Qed.

Lemma main_turn_inv o s s' : inv s → main_turn o s = Some s' → inv s'.
Proof.
  intros [Hp Hr Hb Hq Hd] E. unfold main_turn, phase in *. destruct (main s) eqn:Em.
  - injection E as <-. destruct Hp as ([Hn He] & Hc & Hcl). split; [|exact Hr|exact Hb|exact Hq|cbn; by destruct (reading s)].
    unfold phase. cbn. rewrite Hr. destruct (in_read (reader s)) eqn:Ei; [right; left; done|].
    by split; [split_and!|].
  - destruct (close_turn c s) as [s1 next] eqn:Ec. injection E as <-. destruct Hp as (Hbef & Hcl & H1).
    destruct (close_turn_before c s s1 next Hbef Ec) as (Hm & Hrd & Hre & Hqu & Hn).
    destruct s1 as [i1 c1 cl1 rd1 eo1 en1 o1 n1 k1 q1 sz1 g1 m1 r1]. cbn in Hm, Hrd, Hre, Hqu. subst m1 r1 rd1.
    split; cbn; [|exact Hr|exact Hb| |by destruct next].
    + unfold phase. cbn. destruct next as [c'|]; [|left; split; [exact Hn|done]].
      destruct Hn as [Hn Hne]. split; [exact Hn|]. split; [done|]. intros E'. by destruct (Hne E').
    + intros H Ho. apply Hqu, Hq; [done|]. by destruct Hbef as ((-> & _) & _).
  - injection E as <-. by split.
  - case_bool_decide as Hdone; [|done]. injection E as <-. rewrite Hdone in *.
    destruct Hp as [[Hsh Hcl]|[(_ & _ & [=])|(c & [=] & _)]].
    assert (shut (if o_ok o then CopyComplete s else s)) as Hsh'.
    { destruct (o_ok o); [|exact Hsh]. destruct Hsh as (Hn & He & H).
      pose proof (ReceiveComplete_fds ((n_cb s) <| progressSize := totalSize (n_cb s) |>)) as H6.
      unfold CopyComplete. destruct (ReceiveComplete _) as [c' out]. cbn [fst] in H6. injection H6 as H6 H7 _.
      unfold shut, notify_is, event_is. split_and!; try apply Hn; try apply He; try apply H.
      all: change (n_cb (_ <| given := _ |>)) with c'; rewrite ?H6, ?H7; first [apply Hn|apply He]. }
    assert (reader (if o_ok o then CopyComplete s else s) = RDone ∧
            reading (if o_ok o then CopyComplete s else s) = reading s) as [H1 H2].
    { destruct (o_ok o); [|done]. unfold CopyComplete. by destruct (ReceiveComplete _). }
    destruct (if o_ok o then _ else _) as [i1 c1 cl1 rd1 eo1 en1 o1 n1 k1 q1 sz1 g1 m1 r1].
    cbn in H1, H2. subst. split; cbn; try done; [|by intros [?|?]]. by left.
  - done.
Qed.

Lemma same_fds_before c s s' : same_fds s s' → before c s → before c s'.
Proof.
  intros H (Hn & He & H'). split; [by eapply same_fds_notify|]. split; [by eapply same_fds_event|].
  destruct H as [_ H2 H3 (H4 & _)]. by rewrite H2, H3, H4.
Qed.
Lemma same_fds_shut s s' : same_fds s s' → shut s → shut s'.
Proof.
  intros H (Hn & He & H'). split; [by eapply same_fds_notify|]. split; [by eapply same_fds_event|].
  destruct H as [_ H2 H3 (H4 & _)]. by rewrite H2, H3, H4.
Qed.
Lemma same_fds_opened s s' : same_fds s s' → opened_fds s → opened_fds s'.
Proof. intros H [? ?]. split; [by eapply same_fds_notify|by eapply same_fds_event]. Qed.

(** A turn of the reader that moves no descriptor and stays in or out of [ReadNotifyEvent]. *)
Lemma same_fds_phase s s' :
  same_fds s s' → closing (reader s) = None → closing (reader s') = None → in_read (reader s') = in_read (reader s) →
  phase s → phase s'.
Proof.
  intros Hs Hc Hc' Hir. pose proof Hs as [_ _ _ (Hcl & _ & _ & _ & _ & _ & _ & Hm)]. unfold phase. rewrite Hm, Hc', Hir, Hcl.
  assert (shut s ∧ closing (reader s) = None ∨ opened_fds s ∧ closed s = true ∧ in_read (reader s) = true
            ∨ (∃ c, reader s = RClose c ∧ before c s) →
          shut s' ∧ None = @None cpc ∨ opened_fds s' ∧ closed s = true ∧ in_read (reader s) = true
            ∨ (∃ c, reader s' = RClose c ∧ before c s')) as H3.
  { intros [[H _]|[(H & ? & ?)|(c & E & _)]]; [|right; left|by rewrite E in Hc].
    - left. split; [by eapply same_fds_shut|done].
    - split; [by eapply same_fds_opened|done]. }
  destruct (main s); [| |exact H3..].
  - intros (H & ? & _). split; [by eapply same_fds_opened|done].
  - intros (H & ? & ?). split; [by eapply same_fds_before|done].
Qed.

(** A turn that moves the reader but no descriptor. *)
Lemma reader_moved s s' :
  inv s → same_fds s s' → main s ≠ MDone → closing (reader s) = None → closing (reader s') = None →
  in_read (reader s') = in_read (reader s) →
  match reader s' with REvents buf => (length buf <= MAX_EVENTS)%nat | _ => True end →
  (reader s' = RLock ∨ reader s' = RRead → fds_open s' = true → queue s' ≠ []) → inv s'.
Proof.
  intros [Hp Hr _ _ Hd] Hs Hm Hc Hc' Hir Hb Hq. pose proof Hs as [_ _ _ (_ & H2 & _ & _ & _ & _ & _ & H5)].
  split; [by eapply same_fds_phase|by rewrite H2, Hr, Hir|done|done|]. by rewrite H5.
Qed.

Ltac at_main s := match goal with |- context [main ?x] => change (main x) with (main s) end.
Ltac moved s Er := apply (reader_moved s); rewrite ?Er; try done; try (by intros [[=]|[=]]).

(** The first lock of a turn of the reader, which nobody asked to close. *)
Lemma first_lock_inv s :
  inv s → main s ≠ MDone → reader s = RLock → closed s = false →
  inv (s <| reading := true |> <| reader := RRead |>).
Proof.
  intros Hi Hnd Er Ec. pose proof Hi as [Hp Hr Hb Hq Hd].
  split; try done; [|by intros _; apply Hq; left]. unfold phase in *.
  at_main s. rewrite Er in Hp.
  destruct (main s) as [|c| | |]; cbv iota in Hp |- *.
  * destruct Hp as (H1 & H2 & _). split; [exact H1|by split].
  * destruct Hp as (H1 & _ & _). split; [exact H1|]. split; [done|]. intros ->.
    destruct H1 as (_ & _ & H4 & _). by rewrite Ec in H4.
  * destruct Hp as [[H1 _]|[(_ & _ & [=])|(c & [=] & _)]]. left. by split; [exact H1|].
  * destruct Hp as [[H1 _]|[(_ & _ & [=])|(c & [=] & _)]]. left. by split; [exact H1|].
  * done.
Qed.
(** The second one, after which it closes the descriptors if it was asked to. *)
Lemma second_lock_inv s :
  inv s → main s ≠ MDone → reader s = RUnlock →
  inv (s <| reading := false |> <| reader := if closed s then RClose C1 else RWait |>).
Proof.
  intros Hi Hnd Er. pose proof Hi as [Hp Hr Hb Hq Hd].
  destruct (closed s) eqn:Ec.
  + split; try done; [|by intros [[=]|[=]]]. unfold phase in *. rewrite Er in Hp.
    at_main s. destruct (main s) as [|c| | |]; cbv iota in Hp |- *.
    * destruct Hp as (_ & H2 & _). by rewrite Ec in H2.
    * destruct Hp as ((_ & _ & H4 & _) & _ & H1). destruct c; rewrite Ec in H4; try done. by specialize (H1 eq_refl).
    * destruct Hp as [[(_ & _ & H4 & _) _]|[((H1 & H2) & _ & _)|(c & [=] & _)]]; [by rewrite Ec in H4|].
      right; right. exists C1. by split; [|split_and!].
    * destruct Hp as [[(_ & _ & H4 & _) _]|[((H1 & H2) & _ & _)|(c & [=] & _)]]; [by rewrite Ec in H4|].
      right; right. exists C1. by split; [|split_and!].
    * done.
  + split; try done; [|by intros [[=]|[=]]]. unfold phase in *. rewrite Er in Hp.
    at_main s. destruct (main s) as [|c| | |]; cbv iota in Hp |- *.
    * destruct Hp as (H1 & H2 & _). split; [exact H1|by split].
    * destruct Hp as (H1 & _ & H3). split; [exact H1|by split].
    * destruct Hp as [[H1 _]|[(_ & H4 & _)|(c & [=] & _)]]; [left; by split; [exact H1|]|by rewrite Ec in H4].
    * destruct Hp as [[H1 _]|[(_ & H4 & _)|(c & [=] & _)]]; [left; by split; [exact H1|]|by rewrite Ec in H4].
    * done.
Qed.
(** A step of closing them. *)
Lemma reader_close_inv c s :
  inv s → main s ≠ MDone → reader s = RClose c →
  inv (let '(s, next) := close_turn c s in s <| reader := match next with Some c => RClose c | None => RWait end |>).
Proof.
  intros Hi Hnd Er. pose proof Hi as [Hp Hr Hb Hq Hd]. rewrite Er in Hr.
  destruct (close_turn c s) as [s1 next] eqn:Ec.
  assert (before c s ∧ (main s = MRun ∨ main s = MJoin)) as [Hbef Hm].
  { unfold phase in Hp. rewrite Er in Hp. destruct (main s) as [| | | |]; cbv iota in Hp |- *.
    - by destruct Hp as (_ & _ & [=]).
    - by destruct Hp as (_ & [=] & _).
    - destruct Hp as [[_ [=]]|[(_ & _ & [=])|(c' & [= <-] & H)]]. split; [done|by left].
    - destruct Hp as [[_ [=]]|[(_ & _ & [=])|(c' & [= <-] & H)]]. split; [done|by right].
    - done. }
  destruct (close_turn_before c s s1 next Hbef Ec) as (Hm1 & _ & Hr1 & _ & Hn).
  split; [|destruct next; change (reading s1 = false); by rewrite Hr1
          |by destruct next|by destruct next; intros [[=]|[=]]|].
  + unfold phase. at_main s1. rewrite Hm1.
    destruct next as [c'|].
    * destruct Hn as [Hn _]. destruct Hm as [->| ->]; right; right; exists c'; by split; [|exact Hn].
    * destruct Hm as [->| ->]; left; by split; [exact Hn|].
  + at_main s1. rewrite Hm1. by destruct Hm as [->| ->].
Qed.

Lemma reader_turn_inv o s s' : inv s → reader_turn o s = Some s' → inv s'.
Proof.
  intros Hi E. pose proof Hi as [Hp Hr Hb Hq Hd].
  assert (main s ≠ MDone) as Hnd.
  { intros Hm. unfold reader_turn in E. by rewrite (Hd Hm) in E. }
  destruct (reader s) as [| | | | |[|ev buf]| |c| |] eqn:Er; unfold reader_turn in E; rewrite Er in E.
  - (* the loop *)
    injection E as <-. destruct (run _ && _ && _ && _); moved s Er.
  - destruct (o_poll o =? 0).
    + destruct (event_open s) eqn:Eo; cbn [negb] in E; injection E as <-; [|moved s Er].
      destruct (queue s) as [|ev q] eqn:Eq; moved s Er. intros _ _. change (queue s ≠ []). by rewrite Eq.
    + destruct (o_poll o =? EINTR); injection E as <-; moved s Er.
  - (* waiting in [poll] *)
    destruct (o_poll o =? EINTR); [injection E as <-; moved s Er|].
    destruct (queue s) as [|ev q] eqn:Eq; [done|]. injection E as <-. moved s Er.
  - (* the first lock *)
    injection E as <-. destruct (closed s) eqn:Ec.
    + moved s Er.
    + by apply first_lock_inv.
  - destruct (negb _ || _ || _).
    + injection E as <-. moved s Er. cbn. unfold MAX_EVENTS. lia.
    + destruct (queue s) as [|ev q] eqn:Eq; [done|]. injection E as <-.
      moved s Er.
      change (length (take (Nat.max 1 (Nat.min (o_read o) MAX_EVENTS)) (ev :: q)) <= MAX_EVENTS)%nat.
      rewrite length_take. unfold MAX_EVENTS. lia.
  - injection E as <-. moved s Er.
  - injection E as <-. destruct (event_turn_fds o ev buf s) as [Hs Hrd].
    cbn in Hb. apply (reader_moved s); rewrite ?Er; try done; destruct Hrd as [->| ->]; try done.
    1: lia. all: by intros [[=]|[=]].
  - (* the second lock *)
    injection E as <-. by apply second_lock_inv.
  - (* closing *)
    pose proof (reader_close_inv c s Hi Hnd Er) as H. destruct (close_turn c s) as [s1 next]. by injection E as <-.
  - injection E as <-. moved s Er.
  - done.
Qed.

Lemma world_turn_inv c s s' : inv s → world_turn c s = Some s' → inv s'.
Proof.
  intros [Hp Hr Hb Hq Hd] E. destruct c; cbn [world_turn] in E.
  - destruct (_ && _); [|done]. injection E as <-. by split.
  - destruct (fds_open s) eqn:Eo; [|done]. injection E as <-. split; try done.
    intros H _. change (queue s ++ [ev] ≠ []). by destruct (queue s).
  - destruct (bool_decide _) eqn:Ek; [|done]. injection E as <-. unfold inotify_rm_watch. rewrite Ek.
    split; try done. intros _ _. change (queue s ++ [mkevent wd ""] ≠ []). by destruct (queue s).
  - case_bool_decide as Hm; [|done]. injection E as <-. by split.
  - case_bool_decide as Hm; [|done]. injection E as <-. by split.
Qed.

Lemma reachable_inv s : reachable s → inv s.
Proof.
  revert s. apply reachable_ind; [apply initial_inv|]. intros [o|o|c] s s' Hi E.
  - by eapply main_turn_inv.
  - by eapply reader_turn_inv.
  - by eapply world_turn_inv.
Qed.

Lemma phase_fds s :
  phase s → opened_fds s ∨ (∃ l, before (C5 l) s ∧ main s ≠ MDone) ∨ (∃ l, before (C5 l) s ∧ reader s ≠ RDone) ∨ shut s.
Proof.
  assert (∀ c, before c s → opened_fds s ∨ ∃ l, c = C5 l) as Hb.
  { intros c (? & ? & _). destruct c as [| | | |l]; [by left; split..|]. right. by eexists. }
  unfold phase. destruct (main s) eqn:Em.
  - intros [? _]. by left.
  - intros (H & _). destruct (Hb _ H) as [?|[l ->]]; [by left|]. right; left. by exists l.
  - intros [[? _]|[[? _]|(c & Hr & H)]]; [by right; right; right|by left|].
    destruct (Hb _ H) as [?|[l ->]]; [by left|]. right; left. by exists l.
  - intros [[? _]|[[? _]|(c & Hr & H)]]; [by right; right; right|by left|].
    destruct (Hb _ H) as [?|[l ->]]; [by left|]. right; left. by exists l.
  - intros [[? _]|[[? _]|(c & Hr & H)]]; [by right; right; right|by left|].
    destruct (Hb _ H) as [?|[l ->]]; [by left|]. right; right; left. exists l. by rewrite Hr.
Qed.

(** C34: the two threads close the two descriptors of a copy exactly once between them: in
    every interleaving each is closed at most once, and when the copy returns they are
    closed and the progress thread has ended. *)
Theorem descriptors_closed_once (s : nstate) :
  reachable s →
  (closes s <= 1)%nat ∧ (fds_open s = true ↔ closes s = 0%nat) ∧
  (event_closes s <= 1)%nat ∧ (event_open s = true ↔ event_closes s = 0%nat) ∧
  (main s = MDone → reader s = RDone ∧ fds_open s = false ∧ closes s = 1%nat ∧
     event_open s = false ∧ event_closes s = 1%nat).
Proof.
  intros Hs%reachable_inv. destruct Hs as [Hp _ _ _ Hd].
  destruct (phase_fds s Hp) as [[Hn He]|[(l & (Hn & He & _) & Hm)|[(l & (Hn & He & _) & Hm)|(Hn & He & _)]]];
    pose proof Hn as (-> & -> & _); pose proof He as (-> & -> & _); do 2 (split; [lia|]; split; [done|]);
    intros Hm'; try done; rewrite (Hd Hm') in *; try done.
  exfalso. unfold phase in Hp. rewrite Hm', (Hd Hm') in Hp.
  destruct Hp as [[(H & _) _]|[(_ & _ & [=])|(c & [=] & _)]]. destruct H as (H & _), Hn as (Hn & _). congruence.
Qed.

(** ** The join *)

(** How many turns the progress thread can still take once the copy is over, with this
    many watches. *)
Definition left_to_do (watches : nat) (r : rpc) : nat :=
  match r with
  | RDone => 0 | RLoop => 1 | RPoll => 2 | RWait => 2 | RBlocked => 3
  | RClose (C5 l) => 3 + length l
  | RClose C4 => 4 + watches | RClose C3 => 5 + watches | RClose C2 => 6 + watches | RClose C1 => 7 + watches
  | RUnlock => 8 + watches | REvents buf => 9 + watches + length buf
  | RRead => 10 + watches + MAX_EVENTS | RLock => 11 + watches + MAX_EVENTS
  end.
Definition main_left (m : mpc) : nat := match m with MDone => 0 | MJoin => 1 | _ => 2 end.
Definition watched (s : nstate) : nat := length (wds (n_cb s)).
Definition after_copy (s : nstate) : bool := match main s with MRun | MJoin | MDone => true | _ => false end.
Definition is_thread (t : turn) : bool := match t with World _ => false | _ => true end.
Definition thread_turns (l : list turn) : nat := length (List.filter is_thread l).

Lemma after_copy_shut s : inv s → after_copy s = true → in_read (reader s) = false → closing (reader s) = None → shut s.
Proof.
  intros [Hp _ _ _ _] Ha Hr Hc. unfold after_copy in Ha. unfold phase in Hp.
  destruct (main s); try done; destruct Hp as [[H _]|[(_ & _ & H)|(c & H & _)]]; try done; by rewrite H in *.
Qed.

(** Turns keep the watches that are known, but for one that adds some. *)
Lemma fds_of_watched c c' : fds_of c' = fds_of c → length (wds c') = length (wds c).
Proof. intros [= _ _ H]. by rewrite <- !(length_fmap fst), H. Qed.
Lemma close_turn_wds c s : (wds (n_cb (close_turn c s).1)).*1 = (wds (n_cb s)).*1.
Proof.
  destruct c as [| | | |[|wd l]]; cbn [close_turn CloseFd_turn]; try done.
  - by destruct (_ =? -1).
  - unfold inotify_rm_watch. by case_bool_decide.
Qed.
Lemma CopyComplete_wds s : (wds (n_cb (CopyComplete s))).*1 = (wds (n_cb s)).*1.
Proof. unfold CopyComplete, ReceiveComplete. by repeat case_match; simplify_eq. Qed.

Lemma reader_turn_wds o s s' : reader_turn o s = Some s' → (wds (n_cb s')).*1 = (wds (n_cb s)).*1.
Proof.
  unfold reader_turn. destruct (reader s) as [| | | | |[|ev buf]| |c| |]; intros E.
  all: try (by injection E as <-).
  - repeat case_match; by simplify_eq.
  - repeat case_match; by simplify_eq.
  - by destruct (closed s); injection E as <-.
  - repeat case_match; by simplify_eq.
  - injection E as <-. destruct (event_turn_fds o ev buf s) as [[H _ _ _] _]. by injection H.
  - pose proof (close_turn_wds c s) as H. destruct (close_turn c s) as [s1 next]. by injection E as <-.
  - done.
Qed.
Lemma main_turn_wds o s s' : main_turn o s = Some s' → (wds (n_cb s')).*1 = (wds (n_cb s)).*1.
Proof.
  unfold main_turn. destruct (main s) as [|c| | |]; intros E.
  - by injection E as <-.
  - pose proof (close_turn_wds c s) as H. destruct (close_turn c s) as [s1 next]. by injection E as <-.
  - by injection E as <-.
  - case_bool_decide; [|done]. injection E as <-. destruct (o_ok o); [apply CopyComplete_wds|done].
  - done.
Qed.
Lemma world_turn_wds c s s' :
  world_turn c s = Some s' → ∃ l, (wds (n_cb s')).*1 = (wds (n_cb s)).*1 ++ l ∧ (main s ≠ MCopy → l = []).
Proof.
  destruct c; cbn [world_turn]; intros E.
  4: { case_bool_decide; [|done]. injection E as <-. exists [wd]. split; [|done].
       change ((wds (n_cb s) ++ [(wd, mkReceiveInfo p ∅)]).*1 = (wds (n_cb s)).*1 ++ [wd]). by rewrite fmap_app. }
  all: exists []; rewrite app_nil_r; split; [|done]; repeat case_match; simplify_eq; try done.
  unfold inotify_rm_watch. by case_bool_decide.
Qed.

Lemma main_turn_less o s s' :
  main_turn o s = Some s' → after_copy s = true →
  (main_left (main s') < main_left (main s))%nat ∧ reader s' = reader s ∧ after_copy s' = true.
Proof.
  unfold main_turn, after_copy. destruct (main s); try done; intros E _.
  - injection E as <-. split; [|done]. cbn. lia.
  - case_bool_decide; [|done]. injection E as <-. destruct (o_ok o); [|split; [cbn; lia|done]].
    unfold CopyComplete. destruct (ReceiveComplete _). split; [cbn; lia|done].
Qed.

Lemma close_turn_main c s : main (close_turn c s).1 = main s.
Proof.
  destruct c as [| | | |[|wd l]]; cbn [close_turn CloseFd_turn]; try done.
  - by destruct (_ =? -1).
  - unfold inotify_rm_watch. by case_bool_decide.
Qed.
Lemma close_turn_reader c s : reader (close_turn c s).1 = reader s.
Proof.
  destruct c as [| | | |[|wd l]]; cbn [close_turn CloseFd_turn]; try done.
  - by destruct (_ =? -1).
  - unfold inotify_rm_watch. by case_bool_decide.
Qed.
Lemma reader_turn_main o s s' : reader_turn o s = Some s' → main s' = main s.
Proof.
  unfold reader_turn. destruct (reader s) as [| | | | |[|ev buf]| |c| |]; intros E.
  all: try (by injection E as <-).
  - repeat case_match; by simplify_eq.
  - repeat case_match; by simplify_eq.
  - by destruct (closed s); injection E as <-.
  - repeat case_match; by simplify_eq.
  - injection E as <-. destruct (event_turn_fds o ev buf s) as [[_ _ _ H] _]. apply H.
  - pose proof (close_turn_main c s) as H. destruct (close_turn c s) as [s1 next]. by injection E as <-.
  - done.
Qed.

Lemma reader_turn_less o s s' :
  inv s → after_copy s = true → reader_turn o s = Some s' →
  (left_to_do (watched s) (reader s') < left_to_do (watched s) (reader s))%nat.
Proof.
  intros Hi Ha E. pose proof (after_copy_shut s Hi Ha) as Hsh.
  destruct Hi as [_ _ Hb _ _]. unfold reader_turn in E.
  destruct (reader s) as [| | | | |[|ev buf]| |c| |] eqn:Er; cbn [in_read closing] in Hsh.
  - destruct (Hsh eq_refl eq_refl) as (_ & _ & _ & He & _). rewrite He in E.
    change (-1 =? -1) with true in E. cbn [negb] in E. rewrite andb_false_r in E. injection E as <-. cbn. lia.
  - destruct (Hsh eq_refl eq_refl) as (_ & (Ho & _) & _). rewrite Ho in E. cbn [negb] in E.
    destruct (_ =? 0); [|destruct (_ =? EINTR)]; injection E as <-; cbn; lia.
  - destruct (_ =? EINTR); [injection E as <-; cbn; lia|]. destruct (queue s); [done|]. injection E as <-. cbn. lia.
  - injection E as <-. destruct (closed s); cbn; lia.
  - destruct (negb _ || _ || _); [injection E as <-; cbn; lia|]. destruct (queue s) as [|ev q]; [done|].
    injection E as <-.
    change (9 + watched s + length (take (Nat.max 1 (Nat.min (o_read o) MAX_EVENTS)) (ev :: q)) < 10 + watched s + MAX_EVENTS)%nat.
    rewrite length_take. unfold MAX_EVENTS. lia.
  - injection E as <-. cbn. lia.
  - injection E as <-. destruct (event_turn_fds o ev buf s) as [_ [->| ->]]; cbn; lia.
  - injection E as <-. destruct (closed s); cbn; lia.
  - destruct c as [| | | |[|wd l]]; cbn [close_turn CloseFd_turn] in E; injection E as <-; try (cbn; lia).
    destruct (cb_eventFd _ =? -1), (cb_notifyFd _ =? -1).
    1, 3: change (2 < 4 + watched s)%nat; lia.
    all: change (3 + length ((wds (n_cb s)).*1) < 4 + watched s)%nat; rewrite length_fmap; unfold watched; lia.
  - injection E as <-. cbn. lia.
  - done.
Qed.

Lemma world_turn_threads c s s' : world_turn c s = Some s' → main s' = main s ∧ reader s' = reader s.
Proof.
  destruct c; cbn [world_turn]; unfold inotify_rm_watch; repeat case_match; intros [= <-]; done.
Qed.

(** What wakes the progress thread: the watch [wd] is there until the descriptors are
    closed, and then it is to be removed or an event is there. *)
Definition awake (s : nstate) : Prop := reader s = RBlocked → queue s ≠ [].
Definition to_remove (s : nstate) : list Z := match main s with MClose (C5 l) => l | _ => [] end.
Record wakes (wd : Z) (s : nstate) : Prop := {
  wk_known : wd ∈ (wds (n_cb s)).*1;
  wk_open : event_open s = true → wd ∈ kwatches s;
  wk_closed : event_open s = false → awake s ∨ wd ∈ kwatches s ∧ wd ∈ to_remove s
}.

Lemma initial_wakes wd s : initial s → wd ∈ (wds (n_cb s)).*1 → wakes wd s.
Proof.
  intros Hi Hwd. split; [done| |].
  - intros _. destruct (in_watched s Hi) as [_ ->]. by apply elem_of_list_to_set.
  - by destruct (in_open s Hi) as [-> _].
Qed.

(** A turn that does not touch the watches. *)
Lemma wakes_same wd s s' :
  (wds (n_cb s')).*1 = (wds (n_cb s)).*1 → kwatches s' = kwatches s → event_open s' = event_open s →
  (awake s → awake s') → (to_remove s = [] ∨ to_remove s' = to_remove s) → wakes wd s → wakes wd s'.
Proof.
  intros Hw Hk He Ha Hm [H1 H2 H3]. split; rewrite ?Hw, ?Hk, ?He; [done..|].
  intros E. destruct (H3 E) as [H|(H & Hl)]; [left; by apply Ha|].
  right. split; [done|]. destruct Hm as [Hm| ->]; [|done]. rewrite Hm in Hl. by apply elem_of_nil in Hl.
Qed.

(** [CloseFd] removes watches when the event descriptor is closed. *)
Lemma close_turn_open c s s' next :
  before c s → close_turn c s = (s', next) → event_open s' = true → kwatches s' = kwatches s ∧ event_open s = true.
Proof.
  intros (_ & (He & _) & _) E Ho. destruct c as [| | | |[|w l]]; cbn [close_turn CloseFd_turn] in E; injection E as <- _; try done.
  - by destruct (_ =? -1).
  - pose proof (inotify_rm_watch_spec w s) as ([_ _ _ (_ & _ & _ & _ & H & _)] & _).
    change (event_open (inotify_rm_watch w s) = event_open s) in H. congruence.
Qed.

Lemma reader_turn_watch o s s' :
  inv s → reader_turn o s = Some s' →
  (event_open s' = true → kwatches s' = kwatches s ∧ event_open s = true) ∧
  (reader s' = RBlocked → event_open s' = true).
Proof.
  intros [Hp _ _ _ Hd] E. unfold reader_turn in E.
  destruct (reader s) as [| | | | |[|ev buf]| |c| |] eqn:Er.
  all: try (by injection E as <-); try done.
  - injection E as <-. split; [done|]. by destruct (run _ && _ && _ && _).
  - destruct (_ =? 0); [|destruct (_ =? EINTR)]; [destruct (event_open s) eqn:Eo|..]; injection E as <-; 
      (split; [intros Ho; change (event_open s = true) in Ho; split; [done|congruence]|]); intros H; done.
  - destruct (_ =? EINTR); [by injection E as <-|]. destruct (queue s); [done|]. by injection E as <-.
  - destruct (closed s); by injection E as <-.
  - destruct (negb _ || _ || _); [by injection E as <-|]. destruct (queue s); [done|]. by injection E as <-.
  - injection E as <-. destruct (event_turn_fds o ev buf s) as [[_ _ _ (_ & _ & _ & _ & -> & _ & -> & _)] [->| ->]]; done.
  - injection E as <-. split; [done|]. by destruct (closed s).
  - assert (before c s) as Hb.
    { unfold phase in Hp. rewrite Er in Hp. destruct (main s); destruct_and?; try done.
      all: destruct Hp as [[_ [=]]|[(_ & _ & [=])|(c' & [= <-] & H)]]; done. }
    destruct (close_turn c s) as [s1 next] eqn:Ec. injection E as <-. split; [|by destruct next].
    apply (close_turn_open c s s1 next Hb Ec).
Qed.

Lemma reader_turn_wakes wd o s s' : inv s → wakes wd s → reader_turn o s = Some s' → wakes wd s'.
Proof.
  intros Hi [H1 H2 H3] E. destruct (reader_turn_watch o s s' Hi E) as [Hk Hb].
  split; [by rewrite (reader_turn_wds o s s' E)|intros Ho; destruct (Hk Ho) as [-> ?]; by apply H2|].
  intros Ho. left. intros Hr%Hb. congruence.
Qed.

(** The thread that closes wakes the other one before it is done with the watches. *)
Lemma close_wakes c wd s s' next :
  before c s → close_turn c s = (s', next) → main s = MClose c → wakes wd s → event_open s' = false →
  awake s' ∨ wd ∈ kwatches s' ∧ wd ∈ match next with Some (C5 l) => l | _ => [] end.
Proof.
  intros (Hn & (He & _ & Hcb) & _) E Em [H1 H2 H3] Ho. unfold to_remove in H3. rewrite Em in H3.
  destruct c as [| | | |[|w l]]; cbn [close_turn CloseFd_turn] in E.
  1-3: injection E as <- <-; change (event_open s = false) in Ho; congruence.
  - destruct Hn as (_ & _ & Hn).
    destruct (Z.eqb_spec (cb_eventFd (n_cb s)) (-1)) as [H|_]; [by apply Hcb in H|].
    assert ((cb_notifyFd (n_cb s) =? -1) = false) as H by (apply Z.eqb_neq; by intros H%Hn).
    cbv zeta in E. change (cb_notifyFd (n_cb (_ <| event_closes := _ |>))) with (cb_notifyFd (n_cb s)) in E.
    rewrite H in E. injection E as <- <-. right. split; [by apply H2|exact H1].
  - injection E as <- <-. left. destruct (H3 He) as [H|[_ H]]; [exact H|by apply elem_of_nil in H].
  - injection E as <- <-. pose proof (inotify_rm_watch_spec w s) as (_ & Hr & Hq & Hq' & Hk).
    destruct (H3 He) as [H|[H4 [->|Hl]%elem_of_cons]]; [left|left|].
    + intros Hb. apply Hq, H. congruence.
    + intros _. by apply Hq'.
    + destruct (decide (wd = w)) as [->|Hne]; [left; intros _; by apply Hq'|].
      right. split; [rewrite Hk; set_solver|done].
Qed.

Lemma main_turn_wakes wd o s s' : inv s → wakes wd s → main_turn o s = Some s' → wakes wd s'.
Proof.
  intros [Hp _ _ _ _] Hw E. pose proof (main_turn_wds o s s' E) as Hwd. unfold main_turn in E. unfold phase in Hp.
  destruct (main s) as [|c| | |] eqn:Em; [| | | |done].
  - injection E as <-. apply (wakes_same wd s); try done. left. unfold to_remove. by rewrite Em.
  - destruct (close_turn c s) as [s1 next] eqn:Ec. injection E as <-. destruct Hp as (Hb & _ & _).
    pose proof Hw as [H1 H2 H3]. split; [by rewrite Hwd| |].
    + intros Ho. destruct (close_turn_open c s s1 next Hb Ec Ho) as [Hk ?]. change (wd ∈ kwatches s1).
      rewrite Hk. by apply H2.
    + intros Ho. destruct (close_wakes c wd s s1 next Hb Ec Em Hw Ho) as [H|H]; [by left|].
      right. destruct next; exact H.
  - injection E as <-. apply (wakes_same wd s); try done. left. unfold to_remove. by rewrite Em.
  - case_bool_decide; [|done]. injection E as <-.
    apply (wakes_same wd s); try done; [..|left; unfold to_remove; by rewrite Em].
    all: destruct (o_ok o); [unfold CopyComplete; by destruct (ReceiveComplete _)|done].
Qed.

Lemma world_turn_wakes wd c s s' : wakes wd s → c ≠ Gone wd → world_turn c s = Some s' → wakes wd s'.
Proof.
  intros Hw Hc E. destruct c as [p r|ev|wd'|wd' p|p]; cbn [world_turn] in E.
  - destruct (_ && _); [|done]. injection E as <-. apply (wakes_same wd s); try done. by right.
  - destruct (fds_open s); [|done]. injection E as <-. apply (wakes_same wd s); try done; [|by right].
    intros H Hr. change (queue s ++ [ev] ≠ []). by destruct (queue s).
  - case_bool_decide; [|done]. injection E as <-. destruct Hw as [H1 H2 H3].
    pose proof (inotify_rm_watch_spec wd' s) as ([Hcb _ _ (_ & _ & _ & _ & He & _ & _ & Hm)] & Hr & Hq & _ & Hk).
    change (event_open (inotify_rm_watch wd' s) = event_open s) in He.
    change (main (inotify_rm_watch wd' s) = main s) in Hm.
    assert (wd ∈ kwatches s → wd ∈ kwatches (inotify_rm_watch wd' s)) as Hin by (rewrite Hk; set_solver).
    assert ((wds (n_cb (inotify_rm_watch wd' s))).*1 = (wds (n_cb s)).*1) as Hwd by (by injection Hcb).
    split; [by rewrite Hwd|rewrite He; auto|].
    unfold awake, to_remove. rewrite He, Hm, Hr. intros Ho. destruct (H3 Ho) as [H4|[H4 H5]]; [left; auto|right; auto].
  - case_bool_decide as Hm; [|done]. injection E as <-. destruct Hw as [H1 H2 H3]. split.
    + change (wd ∈ (wds (n_cb s) ++ [(wd', mkReceiveInfo p ∅)]).*1). rewrite fmap_app. apply elem_of_app. by left.
    + intros Ho. change (wd ∈ {[wd']} ∪ kwatches s). apply elem_of_union. right. by apply H2.
    + intros Ho. destruct (H3 Ho) as [H4|[_ H5]]; [by left|]. unfold to_remove in H5. rewrite Hm in H5.
      by apply elem_of_nil in H5.
  - case_bool_decide as Hm; [|done]. injection E as <-. apply (wakes_same wd s); try done. by right.
Qed.

Lemma act_inv t s s' : inv s → act t s = Some s' → inv s'.
Proof. destruct t; cbn [act]; eauto using main_turn_inv, reader_turn_inv, world_turn_inv. Qed.
Lemma act_wakes wd t s s' : inv s → wakes wd s → t ≠ World (Gone wd) → act t s = Some s' → wakes wd s'.
Proof.
  destruct t as [o|o|c]; cbn [act]; intros Hi Hw Ht E; [by eapply main_turn_wakes|by eapply reader_turn_wakes|].
  eapply world_turn_wakes; [done| |done]. congruence.
Qed.

Lemma reachable_wakes wd s : reachable_watched wd s → inv s ∧ wakes wd s.
Proof.
  intros (s0 & l & Hi & Hwd & Hl & Hr). assert (inv s0 ∧ wakes wd s0) as [H1 H2].
  { split; [by apply initial_inv|by apply initial_wakes]. }
  clear Hi Hwd. revert s0 H1 H2 Hr. induction l as [|t l IH]; intros s0 H1 H2 Hr; cbn in Hr; [by simplify_eq|].
  apply not_elem_of_cons in Hl as [Ht Hl]. destruct (act t s0) as [s1|] eqn:E; [|done].
  apply (IH Hl s1); [by eapply act_inv|by eapply act_wakes|done].
Qed.

(** Once the copy is over nobody waits for what does not come. *)
Lemma over_awake wd s : inv s → wakes wd s → after_copy s = true → awake s.
Proof.
  intros Hi [_ _ H3] Ha Hb. assert (event_open s = false) as Ho.
  { by destruct (after_copy_shut s Hi Ha) as (_ & (? & _) & _); rewrite ?Hb. }
  destruct (H3 Ho) as [H|[_ H]]; [by apply H|]. unfold to_remove in H. unfold after_copy in Ha.
  destruct (main s); try done; by apply elem_of_nil in H.
Qed.

(** Nobody waits for ever: when the copy is over a thread can take a turn until the copy
    returns, without an error of [poll] and without a signal. *)
Lemma some_turn s :
  inv s → awake s → after_copy s = true → main s ≠ MDone →
  ∃ o s', o_poll o = 0 ∧ (main_turn o s = Some s' ∨ reader_turn o s = Some s').
Proof.
  intros Hi Haw Ha Hm. exists (mkoracle 0 1 true true). pose proof (after_copy_shut s Hi Ha) as Hsh.
  enough (∃ s', main_turn (mkoracle 0 1 true true) s = Some s' ∨ reader_turn (mkoracle 0 1 true true) s = Some s')
    as [s' H] by by exists s'.
  destruct (decide (main s = MRun)) as [E|Hr]; [eexists; left; unfold main_turn; rewrite E; reflexivity|].
  assert (main s = MJoin) as E by (by unfold after_copy in Ha; destruct (main s)).
  destruct (decide (reader s = RDone)) as [Ed|Hd].
  { eexists. left. unfold main_turn. rewrite E, (bool_decide_eq_true_2 _ Ed). reflexivity. }
  destruct Hi as [_ _ _ Hq _]. unfold reader_turn.
  destruct (reader s) as [| | | | |[|ev buf]| |c| |] eqn:Er; try (eexists; right; reflexivity); try done; cbn [in_read closing] in Hsh.
  - destruct (Hsh eq_refl eq_refl) as (_ & (Ho & _) & _). rewrite Ho. eexists; right; reflexivity.
  - specialize (Haw Er). cbn. destruct (queue s); [done|eexists; right; reflexivity].
  - destruct (fds_open s) eqn:Eo; [|rewrite orb_true_r; eexists; right; reflexivity].
    destruct (negb _ || _ || _); [eexists; right; reflexivity|]. specialize (Hq (or_intror eq_refl) eq_refl).
    destruct (queue s); [done|eexists; right; reflexivity].
  - destruct (close_turn c s) as [s1 next]. eexists; right; reflexivity.
Qed.

Lemma awake_kept t s s' : inv s → after_copy s = true → awake s → act t s = Some s' → awake s'.
Proof.
  intros Hi Hac Ha E. destruct t as [o|o|c]; cbn [act] in E.
  - destruct (main_turn_less o s s' E Hac) as (_ & Hr & _). unfold awake in *. rewrite Hr. intros Hb.
    unfold main_turn, after_copy in *. destruct (main s); try done; [injection E as <-; by apply Ha|].
    case_bool_decide; [congruence|done].
  - intros Hb. destruct (reader_turn_watch o s s' Hi E) as [H1 H2]. destruct (H1 (H2 Hb)) as [_ Ho].
    pose proof (after_copy_shut s Hi Hac) as Hsh. unfold reader_turn in E.
    destruct (reader s) as [| | | | |[|ev buf]| |c| |] eqn:Er; cbn [in_read closing] in Hsh.
    all: try (destruct (Hsh eq_refl eq_refl) as (_ & (Hf & _) & _); congruence).
    all: exfalso; try by injection E as <-.
    + destruct (negb _ || _ || _); [by injection E as <-|]. destruct (queue s); [done|]. by injection E as <-.
    + injection E as <-. destruct (event_turn_fds o ev buf s) as [_ [Hf|Hf]]; congruence.
    + injection E as <-. by destruct (closed s).
    + destruct (close_turn c s) as [s1 next]. injection E as <-. by destruct next.
  - destruct (world_turn_threads c s s' E) as [_ Hr]. unfold awake. rewrite Hr. intros Hb. specialize (Ha Hb).
    destruct c; cbn [world_turn] in E.
    + destruct (_ && _); [|done]. by injection E as <-.
    + destruct (fds_open s); [|done]. injection E as <-. change (queue s ++ [ev] ≠ []). by destruct (queue s).
    + case_bool_decide; [|done]. injection E as <-. by apply inotify_rm_watch_spec.
    + case_bool_decide; [|done]. by injection E as <-.
    + case_bool_decide; [|done]. by injection E as <-.
Qed.

Lemma act_less t s s' :
  inv s → after_copy s = true → act t s = Some s' →
  after_copy s' = true ∧ watched s' = watched s ∧
  ((if is_thread t then 1 else 0) + (main_left (main s') + left_to_do (watched s') (reader s')) <=
   main_left (main s) + left_to_do (watched s) (reader s))%nat.
Proof.
  intros Hi Ha E. assert ((wds (n_cb s')).*1 = (wds (n_cb s)).*1) as Hw.
  { destruct t as [o|o|c]; cbn [act] in E; [by eapply main_turn_wds|by eapply reader_turn_wds|].
    destruct (world_turn_wds c s s' E) as (l & -> & Hl). rewrite Hl, app_nil_r; [done|].
    intros Hm. unfold after_copy in Ha. by rewrite Hm in Ha. }
  assert (watched s' = watched s) as -> by (unfold watched; by rewrite <- !(length_fmap fst), Hw).
  destruct t as [o|o|c]; cbn [act is_thread] in *.
  - destruct (main_turn_less o s s' E Ha) as (? & -> & ?). split; [done|]. split; [done|lia].
  - pose proof (reader_turn_less o s s' Hi Ha E). unfold after_copy. rewrite (reader_turn_main o s s' E).
    split; [exact Ha|]. split; [done|lia].
  - destruct (world_turn_threads c s s' E) as [H1 ->]. unfold after_copy. rewrite H1. split; [exact Ha|]. split; [done|lia].
Qed.

Lemma run_bounded l s s' :
  inv s → awake s → after_copy s = true → run_acts l s = Some s' →
  (thread_turns l + (main_left (main s') + left_to_do (watched s') (reader s')) <=
   main_left (main s) + left_to_do (watched s) (reader s))%nat ∧
  inv s' ∧ awake s' ∧ after_copy s' = true.
Proof.
  revert s. induction l as [|t l IH]; intros s Hi Hw Ha E; cbn in E; [injection E as <-; by cbn|].
  destruct (act t s) as [s1|] eqn:E1; [|done].
  destruct (act_less t s s1 Hi Ha E1) as (Ha1 & _ & Hle).
  destruct (IH s1) as (H & ? & ?); [by eapply act_inv|by eapply awake_kept|done..|].
  split; [|done]. unfold thread_turns in *. cbn [List.filter]. destruct (is_thread t); cbn [length]; lia.
Qed.

(** [CloseFd] has no more watches to remove than there are. *)
Definition rest_bounded (s : nstate) : Prop := ∀ l, reader s = RClose (C5 l) → (length l <= watched s)%nat.

Lemma act_rest t s s' : rest_bounded s → act t s = Some s' → rest_bounded s'.
Proof.
  intros Hr E l Hl. destruct t as [o|o|c]; cbn [act] in E.
  - pose proof (main_turn_wds o s s' E) as Hw. unfold watched. rewrite <- (length_fmap fst), Hw, length_fmap.
    apply Hr. rewrite <- Hl. unfold main_turn in E. destruct (main s) as [|c| | |]; try done.
    + by injection E as <-.
    + pose proof (close_turn_reader c s) as H. destruct (close_turn c s). by injection E as <-.
    + by injection E as <-.
    + case_bool_decide; [|done]. injection E as <-. destruct (o_ok o); [|done]. unfold CopyComplete.
      by destruct (ReceiveComplete _).
  - pose proof (reader_turn_wds o s s' E) as Hw. unfold watched. rewrite <- (length_fmap fst), Hw, length_fmap.
    unfold reader_turn in E. destruct (reader s) as [| | | | |[|ev buf]| |c| |] eqn:Er.
    all: try (by injection E as <-); try done.
    + injection E as <-. by destruct (run _ && _ && _ && _).
    + repeat case_match; by simplify_eq.
    + repeat case_match; by simplify_eq.
    + by destruct (closed s); injection E as <-.
    + repeat case_match; by simplify_eq.
    + injection E as <-. destruct (event_turn_fds o ev buf s) as [_ [Hf|Hf]]; congruence.
    + injection E as <-. by destruct (closed s).
    + destruct c as [| | | |[|w l']]; cbn [close_turn CloseFd_turn] in E; injection E as <-; try done.
      * destruct (_ =? -1), (_ =? -1); try done; injection Hl as <-; by rewrite length_fmap.
      * injection Hl as <-. specialize (Hr _ Er). unfold watched in Hr. cbn in Hr. lia.
  - destruct (world_turn_threads c s s' E) as [_ Hr']. destruct (world_turn_wds c s s' E) as (l' & Hw & _).
    unfold watched. rewrite <- (length_fmap fst), Hw, length_app, length_fmap. rewrite Hr' in Hl.
    specialize (Hr l Hl). unfold watched in Hr. lia.
Qed.
Lemma reachable_rest wd s : reachable_watched wd s → rest_bounded s.
Proof.
  intros (s0 & l & Hi & _ & _ & Hr). apply (reachable_ind rest_bounded); [| |by exists s0, l].
  - intros s1 Hi1 l1 E. by rewrite (in_reader s1 Hi1) in E.
  - intros t s1 s2. apply act_rest.
Qed.

(** C35: the join does not wait for ever, when not every watched file goes away by itself:
    from the moment the copying thread has closed the descriptors or left them to the
    progress thread, at most 77 more turns of the two threads and one for each watch are
    possible, whatever events arrive, and as long as the copy has not returned one of the
    threads can take a turn, without a signal.  What wakes a progress thread that waits in
    [poll] is the removal of the watches in [CloseFd]. *)
Theorem join_returns (wd : Z) (s : nstate) :
  reachable_watched wd s → after_copy s = true →
  ∀ l s', run_acts l s = Some s' →
    (thread_turns l <= 77 + watched s)%nat ∧
    (main s' ≠ MDone → ∃ o s'', o_poll o = 0 ∧ (main_turn o s' = Some s'' ∨ reader_turn o s' = Some s'')).
Proof.
  intros Hs Ha l s' E. destruct (reachable_wakes wd s Hs) as [Hi Hw]. pose proof (over_awake wd s Hi Hw Ha) as Haw.
  destruct (run_bounded l s s' Hi Haw Ha E) as (H & Hi' & Haw' & Ha').
  split; [|by apply some_turn].
  assert (main_left (main s) <= 2)%nat by (destruct (main s); cbn; lia).
  assert (left_to_do (watched s) (reader s) <= 75 + watched s)%nat; [|lia].
  destruct Hi as [_ _ Hb _ _]. pose proof (reachable_rest wd s Hs) as Hc.
  destruct (reader s) as [| | | | |buf| |[| | | |rest]| |] eqn:Er; cbn [left_to_do]; unfold MAX_EVENTS in *; try lia.
  specialize (Hc rest Er). lia.
Qed.

(** ** The numbers given to the listener *)

(** The sizes recorded for the files that were seen. *)
Definition recorded (l : list (Z * ReceiveInfo)) : Z := foldr (λ item n, msum id (fileList item.2) + n) 0 l.

Lemma recorded_app l1 l2 : recorded (l1 ++ l2) = recorded l1 + recorded l2.
Proof. unfold recorded. induction l1 as [|x l1 IH]; [done|]. cbn [app foldr]. rewrite IH. lia. Qed.
Lemma recorded_update wd r r' l :
  find_wd wd l = Some r → recorded (update_wd wd r' l) = recorded l - msum id (fileList r) + msum id (fileList r').
Proof.
  unfold recorded. induction l as [|[w x] l IH]; [done|]. cbn [find_wd update_wd].
  destruct (w =? wd); cbn [foldr snd]; [intros [= ->]; lia|]. intros H. rewrite IH by done. lia.
Qed.
Lemma u64_add_l x y : u64 (u64 x + y) = u64 (x + y).
Proof. unfold u64. by rewrite Zplus_mod_idemp_l. Qed.
Lemma u64_add_r x y : u64 (x + u64 y) = u64 (x + y).
Proof. unfold u64. by rewrite Zplus_mod_idemp_r. Qed.

(** Counting what is recorded. *)
Definition counts (c : FsCallbackObject) : Prop := progressSize c = u64 (recorded (wds c)).

Lemma UpdateProgressSize_counts sz p wd r c :
  find_wd wd (wds c) = Some r → counts c → counts (UpdateProgressSize sz p wd r c).2.
Proof.
  intros Hf Hc. unfold UpdateProgressSize. destruct (sz p) as [err size]. destruct (negb _); [done|].
  unfold counts in *. destruct (fileList r !! p) as [old|] eqn:Eo.
  - destruct (size >? old); [|done].
    change (u64 (progressSize c + u64 (size - old)) = u64 (recorded (record_size wd r p size (wds c)))).
    unfold record_size. rewrite (recorded_update _ r _ _ Hf). cbn [fileList].
    rewrite (msum_update id _ _ old size Eo), Hc, u64_add_l, u64_add_r. f_equal. unfold id. lia.
  - change (u64 (progressSize c + size) = u64 (recorded (record_size wd r p size (wds c)))).
    unfold record_size. rewrite (recorded_update _ r _ _ Hf). cbn [fileList].
    rewrite (msum_insert id _ _ size Eo), Hc, u64_add_l. f_equal. unfold id. lia.
Qed.

Lemma HandleProgress_counts sz ev i c :
  isFile i = false → counts c → counts (HandleProgress sz ev i c).2.
Proof.
  intros Hi Hc. unfold HandleProgress, GetReceivedInfo. rewrite Hi. cbn [negb].
  destruct (find_wd (ev_wd ev) (wds c)) as [r|] eqn:Ef; [|done]. destruct (negb (CheckFileValid _ _)); [done|].
  pose proof (UpdateProgressSize_counts sz (child (ri_path r) (ev_name ev)) (ev_wd ev) r c Ef Hc) as H.
  destruct (UpdateProgressSize _ _ _ _ _) as [err c']. by destruct (negb (err =? ERRNO_NOERR)).
Qed.

Definition numbers (c : FsCallbackObject) : Z * Z := (maxProgressSize c, totalSize c).
Lemma HandleProgress_numbers sz ev i c : numbers (HandleProgress sz ev i c).2 = numbers c.
Proof. unfold HandleProgress, UpdateProgressSize. repeat (case_match; simplify_eq; try done). Qed.

(** What was given so far fits the callback. *)
Definition fitting (c : FsCallbackObject) (l : list (Z * Z)) : Prop :=
  StronglySorted Z.le (l.*1) ∧ Forall (λ g, g.1 <= maxProgressSize c ∧ g.2 = totalSize c) l.
Lemma fitting_numbers c c' l : numbers c' = numbers c → fitting c l → fitting c' l.
Proof. intros [= H1 H2]. unfold fitting. by rewrite H1, H2. Qed.

Lemma ReceiveComplete_fitting c l :
  fitting c l → fitting (ReceiveComplete c).1 (l ++ (ReceiveComplete c).2).
Proof.
  intros [Hs Hf]. unfold ReceiveComplete. destruct (Z.ltb_spec (progressSize c) (maxProgressSize c)) as [H|H].
  { cbn [fst snd]. by rewrite app_nil_r. }
  assert (Forall (λ g, g.1 <= progressSize c ∧ g.2 = totalSize c) l) as Hf'.
  { eapply Forall_impl; [exact Hf|]. cbn. intros g [H1 H2]. split; [lia|done]. }
  destruct (listener c); cbn [fst snd]; [|rewrite app_nil_r; by split].
  split.
  - rewrite fmap_app. apply StronglySorted_app_2; [|done|repeat constructor].
    intros x y Hx Hy. apply list_elem_of_singleton in Hy as ->. apply list_elem_of_fmap in Hx as (g & -> & Hg).
    rewrite Forall_forall in Hf'. by apply Hf'.
  - apply Forall_app. split; [exact Hf'|]. constructor; [|constructor]. split; [apply Z.le_refl|done].
Qed.

Record pinv (s : nstate) : Prop := {
  pi_given : fitting (n_cb s) (given s);
  pi_count : isFile (n_infos s) = false → main s ≠ MDone → counts (n_cb s)
}.

Lemma pinv_same s s' :
  numbers (n_cb s') = numbers (n_cb s) → progressSize (n_cb s') = progressSize (n_cb s) →
  wds (n_cb s') = wds (n_cb s) → given s' = given s → isFile (n_infos s') = isFile (n_infos s) →
  (main s = MDone → main s' = MDone) → pinv s → pinv s'.
Proof.
  intros Hn Hp Hw Hg Hf Hm [H1 H2]. split; [rewrite Hg; by eapply fitting_numbers|].
  rewrite Hf. intros Hi Hm'. unfold counts. rewrite Hp, Hw. apply H2; [done|]. by intros E%Hm.
Qed.

Lemma initial_pinv s : initial s → pinv s.
Proof.
  intros [_ _ _ _ _ _ _ _ Hg [Hp Hx] Hw _]. split; [rewrite Hg; split; constructor|].
  intros _ _. unfold counts. rewrite Hp. symmetry. induction Hw as [|[w r] l Hr _ IH]; [done|].
  cbn in *. rewrite Hr, msum_empty. exact IH.
Qed.

Lemma event_turn_pinv o ev buf s : pinv s → main s ≠ MDone → pinv (event_turn o ev buf s).
Proof.
  intros Hp Hm. unfold event_turn. destruct (run (n_infos s)); cbn [negb]; [|by apply (pinv_same s)].
  pose proof (HandleProgress_numbers (sizes s) ev (n_infos s) (n_cb s)) as Hn.
  pose proof (HandleProgress_counts (sizes s) ev (n_infos s) (n_cb s)) as Hc.
  destruct (HandleProgress _ _ _ _) as [[[b e] b'] c]. cbn [snd] in Hn, Hc.
  assert (pinv (s <| n_cb := c |>)) as H1.
  { destruct Hp as [Hg Hco]. split; [by eapply (fitting_numbers (n_cb s))|]. intros Hf _. by apply Hc, Hco. }
  destruct b; cbn [negb]; [|by apply (pinv_same (s <| n_cb := c |>))].
  destruct b'; cbn [negb]; [|by apply (pinv_same (s <| n_cb := c |>))].
  destruct (_ =? _); [by apply (pinv_same (s <| n_cb := c |>))|].
  destruct (o_report o); [|by apply (pinv_same (s <| n_cb := c |>))].
  destruct H1 as [Hg Hco]. pose proof (ReceiveComplete_fitting c (given s) Hg) as H2.
  assert (counts c → counts (ReceiveComplete c).1) as H3.
  { unfold ReceiveComplete. by destruct (_ <? _). }
  destruct (ReceiveComplete c) as [c' out]. split; [exact H2|]. intros Hf _. by apply H3, Hco.
Qed.

Lemma close_turn_pinv c s s1 next s' :
  close_turn c s = (s1, next) → pinv s → main s ≠ MDone →
  n_cb s' = n_cb s1 → given s' = given s1 → n_infos s' = n_infos s1 → pinv s'.
Proof.
  intros E Hp Hm Hc Hg Hi. apply (pinv_same s); rewrite ?Hc, ?Hg, ?Hi; try done.
  all: destruct c as [| | | |[|w l]]; cbn [close_turn CloseFd_turn] in E; injection E as <- _; try done.
  all: try (by destruct (_ =? -1)); unfold inotify_rm_watch; by case_bool_decide.
Qed.

Lemma reader_turn_pinv o s s' : pinv s → main s ≠ MDone → reader_turn o s = Some s' → pinv s'.
Proof.
  intros Hp Hm. unfold reader_turn. destruct (reader s) as [| | | | |[|ev buf]| |c| |].
  all: try (by intros [= <-]; apply (pinv_same s)).
  - repeat case_match; intros [= <-]; by apply (pinv_same s).
  - repeat case_match; intros [= <-]; by apply (pinv_same s).
  - destruct (closed s); intros [= <-]; by apply (pinv_same s).
  - repeat case_match; intros [= <-]; by apply (pinv_same s).
  - intros [= <-]. by apply event_turn_pinv.
  - destruct (close_turn c s) as [s1 next] eqn:E. intros [= <-]. by eapply close_turn_pinv.
Qed.

Lemma main_turn_pinv o s s' : pinv s → main_turn o s = Some s' → pinv s'.
Proof.
  intros Hp. unfold main_turn. destruct (main s) as [|c| | |] eqn:Em.
  - intros [= <-]. apply (pinv_same s); try done. by rewrite Em.
  - destruct (close_turn c s) as [s1 next] eqn:E. intros [= <-]. eapply (close_turn_pinv c s s1 next); try done.
    by rewrite Em.
  - intros [= <-]. apply (pinv_same s); rewrite ?Em; done.
  - case_bool_decide; [|done]. intros [= <-]. destruct (o_ok o); [|apply (pinv_same s); rewrite ?Em; done].
    destruct Hp as [Hg _]. unfold CopyComplete.
    pose proof (ReceiveComplete_fitting ((n_cb s) <| progressSize := totalSize (n_cb s) |>) (given s)) as H2.
    destruct (ReceiveComplete _) as [c' out]. split; [|done]. apply H2. by eapply (fitting_numbers (n_cb s)).
  - done.
Qed.

Lemma world_turn_pinv c s s' : pinv s → world_turn c s = Some s' → pinv s'.
Proof.
  intros Hp. destruct c; cbn [world_turn]; unfold inotify_rm_watch; repeat case_match; intros [= <-]; try by apply (pinv_same s).
  destruct Hp as [Hg Hco]. split; [by eapply (fitting_numbers (n_cb s))|]. intros Hf Hm. specialize (Hco Hf Hm).
  change (progressSize (n_cb s) = u64 (recorded (wds (n_cb s) ++ [(wd, mkReceiveInfo p ∅)]))).
  rewrite recorded_app. cbn. rewrite msum_empty, Z.add_0_r. exact Hco.
Qed.

Lemma reachable_pinv s : reachable s → pinv s.
Proof.
  intros Hr. enough (inv s ∧ pinv s) as [_ H] by done. revert s Hr.
  apply reachable_ind; [intros s H; split; [by apply initial_inv|by apply initial_pinv]|].
  intros t s s' [Hi Hp] E. destruct t as [o|o|c]; cbn [act] in E.
  - split; [by eapply main_turn_inv|by eapply main_turn_pinv].
  - split; [by eapply reader_turn_inv|]. eapply reader_turn_pinv; [done| |done].
    intros Hm. destruct Hi as [_ _ _ _ Hd]. unfold reader_turn in E. by rewrite (Hd Hm) in E.
  - split; [by eapply world_turn_inv|by eapply world_turn_pinv].
Qed.

(** Progress only grows and adds up: in every interleaving the processed sizes the
    listener is given never decrease and come with the total of the copy; while a directory
    is copied the progress is the sum of the sizes recorded for its files; and when a copy
    succeeds and no more than the total was reported before, the last report is the total. *)
Theorem progress_reports (s : nstate) :
  reachable s →
  StronglySorted Z.le ((given s).*1) ∧
  Forall (λ g, g.1 <= maxProgressSize (n_cb s) ∧ g.2 = totalSize (n_cb s)) (given s) ∧
  (isFile (n_infos s) = false → main s ≠ MDone → progressSize (n_cb s) = u64 (recorded (wds (n_cb s)))) ∧
  (∀ o s', main s = MJoin → main_turn o s = Some s' → o_ok o = true → listener (n_cb s) = true →
     maxProgressSize (n_cb s) <= totalSize (n_cb s) →
     last (given s') = Some (totalSize (n_cb s), totalSize (n_cb s))).
Proof.
  intros [[H1 H2] H3]%reachable_pinv. split; [exact H1|]. split; [exact H2|]. split; [exact H3|].
  intros o s' Hm E Ho Hl Hx. unfold main_turn in E. rewrite Hm in E. case_bool_decide; [|done].
  injection E as <-. rewrite Ho. unfold CopyComplete, ReceiveComplete.
  change (maxProgressSize (_ <| progressSize := ?x |>)) with (maxProgressSize (n_cb s)).
  change (progressSize (_ <| progressSize := ?x |>)) with x.
  change (listener (_ <| progressSize := ?x |>)) with (listener (n_cb s)).
  apply Z.ltb_ge in Hx. rewrite Hx, Hl. apply last_snoc.
Qed.

(** The copying thread at its removal of watches goes on alone. *)
Lemma main_closes o l s :
  main s = MClose (C5 l) →
  ∃ s', run_acts (replicate (S (length l)) (Main o)) s = Some s' ∧
    fds_open s' = false ∧ reader s' = reader s ∧ reading s' = reading s.
Proof.
  revert s. induction l as [|w l IH]; intros s Hm; cbn [length]; rewrite replicate_S;
    cbn [run_acts act]; unfold main_turn at 1; rewrite Hm; cbn [close_turn CloseFd_turn].
  - eexists. by split.
  - destruct (IH ((inotify_rm_watch w s) <| main := MClose (C5 l) |>)) as (s' & E & Hf & Hr & Hrd); [reflexivity|].
    exists s'. split; [exact E|]. split; [done|]. rewrite Hr, Hrd. unfold inotify_rm_watch. by case_bool_decide.
Qed.

(** The flags do not keep a read and the close apart: [CloseNotifyFd] takes back
    [closed] before it closes the descriptors, so from the start of any copy with an event
    to read there is an interleaving in which the progress thread enters its read after the
    copying thread found it not reading, and the descriptors are closed under it. *)
Theorem read_overlaps_close (s : nstate) (ev : event) :
  initial s → run (n_infos s) = true → exceptionCode (n_infos s) = 0 →
  eventFd (n_infos s) ≠ -1 → notifyFd (n_infos s) ≠ -1 →
  ∃ l s1, run_acts (World (Notify ev) :: l) s = Some s1 ∧ reading s1 = true ∧ fds_open s1 = true ∧ reader s1 = RRead ∧
    ∃ n o s2, run_acts (replicate n (Main o)) s1 = Some s2 ∧
      reading s2 = true ∧ reader s2 = RRead ∧ fds_open s2 = false.
Proof.
  intros [Hm Hr Hc Hrd [Ho1 Ho2] [Hcb1 Hcb2] _ _ _ _ _ _] Hrun Hex He Hn. set (o := mkoracle 0 1 true true).
  destruct s as [[su du sp dp f nf ef rn hl ts fp ex] [ls cn ce w t p x er] cl rd eo en op n k q sz g m r].
  cbn in *. subst. apply Z.eqb_neq in He, Hn, Hcb1, Hcb2.
  assert (∃ e q', q ++ [ev] = e :: q') as (e & q' & Eq) by (destruct q; by eexists _, _).
  eexists [Main o; Main o; Reader o; Reader o; Reader o; Main o; Main o; Main o], _.
  cbn. rewrite He, Hn. cbn. rewrite Eq. cbn. rewrite Hcb1. cbn. rewrite Hcb2. split; [reflexivity|]. do 3 (split; [done|]).
  exists (S (length w.*1)), o.
  match goal with |- ∃ _, run_acts _ ?s1 = _ ∧ _ =>
    destruct (main_closes o w.*1 s1 eq_refl) as (s2 & E & Hf & Hr & Hd) end.
  exists s2. split; [exact E|]. by rewrite Hr, Hd.
Qed.

(** ** Witnesses *)

Definition sample_infos : FsFileInfos :=
  mkFsFileInfos "file:///a" "file:///b" "/a" "/b" false 40 41 true true false ∅ 0.
Definition sample_cb : FsCallbackObject := mkFsCallbackObject true 40 41 [(1, mkReceiveInfo "/b" ∅)] 10 0 0 0.
Definition start : nstate :=
  mkn sample_infos sample_cb false false true 0 true 0 {[ 1 ]} [] (λ _, (0, 0)) [] MCopy RLoop.
Lemma start_initial : initial start.
Proof. split; try done; try by repeat constructor. Qed.

Definition calm : oracle := mkoracle 0 8 true true.
(** Two writes are seen, then the copy ends. *)
Definition schedule : list turn :=
  [World (Begin "/b/f"); World (Write "/b/f" (0, 4)); Reader calm; Reader calm; World (Notify (mkevent 1 "f"));
   Reader calm; Reader calm; Reader calm; Reader calm; Reader calm; World (Write "/b/f" (0, 7)); Reader calm; Reader calm; Reader calm;
   World (Notify (mkevent 1 "f")); Reader calm; Reader calm; Reader calm; Reader calm; Reader calm;
   Main calm; Reader calm; Reader calm; Main calm; Reader calm; Reader calm; Reader calm; Reader calm; Reader calm;
   Reader calm; Reader calm; Reader calm; Main calm].
Definition finished : option nstate := run_acts schedule start.

Lemma descriptors_closed_once_witness :
  ∃ s, finished = Some s ∧ main s = MDone ∧ fds_open s = false ∧ closes s = 1%nat.
Proof.
  destruct finished as [s|] eqn:E; [|vm_compute in E; discriminate].
  exists s. split; [exact eq_refl|].
  assert (main s = MDone) as Hm.
  { assert (main <$> finished = Some MDone) as H by (vm_compute; reflexivity). rewrite E in H. by injection H. }
  split; [exact Hm|].
  destruct (descriptors_closed_once s) as (_ & _ & _ & _ & H).
  - exists start, schedule. split; [exact start_initial|exact E].
  - split; [exact (proj1 (proj2 (H Hm)))|exact (proj1 (proj2 (proj2 (H Hm))))].
Defined.

(** The copy ends while the progress thread waits in [poll]: the removed watch wakes it. *)
Definition waiting : list turn := [Reader calm; Reader calm] ++ replicate 7 (Main calm).
Lemma join_returns_witness :
  ∃ s, run_acts waiting start = Some s ∧ main s = MRun ∧ reader s = RBlocked ∧
    ∃ o s', o_poll o = 0 ∧ (main_turn o s = Some s' ∨ reader_turn o s = Some s').
Proof.
  destruct (run_acts waiting start) as [s|] eqn:E; [|vm_compute in E; discriminate].
  exists s. split; [exact eq_refl|].
  assert (main s = MRun ∧ reader s = RBlocked) as [Hm Hr].
  { assert ((λ s, (main s, reader s)) <$> run_acts waiting start = Some (MRun, RBlocked)) as H by (vm_compute; reflexivity).
    rewrite E in H. by injection H. }
  split; [exact Hm|]. split; [exact Hr|].
  destruct (join_returns 1 s) with (l := @nil turn) (s' := s) as [_ H].
  - exists start, waiting. split; [exact start_initial|]. split; [by left|]. split; [|exact E].
    unfold waiting. cbn. rewrite !not_elem_of_cons. repeat split; try discriminate. apply not_elem_of_nil.
  - unfold after_copy. rewrite Hm. reflexivity.
  - reflexivity.
  - apply H. rewrite Hm. discriminate.
Defined.

(** Without a watch to remove nothing wakes it: when the target is removed while it is
    copied, the two threads wait for each other for ever, but for a signal. *)
Definition removed : list turn :=
  [Reader calm; Reader calm; World (Gone 1)] ++ replicate 10 (Reader calm) ++ replicate 8 (Main calm).
Lemma removed_target_hangs :
  ∃ s, run_acts removed start = Some s ∧ ∀ o, main_turn o s = None ∧ (o_poll o ≠ EINTR → reader_turn o s = None).
Proof.
  assert ((λ s, (main s, reader s, queue s)) <$> run_acts removed start = Some (MJoin, RBlocked, [])) as H by (vm_compute; reflexivity).
  destruct (run_acts removed start) as [s|] eqn:E; [|done]. injection H as Hm Hr Hq.
  exists s. split; [done|]. intros o. unfold main_turn, reader_turn. rewrite Hm, Hr, Hq.
  split; [done|]. intros Ho%Z.eqb_neq. by rewrite Ho.
Qed.

Lemma progress_reports_witness :
  ∃ s, finished = Some s ∧ (given s).*1 = [4; 7; 10] ∧ StronglySorted Z.le ((given s).*1).
Proof.
  destruct finished as [s|] eqn:E; [|vm_compute in E; discriminate].
  exists s. split; [exact eq_refl|]. split.
  - assert ((λ s, (given s).*1) <$> finished = Some [4; 7; 10]) as H by (vm_compute; reflexivity).
    rewrite E in H. by injection H.
  - apply (progress_reports s). exists start, schedule. split; [exact start_initial|exact E].
Defined.

Lemma read_overlaps_close_witness :
  ∃ l s1, run_acts (World (Notify (mkevent 1 "f")) :: l) start = Some s1 ∧ reading s1 = true ∧ fds_open s1 = true ∧
    reader s1 = RRead ∧ ∃ n o s2, run_acts (replicate n (Main o)) s1 = Some s2 ∧
      reading s2 = true ∧ reader s2 = RRead ∧ fds_open s2 = false.
Proof. by apply (read_overlaps_close start (mkevent 1 "f") start_initial). Defined.
