(* ===== verification/FsWatcher.v ===== *)
(** * File watchers

    Models [class_watcher] of [mod_fs]: [watcher_data_cache.cpp], [fs_file_watcher.cpp],
    [fs_watcher.cpp] and [watcher_core.cpp].  One [FsFileWatcher] serves all watchers of the
    process with one [inotify] descriptor and one task thread.  A watcher's [WatcherInfo] is
    an object that the cache, the watcher and the program share, so it lives in a store by
    its address.  The kernel's table of watches is part of the state; [WatchEnv] decides
    which call fails, which inode a path names and in which order the hash map is walked.

    A call of the interface is one turn; the task thread takes a turn between two points
    where a call can be seen ([act]).  Watches that the kernel drops by itself, when a file
    is deleted, stay in the table. *)

From coqutil Require Import Datatypes.RecordSetters.
From S2P Require Import Prelude.
Import TriangleBracketNotations.
#[local] Open Scope record_set.

Definition ERRNO_NOERR : Z := 0.
Definition ENOENT : Z := 2.
Definition EIO : Z := 5.
Definition EINVAL : Z := 22.
Definition IN_ALL_EVENTS : Z := 0xfff.

(** ** Environment and state *)

Inductive wcall := W_init | W_eventfd | W_add | W_rm | W_access | W_close.

Class WatchEnv := {
  w_fault : wcall → nat → Z;               (** errno of the n-th call, 0 for none *)
  w_fd : nat → Z;                          (** the descriptor the n-th call gives *)
  w_ino : nat → string → option Z;         (** the inode a path names *)
  w_order : list (string * (Z * Z)) → list (string * (Z * Z));
  w_same : nat → nat → bool;               (** [IsStrictEquals] *)
  w_fd_nonneg : ∀ n, 0 <= w_fd n;
  w_order_perm : ∀ l, w_order l ≡ₚ l
}.

Record WatcherInfo := mkInfo { fileName : string; events : Z; wd : Z; callback : nat }.
(** An [inotify_event]; no name for events of the file itself. *)
Record kevent := mkKevent { e_wd : Z; e_mask : Z; e_cookie : Z; e_name : string }.

(** Where the task thread is. *)
Inductive tpc := TNone | TStart | TLoop | TPoll | TLock | TRead | TEvents (l : list kevent) | TUnlock
  | TDestroy | TClear | TDetach.

Record wstate := mkw {
  infos : gmap nat WatcherInfo;            (** the objects *)
  watcherInfoCache_ : list nat;
  wdFileNameCache_ : gmap string (Z * Z);
  notifyFd_ : Z;
  eventFd_ : Z;
  closed_ : bool;
  reading_ : bool;
  run_ : bool;
  taskRunning_ : bool;
  joinable : bool;                         (** of [taskThread_] *)
  crashed : bool;                          (** [std::terminate] *)
  thread : tpc;
  t_fds : Z * Z;                           (** the descriptors the thread polls *)
  watches : gmap Z (Z * Z);                (** kernel: inode to descriptor and mask *)
  next_wd : Z;
  kqueue : list kevent;
  wcalls : nat;
  errno : Z;
  invoked : list (nat * string * Z * Z)    (** watcher, path, event, cookie *)
}.

Definition idle : wstate :=
  mkw ∅ [] ∅ (-1) (-1) false false false false false false TNone (-1, -1) ∅ 1 [] 0 0 [].

(** ** The data cache *)

Section watcher.
Context {WE : WatchEnv}.

Definition put (f : wstate → wstate) : st wstate unit := λ s, Some (tt, f s).
Definition get {A} (f : wstate → A) : st wstate A := λ s, Some (f s, s).

(** The object at an address; addresses are only made by [DoCreateWatcher]. *)
Definition no_info : WatcherInfo := mkInfo "" 0 (-1) 0.
Definition info_of (m : gmap nat WatcherInfo) (id : nat) : WatcherInfo := default no_info (m !! id).

Definition AddWatcherInfo (id : nat) : st wstate bool := λ s,
  let info := info_of (infos s) id in
  if existsb (λ i, let iter := info_of (infos s) i in
        (fileName iter =? fileName info)%string && (events iter =? events info) && w_same (callback iter) (callback info))
      (watcherInfoCache_ s)
  then Some (false, s)
  else Some (true, s <| watcherInfoCache_ := watcherInfoCache_ s ++ [id] |>).

(** [iter->fileName == name && iter->wd > 0] *)
Definition started_on (m : gmap nat WatcherInfo) (name : string) (i : nat) : bool :=
  (fileName (info_of m i) =? name)%string && (wd (info_of m i) >? 0).
(** The events of the started watchers of a file. *)
Definition wanted (m : gmap nat WatcherInfo) (name : string) (l : list nat) : Z :=
  fold_left (λ acc i, if started_on m name i then Z.lor acc (events (info_of m i)) else acc) l 0.

Fixpoint erase_first (id : nat) (l : list nat) : list nat :=
  match l with [] => [] | i :: l => if Nat.eqb i id then l else i :: erase_first id l end.

Definition RemoveWatcherInfo (id : nat) : st wstate Z := λ s,
  let s' := s <| watcherInfoCache_ := erase_first id (watcherInfoCache_ s) |> in
  Some (wanted (infos s') (fileName (info_of (infos s') id)) (watcherInfoCache_ s'), s').

Definition RemoveWatchedEvents (name : string) : st wstate unit :=
  put (λ s, s <| wdFileNameCache_ := delete name (wdFileNameCache_ s) |>).

Definition FindWatchedEvents (name : string) (event : Z) : st wstate (bool * Z * Z) := get (λ s,
  match wdFileNameCache_ s !! name with
  | None => (false, -1, 0)
  | Some (w, evs) => if negb (Z.land evs event =? event) then (false, w, evs) else (true, w, evs)
  end).

Definition UpdateWatchedEvents (name : string) (w evs : Z) : st wstate unit :=
  put (λ s, s <| wdFileNameCache_ := <[name := (w, evs)]> (wdFileNameCache_ s) |>).

Definition CheckIncludeEvent (mask event : Z) : bool := Z.land mask event >? 0.

Definition FindWatcherInfos (w mask : Z) : st wstate (bool * string * list nat) := get (λ s,
  match List.find (λ x, x.2.1 =? w) (w_order (map_to_list (wdFileNameCache_ s))) with
  | None => (false, ""%string, [])
  | Some (name, _) =>
      let matchedInfos := List.filter (λ i,
        CheckIncludeEvent mask (if started_on (infos s) name i then events (info_of (infos s) i) else 0))
        (watcherInfoCache_ s) in
      (match matchedInfos with [] => false | _ => true end, name, matchedInfos)
  end).

Definition HasWatcherInfo : st wstate bool := get (λ s, match watcherInfoCache_ s with [] => false | _ => true end).
Definition ClearCache : st wstate unit := put (λ s, s <| watcherInfoCache_ := [] |> <| wdFileNameCache_ := ∅ |>).

(** ** Calls of the kernel *)

(** [inl] an errno, or what the call does. *)
Definition sys {A} (c : wcall) (f : nat → wstate → (Z + A) * wstate) : st wstate (Z + A) := λ s,
  let n := wcalls s in
  let s := s <| wcalls := S n |> in
  let e := w_fault c n in
  let '(r, s) := if e =? 0 then f n s else (inl e, s) in
  Some (r, match r with inl e => s <| errno := e |> | inr _ => s end).

(** A new instance has no watches. *)
Definition inotify_init : st wstate (Z + Z) :=
  sys W_init (λ n s, (inr (w_fd n), s <| watches := ∅ |> <| next_wd := 1 |> <| kqueue := [] |>)).
Definition eventfd : st wstate (Z + Z) := sys W_eventfd (λ n s, (inr (w_fd n), s)).

(** The watch of the inode is new, or gets another mask. *)
Definition inotify_add_watch (name : string) (mask : Z) : st wstate (Z + Z) :=
  sys W_add (λ n s,
    match w_ino n name with
    | None => (inl ENOENT, s)
    | Some i =>
        match watches s !! i with
        | Some (w, _) => (inr w, s <| watches := <[i := (w, mask)]> (watches s) |>)
        | None => (inr (next_wd s), s <| watches := <[i := (next_wd s, mask)]> (watches s) |> <| next_wd := next_wd s + 1 |>)
        end
    end).
Definition inotify_rm_watch (w : Z) : st wstate (Z + unit) :=
  sys W_rm (λ _ s,
    if existsb (λ x, x.2.1 =? w) (map_to_list (watches s))
    then (inr tt, s <| watches := filter (λ x, x.2.1 ≠ w) (watches s) |>) else (inl EINVAL, s)).
Definition access_exists (name : string) : st wstate bool :=
  r ← sys W_access (λ n s, (match w_ino n name with Some _ => inr tt | None => inl ENOENT end, s));
  sret (match r with inr _ => true | inl _ => false end).
(** The descriptor is gone whatever [close] answers. *)
Definition close : st wstate Z :=
  r ← sys W_close (λ _ s, (inr tt, s)); sret (match r with inr _ => 0 | inl _ => -1 end).

(** ** [FsFileWatcher] *)

Definition InitNotify : st wstate bool :=
  r ← inotify_init;
  match r with
  | inl _ => _ ← put (λ s, s <| notifyFd_ := -1 |>); sret false
  | inr fd =>
      _ ← put (λ s, s <| notifyFd_ := fd |>);
      r ← eventfd;
      match r with
      | inl _ =>
          _ ← put (λ s, s <| eventFd_ := -1 |>);
          _ ← close;
          _ ← put (λ s, s <| notifyFd_ := -1 |> <| watches := ∅ |> <| kqueue := [] |>);
          sret false
      | inr fd => _ ← put (λ s, s <| eventFd_ := fd |>); sret true
      end
  end.

Definition TryInitNotify : st wstate bool :=
  fd ← get notifyFd_; if fd >=? 0 then sret true else InitNotify.

Definition set_wd (id : nat) (w : Z) : st wstate unit :=
  put (λ s, s <| infos := alter (λ i, i <| wd := w |>) id (infos s) |>).

Definition StartNotify (id : nat) : st wstate Z :=
  fd ← get notifyFd_;
  if fd <? 0 then sret EIO else
  info ← get (λ s, info_of (infos s) id);
  '(isWatched, w, evs) ← FindWatchedEvents (fileName info) (events info);
  if isWatched && (w >? 0) then _ ← set_wd id w; sret ERRNO_NOERR else
  let watchEvents := if negb (w =? -1) then Z.lor evs (events info) else events info in
  r ← inotify_add_watch (fileName info) watchEvents;
  match r with
  | inl err => sret err
  | inr newWd =>
      _ ← set_wd id newWd;
      _ ← UpdateWatchedEvents (fileName info) newWd watchEvents;
      sret ERRNO_NOERR
  end.

Definition NotifyToWatchNewEvents (name : string) (w watchEvents : Z) : st wstate Z :=
  r ← inotify_add_watch name watchEvents;
  match r with
  | inl err => sret err
  | inr newWd =>
      if negb (newWd =? w) then sret EIO else
      _ ← UpdateWatchedEvents name w watchEvents; sret ERRNO_NOERR
  end.

(** [WakeupThread] makes the thread's [poll] return; the descriptors it polls are closed
    right after, which it finds as well. *)
Definition CloseNotifyFd : st wstate Z :=
  has ← HasWatcherInfo;
  closeRet ← (if negb has then
      _ ← put (λ s, s <| run_ := false |>);
      _ ← close;
      _ ← put (λ s, s <| notifyFd_ := -1 |> <| watches := ∅ |> <| kqueue := [] |>);
      closeRet ← close;
      _ ← put (λ s, s <| eventFd_ := -1 |>);
      sret closeRet
    else sret ERRNO_NOERR);
  _ ← put (λ s, s <| closed_ := false |>);
  sret closeRet.

Definition CloseNotifyFdLocked : st wstate Z :=
  _ ← put (λ s, s <| closed_ := true |>);
  reading ← get reading_;
  if reading : bool then _ ← put (λ s, s <| closed_ := false |>); sret ERRNO_NOERR
  else CloseNotifyFd.

Definition StopNotify (id : nat) : st wstate Z :=
  fd ← get notifyFd_;
  if fd <? 0 then sret EIO else
  info ← get (λ s, info_of (infos s) id);
  remainingEvents ← RemoveWatcherInfo id;
  if remainingEvents >? 0 then
    ok ← access_exists (fileName info);
    if ok : bool then NotifyToWatchNewEvents (fileName info) (wd info) remainingEvents else sret ERRNO_NOERR
  else
    busy ← get (λ s, closed_ s && reading_ s);
    r ← (if negb busy then inotify_rm_watch (wd info) else e ← get errno; sret (inl e));
    gone ← (match r with
            | inl rmErr => ok ← access_exists (fileName info); sret (if ok : bool then Some rmErr else None)
            | inr _ => sret None
            end);
    _ ← RemoveWatchedEvents (fileName info);
    ret ← CloseNotifyFdLocked;
    sret (match gone with Some rmErr => rmErr | None => ret end).

(** One [TriggerCallback]; the path is changed for the next one. *)
Definition trigger (ev : kevent) (x : string * list (nat * string * Z * Z)) (info : nat) :=
  let '(name, out) := x in
  let name := if (e_name ev =? "")%string then name else name +:+ "/" +:+ e_name ev in
  (name, out ++ [(info, name, Z.land (e_mask ev) IN_ALL_EVENTS, e_cookie ev)]).
Definition told (ev : kevent) (name : string) (ws : list nat) : list (nat * string * Z * Z) :=
  (fold_left (trigger ev) ws (name, [])).2.

Definition NotifyEvent (ev : kevent) : st wstate unit :=
  '(matched, name, watcherInfos) ← FindWatcherInfos (e_wd ev) (e_mask ev);
  if negb matched then sret tt else
  put (λ s, s <| invoked := invoked s ++ told ev name watcherInfos |>).

Definition CheckEventValid (event : Z) : bool := Z.land event IN_ALL_EVENTS =? event.

(** Assigning to a thread that is joinable ends the process. *)
Definition AsyncGetNotifyEvent : st wstate unit := put (λ s,
  if taskRunning_ s then s
  else if joinable s then s <| taskRunning_ := true |> <| crashed := true |>
  else s <| taskRunning_ := true |> <| joinable := true |> <| thread := TStart |>).

(** ** The interface *)

(** [DoCreateWatcher] answers an error or the watcher, known by the address of its info. *)
Definition DoCreateWatcher (path : string) (evs : Z) (cb : option nat) : st wstate (Z + nat) :=
  if (evs <=? 0) || negb (CheckEventValid evs) then sret (inl EINVAL) else
  match cb with
  | None => sret (inl EINVAL)
  | Some cb =>
      ok ← TryInitNotify;
      if negb ok then e ← get errno; sret (inl e) else
      id ← get (λ s, fresh (dom (infos s)));
      _ ← put (λ s, s <| infos := <[id := mkInfo path evs (-1) cb]> (infos s) |>);
      added ← AddWatcherInfo id;
      sret (if added : bool then inr id else inl EINVAL)
  end.

Definition Start (id : nat) : st wstate Z :=
  ret ← StartNotify id;
  if negb (ret =? ERRNO_NOERR) then sret ret else _ ← AsyncGetNotifyEvent; sret ERRNO_NOERR.
Definition Stop (id : nat) : st wstate Z := StopNotify id.

(** ** The task thread and the schedule *)

(** What a turn of the thread meets: the result of [poll] and the number of events read. *)
Inductive polled := PTimeout | PReady | PError.
Record oracle := mkoracle { o_poll : polled; o_read : nat }.

(** One turn of [GetNotifyEvent], with [ReadNotifyEventLocked] and [DestroyTaskThread]. *)
Definition thread_turn (o : oracle) (s : wstate) : option wstate :=
  match thread s with
  | TNone => None
  | TStart =>
      if run_ s then Some (s <| thread := TNone |>)
      else Some (s <| run_ := true |> <| t_fds := (eventFd_ s, notifyFd_ s) |> <| thread := TLoop |>)
  | TLoop => Some (s <| thread := if run_ s then TPoll else TDestroy |>)
  | TPoll =>
      match o_poll o with
      | PTimeout => Some (s <| thread := TLoop |>)
      | PError => Some (s <| thread := TDestroy |>)
      | PReady =>
          if negb (bool_decide (t_fds s = (eventFd_ s, notifyFd_ s)))
          then Some (s <| run_ := false |> <| thread := TDestroy |>)
          else match kqueue s with [] => None | _ => Some (s <| thread := TLock |>) end
      end
  | TLock => Some (if closed_ s then s <| thread := TLoop |> else s <| reading_ := true |> <| thread := TRead |>)
  | TRead =>
      if notifyFd_ s <? 0 then Some (s <| thread := TEvents [] |>) else
      match kqueue s with
      | [] => None
      | q => let n := Nat.max 1 (o_read o) in Some (s <| kqueue := drop n q |> <| thread := TEvents (take n q) |>)
      end
  | TEvents [] => Some (s <| thread := TUnlock |>)
  | TEvents (ev :: l) =>
      match NotifyEvent ev s with Some (_, s) => Some (s <| thread := TEvents l |>) | None => None end
  | TUnlock =>
      let s := s <| reading_ := false |> <| thread := TLoop |> in
      if closed_ s then match CloseNotifyFd s with Some (_, s) => Some s | None => None end else Some s
  | TDestroy =>
      if taskRunning_ s then Some (s <| taskRunning_ := false |> <| run_ := false |> <| thread := TClear |>)
      else Some (s <| thread := TNone |>)
  | TClear => match ClearCache s with Some (_, s) => Some (s <| thread := TDetach |>) | None => None end
  | TDetach => Some (s <| joinable := false |> <| thread := TNone |>)
  end.

(** The kernel queues what a watch asks for. *)
Definition kernel_turn (ev : kevent) (s : wstate) : option wstate :=
  if (notifyFd_ s >=? 0) && existsb (λ x, (x.2.1 =? e_wd ev) && CheckIncludeEvent (e_mask ev) x.2.2) (map_to_list (watches s))
  then Some (s <| kqueue := kqueue s ++ [ev] |>) else None.

Inductive turn :=
  | Create (path : string) (evs : Z) (cb : option nat) | StartW (id : nat) | StopW (id : nat)
  | Thread (o : oracle) | Kernel (ev : kevent).
Definition after {A} (r : option (A * wstate)) : option wstate := snd <$> r.
Definition act (t : turn) (s : wstate) : option wstate :=
  if crashed s then None else
  match t with
  | Create path evs cb => after (DoCreateWatcher path evs cb s)
  | StartW id => after (Start id s)
  | StopW id => after (Stop id s)
  | Thread o => thread_turn o s
  | Kernel ev => kernel_turn ev s
  end.

(** Runs whose turns are allowed. *)
Fixpoint run_turns (ok : turn → wstate → bool) (l : list turn) (s : wstate) : option wstate :=
  match l with
  | [] => Some s
  | t :: l => if ok t s then match act t s with Some s => run_turns ok l s | None => None end else None
  end.
Definition any (t : turn) (s : wstate) : bool := true.
Definition reachable (ok : turn → wstate → bool) (s : wstate) : Prop := ∃ l, run_turns ok l idle = Some s.

Lemma along_run ok (I : wstate → Prop) :
  I idle → (∀ t s s', I s → ok t s = true → act t s = Some s' → I s') → ∀ s, reachable ok s → I s.
Proof.
  intros H0 Hs s [l Hl]. assert (∀ s0, I s0 → run_turns ok l s0 = Some s → I s) as H; [|by eapply H].
  clear Hl. induction l as [|t l IH]; intros s0 Hi Hr; cbn in Hr; [by simplify_eq|].
  destruct (ok t s0) eqn:Eo; [|done]. destruct (act t s0) as [s1|] eqn:E; [|done]. eauto.
Qed.
End watcher.

(** ** The deferred close *)
Section deferred.
Context {WE : WatchEnv}.

(** What calls of the interface leave alone while the thread reads. *)
Definition same_fd (s s' : wstate) : Prop :=
  notifyFd_ s' = notifyFd_ s ∧ closed_ s' = closed_ s ∧ reading_ s' = reading_ s.
Definition quiet {A} (m : st wstate A) : Prop := ∀ s, twp m (λ _ s', same_fd s s') s.

Lemma quiet_ret {A} (a : A) : quiet (sret a).
Proof. done. Qed.
Lemma quiet_bind {A B} (m : st wstate A) (k : A → st wstate B) : quiet m → (∀ a, quiet (k a)) → quiet (bind m k).
Proof.
  intros Hm Hk s. apply twp_bind. eapply twp_mono; [apply Hm|]. intros a s1 (H1 & H2 & H3).
  eapply twp_mono; [apply Hk|]. intros b s2 (H4 & H5 & H6). unfold same_fd. split_and!; congruence.
Qed.
Lemma quiet_get {A} (f : wstate → A) : quiet (get f).
Proof. done. Qed.
Lemma quiet_sys {A} c (f : nat → wstate → (Z + A) * wstate) : (∀ n s, same_fd s (f n s).2) → quiet (sys c f).
Proof.
  intros Hf s. unfold twp, sys. destruct (_ =? 0); [|done].
  pose proof (Hf (wcalls s) (s <| wcalls := S (wcalls s) |>)) as H. destruct (f _ _) as [r s1]. by destruct r.
Qed.

Lemma quiet_put f : (∀ s, same_fd s (f s)) → quiet (put f).
Proof. intros H s. apply H. Qed.

Create HintDb quiet.
Hint Resolve quiet_ret quiet_get : quiet.
Ltac quiet := repeat first
  [ solve [eauto with quiet] | apply quiet_bind; [|intros ?] | apply quiet_put; intros ?; done
  | apply quiet_sys; intros ? ?; repeat case_match; done | case_match ].

Lemma quiet_add_watch p m : quiet (inotify_add_watch p m).
Proof. unfold inotify_add_watch. quiet. Qed.
Lemma quiet_rm_watch w : quiet (inotify_rm_watch w).
Proof. unfold inotify_rm_watch. quiet. Qed.
Lemma quiet_access p : quiet (access_exists p).
Proof. unfold access_exists. quiet. Qed.
Lemma quiet_close : quiet close.
Proof. unfold close. quiet. Qed.
Lemma quiet_Find p e : quiet (FindWatchedEvents p e).
Proof. apply quiet_get. Qed.
Lemma quiet_FindInfos w m : quiet (FindWatcherInfos w m).
Proof. apply quiet_get. Qed.
Lemma quiet_Has : quiet HasWatcherInfo.
Proof. apply quiet_get. Qed.
Lemma quiet_Remove id : quiet (RemoveWatcherInfo id).
Proof. intros s. done. Qed.
Lemma quiet_Add id : quiet (AddWatcherInfo id).
Proof. intros s. unfold twp, AddWatcherInfo. by destruct (existsb _ _). Qed.
Hint Resolve quiet_add_watch quiet_rm_watch quiet_access quiet_close quiet_Find quiet_FindInfos quiet_Has quiet_Remove
  quiet_Add : quiet.
Lemma quiet_Async : quiet AsyncGetNotifyEvent.
Proof. apply quiet_put. intros s. by destruct (taskRunning_ s), (joinable s). Qed.
Hint Resolve quiet_Async : quiet.
Lemma quiet_StartNotify id : quiet (StartNotify id).
Proof. unfold StartNotify, set_wd, UpdateWatchedEvents. quiet. Qed.
Hint Resolve quiet_StartNotify : quiet.
Lemma quiet_Start id : quiet (Start id).
Proof. unfold Start. quiet. Qed.
Lemma quiet_NewEvents p w m : quiet (NotifyToWatchNewEvents p w m).
Proof. unfold NotifyToWatchNewEvents, UpdateWatchedEvents. quiet. Qed.
Hint Resolve quiet_NewEvents : quiet.
Lemma quiet_NotifyEvent ev : quiet (NotifyEvent ev).
Proof. unfold NotifyEvent. quiet. Qed.
Lemma quiet_RemoveEvents p : quiet (RemoveWatchedEvents p).
Proof. unfold RemoveWatchedEvents. quiet. Qed.

(** [closed_] is not set between calls. *)
Definition unset {A} (m : st wstate A) : Prop := ∀ s, closed_ s = false → twp m (λ _ s', closed_ s' = false) s.
Lemma quiet_unset {A} (m : st wstate A) : quiet m → unset m.
Proof. intros H s Hs. eapply twp_mono; [apply H|]. intros a s' (_ & H2 & _). congruence. Qed.
Lemma unset_bind {A B} (m : st wstate A) (k : A → st wstate B) : unset m → (∀ a, unset (k a)) → unset (bind m k).
Proof. intros Hm Hk s Hs. apply twp_bind. eapply twp_mono; [by apply Hm|]. intros a s1 H1. by apply Hk. Qed.
Lemma unset_put f : (∀ s, closed_ (f s) = closed_ s) → unset (put f).
Proof. intros H s Hs. change (closed_ (f s) = false). by rewrite H. Qed.

Lemma CloseNotifyFd_unset s : twp CloseNotifyFd (λ _ s', closed_ s' = false) s.
Proof.
  apply twp_bind. eapply twp_mono; [apply quiet_Has|]. intros has s1 _. apply twp_bind. destruct has; cbn [negb].
  - by apply twp_ret.
  - apply twp_bind. apply twp_bind. eapply twp_mono; [apply quiet_close|]. intros _ s2 _.
    apply twp_bind. apply twp_bind. eapply twp_mono; [apply quiet_close|]. intros r s3 _.
    done.
Qed.
Lemma CloseNotifyFdLocked_unset s : twp CloseNotifyFdLocked (λ _ s', closed_ s' = false) s.
Proof.
  apply twp_bind. change (twp (reading ← get reading_; if reading : bool then _ ← put (λ s, s <| closed_ := false |>); sret ERRNO_NOERR
    else CloseNotifyFd) (λ _ s', closed_ s' = false) (s <| closed_ := true |>)).
  apply twp_bind. change (twp (get reading_) ?Q ?x) with (Q (reading_ x) x). cbv beta.
  destruct (reading_ _); [done|apply CloseNotifyFd_unset].
Qed.
(** While the thread reads nothing is closed. *)
Lemma CloseNotifyFdLocked_reading s :
  closed_ s = false → reading_ s = true → twp CloseNotifyFdLocked (λ _ s', same_fd s s') s.
Proof.
  intros Hc Hr. unfold twp, CloseNotifyFdLocked, bind, put, get. cbn [reading_].
  change (reading_ (s <| closed_ := true |>)) with (reading_ s). rewrite Hr. by split.
Qed.


Ltac unset := repeat first
  [ solve [apply quiet_unset; eauto with quiet] | intros ? _; apply CloseNotifyFdLocked_unset
  | apply unset_bind; [|intros ?] | apply unset_put; intros ?; done | case_match ].
Hint Resolve quiet_Start quiet_NotifyEvent quiet_RemoveEvents : quiet.

Lemma unset_Stop id : unset (Stop id).
Proof. unfold Stop, StopNotify. unset. Qed.
Lemma unset_InitNotify : unset InitNotify.
Proof.
  assert (unset inotify_init ∧ unset eventfd) as [H1 H2].
  { split; apply quiet_unset, quiet_sys; done. }
  unfold InitNotify. apply unset_bind; [exact H1|]. intros r. destruct r; [unset|].
  apply unset_bind; [unset|]. intros _. apply unset_bind; [exact H2|]. intros r. unset.
Qed.
Lemma unset_Create p e cb : unset (DoCreateWatcher p e cb).
Proof.
  unfold DoCreateWatcher. destruct (_ || _); [unset|]. destruct cb as [cb|]; [|unset].
  apply unset_bind; [|intros ok; unset].
  unfold TryInitNotify. apply unset_bind; [unset|]. intros fd. destruct (fd >=? 0); [unset|apply unset_InitNotify].
Qed.

Lemma thread_turn_fd o s s' : closed_ s = false → thread_turn o s = Some s' → notifyFd_ s' = notifyFd_ s ∧ closed_ s' = false.
Proof.
  intros Hc. unfold thread_turn. destruct (thread s) as [| | | | | |[|ev l]| | | |].
  all: rewrite ?Hc.
  - done.
  - destruct (run_ s); by intros [= <-].
  - by intros [= <-].
  - destruct (o_poll o); [by intros [= <-]| |by intros [= <-]].
    destruct (negb _); [by intros [= <-]|]. destruct (kqueue s); by intros [= <-].
  - by intros [= <-].
  - destruct (_ <? 0); [by intros [= <-]|]. destruct (kqueue s); by intros [= <-].
  - by intros [= <-].
  - pose proof (quiet_NotifyEvent ev s) as H. unfold twp in H. destruct (NotifyEvent ev s) as [[u s1]|]; [|done].
    intros [= <-]. destruct H as (H1 & H2 & _). change (notifyFd_ s1 = notifyFd_ s ∧ closed_ s1 = false).
    split; congruence.
  - change (closed_ (s <| reading_ := false |> <| thread := TLoop |>)) with (closed_ s). rewrite Hc. by intros [= <-].
  - destruct (taskRunning_ s); by intros [= <-].
  - by intros [= <-].
  - by intros [= <-].
Qed.

Lemma unset_after {A} (m : st wstate A) s s' : unset m → closed_ s = false → after (m s) = Some s' → closed_ s' = false.
Proof.
  intros H Hs E. specialize (H s Hs). unfold after, twp in *. destruct (m s) as [[a s1]|]; [|done].
  by injection E as <-.
Qed.

Lemma reachable_unset s : reachable any s → closed_ s = false.
Proof.
  revert s. apply along_run; [done|]. intros t s s' Hs _ E. unfold act in E. destruct (crashed s); [done|].
  destruct t as [p e cb|id|id|o|ev].
  - by eapply (unset_after (DoCreateWatcher p e cb)); [apply unset_Create|..].
  - by eapply (unset_after (Start id)); [apply quiet_unset, quiet_Start|..].
  - by eapply (unset_after (Stop id)); [apply unset_Stop|..].
  - by eapply thread_turn_fd.
  - unfold kernel_turn in E. destruct (_ && _); [|done]. by injection E as <-.
Qed.

(** Calls while the thread reads. *)
Definition harmless {A} (m : st wstate A) : Prop :=
  ∀ s, closed_ s = false → reading_ s = true → twp m (λ _ s', same_fd s s') s.
Lemma harmless_bind {A B} (m : st wstate A) (k : A → st wstate B) : harmless m → (∀ a, harmless (k a)) → harmless (bind m k).
Proof.
  intros Hm Hk s Hc Hr. apply twp_bind. eapply twp_mono; [by apply Hm|]. intros a s1 (H1 & H2 & H3).
  eapply twp_mono; [apply Hk; congruence|]. intros b s2 (H4 & H5 & H6). unfold same_fd. split_and!; congruence.
Qed.
Lemma quiet_harmless {A} (m : st wstate A) : quiet m → harmless m.
Proof. intros H s _ _. apply H. Qed.
Lemma harmless_Stop id : harmless (Stop id).
Proof.
  unfold Stop, StopNotify.
  repeat first [solve [apply quiet_harmless; eauto with quiet] | intros ? ? ?; by apply CloseNotifyFdLocked_reading
    | apply harmless_bind; [|intros ?] | case_match].
Qed.

(** C22: the close that a reading thread should make up for never happens: in every
    interleaving of calls, with any failures, [closed_] is false whenever a turn begins,
    no turn of the task thread closes the descriptors, and a [Stop] while it reads leaves
    them open, even if it stops the last watcher. *)
Theorem deferred_close_never_runs (s : wstate) :
  reachable any s →
  closed_ s = false ∧
  (∀ o s', thread_turn o s = Some s' → notifyFd_ s' = notifyFd_ s) ∧
  (∀ id, reading_ s = true → ∃ r s', Stop id s = Some (r, s') ∧ notifyFd_ s' = notifyFd_ s).
Proof.
  intros Hc%reachable_unset. split; [done|]. split; [intros o s' E; by eapply thread_turn_fd|].
  intros id Hr.
  destruct (twp_elim _ _ _ (harmless_Stop id s Hc Hr)) as (r & s' & E & H & _). by exists r, s'.
Qed.
End deferred.

(** ** The events that are asked for *)
Section wanted.
Implicit Types (m : gmap nat WatcherInfo) (l : list nat).

Lemma wanted_testbit m n l k :
  Z.testbit (wanted m n l) k = existsb (λ id, started_on m n id && Z.testbit (events (info_of m id)) k) l.
Proof.
  unfold wanted. rewrite <- (orb_false_l (existsb _ l)). rewrite <- (Z.testbit_0_l k). generalize 0 as acc.
  induction l as [|id l IH]; intros acc; cbn [fold_left existsb]; [by rewrite orb_false_r|].
  rewrite IH. destruct (started_on m n id); cbn [andb]; [|done].
  by rewrite Z.lor_spec, orb_assoc.
Qed.
Lemma wanted_ext m m' n l l' :
  (∀ k, existsb (λ id, started_on m n id && Z.testbit (events (info_of m id)) k) l =
        existsb (λ id, started_on m' n id && Z.testbit (events (info_of m' id)) k) l') →
  wanted m n l = wanted m' n l'.
Proof. intros H. apply Z.bits_inj. intros k. by rewrite !wanted_testbit. Qed.

Lemma wanted_nonneg m n l : (∀ id, id ∈ l → 0 <= events (info_of m id)) → 0 <= wanted m n l.
Proof.
  intros Hl. unfold wanted. enough (∀ acc, 0 <= acc →
    0 <= fold_left (λ acc i, if started_on m n i then Z.lor acc (events (info_of m i)) else acc) l acc) as H by by apply H.
  induction l as [|id l IH]; intros acc Ha; cbn [fold_left]; [done|].
  apply IH; [intros; apply Hl; by apply elem_of_cons; right|].
  destruct (started_on m n id); [|done]. apply Z.lor_nonneg. split; [done|]. apply Hl. by apply elem_of_cons; left.
Qed.

Lemma existsb_elem {A} (f : A → bool) (l : list A) : existsb f l = true ↔ ∃ x, x ∈ l ∧ f x = true.
Proof. rewrite existsb_exists. split; intros (x & Hx & Hf); exists x; split; try done; by apply list_elem_of_In. Qed.

(** The events of a started watcher are wanted. *)
Lemma wanted_covers m n l id : id ∈ l → started_on m n id = true → Z.land (wanted m n l) (events (info_of m id)) = events (info_of m id).
Proof.
  intros Hid Hs. apply Z.bits_inj. intros k. rewrite Z.land_spec, wanted_testbit.
  destruct (Z.testbit (events (info_of m id)) k) eqn:E; [|by rewrite andb_false_r]. rewrite andb_true_r.
  apply existsb_elem. exists id. by rewrite Hs, E.
Qed.

(** Something is wanted exactly if there is a started watcher. *)
Lemma wanted_zero m n l :
  (∀ id, id ∈ l → 0 < events (info_of m id)) → wanted m n l <= 0 → ∀ id, id ∈ l → started_on m n id = false.
Proof.
  intros He Hw id Hid. apply not_true_iff_false. intros Hs. pose proof (wanted_covers m n l id Hid Hs) as Hc.
  assert (wanted m n l = 0) as E.
  { pose proof (wanted_nonneg m n l). apply Z.le_antisymm; [done|]. apply H. intros i Hi. by apply Z.lt_le_incl, He. }
  rewrite E, Z.land_0_l in Hc. pose proof (He id Hid). lia.
Qed.

Lemma wanted_none m n l : (∀ id, id ∈ l → started_on m n id = false) → wanted m n l = 0.
Proof.
  intros H. apply Z.bits_inj. intros k. rewrite wanted_testbit, Z.testbit_0_l. apply not_true_iff_false.
  intros (id & Hid & E)%existsb_elem. by rewrite (H id Hid) in E.
Qed.

Lemma wanted_erase m n l id : started_on m n id = false → wanted m n (erase_first id l) = wanted m n l.
Proof.
  intros H. apply wanted_ext. intros k. induction l as [|i l IH]; [done|]. cbn [erase_first existsb].
  destruct (Nat.eqb_spec i id) as [->|]; [by rewrite H|]. cbn [existsb]. by rewrite IH.
Qed.

Lemma wanted_snoc m n l id : started_on m n id = false → wanted m n (l ++ [id]) = wanted m n l.
Proof.
  intros H. apply wanted_ext. intros k. rewrite existsb_app. cbn [existsb]. rewrite H. by rewrite !orb_false_r.
Qed.

Lemma elem_of_erase id i l : NoDup l → i ∈ erase_first id l ↔ i ∈ l ∧ i ≠ id.
Proof.
  induction l as [|j l IH]; intros Hn; cbn [erase_first]; [set_solver|]. apply NoDup_cons in Hn as [Hj Hn].
  destruct (Nat.eqb_spec j id) as [->|]; [set_solver|]. rewrite !elem_of_cons, IH by done. naive_solver.
Qed.
Lemma NoDup_erase id l : NoDup l → NoDup (erase_first id l).
Proof.
  induction l as [|j l IH]; intros Hn; cbn [erase_first]; [done|]. apply NoDup_cons in Hn as [Hj Hn].
  destruct (Nat.eqb_spec j id); [done|]. apply NoDup_cons. split; [|by apply IH]. rewrite elem_of_erase by done. naive_solver.
Qed.

(** After [id] was given a watch. *)
Definition with_wd m (id : nat) (w : Z) : gmap nat WatcherInfo := alter (λ i, i <| wd := w |>) id m.
Lemma info_with_wd m id w i :
  is_Some (m !! id) →
  info_of (with_wd m id w) i = if Nat.eqb i id then (info_of m id) <| wd := w |> else info_of m i.
Proof.
  intros [x Hx]. unfold info_of, with_wd. destruct (Nat.eqb_spec i id) as [->|Hne].
  - by rewrite lookup_alter_eq, Hx.
  - by rewrite lookup_alter_ne.
Qed.
Lemma wanted_start m n l id w :
  is_Some (m !! id) → id ∈ l → 0 < w →
  wanted (with_wd m id w) n l =
    if (fileName (info_of m id) =? n)%string then Z.lor (wanted m n l) (events (info_of m id)) else wanted m n l.
Proof.
  intros Hm Hid Hw. apply Z.bits_inj. intros k.
  assert (∀ i, started_on (with_wd m id w) n i && Z.testbit (events (info_of (with_wd m id w) i)) k =
    if Nat.eqb i id then (fileName (info_of m id) =? n)%string && Z.testbit (events (info_of m id)) k
    else started_on m n i && Z.testbit (events (info_of m i)) k) as Hi.
  { intros i. unfold started_on. rewrite info_with_wd by done. destruct (Nat.eqb i id); [|done].
    change (wd (_ <| wd := ?x |>)) with x. apply Z.gtb_lt in Hw. rewrite Hw. by rewrite andb_true_r. }
  assert (∀ f g : nat → bool, (∀ i, f i = g i) → existsb f l = existsb g l) as Hext.
  { intros f g H. clear Hid. induction l as [|i l' IH]; [done|]. cbn. by rewrite H, IH. }
  rewrite wanted_testbit, (Hext _ _ Hi). clear Hi Hext. apply eq_true_iff_eq. rewrite existsb_elem.
  destruct (fileName (info_of m id) =? n)%string eqn:En; rewrite ?Z.lor_spec, wanted_testbit, ?orb_true_iff, existsb_elem.
  - split.
    + intros (i & Hil & Hb). destruct (Nat.eqb_spec i id) as [->|Hne]; [by right|]. left. by exists i.
    + intros [(i & Hil & Hb)|Hb].
      * exists i. split; [done|]. destruct (Nat.eqb_spec i id) as [->|Hne]; [|done]. by apply andb_prop in Hb as [_ ->].
      * exists id. split; [done|]. by rewrite Nat.eqb_refl.
  - split; intros (i & Hil & Hb); exists i; (split; [done|]).
    + by destruct (Nat.eqb_spec i id) as [->|Hne].
    + destruct (Nat.eqb_spec i id) as [->|Hne]; [|done]. unfold started_on in Hb. by rewrite En in Hb.
Qed.
End wanted.

(** ** The registry and the kernel *)

(** The part of the state that decides who is told what. *)
Record view := mkview {
  v_infos : gmap nat WatcherInfo;
  v_cache : list nat;
  v_entries : gmap string (Z * Z);
  v_fd : Z;
  v_watches : gmap Z (Z * Z);
  v_next : Z
}.
Definition view_of (s : wstate) : view :=
  mkview (infos s) (watcherInfoCache_ s) (wdFileNameCache_ s) (notifyFd_ s) (watches s) (next_wd s).

Section registry.
Context {WE : WatchEnv}.

Definition ino (p : string) : option Z := w_ino 0 p.
(** No call fails, and paths keep naming the same inodes, each its own. *)
Record steady_world : Prop := {
  sw_calls c n : w_fault c n = 0;
  sw_ino n p : w_ino n p = ino p;
  sw_own p q i : ino p = Some i → ino q = Some i → p = q
}.

Record reg (v : view) : Prop := {
  r_nodup : NoDup (v_cache v);
  r_known id : id ∈ v_cache v → is_Some (v_infos v !! id);
  r_events id i : v_infos v !! id = Some i → 0 < events i;
  r_entry n w m : v_entries v !! n = Some (w, m) → ∃ i, ino n = Some i ∧ v_watches v !! i = Some (w, m);
  r_mask n w m : v_entries v !! n = Some (w, m) → m = wanted (v_infos v) n (v_cache v);
  r_owner n w m : v_entries v !! n = Some (w, m) → ∃ id, id ∈ v_cache v ∧ started_on (v_infos v) n id = true;
  r_started id : id ∈ v_cache v → 0 < wd (info_of (v_infos v) id) →
    ∃ m, v_entries v !! fileName (info_of (v_infos v) id) = Some (wd (info_of (v_infos v) id), m);
  r_wd i w m : v_watches v !! i = Some (w, m) → 0 < w < v_next v;
  r_inj i j w m m' : v_watches v !! i = Some (w, m) → v_watches v !! j = Some (w, m') → i = j;
  r_next : 0 < v_next v;
  r_closed : v_fd v < 0 → v_watches v = ∅
}.

Lemma r_events_of v id : reg v → id ∈ v_cache v → 0 < events (info_of (v_infos v) id).
Proof. intros Hr Hid. destruct (r_known v Hr id Hid) as [i Hi]. unfold info_of. rewrite Hi. by eapply r_events. Qed.

Lemma started_on_name m n id : started_on m n id = true ↔ fileName (info_of m id) = n ∧ 0 < wd (info_of m id).
Proof. unfold started_on. by rewrite andb_true_iff, String.eqb_eq, Z.gtb_lt. Qed.

(** [inotify_add_watch] on the table. *)
Definition add_view (i mask : Z) (v : view) : Z * view :=
  match v_watches v !! i with
  | Some (w, _) => (w, mkview (v_infos v) (v_cache v) (v_entries v) (v_fd v) (<[i := (w, mask)]> (v_watches v)) (v_next v))
  | None => (v_next v, mkview (v_infos v) (v_cache v) (v_entries v) (v_fd v) (<[i := (v_next v, mask)]> (v_watches v)) (v_next v + 1))
  end.

Record added (i mask : Z) (v : view) (w : Z) (v' : view) : Prop := {
  ad_same : v_infos v' = v_infos v ∧ v_cache v' = v_cache v ∧ v_entries v' = v_entries v ∧ v_fd v' = v_fd v;
  ad_watches : v_watches v' = <[i := (w, mask)]> (v_watches v);
  ad_old x m : v_watches v !! i = Some (x, m) → w = x;
  ad_wd j x m : v_watches v' !! j = Some (x, m) → 0 < x < v_next v';
  ad_inj j k x m m' : v_watches v' !! j = Some (x, m) → v_watches v' !! k = Some (x, m') → j = k;
  ad_next : 0 < v_next v'
}.

(** Changing the mask of a watch keeps the table in order. *)
Lemma added_old i mask v w m :
  reg v → v_watches v !! i = Some (w, m) →
  added i mask v w (mkview (v_infos v) (v_cache v) (v_entries v) (v_fd v) (<[i := (w, mask)]> (v_watches v)) (v_next v)).
Proof.
  intros Hr Hi.
  assert (∀ j x m', <[i := (w, mask)]> (v_watches v) !! j = Some (x, m') → ∃ m'', v_watches v !! j = Some (x, m'')) as H.
  { intros j x m'. destruct (decide (j = i)) as [->|Hne]; [|rewrite lookup_insert_ne by done; by eexists].
    rewrite lookup_insert_eq. intros [= <- _]. by eexists. }
  split; cbn; try done.
  - intros x m' Hx. congruence.
  - intros j x m' [m'' Hj]%H. by eapply r_wd.
  - intros j k x m1 m2 [m3 Hj]%H [m4 Hk]%H. by eapply r_inj.
  - apply Hr.
Qed.

Lemma add_view_added i mask v : reg v → added i mask v (add_view i mask v).1 (add_view i mask v).2.
Proof.
  intros Hr. unfold add_view. destruct (v_watches v !! i) as [[w m]|] eqn:Ei; [by eapply added_old|].
  pose proof (r_next v Hr). split; cbn; try done; [congruence|..|lia].
  - intros j x m'. destruct (decide (j = i)) as [->|Hne]; [rewrite lookup_insert_eq; intros [= <- _]; lia|].
    rewrite lookup_insert_ne by done. intros Hj%(r_wd v Hr). lia.
  - assert (∀ j m', v_watches v !! j = Some (v_next v, m') → False) as Hnew.
    { intros j m' Hj%(r_wd v Hr). lia. }
    intros j k x m1 m2. destruct (decide (j = i)) as [->|Hj], (decide (k = i)) as [->|Hk];
      rewrite ?lookup_insert_eq, ?lookup_insert_ne by done; try done.
    + intros [= <- _] H2. by apply Hnew in H2.
    + intros H2 [= <- _]. by apply Hnew in H2.
    + by apply r_inj.
Qed.

(** A watcher got the watch [w] on inode [i]. *)
Lemma reg_start v v1 id i w mask :
  steady_world → reg v → id ∈ v_cache v → 0 <= v_fd v →
  let name := fileName (info_of (v_infos v) id) in
  ino name = Some i → 0 < w →
  mask = Z.lor (match v_entries v !! name with Some (_, m) => m | None => 0 end) (events (info_of (v_infos v) id)) →
  added i mask v w v1 →
  reg (mkview (with_wd (v_infos v) id w) (v_cache v) (<[name := (w, mask)]> (v_entries v)) (v_fd v) (v_watches v1) (v_next v1)).
Proof.
  intros [_ _ Hown] Hr Hid Hfd name Hi Hw Hmask [_ Hws Hold Hwd Hinj Hn].
  assert (is_Some (v_infos v !! id)) as Hsome by by apply r_known.
  assert (∀ n j, n ≠ name → ino n = Some j → j ≠ i) as Hne by (intros n j Hnn Hj ->; by apply Hnn, (Hown n name i)).
  assert (wanted (v_infos v) name (v_cache v) = match v_entries v !! name with Some (_, m) => m | None => 0 end) as Hwant.
  { destruct (v_entries v !! name) as [[w0 m0]|] eqn:E; [by rewrite (r_mask v Hr _ _ _ E)|].
    apply wanted_none. intros j Hj. apply not_true_iff_false. intros [Hf Hs]%started_on_name.
    destruct (r_started v Hr j Hj Hs) as [m Hm]. rewrite Hf in Hm. congruence. }
  split; cbn [v_infos v_cache v_entries v_fd v_watches v_next].
  - apply Hr.
  - intros j Hj. unfold with_wd. destruct (decide (j = id)) as [->|Hj'].
    + rewrite lookup_alter_eq. by destruct Hsome as [x ->].
    + rewrite lookup_alter_ne by done. by apply r_known.
  - intros j x. unfold with_wd. rewrite lookup_alter_Some. intros [[<- (y & Hy & ->)]|[_ Hx]]; [|by eapply r_events].
    change (0 < events y). by eapply r_events.
  - intros n x m. destruct (decide (n = name)) as [->|Hnn].
    + rewrite lookup_insert_eq. intros [= <- <-]. exists i. by rewrite Hws, lookup_insert_eq.
    + rewrite lookup_insert_ne by done. intros (j & Hj & Hx)%(r_entry v Hr). exists j. split; [done|].
      rewrite Hws, lookup_insert_ne; [done|]. by apply not_eq_sym, (Hne n).
  - intros n x m. rewrite wanted_start by done. fold name. destruct (decide (n = name)) as [->|Hnn].
    + rewrite lookup_insert_eq, String.eqb_refl. intros [= _ <-]. by rewrite Hwant.
    + rewrite lookup_insert_ne by done. intros E. apply not_eq_sym, String.eqb_neq in Hnn. rewrite Hnn. by eapply r_mask.
  - intros n x m. destruct (decide (n = name)) as [->|Hnn].
    + intros _. exists id. split; [done|]. apply started_on_name. rewrite info_with_wd, Nat.eqb_refl by done. by split.
    + rewrite lookup_insert_ne by done. intros (j & Hj & Hs)%(r_owner v Hr). exists j. split; [done|].
      apply started_on_name in Hs as [Hf Hs]. apply started_on_name. rewrite info_with_wd by done.
      destruct (Nat.eqb_spec j id) as [->|]; [by destruct Hnn|done].
  - intros j Hj. rewrite info_with_wd by done. destruct (Nat.eqb_spec j id) as [->|Hne'].
    + intros _. exists mask. fold name. change (wd (_ <| wd := ?x |>)) with x.
      change (fileName (_ <| wd := ?x |>)) with name. by rewrite lookup_insert_eq.
    + intros Hs. destruct (r_started v Hr j Hj Hs) as [m Hm].
      destruct (decide (fileName (info_of (v_infos v) j) = name)) as [E|E].
      * rewrite E in *. rewrite lookup_insert_eq. destruct (r_entry v Hr _ _ _ Hm) as (i' & Hi' & Hx).
        assert (i' = i) as -> by congruence. rewrite (Hold _ _ Hx). by eexists.
      * rewrite lookup_insert_ne by done. by eexists.
  - done.
  - done.
  - done.
  - lia.
Qed.


(** Without [id] in the cache. *)
Lemma started_other v id n j :
  reg v → n ≠ fileName (info_of (v_infos v) id) → started_on (v_infos v) n j = true → j ≠ id.
Proof. intros _ Hn [Hf _]%started_on_name ->. by apply Hn. Qed.
Lemma started_name_false m n id : n ≠ fileName (info_of m id) → started_on m n id = false.
Proof. intros Hn. apply not_true_iff_false. intros [Hf _]%started_on_name. by apply Hn. Qed.

(** Other watchers of the file go on, with the events they want. *)
Lemma reg_stop_some v id i w m :
  steady_world → reg v → id ∈ v_cache v → 0 <= v_fd v →
  let name := fileName (info_of (v_infos v) id) in
  let cache := erase_first id (v_cache v) in
  let rem := wanted (v_infos v) name cache in
  0 < rem → ino name = Some i → v_watches v !! i = Some (w, m) →
  (∃ m0, v_entries v !! name = Some (w, m0)) →
  reg (mkview (v_infos v) cache (<[name := (w, rem)]> (v_entries v)) (v_fd v) (<[i := (w, rem)]> (v_watches v)) (v_next v)).
Proof.
  intros [_ _ Hown] Hr Hid Hfd name cache rem Hrem Hi Hx [m0 He].
  assert (∀ j, j ∈ cache ↔ j ∈ v_cache v ∧ j ≠ id) as Hin by (intros j; apply elem_of_erase, Hr).
  pose proof (added_old i rem v w m Hr Hx) as [_ Hws _ Hwd Hinj _]. cbn in Hwd, Hinj.
  split; cbn [v_infos v_cache v_entries v_fd v_watches v_next].
  - apply NoDup_erase, Hr.
  - intros j [Hj _]%Hin. by apply r_known.
  - apply Hr.
  - intros n x y. destruct (decide (n = name)) as [->|Hnn].
    + rewrite lookup_insert_eq. intros [= <- <-]. exists i. by rewrite lookup_insert_eq.
    + rewrite lookup_insert_ne by done. intros (j & Hj & Hxx)%(r_entry v Hr). exists j. split; [done|].
      rewrite lookup_insert_ne; [done|]. intros <-. by apply Hnn, (Hown n name i).
  - intros n x y. destruct (decide (n = name)) as [->|Hnn].
    + rewrite lookup_insert_eq. by intros [= _ <-].
    + rewrite lookup_insert_ne by done. intros E. unfold cache. rewrite wanted_erase; [by eapply r_mask|].
      by apply started_name_false.
  - intros n x y. destruct (decide (n = name)) as [->|Hnn].
    + intros _. destruct (existsb (started_on (v_infos v) name) cache) eqn:E.
      * apply existsb_elem in E as (j & Hj & Hs). by exists j.
      * exfalso. unfold rem in Hrem. rewrite wanted_none in Hrem; [lia|]. intros j Hj. apply not_true_iff_false.
        intros Hs. apply not_true_iff_false in E. apply E, existsb_elem. by exists j.
    + rewrite lookup_insert_ne by done. intros (j & Hj & Hs)%(r_owner v Hr). exists j. split; [|done].
      apply Hin. split; [done|]. by eapply started_other.
  - intros j [Hj _]%Hin Hs. destruct (r_started v Hr j Hj Hs) as [y Hy].
    destruct (decide (fileName (info_of (v_infos v) j) = name)) as [E|E].
    + rewrite E in *. rewrite lookup_insert_eq. assert (w = wd (info_of (v_infos v) j)) as -> by congruence. by eexists.
    + rewrite lookup_insert_ne by done. by eexists.
  - done.
  - done.
  - apply Hr.
  - lia.
Qed.

(** The last watcher of the file: its watch goes. *)
Lemma reg_stop_none v id ws :
  steady_world → reg v → id ∈ v_cache v → 0 <= v_fd v →
  let name := fileName (info_of (v_infos v) id) in
  let cache := erase_first id (v_cache v) in
  wanted (v_infos v) name cache <= 0 →
  (∀ i x, ws !! i = Some x → v_watches v !! i = Some x) →
  (∀ i w m, v_watches v !! i = Some (w, m) → w ≠ wd (info_of (v_infos v) id) → ws !! i = Some (w, m)) →
  reg (mkview (v_infos v) cache (delete name (v_entries v)) (v_fd v) ws (v_next v)).
Proof.
  intros [_ _ Hown] Hr Hid Hfd name cache Hrem Hsub Hkeep.
  assert (∀ j, j ∈ cache ↔ j ∈ v_cache v ∧ j ≠ id) as Hin by (intros j; apply elem_of_erase, Hr).
  assert (∀ j, j ∈ cache → started_on (v_infos v) name j = false) as Hnone.
  { apply wanted_zero; [|done]. intros j [Hj _]%Hin. by apply r_events_of. }
  split; cbn [v_infos v_cache v_entries v_fd v_watches v_next].
  - apply NoDup_erase, Hr.
  - intros j [Hj _]%Hin. by apply r_known.
  - apply Hr.
  - intros n w m. rewrite lookup_delete_Some. intros [Hnn He]. destruct (r_entry v Hr _ _ _ He) as (i & Hi & Hx).
    exists i. split; [done|]. apply Hkeep; [done|]. intros ->.
    destruct (r_wd v Hr _ _ _ Hx) as [Hpos _]. destruct (r_started v Hr id Hid Hpos) as [m' Hm'].
    destruct (r_entry v Hr _ _ _ Hm') as (j & Hj & Hy). assert (i = j) as -> by by eapply r_inj.
    apply Hnn. symmetry. by apply (Hown n name j).
  - intros n w m. rewrite lookup_delete_Some. intros [Hnn He]. unfold cache.
    rewrite wanted_erase; [by eapply r_mask|]. by apply started_name_false, not_eq_sym.
  - intros n w m. rewrite lookup_delete_Some. intros [Hnn He]. destruct (r_owner v Hr _ _ _ He) as (j & Hj & Hs).
    exists j. split; [|done]. apply Hin. split; [done|]. by eapply started_other; [|apply not_eq_sym|].
  - intros j Hj Hs. pose proof Hj as [Hj' _]%Hin. destruct (r_started v Hr j Hj' Hs) as [m Hm]. exists m.
    apply lookup_delete_Some. split; [|done]. intros E. apply (not_true_iff_false (started_on (v_infos v) name j)); [by apply Hnone|].
    by apply started_on_name.
  - intros i w m Hx%Hsub. by eapply r_wd.
  - intros i j w m m' Hx%Hsub Hy%Hsub. by eapply r_inj.
  - apply Hr.
  - lia.
Qed.

(** Nobody watches: the descriptors can be closed. *)
Lemma reg_close v fd : reg v → v_cache v = [] → reg (mkview (v_infos v) [] (v_entries v) fd ∅ (v_next v)).
Proof.
  intros Hr Hc. assert (∀ n x, v_entries v !! n = Some x → False) as Hno.
  { intros n [w m] He. destruct (r_owner v Hr _ _ _ He) as (j & Hj & _). rewrite Hc in Hj. by apply not_elem_of_nil in Hj. }
  split; cbn [v_infos v_cache v_entries v_fd v_watches v_next]; try done.
  - constructor.
  - by intros j ?%not_elem_of_nil.
  - apply Hr.
  - intros n w m He. by apply Hno in He.
  - intros n w m He. by apply Hno in He.
  - intros n w m He. by apply Hno in He.
  - by intros j ?%not_elem_of_nil.
  - apply Hr.
Qed.

(** A new instance. *)
Lemma reg_open v fd : reg v → v_fd v < 0 → reg (mkview (v_infos v) (v_cache v) (v_entries v) fd ∅ 1).
Proof.
  intros Hr Hfd. pose proof (r_closed v Hr Hfd) as Hw.
  assert (∀ n w m, v_entries v !! n = Some (w, m) → False) as Hno.
  { intros n w m He. destruct (r_entry v Hr _ _ _ He) as (i & _ & Hx). by rewrite Hw in Hx. }
  split; cbn [v_infos v_cache v_entries v_fd v_watches v_next]; try done; try apply Hr.
  intros n w m He. by apply Hno in He.
Qed.

Lemma reg_clear v : reg v → reg (mkview (v_infos v) [] ∅ (v_fd v) (v_watches v) (v_next v)).
Proof.
  intros Hr. split; cbn [v_infos v_cache v_entries v_fd v_watches v_next]; try done; try apply Hr.
  - constructor.
  - by intros j ?%not_elem_of_nil.
  - by intros j ?%not_elem_of_nil.
Qed.

(** A watcher that is not started yet. *)
Lemma info_of_new m id i j : m !! id = None → is_Some (m !! j) → info_of (<[id := i]> m) j = info_of m j.
Proof. intros Hn Hj. unfold info_of. rewrite lookup_insert_ne; [done|]. intros ->. rewrite Hn in Hj. by destruct Hj. Qed.

Lemma reg_info v id i :
  reg v → v_infos v !! id = None → 0 < events i →
  reg (mkview (<[id := i]> (v_infos v)) (v_cache v) (v_entries v) (v_fd v) (v_watches v) (v_next v)).
Proof.
  intros Hr Hn Hi.
  assert (∀ j, j ∈ v_cache v → info_of (<[id := i]> (v_infos v)) j = info_of (v_infos v) j) as Hinfo.
  { intros j Hj. apply info_of_new; [done|by apply r_known]. }
  assert (∀ n j, j ∈ v_cache v → started_on (<[id := i]> (v_infos v)) n j = started_on (v_infos v) n j) as Hst.
  { intros n j Hj. unfold started_on. by rewrite Hinfo. }
  split; cbn [v_infos v_cache v_entries v_fd v_watches v_next]; try apply Hr.
  - intros j Hj. destruct (decide (j = id)) as [->|]; [rewrite lookup_insert_eq; by eexists|].
    rewrite lookup_insert_ne by done. by apply r_known.
  - intros j x. rewrite lookup_insert_Some. intros [[<- <-]|[_ Hx]]; [done|]. by eapply r_events.
  - intros n w m He. rewrite (r_mask v Hr _ _ _ He). apply Z.bits_inj. intros k. rewrite !wanted_testbit.
    apply eq_true_iff_eq. rewrite !existsb_elem. split; intros (j & Hj & Hb); exists j; (split; [done|]);
      rewrite Hst, Hinfo in * by done; done.
  - intros n w m He. destruct (r_owner v Hr _ _ _ He) as (j & Hj & Hs). exists j. by rewrite Hst.
  - intros j Hj. rewrite Hinfo by done. by apply r_started.
Qed.

Lemma reg_cached v id :
  reg v → is_Some (v_infos v !! id) → id ∉ v_cache v → wd (info_of (v_infos v) id) <= 0 →
  reg (mkview (v_infos v) (v_cache v ++ [id]) (v_entries v) (v_fd v) (v_watches v) (v_next v)).
Proof.
  intros Hr Hs Hn Hw.
  assert (∀ n, started_on (v_infos v) n id = false) as Hst.
  { intros n. apply not_true_iff_false. intros [_ H]%started_on_name. lia. }
  split; cbn [v_infos v_cache v_entries v_fd v_watches v_next]; try apply Hr.
  - apply NoDup_app. split; [apply Hr|]. split; [|apply NoDup_singleton]. by intros j Hj ->%list_elem_of_singleton.
  - intros j [Hj| ->%list_elem_of_singleton]%elem_of_app; [by apply r_known|done].
  - intros n w m He. rewrite wanted_snoc by done. by eapply r_mask.
  - intros n w m He. destruct (r_owner v Hr _ _ _ He) as (j & Hj & Hsj). exists j. split; [|done]. apply elem_of_app. by left.
  - intros j [Hj| ->%list_elem_of_singleton]%elem_of_app Hp; [by apply r_started|lia].
Qed.

(** *** Programs on the registry *)

(** What a program does to the view, whatever the rest of the state. *)
Definition via {A} (m : st wstate A) (v : view) (Q : A → view → Prop) : Prop :=
  ∀ s, view_of s = v → twp m (λ a s', Q a (view_of s')) s.

Lemma via_ret {A} (a : A) v (Q : A → view → Prop) : Q a v → via (sret a) v Q.
Proof. intros H s <-. exact H. Qed.
Lemma via_bind {A B} (m : st wstate A) (k : A → st wstate B) v Q :
  via m v (λ a v', via (k a) v' Q) → via (bind m k) v Q.
Proof. intros H s Hs. apply twp_bind. eapply twp_mono; [by apply H|]. intros a s1 H1. by apply H1. Qed.
Lemma via_get {A} (f : wstate → A) v (Q : A → view → Prop) : (∀ s, view_of s = v → Q (f s) v) → via (get f) v Q.
Proof. intros H s Hs. change (Q (f s) (view_of s)). rewrite Hs. by apply H. Qed.
Lemma via_put f v (Q : unit → view → Prop) : (∀ s, view_of s = v → Q tt (view_of (f s))) → via (put f) v Q.
Proof. intros H s Hs. by apply H. Qed.
Lemma via_sys {A} c (f : nat → wstate → (Z + A) * wstate) v (Q : Z + A → view → Prop) :
  steady_world → (∀ n s, view_of s = v → Q (f n s).1 (view_of (f n s).2)) → via (sys c f) v Q.
Proof.
  intros [Hf _ _] H s Hs. unfold twp, sys. rewrite Hf. cbn [Z.eqb].
  match goal with |- context [f ?a ?b] => specialize (H a b Hs); destruct (f a b) as [r s1] end. cbn [fst snd] in H.
  destruct r; exact H.
Qed.
Lemma via_mono {A} (m : st wstate A) v (P Q : A → view → Prop) : via m v P → (∀ a v', P a v' → Q a v') → via m v Q.
Proof. intros H HPQ s Hs. eapply twp_mono; [by apply H|]. intros a s'. apply HPQ. Qed.

Lemma via_add_watch p mask v (Q : Z + Z → view → Prop) :
  steady_world → reg v →
  (ino p = None → Q (inl ENOENT) v) →
  (∀ i w v', ino p = Some i → added i mask v w v' → Q (inr w) v') →
  via (inotify_add_watch p mask) v Q.
Proof.
  intros Hsw Hr Hno Hyes. apply via_sys; [done|]. intros n s Hs. rewrite (sw_ino Hsw).
  destruct (ino p) as [i|] eqn:Ei; [|cbn [fst snd]; rewrite Hs; by apply Hno].
  pose proof (add_view_added i mask v Hr) as H. pose proof (Hyes i _ _ eq_refl H) as H'. clear H Hyes Hno.
  revert H'. unfold add_view. rewrite <- Hs. cbn [v_watches view_of].
  destruct (watches s !! i) as [[w m]|]; cbn [fst snd]; exact id.
Qed.


(** A watch that is there already. *)
Lemma via_add_old p mask i w m v (Q : Z + Z → view → Prop) :
  steady_world → ino p = Some i → v_watches v !! i = Some (w, m) →
  Q (inr w) (mkview (v_infos v) (v_cache v) (v_entries v) (v_fd v) (<[i := (w, mask)]> (v_watches v)) (v_next v)) →
  via (inotify_add_watch p mask) v Q.
Proof.
  intros Hsw Hi Hx HQ. apply via_sys; [done|]. intros n s <-. rewrite (sw_ino Hsw), Hi.
  cbn [v_watches view_of] in Hx. rewrite Hx. exact HQ.
Qed.

Lemma via_rm_watch w v (Q : Z + unit → view → Prop) :
  steady_world →
  (∀ r, Q r (mkview (v_infos v) (v_cache v) (v_entries v) (v_fd v) (filter (λ x, x.2.1 ≠ w) (v_watches v)) (v_next v))) →
  via (inotify_rm_watch w) v Q.
Proof.
  intros Hsw HQ. apply via_sys; [done|]. intros _ s <-.
  destruct (existsb _ _) eqn:E; cbn [fst snd]; [apply HQ|]. specialize (HQ (inl EINVAL)).
  assert (filter (λ x, x.2.1 ≠ w) (v_watches (view_of s)) = watches s) as Hid.
  { apply map_filter_id. intros i x Hx Hw. apply not_true_iff_false in E. apply E, existsb_elem. exists (i, x).
    split; [by apply elem_of_map_to_list|]. by apply Z.eqb_eq. }
  rewrite Hid in HQ. exact HQ.
Qed.

Lemma via_access p v (Q : bool → view → Prop) :
  steady_world → Q (bool_decide (is_Some (ino p))) v → via (access_exists p) v Q.
Proof.
  intros Hsw HQ. apply via_bind, via_sys; [done|]. intros n s Hs. cbn [fst snd]. rewrite (sw_ino Hsw), Hs.
  apply via_ret. by destruct (ino p).
Qed.
Lemma via_close v (Q : Z → view → Prop) : steady_world → Q 0 v → via close v Q.
Proof. intros Hsw HQ. apply via_bind, via_sys; [done|]. intros n s Hs. cbn [fst snd]. rewrite Hs. by apply via_ret. Qed.

(** Every call keeps the registry in order. *)
Definition keeps {A} (m : st wstate A) : Prop := ∀ v, reg v → via m v (λ _ v', reg v').

Lemma keeps_StartNotify id : steady_world → ∀ v, reg v → id ∈ v_cache v → via (StartNotify id) v (λ _ v', reg v').
Proof.
  intros Hsw v Hr Hid. apply via_bind, via_get. intros s0 Hs0.
  change (notifyFd_ s0) with (v_fd (view_of s0)). rewrite Hs0. clear s0 Hs0.
  destruct (v_fd v <? 0) eqn:Efd; [by apply via_ret|]. apply Z.ltb_ge in Efd.
  apply via_bind, via_get. intros s0 Hs0. change (infos s0) with (v_infos (view_of s0)). rewrite Hs0. clear s0 Hs0.
  set (info := info_of (v_infos v) id).
  apply via_bind, via_get. intros s0 Hs0. change (wdFileNameCache_ s0) with (v_entries (view_of s0)). rewrite Hs0. clear s0 Hs0.
  assert (∀ w m i, 0 < w → ino (fileName info) = Some i →
    m = Z.lor (match v_entries v !! fileName info with Some (_, m) => m | None => 0 end) (events info) →
    ∀ v', added i m v w v' →
    via (_ ← set_wd id w; _ ← UpdateWatchedEvents (fileName info) w m; sret ERRNO_NOERR) v' (λ _ v', reg v')) as Hset.
  { intros w m i Hw Hi Hm v' Hadd. apply via_bind, via_put. intros s1 Hs1. apply via_bind, via_put. intros s2 Hs2.
    apply via_ret. pose proof (reg_start v v' id i w m Hsw Hr Hid Efd Hi Hw Hm Hadd) as H.
    destruct Hadd as [(H1 & H2 & H3 & H4) _ _ _ _ _]. fold info in H.
    rewrite <- H1, <- H2, <- H3, <- H4, <- Hs1 in H.
    change (reg (mkview (v_infos (view_of s2)) (v_cache (view_of s2)) (<[fileName info := (w, m)]> (v_entries (view_of s2)))
      (v_fd (view_of s2)) (v_watches (view_of s2)) (v_next (view_of s2)))). rewrite Hs2. exact H. }
  destruct (v_entries v !! fileName info) as [[w m]|] eqn:He.
  - destruct (r_entry v Hr _ _ _ He) as (i & Hi & Hx). destruct (r_wd v Hr _ _ _ Hx) as [Hw _].
    destruct (negb (Z.land m (events info) =? events info)) eqn:Ec; cbn [andb].
    + replace (negb (w =? -1)) with true by (symmetry; apply negb_true_iff, Z.eqb_neq; lia). cbv iota.
      apply via_bind, via_add_watch; [done..|intros E; exact (via_ret _ _ _ Hr)|].
      intros i' w' v' Hi' Hadd. assert (i' = i) as -> by congruence.
      assert (w' = w) as -> by by eapply ad_old. exact (Hset w _ i Hw Hi eq_refl v' Hadd).
    + apply negb_false_iff, Z.eqb_eq in Ec. replace (w >? 0) with true by (symmetry; by apply Z.gtb_lt). cbv iota.
      apply via_bind, via_put. intros s1 Hs1. apply via_ret.
      assert (m = Z.lor m (events info)) as Hm.
      { rewrite <- Ec. apply Z.bits_inj. intros k. rewrite Z.lor_spec, Z.land_spec. by destruct (Z.testbit m k). }
      pose proof (added_old i m v w m Hr Hx) as Hadd.
      match type of Hadd with added _ _ _ _ ?v1 => pose proof (reg_start v v1 id i w m Hsw Hr Hid Efd Hi Hw) as H end.
      fold info in H. rewrite He in H. specialize (H Hm Hadd). cbn [v_watches v_next] in H.
      rewrite (insert_id (v_entries v)), (insert_id (v_watches v)) in H by done. rewrite <- Hs1 in H. exact H.
  - cbn [andb]. change (negb (-1 =? -1)) with false. cbv iota.
    apply via_bind, via_add_watch; [done..|intros E; exact (via_ret _ _ _ Hr)|].
    intros i w v' Hi Hadd. refine (Hset w (events info) i _ Hi _ v' Hadd); [|by rewrite Z.lor_0_l].
    destruct Hadd as [_ H2 _ H4 _ _]. destruct (H4 i w (events info)); [|done]. by rewrite H2, lookup_insert_eq.
Qed.


(** A change outside the view. *)
Lemma via_put_out f v (Q : unit → view → Prop) : (∀ s, view_of (f s) = view_of s) → Q tt v → via (put f) v Q.
Proof. intros Hf HQ. apply via_put. intros s <-. by rewrite Hf. Qed.

Lemma keeps_CloseNotifyFd : steady_world → keeps CloseNotifyFd.
Proof.
  intros Hsw v Hr. apply via_bind, via_get. intros s1 Hs1.
  change (watcherInfoCache_ s1) with (v_cache (view_of s1)). rewrite Hs1. clear s1 Hs1.
  destruct (v_cache v) as [|id l] eqn:Ec; cbn [negb]; apply via_bind.
  - apply via_bind, via_put_out; [done|]. apply via_bind, via_close; [done|].
    apply via_bind, via_put. intros s2 Hs2. apply via_bind, via_close; [done|]. apply via_bind, via_put_out; [done|].
    apply via_ret, via_bind, via_put_out; [done|]. apply via_ret.
    change (reg (mkview (v_infos (view_of s2)) (v_cache (view_of s2)) (v_entries (view_of s2)) (-1) ∅ (v_next (view_of s2)))).
    rewrite Hs2, Ec. by apply reg_close.
  - apply via_ret, via_bind, via_put_out; [done|]. by apply via_ret.
Qed.
Lemma keeps_CloseNotifyFdLocked : steady_world → keeps CloseNotifyFdLocked.
Proof.
  intros Hsw v Hr. apply via_bind, via_put_out; [done|]. apply via_bind, via_get. intros s0 _.
  destruct (reading_ s0); [|by apply keeps_CloseNotifyFd]. apply via_bind, via_put_out; [done|by apply via_ret].
Qed.

Lemma via_Remove id v (Q : Z → view → Prop) :
  Q (wanted (v_infos v) (fileName (info_of (v_infos v) id)) (erase_first id (v_cache v)))
    (mkview (v_infos v) (erase_first id (v_cache v)) (v_entries v) (v_fd v) (v_watches v) (v_next v)) →
  via (RemoveWatcherInfo id) v Q.
Proof. intros H s <-. exact H. Qed.

(** What follows the end of a watch that nobody else needs. *)
Lemma keeps_stop_end id v ws (r : Z + unit) :
  let info := info_of (v_infos v) id in
  let cache := erase_first id (v_cache v) in
  steady_world → reg v → id ∈ v_cache v → 0 <= v_fd v → wanted (v_infos v) (fileName info) cache <= 0 →
  (∀ i x, ws !! i = Some x → v_watches v !! i = Some x) →
  (∀ i w m, v_watches v !! i = Some (w, m) → w ≠ wd info → ws !! i = Some (w, m)) →
  via (gone ← (match r with
        | inl rmErr => ok ← access_exists (fileName info); sret (if ok : bool then Some rmErr else None)
        | inr _ => sret None
        end);
    _ ← RemoveWatchedEvents (fileName info); ret ← CloseNotifyFdLocked;
    sret (match gone with Some rmErr => rmErr | None => ret end))
    (mkview (v_infos v) cache (v_entries v) (v_fd v) ws (v_next v)) (λ _ v', reg v').
Proof.
  intros info cache Hsw Hr Hid Efd Erem H1 H2.
  assert (∀ gone : option Z,
    via (_ ← RemoveWatchedEvents (fileName info); ret ← CloseNotifyFdLocked;
         sret (match gone with Some rmErr => rmErr | None => ret end))
      (mkview (v_infos v) cache (v_entries v) (v_fd v) ws (v_next v)) (λ _ v', reg v')) as Hend.
  { intros gone. apply via_bind, via_put. intros s Hs. apply via_bind.
    apply (via_mono _ _ (λ _ v', reg v')); [|intros ret v' H; by apply via_ret].
    change (via CloseNotifyFdLocked (mkview (v_infos (view_of s)) (v_cache (view_of s))
      (delete (fileName info) (v_entries (view_of s))) (v_fd (view_of s)) (v_watches (view_of s)) (v_next (view_of s)))
      (λ _ v', reg v')). rewrite Hs. apply keeps_CloseNotifyFdLocked; [done|].
    exact (reg_stop_none v id ws Hsw Hr Hid Efd Erem H1 H2). }
  apply via_bind. destruct r as [e|u].
  - apply via_bind, via_access; [done|]. apply via_ret. exact (Hend _).
  - apply via_ret. exact (Hend None).
Qed.

Lemma keeps_Stop id : steady_world → ∀ v, reg v → id ∈ v_cache v → via (Stop id) v (λ _ v', reg v').
Proof.
  intros Hsw v Hr Hid. apply via_bind, via_get. intros s0 Hs0.
  change (notifyFd_ s0) with (v_fd (view_of s0)). rewrite Hs0. clear s0 Hs0.
  destruct (v_fd v <? 0) eqn:Efd; [by apply via_ret|]. apply Z.ltb_ge in Efd.
  apply via_bind, via_get. intros s0 Hs0. change (infos s0) with (v_infos (view_of s0)). rewrite Hs0. clear s0 Hs0.
  set (info := info_of (v_infos v) id). set (cache := erase_first id (v_cache v)).
  apply via_bind, via_Remove. fold info cache. set (rem := wanted _ _ _).
  set (v1 := mkview (v_infos v) cache (v_entries v) (v_fd v) (v_watches v) (v_next v)).
  destruct (rem >? 0) eqn:Erem.
  - apply Z.gtb_lt in Erem.
    (* another started watcher of the file *)
    destruct (existsb (started_on (v_infos v) (fileName info)) cache) eqn:Eo.
    2: { exfalso. unfold rem in Erem. rewrite wanted_none in Erem; [lia|]. intros j Hj. apply not_true_iff_false.
         intros Hs. apply not_true_iff_false in Eo. apply Eo, existsb_elem. by exists j. }
    apply existsb_elem in Eo as (j & Hj & Hs). apply elem_of_erase in Hj as [Hj Hne]; [|apply Hr].
    apply started_on_name in Hs as [Hf Hs]. destruct (r_started v Hr j Hj Hs) as [m Hm]. rewrite Hf in Hm.
    set (w := wd (info_of (v_infos v) j)) in *. destruct (r_entry v Hr _ _ _ Hm) as (i & Hi & Hx).
    pose proof (reg_stop_some v id i w m Hsw Hr Hid Efd Erem Hi Hx (ex_intro _ m Hm)) as Hgoal.
    fold info cache rem in Hgoal.
    apply via_bind, via_access; [done|]. rewrite bool_decide_eq_true_2 by (by eexists). cbv iota.
    apply via_bind. eapply (via_add_old _ _ i w m); [done..|].
    destruct (Z.eqb_spec w (wd info)) as [E|E]; cbn [negb].
    + apply via_bind, via_put. intros s1 Hs1. apply via_ret. rewrite <- E.
      change (reg (mkview (v_infos (view_of s1)) (v_cache (view_of s1)) (<[fileName info := (w, rem)]> (v_entries (view_of s1)))
        (v_fd (view_of s1)) (v_watches (view_of s1)) (v_next (view_of s1)))). rewrite Hs1. exact Hgoal.
    + apply via_ret. assert (rem = m) as Erm.
      { unfold rem, cache. rewrite wanted_erase; [by rewrite (r_mask v Hr _ _ _ Hm)|].
        apply not_true_iff_false. intros [_ Hp]%started_on_name. destruct (r_started v Hr id Hid Hp) as [m' Hm'].
        fold info in Hm'. congruence. }
      rewrite Erm in *. rewrite (insert_id (v_entries v)) in Hgoal by done. exact Hgoal.
  - apply not_true_iff_false in Erem. rewrite Z.gtb_lt in Erem. apply Z.nlt_ge in Erem.
    apply via_bind, via_get. intros s0 _.
    pose proof (λ ws r, keeps_stop_end id v ws r Hsw Hr Hid Efd Erem) as Hend.
    apply via_bind. destruct (negb (closed_ s0 && reading_ s0)).
    + apply via_rm_watch; [done|]. intros r. refine (Hend _ r _ _).
      * intros i x. cbn [v_watches v1]. rewrite map_lookup_filter_Some. by intros [? _].
      * intros i w m Hx Hw. apply map_lookup_filter_Some. by split.
    + apply via_bind, via_get. intros s1 _. apply via_ret.
      exact (Hend (v_watches v) (inl (errno s1)) (λ i x H, H) (λ i w m H _, H)).
Qed.

Lemma keeps_TryInitNotify : steady_world → keeps TryInitNotify.
Proof.
  intros Hsw v Hr. apply via_bind, via_get. intros s0 Hs0. change (notifyFd_ s0) with (v_fd (view_of s0)).
  rewrite Hs0. clear s0 Hs0. destruct (v_fd v >=? 0) eqn:Efd; [by apply via_ret|].
  assert (v_fd v < 0) as Hfd by (apply not_true_iff_false in Efd; rewrite Z.geb_le in Efd; lia).
  apply via_bind, via_sys; [done|]. intros n s Hs. cbn [fst snd].
  apply via_bind, via_put. intros s1 Hs1. apply via_bind, via_sys; [done|]. intros n2 s2 Hs2. cbn [fst snd].
  apply via_bind, via_put_out; [done|]. apply via_ret. rewrite Hs2.
  change (reg (mkview (v_infos (view_of s1)) (v_cache (view_of s1)) (v_entries (view_of s1)) (w_fd n)
    (v_watches (view_of s1)) (v_next (view_of s1)))). rewrite Hs1.
  change (reg (mkview (v_infos (view_of s)) (v_cache (view_of s)) (v_entries (view_of s)) (w_fd n) ∅ 1)).
  rewrite Hs. by apply reg_open.
Qed.

Lemma keeps_Create p evs cb : steady_world → keeps (DoCreateWatcher p evs cb).
Proof.
  intros Hsw v Hr. unfold DoCreateWatcher. destruct ((evs <=? 0) || _) eqn:Ee; [by apply via_ret|].
  destruct cb as [cb|]; [|by apply via_ret]. apply orb_false_elim in Ee as [Ee _]. apply Z.leb_gt in Ee.
  apply via_bind. eapply via_mono; [by apply keeps_TryInitNotify|]. intros ok v1 Hr1. cbv beta in *.
  destruct ok; cbn [negb]; [|apply via_bind, via_get; intros; by apply via_ret].
  apply via_bind, via_get. intros s0 Hs0. change (infos s0) with (v_infos (view_of s0)). rewrite Hs0. clear s0 Hs0.
  set (id := fresh (dom (v_infos v1))). assert (v_infos v1 !! id = None) as Hnew.
  { apply not_elem_of_dom, is_fresh. }
  assert (id ∉ v_cache v1) as Hnc by (intros Hin%(r_known v1 Hr1); rewrite Hnew in Hin; by destruct Hin).
  set (info := mkInfo p evs (-1) cb). pose proof (reg_info v1 id info Hr1 Hnew Ee) as Hr2.
  apply via_bind, via_put. intros s1 Hs1.
  assert (view_of (s1 <| infos := <[id := info]> (infos s1) |>) =
    mkview (<[id := info]> (v_infos v1)) (v_cache v1) (v_entries v1) (v_fd v1) (v_watches v1) (v_next v1)) as Hv2.
  { by rewrite <- Hs1. }
  rewrite Hv2. clear s1 Hs1 Hv2. apply via_bind. intros s Hs. unfold twp, AddWatcherInfo.
  destruct (existsb _ _); [rewrite Hs; by apply via_ret|]. apply via_ret.
  pose proof (reg_cached _ id Hr2) as H. cbn [v_infos v_cache v_entries v_fd v_watches v_next] in H.
  change (reg (mkview (v_infos (view_of s)) (v_cache (view_of s) ++ [id]) (v_entries (view_of s)) (v_fd (view_of s))
    (v_watches (view_of s)) (v_next (view_of s)))). rewrite Hs. apply H; [|done|].
  - rewrite lookup_insert_eq. by eexists.
  - unfold info_of. rewrite lookup_insert_eq. cbn. lia.
Qed.

Lemma NotifyEvent_view ev v : via (NotifyEvent ev) v (λ _ v', v' = v).
Proof.
  apply via_bind, via_get. intros s Hs.
  match goal with |- via (match ?x with _ => _ end) _ _ => destruct x as [[matched name] ws] end.
  destruct matched; cbn [negb]; [|by apply via_ret]. by apply via_put_out.
Qed.

Lemma thread_turn_reg o s s' : steady_world → reg (view_of s) → thread_turn o s = Some s' → reg (view_of s').
Proof.
  intros Hsw Hr. unfold thread_turn. destruct (thread s) as [| | | | | |[|ev l]| | | |].
  - done.
  - destruct (run_ s); by intros [= <-].
  - by intros [= <-].
  - destruct (o_poll o); [by intros [= <-]| |by intros [= <-]].
    destruct (negb _); [by intros [= <-]|]. destruct (kqueue s); by intros [= <-].
  - destruct (closed_ s); by intros [= <-].
  - destruct (_ <? 0); [by intros [= <-]|]. destruct (kqueue s); by intros [= <-].
  - by intros [= <-].
  - pose proof (NotifyEvent_view ev (view_of s) s eq_refl) as H. unfold twp in H.
    destruct (NotifyEvent ev s) as [[u s1]|]; [|done]. intros [= <-]. change (reg (view_of s1)). by rewrite H.
  - destruct (closed_ _); [|by intros [= <-]].
    match goal with |- context [CloseNotifyFd ?x] =>
      pose proof (keeps_CloseNotifyFd Hsw _ Hr x eq_refl) as H; unfold twp in H; destruct (CloseNotifyFd x) as [[u s1]|]
    end; [|done]. by intros [= <-].
  - destruct (taskRunning_ s); by intros [= <-].
  - intros [= <-]. apply (reg_clear (view_of s) Hr).
  - by intros [= <-].
Qed.

(** Watchers are started and stopped while they are registered. *)
Definition registered (t : turn) (s : wstate) : bool :=
  match t with StartW id | StopW id => bool_decide (id ∈ watcherInfoCache_ s) | _ => true end.

Lemma reg_idle : reg (view_of idle).
Proof.
  split; cbn; try done; [constructor|..]; by intros id ?%not_elem_of_nil.
Qed.

Lemma via_after {A} (m : st wstate A) s s' : via m (view_of s) (λ _ v', reg v') → after (m s) = Some s' → reg (view_of s').
Proof.
  intros H E. specialize (H s eq_refl). unfold after, twp in *. destruct (m s) as [[a s1]|]; [|done]. by injection E as <-.
Qed.

Lemma reachable_reg s : steady_world → reachable registered s → reg (view_of s).
Proof.
  intros Hsw. revert s. apply along_run; [exact reg_idle|]. intros t s s' Hr Hok E. unfold act in E.
  destruct (crashed s); [done|]. destruct t as [p e cb|id|id|o|ev]; cbn [registered] in Hok.
  - eapply via_after; [|exact E]. by apply keeps_Create.
  - apply bool_decide_eq_true in Hok. eapply via_after; [|exact E]. apply via_bind.
    eapply via_mono; [by apply keeps_StartNotify|]. intros ret v Hv. cbv beta in *.
    destruct (negb _); [by apply via_ret|]. apply via_bind, via_put_out; [|by apply via_ret].
    intros s1. by destruct (taskRunning_ s1), (joinable s1).
  - apply bool_decide_eq_true in Hok. eapply via_after; [|exact E]. by apply keeps_Stop.
  - by eapply thread_turn_reg.
  - unfold kernel_turn in E. destruct (_ && _); [|done]. by injection E as <-.
Qed.


(** *** Who is told *)

(** The file of a watch is found whatever the order of the hash map. *)
Lemma find_entry v name w m :
  steady_world → reg v → v_entries v !! name = Some (w, m) →
  List.find (λ x : string * (Z * Z), x.2.1 =? w) (w_order (map_to_list (v_entries v))) = Some (name, (w, m)).
Proof.
  intros [_ _ Hown] Hr He. pose proof (w_order_perm (map_to_list (v_entries v))) as Hp.
  destruct (List.find _ _) as [[n [w' m']]|] eqn:Ef.
  - apply List.find_some in Ef as [Hin Hw]. cbn in Hw. apply Z.eqb_eq in Hw as ->.
    apply list_elem_of_In in Hin. rewrite Hp in Hin. apply elem_of_map_to_list in Hin.
    destruct (r_entry v Hr _ _ _ Hin) as (i & Hi & Hx). destruct (r_entry v Hr _ _ _ He) as (j & Hj & Hy).
    assert (i = j) as -> by by eapply r_inj. assert (n = name) as -> by by eapply Hown. congruence.
  - exfalso. assert ((name, (w, m)).2.1 =? w = false) as Hf; [|cbn in Hf; by rewrite Z.eqb_refl in Hf].
    apply (List.find_none _ _ Ef). apply list_elem_of_In. rewrite Hp. by apply elem_of_map_to_list.
Qed.

Lemma told_ids ev name ws : (λ x, x.1.1.1) <$> told ev name ws = ws.
Proof.
  unfold told. enough (∀ n out, (λ x, x.1.1.1) <$> (fold_left (trigger ev) ws (n, out)).2 = ((λ x, x.1.1.1) <$> out) ++ ws)
    as H by by rewrite H.
  induction ws as [|j ws IH]; intros n out; cbn [fold_left]; [by rewrite app_nil_r|].
  unfold trigger at 2. rewrite IH, fmap_app. by rewrite <- app_assoc.
Qed.

(** C21: whoever asked is told, and nobody else: while paths name different inodes, no call
    fails, and watchers are started and stopped only while they are registered, whatever calls of
    any watchers and turns of the task thread came before, a registered watcher that is started
    has a watch of the kernel with at least its events on its file, and an event of that watch
    invokes exactly the registered and started watchers of the file whose events it matches. *)
Theorem watchers_told (s : wstate) (id : nat) :
  steady_world → reachable registered s → id ∈ watcherInfoCache_ s → 0 < wd (info_of (infos s) id) →
  let name := fileName (info_of (infos s) id) in
  ∃ i m, ino name = Some i ∧ watches s !! i = Some (wd (info_of (infos s) id), m) ∧
    Z.land m (events (info_of (infos s) id)) = events (info_of (infos s) id) ∧
    ∀ ev, e_wd ev = wd (info_of (infos s) id) →
      ∃ s' calls, NotifyEvent ev s = Some (tt, s') ∧ invoked s' = invoked s ++ calls ∧
        (λ x, x.1.1.1) <$> calls = List.filter (λ j, started_on (infos s) name j &&
          CheckIncludeEvent (e_mask ev) (events (info_of (infos s) j))) (watcherInfoCache_ s).
Proof.
  intros Hsw Hreach Hid Hw name. pose proof (reachable_reg s Hsw Hreach) as Hr.
  destruct (r_started _ Hr id Hid Hw) as [m Hm]. destruct (r_entry _ Hr _ _ _ Hm) as (i & Hi & Hx).
  exists i, m. split; [exact Hi|]. split; [exact Hx|]. split.
  { rewrite (r_mask _ Hr _ _ _ Hm). apply wanted_covers; [done|]. by apply started_on_name. }
  intros ev Hev. pose proof (find_entry _ _ _ _ Hsw Hr Hm) as Hf. cbn [v_entries view_of v_infos] in Hf.
  unfold NotifyEvent, bind, FindWatcherInfos, get. rewrite Hev, Hf. fold name. cbn [v_infos view_of].
  assert (∀ ws, List.filter (λ j, CheckIncludeEvent (e_mask ev)
      (if started_on (infos s) name j then events (info_of (infos s) j) else 0)) ws =
    List.filter (λ j, started_on (infos s) name j && CheckIncludeEvent (e_mask ev) (events (info_of (infos s) j))) ws) as Hext.
  { intros ws. apply List.filter_ext. intros j. destruct (started_on _ _ _); [done|].
    unfold CheckIncludeEvent. by rewrite Z.land_0_r. }
  rewrite Hext. clear Hext. set (ws := List.filter _ _).
  destruct ws as [|j ws'] eqn:Ews; cbn [negb].
  - exists s, []. rewrite app_nil_r. by split_and!.
  - eexists _, (told ev name (j :: ws')). split; [reflexivity|]. split; [done|]. apply told_ids.
Qed.

(** An event with a name that several watchers match is told to the second of them with
    a wrong path: the name is appended again for every callback. *)
Theorem second_watcher_misled (s : wstate) (ev : kevent) (name : string) (a b : nat) (ws : list nat) :
  e_name ev ≠ ""%string → FindWatcherInfos (e_wd ev) (e_mask ev) s = Some (true, name, a :: b :: ws, s) →
  ∃ s' rest, NotifyEvent ev s = Some (tt, s') ∧
    invoked s' = invoked s ++
      (a, name +:+ "/" +:+ e_name ev, Z.land (e_mask ev) IN_ALL_EVENTS, e_cookie ev) ::
      (b, (name +:+ "/" +:+ e_name ev) +:+ "/" +:+ e_name ev, Z.land (e_mask ev) IN_ALL_EVENTS, e_cookie ev) :: rest.
Proof.
  intros Hn%String.eqb_neq E. unfold NotifyEvent, bind. rewrite E. cbn [negb]. eexists.
  set (x := (a, name +:+ "/" +:+ e_name ev, Z.land (e_mask ev) IN_ALL_EVENTS, e_cookie ev)).
  set (y := (b, (name +:+ "/" +:+ e_name ev) +:+ "/" +:+ e_name ev, Z.land (e_mask ev) IN_ALL_EVENTS, e_cookie ev)).
  assert (∀ n out, ∃ rest, (fold_left (trigger ev) ws (n, out)).2 = out ++ rest) as Hrest.
  { clear E. induction ws as [|j ws IH]; intros n out; [exists []; by rewrite app_nil_r|]. cbn [fold_left].
    unfold trigger at 2.
    match goal with |- context [fold_left _ ws (?x, ?o)] => destruct (IH x o) as [rest ->] end.
    rewrite <- app_assoc. by eexists. }
  destruct (Hrest ((name +:+ "/" +:+ e_name ev) +:+ "/" +:+ e_name ev) [x; y]) as [rest Hr].
  exists rest. split; [reflexivity|].
  change (invoked (_ <| invoked := ?i |>)) with i. f_equal. unfold told. cbn [fold_left]. unfold trigger at 2 3.
  rewrite Hn. exact Hr.
Qed.
End registry.

(** ** Witnesses *)

(** Each path names an inode of its own; no call fails. *)
#[local] Instance plain_env : WatchEnv.
Proof.
  refine {| w_fault := λ _ _, 0; w_fd := λ n, 7;
    w_ino := λ _ p, if (p =? "/a")%string then Some 1 else if (p =? "/b")%string then Some 2 else None;
    w_order := λ l, l; w_same := Nat.eqb |}; done.
Defined.
Lemma plain_steady : steady_world.
Proof.
  split; try done. intros p q i. unfold ino. cbn.
  destruct (String.eqb_spec p "/a"), (String.eqb_spec q "/a"), (String.eqb_spec p "/b"), (String.eqb_spec q "/b"); congruence.
Qed.

Definition quick : oracle := mkoracle PTimeout 4.
Definition ready : oracle := mkoracle PReady 4.
(** Two watchers of a directory, an event in it, one of them stopped. *)
Definition two_watchers : list turn :=
  [Create "/a" 0x102 (Some 0%nat); StartW 0; Create "/a" 0x100 (Some 1%nat); StartW 1;
   Create "/b" 0x2 (Some 2%nat); StartW 2; Thread quick; Thread quick; Kernel (mkKevent 1 0x100 0 "f"); Thread ready;
   Thread quick; Thread quick; Thread quick; StopW 2; Thread quick; Thread quick].

Lemma watchers_told_witness :
  ∃ s, run_turns registered two_watchers idle = Some s ∧
    ∃ i m, watches s !! i = Some (wd (info_of (infos s) 0), m) ∧ Z.land m 0x102 = 0x102.
Proof.
  destruct (run_turns registered two_watchers idle) as [s|] eqn:E; [|vm_compute in E; discriminate].
  exists s. split; [exact eq_refl|].
  assert ((λ s, (bool_decide (0%nat ∈ watcherInfoCache_ s), info_of (infos s) 0)) <$> run_turns registered two_watchers idle
    = Some (true, mkInfo "/a" 0x102 1 0)) as H by (vm_compute; reflexivity).
  rewrite E in H. injection H as H1 H2. apply bool_decide_eq_true in H1.
  destruct (watchers_told s 0) as (i & m & _ & Hx & Hm & _).
  - exact plain_steady.
  - exists two_watchers. exact E.
  - exact H1.
  - rewrite H2. reflexivity.
  - exists i, m. split; [exact Hx|]. rewrite H2 in Hm. exact Hm.
Defined.

Lemma second_watcher_misled_witness :
  ∃ s s' rest, run_turns any (take 10 two_watchers) idle = Some s ∧
    NotifyEvent (mkKevent 1 0x100 0 "f") s = Some (tt, s') ∧
    invoked s' = invoked s ++ (0%nat, "/a/f"%string, 0x100, 0) :: (1%nat, "/a/f/f"%string, 0x100, 0) :: rest.
Proof.
  destruct (run_turns any (take 10 two_watchers) idle) as [s|] eqn:E; [|vm_compute in E; discriminate].
  assert ((fst <$> (run_turns any (take 10 two_watchers) idle ≫= FindWatcherInfos 1 0x100))
    = Some (true, "/a"%string, [0%nat; 1%nat])) as H by (vm_compute; reflexivity).
  rewrite E in H. change (fst <$> FindWatcherInfos 1 0x100 s = Some (true, "/a"%string, [0%nat; 1%nat])) in H.
  assert (∃ x, FindWatcherInfos 1 0x100 s = Some (x, s)) as [x Hx] by (eexists; reflexivity).
  rewrite Hx in H. injection H as ->.
  destruct (second_watcher_misled s (mkKevent 1 0x100 0 "f") "/a" 0 1 []) as (s' & rest & H1 & H2).
  - discriminate.
  - exact Hx.
  - exists s, s', rest. split; [exact eq_refl|]. split; [exact H1|exact H2].
Defined.

(** The thread is between its first lock and its second when the last watcher is stopped. *)
Lemma deferred_close_never_runs_witness :
  ∃ s r s', run_turns any [Create "/a" 2 (Some 0%nat); StartW 0; Thread quick; Thread quick;
      Kernel (mkKevent 1 2 0 ""); Thread ready; Thread quick] idle = Some s ∧
    reading_ s = true ∧ Stop 0 s = Some (r, s') ∧ notifyFd_ s' = notifyFd_ s.
Proof.
  destruct (run_turns any [Create "/a" 2 (Some 0%nat); StartW 0; Thread quick; Thread quick;
      Kernel (mkKevent 1 2 0 ""); Thread ready; Thread quick] idle) as [s|] eqn:E; [|vm_compute in E; discriminate].
  assert (reading_ s = true) as Hr.
  { assert (reading_ <$> run_turns any [Create "/a" 2 (Some 0%nat); StartW 0; Thread quick; Thread quick;
      Kernel (mkKevent 1 2 0 ""); Thread ready; Thread quick] idle = Some true) as H by (vm_compute; reflexivity).
    rewrite E in H. by injection H. }
  destruct (deferred_close_never_runs s) as (_ & _ & H).
  - eexists. exact E.
  - destruct (H 0%nat Hr) as (r & s' & H1 & H2). exists s, r, s'. split; [exact eq_refl|]. split; [exact Hr|].
    split; [exact H1|exact H2].
Defined.

(** A watcher made and started while the thread of a stopped one ends is forgotten: [Start]
    succeeds, but the end of the thread clears the cache and no thread is left. *)
Definition restart : list turn :=
  [Create "/a" 2 (Some 0%nat); StartW 0; Thread quick; Thread quick; StopW 0; Create "/b" 2 (Some 1%nat); StartW 1;
   Thread quick; Thread quick; Thread quick; Thread quick; Thread quick].
Example restart_loses_watcher :
  (λ s, (watcherInfoCache_ s, wd (info_of (infos s) 1), thread s, taskRunning_ s, crashed s)) <$> run_turns any restart idle
  = Some ([], 1, TNone, false, false).
Proof. vm_compute. reflexivity. Qed.

(** Started a little later, when the thread has given up its flag but is not detached yet, it
    ends the process. *)
Definition restart_later : list turn :=
  [Create "/a" 2 (Some 0%nat); StartW 0; Thread quick; Thread quick; StopW 0; Create "/b" 2 (Some 1%nat);
   Thread quick; Thread quick; Thread quick; StartW 1].
Example restart_terminates : crashed <$> run_turns any restart_later idle = Some true.
Proof. vm_compute. reflexivity. Qed.

(** Stopping a watcher twice removes the watch of another: descriptors of watches start again
    with a new instance, and the old one is still in the stopped watcher. *)
Definition stop_twice : list turn :=
  [Create "/a" 2 (Some 0%nat); StartW 0; StopW 0; Create "/b" 2 (Some 1%nat); StartW 1; StopW 0].
Example second_stop_removes_other :
  (λ s, (watcherInfoCache_ s, wd (info_of (infos s) 1), map_to_list (watches s))) <$> run_turns any (take 5 stop_twice) idle
    = Some ([1%nat], 1, [(2, (1, 2))]) ∧
  (λ s, (watcherInfoCache_ s, wd (info_of (infos s) 1), map_to_list (watches s))) <$> run_turns any stop_twice idle
    = Some ([1%nat], 1, []).
Proof. vm_compute. split; reflexivity. Qed.

(** A stopped watcher that is started again has a watch, but nobody is told. *)
Definition start_again : list turn :=
  [Create "/a" 2 (Some 0%nat); StartW 0; Create "/b" 2 (Some 1%nat); StopW 0; StartW 0].
Example started_again_is_deaf :
  (λ s, (watcherInfoCache_ s, map_to_list (watches s), fst <$> FindWatcherInfos (wd (info_of (infos s) 0)) 2 s)) <$>
    run_turns any start_again idle
  = Some ([1%nat], [(1, (2, 2))], Some (false, "/a"%string, [])).
Proof. vm_compute. reflexivity. Qed.
