(* ===== verification/FileMapping.v ===== *)
(** * Files mapped into memory

    Models [class_filemapping/fs_filemapping.cpp] and [properties/mmap_core.cpp] of [mod_fs].
    Memory is what the kernel mapped: a map from addresses to regions, each of a part of a
    file.  An access outside a region, a write where writing is not allowed, an access past
    the end of the file and the use of a null pointer are undefined: [None].  Shared regions
    are views of the file; private ones keep the pages that were written to.  [MapEnv]
    decides which call fails, where the kernel puts a mapping and what [memcpy_s] answers. *)

From stdpp Require Import list_numbers.
From coqutil Require Import Datatypes.RecordSetters.
From S2P Require Import Prelude.
Import TriangleBracketNotations.
#[local] Open Scope record_set.

Definition ERRNO_NOERR : Z := 0.
Definition EIO : Z := 5.
Definition EBADF : Z := 9.
Definition ENOMEM : Z := 12.
Definition EACCES : Z := 13.
Definition EINVAL : Z := 22.
Definition EOVERFLOW : Z := 75.
Definition FILEIO_SYS_CAP_TAG : Z := 13900000.
Definition E_MMAP_OOB : Z := 51.
Definition E_MMAP_FREE : Z := 52.
Definition E_MMAP_RO : Z := 53.
Definition E_MMAP_FILE : Z := 56.
Definition PROT_READ : Z := 1.
Definition PROT_WRITE : Z := 2.
Definition MAP_SHARED : Z := 1.
Definition MAP_PRIVATE : Z := 2.
Definition SIZE_MAX : Z := 2 ^ 64 - 1.
Definition INT64_MAX : Z := 2 ^ 63 - 1.

(** [MappingMode] *)
Definition READ_ONLY : Z := 0.
Definition READ_WRITE : Z := 1.
Definition PRIVATE : Z := 2.

(** ** State *)

Inductive kcall := K_fstat | K_sysconf | K_ftruncate | K_mmap | K_munmap | K_msync | K_new.

(** [a] is a multiple of [page], and the pages of [a + n] end before the end of the address
    space. *)
Definition placed (page : Z) (l : list (Z * Z)) (n a : Z) : Prop :=
  0 < a ∧ a mod page = 0 ∧ a + n + page <= SIZE_MAX ∧ Forall (λ x, a + n <= x.1 ∨ x.1 + x.2 <= a) l.

Class MapEnv := {
  m_fault : kcall → nat → Z;                   (** errno of the n-th call, 0 for none *)
  page_size : Z;
  place : list (Z * Z) → Z → option Z;         (** where a mapping of that size goes *)
  SECUREC_MEM_MAX_LEN : Z;
  memcpy_s : Z → Z → Z;                        (** of the room and the count *)
  page_size_pos : 0 < page_size;
  place_spec : ∀ l n a, 0 < n → place l n = Some a → placed page_size l n a;
  memcpy_s_fits : ∀ destMax count, 0 < count <= destMax → destMax <= SECUREC_MEM_MAX_LEN → memcpy_s destMax count = 0;
  memcpy_s_big : ∀ destMax count, SECUREC_MEM_MAX_LEN < destMax → memcpy_s destMax count ≠ 0
}.

Record region := mkRegion {
  g_len : Z;
  g_fd : Z;
  g_off : Z;                                   (** the file position of its first byte *)
  g_write : bool;
  g_shared : bool;
  g_cow : gmap Z Z                             (** its own bytes, by file position *)
}.
Record kfile := mkFile { k_reg : bool; k_read : bool; k_write : bool; k_data : list Z }.

(** Pointers are addresses, 0 is null. *)
Record FileMappingEntity := mkEntity {
  mapAddr : Z;
  rawMapAddr : Z;
  capacity : Z;
  rawCapacity : Z;
  adjustment : Z;
  limit : Z;
  position : Z;
  mode : Z;
  fd : Z;
  offset : Z;
  isValid : bool
}.

Record mstate := mkm {
  regions : gmap Z region;
  mfiles : gmap Z kfile;                       (** by descriptor *)
  maps : gmap nat FileMappingEntity;           (** the [entity_] of each object *)
  kcalls : nat;
  msyncs : list (Z * Z)                        (** the pages the kernel was asked to write out *)
}.

(** A buffer of the caller is its bytes, or null. *)
Abbreviation buffer_t := (option (list Z)).
(** What a program sees: an error or a number, and for a read the buffer after it. *)
Abbreviation mres := ((Z + Z) * list Z)%type.

Section mapping.
Context {ME : MapEnv}.

(** ** Memory *)

(** The region that has all of [n] bytes at [a]. *)
Definition region_at (s : mstate) (a n : Z) : option (Z * region) :=
  List.find (λ x, (x.1 <=? a) && (a + n <=? x.1 + g_len x.2)) (map_to_list (regions s)).
Definition data_of (s : mstate) (r : region) : list Z :=
  match mfiles s !! g_fd r with Some f => k_data f | None => [] end.
(** The byte of a region that belongs to a file position. *)
Definition byte_at (d : list Z) (r : region) (p : Z) : option Z :=
  match g_cow r !! p with Some b => Some b | None => d !! Z.to_nat p end.
Definition load (a n : Z) : st mstate (list Z) := λ s,
  match region_at s a n with
  | Some (b, r) =>
      match mapM (byte_at (data_of s r) r) (seqZ (g_off r + (a - b)) n) with
      | Some l => Some (l, s)
      | None => None
      end
  | None => None
  end.

Definition page_down (p : Z) : Z := p / page_size * page_size.
Definition page_up (p : Z) : Z := page_down (p + page_size - 1).
(** A private region copies the pages it is written to. *)
Definition copied (d : list Z) (p n : Z) : gmap Z Z :=
  map_seqZ (page_down p) (take (Z.to_nat (page_up (p + n) - page_down p)) (drop (Z.to_nat (page_down p)) d)).
Definition store (a : Z) (bytes : list Z) : st mstate unit := λ s,
  let n := Z.of_nat (length bytes) in
  match region_at s a n with
  | Some (b, r) =>
      let p := g_off r + (a - b) in
      match mfiles s !! g_fd r with
      | Some f =>
          if negb (g_write r) || (Z.of_nat (length (k_data f)) <? p + n) then None
          else if g_shared r then
            Some (tt, s <| mfiles := <[g_fd r := f <| k_data := list_inserts (Z.to_nat p) bytes (k_data f) |>]> (mfiles s) |>)
          else
            Some (tt, s <| regions := <[b := r <| g_cow := map_seqZ p bytes ∪ (g_cow r ∪ copied (k_data f) p n) |>]> (regions s) |>)
      | None => None
      end
  | None => None
  end.

(** ** Calls of the kernel *)

(** [inl] an errno, or what the call does. *)
Definition sys {A} (k : kcall) (f : mstate → (Z + A) * mstate) : st mstate (Z + A) := λ s,
  let e := m_fault k (kcalls s) in
  let s := s <| kcalls := S (kcalls s) |> in
  Some (if e =? 0 then f s else (inl e, s)).

Definition fstat (fd : Z) : st mstate (Z + (bool * Z)) :=
  sys K_fstat (λ s, (match mfiles s !! fd with
                     | Some f => inr (k_reg f, Z.of_nat (length (k_data f)))
                     | None => inl EBADF
                     end, s)).
Definition sysconf_pagesize : st mstate Z :=
  r ← sys K_sysconf (λ s, (inr page_size, s)); sret (match r with inl _ => -1 | inr n => n end).
(** It needs a descriptor for writing; new bytes are zero. *)
Definition ftruncate (fd len : Z) : st mstate (Z + unit) :=
  sys K_ftruncate (λ s,
    match mfiles s !! fd with
    | None => (inl EBADF, s)
    | Some f =>
        if negb (k_reg f && k_write f) then (inl EINVAL, s)
        else (inr tt, s <| mfiles := <[fd := f <| k_data := take (Z.to_nat len) (k_data f) ++
                             replicate (Z.to_nat len - length (k_data f)) 0 |>]> (mfiles s) |>)
    end).
Definition mmap (len prot flags fd off : Z) : st mstate (Z + Z) :=
  sys K_mmap (λ s,
    match mfiles s !! fd with
    | None => (inl EBADF, s)
    | Some f =>
        let w := Z.testbit prot 1 in
        let sh := flags =? MAP_SHARED in
        if negb (k_read f) || (w && sh && negb (k_write f)) then (inl EACCES, s)
        else if (len <=? 0) || negb (off mod page_size =? 0) then (inl EINVAL, s)
        else match place (map (λ x, (x.1, g_len x.2)) (map_to_list (regions s))) len with
             | None => (inl ENOMEM, s)
             | Some a => (inr a, s <| regions := <[a := mkRegion len fd off w sh ∅]> (regions s) |>)
             end
    end).
(** It is no error that nothing is mapped there. *)
Definition munmap (a n : Z) : st mstate (Z + unit) :=
  sys K_munmap (λ s,
    match regions s !! a with
    | Some r => if g_len r =? n then (inr tt, s <| regions := delete a (regions s) |>) else (inl EINVAL, s)
    | None => (inr tt, s)
    end).
(** The pages from [a] to [e] are mapped; every step goes to another region. *)
Definition vma_at (s : mstate) (a : Z) : option (Z * region) :=
  List.find (λ x, (x.1 <=? a) && (a <? x.1 + page_up (g_len x.2))) (map_to_list (regions s)).
Fixpoint mapped_to (fuel : nat) (s : mstate) (a e : Z) : bool :=
  match fuel, vma_at s a with
  | S fuel, Some (b, r) => let a' := b + page_up (g_len r) in (e <=? a') || mapped_to fuel s a' e
  | _, _ => false
  end.
(** Linux rounds the length up to whole pages, which wraps around near the end of [size_t],
    refuses a range whose end wraps around, and is done with an empty one; pages that are
    not mapped are refused. *)
Definition msync_pages (n : Z) : Z := page_down (u64 (n + (page_size - 1))).
Definition msync (a n : Z) : st mstate (Z + unit) :=
  sys K_msync (λ s,
    let n := msync_pages n in
    let s := s <| msyncs := msyncs s ++ [(a, n)] |> in
    let e := a +₆₄ n in
    if negb (a mod page_size =? 0) then (inl EINVAL, s)
    else if e <? a then (inl ENOMEM, s)
    else if e =? a then (inr tt, s)
    else if mapped_to (S (size (regions s))) s a e then (inr tt, s) else (inl ENOMEM, s)).
(** [new (nothrow)] *)
Definition alloc : st mstate bool :=
  r ← sys K_new (λ s, (inr tt, s)); sret (match r with inr _ => true | inl _ => false end).

(** ** [MmapCore] *)

Definition GetMmapProtFlags (mode : Z) : Z * Z :=
  if mode =? READ_ONLY then (PROT_READ, MAP_SHARED)
  else if mode =? READ_WRITE then (Z.lor PROT_READ PROT_WRITE, MAP_SHARED)
  else if mode =? PRIVATE then (Z.lor PROT_READ PROT_WRITE, MAP_PRIVATE)
  else (PROT_READ, MAP_SHARED).

Definition ValidateFile (fd : Z) : st mstate Z :=
  r ← fstat fd;
  sret (match r with
        | inl errno => errno
        | inr (reg, _) => if negb reg then FILEIO_SYS_CAP_TAG + E_MMAP_FILE else 0
        end).

Record PageAlignResult := mkAlign { alignedOffset : Z; a_adjustment : Z; adjustedSize : Z }.
Definition AlignToPage (offset size : Z) : st mstate (option PageAlignResult) :=
  pageSize ← sysconf_pagesize;
  if pageSize <=? 0 then sret None else
  let alignedOffset := Z.quot offset pageSize * pageSize in
  let adjustment := u64 (offset - alignedOffset) in
  if size >? SIZE_MAX - adjustment then sret None
  else sret (Some (mkAlign alignedOffset adjustment (size +₆₄ adjustment))).

Definition ExpandFileIfNeeded (fd mode offset size : Z) : st mstate Z :=
  r ← fstat fd;
  match r with
  | inl errno => sret errno
  | inr (reg, st_size) =>
      if size >? INT64_MAX then sret EOVERFLOW
      else if offset >? INT64_MAX - size then sret EOVERFLOW
      else
        let requiredSize := offset + size in
        if requiredSize <=? st_size then sret 0 else
        r ← ftruncate fd requiredSize;
        sret (match r with
              | inl truncateErr => if reg || negb (truncateErr =? EINVAL) then truncateErr else 0
              | inr _ => 0
              end)
  end.

Definition ValidateMmapParams (fd mode offset size : Z) : Z :=
  if fd <? 0 then EBADF
  else if (mode <? 0) || (mode >? PRIVATE) then EINVAL
  else if offset <? 0 then EINVAL
  else if size <=? 0 then EINVAL
  else 0.

(** [~FileMappingEntity]; the [fsMapping] of an [entity_] is null. *)
Definition Entity_destroy (e : FileMappingEntity) : st mstate unit :=
  if isValid e && negb (rawMapAddr e =? 0) then _ ← munmap (rawMapAddr e) (rawCapacity e); sret tt else sret tt.

(** When the second allocation fails, [entity] still owns the mapping and ends it. *)
Definition Constructor (e : FileMappingEntity) : st mstate (Z + nat) :=
  ok ← alloc;
  if negb ok then sret (inl ENOMEM) else
  ok ← alloc;
  if negb ok then _ ← Entity_destroy e; sret (inl ENOMEM) else
  λ s, let id := fresh (dom (maps s)) in Some (inr id, s <| maps := <[id := e]> (maps s) |>).

Definition DoMmap (fd mode offset size : Z) : st mstate (Z + nat) :=
  let err := ValidateMmapParams fd mode offset size in
  if negb (err =? 0) then sret (inl err) else
  validateResult ← ValidateFile fd;
  if negb (validateResult =? 0) then sret (inl validateResult) else
  alignResult ← AlignToPage offset size;
  match alignResult with
  | None => sret (inl EIO)
  | Some a =>
      expandResult ← ExpandFileIfNeeded fd mode (alignedOffset a) (adjustedSize a);
      if negb (expandResult =? 0) then sret (inl expandResult) else
      let '(prot, flags) := GetMmapProtFlags mode in
      r ← mmap (adjustedSize a) prot flags fd (alignedOffset a);
      match r with
      | inl errno => sret (inl errno)
      | inr raw =>
          result ← Constructor (mkEntity (raw + a_adjustment a) raw size (adjustedSize a) (a_adjustment a)
                     size 0 mode fd offset true);
          match result with
          | inl e => _ ← munmap raw (adjustedSize a); sret (inl e)
          | inr id => sret (inr id)
          end
      end
  end.

(** ** [FsFileMapping] *)

Definition get_entity (id : nat) : st mstate (option FileMappingEntity) := λ s, Some (maps s !! id, s).
(** [entity_->]; a null pointer is undefined. *)
Definition the (id : nat) : st mstate FileMappingEntity := λ s,
  match maps s !! id with Some e => Some (e, s) | None => None end.
Definition set_entity (id : nat) (f : FileMappingEntity → FileMappingEntity) : st mstate unit := λ s,
  match maps s !! id with Some e => Some (tt, s <| maps := <[id := f e]> (maps s) |>) | None => None end.

Definition Entity_CheckValid (e : FileMappingEntity) : bool := isValid e && negb (mapAddr e =? 0).
Definition Entity_IsReadOnly (e : FileMappingEntity) : bool := mode e =? READ_ONLY.

Definition CheckValid (id : nat) : st mstate bool :=
  entity_ ← get_entity id;
  sret (match entity_ with None => false | Some e => Entity_CheckValid e end).
Definition IsReadOnly (id : nat) : st mstate bool :=
  entity_ ← get_entity id;
  sret (match entity_ with None => true | Some e => Entity_IsReadOnly e end).

Definition SetPosition (id : nat) (pos : Z) : st mstate (Z + unit) :=
  valid ← CheckValid id;
  if negb valid then sret (inl (FILEIO_SYS_CAP_TAG + E_MMAP_FREE)) else
  e ← the id;
  if pos >? limit e then sret (inl EINVAL) else
  _ ← set_entity id (λ e, e <| position := pos |>);
  sret (inr tt).

Definition GetPosition (id : nat) : st mstate (Z + Z) :=
  valid ← CheckValid id;
  if negb valid then sret (inl (FILEIO_SYS_CAP_TAG + E_MMAP_FREE)) else
  e ← the id; sret (inr (position e)).

Definition Capacity (id : nat) : st mstate (Z + Z) :=
  valid ← CheckValid id;
  if negb valid then sret (inl (FILEIO_SYS_CAP_TAG + E_MMAP_FREE)) else
  e ← the id; sret (inr (capacity e)).

Definition SetLimit (id : nat) (lim : Z) : st mstate (Z + unit) :=
  valid ← CheckValid id;
  if negb valid then sret (inl (FILEIO_SYS_CAP_TAG + E_MMAP_FREE)) else
  e ← the id;
  if lim >? capacity e then sret (inl EINVAL) else
  _ ← set_entity id (λ e, e <| limit := lim |>);
  e ← the id;
  _ ← (if position e >? limit e then set_entity id (λ e, e <| position := limit e |>) else sret tt);
  sret (inr tt).

Definition GetLimit (id : nat) : st mstate (Z + Z) :=
  valid ← CheckValid id;
  if negb valid then sret (inl (FILEIO_SYS_CAP_TAG + E_MMAP_FREE)) else
  e ← the id; sret (inr (limit e)).

Definition Flip (id : nat) : st mstate (Z + unit) :=
  valid ← CheckValid id;
  if negb valid then sret (inl (FILEIO_SYS_CAP_TAG + E_MMAP_FREE)) else
  _ ← set_entity id (λ e, e <| limit := position e |>);
  _ ← set_entity id (λ e, e <| position := 0 |>);
  sret (inr tt).

Definition Remaining (id : nat) : st mstate (Z + Z) :=
  valid ← CheckValid id;
  if negb valid then sret (inl (FILEIO_SYS_CAP_TAG + E_MMAP_FREE)) else
  e ← the id;
  sret (inr (if limit e >? position e then limit e -₆₄ position e else 0)).

(** *** Copies *)

(** What [memcpy_s] answered, as an error of the source. *)
Definition copy_error (ret : Z) : Z := if ret =? EINVAL then EINVAL else FILEIO_SYS_CAP_TAG + E_MMAP_OOB.

(** [memcpy_s] out of the mapping.  The source trusts [bufLen]: it runs past the end of a
    shorter buffer. *)
Definition copy_out (buffer : buffer_t) (bufLen src n : Z) : st mstate (Z * buffer_t) :=
  let ret := memcpy_s bufLen n in
  if negb (ret =? 0) then sret (ret, buffer) else
  bytes ← load src n;
  match buffer with
  | Some l => if Z.of_nat (length l) <? n then λ _, None else sret (0, Some (list_inserts 0 bytes l))
  | None => λ _, None
  end.
(** [memcpy_s] into the mapping. *)
Definition copy_in (dest destSize : Z) (data : buffer_t) (n : Z) : st mstate Z :=
  let ret := memcpy_s destSize n in
  if negb (ret =? 0) then sret ret else
  match data with
  | Some l => if Z.of_nat (length l) <? n then λ _, None else _ ← store dest (take (Z.to_nat n) l); sret 0
  | None => λ _, None
  end.

Definition is_null (b : buffer_t) : bool := match b with None => true | Some _ => false end.

Definition Read (id : nat) (buffer : buffer_t) (bufLen length : Z) : st mstate ((Z + Z) * buffer_t) :=
  valid ← CheckValid id;
  if negb valid then sret (inl (FILEIO_SYS_CAP_TAG + E_MMAP_FREE), buffer) else
  if is_null buffer && (bufLen >? 0) then sret (inl EINVAL, buffer) else
  e ← the id;
  let remaining := if position e <? limit e then limit e -₆₄ position e else 0 in
  let opLength := if length <? remaining then length else remaining in
  let opLength := if opLength >? bufLen then bufLen else opLength in
  if opLength >? 0 then
    '(ret, buffer) ← copy_out buffer bufLen (mapAddr e + position e) opLength;
    if negb (ret =? 0) then sret (inl (copy_error ret), buffer) else
    _ ← set_entity id (λ e, e <| position := position e +₆₄ opLength |>);
    sret (inr opLength, buffer)
  else sret (inr opLength, buffer).

Definition ReadFrom (id : nat) (pos : Z) (buffer : buffer_t) (bufLen length : Z) : st mstate ((Z + Z) * buffer_t) :=
  valid ← CheckValid id;
  if negb valid then sret (inl (FILEIO_SYS_CAP_TAG + E_MMAP_FREE), buffer) else
  e ← the id;
  if (is_null buffer && (bufLen >? 0)) || (pos >? capacity e) then sret (inl EINVAL, buffer) else
  let remaining := if pos <? limit e then limit e -₆₄ pos else 0 in
  let opLength := if length <? remaining then length else remaining in
  let opLength := if opLength >? bufLen then bufLen else opLength in
  if opLength >? 0 then
    '(ret, buffer) ← copy_out buffer bufLen (mapAddr e + pos) opLength;
    if negb (ret =? 0) then sret (inl (copy_error ret), buffer) else sret (inr opLength, buffer)
  else sret (inr opLength, buffer).

Definition Write (id : nat) (data : buffer_t) (dataLen length : Z) : st mstate (Z + Z) :=
  valid ← CheckValid id;
  if negb valid then sret (inl (FILEIO_SYS_CAP_TAG + E_MMAP_FREE)) else
  if is_null data && (dataLen >? 0) then sret (inl EINVAL) else
  e ← the id;
  if Entity_IsReadOnly e then sret (inl (FILEIO_SYS_CAP_TAG + E_MMAP_RO)) else
  let remaining := if position e <? limit e then limit e -₆₄ position e else 0 in
  let opLength := if length <? remaining then length else remaining in
  let opLength := if opLength >? dataLen then dataLen else opLength in
  if opLength >? 0 then
    let destSize := if position e <? limit e then limit e -₆₄ position e else 0 in
    ret ← copy_in (mapAddr e + position e) destSize data opLength;
    if negb (ret =? 0) then sret (inl (copy_error ret)) else
    _ ← set_entity id (λ e, e <| position := position e +₆₄ opLength |>);
    sret (inr opLength)
  else sret (inr opLength).

Definition WriteTo (id : nat) (pos : Z) (data : buffer_t) (dataLen length : Z) : st mstate (Z + Z) :=
  valid ← CheckValid id;
  if negb valid then sret (inl (FILEIO_SYS_CAP_TAG + E_MMAP_FREE)) else
  e ← the id;
  if (is_null data && (dataLen >? 0)) || (pos >? capacity e) then sret (inl EINVAL) else
  if Entity_IsReadOnly e then sret (inl (FILEIO_SYS_CAP_TAG + E_MMAP_RO)) else
  let remaining := if pos <? limit e then limit e -₆₄ pos else 0 in
  let opLength := if length <? remaining then length else remaining in
  let opLength := if opLength >? dataLen then dataLen else opLength in
  if opLength >? 0 then
    let destSize := if pos <? limit e then limit e -₆₄ pos else 0 in
    ret ← copy_in (mapAddr e + pos) destSize data opLength;
    if negb (ret =? 0) then sret (inl (copy_error ret)) else sret (inr opLength)
  else sret (inr opLength).

Definition Msync (id : nat) (off length : Z) : st mstate (Z + unit) :=
  valid ← CheckValid id;
  if negb valid then sret (inl (FILEIO_SYS_CAP_TAG + E_MMAP_FREE)) else
  e ← the id;
  let rawOffset := adjustment e +₆₄ off in
  if rawOffset <? adjustment e then sret (inl EINVAL) else
  if rawOffset >? rawCapacity e then sret (inl EINVAL) else
  pageSize ← sysconf_pagesize;
  if pageSize <=? 0 then sret (inl EIO) else
  let alignedRawOffset := u64 (rawOffset / pageSize * pageSize) in
  let extra := rawOffset -₆₄ alignedRawOffset in
  let rawLength := length +₆₄ extra in
  if rawLength <? extra then sret (inl EINVAL) else
  if (alignedRawOffset +₆₄ rawLength) >? rawCapacity e then sret (inl EINVAL) else
  msync (rawMapAddr e + alignedRawOffset) rawLength.

(** The entity keeps [mode], [fd] and [offset]. *)
Definition unmapped (e : FileMappingEntity) : FileMappingEntity :=
  mkEntity 0 0 0 0 0 0 0 (mode e) (fd e) (offset e) false.
Definition Unmap (id : nat) : st mstate (Z + unit) :=
  entity_ ← get_entity id;
  match entity_ with
  | None => sret (inr tt)
  | Some e =>
      if negb (isValid e) || (rawMapAddr e =? 0) then sret (inr tt) else
      r ← munmap (rawMapAddr e) (rawCapacity e);
      match r with
      | inl errno => sret (inl errno)
      | inr _ => _ ← set_entity id unmapped; sret (inr tt)
      end
  end.

(** [~FsFileMapping], which destroys [entity_].  The object is gone. *)
Definition Destroy (id : nat) : st mstate unit :=
  e ← the id;
  _ ← Entity_destroy e;
  λ s, Some (tt, s <| maps := delete id (maps s) |>).

(** ** Programs *)

Inductive mop :=
  | OMmap (fd mode offset size : Z) | OSetPosition (pos : Z) | OGetPosition | OCapacity | OSetLimit (lim : Z)
  | OGetLimit | OFlip | ORemaining | ORead (buffer : list Z) (length : Z) | OReadFrom (pos : Z) (buffer : list Z) (length : Z)
  | OWrite (data : list Z) (length : Z) | OWriteTo (pos : Z) (data : list Z) (length : Z)
  | OMsync (off length : Z) | OUnmap | ODestroy.

Definition size_ok (n : Z) : bool := (0 <=? n) && (n <=? SIZE_MAX).
(** Arguments of the types of the parameters; the objects that are destroyed exist. *)
Definition valid_op (id : nat) (o : mop) (s : mstate) : bool :=
  match o with
  | OMmap _ _ offset size => (offset <=? INT64_MAX) && size_ok size
  | OSetPosition n | OSetLimit n => size_ok n
  | ORead b n | OWrite b n => size_ok n && size_ok (Z.of_nat (length b))
  | OReadFrom p b n | OWriteTo p b n => size_ok p && size_ok n && size_ok (Z.of_nat (length b))
  | OMsync a n => size_ok a && size_ok n
  | ODestroy => bool_decide (is_Some (maps s !! id))
  | _ => true
  end.

Definition of_unit (r : Z + unit) : mres := (match r with inl e => inl e | inr _ => inr 0 end, []).
Definition of_num (r : Z + Z) : mres := (r, []).
Definition of_id (r : Z + nat) : mres := (match r with inl e => inl e | inr id => inr (Z.of_nat id) end, []).
Definition of_read (r : (Z + Z) * buffer_t) : mres := (r.1, default [] r.2).
Definition call {A} (f : A → mres) (m : st mstate A) : st mstate mres := r ← m; sret (f r).

(** An operation on the object [id]. *)
Definition run_op (id : nat) (o : mop) : st mstate mres :=
  match o with
  | OMmap fd mode offset size => call of_id (DoMmap fd mode offset size)
  | OSetPosition n => call of_unit (SetPosition id n)
  | OGetPosition => call of_num (GetPosition id)
  | OCapacity => call of_num (Capacity id)
  | OSetLimit n => call of_unit (SetLimit id n)
  | OGetLimit => call of_num (GetLimit id)
  | OFlip => call of_unit (Flip id)
  | ORemaining => call of_num (Remaining id)
  | ORead b n => call of_read (Read id (Some b) (Z.of_nat (length b)) n)
  | OReadFrom p b n => call of_read (ReadFrom id p (Some b) (Z.of_nat (length b)) n)
  | OWrite b n => call of_num (Write id (Some b) (Z.of_nat (length b)) n)
  | OWriteTo p b n => call of_num (WriteTo id p (Some b) (Z.of_nat (length b)) n)
  | OMsync a n => call of_unit (Msync id a n)
  | OUnmap => call of_unit (Unmap id)
  | ODestroy => call (λ _ : unit, (inr 0, [])) (Destroy id)
  end.

(** A program: operations on objects, by their number. *)
Fixpoint run_ops (l : list (nat * mop)) : st mstate (list mres) :=
  match l with
  | [] => sret []
  | (id, o) :: l => r ← run_op id o; rs ← run_ops l; sret (r :: rs)
  end.
Fixpoint valid_ops (l : list (nat * mop)) (s : mstate) : bool :=
  match l with
  | [] => true
  | (id, o) :: l => valid_op id o s && match run_op id o s with Some (_, s) => valid_ops l s | None => true end
  end.
End mapping.

(** Nothing is mapped yet. *)
Definition unmapped_state (fs : gmap Z kfile) : mstate := mkm ∅ fs ∅ 0 [].

(** ** Well-typed states *)
Section typing.
Context {ME : MapEnv}.

(** An object that is mapped: its numbers nest, and its region is there over enough file. *)
Record entity_typed (s : mstate) (e : FileMappingEntity) : Prop := {
  t_mode : mode e = READ_ONLY ∨ mode e = READ_WRITE ∨ mode e = PRIVATE;
  t_addr : mapAddr e = rawMapAddr e + adjustment e;
  t_adjust : 0 <= adjustment e <= offset e;
  t_raw : rawCapacity e = adjustment e + capacity e;
  t_position : 0 <= position e <= limit e;
  t_limit : limit e <= capacity e;
  t_capacity : 0 < capacity e;
  t_region : ∃ cow, regions s !! rawMapAddr e = Some (mkRegion (rawCapacity e) (fd e) (offset e - adjustment e)
    (negb (mode e =? READ_ONLY)) (negb (mode e =? PRIVATE)) cow);
  t_file : ∃ f, mfiles s !! fd e = Some f ∧ offset e + capacity e <= Z.of_nat (length (k_data f))
}.
(** One that is not: nothing is left of it. *)
Definition entity_free (e : FileMappingEntity) : Prop :=
  mapAddr e = 0 ∧ rawMapAddr e = 0 ∧ capacity e = 0 ∧ rawCapacity e = 0 ∧ adjustment e = 0 ∧ limit e = 0 ∧ position e = 0.
Definition entity_ok (s : mstate) (e : FileMappingEntity) : Prop :=
  if isValid e then entity_typed s e else entity_free e.

Record well_typed (s : mstate) : Prop := {
  w_region : ∀ a r, regions s !! a = Some r → 0 < a ∧ 0 < g_len r ∧ a + g_len r <= SIZE_MAX ∧
    (g_shared r = true → g_cow r = ∅) ∧ a mod page_size = 0 ∧ a + g_len r + page_size <= SIZE_MAX;
  w_apart : ∀ a r b q, regions s !! a = Some r → regions s !! b = Some q → a ≠ b →
    a + g_len r <= b ∨ b + g_len q <= a;
  w_entity : ∀ id e, maps s !! id = Some e → entity_ok s e;
  w_own : ∀ i j e e', maps s !! i = Some e → maps s !! j = Some e' → i ≠ j → isValid e = true → isValid e' = true →
    rawMapAddr e ≠ rawMapAddr e'
}.

Lemma well_typed_start fs : well_typed (unmapped_state fs).
Proof. split; intros *; cbn; rewrite ?lookup_empty; done. Qed.

(** The region that has an address is the only one. *)
Lemma region_at_own s b r a n :
  well_typed s → regions s !! b = Some r → 0 < n → b <= a → a + n <= b + g_len r → region_at s a n = Some (b, r).
Proof.
  intros Hw Hr Hn Ha He. unfold region_at. destruct (List.find _ _) as [[b' r']|] eqn:E.
  - apply find_some in E as [Hin%list_elem_of_In%elem_of_map_to_list Hc]. cbn in Hc.
    apply andb_prop in Hc as [H1%Z.leb_le H2%Z.leb_le]. destruct (decide (b' = b)) as [->|Hne]; [by simplify_eq|].
    destruct (w_apart s Hw b' r' b r Hin Hr Hne); lia.
  - exfalso. eapply find_none in E; [|apply list_elem_of_In, elem_of_map_to_list; exact Hr]. cbn in E.
    apply andb_false_iff in E as [?%Z.leb_gt|?%Z.leb_gt]; lia.
Qed.

(** Regions only change their own bytes, files only grow. *)
Definition grows (s s' : mstate) : Prop :=
  (∀ a r, regions s !! a = Some r → ∃ c, regions s' !! a = Some (r <| g_cow := c |>)) ∧
  (∀ d f, mfiles s !! d = Some f → ∃ f', mfiles s' !! d = Some f' ∧ (length (k_data f) <= length (k_data f'))%nat).

Lemma typed_grows s s' e : grows s s' → entity_typed s e → entity_typed s' e.
Proof.
  intros [Hr Hf] []. split; try done.
  - destruct t_region0 as [c Hc]. destruct (Hr _ _ Hc) as [c' Hc']. by exists c'.
  - destruct t_file0 as (f & Hf1 & Hl). destruct (Hf _ _ Hf1) as (f' & Hf' & Hl'). exists f'. split; [done|lia].
Qed.
Lemma ok_grows s s' e : grows s s' → entity_ok s e → entity_ok s' e.
Proof. intros Hg. unfold entity_ok. destruct (isValid e); [by apply typed_grows|done]. Qed.


(** ** The bytes of an object *)

Definition own_region (s : mstate) (e : FileMappingEntity) : region :=
  default (mkRegion 0 0 0 false false ∅) (regions s !! rawMapAddr e).
Definition seen (s : mstate) (e : FileMappingEntity) (p : Z) : Z :=
  default 0 (byte_at (data_of s (own_region s e)) (own_region s e) p).
(** What the program sees through an object. *)
Definition contents (s : mstate) (e : FileMappingEntity) : list Z := seen s e <$> seqZ (offset e) (capacity e).

Lemma length_contents s e : length (contents s e) = Z.to_nat (capacity e).
Proof. unfold contents. by rewrite length_fmap, length_seqZ. Qed.
Lemma lookup_contents s e (i : nat) :
  Z.of_nat i < capacity e → contents s e !! i = Some (seen s e (offset e + Z.of_nat i)).
Proof. intros Hi. unfold contents. by rewrite list_lookup_fmap, lookup_seqZ_lt. Qed.
Lemma contents_ext s s' e e' :
  offset e' = offset e → capacity e' = capacity e →
  (∀ p, offset e <= p < offset e + capacity e → seen s' e' p = seen s e p) → contents s' e' = contents s e.
Proof.
  intros Ho Hc H. unfold contents. rewrite Ho, Hc. apply list_fmap_ext. intros i p [-> Hi]%lookup_seqZ. apply H. lia.
Qed.

Lemma mapM_default {A} (f : A → option Z) (l : list A) :
  (∀ x, x ∈ l → is_Some (f x)) → mapM f l = Some ((λ x, default 0 (f x)) <$> l).
Proof.
  intros H. apply mapM_Some. induction l as [|x l IH]; [constructor|]. constructor.
  - destruct (H x ltac:(by left)) as [y ->]. done.
  - apply IH. intros y Hy. apply H. by right.
Qed.

Lemma typed_byte s e p :
  entity_typed s e → offset e - adjustment e <= p < offset e + capacity e →
  is_Some (byte_at (data_of s (own_region s e)) (own_region s e) p).
Proof.
  intros [] Hp. destruct t_region0 as [c Hc], t_file0 as (f & Hf & Hl).
  unfold own_region, data_of, byte_at. rewrite Hc. cbn. rewrite Hf. destruct (c !! p); [by eexists|].
  apply lookup_lt_is_Some. lia.
Qed.

Lemma load_typed s e p n :
  well_typed s → entity_typed s e → 0 <= p → 0 < n → p + n <= capacity e →
  load (mapAddr e + p) n s = Some (take (Z.to_nat n) (drop (Z.to_nat p) (contents s e)), s).
Proof.
  intros Hw Ht Hp Hn Hc. destruct (t_region s e Ht) as [c Hr].
  pose proof (t_addr s e Ht) as Ha. pose proof (t_adjust s e Ht) as Hj. pose proof (t_raw s e Ht) as Hraw.
  unfold load. rewrite (region_at_own s (rawMapAddr e) _ _ _ Hw Hr) by (cbn; lia). cbn [g_off].
  rewrite (mapM_default _ (seqZ _ n)).
  - f_equal. f_equal. apply list_eq. intros i. rewrite list_lookup_fmap.
    destruct (decide (Z.of_nat i < n)) as [Hi|Hi].
    + rewrite lookup_seqZ_lt, lookup_take_lt, lookup_drop, lookup_contents by lia. cbn.
      unfold seen, own_region. rewrite Hr. cbn. do 2 f_equal. f_equal. lia.
    + rewrite lookup_seqZ_ge, lookup_take_ge by lia. done.
  - intros q (i & [-> Hi]%lookup_seqZ)%list_elem_of_lookup. pose proof (typed_byte s e) as Hb.
    unfold own_region in Hb. rewrite Hr in Hb. cbn in Hb. apply Hb; [done|]. lia.
Qed.


(** ** Writing through an object *)

Lemma well_typed_shape s s' :
  well_typed s → grows s s' → maps s' = maps s →
  (∀ a r', regions s' !! a = Some r' → ∃ r, regions s !! a = Some r ∧ g_len r' = g_len r ∧
    (g_shared r' = true → g_cow r' = ∅)) → well_typed s'.
Proof.
  intros [] Hg Hm Hr. split.
  - intros a r' (r & H1 & -> & H2)%Hr. destruct (w_region0 a r H1) as (?&?&?&_&?). done.
  - intros a r' b q' (r & H1 & -> & _)%Hr (q & H2 & -> & _)%Hr. by apply w_apart0.
  - intros id e. rewrite Hm. intros He. eapply ok_grows; [exact Hg|by eapply w_entity0].
  - rewrite Hm. done.
Qed.

Definition kept_page (s : mstate) (e : FileMappingEntity) (p : Z) (bytes : list Z) (cow : gmap Z Z) : Prop :=
  ∀ q d, mfiles s !! fd e = Some d →
    (offset e + p <= q < offset e + p + Z.of_nat (length bytes) → cow !! q = bytes !! Z.to_nat (q - (offset e + p))) ∧
    (¬ offset e + p <= q < offset e + p + Z.of_nat (length bytes) → 0 <= q →
      match cow !! q with Some b => Some b | None => k_data d !! Z.to_nat q end = byte_at (k_data d) (own_region s e) q).

(** A write changes the file, or the region's own pages. *)
Definition wrote (s : mstate) (e : FileMappingEntity) (p : Z) (bytes : list Z) (s' : mstate) : Prop :=
  (mode e = READ_WRITE ∧ ∃ f, mfiles s !! fd e = Some f ∧
     s' = s <| mfiles := <[fd e := f <| k_data := list_inserts (Z.to_nat (offset e + p)) bytes (k_data f) |>]> (mfiles s) |>) ∨
  (mode e = PRIVATE ∧ ∃ cow, kept_page s e p bytes cow ∧
     s' = s <| regions := <[rawMapAddr e := (own_region s e) <| g_cow := cow |>]> (regions s) |>).

Lemma copied_byte d p n q b : 0 <= p → copied d p n !! q = Some b → d !! Z.to_nat q = Some b.
Proof.
  intros Hp [Hq H]%lookup_map_seqZ_Some. apply lookup_take_Some in H as [H _]. rewrite lookup_drop in H. rewrite <- H. f_equal.
  assert (0 <= page_down p); [|lia]. unfold page_down. pose proof page_size_pos.
  apply Z.mul_nonneg_nonneg; [|lia]. apply Z.div_pos; lia.
Qed.

Lemma kept_page_copied s e p bytes f :
  0 <= offset e + p → mfiles s !! fd e = Some f →
  kept_page s e p bytes (map_seqZ (offset e + p) bytes ∪ (g_cow (own_region s e) ∪
    copied (k_data f) (offset e + p) (Z.of_nat (length bytes)))).
Proof.
  intros Hp Hf q d Hd. simplify_eq. split.
  - intros Hq. destruct (bytes !! Z.to_nat (q - (offset e + p))) as [b|] eqn:E.
    + apply lookup_union_Some_l, lookup_map_seqZ_Some. split; [lia|done].
    + apply lookup_ge_None in E. lia.
  - intros Hq Hq0. rewrite lookup_union_r by (apply lookup_map_seqZ_None; lia). unfold byte_at.
    destruct (g_cow (own_region s e) !! q) as [b|] eqn:E.
    + rewrite (lookup_union_Some_l _ _ _ _ E). done.
    + rewrite lookup_union_r by done. destruct (copied _ _ _ !! q) as [b|] eqn:Ec; [|done].
      by apply copied_byte in Ec as ->.
Qed.

Lemma store_typed s e p bytes :
  well_typed s → entity_typed s e → mode e ≠ READ_ONLY → 0 <= p → (0 < length bytes)%nat →
  p + Z.of_nat (length bytes) <= capacity e →
  ∃ s', store (mapAddr e + p) bytes s = Some (tt, s') ∧ wrote s e p bytes s'.
Proof.
  intros Hw Ht Hro Hp Hn Hc. destruct (t_region s e Ht) as [c Hr], (t_file s e Ht) as (f & Hf & Hl).
  pose proof (t_addr s e Ht) as Ha. pose proof (t_adjust s e Ht) as Hj. pose proof (t_raw s e Ht) as Hraw.
  rewrite (proj2 (Z.eqb_neq _ _) Hro) in Hr.
  unfold store. rewrite (region_at_own s (rawMapAddr e) _ _ _ Hw Hr) by (cbn; lia). cbn [g_off g_fd g_write g_shared g_cow].
  rewrite Hf.
  replace (offset e - adjustment e + (mapAddr e + p - rawMapAddr e)) with (offset e + p) by lia.
  cbn [negb orb]. rewrite (proj2 (Z.ltb_ge _ _)) by lia.
  destruct (mode e =? PRIVATE) eqn:Em; cbn [negb]; eexists; (split; [reflexivity|]).
  - right. apply Z.eqb_eq in Em. split; [done|]. eexists. split; [|].
    + apply kept_page_copied; [lia|exact Hf].
    + unfold own_region. rewrite Hr. reflexivity.
  - left. apply Z.eqb_neq in Em. split; [by destruct (t_mode s e Ht) as [|[|]]|]. by exists f.
Qed.

Lemma wrote_grows s e p bytes s' : entity_typed s e → wrote s e p bytes s' → grows s s'.
Proof.
  intros Ht [(_ & f & Hf & ->)|(_ & cow & _ & ->)]; split; cbn [regions mfiles].
  - intros a r Hr. exists (g_cow r). change (regions s !! a = Some (r <| g_cow := g_cow r |>)). rewrite Hr. by destruct r.
  - intros d g Hg. destruct (decide (d = fd e)) as [->|Hne].
    + simplify_eq. eexists. split; [apply lookup_insert_eq|].
      etrans; [|apply Nat.eq_le_incl; symmetry; apply length_inserts]. done.
    + exists g. split; [|done]. etrans; [by apply lookup_insert_ne|done].
  - intros a r Hr. destruct (decide (a = rawMapAddr e)) as [->|Hne].
    + exists cow. unfold own_region. rewrite Hr. apply lookup_insert_eq.
    + exists (g_cow r). etrans; [by apply lookup_insert_ne|]. rewrite Hr. by destruct r.
  - intros d g Hg. by exists g.
Qed.


Lemma wrote_maps s e p bytes s' : wrote s e p bytes s' → maps s' = maps s.
Proof. by intros [(_ & f & _ & ->)|(_ & cow & _ & ->)]. Qed.

Lemma wrote_well_typed s e p bytes s' : well_typed s → entity_typed s e → wrote s e p bytes s' → well_typed s'.
Proof.
  intros Hw Ht H. apply (well_typed_shape s); [done|by eapply wrote_grows|by eapply wrote_maps|].
  destruct H as [(_ & f & _ & ->)|(Hm & cow & _ & ->)]; intros a r' Hr'.
  - exists r'. split; [exact Hr'|]. split; [done|]. by apply (w_region s Hw a).
  - change (<[rawMapAddr e := (own_region s e) <| g_cow := cow |>]> (regions s) !! a = Some r') in Hr'.
    apply lookup_insert_Some in Hr' as [[<- <-]|[Hne Hr']].
    + destruct (t_region s e Ht) as [c Hr]. unfold own_region. rewrite Hr. eexists. split; [done|]. split; [done|].
      cbn. by rewrite Hm.
    + exists r'. split; [exact Hr'|]. split; [done|]. by apply (w_region s Hw a).
Qed.

Lemma own_region_typed s e : entity_typed s e → regions s !! rawMapAddr e = Some (own_region s e).
Proof. intros Ht. destruct (t_region s e Ht) as [c Hr]. unfold own_region. by rewrite Hr. Qed.
Lemma own_region_shared s e : well_typed s → entity_typed s e → mode e ≠ PRIVATE → g_cow (own_region s e) = ∅.
Proof.
  intros Hw Ht Hm. apply (w_region s Hw (rawMapAddr e)); [by apply own_region_typed|].
  destruct (t_region s e Ht) as [c Hr]. unfold own_region. rewrite Hr. cbn. by rewrite (proj2 (Z.eqb_neq _ _) Hm).
Qed.
Lemma own_region_fd s e : entity_typed s e → g_fd (own_region s e) = fd e.
Proof. intros Ht. destruct (t_region s e Ht) as [c Hr]. unfold own_region. by rewrite Hr. Qed.

(** The bytes that are written are seen through the object, the others stay. *)
Lemma wrote_seen s e p bytes s' q :
  well_typed s → entity_typed s e → 0 <= p → p + Z.of_nat (length bytes) <= capacity e → wrote s e p bytes s' →
  offset e <= q < offset e + capacity e →
  seen s' e q = if decide (offset e + p <= q < offset e + p + Z.of_nat (length bytes))
                then default 0 (bytes !! Z.to_nat (q - (offset e + p))) else seen s e q.
Proof.
  intros Hw Ht Hp Hc H Hq. pose proof (t_adjust s e Ht) as Hj. destruct (t_file s e Ht) as (d & Hd & Hl).
  destruct H as [(Hm & f & Hf & ->)|(Hm & cow & Hk & ->)]; unfold seen.
  - assert (f = d) as -> by congruence. change (own_region (_ <| mfiles := _ |>) e) with (own_region s e).
    assert (g_cow (own_region s e) = ∅) as Hcow by (apply own_region_shared; [done|done|by rewrite Hm]).
    unfold byte_at. rewrite Hcow, lookup_empty. unfold data_of. rewrite !(own_region_fd s e Ht).
    match goal with |- context [mfiles (?x <| mfiles := ?m |>)] => change (mfiles (x <| mfiles := m |>)) with m end.
    rewrite lookup_insert_eq, Hd.
    match goal with |- context [k_data (d <| k_data := ?l |>)] => change (k_data (d <| k_data := l |>)) with l end.
    case_decide as Hin.
    + rewrite list_lookup_inserts by lia. do 2 f_equal. lia.
    + f_equal. destruct (decide (q < offset e + p)); [apply list_lookup_inserts_lt; lia|apply list_lookup_inserts_ge; lia].
  - assert (∀ m, own_region (s <| regions := <[rawMapAddr e := m]> (regions s) |>) e = m) as Ho.
    { intros m. unfold own_region. match goal with |- context [regions (?x <| regions := ?m |>)] =>
        change (regions (x <| regions := m |>)) with m end. by rewrite lookup_insert_eq. }
    rewrite Ho. unfold data_of. cbn [g_fd]. change (g_fd ((own_region s e) <| g_cow := cow |>)) with (g_fd (own_region s e)).
    match goal with |- context [mfiles (?x <| regions := ?m |>)] => change (mfiles (x <| regions := m |>)) with (mfiles x) end.
    rewrite !(own_region_fd s e Ht), Hd. destruct (Hk q d Hd) as [H1 H2].
    unfold byte_at at 1. change (g_cow ((own_region s e) <| g_cow := cow |>)) with cow. case_decide as Hin.
    + rewrite (H1 Hin). destruct (bytes !! _) eqn:E; [done|]. apply lookup_ge_None in E. lia.
    + rewrite H2 by (done || lia). done.
Qed.

Lemma wrote_contents s e e' p bytes s' :
  well_typed s → entity_typed s e → 0 <= p → p + Z.of_nat (length bytes) <= capacity e → wrote s e p bytes s' →
  offset e' = offset e → capacity e' = capacity e → rawMapAddr e' = rawMapAddr e →
  contents s' e' = list_inserts (Z.to_nat p) bytes (contents s e).
Proof.
  intros Hw Ht Hp Hc H Ho Hcap Hraw. apply list_eq. intros i.
  assert (∀ q, seen s' e' q = seen s' e q) as He.
  { intros q. unfold seen, own_region. by rewrite Hraw. }
  destruct (decide (Z.of_nat i < capacity e)) as [Hi|Hi].
  - rewrite lookup_contents by lia. rewrite He, Ho, (wrote_seen _ _ _ _ _ _ Hw Ht Hp Hc H) by lia.
    case_decide as Hin.
    + rewrite list_lookup_inserts by (rewrite ?length_contents; lia).
      replace (Z.to_nat (offset e + Z.of_nat i - (offset e + p))) with (i - Z.to_nat p)%nat by lia.
      destruct (bytes !! (i - Z.to_nat p)%nat) eqn:E; [done|]. apply lookup_ge_None in E. lia.
    + rewrite <- (lookup_contents s e i) by lia. symmetry.
      destruct (decide (Z.of_nat i < p)); [apply list_lookup_inserts_lt; lia|apply list_lookup_inserts_ge; lia].
  - rewrite !lookup_ge_None_2; [done|rewrite length_inserts|]; rewrite length_contents; lia.
Qed.


(** ** What the operations do, as a buffer *)

Record ByteBuffer := mkBuffer { b_bytes : list Z; b_limit : Z; b_position : Z }.
(** How many bytes go from or to a position, of [len] that are asked for and [n] there are. *)
Definition room (b : ByteBuffer) (pos len n : Z) : Z := Z.min (Z.min len (Z.max 0 (b_limit b - pos))) n.
Definition slice (b : ByteBuffer) (pos n : Z) : list Z := take (Z.to_nat n) (drop (Z.to_nat pos) (b_bytes b)).
Definition put_bytes (b : ByteBuffer) (pos : Z) (l : list Z) : ByteBuffer :=
  b <| b_bytes := list_inserts (Z.to_nat pos) l (b_bytes b) |>.
Definition buffer_op (ro : bool) (o : mop) (b : ByteBuffer) : mres * ByteBuffer :=
  let cap := Z.of_nat (length (b_bytes b)) in
  match o with
  | OSetPosition n => if n <=? b_limit b then ((inr 0, []), b <| b_position := n |>) else ((inl EINVAL, []), b)
  | OGetPosition => ((inr (b_position b), []), b)
  | OCapacity => ((inr cap, []), b)
  | OSetLimit n =>
      if n <=? cap then ((inr 0, []), b <| b_limit := n |> <| b_position := Z.min (b_position b) n |>)
      else ((inl EINVAL, []), b)
  | OGetLimit => ((inr (b_limit b), []), b)
  | OFlip => ((inr 0, []), b <| b_limit := b_position b |> <| b_position := 0 |>)
  | ORemaining => ((inr (b_limit b - b_position b), []), b)
  | ORead buf len =>
      let n := room b (b_position b) len (Z.of_nat (length buf)) in
      ((inr n, slice b (b_position b) n ++ drop (Z.to_nat n) buf), b <| b_position := b_position b + n |>)
  | OReadFrom pos buf len =>
      let n := room b pos len (Z.of_nat (length buf)) in
      if pos <=? cap then ((inr n, slice b pos n ++ drop (Z.to_nat n) buf), b) else ((inl EINVAL, buf), b)
  | OWrite data len =>
      let n := room b (b_position b) len (Z.of_nat (length data)) in
      if ro then ((inl (FILEIO_SYS_CAP_TAG + E_MMAP_RO), []), b)
      else ((inr n, []), (put_bytes b (b_position b) (take (Z.to_nat n) data)) <| b_position := b_position b + n |>)
  | OWriteTo pos data len =>
      let n := room b pos len (Z.of_nat (length data)) in
      if negb (pos <=? cap) then ((inl EINVAL, []), b)
      else if ro then ((inl (FILEIO_SYS_CAP_TAG + E_MMAP_RO), []), b)
      else ((inr n, []), put_bytes b pos (take (Z.to_nat n) data))
  | _ => ((inr 0, []), b)
  end.
Definition buffer_ops (o : mop) : bool :=
  match o with OMmap _ _ _ _ | OMsync _ _ | OUnmap | ODestroy => false | _ => true end.

Definition view (s : mstate) (e : FileMappingEntity) : ByteBuffer := mkBuffer (contents s e) (limit e) (position e).

(** The same mapping, with another position and limit. *)
Definition same_map (e e' : FileMappingEntity) : Prop :=
  mapAddr e' = mapAddr e ∧ rawMapAddr e' = rawMapAddr e ∧ capacity e' = capacity e ∧ rawCapacity e' = rawCapacity e ∧
  adjustment e' = adjustment e ∧ mode e' = mode e ∧ fd e' = fd e ∧ offset e' = offset e ∧ isValid e' = isValid e.
Lemma same_map_refl e : same_map e e.
Proof. by split_and!. Qed.

Lemma contents_same s e e' : same_map e e' → contents s e' = contents s e.
Proof.
  intros (_ & Hr & Hc & _ & _ & _ & _ & Ho & _). apply contents_ext; [done..|]. intros p _.
  unfold seen, own_region. by rewrite Hr.
Qed.
Lemma typed_moved s e e' :
  entity_typed s e → same_map e e' → 0 <= position e' <= limit e' → limit e' <= capacity e → entity_typed s e'.
Proof.
  intros [] (H1 & H2 & H3 & H4 & H5 & H6 & H7 & H8 & H9) Hp Hl. split; rewrite ?H1, ?H2, ?H3, ?H4, ?H5, ?H6, ?H7, ?H8; done.
Qed.

Lemma grows_maps s m : grows s (s <| maps := m |>) .
Proof.
  split; [|intros d f Hf; by exists f]. intros a r Hr. exists (g_cow r).
  change (regions s !! a = Some (r <| g_cow := g_cow r |>)). rewrite Hr. by destruct r.
Qed.
Lemma well_typed_moved s id e e' :
  well_typed s → maps s !! id = Some e → isValid e = true → same_map e e' → 0 <= position e' <= limit e' →
  limit e' <= capacity e → well_typed (s <| maps := <[id := e']> (maps s) |>).
Proof.
  intros Hw He Hv Hsame Hp Hl. pose proof Hsame as (_ & Hraw & _ & _ & _ & _ & _ & _ & Hval).
  pose proof (w_entity s Hw id e He) as Hok. unfold entity_ok in Hok. rewrite Hv in Hok. destruct Hw. split; [done|done| |].
  - intros j x Hx. change (<[id := e']> (maps s) !! j = Some x) in Hx. eapply ok_grows; [apply grows_maps|].
    apply lookup_insert_Some in Hx as [[<- <-]|[Hne Hx]]; [|by eapply w_entity0].
    unfold entity_ok. rewrite Hval, Hv. by eapply typed_moved.
  - intros i j x y Hx Hy. change (<[id := e']> (maps s) !! i = Some x) in Hx. change (<[id := e']> (maps s) !! j = Some y) in Hy.
    apply lookup_insert_Some in Hx as [[<- <-]|[Hi Hx]]; apply lookup_insert_Some in Hy as [[<- <-]|[Hj Hy]]; rewrite ?Hraw, ?Hval;
      eauto.
Qed.


(** ** Each operation *)

Definition live (s : mstate) (id : nat) (e : FileMappingEntity) : Prop :=
  well_typed s ∧ maps s !! id = Some e ∧ isValid e = true.
Lemma live_typed s id e : live s id e → entity_typed s e.
Proof. intros (Hw & He & Hv). pose proof (w_entity s Hw id e He) as H. unfold entity_ok in H. by rewrite Hv in H. Qed.

Lemma twp_valid {A} s id e (f : bool → st mstate A) (Q : A → mstate → Prop) :
  live s id e → twp (f true) Q s → twp (bind (CheckValid id) f) Q s.
Proof.
  intros Hl HQ. pose proof (live_typed _ _ _ Hl) as Ht. destruct Hl as (Hw & He & Hv). apply twp_bind, twp_bind.
  unfold twp at 1, get_entity. rewrite He. apply twp_ret.
  replace (Entity_CheckValid e) with true; [exact HQ|]. unfold Entity_CheckValid. rewrite Hv. symmetry. apply negb_true_iff, Z.eqb_neq.
  pose proof (t_addr s e Ht). pose proof (t_adjust s e Ht). destruct (t_region s e Ht) as [c Hr].
  destruct (w_region s Hw _ _ Hr). lia.
Qed.
Lemma twp_the {A} s id e (f : FileMappingEntity → st mstate A) (Q : A → mstate → Prop) :
  maps s !! id = Some e → twp (f e) Q s → twp (bind (the id) f) Q s.
Proof. intros He HQ. apply twp_bind. unfold twp at 1, the. by rewrite He. Qed.
Lemma twp_set {A} s id e g (f : unit → st mstate A) (Q : A → mstate → Prop) :
  maps s !! id = Some e → twp (f tt) Q (s <| maps := <[id := g e]> (maps s) |>) → twp (bind (set_entity id g) f) Q s.
Proof. intros He HQ. apply twp_bind. unfold twp at 1, set_entity. by rewrite He. Qed.
Lemma twp_call {A} (g : A → mres) (m : st mstate A) (Q : mres → mstate → Prop) s :
  twp m (λ r, Q (g r)) s → twp (call g m) Q s.
Proof. intros H. by apply twp_bind. Qed.

(** The result and what the object stands for afterwards are those of [buffer_op]. *)
Definition refined (s : mstate) (id : nat) (e : FileMappingEntity) (o : mop) (r : mres) (s' : mstate) : Prop :=
  r = (buffer_op (Entity_IsReadOnly e) o (view s e)).1 ∧
  ∃ e', maps s' = <[id := e']> (maps s) ∧ same_map e e' ∧
    view s' e' = (buffer_op (Entity_IsReadOnly e) o (view s e)).2 ∧ well_typed s'.

Lemma refined_same s id e o r :
  live s id e → buffer_op (Entity_IsReadOnly e) o (view s e) = (r, view s e) → refined s id e o r s.
Proof.
  intros (Hw & He & Hv) E. unfold refined. rewrite E. split; [done|]. exists e. split; [by rewrite insert_id|].
  split; [apply same_map_refl|done].
Qed.
Lemma refined_moved s id e e' o r :
  live s id e → same_map e e' → 0 <= position e' <= limit e' → limit e' <= capacity e →
  buffer_op (Entity_IsReadOnly e) o (view s e) = (r, mkBuffer (contents s e) (limit e') (position e')) →
  refined s id e o r (s <| maps := <[id := e']> (maps s) |>).
Proof.
  intros Hlive Hsame Hp Hl E. pose proof Hlive as (Hw & He & Hv). unfold refined. rewrite E. split; [done|].
  exists e'. split; [done|]. split; [done|]. split.
  - unfold view. f_equal. rewrite <- (contents_same s e e' Hsame). reflexivity.
  - by apply (well_typed_moved s id e e').
Qed.

Lemma cap_view s e : entity_typed s e → Z.of_nat (length (b_bytes (view s e))) = capacity e.
Proof. intros Ht. cbn. rewrite length_contents. pose proof (t_capacity s e Ht). lia. Qed.

Lemma refined_observers s id e o :
  live s id e → o ∈ [OGetPosition; OCapacity; OGetLimit; ORemaining] → twp (run_op id o) (refined s id e o) s.
Proof.
  intros Hl Ho. pose proof (live_typed _ _ _ Hl) as Ht. pose proof Hl as (_ & He & _).
  repeat (apply elem_of_cons in Ho as [->|Ho]); [..|by apply elem_of_nil in Ho]; cbn [run_op]; apply twp_call;
    (eapply twp_valid; [exact Hl|]); cbn [negb]; (eapply twp_the; [exact He|]); apply twp_ret; (apply refined_same; [done|]).
  - done.
  - cbn [buffer_op]. by rewrite (cap_view s e Ht).
  - done.
  - cbn [buffer_op b_limit b_position view of_num]. pose proof (t_position s e Ht). pose proof (t_limit s e Ht).
    destruct (t_region s e Ht) as [c Hr]. destruct Hl as (Hw & _). destruct (w_region s Hw _ _ Hr) as (? & ? & Hmax & _).
    cbn in Hmax. pose proof (t_raw s e Ht). pose proof (t_adjust s e Ht). unfold SIZE_MAX in *.
    unfold of_num. do 3 f_equal. destruct (limit e >? position e) eqn:E; zbool; [rewrite u64_id by lia|]; lia.
Qed.


Lemma live_numbers s id e :
  live s id e → 0 <= position e <= limit e ∧ limit e <= capacity e ∧ mapAddr e + capacity e <= SIZE_MAX ∧ 0 < mapAddr e.
Proof.
  intros Hl. pose proof (live_typed _ _ _ Hl) as Ht. destruct Hl as (Hw & _). destruct (t_region s e Ht) as [c Hr].
  destruct (w_region s Hw _ _ Hr) as (? & ? & Hmax & _). cbn in Hmax. pose proof (t_raw s e Ht). pose proof (t_adjust s e Ht).
  pose proof (t_addr s e Ht). pose proof (t_position s e Ht). pose proof (t_limit s e Ht). lia.
Qed.

Lemma refined_SetPosition s id e n : live s id e → 0 <= n → twp (run_op id (OSetPosition n)) (refined s id e (OSetPosition n)) s.
Proof.
  intros Hl Hn. pose proof (live_typed _ _ _ Hl) as Ht. pose proof Hl as (_ & He & _).
  cbn [run_op]. apply twp_call. eapply twp_valid; [exact Hl|]. cbn [negb]. eapply twp_the; [exact He|].
  destruct (n >? limit e) eqn:E; zbool.
  - apply twp_ret, refined_same; [done|]. cbn [buffer_op b_limit view]. by rewrite (proj2 (Z.leb_gt _ _)) by lia.
  - eapply twp_set; [exact He|]. apply twp_ret. apply refined_moved; [done| | | |].
    + destruct e. by split_and!.
    + change (0 <= n <= limit e). lia.
    + exact (t_limit s e Ht).
    + cbn [buffer_op b_limit view]. rewrite (proj2 (Z.leb_le _ _)) by lia. by destruct e.
Qed.

Lemma refined_Flip s id e : live s id e → twp (run_op id OFlip) (refined s id e OFlip) s.
Proof.
  intros Hl. pose proof (live_numbers _ _ _ Hl) as (Hp & Hlim & _). pose proof Hl as (_ & He & _).
  cbn [run_op]. apply twp_call. eapply twp_valid; [exact Hl|]. cbn [negb]. eapply twp_set; [exact He|].
  eapply twp_set; [apply lookup_insert_eq|]. apply twp_ret.
  match goal with |- refined _ _ _ _ _ (?x <| maps := ?m |>) => assert (x <| maps := m |> =
    s <| maps := <[id := (e <| limit := position e |>) <| position := 0 |>]> (maps s) |>) as -> end.
  { change (s <| maps := <[id := (e <| limit := position e |>) <| position := 0 |>]> (<[id := e <| limit := position e |>]> (maps s)) |>
      = s <| maps := <[id := (e <| limit := position e |>) <| position := 0 |>]> (maps s) |>). by rewrite insert_insert_eq. }
  apply refined_moved; [done| | | |].
  - destruct e. by split_and!.
  - change (0 <= 0 <= position e). lia.
  - change (position e <= capacity e). lia.
  - cbn [buffer_op]. by destruct e.
Qed.

Lemma refined_SetLimit s id e n : live s id e → 0 <= n → twp (run_op id (OSetLimit n)) (refined s id e (OSetLimit n)) s.
Proof.
  intros Hl Hn. pose proof (live_typed _ _ _ Hl) as Ht. pose proof Hl as (_ & He & _).
  pose proof (live_numbers _ _ _ Hl) as (Hp & Hlim & _).
  cbn [run_op]. apply twp_call. eapply twp_valid; [exact Hl|]. cbn [negb]. eapply twp_the; [exact He|].
  pose proof (cap_view s e Ht) as Hcap. destruct (n >? capacity e) eqn:E; zbool.
  - apply twp_ret, refined_same; [done|]. cbn [buffer_op]. rewrite Hcap. by rewrite (proj2 (Z.leb_gt _ _)) by lia.
  - eapply twp_set; [exact He|]. eapply twp_the; [apply lookup_insert_eq|].
    change (position (e <| limit := n |>)) with (position e). change (limit (e <| limit := n |>)) with n.
    assert (∀ e', same_map e e' → limit e' = n → position e' = Z.min (position e) n →
      refined s id e (OSetLimit n) (inr 0, []) (s <| maps := <[id := e']> (maps s) |>)) as Hfin.
    { intros e' Hs H1 H2. apply refined_moved; [done|done|lia|lia|]. cbn [buffer_op]. rewrite Hcap, H1, H2.
      by rewrite (proj2 (Z.leb_le _ _)) by lia. }
    destruct (position e >? n) eqn:E2; zbool.
    + eapply twp_set; [apply lookup_insert_eq|]. apply twp_ret.
      match goal with |- refined _ _ _ _ _ (?x <| maps := ?m |>) => assert (x <| maps := m |> =
        s <| maps := <[id := (e <| limit := n |>) <| position := n |>]> (maps s) |>) as -> end.
      { change (s <| maps := <[id := (e <| limit := n |>) <| position := n |>]> (<[id := e <| limit := n |>]> (maps s)) |>
          = s <| maps := <[id := (e <| limit := n |>) <| position := n |>]> (maps s) |>). by rewrite insert_insert_eq. }
      apply Hfin; [by destruct e; split_and!|done|]. change (n = Z.min (position e) n). lia.
    + apply twp_bind, twp_ret, twp_ret, Hfin; [by destruct e; split_and!|done|].
      change (position e = Z.min (position e) n). lia.
Qed.


(** The length the source computes. *)
Lemma op_length s e pos len n :
  0 <= pos → limit e <= SIZE_MAX →
  (let remaining := if pos <? limit e then limit e -₆₄ pos else 0 in
   let opLength := if len <? remaining then len else remaining in
   if opLength >? n then n else opLength) = room (view s e) pos len n.
Proof.
  intros Hp Hl. unfold room, SIZE_MAX in *. cbn [b_limit view]. cbv zeta.
  assert ((if pos <? limit e then limit e -₆₄ pos else 0) = Z.max 0 (limit e - pos)) as ->.
  { destruct (pos <? limit e) eqn:E; zbool; [rewrite u64_id by lia|]; lia. }
  destruct (len <? _) eqn:E1; destruct (_ >? n) eqn:E2; zbool; lia.
Qed.

Lemma twp_copy_out s e buf pos n (Q : Z * buffer_t → mstate → Prop) :
  well_typed s → entity_typed s e → 0 <= pos → 0 < n → pos + n <= capacity e →
  n <= Z.of_nat (length buf) <= SECUREC_MEM_MAX_LEN →
  Q (0, Some (slice (view s e) pos n ++ drop (Z.to_nat n) buf)) s →
  twp (copy_out (Some buf) (Z.of_nat (length buf)) (mapAddr e + pos) n) Q s.
Proof.
  intros Hw Ht Hp Hn Hc Hb HQ. unfold copy_out. rewrite memcpy_s_fits by lia. cbn [Z.eqb negb].
  apply twp_bind. unfold twp at 1. rewrite load_typed by done. cbv beta. rewrite (proj2 (Z.ltb_ge _ _)) by lia. apply twp_ret.
  match goal with |- Q (0, Some ?l) s => replace l with (slice (view s e) pos n ++ drop (Z.to_nat n) buf); [exact HQ|] end.
  unfold slice. cbn [b_bytes view]. rewrite <- (take_drop (Z.to_nat n) buf) at 2.
  rewrite list_inserts_0_r; [done|]. rewrite !length_take, length_drop, length_contents. lia.
Qed.

Lemma room_bounds b pos len n : 0 <= len → 0 <= n → 0 <= room b pos len n <= n ∧ (0 < room b pos len n → pos + room b pos len n <= b_limit b).
Proof. unfold room. lia. Qed.

Lemma slice_nothing b pos (buf : list Z) : slice b pos 0 ++ drop (Z.to_nat 0) buf = buf.
Proof. done. Qed.

Lemma refined_Read s id e buf len :
  live s id e → 0 <= len → Z.of_nat (length buf) <= SECUREC_MEM_MAX_LEN →
  twp (run_op id (ORead buf len)) (refined s id e (ORead buf len)) s.
Proof.
  intros Hl Hlen Hb. pose proof (live_typed _ _ _ Hl) as Ht. pose proof Hl as (Hw & He & _).
  pose proof (live_numbers _ _ _ Hl) as (Hp & Hlim & Hmax & Hpos).
  cbn [run_op]. apply twp_call. eapply twp_valid; [exact Hl|]. cbn [negb is_null andb]. eapply twp_the; [exact He|].
  cbv zeta. rewrite (op_length s e) by lia.
  destruct (room_bounds (view s e) (position e) len (Z.of_nat (length buf))) as [Hr1 Hr2]; [lia|lia|].
  set (n := room _ _ _ _) in *. cbn [b_limit view] in Hr2.
  assert (buffer_op (Entity_IsReadOnly e) (ORead buf len) (view s e) =
    ((inr n, slice (view s e) (position e) n ++ drop (Z.to_nat n) buf), (view s e) <| b_position := position e + n |>)) as Hop by done.
  destruct (n >? 0) eqn:E; zbool.
  - apply twp_bind, twp_copy_out; [done|done|lia|lia|lia|lia|]. cbn [Z.eqb negb].
    eapply twp_set; [exact He|]. apply twp_ret. apply refined_moved; [done| | | |].
    + by destruct e; split_and!.
    + change (0 <= position e +₆₄ n <= limit e). unfold SIZE_MAX in *. rewrite u64_id by lia. lia.
    + exact Hlim.
    + rewrite Hop. change (position (e <| position := position e +₆₄ n |>)) with (position e +₆₄ n).
      unfold SIZE_MAX in *. by rewrite u64_id by lia.
  - assert (n = 0) as En by lia. apply twp_ret, refined_same; [done|]. rewrite Hop, En. rewrite slice_nothing.
    rewrite Z.add_0_r. done.
Qed.

Lemma refined_ReadFrom s id e pos buf len :
  live s id e → 0 <= pos → 0 <= len → Z.of_nat (length buf) <= SECUREC_MEM_MAX_LEN →
  twp (run_op id (OReadFrom pos buf len)) (refined s id e (OReadFrom pos buf len)) s.
Proof.
  intros Hl Hpos Hlen Hb. pose proof (live_typed _ _ _ Hl) as Ht. pose proof Hl as (Hw & He & _).
  pose proof (live_numbers _ _ _ Hl) as (Hp & Hlim & Hmax & Hma).
  cbn [run_op]. apply twp_call. eapply twp_valid; [exact Hl|]. cbn [negb is_null andb orb]. eapply twp_the; [exact He|].
  cbv zeta. rewrite (op_length s e) by lia.
  destruct (room_bounds (view s e) pos len (Z.of_nat (length buf))) as [Hr1 Hr2]; [lia|lia|].
  assert (buffer_op (Entity_IsReadOnly e) (OReadFrom pos buf len) (view s e) =
    if pos <=? capacity e then ((inr (room (view s e) pos len (Z.of_nat (length buf))),
      slice (view s e) pos (room (view s e) pos len (Z.of_nat (length buf))) ++
      drop (Z.to_nat (room (view s e) pos len (Z.of_nat (length buf)))) buf), view s e)
    else ((inl EINVAL, buf), view s e)) as Hop by (cbn [buffer_op]; by rewrite (cap_view s e Ht)).
  set (n := room _ _ _ _) in *. cbn [b_limit view] in Hr2.
  destruct (pos >? capacity e) eqn:E0; zbool.
  - apply twp_ret, refined_same; [done|]. rewrite Hop. by rewrite (proj2 (Z.leb_gt _ _)) by lia.
  - rewrite (proj2 (Z.leb_le _ _)) in Hop by lia. destruct (n >? 0) eqn:E; zbool.
    + apply twp_bind, twp_copy_out; [done|done|lia|lia|lia|lia|]. cbn [Z.eqb negb]. by apply twp_ret, refined_same.
    + assert (n = 0) as En by lia. apply twp_ret, refined_same; [done|]. rewrite Hop, En. by rewrite slice_nothing.
Qed.


(** *** Writes *)

Lemma take_le_length {A} (n : Z) (l : list A) : 0 <= n <= Z.of_nat (length l) → Z.of_nat (length (take (Z.to_nat n) l)) = n.
Proof. intros H. rewrite length_take. lia. Qed.

Lemma twp_copy_in s e data destSize pos n (Q : Z → mstate → Prop) :
  well_typed s → entity_typed s e → mode e ≠ READ_ONLY → 0 <= pos → 0 < n → pos + n <= capacity e →
  n <= Z.of_nat (length data) → n <= destSize <= SECUREC_MEM_MAX_LEN →
  (∀ s', wrote s e pos (take (Z.to_nat n) data) s' → Q 0 s') →
  twp (copy_in (mapAddr e + pos) destSize (Some data) n) Q s.
Proof.
  intros Hw Ht Hro Hp Hn Hc Hd Hb HQ. unfold copy_in. rewrite memcpy_s_fits by lia. cbn [Z.eqb negb].
  rewrite (proj2 (Z.ltb_ge _ _)) by lia. apply twp_bind. unfold twp at 1.
  destruct (store_typed s e pos (take (Z.to_nat n) data)) as (s' & -> & H); [done|done|done|done| | |].
  - rewrite length_take. lia.
  - rewrite take_le_length by lia. lia.
  - apply twp_ret. by apply HQ.
Qed.

(** A write that took place, and what it makes of the object. *)
Lemma refined_wrote s id e e' o r pos bytes s1 :
  live s id e → wrote s e pos bytes s1 → 0 <= pos → pos + Z.of_nat (length bytes) <= capacity e →
  same_map e e' → 0 <= position e' <= limit e' → limit e' = limit e →
  buffer_op (Entity_IsReadOnly e) o (view s e) =
    (r, mkBuffer (list_inserts (Z.to_nat pos) bytes (contents s e)) (limit e) (position e')) →
  refined s id e o r (s1 <| maps := <[id := e']> (maps s1) |>).
Proof.
  intros Hlive Hwr Hp Hc Hsame Hpos Hlim E. pose proof (live_typed _ _ _ Hlive) as Ht. pose proof Hlive as (Hw & He & Hv).
  pose proof (live_numbers _ _ _ Hlive) as (_ & Hl & _). pose proof (wrote_maps _ _ _ _ _ Hwr) as Hm.
  unfold refined. rewrite E. split; [done|]. exists e'. split; [by rewrite <- Hm|]. split; [done|]. split.
  - unfold view. rewrite Hlim. cbn [snd]. f_equal.
    destruct Hsame as (_ & Hraw & Hcap & _ & _ & _ & _ & Ho & _).
    change (contents (s1 <| maps := <[id := e']> (maps s1) |>) e') with (contents s1 e').
    exact (wrote_contents s e e' pos bytes s1 Hw Ht Hp Hc Hwr Ho Hcap Hraw).
  - apply (well_typed_moved s1 id e e'); [by eapply wrote_well_typed|by rewrite Hm|done|done|done|lia].
Qed.

Lemma refined_Write s id e data len :
  live s id e → 0 <= len → limit e <= SECUREC_MEM_MAX_LEN →
  twp (run_op id (OWrite data len)) (refined s id e (OWrite data len)) s.
Proof.
  intros Hl Hlen Hb. pose proof (live_typed _ _ _ Hl) as Ht. pose proof Hl as (Hw & He & _).
  pose proof (live_numbers _ _ _ Hl) as (Hp & Hlim & Hmax & Hma).
  cbn [run_op]. apply twp_call. eapply twp_valid; [exact Hl|]. cbn [negb is_null andb]. eapply twp_the; [exact He|].
  destruct (Entity_IsReadOnly e) eqn:Ero.
  { apply twp_ret, refined_same; [done|]. by rewrite Ero. }
  cbv zeta. rewrite (op_length s e) by lia.
  destruct (room_bounds (view s e) (position e) len (Z.of_nat (length data))) as [Hr1 Hr2]; [lia|lia|].
  assert (buffer_op (Entity_IsReadOnly e) (OWrite data len) (view s e) =
    ((inr (room (view s e) (position e) len (Z.of_nat (length data))), []),
     (put_bytes (view s e) (position e) (take (Z.to_nat (room (view s e) (position e) len (Z.of_nat (length data)))) data))
       <| b_position := position e + room (view s e) (position e) len (Z.of_nat (length data)) |>)) as Hop by (by rewrite Ero).
  set (n := room _ _ _ _) in *. cbn [b_limit view] in Hr2. unfold SIZE_MAX in *.
  destruct (n >? 0) eqn:E; zbool.
  - apply twp_bind, twp_copy_in; [done|done|by apply Z.eqb_neq in Ero|lia|lia|lia|lia| |].
    { destruct (position e <? limit e) eqn:E2; zbool; [rewrite u64_id by lia|]; lia. }
    intros s1 Hwr. cbn [Z.eqb negb]. eapply twp_set; [rewrite (wrote_maps _ _ _ _ _ Hwr); exact He|]. apply twp_ret.
    eapply refined_wrote; [exact Hl|exact Hwr|lia|rewrite take_le_length by lia; lia| | | |].
    + by destruct e; split_and!.
    + change (0 <= position e +₆₄ n <= limit e). rewrite u64_id by lia. lia.
    + done.
    + rewrite Hop. change (position (e <| position := position e +₆₄ n |>)) with (position e +₆₄ n). by rewrite u64_id by lia.
  - assert (n = 0) as En by lia. apply twp_ret, refined_same; [done|]. rewrite Hop, En, Z.add_0_r. done.
Qed.

Lemma refined_WriteTo s id e pos data len :
  live s id e → 0 <= pos → 0 <= len → limit e <= SECUREC_MEM_MAX_LEN →
  twp (run_op id (OWriteTo pos data len)) (refined s id e (OWriteTo pos data len)) s.
Proof.
  intros Hl Hpos Hlen Hb. pose proof (live_typed _ _ _ Hl) as Ht. pose proof Hl as (Hw & He & _).
  pose proof (live_numbers _ _ _ Hl) as (Hp & Hlim & Hmax & Hma).
  cbn [run_op]. apply twp_call. eapply twp_valid; [exact Hl|]. cbn [negb is_null andb orb]. eapply twp_the; [exact He|].
  pose proof (cap_view s e Ht) as Hcap.
  destruct (pos >? capacity e) eqn:E0; zbool.
  { apply twp_ret, refined_same; [done|]. cbn [buffer_op]. rewrite Hcap. by rewrite (proj2 (Z.leb_gt _ _)) by lia. }
  assert (pos <=? capacity e = true) as Hle by (apply Z.leb_le; lia).
  destruct (Entity_IsReadOnly e) eqn:Ero.
  { apply twp_ret, refined_same; [done|]. cbn [buffer_op]. by rewrite Hcap, Hle, Ero. }
  cbv zeta. rewrite (op_length s e) by lia.
  destruct (room_bounds (view s e) pos len (Z.of_nat (length data))) as [Hr1 Hr2]; [lia|lia|].
  assert (buffer_op (Entity_IsReadOnly e) (OWriteTo pos data len) (view s e) =
    ((inr (room (view s e) pos len (Z.of_nat (length data))), []),
     put_bytes (view s e) pos (take (Z.to_nat (room (view s e) pos len (Z.of_nat (length data)))) data))) as Hop
    by (cbn [buffer_op]; by rewrite Hcap, Hle, Ero).
  set (n := room _ _ _ _) in *. cbn [b_limit view] in Hr2. unfold SIZE_MAX in *.
  destruct (n >? 0) eqn:E; zbool.
  - apply twp_bind, twp_copy_in; [done|done|by apply Z.eqb_neq in Ero|lia|lia|lia|lia| |].
    { destruct (pos <? limit e) eqn:E2; zbool; [rewrite u64_id by lia|]; lia. }
    intros s1 Hwr. cbn [Z.eqb negb]. apply twp_ret. pose proof (wrote_maps _ _ _ _ _ Hwr) as Hm.
    replace s1 with (s1 <| maps := <[id := e]> (maps s1) |>).
    + eapply refined_wrote; [exact Hl|exact Hwr|lia|rewrite take_le_length by lia; lia|apply same_map_refl|lia|done|].
      by rewrite Hop.
    + rewrite Hm. rewrite insert_id by done. rewrite <- Hm. by destruct s1.
  - assert (n = 0) as En by lia. apply twp_ret, refined_same; [done|]. rewrite Hop, En. done.
Qed.


(** ** Making, writing out and ending mappings *)

(** Only the number of calls differs. *)
Definition same (s s' : mstate) : Prop :=
  regions s' = regions s ∧ mfiles s' = mfiles s ∧ maps s' = maps s ∧ msyncs s' = msyncs s.
Lemma twp_sys {A} k (f : mstate → (Z + A) * mstate) (Q : Z + A → mstate → Prop) s :
  (∀ e s1, e ≠ 0 → same s s1 → Q (inl e) s1) → (∀ s1, same s s1 → Q (f s1).1 (f s1).2) → twp (sys k f) Q s.
Proof.
  intros Hb Hg. unfold twp, sys. destruct (m_fault k (kcalls s) =? 0) eqn:E; zbool.
  - specialize (Hg (s <| kcalls := S (kcalls s) |>) ltac:(by split_and!)). by destruct (f _).
  - apply Hb; [done|by split_and!].
Qed.

Lemma grows_same s s1 : regions s1 = regions s → mfiles s1 = mfiles s → grows s s1.
Proof.
  intros Hr Hf. split; rewrite ?Hr, ?Hf; [|by eauto]. intros a r Ha. exists (g_cow r). rewrite Ha. by destruct r.
Qed.
Lemma well_typed_same s s1 : regions s1 = regions s → mfiles s1 = mfiles s → maps s1 = maps s → well_typed s → well_typed s1.
Proof.
  intros Hr Hf Hm Hw. apply (well_typed_shape s); [done|by apply grows_same|done|]. rewrite Hr. intros a r Ha.
  exists r. split_and!; [done..|]. by apply (w_region s Hw a).
Qed.

(** A fresh region. *)
Lemma well_typed_map s s1 a r :
  well_typed s → regions s1 = <[a := r]> (regions s) → mfiles s1 = mfiles s → maps s1 = maps s →
  0 < g_len r → (g_shared r = true → g_cow r = ∅) →
  placed page_size (map (λ x, (x.1, g_len x.2)) (map_to_list (regions s))) (g_len r) a →
  regions s !! a = None ∧ well_typed s1.
Proof.
  intros Hw Hr Hf Hm Hlen Hcow (Ha & Hal & Hmax & Hall). pose proof page_size_pos as Hps. rewrite Forall_forall in Hall.
  assert (∀ b q, regions s !! b = Some q → a + g_len r <= b ∨ b + g_len q <= a) as Hsep.
  { intros b q Hq. apply (Hall (b, g_len q)). apply list_elem_of_In, in_map_iff. exists (b, q). split; [done|].
    by apply list_elem_of_In, elem_of_map_to_list. }
  assert (regions s !! a = None) as Hna.
  { destruct (regions s !! a) as [q|] eqn:E; [|done]. destruct (w_region s Hw a q E) as (_ & ? & _). destruct (Hsep a q E); lia. }
  split; [done|]. split.
  - rewrite Hr. intros b q [[<- <-]|[Hne Hq]]%lookup_insert_Some; [split_and!; try done; lia|]. by apply (w_region s Hw b).
  - rewrite Hr. intros b q c p [[<- <-]|[Hb Hq]]%lookup_insert_Some [[<- <-]|[Hc Hp]]%lookup_insert_Some Hne;
      [done|by eapply Hsep| |by eapply (w_apart s Hw)]. destruct (Hsep b q Hq); [by right|by left].
  - rewrite Hm. intros id e He. eapply ok_grows; [|by eapply (w_entity s Hw)]. split; [|rewrite Hf; by eauto].
    intros b q Hq. exists (g_cow q). rewrite Hr, lookup_insert_ne by congruence. rewrite Hq. by destruct q.
  - rewrite Hm. apply (w_own s Hw).
Qed.

(** A file that grew. *)
Definition grown (n : Z) (d : list Z) : list Z := d ++ replicate (Z.to_nat n - length d) 0.
Lemma length_grown n d : Z.of_nat (length (grown n d)) = Z.max (Z.of_nat (length d)) n.
Proof. unfold grown. rewrite length_app, length_replicate. lia. Qed.
Lemma grown_enough n d : n <= Z.of_nat (length d) → grown n d = d.
Proof. intros H. unfold grown. replace (Z.to_nat n - length d)%nat with 0%nat by lia. apply app_nil_r. Qed.

Lemma well_typed_grown s s1 fd f n :
  well_typed s → mfiles s !! fd = Some f → regions s1 = regions s → maps s1 = maps s →
  mfiles s1 = <[fd := f <| k_data := grown n (k_data f) |>]> (mfiles s) → well_typed s1.
Proof.
  intros Hw Hfd Hr Hm Hf. apply (well_typed_shape s); [done| |done|].
  - split; [rewrite Hr; intros a r Ha; exists (g_cow r); rewrite Ha; by destruct r|].
    intros d g Hg. rewrite Hf. destruct (decide (d = fd)) as [->|Hne].
    + rewrite lookup_insert_eq. eexists. split; [done|]. simplify_eq. change (length (k_data f) <= length (grown n (k_data f)))%nat.
      unfold grown. rewrite length_app. lia.
    + rewrite lookup_insert_ne by done. by exists g.
  - rewrite Hr. intros a r Ha. exists r. split_and!; [done..|]. by apply (w_region s Hw a).
Qed.


Lemma contents_file s e f :
  entity_typed s e → g_cow (own_region s e) = ∅ → mfiles s !! fd e = Some f →
  contents s e = take (Z.to_nat (capacity e)) (drop (Z.to_nat (offset e)) (k_data f)).
Proof.
  intros Ht Hcow Hf. pose proof (t_adjust s e Ht) as Hj. destruct (t_file s e Ht) as (g & Hg & Hl).
  assert (g = f) as -> by congruence. apply list_eq. intros i. destruct (decide (Z.of_nat i < capacity e)) as [Hi|Hi].
  - rewrite lookup_contents by lia. unfold seen, byte_at, data_of. rewrite Hcow, lookup_empty, (own_region_fd s e Ht), Hg.
    rewrite lookup_take_lt, lookup_drop by lia.
    replace (Z.to_nat (offset e + Z.of_nat i)) with (Z.to_nat (offset e) + i)%nat by lia.
    destruct (k_data f !! _) eqn:E; [done|]. apply lookup_ge_None in E. lia.
  - rewrite !lookup_ge_None_2; [done|rewrite length_take; lia|rewrite length_contents; lia].
Qed.

Lemma twp_fstat fd (Q : Z + (bool * Z) → mstate → Prop) s :
  (∀ e s1, e ≠ 0 → same s s1 → Q (inl e) s1) →
  (∀ f s1, mfiles s !! fd = Some f → same s s1 → Q (inr (k_reg f, Z.of_nat (length (k_data f)))) s1) → twp (fstat fd) Q s.
Proof.
  intros Hb Hg. apply twp_sys; [done|]. intros s1 Hs. pose proof Hs as (_ & Hf & _). cbn [fst snd]. rewrite Hf.
  destruct (mfiles s !! fd) as [f|] eqn:E; [by eapply Hg|by apply Hb].
Qed.

Lemma twp_ValidateFile fd (Q : Z → mstate → Prop) s :
  (∀ e s1, e ≠ 0 → same s s1 → Q e s1) →
  (∀ f s1, mfiles s !! fd = Some f → k_reg f = true → same s s1 → Q 0 s1) → twp (ValidateFile fd) Q s.
Proof.
  intros Hb Hg. apply twp_bind, twp_fstat; [intros e s1 He Hs; by apply twp_ret, Hb|].
  intros f s1 Hf Hs. apply twp_ret. destruct (k_reg f) eqn:Er; [by eapply Hg|by apply Hb].
Qed.

(** The file is long enough afterwards, or nothing was changed. *)
Lemma twp_ExpandFileIfNeeded fd mode off size f (Q : Z → mstate → Prop) s :
  mfiles s !! fd = Some f → k_reg f = true → 0 <= off + size →
  (∀ e s1, e ≠ 0 → same s s1 → Q e s1) →
  (∀ s1, regions s1 = regions s → maps s1 = maps s → off + size <= INT64_MAX →
     mfiles s1 = <[fd := f <| k_data := grown (off + size) (k_data f) |>]> (mfiles s) → Q 0 s1) →
  twp (ExpandFileIfNeeded fd mode off size) Q s.
Proof.
  intros Hf Hreg H0 Hb Hg. apply twp_bind, twp_fstat; [intros e s1 He Hs; by apply twp_ret, Hb|].
  intros f' s1 Hf' Hs. assert (f' = f) as -> by congruence. clear Hf'.
  destruct (size >? INT64_MAX) eqn:E1; zbool; [by apply twp_ret, Hb|].
  destruct (off >? INT64_MAX - size) eqn:E2; zbool; [by apply twp_ret, Hb|].
  pose proof Hs as (Hr & Hfs & Hm & _). cbv zeta. destruct (off + size <=? Z.of_nat (length (k_data f))) eqn:E3; zbool.
  - apply twp_ret, Hg; [done|done|lia|]. rewrite Hfs, grown_enough by lia. symmetry. apply insert_id. rewrite Hf. by destruct f.
  - apply twp_bind, twp_sys.
    + intros e s2 He (Hr2 & Hf2 & Hm2 & Hc2). apply twp_ret. rewrite Hreg. cbn [orb]. apply Hb; [done|].
      destruct Hs as (_ & _ & _ & Hc). by split_and!; congruence.
    + intros s2 (Hr2 & Hf2 & Hm2 & Hc2). cbn [fst snd]. rewrite Hf2, Hfs, Hf, Hreg.
      destruct (k_write f) eqn:Ew; cbn [negb andb fst snd].
      * apply twp_ret, Hg; [change (regions s2 = regions s); congruence|change (maps s2 = maps s); congruence|lia|].
        match goal with |- mfiles (?x <| mfiles := ?m |>) = _ => change (m = <[fd:=f <| k_data := grown (off + size) (k_data f) |>]> (mfiles s)) end.
        rewrite take_ge by lia. reflexivity.
      * apply twp_ret. apply Hb; [done|]. destruct Hs as (_ & _ & _ & Hc). by split_and!; congruence.
Qed.

Lemma twp_AlignToPage offset size (Q : option PageAlignResult → mstate → Prop) s :
  0 <= offset <= INT64_MAX → 0 < size <= SIZE_MAX →
  (∀ s1, same s s1 → Q None s1) →
  (∀ adj s1, same s s1 → 0 <= adj <= offset → (offset - adj) mod page_size = 0 → size + adj <= SIZE_MAX →
     Q (Some (mkAlign (offset - adj) adj (size + adj))) s1) →
  twp (AlignToPage offset size) Q s.
Proof.
  intros Ho Hs Hb Hg. unfold INT64_MAX, SIZE_MAX in *. apply twp_bind, twp_bind, twp_sys.
  - intros e s1 He Hsame. apply twp_ret. cbn [Z.leb Z.compare]. by apply twp_ret, Hb.
  - intros s1 Hsame. cbn [fst snd]. apply twp_ret. pose proof page_size_pos as Hp.
    rewrite (proj2 (Z.leb_gt _ _)) by lia. cbv zeta. rewrite Z.quot_div_nonneg by lia.
    pose proof (Z.mod_pos_bound offset page_size Hp) as Hmod. pose proof (Z.div_mod offset page_size) as Hdm.
    pose proof (Z.mod_le offset page_size) as Hle.
    set (adj := offset mod page_size) in *.
    assert (offset / page_size * page_size = offset - adj) as -> by lia.
    replace (offset - (offset - adj)) with adj by lia. rewrite (u64_id adj) by lia.
    destruct (size >? SIZE_MAX - adj) eqn:E; unfold SIZE_MAX in E; zbool.
    { apply twp_ret, Hb. exact Hsame. }
    apply twp_ret. rewrite u64_id by lia. apply Hg; [exact Hsame|lia| |lia].
    replace (offset - adj) with (offset / page_size * page_size) by lia. apply Z.mod_mul. lia.
Qed.


(** What a successful [DoMmap] makes: an object of its own over that part of the file,
    which is extended with zeros to contain it. *)
Definition mapped (s : mstate) (d m off size : Z) (id : nat) (s' : mstate) : Prop :=
  ∃ f e, mfiles s !! d = Some f ∧ k_reg f = true ∧ maps s !! id = None ∧ maps s' = <[id := e]> (maps s) ∧
    mfiles s' = <[d := f <| k_data := grown (off + size) (k_data f) |>]> (mfiles s) ∧
    (∀ b, b ≠ rawMapAddr e → regions s' !! b = regions s !! b) ∧
    mode e = m ∧ fd e = d ∧ offset e = off ∧ live s' id e ∧
    view s' e = mkBuffer (take (Z.to_nat size) (drop (Z.to_nat off) (grown (off + size) (k_data f)))) size 0.
(** What a failing one may have done. *)
Definition mmap_failed (s : mstate) (d off size : Z) (s' : mstate) : Prop :=
  well_typed s' ∧ maps s' = maps s ∧
  (mfiles s' = mfiles s ∨
   ∃ f, mfiles s !! d = Some f ∧ mfiles s' = <[d := f <| k_data := grown (off + size) (k_data f) |>]> (mfiles s)).

Lemma mmap_failed_same s d off size s' : well_typed s → same s s' → mmap_failed s d off size s'.
Proof. intros Hw (Hr & Hf & Hm & _). split; [by apply (well_typed_same s)|]. split; [done|by left]. Qed.
Lemma same_trans s1 s2 s3 : same s1 s2 → same s2 s3 → same s1 s3.
Proof. intros (? & ? & ? & ?) (? & ? & ? & ?). by split_and!; etrans. Qed.

Lemma twp_new {A} (f : bool → st mstate A) (Q : A → mstate → Prop) s :
  (∀ b s1, same s s1 → twp (f b) Q s1) → twp (bind alloc f) Q s.
Proof.
  intros H. apply twp_bind, twp_bind, twp_sys; [intros e s1 _ Hs|intros s1 Hs]; by apply twp_ret, H.
Qed.
(** At most the region is gone. *)
Definition freed (a : Z) (s s' : mstate) : Prop :=
  (regions s' = regions s ∨ regions s' = delete a (regions s)) ∧ mfiles s' = mfiles s ∧ maps s' = maps s.
Lemma freed_same a s s' : same s s' → freed a s s'.
Proof. intros (Hr & Hf & Hm & _). split_and!; [by left|done|done]. Qed.
Lemma freed_trans a s1 s2 s3 : freed a s1 s2 → freed a s2 s3 → freed a s1 s3.
Proof.
  intros (Hr & Hf & Hm) (Hr' & Hf' & Hm'). split_and!; [|congruence|congruence].
  destruct Hr as [Hr|Hr], Hr' as [Hr'|Hr']; rewrite Hr', Hr; [by left|by right|by right|right].
  apply map_eq. intros i. destruct (decide (i = a)) as [->|Hne]; [by rewrite !lookup_delete_eq|by rewrite !lookup_delete_ne by congruence].
Qed.
Lemma twp_munmap a n (Q : Z + unit → mstate → Prop) s :
  (∀ e s1, e ≠ 0 → same s s1 → Q (inl e) s1) →
  (∀ s1, regions s1 = delete a (regions s) → mfiles s1 = mfiles s → maps s1 = maps s → Q (inr tt) s1) →
  twp (munmap a n) Q s.
Proof.
  intros Hb Hg. apply twp_sys; [done|]. intros s1 Hs. pose proof Hs as (Hr & Hf & Hm & _).
  destruct (regions s1 !! a) as [r|] eqn:E; [|apply Hg; [|done|done]].
  - destruct (g_len r =? n); [|by apply Hb].
    apply Hg; [change (delete a (regions s1) = delete a (regions s)); by rewrite Hr|done|done].
  - cbn [snd]. rewrite <- Hr. by rewrite delete_id.
Qed.
Lemma twp_Entity_destroy e (Q : unit → mstate → Prop) s :
  (∀ s1, freed (rawMapAddr e) s s1 → Q tt s1) → twp (Entity_destroy e) Q s.
Proof.
  intros HQ. unfold Entity_destroy. destruct (_ && _); [|apply twp_ret, HQ, freed_same; by split_and!].
  apply twp_bind, twp_munmap; [intros x s1 _ Hs; by apply twp_ret, HQ, freed_same|].
  intros s1 Hr Hf Hm. apply twp_ret, HQ. split_and!; [by right|done|done].
Qed.

Lemma twp_Constructor e (Q : Z + nat → mstate → Prop) s :
  (∀ s1, freed (rawMapAddr e) s s1 → Q (inl ENOMEM) s1) →
  (∀ id s1, maps s !! id = None → regions s1 = regions s → mfiles s1 = mfiles s → maps s1 = <[id := e]> (maps s) → Q (inr id) s1) →
  twp (Constructor e) Q s.
Proof.
  intros Hb Hg. apply twp_new. intros [] s1 H1; cbn [negb]; [|by apply twp_ret, Hb, freed_same].
  apply twp_new. intros [] s2 H2; cbn [negb].
  2:{ apply twp_bind, twp_Entity_destroy. intros s3 H3. apply twp_ret, Hb. eapply freed_trans; [|exact H3].
      apply freed_same. by eapply same_trans. }
  destruct (same_trans _ _ _ H1 H2) as (Hr & Hf & Hm & _). unfold twp. cbv zeta. rewrite Hm. apply Hg; [|done|done|done].
  apply not_elem_of_dom, is_fresh.
Qed.

Lemma GetMmapProtFlags_spec m :
  m = READ_ONLY ∨ m = READ_WRITE ∨ m = PRIVATE →
  Z.testbit (GetMmapProtFlags m).1 1 = negb (m =? READ_ONLY) ∧ ((GetMmapProtFlags m).2 =? MAP_SHARED) = negb (m =? PRIVATE).
Proof. by intros [->|[->| ->]]. Qed.

Lemma ValidateMmapParams_ok d m off size :
  ValidateMmapParams d m off size = 0 → 0 <= d ∧ (m = READ_ONLY ∨ m = READ_WRITE ∨ m = PRIVATE) ∧ 0 <= off ∧ 0 < size.
Proof.
  unfold ValidateMmapParams, READ_ONLY, READ_WRITE, PRIVATE, EBADF, EINVAL.
  destruct (d <? 0) eqn:E1; [done|]. destruct ((m <? 0) || (m >? 2)) eqn:E2; [done|].
  destruct (off <? 0) eqn:E3; [done|]. destruct (size <=? 0) eqn:E4; [done|].
  intros _. apply orb_false_elim in E2 as [E2 E5]. zbool. lia.
Qed.

(** A fresh object over a fresh region. *)
Lemma well_typed_new s s1 id e :
  well_typed s → maps s !! id = None → regions s1 = regions s → mfiles s1 = mfiles s → maps s1 = <[id := e]> (maps s) →
  entity_typed s e → isValid e = true →
  (∀ j x, maps s !! j = Some x → isValid x = true → rawMapAddr x ≠ rawMapAddr e) → live s1 id e.
Proof.
  intros Hw Hid Hr Hf Hm Ht Hv Hown. split; [|split; [by rewrite Hm, lookup_insert_eq|done]].
  pose proof (grows_same s s1 Hr Hf) as Hg. split.
  - rewrite Hr. apply (w_region s Hw).
  - rewrite Hr. apply (w_apart s Hw).
  - rewrite Hm. intros j x [[<- <-]|[Hne Hx]]%lookup_insert_Some.
    + unfold entity_ok. rewrite Hv. by eapply typed_grows.
    + eapply ok_grows; [exact Hg|]. by eapply (w_entity s Hw).
  - rewrite Hm. intros i j x y [[<- <-]|[Hi Hx]]%lookup_insert_Some [[<- <-]|[Hj Hy]]%lookup_insert_Some Hne Hvx Hvy;
      [done| |by eapply Hown|by eapply (w_own s Hw i j)]. intros E. by eapply Hown.
Qed.


(** A region that no object has goes. *)
Lemma well_typed_unmap s s1 a :
  well_typed s → regions s1 = delete a (regions s) → mfiles s1 = mfiles s →
  (∀ id e, maps s1 !! id = Some e → maps s !! id = Some e ∧ (isValid e = true → rawMapAddr e ≠ a) ∨ isValid e = false ∧ entity_free e) →
  well_typed s1.
Proof.
  intros Hw Hr Hf Hm. split.
  - rewrite Hr. intros b r [_ Hb]%lookup_delete_Some. by apply (w_region s Hw b).
  - rewrite Hr. intros b r c q [_ Hb]%lookup_delete_Some [_ Hc]%lookup_delete_Some. by apply (w_apart s Hw).
  - intros id e He. destruct (Hm id e He) as [[He' Hne]|[Hv Hfree]]; unfold entity_ok; [|by rewrite Hv].
    pose proof (w_entity s Hw id e He') as Hok. unfold entity_ok in Hok. destruct (isValid e) eqn:Ev; [|done].
    destruct Hok. split; try done; [|by rewrite Hf]. rewrite Hr, lookup_delete_ne by (intros ?; by apply Hne). done.
  - intros i j x y Hx Hy Hne Hvx Hvy.
    destruct (Hm i x Hx) as [[Hx' _]|[Hvx' _]]; [|congruence]. destruct (Hm j y Hy) as [[Hy' _]|[Hvy' _]]; [|congruence].
    by apply (w_own s Hw i j).
Qed.

(** The end of [DoMmap]: the region is there, the object is made. *)
Lemma twp_new_object s s1 a e g (Q : Z + nat → mstate → Prop) :
  well_typed s → mfiles s !! fd e = Some g → offset e + capacity e <= Z.of_nat (length (k_data g)) →
  placed page_size (map (λ x, (x.1, g_len x.2)) (map_to_list (regions s))) (rawCapacity e) a →
  (mode e = READ_ONLY ∨ mode e = READ_WRITE ∨ mode e = PRIVATE) → rawMapAddr e = a → mapAddr e = a + adjustment e →
  0 <= adjustment e <= offset e → rawCapacity e = adjustment e + capacity e → 0 < capacity e → limit e = capacity e →
  position e = 0 → isValid e = true →
  regions s1 = <[a := mkRegion (rawCapacity e) (fd e) (offset e - adjustment e)
    (negb (mode e =? READ_ONLY)) (negb (mode e =? PRIVATE)) ∅]> (regions s) →
  mfiles s1 = mfiles s → maps s1 = maps s →
  (∀ x s', well_typed s' → mfiles s' = mfiles s → maps s' = maps s → Q (inl x) s') →
  (∀ id s', maps s !! id = None → live s' id e → maps s' = <[id := e]> (maps s) → mfiles s' = mfiles s →
    (∀ b, b ≠ a → regions s' !! b = regions s !! b) →
    view s' e = mkBuffer (take (Z.to_nat (capacity e)) (drop (Z.to_nat (offset e)) (k_data g))) (capacity e) 0 → Q (inr id) s') →
  twp (bind (Constructor e) (λ result, match result with
         | inl x => _ ← munmap a (rawCapacity e); sret (inl x)
         | inr id => sret (inr id)
         end)) Q s1.
Proof.
  intros Hw Hg Hlen Hpl Hmode Hraw Haddr Hadj Hcap Hpos Hlim Hp0 Hv Hr1 Hf1 Hm1 Hb HQ.
  destruct (well_typed_map s s1 a _ Hw Hr1 Hf1 Hm1) as [Hna Hw1]; [cbn; lia|done|done|].
  assert (∀ j x, maps s1 !! j = Some x → isValid x = true → rawMapAddr x ≠ a) as Hown.
  { rewrite Hm1. intros j x Hj Hvx Hxa. pose proof (w_entity s Hw j x Hj) as Hok. unfold entity_ok in Hok. rewrite Hvx in Hok.
    destruct (t_region s x Hok) as [c Hc]. rewrite Hxa in Hc. congruence. }
  apply twp_bind, twp_Constructor.
  - rewrite Hraw. intros s2 H2.
    assert (∀ s3, freed a s1 s3 → well_typed s3 ∧ mfiles s3 = mfiles s ∧ maps s3 = maps s) as Hfree.
    { intros s3 ([Hr3|Hr3] & Hf3 & Hm3); (split; [|split; congruence]); [by apply (well_typed_same s1)|].
      apply (well_typed_unmap s1 s3 a); [done|done|done|]. rewrite Hm3. intros j x Hj. left. split; [done|]. by apply (Hown j). }
    assert (∀ x s3, freed a s2 s3 → Q (inl x) s3) as Hq.
    { intros x s3 H3. destruct (Hfree s3 (freed_trans _ _ _ _ H2 H3)) as (? & ? & ?). by apply Hb. }
    apply twp_bind, twp_munmap; [intros x s3 _ H3; by apply twp_ret, Hq, freed_same|].
    intros s3 Hr3 Hf3 Hm3. apply twp_ret, Hq. split_and!; [by right|done|done].
  - intros id s2 Hid Hr2 Hf2 Hm2. apply twp_ret.
    assert (entity_typed s1 e) as Ht.
    { split; rewrite ?Hraw; try done; [lia..| |].
      - exists ∅. by rewrite Hr1, lookup_insert_eq.
      - exists g. by rewrite Hf1. }
    assert (live s2 id e) as Hl by (apply (well_typed_new s1); [done|done|done|done|done|done|done|by rewrite Hraw]).
    apply HQ; [congruence|done|congruence|congruence|intros b Hne; by rewrite Hr2, Hr1, lookup_insert_ne|].
    unfold view. rewrite Hlim, Hp0. f_equal. apply contents_file; [by eapply live_typed| |congruence].
    unfold own_region. by rewrite Hraw, Hr2, Hr1, lookup_insert_eq.
Qed.

Lemma twp_DoMmap d m off size (Q : Z + nat → mstate → Prop) s :
  well_typed s → off <= INT64_MAX → size <= SIZE_MAX →
  (∀ e s', mmap_failed s d off size s' → Q (inl e) s') →
  (∀ id s', mapped s d m off size id s' → Q (inr id) s') →
  twp (DoMmap d m off size) Q s.
Proof.
  intros Hw Hoff Hsize Hb Hg. unfold DoMmap. cbv zeta.
  destruct (ValidateMmapParams d m off size =? 0) eqn:Ev; cbn [negb]; zbool;
    [|apply twp_ret, Hb, mmap_failed_same; [done|by split_and!]].
  apply ValidateMmapParams_ok in Ev as (Hd & Hm & Ho & Hs).
  apply twp_bind, twp_ValidateFile; [|intros f s1 Hf Hreg H1].
  { intros e s1 He Hsame. rewrite (proj2 (Z.eqb_neq _ _) He). by apply twp_ret, Hb, mmap_failed_same. }
  cbn [Z.eqb negb]. apply twp_bind, twp_AlignToPage; [lia|lia| |].
  { intros s2 H2. apply twp_ret, Hb, mmap_failed_same; [done|by eapply same_trans]. }
  intros adj s2 H2 Hadj Hmod Hmax. cbn [alignedOffset a_adjustment adjustedSize].
  pose proof (same_trans _ _ _ H1 H2) as H02. clear H1 H2 s1.
  pose proof H02 as (Hr2 & Hf2 & Hm2 & _).
  apply twp_bind, (twp_ExpandFileIfNeeded _ _ _ _ f); [by rewrite Hf2|done|lia| |].
  { intros e s3 He H3. rewrite (proj2 (Z.eqb_neq _ _) He). apply twp_ret, Hb, mmap_failed_same; [done|by eapply same_trans]. }
  intros s3 Hr3 Hm3 Hfit Hf3. cbn [Z.eqb negb].
  replace (off - adj + (size + adj)) with (off + size) in * by lia. rewrite Hf2 in Hf3. rewrite Hm2 in Hm3. rewrite Hr2 in Hr3.
  assert (well_typed s3) as Hw3 by (by eapply (well_typed_grown s)).
  assert (∀ e s4, same s3 s4 → Q (inl e) s4) as Hfail.
  { intros e s4 (H1 & H2 & H3 & _). apply Hb. split; [by apply (well_typed_same s3)|]. split; [congruence|]. right.
    exists f. by rewrite H2. }
  pose proof (GetMmapProtFlags_spec m Hm) as [Hprot Hflags]. destruct (GetMmapProtFlags m) as [prot flags]. cbn [fst snd] in *.
  apply twp_bind, twp_sys; [intros e s4 _ H4; by apply twp_ret, Hfail|]. intros s4 H4.
  pose proof H4 as (Hr4 & Hf4 & Hm4 & _). rewrite Hf4, Hf3, lookup_insert_eq. cbv zeta. rewrite Hprot, Hflags.
  destruct (_ || _); [by apply twp_ret, Hfail|]. destruct (_ || _); [by apply twp_ret, Hfail|].
  rewrite Hr4. destruct (place _ _) as [a|] eqn:Ea; [|by apply twp_ret, Hfail].
  apply place_spec in Ea; [|lia]. cbn [fst snd].
  apply (twp_new_object s3 _ a (mkEntity (a + adj) a size (size + adj) adj size 0 m d off true)
    (f <| k_data := grown (off + size) (k_data f) |>)); cbn [mode fd offset capacity rawCapacity adjustment limit position isValid
    rawMapAddr mapAddr]; try done; try lia.
  - by rewrite Hf3, lookup_insert_eq.
  - change (off + size <= Z.of_nat (length (grown (off + size) (k_data f)))). rewrite length_grown. lia.
  - intros x s' Hw' Hf' Hm'. apply Hb. split; [done|]. split; [congruence|]. right. exists f. by rewrite Hf'.
  - intros id s' Hid Hl Hm' Hf' Hr' Hview. apply Hg. exists f, (mkEntity (a + adj) a size (size + adj) adj size 0 m d off true).
    cbn [mode fd offset rawMapAddr]. rewrite <- Hm3, <- Hr3. split_and!; try done. congruence.
Qed.


(** ** No operation goes wrong *)

Lemma twp_free {A} s id (f : bool → st mstate A) (Q : A → mstate → Prop) :
  (∀ e, maps s !! id = Some e → isValid e = false) → twp (f false) Q s → twp (bind (CheckValid id) f) Q s.
Proof.
  intros Hf HQ. apply twp_bind, twp_bind. unfold twp at 1, get_entity. destruct (maps s !! id) as [e|] eqn:E; apply twp_ret;
    [|exact HQ]. unfold Entity_CheckValid. by rewrite (Hf e).
Qed.
Lemma live_or_free s id : well_typed s → (∃ e, live s id e) ∨ (∀ e, maps s !! id = Some e → isValid e = false).
Proof.
  intros Hw. destruct (maps s !! id) as [e|] eqn:E; [|by right]. destruct (isValid e) eqn:Ev; [left; by exists e|right].
  intros e' He. by simplify_eq.
Qed.

(** [memcpy_s] refuses too large a room. *)
Lemma twp_copy_out_big buf bufLen src n (Q : Z * buffer_t → mstate → Prop) s :
  SECUREC_MEM_MAX_LEN < bufLen → (∀ ret, ret ≠ 0 → Q (ret, buf) s) → twp (copy_out buf bufLen src n) Q s.
Proof.
  intros Hb HQ. unfold copy_out. pose proof (memcpy_s_big bufLen n Hb) as He. rewrite (proj2 (Z.eqb_neq _ _) He).
  by apply twp_ret, HQ.
Qed.
Lemma twp_copy_in_big dest destSize data n (Q : Z → mstate → Prop) s :
  SECUREC_MEM_MAX_LEN < destSize → (∀ ret, ret ≠ 0 → Q ret s) → twp (copy_in dest destSize data n) Q s.
Proof.
  intros Hb HQ. unfold copy_in. pose proof (memcpy_s_big destSize n Hb) as He. rewrite (proj2 (Z.eqb_neq _ _) He).
  by apply twp_ret, HQ.
Qed.

Lemma refined_safe {m : st mstate mres} s id e o : twp m (refined s id e o) s → twp m (λ _ s', well_typed s') s.
Proof. intros H. eapply twp_mono; [exact H|]. by intros r s' (_ & e' & _ & _ & _ & Hw). Qed.

Lemma safe_Read s id buf len :
  well_typed s → 0 <= len → twp (run_op id (ORead buf len)) (λ _ s', well_typed s') s.
Proof.
  intros Hw Hlen. destruct (live_or_free s id Hw) as [[e Hl]|Hf].
  - destruct (Z_le_gt_dec (Z.of_nat (length buf)) SECUREC_MEM_MAX_LEN) as [Hb|Hb].
    + eapply refined_safe. by apply refined_Read.
    + pose proof Hl as (_ & He & _). cbn [run_op]. apply twp_call. eapply twp_valid; [exact Hl|]. cbn [negb is_null andb].
      eapply twp_the; [exact He|]. cbv zeta. case_match; [|by apply twp_ret]. apply twp_bind, twp_copy_out_big; [lia|].
      intros ret Hret. rewrite (proj2 (Z.eqb_neq _ _) Hret). by apply twp_ret.
  - cbn [run_op]. apply twp_call, twp_free; [done|]. by apply twp_ret.
Qed.
Lemma safe_ReadFrom s id pos buf len :
  well_typed s → 0 <= pos → 0 <= len → twp (run_op id (OReadFrom pos buf len)) (λ _ s', well_typed s') s.
Proof.
  intros Hw Hpos Hlen. destruct (live_or_free s id Hw) as [[e Hl]|Hf].
  - destruct (Z_le_gt_dec (Z.of_nat (length buf)) SECUREC_MEM_MAX_LEN) as [Hb|Hb].
    + eapply refined_safe. by apply refined_ReadFrom.
    + pose proof Hl as (_ & He & _). cbn [run_op]. apply twp_call. eapply twp_valid; [exact Hl|]. cbn [negb is_null andb orb].
      eapply twp_the; [exact He|]. case_match; [by apply twp_ret|]. cbv zeta. case_match; [|by apply twp_ret].
      apply twp_bind, twp_copy_out_big; [lia|]. intros ret Hret. rewrite (proj2 (Z.eqb_neq _ _) Hret). by apply twp_ret.
  - cbn [run_op]. apply twp_call, twp_free; [done|]. by apply twp_ret.
Qed.

(** A copy into the mapping leaves a well-typed state, whatever [memcpy_s] says. *)
Lemma safe_copy_in s id e data destSize pos n (Q : Z → mstate → Prop) :
  live s id e → mode e ≠ READ_ONLY → 0 <= pos → 0 < n → pos + n <= capacity e → n <= Z.of_nat (length data) → n <= destSize →
  (∀ ret s', well_typed s' → maps s' = maps s → Q ret s') →
  twp (copy_in (mapAddr e + pos) destSize (Some data) n) Q s.
Proof.
  intros Hl Hro Hp Hn Hc Hd Hds HQ. pose proof (live_typed _ _ _ Hl) as Ht. pose proof Hl as (Hw & _).
  destruct (Z_le_gt_dec destSize SECUREC_MEM_MAX_LEN) as [Hb|Hb].
  - apply twp_copy_in; [done|done|done|lia|lia|lia|lia|lia|]. intros s' Hwr.
    apply HQ; [by eapply wrote_well_typed|by eapply wrote_maps].
  - apply twp_copy_in_big; [lia|]. intros ret _. by apply HQ.
Qed.

Lemma safe_Write s id data len :
  well_typed s → 0 <= len → twp (run_op id (OWrite data len)) (λ _ s', well_typed s') s.
Proof.
  intros Hw Hlen. destruct (live_or_free s id Hw) as [[e Hl]|Hf].
  2:{ cbn [run_op]. apply twp_call, twp_free; [done|]. by apply twp_ret. }
  pose proof Hl as (_ & He & Hv). pose proof (live_numbers _ _ _ Hl) as (Hp & Hlim & Hmax & Hma). cbn [run_op].
  apply twp_call. eapply twp_valid; [exact Hl|]. cbn [negb is_null andb]. eapply twp_the; [exact He|].
  destruct (Entity_IsReadOnly e) eqn:Ero; [by apply twp_ret|]. cbv zeta. rewrite (op_length s e) by lia.
  destruct (room_bounds (view s e) (position e) len (Z.of_nat (length data))) as [Hr1 Hr2]; [lia|lia|].
  set (n := room _ _ _ _) in *. cbn [b_limit view] in Hr2. unfold SIZE_MAX in *.
  destruct (n >? 0) eqn:E; zbool; [|by apply twp_ret].
  apply twp_bind. eapply safe_copy_in; [exact Hl|by apply Z.eqb_neq in Ero|lia|lia|lia|lia| |].
  { destruct (position e <? limit e) eqn:E2; zbool; [rewrite u64_id by lia|]; lia. }
  intros ret s1 Hw1 Hm1. destruct (negb _); [by apply twp_ret|].
  eapply twp_set; [rewrite Hm1; exact He|]. apply twp_ret. rewrite Hm1, <- Hm1.
  apply (well_typed_moved s1 id e); [done|by rewrite Hm1|done|by destruct e; split_and!| |exact Hlim].
  change (0 <= position e +₆₄ n <= limit e). rewrite u64_id by lia. lia.
Qed.
Lemma safe_WriteTo s id pos data len :
  well_typed s → 0 <= pos → 0 <= len → twp (run_op id (OWriteTo pos data len)) (λ _ s', well_typed s') s.
Proof.
  intros Hw Hpos Hlen. destruct (live_or_free s id Hw) as [[e Hl]|Hf].
  2:{ cbn [run_op]. apply twp_call, twp_free; [done|]. by apply twp_ret. }
  pose proof Hl as (_ & He & Hv). pose proof (live_numbers _ _ _ Hl) as (Hp & Hlim & Hmax & Hma). cbn [run_op].
  apply twp_call. eapply twp_valid; [exact Hl|]. cbn [negb is_null andb orb]. eapply twp_the; [exact He|].
  destruct (pos >? capacity e); [by apply twp_ret|].
  destruct (Entity_IsReadOnly e) eqn:Ero; [by apply twp_ret|]. cbv zeta. rewrite (op_length s e) by lia.
  destruct (room_bounds (view s e) pos len (Z.of_nat (length data))) as [Hr1 Hr2]; [lia|lia|].
  set (n := room _ _ _ _) in *. cbn [b_limit view] in Hr2. unfold SIZE_MAX in *.
  destruct (n >? 0) eqn:E; zbool; [|by apply twp_ret].
  apply twp_bind. eapply safe_copy_in; [exact Hl|by apply Z.eqb_neq in Ero|lia|lia|lia|lia| |].
  { destruct (pos <? limit e) eqn:E2; zbool; [rewrite u64_id by lia|]; lia. }
  intros ret s1 Hw1 Hm1. destruct (negb _); by apply twp_ret.
Qed.


(** *** Writing out *)

Lemma twp_sys_calm {A} k (f : mstate → (Z + A) * mstate) (Q : Z + A → mstate → Prop) s :
  (∀ n, m_fault k n = 0) → (∀ s1, same s s1 → Q (f s1).1 (f s1).2) → twp (sys k f) Q s.
Proof.
  intros Hk Hg. unfold twp, sys. rewrite Hk. cbn [Z.eqb].
  specialize (Hg (s <| kcalls := S (kcalls s) |>) ltac:(by split_and!)). by destruct (f _).
Qed.

Lemma region_at_within s b r a n :
  regions s !! b = Some r → b <= a → a + n <= b + g_len r → is_Some (region_at s a n).
Proof.
  intros Hr Ha He. unfold region_at. destruct (List.find _ _) as [x|] eqn:E; [by eexists|].
  eapply find_none in E; [|apply list_elem_of_In, elem_of_map_to_list; exact Hr]. cbn in E.
  apply andb_false_iff in E as [?%Z.leb_gt|?%Z.leb_gt]; lia.
Qed.

Lemma page_down_spec x : 0 <= x → 0 <= page_down x <= x ∧ page_down x mod page_size = 0.
Proof.
  intros Hx. unfold page_down. pose proof page_size_pos as Hp. pose proof (Z.div_mod x page_size).
  pose proof (Z.mod_pos_bound x page_size Hp). split; [|apply Z.mod_mul; lia].
  assert (0 <= x / page_size) by (apply Z.div_pos; lia). nia.
Qed.

Lemma page_up_spec x : 0 <= x → x <= page_up x < x + page_size ∧ page_up x mod page_size = 0.
Proof.
  intros Hx. unfold page_up, page_down. pose proof page_size_pos as Hp. pose proof (Z.div_mod (x + page_size - 1) page_size).
  pose proof (Z.mod_pos_bound (x + page_size - 1) page_size Hp). split; [lia|apply Z.mod_mul; lia].
Qed.
(** Between page boundaries there is room for whole pages. *)
Lemma page_up_fits a b n : a mod page_size = 0 → b mod page_size = 0 → a + n <= b → a + page_up n <= b.
Proof.
  intros Ha Hb Hn. pose proof page_size_pos as Hp. unfold page_up, page_down.
  apply Z.mod_divide in Ha as [j ->]; [|lia]. apply Z.mod_divide in Hb as [k ->]; [|lia].
  assert ((n + page_size - 1) / page_size < k - j + 1) as H by (apply Z.div_lt_upper_bound; nia). nia.
Qed.

(** The region that has a page is the only one. *)
Lemma vma_at_own s s1 b r a :
  well_typed s → regions s1 = regions s → regions s !! b = Some r → b <= a < b + page_up (g_len r) →
  vma_at s1 a = Some (b, r).
Proof.
  intros Hw Hr1 Hr Ha. unfold vma_at. rewrite Hr1. destruct (List.find _ _) as [[b' r']|] eqn:E.
  - apply find_some in E as [Hin%list_elem_of_In%elem_of_map_to_list Hc]. cbn in Hc.
    apply andb_prop in Hc as [H1%Z.leb_le H2%Z.ltb_lt]. destruct (decide (b' = b)) as [->|Hne]; [by simplify_eq|].
    destruct (w_region s Hw _ _ Hr) as (_ & _ & _ & _ & Hb & _), (w_region s Hw _ _ Hin) as (_ & _ & _ & _ & Hb' & _).
    destruct (w_apart s Hw b' r' b r Hin Hr Hne) as [H|H]; apply page_up_fits in H; try done; lia.
  - exfalso. eapply find_none in E; [|apply list_elem_of_In, elem_of_map_to_list; exact Hr]. cbn in E.
    apply andb_false_iff in E as [?%Z.leb_gt|?%Z.ltb_ge]; lia.
Qed.

(** The kernel writes a range of a region out. *)
Lemma twp_msync_in s b r a n (Q : Z + unit → mstate → Prop) :
  (∀ k, m_fault K_msync k = 0) → well_typed s → regions s !! b = Some r →
  b <= a → a mod page_size = 0 → 0 <= n → a + n <= b + g_len r →
  (∀ s', msyncs s' = msyncs s ++ [(a, page_up n)] → Q (inr tt) s') → twp (msync a n) Q s.
Proof.
  intros Hk Hw Hr Ha Hpage H0 Hn HQ. apply twp_sys_calm; [done|]. intros s1 (Hr1 & _ & _ & Hm1). cbv zeta.
  destruct (w_region s Hw _ _ Hr) as (Hb & Hlen & _ & _ & Hbp & Hmax). pose proof page_size_pos as Hp.
  destruct (page_up_spec n H0) as [Hup _], (page_up_spec (g_len r)) as [Hur Hum]; [lia|]. unfold SIZE_MAX in Hmax.
  assert (msync_pages n = page_up n) as ->.
  { unfold msync_pages, page_up. rewrite u64_id by lia. f_equal. lia. }
  rewrite Hpage. cbn [negb Z.eqb]. rewrite (u64_id (a + page_up n)) by lia. rewrite (proj2 (Z.ltb_ge _ _)) by lia.
  assert (Q (inr tt) (s1 <| msyncs := msyncs s1 ++ [(a, page_up n)] |>)) as HQ1.
  { apply HQ. change (msyncs s1 ++ [(a, page_up n)] = msyncs s ++ [(a, page_up n)]). by rewrite Hm1. }
  destruct (Z.eqb_spec (a + page_up n) a) as [He|He]; [exact HQ1|].
  assert (a + page_up n <= b + page_up (g_len r)) as Hend.
  { apply page_up_fits; [done| |lia]. rewrite Z.add_mod, Hbp, Hum by lia. apply Z.mod_0_l. lia. }
  cbn [mapped_to]. rewrite (vma_at_own s (s1 <| msyncs := msyncs s1 ++ [(a, page_up n)] |>) b r a Hw Hr1 Hr) by lia. rewrite (proj2 (Z.leb_le _ _)) by lia. exact HQ1.
Qed.
(** A length that is rounded to nothing. *)
Lemma twp_msync_none s a n (Q : Z + unit → mstate → Prop) :
  (∀ k, m_fault K_msync k = 0) → a mod page_size = 0 → 0 <= a < 2 ^ 64 → 2 ^ 64 - page_size < n < 2 ^ 64 → page_size <= 2 ^ 64 →
  (∀ s', msyncs s' = msyncs s ++ [(a, 0)] → Q (inr tt) s') → twp (msync a n) Q s.
Proof.
  intros Hk Hpage Ha Hn Hsize HQ. apply twp_sys_calm; [done|]. intros s1 (_ & _ & _ & Hm1). cbv zeta.
  pose proof page_size_pos as Hp.
  assert (msync_pages n = 0) as ->.
  { unfold msync_pages, page_down. assert (u64 (n + (page_size - 1)) = n + (page_size - 1) - 2 ^ 64) as ->.
    { unfold u64. symmetry. apply (Z.mod_unique _ _ 1); lia. }
    rewrite Z.div_small by lia. done. }
  rewrite Hpage, Z.add_0_r. cbn [negb Z.eqb]. rewrite (u64_id a) by lia. rewrite Z.ltb_irrefl, Z.eqb_refl.
  apply HQ. change (msyncs s1 ++ [(a, 0)] = msyncs s ++ [(a, 0)]). by rewrite Hm1.
Qed.
(** A range whose end wraps around. *)
Lemma twp_msync_out s a n (Q : Z + unit → mstate → Prop) :
  (∀ k, m_fault K_msync k = 0) → a mod page_size = 0 → 0 <= a < 2 ^ 64 → 0 <= n <= 2 ^ 64 - page_size →
  2 ^ 64 <= a + page_up n → (∀ s', Q (inl ENOMEM) s') → twp (msync a n) Q s.
Proof.
  intros Hk Hpage Ha Hn Hend HQ. apply twp_sys_calm; [done|]. intros s1 _. cbv zeta. pose proof page_size_pos as Hp.
  destruct (page_up_spec n) as [Hup _]; [lia|].
  assert (msync_pages n = page_up n) as ->.
  { unfold msync_pages, page_up. rewrite u64_id by lia. f_equal. lia. }
  assert (page_up n < 2 ^ 64) by lia.
  rewrite Hpage. cbn [negb Z.eqb].
  assert (u64 (a + page_up n) = a + page_up n - 2 ^ 64) as ->.
  { unfold u64. symmetry. apply (Z.mod_unique _ _ 1); lia. }
  rewrite (proj2 (Z.ltb_lt _ _)) by lia. apply HQ.
Qed.

(** Lengths so near the end of [size_t] that the sum at the check against the capacity wraps
    around and the kernel rounds them up to nothing. *)
Definition rounds_to_nothing (e : FileMappingEntity) (off len : Z) : bool :=
  let rawOffset := adjustment e + off in
  let extra := rawOffset - page_down rawOffset in
  (page_size <=? rawOffset) && (rawOffset <=? rawCapacity e) &&
  (2 ^ 64 - page_size <? len + extra) && (len + extra <? 2 ^ 64).

(** What [Msync] makes of a range. *)
Definition msync_post (s : mstate) (e : FileMappingEntity) (off len : Z) (r : Z + unit) (s' : mstate) : Prop :=
  if off + len <=? capacity e then
    r = inr tt ∧ ∃ a n, msyncs s' = msyncs s ++ [(a, n)] ∧
      (a - rawMapAddr e) mod page_size = 0 ∧ n mod page_size = 0 ∧ rawMapAddr e <= a <= mapAddr e + off ∧
      mapAddr e + off + len <= a + n < mapAddr e + off + len + page_size ∧
      a + n <= rawMapAddr e + page_up (rawCapacity e)
  else if rounds_to_nothing e off len then r = inr tt ∧ ∃ a, msyncs s' = msyncs s ++ [(a, 0)]
  else ∃ err, r = inl err.

Lemma msync_post_error s e off len err s' :
  capacity e < off + len → rounds_to_nothing e off len = false → msync_post s e off len (inl err) s'.
Proof. intros H1 H2. unfold msync_post. rewrite (proj2 (Z.leb_gt _ _)), H2 by lia. by eexists. Qed.

Lemma rounds_far e off len : rawCapacity e < adjustment e + off → rounds_to_nothing e off len = false.
Proof. intros H. unfold rounds_to_nothing. rewrite (proj2 (Z.leb_gt _ (rawCapacity e))) by lia. by rewrite andb_false_r. Qed.
Lemma rounds_wraps e off len :
  0 <= adjustment e + off → page_down (adjustment e + off) + (len + (adjustment e + off - page_down (adjustment e + off))) < 2 ^ 64 →
  rounds_to_nothing e off len = false.
Proof.
  intros H0 H. apply not_true_iff_false. unfold rounds_to_nothing. intros Hr. zbool.
  destruct (page_down_spec (adjustment e + off) H0) as [Hpd Hpm]. pose proof page_size_pos as Hp.
  assert (page_size <= page_down (adjustment e + off)); [|lia].
  unfold page_down in *. assert (1 <= (adjustment e + off) / page_size) by (apply Z.div_le_lower_bound; lia). nia.
Qed.

(** The call of the kernel, for an offset and a length that pass the checks. *)
Lemma msync_call s s1 id e off len :
  (∀ k, m_fault K_msync k = 0) → live s id e → 0 <= off → 0 <= len <= SIZE_MAX → msyncs s1 = msyncs s → regions s1 = regions s →
  well_typed s1 → let rawOffset := adjustment e + off in let al := page_down rawOffset in let n := len + (rawOffset - al) in
  rawOffset <= rawCapacity e → n < 2 ^ 64 → u64 (al + n) <= rawCapacity e →
  twp (msync (rawMapAddr e + al) n) (λ r s', msync_post s e off len r s') s1.
Proof.
  intros Hk Hl Ho Hlen Hm Hr1 Hw1 rawOffset al n H1 H2 H3. pose proof (live_typed _ _ _ Hl) as Ht. pose proof Hl as (Hw & He & _).
  pose proof (live_numbers _ _ _ Hl) as (_ & _ & Hmax & Hma). pose proof (t_adjust s e Ht) as Hadj.
  pose proof (t_raw s e Ht) as Hraw. pose proof (t_addr s e Ht) as Haddr. destruct (t_region s e Ht) as [c Hr].
  pose proof (t_capacity s e Ht) as Hcap. rewrite <- Hr1 in Hr. pose proof page_size_pos as Hps.
  destruct (w_region s1 Hw1 _ _ Hr) as (Hpos & Hg & _ & _ & Hbp & Hgm). cbn in Hg, Hgm. unfold SIZE_MAX in *.
  destruct (page_down_spec rawOffset) as [Hpd Hpm]; [lia|]. fold al in Hpd, Hpm.
  assert ((rawMapAddr e + al) mod page_size = 0) as Hap.
  { rewrite Z.add_mod, Hbp, Hpm by lia. apply Z.mod_0_l. lia. }
  destruct (Z_lt_le_dec (al + n) (2 ^ 64)) as [Hlt|Hge].
  - rewrite u64_id in H3 by lia. apply (twp_msync_in s1 (rawMapAddr e) _ _ _ _ Hk Hw1 Hr); [lia|done|lia|cbn; lia|].
    intros s' Hs'. destruct (page_up_spec n) as [Hup Hun]; [lia|]. destruct (page_up_spec (rawCapacity e)) as [Hur Hum]; [lia|].
    unfold msync_post. rewrite (proj2 (Z.leb_le _ _)) by lia. split; [done|]. exists (rawMapAddr e + al), (page_up n).
    rewrite <- Hm. replace (rawMapAddr e + al - rawMapAddr e) with al by lia. split_and!; try done; try lia.
    pose proof (page_up_fits al (page_up (rawCapacity e)) n Hpm Hum). lia.
  - assert (page_size <= al) as Hal.
    { apply Z.mod_divide in Hpm as [j Hj]; [|lia]. rewrite Hj in *. assert (j ≠ 0) by (intros ->; lia). nia. }
    destruct (Z_lt_le_dec (2 ^ 64 - page_size) n) as [Hn|Hn].
    + apply twp_msync_none; [done|done|lia|lia|lia|]. intros s' Hs'. unfold msync_post, rounds_to_nothing.
      fold rawOffset. fold al. fold n. rewrite (proj2 (Z.leb_gt _ _)) by lia.
      rewrite !(proj2 (Z.leb_le _ _)), !(proj2 (Z.ltb_lt _ _)) by lia. cbn [andb]. split; [done|]. exists (rawMapAddr e + al). by rewrite <- Hm.
    + destruct (page_up_spec n) as [Hup _]; [lia|]. apply twp_msync_out; [done|done|lia|lia|lia|].
      intros s'. apply msync_post_error; [lia|]. unfold rounds_to_nothing. fold rawOffset. fold al. fold n.
      rewrite (proj2 (Z.ltb_ge _ _) Hn). by rewrite andb_false_r.
Qed.

(** C25: while the kernel does not fail, [Msync] of a range inside the mapping succeeds, and
    the kernel writes out whole pages of the mapping: they begin at or before the range and
    end behind it, by less than a page.  Other ranges are refused, but for those of a length
    so near the end of [size_t] that the sum which is compared with the capacity wraps around
    and the kernel rounds the length to nothing: for these [Msync] succeeds and nothing is
    written. *)
Theorem msync_exact (s : mstate) (id : nat) (e : FileMappingEntity) (off len : Z) :
  (∀ k, m_fault K_sysconf k = 0) → (∀ k, m_fault K_msync k = 0) → live s id e →
  0 <= off <= SIZE_MAX → 0 <= len <= SIZE_MAX →
  ∃ r s', Msync id off len s = Some (r, s') ∧ msync_post s e off len r s'.
Proof.
  intros Hk1 Hk2 Hl Ho Hlen. pose proof (live_typed _ _ _ Hl) as Ht. pose proof Hl as (Hw & He & _).
  pose proof (live_numbers _ _ _ Hl) as (_ & _ & Hmax & Hma). pose proof (t_adjust s e Ht) as Hadj.
  pose proof (t_addr s e Ht) as Haddr. pose proof (t_raw s e Ht) as Hraw. pose proof (t_capacity s e Ht) as Hcap. unfold SIZE_MAX in *. destruct (t_region s e Ht) as [c Hr].
  destruct (w_region s Hw _ _ Hr) as (Hpos & _).
  apply twp_elim. eapply twp_valid; [exact Hl|]. cbn [negb]. eapply twp_the; [exact He|]. cbv zeta.
  destruct (Z_lt_le_dec (adjustment e + off) (2 ^ 64)) as [Hlt|Hge].
  2:{ assert (u64 (adjustment e + off) = adjustment e + off - 2 ^ 64) as ->.
      { unfold u64. symmetry. apply (Z.mod_unique _ _ 1); lia. }
      rewrite (proj2 (Z.ltb_lt _ _)) by lia. apply twp_ret, msync_post_error; [lia|]. apply rounds_far. lia. }
  rewrite (u64_id (adjustment e + off)) by lia. rewrite (proj2 (Z.ltb_ge _ _)) by lia.
  destruct (adjustment e + off >? rawCapacity e) eqn:E1; zbool.
  { apply twp_ret, msync_post_error; [lia|]. apply rounds_far. lia. }
  apply twp_bind, twp_bind, twp_sys_calm; [done|]. intros s1 (Hr1 & Hf1 & Hm1 & Hs1). cbn [fst snd]. apply twp_ret.
  pose proof page_size_pos as Hpg. rewrite (proj2 (Z.leb_gt _ _)) by lia. change (?x / page_size * page_size) with (page_down x).
  destruct (page_down_spec (adjustment e + off)) as [Hpd Hpm]; [lia|].
  rewrite (u64_id (page_down _)), (u64_id (adjustment e + off - page_down _)) by lia.
  pose proof (msync_call s s1 id e off len) as Hcall. cbv zeta in Hcall. unfold SIZE_MAX in Hcall.
  set (al := page_down _) in *. set (extra := adjustment e + off - al) in *.
  destruct (Z_lt_le_dec (len + extra) (2 ^ 64)) as [Hlt2|Hge2].
  2:{ assert (u64 (len + extra) = len + extra - 2 ^ 64) as ->.
      { unfold u64. symmetry. apply (Z.mod_unique _ _ 1); lia. }
      rewrite (proj2 (Z.ltb_lt _ _)) by lia. apply twp_ret, msync_post_error; [lia|].
      unfold rounds_to_nothing. fold al. fold extra. rewrite (proj2 (Z.ltb_ge (len + extra) _)) by lia. by rewrite andb_false_r. }
  rewrite (u64_id (len + extra)) by lia. rewrite (proj2 (Z.ltb_ge _ _)) by lia.
  destruct (_ >? _) eqn:E2; zbool.
  - apply twp_ret. destruct (Z_lt_le_dec (al + (len + extra)) (2 ^ 64)) as [Hlt3|Hge3].
    + rewrite u64_id in E2 by lia. apply msync_post_error; [lia|]. apply rounds_wraps; [lia|done].
    + assert (u64 (al + (len + extra)) = al + (len + extra) - 2 ^ 64) as Hu; [|lia].
      unfold u64. symmetry. apply (Z.mod_unique _ _ 1); lia.
  - apply Hcall; try done; try lia. by apply (well_typed_same s).
Qed.

Lemma safe_Msync s id off len : well_typed s → twp (run_op id (OMsync off len)) (λ _ s', well_typed s') s.
Proof.
  intros Hw. cbn [run_op]. apply twp_call. destruct (live_or_free s id Hw) as [[e Hl]|Hf].
  2:{ apply twp_free; [done|]. by apply twp_ret. }
  pose proof Hl as (_ & He & _). eapply twp_valid; [exact Hl|]. cbn [negb]. eapply twp_the; [exact He|]. cbv zeta.
  case_match; [by apply twp_ret|]. case_match; [by apply twp_ret|].
  assert (∀ s1 : mstate, same s s1 → well_typed s1) as Hsame.
  { intros s1 (Hr & Hf & Hm & _). by apply (well_typed_same s). }
  apply twp_bind, twp_bind, twp_sys; [intros x s1 _ H1; apply twp_ret, twp_ret; by apply Hsame|].
  intros s1 H1. cbn [fst snd]. apply twp_ret. pose proof (Hsame s1 H1) as Hw1.
  case_match; [by apply twp_ret|]. case_match; [by apply twp_ret|]. case_match; [by apply twp_ret|].
  apply twp_sys; [intros x s2 _ (Hr & Hf & Hm & _); by apply (well_typed_same s1)|].
  intros s2 (Hr & Hf & Hm & _). cbv zeta. repeat case_match; by apply (well_typed_same s1).
Qed.

(** An object whose region is taken back. *)
Lemma well_typed_gone s s1 id e m :
  live s id e → regions s1 = delete (rawMapAddr e) (regions s) → mfiles s1 = mfiles s →
  (m = delete id (maps s) ∨ m = <[id := unmapped e]> (maps s)) → maps s1 = m → well_typed s1.
Proof.
  intros (Hw & He & Hv) Hr Hf Hm Hms. apply (well_typed_unmap s s1 (rawMapAddr e)); [done|done|done|].
  intros j x Hj. rewrite Hms in Hj.
  assert (∀ y, j ≠ id → maps s !! j = Some y → isValid y = true → rawMapAddr y ≠ rawMapAddr e) as Hown.
  { intros y Hne Hy Hvy. by apply (w_own s Hw j id). }
  destruct Hm as [->| ->].
  - apply lookup_delete_Some in Hj as [Hne Hj]. left. split; [done|]. by apply Hown.
  - apply lookup_insert_Some in Hj as [[<- <-]|[Hne Hj]]; [by right|]. left. split; [done|]. by apply Hown.
Qed.

Lemma live_raw s id e : live s id e → rawMapAddr e =? 0 = false.
Proof.
  intros Hl. pose proof (live_typed _ _ _ Hl) as Ht. destruct Hl as (Hw & _). destruct (t_region s e Ht) as [c Hr].
  destruct (w_region s Hw _ _ Hr). apply Z.eqb_neq. lia.
Qed.

Lemma safe_Unmap s id : well_typed s → twp (run_op id OUnmap) (λ _ s', well_typed s') s.
Proof.
  intros Hw. cbn [run_op]. apply twp_call. apply twp_bind. unfold twp at 1, get_entity.
  destruct (maps s !! id) as [e|] eqn:He; [|by apply twp_ret]. destruct (isValid e) eqn:Hv; [|by apply twp_ret].
  assert (live s id e) as Hl by done. rewrite (live_raw _ _ _ Hl). cbn [negb orb]. apply twp_bind, twp_munmap.
  - intros x s1 _ (Hr & Hf & Hm & _). apply twp_ret. by apply (well_typed_same s).
  - intros s1 Hr Hf Hm. eapply twp_set; [by rewrite Hm|]. apply twp_ret.
    eapply (well_typed_gone s _ id e); [done|exact Hr|exact Hf|right; done|].
    change (<[id := unmapped e]> (maps s1) = <[id := unmapped e]> (maps s)). by rewrite Hm.
Qed.

(** An object whose region stays when [munmap] fails in the destructor. *)
Lemma well_typed_drop s s1 id :
  well_typed s → regions s1 = regions s → mfiles s1 = mfiles s → maps s1 = delete id (maps s) → well_typed s1.
Proof.
  intros Hw Hr Hf Hm. split; rewrite ?Hr, ?Hm.
  - apply (w_region s Hw).
  - apply (w_apart s Hw).
  - intros j x [_ Hj]%lookup_delete_Some. eapply ok_grows; [by apply grows_same|]. by eapply (w_entity s Hw).
  - intros i j x y [_ Hi]%lookup_delete_Some [_ Hj]%lookup_delete_Some. by apply (w_own s Hw).
Qed.

Lemma safe_Destroy s id : well_typed s → is_Some (maps s !! id) → twp (run_op id ODestroy) (λ _ s', well_typed s') s.
Proof.
  intros Hw [e He]. cbn [run_op]. apply twp_call. eapply twp_the; [exact He|]. unfold Entity_destroy.
  destruct (isValid e) eqn:Hv; cbn [andb].
  - assert (live s id e) as Hl by done. rewrite (live_raw _ _ _ Hl). cbn [negb]. apply twp_bind, twp_bind, twp_munmap.
    + intros x s1 _ (Hr & Hf & Hm & _). apply twp_ret. apply (well_typed_drop s _ id); [done|exact Hr|exact Hf|].
      change (delete id (maps s1) = delete id (maps s)). by rewrite Hm.
    + intros s1 Hr Hf Hm. apply twp_ret. eapply (well_typed_gone s _ id e); [done|exact Hr|exact Hf|left; done|].
      change (delete id (maps s1) = delete id (maps s)). by rewrite Hm.
  - apply twp_bind, twp_ret. by apply (well_typed_drop s _ id).
Qed.

Lemma size_ok_spec n : size_ok n = true → 0 <= n <= SIZE_MAX.
Proof. unfold size_ok. intros [H1%Z.leb_le H2%Z.leb_le]%andb_prop. lia. Qed.

(** Progress and preservation: an operation never goes wrong, and what it leaves is
    well-typed again. *)
Lemma step_safe s id o : well_typed s → valid_op id o s = true → twp (run_op id o) (λ _ s', well_typed s') s.
Proof.
  intros Hw Hv. assert (∀ o, o ∈ [OGetPosition; OCapacity; OGetLimit; ORemaining] → twp (run_op id o) (λ _ s', well_typed s') s) as Hobs.
  { intros o' Ho'. destruct (live_or_free s id Hw) as [[e Hl]|Hf]; [by eapply refined_safe, refined_observers|].
    repeat (apply elem_of_cons in Ho' as [->|Ho']); [..|by apply elem_of_nil in Ho']; cbn [run_op]; apply twp_call, twp_free;
      (done || by apply twp_ret). }
  destruct o; cbn [valid_op] in Hv; zbool.
  - cbn [run_op]. apply twp_call. apply size_ok_spec in H0. apply twp_DoMmap; [done|lia|lia| |].
    + by intros e s' (? & _).
    + intros i s' (f & e & _ & _ & _ & _ & _ & _ & _ & _ & _ & (Hw' & _) & _). done.
  - apply size_ok_spec in Hv. destruct (live_or_free s id Hw) as [[e Hl]|Hf]; [by eapply refined_safe, refined_SetPosition; [|lia]|].
    cbn [run_op]. apply twp_call, twp_free; [done|]. by apply twp_ret.
  - apply Hobs. set_solver.
  - apply Hobs. set_solver.
  - apply size_ok_spec in Hv. destruct (live_or_free s id Hw) as [[e Hl]|Hf]; [by eapply refined_safe, refined_SetLimit; [|lia]|].
    cbn [run_op]. apply twp_call, twp_free; [done|]. by apply twp_ret.
  - apply Hobs. set_solver.
  - destruct (live_or_free s id Hw) as [[e Hl]|Hf]; [by eapply refined_safe, refined_Flip|].
    cbn [run_op]. apply twp_call, twp_free; [done|]. by apply twp_ret.
  - apply Hobs. set_solver.
  - apply size_ok_spec in H. apply safe_Read; [done|lia].
  - apply size_ok_spec in H, H1. apply safe_ReadFrom; [done|lia|lia].
  - apply size_ok_spec in H. apply safe_Write; [done|lia].
  - apply size_ok_spec in H, H1. apply safe_WriteTo; [done|lia|lia].
  - by apply safe_Msync.
  - by apply safe_Unmap.
  - apply bool_decide_eq_true in Hv. by apply safe_Destroy.
Qed.


(** ** The theorems *)

(** Programs that start in a well-typed state run to their end. *)
Lemma run_ops_safe l s : well_typed s → valid_ops l s = true → twp (run_ops l) (λ _ s', well_typed s') s.
Proof.
  revert s. induction l as [|[id o] l IH]; intros s Hw Hv; cbn [run_ops valid_ops] in *; [by apply twp_ret|].
  apply andb_prop in Hv as [Hv Hl]. apply twp_bind. pose proof (step_safe s id o Hw Hv) as H. unfold twp in *.
  destruct (run_op id o s) as [[r s1]|]; [|done]. apply twp_bind. eapply twp_mono; [by apply IH|].
  intros rs s2 Hw2. by apply twp_ret.
Qed.

(** C23: a program that maps files and works on the objects never goes wrong: whatever calls
    of the kernel fail and whatever the arguments, every operation ends without an access
    outside the memory that is mapped, a write to memory that is read-only, an access past
    the end of a file or the use of a null pointer, and leaves objects whose position, limit,
    capacity and region fit each other. *)
Theorem mapping_programs_safe (fs : gmap Z kfile) (l : list (nat * mop)) :
  valid_ops l (unmapped_state fs) = true →
  ∃ rs s', run_ops l (unmapped_state fs) = Some (rs, s') ∧ well_typed s'.
Proof. intros Hv. apply twp_elim, run_ops_safe; [apply well_typed_start|done]. Qed.

(** C24: an object over mapped memory behaves as a buffer with a limit and a position:
    positions, limits, flips, reads and writes with any arguments have the results of
    [buffer_op] and make of the object what it says, the other objects keep their state, and
    the object stays live, as long as no buffer is too large for [memcpy_s]. *)
Theorem mapping_refines_buffer (s : mstate) (id : nat) (e : FileMappingEntity) (o : mop) :
  live s id e → buffer_ops o = true → valid_op id o s = true → limit e <= SECUREC_MEM_MAX_LEN →
  match o with ORead b _ | OReadFrom _ b _ => Z.of_nat (length b) <= SECUREC_MEM_MAX_LEN | _ => True end →
  ∃ r s' e', run_op id o s = Some (r, s') ∧ maps s' = <[id := e']> (maps s) ∧ live s' id e' ∧ mode e' = mode e ∧
    (r, view s' e') = buffer_op (Entity_IsReadOnly e) o (view s e).
Proof.
  intros Hl Hb Hv Hlim Hbuf. assert (twp (run_op id o) (refined s id e o) s) as H.
  { destruct o; try done; cbn [valid_op] in Hv; zbool; repeat match goal with H : size_ok _ = true |- _ => apply size_ok_spec in H end;
      first [apply refined_observers; [done|set_solver] | apply refined_SetPosition; [done|lia] | apply refined_SetLimit; [done|lia]
        | by apply refined_Flip | apply refined_Read; [done|lia|done] | apply refined_ReadFrom; [done|lia|lia|done]
        | apply refined_Write; [done|lia|done] | apply refined_WriteTo; [done|lia|lia|done]]. }
  apply twp_elim in H as (r & s' & E & Hr & e' & Hm & Hs & Hview & Hw). exists r, s', e'.
  destruct Hs as (_ & _ & _ & _ & _ & Hmode & _ & _ & Hval). destruct Hl as (_ & _ & Hval').
  split; [done|]. split; [done|]. split; [|split; [done|rewrite Hr, Hview; by destruct (buffer_op _ _ _)]].
  split; [done|]. split; [by rewrite Hm, lookup_insert_eq|congruence].
Qed.

(** Objects that do not share the file that is written keep what they show. *)
Lemma wrote_other s id e pos bytes s' j x :
  live s id e → wrote s e pos bytes s' → live s j x → j ≠ id → (mode e = PRIVATE ∨ fd x ≠ fd e) → contents s' x = contents s x.
Proof.
  intros Hl Hwr Hx Hne Hcase. pose proof (live_typed _ _ _ Hl) as Ht. pose proof (live_typed _ _ _ Hx) as Htx.
  assert (rawMapAddr x ≠ rawMapAddr e) as Hraw.
  { destruct Hl as (Hw & He & Hv), Hx as (_ & Hx & Hvx). by apply (w_own s Hw j id). }
  apply contents_ext; [done|done|]. intros p _.
  destruct Hwr as [(Hm & f & Hf & ->)|(Hm & cow & _ & ->)]; unfold seen, data_of.
  - assert (fd x ≠ fd e) as Hfd by (destruct Hcase as [Hc|]; [rewrite Hm in Hc; done|done]).
    match goal with |- context [own_region (?x <| mfiles := ?m |>) ?y] =>
      change (own_region (x <| mfiles := m |>) y) with (own_region x y);
      change (mfiles (x <| mfiles := m |>)) with m end.
    rewrite !(own_region_fd s x Htx), lookup_insert_ne by done. done.
  - assert (own_region (s <| regions := <[rawMapAddr e := (own_region s e) <| g_cow := cow |>]> (regions s) |>) x = own_region s x) as ->.
    { unfold own_region at 1. match goal with |- context [regions (?x <| regions := ?m |>)] =>
        change (regions (x <| regions := m |>)) with m end. by rewrite lookup_insert_ne. }
    done.
Qed.

(** What is written through a mapping reaches the file: in a mapping for reading and
    writing exactly those bytes of the file change, other mappings that share the file show
    the new bytes, and mappings of other files are as before; a private mapping changes no
    file and no other mapping. *)
Theorem write_reaches_file (s : mstate) (id : nat) (e : FileMappingEntity) (pos : Z) (data : list Z) :
  live s id e → mode e ≠ READ_ONLY → 0 <= pos → data ≠ [] → pos + Z.of_nat (length data) <= limit e →
  limit e <= SECUREC_MEM_MAX_LEN →
  ∃ f s', WriteTo id pos (Some data) (Z.of_nat (length data)) (Z.of_nat (length data)) s = Some (inr (Z.of_nat (length data)), s') ∧
    mfiles s !! fd e = Some f ∧
    mfiles s' = (if mode e =? PRIVATE then mfiles s
                 else <[fd e := f <| k_data := list_inserts (Z.to_nat (offset e + pos)) data (k_data f) |>]> (mfiles s)) ∧
    (∀ j x, live s j x → live s' j x ∧
      (j ≠ id → mode e = PRIVATE ∨ fd x ≠ fd e → contents s' x = contents s x) ∧
      (fd x = fd e → mode e = READ_WRITE → mode x ≠ PRIVATE → contents s' x =
        take (Z.to_nat (capacity x)) (drop (Z.to_nat (offset x)) (list_inserts (Z.to_nat (offset e + pos)) data (k_data f))))).
Proof.
  intros Hl Hro Hpos Hne Hlim Hmax. pose proof (live_typed _ _ _ Hl) as Ht. pose proof Hl as (Hw & He & Hv).
  pose proof (live_numbers _ _ _ Hl) as (Hp & Hcap & Hend & Hma). destruct (t_file s e Ht) as (f & Hf & Hlen).
  assert (0 < Z.of_nat (length data)) as Hdata by (destruct data; [done|cbn; lia]).
  assert (twp (WriteTo id pos (Some data) (Z.of_nat (length data)) (Z.of_nat (length data)))
    (λ r s', r = inr (Z.of_nat (length data)) ∧ wrote s e pos data s') s) as H.
  { eapply twp_valid; [exact Hl|]. cbn [negb is_null andb orb]. eapply twp_the; [exact He|].
    destruct (pos >? capacity e) eqn:E1; zbool; [lia|]. unfold Entity_IsReadOnly. rewrite (proj2 (Z.eqb_neq _ _) Hro).
    cbv zeta. rewrite (op_length s e) by lia.
    assert (room (view s e) pos (Z.of_nat (length data)) (Z.of_nat (length data)) = Z.of_nat (length data)) as ->
      by (unfold room; cbn [b_limit view]; lia).
    destruct (Z.of_nat (length data) >? 0) eqn:E2; zbool; [|lia]. unfold SIZE_MAX in *.
    apply twp_bind, twp_copy_in; [done|done|done|lia|lia|lia|lia| |].
    { destruct (pos <? limit e) eqn:E3; zbool; [rewrite u64_id by lia|]; lia. }
    intros s1 Hwr. cbn [Z.eqb negb]. apply twp_ret. split; [done|]. by rewrite Nat2Z.id, firstn_all in Hwr. }
  apply twp_elim in H as (r & s' & E & -> & Hwr). exists f, s'. split; [done|]. split; [done|].
  assert (∀ j x, live s j x → live s' j x) as Hlive.
  { intros j x (_ & Hx & Hvx). split; [by eapply wrote_well_typed|]. by rewrite (wrote_maps _ _ _ _ _ Hwr). }
  split.
  - destruct Hwr as [(Hm & g & Hg & ->)|(Hm & cow & _ & ->)]; rewrite Hm; cbn [Z.eqb]; [|done].
    change (<[fd e:=g <| k_data := list_inserts (Z.to_nat (offset e + pos)) data (k_data g) |>]> (mfiles s) =
      <[fd e:=f <| k_data := list_inserts (Z.to_nat (offset e + pos)) data (k_data f) |>]> (mfiles s)). by simplify_eq.
  - intros j x Hx. split; [by apply Hlive|]. split; [intros Hne' Hc; exact (wrote_other s id e pos data s' j x Hl Hwr Hx Hne' Hc)|]. intros Hfd Hrw Hsh.
    pose proof (live_typed _ _ _ (Hlive j x Hx)) as Htx. destruct (Hlive j x Hx) as (Hw' & _).
    assert (mfiles s' !! fd x = Some (f <| k_data := list_inserts (Z.to_nat (offset e + pos)) data (k_data f) |>)) as Hfx.
    { destruct Hwr as [(_ & g & Hg & ->)|(Hm & _)]; [|rewrite Hrw in Hm; done].
      assert (g = f) as -> by congruence. rewrite Hfd. apply lookup_insert_eq. }
    rewrite (contents_file s' x _ Htx (own_region_shared s' x Hw' Htx Hsh) Hfx). done.
Qed.
End typing.

(** ** Witnesses *)

(** A mapping is put above all others; pages have four bytes, and no call fails. *)
Definition above (page : Z) (l : list (Z * Z)) : Z :=
  (foldr (λ x a, Z.max (x.1 + x.2) a) page l + page - 1) / page * page.
#[local] Instance placed_dec page l n a : Decision (placed page l n a).
Proof. unfold placed. apply _. Defined.
#[local] Instance plain_map_env : MapEnv.
Proof.
  refine {| m_fault := λ _ _, 0; page_size := 4;
    place := λ l n, if decide (placed 4 l n (above 4 l)) then Some (above 4 l) else None;
    SECUREC_MEM_MAX_LEN := 100; memcpy_s := λ destMax _, if destMax >? 100 then 34 else 0 |}.
  - done.
  - intros l n a _ H. case_decide; [|done]. by injection H as <-.
  - intros destMax count _ H. destruct (destMax >? 100) eqn:E; zbool; [lia|done].
  - intros destMax count H. destruct (destMax >? 100) eqn:E; zbool; [done|lia].
Defined.

Definition two_files : gmap Z kfile := {[ 3 := mkFile true true true [1;2;3;4;5;6;7;8]; 4 := mkFile true true false [9;9] ]}.
(** A shared mapping, a private one and one of a file that is too short and read-only. *)
Definition some_maps : list (nat * mop) :=
  [(0%nat, OMmap 3 READ_WRITE 2 5); (1%nat, OMmap 3 PRIVATE 0 10); (2%nat, OMmap 4 READ_ONLY 0 3); (2%nat, OMmap 3 READ_ONLY 5 3)].
Definition some_work : list (nat * mop) :=
  some_maps ++ [(0%nat, OWrite [20; 21] 9); (0%nat, OFlip); (0%nat, ORead [0; 0; 0] 3); (1%nat, OWriteTo 9 [30; 31] 2);
    (1%nat, OReadFrom 1 [0; 0; 0] 3); (2%nat, OReadFrom 0 [0] 1); (0%nat, OMsync 1 2); (0%nat, OUnmap); (0%nat, OGetLimit);
    (1%nat, ODestroy)].
Example some_work_results :
  fst <$> run_ops some_work (unmapped_state two_files) = Some
    [(inr 0, []); (inr 1, []); (inl EINVAL, []); (inr 2, []);
     (inr 2, []); (inr 0, []); (inr 2, [20; 21; 0]); (inr 1, []); (inr 3, [2; 20; 21]); (inr 1, [6]); (inr 0, []); (inr 0, []);
     (inl (FILEIO_SYS_CAP_TAG + E_MMAP_FREE), []); (inr 0, [])].
Proof. vm_compute. reflexivity. Qed.

Lemma mapping_programs_safe_witness :
  ∃ rs s', run_ops some_work (unmapped_state two_files) = Some (rs, s') ∧ well_typed s'.
Proof. apply (mapping_programs_safe two_files some_work). vm_compute. reflexivity. Defined.

(** The states of the witnesses are those that programs reach. *)
Lemma reached (l : list (nat * mop)) (id : nat) (e : FileMappingEntity) :
  valid_ops l (unmapped_state two_files) = true →
  (λ x, maps x.2 !! id) <$> run_ops l (unmapped_state two_files) = Some (Some e) → isValid e = true →
  ∃ rs s, run_ops l (unmapped_state two_files) = Some (rs, s) ∧ live s id e.
Proof.
  intros Hv He Hval. pose proof (run_ops_safe l _ (well_typed_start two_files) Hv) as H. unfold twp in H.
  destruct (run_ops l (unmapped_state two_files)) as [[rs s]|]; [|done]. exists rs, s. split; [done|]. split; [done|].
  split; [|done]. by injection He.
Qed.
Definition first_entity : FileMappingEntity := mkEntity 6 4 5 7 2 5 0 READ_WRITE 3 2 true.

Lemma mapping_refines_buffer_witness :
  ∃ rs s r s' e', run_ops some_maps (unmapped_state two_files) = Some (rs, s) ∧
    run_op 0 (OWrite [20; 21] 9) s = Some (r, s') ∧
    (r, view s' e') = buffer_op false (OWrite [20; 21] 9) (view s first_entity).
Proof.
  destruct (reached some_maps 0 first_entity) as (rs & s & E & Hl); [vm_compute; reflexivity..|].
  destruct (mapping_refines_buffer s 0 first_entity (OWrite [20; 21] 9) Hl) as (r & s' & e' & H1 & _ & _ & _ & H2);
    [reflexivity|reflexivity|cbn; lia|exact I|].
  exists rs, s, r, s', e'. split; [exact E|]. split; [exact H1|exact H2].
Defined.

Lemma write_reaches_file_witness :
  ∃ rs s s' f, run_ops some_maps (unmapped_state two_files) = Some (rs, s) ∧
    WriteTo 0 1 (Some [20; 21]) 2 2 s = Some (inr 2, s') ∧
    mfiles s' = <[3 := f <| k_data := list_inserts 3 [20; 21] (k_data f) |>]> (mfiles s).
Proof.
  destruct (reached some_maps 0 first_entity) as (rs & s & E & Hl); [vm_compute; reflexivity..|].
  destruct (write_reaches_file s 0 first_entity 1 [20; 21] Hl) as (f & s' & H1 & _ & H2 & _);
    [discriminate|lia|discriminate|cbn; lia|cbn; lia|].
  exists rs, s, s', f. split; [exact E|]. split; [exact H1|exact H2].
Defined.

(** A range inside, and one that rounds to nothing. *)
Lemma msync_exact_witness :
  ∃ rs s r s' r2 s2, run_ops some_maps (unmapped_state two_files) = Some (rs, s) ∧
    Msync 0 1 2 s = Some (r, s') ∧ msync_post s first_entity 1 2 r s' ∧
    Msync 0 2 (2 ^ 64 - 1) s = Some (r2, s2) ∧ msync_post s first_entity 2 (2 ^ 64 - 1) r2 s2.
Proof.
  destruct (reached some_maps 0 first_entity) as (rs & s & E & Hl); [vm_compute; reflexivity..|].
  destruct (msync_exact s 0 first_entity 1 2) as (r & s' & H1 & H2);
    [done|done|exact Hl|unfold SIZE_MAX; lia|unfold SIZE_MAX; lia|].
  destruct (msync_exact s 0 first_entity 2 (2 ^ 64 - 1)) as (r2 & s2 & H3 & H4);
    [done|done|exact Hl|unfold SIZE_MAX; lia|unfold SIZE_MAX; lia|].
  exists rs, s, r, s', r2, s2. split; [exact E|]. split; [exact H1|]. split; [exact H2|]. split; [exact H3|exact H4].
Defined.
(** Sums that wrap around pass the checks; the kernel refuses a range whose end wraps around,
    but not a length that rounds to nothing, and then nothing was written. *)
Example wrapped_range_reaches_kernel :
  (λ x, (List.last x.1 (inl 0, []), msyncs x.2)) <$> run_ops (some_maps ++ [(0%nat, OMsync 2 (2 ^ 64 - 4))]) (unmapped_state two_files)
    = Some ((inl ENOMEM, []), [(8, 2 ^ 64 - 4)]) ∧
  (λ x, (List.last x.1 (inl 0, []), msyncs x.2)) <$> run_ops (some_maps ++ [(0%nat, OMsync 2 (2 ^ 64 - 1))]) (unmapped_state two_files)
    = Some ((inr 0, []), [(8, 0)]).
Proof. split; vm_compute; reflexivity. Qed.

(** A mapping that fails may have made the file longer. *)
Example failed_mapping_grows_file :
  (λ x, (x.1, k_data <$> mfiles x.2 !! 3)) <$>
    run_ops [(0%nat, OMmap 3 READ_WRITE 2 5)] (unmapped_state {[ 3 := mkFile true false true [1; 2; 3] ]})
    = Some ([(inl EACCES, [])], Some [1; 2; 3; 0; 0; 0; 0]).
Proof. vm_compute. reflexivity. Qed.
