(* ===== verification/OpenFiles.v ===== *)
(** * Open files: [File] and [RandomAccessFile] objects and their descriptors

    Models [class_file/fs_file.cpp], [class_file/file_instantiator.cpp],
    [class_randomaccessfile/fs_randomaccessfile.cpp], [fdtag_func.cpp], [fs_utils.cpp] and the
    cores of [properties] that open, duplicate, close, read and write (open_core.cpp,
    create_randomaccessfile_core.cpp, dup_core.cpp, close_core.cpp, read_core.cpp,
    write_core.cpp) of [mod_fs].

    The kernel has a table of descriptors, each for an open file description with a
    position; [open] and [dup] take the lowest free number.  Entities are heap objects whose
    address is their tag: [closeTag] is the table of [fdtag_func.cpp].  A descriptor is closed
    with a tag; [fdsan_close_with_tag] of libc, which knows no owner of these descriptors,
    reports any tag but 0 and closes all the same.  [OpenEnv] decides which calls fail, how
    much a transfer moves, where objects are allocated and what the services answer that open
    URIs.  Signed overflow and the use of a null pointer are undefined, and a lock that waits
    has no result: [None]. *)

From coqutil Require Import Datatypes.RecordSetters.
From S2P Require Import Prelude RemoteUri.
Import TriangleBracketNotations.
#[local] Open Scope record_set.

Definition ERRNO_NOERR : Z := 0.
Definition ENOENT : Z := 2.
Definition EIO : Z := 5.
Definition EBADF : Z := 9.
Definition EWOULDBLOCK : Z := 11.
Definition ENOMEM : Z := 12.
Definition E_PERMISSION : Z := 201.
Definition ENOTDIR : Z := 20.
Definition EINVAL : Z := 22.
Definition UINT_MAX : Z := 2 ^ 32 - 1.
Definition INVALID_POS : Z := -1.
Definition PREFIX_ADDR : Z := 0xabc0000000000000.
Definition FD_SAN_TABLE_SIZE : Z := 128.
Definition FD_SAN_OVERFLOW_END : Z := 2048.
Definition OVERFLOW_END : Z := 2048.
Definition ALIGN_SIZE : Z := 4096.

Definition O_RDONLY : Z := 0.
Definition O_WRONLY : Z := 1.
Definition O_RDWR : Z := 2.
Definition O_CREAT : Z := 64.
Definition O_TRUNC : Z := 512.
Definition O_APPEND : Z := 1024.

(** ** Flags *)

Definition USR_WRITE_ONLY : Z := 1.
Definition USR_RDWR : Z := 2.
Definition USR_CREATE : Z := 64.
Definition USR_TRUNC : Z := 512.
Definition USR_APPEND : Z := 1024.
Definition USR_NONBLOCK : Z := 2048.
Definition USR_DIRECTORY : Z := 65536.
Definition USR_NOFOLLOW : Z := 131072.
Definition USR_SYNC : Z := 1052672.
Definition USR_UNCACHE : Z := 1073741824.
Definition UNCACHE : Z := 1073741824.
Definition MAX_WANT_FLAG : Z := 4.

(** The calls that may fail. *)
Inductive ocall := C_new | C_mmap | C_open | C_dup | C_close | C_read | C_write | C_readlink | C_realpath | C_flock.

(** Open file descriptions. *)
Record odesc := mkDesc { d_ino : Z; d_pos : Z; d_rd : bool; d_wr : bool; d_append : bool }.

Class OpenEnv := {
  o_fault : ocall → nat → Z;               (** errno of the n-th call, 0 for none *)
  o_partial : nat → option nat;            (** bytes a transfer moves at most *)
  o_address : gset Z → Z;                  (** where the next object goes *)
  o_link : Z → string;                     (** what [/proc/self/fd] says of a descriptor *)
  o_realpath : string → Z + string;
  o_datashare : string → string → Z + odesc;   (** [OpenFile] of the media library *)
  o_datashare_ok : bool;                   (** it can be reached *)
  o_broker : string → bool → Z + odesc;    (** [OpenFile] of the ability manager, to write or not *)
  o_exists : string → bool;                (** [access (F_OK)] *)
  Uri_GetScheme : string → string;
  Uri_GetAuthority : string → string;
  Uri_ToString : string → string;
  FileUri_GetRealPath : string → string;
  FileUri_GetPath : string → string;
  FileUri_GetName : string → string;
  UV_FS_O_NONBLOCK : Z;                    (** flags that differ between platforms *)
  UV_FS_O_DIRECTORY : Z;
  UV_FS_O_NOFOLLOW : Z;
  UV_FS_O_SYNC : Z;
  o_datashare_neg : ∀ u m e, o_datashare u m = inl e → e < 0;
  o_broker_neg : ∀ u w e, o_broker u w = inl e → e < 0;
  o_realpath_pos : ∀ p e, o_realpath p = inl e → 0 < e;
  o_fault_nonneg : ∀ k n, 0 <= o_fault k n;
  o_address_fresh : ∀ X, o_address X ∉ X ∧ 0 < o_address X
}.

Section flags.
Context {OE : OpenEnv}.

Definition has (flags f : Z) : bool := Z.land flags f =? f.
Definition ConvertFlags (flags : Z) : Z :=
  let flagsABI := 0 in
  let flagsABI := Z.lor flagsABI (if has flags USR_WRITE_ONLY then O_WRONLY else 0) in
  let flagsABI := Z.lor flagsABI (if has flags USR_RDWR then O_RDWR else 0) in
  let flagsABI := Z.lor flagsABI (if has flags USR_CREATE then O_CREAT else 0) in
  let flagsABI := Z.lor flagsABI (if has flags USR_TRUNC then O_TRUNC else 0) in
  let flagsABI := Z.lor flagsABI (if has flags USR_APPEND then O_APPEND else 0) in
  let flagsABI := Z.lor flagsABI (if has flags USR_NONBLOCK then UV_FS_O_NONBLOCK else 0) in
  let flagsABI := Z.lor flagsABI (if has flags USR_DIRECTORY then UV_FS_O_DIRECTORY else 0) in
  let flagsABI := Z.lor flagsABI (if has flags USR_NOFOLLOW then UV_FS_O_NOFOLLOW else 0) in
  let flagsABI := Z.lor flagsABI (if has flags USR_UNCACHE then UNCACHE else 0) in
  let flagsABI := Z.lor flagsABI (if has flags USR_SYNC then UV_FS_O_SYNC else 0) in
  flagsABI.

Definition GetModeFromFlags (flags : Z) : string :=
  let mode := "r"%string in
  let mode := mode +:+ (if has flags O_RDWR then "w" else "") in
  let mode := if has flags O_WRONLY then "w"%string else mode in
  if negb (String.eqb mode "r") then
    let mode := mode +:+ (if negb (Z.land flags O_TRUNC =? 0) then "t" else "") in
    mode +:+ (if negb (Z.land flags O_APPEND =? 0) then "a" else "")
  else mode.

(** [bufLen] and [bufOff] are sizes, [length] an [int64_t]. *)
Definition GetActualLen (bufLen bufOff : Z) (length : option Z) : bool * Z :=
  if bufLen <? bufOff then (false, 0) else
  let retLen := bufLen - bufOff in
  match length with
  | Some opLength => if (opLength <? 0) || (opLength >? retLen) then (false, 0) else (true, opLength)
  | None => (true, retLen)
  end.
End flags.

(** ** State *)

Record FileEntity := mkFileEntity { fd_ : option Z; path_ : string; uri_ : string }.
Record RandomAccessFileEntity := mkRaf { raf_fd : option Z; filePointer : Z; start : Z; end_ : Z }.
Inductive entity := EFile (f : FileEntity) | ERaf (r : RandomAccessFileEntity).
Definition entity_fd (e : entity) : option Z := match e with EFile f => fd_ f | ERaf r => raf_fd r end.

Record ostate := mko {
  fds : gmap Z nat;                        (** descriptors *)
  odescs : gmap nat odesc;
  flocks : gmap nat bool;                  (** locks of descriptions, exclusive or not *)
  inodes : gmap Z (list Z);
  paths : gmap string Z;
  heap : gmap Z entity;                    (** by address *)
  files : gmap nat (option Z);             (** the [fileEntity] of each [FsFile] *)
  rafs : gmap nat Z;                       (** the [rafEntity] of each [FsRandomAccessFile] *)
  closeTag : gmap Z Z;                     (** the table of tags; 0 elsewhere *)
  overflow : bool;                         (** its second part exists *)
  binder : gset Z;                         (** [fdFromBinder] *)
  reports : list (Z * Z);                  (** what fdsan reported *)
  born : gmap Z nat;                       (** the description an entity was made for *)
  ocalls : nat
}.

(** An error or a number, and what was read. *)
Abbreviation ores := ((Z + Z) * list Z)%type.

Section files.
Context {OE : OpenEnv}.

(** ** The kernel *)

(** [inl] an errno, or what the call does. *)
Definition sys {A} (k : ocall) (f : ostate → (Z + A) * ostate) : st ostate (Z + A) := λ s,
  let e := o_fault k (ocalls s) in
  let s := s <| ocalls := S (ocalls s) |> in
  Some (if e =? 0 then f s else (inl e, s)).
Definition undefined {A} : st ostate A := λ _, None.
(** [new (nothrow)] *)
Definition alloc : st ostate bool :=
  r ← sys C_new (λ s, (inr tt, s)); sret (match r with inr _ => true | inl _ => false end).

(** The lowest descriptor that is free. *)
Definition lowest (m : gmap Z nat) : Z :=
  default 0 (List.find (λ i, bool_decide (m !! i = None)) (seqZ 0 (Z.of_nat (size m) + 1))).
(** A new descriptor for a new description. *)
Definition install (d : odesc) (s : ostate) : Z * ostate :=
  let id := fresh (dom (odescs s)) in
  (lowest (fds s), s <| fds := <[lowest (fds s) := id]> (fds s) |> <| odescs := <[id := d]> (odescs s) |>).

Definition rights (flags : Z) : bool * bool :=
  let acc := Z.land flags 3 in ((acc =? O_RDONLY) || (acc =? O_RDWR), (acc =? O_WRONLY) || (acc =? O_RDWR)).
(** Files are regular. *)
Definition open (path : string) (flags : Z) : st ostate (Z + Z) :=
  sys C_open (λ s,
    let '(rd, wr) := rights flags in
    let desc ino := mkDesc ino 0 rd wr (Z.testbit flags 10) in
    match paths s !! path with
    | None =>
        if negb (Z.testbit flags 6) then (inl ENOENT, s)
        else if negb (Z.land flags UV_FS_O_DIRECTORY =? 0) then (inl EINVAL, s)
        else
          let ino := fresh (dom (inodes s)) in
          let '(fd, s) := install (desc ino) s in
          (inr fd, s <| inodes := <[ino := []]> (inodes s) |> <| paths := <[path := ino]> (paths s) |>)
    | Some ino =>
        if negb (Z.land flags UV_FS_O_DIRECTORY =? 0) then (inl ENOTDIR, s)
        else
          let '(fd, s) := install (desc ino) s in
          (inr fd, if Z.testbit flags 9 && wr then s <| inodes := <[ino := []]> (inodes s) |> else s)
    end).
Definition dup (fd : Z) : st ostate (Z + Z) :=
  sys C_dup (λ s,
    match fds s !! fd with
    | None => (inl EBADF, s)
    | Some id => (inr (lowest (fds s)), s <| fds := <[lowest (fds s) := id]> (fds s) |>)
    end).
(** Also a [close] that fails frees the descriptor. *)
Definition close (fd : Z) : st ostate (Z + unit) := λ s,
  let e := o_fault C_close (ocalls s) in
  let s := s <| ocalls := S (ocalls s) |> in
  Some (match fds s !! fd with
        | None => (inl EBADF, s)
        | Some _ => (if e =? 0 then inr tt else inl e, s <| fds := delete fd (fds s) |>)
        end).
Definition fdsan_close_with_tag (fd tag : Z) : st ostate (Z + unit) := λ s,
  close fd (if tag =? 0 then s else s <| reports := reports s ++ [(fd, tag)] |>).

(** The count of a transfer of at most [n] bytes. *)
Definition moved (n : nat) (s : ostate) : nat :=
  match o_partial (ocalls s) with Some c => Nat.min c n | None => n end.
(** [bytes] at a position; a gap is zero. *)
Definition put_at (d bytes : list Z) (p : nat) : list Z :=
  take p d ++ replicate (p - length d) 0 ++ bytes ++ drop (p + length bytes) d.
Definition data_of (s : ostate) (ino : Z) : list Z := default [] (inodes s !! ino).

(** A negative offset is the position of the description, which then moves. *)
Definition kread (fd len offset : Z) : st ostate (Z + list Z) :=
  sys C_read (λ s,
    match fds s !! fd with
    | None => (inl EBADF, s)
    | Some id =>
        match odescs s !! id with
        | None => (inl EBADF, s)
        | Some d =>
            if negb (d_rd d) then (inl EBADF, s) else
            let p := if offset <? 0 then d_pos d else offset in
            let bytes := take (moved (Z.to_nat len) s) (drop (Z.to_nat p) (data_of s (d_ino d))) in
            (inr bytes,
             if offset <? 0
             then s <| odescs := <[id := d <| d_pos := p + Z.of_nat (length bytes) |>]> (odescs s) |>
             else s)
        end
    end).
(** Linux appends even where there is an offset. *)
Definition kwrite (fd : Z) (bytes : list Z) (offset : Z) : st ostate (Z + Z) :=
  sys C_write (λ s,
    match fds s !! fd with
    | None => (inl EBADF, s)
    | Some id =>
        match odescs s !! id with
        | None => (inl EBADF, s)
        | Some d =>
            if negb (d_wr d) then (inl EBADF, s) else
            let data := data_of s (d_ino d) in
            let p := if d_append d then Z.of_nat (length data)
                     else if offset <? 0 then d_pos d else offset in
            let bytes := take (moved (length bytes) s) bytes in
            let n := Z.of_nat (length bytes) in
            let s := s <| inodes := <[d_ino d := put_at data bytes (Z.to_nat p)]> (inodes s) |> in
            (inr n,
             if offset <? 0 then s <| odescs := <[id := d <| d_pos := p + n |>]> (odescs s) |> else s)
        end
    end).

(** Another description of the file, still open, has a lock that excludes this one. *)
Definition excluded (s : ostate) (id : nat) (exclusive : bool) : bool :=
  bool_decide (Exists (λ x, x.1 ≠ id ∧ exclusive || x.2 = true ∧ d_ino <$> odescs s !! x.1 = d_ino <$> odescs s !! id ∧
                            Exists (λ y, y.2 = x.1) (map_to_list (fds s)))
                 (map_to_list (flocks s))).
(** To lock, without waiting or not; a description has one lock, the last it got. *)
Definition flock (fd : Z) (exclusive nonblocking : bool) : st ostate (Z + unit) := λ s,
  let e := o_fault C_flock (ocalls s) in
  let s := s <| ocalls := S (ocalls s) |> in
  if negb (e =? 0) then Some (inl e, s) else
  match fds s !! fd with
  | None => Some (inl EBADF, s)
  | Some id =>
      if excluded s id exclusive then if nonblocking then Some (inl EWOULDBLOCK, s) else None
      else Some (inr tt, s <| flocks := <[id := exclusive]> (flocks s) |>)
  end.
Definition flock_un (fd : Z) : st ostate (Z + unit) :=
  sys C_flock (λ s,
    match fds s !! fd with
    | None => (inl EBADF, s)
    | Some id => (inr tt, s <| flocks := delete id (flocks s) |>)
    end).

(** libuv returns minus the errno. *)
Definition uv_result {A} (f : A → Z) (r : Z + A) : Z := match r with inl e => - e | inr a => f a end.
Definition uv_fs_open (path : string) (flags : Z) : st ostate Z :=
  r ← open path flags; sret (uv_result id r).
Definition uv_fs_close (fd : Z) : st ostate Z := r ← close fd; sret (uv_result (λ _, 0) r).
(** The count and the bytes. *)
Definition uv_fs_read (fd len offset : Z) : st ostate (Z * list Z) :=
  r ← kread fd len offset;
  sret (uv_result (λ l, Z.of_nat (length l)) r, match r with inr l => l | inl _ => [] end).
Definition uv_fs_write (fd : Z) (bytes : list Z) (offset : Z) : st ostate Z :=
  r ← kwrite fd bytes offset; sret (uv_result id r).
(** The result and [ptr], null when it fails. *)
Definition uv_fs_readlink (fd : Z) : st ostate (Z * option string) :=
  r ← sys C_readlink (λ s, match fds s !! fd with None => (inl ENOENT, s) | Some _ => (inr (o_link fd), s) end);
  sret (uv_result (λ _, 0) r, match r with inr l => Some l | inl _ => None end).
Definition uv_fs_realpath (path : string) : st ostate (Z * option string) :=
  r ← sys C_realpath (λ s, (o_realpath path, s));
  sret (uv_result (λ _, 0) r, match r with inr l => Some l | inl _ => None end).

(** ** [fdtag_func.cpp] *)

Definition FS_ALIGN (x y : Z) : Z := if y =? 0 then 0 else (x + y - 1) / y * y.
(** Entries of the second part: its header and each entry have eight bytes. *)
Definition alignedCount : Z :=
  let overflowCount := FD_SAN_OVERFLOW_END - FD_SAN_TABLE_SIZE in
  let requiredSize := 8 + overflowCount * 8 in
  let alignedSize := FS_ALIGN requiredSize ALIGN_SIZE in
  (alignedSize - 8) / 8.

Definition map_overflow : st ostate bool :=
  r ← sys C_mmap (λ s, (inr tt, s <| overflow := true |>));
  sret (match r with inr _ => true | inl _ => false end).
Definition make_overflow : st ostate bool := λ s, if overflow s then Some (true, s) else map_overflow s.
(** The entry of a descriptor, where there is one; the second part is made when it is first used. *)
Definition GetFsFdEntry (idx : Z) : st ostate (option Z) :=
  if idx >=? FD_SAN_OVERFLOW_END then sret None
  else if idx <? FD_SAN_TABLE_SIZE then sret (Some idx)
  else
    made ← make_overflow;
    if negb made then sret None else
    let offset := idx - FD_SAN_TABLE_SIZE in
    if alignedCount <=? offset then sret None else sret (Some idx).
Definition GetFdSanEntry (fd : Z) : st ostate (option Z) :=
  if fd <? 0 then sret None else GetFsFdEntry fd.
Definition GetFdTag (fd : Z) : st ostate Z :=
  fde ← GetFdSanEntry fd;
  match fde with
  | None => sret 0
  | Some i => λ s, Some (default 0 (closeTag s !! i), s)
  end.
Definition SetFdTag (fd tag : Z) : st ostate unit :=
  fde ← GetFdSanEntry fd;
  match fde with
  | None => sret tt
  | Some i => λ s, Some (tt, s <| closeTag := <[i := tag]> (closeTag s) |>)
  end.

(** ** Making objects *)

(** The entity goes to the address that [o_address] gives. *)
Definition new_entity (e : entity) : st ostate (option Z) :=
  ok ← alloc;
  if negb ok then sret None else λ s,
  let a := o_address (dom (heap s)) in Some (Some a, s <| heap := <[a := e]> (heap s) |>).
Definition delete_entity (a : Z) : st ostate unit := λ s, Some (tt, s <| heap := delete a (heap s) |>).
Definition update_entity (a : Z) (e : entity) : st ostate unit := λ s, Some (tt, s <| heap := <[a := e]> (heap s) |>).

Definition FsFile_Constructor : st ostate (Z + nat) :=
  rafEntity ← new_entity (EFile (mkFileEntity None "" ""));
  match rafEntity with
  | None => sret (inl ENOMEM)
  | Some a =>
      ok ← alloc;
      if negb ok then _ ← delete_entity a; sret (inl ENOMEM) else λ s,
      let id := fresh (dom (files s)) in Some (inr id, s <| files := <[id := Some a]> (files s) |>)
  end.
Definition GetFileEntity (id : nat) : st ostate (option Z) := λ s, Some (mjoin (files s !! id), s).
(** [delete] of a [FsFile], which owns its entity; the guard in it does not close. *)
Definition delete_file (id : nat) : st ostate unit := λ s,
  Some (tt, (match files s !! id with
             | Some (Some a) => s <| heap := delete a (heap s) |>
             | _ => s
             end) <| files := delete id (files s) |>).

(** Which description an object is made for; no part of the program. *)
Definition record_born (a fd : Z) : st ostate unit := λ s,
  Some (tt, match fds s !! fd with Some d => s <| born := <[a := d]> (born s) |> | None => s end).

Definition CloseOnError (fd : Z) : st ostate unit := _ ← close fd; sret tt.

Definition InstantiateFile (fd : Z) (pathOrUri : string) (isUri : bool) : st ostate (Z + nat) :=
  result ← FsFile_Constructor;
  match result with
  | inl _ => _ ← CloseOnError fd; sret (inl EIO)
  | inr objFile =>
      fileEntity ← GetFileEntity objFile;
      match fileEntity with
      | None => _ ← CloseOnError fd; _ ← delete_file objFile; sret (inl EIO)
      | Some a =>
          fdg ← alloc;
          if negb fdg then _ ← close fd; _ ← delete_file objFile; sret (inl ENOMEM) else
          _ ← update_entity a (EFile (if isUri then mkFileEntity (Some fd) "" pathOrUri
                                      else mkFileEntity (Some fd) pathOrUri ""));
          _ ← record_born a fd;
          _ ← SetFdTag fd a;
          sret (inr objFile)
      end
  end.

(** ** [OpenCore], [DupCore] *)

Definition ValidAndConvertFlags (mode : option Z) : bool * Z :=
  match mode with
  | None => (true, O_RDONLY)
  | Some modeValue =>
      if modeValue <? 0 then (false, O_RDONLY) else
      let flags := modeValue in
      let invalidMode := Z.lor O_WRONLY O_RDWR in
      if Z.land flags invalidMode =? invalidMode then (false, flags)
      else (true, ConvertFlags flags)
  end.

Definition OpenFileByPath (path : string) (mode : Z) : st ostate Z :=
  openReq ← alloc;
  if negb openReq then sret (- ENOMEM) else uv_fs_open path mode.

(** A descriptor that a service sends. *)
Definition receive (r : Z + odesc) : st ostate Z := λ s,
  match r with inl e => Some (e, s) | inr d => Some (install d s) end.

Definition OpenFileByDatashare (path : string) (flags : Z) : st ostate Z :=
  remote ← alloc;
  if negb remote then sret (- ENOMEM) else
  if negb o_datashare_ok then sret (- E_PERMISSION) else
  receive (o_datashare path (GetModeFromFlags flags)).

Definition OpenByFileDataUri (uri uriStr : string) (mode : Z) : st ostate (Z * string) :=
  let bundleName := Uri_GetAuthority uri in
  let realPath := FileUri_GetRealPath uriStr in
  if String.eqb bundleName "media" then
    res ← OpenFileByDatashare (Uri_ToString uri) mode;
    sret (res, Uri_ToString uri)
  else if String.eqb bundleName "docs" && negb (o_exists realPath) then
    res ← OpenFileByDatashare (Uri_ToString uri) mode;
    if res <? 0 then sret (- ENOENT, Uri_ToString uri) else sret (res, Uri_ToString uri)
  else
    ret ← OpenFileByPath realPath mode;
    sret (ret, uriStr).

Definition OpenFileByBroker (uri : string) (mode : Z) : st ostate (Z * string) :=
  let write := Z.rem mode MAX_WANT_FLAG >? 0 in
  ret ← receive (o_broker uri write);
  sret (ret, Uri_ToString uri).

Definition is_remote_uri (path : string) (fd flags : Z) : st ostate (bool * Z) := λ s,
  let '(found, fd, b) := IsRemoteUri path fd flags (binder s) in Some ((found, fd), s <| binder := b |>).

Definition OpenFileByUri (path : string) (mode : Z) : st ostate (Z * string) :=
  let uriType := Uri_GetScheme path in
  if String.eqb uriType "file" then OpenByFileDataUri path path mode
  else if String.eqb uriType "content" then OpenFileByBroker path mode
  else if String.eqb uriType "datashare" then
    '(found, fd) ← is_remote_uri path (-1) mode;
    if found && (fd >=? 0) then sret (fd, path) else sret (- EINVAL, path)
  else sret (- EINVAL, path).

Definition DoOpen (path : string) (mode : option Z) : st ostate (Z + nat) :=
  let '(succMode, modeValue) := ValidAndConvertFlags mode in
  if negb succMode then sret (inl EINVAL) else
  match String.index 0 "://" path with
  | Some _ =>
      '(res, uriStr) ← OpenFileByUri path modeValue;
      if res <? 0 then sret (inl res) else InstantiateFile res uriStr true
  | None =>
      ret ← OpenFileByPath path modeValue;
      if ret <? 0 then sret (inl ret) else InstantiateFile ret path false
  end.

Definition ValidFd (fd : Z) : bool := negb (fd <? 0).

Definition DoDup (fd : Z) : st ostate (Z + nat) :=
  if negb (ValidFd fd) then sret (inl EINVAL) else
  r ← dup fd;
  match r with
  | inl errno => sret (inl errno)
  | inr dstFd =>
      readLinkReq ← alloc;
      if negb readLinkReq then _ ← close dstFd; sret (inl ENOMEM) else
      '(ret, ptr) ← uv_fs_readlink dstFd;
      match ptr with
      | Some l => if ret <? 0 then _ ← close dstFd; sret (inl ret) else InstantiateFile dstFd l false
      | None => _ ← close dstFd; sret (inl ret)
      end
  end.

(** ** [CloseCore] *)

Definition CloseFd (fd : Z) : st ostate Z :=
  closeReq ← alloc;
  if negb closeReq then sret ENOMEM else
  ret ← uv_fs_close fd;
  if ret <? 0 then sret ret else sret ERRNO_NOERR.

Definition CloseFdWithFdsan (fd : Z) (isFd : bool) (fileTag : Z) : st ostate Z :=
  if fd >=? OVERFLOW_END then CloseFd fd
  else if isFd then _ ← SetFdTag fd 0; CloseFd fd
  else
    tag ← GetFdTag fd;
    let tag := if (tag =? 0) || negb (tag =? fileTag) then Z.lor fileTag PREFIX_ADDR else 0 in
    _ ← SetFdTag fd 0;
    ret ← fdsan_close_with_tag fd tag;
    sret (match ret with inl errno => errno | inr _ => ERRNO_NOERR end).

Definition CloseCore_DoClose_fd (fd : Z) : st ostate (Z + unit) :=
  if negb (ValidFd fd) then sret (inl EINVAL) else
  err ← CloseFdWithFdsan fd true 0;
  sret (if negb (err =? 0) then inl err else inr tt).

(** ** [FsFile] *)

(** The entity of the object, when it is valid. *)
Definition CheckFileEntityValid (id : nat) : st ostate (option (Z * FileEntity * Z)) := λ s,
  Some (match files s !! id with
        | Some (Some a) =>
            match heap s !! a with
            | Some (EFile f) => match fd_ f with Some fd => Some (a, f, fd) | None => None end
            | _ => None
            end
        | _ => None
        end, s).
Definition RemoveEntity (id : nat) : st ostate unit := λ s,
  Some (tt, (match files s !! id with
             | Some (Some a) => s <| heap := delete a (heap s) |>
             | _ => s
             end) <| files := <[id := None]> (files s) |>).
Definition FsFile_GetFD (id : nat) : st ostate (Z + Z) :=
  valid ← CheckFileEntityValid id;
  sret (match valid with None => inl EINVAL | Some (_, _, fd) => inr fd end).

Definition CloseCore_DoClose (file : nat) : st ostate (Z + unit) :=
  ret ← FsFile_GetFD file;
  match ret with
  | inl _ => sret (inl EINVAL)
  | inr fd =>
      a ← GetFileEntity file;
      let fileTag := default 0 a in
      err ← CloseFdWithFdsan fd false fileTag;
      if negb (err =? 0) then sret (inl err) else
      _ ← RemoveEntity file;
      sret (inr tt)
  end.

Definition RealPathCore (srcPath : string) : st ostate (Z * option string) :=
  realpathReq ← alloc;
  if negb realpathReq then sret (ENOMEM, None) else uv_fs_realpath srcPath.

Definition GetPath (id : nat) : st ostate (Z + string) :=
  valid ← CheckFileEntityValid id;
  match valid with
  | None => sret (inl EINVAL)
  | Some (_, f, _) =>
      if negb (String.length (uri_ f) =? 0)%nat then sret (inr (FileUri_GetPath (uri_ f))) else
      '(realPathRes, realPath) ← RealPathCore (path_ f);
      if negb (realPathRes =? ERRNO_NOERR) then sret (inl realPathRes) else
      match realPath with Some p => sret (inr p) | None => undefined end
  end.

Definition GetName (id : nat) : st ostate (Z + string) :=
  valid ← CheckFileEntityValid id;
  match valid with
  | None => sret (inl EINVAL)
  | Some (_, f, _) =>
      if negb (String.length (uri_ f) =? 0)%nat then sret (inr (FileUri_GetName (uri_ f))) else
      '(realPathRes, realPath) ← RealPathCore (path_ f);
      if negb (realPathRes =? ERRNO_NOERR) then sret (inl realPathRes) else
      match realPath with
      | Some path => sret (match rsplit path with None => inl ENOENT | Some (_, n) => inr n end)
      | None => undefined
      end
  end.

Definition GetParent (id : nat) : st ostate (Z + string) :=
  valid ← CheckFileEntityValid id;
  match valid with
  | None => sret (inl EINVAL)
  | Some (_, f, _) =>
      let parent path : Z + string := match rsplit path with None => inl ENOENT | Some (d, _) => inr d end in
      if negb (String.length (uri_ f) =? 0)%nat then sret (parent (FileUri_GetPath (uri_ f))) else
      '(realPathRes, realPath) ← RealPathCore (path_ f);
      if negb (realPathRes =? 0) then sret (inl realPathRes) else
      match realPath with Some path => sret (parent path) | None => undefined end
  end.

(** It looks at the entity first, then at the descriptor in it. *)
Definition Lock (id : nat) (exclusive : bool) : st ostate (Z + unit) :=
  fileEntity ← (λ s, Some (mjoin (files s !! id) ≫= λ a, heap s !! a, s));
  match fileEntity with
  | Some (EFile f) =>
      match fd_ f with
      | None => sret (inl EIO)
      | Some fd => flock fd exclusive false
      end
  | _ => sret (inl EINVAL)
  end.
Definition TryLock (id : nat) (exclusive : bool) : st ostate (Z + unit) :=
  valid ← CheckFileEntityValid id;
  match valid with
  | None => sret (inl EINVAL)
  | Some (_, _, fd) => flock fd exclusive true
  end.
Definition UnLock (id : nat) : st ostate (Z + unit) :=
  valid ← CheckFileEntityValid id;
  match valid with
  | None => sret (inl EINVAL)
  | Some (_, _, fd) => flock_un fd
  end.

(** ** [ReadCore], [WriteCore] *)

Record ReadOptions := mkReadOptions { r_offset : option Z; r_length : option Z }.
Record WriteOptions := mkWriteOptions { w_length : option Z; w_offset : option Z }.

(** A [size_t] as an [int64_t]. *)
Definition int64_of_size (n : Z) : Z := if n <? 2 ^ 63 then n else n - 2 ^ 64.

(** Valid or not, the count and the offset. *)
Definition ValidReadArg (bufLen : Z) (options : option ReadOptions) : bool * Z * Z :=
  let offset := -1 in
  if bufLen >? UINT_MAX then (false, 0, offset) else
  let lengthOp := u64 <$> (options ≫= r_length) in
  let offsetOp := options ≫= r_offset in
  let '(succ, retLen) := GetActualLen bufLen 0 (int64_of_size <$> lengthOp) in
  if negb succ then (false, retLen, offset) else
  match offsetOp with
  | Some offset => if offset <? 0 then (false, retLen, offset) else (true, retLen, offset)
  | None => (true, retLen, offset)
  end.
Definition ValidWriteArg (bufLen : Z) (options : option WriteOptions) : bool * Z * Z :=
  let offset := -1 in
  if bufLen >? UINT_MAX then (false, 0, offset) else
  let lengthOp := options ≫= w_length in
  let offsetOp := options ≫= w_offset in
  let '(succ, retLen) := GetActualLen bufLen 0 (int64_of_size <$> lengthOp) in
  if negb succ then (false, 0, offset) else
  match offsetOp with
  | Some offset => if offset <? 0 then (false, 0, offset) else (true, retLen, offset)
  | None => (true, retLen, offset)
  end.

(** The result and the bytes that came into the buffer. *)
Definition DoRead (fd bufLen : Z) (options : option ReadOptions) : st ostate ((Z + Z) * list Z) :=
  if fd <? 0 then sret (inl EINVAL, []) else
  let '(succ, len, offset) := ValidReadArg bufLen options in
  if negb succ then sret (inl EINVAL, []) else
  readReq ← alloc;
  if negb readReq then sret (inl ENOMEM, []) else
  '(ret, bytes) ← uv_fs_read fd (u32 len) offset;
  sret (if ret <? 0 then inl ret else inr ret, bytes).

Definition WriteCore_DoWrite (fd : Z) (buf : list Z) (len offset : Z) : st ostate (Z + Z) :=
  writeReq ← alloc;
  if negb writeReq then sret (inl ENOMEM) else
  ret ← uv_fs_write fd (take (Z.to_nat (u32 len)) buf) offset;
  sret (if ret <? 0 then inl ret else inr ret).
Definition DoWrite (fd : Z) (buffer : list Z) (options : option WriteOptions) : st ostate (Z + Z) :=
  if fd <? 0 then sret (inl EINVAL) else
  let '(succ, len, offset) := ValidWriteArg (Z.of_nat (length buffer)) options in
  if negb succ then sret (inl EINVAL) else WriteCore_DoWrite fd buffer len offset.

(** ** [FsRandomAccessFile] *)

Definition in_int64 (n : Z) : bool := (- 2 ^ 63 <=? n) && (n <? 2 ^ 63).
(** A sum of [int64_t]. *)
Definition add64 (a b : Z) : st ostate Z := if in_int64 (a + b) then sret (a + b) else undefined.

(** The entity and its descriptor; the object has one always. *)
Definition rafEntity (id : nat) : st ostate (option (Z * RandomAccessFileEntity)) := λ s,
  Some (match rafs s !! id with
        | Some a => match heap s !! a with Some (ERaf r) => Some (a, r) | _ => None end
        | None => None
        end, s).
(** [fd.get()->GetFD ()] *)
Definition raf_GetFD (r : RandomAccessFileEntity) : st ostate Z :=
  match raf_fd r with Some fd => sret fd | None => undefined end.

Definition DoReadRAF (len fd offset : Z) : st ostate (Z * list Z) :=
  readReq ← alloc;
  if negb readReq then sret (ENOMEM, []) else uv_fs_read fd (u32 len) offset.
Definition DoWriteRAF (buf : list Z) (len fd offset : Z) : st ostate Z :=
  writeReq ← alloc;
  if negb writeReq then sret ENOMEM else uv_fs_write fd (take (Z.to_nat (u32 len)) buf) offset.

Definition Raf_GetFD (id : nat) : st ostate (Z + Z) :=
  e ← rafEntity id;
  match e with None => sret (inl EIO) | Some (_, r) => fd ← raf_GetFD r; sret (inr fd) end.
Definition GetFPointer (id : nat) : st ostate (Z + Z) :=
  e ← rafEntity id;
  sret (match e with None => inl EIO | Some (_, r) => inr (filePointer r) end).
Definition SetFilePointerSync (id : nat) (fp : Z) : st ostate (Z + unit) :=
  e ← rafEntity id;
  match e with
  | None => sret (inl EIO)
  | Some (a, r) => _ ← update_entity a (ERaf (r <| filePointer := fp |>)); sret (inr tt)
  end.

Definition CalculateOffset (offset fPointer : Z) : st ostate Z :=
  if offset <? 0 then sret fPointer else add64 offset fPointer.

Definition ReadSync (id : nat) (bufLen : Z) (options : option ReadOptions) : st ostate ((Z + Z) * list Z) :=
  e ← rafEntity id;
  match e with
  | None => sret (inl EIO, [])
  | Some (a, r) =>
      let '(succ, len, offset) := ValidReadArg bufLen options in
      if negb succ then sret (inl EINVAL, []) else
      offset ← CalculateOffset offset (filePointer r);
      fd ← raf_GetFD r;
      '(actLen, bytes) ← DoReadRAF len fd offset;
      if actLen <? 0 then sret (inl actLen, bytes) else
      fp ← add64 offset actLen;
      _ ← update_entity a (ERaf (r <| filePointer := fp |>));
      sret (inr actLen, bytes)
  end.

(** The two [WriteSync], of a string and of a buffer. *)
Definition WriteSync (id : nat) (buffer : list Z) (options : option WriteOptions) : st ostate (Z + Z) :=
  e ← rafEntity id;
  match e with
  | None => sret (inl EIO)
  | Some (a, r) =>
      let '(succ, len, offset) := ValidWriteArg (Z.of_nat (length buffer)) options in
      if negb succ then sret (inl EINVAL) else
      offset ← CalculateOffset offset (filePointer r);
      fd ← raf_GetFD r;
      writeLen ← DoWriteRAF buffer len fd offset;
      if writeLen <? 0 then sret (inl writeLen) else
      fp ← add64 offset writeLen;
      _ ← update_entity a (ERaf (r <| filePointer := fp |>));
      sret (inr writeLen)
  end.

Definition Raf_CloseFdWithFdsan (fd fileTag : Z) : st ostate Z :=
  if fd >=? FD_SAN_OVERFLOW_END then CloseFd fd else
  tag ← GetFdTag fd;
  let tag := if (tag =? 0) || negb (tag =? fileTag) then Z.lor fileTag PREFIX_ADDR else 0 in
  _ ← SetFdTag fd 0;
  ret ← fdsan_close_with_tag fd tag;
  sret (match ret with inl errno => errno | inr _ => ERRNO_NOERR end).

Definition CloseSync (id : nat) : st ostate (Z + unit) :=
  e ← rafEntity id;
  match e with
  | None => sret (inl EIO)
  | Some (fileTag, r) =>
      fd ← raf_GetFD r;
      err ← Raf_CloseFdWithFdsan fd fileTag;
      sret (if negb (err =? 0) then inl err else inr tt)
  end.

Definition FsRandomAccessFile_Constructor : st ostate (Z + nat) :=
  e ← new_entity (ERaf (mkRaf None 0 INVALID_POS INVALID_POS));
  match e with
  | None => sret (inl ENOMEM)
  | Some a =>
      ok ← alloc;
      if negb ok then _ ← delete_entity a; sret (inl EIO) else λ s,
      let id := fresh (dom (rafs s)) in Some (inr id, s <| rafs := <[id := a]> (rafs s) |>)
  end.
Definition delete_raf (id : nat) : st ostate unit := λ s,
  Some (tt, (match rafs s !! id with Some a => s <| heap := delete a (heap s) |> | None => s end)
            <| rafs := delete id (rafs s) |>).

(** ** [CreateRandomAccessFileCore] *)

Record RandomAccessFileOptions := mkRafOptions { op_start : option Z; op_end : option Z }.

Definition ValidRafOptions (op : RandomAccessFileOptions) : bool * Z * Z :=
  let opStart := INVALID_POS in
  let opEnd := INVALID_POS in
  match op_start op with
  | Some start =>
      if start <? 0 then (false, opStart, opEnd) else
      let opStart := start in
      match op_end op with
      | Some e => if e <? 0 then (false, opStart, opEnd) else (true, opStart, e)
      | None => (true, opStart, opEnd)
      end
  | None =>
      match op_end op with
      | Some e => if e <? 0 then (false, opStart, opEnd) else (true, opStart, e)
      | None => (true, opStart, opEnd)
      end
  end.

(** The positions of [options] are local to the branch that checks them. *)
Definition Raf_ValidAndConvertFlags (mode : option Z) (options : option RandomAccessFileOptions) (isPath : bool)
    : bool * Z * Z * Z :=
  let start := INVALID_POS in
  let e := INVALID_POS in
  let after flags :=
    match options with
    | Some op =>
        let '(succOpt, start', e') := ValidRafOptions op in
        if negb succOpt then (false, flags, start', e') else (true, flags, start, e)
    | None => (true, flags, start, e)
    end in
  match (if isPath then mode else None) with
  | Some modeValue =>
      if modeValue <? 0 then (false, O_RDONLY, start, e) else after (ConvertFlags modeValue)
  | None => after O_RDONLY
  end.

(** [ParseStringToFileInfo] and [ParseFdToFileInfo]: an error, or the descriptor of the guard. *)
Definition ParseStringToFileInfo (path : string) : st ostate (option Z) :=
  fdg ← alloc;
  sret (if negb fdg then Some ENOMEM else None).
Definition ParseFdToFileInfo (fd : Z) : st ostate (Z + Z) :=
  if fd <? 0 then sret (inl EINVAL) else
  r ← dup fd;
  match r with
  | inl _ => sret (inl EINVAL)
  | inr dupFd =>
      fdg ← alloc;
      if negb fdg then _ ← close dupFd; sret (inl ENOMEM) else sret (inr dupFd)
  end.

(** The guard that owns [fd] does not close it. *)
Definition InstantiateRandomAccessFile (fd fp start e : Z) : st ostate (Z + nat) :=
  result ← FsRandomAccessFile_Constructor;
  match result with
  | inl _ => sret (inl EIO)
  | inr objRAF =>
      entity ← rafEntity objRAF;
      match entity with
      | None => sret (inl EIO)
      | Some (a, _) =>
          _ ← update_entity a (ERaf (mkRaf (Some fd) fp start e));
          _ ← record_born a fd;
          _ ← SetFdTag fd a;
          sret (inr objRAF)
      end
  end.

Definition with_options (fd : Z) (options : option RandomAccessFileOptions) : st ostate (Z + nat) :=
  match options with
  | Some op =>
      let '(succ, start, e) := ValidRafOptions op in
      if succ then InstantiateRandomAccessFile fd 0 start e
      else InstantiateRandomAccessFile fd 0 INVALID_POS INVALID_POS
  | None => InstantiateRandomAccessFile fd 0 INVALID_POS INVALID_POS
  end.

(** Two functions of the same name: of a path and of a descriptor. *)
Definition DoCreateRandomAccessFile (path : string) (mode : option Z) (options : option RandomAccessFileOptions)
    : st ostate (Z + nat) :=
  failed ← ParseStringToFileInfo path;
  match failed with
  | Some err => sret (inl err)
  | None =>
      let '(succFlags, flags, _, _) := Raf_ValidAndConvertFlags mode options true in
      if negb succFlags then sret (inl EINVAL) else
      ret ← uv_fs_open path flags;
      if ret <? 0 then sret (inl ret) else with_options ret options
  end.
Definition DoCreateRandomAccessFile_fd (fd : Z) (options : option RandomAccessFileOptions) : st ostate (Z + nat) :=
  r ← ParseFdToFileInfo fd;
  match r with inl err => sret (inl err) | inr dupFd => with_options dupFd options end.

(** ** Programs *)

Inductive op :=
  | OOpen (path : string) (mode : option Z)
  | ODup (fd : Z)
  | OCreate (path : string) (mode : option Z) (options : option RandomAccessFileOptions)
  | OCreateFd (fd : Z) (options : option RandomAccessFileOptions)
  | OCloseFd (fd : Z)
  | OCloseFile (file : nat)
  | OCloseRaf (raf : nat)
  | OLock (file : nat) (exclusive : bool)
  | OTryLock (file : nat) (exclusive : bool)
  | OUnLock (file : nat)
  | ODeleteFile (file : nat)               (** the engine collects an object *)
  | ODeleteRaf (raf : nat)
  | ORead (fd len : Z) (options : option ReadOptions)
  | OWrite (fd : Z) (bytes : list Z) (options : option WriteOptions)
  | OReadRaf (raf : nat) (len : Z) (options : option ReadOptions)
  | OWriteRaf (raf : nat) (bytes : list Z) (options : option WriteOptions)
  | OSetPointer (raf : nat) (fp : Z)
  | OReceive (d : odesc).                  (** a descriptor comes from elsewhere *)

Definition call {A} (f : A → Z) (m : st ostate (Z + A)) : st ostate ores :=
  r ← m; sret (match r with inl e => inl e | inr a => inr (f a) end, []).
Definition unit_result : unit → Z := λ _, 0.

Definition run_op (o : op) : st ostate ores :=
  match o with
  | OOpen path mode => call Z.of_nat (DoOpen path mode)
  | ODup fd => call Z.of_nat (DoDup fd)
  | OCreate path mode options => call Z.of_nat (DoCreateRandomAccessFile path mode options)
  | OCreateFd fd options => call Z.of_nat (DoCreateRandomAccessFile_fd fd options)
  | OCloseFd fd => call unit_result (CloseCore_DoClose_fd fd)
  | OCloseFile file => call unit_result (CloseCore_DoClose file)
  | OCloseRaf raf => call unit_result (CloseSync raf)
  | OLock file exclusive => call unit_result (Lock file exclusive)
  | OTryLock file exclusive => call unit_result (TryLock file exclusive)
  | OUnLock file => call unit_result (UnLock file)
  | ODeleteFile file => _ ← delete_file file; sret (inr 0, [])
  | ODeleteRaf raf => _ ← delete_raf raf; sret (inr 0, [])
  | ORead fd len options => DoRead fd len options
  | OWrite fd bytes options => call id (DoWrite fd bytes options)
  | OReadRaf raf len options => ReadSync raf len options
  | OWriteRaf raf bytes options => call id (WriteSync raf bytes options)
  | OSetPointer raf fp => call unit_result (SetFilePointerSync raf fp)
  | OReceive d => fd ← receive (inr d); sret (inr fd, [])
  end.

(** ** Descriptors *)

Definition tick (s : ostate) : ostate := s <| ocalls := S (ocalls s) |>.

Lemma alloc_eq (s : ostate) : alloc s = Some (o_fault C_new (ocalls s) =? 0, tick s).
Proof. unfold alloc, bind, sys. by destruct (o_fault C_new (ocalls s) =? 0). Qed.
Lemma wp_alloc {A} (f : bool → st ostate A) (Q : A → ostate → Prop) (s : ostate) :
  (∀ b, wp (f b) Q (tick s)) → wp (b ← alloc; f b) Q s.
Proof. intros H. unfold wp, bind. rewrite alloc_eq. apply H. Qed.

Lemma lowest_free (m : gmap Z nat) : m !! lowest m = None ∧ 0 <= lowest m.
Proof.
  unfold lowest. set (l := seqZ 0 (Z.of_nat (size m) + 1)).
  destruct (List.find (λ i, bool_decide (m !! i = None)) l) as [i|] eqn:E; cbn.
  - apply List.find_some in E as [Hi Hm%bool_decide_eq_true]. split; [done|].
    apply list_elem_of_In, elem_of_seqZ in Hi. lia.
  - exfalso. pose proof (List.find_none _ _ E) as Hn.
    assert (list_to_set l ⊆ dom m) as Hs.
    { intros i Hi%elem_of_list_to_set. apply elem_of_dom. specialize (Hn i (proj1 (list_elem_of_In l i) Hi)).
      cbn in Hn. apply bool_decide_eq_false in Hn. destruct (m !! i); [done|congruence]. }
    apply subseteq_size in Hs. rewrite size_list_to_set in Hs by apply NoDup_seqZ.
    rewrite size_dom in Hs. unfold l in Hs. rewrite length_seqZ in Hs. lia.
Qed.

Definition tag_of (s : ostate) (fd : Z) : Z := default 0 (closeTag s !! fd).

(** A tag belongs to an open descriptor; when the object of the tag is still there and is
    for this descriptor, it was made for the description the descriptor has now. *)
Record inv (s : ostate) : Prop := mkInv {
  inv_tag : ∀ fd, tag_of s fd ≠ 0 → 0 <= fd < FD_SAN_OVERFLOW_END ∧ ∃ d, fds s !! fd = Some d ∧
    ∀ e, heap s !! tag_of s fd = Some e → entity_fd e = Some fd → born s !! tag_of s fd = Some d;
  inv_overflow : overflow s = false → ∀ fd, FD_SAN_TABLE_SIZE <= fd → tag_of s fd = 0
}.

(** What the invariant reads is the same. *)
Definition same_objects (s s' : ostate) : Prop :=
  fds s' = fds s ∧ heap s' = heap s ∧ closeTag s' = closeTag s ∧ overflow s' = overflow s ∧ born s' = born s.
Lemma inv_same (s s' : ostate) : same_objects s s' → inv s → inv s'.
Proof.
  intros (Hf & Hh & Ht & Ho & Hb) [H1 H2]. split; unfold tag_of in *; rewrite ?Hf, ?Hh, ?Ht, ?Ho, ?Hb; auto.
Qed.

Lemma alignedCount_enough : FD_SAN_OVERFLOW_END - FD_SAN_TABLE_SIZE <= alignedCount.
Proof. vm_compute. discriminate. Qed.

(** All but the table of tags. *)
Definition kept (s s' : ostate) : Prop :=
  fds s' = fds s ∧ heap s' = heap s ∧ born s' = born s ∧ files s' = files s ∧ rafs s' = rafs s ∧
  reports s' = reports s ∧ inodes s' = inodes s ∧ odescs s' = odescs s ∧ binder s' = binder s.

(** An entry is found for every number of the table, unless there is no memory. *)
Lemma entry_spec (fd : Z) (s : ostate) :
  ∃ r s', GetFdSanEntry fd s = Some (r, s') ∧
    kept s s' ∧ closeTag s' = closeTag s ∧
    (overflow s = true → overflow s' = true) ∧
    match r with
    | Some i => i = fd ∧ 0 <= fd < FD_SAN_OVERFLOW_END ∧ (FD_SAN_TABLE_SIZE <= fd → overflow s' = true)
    | None => fd < 0 ∨ FD_SAN_OVERFLOW_END <= fd ∨ FD_SAN_TABLE_SIZE <= fd ∧ overflow s = false
    end.
Proof.
  unfold GetFdSanEntry, GetFsFdEntry. destruct (fd <? 0) eqn:E1; zbool.
  { eexists _, _. split; [reflexivity|]. repeat (split; [done|]). by left. }
  destruct (fd >=? FD_SAN_OVERFLOW_END) eqn:E2; zbool.
  { eexists _, _. split; [reflexivity|]. repeat (split; [done|]). auto. }
  destruct (fd <? FD_SAN_TABLE_SIZE) eqn:E3; zbool.
  { eexists _, _. split; [reflexivity|]. repeat (split; [done|]). intros; lia. }
  pose proof alignedCount_enough. unfold bind, make_overflow, map_overflow, bind, sys.
  destruct (overflow s) eqn:Eo; cbn [negb].
  - rewrite (proj2 (Z.leb_gt _ _)) by lia. eexists _, _. split; [reflexivity|]. by repeat (split; [done|]).
  - destruct (o_fault C_mmap (ocalls s) =? 0); cbn [negb].
    + rewrite (proj2 (Z.leb_gt _ _)) by lia. eexists _, _. split; [reflexivity|]. by repeat (split; [done|]).
    + eexists _, _. split; [reflexivity|]. repeat (split; [done|]). auto.
Qed.

Lemma kept_trans (s1 s2 s3 : ostate) : kept s1 s2 → kept s2 s3 → kept s1 s3.
Proof. unfold kept. intros H1 H2. destruct_and!. repeat split; congruence. Qed.

Lemma GetFdTag_spec (fd : Z) (s : ostate) :
  inv s → ∃ s', GetFdTag fd s = Some (tag_of s fd, s') ∧ kept s s' ∧ closeTag s' = closeTag s ∧ inv s'.
Proof.
  intros HI. unfold GetFdTag, bind. destruct (entry_spec fd s) as (r & s' & -> & Hk & Ht & Ho & Hr).
  assert (inv s') as HI'.
  { destruct HI as [H1 H2]. destruct Hk as (Hf & Hh & Hb & _). split; unfold tag_of in *; rewrite ?Hf, ?Hh, ?Ht, ?Hb; [done|].
    intros Ho'. destruct (overflow s); [by rewrite Ho in Ho'|auto]. }
  destruct r as [i|].
  - destruct Hr as (-> & _). exists s'. split; [unfold tag_of; by rewrite Ht|done].
  - exists s'. split; [|done]. unfold sret. do 2 f_equal. symmetry.
    destruct (decide (tag_of s fd = 0)) as [|Hn]; [done|]. destruct (inv_tag s HI fd Hn) as [Hb _].
    destruct Hr as [?|[?|[? Hov]]]; [lia..|]. by apply (inv_overflow s HI Hov).
Qed.

Lemma SetFdTag_spec (fd t : Z) (s : ostate) :
  inv s → ∃ s', SetFdTag fd t s = Some (tt, s') ∧ kept s s' ∧
    (∀ g, g ≠ fd → tag_of s' g = tag_of s g) ∧
    (tag_of s' fd = t ∧ 0 <= fd < FD_SAN_OVERFLOW_END ∨ tag_of s' fd = 0 ∧ tag_of s fd = 0) ∧
    (overflow s' = false → ∀ g, FD_SAN_TABLE_SIZE <= g → tag_of s' g = 0).
Proof.
  intros HI. unfold SetFdTag, bind. destruct (entry_spec fd s) as (r & s' & -> & Hk & Ht & Ho & Hr).
  assert (∀ g, tag_of s' g = tag_of s g) as Hg by (intros g; unfold tag_of; by rewrite Ht).
  assert (overflow s' = false → ∀ g, FD_SAN_TABLE_SIZE <= g → tag_of s' g = 0) as Hv.
  { intros Ho' g Hl. rewrite Hg. apply (inv_overflow s HI); [|done].
    destruct (overflow s); [by rewrite Ho in Ho'|done]. }
  destruct r as [i|].
  - destruct Hr as (-> & Hfd & Hov). eexists. split; [reflexivity|]. split; [exact Hk|].
    assert (∀ g, tag_of (s' <| closeTag := <[fd := t]> (closeTag s') |>) g = if decide (g = fd) then t else tag_of s g) as Hn.
    { intros g. rewrite <-Hg. unfold tag_of. change (closeTag (s' <| closeTag := <[fd := t]> (closeTag s') |>)) with (<[fd := t]> (closeTag s')). destruct (decide (g = fd)) as [->|];
        [by rewrite lookup_insert_eq|by rewrite lookup_insert_ne]. }
    split; [intros g Hne; by rewrite Hn, decide_False|]. split; [left; by rewrite Hn, decide_True|].
    intros Ho' g Hl. rewrite Hn. destruct (decide (g = fd)) as [->|].
    + specialize (Hov Hl). change (overflow s' = false) in Ho'. congruence.
    + rewrite <-Hg. by apply Hv.
  - eexists. split; [reflexivity|]. split; [done|]. split; [auto|]. split; [|done]. right. rewrite Hg.
    enough (tag_of s fd = 0) by done.
    destruct (decide (tag_of s fd = 0)) as [|Hn]; [done|]. destruct (inv_tag s HI fd Hn) as [Hb _].
    destruct Hr as [?|[?|[? Hov]]]; [lia..|]. by apply (inv_overflow s HI Hov).
Qed.

(** A descriptor without a tag may be closed. *)
Lemma close_inv (fd : Z) (s : ostate) :
  inv s → tag_of s fd = 0 →
  ∃ r, close fd s = Some (r, tick s <| fds := delete fd (fds s) |>) ∧ inv (tick s <| fds := delete fd (fds s) |>) ∧
    (fds s !! fd = None ∧ r = inl EBADF ∨
     is_Some (fds s !! fd) ∧ r = (if o_fault C_close (ocalls s) =? 0 then inr tt else inl (o_fault C_close (ocalls s)))).
Proof.
  intros HI Ht.
  assert (inv (tick s <| fds := delete fd (fds s) |>)) as HI'.
  { destruct HI as [H1 H2]. split; [|exact H2]. intros g Hg. destruct (H1 g Hg) as (Hr & d & Hd & He).
    split; [done|]. exists d. split; [|exact He].
    change (delete fd (fds s) !! g = Some d). rewrite lookup_delete_ne; [done|]. intros ->. done. }
  unfold close. cbv zeta. change (fds (s <| ocalls := S (ocalls s) |>)) with (fds s).
  destruct (fds s !! fd) as [d|] eqn:E.
  - eexists. split; [reflexivity|]. split; [done|]. right. split; [by eexists|done].
  - eexists. split; [|split; [done|by left]]. do 2 f_equal. rewrite delete_id by done. by destruct s.
Qed.

(** ** Objects *)

(** An entity for [fd] at [a] that gets its tag. *)
Lemma bind_object (a fd : Z) (e : entity) (d : nat) (s : ostate) :
  inv s → fds s !! fd = Some d → entity_fd e = Some fd →
  ∃ s', (_ ← update_entity a e; _ ← record_born a fd; SetFdTag fd a) s = Some (tt, s') ∧
    inv s' ∧ fds s' = fds s ∧ files s' = files s ∧ rafs s' = rafs s ∧ heap s' = <[a := e]> (heap s).
Proof.
  intros HI Hd He. unfold bind, update_entity, record_born.
  change (fds (s <| heap := <[a := e]> (heap s) |>)) with (fds s). rewrite Hd.
  match goal with |- context [SetFdTag fd a ?x] => set (s1 := x) end.
  assert (HI1 : inv s1).
  { split; [|exact (inv_overflow s HI)]. intros g Hg. change (tag_of s1 g) with (tag_of s g) in *.
    destruct (inv_tag s HI g Hg) as (Hr & d' & Hd' & Ho). split; [done|]. exists d'. split; [done|].
    change (heap s1) with (<[a := e]> (heap s)). change (born s1) with (<[a := d]> (born s)).
    destruct (decide (tag_of s g = a)) as [<-|Hne].
    - rewrite !lookup_insert_eq. intros e' [= <-]. rewrite He. intros [= ->]. congruence.
    - rewrite !lookup_insert_ne by done. done. }
  destruct (SetFdTag_spec fd a s1 HI1) as (s' & -> & Hk & Hother & Hown & Hov).
  destruct Hk as (Hf & Hh & Hb & Hfi & Hra & _). exists s'. split; [done|].
  rewrite Hf, Hh, Hfi, Hra. split; [|by repeat split]. split; [|exact Hov].
  intros g Hg. rewrite Hf, Hh, Hb. destruct (decide (g = fd)) as [->|Hne].
  - destruct Hown as [[Ht Hr]|[Ht _]]; [|congruence]. split; [done|]. exists d. split; [done|].
    rewrite Ht. change (born s1) with (<[a := d]> (born s)). by rewrite lookup_insert_eq.
  - rewrite Hother in * by done. exact (inv_tag s1 HI1 g Hg).
Qed.


Lemma inv_tick (s : ostate) : inv s → inv (tick s).
Proof. apply inv_same. by repeat split. Qed.

(** Entities that are new have no descriptor yet, and the others keep theirs. *)
Lemma inv_heap (s s' : ostate) :
  inv s → fds s' = fds s → closeTag s' = closeTag s → overflow s' = overflow s → born s' = born s →
  (∀ a e, heap s' !! a = Some e → entity_fd e = None ∨ ∃ e0, heap s !! a = Some e0 ∧ entity_fd e0 = entity_fd e) →
  inv s'.
Proof.
  intros HI Hf Ht Ho Hb Hh. destruct HI as [H1 H2].
  split; unfold tag_of in *; rewrite ?Hf, ?Ht, ?Ho, ?Hb; [|done].
  intros fd Hg. destruct (H1 fd Hg) as (Hr & d & Hd & He). split; [done|]. exists d. split; [done|].
  intros e E Efd. destruct (Hh _ _ E) as [Hn|(e0 & E0 & Ee)]; [congruence|]. apply (He e0); congruence.
Qed.

Lemma inv_insert (s s' : ostate) (a : Z) (e : entity) :
  inv s → fds s' = fds s → closeTag s' = closeTag s → overflow s' = overflow s → born s' = born s →
  heap s' = <[a := e]> (heap s) →
  (entity_fd e = None ∨ ∃ e0, heap s !! a = Some e0 ∧ entity_fd e0 = entity_fd e) → inv s'.
Proof.
  intros HI Hf Ht Ho Hb Hh He. apply (inv_heap s); [done..|]. intros b e'. rewrite Hh, lookup_insert_Some.
  intros [[<- <-]|[_ E]]; [done|right; by exists e'].
Qed.
Lemma inv_subheap (s s' : ostate) :
  inv s → fds s' = fds s → closeTag s' = closeTag s → overflow s' = overflow s → born s' = born s →
  heap s' ⊆ heap s → inv s'.
Proof.
  intros HI Hf Ht Ho Hb Hh. apply (inv_heap s); [done..|]. intros a e E. right. exists e.
  split; [by eapply lookup_weaken|done].
Qed.

Lemma wp_new_entity (e : entity) (Q : option Z → ostate → Prop) (s : ostate) :
  Q None (tick s) →
  (∀ a, heap s !! a = None → Q (Some a) (tick s <| heap := <[a := e]> (heap s) |>)) →
  wp (new_entity e) Q s.
Proof.
  intros H0 H. unfold new_entity. apply wp_alloc. intros [|]; [|done]. cbn [negb]. unfold wp.
  apply H. apply not_elem_of_dom. apply o_address_fresh.
Qed.

Definition empty_file : FileEntity := mkFileEntity None "" "".

(** What the maker of an object leaves: on error nothing. *)
Definition made {A} (get : ostate → gmap nat A) (new : Z → A) (e : entity) (s : ostate) (r : Z + nat) (s' : ostate) : Prop :=
  inv s' ∧ fds s' = fds s ∧ closeTag s' = closeTag s ∧
  match r with
  | inl e => 0 < e ∧ heap s' = heap s ∧ get s' = get s
  | inr id => ∃ a, get s !! id = None ∧ heap s !! a = None ∧
                   get s' = <[id := new a]> (get s) ∧ heap s' = <[a := e]> (heap s)
  end.

Lemma FsFile_Constructor_spec (s : ostate) :
  inv s → wp FsFile_Constructor (λ r s', made files Some (EFile empty_file) s r s' ∧ rafs s' = rafs s) s.
Proof.
  intros HI. unfold FsFile_Constructor. apply wp_bind, wp_new_entity.
  - apply wp_ret. split; [|done]. split; [by apply inv_tick|]. by repeat split.
  - intros a Ha. apply wp_alloc. intros [|]; cbn [negb].
    + apply wp_intro. intros r s' [= <- <-]. split; [|done]. split; [|split; [done|split; [done|]]].
      * by eapply (inv_insert s); [..|left].
      * exists a. split; [|by repeat split]. apply not_elem_of_dom, is_fresh.
    + apply wp_bind, wp_intro. intros [] s' [= <-]. apply wp_ret. split; [|done].
      assert (Hh : delete a (<[a := EFile (mkFileEntity None "" "")]> (heap s)) = heap s) by by apply delete_insert_id.
      split; [|split; [done|split; [done|split; [done|split; [exact Hh|done]]]]].
      apply (inv_subheap s); [done..|]. apply reflexive_eq. exact Hh.
Qed.

Lemma FsRandomAccessFile_Constructor_spec (s : ostate) :
  inv s → wp FsRandomAccessFile_Constructor
    (λ r s', made rafs id (ERaf (mkRaf None 0 INVALID_POS INVALID_POS)) s r s' ∧ files s' = files s) s.
Proof.
  intros HI. unfold FsRandomAccessFile_Constructor. apply wp_bind, wp_new_entity.
  - apply wp_ret. split; [|done]. split; [by apply inv_tick|]. by repeat split.
  - intros a Ha. apply wp_alloc. intros [|]; cbn [negb].
    + apply wp_intro. intros r s' [= <- <-]. split; [|done]. split; [|split; [done|split; [done|]]].
      * by eapply (inv_insert s); [..|left].
      * exists a. split; [|by repeat split]. apply not_elem_of_dom, is_fresh.
    + apply wp_bind, wp_intro. intros [] s' [= <-]. apply wp_ret. split; [|done].
      assert (Hh : delete a (<[a := ERaf (mkRaf None 0 INVALID_POS INVALID_POS)]> (heap s)) = heap s)
        by by apply delete_insert_id.
      split; [|split; [done|split; [done|split; [done|split; [exact Hh|done]]]]].
      apply (inv_subheap s); [done..|]. apply reflexive_eq. exact Hh.
Qed.


Lemma wp_get {A B} (g : ostate → A) (f : A → st ostate B) (Q : B → ostate → Prop) (s : ostate) :
  wp (f (g s)) Q s → wp (x ← (λ s, Some (g s, s)); f x) Q s.
Proof. done. Qed.

(** What a failed operation leaves: no descriptor and no object. *)
Definition nothing_left (s s' : ostate) : Prop :=
  fds s' = fds s ∧ heap s' = heap s ∧ files s' = files s ∧ rafs s' = rafs s.

Lemma wp_close_fresh {A} (fd : Z) (f : Z + unit → st ostate A) (Q : A → ostate → Prop) (s : ostate) :
  inv s → tag_of s fd = 0 →
  (∀ r s', inv s' → s' = tick s <| fds := delete fd (fds s) |> → wp (f r) Q s') →
  wp (r ← close fd; f r) Q s.
Proof.
  intros HI Ht H. destruct (close_inv fd s HI Ht) as (r & E & HI' & _). unfold wp, bind. rewrite E. by apply H.
Qed.

Lemma wp_bind_object {A} (a fd : Z) (e : entity) (d : nat) (f : unit → st ostate A) (Q : A → ostate → Prop) (s : ostate) :
  inv s → fds s !! fd = Some d → entity_fd e = Some fd →
  (∀ s', inv s' → fds s' = fds s → files s' = files s → rafs s' = rafs s → heap s' = <[a := e]> (heap s) →
     wp (f tt) Q s') →
  wp (_ ← update_entity a e; _ ← record_born a fd; u ← SetFdTag fd a; f u) Q s.
Proof.
  intros HI Hd He H. destruct (bind_object a fd e d s HI Hd He) as (s' & E & HI' & Hf & Hfi & Hra & Hh).
  specialize (H s' HI' Hf Hfi Hra Hh). revert E. unfold wp, bind, update_entity, record_born.
  destruct (SetFdTag fd a _) as [[[] s2]|]; [|done]. intros [= ->]. exact H.
Qed.

Lemma delete_file_eq (id : nat) (a : Z) (s s' : ostate) (u : unit) :
  delete_file id s = Some (u, s') → files s !! id = Some (Some a) →
  s' = s <| heap := delete a (heap s) |> <| files := delete id (files s) |>.
Proof. unfold delete_file. intros [= _ <-] E. by rewrite E. Qed.

Lemma InstantiateFile_spec (fd : Z) (p : string) (isUri : bool) (d : nat) (s : ostate) :
  inv s → fds s !! fd = Some d → tag_of s fd = 0 →
  wp (InstantiateFile fd p isUri)
    (λ r s', inv s' ∧ match r with
                      | inl e => 0 < e ∧ fds s' = delete fd (fds s) ∧ heap s' = heap s ∧ files s' = files s ∧ rafs s' = rafs s
                      | inr id => ∃ a f, fds s' = fds s ∧ fd_ f = Some fd ∧ files s !! id = None ∧ heap s !! a = None ∧
                                    files s' = <[id := Some a]> (files s) ∧ heap s' = <[a := EFile f]> (heap s) ∧
                                    rafs s' = rafs s
                      end) s.
Proof.
  intros HI Hd Ht. unfold InstantiateFile. apply wp_bind. eapply wp_mono, (FsFile_Constructor_spec s HI).
  intros [e|id] s1 [(HI1 & Hf1 & Ht1 & H1) Hr1].
  - destruct H1 as (He & Hh1 & Hfi1). unfold CloseOnError. apply wp_bind, wp_close_fresh;
      [done|unfold tag_of in *; by rewrite Ht1|]. intros r s2 HI2 ->. apply wp_ret, wp_ret. split; [done|].
    split; [done|]. change (delete fd (fds s1) = delete fd (fds s) ∧ heap s1 = heap s ∧ files s1 = files s ∧ rafs s1 = rafs s).
    by rewrite Hf1.
  - destruct H1 as (a & Hid & Ha & Hfi1 & Hh1).
    unfold GetFileEntity. apply wp_get. rewrite Hfi1, lookup_insert_eq. cbn [mjoin option_join].
    apply wp_alloc. intros [|]; cbn [negb].
    + set (f := if isUri then _ else _). apply (wp_bind_object a fd (EFile f) d);
        [by apply inv_tick|change (fds s1 !! fd = Some d); by rewrite Hf1|by destruct isUri|].
      intros s2 HI2 Hf2 Hfi2 Hra2 Hh2. apply wp_ret. split; [done|]. exists a, f.
      split; [by transitivity (fds s1)|]. split; [by destruct isUri|]. split; [done|]. split; [done|].
      split; [by transitivity (files s1)|]. split; [|by transitivity (rafs s1)].
      rewrite Hh2. change (heap (tick s1)) with (heap s1). rewrite Hh1. apply insert_insert_eq.
    + apply wp_close_fresh; [by apply inv_tick|unfold tag_of; change (closeTag (tick s1)) with (closeTag s1);
        by rewrite Ht1|]. intros r s2 HI2 ->.
      apply wp_bind, wp_intro. intros [] s3 E. apply wp_ret.
      assert (Hid2 : files s1 !! id = Some (Some a)) by by rewrite Hfi1, lookup_insert_eq.
      apply (delete_file_eq id a) in E as ->; [|exact Hid2]. split; [by apply (inv_subheap _ _ HI2), delete_subseteq|].
      split; [done|].
      change (delete fd (fds s1) = delete fd (fds s) ∧ delete a (heap s1) = heap s ∧ delete id (files s1) = files s ∧
              rafs s1 = rafs s).
      rewrite Hf1, Hh1, Hfi1, !delete_insert_id by done. done.
Qed.


(** A call gave a new descriptor without a tag, or failed. *)
Definition opened (s : ostate) (ret : Z) (s' : ostate) : Prop :=
  inv s' ∧ heap s' = heap s ∧ files s' = files s ∧ rafs s' = rafs s ∧ closeTag s' = closeTag s ∧
  (ret < 0 ∧ fds s' = fds s ∨
   0 <= ret ∧ fds s !! ret = None ∧ tag_of s' ret = 0 ∧ ∃ d, fds s' = <[ret := d]> (fds s)).

Lemma inv_new_fd (s s' : ostate) (d : nat) :
  inv s → heap s' = heap s → closeTag s' = closeTag s → overflow s' = overflow s → born s' = born s →
  fds s' = <[lowest (fds s) := d]> (fds s) → inv s' ∧ tag_of s' (lowest (fds s)) = 0.
Proof.
  intros HI Hh Ht Ho Hb Hf. destruct (lowest_free (fds s)) as [Hl _].
  assert (H0 : tag_of s (lowest (fds s)) = 0).
  { destruct (decide (tag_of s (lowest (fds s)) = 0)) as [|Hn]; [done|].
    destruct (inv_tag s HI _ Hn) as (_ & d' & Hd' & _). congruence. }
  destruct HI as [H1 H2]. split; [|unfold tag_of in *; by rewrite Ht].
  split; unfold tag_of in *; rewrite ?Hh, ?Ht, ?Ho, ?Hb, ?Hf; [|done].
  intros g Hg. destruct (H1 g Hg) as (Hr & d' & Hd' & He). split; [done|]. exists d'. split; [|done].
  rewrite lookup_insert_ne; [done|]. intros <-. done.
Qed.

Lemma opened_fail (s s' : ostate) (ret : Z) : inv s → s' = tick s → ret < 0 → opened s ret s'.
Proof. intros HI -> Hr. split; [by apply inv_tick|]. repeat split. by left. Qed.
Lemma opened_new (s s' : ostate) (d : nat) :
  inv s → heap s' = heap s → files s' = files s → rafs s' = rafs s → closeTag s' = closeTag s →
  overflow s' = overflow s → born s' = born s → fds s' = <[lowest (fds s) := d]> (fds s) →
  opened s (lowest (fds s)) s'.
Proof.
  intros HI Hh Hfi Hra Ht Ho Hb Hf. destruct (inv_new_fd s s' d) as [HI' H0]; [done..|].
  destruct (lowest_free (fds s)) as [Hl Hn]. split; [done|]. repeat (split; [done|]). right.
  repeat (split; [done|]). by exists d.
Qed.
Lemma opened_tick (s s' : ostate) (ret : Z) : opened (tick s) ret s' → opened s ret s'.
Proof. done. Qed.

Lemma uv_fs_open_spec (path : string) (flags : Z) (s : ostate) :
  inv s → wp (uv_fs_open path flags) (opened s) s.
Proof.
  intros HI. unfold wp, uv_fs_open, bind, open, sys, sret.
  destruct (o_fault C_open (ocalls s) =? 0) eqn:E.
  2: { apply opened_fail; [done..|]. cbn. pose proof (o_fault_nonneg C_open (ocalls s)). zbool. lia. }
  destruct (rights flags) as [rd wr]. change (paths (s <| ocalls := S (ocalls s) |>)) with (paths s).
  destruct (paths s !! path) as [ino|].
  - destruct (negb (Z.land flags UV_FS_O_DIRECTORY =? 0)); [by apply opened_fail|]. unfold install.
    destruct (Z.testbit flags 9 && wr); apply (opened_new s _ (fresh (dom (odescs s)))); try done.
  - destruct (negb (Z.testbit flags 6)); [by apply opened_fail|].
    destruct (negb (Z.land flags UV_FS_O_DIRECTORY =? 0)); [by apply opened_fail|].
    by apply (opened_new s _ (fresh (dom (odescs s)))).
Qed.

Lemma dup_spec (fd : Z) (s : ostate) :
  inv s → wp (dup fd) (λ r s', match r with
                               | inl e => 0 < e ∧ opened s (- e) s'
                               | inr fd => 0 <= fd ∧ opened s fd s'
                               end) s.
Proof.
  intros HI. unfold wp, dup, sys. destruct (o_fault C_dup (ocalls s) =? 0) eqn:E.
  - change (fds (s <| ocalls := S (ocalls s) |>)) with (fds s).
    destruct (fds s !! fd) as [d|]; [|split; [done|by apply opened_fail]].
    split; [apply lowest_free|]. by apply (opened_new s _ d).
  - pose proof (o_fault_nonneg C_dup (ocalls s)). zbool. split; [lia|]. apply opened_fail; [done..|lia].
Qed.

Lemma receive_spec (r : Z + odesc) (s : ostate) :
  inv s → (∀ e, r = inl e → e < 0) → wp (receive r) (opened s) s.
Proof.
  intros HI Hr. unfold receive, wp. destruct r as [e|d]; [|cbn; by eapply (opened_new s)].
  split; [done|]. repeat split. left. auto.
Qed.

Lemma OpenFileByPath_spec (path : string) (mode : Z) (s : ostate) :
  inv s → wp (OpenFileByPath path mode) (opened s) s.
Proof.
  intros HI. apply wp_alloc. intros [|]; [|by apply wp_ret, opened_fail].
  eapply wp_mono, uv_fs_open_spec; [|by apply inv_tick]. intros ret s'. apply opened_tick.
Qed.
Lemma OpenFileByDatashare_spec (path : string) (mode : Z) (s : ostate) :
  inv s → wp (OpenFileByDatashare path mode) (opened s) s.
Proof.
  intros HI. apply wp_alloc. intros [|]; [|by apply wp_ret, opened_fail]. cbn [negb].
  destruct o_datashare_ok; cbn [negb]; [|by apply wp_ret, opened_fail].
  eapply wp_mono, receive_spec; [|by apply inv_tick|apply o_datashare_neg]. intros ret s'. apply opened_tick.
Qed.


Lemma OpenByFileDataUri_spec (uri uriStr : string) (mode : Z) (s : ostate) :
  inv s → wp (OpenByFileDataUri uri uriStr mode) (λ r, opened s r.1) s.
Proof.
  intros HI. unfold OpenByFileDataUri. destruct (String.eqb _ "media").
  { apply wp_bind. eapply wp_mono, OpenFileByDatashare_spec; [|done]. intros res s' H. by apply wp_ret. }
  destruct (_ && _).
  - apply wp_bind. eapply wp_mono, OpenFileByDatashare_spec; [|done]. intros res s' H.
    destruct (res <? 0) eqn:E; apply wp_ret; [|done]. zbool.
    destruct H as (? & ? & ? & ? & ? & [[? ?]|[? _]]); [|lia]. repeat (split; [done|]). by left.
  - apply wp_bind. eapply wp_mono, OpenFileByPath_spec; [|done]. intros res s' H. by apply wp_ret.
Qed.

(** A descriptor that a remote URI names is open and no object has it. *)
Definition honest_uri (s : ostate) (path : string) : Prop :=
  Uri_GetScheme path = "datashare"%string → ∀ flags fd b,
  IsRemoteUri path (-1) flags (binder s) = (true, fd, b) → 0 <= fd → is_Some (fds s !! fd) ∧ tag_of s fd = 0.

(** There is a descriptor without a tag, or nothing happened. *)
Definition ready (s : ostate) (ret : Z) (s' : ostate) : Prop :=
  inv s' ∧ heap s' = heap s ∧ files s' = files s ∧ rafs s' = rafs s ∧
  (ret < 0 ∧ fds s' = fds s ∨ 0 <= ret ∧ tag_of s' ret = 0 ∧ is_Some (fds s' !! ret)).
Lemma opened_ready (s s' : ostate) (ret : Z) : opened s ret s' → ready s ret s'.
Proof.
  intros (? & ? & ? & ? & _ & [[? ?]|(? & ? & ? & d & Hd)]); repeat (split; [done|]); [by left|right].
  repeat (split; [done|]). rewrite Hd, lookup_insert_eq. by eexists.
Qed.

Lemma OpenFileByUri_spec (path : string) (mode : Z) (s : ostate) :
  inv s → (Uri_GetScheme path ≠ "datashare"%string → wp (OpenFileByUri path mode) (λ r, opened s r.1) s) ∧
          (honest_uri s path → wp (OpenFileByUri path mode) (λ r, ready s r.1) s).
Proof.
  intros HI. unfold OpenFileByUri.
  assert (Hfail : ∀ n, n < 0 → opened s n s) by (intros n Hn; split; [done|]; repeat split; by left).
  destruct (String.eqb (Uri_GetScheme path) "file"); [|destruct (String.eqb (Uri_GetScheme path) "content")].
  - pose proof (OpenByFileDataUri_spec path path mode s HI). split; [done|]. intros _.
    eapply wp_mono; [|done]. intros r s'. apply opened_ready.
  - assert (wp (OpenFileByBroker path mode) (λ r, opened s r.1) s).
    { unfold OpenFileByBroker. apply wp_bind. eapply wp_mono, receive_spec; [|done|apply o_broker_neg].
      intros res s' H. by apply wp_ret. }
    split; [done|]. intros _. eapply wp_mono; [|done]. intros r s'. apply opened_ready.
  - destruct (String.eqb (Uri_GetScheme path) "datashare") eqn:E.
    + apply String.eqb_eq in E. split; [done|]. intros Hh. specialize (Hh E mode).
      unfold is_remote_uri, wp, bind. destruct (IsRemoteUri path (-1) mode (binder s)) as [[[|] fd] b] eqn:Er; cbn [andb].
      * destruct (fd >=? 0) eqn:Ef; zbool; cbn; (split; [by apply (inv_same s)|]; repeat (split; [done|])).
        -- right. split; [done|]. destruct (Hh fd b eq_refl Ef). done.
        -- by left.
      * cbn. split; [by apply (inv_same s)|]. repeat (split; [done|]). by left.
    + split; [intros _; by apply wp_ret, Hfail|]. intros _. by apply wp_ret, opened_ready, Hfail.
Qed.

Lemma InstantiateFile_inv (fd : Z) (p : string) (isUri : bool) (s0 s : ostate) :
  ready s0 fd s → 0 <= fd → wp (InstantiateFile fd p isUri) (λ _ s', inv s') s.
Proof.
  intros (HI & _ & _ & _ & [[? _]|(_ & Ht & d & Hd)]) Hfd; [lia|].
  eapply wp_mono, InstantiateFile_spec; [|done..]. by intros r s' [? _].
Qed.

Lemma InstantiateFile_fail (fd : Z) (p : string) (isUri : bool) (s0 s : ostate) :
  opened s0 fd s → 0 <= fd →
  wp (InstantiateFile fd p isUri) (λ r s', match r with inl e => 0 < e ∧ nothing_left s0 s' | inr _ => True end) s.
Proof.
  intros (HI & Hh & Hfi & Hra & _ & [[? _]|(_ & Hn & Ht & d & Hd)]) Hfd; [lia|].
  eapply wp_mono, (InstantiateFile_spec fd p isUri d); [|done|by rewrite Hd, lookup_insert_eq|done].
  intros [e|id] s' [_ H]; [|done]. destruct H as (He & Hf & Hh' & Hfi' & Hra'). split; [done|].
  unfold nothing_left. rewrite Hf, Hd, Hh', Hfi', Hra'. by rewrite delete_insert_id.
Qed.

Lemma DoOpen_inv (path : string) (mode : option Z) (s : ostate) :
  inv s → honest_uri s path → wp (DoOpen path mode) (λ _ s', inv s') s.
Proof.
  intros HI Hh. unfold DoOpen. destruct (ValidAndConvertFlags mode) as [[|] flags]; cbn [negb]; [|by apply wp_ret].
  destruct (String.index 0 "://" path); apply wp_bind.
  - eapply wp_mono, (OpenFileByUri_spec path flags s HI); [|done]. intros [res u] s' H. cbn in H.
    destruct (res <? 0) eqn:E; zbool; [apply wp_ret, H|by eapply InstantiateFile_inv].
  - eapply wp_mono, OpenFileByPath_spec; [|done]. intros res s' H%opened_ready.
    destruct (res <? 0) eqn:E; zbool; [apply wp_ret, H|by eapply InstantiateFile_inv].
Qed.

Lemma wp_nothing (e : Z) (s s' : ostate) (ret : Z) :
  opened s ret s' → ret < 0 → e ≠ 0 →
  wp (sret (inl e : Z + nat)) (λ r s', match r with inl e => e ≠ 0 ∧ nothing_left s s' | inr _ => True end) s'.
Proof.
  intros (_ & Hh & Hfi & Hra & _ & [[_ Hf]|[? _]]) Hr He; [|lia]. apply wp_ret. by repeat split.
Qed.


Definition fails_clean (s : ostate) (r : Z + nat) (s' : ostate) : Prop :=
  match r with inl e => e ≠ 0 ∧ nothing_left s s' | inr _ => True end.

Lemma DoOpen_fail (path : string) (mode : option Z) (s : ostate) :
  inv s → Uri_GetScheme path ≠ "datashare"%string → wp (DoOpen path mode) (fails_clean s) s.
Proof.
  intros HI Hh. unfold DoOpen. destruct (ValidAndConvertFlags mode) as [[|] flags]; cbn [negb]; [|by apply wp_ret].
  assert (Hgo : ∀ ret p u s', opened s ret s' →
    wp (if ret <? 0 then sret (inl ret) else InstantiateFile ret p u) (fails_clean s) s').
  { intros ret p u s' H. destruct (ret <? 0) eqn:E; zbool; [eapply wp_nothing; [done..|lia]|].
    eapply wp_mono, InstantiateFile_fail; [|done..]. intros [e|id] s2; [|done]. intros [? ?]. split; [lia|done]. }
  destruct (String.index 0 "://" path); apply wp_bind.
  - eapply wp_mono; [|apply (proj1 (OpenFileByUri_spec path flags s HI) Hh)]. intros [res u] s' H. exact (Hgo _ _ _ _ H).
  - eapply wp_mono, OpenFileByPath_spec; [|done]. intros res s' H. exact (Hgo _ _ _ _ H).
Qed.

Lemma opened_tick' (s s' : ostate) (ret : Z) : opened s ret s' → opened s ret (tick s').
Proof. intros (HI & H). split; [by apply inv_tick|exact H]. Qed.

(** Closing a descriptor that a call has just given takes the call back. *)
Lemma wp_take_back {A} (ret : Z) (f : Z + unit → st ostate A) (Q : A → ostate → Prop) (s s' : ostate) :
  opened s ret s' → 0 <= ret →
  (∀ r s2, inv s2 → nothing_left s s2 → wp (f r) Q s2) → wp (r ← close ret; f r) Q s'.
Proof.
  intros (HI & Hh & Hfi & Hra & _ & [[? _]|(_ & Hn & Ht & d & Hd)]) Hr HQ; [lia|].
  apply wp_close_fresh; [done..|]. intros r s2 HI2 E. apply HQ; [done|].
  unfold nothing_left. rewrite E. change (delete ret (fds s') = fds s ∧ heap s' = heap s ∧ files s' = files s ∧ rafs s' = rafs s).
  by rewrite Hd, delete_insert_id.
Qed.

Lemma DoDup_spec (fd : Z) (s : ostate) :
  inv s → wp (DoDup fd) (λ r s', inv s' ∧ fails_clean s r s') s.
Proof.
  intros HI. unfold DoDup. destruct (negb (ValidFd fd)); [by apply wp_ret|].
  apply wp_bind. eapply wp_mono, dup_spec; [|done]. intros [errno|dst] s1 [Hr H].
  { apply wp_ret. split; [apply H|]. destruct H as (_ & Hh & Hfi & Hra & _ & [[_ Hf]|[? _]]); [|lia].
    split; [lia|by repeat split]. }
  apply wp_alloc. intros [|]; cbn [negb].
  2: { eapply wp_take_back; [by apply (opened_tick' s s1)|done|]. intros r s2 HI2 Hn. by apply wp_ret. }
  apply wp_bind, wp_bind. apply wp_intro. intros r s2 E.
  assert (opened s dst s2 ∧ (∀ e, r = inl e → 0 < e)) as [H2 He].
  { revert E. unfold sys. destruct (o_fault C_readlink (ocalls (tick s1)) =? 0) eqn:Ef.
    - destruct (fds _ !! dst); intros [= <- <-]; (split; [by apply (opened_tick' s (tick s1)), opened_tick'|by intros e [= <-]]).
    - intros [= <- <-]. split; [by apply (opened_tick' s (tick s1)), opened_tick'|].
      intros e [= <-]. pose proof (o_fault_nonneg C_readlink (ocalls (tick s1))). zbool.
      change (0 < o_fault C_readlink (ocalls (tick s1))). lia. }
  apply wp_ret. destruct r as [e|l]; cbn.
  - specialize (He e eq_refl). eapply wp_take_back; [done..|]. intros r s3 HI3 Hn. apply wp_ret. split; [done|].
    split; [lia|done].
  - pose proof (InstantiateFile_inv dst l false s s2 (opened_ready _ _ _ H2) Hr) as HA.
    pose proof (InstantiateFile_fail dst l false s s2 H2 Hr) as HB.
    eapply wp_mono, (wp_and _ _ _ _ HA HB). intros [e'|id] s3 [? HB']; (split; [done|]); [|done].
    destruct HB'. split; [lia|done].
Qed.


(** ** Closing *)

Lemma tag_high (s : ostate) (fd : Z) : inv s → FD_SAN_OVERFLOW_END <= fd → tag_of s fd = 0.
Proof.
  intros HI Hf. destruct (decide (tag_of s fd = 0)) as [|Hn]; [done|]. destruct (inv_tag s HI fd Hn). lia.
Qed.

Lemma CloseFd_inv (fd : Z) (s : ostate) : inv s → tag_of s fd = 0 → wp (CloseFd fd) (λ _ s', inv s') s.
Proof.
  intros HI Ht. unfold CloseFd. apply wp_alloc. intros [|]; [|by apply wp_ret, inv_tick]. cbn [negb].
  unfold uv_fs_close. apply wp_bind, wp_close_fresh; [by apply inv_tick|done|]. intros r s2 HI2 _. apply wp_ret.
  destruct (_ <? 0); by apply wp_ret.
Qed.

Lemma reset_tag (fd : Z) (s : ostate) :
  inv s → ∃ s', SetFdTag fd 0 s = Some (tt, s') ∧ kept s s' ∧ inv s' ∧ tag_of s' fd = 0.
Proof.
  intros HI. destruct (SetFdTag_spec fd 0 s HI) as (s' & E & Hk & Ho & Hown & Hv). exists s'.
  assert (H0 : tag_of s' fd = 0) by (destruct Hown as [[? _]|[? _]]; done).
  split; [done|]. split; [done|]. split; [|done]. destruct Hk as (Hf & Hh & Hb & _). split; [|done].
  intros g Hg. assert (g ≠ fd) by (intros ->; done). rewrite Ho in * by done. rewrite Hf, Hh, Hb. by apply (inv_tag s HI).
Qed.

(** Whether a close with the tag of the entity at [a] is not reported. *)
Definition own_tag (s : ostate) (fd a : Z) : bool := negb ((tag_of s fd =? 0) || negb (tag_of s fd =? a)).
Lemma own_tag_true (s : ostate) (fd a : Z) : own_tag s fd a = true ↔ tag_of s fd = a ∧ a ≠ 0.
Proof.
  unfold own_tag. destruct (tag_of s fd =? 0) eqn:E1, (tag_of s fd =? a) eqn:E2; cbn; zbool; naive_solver congruence.
Qed.

(** Closing with a tag: the descriptor is closed whatever the tag is, and its tag is reset. *)
Definition closed_with (s : ostate) (fd a : Z) (err : Z) (s' : ostate) : Prop :=
  inv s' ∧ fds s' = delete fd (fds s) ∧ tag_of s' fd = 0 ∧
  reports s' = reports s ++ (if own_tag s fd a then [] else [(fd, Z.lor a PREFIX_ADDR)]) ∧
  heap s' = heap s ∧ files s' = files s ∧ rafs s' = rafs s ∧ born s' = born s ∧
  0 <= err ∧ (fds s !! fd = None → err = EBADF).

Lemma fdsan_close_spec (fd tag : Z) (s : ostate) :
  inv s → tag_of s fd = 0 →
  wp (fdsan_close_with_tag fd tag)
    (λ r s', inv s' ∧ fds s' = delete fd (fds s) ∧ closeTag s' = closeTag s ∧
       reports s' = reports s ++ (if tag =? 0 then [] else [(fd, tag)]) ∧
       heap s' = heap s ∧ files s' = files s ∧ rafs s' = rafs s ∧ born s' = born s ∧
       match r with inl e => 0 < e ∧ (fds s !! fd = None → e = EBADF) | inr _ => is_Some (fds s !! fd) end) s.
Proof.
  intros HI Ht. unfold fdsan_close_with_tag. set (s1 := if tag =? 0 then s else s <| reports := reports s ++ [(fd, tag)] |>).
  match goal with |- wp _ ?Q _ => change (wp (close fd) Q s1) end.
  assert (Hs : inv s1 ∧ tag_of s1 fd = 0 ∧ fds s1 = fds s ∧ closeTag s1 = closeTag s ∧ heap s1 = heap s ∧ files s1 = files s ∧
    rafs s1 = rafs s ∧ born s1 = born s ∧ reports s1 = reports s ++ (if tag =? 0 then [] else [(fd, tag)])).
  { unfold s1. destruct (tag =? 0); [rewrite app_nil_r; split; [done|by repeat split]|].
    split; [by apply (inv_same s)|]. by repeat split. }
  destruct Hs as (HI1 & Ht1 & Hf & Hct & Hh & Hfi & Hra & Hb & Hre).
  destruct (close_inv fd s1 HI1 Ht1) as (r & E & HI2 & Hr). unfold wp. rewrite E.
  split; [done|]. rewrite <-Hf, <-Hct, <-Hh, <-Hfi, <-Hra, <-Hb, <-Hre. repeat (split; [done|]).
  clearbody s1. destruct Hr as [[Hn ->]|[Hs ->]]; [by rewrite Hn|].
  destruct (o_fault C_close (ocalls s1) =? 0) eqn:Ef; [done|].
  pose proof (o_fault_nonneg C_close (ocalls s1)). zbool. split; [lia|]. intros Hn. rewrite Hn in Hs. by destruct Hs.
Qed.

Lemma close_with_tag (fd a : Z) (s : ostate) :
  inv s → fd < OVERFLOW_END → wp (CloseFdWithFdsan fd false a) (closed_with s fd a) s.
Proof.
  intros HI Hfd. unfold CloseFdWithFdsan. destruct (fd >=? OVERFLOW_END) eqn:E; zbool; [lia|].
  destruct (GetFdTag_spec fd s HI) as (s1 & E1 & Hk1 & Ht1 & HI1).
  apply wp_bind. unfold wp at 1. rewrite E1. cbv zeta.
  destruct (reset_tag fd s1 HI1) as (s2 & E2 & Hk2 & HI2 & Ht2). apply wp_bind. unfold wp at 1. rewrite E2.
  pose proof (kept_trans _ _ _ Hk1 Hk2) as (Hf & Hh & Hb & Hfi & Hra & Hre & _).
  apply wp_bind. eapply wp_mono, fdsan_close_spec; [|done..].
  intros r s' (HI' & Hf' & Ht' & Hre' & Hh' & Hfi' & Hra' & Hb' & Hr). apply wp_ret. unfold closed_with.
  rewrite Hf', Hre', Hh', Hfi', Hra', Hb', Hf, Hre, Hh, Hfi, Hra, Hb.
  split; [done|]. split; [done|]. split; [unfold tag_of in *; by rewrite Ht'|]. split.
  - f_equal. unfold own_tag. destruct ((tag_of s fd =? 0) || negb (tag_of s fd =? a)) eqn:Eo; cbn [negb]; [|done].
    rewrite (proj2 (Z.eqb_neq _ _)); [done|]. rewrite Z.lor_eq_0_iff. by intros [_ ?].
  - repeat (split; [done|]). rewrite Hf in Hr. destruct r as [e|[]]; [split; [lia|naive_solver]|].
    split; [done|]. intros Hn. rewrite Hn in Hr. by destruct Hr.
Qed.

Lemma CloseFdWithFdsan_inv (fd : Z) (isFd : bool) (a : Z) (s : ostate) :
  inv s → wp (CloseFdWithFdsan fd isFd a) (λ _ s', inv s') s.
Proof.
  intros HI. destruct (decide (fd < OVERFLOW_END)) as [Hl|Hl].
  - destruct isFd; [|eapply wp_mono, close_with_tag; [|done..]; by intros ? ? [? _]].
    unfold CloseFdWithFdsan. destruct (fd >=? OVERFLOW_END) eqn:E; zbool; [lia|].
    destruct (reset_tag fd s HI) as (s2 & E2 & Hk2 & HI2 & Ht2). apply wp_bind. unfold wp at 1. rewrite E2.
    by apply CloseFd_inv.
  - unfold CloseFdWithFdsan. destruct (fd >=? OVERFLOW_END) eqn:E; zbool; [|lia].
    apply CloseFd_inv; [done|]. apply tag_high; [done|]. unfold OVERFLOW_END, FD_SAN_OVERFLOW_END in *. lia.
Qed.

(** The two closes are the same code. *)
Lemma Raf_close_same (fd a : Z) : Raf_CloseFdWithFdsan fd a = CloseFdWithFdsan fd false a.
Proof. done. Qed.


(** ** Every operation *)

Lemma InstantiateRandomAccessFile_inv (fd fp start e : Z) (s0 s : ostate) :
  opened s0 fd s → 0 <= fd → wp (InstantiateRandomAccessFile fd fp start e) (λ _ s', inv s') s.
Proof.
  intros (HI & _ & _ & _ & _ & [[? _]|(_ & _ & _ & d & Hd)]) Hfd; [lia|]. unfold InstantiateRandomAccessFile.
  apply wp_bind. eapply wp_mono, (FsRandomAccessFile_Constructor_spec s HI).
  intros [err|id] s1 [(HI1 & Hf1 & Ht1 & H1) Hr1]; [by apply wp_ret|].
  destruct H1 as (a & Hid & Ha & Hr & Hh). unfold rafEntity. apply wp_get.
  rewrite Hr, lookup_insert_eq. cbn [Datatypes.id]. rewrite Hh, lookup_insert_eq.
  eapply (wp_bind_object a fd _ d); [done|by rewrite Hf1, Hd, lookup_insert_eq|done|].
  intros s2 HI2 _ _ _ _. by apply wp_ret.
Qed.

Lemma with_options_inv (fd : Z) (options : option RandomAccessFileOptions) (s0 s : ostate) :
  opened s0 fd s → 0 <= fd → wp (with_options fd options) (λ _ s', inv s') s.
Proof.
  intros H Hfd. unfold with_options. destruct options as [o|]; [|by eapply InstantiateRandomAccessFile_inv].
  destruct (ValidRafOptions o) as [[[|] start] e]; by eapply InstantiateRandomAccessFile_inv.
Qed.

Lemma DoCreate_inv (path : string) (mode : option Z) (options : option RandomAccessFileOptions) (s : ostate) :
  inv s → wp (DoCreateRandomAccessFile path mode options) (λ _ s', inv s') s.
Proof.
  intros HI. unfold DoCreateRandomAccessFile, ParseStringToFileInfo. apply wp_bind, wp_alloc.
  intros [|]; cbn [negb]; apply wp_ret; [|by apply wp_ret, inv_tick].
  destruct (Raf_ValidAndConvertFlags mode options true) as [[[[|] flags] ?] ?]; cbn [negb]; [|by apply wp_ret, inv_tick].
  apply wp_bind. eapply wp_mono, uv_fs_open_spec; [|by apply inv_tick]. intros ret s1 H.
  destruct (ret <? 0) eqn:E; zbool; [apply wp_ret, H|by eapply with_options_inv].
Qed.

Lemma DoCreate_fd_inv (fd : Z) (options : option RandomAccessFileOptions) (s : ostate) :
  inv s → wp (DoCreateRandomAccessFile_fd fd options) (λ _ s', inv s') s.
Proof.
  intros HI. unfold DoCreateRandomAccessFile_fd, ParseFdToFileInfo. destruct (fd <? 0); [by apply wp_ret|].
  apply wp_bind, wp_bind. eapply wp_mono, dup_spec; [|done]. intros [e|dst] s1 [Hr H]; [apply wp_ret, wp_ret, H|].
  apply wp_alloc. intros [|]; cbn [negb].
  - apply wp_ret. eapply with_options_inv; [by apply (opened_tick' s s1)|done].
  - eapply wp_take_back; [by apply (opened_tick' s s1)|done|]. intros r s2 HI2 _. by apply wp_ret, wp_ret.
Qed.

Lemma CheckFileEntityValid_Some (file : nat) (a fd : Z) (f : FileEntity) (s : ostate) :
  CheckFileEntityValid file s = Some (Some (a, f, fd), s) ↔
  files s !! file = Some (Some a) ∧ heap s !! a = Some (EFile f) ∧ fd_ f = Some fd.
Proof.
  unfold CheckFileEntityValid. split.
  - intros H. repeat case_match; simplify_eq; done.
  - by intros (-> & -> & ->).
Qed.

(** Closing a file: nothing when it is closed already; otherwise its descriptor is closed with
    its tag, and the object keeps its entity only on error. *)
Lemma DoClose_spec (file : nat) (s : ostate) :
  wp (CheckFileEntityValid file)
    (λ v _, match v with
            | None => CloseCore_DoClose file s = Some (inl EINVAL, s)
            | Some (a, f, fd) =>
                ∀ Q : Z → ostate → Prop,
                wp (CloseFdWithFdsan fd false a) Q s →
                wp (CloseCore_DoClose file)
                  (λ r s', match r with
                           | inl e => e ≠ 0 ∧ Q e s'
                           | inr _ => ∃ s1, Q 0 s1 ∧ RemoveEntity file s1 = Some (tt, s')
                           end) s
            end) s.
Proof.
  unfold wp, CloseCore_DoClose, FsFile_GetFD, GetFileEntity, bind.
  destruct (CheckFileEntityValid file s) as [[[[[a f] fd]|] s1]|] eqn:E; [| |done].
  - assert (s1 = s) as -> by (unfold CheckFileEntityValid in E; congruence).
    apply CheckFileEntityValid_Some in E as (Hfi & _ & _). cbn. rewrite Hfi. cbn. intros Q H.
    destruct (CloseFdWithFdsan fd false a s) as [[err s2]|]; [|done]. destruct (err =? 0) eqn:Ee; cbn; zbool.
    + exists s2. by subst.
    + done.
  - by injection E as _ ->.
Qed.


(** Computations that do not touch descriptors, objects and tags. *)
Definition untouched {A} (m : st ostate A) : Prop := ∀ s, wp m (λ _ s', same_objects s s') s.
Lemma objects_refl (s : ostate) : same_objects s s.
Proof. by repeat split. Qed.
Lemma objects_trans (s1 s2 s3 : ostate) : same_objects s1 s2 → same_objects s2 s3 → same_objects s1 s3.
Proof. unfold same_objects. intros. destruct_and!. repeat split; congruence. Qed.
Lemma untouched_ret {A} (a : A) : untouched (sret a).
Proof. intros s. apply objects_refl. Qed.
Lemma untouched_undefined {A} : untouched (undefined : st ostate A).
Proof. by intros s. Qed.
Lemma untouched_bind {A B} (m : st ostate A) (f : A → st ostate B) :
  untouched m → (∀ a, untouched (f a)) → untouched (bind m f).
Proof.
  intros Hm Hf s. apply wp_bind. eapply wp_mono, Hm. intros a s1 H1.
  eapply wp_mono, (Hf a s1). intros b s2. by apply objects_trans.
Qed.
Lemma untouched_alloc : untouched alloc.
Proof. intros s. unfold wp. rewrite alloc_eq. by repeat split. Qed.
Lemma untouched_sys {A} (k : ocall) (f : ostate → (Z + A) * ostate) :
  (∀ s, same_objects s (f s).2) → untouched (sys k f).
Proof.
  intros H s. unfold wp, sys. destruct (_ =? 0); [|by repeat split].
  specialize (H (tick s)). unfold tick in H. by destruct (f _) as [r s'].
Qed.
Lemma untouched_kread (fd len offset : Z) : untouched (kread fd len offset).
Proof. apply untouched_sys. intros s. repeat case_match; by repeat split. Qed.
Lemma untouched_kwrite (fd : Z) (bytes : list Z) (offset : Z) : untouched (kwrite fd bytes offset).
Proof. apply untouched_sys. intros s. repeat case_match; by repeat split. Qed.
Lemma untouched_uv_read (fd len offset : Z) : untouched (uv_fs_read fd len offset).
Proof. apply untouched_bind; [apply untouched_kread|intros; apply untouched_ret]. Qed.
Lemma untouched_uv_write (fd : Z) (bytes : list Z) (offset : Z) : untouched (uv_fs_write fd bytes offset).
Proof. apply untouched_bind; [apply untouched_kwrite|intros; apply untouched_ret]. Qed.
Lemma untouched_add64 (a b : Z) : untouched (add64 a b).
Proof. unfold add64. destruct (in_int64 _); [apply untouched_ret|apply untouched_undefined]. Qed.
Lemma untouched_offset (o p : Z) : untouched (CalculateOffset o p).
Proof. unfold CalculateOffset. destruct (o <? 0); [apply untouched_ret|apply untouched_add64]. Qed.
Lemma untouched_fd (r : RandomAccessFileEntity) : untouched (raf_GetFD r).
Proof. unfold raf_GetFD. destruct (raf_fd r); [apply untouched_ret|apply untouched_undefined]. Qed.
Lemma untouched_inv {A} (m : st ostate A) (s : ostate) : untouched m → inv s → wp m (λ _ s', inv s') s.
Proof. intros H HI. eapply wp_mono, H. intros a s' H'. by apply (inv_same s). Qed.
Hint Resolve untouched_ret untouched_alloc untouched_uv_read untouched_uv_write untouched_offset untouched_fd
  untouched_add64 : core.

Lemma untouched_DoRead (fd len : Z) (o : option ReadOptions) : untouched (DoRead fd len o).
Proof.
  unfold DoRead. destruct (fd <? 0); [auto|]. destruct (ValidReadArg len o) as [[[|] n] p]; cbn [negb]; [|auto].
  apply untouched_bind; [auto|]. intros [|]; cbn [negb]; [|auto]. apply untouched_bind; [auto|]. intros [r l]. auto.
Qed.
Lemma untouched_DoWrite (fd : Z) (l : list Z) (o : option WriteOptions) : untouched (DoWrite fd l o).
Proof.
  unfold DoWrite. destruct (fd <? 0); [auto|]. destruct (ValidWriteArg _ o) as [[[|] n] p]; cbn [negb]; [|auto].
  apply untouched_bind; [auto|]. intros [|]; cbn [negb]; [|auto]. apply untouched_bind; auto.
Qed.

Lemma untouched_flock (fd : Z) (exclusive nb : bool) : untouched (flock fd exclusive nb).
Proof.
  intros s. unfold wp, flock. destruct (negb _); [by repeat split|]. destruct (fds _ !! fd); [|by repeat split].
  destruct (excluded _ _ _); [destruct nb; [by repeat split|done]|by repeat split].
Qed.
Lemma untouched_check (id : nat) : untouched (CheckFileEntityValid id).
Proof. intros s. by repeat split. Qed.
Lemma untouched_Lock (id : nat) (exclusive : bool) : untouched (Lock id exclusive).
Proof.
  apply untouched_bind; [by repeat split|]. intros [[f|r]|]; [|auto..]. destruct (fd_ f); [apply untouched_flock|auto].
Qed.
Lemma untouched_TryLock (id : nat) (exclusive : bool) : untouched (TryLock id exclusive).
Proof.
  apply untouched_bind; [apply untouched_check|]. intros [[[a f] fd]|]; [apply untouched_flock|auto].
Qed.
Lemma untouched_UnLock (id : nat) : untouched (UnLock id).
Proof.
  apply untouched_bind; [apply untouched_check|]. intros [[[a f] fd]|]; [|auto].
  apply untouched_sys. intros s. by destruct (fds s !! fd).
Qed.

Lemma set_pointer_inv (a fp : Z) (r : RandomAccessFileEntity) (s : ostate) :
  inv s → heap s !! a = Some (ERaf r) → wp (update_entity a (ERaf (r <| filePointer := fp |>))) (λ _ s', inv s') s.
Proof.
  intros HI Ha. unfold wp, update_entity. eapply (inv_insert s); [done..|]. right. by exists (ERaf r).
Qed.

(** Operations of an object move its pointer and nothing else of it. *)
Lemma wp_transfer {A B} (m : st ostate A) (g : A → st ostate B) (a : Z) (r : RandomAccessFileEntity) (s : ostate) :
  untouched m → inv s → heap s !! a = Some (ERaf r) →
  (∀ x s', inv s' → heap s' !! a = Some (ERaf r) → wp (g x) (λ _ s', inv s') s') →
  wp (bind m g) (λ _ s', inv s') s.
Proof.
  intros Hm HI Ha H. apply wp_bind. eapply wp_mono, Hm. intros x s' Hs. apply H; [by apply (inv_same s)|].
  destruct Hs as (_ & -> & _). done.
Qed.

Lemma rafEntity_Some (raf : nat) (s : ostate) :
  match (match rafs s !! raf with
         | Some a => match heap s !! a with Some (ERaf r) => Some (a, r) | _ => None end
         | None => None
         end) with
  | Some (a, r) => rafs s !! raf = Some a ∧ heap s !! a = Some (ERaf r)
  | None => True
  end.
Proof. destruct (rafs s !! raf) as [a|]; [|done]. by destruct (heap s !! a) as [[]|] eqn:E. Qed.

Lemma ReadSync_inv (raf : nat) (len : Z) (o : option ReadOptions) (s : ostate) :
  inv s → wp (ReadSync raf len o) (λ _ s', inv s') s.
Proof.
  intros HI. unfold ReadSync, rafEntity. apply wp_get. pose proof (rafEntity_Some raf s) as Hr.
  destruct (match rafs s !! raf with Some _ => _ | None => _ end) as [[a r]|]; [|by apply wp_ret].
  destruct Hr as [_ Ha]. destruct (ValidReadArg len o) as [[[|] n] p]; cbn [negb]; [|by apply wp_ret].
  apply (wp_transfer _ _ a r); [auto..|]. clear s HI Ha. intros off s HI Ha.
  apply (wp_transfer _ _ a r); [auto..|]. clear s HI Ha. intros fd s HI Ha.
  apply (wp_transfer _ _ a r); [|auto..|].
  { unfold DoReadRAF. apply untouched_bind; [auto|]. intros [|]; cbn [negb]; auto. }
  clear s HI Ha. intros [actLen bytes] s HI Ha. destruct (actLen <? 0); [by apply wp_ret|].
  apply (wp_transfer _ _ a r); [auto..|]. clear s HI Ha. intros fp s HI Ha.
  apply wp_bind. eapply wp_mono, set_pointer_inv; [|done..]. intros u s' HI'. by apply wp_ret.
Qed.

Lemma WriteSync_inv (raf : nat) (l : list Z) (o : option WriteOptions) (s : ostate) :
  inv s → wp (WriteSync raf l o) (λ _ s', inv s') s.
Proof.
  intros HI. unfold WriteSync, rafEntity. apply wp_get. pose proof (rafEntity_Some raf s) as Hr.
  destruct (match rafs s !! raf with Some _ => _ | None => _ end) as [[a r]|]; [|by apply wp_ret].
  destruct Hr as [_ Ha]. destruct (ValidWriteArg _ o) as [[[|] n] p]; cbn [negb]; [|by apply wp_ret].
  apply (wp_transfer _ _ a r); [auto..|]. clear s HI Ha. intros off s HI Ha.
  apply (wp_transfer _ _ a r); [auto..|]. clear s HI Ha. intros fd s HI Ha.
  apply (wp_transfer _ _ a r); [|auto..|].
  { unfold DoWriteRAF. apply untouched_bind; [auto|]. intros [|]; cbn [negb]; auto. }
  clear s HI Ha. intros writeLen s HI Ha. destruct (writeLen <? 0); [by apply wp_ret|].
  apply (wp_transfer _ _ a r); [auto..|]. clear s HI Ha. intros fp s HI Ha.
  apply wp_bind. eapply wp_mono, set_pointer_inv; [|done..]. intros u s' HI'. by apply wp_ret.
Qed.


Lemma wp_call {A} (f : A → Z) (m : st ostate (Z + A)) (s : ostate) :
  wp m (λ _ s', inv s') s → wp (call f m) (λ _ s', inv s') s.
Proof. intros H. apply wp_bind. eapply wp_mono, H. intros r s' HI. by apply wp_ret. Qed.

Lemma delete_heap_inv (a : Z) (s s' : ostate) : inv s → same_objects (s <| heap := delete a (heap s) |>) s' → inv s'.
Proof.
  intros HI H. eapply inv_same; [exact H|]. eapply (inv_subheap s); [done..|]. apply delete_subseteq.
Qed.

Lemma DoClose_inv (file : nat) (s : ostate) : inv s → wp (CloseCore_DoClose file) (λ _ s', inv s') s.
Proof.
  intros HI. pose proof (DoClose_spec file s) as H. unfold wp at 1, CheckFileEntityValid in H.
  destruct (match files s !! file with Some _ => _ | None => _ end) as [[[a f] fd]|].
  - eapply wp_mono; [|apply H, CloseFdWithFdsan_inv, HI]. intros [e|u] s'; [by intros [_ ?]|].
    intros (s1 & HI1 & E). unfold RemoveEntity in E. injection E as <-.
    destruct (files s1 !! file) as [[b|]|]; [by apply (delete_heap_inv b s1)|by apply (inv_same s1)..].
  - unfold wp. by rewrite H.
Qed.

Lemma CloseSync_inv (raf : nat) (s : ostate) : inv s → wp (CloseSync raf) (λ _ s', inv s') s.
Proof.
  intros HI. unfold CloseSync, rafEntity. apply wp_get.
  destruct (match rafs s !! raf with Some _ => _ | None => _ end) as [[a r]|]; [|by apply wp_ret].
  unfold raf_GetFD. destruct (raf_fd r) as [fd|]; [|done]. apply wp_bind, wp_ret, wp_bind. rewrite Raf_close_same.
  eapply wp_mono; [|by apply CloseFdWithFdsan_inv]. intros err s' HI'. by apply wp_ret.
Qed.

(** The service of a URI gives what it received. *)
Definition honest (s : ostate) (o : op) : Prop :=
  match o with OOpen path _ => honest_uri s path | _ => True end.

Lemma run_op_inv (o : op) (s : ostate) : inv s → honest s o → wp (run_op o) (λ _ s', inv s') s.
Proof.
  intros HI Hh. destruct o; cbn [run_op].
  - by apply wp_call, DoOpen_inv.
  - apply wp_call. eapply wp_mono, DoDup_spec; [|done]. by intros r s' [? _].
  - by apply wp_call, DoCreate_inv.
  - by apply wp_call, DoCreate_fd_inv.
  - apply wp_call. unfold CloseCore_DoClose_fd. destruct (negb (ValidFd fd)); [by apply wp_ret|].
    apply wp_bind. eapply wp_mono, CloseFdWithFdsan_inv; [|done]. intros err s' HI'. by apply wp_ret.
  - by apply wp_call, DoClose_inv.
  - by apply wp_call, CloseSync_inv.
  - by apply wp_call, untouched_inv, HI; apply untouched_Lock.
  - by apply wp_call, untouched_inv, HI; apply untouched_TryLock.
  - by apply wp_call, untouched_inv, HI; apply untouched_UnLock.
  - apply wp_bind. unfold wp, delete_file. cbn [sret].
    destruct (files s !! file) as [[a|]|]; [by apply (delete_heap_inv a s)|by apply (inv_same s)..].
  - apply wp_bind. unfold wp, delete_raf. cbn [sret].
    destruct (rafs s !! raf) as [a|]; [by apply (delete_heap_inv a s)|by apply (inv_same s)].
  - by apply untouched_inv, HI; apply untouched_DoRead.
  - apply wp_call. by apply untouched_inv, HI; apply untouched_DoWrite.
  - by apply ReadSync_inv.
  - by apply wp_call, WriteSync_inv.
  - apply wp_call. unfold SetFilePointerSync, rafEntity. apply wp_get. pose proof (rafEntity_Some raf s) as Hr.
    destruct (match rafs s !! raf with Some _ => _ | None => _ end) as [[a r]|]; [|by apply wp_ret].
    destruct Hr as [_ Ha]. apply wp_bind. eapply wp_mono, set_pointer_inv; [|done..]. intros u s' HI'. by apply wp_ret.
  - apply wp_bind. eapply wp_mono, receive_spec; [|done|done]. intros fd s' (HI' & _). by apply wp_ret.
Qed.

(** ** Programs *)

(** A process with files and descriptors that has no objects yet. *)
Record start_state (s : ostate) : Prop := mkStart {
  start_tags : closeTag s = ∅;
  start_heap : heap s = ∅;
  start_files : files s = ∅;
  start_rafs : rafs s = ∅
}.
Inductive reachable : ostate → Prop :=
  | reach_start (s : ostate) : start_state s → reachable s
  | reach_step (s s' : ostate) (o : op) (r : ores) :
      reachable s → honest s o → run_op o s = Some (r, s') → reachable s'.

Lemma reach_inv (s : ostate) : reachable s → inv s.
Proof.
  induction 1 as [s [Ht _ _ _]|s s' o r _ HI Hh E].
  - split; unfold tag_of; rewrite Ht; by intros; rewrite lookup_empty in *.
  - exact (wp_elim _ _ _ _ _ (run_op_inv o s HI Hh) E).
Qed.


(** ** What is proved *)

(** The address and the descriptor of the object that an operation closes. *)
Definition closes (s : ostate) (o : op) : option (Z * Z) :=
  match o with
  | OCloseFile file =>
      match files s !! file with
      | Some (Some a) => match heap s !! a with Some (EFile f) => (λ fd, (a, fd)) <$> fd_ f | _ => None end
      | _ => None
      end
  | OCloseRaf raf =>
      match rafs s !! raf with
      | Some a => match heap s !! a with Some (ERaf r) => (λ fd, (a, fd)) <$> raf_fd r | _ => None end
      | None => None
      end
  | _ => None
  end.

Lemma run_close (o : op) (a fd : Z) (s s' : ostate) (r : ores) :
  inv s → closes s o = Some (a, fd) → fd < OVERFLOW_END → run_op o s = Some (r, s') →
  fds s' = delete fd (fds s) ∧
  reports s' = reports s ++ (if own_tag s fd a then [] else [(fd, Z.lor a PREFIX_ADDR)]).
Proof.
  intros HI Hc Hfd. set (Q := λ (_ : ores) s', fds s' = delete fd (fds s) ∧ reports s' =
    reports s ++ (if own_tag s fd a then [] else [(fd, Z.lor a PREFIX_ADDR)])).
  apply (wp_elim (run_op o) Q). subst Q. destruct o; try done; cbn [run_op closes] in *; apply wp_bind.
  - pose proof (DoClose_spec file s) as H. unfold wp at 1, CheckFileEntityValid in H.
    destruct (files s !! file) as [[b|]|]; [|done..]. destruct (heap s !! b) as [[f|]|]; [|done..].
    destruct (fd_ f) as [g|]; [|done]. injection Hc as -> ->.
    eapply wp_mono; [|apply H, (close_with_tag fd a s HI Hfd)]. intros [e|u] s1.
    + intros [_ (_ & Hf & _ & Hr & _)]. by apply wp_ret.
    + intros (s2 & (_ & Hf & _ & Hr & _) & E). apply wp_ret. unfold RemoveEntity in E. injection E as <-.
      by destruct (files s2 !! file) as [[b|]|].
  - unfold CloseSync, rafEntity. apply wp_get.
    destruct (rafs s !! raf) as [b|]; [|done]. destruct (heap s !! b) as [[|e]|]; [done| |done].
    unfold raf_GetFD. destruct (raf_fd e) as [g|]; [|done]. injection Hc as -> ->. apply wp_bind, wp_ret, wp_bind.
    eapply wp_mono; [|apply (close_with_tag fd a s HI Hfd)]. intros err s1 (_ & Hf & _ & Hr & _).
    by apply wp_ret, wp_ret.
Qed.

(** C28: closing an object never closes somebody else's file silently.  After any operations on
    files and random access files, the [close] of an object whose descriptor is below 2048
    closes that number; when the number has the tag of the object, nothing is reported and
    the number still is the description that the object was made for; in every other case
    fdsan reports the object's address, before the number is closed. *)
Theorem quiet_close_is_own (o : op) (a fd : Z) (s s' : ostate) (r : ores) :
  reachable s → closes s o = Some (a, fd) → fd < OVERFLOW_END → run_op o s = Some (r, s') →
  fds s' = delete fd (fds s) ∧
  if own_tag s fd a
  then reports s' = reports s ∧ ∃ d, fds s !! fd = Some d ∧ born s !! a = Some d
  else reports s' = reports s ++ [(fd, Z.lor a PREFIX_ADDR)].
Proof.
  intros HR Hc Hfd E. pose proof (reach_inv s HR) as HI.
  destruct (run_close o a fd s s' r HI Hc Hfd E) as [Hf Hr]. split; [done|].
  destruct (own_tag s fd a) eqn:Ho; [|done]. rewrite app_nil_r in Hr. split; [done|].
  apply own_tag_true in Ho as [Ht Ha]. destruct (inv_tag s HI fd) as (_ & d & Hd & He); [by rewrite Ht|].
  exists d. split; [done|]. rewrite Ht in He. destruct o; try done; cbn [closes] in Hc.
  - destruct (files s !! file) as [[b|]|]; [|done..]. destruct (heap s !! b) as [[f|]|] eqn:Eh; [|done..].
    destruct (fd_ f) as [g|] eqn:Eg; [|done]. injection Hc as -> ->. by apply (He (EFile f)).
  - destruct (rafs s !! raf) as [b|]; [|done]. destruct (heap s !! b) as [[|e]|] eqn:Eh; [done| |done].
    destruct (raf_fd e) as [g|] eqn:Eg; [|done]. injection Hc as -> ->. by apply (He (ERaf e)).
Qed.

(** C30: an [open] or a [dup] that fails leaves nothing behind: when [DoOpen] (but of a remote
    URI) or [DoDup] returns an error, the error is not zero, and there is no descriptor and no
    object that was not there before, whichever allocation or call failed. *)
Theorem failed_open_leaves_nothing (s s' : ostate) (m : st ostate (Z + nat)) (e : Z) :
  reachable s →
  (∃ path mode, m = DoOpen path mode ∧ Uri_GetScheme path ≠ "datashare"%string) ∨ (∃ fd, m = DoDup fd) →
  m s = Some (inl e, s') →
  e ≠ 0 ∧ fds s' = fds s ∧ heap s' = heap s ∧ files s' = files s ∧ rafs s' = rafs s.
Proof.
  intros HI%reach_inv Hm E. assert (wp m (fails_clean s) s) as H.
  { destruct Hm as [(path & mode & -> & Hp)|(fd & ->)]; [by apply DoOpen_fail|].
    eapply wp_mono, DoDup_spec; [|done]. by intros r s1 [_ ?]. }
  exact (wp_elim _ _ _ _ _ H E).
Qed.


(** The name and the parent of a file make up its real path. *)
Lemma name_below_parent (file : nat) (a fd : Z) (f : FileEntity) (n d : string) (s s1 s2 : ostate) :
  CheckFileEntityValid file s = Some (Some (a, f, fd), s) → uri_ f = EmptyString →
  GetName file s = Some (inr n, s1) → GetParent file s = Some (inr d, s2) →
  o_realpath (path_ f) = inr (child d n) ∧ has_slash n = false.
Proof.
  intros Hv Hu. unfold GetName, GetParent, RealPathCore, uv_fs_realpath, bind, sys. rewrite Hv, Hu. cbn [String.length Nat.eqb negb].
  rewrite alloc_eq. destruct (o_fault C_new (ocalls s) =? 0); cbn [negb]; [|done].
  destruct (o_fault C_realpath (ocalls (tick s)) =? 0); [|cbn; repeat case_match; by intros].
  destruct (o_realpath (path_ f)) as [e|p]; [cbn; destruct (- e =? _); done|]. cbn.
  destruct (rsplit p) as [[d' n']|] eqn:E; [|done]. intros [= -> _] [= -> _].
  apply rsplit_Some in E as [-> ?]. done.
Qed.

(** ** Random access *)

(** An object that reads and writes the file [ino] at [p]. *)
Record at_file (s : ostate) (raf : nat) (a fd ino p : Z) (id : nat) (r : RandomAccessFileEntity) (d : odesc) : Prop := mkAt {
  at_raf : rafs s !! raf = Some a;
  at_heap : heap s !! a = Some (ERaf r);
  at_fd : raf_fd r = Some fd;
  at_open : fds s !! fd = Some id;
  at_desc : odescs s !! id = Some d;
  at_ino : d_ino d = ino;
  at_read : d_rd d = true;
  at_write : d_wr d = true;
  at_end : d_append d = false;
  at_pos : filePointer r = p;
  at_nonneg : 0 <= p
}.

Lemma GetActualLen_all (n : Z) : 0 <= n → GetActualLen n 0 None = (true, n).
Proof. intros Hn. unfold GetActualLen. rewrite (proj2 (Z.ltb_ge _ _)) by lia. by rewrite Z.sub_0_r. Qed.

(** Transfers are not cut short, and calls of a kind do not fail. *)
Definition whole : Prop := ∀ n, o_partial n = None.
Definition never (k : ocall) : Prop := ∀ n, o_fault k n = 0.

Lemma uv_fs_write_spec (fd p : Z) (bytes : list Z) (id : nat) (d : odesc) (s : ostate) :
  fds s !! fd = Some id → odescs s !! id = Some d → d_wr d = true → d_append d = false → 0 <= p →
  twp (uv_fs_write fd bytes p)
    (λ ret s', ret < 0 ∧ ¬ never C_write ∨ ∃ k, ret = Z.of_nat k ∧ (k <= length bytes)%nat ∧ (whole → k = length bytes) ∧
       s' = tick s <| inodes := <[d_ino d := put_at (data_of s (d_ino d)) (take k bytes) (Z.to_nat p)]> (inodes s) |>) s.
Proof.
  intros Hf Hd Hw Ha Hp. unfold twp, uv_fs_write, bind, kwrite, sys.
  destruct (o_fault C_write (ocalls s) =? 0) eqn:E.
  2: { left. pose proof (o_fault_nonneg C_write (ocalls s)). zbool. cbn. split; [lia|]. intros Hn. by apply E. }
  change (fds (s <| ocalls := S (ocalls s) |>)) with (fds s).
  change (odescs (s <| ocalls := S (ocalls s) |>)) with (odescs s).
  rewrite Hf, Hd, Hw, Ha. cbn [negb]. rewrite (proj2 (Z.ltb_ge p 0)) by lia. right.
  set (k := moved (length bytes) _). exists (Nat.min k (length bytes)).
  split; [cbn; by rewrite length_take|]. split; [lia|]. split.
  - intros Hn. unfold k, moved. rewrite Hn. lia.
  - cbv zeta. by rewrite <-take_take, (take_ge bytes (length bytes)) by lia.
Qed.
Lemma uv_fs_read_spec (fd p n : Z) (id : nat) (d : odesc) (s : ostate) :
  fds s !! fd = Some id → odescs s !! id = Some d → d_rd d = true → 0 <= p →
  let rest := drop (Z.to_nat p) (data_of s (d_ino d)) in
  twp (uv_fs_read fd n p)
    (λ r s', r.1 < 0 ∧ ¬ never C_read ∨
       r.1 = Z.of_nat (length r.2) ∧ s' = tick s ∧ (length r.2 <= Z.to_nat n)%nat ∧ r.2 = take (length r.2) rest ∧
       (whole → length r.2 = Nat.min (Z.to_nat n) (length rest))) s.
Proof.
  intros Hf Hd Hr Hp rest. unfold twp, uv_fs_read, bind, kread, sys.
  destruct (o_fault C_read (ocalls s) =? 0) eqn:E.
  2: { left. pose proof (o_fault_nonneg C_read (ocalls s)). zbool. cbn. split; [lia|]. intros Hn. by apply E. }
  change (fds (s <| ocalls := S (ocalls s) |>)) with (fds s).
  change (odescs (s <| ocalls := S (ocalls s) |>)) with (odescs s).
  rewrite Hf, Hd, Hr. cbn [negb]. rewrite (proj2 (Z.ltb_ge p 0)) by lia. right. split; [done|]. split; [done|].
  change (data_of _ (d_ino d)) with (data_of s (d_ino d)). fold rest. cbn [fst snd]. rewrite length_take.
  split; [unfold moved; destruct (o_partial _); lia|]. split; [by rewrite <-take_take, (take_ge rest (length rest)) by lia|].
  intros Hn. unfold moved. rewrite Hn. lia.
Qed.

Lemma twp_get {A B} (g : ostate → A) (f : A → st ostate B) (Q : B → ostate → Prop) (s : ostate) :
  twp (f (g s)) Q s → twp (x ← (λ s, Some (g s, s)); f x) Q s.
Proof. done. Qed.
Lemma twp_allocated {A} (f : bool → st ostate A) (Q : A → ostate → Prop) (s : ostate) :
  never C_new → twp (f true) Q (tick s) → twp (b ← alloc; f b) Q s.
Proof. intros Hn H. unfold twp, bind. by rewrite alloc_eq, Hn. Qed.
Lemma twp_add64 (a b : Z) (Q : Z → ostate → Prop) (s : ostate) :
  - 2 ^ 63 <= a + b < 2 ^ 63 → Q (a + b) s → twp (add64 a b) Q s.
Proof.
  intros H HQ. unfold add64, in_int64. by rewrite (proj2 (Z.leb_le _ _)), (proj2 (Z.ltb_lt _ _)) by lia.
Qed.

(** Moving the pointer. *)
Lemma at_file_moved (raf : nat) (a fd ino p q : Z) (id : nat) (r : RandomAccessFileEntity) (d : odesc) (s s' : ostate) :
  at_file s raf a fd ino p id r d → 0 <= q → rafs s' = rafs s → fds s' = fds s → odescs s' = odescs s →
  heap s' = <[a := ERaf (r <| filePointer := q |>)]> (heap s) →
  at_file s' raf a fd ino q id (r <| filePointer := q |>) d.
Proof.
  intros [] Hq Hra Hf Ho Hh. split; try done; rewrite ?Hra, ?Hf, ?Ho, ?Hh; [done|by rewrite lookup_insert_eq|done..].
Qed.

Lemma WriteSync_run (raf : nat) (a fd ino p : Z) (id : nat) (r : RandomAccessFileEntity) (d : odesc) (bytes : list Z) (s : ostate) :
  at_file s raf a fd ino p id r d → never C_new →
  Z.of_nat (length bytes) <= UINT_MAX → p + Z.of_nat (length bytes) < 2 ^ 63 →
  twp (WriteSync raf bytes None)
    (λ res s', match res with
               | inl e => e < 0 ∧ ¬ never C_write
               | inr n => ∃ k, n = Z.of_nat k ∧ (k <= length bytes)%nat ∧ (whole → k = length bytes) ∧
                   data_of s' ino = put_at (data_of s ino) (take k bytes) (Z.to_nat p) ∧
                   at_file s' raf a fd ino (p + n) id (r <| filePointer := p + n |>) d
               end) s.
Proof.
  intros HA Hnew Hlen Hmax. pose proof HA as [Hraf Hh Hfd Ho Hd Hino Hrd Hwr Hap Hp Hp0].
  unfold WriteSync, rafEntity. apply twp_get. rewrite Hraf, Hh. unfold ValidWriteArg.
  destruct (_ >? UINT_MAX) eqn:E; zbool; [lia|]. cbn [mbind option_bind fmap option_fmap option_map].
  rewrite GetActualLen_all by lia. cbn [negb]. apply twp_bind. unfold CalculateOffset. cbn [Z.ltb Z.compare].
  apply twp_ret, twp_bind. unfold raf_GetFD. rewrite Hfd. apply twp_ret, twp_bind. unfold DoWriteRAF.
  apply twp_allocated; [done|]. cbn [negb].
  rewrite u32_id by (unfold UINT_MAX in *; lia). rewrite Nat2Z.id, (take_ge bytes) by lia.
  eapply twp_mono; [apply (uv_fs_write_spec fd (filePointer r) bytes id d); [done..|by rewrite Hp]|].
  intros ret s1 [[Hneg Hf]|(k & -> & Hk & Hw & ->)]; [rewrite (proj2 (Z.ltb_lt _ _)) by done; by apply twp_ret|].
  rewrite (proj2 (Z.ltb_ge _ _)) by lia. apply twp_bind, twp_add64; [lia|]. apply twp_bind.
  unfold twp, update_entity. cbn [sret]. exists k. rewrite Hp, <-Hino. repeat (split; [done|]). split.
  - unfold data_of. match goal with |- default [] (?m !! _) = _ =>
      change m with (<[d_ino d := put_at (data_of s (d_ino d)) (take k bytes) (Z.to_nat p)]> (inodes s)) end.
    by rewrite lookup_insert_eq.
  - rewrite Hino. by eapply at_file_moved; [done|lia|..].
Qed.

Lemma ReadSync_run (raf : nat) (a fd ino p n : Z) (id : nat) (r : RandomAccessFileEntity) (d : odesc) (s : ostate) :
  at_file s raf a fd ino p id r d → never C_new → 0 <= n <= UINT_MAX → p + n < 2 ^ 63 →
  let rest := drop (Z.to_nat p) (data_of s ino) in
  twp (ReadSync raf n None)
    (λ res s', match res with
               | (inl e, _) => e < 0 ∧ ¬ never C_read
               | (inr m, l) => m = Z.of_nat (length l) ∧ l = take (length l) rest ∧ (length l <= Z.to_nat n)%nat ∧
                   (whole → length l = Nat.min (Z.to_nat n) (length rest)) ∧ inodes s' = inodes s ∧
                   at_file s' raf a fd ino (p + m) id (r <| filePointer := p + m |>) d
               end) s.
Proof.
  intros HA Hnew Hn Hmax rest. pose proof HA as [Hraf Hh Hfd Ho Hd Hino Hrd Hwr Hap Hp Hp0].
  unfold ReadSync, rafEntity. apply twp_get. rewrite Hraf, Hh. unfold ValidReadArg.
  destruct (n >? UINT_MAX) eqn:E; zbool; [lia|]. cbn [mbind option_bind fmap option_fmap option_map].
  rewrite GetActualLen_all by lia. cbn [negb]. apply twp_bind. unfold CalculateOffset. cbn [Z.ltb Z.compare].
  apply twp_ret, twp_bind. unfold raf_GetFD. rewrite Hfd. apply twp_ret, twp_bind. unfold DoReadRAF.
  apply twp_allocated; [done|]. cbn [negb]. rewrite u32_id by (unfold UINT_MAX in *; lia).
  eapply twp_mono; [apply (uv_fs_read_spec fd (filePointer r) n id d); [done..|by rewrite Hp]|].
  intros [ret l] s1 H. cbn [fst snd] in H. rewrite Hp, Hino in H. fold rest in H.
  destruct H as [[Hneg Hf]|(-> & -> & Hl & Hr & Hw)]; [rewrite (proj2 (Z.ltb_lt _ _)) by done; by apply twp_ret|].
  rewrite (proj2 (Z.ltb_ge _ _)) by lia. apply twp_bind, twp_add64; [lia|]. apply twp_bind.
  unfold twp, update_entity. cbn [sret]. rewrite Hp. repeat (split; [done|]).
  by eapply at_file_moved; [done|lia|..].
Qed.

Lemma read_back (d bytes : list Z) (p : nat) (n : nat) :
  (n <= length bytes)%nat → take n (drop p (put_at d bytes p)) = take n bytes.
Proof.
  intros Hn. unfold put_at.
  assert (length (take p d ++ replicate (p - length d) 0) = p) as Hl.
  { rewrite length_app, length_take, length_replicate. lia. }
  rewrite app_assoc, drop_app_length' by done. by rewrite take_app_le.
Qed.


Lemma put_at_rest (d bytes : list Z) (p : nat) : (length bytes <= length (drop p (put_at d bytes p)))%nat.
Proof.
  pose proof (f_equal length (read_back d bytes p (length bytes) ltac:(lia))) as H. rewrite !length_take in H. lia.
Qed.

Lemma SetFilePointer_run (raf : nat) (a fd ino p q : Z) (id : nat) (r : RandomAccessFileEntity) (d : odesc) (s : ostate) :
  at_file s raf a fd ino p id r d → 0 <= q →
  twp (SetFilePointerSync raf q)
    (λ res s', res = inr tt ∧ inodes s' = inodes s ∧ at_file s' raf a fd ino q id (r <| filePointer := q |>) d) s.
Proof.
  intros HA Hq. pose proof HA as [Hraf Hh _ _ _ _ _ _ _ _ _].
  unfold SetFilePointerSync, rafEntity. apply twp_get. rewrite Hraf, Hh. apply twp_bind.
  unfold twp, update_entity. cbn [sret]. split; [done|]. split; [done|]. by eapply at_file_moved.
Qed.

(** C29: what is written through a random access file that is open for reading and writing and
    does not append is what is read back from there. [WriteSync] at the pointer returns minus an
    errno, when the kernel failed, or the number of bytes [n] that it wrote, and then the file is
    the old one with the first [n] bytes at the pointer. With the pointer set back, [ReadSync] of
    [n] bytes returns minus an errno, when the kernel failed, or bytes from the front of what was
    written and leaves the pointer behind them; when no transfer is cut short, all of [bytes] is
    written and read. The allocations must succeed. *)
Theorem raf_write_then_read (raf : nat) (a fd ino p : Z) (id : nat) (r : RandomAccessFileEntity) (d : odesc)
    (bytes : list Z) (s : ostate) :
  at_file s raf a fd ino p id r d → never C_new →
  Z.of_nat (length bytes) <= UINT_MAX → p + Z.of_nat (length bytes) < 2 ^ 63 →
  ∃ w s1, WriteSync raf bytes None s = Some (w, s1) ∧
    match w with
    | inl e => e < 0 ∧ ¬ never C_write
    | inr n =>
        0 <= n <= Z.of_nat (length bytes) ∧
        data_of s1 ino = put_at (data_of s ino) (take (Z.to_nat n) bytes) (Z.to_nat p) ∧
        ∃ s2 res got s3,
          SetFilePointerSync raf p s1 = Some (inr tt, s2) ∧ ReadSync raf n None s2 = Some ((res, got), s3) ∧
          match res with
          | inl e => e < 0 ∧ ¬ never C_read
          | inr m => m <= n ∧ got = take (Z.to_nat m) bytes ∧ inodes s3 = inodes s1 ∧
                     GetFPointer raf s3 = Some (inr (p + m), s3) ∧
                     (whole → n = Z.of_nat (length bytes) ∧ got = bytes)
          end
    end.
Proof.
  intros HA Hnew Hlen Hmax.
  destruct (twp_elim _ _ _ (WriteSync_run raf a fd ino p id r d bytes s HA Hnew Hlen Hmax)) as (w & s1 & E1 & H1).
  exists w, s1. split; [done|]. destruct w as [e|n]; [done|]. destruct H1 as (k & -> & Hk & Hw & Hd & HA1).
  split; [lia|]. rewrite Nat2Z.id. split; [done|].
  destruct (twp_elim _ _ _ (SetFilePointer_run raf a fd ino _ p id _ d s1 HA1 (at_nonneg _ _ _ _ _ _ _ _ _ HA)))
    as (u & s2 & E2 & -> & Hi2 & HA2).
  assert (0 <= Z.of_nat k <= UINT_MAX ∧ p + Z.of_nat k < 2 ^ 63) as [Hk1 Hk2] by lia.
  destruct (twp_elim _ _ _ (ReadSync_run raf a fd ino p (Z.of_nat k) id _ d s2 HA2 Hnew Hk1 Hk2))
    as ([res got] & s3 & E3 & H3).
  exists s2, res, got, s3. split; [done|]. split; [done|]. destruct res as [e|m]; [done|].
  destruct H3 as (-> & Hg & Hl & Hw3 & Hi3 & HA3). rewrite Nat2Z.id in *. split; [lia|].
  assert (Hd2 : data_of s2 ino = put_at (data_of s ino) (take k bytes) (Z.to_nat p)).
  { unfold data_of in *. by rewrite Hi2. }
  rewrite Hd2 in Hg, Hw3.
  assert (Hgot : got = take (length got) bytes).
  { rewrite Hg at 1. rewrite read_back by (rewrite length_take; lia). by rewrite take_take, Nat.min_l by lia. }
  split; [done|]. split; [by rewrite Hi3|]. split.
  - unfold GetFPointer, rafEntity, bind. destruct HA3 as [-> -> _ _ _ _ _ _ _ -> _]. done.
  - intros Hall. rewrite (Hw Hall). split; [done|]. rewrite Hgot. apply take_ge. rewrite (Hw3 Hall).
    pose proof (put_at_rest (data_of s ino) (take k bytes) (Z.to_nat p)) as Hr. rewrite length_take in Hr.
    rewrite (Hw Hall) in *. lia.
Qed.

(** When the request cannot be allocated, [ENOMEM] counts as twelve bytes that were read. *)
Lemma raf_alloc_failure_counts (raf : nat) (a fd ino p n : Z) (id : nat) (r : RandomAccessFileEntity) (d : odesc) (s : ostate) :
  at_file s raf a fd ino p id r d → o_fault C_new (ocalls s) ≠ 0 → 0 <= n <= UINT_MAX → p + 12 < 2 ^ 63 →
  ∃ s', ReadSync raf n None s = Some ((inr 12, []), s') ∧ GetFPointer raf s' = Some (inr (p + 12), s').
Proof.
  intros HA Hnew Hn Hmax. pose proof HA as [Hraf Hh Hfd Ho Hd Hino Hrd Hwr Hap Hp Hp0].
  unfold ReadSync, rafEntity, bind at 1. rewrite Hraf, Hh. unfold ValidReadArg.
  destruct (n >? UINT_MAX) eqn:E; zbool; [lia|]. cbn [mbind option_bind fmap option_fmap option_map].
  rewrite GetActualLen_all by lia. unfold CalculateOffset, raf_GetFD, DoReadRAF, bind. rewrite Hfd. cbn [negb Z.ltb Z.compare sret].
  rewrite alloc_eq, (proj2 (Z.eqb_neq _ _) Hnew). unfold add64, in_int64. cbn [negb Z.ltb Z.compare ENOMEM sret].
  rewrite Hp. unfold ENOMEM. rewrite (proj2 (Z.leb_le _ _)), (proj2 (Z.ltb_lt _ _)) by lia. cbn [andb sret update_entity].
  eexists. split; [reflexivity|]. unfold GetFPointer, rafEntity, bind.
  match goal with |- context [rafs ?x !! raf] => change (rafs x) with (rafs s) end. rewrite Hraf.
  match goal with |- context [heap ?x !! a] =>
    change (heap x) with (<[a := ERaf (r <| filePointer := p + 12 |>)]> (heap s)) end.
  by rewrite lookup_insert_eq.
Qed.
End files.

(** ** Concrete runs *)

Fixpoint run_ops {OE : OpenEnv} (p : list op) : st ostate (list ores) :=
  match p with
  | [] => sret []
  | o :: p => r ← run_op o; rs ← run_ops p; sret (r :: rs)
  end.

Definition next_address (X : gset Z) : Z := 1 + foldr Z.max 0 (elements X).
Lemma next_address_fresh (X : gset Z) : next_address X ∉ X ∧ 0 < next_address X.
Proof.
  unfold next_address. rewrite <-elem_of_elements. generalize (elements X). intros l.
  assert (0 <= foldr Z.max 0 l ∧ ∀ x, x ∈ l → x <= foldr Z.max 0 l) as [H0 H].
  { induction l as [|y l [IH0 IH]]; cbn; [split; [lia|set_solver]|]. split; [lia|].
    intros x [->|Hx]%elem_of_cons; [lia|]. specialize (IH x Hx). lia. }
  split; [|lia]. intros Hin%H. lia.
Qed.

(** The [n]-th call fails when it is an allocation; no services and no remote URIs. *)
Definition alloc_fails (bad : option nat) (k : ocall) (n : nat) : Z :=
  match k, bad with C_new, Some b => if (n =? b)%nat then ENOMEM else 0 | _, _ => 0 end.
#[local] Instance plain_env (bad : option nat) : OpenEnv.
Proof.
  refine {|
    o_fault := alloc_fails bad; o_partial _ := None; o_address := next_address; o_link _ := "/link"%string;
    o_realpath p := match p with EmptyString => inl ENOENT | _ => inr p end; o_datashare _ _ := inl (-1); o_datashare_ok := false; o_broker _ _ := inl (-1);
    o_exists _ := true; Uri_GetScheme _ := EmptyString; Uri_GetAuthority _ := EmptyString; Uri_ToString u := u;
    FileUri_GetRealPath u := u; FileUri_GetPath u := u; FileUri_GetName u := u;
    UV_FS_O_NONBLOCK := 2048; UV_FS_O_DIRECTORY := 65536; UV_FS_O_NOFOLLOW := 131072; UV_FS_O_SYNC := 1052672;
    o_address_fresh := next_address_fresh
  |}; try (intros; by simplify_eq).
  { by intros [|c p] e [= <-]. }
  intros k n. unfold alloc_fails, ENOMEM. by destruct k, bad; try destruct (_ =? _)%nat.
Defined.

(** Two files of three bytes and no descriptors. *)
Definition two_files : ostate :=
  mko ∅ ∅ ∅ {[1 := [10; 11; 12]; 2 := [20; 21; 22]]} {["/a"%string := 1; "/b"%string := 2]} ∅ ∅ ∅ ∅ false ∅ [] ∅ 0.
Definition state_of (r : option (list ores * ostate)) : ostate := match r with Some (_, s) => s | None => two_files end.
Definition results_of (r : option (list ores * ostate)) : list ores := match r with Some (l, _) => l | None => [] end.

Lemma reach_ops (bad : option nat) (p : list op) (s s' : ostate) (l : list ores) :
  reachable (OE := plain_env bad) s → run_ops (OE := plain_env bad) p s = Some (l, s') → reachable (OE := plain_env bad) s'.
Proof.
  revert s l. induction p as [|o p IH]; intros s l HR; cbn [run_ops]; [by intros [= <- <-]|].
  intros (r & s1 & E1 & (rs & s2 & E2 & [= <- <-])%bind_Some)%bind_Some. apply (IH s1 rs); [|done].
  eapply reach_step; [exact HR| |exact E1]. by destruct o.
Qed.

Definition O_rw : option Z := Some 2.
(** A random access file that was closed stays usable: it reads the file that has its number now. *)
Lemma closed_raf_reads_other :
  results_of (run_ops (OE := plain_env None) [OCreate "/a" O_rw None; OCloseRaf 0; OOpen "/b" O_rw; OReadRaf 0 3 None] two_files) =
  [(inr 0, []); (inr 0, []); (inr 0, []); (inr 3, [20; 21; 22])].
Proof. vm_compute. reflexivity. Qed.
(** Creating a random access file that fails for want of memory leaves its descriptor open. *)
Lemma failed_creation_leaks :
  let r := run_ops (OE := plain_env (Some 2%nat)) [OCreate "/a" O_rw None] two_files in
  results_of r = [(inl EIO, [])] ∧ fds (state_of r) = {[0 := 0%nat]} ∧ heap (state_of r) = ∅.
Proof. vm_compute. by repeat split. Qed.

(** A file whose number was closed by number and given to another file: its close is reported. *)
Definition mistaken : list op := [OOpen "/a" O_rw; OCloseFd 0; OOpen "/b" O_rw].
Lemma quiet_close_is_own_witness :
  let s := state_of (run_ops (OE := plain_env None) mistaken two_files) in
  closes s (OCloseFile 0) = Some (1, 0) ∧ closes s (OCloseFile 1) = Some (2, 0) ∧
  (∃ r s', run_op (OE := plain_env None) (OCloseFile 0) s = Some (r, s') ∧
     reports s' = reports s ++ [(0, Z.lor 1 PREFIX_ADDR)]) ∧
  ∃ r s', run_op (OE := plain_env None) (OCloseFile 1) s = Some (r, s') ∧
    reports s' = reports s ∧ ∃ d, fds s !! 0 = Some d ∧ born s !! 2 = Some d.
Proof.
  set (s := state_of _).
  assert (HR : reachable (OE := plain_env None) s).
  { apply (reach_ops None mistaken two_files s (results_of (run_ops (OE := plain_env None) mistaken two_files))).
    - apply reach_start. by split.
    - vm_compute. reflexivity. }
  split; [vm_compute; reflexivity|]. split; [vm_compute; reflexivity|]. split.
  - destruct (run_op (OE := plain_env None) (OCloseFile 0) s) as [[r s']|] eqn:E; [|vm_compute in E; discriminate].
    exists r, s'. split; [done|].
    destruct (quiet_close_is_own (OE := plain_env None) (OCloseFile 0) 1 0 s s' r HR) as [_ H];
      [vm_compute; reflexivity|vm_compute; reflexivity|exact E|].
    assert (own_tag s 0 1 = false) as Ho by (vm_compute; reflexivity). rewrite Ho in H. exact H.
  - destruct (run_op (OE := plain_env None) (OCloseFile 1) s) as [[r s']|] eqn:E; [|vm_compute in E; discriminate].
    exists r, s'. split; [done|].
    destruct (quiet_close_is_own (OE := plain_env None) (OCloseFile 1) 2 0 s s' r HR) as [_ H];
      [vm_compute; reflexivity|vm_compute; reflexivity|exact E|].
    assert (own_tag s 0 2 = true) as Ho by (vm_compute; reflexivity). rewrite Ho in H. exact H.
Defined.

Lemma failed_open_leaves_nothing_witness :
  let m := DoOpen (OE := plain_env (Some 2%nat)) "/a" O_rw in
  ∃ s', m two_files = Some (inl EIO, s') ∧ EIO ≠ 0 ∧ fds s' = ∅ ∧ heap s' = ∅ ∧ files s' = ∅ ∧ rafs s' = ∅.
Proof.
  eexists. split; [vm_compute; reflexivity|].
  refine (failed_open_leaves_nothing (OE := plain_env (Some 2%nat)) two_files _
            (DoOpen (OE := plain_env (Some 2%nat)) "/a" O_rw) EIO _ _ _).
  - apply reach_start. by split.
  - left. exists "/a"%string, O_rw. by split.
  - vm_compute. reflexivity.
Defined.

Lemma raf_write_then_read_witness :
  let s := state_of (run_ops (OE := plain_env None) [OCreate "/a" O_rw None; OSetPointer 0 2] two_files) in
  ∃ n s1 s2 got s3, WriteSync (OE := plain_env None) 0 [1; 2; 3] None s = Some (inr n, s1) ∧
    data_of s1 1 = [10; 11; 1; 2; 3] ∧
    SetFilePointerSync 0 2 s1 = Some (inr tt, s2) ∧
    ReadSync (OE := plain_env None) 0 n None s2 = Some ((inr 3, got), s3) ∧ got = [1; 2; 3].
Proof.
  set (s := state_of _).
  destruct (raf_write_then_read (OE := plain_env None) 0 1 0 1 2 0
              (mkRaf (Some 0) 2 INVALID_POS INVALID_POS) (mkDesc 1 0 true true false) [1; 2; 3] s)
    as (w & s1 & E1 & H1).
  - split; vm_compute; first [reflexivity|discriminate].
  - by intros n.
  - vm_compute. discriminate.
  - vm_compute. reflexivity.
  - destruct w as [e|n]; [vm_compute in E1; discriminate|].
    destruct H1 as (_ & Hd & s2 & res & got & s3 & E2 & E3 & H3).
    assert (Hn : n = 3) by (clear - E1; vm_compute in E1; injection E1 as <- _; reflexivity).
    assert (Hres : res = inr 3).
    { clear - E1 E2 E3 Hn. subst n. vm_compute in E1. injection E1 as <-. vm_compute in E2. injection E2 as <-.
      vm_compute in E3. injection E3 as <- _ _. reflexivity. }
    subst n res. exists 3, s1, s2, got, s3. split; [done|]. split; [rewrite Hd; vm_compute; reflexivity|].
    split; [done|]. split; [done|]. apply H3. by intros k.
Defined.
