(* ===== verification/AtomicFile.v ===== *)
(** * Atomic files

    Models [class_atomicfile/fs_atomicfile.cpp] of [mod_fs]: a file that is replaced as a
    whole.  What is written goes to a new file beside it, whose name [mkstemp] makes, and
    [FinishWrite] renames that over the old one.  The object works on the files and
    descriptors of [OpenFiles]; [AtomicEnv] decides which of its own calls fail and how
    [mkstemp] fills in a name.  The specification is a cell with a value and a draft. *)

From coqutil Require Import Datatypes.RecordSetters.
From S2P Require Import Prelude RemoteUri OpenFiles.
Import TriangleBracketNotations.
#[local] Open Scope record_set.

Definition TEMP_FILE_SUFFIX : string := "_XXXXXX".
Definition UNKNOWN_ERR : Z := -1.
Definition PATH_MAX : nat := 4096.
Definition EEXIST : Z := 17.

Inductive acall := A_access | A_mkstemp | A_rename | A_remove | A_exists | A_fopen | A_fstat | A_fread.

(** The name that [mkstemp] makes has six other characters and is no name of a file. *)
Class AtomicEnv := {
  a_fault : acall → nat → Z;                       (** errno of the n-th call, 0 for none *)
  a_dir : string → bool;                           (** directories that exist *)
  a_suffix : gset string → string → option string;
  a_errno : nat → Z;                               (** what [errno] is after [remove] *)
  a_suffix_spec : ∀ X stem x, a_suffix X stem = Some x →
    stem +:+ x ∉ X ∧ String.length x = 6%nat ∧ x ≠ "XXXXXX"%string
}.

Record FsAtomicFileEntity := mkAtomic { baseFileName : string; newFileName : string }.
Record astate := mka { os : ostate; ent : FsAtomicFileEntity; acalls : nat }.

Section atomic.
Context {OE : OpenEnv} {AE : AtomicEnv}.

(** ** Calls *)

Definition lift {A} (m : st ostate A) : st astate A := λ s,
  match m (os s) with Some (a, o) => Some (a, s <| os := o |>) | None => None end.
(** The errno that the environment wants. *)
Definition failing (k : acall) : st astate Z := λ s,
  Some (a_fault k (acalls s), s <| acalls := S (acalls s) |>).
Definition set_paths (m : gmap string Z) : st astate unit := λ s,
  Some (tt, s <| os := (os s) <| paths := m |> |>).
Definition get_paths : st astate (gmap string Z) := λ s, Some (paths (os s), s).
Definition content (s : astate) (p : string) : option (list Z) := paths (os s) !! p ≫= λ ino, inodes (os s) !! ino.

Definition access (dir : string) : st astate Z :=
  e ← failing A_access;
  sret (if negb (e =? 0) then e else if a_dir dir then 0 else ENOENT).
(** [filesystem::path::parent_path] of a path without double slashes. *)
Definition parent_path (p : string) : string :=
  match rsplit p with
  | None => EmptyString
  | Some (EmptyString, _) => "/"
  | Some (d, _) => d
  end.
(** A template without its [XXXXXX]. *)
Definition stem_of (template : string) : option string :=
  let n := (String.length template - 6)%nat in
  if String.eqb (string_drop n template) "XXXXXX" then Some (string_take n template) else None.
(** A new, empty file that is open for reading and writing; also its name. *)
Definition create_temp (name : string) : st astate (Z * string) := λ s,
  let o := os s in
  let ino := fresh (dom (inodes o)) in
  let '(fd, o) := install (mkDesc ino 0 true true false) o in
  Some ((fd, name), s <| os := o <| inodes := <[ino := []]> (inodes o) |> <| paths := <[name := ino]> (paths o) |> |>).
Definition mkstemp (template : string) : st astate (Z + Z * string) :=
  e ← failing A_mkstemp;
  if negb (e =? 0) then sret (inl e) else
  m ← get_paths;
  match stem_of template with
  | None => sret (inl EINVAL)
  | Some stem =>
      match a_suffix (dom m) stem with
      | None => sret (inl EEXIST)
      | Some x => r ← create_temp (stem +:+ x); sret (inr r)
      end
  end.
(** 0 or an errno; the new name is replaced in one step. *)
Definition rename (old new : string) : st astate Z :=
  e ← failing A_rename;
  if negb (e =? 0) then sret e else
  m ← get_paths;
  match m !! old with
  | None => sret ENOENT
  | Some ino =>
      _ ← (if String.eqb old new then sret tt else set_paths (<[new := ino]> (delete old m)));
      sret 0
  end.
(** [filesystem::remove]: whether there was a file that is gone now, and the error code. *)
Definition fs_remove (p : string) : st astate (bool * Z) :=
  e ← failing A_remove;
  if negb (e =? 0) then sret (false, e) else
  m ← get_paths;
  match m !! p with
  | None => sret (false, 0)
  | Some _ => _ ← set_paths (delete p m); sret (true, 0)
  end.
Definition fs_exists (p : string) : st astate (bool * Z) :=
  e ← failing A_exists;
  if negb (e =? 0) then sret (false, e) else
  m ← get_paths;
  sret (match m !! p with Some _ => true | None => false end, 0).
Definition realpath (p : string) : st astate (Z + string) := lift (sys C_realpath (λ s, (o_realpath p, s))).

(** ** [FsAtomicFile] *)

Definition get_ent : st astate FsAtomicFileEntity := λ s, Some (ent s, s).
Definition set_ent (e : FsAtomicFileEntity) : st astate unit := λ s, Some (tt, s <| ent := e |>).

Definition GetPath : st astate string := e ← get_ent; sret (baseFileName e).

Definition GetBaseFile : st astate (Z + nat) :=
  e ← get_ent;
  if (PATH_MAX <=? String.length (baseFileName e))%nat then sret (inl UNKNOWN_ERR) else
  result ← realpath (baseFileName e);
  match result with
  | inl errno => sret (inl errno)
  | inr result =>
      fd ← lift (open result O_RDONLY);
      match fd with
      | inl errno => sret (inl errno)
      | inr fd => lift (InstantiateFile fd (baseFileName e) false)
      end
  end.

(** The bytes of the file, which is open. *)
Definition ReadFileToBuffer (data : list Z) : st astate (Z + list Z) :=
  errno ← failing A_fstat;
  if negb (errno =? 0) then sret (inl errno) else
  let fileSize := Z.of_nat (length data) in
  if fileSize <=? 0 then sret (inl EIO) else
  buffer ← lift alloc;
  if negb buffer then sret (inl ENOMEM) else
  ferror ← failing A_fread;
  if negb (ferror =? 0) then sret (inl EIO) else sret (inr data).

Definition ReadFully : st astate (Z + list Z) :=
  e ← get_ent;
  result ← realpath (baseFileName e);
  match result with
  | inl errno => sret (inl errno)
  | inr result =>
      errno ← failing A_fopen;
      if negb (errno =? 0) then sret (inl errno) else
      file ← (λ s, Some (content s result, s)) : st astate (option (list Z));
      match file with
      | None => sret (inl ENOENT)
      | Some data => ReadFileToBuffer data
      end
  end.

Definition StartWrite : st astate (Z + string) :=
  e ← get_ent;
  let parentPath := parent_path (newFileName e) in
  r ← access parentPath;
  if negb (r =? 0) then sret (inl ENOENT) else
  r ← mkstemp (newFileName e);
  match r with
  | inl _ => sret (inl ENOENT)
  | inr (fd, tmpfile) =>
      _ ← set_ent (e <| newFileName := tmpfile |>);
      _ ← lift (close fd);
      sret (inr tmpfile)
  end.

Definition FinishWrite : st astate (Z + unit) :=
  e ← get_ent;
  errno ← rename (newFileName e) (baseFileName e);
  if negb (errno =? 0) then sret (inl errno) else
  let tmpNewFileName := baseFileName e in
  _ ← set_ent (e <| newFileName := tmpNewFileName +:+ TEMP_FILE_SUFFIX |>);
  sret (inr tt).

Definition FailWrite : st astate (Z + unit) :=
  e ← get_ent;
  '(removed, errCode) ← fs_remove (newFileName e);
  if negb removed then λ s, Some (inl (a_errno (acalls s)), s) else
  let tmpNewFileName := baseFileName e in
  _ ← set_ent (e <| newFileName := tmpNewFileName +:+ TEMP_FILE_SUFFIX |>);
  sret (inr tt).

(** [fs::exists (p, ec) && !fs::remove (p, ec)] *)
Definition exists_not_removed (p : string) : st astate (bool * Z) :=
  '(there, fsErrcode) ← fs_exists p;
  if negb there then sret (false, fsErrcode) else
  '(removed, fsErrcode) ← fs_remove p;
  sret (negb removed, fsErrcode).
Definition Delete : st astate (Z + unit) :=
  rafentity ← get_ent;
  '(failed1, _) ← exists_not_removed (newFileName rafentity);
  '(failed2, fsErrcode) ← exists_not_removed (baseFileName rafentity);
  let errFlag := failed1 || failed2 in
  if errFlag then sret (inl fsErrcode) else
  _ ← set_ent (mkAtomic EmptyString EmptyString);
  sret (inr tt).

(** A new object in a state of files; it can fail for want of memory. *)
Definition Constructor (path : string) : st ostate (Z + astate) :=
  atomicFileEntity ← alloc;
  if negb atomicFileEntity then sret (inl ENOMEM) else
  file ← alloc;
  if negb file then sret (inl ENOMEM) else
  λ o, Some (inr (mka o (mkAtomic path (path +:+ TEMP_FILE_SUFFIX)) 0), o).

(** ** Programs *)

Inductive aop :=
  | AStart
  | AEdit (data : list Z)                  (** the program fills the new file *)
  | AFinish
  | AFail
  | ADelete
  | ARead.

(** The program's streams write to the file that [StartWrite] named. *)
Definition edit (data : list Z) : st astate (Z + unit) := λ s,
  match paths (os s) !! newFileName (ent s) with
  | None => Some (inl ENOENT, s)
  | Some ino => Some (inr tt, s <| os := (os s) <| inodes := <[ino := data]> (inodes (os s)) |> |>)
  end.
Definition no_data {A} (m : st astate (Z + A)) : st astate (Z + list Z) :=
  r ← m; sret (match r with inl e => inl e | inr _ => inr [] end).
Definition run_aop (o : aop) : st astate (Z + list Z) :=
  match o with
  | AStart => no_data StartWrite
  | AEdit data => no_data (edit data)
  | AFinish => no_data FinishWrite
  | AFail => no_data FailWrite
  | ADelete => no_data Delete
  | ARead => ReadFully
  end.

Fixpoint run_aops (p : list aop) : st astate (list (Z + list Z)) :=
  match p with
  | [] => sret []
  | o :: p => r ← run_aop o; rs ← run_aops p; sret (r :: rs)
  end.
End atomic.

(** ** The specification: a cell *)

(** [started] between a [StartWrite] and the call that ends it, [live] until [Delete]. *)
Record cell := mkCell { value : option (list Z); draft : option (list Z); started : bool; live : bool }.

(** An operation has nothing to work on. *)
Definition disabled (c : cell) (o : aop) : Prop :=
  match o with
  | AStart => started c = true ∨ live c = false
  | AEdit _ | AFinish | AFail => draft c = None
  | ADelete => False
  | ARead => live c = false ∨ value c = None ∨ value c = Some []
  end.

(** Only where calls may fail ([calm] does not hold), or an operation has nothing to work on,
    there is an error, and only a [Delete] that fails changes anything. *)
Inductive cell_step (calm : Prop) : cell → aop → Z + list Z → cell → Prop :=
  | cs_start (v : option (list Z)) :
      cell_step calm (mkCell v None false true) AStart (inr []) (mkCell v (Some []) true true)
  | cs_edit (v : option (list Z)) (d d' : list Z) (st l : bool) :
      cell_step calm (mkCell v (Some d) st l) (AEdit d') (inr []) (mkCell v (Some d') st l)
  | cs_finish (v : option (list Z)) (d : list Z) :
      cell_step calm (mkCell v (Some d) true true) AFinish (inr []) (mkCell (Some d) None false true)
  | cs_fail (v : option (list Z)) (d : list Z) :
      cell_step calm (mkCell v (Some d) true true) AFail (inr []) (mkCell v None false true)
  | cs_delete (v v' d : option (list Z)) (st : bool) :
      v' = None ∨ v' = v ∧ ¬ calm →
      cell_step calm (mkCell v d st true) ADelete (inr []) (mkCell v' None true false)
  | cs_delete_again (c : cell) :
      live c = false → cell_step calm c ADelete (inr []) c
  | cs_delete_failed (v v' d d' : option (list Z)) (st l : bool) (e : Z) :
      ¬ calm → v' = None ∨ v' = v → d' = None ∨ d' = d →
      cell_step calm (mkCell v d st l) ADelete (inl e) (mkCell v' d' st l)
  | cs_read (c : cell) (x : Z) (d : list Z) :
      live c = true → value c = Some (x :: d) → cell_step calm c ARead (inr (x :: d)) c
  | cs_error (c : cell) (o : aop) (e : Z) :
      o ≠ ADelete → ¬ calm ∨ disabled c o → cell_step calm c o (inl e) c.

Section cell.
Context {OE : OpenEnv} {AE : AtomicEnv} (b : string).
Hypothesis b_named : b ≠ EmptyString.
Hypothesis b_real : o_realpath b = inr b.
Hypothesis nothing_real : ∃ e, o_realpath EmptyString = inl e.

(** Calls do not fail, there is room for the new file and its directory is there. *)
Definition calm : Prop :=
  (∀ k n, a_fault k n = 0) ∧ never C_new ∧ never C_realpath ∧ (∀ X stem, is_Some (a_suffix X stem)) ∧
  a_dir (parent_path (b +:+ TEMP_FILE_SUFFIX)) = true.

Definition template : string := b +:+ TEMP_FILE_SUFFIX.
Definition deleted : FsAtomicFileEntity := mkAtomic EmptyString EmptyString.
Definition names_ok (e : FsAtomicFileEntity) : Prop :=
  e = deleted ∨
  baseFileName e = b ∧ (newFileName e = template ∨
    ∃ x, newFileName e = (b +:+ "_") +:+ x ∧ String.length x = 6%nat ∧ x ≠ "XXXXXX"%string).

(** The names are those of the object at [b]; no file has the name of the template or no
    name, and no two names are for one file. *)
Record ok (s : astate) : Prop := mkOk {
  ok_names : names_ok (ent s);
  ok_template : paths (os s) !! template = None;
  ok_empty : paths (os s) !! EmptyString = None;
  ok_inj : ∀ p q ino, paths (os s) !! p = Some ino → paths (os s) !! q = Some ino → p = q;
  ok_ino : ∀ p ino, paths (os s) !! p = Some ino → is_Some (inodes (os s) !! ino)
}.

Definition view (s : astate) : cell :=
  mkCell (content s b) (content s (newFileName (ent s)))
    (negb (String.eqb (newFileName (ent s)) template)) (negb (String.eqb (baseFileName (ent s)) EmptyString)).

(** What an operation does to the cell and to the rest of the files. *)
Definition simulated (s : astate) (o : aop) (r : Z + list Z) (s' : astate) : Prop :=
  ok s' ∧ cell_step calm (view s) o r (view s') ∧
  (∀ p, p ≠ b → p ≠ newFileName (ent s) → p ≠ newFileName (ent s') → content s' p = content s p) ∧
  match o with
  | AEdit _ => True
  | _ => ∀ ino d, inodes (os s) !! ino = Some d → inodes (os s') !! ino = Some d
  end.

(** ** Names *)

Lemma append_cancel (a x y : string) : a +:+ x = a +:+ y → x = y.
Proof. induction a as [|c a IH]; [done|]. rewrite !append_cons. intros [= H]. by apply IH. Qed.
Lemma template_split : template = (b +:+ "_") +:+ "XXXXXX".
Proof. unfold template. by rewrite append_assoc. Qed.
Lemma temp_not_template (x : string) : x ≠ "XXXXXX"%string → (b +:+ "_") +:+ x ≠ template.
Proof. rewrite template_split. by intros Hx ?%append_cancel. Qed.
Lemma longer_not_base (x : string) : (b +:+ "_") +:+ x ≠ b.
Proof. intros H%(f_equal String.length). rewrite !length_append in H. cbn in H. lia. Qed.
Lemma template_not_base : template ≠ b.
Proof. rewrite template_split. apply longer_not_base. Qed.
Lemma template_not_empty : template ≠ EmptyString.
Proof. unfold template. by destruct b. Qed.

Lemma stem_six (a x : string) : String.length x = 6%nat →
  stem_of (a +:+ x) = if String.eqb x "XXXXXX" then Some a else None.
Proof.
  intros Hx. unfold stem_of. rewrite length_append, Hx, Nat.add_sub, drop_append, take_append. done.
Qed.
Lemma stem_template : stem_of template = Some (b +:+ "_").
Proof. rewrite template_split. by rewrite stem_six. Qed.
Lemma stem_used (x : string) : String.length x = 6%nat → x ≠ "XXXXXX"%string → stem_of ((b +:+ "_") +:+ x) = None.
Proof. intros Hl Hx. rewrite stem_six by done. by destruct (String.eqb_spec x "XXXXXX"). Qed.

(** The three states of the names. *)
Lemma names_cases (s : astate) :
  ok s →
  ent s = deleted ∧ view s = mkCell (content s b) None true false ∨
  ent s = mkAtomic b template ∧ view s = mkCell (content s b) None false true ∨
  ∃ new, ent s = mkAtomic b new ∧ new ≠ b ∧ new ≠ template ∧ stem_of new = None ∧
         view s = mkCell (content s b) (content s new) true true.
Proof.
  intros [[Hd|(Hb & Hn)] Ht He _ _]; unfold view.
  - left. split; [done|]. rewrite Hd. cbn [deleted baseFileName newFileName]. unfold content at 2. rewrite He. cbn.
    pose proof template_not_empty as Hne. by destruct template.
  - right. assert (ent s = mkAtomic b (newFileName (ent s))) as Es by (destruct (ent s); cbn in *; by subst).
    assert (String.eqb b EmptyString = false) as Hbe by by destruct (String.eqb_spec b EmptyString).
    destruct Hn as [Hn|(x & Hn & Hl & Hx)]; rewrite Hn in Es; rewrite Es; cbn [baseFileName newFileName].
    + left. split; [done|]. rewrite Hbe, String.eqb_refl. unfold content at 2. by rewrite Ht.
    + right. eexists. split; [done|]. split; [apply longer_not_base|]. split; [by apply temp_not_template|].
      split; [by apply stem_used|]. rewrite Hbe.
      destruct (String.eqb_spec ((b +:+ "_") +:+ x) template) as [E|]; [by apply temp_not_template in E|done].
Qed.


(** ** Steps *)

(** Files and names are as before. *)
Definition quiet (s s' : astate) : Prop :=
  paths (os s') = paths (os s) ∧ inodes (os s') = inodes (os s) ∧ ent s' = ent s.
Lemma quiet_refl (s : astate) : quiet s s.
Proof. done. Qed.
Lemma quiet_trans (s1 s2 s3 : astate) : quiet s1 s2 → quiet s2 s3 → quiet s1 s3.
Proof. intros (? & ? & ?) (? & ? & ?). repeat split; congruence. Qed.
Lemma quiet_content (s s' : astate) (p : string) : quiet s s' → content s' p = content s p.
Proof. intros (Hp & Hi & _). unfold content. by rewrite Hp, Hi. Qed.
Lemma quiet_ok (s s' : astate) : quiet s s' → ok s → ok s'.
Proof. intros (Hp & Hi & He) []. split; rewrite ?Hp, ?Hi, ?He; done. Qed.
Lemma quiet_view (s s' : astate) : quiet s s' → view s' = view s.
Proof.
  intros (Hp & Hi & He). unfold view, content. by rewrite Hp, Hi, He.
Qed.

Lemma simulated_same (s s' : astate) (o : aop) (r : Z + list Z) :
  ok s → quiet s s' → cell_step calm (view s) o r (view s) → simulated s o r s'.
Proof.
  intros Hok Hq Hc. split; [by eapply quiet_ok|]. split; [by rewrite (quiet_view s s')|].
  split; [intros; by apply quiet_content|]. destruct Hq as (_ & Hi & _). rewrite Hi. by destruct o.
Qed.
Lemma simulated_error (s s' : astate) (o : aop) (e : Z) :
  ok s → quiet s s' → o ≠ ADelete → ¬ calm ∨ disabled (view s) o → simulated s o (inl e) s'.
Proof. intros. apply simulated_same; [done..|]. by apply cs_error. Qed.

Lemma twp_failing {A} (k : acall) (f : Z → st astate A) (Q : A → astate → Prop) (s0 s : astate) :
  quiet s0 s →
  (∀ e s1, quiet s0 s1 → (calm → e = 0) → twp (f e) Q s1) → twp (e ← failing k; f e) Q s.
Proof.
  intros Hq H. apply twp_bind. unfold twp, failing. apply H; [by eapply quiet_trans|]. intros [Hc _]. apply Hc.
Qed.
Lemma twp_lift_close {A} (fd : Z) (f : Z + unit → st astate A) (Q : A → astate → Prop) (s : astate) :
  (∀ r s1, quiet s s1 → twp (f r) Q s1) → twp (r ← lift (close fd); f r) Q s.
Proof.
  intros H. apply twp_bind. unfold twp, lift, close. cbv zeta. destruct (fds _ !! fd); by apply H.
Qed.
Lemma twp_realpath {A} (p : string) (f : Z + string → st astate A) (Q : A → astate → Prop) (s0 s : astate) :
  quiet s0 s →
  (∀ e s1, quiet s0 s1 → ¬ calm → twp (f (inl e)) Q s1) → (∀ s1, quiet s0 s1 → twp (f (o_realpath p)) Q s1) →
  twp (r ← realpath p; f r) Q s.
Proof.
  intros Hq He Hr. apply twp_bind. unfold twp, realpath, lift, sys.
  destruct (o_fault C_realpath (ocalls (os s)) =? 0) eqn:E; [by apply Hr; eapply quiet_trans|].
  apply He; [by eapply quiet_trans|]. intros (_ & _ & Hc & _). apply Z.eqb_neq in E. by apply E.
Qed.

Lemma twp_no_data {A} (m : st astate (Z + A)) (Q : Z + list Z → astate → Prop) (s : astate) :
  twp m (λ r s', Q (match r with inl e => inl e | inr _ => inr [] end) s') s → twp (no_data m) Q s.
Proof. intros H. apply twp_bind. eapply twp_mono; [exact H|]. intros r s' HQ. by apply twp_ret. Qed.

(** *** Starting *)

Lemma create_sim (s s' : astate) (x : string) (ino : Z) :
  let new := (b +:+ "_") +:+ x in
  ok s → ent s = mkAtomic b template → ent s' = mkAtomic b new →
  String.length x = 6%nat → x ≠ "XXXXXX"%string → paths (os s) !! new = None → inodes (os s) !! ino = None →
  paths (os s') = <[new := ino]> (paths (os s)) → inodes (os s') = <[ino := []]> (inodes (os s)) →
  simulated s AStart (inr []) s'.
Proof.
  intros new Hok He He' Hl Hx Hn Hi Hp' Hi'. pose proof Hok as [Hnm Ht Hem Hinj Hino].
  assert (Hnb : new ≠ b) by apply longer_not_base.
  assert (Hnt : new ≠ template) by by apply temp_not_template.
  assert (Hne : new ≠ EmptyString) by (unfold new; by destruct b).
  assert (Hfresh : ∀ p, paths (os s) !! p ≠ Some ino).
  { intros p Hp. destruct (Hino p ino Hp). congruence. }
  assert (Hc : ∀ p, p ≠ new → content s' p = content s p).
  { intros p Hpn. unfold content. rewrite Hp', Hi', lookup_insert_ne by done.
    destruct (paths (os s) !! p) as [j|] eqn:Ej; [|done]. cbn. rewrite lookup_insert_ne; [done|].
    intros ->. by apply (Hfresh p). }
  assert (Hcn : content s' new = Some []).
  { unfold content. rewrite Hp', Hi', lookup_insert_eq. cbn. by rewrite lookup_insert_eq. }
  assert (Hok' : ok s').
  { split; rewrite ?Hp', ?Hi', ?He'.
    - right. cbn. split; [done|]. right. by exists x.
    - by rewrite lookup_insert_ne.
    - by rewrite lookup_insert_ne.
    - intros p q j. rewrite !lookup_insert_Some. intros [[<- <-]|[? Hp]] [[<- Hj]|[? Hq]]; [done|..].
      + by apply Hfresh in Hq.
      + subst. by apply Hfresh in Hp.
      + by eapply Hinj.
    - intros p j. rewrite lookup_insert_Some, lookup_insert_is_Some. intros [[<- <-]|[? Hp]]; [by left|].
      right. split; [intros <-; by apply Hfresh in Hp|by apply (Hino p)]. }
  split; [done|]. split; [|split].
  - destruct (names_cases s Hok) as [[E _]|[[E ->]|(n & E & _ & Hn' & _)]]; rewrite He in E;
      [by injection E|clear E|by injection E as <-].
    destruct (names_cases s' Hok') as [[E _]|[[E _]|(n & E & _ & _ & _ & ->)]]; rewrite He' in E;
      [by injection E|injection E as E1; by destruct Hnt|]. injection E as <-. rewrite Hcn, Hc by done. apply cs_start.
  - intros p _ _ Hpn. rewrite He' in Hpn. by apply Hc.
  - intros j d Hj. rewrite Hi', lookup_insert_ne; [done|]. intros <-. congruence.
Qed.

Lemma twp_create {A} (name : string) (f : Z * string → st astate A) (Q : A → astate → Prop) (s : astate) :
  (∀ fd s1 ino, inodes (os s) !! ino = None → paths (os s1) = <[name := ino]> (paths (os s)) →
     inodes (os s1) = <[ino := []]> (inodes (os s)) → ent s1 = ent s → twp (f (fd, name)) Q s1) →
  twp (r ← create_temp name; f r) Q s.
Proof.
  intros H. apply twp_bind. unfold twp, create_temp, install.
  apply (H _ _ (fresh (dom (inodes (os s))))); [apply not_elem_of_dom, is_fresh|done..].
Qed.

Lemma start_sim (s : astate) : ok s → twp (run_aop AStart) (simulated s AStart) s.
Proof.
  intros Hok. apply twp_no_data. unfold StartWrite, access, mkstemp.
  match goal with |- twp (bind get_ent ?f) ?Q s => change (twp (f (ent s)) Q s) end. cbv beta zeta.
  assert (Hcase : disabled (view s) AStart ∧ stem_of (newFileName (ent s)) = None ∨ ent s = mkAtomic b template).
  { destruct (names_cases s Hok) as [[E ->]|[[E _]|(n & E & _ & _ & Hst & ->)]]; rewrite E; [|by right|]; left;
      (split; [cbn; by auto|done]). }
  apply twp_bind. apply (twp_failing _ _ _ s); [apply quiet_refl|]. intros e s1 Hq1 He1. apply twp_ret.
  set (r := if negb (e =? 0) then e else _). destruct (negb (r =? 0)) eqn:Er.
  { apply twp_ret, simulated_error; [done..|]. destruct Hcase as [[? _]|E]; [by right|]. left.
    intros Hc. unfold r in Er. rewrite (He1 Hc), E in Er. cbn in Er.
    destruct Hc as (_ & _ & _ & _ & Hd). unfold template in Er. by rewrite Hd in Er. }
  apply twp_bind, (twp_failing _ _ _ s); [done|]. intros e2 s2 Hq2 He2.
  destruct (e2 =? 0) eqn:E2; cbn [negb]; zbool.
  2: { apply twp_ret, twp_ret, simulated_error; [done..|]. left. intros Hc. by apply E2, He2. }
  apply twp_bind. unfold twp at 1, get_paths. destruct Hcase as [[Hd ->]|E].
  { apply twp_ret, twp_ret, simulated_error; [done..|]. by right. }
  rewrite E. cbn [newFileName]. rewrite stem_template.
  destruct (a_suffix (dom (paths (os s2))) (b +:+ "_")) as [x|] eqn:Ex.
  2: { apply twp_ret, twp_ret, simulated_error; [done..|]. left. intros (_ & _ & _ & Hs & _).
       destruct (Hs (dom (paths (os s2))) (b +:+ "_")). congruence. }
  apply a_suffix_spec in Ex as (Hnew & Hl & Hx). apply not_elem_of_dom in Hnew.
  destruct Hq2 as (Hp2 & Hi2 & En2). rewrite Hp2 in Hnew.
  apply twp_create. intros fd s3 ino Hino Hp3 Hi3 En3. rewrite Hp2 in Hp3. rewrite Hi2 in Hino, Hi3.
  apply twp_ret, twp_bind. unfold twp at 1, set_ent.
  apply twp_lift_close. intros u s4 (Hp4 & Hi4 & En4). apply twp_ret.
  eapply (create_sim s s4 x ino); [done|done|by rewrite En4|done..|by rewrite Hp4|by rewrite Hi4].
Qed.


(** *** Ending *)

Lemma view_started (s : astate) (n : string) :
  ent s = mkAtomic b n → n ≠ template → view s = mkCell (content s b) (content s n) true true.
Proof.
  intros He Hn. unfold view. rewrite He. cbn [newFileName baseFileName].
  destruct (String.eqb_spec n template); [done|]. by destruct (String.eqb_spec b EmptyString).
Qed.
Lemma view_idle (s : astate) : ok s → ent s = mkAtomic b template → view s = mkCell (content s b) None false true.
Proof.
  intros Hok He. destruct (names_cases s Hok) as [[E _]|[[_ H]|(n & E & _ & Hn & _)]]; [|done|].
  - rewrite He in E. by injection E.
  - rewrite He in E. by injection E as <-.
Qed.
Lemma names_idle : names_ok (mkAtomic b template).
Proof. right. cbn. auto. Qed.

Lemma ok_fewer (s s' : astate) :
  ok s → paths (os s') ⊆ paths (os s) → inodes (os s') = inodes (os s) → names_ok (ent s') → ok s'.
Proof.
  intros [_ Ht He Hinj Hino] Hp Hi Hn. split; rewrite ?Hi.
  - done.
  - by eapply lookup_weaken_None.
  - by eapply lookup_weaken_None.
  - intros p q ino Hq Hr. eapply Hinj; by eapply lookup_weaken.
  - intros p ino Hq. eapply Hino. by eapply lookup_weaken.
Qed.

Lemma finish_final (s s' : astate) (n : string) (ino : Z) :
  ok s → ent s = mkAtomic b n → n ≠ b → n ≠ template → paths (os s) !! n = Some ino →
  paths (os s') = <[b := ino]> (delete n (paths (os s))) → inodes (os s') = inodes (os s) →
  ent s' = mkAtomic b template → simulated s AFinish (inr []) s'.
Proof.
  intros Hok He Hnb Hnt Hn Hp Hi He'. pose proof Hok as [_ Ht Hem Hinj Hino].
  destruct (Hino n ino Hn) as [d Hd].
  assert (Hok' : ok s').
  { split; rewrite ?Hp, ?Hi, ?He'.
    - apply names_idle.
    - rewrite lookup_insert_ne by (intros E; by apply template_not_base). by apply lookup_delete_None; right.
    - rewrite lookup_insert_ne by done. by apply lookup_delete_None; right.
    - intros p q j. rewrite !lookup_insert_Some, !lookup_delete_Some.
      intros [[<- <-]|(? & Hpn & Hpj)] [[<- Hj]|(? & Hqn & Hqj)]; [done|..].
      + destruct Hqn. by eapply Hinj.
      + subst j. destruct Hpn. by eapply Hinj.
      + by eapply Hinj.
    - intros p j. rewrite lookup_insert_Some, lookup_delete_Some. intros [[<- <-]|(? & ? & Hpj)]; [by exists d|by apply (Hino p)]. }
  assert (Hc : ∀ p, p ≠ b → p ≠ n → content s' p = content s p).
  { intros p Hpb Hpn. unfold content. rewrite Hp, Hi, lookup_insert_ne, lookup_delete_ne by done. done. }
  split; [done|]. split; [|split].
  - rewrite (view_started s n), (view_idle s') by done.
    assert (content s n = Some d) as -> by (unfold content; by rewrite Hn; cbn).
    assert (content s' b = Some d) as ->.
    { unfold content. rewrite Hp, Hi, lookup_insert_eq. done. }
    apply cs_finish.
  - intros p Hpb Hpn _. rewrite He in Hpn. by apply Hc.
  - by rewrite Hi.
Qed.

Lemma fail_final (s s' : astate) (n : string) (ino : Z) :
  ok s → ent s = mkAtomic b n → n ≠ b → n ≠ template → paths (os s) !! n = Some ino →
  paths (os s') = delete n (paths (os s)) → inodes (os s') = inodes (os s) →
  ent s' = mkAtomic b template → simulated s AFail (inr []) s'.
Proof.
  intros Hok He Hnb Hnt Hn Hp Hi He'. destruct (ok_ino s Hok n ino Hn) as [d Hd].
  assert (Hok' : ok s').
  { apply (ok_fewer s); [done|rewrite Hp; apply delete_subseteq|done|rewrite He'; apply names_idle]. }
  assert (Hc : ∀ p, p ≠ n → content s' p = content s p).
  { intros p Hpn. unfold content. by rewrite Hp, Hi, lookup_delete_ne by done. }
  split; [done|]. split; [|split].
  - rewrite (view_started s n), (view_idle s') by done. rewrite Hc by done.
    assert (content s n = Some d) as -> by (unfold content; by rewrite Hn; cbn). apply cs_fail.
  - intros p Hpb Hpn _. rewrite He in Hpn. by apply Hc.
  - by rewrite Hi.
Qed.

(** Only between a [StartWrite] and its end is there a new file. *)
Lemma new_file_started (s : astate) (ino : Z) :
  ok s → paths (os s) !! newFileName (ent s) = Some ino →
  ∃ n, ent s = mkAtomic b n ∧ n ≠ b ∧ n ≠ template.
Proof.
  intros Hok Hn. pose proof Hok as [_ Ht Hem _ _].
  destruct (names_cases s Hok) as [[E _]|[[E _]|(n & E & Hb & Hnt & _)]]; [rewrite E in Hn; cbn in Hn; congruence..|].
  by exists n.
Qed.
Lemma no_new_file (s : astate) : paths (os s) !! newFileName (ent s) = None → draft (view s) = None.
Proof. intros H. unfold view, content. cbn. by rewrite H. Qed.

Lemma finish_sim (s : astate) : ok s → twp (run_aop AFinish) (simulated s AFinish) s.
Proof.
  intros Hok. apply twp_no_data. unfold FinishWrite, rename.
  match goal with |- twp (bind get_ent ?f) ?Q s => change (twp (f (ent s)) Q s) end. cbv beta zeta.
  apply twp_bind. apply (twp_failing _ _ _ s); [apply quiet_refl|]. intros e s1 Hq1 He1.
  destruct (e =? 0) eqn:E; cbn [negb]; zbool.
  2: { apply twp_ret. rewrite (proj2 (Z.eqb_neq _ _) E). apply twp_ret, simulated_error; [done..|].
       left. intros Hc. by apply E, He1. }
  apply twp_bind. unfold twp at 1, get_paths. rewrite (proj1 Hq1).
  destruct (paths (os s) !! newFileName (ent s)) as [ino|] eqn:En.
  2: { apply twp_ret, twp_ret, simulated_error; [done..|]. right. by apply no_new_file. }
  destruct (new_file_started s ino Hok En) as (n & He & Hnb & Hnt). rewrite He in En |- *. cbn [newFileName baseFileName] in *.
  destruct (String.eqb_spec n b); [done|]. apply twp_bind. unfold twp at 1, set_paths. apply twp_ret, twp_bind.
  unfold twp at 1, set_ent. apply twp_ret. destruct Hq1 as (Hp & Hi & _).
  by eapply (finish_final s _ n ino).
Qed.

Lemma fail_sim (s : astate) : ok s → twp (run_aop AFail) (simulated s AFail) s.
Proof.
  intros Hok. apply twp_no_data. unfold FailWrite, fs_remove.
  match goal with |- twp (bind get_ent ?f) ?Q s => change (twp (f (ent s)) Q s) end. cbv beta zeta.
  apply twp_bind. apply (twp_failing _ _ _ s); [apply quiet_refl|]. intros e s1 Hq1 He1.
  destruct (e =? 0) eqn:E; cbn [negb]; zbool.
  2: { apply twp_ret. unfold twp. apply simulated_error; [done..|]. left. intros Hc. by apply E, He1. }
  apply twp_bind. unfold twp at 1, get_paths. rewrite (proj1 Hq1).
  destruct (paths (os s) !! newFileName (ent s)) as [ino|] eqn:En.
  2: { apply twp_ret. unfold twp. apply simulated_error; [done..|]. right. by apply no_new_file. }
  destruct (new_file_started s ino Hok En) as (n & He & Hnb & Hnt). rewrite He in En |- *. cbn [newFileName baseFileName] in *.
  apply twp_bind. unfold twp at 1, set_paths. apply twp_ret. cbn [negb]. apply twp_bind.
  unfold twp at 1, set_ent. apply twp_ret. destruct Hq1 as (Hp & Hi & _).
  by eapply (fail_final s _ n ino).
Qed.

Lemma edit_sim (data : list Z) (s : astate) : ok s → twp (run_aop (AEdit data)) (simulated s (AEdit data)) s.
Proof.
  intros Hok. apply twp_no_data. unfold twp, edit.
  destruct (paths (os s) !! newFileName (ent s)) as [ino|] eqn:En.
  2: { apply simulated_error; [done|done|done|]. right. by apply no_new_file. }
  destruct (new_file_started s ino Hok En) as (n & He & Hnb & Hnt). rewrite He in En. cbn [newFileName] in En.
  pose proof Hok as [Hnm Ht Hem Hinj Hino]. set (s' := s <| os := _ |>).
  assert (Hc : ∀ p, p ≠ n → content s' p = content s p).
  { intros p Hpn. unfold content. change (paths (os s')) with (paths (os s)).
    change (inodes (os s')) with (<[ino := data]> (inodes (os s))).
    destruct (paths (os s) !! p) as [j|] eqn:Ej; [|done]. cbn. rewrite lookup_insert_ne; [done|].
    intros ->. by eapply Hpn, Hinj. }
  assert (Hcn : content s' n = Some data).
  { unfold content. change (paths (os s')) with (paths (os s)).
    change (inodes (os s')) with (<[ino := data]> (inodes (os s))). rewrite En. cbn. by rewrite lookup_insert_eq. }
  destruct (Hino n ino En) as [d Hd].
  split; [|split; [|split; [|done]]].
  - split; [exact Hnm|exact Ht|exact Hem|exact Hinj|]. intros p j Hj.
    change (inodes (os s')) with (<[ino := data]> (inodes (os s))). rewrite lookup_insert_is_Some.
    destruct (decide (ino = j)); [by left|right; split; [done|by apply (Hino p)]].
  - rewrite (view_started s n), (view_started s' n) by done. rewrite Hcn, Hc by done.
    assert (content s n = Some d) as -> by (unfold content; by rewrite En; cbn). apply cs_edit.
  - intros p _ Hpn _. rewrite He in Hpn. by apply Hc.
Qed.


(** *** Deleting and reading *)

Lemma exists_not_removed_spec (p : string) (s : astate) :
  twp (exists_not_removed p)
    (λ r s', ent s' = ent s ∧ inodes (os s') = inodes (os s) ∧
       (paths (os s') = paths (os s) ∨ paths (os s') = delete p (paths (os s))) ∧
       (r.1 = true → ¬ calm) ∧ (calm → paths (os s') = delete p (paths (os s)))) s.
Proof.
  unfold exists_not_removed, fs_exists, fs_remove. apply twp_bind, (twp_failing _ _ _ s); [apply quiet_refl|].
  intros e s1 (Hp1 & Hi1 & En1) He1. destruct (e =? 0) eqn:E; cbn [negb]; zbool.
  2: { apply twp_ret, twp_ret. split; [done|]. split; [done|]. split; [by left|]. split; [done|]. intros Hc. by destruct E; apply He1. }
  apply twp_bind. unfold twp at 1, get_paths. rewrite Hp1. apply twp_ret.
  destruct (paths (os s) !! p) as [ino|] eqn:Ep.
  2: { apply twp_ret. split; [done|]. split; [done|]. split; [by left|]. split; [done|]. intros _. by rewrite delete_id. }
  cbn [negb]. apply twp_bind, (twp_failing _ _ _ s); [done|]. intros e2 s2 (Hp2 & Hi2 & En2) He2.
  destruct (e2 =? 0) eqn:E2; cbn [negb]; zbool.
  2: { apply twp_ret, twp_ret. split; [done|]. split; [done|]. split; [by left|].
       assert (¬ calm) by (intros Hc; by apply E2, He2). by split. }
  apply twp_bind. unfold twp at 1, get_paths. rewrite Hp2, Ep. apply twp_bind. unfold twp at 1, set_paths.
  apply twp_ret, twp_ret. split; [done|]. split; [done|]. split; [by right|]. by split.
Qed.

(** Which contents two deletions, each of which may fail, leave. *)
Definition removed (s : astate) (n m : string) (s2 : astate) : Prop :=
  paths (os s2) ⊆ paths (os s) ∧ inodes (os s2) = inodes (os s) ∧
  ∀ p, content s2 p = content s p ∨ content s2 p = None ∧ (p = n ∨ p = m).
Lemma removed_twice (s s1 s2 : astate) (n m : string) :
  paths (os s1) = paths (os s) ∨ paths (os s1) = delete n (paths (os s)) →
  paths (os s2) = paths (os s1) ∨ paths (os s2) = delete m (paths (os s1)) →
  inodes (os s2) = inodes (os s) → removed s n m s2.
Proof.
  intros Hp1 Hp2 Hi. split; [|split; [done|]].
  { transitivity (paths (os s1)); [destruct Hp2 as [->| ->]|destruct Hp1 as [->| ->]];
      first [reflexivity|apply delete_subseteq]. }
  intros p. unfold content. rewrite Hi.
  destruct Hp2 as [->| ->]; [|destruct (decide (p = m)) as [->|Hpm]; [right; split; [by rewrite lookup_delete_eq|by right]|
    rewrite lookup_delete_ne by done]]; (destruct Hp1 as [->| ->]; [by left|]);
    (destruct (decide (p = n)) as [->|Hpn]; [right; split; [by rewrite lookup_delete_eq|by left]|left; by rewrite lookup_delete_ne]).
Qed.
(** Only the files of the object are removed. *)
Lemma removed_frame (s s2 : astate) (p : string) :
  ok s → removed s (newFileName (ent s)) (baseFileName (ent s)) s2 →
  p ≠ b → p ≠ newFileName (ent s) → content s2 p = content s p.
Proof.
  intros Hok (Hsub & _ & Hc) Hpb Hpn. destruct (Hc p) as [?|[_ [?| ->]]]; [done..|].
  destruct (names_cases s Hok) as [[E _]|[[E _]|(k & E & _)]]; rewrite E in *; [|done..].
  unfold content. cbn. pose proof (ok_empty s Hok) as He. by rewrite He, (lookup_weaken_None _ _ _ He Hsub).
Qed.

(** A [Delete] that succeeds leaves no object, and the file only where a call failed. *)
Lemma delete_final (s s3 : astate) :
  ok s → removed s (newFileName (ent s)) (baseFileName (ent s)) s3 → ent s3 = deleted →
  (calm → paths (os s3) !! baseFileName (ent s) = None) → simulated s ADelete (inr []) s3.
Proof.
  intros Hok Hrm He3 Hcalm. pose proof Hrm as (Hsub & Hi & Hc).
  assert (Hok3 : ok s3) by (apply (ok_fewer s); [done..|rewrite He3; by left]).
  split; [done|]. split; [|split; [|by rewrite Hi]].
  2: { intros p Hpb Hpn _. by apply (removed_frame s). }
  assert (view s3 = mkCell (content s3 b) None true false) as ->.
  { destruct (names_cases s3 Hok3) as [[_ E]|[[E _]|(k & E & _)]]; [done|..]; rewrite He3 in E; by injection E. }
  destruct (names_cases s Hok) as [[E Hv]|Hlive].
  - rewrite Hv. assert (content s3 b = content s b) as ->.
    { destruct (Hc b) as [?|[_ H]]; [done|]. rewrite E in H. by destruct H. }
    by apply cs_delete_again.
  - assert (∃ d st, view s = mkCell (content s b) d st true) as (d & st & ->).
    { destruct Hlive as [[_ ->]|(k & _ & _ & _ & _ & ->)]; eauto. }
    assert (Hm : baseFileName (ent s) = b) by (destruct Hlive as [[-> _]|(k & -> & _)]; done).
    apply cs_delete. destruct (Hc b) as [Hs|[-> _]]; [|by left].
    destruct (content s3 b) eqn:Ec; [|by left]. right. split; [done|]. intros H%Hcalm.
    unfold content in Ec. by rewrite <-Hm, H in Ec.
Qed.

Lemma delete_sim (s : astate) : ok s → twp (run_aop ADelete) (simulated s ADelete) s.
Proof.
  intros Hok. apply twp_no_data. unfold Delete.
  match goal with |- twp (bind get_ent ?f) ?Q s => change (twp (f (ent s)) Q s) end. cbv beta zeta.
  apply twp_bind. eapply twp_mono; [apply exists_not_removed_spec|].
  intros [failed1 c1] s1 (En1 & Hi1 & Hp1 & Hf1 & Hc1). cbn [fst] in Hf1.
  apply twp_bind. eapply twp_mono; [apply exists_not_removed_spec|].
  intros [failed2 c2] s2 (En2 & Hi2 & Hp2 & Hf2 & Hc2). cbn [fst] in Hf2. rewrite En1 in En2. rewrite Hi1 in Hi2.
  pose proof (removed_twice s s1 s2 _ _ Hp1 Hp2 Hi2) as Hrm. destruct (failed1 || failed2) eqn:Ef.
  - apply twp_ret. assert (Hn : ¬ calm) by (intros H; apply orb_true_iff in Ef as [->| ->]; [by apply Hf1|by apply Hf2]).
    pose proof Hrm as (Hsub & _ & Hc).
    split; [by apply (ok_fewer s); [..|rewrite En2; apply Hok]|]. split; [|split].
    + unfold view. rewrite En2. apply cs_delete_failed; [done|..].
      * destruct (Hc b) as [->|[-> _]]; auto.
      * destruct (Hc (newFileName (ent s))) as [->|[-> _]]; auto.
    + intros p Hpb Hpn _. by apply (removed_frame s).
    + by rewrite Hi2.
  - apply twp_bind. unfold twp at 1, set_ent. apply twp_ret. apply delete_final; [done|exact Hrm|done|].
    intros Hcalm. change (paths (os s2) !! baseFileName (ent s) = None). rewrite (Hc2 Hcalm). apply lookup_delete_eq.
Qed.

Lemma read_sim (s : astate) : ok s → twp (run_aop ARead) (simulated s ARead) s.
Proof.
  intros Hok. cbn [run_aop]. unfold ReadFully.
  match goal with |- twp (bind get_ent ?f) ?Q s => change (twp (f (ent s)) Q s) end. cbv beta zeta.
  assert (Hnc : ∀ e s1, quiet s s1 → ¬ calm → simulated s ARead (inl e) s1) by (intros; apply simulated_error; auto).
  apply (twp_realpath _ _ _ s); [apply quiet_refl|intros e s1 Hq Hn; by apply twp_ret, Hnc|]. intros s1 Hq1.
  assert (Hlive : live (view s) = false ∧ baseFileName (ent s) = EmptyString ∨
                  live (view s) = true ∧ baseFileName (ent s) = b).
  { destruct (names_cases s Hok) as [[-> ->]|[[-> ->]|(k & -> & _ & _ & _ & ->)]]; auto. }
  destruct Hlive as [[Hl ->]|[Hl ->]].
  { destruct nothing_real as [e ->]. apply twp_ret, simulated_error; [done..|]. right. by left. }
  rewrite b_real. apply (twp_failing _ _ _ s); [done|]. intros e s2 Hq2 He2.
  destruct (e =? 0) eqn:E; cbn [negb]; zbool; [|apply twp_ret, Hnc; [done|]; intros Hc; by apply E, He2].
  apply twp_bind. unfold twp at 1. rewrite (quiet_content s s2) by done.
  destruct (content s b) as [data|] eqn:Ed.
  2: { apply twp_ret, simulated_error; [done..|]. right. right. left. done. }
  unfold ReadFileToBuffer. apply (twp_failing _ _ _ s); [done|]. intros e3 s3 Hq3 He3.
  destruct (e3 =? 0) eqn:E3; cbn [negb]; zbool; [|apply twp_ret, Hnc; [done|]; intros Hc; by apply E3, He3].
  destruct data as [|x data].
  { apply twp_ret, simulated_error; [done..|]. right. right. right. done. }
  cbn [length]. destruct (Z.of_nat (S (length data)) <=? 0) eqn:E4; zbool; [lia|].
  apply twp_bind. unfold twp at 1, lift. rewrite alloc_eq. set (s4 := s3 <| os := _ |>).
  assert (Hq4 : quiet s s4) by by apply (quiet_trans s s3).
  destruct (o_fault C_new (ocalls (os s3)) =? 0) eqn:E5; cbn [negb]; zbool.
  2: { apply twp_ret, Hnc; [done|]. intros (_ & Hc & _). by apply E5. }
  apply (twp_failing _ _ _ s); [done|]. intros e6 s6 Hq6 He6.
  destruct (e6 =? 0) eqn:E6; cbn [negb]; zbool; [|apply twp_ret, Hnc; [done|]; intros Hc; by apply E6, He6].
  apply twp_ret, simulated_same; [done..|]. by apply cs_read.
Qed.


Lemma run_sim (o : aop) (s : astate) : ok s → twp (run_aop o) (simulated s o) s.
Proof.
  intros Hok.
  destruct o; [by apply start_sim|by apply edit_sim|by apply finish_sim|by apply fail_sim|by apply delete_sim|by apply read_sim].
Qed.

(** C27: an atomic file is a cell with a value and a draft. The base path is its own real
    path; no file has the name of the template or the empty name, and no file has two names ([ok],
    which every operation keeps). Then, whatever calls fail, every operation returns and does to
    the file at [b] and to the new file what the cell does: [StartWrite] makes an empty draft,
    [FinishWrite] makes the whole draft the value in one step and [FailWrite] drops it; an error,
    which needs a failing call or an operation that has nothing to work on, changes nothing, but
    for a [Delete] that removes part. No other file changes, and what descriptors are open for
    keeps its contents, also when it was the old value. *)
Theorem atomic_file_refines_cell (o : aop) (s : astate) :
  ok s →
  ∃ r s', run_aop o s = Some (r, s') ∧ ok s' ∧ cell_step calm (view s) o r (view s') ∧
    (∀ p, p ≠ b → p ≠ newFileName (ent s) → p ≠ newFileName (ent s') → content s' p = content s p) ∧
    match o with
    | AEdit _ => True
    | _ => ∀ ino d, inodes (os s) !! ino = Some d → inodes (os s') !! ino = Some d
    end.
Proof.
  intros Hok. exact (twp_elim (run_aop o) (simulated s o) s (run_sim o s Hok)).
Qed.

Lemma run_aops_ok (p : list aop) (s s' : astate) (rs : list (Z + list Z)) :
  ok s → run_aops p s = Some (rs, s') → ok s'.
Proof.
  revert s rs. induction p as [|o p IH]; intros s rs Hok; cbn [run_aops]; [by intros [= _ <-]|].
  intros (r & s1 & E1 & (rs' & s2 & E2 & [= _ <-])%bind_Some)%bind_Some.
  destruct (twp_elim _ _ _ (run_sim o s Hok)) as (r' & s1' & E1' & [Hok1 _]).
  rewrite E1 in E1'. injection E1' as <- <-. by eapply IH.
Qed.

(** What the results say became of the value and the draft. *)
Fixpoint track (p : list aop) (rs : list (Z + list Z)) (v d : option (list Z)) : option (list Z) * option (list Z) :=
  match p, rs with
  | o :: p, inr _ :: rs =>
      match o with
      | AStart => track p rs v (Some [])
      | AEdit data => track p rs v (Some data)
      | AFinish => track p rs d None
      | AFail => track p rs v None
      | ADelete | ARead => track p rs v d
      end
  | _ :: p, inl _ :: rs => track p rs v d
  | _, _ => (v, d)
  end.
(** Without a [Delete] the file always has what the last [FinishWrite] that succeeded took. *)
Lemma replaced_as_a_whole (p : list aop) (s s' : astate) (rs : list (Z + list Z)) :
  ok s → ADelete ∉ p → run_aops p s = Some (rs, s') →
  (content s' b, draft (view s')) = track p rs (content s b) (draft (view s)).
Proof.
  revert s rs. induction p as [|o p IH]; intros s rs Hok Hp; cbn [run_aops].
  { by intros [= <- <-]. }
  intros (r & s1 & E1 & (rs' & s2 & E2 & [= <- <-])%bind_Some)%bind_Some.
  destruct (twp_elim _ _ _ (run_sim o s Hok)) as (r' & s1' & E1' & Hok1 & Hc & _).
  rewrite E1 in E1'. injection E1' as <- <-. apply not_elem_of_cons in Hp as [Ho Hp].
  rewrite (IH s1 rs' Hok1 Hp E2).
  change (content s b) with (value (view s)). change (content s1 b) with (value (view s1)).
  destruct Hc; try done; cbn; by destruct o.
Qed.

(** A new object is in order where no file has the name of the template. *)
Lemma constructed_ok (o o' : ostate) (s : astate) :
  Constructor b o = Some (inr s, o') →
  paths o !! template = None → paths o !! EmptyString = None →
  (∀ p q ino, paths o !! p = Some ino → paths o !! q = Some ino → p = q) →
  (∀ p ino, paths o !! p = Some ino → is_Some (inodes o !! ino)) → ok s.
Proof.
  unfold Constructor, bind. rewrite alloc_eq. destruct (_ =? 0); [|done]. cbn [negb].
  rewrite alloc_eq. destruct (_ =? 0); [|done]. cbn [negb]. intros [= <- _] Ht He Hi Hn.
  split; [apply names_idle|exact Ht|exact He|exact Hi|exact Hn].
Qed.
End cell.

(** ** Concrete runs *)

Lemma abcdef_fresh (X : gset string) (stem x : string) :
  (if decide (stem +:+ "abcdef" ∈ X) then None else Some "abcdef"%string) = Some x →
  stem +:+ x ∉ X ∧ String.length x = 6%nat ∧ x ≠ "XXXXXX"%string.
Proof. destruct (decide _); [done|]. by intros [= <-]. Qed.
(** Every new file is named [abcdef]; the calls of [bad] fail. *)
#[local] Instance abcdef_env (bad : acall → nat → bool) : AtomicEnv := {|
  a_fault k n := if bad k n then 5 else 0;
  a_dir p := negb (String.eqb p EmptyString);
  a_suffix X stem := if decide (stem +:+ "abcdef" ∈ X) then None else Some "abcdef"%string;
  a_errno _ := 0;
  a_suffix_spec := abcdef_fresh
|}.
Definition no_fault : acall → nat → bool := λ _ _, false.
#[local] Existing Instance plain_env.

(** The object of a file of two, and one that stands beside a file with the name of its template. *)
Definition object_a : astate := mka two_files (mkAtomic "/a" "/a_XXXXXX") 0.
Definition object_beside : astate :=
  mka (two_files <| paths := <["/a_XXXXXX"%string := 2]> {["/a"%string := 1]} |>) (mkAtomic "/a" "/a_XXXXXX") 0.

Lemma two_paths (p : string) (ino : Z) :
  paths (os object_a) !! p = Some ino → p = "/a"%string ∧ ino = 1 ∨ p = "/b"%string ∧ ino = 2.
Proof.
  change (paths (os object_a)) with (<["/a"%string := 1]> (<["/b"%string := 2]> (∅ : gmap string Z))).
  rewrite !lookup_insert_Some, lookup_empty. naive_solver.
Qed.
Lemma object_a_ok : ok "/a" object_a.
Proof.
  split.
  - right. cbn. split; [done|]. by left.
  - reflexivity.
  - reflexivity.
  - intros p q ino Hp%two_paths Hq%two_paths. naive_solver.
  - intros p ino [[_ ->]|[_ ->]]%two_paths; by eexists.
Qed.

Lemma atomic_file_refines_cell_witness :
  let run := run_aops (OE := plain_env None) (AE := abcdef_env no_fault) in
  match run [AStart; AEdit [1; 2]] object_a with
  | None => False
  | Some (_, s) =>
      content s "/a" = Some [10; 11; 12] ∧
      ∃ r s', run_aop (OE := plain_env None) (AE := abcdef_env no_fault) AFinish s = Some (r, s') ∧
        content s' "/a" = Some [1; 2] ∧
        cell_step (calm (OE := plain_env None) (AE := abcdef_env no_fault) "/a") (view "/a" s) AFinish r (view "/a" s')
  end.
Proof.
  cbv zeta. destruct (run_aops _ object_a) as [[rs s]|] eqn:E; [|vm_compute in E; discriminate].
  assert (Hok : ok "/a" s).
  { eapply (run_aops_ok (OE := plain_env None) (AE := abcdef_env no_fault) "/a"); [done|done|by exists ENOENT|apply object_a_ok|exact E]. }
  destruct (atomic_file_refines_cell (OE := plain_env None) (AE := abcdef_env no_fault) "/a" ltac:(done) eq_refl
              (ex_intro _ ENOENT eq_refl) AFinish s Hok) as (r & s' & E' & _ & Hc & _).
  vm_compute in E. injection E as _ <-. split; [reflexivity|]. exists r, s'. split; [exact E'|]. split; [|exact Hc].
  vm_compute in E'. injection E' as _ <-. reflexivity.
Defined.

(** [FinishWrite] without [StartWrite] takes a file that has the name of the template. *)
Lemma finish_takes_template_file :
  let s' := match FinishWrite (AE := abcdef_env no_fault) object_beside with Some (_, s) => s | None => object_beside end in
  content object_beside "/a" = Some [10; 11; 12] ∧ content s' "/a" = Some [20; 21; 22] ∧ content s' "/a_XXXXXX" = None.
Proof. vm_compute. by repeat split. Qed.
(** When the new file cannot be removed but the old one can, [Delete] fails with error 0. *)
Lemma delete_error_zero :
  let bad k n := match k with A_remove => (n =? 3)%nat | _ => false end in
  match run_aops (OE := plain_env None) (AE := abcdef_env bad) [AStart; AEdit [1]; ADelete] object_a with
  | Some (rs, s) => rs !! 2%nat = Some (inl 0) ∧ content s "/a" = None ∧ content s "/a_abcdef" = Some [1]
  | None => False
  end.
Proof. vm_compute. by repeat split. Qed.
(** When it cannot find out whether the files are there, [Delete] says it deleted them. *)
Lemma delete_misses_file :
  let bad k n := match k with A_exists => true | _ => false end in
  match run_aops (OE := plain_env None) (AE := abcdef_env bad) [ADelete] object_a with
  | Some (rs, s) => rs = [inr []] ∧ content s "/a" = Some [10; 11; 12]
  | None => False
  end.
Proof. vm_compute. by repeat split. Qed.
