(* ===== verification/Streams.v ===== *)
(** * Streams

    Models the [Stream] objects of [mod_fs]: [class_stream/fs_stream.cpp],
    [class_stream/stream_instantiator.cpp] and [create_stream_core.cpp], over the streams
    of libc.

    An object has a shared pointer to a [FILE].  An operation takes a copy of it under the
    mutex ([GetFilePtr]), works with it and drops it at its end; [Close] drops the one of
    the object, and the last one to go closes the [FILE].  Operations of several threads
    are interleaved at the calls of libc, each of which locks the [FILE]: [Begin] starts
    one in a thread and [Advance] makes its next call.  Using a [FILE] that is closed is
    undefined: [None].

    A [FILE] collects what is written, at most [s_cap] bytes, and writes it when there is
    no room, when it is flushed, moved or closed, and before it is read; C leaves the last
    undefined unless the stream is moved or flushed in between, and this is what musl does.
    Reading ahead is not modelled: it shows only to programs that change the file in other
    ways at the same time.  [StreamEnv] decides which calls fail, and how much a failing
    transfer moved. *)

From coqutil Require Import Datatypes.RecordSetters.
From S2P Require Import Prelude OpenFiles.
Import TriangleBracketNotations.
#[local] Open Scope record_set.

Definition EOVERFLOW : Z := 75.
Definition SEEK_SET : Z := 0.
Definition SEEK_CUR : Z := 1.
Definition SEEK_END : Z := 2.
Definition UTF_8 : string := "utf-8".

Inductive scall := K_new | K_open | K_write | K_read | K_lseek.
Class StreamEnv := {
  s_fault : scall → nat → Z;       (** errno of the n-th call, 0 for none *)
  s_part : nat → nat;              (** the bytes that a failing transfer moved *)
  s_cap : nat                      (** the size of a buffer *)
}.

(** ** State *)

Record FILE := mkFILE {
  f_name : string;
  f_rd : bool;
  f_wr : bool;
  f_app : bool;
  f_pos : Z;                       (** the position, behind what is in the buffer *)
  f_pend : list Z;                 (** written, and not yet in the file *)
  f_eof : bool;
  f_err : bool
}.

Record StreamReadOptions := mkReadOpts { sr_offset : option Z; sr_length : option Z }.
Record StreamWriteOptions := mkWriteOpts { sw_length : option Z; sw_offset : option Z; sw_encoding : option string }.

Inductive sop :=
  | SWrite (buf : list Z) (options : option StreamWriteOptions)
  | SWriteText (text : list Z) (options : option StreamWriteOptions)
  | SRead (bufLen : Z) (options : option StreamReadOptions)
  | SFlush
  | SSeek (offset : Z) (typeOpt : option Z).

(** An error or a number, and the bytes that were read. *)
Abbreviation sres := ((Z + Z) * list Z)%type.

(** How far an operation is: it has the pointer; the arguments are checked and the stream
    is moved; it has its answer and drops the pointer next. *)
Inductive phase :=
  | PGot (o : sop) (fp : nat)
  | PMoved (o : sop) (fp : nat) (n : Z)
  | PAnswer (fp : nat) (r : sres).
Definition phase_fp (p : phase) : nat :=
  match p with PGot _ fp | PMoved _ fp _ | PAnswer fp _ => fp end.

Record sstate := mks {
  sfiles : gmap string (list Z);
  FILEs : gmap nat FILE;
  use_count : gmap nat Z;
  objs : gmap nat (option nat);    (** the [fp] of the [streamEntity] of each object *)
  threads : gmap nat phase;
  fclosed : list nat;              (** every [fclose] so far *)
  next_fp : nat;
  next_obj : nat;
  scount : nat
}.

Section streams.
Context {SE : StreamEnv}.

(** ** libc *)

Definition sys {A} (k : scall) (bad : Z → nat → sstate → A * sstate) (good : sstate → A * sstate) : st sstate A := λ s,
  let e := s_fault k (scount s) in
  let s1 := s <| scount := S (scount s) |> in
  Some (if e =? 0 then good s1 else bad e (s_part (scount s)) s1).

Definition get_file (fp : nat) : st sstate FILE := λ s,
  match FILEs s !! fp with Some f => Some (f, s) | None => None end.
Definition set_file (fp : nat) (f : FILE) : st sstate unit := λ s, Some (tt, s <| FILEs := <[fp := f]> (FILEs s) |>).
Definition content (f : FILE) (s : sstate) : list Z := default [] (sfiles s !! f_name f).

(** [write] of [bytes] where the buffer of [f] begins; the answer is the error, the number
    of bytes and the stream with an empty buffer. *)
Definition put_bytes (f : FILE) (bytes : list Z) (s : sstate) : FILE * sstate :=
  let data := content f s in
  let at_ := if f_app f then length data else Z.to_nat (f_pos f - Z.of_nat (length (f_pend f))) in
  (f <| f_pos := Z.of_nat (at_ + length bytes) |> <| f_pend := [] |>,
   s <| sfiles := <[f_name f := put_at data bytes at_]> (sfiles s) |>).
Definition write_out (f : FILE) (bytes : list Z) : st sstate (Z * nat * FILE) :=
  sys K_write
    (λ e part s, let k := Nat.min part (length bytes) in
       let '(f, s) := put_bytes f (take k bytes) s in ((e, k, f <| f_err := true |>), s))
    (λ s, let '(f, s) := put_bytes f bytes s in ((0, length bytes, f), s)).

(** What is in the buffer is written; the answer is the error. *)
Definition flush_buffer (fp : nat) : st sstate Z :=
  f ← get_file fp;
  match f_pend f with
  | [] => sret 0
  | pend => '(e, _, f) ← write_out f pend; set_file fp f;; sret e
  end.
Definition fflush (fp : nat) : st sstate Z := flush_buffer fp.

Definition fwrite (fp : nat) (bytes : list Z) : st sstate Z :=
  f ← get_file fp;
  match bytes with
  | [] => sret 0
  | _ =>
      if negb (f_wr f) then set_file fp (f <| f_err := true |>);; sret 0 else
      let all := f_pend f ++ bytes in
      if (length all <=? s_cap)%nat then
        set_file fp (f <| f_pend := all |> <| f_pos := f_pos f + Z.of_nat (length bytes) |>);;
        sret (Z.of_nat (length bytes))
      else
        '(_, k, f') ← write_out f all; set_file fp f';;
        sret (Z.of_nat (k - length (f_pend f)))
  end.

Definition fread (fp : nat) (n : Z) : st sstate (list Z) :=
  _ ← flush_buffer fp;
  f ← get_file fp;
  if n =? 0 then sret [] else
  if negb (f_rd f) then set_file fp (f <| f_err := true |>);; sret [] else
  if f_eof f then sret [] else
  sys K_read
    (λ e part s, let got := take (Nat.min part (Z.to_nat n)) (drop (Z.to_nat (f_pos f)) (content f s)) in
       (got, s <| FILEs := <[fp := f <| f_pos := f_pos f + Z.of_nat (length got) |> <| f_err := true |>]> (FILEs s) |>))
    (λ s, let got := take (Z.to_nat n) (drop (Z.to_nat (f_pos f)) (content f s)) in
       (got, s <| FILEs := <[fp := f <| f_pos := f_pos f + Z.of_nat (length got) |>
                                     <| f_eof := Z.of_nat (length got) <? n |>]> (FILEs s) |>)).

(** The answer is the error. *)
Definition fseek (fp : nat) (off whence : Z) : st sstate Z :=
  e ← flush_buffer fp;
  if negb (e =? 0) then sret e else
  f ← get_file fp;
  sys K_lseek (λ e _ s, (e, s))
    (λ s, let base := if whence =? SEEK_SET then 0 else if whence =? SEEK_CUR then f_pos f
                      else Z.of_nat (length (content f s)) in
       if base + off <? 0 then (EINVAL, s)
       else if 2 ^ 63 <=? base + off then (EOVERFLOW, s)
       else (0, s <| FILEs := <[fp := f <| f_pos := base + off |> <| f_eof := false |>]> (FILEs s) |>)).

(** The error or the position. *)
Definition ftell (fp : nat) : st sstate (Z + Z) :=
  f ← get_file fp;
  sys K_lseek (λ e _ s, (inl e, s))
    (λ s, (inr (if f_app f && bool_decide (f_pend f ≠ [])
                then Z.of_nat (length (content f s) + length (f_pend f)) else f_pos f), s)).

(** An error of the last write is lost. *)
Definition fclose (fp : nat) : st sstate unit :=
  _ ← flush_buffer fp;
  λ s, Some (tt, s <| FILEs := delete fp (FILEs s) |> <| fclosed := fp :: fclosed s |>).

(** What the letters of a mode ask for: reading, writing, appending. *)
Definition parse_mode (mode : string) : option (bool * bool * bool) :=
  let plus := bool_decide (is_Some (String.index 0 "+" mode)) in
  match mode with
  | String "r" _ => Some (true, plus, false)
  | String "w" _ => Some (plus, true, false)
  | String "a" _ => Some (plus, true, true)
  | _ => None
  end.
Definition fopen (path mode : string) : st sstate (Z + nat) :=
  match parse_mode mode with
  | None => sret (inl EINVAL)
  | Some (rd, wr, app) =>
      sys K_open (λ e _ s, (inl e, s))
        (λ s, let creates := match mode with String "r" _ => false | _ => true end in
           let cuts := match mode with String "w" _ => true | _ => false end in
           match sfiles s !! path, creates with
           | None, false => (inl ENOENT, s)
           | old, _ =>
               let data := if cuts then [] else default [] old in
               (inr (next_fp s),
                s <| sfiles := <[path := data]> (sfiles s) |>
                  <| FILEs := <[next_fp s := mkFILE path rd wr app 0 [] false false]> (FILEs s) |>
                  <| next_fp := S (next_fp s) |>)
           end)
  end.

(** ** Shared pointers *)

Definition acquire (fp : nat) : st sstate unit := λ s,
  Some (tt, s <| use_count := <[fp := default 0 (use_count s !! fp) + 1]> (use_count s) |>).
Definition release (fp : nat) : st sstate unit := λ s,
  match use_count s !! fp with
  | None => None
  | Some c => if c =? 1 then fclose fp (s <| use_count := delete fp (use_count s) |>)
              else Some (tt, s <| use_count := <[fp := c - 1]> (use_count s) |>)
  end.

(** ** Objects *)

Definition alloc : st sstate bool := sys K_new (λ _ _ s, (false, s)) (λ s, (true, s)).

Definition FsStream_Constructor : st sstate (Z + nat) :=
  rafEntity ← alloc;
  if negb rafEntity then sret (inl ENOMEM) else
  fsStreamPtr ← alloc;
  if negb fsStreamPtr then sret (inl ENOMEM) else
  λ s, Some (inr (next_obj s), s <| objs := <[next_obj s := None]> (objs s) |> <| next_obj := S (next_obj s) |>).

Definition InstantiateStream (file : nat) : st sstate (Z + nat) :=
  result ← FsStream_Constructor;
  match result with
  | inl _ => fclose file;; sret (inl EIO)
  | inr objStream =>
      acquire file;;
      λ s, Some (inr objStream, s <| objs := <[objStream := Some file]> (objs s) |>)
  end.

Definition DoCreateStream (path mode : string) : st sstate (Z + nat) :=
  file ← fopen path mode;
  match file with
  | inl errno => sret (inl errno)
  | inr file => InstantiateStream file
  end.

(** A copy of the pointer of the object. *)
Definition GetFilePtr (id : nat) : st sstate (option nat) := λ s,
  match mjoin (objs s !! id) with
  | None => Some (None, s)
  | Some fp => (acquire fp;; sret (Some fp)) s
  end.

Definition ValidWriteArg (bufLen : Z) (options : option StreamWriteOptions) : bool * Z * Z :=
  let offset := -1 in
  if bufLen >? UINT_MAX then (false, 0, offset) else
  let lengthOp := int64_of_size <$> (options ≫= sw_length) in
  let '(succ, retLen) := GetActualLen bufLen 0 lengthOp in
  if negb succ then (false, 0, offset) else
  let offset := default offset (options ≫= sw_offset) in
  if bool_decide (is_Some (options ≫= sw_offset)) && (offset <? 0) then (false, 0, offset) else
  if bool_decide (is_Some (options ≫= sw_encoding)) && negb (bool_decide (options ≫= sw_encoding = Some UTF_8))
  then (false, 0, offset) else
  (true, retLen, offset).
Definition ValidReadArg (bufLen : Z) (options : option StreamReadOptions) : bool * Z * Z :=
  let offset := -1 in
  if bufLen >? UINT_MAX then (false, 0, offset) else
  let '(succ, retLen) := GetActualLen bufLen 0 (options ≫= sr_length) in
  if negb succ then (false, 0, offset) else
  let offset := default offset (options ≫= sr_offset) in
  if bool_decide (is_Some (options ≫= sr_offset)) && (offset <? 0) then (false, 0, offset) else
  (true, retLen, offset).

(** Moves to [offset], unless it is negative, and goes on to transfer [n] bytes. *)
Definition move_first (o : sop) (fp : nat) (n offset whence : Z) : st sstate phase :=
  if offset >=? 0 then
    e ← fseek fp offset whence;
    sret (if negb (e =? 0) then PAnswer fp (inl e, []) else PMoved o fp n)
  else sret (PMoved o fp n).

(** From the pointer to the first call. *)
Definition Write_start (o : sop) (fp : nat) (bufLen : Z) (options : option StreamWriteOptions) : st sstate phase :=
  let '(succ, retLen, offset) := ValidWriteArg bufLen options in
  if negb succ then sret (PAnswer fp (inl EINVAL, [])) else move_first o fp retLen offset SEEK_SET.
Definition Read_start (o : sop) (fp : nat) (bufLen : Z) (options : option StreamReadOptions) : st sstate phase :=
  let '(succ, retLen, offset) := ValidReadArg bufLen options in
  if negb succ then sret (PAnswer fp (inl EINVAL, [])) else move_first o fp retLen offset SEEK_SET.
Definition Seek_start (o : sop) (fp : nat) (offset : Z) (typeOpt : option Z) : st sstate phase :=
  match typeOpt with
  | Some pos =>
      if (pos <? SEEK_SET) || (pos >? SEEK_END) then sret (PAnswer fp (inl EINVAL, []))
      else move_first o fp 0 offset pos
  | None => move_first o fp 0 offset SEEK_SET
  end.
Definition Flush (fp : nat) : st sstate phase :=
  e ← fflush fp;
  sret (PAnswer fp (if negb (e =? 0) then (inl e, []) else (inr 0, []))).

(** The transfer, and what it comes to. *)
Definition Write_finish (fp : nat) (buf : list Z) (retLen : Z) : st sstate phase :=
  writeLen ← fwrite fp (take (Z.to_nat retLen) buf);
  sret (PAnswer fp (if (writeLen =? 0) && negb (writeLen =? retLen) then (inl EIO, []) else (inr writeLen, []))).
Definition Read_finish (fp : nat) (retLen : Z) : st sstate phase :=
  got ← fread fp retLen;
  f ← get_file fp;
  let actLen := Z.of_nat (length got) in
  sret (PAnswer fp (if (negb (actLen =? retLen) && negb (f_eof f)) || f_err f then (inl EIO, got) else (inr actLen, got))).
Definition Seek_finish (fp : nat) : st sstate phase :=
  r ← ftell fp; sret (PAnswer fp (r, [])).

Definition start_op (o : sop) (fp : nat) : st sstate phase :=
  match o with
  | SWrite buf options | SWriteText buf options => Write_start o fp (Z.of_nat (length buf)) options
  | SRead bufLen options => Read_start o fp bufLen options
  | SFlush => Flush fp
  | SSeek offset typeOpt => Seek_start o fp offset typeOpt
  end.
Definition finish_op (o : sop) (fp : nat) (n : Z) : st sstate phase :=
  match o with
  | SWrite buf _ | SWriteText buf _ => Write_finish fp buf n
  | SRead _ _ => Read_finish fp n
  | SFlush => Flush fp
  | SSeek _ _ => Seek_finish fp
  end.

(** ** Threads *)

Definition set_phase (t : nat) (p : phase) : st sstate (option sres) := λ s,
  Some (None, s <| threads := <[t := p]> (threads s) |>).

(** Thread [t] starts [o] on the object [id]; an object that is closed answers at once. *)
Definition Begin (t id : nat) (o : sop) : st sstate (option sres) :=
  fp ← GetFilePtr id;
  match fp with
  | None => sret (Some (inl (match o with SSeek _ _ => ENOENT | _ => EIO end), []))
  | Some fp => set_phase t (PGot o fp)
  end.

(** The next step of the operation that thread [t] runs; it ends with its answer. *)
Definition Advance (t : nat) : st sstate (option sres) := λ s,
  match threads s !! t with
  | None => None
  | Some (PGot o fp) => (p ← start_op o fp; set_phase t p) s
  | Some (PMoved o fp n) => (p ← finish_op o fp n; set_phase t p) s
  | Some (PAnswer fp r) => (release fp;; sret (Some r)) (s <| threads := delete t (threads s) |>)
  end.

Definition Close (id : nat) : st sstate sres := λ s,
  match mjoin (objs s !! id) with
  | None => Some ((inl EIO, []), s)
  | Some fp => (release fp;; sret (inr 0, [])) (s <| objs := <[id := None]> (objs s) |>)
  end.
(** [~FsStream] *)
Definition delete_stream (id : nat) : st sstate unit := λ s,
  let s1 := s <| objs := delete id (objs s) |> in
  match mjoin (objs s !! id) with None => Some (tt, s1) | Some fp => release fp s1 end.

(** A whole operation, with no other thread in between. *)
Definition call (t id : nat) (o : sop) : st sstate (option sres) :=
  r ← Begin t id o;
  match r with
  | Some r => sret (Some r)
  | None =>
      r ← Advance t;
      match r with
      | Some r => sret (Some r)
      | None =>
          r ← Advance t;
          match r with Some r => sret (Some r) | None => Advance t end
      end
  end.

(** What programs do. *)
Inductive sact :=
  | ACreate (path mode : string)
  | ABegin (t id : nat) (o : sop)
  | AAdvance (t : nat)
  | AClose (id : nat)
  | ADelete (id : nat).
Definition act (a : sact) : st sstate unit :=
  match a with
  | ACreate path mode => _ ← DoCreateStream path mode; sret tt
  | ABegin t id o => _ ← Begin t id o; sret tt
  | AAdvance t => _ ← Advance t; sret tt
  | AClose id => _ ← Close id; sret tt
  | ADelete id => delete_stream id
  end.
(** A thread runs one operation at a time, and on objects that exist. *)
Definition enabled (s : sstate) (a : sact) : Prop :=
  match a with
  | ACreate _ _ => True
  | ABegin t id _ => threads s !! t = None ∧ is_Some (objs s !! id)
  | AAdvance t => is_Some (threads s !! t)
  | AClose id | ADelete id => is_Some (objs s !! id)
  end.

Definition start_state (files : gmap string (list Z)) : sstate := mks files ∅ ∅ ∅ ∅ [] 0 0 0.
Inductive reachable (files : gmap string (list Z)) : sstate → Prop :=
  | reach_start : reachable files (start_state files)
  | reach_act (s s' : sstate) (a : sact) :
      reachable files s → enabled s a → act a s = Some (tt, s') → reachable files s'.
End streams.

(** ** What the calls of libc leave alone *)

(** The pointers and the open streams are the same, and no error indicator is cleared. *)
Record quiet (s s' : sstate) : Prop := mkQuiet {
  q_counts : use_count s' = use_count s;
  q_objs : objs s' = objs s;
  q_threads : threads s' = threads s;
  q_closed : fclosed s' = fclosed s;
  q_next : next_fp s' = next_fp s;
  q_obj : next_obj s' = next_obj s;
  q_open : ∀ fp, is_Some (FILEs s' !! fp) ↔ is_Some (FILEs s !! fp);
  q_err : ∀ fp f, FILEs s !! fp = Some f → f_err f = true → ∃ f', FILEs s' !! fp = Some f' ∧ f_err f' = true
}.

Lemma quiet_same_state s : quiet s s.
Proof. split; try done. eauto. Qed.
Lemma quiet_step s1 s2 s3 : quiet s1 s2 → quiet s2 s3 → quiet s1 s3.
Proof.
  intros [A1 A2 A3 A4 A5 A6 A7 A8] [B1 B2 B3 B4 B5 B6 B7 B8]. split; try congruence.
  - intros fp. by rewrite B7, A7.
  - intros fp f Hf He. destruct (A8 fp f Hf He) as (f' & Hf' & He'). eauto.
Qed.
(** Only the count of calls and the contents of files differ. *)
Lemma quiet_same s s' :
  use_count s' = use_count s → objs s' = objs s → threads s' = threads s → fclosed s' = fclosed s →
  next_fp s' = next_fp s → next_obj s' = next_obj s → FILEs s' = FILEs s → quiet s s'.
Proof.
  intros ? ? ? ? ? ? HF. split; try done.
  - intros fp. by rewrite HF.
  - intros fp f Hf He. rewrite HF. eauto.
Qed.
(** One stream is replaced. *)
Lemma quiet_set s s' fp f f' :
  use_count s' = use_count s → objs s' = objs s → threads s' = threads s → fclosed s' = fclosed s →
  next_fp s' = next_fp s → next_obj s' = next_obj s → FILEs s' = <[fp := f']> (FILEs s) →
  FILEs s !! fp = Some f → (f_err f = true → f_err f' = true) → quiet s s'.
Proof.
  intros ? ? ? ? ? ? HF Hf He. split; try done.
  - intros q. rewrite HF. destruct (decide (q = fp)) as [->|Hne]; [rewrite lookup_insert_eq, Hf; by split; eexists|].
    by rewrite lookup_insert_ne.
  - intros q g Hg Heg. rewrite HF. destruct (decide (q = fp)) as [->|Hne].
    + rewrite lookup_insert_eq. assert (g = f) as -> by congruence. eauto.
    + rewrite lookup_insert_ne by done. eauto.
Qed.

Section calls.
Context {SE : StreamEnv}.
Implicit Types (s : sstate) (fp : nat).

Lemma twp_libc {A} k bad good (Q : A → sstate → Prop) s :
  (s_fault k (scount s) ≠ 0 → ∀ r, r = bad (s_fault k (scount s)) (s_part (scount s)) (s <| scount := S (scount s) |>) → Q r.1 r.2) →
  (∀ r, r = good (s <| scount := S (scount s) |>) → Q r.1 r.2) → twp (sys k bad good) Q s.
Proof.
  intros Hb Hg. unfold twp, sys. destruct (s_fault k (scount s) =? 0) eqn:E; zbool.
  - specialize (Hg _ eq_refl). by destruct (good _).
  - specialize (Hb E _ eq_refl). by destruct (bad _ _ _).
Qed.
Lemma twp_get_file fp f (Q : FILE → sstate → Prop) s :
  FILEs s !! fp = Some f → Q f s → twp (get_file fp) Q s.
Proof. intros Hf HQ. unfold twp, get_file. by rewrite Hf. Qed.
Lemma twp_set_file fp f (Q : unit → sstate → Prop) s :
  Q tt (s <| FILEs := <[fp := f]> (FILEs s) |>) → twp (set_file fp f) Q s.
Proof. done. Qed.

Lemma put_bytes_quiet f bytes s : quiet s (put_bytes f bytes s).2.
Proof. by apply quiet_same. Qed.
Lemma twp_write_out f bytes (Q : Z * nat * FILE → sstate → Prop) s :
  (∀ e k f' s', quiet s s' → FILEs s' = FILEs s → (f_err f = true → f_err f' = true) → Q (e, k, f') s') →
  twp (write_out f bytes) Q s.
Proof.
  intros HQ. apply twp_libc; intros; subst r; cbn [put_bytes fst snd]; apply HQ; try done; by apply quiet_same.
Qed.

(** The calls, as long as the stream is open. *)
Definition keeps {A} (m : st sstate A) (fp : nat) : Prop :=
  ∀ s, is_Some (FILEs s !! fp) → twp m (λ _ s', quiet s s') s.

Lemma open_ret {A} (a : A) fp : keeps (sret a) fp.
Proof. intros s _. apply twp_ret, quiet_same_state. Qed.
Lemma open_bind {A B} (m : st sstate A) (k : A → st sstate B) fp :
  keeps m fp → (∀ a, keeps (k a) fp) → keeps (bind m k) fp.
Proof.
  intros Hm Hk s Hs. apply twp_bind. eapply twp_mono; [by apply Hm|]. intros a s1 H1.
  eapply twp_mono; [exact (Hk a s1 (proj2 (q_open _ _ H1 fp) Hs))|]. intros b s2 H2. exact (quiet_step _ _ _ H1 H2).
Qed.
(** A stream read, worked on and put back. *)
Lemma keeps_file {A} fp (k : FILE → st sstate A) :
  (∀ f s, FILEs s !! fp = Some f → twp (k f) (λ _ s', quiet s s') s) → keeps (f ← get_file fp; k f) fp.
Proof. intros Hk s [f Hf]. apply twp_bind, (twp_get_file fp f); [done|]. by apply Hk. Qed.

Lemma keeps_flush_buffer fp : keeps (flush_buffer fp) fp.
Proof.
  apply keeps_file. intros f s Hf. destruct (f_pend f) as [|b l]; [apply twp_ret, quiet_same_state|].
  apply twp_bind, twp_write_out. intros e k f' s1 H1 HF He. apply twp_bind, twp_set_file, twp_ret.
  eapply quiet_step; [exact H1|]. apply (quiet_set _ _ fp f f'); try done. by rewrite HF.
Qed.
Lemma keeps_fwrite fp bytes : keeps (fwrite fp bytes) fp.
Proof.
  apply keeps_file. intros f s Hf. destruct bytes as [|b l]; [apply twp_ret, quiet_same_state|].
  destruct (f_wr f); cbn [negb].
  - destruct (_ <=? _)%nat.
    + apply twp_bind, twp_set_file, twp_ret. by eapply quiet_set.
    + apply twp_bind, twp_write_out. intros e k f' s1 H1 HF He. apply twp_bind, twp_set_file, twp_ret.
      eapply quiet_step; [exact H1|]. apply (quiet_set _ _ fp f f'); try done. by rewrite HF.
  - apply twp_bind, twp_set_file, twp_ret. by eapply quiet_set.
Qed.
Lemma keeps_fread fp n : keeps (fread fp n) fp.
Proof.
  apply open_bind; [apply keeps_flush_buffer|]. intros _. apply keeps_file. intros f s Hf.
  destruct (n =? 0); [apply twp_ret, quiet_same_state|].
  destruct (negb (f_rd f)); [by apply twp_bind, twp_set_file, twp_ret; eapply quiet_set|].
  destruct (f_eof f); [apply twp_ret, quiet_same_state|].
  apply twp_libc; intros; subst r; cbn [fst snd]; by eapply quiet_set.
Qed.
Lemma keeps_fseek fp off whence : keeps (fseek fp off whence) fp.
Proof.
  apply open_bind; [apply keeps_flush_buffer|]. intros e. destruct (negb _); [apply open_ret|].
  apply keeps_file. intros f s Hf. apply twp_libc; [intros; subst r; by apply quiet_same|].
  intros; subst r. cbv beta zeta. destruct (_ <? 0); [by apply quiet_same|]. destruct (2 ^ 63 <=? _); [by apply quiet_same|].
  by eapply quiet_set.
Qed.
Lemma keeps_ftell fp : keeps (ftell fp) fp.
Proof. apply keeps_file. intros f s Hf. apply twp_libc; intros; subst r; by apply quiet_same. Qed.

(** The steps of an operation keep the pointer they work with. *)
Definition step_post fp s (p : phase) s' : Prop := quiet s s' ∧ phase_fp p = fp.
Lemma step_ret fp p s s1 : phase_fp p = fp → quiet s s1 → twp (sret p) (step_post fp s) s1.
Proof. intros. by apply twp_ret. Qed.

Lemma move_first_post o fp n offset whence s :
  is_Some (FILEs s !! fp) → twp (move_first o fp n offset whence) (step_post fp s) s.
Proof.
  intros Hs. unfold move_first. destruct (offset >=? 0); [|by apply step_ret; [|apply quiet_same_state]].
  apply twp_bind. eapply twp_mono; [by apply keeps_fseek|]. intros e s1 H1. apply step_ret; [|done].
  by destruct (negb (e =? 0)).
Qed.
Lemma Flush_post fp s : is_Some (FILEs s !! fp) → twp (Flush fp) (step_post fp s) s.
Proof.
  intros Hs. apply twp_bind. eapply twp_mono; [by apply keeps_flush_buffer|]. intros e s1 H1. by apply step_ret.
Qed.
Lemma start_op_post o fp s : is_Some (FILEs s !! fp) → twp (start_op o fp) (step_post fp s) s.
Proof.
  intros Hs. assert (∀ r, twp (sret (PAnswer fp r)) (step_post fp s) s) as Hans
    by (intros r; apply step_ret; [done|apply quiet_same_state]).
  destruct o as [buf options|buf options|bufLen options| |offset typeOpt]; cbn [start_op].
  1, 2: unfold Write_start; destruct (ValidWriteArg _ _) as [[succ retLen] offset]; destruct succ; cbn [negb];
    [by apply move_first_post|done].
  - unfold Read_start. destruct (ValidReadArg _ _) as [[succ retLen] offset]. destruct succ; cbn [negb];
    [by apply move_first_post|done].
  - by apply Flush_post.
  - unfold Seek_start. destruct typeOpt as [pos|]; [|by apply move_first_post].
    destruct (_ || _); [done|by apply move_first_post].
Qed.
Lemma finish_op_post o fp n s : is_Some (FILEs s !! fp) → twp (finish_op o fp n) (step_post fp s) s.
Proof.
  intros Hs. destruct o as [buf options|buf options|bufLen options| |offset typeOpt]; cbn [finish_op].
  1, 2: apply twp_bind; eapply twp_mono; [by apply keeps_fwrite|]; intros w s1 H1; by apply step_ret.
  - apply twp_bind. eapply twp_mono; [by apply keeps_fread|]. intros got s1 H1.
    destruct (proj2 (q_open _ _ H1 fp) Hs) as [f Hf]. apply twp_bind, (twp_get_file fp f); [done|]. by apply step_ret.
  - by apply Flush_post.
  - apply twp_bind. eapply twp_mono; [by apply keeps_ftell|]. intros r s1 H1. by apply step_ret.
Qed.

(** ** Every stream has its pointers *)

Definition holds (fp : nat) (x : option nat) : Z := if decide (x = Some fp) then 1 else 0.
Definition uses (fp : nat) (p : phase) : Z := if decide (phase_fp p = fp) then 1 else 0.

(** [extra] is a copy of a pointer that a step has in hand, [raw] a stream that has no
    pointer yet. *)
Record inv (extra raw : option nat) s : Prop := mkInv {
  i_count : ∀ fp, msum (holds fp) (objs s) + msum (uses fp) (threads s) + holds fp extra = default 0 (use_count s !! fp);
  i_pos : ∀ fp c, use_count s !! fp = Some c → 0 < c;
  i_open : ∀ fp, is_Some (FILEs s !! fp) ↔ is_Some (use_count s !! fp) ∨ raw = Some fp;
  i_raw : ∀ fp, raw = Some fp → use_count s !! fp = None;
  i_once : NoDup (fclosed s);
  i_gone : ∀ fp, fp ∈ fclosed s → FILEs s !! fp = None;
  i_all : ∀ fp, (fp < next_fp s)%nat ↔ is_Some (FILEs s !! fp) ∨ fp ∈ fclosed s;
  i_ids : ∀ id, is_Some (objs s !! id) → (id < next_obj s)%nat
}.

Lemma holds_range fp x : 0 <= holds fp x.
Proof. unfold holds. case_decide; lia. Qed.
Lemma uses_range fp p : 0 <= uses fp p.
Proof. unfold uses. case_decide; lia. Qed.
Lemma holds_sum_range fp (m : gmap nat (option nat)) : 0 <= msum (holds fp) m.
Proof. apply msum_nonneg. intros. apply holds_range. Qed.
Lemma uses_sum_range fp (m : gmap nat phase) : 0 <= msum (uses fp) m.
Proof. apply msum_nonneg. intros. apply uses_range. Qed.

Lemma inv_quiet extra raw s s' : inv extra raw s → quiet s s' → inv extra raw s'.
Proof.
  intros [H1 H2 H3 H4 H5 H6 H7 H8] [A1 A2 A3 A4 A5 A6 A7 _]. split; rewrite ?A1, ?A2, ?A3, ?A4, ?A5, ?A6; try done.
  - intros fp. by rewrite A7.
  - intros fp Hfp. apply eq_None_not_Some. rewrite A7. apply eq_None_not_Some. auto.
  - intros fp. by rewrite A7.
Qed.

(** A stream is open exactly as long as somebody has a pointer to it. *)
Lemma inv_extra_open fp raw s : inv (Some fp) raw s → ∃ c, use_count s !! fp = Some c.
Proof.
  intros HI. pose proof (i_count _ _ _ HI fp) as H. unfold holds at 2 in H. rewrite decide_True in H by done.
  pose proof (holds_sum_range fp (objs s)). pose proof (uses_sum_range fp (threads s)).
  destruct (use_count s !! fp) as [c|]; [eauto|]. cbn in H. lia.
Qed.
Lemma inv_thread_open t p s : inv None None s → threads s !! t = Some p → is_Some (FILEs s !! phase_fp p).
Proof.
  intros HI Ht. apply (i_open _ _ _ HI). left. pose proof (i_count _ _ _ HI (phase_fp p)) as H.
  pose proof (holds_sum_range (phase_fp p) (objs s)).
  pose proof (msum_ge (uses (phase_fp p)) (threads s) t p (λ _ _ _, uses_range _ _) Ht) as Hu.
  unfold uses at 1 in Hu. rewrite decide_True in Hu by done. unfold holds at 2 in H. rewrite decide_False in H by done.
  destruct (use_count s !! phase_fp p); [by eexists|]. cbn in H. lia.
Qed.

(** A step that changes objects, threads and counts only. *)
Lemma inv_counts extra raw extra' raw' s s' :
  inv extra raw s → FILEs s' = FILEs s → fclosed s' = fclosed s → next_fp s' = next_fp s →
  (∀ fp, msum (holds fp) (objs s') + msum (uses fp) (threads s') + holds fp extra' = default 0 (use_count s' !! fp)) →
  (∀ fp c, use_count s' !! fp = Some c → 0 < c) →
  (∀ fp, is_Some (use_count s' !! fp) ∨ raw' = Some fp ↔ is_Some (use_count s !! fp) ∨ raw = Some fp) →
  (∀ fp, raw' = Some fp → use_count s' !! fp = None) →
  (∀ id, is_Some (objs s' !! id) → (id < next_obj s')%nat) → inv extra' raw' s'.
Proof.
  intros [H1 H2 H3 H4 H5 H6 H7 H8] A1 A2 A3 Hc Hp Ho Hr Hi. split; rewrite ?A1, ?A2, ?A3; try done.
  intros fp. by rewrite H3, Ho.
Qed.
(** One that changes objects and threads only. *)
Lemma inv_owners extra raw extra' s s' :
  inv extra raw s → FILEs s' = FILEs s → fclosed s' = fclosed s → next_fp s' = next_fp s → use_count s' = use_count s →
  (∀ fp, msum (holds fp) (objs s') + msum (uses fp) (threads s') + holds fp extra'
       = msum (holds fp) (objs s) + msum (uses fp) (threads s) + holds fp extra) →
  (∀ id, is_Some (objs s' !! id) → (id < next_obj s')%nat) → inv extra' raw s'.
Proof.
  intros HI A1 A2 A3 A4 Hc Hi. apply (inv_counts extra raw extra' raw s s'); rewrite ?A4; try done; try apply HI.
  intros fp. rewrite Hc. apply HI.
Qed.

Lemma fclose_spec fp s : inv None (Some fp) s → twp (fclose fp) (λ _ s', inv None None s') s.
Proof.
  intros HI. assert (is_Some (FILEs s !! fp)) as Hf by (apply (i_open _ _ _ HI); by right).
  apply twp_bind. eapply twp_mono; [by apply keeps_flush_buffer|]. intros e s2 H2.
  apply (inv_quiet _ _ _ _ HI) in H2. clear s HI Hf. pose proof H2 as [H1 Hp H3 H4 H5 H6 H7 H8].
  assert (is_Some (FILEs s2 !! fp)) as Hf by (apply H3; by right). pose proof (H4 fp eq_refl) as Hn.
  enough (∀ s3, use_count s3 = use_count s2 → objs s3 = objs s2 → threads s3 = threads s2 → fclosed s3 = fp :: fclosed s2 →
    next_fp s3 = next_fp s2 → next_obj s3 = next_obj s2 → FILEs s3 = delete fp (FILEs s2) → inv None None s3) as Hnew
    by by apply Hnew.
  intros s3 B1 B2 B3 B4 B5 B6 B7. split; rewrite ?B1, ?B2, ?B3, ?B4, ?B5, ?B6, ?B7; try done.
  - intros q. destruct (decide (q = fp)) as [->|Hq].
    + rewrite lookup_delete_eq, Hn. split; [by intros []|by intros [[]|[=]]].
    + rewrite lookup_delete_ne, H3 by done. split; intros [?|[=]]; auto; congruence.
  - apply NoDup_cons. split; [|done]. intros Hin%H6. rewrite Hin in Hf. by destruct Hf.
  - intros q [->|Hin]%elem_of_cons; [apply lookup_delete_eq|]. rewrite lookup_delete_None. auto.
  - intros q. rewrite H7, elem_of_cons. destruct (decide (q = fp)) as [->|Hq].
    + split; [by right; left|by left].
    + rewrite lookup_delete_ne by done. naive_solver.
Qed.

Lemma release_spec fp s : inv (Some fp) None s → twp (release fp) (λ _ s', inv None None s') s.
Proof.
  intros HI. destruct (inv_extra_open _ _ _ HI) as [c Hc]. unfold twp, release. rewrite Hc.
  pose proof (i_pos _ _ _ HI fp c Hc) as Hp. pose proof (i_count _ _ _ HI) as H1.
  assert (∀ q n, default 0 (<[fp := c - 1]> (use_count s) !! q) = n → 
    msum (holds q) (objs s) + msum (uses q) (threads s) + holds q None = n) as Hoth.
  { intros q n <-. specialize (H1 q). unfold holds at 2 in H1. unfold holds at 2. rewrite decide_False by done.
    destruct (decide (q = fp)) as [->|Hq].
    - rewrite Hc, decide_True in H1 by done. rewrite lookup_insert_eq. cbn in *. lia.
    - rewrite decide_False in H1 by congruence. rewrite lookup_insert_ne by done. lia. }
  destruct (c =? 1) eqn:Ec; zbool.
  - subst c. apply fclose_spec. set (s1 := s <| use_count := _ |>).
    apply (inv_counts (Some fp) None None (Some fp) s s1); try done.
    + intros q. apply Hoth. change (use_count s1) with (delete fp (use_count s)).
      destruct (decide (q = fp)) as [->|Hq]; [by rewrite lookup_insert_eq, lookup_delete_eq|].
      by rewrite lookup_insert_ne, lookup_delete_ne.
    + intros q c Hq. change (use_count s1) with (delete fp (use_count s)) in Hq.
      apply lookup_delete_Some in Hq as [_ Hq]. by eapply HI.
    + intros q. change (use_count s1) with (delete fp (use_count s)). destruct (decide (q = fp)) as [->|Hq].
      * rewrite Hc. split; [by left; eexists|by right].
      * rewrite lookup_delete_ne by done. naive_solver.
    + intros q [= <-]. apply lookup_delete_eq.
    + apply HI.
  - set (s1 := s <| use_count := _ |>). apply (inv_counts (Some fp) None None None s s1); try done.
    + intros q. by apply Hoth.
    + intros q c' Hq. change (use_count s1) with (<[fp := c - 1]> (use_count s)) in Hq.
      apply lookup_insert_Some in Hq as [[_ <-]|[_ Hq]]; [lia|by eapply HI].
    + intros q. change (use_count s1) with (<[fp := c - 1]> (use_count s)).
      destruct (decide (q = fp)) as [->|Hq]; [rewrite lookup_insert_eq, Hc|by rewrite lookup_insert_ne].
      split; intros _; left; by eexists.
    + apply HI.
Qed.
Lemma acquire_spec fp raw s :
  inv None raw s → (is_Some (use_count s !! fp) ∧ raw = None ∨ raw = Some fp) →
  twp (acquire fp) (λ _ s', inv (Some fp) None s' ∧ objs s' = objs s ∧ threads s' = threads s ∧ next_obj s' = next_obj s) s.
Proof.
  intros HI Hr. unfold twp, acquire. split; [|done]. set (s1 := s <| use_count := _ |>).
  assert (use_count s1 = <[fp := default 0 (use_count s !! fp) + 1]> (use_count s)) as Hu by done.
  apply (inv_counts None raw (Some fp) None s s1); try done; rewrite ?Hu.
  - intros q. pose proof (i_count _ _ _ HI q) as H1. unfold holds at 2 in H1. unfold holds at 2.
    rewrite decide_False in H1 by done. destruct (decide (q = fp)) as [->|Hq].
    + rewrite decide_True by done. rewrite lookup_insert_eq.
      rewrite <- H1. cbn [default]. change (objs s1) with (objs s). change (threads s1) with (threads s). unfold id. lia.
    + rewrite decide_False by congruence.
      rewrite lookup_insert_ne by done. rewrite <- H1. done.
  - intros q c [[_ <-]|[_ Hq]]%lookup_insert_Some; [|by eapply HI].
    destruct (use_count s !! fp) as [c|] eqn:Ec; cbn; [|lia]. pose proof (i_pos _ _ _ HI fp c Ec). lia.
  - intros q. destruct (decide (q = fp)) as [->|Hq].
    + rewrite lookup_insert_eq. split; [intros _|intros _; left; by eexists]. destruct Hr as [[? _]|?]; auto.
    + rewrite lookup_insert_ne by done. destruct Hr as [[_ ->]| ->]; naive_solver.
  - apply HI.
Qed.

(** *** The steps of threads and objects *)

(** The pointer in hand goes to a thread. *)
Lemma set_phase_spec t p s :
  inv (Some (phase_fp p)) None s → threads s !! t = None → twp (set_phase t p) (λ _ s', inv None None s') s.
Proof.
  intros HI Ht. unfold twp, set_phase. set (s1 := s <| threads := _ |>).
  apply (inv_owners (Some (phase_fp p)) None None s s1); try done; [|by apply HI].
  intros q. change (objs s1) with (objs s). change (threads s1) with (<[t := p]> (threads s)).
  rewrite msum_insert by done. unfold holds at 2 4, uses at 1. rewrite (decide_False (P := None = _)) by done.
  repeat case_decide; try lia; congruence.
Qed.
Lemma replace_phase_spec t p p' s :
  inv None None s → threads s !! t = Some p → phase_fp p' = phase_fp p →
  twp (set_phase t p') (λ _ s', inv None None s') s.
Proof.
  intros HI Ht He. unfold twp, set_phase. set (s1 := s <| threads := _ |>).
  apply (inv_owners None None None s s1); try done; [|by apply HI].
  intros q. change (objs s1) with (objs s). change (threads s1) with (<[t := p']> (threads s)).
  rewrite (msum_update _ _ _ _ _ Ht). unfold uses at 2 3. rewrite He. lia.
Qed.

Lemma objs_open id fp s : inv None None s → objs s !! id = Some (Some fp) → is_Some (use_count s !! fp).
Proof.
  intros HI Hid. pose proof (i_count _ _ _ HI fp) as H.
  pose proof (msum_ge (holds fp) (objs s) id _ (λ _ _ _, holds_range _ _) Hid) as Hh.
  pose proof (uses_sum_range fp (threads s)). unfold holds at 1 in Hh. rewrite decide_True in Hh by done.
  unfold holds at 2 in H. rewrite decide_False in H by done.
  destruct (use_count s !! fp); [by eexists|]. cbn in H. lia.
Qed.

Lemma Begin_spec t id o s :
  inv None None s → threads s !! t = None → twp (Begin t id o) (λ _ s', inv None None s') s.
Proof.
  intros HI Ht. apply twp_bind. unfold twp at 1, GetFilePtr.
  destruct (objs s !! id) as [[fp|]|] eqn:Eo; cbn [mjoin option_join]; try (by apply twp_ret).
  destruct (acquire_spec fp None s HI (or_introl (conj (objs_open _ _ _ HI Eo) eq_refl))) as (H1 & _ & H3 & _).
  apply (set_phase_spec t (PGot o fp)); [done|]. change (threads (s <| use_count := ?x |>)) with (threads s).
  by rewrite Ht.
Qed.

Lemma Advance_spec t s :
  inv None None s → is_Some (threads s !! t) → twp (Advance t) (λ _ s', inv None None s') s.
Proof.
  intros HI [p Ht]. pose proof (inv_thread_open t p s HI Ht) as Hf.
  unfold twp, Advance. rewrite Ht. destruct p as [o fp|o fp n|fp r]; cbn [phase_fp] in Hf.
  1: change (twp (p ← start_op o fp; set_phase t p) (λ _ s', inv None None s') s);
     apply twp_bind; eapply twp_mono; [by apply start_op_post|].
  2: change (twp (p ← finish_op o fp n; set_phase t p) (λ _ s', inv None None s') s);
     apply twp_bind; eapply twp_mono; [by apply finish_op_post|].
  1, 2: intros p s1 [H1 Hp]; eapply replace_phase_spec; [by eapply inv_quiet|by rewrite (q_threads _ _ H1)|done].
  set (s1 := s <| threads := _ |>). change (twp (release fp;; sret (Some r)) (λ _ s', inv None None s') s1).
  apply twp_bind. eapply twp_mono; [apply release_spec|by intros [] s2 H2; apply twp_ret].
  apply (inv_owners None None (Some fp) s s1); try done; [|by apply HI].
  intros q. change (objs s1) with (objs s). change (threads s1) with (delete t (threads s)).
  rewrite (msum_delete _ _ _ _ Ht). unfold holds at 2 4, uses at 2. cbn [phase_fp].
  rewrite (decide_False (P := None = _)) by done. repeat case_decide; try lia; congruence.
Qed.

(** An object gives its pointer away, and stays with none or goes. *)
Lemma give_up_spec id fp s s' :
  inv None None s → objs s !! id = Some (Some fp) → (objs s' = <[id := None]> (objs s) ∨ objs s' = delete id (objs s)) →
  FILEs s' = FILEs s → fclosed s' = fclosed s → next_fp s' = next_fp s → use_count s' = use_count s →
  threads s' = threads s → next_obj s' = next_obj s → twp (release fp) (λ _ s', inv None None s') s'.
Proof.
  intros HI Hid Ho A1 A2 A3 A4 A5 A6. apply release_spec, (inv_owners None None (Some fp) s s'); try done.
  - intros q. rewrite A5. pose proof (msum_delete (holds q) _ _ _ Hid) as Hd.
    pose proof (msum_update (holds q) _ _ _ None Hid) as Hup.
    assert (msum (holds q) (objs s') = msum (holds q) (objs s) - holds q (Some fp)) as ->.
    { destruct Ho as [-> | ->]; [rewrite Hup|lia]. unfold holds at 3. rewrite decide_False by done. lia. }
    unfold holds at 5. rewrite decide_False by done. lia.
  - intros i Hi. rewrite A6. apply HI. destruct Ho as [E|E]; rewrite E in Hi.
    + destruct (decide (i = id)) as [->|Hne]; [by eexists|]. by rewrite lookup_insert_ne in Hi.
    + destruct Hi as [x [_ Hx]%lookup_delete_Some]. by eexists.
Qed.

Lemma Close_spec id s : inv None None s → twp (Close id) (λ _ s', inv None None s') s.
Proof.
  intros HI. unfold twp, Close. destruct (objs s !! id) as [[fp|]|] eqn:Eo; cbn [mjoin option_join]; try done.
  set (s1 := s <| objs := _ |>). change (twp (release fp;; sret (inr 0, [])) (λ (_ : sres) s', inv None None s') s1).
  apply twp_bind. eapply twp_mono; [apply (give_up_spec id fp s s1); try done; by left|].
  intros [] s2 H2. by apply twp_ret.
Qed.
Lemma delete_stream_spec id s : inv None None s → twp (delete_stream id) (λ _ s', inv None None s') s.
Proof.
  intros HI. unfold twp, delete_stream. set (s1 := s <| objs := _ |>).
  destruct (objs s !! id) as [[fp|]|] eqn:Eo; cbn [mjoin option_join].
  - change (twp (release fp) (λ _ s', inv None None s') s1). apply (give_up_spec id fp s s1); try done. by right.
  - apply (inv_owners None None None s s1); try done.
    + intros q. change (threads s1) with (threads s). change (objs s1) with (delete id (objs s)).
      rewrite (msum_delete (holds q) _ _ _ Eo). unfold holds at 3. rewrite decide_False by done. lia.
    + intros i Hi. apply HI. change (objs s1) with (delete id (objs s)) in Hi.
      destruct Hi as [x [_ Hx]%lookup_delete_Some]. by eexists.
  - apply (inv_owners None None None s s1); try done.
    + intros q. change (threads s1) with (threads s). change (objs s1) with (delete id (objs s)). by rewrite delete_id.
    + intros i Hi. apply HI. change (objs s1) with (delete id (objs s)) in Hi. by rewrite delete_id in Hi.
Qed.

Lemma twp_stream_alloc (Q : bool → sstate → Prop) s : (∀ b s', quiet s s' → Q b s') → twp alloc Q s.
Proof. intros HQ. apply twp_libc; intros; subst r; apply HQ; by apply quiet_same. Qed.
(** A new object has no pointer. *)
Lemma FsStream_Constructor_spec raw s :
  inv None raw s → twp FsStream_Constructor (λ r s', inv None raw s' ∧
    match r with inl _ => True | inr id => objs s' !! id = Some None end) s.
Proof.
  intros HI. apply twp_bind, twp_stream_alloc. intros b s1 H1. apply (inv_quiet _ _ _ _ HI) in H1. clear s HI.
  destruct b; cbn [negb]; [|by apply twp_ret]. apply twp_bind, twp_stream_alloc. intros b s2 H2.
  apply (inv_quiet _ _ _ _ H1) in H2. clear s1 H1. destruct b; cbn [negb]; [|by apply twp_ret].
  assert (objs s2 !! next_obj s2 = None) as Hnone.
  { apply eq_None_not_Some. intros Hx%(i_ids _ _ _ H2). lia. }
  unfold twp. set (s3 := s2 <| objs := _ |> <| next_obj := _ |>).
  assert (objs s3 = <[next_obj s2 := None]> (objs s2)) as Ho by done.
  split; [|by rewrite Ho, lookup_insert_eq]. apply (inv_owners None raw None s2 s3); try done.
  - intros q. rewrite Ho, msum_insert by done. unfold holds at 1. rewrite decide_False by done.
    change (threads s3) with (threads s2). lia.
  - intros i. rewrite Ho. change (next_obj s3) with (S (next_obj s2)).
    destruct (decide (i = next_obj s2)) as [->|Hne]; [lia|]. rewrite lookup_insert_ne by done.
    intros Hi%(i_ids _ _ _ H2). lia.
Qed.
Lemma InstantiateStream_spec file s :
  inv None (Some file) s → twp (InstantiateStream file) (λ _ s', inv None None s') s.
Proof.
  intros HI. apply twp_bind. eapply twp_mono; [by apply FsStream_Constructor_spec|]. intros [e|id] s1 [H1 Hid].
  - apply twp_bind. eapply twp_mono; [by apply fclose_spec|]. intros [] s2 H2. by apply twp_ret.
  - apply twp_bind. eapply twp_mono; [apply (acquire_spec file (Some file)); [done|by right]|].
    intros [] s2 (H2 & Ho & Ht & Hn). unfold twp. set (s3 := s2 <| objs := _ |>).
    assert (objs s3 = <[id := Some file]> (objs s2)) as Ho3 by done. rewrite <- Ho in Hid.
    apply (inv_owners (Some file) None None s2 s3); try done.
    + intros q. change (threads s3) with (threads s2). rewrite Ho3, (msum_update _ _ _ _ _ Hid).
      unfold holds at 2 3 4 6. rewrite !(decide_False (P := None = _)) by done. lia.
    + intros i. rewrite Ho3. change (next_obj s3) with (next_obj s2). intros Hi. apply (i_ids _ _ _ H2).
      destruct (decide (i = id)) as [->|Hne]; [by eexists|]. by rewrite lookup_insert_ne in Hi.
Qed.

Lemma fopen_spec path mode s :
  inv None None s → twp (fopen path mode) (λ r s', match r with inl _ => inv None None s' | inr fp => inv None (Some fp) s' end) s.
Proof.
  intros HI. unfold fopen. destruct (parse_mode mode) as [[[rd wr] app]|]; [|by apply twp_ret].
  apply twp_libc; intros; subst r; [by eapply inv_quiet, quiet_same|]. cbv beta zeta.
  set (s1 := s <| scount := _ |>). assert (inv None None s1) as H1 by by eapply inv_quiet, quiet_same.
  assert (∀ data, inv None (Some (next_fp s1)) (s1 <| sfiles := <[path := data]> (sfiles s1) |>
      <| FILEs := <[next_fp s1 := mkFILE path rd wr app 0 [] false false]> (FILEs s1) |> <| next_fp := S (next_fp s1) |>)) as Hnew.
  { intros data. set (s2 := s1 <| sfiles := _ |> <| FILEs := _ |> <| next_fp := _ |>). clear HI.
    destruct H1 as [H1 H2 H3 H4 H5 H6 H7 H8]. set (fp := next_fp s1) in *.
    assert (FILEs s1 !! fp = None ∧ fp ∉ fclosed s1) as [Hnf Hnc].
    { split; [apply eq_None_not_Some|]; intros Hx; apply (Nat.lt_irrefl fp), H7; auto. }
    assert (use_count s1 !! fp = None) as Hnu.
    { apply eq_None_not_Some. intros Hx. assert (is_Some (FILEs s1 !! fp)) as [f Hf] by (apply H3; by left). congruence. }
    assert (FILEs s2 = <[fp := mkFILE path rd wr app 0 [] false false]> (FILEs s1)) as HF by done.
    assert (next_fp s2 = S fp) as Hn by done.
    split; rewrite ?HF, ?Hn; try done.
    - intros q. change (use_count s2) with (use_count s1). destruct (decide (q = fp)) as [->|Hq].
      + rewrite lookup_insert_eq. split; [by right|by eexists].
      + rewrite lookup_insert_ne, H3 by done. naive_solver.
    - by intros q [= <-].
    - intros q Hq. change (fclosed s2) with (fclosed s1) in Hq. rewrite lookup_insert_ne; [auto|]. by intros <-.
    - intros q. change (fclosed s2) with (fclosed s1). destruct (decide (q = fp)) as [->|Hq].
      + rewrite lookup_insert_eq. split; [left; by eexists|lia].
      + rewrite lookup_insert_ne, <- H7 by done. lia. }
  destruct (sfiles s1 !! path) as [old|]; [by apply Hnew|]. destruct mode as [|c mode']; [by apply Hnew|].
  destruct (match String c mode' with String "r" _ => false | _ => true end); [by apply Hnew|done].
Qed.

Lemma DoCreateStream_spec path mode s :
  inv None None s → twp (DoCreateStream path mode) (λ _ s', inv None None s') s.
Proof.
  intros HI. apply twp_bind. eapply twp_mono; [by apply fopen_spec|]. intros [e|fp] s1 H1; [by apply twp_ret|].
  by apply InstantiateStream_spec.
Qed.

Lemma act_spec a s : inv None None s → enabled s a → twp (act a) (λ _ s', inv None None s') s.
Proof.
  intros HI He. destruct a as [path mode|t id o|t|id|id]; cbn [act enabled] in *; [..|by apply delete_stream_spec].
  all: apply twp_bind; eapply twp_mono; [|intros x s1 H1; apply twp_ret; exact H1]; cbn beta.
  - by apply DoCreateStream_spec.
  - apply Begin_spec; [done|apply He].
  - by apply Advance_spec.
  - by apply Close_spec.
Qed.

Lemma inv_start files : inv None None (start_state files).
Proof.
  unfold start_state. split; cbn [use_count objs threads fclosed next_fp next_obj FILEs].
  - intros fp. rewrite lookup_empty, !msum_empty. unfold holds. by rewrite decide_False.
  - intros fp c. by rewrite lookup_empty.
  - intros fp. rewrite !lookup_empty. split; [by intros []|by intros [[]|[=]]].
  - by intros fp [=].
  - constructor.
  - by intros fp ?%elem_of_nil.
  - intros fp. rewrite lookup_empty, elem_of_nil. split; [lia|by intros [[]|[]]].
  - intros id. rewrite lookup_empty. by intros [].
Qed.
Lemma streams_inv files s : reachable files s → inv None None s.
Proof.
  induction 1 as [|s s' a _ IH He E]; [apply inv_start|].
  destruct (twp_elim _ _ _ (act_spec a s IH He)) as (u & s1 & E1 & H1). congruence.
Qed.

(** ** Streams are closed once, and not before *)

(** C26: In any interleaving of operations, closes and removals no closed stream is used: every
    step is defined.  A stream is closed at most once, and when no operation runs and the
    objects are closed, every stream that was opened has been. *)
Theorem streams_closed_once (files : gmap string (list Z)) s :
  reachable files s →
  (∀ a, enabled s a → is_Some (act a s)) ∧ NoDup (fclosed s) ∧
  (threads s = ∅ → (∀ id, objs s !! id = None ∨ objs s !! id = Some None) →
   FILEs s = ∅ ∧ fclosed s ≡ₚ seq 0 (next_fp s)).
Proof.
  intros HI%streams_inv. split; [|split; [apply HI|]].
  - intros a He. destruct (twp_elim _ _ _ (act_spec a s HI He)) as (u & s1 & -> & _). by eexists.
  - intros Ht Ho. assert (∀ fp, use_count s !! fp = None) as Hu.
    { intros fp. destruct (use_count s !! fp) as [c|] eqn:Ec; [|done]. exfalso.
      pose proof (i_count _ _ _ HI fp) as H. pose proof (i_pos _ _ _ HI fp c Ec). rewrite Ht, Ec, msum_empty in H.
      rewrite msum_zero in H; [unfold holds in H; rewrite decide_False in H by done; cbn in H; lia|].
      intros i x Hx. unfold holds. destruct (Ho i); rewrite decide_False; congruence. }
    assert (∀ fp, FILEs s !! fp = None) as Hf.
    { intros fp. apply eq_None_not_Some. rewrite (i_open _ _ _ HI), Hu. by intros [[]|[=]]. }
    split; [by apply map_empty|]. apply NoDup_Permutation; [apply HI|apply NoDup_seq|].
    intros fp. rewrite elem_of_seq, <- (Nat.add_0_l (next_fp s)), Nat.add_0_l.
    pose proof (i_all _ _ _ HI fp) as H. rewrite Hf in H. split.
    + intros Hin. split; [lia|]. apply H. by right.
    + intros [_ Hlt]. apply H in Hlt as [[]|?]; done.
Qed.

(** ** One operation at a time *)

(** What the calls of libc see. *)
Definition same_io s s' : Prop := sfiles s' = sfiles s ∧ FILEs s' = FILEs s.

Lemma same_io_trans s1 s2 s3 : same_io s1 s2 → same_io s2 s3 → same_io s1 s3.
Proof. intros [A B] [C D]. split; congruence. Qed.

(** The state of a call in thread [t] on the object [id] between its steps. *)
Definition between (t : nat) (p : phase) s s' : Prop :=
  inv None None s' ∧ threads s' = <[t := p]> (threads s) ∧ objs s' = objs s.

Lemma Begin_open t id o fp s :
  inv None None s → threads s !! t = None → objs s !! id = Some (Some fp) →
  twp (Begin t id o) (λ r s', r = None ∧ same_io s s' ∧ between t (PGot o fp) s s') s.
Proof.
  intros HI Ht Hid. apply (twp_mono _ (λ r s', inv None None s' ∧ r = None ∧ same_io s s' ∧
    threads s' = <[t := PGot o fp]> (threads s) ∧ objs s' = objs s)); [|by intros r s' (? & ? & ? & ? & ?); split_and!].
  apply twp_and; [by apply Begin_spec|]. unfold twp, Begin, GetFilePtr, bind. by rewrite Hid.
Qed.

Lemma run_phase t p0 m fp s s0 (P : phase → sstate → Prop) :
  between t p0 s0 s → phase_fp p0 = fp → threads s0 !! t = None →
  twp m (step_post fp s) s → twp m P s →
  twp (p ← m; set_phase t p) (λ r s', r = None ∧ ∃ p s1, P p s1 ∧ same_io s1 s' ∧ between t p s0 s' ∧ phase_fp p = fp) s.
Proof.
  intros (HI & Ht & Ho) Hp Hn H1 H2. apply twp_bind. eapply twp_mono; [exact (twp_and _ _ _ _ H1 H2)|].
  intros p s1 [[Hq Hfp] HP]. assert (inv None None s1) as HI1 by by eapply inv_quiet.
  assert (threads s1 !! t = Some p0) as Ht1 by (by rewrite (q_threads _ _ Hq), Ht, lookup_insert_eq).
  eapply twp_mono; [exact (twp_and _ _ (λ r s', r = None ∧ threads s' = <[t := p]> (threads s1) ∧ objs s' = objs s1 ∧ same_io s1 s') _
    (replace_phase_spec t p0 p s1 HI1 Ht1 ltac:(congruence)) ltac:(done))|].
  intros r s2 (HI2 & -> & E1 & E2 & Hio). split; [done|]. exists p, s1. split; [done|]. split; [done|]. split; [|done].
  split; [done|]. rewrite E1, E2, (q_threads _ _ Hq), (q_objs _ _ Hq), Ht, insert_insert_eq. done.
Qed.

(** The object still has a pointer, so dropping the copy closes nothing. *)
Lemma Advance_answer t id fp r s s0 :
  between t (PAnswer fp r) s0 s → threads s0 !! t = None → objs s0 !! id = Some (Some fp) →
  twp (Advance t) (λ a s', a = Some r ∧ inv None None s' ∧ same_io s s' ∧ threads s' = threads s0 ∧ objs s' = objs s0) s.
Proof.
  intros (HI & Ht & Ho) Hn Hid. assert (threads s !! t = Some (PAnswer fp r)) as Hts by (by rewrite Ht, lookup_insert_eq).
  eapply twp_mono; [apply (twp_and _ (λ _ s', inv None None s')
    (λ a s', a = Some r ∧ same_io s s' ∧ threads s' = delete t (threads s) ∧ objs s' = objs s)); [apply Advance_spec; [done|by eexists]|]|].
  - pose proof (i_count _ _ _ HI fp) as H. rewrite Ho in H.
    pose proof (msum_ge (holds fp) (objs s0) id _ (λ _ _ _, holds_range _ _) Hid) as Hh.
    pose proof (msum_ge (uses fp) (threads s) t _ (λ _ _ _, uses_range _ _) Hts) as Hu.
    unfold holds at 1 in Hh. rewrite decide_True in Hh by done. unfold uses at 1 in Hu. rewrite decide_True in Hu by done.
    unfold holds at 2 in H. rewrite decide_False in H by done.
    unfold twp, Advance. rewrite Hts. unfold bind, release. change (use_count (s <| threads := ?x |>)) with (use_count s).
    destruct (use_count s !! fp) as [c|]; [change (default 0 (Some c)) with c in H|cbn in H; lia].
    destruct (c =? 1) eqn:Ec; zbool; [lia|]. done.
  - intros a s1 (HI1 & -> & Hio & E1 & E2). split_and!; try done; [|congruence].
    rewrite E1, Ht. by apply delete_insert_id.
Qed.

(** A call on an open object: its answer is the one of its first step or, when that only
    moved the stream, of its second. *)
Lemma call_spec t id o fp s (Q : sres → sstate → Prop) :
  inv None None s → threads s !! t = None → objs s !! id = Some (Some fp) →
  (∀ s1, same_io s s1 → twp (start_op o fp) (λ p s2, ∀ s2', same_io s2 s2' →
    match p with
    | PAnswer _ r => Q r s2'
    | PMoved o' fp' n => twp (finish_op o' fp' n) (λ p' s3, ∀ s3', same_io s3 s3' →
        match p' with PAnswer _ r => Q r s3' | _ => False end) s2'
    | PGot _ _ => False
    end) s1) →
  twp (call t id o) (λ r s', ∃ a, r = Some a ∧ inv None None s' ∧ threads s' = threads s ∧ objs s' = objs s ∧ Q a s') s.
Proof.
  intros HI Ht Hid HQ. apply twp_bind. eapply twp_mono; [by apply Begin_open|]. intros r s1 (-> & Hio1 & Hb1).
  assert (threads s1 !! t = Some (PGot o fp)) as E1 by (destruct Hb1 as (_ & -> & _); by rewrite lookup_insert_eq).
  assert (is_Some (FILEs s1 !! fp)) as Hf1 by (by apply (inv_thread_open t (PGot o fp) s1); [apply Hb1|]).
  apply twp_bind. unfold twp at 1, Advance. rewrite E1.
  eapply twp_mono; [eapply (run_phase t _ _ fp s1 s); [exact Hb1|done|done|by apply start_op_post|by apply HQ]|].
  intros r s2 (-> & p & s2' & HP & Hio2 & Hb2 & Hfp).
  assert (threads s2 !! t = Some p) as E2 by (destruct Hb2 as (_ & -> & _); by rewrite lookup_insert_eq).
  assert (is_Some (FILEs s2 !! fp)) as Hf2 by (rewrite <- Hfp; by apply (inv_thread_open t p s2); [apply Hb2|]).
  assert (∀ a s3 s3', between t (PAnswer fp a) s s3 → (∀ s4, same_io s3' s4 → Q a s4) → same_io s3' s3 →
    twp (Advance t) (λ r s', ∃ a, r = Some a ∧ inv None None s' ∧ threads s' = threads s ∧ objs s' = objs s ∧ Q a s') s3) as Hend.
  { intros a s3 s3' Hb HQ' Hio. eapply twp_mono; [by eapply Advance_answer|].
    intros r s4 (-> & HI4 & Hio4 & ? & ?). exists a. split_and!; try done. by eapply HQ', same_io_trans. }
  destruct p as [|o' fp' n|fp' a]; [by destruct (HP s2 Hio2)| |]; cbn [phase_fp] in Hfp; subst fp'.
  - apply twp_bind. unfold twp at 1, Advance. rewrite E2.
    eapply twp_mono; [eapply (run_phase t _ _ fp s2 s); [exact Hb2|done|done|by apply finish_op_post|exact (HP s2 Hio2)]|].
    intros r s3 (-> & p & s3' & HP3 & Hio3 & Hb3 & Hfp3). pose proof (HP3 s3 Hio3) as HP3'.
    destruct p as [| |fp' a]; [done|done|]. cbn [phase_fp] in Hfp3. subst fp'. by eapply Hend.
  - apply twp_bind.
    eapply twp_mono; [eapply (Advance_answer t id fp a s2 s); [exact Hb2|done|done]|].
    intros r s3 (-> & HI3 & Hio3 & Ht3 & Ho3). apply twp_ret. exists a. split_and!; try done.
    by eapply HP, same_io_trans.
Qed.

(** ** What is written is read *)

Definition same_stream (f f' : FILE) : Prop :=
  f_name f' = f_name f ∧ f_rd f' = f_rd f ∧ f_wr f' = f_wr f ∧ f_app f' = f_app f.
Lemma same_stream_trans f1 f2 f3 : same_stream f1 f2 → same_stream f2 f3 → same_stream f1 f3.
Proof. intros (?&?&?&?) (?&?&?&?). split_and!; congruence. Qed.
Lemma same_stream_content f f' s : same_stream f f' → content f' s = content f s.
Proof. intros (E & _). unfold content. by rewrite E. Qed.

(** The stream [f] took [bytes] for the offset [o] of its file, which had [data]: they are
    in the buffer or in the file. *)
Definition took (fp : nat) (f : FILE) (data : list Z) (o : Z) (bytes : list Z) s : Prop :=
  ∃ f', FILEs s !! fp = Some f' ∧ same_stream f f' ∧
    (f_pend f' = bytes ∧ f_pos f' = o + Z.of_nat (length bytes) ∧ content f s = data ∨
     f_pend f' = [] ∧ content f s = put_at data bytes (Z.to_nat o)).
Definition stored (fp : nat) (f : FILE) (data : list Z) s : Prop :=
  ∃ f', FILEs s !! fp = Some f' ∧ same_stream f f' ∧ f_pend f' = [] ∧ content f s = data.

Lemma took_io fp f data o bytes s s' : same_io s s' → took fp f data o bytes s → took fp f data o bytes s'.
Proof. unfold took, content. intros [-> ->]. done. Qed.
Lemma stored_io fp f data s s' : same_io s s' → stored fp f data s → stored fp f data s'.
Proof. unfold stored, content. intros [-> ->]. done. Qed.

(** Writing out a buffer that begins at [o]. *)
Lemma twp_write_out_at f o bytes (Q : Z * nat * FILE → sstate → Prop) s :
  f_app f = false → f_pos f = o + Z.of_nat (length (f_pend f)) → 0 <= o →
  (∀ e k f' s', same_stream f f' → f_pend f' = [] → FILEs s' = FILEs s → (k <= length bytes)%nat →
     (e = 0 → k = length bytes) → content f s' = put_at (content f s) (take k bytes) (Z.to_nat o) → Q (e, k, f') s') →
  twp (write_out f bytes) Q s.
Proof.
  intros Ha Hp Ho HQ. assert (∀ bs s1, s1 = s <| scount := S (scount s) |> →
    content f (put_bytes f bs s1).2 = put_at (content f s) bs (Z.to_nat o) ∧
    same_stream f (put_bytes f bs s1).1 ∧ FILEs (put_bytes f bs s1).2 = FILEs s) as Hput.
  { intros bs s1 ->. split; [|done]. unfold put_bytes, content. cbn [fst snd sfiles]. rewrite Ha.
    replace (Z.to_nat (f_pos f - Z.of_nat (length (f_pend f)))) with (Z.to_nat o) by lia.
    change (sfiles (?s <| sfiles := ?x |>)) with x. by rewrite lookup_insert_eq. }
  apply twp_libc; intros; subst r.
  - set (k := Nat.min _ _). destruct (Hput (take k bytes) _ eq_refl) as (H1 & H2 & H3).
    apply HQ; [done|done|done|unfold k; lia|by intros|exact H1].
  - destruct (Hput bytes _ eq_refl) as (H1 & H2 & H3). apply HQ; [done|done|done|lia|done|].
    rewrite firstn_all. exact H1.
Qed.

Lemma flush_took fp f data o bytes s :
  took fp f data o bytes s → f_app f = false → 0 <= o → bytes ≠ [] →
  twp (flush_buffer fp) (λ e s', e = 0 → stored fp f (put_at data bytes (Z.to_nat o)) s') s.
Proof.
  intros (f' & Hf & Hsame & Hcase) Ha Ho Hne. apply twp_bind, (twp_get_file fp f'); [done|].
  assert (f_app f' = false) as Ha' by (destruct Hsame as (_ & _ & _ & ->); done).
  destruct Hcase as [(Hp & Hpos & Hc)|(Hp & Hc)]; rewrite Hp.
  - destruct bytes as [|b l] eqn:Eb; [done|]. rewrite <- Eb in *. apply twp_bind, (twp_write_out_at f' o); [done|congruence|done|].
    intros e k f2 s1 H1 H2 H3 _ Hk H4. apply twp_bind, twp_set_file, twp_ret. intros He.
    exists f2. change (FILEs (s1 <| FILEs := ?x |>)) with x. rewrite lookup_insert_eq. split; [done|].
    split; [by eapply same_stream_trans|]. split; [done|].
    rewrite (same_stream_content f f') in H4 by done. rewrite (same_stream_content f f') in H4 by done.
    rewrite Hc, (Hk He), firstn_all in H4. exact H4.
  - apply twp_ret. intros _. by exists f'.
Qed.

Lemma flush_stored fp f data s :
  stored fp f data s → twp (flush_buffer fp) (λ e s', e = 0 → stored fp f data s') s.
Proof.
  intros (f' & Hf & Hsame & Hp & Hc). apply twp_bind, (twp_get_file fp f'); [done|]. rewrite Hp.
  apply twp_ret. intros _. by exists f'.
Qed.

(** A stream [f] with [data] in its file, moved to [o]. *)
Definition moved_to (fp : nat) (f : FILE) (data : list Z) (o : Z) s : Prop :=
  ∃ f', FILEs s !! fp = Some f' ∧ same_stream f f' ∧ f_pend f' = [] ∧ f_pos f' = o ∧ f_eof f' = false ∧ content f s = data.
Lemma moved_to_io fp f data o s s' : same_io s s' → moved_to fp f data o s → moved_to fp f data o s'.
Proof. unfold moved_to, content. intros [-> ->]. done. Qed.

Lemma fseek_flushed fp f data o s :
  twp (flush_buffer fp) (λ e s', e = 0 → stored fp f data s') s →
  twp (fseek fp o SEEK_SET) (λ e s', e = 0 → moved_to fp f data o s') s.
Proof.
  intros Hflush. apply twp_bind. eapply twp_mono; [exact Hflush|]. intros e s1 H1. cbn beta.
  destruct (e =? 0) eqn:Ee; cbn [negb]; zbool; [|by apply twp_ret].
  destruct (H1 Ee) as (f' & Hf & Hsame & Hp & Hc). apply twp_bind, (twp_get_file fp f'); [done|].
  apply twp_libc; [by intros He r ->|intros r ->]. cbv beta zeta. rewrite Z.eqb_refl.
  destruct (0 + o <? 0); [by intros [=]|]. destruct (2 ^ 63 <=? 0 + o); [by intros [=]|]. intros _. cbn [fst snd].
  exists (f' <| f_pos := 0 + o |> <| f_eof := false |>). split; [apply lookup_insert_eq|]. by split_and!.
Qed.

(** Taking bytes at the offset [o]. *)
Lemma fwrite_took fp f f' data o bytes s :
  FILEs s !! fp = Some f' → same_stream f f' → f_pend f' = [] → f_pos f' = o → content f s = data →
  f_app f = false → 0 <= o →
  twp (fwrite fp bytes) (λ w s', 0 < w → w <= Z.of_nat (length bytes) ∧ took fp f data o (take (Z.to_nat w) bytes) s') s.
Proof.
  intros Hf Hsame Hp Hpos Hc Ha Ho. apply twp_bind, (twp_get_file fp f'); [done|].
  destruct bytes as [|b l] eqn:Eb; [by apply twp_ret|]. rewrite <- Eb in *.
  destruct (f_wr f'); cbn [negb]; [|by apply twp_bind, twp_set_file, twp_ret].
  rewrite Hp. cbn [app length]. destruct (_ <=? _)%nat.
  - apply twp_bind, twp_set_file, twp_ret. intros _. split; [done|]. rewrite Nat2Z.id, firstn_all.
    exists (f' <| f_pend := bytes |> <| f_pos := f_pos f' + Z.of_nat (length bytes) |>).
    split; [apply lookup_insert_eq|]. split; [done|]. left. split; [done|]. split; [|done].
    change (f_pos (_ <| f_pos := ?x |>)) with x. by rewrite Hpos.
  - apply twp_bind, (twp_write_out_at f' o); [by destruct Hsame as (_ & _ & _ & ->)|rewrite Hp; cbn; lia|done|].
    intros e k f2 s1 H1 H2 H3 Hk _ H4. apply twp_bind, twp_set_file, twp_ret. intros _.
    rewrite Nat.sub_0_r, Nat2Z.id. split; [lia|]. exists f2. split; [apply lookup_insert_eq|].
    split; [by eapply same_stream_trans|]. right. split; [done|].
    rewrite !(same_stream_content f f') in H4 by done. rewrite Hc in H4. exact H4.
Qed.

(** Reading them. *)
Lemma fread_at fp f f' data o n s :
  FILEs s !! fp = Some f' → same_stream f f' → f_pend f' = [] → f_pos f' = o → f_eof f' = false → content f s = data →
  0 < n → twp (fread fp n) (λ got s', ∃ f2, FILEs s' !! fp = Some f2 ∧
    (f_err f2 = false → got = take (Z.to_nat n) (drop (Z.to_nat o) data))) s.
Proof.
  intros Hf Hsame Hp Hpos He Hc Hn. apply twp_bind, twp_bind, (twp_get_file fp f'); [done|]. rewrite Hp. apply twp_ret.
  apply twp_bind, (twp_get_file fp f'); [done|]. rewrite (proj2 (Z.eqb_neq n 0)) by lia.
  destruct (negb (f_rd f')).
  { apply twp_bind, twp_set_file, twp_ret. eexists. split; [apply lookup_insert_eq|done]. }
  rewrite He. assert (∀ s1, same_io s s1 → content f' s1 = data) as Hc1.
  { intros s1 [Hio _]. rewrite <- Hc, <- (same_stream_content f f') by done. unfold content. by rewrite Hio. }
  apply twp_libc; intros; subst r; cbn [fst snd]; rewrite Hc1 by done; (eexists; split; [apply lookup_insert_eq|]).
  - done.
  - intros _. by rewrite Hpos.
Qed.

Lemma ValidWriteArg_plain bufLen o n off :
  ValidWriteArg bufLen (Some (mkWriteOpts None (Some o) None)) = (true, n, off) → n = bufLen ∧ off = o ∧ 0 <= o.
Proof.
  unfold ValidWriteArg, GetActualLen. cbn. destruct (bufLen >? UINT_MAX); [done|]. destruct (bufLen <? 0); cbn; [done|].
  destruct (o <? 0) eqn:E; [done|]. intros [= <- <-]. zbool. split; [lia|]. done.
Qed.
Lemma ValidReadArg_plain bufLen o n off :
  ValidReadArg bufLen (Some (mkReadOpts (Some o) None)) = (true, n, off) → n = bufLen ∧ off = o ∧ 0 <= o.
Proof.
  unfold ValidReadArg, GetActualLen. cbn. destruct (bufLen >? UINT_MAX); [done|]. destruct (bufLen <? 0); cbn; [done|].
  destruct (o <? 0) eqn:E; [done|]. intros [= <- <-]. zbool. split; [lia|]. done.
Qed.

(** An object in use by nobody else, and its stream. *)
Definition idle (t id fp : nat) s : Prop := inv None None s ∧ threads s !! t = None ∧ objs s !! id = Some (Some fp).

Lemma call_idle t id o fp s (Q : sres → sstate → Prop) :
  idle t id fp s →
  (∀ s1, same_io s s1 → twp (start_op o fp) (λ p s2, ∀ s2', same_io s2 s2' →
    match p with
    | PAnswer _ r => Q r s2'
    | PMoved o' fp' n => twp (finish_op o' fp' n) (λ p' s3, ∀ s3', same_io s3 s3' →
        match p' with PAnswer _ r => Q r s3' | _ => False end) s2'
    | PGot _ _ => False
    end) s1) →
  twp (call t id o) (λ r s', ∃ a, r = Some a ∧ idle t id fp s' ∧ Q a s') s.
Proof.
  intros (HI & Ht & Hid) HQ. eapply twp_mono; [by eapply call_spec|].
  intros r s' (a & -> & H1 & H2 & H3 & H4). exists a. split; [done|]. split; [|done]. split_and!; congruence.
Qed.

(** Moving before a transfer. *)
Lemma move_first_moved o fp n f data off s (Q : phase → sstate → Prop) :
  twp (flush_buffer fp) (λ e s', e = 0 → stored fp f data s') s → 0 <= off →
  (∀ e s', e ≠ 0 → Q (PAnswer fp (inl e, [])) s') →
  (∀ s', moved_to fp f data off s' → Q (PMoved o fp n) s') →
  twp (move_first o fp n off SEEK_SET) Q s.
Proof.
  intros Hflush Ho Hb Hg. unfold move_first. rewrite Z.geb_leb, (proj2 (Z.leb_le 0 off) Ho).
  apply twp_bind. eapply twp_mono; [by apply fseek_flushed|]. intros e s1 H1. cbn beta. apply twp_ret.
  destruct (e =? 0) eqn:E; cbn [negb]; zbool; [apply Hg; auto|by apply Hb].
Qed.

Definition write_at (buf : list Z) (o : Z) : sop := SWrite buf (Some (mkWriteOpts None (Some o) None)).
Definition read_at (n o : Z) : sop := SRead n (Some (mkReadOpts (Some o) None)).

Lemma write_at_spec t id fp f data buf o s :
  idle t id fp s → stored fp f data s → f_app f = false →
  twp (call t id (write_at buf o)) (λ r s', ∃ a, r = Some a ∧ idle t id fp s' ∧
    ∀ n, a.1 = inr n → 0 < n → n <= Z.of_nat (length buf) ∧ 0 <= o ∧ took fp f data o (take (Z.to_nat n) buf) s') s.
Proof.
  intros HI Hst Ha. apply call_idle; [done|]. intros s1 Hio. apply (stored_io _ _ _ _ _ Hio) in Hst. clear s HI Hio.
  cbn [start_op write_at]. unfold Write_start.
  destruct (ValidWriteArg _ _) as [[succ n] off] eqn:Ev. destruct succ; cbn [negb]; [|by apply twp_ret].
  apply ValidWriteArg_plain in Ev as (-> & -> & Ho).
  apply (move_first_moved _ _ _ f data); [by apply flush_stored|done|by intros e s' _ s2' _ n|].
  intros s2 Hm s2' Hio. apply (moved_to_io _ _ _ _ _ _ Hio) in Hm. destruct Hm as (f' & Hf & Hs & Hp & Hpos & _ & Hc).
  cbn [finish_op write_at]. unfold Write_finish. rewrite Nat2Z.id, firstn_all. apply twp_bind.
  eapply twp_mono; [by eapply (fwrite_took fp f f' data o)|]. intros w s3 H3. cbn beta. apply twp_ret. intros s3' Hio3 n Hn H0.
  destruct (_ && _); [done|]. injection Hn as ->. destruct (H3 H0) as [H4 H5]. split; [done|]. split; [done|].
  by eapply took_io.
Qed.
Lemma flush_spec t id fp f data bytes o s :
  idle t id fp s → took fp f data o bytes s → f_app f = false → 0 <= o → bytes ≠ [] →
  twp (call t id SFlush) (λ r s', ∃ a, r = Some a ∧ idle t id fp s' ∧
    ∀ n, a.1 = inr n → stored fp f (put_at data bytes (Z.to_nat o)) s') s.
Proof.
  intros HI Htk Ha Ho Hne. apply call_idle; [done|]. intros s1 Hio. apply (took_io _ _ _ _ _ _ _ Hio) in Htk.
  apply twp_bind. eapply twp_mono; [by apply flush_took|]. intros e s2 H2. cbn beta. apply twp_ret. intros s2' Hio2 n.
  destruct (e =? 0) eqn:E; cbn [negb]; zbool; [|done]. intros _. eapply stored_io; [done|auto].
Qed.
Lemma read_at_spec t id fp f data n o s :
  idle t id fp s → (∀ s1, same_io s s1 → twp (flush_buffer fp) (λ e s', e = 0 → stored fp f data s') s1) → 0 < n →
  twp (call t id (read_at n o)) (λ r s', ∃ a, r = Some a ∧ idle t id fp s' ∧
    ∀ k, a.1 = inr k → 0 <= o ∧ a.2 = take (Z.to_nat n) (drop (Z.to_nat o) data) ∧ k = Z.of_nat (length a.2)) s.
Proof.
  intros HI Hst Hn. apply call_idle; [done|]. intros s1 Hio. specialize (Hst s1 Hio). clear s HI Hio.
  cbn [start_op read_at]. unfold Read_start.
  destruct (ValidReadArg _ _) as [[succ n'] off] eqn:Ev. destruct succ; cbn [negb]; [|by apply twp_ret].
  apply ValidReadArg_plain in Ev as (-> & -> & Ho).
  apply (move_first_moved _ _ _ f data); [done|done|by intros e s' _ s2' _ k|].
  intros s2 Hm s2' Hio. apply (moved_to_io _ _ _ _ _ _ Hio) in Hm. destruct Hm as (f' & Hf & Hs & Hp & Hpos & He & Hc).
  cbn [finish_op read_at]. apply twp_bind. eapply twp_mono; [by eapply (fread_at fp f f' data o n)|].
  intros got s3 (f2 & Hf2 & Hgot). apply twp_bind, (twp_get_file fp f2); [done|]. apply twp_ret. intros s3' _ k.
  destruct (f_err f2); [by rewrite orb_true_r|]. destruct (_ || _); [done|]. intros [= <-]. split; [done|].
  split; [by apply Hgot|done].
Qed.

Lemma put_at_read data bytes o n :
  (n <= length bytes)%nat → take n (drop o (put_at data bytes o)) = take n bytes.
Proof.
  intros Hn. unfold put_at. rewrite app_assoc, drop_app_length' by (rewrite length_app, length_take, length_replicate; lia).
  by rewrite take_app_le.
Qed.

(** Every call on an open object is answered. *)
Lemma finish_op_answers o fp n s :
  is_Some (FILEs s !! fp) → twp (finish_op o fp n) (λ p s', match p with PAnswer _ _ => True | _ => False end) s.
Proof.
  intros Hs. destruct o; cbn [finish_op].
  1, 2: apply twp_bind; eapply twp_mono; [by apply keeps_fwrite|]; intros; by apply twp_ret.
  - apply twp_bind. eapply twp_mono; [by apply keeps_fread|]. intros got s1 H1.
    destruct (proj2 (q_open _ _ H1 fp) Hs) as [f Hf]. apply twp_bind, (twp_get_file fp f); [done|]. by apply twp_ret.
  - apply twp_bind. eapply twp_mono; [by apply keeps_flush_buffer|]. intros. by apply twp_ret.
  - apply twp_bind. eapply twp_mono; [by apply keeps_ftell|]. intros. by apply twp_ret.
Qed.
Lemma start_op_answers o fp s :
  is_Some (FILEs s !! fp) → twp (start_op o fp) (λ p s', match p with PGot _ _ => False | _ => True end) s.
Proof.
  intros Hs. assert (∀ o n off wh, twp (move_first o fp n off wh) (λ p s', match p with PGot _ _ => False | _ => True end) s) as Hmv.
  { intros o' n off wh. unfold move_first. destruct (off >=? 0); [|by apply twp_ret].
    apply twp_bind. eapply twp_mono; [by apply keeps_fseek|]. intros e s1 _. apply twp_ret. by destruct (negb _). }
  destruct o as [buf options|buf options|bufLen options| |offset typeOpt]; cbn [start_op].
  1, 2: unfold Write_start; destruct (ValidWriteArg _ _) as [[succ n] off]; destruct succ; cbn [negb]; [apply Hmv|by apply twp_ret].
  - unfold Read_start. destruct (ValidReadArg _ _) as [[succ n] off]. destruct succ; cbn [negb]; [apply Hmv|by apply twp_ret].
  - apply twp_bind. eapply twp_mono; [by apply keeps_flush_buffer|]. intros. by apply twp_ret.
  - unfold Seek_start. destruct typeOpt; [|apply Hmv]. destruct (_ || _); [by apply twp_ret|apply Hmv].
Qed.
Lemma idle_open t id fp s : idle t id fp s → is_Some (FILEs s !! fp).
Proof. intros (HI & _ & Hid). apply (i_open _ _ _ HI). left. by eapply objs_open. Qed.

Theorem call_answers (t id fp : nat) (o : sop) s :
  idle t id fp s → twp (call t id o) (λ r s', is_Some r ∧ idle t id fp s') s.
Proof.
  intros HI. eapply twp_mono; [apply (call_idle t id o fp s (λ _ _, True)); [done|]|].
  2: { intros r s' (a & -> & H & _). split; [by eexists|done]. }
  intros s1 Hio. assert (is_Some (FILEs s1 !! fp)) as Hf by (destruct Hio as [_ ->]; by eapply idle_open).
  eapply twp_mono; [exact (twp_and _ _ _ _ (start_op_answers o fp s1 Hf) (start_op_post o fp s1 Hf))|].
  intros p s2 [Hp [Hq Hfp]] s2' [_ Hio2]. destruct p as [|o' fp' n|]; [done| |done]. cbn [phase_fp] in Hfp. subst fp'.
  eapply twp_mono; [apply finish_op_answers; rewrite Hio2; exact (proj2 (q_open _ _ Hq fp) Hf)|].
  intros p s3 Hp3 s3' _. by destruct p.
Qed.

Lemma answered_or_not (P : Z → Prop) `{∀ n, Decision (P n)} (a : Z + Z) :
  (∃ n, a = inr n ∧ P n) ∨ ¬ ∃ n, a = inr n ∧ P n.
Proof.
  destruct a as [e|n]; [right; by intros (n & [=] & _)|]. destruct (decide (P n)); [left; eauto|right].
  by intros (n' & [= <-] & ?).
Qed.

(** Whatever calls fail: bytes that a write took are what a read of the same place
    delivers when it answers without an error. *)
Theorem written_is_read (t id fp : nat) (f : FILE) (data buf : list Z) (o m : Z) s :
  idle t id fp s → stored fp f data s → f_app f = false → 0 < m →
  twp (w ← call t id (write_at buf o); r ← call t id (read_at m o); sret (w, r)) (λ '(w, r) _,
    ∃ aw ar, w = Some aw ∧ r = Some ar ∧
    ∀ n k, aw.1 = inr n → m <= n → ar.1 = inr k → ar.2 = take (Z.to_nat m) buf ∧ k = m) s.
Proof.
  intros HI Hst Ha Hm. apply twp_bind. eapply twp_mono; [by apply write_at_spec|].
  intros w s1 (aw & -> & HI1 & Hw). apply twp_bind.
  destruct (answered_or_not (λ n, m <= n) aw.1) as [(n & En & Hmn)|Hno].
  - destruct (Hw n En ltac:(lia)) as (Hn & Ho & Htk). set (bytes := take (Z.to_nat n) buf) in *.
    assert (length bytes = Z.to_nat n) as Hlen by (unfold bytes; rewrite length_take; lia).
    eapply twp_mono; [apply (read_at_spec t id fp f (put_at data bytes (Z.to_nat o)) m o); [done| |done]|].
    { intros s2 Hio. apply flush_took; [by eapply took_io|done..|]. intros E. rewrite E in Hlen. cbn in Hlen. lia. }
    intros r s2 (ar & -> & _ & Hr). apply twp_ret. exists aw, ar. do 2 (split; [done|]).
    intros n' k En' _ Ek. destruct (Hr k Ek) as (_ & Hgot & Hk). rewrite put_at_read in Hgot by lia.
    unfold bytes in Hgot. rewrite take_take, Nat.min_l in Hgot by lia. split; [done|].
    rewrite Hk, Hgot, length_take. lia.
  - eapply twp_mono; [by apply call_answers|]. intros r s2 [[ar ->] _]. apply twp_ret. exists aw, ar.
    do 2 (split; [done|]). intros n k En Hmn. exfalso. eauto.
Qed.

(** And they are in the file after a flush that succeeds, in place of what was there. *)
Theorem flushed_is_stored (t id fp : nat) (f : FILE) (data buf : list Z) (o : Z) s :
  idle t id fp s → stored fp f data s → f_app f = false →
  twp (w ← call t id (write_at buf o); r ← call t id SFlush; sret (w, r)) (λ '(w, r) s',
    ∃ aw ar, w = Some aw ∧ r = Some ar ∧
    ∀ n k, aw.1 = inr n → 0 < n → ar.1 = inr k → content f s' = put_at data (take (Z.to_nat n) buf) (Z.to_nat o)) s.
Proof.
  intros HI Hst Ha. apply twp_bind. eapply twp_mono; [by apply write_at_spec|].
  intros w s1 (aw & -> & HI1 & Hw). apply twp_bind.
  destruct (answered_or_not (λ n, 0 < n) aw.1) as [(n & En & Hn0)|Hno].
  - destruct (Hw n En Hn0) as (Hn & Ho & Htk). set (bytes := take (Z.to_nat n) buf) in *.
    eapply twp_mono; [apply (flush_spec t id fp f data bytes o); [done..|]|].
    { intros E. apply (f_equal length) in E. unfold bytes in E. rewrite length_take in E. cbn in E. lia. }
    intros r s2 (ar & -> & _ & Hr). apply twp_ret. exists aw, ar. do 2 (split; [done|]).
    intros n' k En' _ Ek. assert (n' = n) as -> by congruence. by destruct (Hr k Ek) as (f' & _ & _ & _ & ?).
  - eapply twp_mono; [by apply call_answers|]. intros r s2 [[ar ->] _]. apply twp_ret. exists aw, ar.
    do 2 (split; [done|]). intros n k En Hn. exfalso. eauto.
Qed.

(** A stream that had an error answers every read with one, whatever is read. *)
Theorem error_sticks (t id fp : nat) (f : FILE) (n : Z) (options : option StreamReadOptions) s :
  idle t id fp s → FILEs s !! fp = Some f → f_err f = true →
  twp (call t id (SRead n options)) (λ r s', (∃ e got, r = Some (inl e, got)) ∧
    ∃ f', FILEs s' !! fp = Some f' ∧ f_err f' = true) s.
Proof.
  intros HI Hf He. set (bad := λ s, ∃ f', FILEs s !! fp = Some f' ∧ f_err f' = true).
  assert (∀ s1 s2, bad s1 → quiet s1 s2 → bad s2) as Hq by (intros s1 s2 (g & Hg & Eg) H; by eapply q_err).
  assert (∀ s1 s2, bad s1 → same_io s1 s2 → bad s2) as Hio by (unfold bad; by intros s1 s2 H [_ ->]).
  assert (∀ s, bad s → is_Some (FILEs s !! fp)) as Hopen by (intros s1 (g & Hg & _); by eexists).
  eapply twp_mono; [apply (call_idle t id (SRead n options) fp s (λ a s', (∃ e, a.1 = inl e) ∧ bad s')); [done|]|].
  2: { intros r s' ([a got] & -> & _ & (e & Ha) & Hb). cbn in Ha. subst a. split; [by exists e, got|done]. }
  intros s1 H1. assert (bad s1) as Hb1 by (eapply Hio; [by exists f|done]).
  cbn [start_op]. unfold Read_start. destruct (ValidReadArg _ _) as [[succ len] off]. destruct succ; cbn [negb].
  2: { apply twp_ret. intros s2 H2. split; [by eexists|by eapply Hio]. }
  eapply (twp_mono _ (λ p s2, bad s2 ∧ ((∃ e, p = PAnswer fp (inl e, [])) ∨ p = PMoved (SRead n options) fp len))).
  { unfold move_first. destruct (off >=? 0); [|by apply twp_ret; auto].
    apply twp_bind. eapply twp_mono; [apply keeps_fseek; by apply Hopen|]. intros e s2 H2. apply twp_ret.
    split; [by eapply Hq|]. destruct (negb _); [left; by eexists|by right]. }
  intros p s2 [Hb2 [[e ->]| ->]] s2' Hio2; [split; [by eexists|by eapply Hio]|].
  assert (bad s2') as Hb2' by by eapply Hio. cbn [finish_op]. apply twp_bind.
  eapply twp_mono; [apply keeps_fread; by apply Hopen|]. intros got s3 H3.
  assert (bad s3) as Hb3 by by eapply Hq. pose proof Hb3 as (f3 & Hf3 & He3).
  apply twp_bind, (twp_get_file fp f3); [done|]. cbv zeta. rewrite He3, orb_true_r. apply twp_ret. intros s3' Hio3.
  split; [by eexists|by eapply Hio].
Qed.

(** Seeking backwards moves nothing and answers the position. *)
Theorem seek_back_ignored (t id fp : nat) (f : FILE) (offset : Z) (typeOpt : option Z) s :
  idle t id fp s → FILEs s !! fp = Some f → f_app f = false → offset < 0 →
  match typeOpt with Some pos => 0 <= pos <= 2 | None => True end →
  twp (call t id (SSeek offset typeOpt)) (λ r s', FILEs s' = FILEs s ∧
    ∃ a, r = Some (a, []) ∧ ∀ k, a = inr k → k = f_pos f) s.
Proof.
  intros HI Hf Ha Ho Hty.
  eapply twp_mono; [apply (call_idle t id _ fp s (λ a s', FILEs s' = FILEs s ∧ a.2 = [] ∧ ∀ k, a.1 = inr k → k = f_pos f)); [done|]|].
  2: { intros r s' ([a got] & -> & _ & H1 & H2 & H3). cbn in H2. subst got. split; [done|]. by exists a. }
  intros s1 [_ H1]. assert (twp (move_first (SSeek offset typeOpt) fp 0 offset (default SEEK_SET typeOpt))
    (λ p s2, FILEs s2 = FILEs s ∧ p = PMoved (SSeek offset typeOpt) fp 0) s1) as Hmv.
  { unfold move_first. rewrite Z.geb_leb, (proj2 (Z.leb_gt 0 offset) Ho). by apply twp_ret. }
  assert (start_op (SSeek offset typeOpt) fp = move_first (SSeek offset typeOpt) fp 0 offset (default SEEK_SET typeOpt)) as ->.
  { cbn [start_op]. unfold Seek_start. destruct typeOpt as [pos|]; [|done]. unfold SEEK_SET, SEEK_END.
    destruct (pos <? 0) eqn:E1, (pos >? 2) eqn:E2; zbool; try lia. done. }
  eapply twp_mono; [exact Hmv|]. intros p s2 [H2 ->] s2' [_ H3]. cbn [finish_op]. apply twp_bind, twp_bind, (twp_get_file fp f).
  { by rewrite H3, H2. }
  apply twp_libc; [intros _ r ->|intros r ->]; cbn [fst snd]; apply twp_ret; intros s4 [_ H4]; cbn beta iota;
    rewrite H4, <- H2, <- H3; (split; [done|]); (split; [done|]); [done|]. rewrite Ha. by intros k [= <-].
Qed.
End calls.

(** ** Witnesses *)

(** Buffers have four bytes; the [bad]-th call of the kernel fails. *)
#[local] Instance sample_env (bad : option nat) : StreamEnv :=
  {| s_fault := λ _ n, if bool_decide (bad = Some n) then 5 else 0; s_part := λ _, 1%nat; s_cap := 4 |}.

Definition after {E : StreamEnv} (l : list sact) (s : sstate) : sstate :=
  foldl (λ s a, match act a s with Some (_, s') => s' | None => s end) s l.
Definition no_files : gmap string (list Z) := ∅.

Lemma reachable_after bad l s :
  @reachable (sample_env bad) no_files s →
  (∀ n, (n < length l)%nat → ∃ a, l !! n = Some a ∧ enabled (@after (sample_env bad) (take n l) s) a ∧
     is_Some (@act (sample_env bad) a (@after (sample_env bad) (take n l) s))) →
  @reachable (sample_env bad) no_files (@after (sample_env bad) l s).
Proof.
  induction l as [|a l IH] using rev_ind; [done|]. intros Hr Hl. unfold after. rewrite foldl_app. cbn.
  destruct (Hl (length l)) as (a' & Ha & He & [[[] s'] Hs]); [rewrite length_app; cbn; lia|].
  rewrite lookup_app_r, Nat.sub_diag in Ha by done. injection Ha as <-. rewrite take_app_length in He, Hs.
  unfold after in He, Hs. rewrite Hs. eapply (@reach_act (sample_env bad) no_files); [|exact He|exact Hs].
  apply IH; [done|]. intros n Hn. destruct (Hl n) as (b & Hb & Hb1 & Hb2); [rewrite length_app; lia|].
  rewrite lookup_app_l in Hb by done. rewrite take_app_le in Hb1, Hb2 by lia. eauto.
Qed.

(** Two threads use a stream while it is closed. *)
Definition race : list sact :=
  [ACreate "/f" "w+"; ABegin 0 0 (SWrite [1; 2; 3] None); ABegin 1 0 (SSeek 0 None); AClose 0; AAdvance 1; AAdvance 0;
   AAdvance 1; AAdvance 0; AAdvance 0; AAdvance 1]%string.
Lemma streams_closed_once_witness :
  FILEs (@after (sample_env None) race (start_state no_files)) = ∅ ∧
  fclosed (@after (sample_env None) race (start_state no_files)) ≡ₚ seq 0 1.
Proof.
  apply (@streams_closed_once (sample_env None) no_files (@after (sample_env None) race (start_state no_files))).
  - apply reachable_after; [constructor|]. intros n Hn.
    do 10 (destruct n as [|n]; [eexists; split; [reflexivity|split; [vm_compute; eauto|vm_compute; eauto]]|]).
    cbn in Hn. lia.
  - vm_compute. reflexivity.
  - intros i. assert (objs (@after (sample_env None) race (start_state no_files)) = {[0%nat := None]}) as ->
      by (vm_compute; reflexivity).
    destruct (decide (i = 0%nat)) as [->|Hi]; [right; reflexivity|left]. by apply lookup_singleton_ne.
Defined.

(** A stream over a file with three bytes. *)
Definition three : sstate := @after (sample_env None) [ACreate "/f" "r+"]%string (start_state {["/f"%string := [7; 8; 9]]}).
Definition three_FILE : FILE := mkFILE "/f" true true false 0 [] false false.
Lemma three_reachable : @reachable (sample_env None) {["/f"%string := [7; 8; 9]]} three.
Proof.
  eapply (@reach_act (sample_env None)) with (a := ACreate "/f" "r+"); [constructor|exact I|vm_compute; reflexivity].
Qed.
Lemma three_idle : idle 5 0 0 three.
Proof.
  split; [exact (@streams_inv (sample_env None) _ _ three_reachable)|]. split; vm_compute; reflexivity.
Qed.
Lemma three_stored : stored 0 three_FILE [7; 8; 9] three.
Proof. exists three_FILE. split; [vm_compute; reflexivity|]. split; [done|]. split; [done|]. vm_compute. reflexivity. Qed.

Lemma written_is_read_witness :
  (λ '(w, r, _), (w, r)) <$> (w ← @call (sample_env None) 5 0 (write_at [1; 2] 1); r ← @call (sample_env None) 5 0 (read_at 2 1); sret (w, r)) three
  = Some (Some (inr 2, []), Some (inr 2, [1; 2])) ∧
  ∃ ar : sres, ar.2 = take 2 [1; 2].
Proof.
  destruct (twp_elim _ _ _ (@written_is_read (sample_env None) 5 0 0 three_FILE [7; 8; 9] [1; 2] 1 2 three
    three_idle three_stored eq_refl eq_refl)) as ([w r] & s' & E & aw & ar & -> & -> & H).
  assert ((λ '(w, r, _), (w, r)) <$> (w ← @call (sample_env None) 5 0 (write_at [1; 2] 1); r ← @call (sample_env None) 5 0 (read_at 2 1); sret (w, r)) three
    = Some (Some (inr 2, []), Some (inr 2, [1; 2]))) as E2 by (vm_compute; reflexivity).
  split; [exact E2|]. rewrite E in E2. injection E2 as Ew Er. exists ar.
  apply (H 2 2); [by rewrite Ew|lia|by rewrite Er].
Defined.

Lemma flushed_is_stored_witness :
  ∃ w r s', (w ← @call (sample_env None) 5 0 (write_at [1; 2] 1); r ← @call (sample_env None) 5 0 SFlush; sret (w, r)) three
    = Some ((w, r), s') ∧ content three_FILE s' = [7; 1; 2].
Proof.
  destruct (twp_elim _ _ _ (@flushed_is_stored (sample_env None) 5 0 0 three_FILE [7; 8; 9] [1; 2] 1 three
    three_idle three_stored eq_refl)) as ([w r] & s' & E & aw & ar & -> & -> & H).
  assert ((λ '(w, r, _), (w, r)) <$> (w ← @call (sample_env None) 5 0 (write_at [1; 2] 1); r ← @call (sample_env None) 5 0 SFlush; sret (w, r)) three
    = Some (Some (inr 2, []), Some (inr 0, []))) as E2 by (vm_compute; reflexivity).
  exists (Some aw), (Some ar), s'. split; [exact E|]. rewrite E in E2. injection E2 as Ew Er.
  rewrite (H 2 0); [reflexivity|by rewrite Ew|lia|by rewrite Er].
Defined.

(** Writing to a stream that is open for reading only spoils all its later reads. *)
Example write_spoils_reads :
  let s := @after (sample_env None) [ACreate "/f" "r"]%string (start_state {["/f"%string := [7; 8; 9]]}) in
  fst <$> (a ← @call (sample_env None) 0 0 (read_at 2 0); w ← @call (sample_env None) 0 0 (write_at [1] 0);
           b ← @call (sample_env None) 0 0 (read_at 2 0); sret (a, w, b)) s
  = Some (Some (inr 2, [7; 8]), Some (inl EIO, []), Some (inl EIO, [7; 8])).
Proof. vm_compute. reflexivity. Qed.

(** A close answers success although what was written is lost. *)
Example close_hides_loss :
  let s := @after (sample_env None) [ACreate "/f" "w"]%string (start_state no_files) in
  (λ '(r, s'), (r, sfiles s' !! "/f"%string)) <$>
    (w ← @call (sample_env (Some 4%nat)) 0 0 (write_at [1; 2; 3] 0); r ← @Close (sample_env (Some 4%nat)) 0; sret (w, r)) s
  = Some (Some (inr 3, []), (inr 0, []), Some [1]).
Proof. vm_compute. reflexivity. Qed.

(** Two writes at different offsets, interleaved, both succeed and go to one place. *)
Example writes_race :
  let s := @after (sample_env None) [ACreate "/f" "w"; ABegin 0 0 (write_at [1] 0); ABegin 1 0 (write_at [2] 2); AAdvance 0; AAdvance 1;
    AAdvance 0; AAdvance 1; AAdvance 0; AAdvance 1; AClose 0]%string (start_state no_files) in
  sfiles s !! "/f"%string = Some [0; 0; 1; 2].
Proof. vm_compute. reflexivity. Qed.
