(* ===== verification/Bytes.v ===== *)
(** * Bytes, widths and packed structures

    Memory as lists of bytes: little-endian integers of a given width, the
    packed structures of the zip format as a class of records with a layout, and
    the byte strings and buffers the archive code works on.  The target is
    little-endian, so that [GETV] and [SETV] of archive_macros.h do nothing and a
    packed structure in memory is its encoding. *)

From S2P Require Import Prelude.

(** ** Narrow integers *)
Definition u8 (x : Z) : Z := x mod 2 ^ 8.
Definition u16 (x : Z) : Z := x mod 2 ^ 16.
(** A signed 64-bit value made from an unsigned one. *)
Definition i64 (x : Z) : Z := let y := x mod 2 ^ 64 in if y <? 2 ^ 63 then y else y - 2 ^ 64.
Definition i32 (x : Z) : Z := let y := x mod 2 ^ 32 in if y <? 2 ^ 31 then y else y - 2 ^ 32.

#[global] Arguments u8 : simpl never.
#[global] Arguments u16 : simpl never.
#[global] Arguments i64 : simpl never.
#[global] Arguments i32 : simpl never.

Lemma u8_id x : 0 <= x < 2 ^ 8 → u8 x = x.
Proof. intros. by apply Z.mod_small. Qed.
Lemma u16_id x : 0 <= x < 2 ^ 16 → u16 x = x.
Proof. intros. by apply Z.mod_small. Qed.
Lemma u16_range x : 0 <= u16 x < 2 ^ 16.
Proof. by apply Z.mod_pos_bound. Qed.
Lemma i64_id x : - 2 ^ 63 <= x < 2 ^ 63 → i64 x = x.
Proof.
  intros H. unfold i64. destruct (Z_lt_le_dec x 0).
  - assert (x mod 2 ^ 64 = x + 2 ^ 64) as ->.
    { symmetry. apply (Z.mod_unique_pos _ _ (-1)); lia. }
    destruct (_ <? _) eqn:E; zbool; lia.
  - rewrite Z.mod_small by lia. destruct (_ <? _) eqn:E; zbool; lia.
Qed.
Lemma i64_range x : - 2 ^ 63 <= i64 x < 2 ^ 63.
Proof.
  unfold i64. pose proof (Z.mod_pos_bound x (2 ^ 64) ltac:(lia)).
  destruct (_ <? _) eqn:E; zbool; lia.
Qed.
Lemma i32_id x : - 2 ^ 31 <= x < 2 ^ 31 → i32 x = x.
Proof.
  intros H. unfold i32. destruct (Z_lt_le_dec x 0).
  - assert (x mod 2 ^ 32 = x + 2 ^ 32) as ->.
    { symmetry. apply (Z.mod_unique_pos _ _ (-1)); lia. }
    destruct (_ <? _) eqn:E; zbool; lia.
  - rewrite Z.mod_small by lia. destruct (_ <? _) eqn:E; zbool; lia.
Qed.

(** ** Byte strings *)
Abbreviation bytes := (list Z).

Definition is_byte (b : Z) : Prop := 0 <= b < 256.

Definition bytes_of (s : string) : bytes :=
  map (λ c, Z.of_N (N_of_ascii c)) (String.list_ascii_of_string s).

Create Rewrite HintDb zlen.

Definition zlen {A} (l : list A) : Z := Z.of_nat (length l).

Lemma zlen_nonneg {A} (l : list A) : 0 <= zlen l.
Proof. unfold zlen. lia. Qed.
Lemma zlen_app {A} (l k : list A) : zlen (l ++ k) = zlen l + zlen k.
Proof. unfold zlen. rewrite length_app. lia. Qed.
Lemma zlen_nil {A} : zlen (@nil A) = 0.
Proof. done. Qed.
Lemma zlen_cons {A} (x : A) l : zlen (x :: l) = 1 + zlen l.
Proof. unfold zlen. cbn [length]. lia. Qed.
Lemma zlen_zero {A} (l : list A) : zlen l = 0 → l = [].
Proof. destruct l; [done|]. rewrite zlen_cons. pose proof (zlen_nonneg l). lia. Qed.
Lemma zlen_take {A} (l : list A) n : zlen (take n l) = Z.min (Z.of_nat n) (zlen l).
Proof. unfold zlen. rewrite length_take. lia. Qed.
Lemma zlen_drop {A} (l : list A) n : zlen (drop n l) = Z.max 0 (zlen l - Z.of_nat n).
Proof. unfold zlen. rewrite length_drop. lia. Qed.
Lemma zlen_replicate {A} n (x : A) : zlen (replicate n x) = Z.of_nat n.
Proof. unfold zlen. by rewrite length_replicate. Qed.

#[export] Hint Rewrite @zlen_app @zlen_nil @zlen_cons @zlen_take @zlen_drop @zlen_replicate : zlen.

(** [len] bytes at [pos]; fewer at the end. *)
Definition slice (pos len : Z) (l : bytes) : bytes := take (Z.to_nat len) (drop (Z.to_nat pos) l).

Lemma zlen_slice pos len l :
  0 <= pos → 0 <= len → zlen (slice pos len l) = Z.max 0 (Z.min len (zlen l - pos)).
Proof. intros. unfold slice. rewrite zlen_take, zlen_drop. lia. Qed.

Lemma slice_app_l pos len l k :
  0 <= pos → 0 <= len → pos + len <= zlen l → slice pos len (l ++ k) = slice pos len l.
Proof.
  intros. unfold slice, zlen in *. rewrite drop_app_le by lia. rewrite take_app_le; [done|].
  rewrite length_drop. lia.
Qed.
Lemma slice_app_r pos len l k :
  zlen l <= pos → slice pos len (l ++ k) = slice (pos - zlen l) len k.
Proof.
  intros. unfold slice, zlen in *. rewrite drop_app_ge by lia. do 2 f_equal. lia.
Qed.
Lemma slice_all l : slice 0 (zlen l) l = l.
Proof. unfold slice, zlen. rewrite Nat2Z.id. apply take_ge. cbn. lia. Qed.
Lemma slice_mid pos len a b c :
  zlen a = pos → zlen b = len → slice pos len (a ++ b ++ c) = b.
Proof.
  intros <- <-. rewrite slice_app_r by lia. rewrite Z.sub_diag.
  pose proof (zlen_nonneg b). rewrite slice_app_l by lia. apply slice_all.
Qed.
Lemma slice_empty pos len l : zlen l <= pos → slice pos len l = [].
Proof. intros. unfold slice. rewrite drop_ge; [by rewrite take_nil|]. unfold zlen in *. lia. Qed.

Lemma slice_to_end pos len l : 0 <= pos → zlen l <= pos + len → 0 <= len →
  slice pos len l = drop (Z.to_nat pos) l.
Proof. intros. unfold slice. apply take_ge. rewrite length_drop. unfold zlen in *. lia. Qed.

(** [new] written over [l] at [pos], which is filled up to there with zeros. *)
Definition overwrite (pos : Z) (new l : bytes) : bytes :=
  take (Z.to_nat pos) l ++ replicate (Z.to_nat pos - length l) 0 ++ new
    ++ drop (Z.to_nat pos + length new) l.

Lemma overwrite_end new l : overwrite (zlen l) new l = l ++ new.
Proof.
  unfold overwrite, zlen. rewrite Nat2Z.id, Nat.sub_diag. cbn [replicate app].
  rewrite take_ge by lia. rewrite drop_ge by lia. by rewrite app_nil_r.
Qed.
Lemma overwrite_mid a old b new :
  zlen old = zlen new → overwrite (zlen a) new (a ++ old ++ b) = a ++ new ++ b.
Proof.
  intros E. unfold overwrite, zlen in *. rewrite Nat2Z.id. rewrite take_app_length.
  replace (length a - length (a ++ old ++ b))%nat with 0%nat by (rewrite length_app; lia).
  cbn [replicate app]. f_equal. f_equal. replace (length new) with (length old) by lia.
  rewrite <- length_app, app_assoc. apply drop_app_length.
Qed.
Lemma zlen_overwrite pos new l :
  0 <= pos → zlen (overwrite pos new l) = Z.max (pos + zlen new) (zlen l).
Proof.
  intros. unfold overwrite, zlen. rewrite !length_app, length_take, length_replicate, length_drop. lia.
Qed.
Lemma overwrite_none pos l : 0 <= pos <= zlen l → overwrite pos [] l = l.
Proof.
  intros. unfold overwrite, zlen in *. replace (_ - _)%nat with 0%nat by lia. cbn [replicate app length].
  rewrite Nat.add_0_r. apply take_drop.
Qed.

(** ** Little-endian integers *)
Fixpoint le (n : nat) (v : Z) : bytes :=
  match n with O => [] | S n => v mod 256 :: le n (v / 256) end.
Fixpoint le_value (bs : bytes) : Z :=
  match bs with [] => 0 | b :: bs => b + 256 * le_value bs end.

Lemma length_le n v : length (le n v) = n.
Proof. revert v. induction n; intros; cbn; [done|]. by rewrite IHn. Qed.
Lemma zlen_le n v : zlen (le n v) = Z.of_nat n.
Proof. unfold zlen. by rewrite length_le. Qed.
#[export] Hint Rewrite zlen_le : zlen.

Lemma le_is_byte n v : Forall is_byte (le n v).
Proof.
  revert v. induction n; intros; cbn; constructor; [|done]. apply Z.mod_pos_bound. lia.
Qed.
Lemma pow256_S n : 256 ^ Z.of_nat (S n) = 256 * 256 ^ Z.of_nat n.
Proof. rewrite Nat2Z.inj_succ, Z.pow_succ_r by lia. done. Qed.

Lemma le_value_le n v : le_value (le n v) = v mod 256 ^ Z.of_nat n.
Proof.
  revert v. induction n as [|n IH]; intros; cbn [le le_value]; [by rewrite Z.mod_1_r|].
  rewrite IH, pow256_S, Z.rem_mul_r; lia.
Qed.
Lemma le_value_id n v : 0 <= v < 256 ^ Z.of_nat n → le_value (le n v) = v.
Proof. intros. rewrite le_value_le. by apply Z.mod_small. Qed.

Lemma le_value_range bs : Forall is_byte bs → 0 <= le_value bs < 256 ^ zlen bs.
Proof.
  unfold zlen. induction 1 as [|b bs Hb _ IH]; [cbn; lia|].
  unfold is_byte in Hb. cbn [le_value length]. rewrite pow256_S. lia.
Qed.
Lemma le_of_value bs : Forall is_byte bs → le (length bs) (le_value bs) = bs.
Proof.
  induction 1 as [|b bs Hb _ IH]; [done|]. unfold is_byte in Hb. cbn [length le le_value].
  replace ((b + 256 * le_value bs) mod 256) with b
    by (apply (Z.mod_unique_pos _ _ (le_value bs)); lia).
  replace ((b + 256 * le_value bs) / 256) with (le_value bs)
    by (apply (Z.div_unique_pos _ _ _ b); lia).
  by rewrite IH.
Qed.

(** ** Packed structures *)

(** A record laid out without padding: the widths of its fields in bytes and the
    fields as integers, which determine it. *)
Class Packed (A : Type) := {
  layout : list nat;
  to_fields : A → list Z;
  of_fields : list Z → A;
  to_fields_length a : length (to_fields a) = length layout;
  of_to_fields a : of_fields (to_fields a) = a;
  to_of_fields vs : length vs = length layout → to_fields (of_fields vs) = vs
}.
#[global] Arguments layout A {_}.

Definition sizeof (A : Type) {P : Packed A} : Z := Z.of_nat (sum_list (layout A)).

(** The [n]-th field. *)
Definition fld (n : nat) (vs : list Z) : Z := nth n vs 0.

Definition put_fields (ws : list nat) (vs : list Z) : bytes := concat (zip_with le ws vs).
Fixpoint get_fields (ws : list nat) (bs : bytes) : list Z :=
  match ws with
  | [] => []
  | w :: ws => le_value (take w bs) :: get_fields ws (drop w bs)
  end.

Definition pack {A} {P : Packed A} (a : A) : bytes := put_fields (layout A) (to_fields a).
Definition unpack {A} {P : Packed A} (bs : bytes) : A := of_fields (get_fields (layout A) bs).

(** Every field fits its width. *)
Definition fits {A} {P : Packed A} (a : A) : Prop :=
  Forall2 (λ w v, 0 <= v < 256 ^ Z.of_nat w) (layout A) (to_fields a).

Lemma length_put_fields ws vs : length ws = length vs → length (put_fields ws vs) = sum_list ws.
Proof.
  unfold put_fields. revert vs. induction ws as [|w ws IH]; intros [|v vs] E; simplify_eq/=; [done|].
  by rewrite length_app, length_le, IH.
Qed.
Lemma length_get_fields ws bs : length (get_fields ws bs) = length ws.
Proof. revert bs. induction ws; intros; cbn; [done|]. by rewrite IHws. Qed.

Lemma get_put_fields ws vs rest :
  Forall2 (λ w v, 0 <= v < 256 ^ Z.of_nat w) ws vs → get_fields ws (put_fields ws vs ++ rest) = vs.
Proof.
  unfold put_fields. induction 1 as [|w v ws vs H _ IH]; [done|]. cbn.
  rewrite <- app_assoc. rewrite take_app_length' by by rewrite length_le.
  rewrite drop_app_length' by by rewrite length_le. by rewrite le_value_id, IH.
Qed.
Lemma put_get_fields ws bs :
  Forall is_byte bs → length bs = sum_list ws → put_fields ws (get_fields ws bs) = bs.
Proof.
  unfold put_fields. revert bs. induction ws as [|w ws IH]; intros bs Hb E; cbn in *.
  { by destruct bs. }
  rewrite IH; [|by apply Forall_drop|rewrite length_drop; lia].
  replace w with (length (take w bs)) at 1 by (rewrite length_take; lia).
  rewrite le_of_value by by apply Forall_take. apply take_drop.
Qed.
Lemma get_fields_fit ws bs :
  Forall is_byte bs → Forall2 (λ w v, 0 <= v < 256 ^ Z.of_nat w) ws (get_fields ws bs).
Proof.
  revert bs. induction ws as [|w ws IH]; intros bs Hb; cbn; constructor.
  - pose proof (le_value_range (take w bs) ltac:(by apply Forall_take)) as H. rewrite zlen_take in H.
    split; [lia|]. eapply Z.lt_le_trans; [apply H|]. apply Z.pow_le_mono_r; lia.
  - apply IH. by apply Forall_drop.
Qed.

Section packed.
Context {A : Type} {P : Packed A}.

Lemma length_pack (a : A) : length (pack a) = sum_list (layout A).
Proof. apply length_put_fields. symmetry. apply to_fields_length. Qed.
Lemma zlen_pack (a : A) : zlen (pack a) = sizeof A.
Proof. unfold zlen, sizeof. by rewrite length_pack. Qed.

Lemma pack_is_byte (a : A) : Forall is_byte (pack a).
Proof.
  unfold pack, put_fields. generalize (to_fields a). induction (layout A) as [|w ws IH]; intros [|v vs]; cbn; try done.
  rewrite Forall_app. split; [apply le_is_byte|apply IH].
Qed.

Lemma unpack_pack (a : A) rest : fits a → unpack (pack a ++ rest) = a.
Proof. intros H. unfold unpack, pack. rewrite get_put_fields by done. apply of_to_fields. Qed.
Lemma unpack_pack_nil (a : A) : fits a → unpack (pack a) = a.
Proof. intros. rewrite <- (app_nil_r (pack a)). by apply unpack_pack. Qed.
Lemma pack_unpack (bs : bytes) :
  Forall is_byte bs → zlen bs = sizeof A → pack (unpack (A:=A) bs) = bs.
Proof.
  intros. unfold unpack, pack. rewrite to_of_fields by apply length_get_fields.
  apply put_get_fields; [done|]. unfold zlen, sizeof in *. lia.
Qed.
Lemma unpack_fits (bs : bytes) : Forall is_byte bs → fits (unpack (A:=A) bs).
Proof.
  intros. unfold fits, unpack. rewrite to_of_fields by apply length_get_fields.
  by apply get_fields_fit.
Qed.
End packed.
#[export] Hint Rewrite @zlen_pack : zlen.

(** [Packed] instances: list the widths and the fields. *)
Ltac packed_laws := first
  [ by intros []
  | intros vs Hl; cbn in Hl;
    repeat (destruct vs as [|? vs]; [discriminate Hl|apply (f_equal pred) in Hl; cbn in Hl]);
    by destruct vs ].

(** [fits] of a concrete structure, as bounds on its fields. *)
Ltac prove_fits := unfold fits; cbn; repeat constructor; cbn; try lia.
