(* ===== verification/ZipFormat.v ===== *)
(** * The zip format

    zip_format.h and zip_read_format.h: the magic numbers and the packed
    structures of an archive, and the date conversions of zip_handler_common.c.
    A structure is a record with its layout as an instance of [Packed]; fields
    carry a prefix, for structures share field names. *)

From S2P Require Import Prelude Bytes.

(** ** Constants *)
Definition ZIP_FLAG_ENCRYPTED : Z := Z.shiftl 1 0.
Definition ZIP_FLAG_DEFLATE_MAX : Z := Z.shiftl 1 1.
Definition ZIP_FLAG_DEFLATE_FAST : Z := Z.shiftl 1 2.
Definition ZIP_FLAG_DEFLATE_SUPER_FAST : Z := Z.lor ZIP_FLAG_DEFLATE_FAST ZIP_FLAG_DEFLATE_MAX.
Definition ZIP_FLAG_DATA_DESCRIPTOR : Z := Z.shiftl 1 3.
Definition ZIP_FLAG_UTF8 : Z := Z.shiftl 1 11.

Definition ZIP_HOST_SYSTEM (VERSION_MADEBY : Z) : Z := u8 (Z.shiftr (u32 VERSION_MADEBY) 8).
Definition ZIP_HOST_SYSTEM_MSDOS : Z := 0.
Definition ZIP_HOST_SYSTEM_UNIX : Z := 3.
Definition ZIP_HOST_SYSTEM_WINDOWS_NTFS : Z := 10.
Definition ZIP_HOST_SYSTEM_RISCOS : Z := 13.
Definition ZIP_HOST_SYSTEM_OSX_DARWIN : Z := 19.

Definition ZIP_HOST_OS_FAT : Z := 0.
Definition ZIP_HOST_OS_AMIGA : Z := 1.
Definition ZIP_HOST_OS_VMS : Z := 2.
Definition ZIP_HOST_OS_UNIX : Z := 3.
Definition ZIP_HOST_OS_VM_CMS : Z := 4.
Definition ZIP_HOST_OS_ATARI : Z := 5.
Definition ZIP_HOST_OS_HPFS : Z := 6.
Definition ZIP_HOST_OS_MAC : Z := 7.
Definition ZIP_HOST_OS_NTFS : Z := 11.
Definition ZIP_HOST_OS_ACORN : Z := 13.
Definition ZIP_HOST_OS_VFAT : Z := 14.
Definition ZIP_HOST_OS_MVS : Z := 15.

(** A build for Linux without the optional compression libraries. *)
Definition ZIP_VERSION_MADEBY_HOST_SYSTEM : Z := ZIP_HOST_SYSTEM_UNIX.
Definition ZIP_VERSION_MADEBY_ZIP_VERSION : Z := 45.
Definition ZIP_VERSION_MADEBY : Z :=
  Z.lor (Z.shiftl ZIP_VERSION_MADEBY_HOST_SYSTEM 8) ZIP_VERSION_MADEBY_ZIP_VERSION.

Definition ZIP_MAGIC_LOCALHEADER : Z := 0x04034b50.
Definition ZIP_MAGIC_CENTRALHEADER : Z := 0x02014b50.
Definition ZIP_MAGIC_ENDHEADER : Z := 0x06054b50.
Definition ZIP_MAGIC_ENDHEADER64 : Z := 0x06064b50.
Definition ZIP_MAGIC_ENDLOCHEADER64 : Z := 0x07064b50.

Definition ZIP_SIZE_CD_ITEM : Z := 46.
Definition ZIP_SIZE_CD_LOCATOR64 : Z := 20.
Definition ZIP_SIZE_EOCD_FIXED : Z := 22.
Definition ZIP_SIZE_SIGNATURE : Z := 4.
Definition ZIP_SIZE_MAX_GLOBAL_COMMENT : Z := 0xFFFF.
Definition CRC_POS_IN_LOCAL_HEADER : Z := 14.
Definition UINT16_MAX : Z := 65535.
Definition UINT32_MAX : Z := 4294967295.

Definition ZIP_EXTRAFIELD_ZIP64_HEADER : Z := 0x0001.
Definition ZIP_LOCAL_EXTRAFIELD_ZIP64_LENGTH : Z := 16.
Definition ZIP_END_OF_CD64_SIZE : Z := 44.
Definition EXTRA_FIELD_HEADER_BYTES : Z := 4.
Definition EXTRA_FIELD_UNICODE_PATH_MIN_LEN : Z := 5.

(** ** Structures *)

Record EndOfCentralDir := mkEndOfCentralDir {
  eocd_signature : Z; eocd_numberOfDisk : Z; eocd_numberOfDiskWithCD : Z;
  eocd_totalNumberOfEntriesOnThisDisk : Z; eocd_totalNumberOfEntries : Z; eocd_sizeOfCentralDir : Z;
  eocd_offsetOfCentralDir : Z; eocd_commentLength : Z
}.
#[export] Program Instance EndOfCentralDir_packed : Packed EndOfCentralDir := {
  layout := [4; 2; 2; 2; 2; 4; 4; 2]%nat;
  to_fields x := [eocd_signature x; eocd_numberOfDisk x; eocd_numberOfDiskWithCD x;
                    eocd_totalNumberOfEntriesOnThisDisk x; eocd_totalNumberOfEntries x;
                    eocd_sizeOfCentralDir x; eocd_offsetOfCentralDir x;
                    eocd_commentLength x];
  of_fields v := mkEndOfCentralDir
        (fld 0 v) (fld 1 v) (fld 2 v) (fld 3 v) (fld 4 v) (fld 5 v) (fld 6 v)
        (fld 7 v)
}.
Solve All Obligations with packed_laws.

Record EndOfCentralDirLocator64 := mkEndOfCentralDirLocator64 {
  loc64_signature : Z; loc64_numberOfDiskWithEOCD64 : Z; loc64_offsetOfEOCD64 : Z;
  loc64_diskTotalNum : Z
}.
#[export] Program Instance EndOfCentralDirLocator64_packed : Packed EndOfCentralDirLocator64 := {
  layout := [4; 4; 8; 4]%nat;
  to_fields x := [loc64_signature x; loc64_numberOfDiskWithEOCD64 x;
                    loc64_offsetOfEOCD64 x; loc64_diskTotalNum x];
  of_fields v := mkEndOfCentralDirLocator64
        (fld 0 v) (fld 1 v) (fld 2 v) (fld 3 v)
}.
Solve All Obligations with packed_laws.

Record EndOfCentralDir64 := mkEndOfCentralDir64 {
  eocd64_signature : Z; eocd64_size : Z; eocd64_versionMadeBy : Z;
  eocd64_versionNeeded : Z; eocd64_numberOfDisk : Z; eocd64_numberOfDiskWithCD : Z;
  eocd64_totalNumberOfEntriesOnThisDisk : Z; eocd64_totalNumberOfEntries : Z; eocd64_sizeOfCentralDir : Z;
  eocd64_offsetOfCentralDir : Z
}.
#[export] Program Instance EndOfCentralDir64_packed : Packed EndOfCentralDir64 := {
  layout := [4; 8; 2; 2; 4; 4; 8; 8; 8; 8]%nat;
  to_fields x := [eocd64_signature x; eocd64_size x; eocd64_versionMadeBy x;
                    eocd64_versionNeeded x; eocd64_numberOfDisk x;
                    eocd64_numberOfDiskWithCD x; eocd64_totalNumberOfEntriesOnThisDisk x;
                    eocd64_totalNumberOfEntries x; eocd64_sizeOfCentralDir x;
                    eocd64_offsetOfCentralDir x];
  of_fields v := mkEndOfCentralDir64
        (fld 0 v) (fld 1 v) (fld 2 v) (fld 3 v) (fld 4 v) (fld 5 v) (fld 6 v)
        (fld 7 v) (fld 8 v) (fld 9 v)
}.
Solve All Obligations with packed_laws.

Record CentralDirHeader := mkCentralDirHeader {
  cd_signature : Z; cd_versionMadeBy : Z; cd_versionNeeded : Z;
  cd_flag : Z; cd_compressionMethod : Z; cd_dosModDateTime : Z;
  cd_crc32 : Z; cd_compressedSize : Z; cd_uncompressedSize : Z;
  cd_fileNameLength : Z; cd_extraFieldLength : Z; cd_fileCommentLength : Z;
  cd_diskNumberStart : Z; cd_internalFileAttr : Z; cd_externalFileAttr : Z;
  cd_relativeOffsetOfLocalHeader : Z
}.
#[export] Program Instance CentralDirHeader_packed : Packed CentralDirHeader := {
  layout := [4; 2; 2; 2; 2; 4; 4; 4; 4; 2; 2; 2; 2; 2; 4; 4]%nat;
  to_fields x := [cd_signature x; cd_versionMadeBy x; cd_versionNeeded x; cd_flag x;
                    cd_compressionMethod x; cd_dosModDateTime x; cd_crc32 x;
                    cd_compressedSize x; cd_uncompressedSize x; cd_fileNameLength x;
                    cd_extraFieldLength x; cd_fileCommentLength x; cd_diskNumberStart x;
                    cd_internalFileAttr x; cd_externalFileAttr x;
                    cd_relativeOffsetOfLocalHeader x];
  of_fields v := mkCentralDirHeader
        (fld 0 v) (fld 1 v) (fld 2 v) (fld 3 v) (fld 4 v) (fld 5 v) (fld 6 v)
        (fld 7 v) (fld 8 v) (fld 9 v) (fld 10 v) (fld 11 v) (fld 12 v)
        (fld 13 v) (fld 14 v) (fld 15 v)
}.
Solve All Obligations with packed_laws.

Record LocalExtraDataZIP64 := mkLocalExtraDataZIP64 {
  lx_signature : Z; lx_extraFieldLength : Z; lx_uncompressedSize : Z;
  lx_compressedSize : Z
}.
#[export] Program Instance LocalExtraDataZIP64_packed : Packed LocalExtraDataZIP64 := {
  layout := [2; 2; 8; 8]%nat;
  to_fields x := [lx_signature x; lx_extraFieldLength x; lx_uncompressedSize x;
                    lx_compressedSize x];
  of_fields v := mkLocalExtraDataZIP64
        (fld 0 v) (fld 1 v) (fld 2 v) (fld 3 v)
}.
Solve All Obligations with packed_laws.

Record CdExtraDataZIP64 := mkCdExtraDataZIP64 {
  cx_signature : Z; cx_extraFieldLength : Z
}.
#[export] Program Instance CdExtraDataZIP64_packed : Packed CdExtraDataZIP64 := {
  layout := [2; 2]%nat;
  to_fields x := [cx_signature x; cx_extraFieldLength x];
  of_fields v := mkCdExtraDataZIP64
        (fld 0 v) (fld 1 v)
}.
Solve All Obligations with packed_laws.

Record LocalFileHeader := mkLocalFileHeader {
  lh_signature : Z; lh_versionNeeded : Z; lh_flag : Z;
  lh_compressionMethod : Z; lh_dosModDateTime : Z; lh_crc32 : Z;
  lh_compressedSize : Z; lh_uncompressedSize : Z; lh_fileNameLength : Z;
  lh_extraFieldLength : Z
}.
#[export] Program Instance LocalFileHeader_packed : Packed LocalFileHeader := {
  layout := [4; 2; 2; 2; 4; 4; 4; 4; 2; 2]%nat;
  to_fields x := [lh_signature x; lh_versionNeeded x; lh_flag x; lh_compressionMethod x;
                    lh_dosModDateTime x; lh_crc32 x; lh_compressedSize x;
                    lh_uncompressedSize x; lh_fileNameLength x; lh_extraFieldLength x];
  of_fields v := mkLocalFileHeader
        (fld 0 v) (fld 1 v) (fld 2 v) (fld 3 v) (fld 4 v) (fld 5 v) (fld 6 v)
        (fld 7 v) (fld 8 v) (fld 9 v)
}.
Solve All Obligations with packed_laws.

Record StrongEncryptionExtraFields := mkStrongEncryptionExtraFields {
  se_format : Z; se_algId : Z; se_keyLen : Z;
  se_flags : Z
}.
#[export] Program Instance StrongEncryptionExtraFields_packed : Packed StrongEncryptionExtraFields := {
  layout := [2; 2; 2; 2]%nat;
  to_fields x := [se_format x; se_algId x; se_keyLen x; se_flags x];
  of_fields v := mkStrongEncryptionExtraFields
        (fld 0 v) (fld 1 v) (fld 2 v) (fld 3 v)
}.
Solve All Obligations with packed_laws.

Record ReadCentralDirHeader := mkReadCentralDirHeader {
  rcd_versionMadeBy : Z; rcd_versionNeeded : Z; rcd_flag : Z;
  rcd_compressionMethod : Z; rcd_dosModDateTime : Z; rcd_crc32 : Z;
  rcd_compressedSize : Z; rcd_uncompressedSize : Z; rcd_fileNameLength : Z;
  rcd_extraFieldLength : Z; rcd_fileCommentLength : Z; rcd_diskNumberStart : Z;
  rcd_internalFileAttr : Z; rcd_externalFileAttr : Z; rcd_relativeOffsetOfLocalHeader : Z
}.
#[export] Program Instance ReadCentralDirHeader_packed : Packed ReadCentralDirHeader := {
  layout := [2; 2; 2; 2; 4; 4; 4; 4; 2; 2; 2; 2; 2; 4; 4]%nat;
  to_fields x := [rcd_versionMadeBy x; rcd_versionNeeded x; rcd_flag x;
                    rcd_compressionMethod x; rcd_dosModDateTime x; rcd_crc32 x;
                    rcd_compressedSize x; rcd_uncompressedSize x; rcd_fileNameLength x;
                    rcd_extraFieldLength x; rcd_fileCommentLength x;
                    rcd_diskNumberStart x; rcd_internalFileAttr x; rcd_externalFileAttr x;
                    rcd_relativeOffsetOfLocalHeader x];
  of_fields v := mkReadCentralDirHeader
        (fld 0 v) (fld 1 v) (fld 2 v) (fld 3 v) (fld 4 v) (fld 5 v) (fld 6 v)
        (fld 7 v) (fld 8 v) (fld 9 v) (fld 10 v) (fld 11 v) (fld 12 v)
        (fld 13 v) (fld 14 v)
}.
Solve All Obligations with packed_laws.
Lemma sizeof_structures :
  sizeof EndOfCentralDir = ZIP_SIZE_EOCD_FIXED ∧
  sizeof EndOfCentralDirLocator64 = ZIP_SIZE_CD_LOCATOR64 ∧
  sizeof CentralDirHeader = ZIP_SIZE_CD_ITEM ∧
  sizeof EndOfCentralDir64 = ZIP_END_OF_CD64_SIZE + 12 ∧
  sizeof LocalExtraDataZIP64 = ZIP_LOCAL_EXTRAFIELD_ZIP64_LENGTH + EXTRA_FIELD_HEADER_BYTES ∧
  sizeof LocalFileHeader = 30 ∧
  sizeof ReadCentralDirHeader + ZIP_SIZE_SIGNATURE = sizeof CentralDirHeader.
Proof. done. Qed.
