(* ===== verification/ZipTime.v ===== *)
(** * Dates of zip entries

    zip_handler_common.c: the conversion between the time of a file and the
    32-bit date of an entry.  [localtime_r] and [mktime] depend on the time zone
    and are parameters of the functions that call them. *)

From S2P Require Import Prelude Bytes ZipFormat.

Definition YEAR_1980 : Z := 1980.
Definition YEAR_80 : Z := 80.
Definition YEAR_20 : Z := 20.
Definition YEAR_SHIFT : Z := 512.
Definition MONTH_SHIFT : Z := 32.
Definition DAY_SHIFT : Z := 16.
Definition HOUR_SHIFT : Z := 2048.
Definition MIN_SHIFT : Z := 32.
Definition SEC_SHIFT : Z := 2.

(** [struct tm]: years since 1900, months from 0. *)
Record tm := Tm {
  tm_year : Z; tm_mon : Z; tm_mday : Z; tm_hour : Z; tm_min : Z; tm_sec : Z
}.

Definition in_range (min max value : Z) : bool := (min <=? value) && (value <=? max).

Definition ZipInvalidDate (ptm : tm) : bool :=
  negb (in_range 0 (127 + 80) (tm_year ptm)) || negb (in_range 0 11 (tm_mon ptm))
  || negb (in_range 1 31 (tm_mday ptm)) || negb (in_range 0 23 (tm_hour ptm))
  || negb (in_range 0 59 (tm_min ptm)) || negb (in_range 0 59 (tm_sec ptm)).

Definition FixYear (tm_year : Z) : Z :=
  if tm_year >=? YEAR_1980 then tm_year - YEAR_1980
  else if tm_year >=? YEAR_80 then tm_year - YEAR_80
  else tm_year + YEAR_20.

(** The arithmetic is that of [uint32_t]. *)
Definition ZipTimeToDosModDateTime (ptm : option tm) : Z :=
  match ptm with
  | None => 0
  | Some ptm =>
      let fixedTime := Tm (FixYear (tm_year ptm)) (tm_mon ptm) (tm_mday ptm)
                          (tm_hour ptm) (tm_min ptm) (tm_sec ptm) in
      if ZipInvalidDate fixedTime then 0 else
      Z.lor (u32 (Z.shiftl (u32 (tm_mday fixedTime + MONTH_SHIFT * (tm_mon fixedTime + 1)
                                 + YEAR_SHIFT * tm_year fixedTime)) DAY_SHIFT))
            (u32 (tm_sec fixedTime / SEC_SHIFT + MIN_SHIFT * tm_min fixedTime
                  + HOUR_SHIFT * tm_hour fixedTime))
  end.

(** The fields [ZipConvertDosDateToTime] hands to [mktime]. *)
Definition DosDateToTm (dosDateTime : Z) : tm :=
  let msTime := Z.land dosDateTime 0xffff in
  let msDate := Z.shiftr dosDateTime DAY_SHIFT in
  Tm (Z.land (Z.shiftr msDate 9) 0x7f + YEAR_80) (Z.land (Z.shiftr msDate 5) 0x0f - 1)
     (Z.land msDate 0x1f) (Z.land (Z.shiftr msTime 11) 0x1f) (Z.land (Z.shiftr msTime 5) 0x3f)
     (Z.land (Z.shiftl msTime 1) 0x3e).

Section libc.
Context (localtime_r : Z → option tm) (mktime : tm → Z).

(** [ZipTimeToTm] fails when [localtime_r] does. *)
Definition ZipTimeToTm (time : Z) : option tm := localtime_r time.

Definition ZipConvertTimeToDosDate (time : Z) : Z :=
  match ZipTimeToTm time with
  | None => 0
  | Some ptm => ZipTimeToDosModDateTime (Some ptm)
  end.

Definition ZipGetCurrentDosModeDateTime (timestamp : Z) : Z :=
  ZipTimeToDosModDateTime (localtime_r timestamp).

Definition ZipConvertDosDateToTime (dosDateTime : Z) : Z := mktime (DosDateToTm dosDateTime).
End libc.

(** ** Lemmas *)

Lemma land_low x n : 0 <= n → Z.land x (2 ^ n - 1) = x mod 2 ^ n.
Proof. intros. rewrite Z.sub_1_r, <- Z.ones_equiv. by apply Z.land_ones. Qed.

Lemma lor_shifted_low hi lo n :
  0 <= n → 0 <= lo < 2 ^ n → Z.lor (Z.shiftl hi n) lo = hi * 2 ^ n + lo.
Proof.
  intros Hn Hlo. rewrite <- (Z.shiftl_mul_pow2 hi n Hn).
  assert (Z.land (Z.shiftl hi n) lo = 0) as H0.
  { apply Z.bits_inj'. intros i Hi. rewrite Z.land_spec, Z.bits_0.
    destruct (Z_lt_le_dec i n); [by rewrite Z.shiftl_spec_low|].
    rewrite <- (Z.mod_small lo (2 ^ n)) by done.
    by rewrite Z.mod_pow2_bits_high, andb_false_r by lia. }
  rewrite <- Z.lxor_lor by done. symmetry. by apply Z.add_nocarry_lxor.
Qed.

(** A valid [struct tm], as [localtime_r] returns it outside leap seconds. *)
Definition valid_tm (t : tm) : Prop :=
  0 <= tm_mon t <= 11 ∧ 1 <= tm_mday t <= 31 ∧ 0 <= tm_hour t <= 23 ∧ 0 <= tm_min t <= 59
  ∧ 0 <= tm_sec t <= 59.

Lemma in_range_spec min max v : in_range min max v = true ↔ min <= v <= max.
Proof. unfold in_range. rewrite andb_true_iff, !Z.leb_le. done. Qed.

Lemma ZipInvalidDate_false t : valid_tm t → 0 <= tm_year t <= 207 → ZipInvalidDate t = false.
Proof.
  intros (H1 & H2 & H3 & H4 & H5) Hy. unfold ZipInvalidDate.
  by rewrite !(proj2 (in_range_spec _ _ _)) by lia.
Qed.

(** The date as a number. *)
Lemma DosModDateTime_value t :
  valid_tm t → 0 <= FixYear (tm_year t) <= 207 →
  ZipTimeToDosModDateTime (Some t) =
    ((tm_mday t + 32 * (tm_mon t + 1) + 512 * FixYear (tm_year t)) mod 2 ^ 16) * 2 ^ 16
    + (tm_sec t / 2 + 32 * tm_min t + 2048 * tm_hour t).
Proof.
  intros Hv Hy. pose proof Hv as (H1 & H2 & H3 & H4 & H5). unfold ZipTimeToDosModDateTime.
  rewrite ZipInvalidDate_false by done. cbn [tm_year tm_mon tm_mday tm_hour tm_min tm_sec].
  unfold YEAR_SHIFT, MONTH_SHIFT, DAY_SHIFT, HOUR_SHIFT, MIN_SHIFT, SEC_SHIFT.
  assert (0 <= tm_sec t / 2 < 30) by (split; [apply Z.div_pos|apply Z.div_lt_upper_bound]; lia).
  set (d := tm_mday t + _ + _). set (m := tm_sec t / 2 + _ + _).
  rewrite (u32_id d) by (subst d; lia). rewrite (u32_id m) by (subst m; lia).
  rewrite <- lor_shifted_low by (subst m; lia). f_equal.
  rewrite !Z.shiftl_mul_pow2 by lia. unfold u32. change (2 ^ 32) with (2 ^ 16 * 2 ^ 16).
  rewrite Z.mul_mod_distr_r by lia. done.
Qed.

Lemma DosDateToTm_value d m :
  0 <= d → 0 <= m < 2 ^ 16 →
  DosDateToTm (d * 2 ^ 16 + m) =
    Tm (d / 2 ^ 9 mod 2 ^ 7 + 80) (d / 2 ^ 5 mod 2 ^ 4 - 1) (d mod 2 ^ 5)
       (m / 2 ^ 11 mod 2 ^ 5) (m / 2 ^ 5 mod 2 ^ 6) (2 * (m mod 2 ^ 5)).
Proof.
  intros Hd Hm. unfold DosDateToTm, DAY_SHIFT, YEAR_80.
  assert (Z.land (d * 2 ^ 16 + m) 0xffff = m) as ->.
  { change 0xffff with (2 ^ 16 - 1). rewrite land_low by lia.
    rewrite Z.add_comm, Z.mod_add by lia. by apply Z.mod_small. }
  assert (Z.shiftr (d * 2 ^ 16 + m) 16 = d) as ->.
  { rewrite Z.shiftr_div_pow2 by lia. rewrite Z.div_add_l by lia. rewrite Z.div_small by done. lia. }
  rewrite !Z.shiftr_div_pow2 by lia.
  change 0x7f with (2 ^ 7 - 1). change 0x0f with (2 ^ 4 - 1). change 0x1f with (2 ^ 5 - 1).
  change 0x3f with (2 ^ 6 - 1). rewrite !land_low by lia. f_equal.
  assert (Z.land (Z.shiftl m 1) 0x3e = 2 * (m mod 2 ^ 5)); [|done].
  rewrite <- (land_low m 5) by lia. change 0x3e with (Z.shiftl (2 ^ 5 - 1) 1).
  rewrite <- Z.shiftl_land, Z.shiftl_mul_pow2 by lia. lia.
Qed.

(** The years since 1900 that are stored, and the one that comes back for each. *)
Definition stored_year (y : Z) : bool := ((-20 <=? y) && (y <=? 287)) || ((1980 <=? y) && (y <=? 2187)).
Definition year_back (y : Z) : Z :=
  if y <? 80 then y + 100 else if y <=? 207 then y else if y <? 1980 then y - 128
  else (y - 1980) mod 128 + 80.
(** What comes back for a date; a date that is not stored comes back as day and month zero of
    1980. *)
Definition date_back (t : tm) : tm :=
  if stored_year (tm_year t) && (tm_sec t <=? 59)
  then Tm (year_back (tm_year t)) (tm_mon t) (tm_mday t) (tm_hour t) (tm_min t) (2 * (tm_sec t / 2))
  else Tm 80 (-1) 0 0 0 0.

Lemma FixYear_stored y :
  if stored_year y then 0 <= FixYear y <= 207 ∧ FixYear y mod 128 + 80 = year_back y
  else FixYear y < 0 ∨ 207 < FixYear y.
Proof.
  unfold stored_year, FixYear, year_back, YEAR_1980, YEAR_80, YEAR_20.
  destruct (_ || _) eqn:E; [apply orb_prop in E as [E|E]|apply orb_false_elim in E as [E1 E2]].
  - zbool. repeat (case_match; zbool); split; try lia; Z.div_mod_to_equations; lia.
  - zbool. repeat (case_match; zbool); split; try lia; Z.div_mod_to_equations; lia.
  - apply andb_false_iff in E1, E2. repeat (case_match; zbool); destruct E1, E2; zbool; lia.
Qed.

(** What is given back for a stored date. *)
Lemma stored_date_back t :
  valid_tm t → stored_year (tm_year t) = true →
  DosDateToTm (ZipTimeToDosModDateTime (Some t)) =
    Tm (year_back (tm_year t)) (tm_mon t) (tm_mday t) (tm_hour t) (tm_min t) (2 * (tm_sec t / 2)).
Proof.
  intros Hv Hs. pose proof (FixYear_stored (tm_year t)) as H. rewrite Hs in H. destruct H as [Hf Hb].
  rewrite DosModDateTime_value by done. destruct Hv as (H1 & H2 & H3 & H4 & H5).
  assert (0 <= tm_sec t / 2 < 30) by (split; [apply Z.div_pos|apply Z.div_lt_upper_bound]; lia).
  rewrite DosDateToTm_value by (try apply Z.mod_pos_bound; lia). rewrite <- Hb.
  set (y := FixYear (tm_year t)) in *. clearbody y. f_equal; try (Z.div_mod_to_equations; lia).
Qed.

(** What [localtime_r] returns: a leap second is possible. *)
Definition local_tm (t : tm) : Prop :=
  0 <= tm_mon t <= 11 ∧ 1 <= tm_mday t <= 31 ∧ 0 <= tm_hour t <= 23 ∧ 0 <= tm_min t <= 59 ∧ 0 <= tm_sec t <= 60.

(** C15: A date survives being stored in an entry, but for odd seconds, when the year is one
    the format has, 1980 to 2107: what [mktime] is given is what [localtime_r] gave.  The
    years 1880 to 1979 come back a century late, 2108 to 2187 come back 128 years early, and
    3880 to 4087 as one of the years 1980 to 2107; for all other years, and in a leap second,
    nothing is stored, and month and day zero of 1980 come back. *)
Theorem dos_date_roundtrip (localtime_r : Z → option tm) (mktime : tm → Z) (time : Z) (t : tm) :
  localtime_r time = Some t → local_tm t →
  ZipConvertDosDateToTime mktime (ZipConvertTimeToDosDate localtime_r time) = mktime (date_back t).
Proof.
  intros Hl (H1 & H2 & H3 & H4 & H5). unfold ZipConvertDosDateToTime, ZipConvertTimeToDosDate, ZipTimeToTm.
  rewrite Hl. f_equal. unfold date_back. destruct (stored_year (tm_year t) && (tm_sec t <=? 59)) eqn:E; zbool.
  { apply stored_date_back; [unfold valid_tm; lia|done]. }
  assert (ZipTimeToDosModDateTime (Some t) = 0) as ->; [|reflexivity].
  unfold ZipTimeToDosModDateTime. match goal with |- context [ZipInvalidDate ?d] => assert (ZipInvalidDate d = true) as -> end; [|done].
  pose proof (FixYear_stored (tm_year t)) as Hf. unfold ZipInvalidDate, in_range. cbn [tm_year tm_mon tm_mday tm_hour tm_min tm_sec].
  apply andb_false_iff in E as [E|E].
  - rewrite E in Hf. assert ((0 <=? FixYear (tm_year t)) && (FixYear (tm_year t) <=? 127 + 80) = false) as ->; [|done].
    apply andb_false_iff. rewrite !Z.leb_gt. lia.
  - rewrite E, andb_false_r. by rewrite !orb_true_r.
Qed.
Lemma dos_date_roundtrip_witness :
  ZipConvertDosDateToTime tm_hour (ZipConvertTimeToDosDate (λ s, Some (Tm 126 1 28 s 30 9)) 23) = 23.
Proof. by apply (dos_date_roundtrip (λ s, Some (Tm 126 1 28 s 30 9)) tm_hour 23 _ eq_refl). Defined.
