(* ===== verification/ArchiveErr.v ===== *)
(** * Errors of the archive code

    errorcode.h, the codes the C interface reports (oh_archive_errcode.h), and
    the two tables that convert one into the other: the reader's in
    oh_archive_reader.c and the writer's in oh_archive_writer.c. *)

From S2P Require Import Prelude.

Definition ARCHIVE_OK : Z := 0.
Definition ARCHIVE_PARAM_ERROR : Z := -1.
Definition ARCHIVE_STREAM_ERROR : Z := -2.
Definition ARCHIVE_DATA_ERROR : Z := -3.
Definition ARCHIVE_MEM_ERROR : Z := -4.
Definition ARCHIVE_BUF_ERROR : Z := -5.
Definition ARCHIVE_VERSION_ERROR : Z := -6.
Definition ARCHIVE_END_OF_LIST : Z := -7.
Definition ARCHIVE_END_OF_STREAM : Z := -8.
Definition ARCHIVE_FORMAT_ERROR : Z := -9.
Definition ARCHIVE_INTERNAL_ERROR : Z := -10.
Definition ARCHIVE_CRC_ERROR : Z := -11.
Definition ARCHIVE_CRYPT_ERROR : Z := -12.
Definition ARCHIVE_EXIST_ERROR : Z := -13.
Definition ARCHIVE_PASSWORD_ERROR : Z := -14.
Definition ARCHIVE_SUPPORT_ERROR : Z := -15.
Definition ARCHIVE_HASH_ERROR : Z := -16.
Definition ARCHIVE_OPEN_ERROR : Z := -17.
Definition ARCHIVE_CLOSE_ERROR : Z := -18.
Definition ARCHIVE_SEEK_ERROR : Z := -19.
Definition ARCHIVE_TELL_ERROR : Z := -20.
Definition ARCHIVE_READ_ERROR : Z := -21.
Definition ARCHIVE_WRITE_ERROR : Z := -22.
Definition ARCHIVE_SIGN_ERROR : Z := -23.
Definition ARCHIVE_SYMLINK_ERROR : Z := -24.
Definition ARCHIVE_MKDIR_ERROR : Z := -25.
Definition ARCHIVE_CANCEL_ERROR : Z := -26.
Definition ARCHIVE_NAME_TOO_LONG_ERROR : Z := -27.
Definition ARCHIVE_NO_SPACE_ERROR : Z := -28.
Definition ARCHIVE_FILE_NAME_TRUNCATED : Z := -29.
Definition ARCHIVE_FULL_PATH_TOO_LONG : Z := -30.
Definition ARCHIVE_EPERM_ERROR : Z := -31.
Definition ARCHIVE_EIO_ERROR : Z := -32.
Definition ARCHIVE_EACCES_ERROR : Z := -33.
Definition ARCHIVE_ENOENT_ERROR : Z := -34.
Definition ARCHIVE_ZLIB_ERROR : Z := -37.

Inductive OH_Archive_ErrCode :=
  | OH_ARCHIVE_OK | OH_ARCHIVE_PARAM_ERROR | OH_ARCHIVE_UNKNOWN_ERROR | OH_ARCHIVE_CANCEL_ERROR
  | OH_ARCHIVE_UNSUPPORTED_ERROR | OH_ARCHIVE_MEM_ERROR | OH_ARCHIVE_OPEN_ERROR
  | OH_ARCHIVE_WRITE_ERROR | OH_ARCHIVE_READ_ERROR | OH_ARCHIVE_STREAM_OUTPUT_ERROR
  | OH_ARCHIVE_INSUFFICIENT_OUTBUF_ERROR | OH_ARCHIVE_NO_SPACE_ERROR
  | OH_ARCHIVE_PATH_NOT_EXIST_ERROR | OH_ARCHIVE_PATH_EXISTS_ERROR | OH_ARCHIVE_PATH_ACCESS_ERROR
  | OH_ARCHIVE_NAME_TOO_LONG_ERROR | OH_ARCHIVE_FULL_PATH_TOO_LONG_ERROR | OH_ARCHIVE_DATA_ERROR
  | OH_ARCHIVE_CRC_ERROR | OH_ARCHIVE_DEFLATE_ERROR.
#[export] Instance OH_Archive_ErrCode_eq_dec : EqDecision OH_Archive_ErrCode.
Proof. solve_decision. Defined.

Definition OH_Archive_ErrCode_value (e : OH_Archive_ErrCode) : Z :=
  match e with
  | OH_ARCHIVE_OK => 0 | OH_ARCHIVE_PARAM_ERROR => 401
  | OH_ARCHIVE_UNKNOWN_ERROR => 13900100 | OH_ARCHIVE_CANCEL_ERROR => 13900101
  | OH_ARCHIVE_UNSUPPORTED_ERROR => 13900102 | OH_ARCHIVE_MEM_ERROR => 13900103
  | OH_ARCHIVE_OPEN_ERROR => 13900104 | OH_ARCHIVE_WRITE_ERROR => 13900105
  | OH_ARCHIVE_READ_ERROR => 13900106 | OH_ARCHIVE_STREAM_OUTPUT_ERROR => 13900107
  | OH_ARCHIVE_INSUFFICIENT_OUTBUF_ERROR => 13900108 | OH_ARCHIVE_NO_SPACE_ERROR => 13900200
  | OH_ARCHIVE_PATH_NOT_EXIST_ERROR => 13900201 | OH_ARCHIVE_PATH_EXISTS_ERROR => 13900202
  | OH_ARCHIVE_PATH_ACCESS_ERROR => 13900203 | OH_ARCHIVE_NAME_TOO_LONG_ERROR => 13900204
  | OH_ARCHIVE_FULL_PATH_TOO_LONG_ERROR => 13900205 | OH_ARCHIVE_DATA_ERROR => 13900300
  | OH_ARCHIVE_CRC_ERROR => 13900301 | OH_ARCHIVE_DEFLATE_ERROR => 13900302
  end.

Definition WriterErrCodeMap : list (Z * OH_Archive_ErrCode) := [
  (ARCHIVE_OK, OH_ARCHIVE_OK);
  (ARCHIVE_PARAM_ERROR, OH_ARCHIVE_PARAM_ERROR);
  (ARCHIVE_SUPPORT_ERROR, OH_ARCHIVE_UNSUPPORTED_ERROR);
  (ARCHIVE_FORMAT_ERROR, OH_ARCHIVE_UNSUPPORTED_ERROR);
  (ARCHIVE_MEM_ERROR, OH_ARCHIVE_MEM_ERROR);
  (ARCHIVE_OPEN_ERROR, OH_ARCHIVE_OPEN_ERROR);
  (ARCHIVE_WRITE_ERROR, OH_ARCHIVE_WRITE_ERROR);
  (ARCHIVE_READ_ERROR, OH_ARCHIVE_READ_ERROR);
  (ARCHIVE_NO_SPACE_ERROR, OH_ARCHIVE_NO_SPACE_ERROR);
  (ARCHIVE_EXIST_ERROR, OH_ARCHIVE_PATH_NOT_EXIST_ERROR);
  (ARCHIVE_NAME_TOO_LONG_ERROR, OH_ARCHIVE_NAME_TOO_LONG_ERROR);
  (ARCHIVE_DATA_ERROR, OH_ARCHIVE_DATA_ERROR);
  (ARCHIVE_CANCEL_ERROR, OH_ARCHIVE_CANCEL_ERROR);
  (ARCHIVE_CRC_ERROR, OH_ARCHIVE_CRC_ERROR);
  (ARCHIVE_INTERNAL_ERROR, OH_ARCHIVE_UNKNOWN_ERROR);
  (ARCHIVE_EPERM_ERROR, OH_ARCHIVE_PATH_ACCESS_ERROR);
  (ARCHIVE_EACCES_ERROR, OH_ARCHIVE_PATH_ACCESS_ERROR);
  (ARCHIVE_EIO_ERROR, OH_ARCHIVE_PATH_ACCESS_ERROR);
  (ARCHIVE_ENOENT_ERROR, OH_ARCHIVE_PATH_ACCESS_ERROR)
].

Definition errCodeMap : list (Z * OH_Archive_ErrCode) := [
  (ARCHIVE_OK, OH_ARCHIVE_OK);
  (ARCHIVE_PARAM_ERROR, OH_ARCHIVE_PARAM_ERROR);
  (ARCHIVE_SUPPORT_ERROR, OH_ARCHIVE_UNSUPPORTED_ERROR);
  (ARCHIVE_FORMAT_ERROR, OH_ARCHIVE_UNSUPPORTED_ERROR);
  (ARCHIVE_MEM_ERROR, OH_ARCHIVE_MEM_ERROR);
  (ARCHIVE_OPEN_ERROR, OH_ARCHIVE_OPEN_ERROR);
  (ARCHIVE_WRITE_ERROR, OH_ARCHIVE_WRITE_ERROR);
  (ARCHIVE_READ_ERROR, OH_ARCHIVE_READ_ERROR);
  (ARCHIVE_NO_SPACE_ERROR, OH_ARCHIVE_NO_SPACE_ERROR);
  (ARCHIVE_EXIST_ERROR, OH_ARCHIVE_PATH_NOT_EXIST_ERROR);
  (ARCHIVE_NAME_TOO_LONG_ERROR, OH_ARCHIVE_NAME_TOO_LONG_ERROR);
  (ARCHIVE_FULL_PATH_TOO_LONG, OH_ARCHIVE_FULL_PATH_TOO_LONG_ERROR);
  (ARCHIVE_DATA_ERROR, OH_ARCHIVE_DATA_ERROR);
  (ARCHIVE_CANCEL_ERROR, OH_ARCHIVE_CANCEL_ERROR);
  (ARCHIVE_CRC_ERROR, OH_ARCHIVE_CRC_ERROR);
  (ARCHIVE_INTERNAL_ERROR, OH_ARCHIVE_UNKNOWN_ERROR);
  (ARCHIVE_EPERM_ERROR, OH_ARCHIVE_PATH_ACCESS_ERROR);
  (ARCHIVE_EACCES_ERROR, OH_ARCHIVE_PATH_ACCESS_ERROR);
  (ARCHIVE_EIO_ERROR, OH_ARCHIVE_PATH_ACCESS_ERROR);
  (ARCHIVE_ENOENT_ERROR, OH_ARCHIVE_PATH_ACCESS_ERROR);
  (ARCHIVE_END_OF_LIST, OH_ARCHIVE_OK)
].

(** The first entry for [ret] in a table. *)
Fixpoint map_find (m : list (Z * OH_Archive_ErrCode)) (ret : Z) : option OH_Archive_ErrCode :=
  match m with
  | [] => None
  | (r, e) :: m => if r =? ret then Some e else map_find m ret
  end.

Definition WriteConvertErrCode (ret : Z) : OH_Archive_ErrCode :=
  default OH_ARCHIVE_UNKNOWN_ERROR (map_find WriterErrCodeMap ret).
Definition ConvertErrCode (ret : Z) : OH_Archive_ErrCode :=
  default OH_ARCHIVE_UNKNOWN_ERROR (map_find errCodeMap ret).

Lemma map_find_Some m ret e : map_find m ret = Some e → (ret, e) ∈ m.
Proof.
  induction m as [|[r e'] m IH]; [done|]. cbn. destruct (r =? ret) eqn:E; zbool.
  - intros [= ->]. subst. left.
  - intros H. right. by apply IH.
Qed.

(** Success is reported for nothing but success, and the end of the list when reading. *)
Lemma WriteConvertErrCode_OK ret : WriteConvertErrCode ret = OH_ARCHIVE_OK ↔ ret = ARCHIVE_OK.
Proof.
  split; [|by intros ->]. unfold WriteConvertErrCode. intros H.
  destruct (map_find _ ret) as [e|] eqn:E; [|done]. cbn in H. subst e.
  apply map_find_Some in E. unfold WriterErrCodeMap in E.
  repeat (apply elem_of_cons in E as [E|E]; [by simplify_eq|]). by apply elem_of_nil in E.
Qed.
Lemma ConvertErrCode_OK ret :
  ConvertErrCode ret = OH_ARCHIVE_OK ↔ ret = ARCHIVE_OK ∨ ret = ARCHIVE_END_OF_LIST.
Proof.
  split; [|by intros [-> | ->]]. unfold ConvertErrCode. intros H.
  destruct (map_find _ ret) as [e|] eqn:E; [|done]. cbn in H. subst e.
  apply map_find_Some in E. unfold errCodeMap in E.
  repeat (apply elem_of_cons in E as [E|E]; [by simplify_eq; auto|]). by apply elem_of_nil in E.
Qed.
