(* ===== verification/ArchivePath.v ===== *)
(** * Path strings of the archive code

    The functions on path strings of archive_utils.c, stream_file_posix.c and
    zip_writer.c.  A C string is the list of its bytes without the final zero; a
    buffer that receives one is the function's result.  [NormalizePath] moves a
    pointer over its input and one over its output: here the rest of the input,
    and the output so far in reverse, [target] being its end. *)

From S2P Require Import Prelude Bytes ArchiveErr.

Definition PATH_MAX : Z := 4096.
Definition ZIP_FILE_NAME_LEN_MAX : Z := PATH_MAX.
Definition SLASH : Z := 47.
Definition DOT : Z := 46.

(** ** Copying into bounded buffers (securec) *)

(** [strncpy_s(dest, destMax, src, count)]: the first [count] bytes of [src], if they and
    the final zero fit. *)
Definition strncpy_s (destMax : Z) (src : bytes) (count : Z) : option bytes :=
  let s := take (Z.to_nat count) src in if zlen s <? destMax then Some s else None.
Definition strcpy_s (destMax : Z) (src : bytes) : option bytes :=
  if zlen src <? destMax then Some src else None.
Definition strncat_s (destMax : Z) (dest src : bytes) : option bytes :=
  if zlen dest + zlen src <? destMax then Some (dest ++ src) else None.
(** [snprintf_s(dest, destMax, destMax - 1, ...)] fails when the text is cut. *)
Definition snprintf_s (destMax : Z) (text : bytes) : option bytes :=
  if zlen text <? destMax then Some text else None.

(** ** Prefixes and parents *)

Fixpoint starts_with (pre s : bytes) : bool :=
  match pre, s with
  | [], _ => true
  | p :: pre, c :: s => (p =? c) && starts_with pre s
  | _, _ => false
  end.

Definition ValidatePathPrefix (path : bytes) (base : option bytes) : Z :=
  let baseLen := match base with None => 0 | Some b => zlen b end in
  if baseLen =? 0 then ARCHIVE_OK else
  let base := default [] base in
  let next := default 0 (path !! Z.to_nat baseLen) in
  if negb (starts_with base path)
     || (negb (default 0 (last base) =? SLASH) && negb (next =? SLASH) && negb (next =? 0))
  then ARCHIVE_PARAM_ERROR else ARCHIVE_OK.

(** What precedes the last slash, and what follows it. *)
Fixpoint split_last (s : bytes) : option (bytes * bytes) :=
  match s with
  | [] => None
  | c :: s' =>
      match split_last s' with
      | Some (d, n) => Some (c :: d, n)
      | None => if c =? SLASH then Some ([], s') else None
      end
  end.

(** The index of the last slash. *)
Definition FindLastSeparator (filePath : bytes) : option Z :=
  match split_last filePath with Some (d, _) => Some (zlen d) | None => None end.

Definition GetParentDirectory (filePath : option bytes) (parentPathSize : Z) : Z * bytes :=
  match filePath with
  | None => (ARCHIVE_PARAM_ERROR, [])
  | Some filePath =>
      if zlen filePath >=? parentPathSize then (ARCHIVE_PARAM_ERROR, []) else
      match FindLastSeparator filePath with
      | None => (ARCHIVE_OK, [DOT])
      | Some parentLen =>
          if parentLen >=? ZIP_FILE_NAME_LEN_MAX then (ARCHIVE_PARAM_ERROR, []) else
          match strncpy_s ZIP_FILE_NAME_LEN_MAX filePath parentLen with
          | None => (ARCHIVE_PARAM_ERROR, [])
          | Some [] => (ARCHIVE_OK, [DOT])
          | Some parentPath => (ARCHIVE_OK, parentPath)
          end
      end
  end.

Definition GetFileName (filePath : bytes) : bytes :=
  match FindLastSeparator filePath with
  | None => filePath
  | Some i => drop (Z.to_nat (i + 1)) filePath
  end.

(** [dirname] of libgen. *)
Definition strip_slashes (s : bytes) : bytes :=
  let fix go r := match r with c :: r' => if c =? SLASH then go r' else r | [] => [] end in
  rev (go (rev s)).
Definition dirname (s : bytes) : bytes :=
  match s with
  | [] => [DOT]
  | _ =>
      match strip_slashes s with
      | [] => [SLASH]
      | s' => match split_last s' with
              | None => [DOT]
              | Some (d, _) => match strip_slashes d with [] => [SLASH] | d' => d' end
              end
      end
  end.

(** ** [NormalizePath] *)

(** The two pointers: the rest of the source, the output in reverse, and [maxOutput]. *)
Record cursor := Cursor { source : bytes; target : bytes; maxOutput : Z }.

(** [start] is [source == path]; [check] what follows the dot. *)
Definition PathHandleDot (start : bool) (c : cursor) (check : bytes) : option cursor :=
  match check with
  | [] =>
      if negb start && negb (bool_decide (target c = []))
      then Some (Cursor [] (default 0 (head (source c)) :: target c) (maxOutput c - 1))
      else None
  | d :: rest =>
      if d =? SLASH then
        (* [source] is at the slash, and behind it when nothing was written *)
        Some (Cursor (if bool_decide (target c = []) then rest else check) (target c) (maxOutput c))
      else None
  end.

(** Back to the start of the last component: what is left of the output, and the byte
    [target] then points to. *)
Fixpoint search_back (at_target : Z) (target : bytes) (maxOutput : Z) : Z * bytes * Z :=
  match target with
  | [] => (at_target, [], maxOutput)
  | c :: target' =>
      if at_target =? SLASH then (at_target, target, maxOutput)
      else search_back c target' (maxOutput + 1)
  end.
Definition PathHandleDotDotSearchBack (target : bytes) (maxOutput : Z) : Z * bytes * Z :=
  match target with
  | [] => (0, [], maxOutput)
  | c :: target' => search_back c target' maxOutput
  end.

(** [check] is what follows the two dots. *)
Definition PathHandleDotDot (c : cursor) (check : bytes) : option cursor :=
  if match check with [] => true | d :: _ => d =? SLASH end then
    let '(at_target, tgt, maxo) := PathHandleDotDotSearchBack (target c) (maxOutput c) in
    let src := match check with
               | _ :: rest => if bool_decide (tgt = []) then rest else check
               | [] => []
               end in
    let tgt := if (at_target =? SLASH) && bool_decide (src = []) then SLASH :: tgt else tgt in
    Some (Cursor src tgt maxo)
  else None.

Definition NormalizePathDot (start : bool) (c : cursor) (check : bytes) : option cursor :=
  match check with
  | d :: check1 =>
      if d =? DOT then
        match PathHandleDot start c check1 with
        | Some c' => Some c'
        | None =>
            match check1 with
            | d' :: check2 => if d' =? DOT then PathHandleDotDot c check2 else None
            | [] => None
            end
        end
      else None
  | [] => None
  end.

(** One turn of the loop of [NormalizePath]; the source is not empty. *)
Definition NormalizeStep (start : bool) (c : cursor) : cursor :=
  match source c with
  | [] => c
  | ch :: src =>
      let copy := Cursor src (ch :: target c) (maxOutput c - 1) in
      let check := if ch =? SLASH then src else source c in
      if start || bool_decide (target c = []) || (ch =? SLASH) then
        if match check with d :: _ => d =? SLASH | [] => false end
        then Cursor src (target c) (maxOutput c)
        else match NormalizePathDot start c check with Some c' => c' | None => copy end
      else copy
  end.

Fixpoint Normalize_loop (fuel : nat) (start : bool) (c : cursor) : cursor :=
  match fuel with
  | O => c
  | S fuel =>
      if bool_decide (source c = []) || negb (maxOutput c >? 1) then c
      else Normalize_loop fuel false (NormalizeStep start c)
  end.

(** The allocation of the output is taken to succeed. *)
Definition NormalizePath (path : bytes) : option bytes :=
  let c := Normalize_loop (S (length path)) true (Cursor path [] (zlen path + 1)) in
  match path with [] => None | _ => Some (rev (target c)) end.

Definition GetOutputFilePath (fileName outDir : bytes) (size : Z) : Z * bytes :=
  match NormalizePath fileName with
  | None => (ARCHIVE_INTERNAL_ERROR, [])
  | Some normalizedPath =>
      match snprintf_s ZIP_FILE_NAME_LEN_MAX (outDir ++ [SLASH] ++ normalizedPath) with
      | None => (ARCHIVE_FULL_PATH_TOO_LONG, [])
      | Some completePath =>
          match NormalizePath completePath with
          | None => (ARCHIVE_INTERNAL_ERROR, [])
          | Some completePathNormalized =>
              match snprintf_s size completePathNormalized with
              | None => (ARCHIVE_INTERNAL_ERROR, [])
              | Some outPath => (ARCHIVE_OK, outPath)
              end
          end
      end
  end.

(** The directory a link is created in. *)
Definition GetSymlinkParentDir (entryName resolvedBaseDir : bytes) (dirSize : Z) : Z * bytes :=
  match strcpy_s ZIP_FILE_NAME_LEN_MAX entryName with
  | None => (ARCHIVE_INTERNAL_ERROR, [])
  | Some entryNameCopy =>
      match snprintf_s dirSize (resolvedBaseDir ++ [SLASH] ++ dirname entryNameCopy) with
      | None => (ARCHIVE_INTERNAL_ERROR, [])
      | Some dir => (ARCHIVE_OK, dir)
      end
  end.

(** [ValidateSymlinkTarget]; [resolvedBaseDir] is what [realpath] answered for [outDir]. *)
Definition ValidateSymlinkTarget (targetPath entryName : bytes) (resolvedBaseDir : option bytes) : Z :=
  match targetPath, resolvedBaseDir with
  | [], _ | _, None => ARCHIVE_INTERNAL_ERROR
  | c :: _, Some resolvedBaseDir =>
      let fullPath :=
        if c =? SLASH then snprintf_s PATH_MAX targetPath
        else let '(ret, symlinkParentDir) := GetSymlinkParentDir entryName resolvedBaseDir PATH_MAX in
             if negb (ret =? ARCHIVE_OK) then None
             else snprintf_s PATH_MAX (symlinkParentDir ++ [SLASH] ++ targetPath) in
      match fullPath with
      | None => ARCHIVE_INTERNAL_ERROR
      | Some fullPath =>
          match NormalizePath fullPath with
          | None => ARCHIVE_INTERNAL_ERROR
          | Some normalizedPath =>
              if negb (ValidatePathPrefix normalizedPath (Some resolvedBaseDir) =? ARCHIVE_OK)
              then ARCHIVE_SYMLINK_ERROR else ARCHIVE_OK
          end
      end
  end.

Example normalize_examples :
  map (λ s, NormalizePath (bytes_of s))
    ["../../etc/passwd"; "a/../../b"; "a/./b"; "a//b/."; "/a/.."; "/a/../b"; "a/..b/c/.."; ".";
     "/."; "./x"; "a/b/../../.."; "x/.../y"]%string
  = map (λ s, Some (bytes_of s))
    ["etc/passwd"; "b"; "a/b"; "a/b/"; "/"; "b"; "a/..b/"; "."; "/."; "x"; ""; "x/.../y"]%string.
Proof. vm_compute. reflexivity. Qed.

(** ** What [NormalizePath] computes *)

(** The parts between slashes; there is at least one. *)
Fixpoint split (s : bytes) : list bytes :=
  match s with
  | [] => [[]]
  | c :: s' =>
      if c =? SLASH then [] :: split s'
      else match split s' with h :: t => (c :: h) :: t | [] => [[c]] end
  end.

Definition dotdot : bytes := [DOT; DOT].

(** Reading the parts from left to right, the path so far as a stack. *)
Definition push (stack : list bytes) (c : bytes) : list bytes :=
  if bool_decide (c = [] ∨ c = [DOT]) then stack
  else if bool_decide (c = dotdot) then tail stack else c :: stack.
Definition walk (stack : list bytes) (s : bytes) : list bytes := fold_left push (split s) stack.

(** The names on a path, and the names after resolving dots, where [..] of the root is the root. *)
Definition components (s : bytes) : list bytes :=
  filter (λ c, c ≠ [] ∧ c ≠ [DOT]) (split s).
Definition lexical (s : bytes) : list bytes := rev (walk [] s).

Definition noslash (s : bytes) : Prop := SLASH ∉ s.
Definition good (c : bytes) : Prop := c ≠ [] ∧ c ≠ [DOT] ∧ c ≠ dotdot.

Lemma split_noslash b : noslash b → split b = [b].
Proof.
  unfold noslash. induction b as [|c b IH]; [done|]. rewrite not_elem_of_cons. intros [Hc Hb]. cbn.
  rewrite IH by done. destruct (c =? SLASH) eqn:E; zbool; congruence.
Qed.
Lemma split_ne s : split s ≠ [].
Proof. destruct s as [|c s]; cbn; [done|]. by destruct (c =? SLASH), (split s). Qed.
Lemma split_slash a b : split (a ++ SLASH :: b) = split a ++ split b.
Proof.
  induction a as [|c a IH]; [done|]. cbn. rewrite IH. destruct (c =? SLASH); [done|].
  destruct (split a) eqn:E; [by destruct (split_ne a)|done].
Qed.
Lemma split_parts s : Forall noslash (split s).
Proof.
  unfold noslash. induction s as [|c s IH]; cbn; [by repeat constructor; apply not_elem_of_nil|].
  destruct (c =? SLASH) eqn:E; zbool; [constructor; [apply not_elem_of_nil|done]|].
  destruct IH as [|h t Hh Ht]; constructor; try done; rewrite not_elem_of_cons; [|done].
  split; [done|apply not_elem_of_nil].
Qed.

Lemma walk_app stack a b : walk stack (a ++ SLASH :: b) = walk (walk stack a) b.
Proof. unfold walk. by rewrite split_slash, fold_left_app. Qed.
Lemma walk_part stack b : noslash b → walk stack b = push stack b.
Proof. intros. unfold walk. by rewrite split_noslash. Qed.
Lemma walk_nil stack : walk stack [] = stack.
Proof. done. Qed.
Lemma walk_slash stack s : walk stack (SLASH :: s) = walk stack s.
Proof. done. Qed.
Lemma walk_dot stack s : walk stack (DOT :: SLASH :: s) = walk stack s.
Proof. apply (walk_app stack [DOT]). Qed.
Lemma push_good stack c : good c → push stack c = c :: stack.
Proof.
  intros (H1 & H2 & H3). unfold push. rewrite !bool_decide_eq_false_2; [done|done|by intros [?|?]].
Qed.

Lemma push_no_dotdot stack c : Forall (.≠ dotdot) stack → Forall (.≠ dotdot) (push stack c).
Proof.
  intros H. unfold push. repeat case_bool_decide; [done| |by constructor]. by destruct H.
Qed.
Lemma walk_no_dotdot stack s : Forall (.≠ dotdot) stack → Forall (.≠ dotdot) (walk stack s).
Proof.
  unfold walk. revert stack. induction (split s) as [|c l IH]; intros stack H; [done|].
  cbn. by apply IH, push_no_dotdot.
Qed.
Lemma lexical_no_dotdot s : Forall (.≠ dotdot) (lexical s).
Proof. apply Forall_rev, walk_no_dotdot. constructor. Qed.

(** Without [..] the stack is the names. *)
Lemma walk_components stack s :
  Forall (.≠ dotdot) (split s) → walk stack s = rev (components s) ++ stack.
Proof.
  unfold walk, components. revert stack. induction (split s) as [|c l IH]; intros stack H; [done|].
  inversion_clear H as [|?? Hc Hl]. cbn [fold_left]. rewrite IH by done. rewrite filter_cons.
  unfold push. case_decide as D.
  - destruct D as [D1 D2]. rewrite !bool_decide_eq_false_2; [|done|by intros [?|?]].
    cbn [rev]. by rewrite <- app_assoc.
  - rewrite bool_decide_eq_true_2; [done|].
    destruct (decide (c = [])); [by left|]. destruct (decide (c = [DOT])); [by right|].
    by destruct D.
Qed.
Lemma lexical_components s : Forall (.≠ dotdot) (split s) → lexical s = components s.
Proof. intros. unfold lexical. rewrite walk_components, app_nil_r by done. apply rev_involutive. Qed.

(** Where the first part of a string ends. *)
Definition head_part (s : bytes) : bytes := default [] (head (split s)).
Definition more_parts (s : bytes) : Prop := SLASH ∈ s.

Lemma head_part_cons c s : c ≠ SLASH → head_part (c :: s) = c :: head_part s.
Proof.
  intros. unfold head_part. cbn. destruct (c =? SLASH) eqn:E; zbool; [done|].
  destruct (split s) eqn:Es; [by destruct (split_ne s)|done].
Qed.
Lemma head_part_slash s : head_part (SLASH :: s) = [].
Proof. done. Qed.

(** [b] is the part being copied, [src] what follows: the whole part is not [..], and is a name
    if another part follows. *)
Definition part_ok (b src : bytes) : Prop :=
  b ++ head_part src ≠ dotdot ∧ (more_parts src → good (b ++ head_part src)).

Definition lead (l : bool) : bytes := if l then [SLASH] else [].
Definition flat (cs : list bytes) : bytes := concat (map (λ c, c ++ [SLASH]) cs).

Lemma shape_nil l cs b : lead l ++ flat cs ++ b = [] → l = false ∧ cs = [] ∧ b = [].
Proof. destruct l, cs as [|[] cs], b; done. Qed.
Lemma flat_snoc cs c : flat (cs ++ [c]) = flat cs ++ c ++ [SLASH].
Proof. unfold flat. rewrite map_app, concat_app. cbn. by rewrite app_nil_r. Qed.

(** The output, [out], is made of names [cs] and the part being copied, [b]. *)
Record normalizing (p out src : bytes) (l : bool) (cs : list bytes) (b : bytes) : Prop := {
  nz_out : out = lead l ++ flat cs ++ b;
  nz_b : noslash b;
  nz_cs : Forall (λ c, good c ∧ noslash c) cs;
  nz_walk : walk (rev cs) (b ++ src) = walk [] p;
  nz_part : out = [] ∨ part_ok b src
}.

Lemma noslash_nil : noslash [].
Proof. apply not_elem_of_nil. Qed.
Lemma noslash_app a b : noslash (a ++ b) ↔ noslash a ∧ noslash b.
Proof. unfold noslash. set_solver. Qed.
Lemma noslash_cons c b : noslash (c :: b) ↔ c ≠ SLASH ∧ noslash b.
Proof. unfold noslash. set_solver. Qed.
Lemma noslash_rev b : noslash (rev b) ↔ noslash b.
Proof. unfold noslash. by rewrite <- Permutation_rev. Qed.

(** Searching back over a name [b] takes it and the slash before it away. *)
Lemma search_back_name b at_ X m :
  noslash (at_ :: b) → (X = [] ∨ head X = Some SLASH) →
  ∃ a m', search_back at_ (b ++ X) m = (a, tail X, m') ∧ m <= m' ∧ (a = SLASH ↔ X ≠ []).
Proof.
  revert at_ m. induction b as [|c b IH]; intros at_ m Hb HX; apply noslash_cons in Hb as [Ha Hb].
  - cbn [app]. destruct X as [|s r]; cbn.
    + by exists at_, m.
    + destruct HX as [?|[= ->]]; [done|]. destruct (at_ =? SLASH) eqn:E; zbool; [done|].
      exists SLASH, (m + 1). split; [by destruct r|]. split; [lia|done].
  - cbn [app search_back]. destruct (at_ =? SLASH) eqn:E; zbool; [done|].
    destruct (IH c (m + 1) Hb HX) as (a & m' & -> & ? & ?). exists a, m'. split; [done|]. split; [lia|done].
Qed.

Lemma SearchBack_name b X m :
  noslash b → b ≠ [] → (X = [] ∨ head X = Some SLASH) →
  ∃ a m', PathHandleDotDotSearchBack (rev b ++ X) m = (a, tail X, m') ∧ m <= m' ∧ (a = SLASH ↔ X ≠ []).
Proof.
  intros Hb Hne HX. destruct (rev b) as [|c r] eqn:E.
  { apply (f_equal (@rev Z)) in E. rewrite rev_involutive in E. done. }
  apply (search_back_name r c); [|done].
  rewrite <- E. by apply noslash_rev.
Qed.

Lemma rev_eq_nil {A} (l : list A) : rev l = [] → l = [].
Proof. intros E. rewrite <- (rev_involutive l). by rewrite E. Qed.

(** A dot that is not handled begins a part that is neither [..] nor, before another part, [.]. *)
Lemma NormalizePathDot_None start c check :
  NormalizePathDot start c check = None →
  head_part check ≠ dotdot ∧ (more_parts check → head_part check ≠ [DOT]).
Proof.
  assert (Hd : DOT ≠ SLASH) by done. unfold more_parts, dotdot.
  destruct check as [|d check]; [done|]. cbn [NormalizePathDot].
  destruct (d =? DOT) eqn:E1; zbool.
  2: { intros _. destruct (decide (d = SLASH)) as [->|]; [done|]. rewrite head_part_cons by done.
       split; [congruence|]. intros _. congruence. }
  subst d. destruct check as [|e check]; cbn [PathHandleDot].
  { destruct (_ && _); [done|]. intros _. split; [done|]. intros ?. set_solver. }
  destruct (e =? SLASH) eqn:E2; zbool; [done|]. rewrite !head_part_cons by done.
  destruct (e =? DOT) eqn:E3; zbool; [|intros _; split; [congruence|done]]. subst e.
  unfold PathHandleDotDot. destruct (PathHandleDotDotSearchBack _ _) as [[a tgt] m].
  destruct check as [|f check]; [done|].
  destruct (f =? SLASH) eqn:E4; zbool; [done|]. intros _. by rewrite head_part_cons.
Qed.

(** The invariant of the loop. *)
Definition norm_inv (p : bytes) (start : bool) (c : cursor) : Prop :=
  (∃ l cs b, normalizing p (rev (target c)) (source c) l cs b) ∧
  (start = true → target c = []) ∧ zlen (source c) < maxOutput c.

Lemma part_ok_copy b ch src : ch ≠ SLASH → part_ok b (ch :: src) → part_ok (b ++ [ch]) src.
Proof.
  intros Hc [H1 H2]. rewrite head_part_cons in H1, H2 by done. unfold part_ok. rewrite <- app_assoc.
  split; [done|]. intros Hm. apply H2. by right.
Qed.
Lemma part_ok_slash b src : part_ok b (SLASH :: src) → good b.
Proof. intros [_ H]. rewrite head_part_slash, app_nil_r in H. apply H. by left. Qed.
Lemma good_part_ok b src : good b → part_ok b (SLASH :: src).
Proof. intros H. unfold part_ok. rewrite head_part_slash, app_nil_r. by split; [apply H|]. Qed.
Lemma part_ok_end : part_ok [] [].
Proof. split; [done|]. intros H. by apply elem_of_nil in H. Qed.

Lemma check_part_ok start c check :
  (∀ s, check ≠ SLASH :: s) → NormalizePathDot start c check = None → part_ok [] check.
Proof.
  intros Hs Hn. apply NormalizePathDot_None in Hn as [H1 H2]. split; [done|]. intros Hm.
  split; [|split; [by apply H2|done]]. cbn. destruct check as [|ch s]; [by apply elem_of_nil in Hm|].
  destruct (decide (ch = SLASH)) as [->|]; [by destruct (Hs s)|]. by rewrite head_part_cons.
Qed.

Section step.
Context (p : bytes).

(** Copying one byte. *)
Lemma inv_copy start c ch src :
  source c = ch :: src → norm_inv p start c →
  (ch = SLASH → part_ok [] src) → (ch ≠ SLASH → target c = [] → part_ok [] (ch :: src)) →
  norm_inv p false (Cursor src (ch :: target c) (maxOutput c - 1)).
Proof.
  intros Es ((l & cs & b & [Ho Hb Hcs Hw Hp]) & _ & Hm) Hslash Hchar. rewrite Es in Hw, Hp, Hm.
  split; [|split; [done|cbn [source maxOutput]; rewrite zlen_cons in Hm; lia]].
  cbn [target source rev]. destruct (decide (ch = SLASH)) as [->|Hc].
  - destruct (decide (rev (target c) = [])) as [E|E].
    + assert (l = false ∧ cs = [] ∧ b = []) as (-> & -> & ->).
      { apply shape_nil. by rewrite <- Ho. }
      exists true, [], []. split; [by rewrite E|apply noslash_nil|done|done|]. right. by apply Hslash.
    + assert (good b) as Hg by (destruct Hp; [done|by eapply part_ok_slash]).
      exists l, (cs ++ [b]), []. split; [|apply noslash_nil| | |right; by apply Hslash].
      * rewrite Ho, flat_snoc, <- !app_assoc, app_nil_r. done.
      * apply Forall_app. split; [done|]. by constructor.
      * rewrite <- Hw, walk_app, (walk_part _ b Hb), (push_good _ b Hg). by rewrite rev_app_distr.
  - exists l, cs, (b ++ [ch]). split; [by rewrite Ho, <- !app_assoc| |done|by rewrite <- app_assoc|].
    + apply noslash_app. split; [done|]. apply noslash_cons. split; [done|]. apply noslash_nil.
    + right. destruct Hp as [E|Hp]; [|by apply part_ok_copy].
      rewrite E in Ho. symmetry in Ho. apply shape_nil in Ho as (_ & _ & ->).
      apply (part_ok_copy []); [done|]. apply Hchar; [done|].
      by apply rev_eq_nil.
Qed.

(** A part begins at [check]: nothing was written, or [source] is at the slash before it. *)
Definition part_begins (c : cursor) (check : bytes) : Prop :=
  source c = SLASH :: check ∨ (target c = [] ∧ source c = check).

(** The output is empty, or made of names. *)
Definition names_out (target : bytes) (stack : list bytes) : Prop :=
  (target = [] ∧ stack = []) ∨
  ∃ l cs b, rev target = lead l ++ flat cs ++ b ∧ good b ∧ noslash b
    ∧ Forall (λ c, good c ∧ noslash c) cs ∧ stack = b :: rev cs.

Lemma part_begins_out start c check :
  norm_inv p start c → part_begins c check →
  ∃ stack, names_out (target c) stack ∧ walk stack check = walk [] p.
Proof.
  intros ((l & cs & b & [Ho Hb Hcs Hw Hp]) & _ & _) Hc.
  destruct (decide (target c = [])) as [E|E].
  - rewrite E in Ho. symmetry in Ho. apply shape_nil in Ho as (-> & -> & ->).
    exists []. split; [by left|]. destruct Hc as [Hc|[_ Hc]]; rewrite Hc in Hw; [by rewrite <- walk_slash|done].
  - destruct Hc as [Hc|[? _]]; [|done]. rewrite Hc in Hw, Hp.
    assert (good b) as Hg.
    { destruct Hp as [Hp|Hp]; [by apply rev_eq_nil in Hp|by eapply part_ok_slash]. }
    exists (b :: rev cs). split; [right; by exists l, cs, b|].
    by rewrite <- Hw, walk_app, (walk_part _ b Hb), (push_good _ b Hg).
Qed.

(** After a part that was dropped, with [r] behind the next slash. *)
Lemma inv_dropped tgt stack r m :
  names_out tgt stack → walk stack r = walk [] p → zlen r + 1 < m →
  norm_inv p false (Cursor (if bool_decide (tgt = []) then r else SLASH :: r) tgt m).
Proof.
  intros Hn Hw Hm. split; [|split; [done|]].
  - cbn [target source]. destruct Hn as [[-> ->]|(l & cs & b & Ho & Hg & Hb & Hcs & ->)].
    + exists false, [], []. cbn. split; [done|apply noslash_nil|done|done|by left].
    + rewrite bool_decide_eq_false_2.
      2: { intros ->. symmetry in Ho. apply shape_nil in Ho as (_ & _ & ->). by destruct Hg. }
      exists l, cs, b. split; [done|done|done| |right; by apply good_part_ok].
      by rewrite walk_app, (walk_part _ b Hb), (push_good _ b Hg).
  - cbn [source maxOutput]. case_bool_decide; [|rewrite zlen_cons]; lia.
Qed.

(** At the end, behind the slash of the last name. *)
Lemma inv_closed tgt l cs m :
  rev tgt = lead l ++ flat cs → Forall (λ c, good c ∧ noslash c) cs → rev cs = walk [] p → 0 < m →
  norm_inv p false (Cursor [] tgt m).
Proof.
  intros Ho Hcs Hw Hm. split; [|split; [done|by cbn]].
  exists l, cs, []. split; [by rewrite app_nil_r|apply noslash_nil|done|done|right; apply part_ok_end].
Qed.

Lemma inv_dot start c check1 c' :
  norm_inv p start c → part_begins c (DOT :: check1) → (start = true → target c = []) →
  PathHandleDot start c check1 = Some c' →
  norm_inv p false c' ∧ (length (source c') < length (source c))%nat.
Proof.
  intros Hi Hc Hst Hd. destruct (part_begins_out _ _ _ Hi Hc) as (stack & Hn & Hw).
  pose proof Hi as (_ & _ & Hm). assert (1 + zlen check1 < maxOutput c) as Hm'.
  { destruct Hc as [Hc|[_ Hc]]; rewrite Hc, ?zlen_cons in Hm; lia. }
  assert (length check1 < length (source c))%nat as Hl by (destruct Hc as [->|[_ ->]]; cbn; lia).
  destruct check1 as [|d r]; cbn [PathHandleDot] in Hd.
  - destruct (negb start && negb (bool_decide (target c = []))) eqn:E; [|done]. simplify_eq.
    apply andb_prop in E as [_ E]. apply negb_true_iff, bool_decide_eq_false in E.
    destruct Hc as [Hc|[? _]]; [|done]. rewrite Hc in Hm, Hl |- *. cbn [head default source].
    split; [|cbn; lia]. destruct Hn as [[]|(l & cs & b & Ho & Hg & Hb & Hcs & ->)]; [done|].
    eapply (inv_closed _ l (cs ++ [b])).
    + cbn [rev]. by rewrite Ho, flat_snoc, <- !app_assoc.
    + apply Forall_app. split; [done|]. by constructor.
    + rewrite rev_app_distr. exact Hw.
    + rewrite !zlen_cons in Hm. change (zlen (@nil Z)) with 0 in Hm. lia.
  - destruct (d =? SLASH) eqn:E; zbool; [|done]. simplify_eq. rewrite walk_dot in Hw.
    split; [eapply inv_dropped; [done|done|rewrite zlen_cons in Hm'; lia]|].
    cbn [source]. cbn in Hl. case_bool_decide; cbn; lia.
Qed.

Lemma walk_dotdot stack : walk stack dotdot = tail stack.
Proof. rewrite walk_part; [done|]. unfold dotdot. rewrite !noslash_cons. split; [done|]. split; [done|]. apply noslash_nil. Qed.

(** What the search back from two dots leaves, with [r] behind them: the last name is gone,
    and when the path ends there the slash before it closes the one that was before. *)
Lemma search_back_out tgt0 stack max a tgt m r :
  names_out tgt0 stack → PathHandleDotDotSearchBack tgt0 max = (a, tgt, m) →
  walk (tail stack) r = walk [] p →
  ∃ stack', names_out tgt stack' ∧ walk stack' r = walk [] p ∧ max <= m ∧
    (tgt ≠ [] → a = SLASH) ∧ (a = SLASH → r = [] → ∃ l cs, rev tgt ++ [SLASH] = lead l ++ flat cs ∧
       Forall (λ c, good c ∧ noslash c) cs ∧ rev cs = walk [] p).
Proof.
  intros Hn Es Hr.
  destruct Hn as [[En ->]|(l & cs & b & Ho & Hg & Hb & Hcs & ->)].
  - rewrite En in Es. cbn in Es. simplify_eq. exists []. split; [by left|]. split; [done|]. split; [lia|done].
  - assert (tgt0 = rev b ++ rev (lead l ++ flat cs)) as Et.
    { rewrite <- rev_app_distr, <- app_assoc, <- Ho. by rewrite rev_involutive. }
    destruct (SearchBack_name b (rev (lead l ++ flat cs)) max) as (a' & m' & Es' & Hmm & Ha).
    { done. } { apply Hg. }
    { destruct cs as [|c0 cs _] using rev_ind; [destruct l; [by right|by left]|].
      right. by rewrite flat_snoc, !app_assoc, rev_app_distr. }
    rewrite <- Et, Es in Es'. simplify_eq. cbn [tail] in Hr. exists (rev cs).
    destruct cs as [|c0 cs _] using rev_ind.
    + assert (tail (rev (lead l ++ flat [])) = []) as -> by by destruct l.
      split; [by left|]. split; [done|]. split; [done|]. split; [done|].
      intros Ha' Hr0. exists true, [].
      split; [done|]. split; [done|]. by rewrite <- Hr, Hr0.
    + rewrite flat_snoc, !app_assoc, rev_app_distr in *. cbn [rev app tail] in *.
      apply Forall_app in Hcs as [Hcs Hc0]. apply Forall_singleton in Hc0 as [Hg0 Hb0].
      rewrite rev_app_distr in *. cbn [rev app] in *.
      rewrite (rev_app_distr cs [c0]). cbn [rev app].
      assert (rev (rev c0 ++ rev (lead l ++ flat cs)) = lead l ++ flat cs ++ c0) as Erev
        by by rewrite rev_app_distr, !rev_involutive, <- app_assoc.
      split; [right; by exists l, cs, c0|].
      split; [done|]. split; [done|]. split; [intros _; by apply Ha|].
      intros _ Hr0. exists l, (cs ++ [c0]).
      split; [by rewrite Erev, flat_snoc, <- !app_assoc|].
      split; [apply Forall_app; split; [done|by constructor]|].
      rewrite rev_app_distr. cbn. by rewrite <- Hr, Hr0.
Qed.

Lemma inv_dotdot start c check2 c' :
  norm_inv p start c → part_begins c (DOT :: DOT :: check2) →
  PathHandleDotDot c check2 = Some c' →
  norm_inv p false c' ∧ (length (source c') < length (source c))%nat.
Proof.
  intros Hi Hc Hd. destruct (part_begins_out _ _ _ Hi Hc) as (stack & Hn & Hw).
  pose proof Hi as (_ & _ & Hm). assert (2 + zlen check2 < maxOutput c + 0) as Hm'.
  { destruct Hc as [Hc|[_ Hc]]; rewrite Hc, ?zlen_cons in Hm; lia. }
  assert (length check2 < length (source c))%nat as Hl by (destruct Hc as [->|[_ ->]]; cbn; lia).
  unfold PathHandleDotDot in Hd.
  destruct (match check2 with [] => true | d :: _ => d =? SLASH end) eqn:Ec; [|done].
  set (r := tail check2). assert (walk (tail stack) r = walk [] p) as Hr.
  { rewrite <- Hw. destruct check2 as [|d check2].
    - rewrite walk_nil. symmetry. apply walk_dotdot.
    - zbool. subst d. change (DOT :: DOT :: SLASH :: check2) with (dotdot ++ SLASH :: check2).
      by rewrite walk_app, walk_dotdot. }
  assert (zlen r <= zlen check2) as Hzr by (destruct check2; rewrite ?zlen_cons; cbn; lia).
  assert ((check2 = [] ∧ r = []) ∨ check2 = SLASH :: r) as Hr2.
  { destruct check2; [by left|]. zbool. subst. by right. }
  clearbody r.
  destruct (PathHandleDotDotSearchBack (target c) (maxOutput c)) as [[a tgt] m] eqn:Es.
  destruct (search_back_out _ _ _ _ _ _ _ Hn Es Hr) as (stack' & Hn' & Hw' & Hmm & Ht & Hcl).
  destruct ((a =? SLASH) && bool_decide ((match check2 with
               | _ :: rest => if bool_decide (tgt = []) then rest else check2
               | [] => []
               end) = [])) eqn:Ea.
  - apply andb_prop in Ea as [Ea1 Ea2]. zbool. apply bool_decide_eq_true in Ea2. simplify_eq.
    rewrite Ea2. split; [|cbn; lia].
    assert (r = []) as Hr0 by (destruct Hr2 as [[_ ->]|Hr2]; [done|]; rewrite Hr2 in Ea2; by case_bool_decide).
    destruct (Hcl eq_refl Hr0) as (l & cs & Hl1 & Hl2 & Hl3).
    apply (inv_closed _ l cs); [done|done|done|]. pose proof (zlen_nonneg check2). lia.
  - simplify_eq. cbn [source]. destruct Hr2 as [[E E0]|E]; rewrite E in *.
    + split; [|cbn; lia].
      destruct (decide (tgt = [])) as [Et|Et]; [|by rewrite Ht in Ea].
      pose proof (inv_dropped tgt stack' [] m Hn' ltac:(congruence)) as Hd.
      rewrite bool_decide_eq_true_2 in Hd by done. apply Hd. cbn in *. lia.
    + split; [|clear Ea; destruct (bool_decide (tgt = [])); cbn in *; lia].
      eapply inv_dropped; [done|done|]. rewrite zlen_cons in Hm'. lia.
Qed.

Lemma NormalizeStep_inv start c :
  source c ≠ [] → norm_inv p start c →
  norm_inv p false (NormalizeStep start c)
  ∧ (length (source (NormalizeStep start c)) < length (source c))%nat.
Proof.
  intros Hne Hi. unfold NormalizeStep. destruct (source c) as [|ch src] eqn:Es; [done|].
  pose proof Hi as ((l & cs & b & Hz) & Hst & Hm).
  set (check := if ch =? SLASH then src else ch :: src).
  destruct (start || bool_decide (target c = []) || (ch =? SLASH)) eqn:Eg.
  2: { apply orb_false_elim in Eg as [Eg Ec]. apply orb_false_elim in Eg as [_ Et]. zbool.
       apply bool_decide_eq_false in Et. split; [|cbn; lia].
       by eapply inv_copy. }
  assert (part_begins c check) as Hc.
  { unfold check, part_begins. rewrite Es. destruct (ch =? SLASH) eqn:E; zbool; subst; [by left|].
    right. split; [|done]. rewrite orb_false_r in Eg. apply orb_prop in Eg as [Eg|Eg]; [by apply Hst|].
    by apply bool_decide_eq_true in Eg. }
  destruct (match check with d :: _ => d =? SLASH | [] => false end) eqn:Ed.
  - assert (ch = SLASH ∧ ∃ r, src = SLASH :: r) as (-> & r & ->).
    { unfold check in Ed. destruct (ch =? SLASH) eqn:E; zbool; [|done]. split; [done|].
      destruct src as [|d r]; [done|]. zbool. subst. by exists r. }
    split; [|cbn; lia]. destruct Hz as [Ho Hb Hcs Hw Hp]. rewrite Es in *.
    split; [|split; [done|cbn [source maxOutput]; rewrite zlen_cons in Hm; lia]].
    exists l, cs, b. split; [done|done|done| |].
    + cbn [source]. rewrite <- Hw, !walk_app. by rewrite walk_slash.
    + destruct Hp as [Hp|Hp]; [by left|right]. by apply good_part_ok, (part_ok_slash _ (SLASH :: r)).
  - destruct (NormalizePathDot start c check) as [c'|] eqn:En.
    + rewrite <- Es. unfold NormalizePathDot in En. destruct check as [|d check1]; [done|].
      destruct (d =? DOT) eqn:E; zbool; [|done]. subst d.
      destruct (PathHandleDot start c check1) as [c1|] eqn:E1.
      { simplify_eq. eapply inv_dot; [done|done|done|done]. }
      destruct check1 as [|d check2]; [done|]. destruct (d =? DOT) eqn:E2; zbool; [|done]. subst d.
      by eapply inv_dotdot.
    + split; [|cbn; lia].
      assert (part_ok [] check) as Hok.
      { eapply check_part_ok; [|done]. intros s Hs. by rewrite Hs in Ed. }
      eapply inv_copy; [done|done| |].
      * intros ->. exact Hok.
      * intros Hch _. unfold check in Hok. apply Z.eqb_neq in Hch. by rewrite Hch in Hok.
Qed.

Lemma Normalize_loop_inv fuel start c :
  (length (source c) < fuel)%nat → norm_inv p start c →
  (∃ start', norm_inv p start' (Normalize_loop fuel start c))
  ∧ source (Normalize_loop fuel start c) = [].
Proof.
  revert start c. induction fuel as [|fuel IH]; intros start c Hf Hi; [lia|]. cbn.
  destruct (decide (source c = [])) as [E|E].
  - rewrite bool_decide_eq_true_2 by done. cbn. split; [by exists start|done].
  - rewrite bool_decide_eq_false_2 by done. cbn. pose proof Hi as (_ & _ & Hm).
    assert (0 < zlen (source c)) by (unfold zlen; destruct (source c); cbn; [done|lia]).
    assert ((maxOutput c >? 1) = true) as -> by lia. cbn.
    destruct (NormalizeStep_inv start c E Hi) as [Hi' Hl]. apply IH; [lia|done].
Qed.
End step.

Lemma split_shape l cs b :
  Forall (λ c, good c ∧ noslash c) cs → noslash b →
  split (lead l ++ flat cs ++ b) = (if l then [[]] else []) ++ cs ++ [b].
Proof.
  intros Hcs Hb. assert (split (flat cs ++ b) = cs ++ [b]) as E.
  { induction Hcs as [|c cs [_ Hc] _ IH]; cbn; [by apply split_noslash|].
    unfold flat in *. rewrite <- !app_assoc. cbn. rewrite split_slash, IH.
    by rewrite split_noslash. }
  destruct l; cbn [lead app]; [|done]. cbn [split]. by rewrite Z.eqb_refl, E.
Qed.

(** The normalised path is made of names, and one last part that is not [..]. *)
Lemma NormalizePath_shape p q :
  NormalizePath p = Some q →
  ∃ l cs b, q = lead l ++ flat cs ++ b ∧ Forall (λ c, good c ∧ noslash c) cs ∧ noslash b
    ∧ b ≠ dotdot ∧ push (rev cs) b = walk [] p.
Proof.
  unfold NormalizePath. intros H. destruct (decide (p = [])) as [->|Hne]; [done|].
  destruct (Normalize_loop_inv p (S (length p)) true (Cursor p [] (zlen p + 1))) as [Hi Hs].
  { cbn. lia. }
  { split; [|split; [done|cbn; lia]]. exists false, [], [].
    split; [done|apply noslash_nil|done|done|by left]. }
  set (c := Normalize_loop _ _ _) in *. assert (q = rev (target c)) as -> by (by destruct p; simplify_eq).
  destruct Hi as (st & (l & cs & b & [Ho Hb Hcs Hw Hp]) & _). rewrite Hs in *.
  exists l, cs, b. split; [done|]. split; [done|]. split; [done|].
  rewrite app_nil_r, walk_part in Hw by done. split; [|done].
  destruct Hp as [Hp|[Hp _]]; [|by rewrite app_nil_r in Hp]. rewrite Ho in Hp.
  by apply shape_nil in Hp as (_ & _ & ->).
Qed.

Lemma shape_no_dotdot l cs b :
  Forall (λ c, good c ∧ noslash c) cs → noslash b → b ≠ dotdot →
  Forall (.≠ dotdot) (split (lead l ++ flat cs ++ b)).
Proof.
  intros Hcs Hb Hbd. rewrite split_shape by done. apply Forall_app. split; [by destruct l; repeat constructor|].
  apply Forall_app. split; [|by repeat constructor]. eapply Forall_impl; [exact Hcs|].
  by intros x [(_ & _ & ?) _].
Qed.
Lemma shape_walk l cs b :
  Forall (λ c, good c ∧ noslash c) cs → noslash b → walk [] (lead l ++ flat cs ++ b) = push (rev cs) b.
Proof.
  intros Hcs Hb. unfold walk. rewrite split_shape, fold_left_app by done.
  assert (fold_left push (if l then [[]] else []) [] = []) as -> by by destruct l.
  rewrite fold_left_app. cbn. f_equal. clear -Hcs. rewrite <- (app_nil_r (rev cs)). generalize (@nil bytes).
  induction Hcs as [|c cs [Hc _] _ IH]; intros s; [done|]. cbn. rewrite push_good by done.
  by rewrite IH, <- app_assoc.
Qed.

(** The names on the normalised path are those of the path with dots resolved. *)
Lemma NormalizePath_spec p q :
  NormalizePath p = Some q → components q = lexical p ∧ Forall (.≠ dotdot) (split q).
Proof.
  intros (l & cs & b & -> & Hcs & Hb & Hbd & Hw)%NormalizePath_shape.
  pose proof (shape_no_dotdot l cs b Hcs Hb Hbd) as Hn. split; [|done].
  rewrite <- lexical_components by done. unfold lexical. by rewrite shape_walk, Hw.
Qed.

Lemma components_app a b : components (a ++ SLASH :: b) = components a ++ components b.
Proof. unfold components. by rewrite split_slash, filter_app. Qed.

(** ** Absolute paths stay absolute *)

Definition absolute (s : bytes) : Prop := head s = Some SLASH.

Lemma tail_split_cons ch src :
  tail (split (ch :: src)) = if ch =? SLASH then split src else tail (split src).
Proof. cbn. destruct (ch =? SLASH); [done|]. by destruct (split src). Qed.
Lemma Forall_tail {A} (P : A → Prop) l : Forall P l → Forall P (tail l).
Proof. by destruct 1. Qed.

Lemma absolute_grow x tgt : absolute (rev tgt) → absolute (rev (x :: tgt)).
Proof. unfold absolute. cbn. by destruct (rev tgt). Qed.

(** Once the slash is written and no [..] follows, it stays. *)
Lemma NormalizeStep_absolute c :
  absolute (rev (target c)) → Forall (.≠ dotdot) (tail (split (source c))) →
  absolute (rev (target (NormalizeStep false c)))
  ∧ Forall (.≠ dotdot) (tail (split (source (NormalizeStep false c)))).
Proof.
  intros Ha Hd. assert (bool_decide (target c = []) = false) as Ht.
  { apply bool_decide_eq_false. intros E. by rewrite E in Ha. }
  unfold NormalizeStep. destruct (source c) as [|ch src] eqn:Esrc; [by rewrite Esrc|].
  rewrite tail_split_cons in Hd. rewrite Ht. cbn [orb].
  destruct (ch =? SLASH) eqn:Ec; [|by split; [apply absolute_grow|]].
  destruct src as [|d check1]; [by split; [apply absolute_grow|]|].
  destruct (d =? SLASH) eqn:Ed; [by split; [|apply Forall_tail]|].
  assert (absolute (rev (ch :: target c)) ∧ Forall (.≠ dotdot) (tail (split (d :: check1)))) as Hcopy
    by by split; [apply absolute_grow|apply Forall_tail].
  cbn [NormalizePathDot]. destruct (d =? DOT) eqn:Edot; [|done]. zbool. subst d.
  destruct check1 as [|e check2]; cbn [PathHandleDot]; rewrite Ht.
  { cbn. by split; [apply absolute_grow|]. }
  destruct (e =? SLASH) eqn:Ee; zbool.
  { subst e. split; [done|]. cbn [source]. by apply Forall_tail in Hd. }
  destruct (e =? DOT) eqn:Ee2; zbool; [|done]. subst e.
  destruct check2 as [|f r]; [by apply Forall_cons in Hd as [[] _]|].
  unfold PathHandleDotDot. destruct (f =? SLASH) eqn:Ef; [|done].
  cbn in Hd. rewrite Ef in Hd. by apply Forall_cons in Hd as [[] _].
Qed.

Lemma NormalizePathDot_first start check m src :
  part_ok [] check → NormalizePathDot start (Cursor src [] m) check = None.
Proof.
  intros [H1 H2]. cbn [app] in *. destruct check as [|d check1]; [done|]. cbn [NormalizePathDot].
  destruct (d =? DOT) eqn:E; zbool; [|done]. subst d. rewrite head_part_cons in H1, H2 by done.
  destruct check1 as [|e check2]; cbn [PathHandleDot]; [by rewrite andb_false_r|].
  destruct (e =? SLASH) eqn:E; zbool.
  { subst e. rewrite head_part_slash in H2. destruct H2 as (_ & H2 & _); [|done]. right. by left. }
  destruct (e =? DOT) eqn:E2; zbool; [|done]. subst e. rewrite head_part_cons in H1 by done.
  unfold PathHandleDotDot. destruct check2 as [|f r]; [done|].
  destruct (f =? SLASH) eqn:E3; zbool; [|done]. subst f. by rewrite head_part_slash in H1.
Qed.

Lemma Normalize_loop_absolute fuel c :
  absolute (rev (target c)) → Forall (.≠ dotdot) (tail (split (source c))) →
  absolute (rev (target (Normalize_loop fuel false c))).
Proof.
  revert c. induction fuel as [|fuel IH]; intros c Ha Hd; [done|]. cbn.
  destruct (_ || _); [done|]. destruct (NormalizeStep_absolute c Ha Hd). by apply IH.
Qed.

(** Slashes at the start are skipped but for the last, which is copied when a name follows. *)
Lemma Normalize_loop_start k rest fuel start m :
  part_ok [] rest → (k < fuel)%nat → (∀ s, rest ≠ SLASH :: s) → Z.of_nat k + 1 < m →
  Forall (.≠ dotdot) (split rest) →
  absolute (rev (target (Normalize_loop fuel start (Cursor (replicate k SLASH ++ SLASH :: rest) [] m)))).
Proof.
  revert fuel start. induction k as [|k IH]; intros fuel start Hok Hf Hs Hm Hd;
    (destruct fuel as [|fuel]; [lia|]); cbn [Normalize_loop replicate app source target maxOutput];
    rewrite bool_decide_eq_false_2 by done;
    assert ((m >? 1) = true) as -> by lia; cbn [orb negb].
  - replace (NormalizeStep start (Cursor (SLASH :: rest) [] m)) with (Cursor rest [SLASH] (m - 1)).
    { apply Normalize_loop_absolute; [done|]. by apply Forall_tail. }
    unfold NormalizeStep. cbn [source target maxOutput]. rewrite Z.eqb_refl, orb_true_r.
    rewrite NormalizePathDot_first by done. destruct rest as [|d rest]; [done|].
    destruct (d =? SLASH) eqn:E; zbool; [|done]. subst. by destruct (Hs rest).
  - replace (NormalizeStep start (Cursor (SLASH :: replicate k SLASH ++ SLASH :: rest) [] m))
      with (Cursor (replicate k SLASH ++ SLASH :: rest) [] m).
    { apply IH; [done|lia|done|lia|done]. }
    unfold NormalizeStep. cbn [source target]. rewrite Z.eqb_refl, orb_true_r. by destruct k.
Qed.


(** What [realpath] answers: the root, or names that are neither dots nor empty. *)
Definition canonical (d : bytes) : Prop :=
  d = [SLASH] ∨ ∃ cs b, d = SLASH :: flat cs ++ b ∧ Forall (λ c, good c ∧ noslash c) cs
    ∧ good b ∧ noslash b.

Lemma head_part_noslash b t : noslash b → head_part (b ++ SLASH :: t) = b.
Proof. intros Hb. unfold head_part. by rewrite split_slash, split_noslash. Qed.

Lemma noslash_start b t s : noslash b → b ≠ [] → b ++ t ≠ SLASH :: s.
Proof.
  intros Hb Hne E. destruct b as [|c b]; [done|]. apply noslash_cons in Hb as [Hc _]. by simplify_eq/=.
Qed.

(** Names and a last part, as what follows a slash. *)
Lemma names_start cs b t :
  Forall (λ c, good c ∧ noslash c) cs → noslash b → b ≠ dotdot →
  (t = [] ∨ (head t = Some SLASH ∧ good b)) →
  part_ok [] (flat cs ++ b ++ t) ∧ ∀ s, flat cs ++ b ++ t ≠ SLASH :: s.
Proof.
  intros Hcs Hb Hbd Ht. destruct Hcs as [|c cs [Hc Hcn] _].
  - cbn. destruct Ht as [->|[Ht Hg]].
    + rewrite app_nil_r. split.
      * unfold part_ok, head_part. rewrite split_noslash by done. split; [done|]. by intros ?%Hb.
      * intros s ->. apply noslash_cons in Hb as [Hb _]. done.
    + destruct t as [|s0 t]; [done|]. cbn in Ht. simplify_eq. split; [|intros s; apply noslash_start; [done|apply Hg]].
      unfold part_ok. cbn [app]. rewrite head_part_noslash by done. split; [apply Hg|done].
  - unfold flat. cbn. rewrite <- !app_assoc. cbn. split; [|intros s; apply noslash_start; [done|apply Hc]].
    unfold part_ok. cbn [app]. rewrite head_part_noslash by done. split; [apply Hc|done].
Qed.

Lemma canonical_no_dotdot d : canonical d → Forall (.≠ dotdot) (split d).
Proof.
  intros [->|(cs & b & -> & Hcs & Hg & Hb)]; [by repeat constructor|].
  apply (shape_no_dotdot true); [done|done|apply Hg].
Qed.

Lemma complete_path_start d n q :
  canonical d → NormalizePath n = Some q →
  ∃ k rest, d ++ SLASH :: q = replicate k SLASH ++ SLASH :: rest ∧ part_ok [] rest
    ∧ (∀ s, rest ≠ SLASH :: s) ∧ Forall (.≠ dotdot) (split rest).
Proof.
  intros Hd Hn. pose proof (NormalizePath_spec _ _ Hn) as [_ Hq].
  apply NormalizePath_shape in Hn as (l & cs' & b' & -> & Hcs' & Hb' & Hbd' & _).
  destruct Hd as [->|(cs & b & -> & Hcs & Hg & Hb)].
  - destruct (names_start cs' b' []) as [H1 H2]; [done..|by left|]. rewrite app_nil_r in *.
    exists (if l then 2 else 1)%nat, (flat cs' ++ b'). split; [by destruct l|]. split; [done|].
    split; [done|]. by apply (shape_no_dotdot false).
  - destruct (names_start cs b (SLASH :: lead l ++ flat cs' ++ b')) as [H1 H2]; [done|done|apply Hg|by right|].
    exists 0%nat, (flat cs ++ b ++ SLASH :: lead l ++ flat cs' ++ b').
    split; [cbn; by rewrite <- app_assoc|]. split; [done|]. split; [done|].
    rewrite app_assoc, split_slash. apply Forall_app. split; [|done].
    apply (shape_no_dotdot false); [done|done|apply Hg].
Qed.

Lemma NormalizePath_absolute d n q o :
  canonical d → NormalizePath n = Some q → NormalizePath (d ++ SLASH :: q) = Some o → absolute o.
Proof.
  intros Hd Hn Ho. destruct (complete_path_start d n q Hd Hn) as (k & rest & E & H1 & H2 & H3).
  unfold NormalizePath in Ho. rewrite E in Ho.
  assert (o = rev (target (Normalize_loop (S (length (replicate k SLASH ++ SLASH :: rest))) true
    (Cursor (replicate k SLASH ++ SLASH :: rest) [] (zlen (replicate k SLASH ++ SLASH :: rest) + 1))))) as ->
    by by destruct k; simplify_eq/=.
  apply Normalize_loop_start; [done| |done| |done].
  - rewrite length_app, length_replicate. lia.
  - rewrite zlen_app, zlen_replicate, zlen_cons. pose proof (zlen_nonneg rest). lia.
Qed.

(** ** Normalising does not lengthen *)

Lemma search_back_length a tgt m :
  (length ((search_back a tgt m).1.2) <= length tgt)%nat.
Proof.
  revert a m. induction tgt as [|c tgt IH]; intros a m; cbn; [done|].
  destruct (a =? SLASH); cbn; [lia|]. specialize (IH c (m + 1)). lia.
Qed.

Lemma NormalizeStep_length start c :
  (length (source (NormalizeStep start c)) + length (target (NormalizeStep start c))
   <= length (source c) + length (target c))%nat.
Proof.
  unfold NormalizeStep. destruct (source c) as [|ch src] eqn:Es; [by rewrite Es|].
  destruct (start || _ || _); [|cbn; lia].
  destruct (match _ with d :: _ => d =? SLASH | [] => false end); [cbn; lia|].
  set (check := if ch =? SLASH then src else ch :: src).
  assert (length check <= S (length src))%nat as Hc by (subst check; destruct (ch =? SLASH); cbn; lia).
  destruct (NormalizePathDot start c check) as [c'|] eqn:En; [|cbn; lia].
  unfold NormalizePathDot in En. destruct check as [|d check1]; [done|]. destruct (d =? DOT); [|done].
  destruct (PathHandleDot start c check1) as [c1|] eqn:E1.
  - simplify_eq. destruct check1 as [|e r]; cbn in E1.
    + destruct (_ && _); simplify_eq. cbn. lia.
    + destruct (e =? SLASH); simplify_eq. cbn in *. destruct (bool_decide _); cbn; lia.
  - destruct check1 as [|e check2]; [done|]. destruct (e =? DOT); [|done].
    unfold PathHandleDotDot in En. destruct (match check2 with [] => true | f :: _ => f =? SLASH end); [|done].
    destruct (PathHandleDotDotSearchBack (target c) (maxOutput c)) as [[a tgt] m] eqn:Eb.
    assert (length tgt <= length (target c))%nat as Ht.
    { unfold PathHandleDotDotSearchBack in Eb. destruct (target c) as [|x t]; [by simplify_eq|].
      pose proof (search_back_length x t (maxOutput c)). rewrite Eb in *. cbn in *. lia. }
    simplify_eq. cbn [source target]. cbn in Hc.
    destruct check2 as [|f r]; [|destruct (bool_decide (tgt = []))]; destruct (_ && _); cbn in *; lia.
Qed.

Lemma NormalizePath_length p q : NormalizePath p = Some q → zlen q <= zlen p.
Proof.
  unfold NormalizePath. intros H.
  assert (∀ fuel start c, (length (target (Normalize_loop fuel start c))
    <= length (source c) + length (target c))%nat) as Hl.
  { induction fuel as [|fuel IH]; intros start c; cbn; [lia|]. destruct (_ || _); [lia|].
    specialize (IH false (NormalizeStep start c)). pose proof (NormalizeStep_length start c). lia. }
  specialize (Hl (S (length p)) true (Cursor p [] (zlen p + 1))). cbn [source target] in Hl.
  set (c := Normalize_loop _ _ _) in *. assert (q = rev (target c)) as -> by (by destruct p; simplify_eq).
  clearbody c. unfold zlen. rewrite length_rev. change (length (@nil Z)) with 0%nat in Hl. lia.
Qed.

(** The path of an entry, in the two steps it is made. *)
Lemma GetOutputFilePath_path fileName outDir size o :
  canonical outDir → GetOutputFilePath fileName outDir size = (ARCHIVE_OK, o) →
  absolute o ∧ Forall (.≠ dotdot) (split o) ∧ components o = components outDir ++ lexical fileName
  ∧ ∃ p, NormalizePath p = Some o.
Proof.
  intros Hd H. unfold GetOutputFilePath, snprintf_s in H. destruct (NormalizePath fileName) as [n|] eqn:En; [|done].
  destruct (zlen _ <? _); [|done].
  destruct (NormalizePath (outDir ++ [SLASH] ++ n)) as [q|] eqn:Eq; [|done].
  destruct (zlen q <? size); simplify_eq. cbn [app] in Eq.
  pose proof (NormalizePath_spec _ _ En) as [Hn Hnd]. pose proof (NormalizePath_spec _ _ Eq) as [Hq Hqd].
  split; [exact (NormalizePath_absolute _ _ _ _ Hd En Eq)|]. split; [done|]. split; [|eauto].
  rewrite Hq, lexical_components, components_app, Hn; [done|].
  rewrite split_slash. apply Forall_app. split; [by apply canonical_no_dotdot|done].
Qed.

(** C4: An entry of an archive is extracted below the output directory, whatever its
    name: for an output directory as [realpath] returns it, every path that
    [GetOutputFilePath] answers is absolute, has no part [..], and its names are
    those of the directory followed by those of the entry with dots resolved, where
    the root's parent is the root; and it answers one for every name that is not
    empty and not too long. *)
Theorem output_path_confined (fileName outDir : bytes) (size : Z) :
  canonical outDir →
  (∀ outPath, GetOutputFilePath fileName outDir size = (ARCHIVE_OK, outPath) →
     absolute outPath ∧ Forall (.≠ dotdot) (split outPath)
     ∧ components outPath = components outDir ++ lexical fileName) ∧
  (fileName ≠ [] → zlen outDir + 1 + zlen fileName < size → size <= ZIP_FILE_NAME_LEN_MAX →
     (GetOutputFilePath fileName outDir size).1 = ARCHIVE_OK).
Proof.
  intros Hd. split.
  - intros o H. by destruct (GetOutputFilePath_path _ _ _ _ Hd H) as (? & ? & ? & _).
  - intros Hne Hlen Hsz. unfold GetOutputFilePath, snprintf_s. destruct (NormalizePath fileName) as [n|] eqn:En; [|by destruct fileName].
    pose proof (NormalizePath_length _ _ En). rewrite !zlen_app, zlen_cons, zlen_nil.
    rewrite (proj2 (Z.ltb_lt _ _)) by lia.
    destruct (NormalizePath (outDir ++ [SLASH] ++ n)) as [q|] eqn:Eq; [|by destruct outDir].
    pose proof (NormalizePath_length _ _ Eq) as Hl. rewrite !zlen_app, zlen_cons, zlen_nil in Hl.
    by rewrite (proj2 (Z.ltb_lt _ _)) by lia.
Qed.
Lemma output_path_confined_witness :
  canonical (bytes_of "/data/out") ∧
  components (GetOutputFilePath (bytes_of "../../etc/passwd") (bytes_of "/data/out") 4096).2
  = components (bytes_of "/data/out") ++ lexical (bytes_of "../../etc/passwd").
Proof.
  assert (canonical (bytes_of "/data/out")) as Hc.
  { right. exists [bytes_of "data"], (bytes_of "out"). split; [done|].
    split; [repeat constructor; try done; by apply (bool_decide_unpack _)|].
    split; [done|by apply (bool_decide_unpack _)]. }
  split; [done|].
  by apply (output_path_confined (bytes_of "../../etc/passwd") (bytes_of "/data/out") 4096 Hc).
Defined.
