(* ===== verification/ArchiveFs.v ===== *)
(** * The file system and stdio under the archive code

    Files, directories and symbolic links as a finite map from absolute paths, as
    lists of names, to nodes.  A string is resolved part by part the way the kernel
    does it, following links ([namei]).  The C library calls of the archive code
    are given by their documented behaviour; an environment decides which call
    fails, with which error, and how much a failing transfer moved.  A [FILE] is
    written through: it has a position and an error flag and no buffer. *)

From S2P Require Import Prelude Bytes ArchivePath.

(** ** Nodes and resolution *)

Inductive anode :=
  | AFile (data : bytes)
  | ADir
  | ALink (target : bytes).
#[export] Instance anode_eq_dec : EqDecision anode.
Proof. solve_decision. Defined.

Abbreviation apath := (list bytes).
Abbreviation atree := (gmap (list bytes) anode).

Definition A_ENOENT : Z := 2.
Definition A_EIO : Z := 5.
Definition A_EACCES : Z := 13.
Definition A_EPERM : Z := 1.
Definition A_EEXIST : Z := 17.
Definition A_ENOTDIR : Z := 20.
Definition A_EISDIR : Z := 21.
Definition A_EINVAL : Z := 22.
Definition A_ENOSPC : Z := 28.
Definition A_ENAMETOOLONG : Z := 36.
Definition A_ENOTEMPTY : Z := 39.
Definition A_ELOOP : Z := 40.

Inductive lookup_result :=
  | Found (p : apath) (n : anode)
  | Absent (dir : apath) (name : bytes)   (** nothing there, in a directory that exists *)
  | Failed (errno : Z).

Definition is_dot (c : bytes) : bool := bool_decide (c = [] ∨ c = [DOT]).

(** Links are followed at the end only when [follow] is set; [links] of them at most. *)
Fixpoint namei (links : nat) (follow : bool) (t : atree) : list bytes → apath → lookup_result :=
  fix go parts cur :=
    match parts with
    | [] => match t !! cur with Some n => Found cur n | None => Failed A_ENOENT end
    | c :: rest =>
        if negb (bool_decide (t !! cur = Some ADir)) then Failed A_ENOTDIR
        else if is_dot c then go rest cur
        else if bool_decide (c = dotdot) then go rest (removelast cur)
        else
          match t !! (cur ++ [c]) with
          | None => if forallb (λ c, bool_decide (c = [])) rest then Absent cur c else Failed A_ENOENT
          | Some (ALink target) =>
              if bool_decide (rest = []) && negb follow then Found (cur ++ [c]) (ALink target) else
              match links with
              | O => Failed A_ELOOP
              | S links =>
                  namei links follow t (split target ++ rest)
                    (if bool_decide (absolute target) then [] else cur)
              end
          | Some _ => go rest (cur ++ [c])
          end
    end.

Definition MAXSYMLINKS : nat := 40.

(** ** Calls *)
Inductive acall :=
  | C_stat | C_mkdir | C_remove | C_symlink | C_readlink | C_realpath | C_opendir | C_fopen
  | C_fread | C_fwrite | C_fseek | C_ftell | C_chmod | C_utime | C_malloc.

Class AEnv := {
  a_fault : acall → nat → option (Z * nat);   (** the n-th call fails: errno, amount moved *)
  a_cwd : apath;                              (** the working directory *)
  a_junk : nat → nat → Z;                     (** what fresh memory holds *)
  a_perm : bytes → Z;                         (** permission bits and time of a file *)
  a_mtime : bytes → Z;
  a_progress : nat → Z                        (** what a progress handler answers *)
}.

Record afs := Afs { a_tree : atree; a_calls : nat }.

Section calls.
Context {AE : AEnv}.

Definition acalled {A} (k : acall) (bad : Z → nat → atree → A * atree) (good : atree → A * atree) :
    st afs A :=
  λ s, let '(a, t) := match a_fault k (a_calls s) with
                      | Some (e, n) => bad e n (a_tree s)
                      | None => good (a_tree s)
                      end in
       Some (a, Afs t (S (a_calls s))).

Definition lookup_path (follow : bool) (t : atree) (s : bytes) : lookup_result :=
  match s with
  | [] => Failed A_ENOENT
  | _ => namei MAXSYMLINKS follow t (split s) (if bool_decide (absolute s) then [] else a_cwd)
  end.

(** [stat] and [lstat]: the node, or errno. *)
Definition stat_ (follow : bool) (s : bytes) : st afs (anode + Z) :=
  acalled C_stat (λ e _ t, (inr e, t))
    (λ t, (match lookup_path follow t s with
           | Found _ n => inl n
           | Absent _ _ => inr A_ENOENT
           | Failed e => inr e
           end, t)).

(** [st_mode]: the type and the permission bits. *)
Definition S_IFMT : Z := 0xf000.
Definition S_IFLNK : Z := 0xa000.
Definition S_IFREG : Z := 0x8000.
Definition S_IFDIR : Z := 0x4000.
Definition st_mode (s : bytes) (n : anode) : Z :=
  Z.lor (match n with AFile _ => S_IFREG | ADir => S_IFDIR | ALink _ => S_IFLNK end)
        (Z.land (a_perm s) 0xfff).
Definition st_size (n : anode) : Z :=
  match n with AFile data => zlen data | ADir => 4096 | ALink target => zlen target end.

(** Whether [malloc] succeeds, and the junk it returns. *)
Definition malloc_ : st afs (option (nat → Z)) :=
  λ s, Some (match a_fault C_malloc (a_calls s) with
             | Some _ => None
             | None => Some (a_junk (a_calls s))
             end, Afs (a_tree s) (S (a_calls s))).

(** [access(s, F_OK)]. *)
Definition access_ (s : bytes) : st afs bool :=
  r ← stat_ true s; sret (match r with inl _ => true | inr _ => false end).

Definition mkdir_ (s : bytes) : st afs (option Z) :=
  acalled C_mkdir (λ e _ t, (Some e, t))
    (λ t, match lookup_path false t s with
          | Absent d n => (None, <[d ++ [n] := ADir]> t)
          | Found _ _ => (Some A_EEXIST, t)
          | Failed e => (Some e, t)
          end).

(** The names in a directory. *)
Definition entries_of (t : atree) (d : apath) : list bytes :=
  omap (λ p, match last p with
             | Some n => if bool_decide (p = d ++ [n]) then Some n else None
             | None => None
             end) (elements (dom t)).

Definition remove_ (s : bytes) : st afs (option Z) :=
  acalled C_remove (λ e _ t, (Some e, t))
    (λ t, match lookup_path false t s with
          | Found p ADir =>
              match entries_of t p with [] => (None, delete p t) | _ => (Some A_ENOTEMPTY, t) end
          | Found p _ => (None, delete p t)
          | Absent _ _ => (Some A_ENOENT, t)
          | Failed e => (Some e, t)
          end).

(** [unlink] removes no directory. *)
Definition unlink_ (s : bytes) : st afs (option Z) :=
  acalled C_remove (λ e _ t, (Some e, t))
    (λ t, match lookup_path false t s with
          | Found _ ADir => (Some A_EISDIR, t)
          | Found p _ => (None, delete p t)
          | Absent _ _ => (Some A_ENOENT, t)
          | Failed e => (Some e, t)
          end).

Definition symlink_ (target s : bytes) : st afs (option Z) :=
  acalled C_symlink (λ e _ t, (Some e, t))
    (λ t, match lookup_path false t s with
          | Absent d n => (None, <[d ++ [n] := ALink target]> t)
          | Found _ _ => (Some A_EEXIST, t)
          | Failed e => (Some e, t)
          end).

(** [readlink] into a buffer of [size] bytes. *)
Definition readlink_ (s : bytes) (size : Z) : st afs (bytes + Z) :=
  acalled C_readlink (λ e _ t, (inr e, t))
    (λ t, (match lookup_path false t s with
           | Found _ (ALink target) => inl (take (Z.to_nat size) target)
           | Found _ _ => inr A_EINVAL
           | Absent _ _ => inr A_ENOENT
           | Failed e => inr e
           end, t)).

Definition path_string (p : apath) : bytes :=
  match p with [] => [SLASH] | _ => concat (map (cons SLASH) p) end.

Definition realpath_ (s : bytes) : st afs (bytes + Z) :=
  acalled C_realpath (λ e _ t, (inr e, t))
    (λ t, (match lookup_path true t s with
           | Found p _ => inl (path_string p)
           | Absent _ _ => inr A_ENOENT
           | Failed e => inr e
           end, t)).

(** [opendir] and the names [readdir] gives, dots included. *)
Definition listdir_ (s : bytes) : st afs (option (list bytes)) :=
  acalled C_opendir (λ _ _ t, (None, t))
    (λ t, (match lookup_path true t s with
           | Found p ADir => Some ([DOT] :: dotdot :: entries_of t p)
           | _ => None
           end, t)).

Definition chmod_ (s : bytes) (mode : Z) : st afs (option Z) :=
  acalled C_chmod (λ e _ t, (Some e, t))
    (λ t, (match lookup_path true t s with Found _ _ => None | _ => Some A_ENOENT end, t)).
Definition utime_ (s : bytes) (modtime : Z) : st afs (option Z) :=
  acalled C_utime (λ e _ t, (Some e, t))
    (λ t, (match lookup_path true t s with Found _ _ => None | _ => Some A_ENOENT end, t)).

(** ** stdio *)
Record FILE := mkFILE { h_path : apath; h_pos : Z; h_error : bool }.

Inductive fmode := Mode_rb | Mode_rplusb | Mode_wb.

Definition fopen_ (s : bytes) (m : fmode) : st afs (FILE + Z) :=
  acalled C_fopen (λ e _ t, (inr e, t))
    (λ t, match lookup_path true t s, m with
          | Found p ADir, Mode_rb => (inl (mkFILE p 0 false), t)
          | Found _ ADir, _ => (inr A_EISDIR, t)
          | Found p _, Mode_wb => (inl (mkFILE p 0 false), <[p := AFile []]> t)
          | Found p _, _ => (inl (mkFILE p 0 false), t)
          | Absent d n, Mode_wb => (inl (mkFILE (d ++ [n]) 0 false), <[d ++ [n] := AFile []]> t)
          | Absent _ _, _ => (inr A_ENOENT, t)
          | Failed e, _ => (inr e, t)
          end).

Definition file_data (t : atree) (h : FILE) : option bytes :=
  match t !! h_path h with Some (AFile data) => Some data | _ => None end.

(** The bytes read, the handle and errno; reading a directory fails. *)
Definition fread_ (len : Z) (h : FILE) : st afs (bytes * FILE * Z) :=
  acalled C_fread
    (λ e n t,
       let data := slice (h_pos h) (Z.min len (Z.of_nat n)) (default [] (file_data t h)) in
       ((data, mkFILE (h_path h) (h_pos h + zlen data) (h_error h || (zlen data <? len)), e), t))
    (λ t, match t !! h_path h with
          | Some ADir => (([], mkFILE (h_path h) (h_pos h) true, A_EISDIR), t)
          | _ =>
              let data := slice (h_pos h) len (default [] (file_data t h)) in
              ((data, mkFILE (h_path h) (h_pos h + zlen data) (h_error h), 0), t)
          end).

Definition put_data (pos : Z) (new : bytes) (h : FILE) (t : atree) : atree :=
  match file_data t h with
  | Some data => <[h_path h := AFile (overwrite pos new data)]> t
  | None => t
  end.

Definition fwrite_ (buf : bytes) (h : FILE) : st afs (Z * FILE * Z) :=
  acalled C_fwrite
    (λ e n t,
       let new := take n buf in
       ((zlen new, mkFILE (h_path h) (h_pos h + zlen new) (h_error h || (zlen new <? zlen buf)), e),
        put_data (h_pos h) new h t))
    (λ t, ((zlen buf, mkFILE (h_path h) (h_pos h + zlen buf) (h_error h), 0),
           put_data (h_pos h) buf h t)).

Definition SEEK_SET : Z := 0.
Definition SEEK_CUR : Z := 1.
Definition SEEK_END : Z := 2.

(** errno is 0 for success. *)
Definition fseek_ (offset origin : Z) (h : FILE) : st afs (FILE * Z) :=
  acalled C_fseek (λ e _ t, ((h, e), t))
    (λ t, let size := zlen (default [] (file_data t h)) in
          let pos := if origin =? SEEK_SET then offset
                     else if origin =? SEEK_CUR then h_pos h + offset else size + offset in
          if (pos <? 0) || (origin <? SEEK_SET) || (origin >? SEEK_END) then ((h, A_EINVAL), t)
          else ((mkFILE (h_path h) pos (h_error h), 0), t)).

Definition ftell_ (h : FILE) : st afs (Z * Z) :=
  acalled C_ftell (λ e _ t, ((-1, e), t)) (λ t, ((h_pos h, 0), t)).
End calls.
