(* ===== verification/ArchiveText.v ===== *)
(** * Encodings of entry names

    The checks of archive_utils.c that decide whether a name is UTF-8 or GBK, and
    the conversion of names from GBK, [iconv] being a parameter.  The writer marks
    an entry as UTF-8 by [IsUtf8Encoded]; the reader of an unmarked entry decides
    by [IsUTF8Str]. *)

From S2P Require Import Prelude Bytes ArchivePath ArchiveFs.

(** ** What the reader asks *)

(** The leading ones of a byte, counted while it is shifted to the left. *)
Fixpoint leading_ones (fuel : nat) (ch : Z) : Z :=
  match fuel with
  | O => 0
  | S fuel => if negb (Z.land ch 0x80 =? 0) then 1 + leading_ones fuel (u8 (Z.shiftl ch 1)) else 0
  end.

(** Whether the byte may follow, and how many continuation bytes are expected then. *)
Definition CheckUTF8Byte (ch nBytes : Z) : bool * Z :=
  if negb (nBytes =? 0) then
    if negb (Z.land ch 0xc0 =? 0x80) then (false, nBytes) else (true, nBytes - 1)
  else if negb (Z.land ch 0x80 =? 0) then
    let nBytes := leading_ones 8 ch in
    if (nBytes <? 2) || (nBytes >? 6) then (false, nBytes) else (true, nBytes - 1)
  else (true, nBytes).

Fixpoint CheckUTF8_loop (str : bytes) (nBytes : Z) : bool :=
  match str with
  | [] => nBytes =? 0
  | ch :: str => let '(ok, nBytes) := CheckUTF8Byte ch nBytes in
                 if ok then CheckUTF8_loop str nBytes else false
  end.
Definition CheckUTF8Str (str : bytes) : bool := CheckUTF8_loop str 0.
Definition IsUTF8Str (fStr : bytes) : bool := CheckUTF8Str fStr.

(** ** What the writer asks *)

(** The leading ones, counted with a mask that moves to the right. *)
Fixpoint Utf8PreNum_loop (k : nat) (byte mask : Z) : Z :=
  match k with
  | O => 0
  | S k => if Z.land byte mask =? mask then 1 + Utf8PreNum_loop k byte (Z.shiftr mask 1) else 0
  end.
Definition Utf8PreNum (byte : Z) : Z := Utf8PreNum_loop 8 byte 0x80.

Fixpoint Utf8_loop (fuel : nat) (data : bytes) (minPreNum : Z) : bool :=
  match fuel, data with
  | _, [] => true
  | O, _ => false
  | S fuel, b :: rest =>
      if Z.land b 0x80 =? 0x00 then Utf8_loop fuel rest minPreNum else
      let num := Utf8PreNum b in
      if num <=? minPreNum then false
      else if num >? zlen data then false
      else if negb (forallb (λ c, Z.land c 0xc0 =? 0x80) (take (Z.to_nat (num - 1)) rest)) then false
      else Utf8_loop fuel (drop (Z.to_nat (num - 1)) rest) minPreNum
  end.
Definition IsUtf8Encoded (data : bytes) (skipTwoBytes : bool) : bool :=
  Utf8_loop (length data) data (if skipTwoBytes then 2 else 1).

(** Pairs of bytes in the ranges of GBK, and ASCII. *)
Fixpoint IsGBKEncoded (str : bytes) : bool :=
  match str with
  | [] => true
  | c :: rest =>
      if c <=? 0x7F then IsGBKEncoded rest
      else if (c >=? 0x81) && (c <=? 0xFE) then
        match rest with
        | [] => false
        | d :: rest =>
            if ((d >=? 0x40) && (d <=? 0x7E)) || ((d >=? 0x80) && (d <=? 0xFE))
            then IsGBKEncoded rest else false
        end
      else false
  end.

(** ** Conversion *)

(** The bytes of a C string in a buffer. *)
Fixpoint c_str (buf : bytes) : bytes :=
  match buf with
  | [] => []
  | c :: buf => if c =? 0 then [] else c :: c_str buf
  end.

(** [iconv] from GBK to UTF-8 into a buffer of some size; nothing when it fails. *)
Class Iconv := { iconv_GBK_UTF8 : bytes → Z → option bytes }.

Definition ConvertStrGBKToUTF8 {AE : AEnv} {IC : Iconv} (str : bytes) : st afs (option bytes) :=
  m ← malloc_;
  sret (match m with
        | None => None
        | Some _ => option_map c_str (iconv_GBK_UTF8 str (zlen str * 2))
        end).

(** ** The strings accepted *)

Definition is_cont (c : Z) : Prop := Z.land c 0xc0 = 0x80.

(** Characters of one byte without leading ones, or of as many bytes as the first has leading
    ones, from two up to [max]. *)
Inductive utf8 (max : Z) : bytes → Prop :=
  | utf8_nil : utf8 max []
  | utf8_ascii b s : Utf8PreNum b = 0 → utf8 max s → utf8 max (b :: s)
  | utf8_seq b cs s : 2 <= Utf8PreNum b <= max → zlen cs = Utf8PreNum b - 1 → Forall is_cont cs →
      utf8 max s → utf8 max (b :: cs ++ s).
#[local] Hint Constructors utf8 : core.

(** What is true of all 256 bytes by computation. *)
Lemma byte_cases (P : Z → bool) b :
  forallb (λ n, P (Z.of_nat n)) (seq 0 256) = true → is_byte b → P b = true.
Proof.
  intros H Hb. unfold is_byte in Hb. rewrite forallb_forall in H.
  specialize (H (Z.to_nat b)). rewrite Z2Nat.id in H by lia. apply H, in_seq. lia.
Qed.

Lemma leading_ones_eq b : is_byte b → leading_ones 8 b = Utf8PreNum b.
Proof. intros Hb. apply Z.eqb_eq. revert Hb. by apply (byte_cases (λ b, leading_ones 8 b =? Utf8PreNum b)). Qed.

Lemma high_bit b : is_byte b → (Z.land b 0x80 =? 0) = (Utf8PreNum b =? 0).
Proof.
  intros Hb. apply eqb_prop. revert Hb.
  by apply (byte_cases (λ b, Bool.eqb (Z.land b 0x80 =? 0) (Utf8PreNum b =? 0))).
Qed.

Lemma Utf8PreNum_range b : is_byte b → 0 <= Utf8PreNum b <= 8.
Proof.
  intros Hb. assert ((0 <=? Utf8PreNum b) && (Utf8PreNum b <=? 8) = true) as H.
  { revert Hb. by apply (byte_cases (λ b, (0 <=? Utf8PreNum b) && (Utf8PreNum b <=? 8))). }
  lia.
Qed.

Lemma utf8_cons_inv max b s :
  utf8 max (b :: s) →
  (Utf8PreNum b = 0 ∧ utf8 max s) ∨
  (2 <= Utf8PreNum b <= max ∧ ∃ cs s', s = cs ++ s' ∧ zlen cs = Utf8PreNum b - 1 ∧ Forall is_cont cs
                                       ∧ utf8 max s').
Proof.
  intros H. inversion H; subst; [by left|right]. split; [done|].
  eexists _, _. by split; [reflexivity|].
Qed.

(** With [n] continuation bytes outstanding. *)
Lemma CheckUTF8_loop_spec s n :
  Forall is_byte s → 0 <= n →
  CheckUTF8_loop s n = true ↔ ∃ cs s', s = cs ++ s' ∧ zlen cs = n ∧ Forall is_cont cs ∧ utf8 6 s'.
Proof.
  revert n. induction s as [|b s IH]; intros n Hs Hn; cbn [CheckUTF8_loop].
  { rewrite Z.eqb_eq. split; [intros ->; by exists [], []|].
    intros (cs & s' & E & <- & _). symmetry in E. by apply app_eq_nil in E as [-> ->]. }
  inversion Hs; subst. unfold CheckUTF8Byte.
  rewrite high_bit, leading_ones_eq by done. pose proof (Utf8PreNum_range b ltac:(done)).
  destruct (n =? 0) eqn:En; zbool; cbn [negb].
  - subst n. transitivity (utf8 6 (b :: s)); [|split; [by exists [], (b :: s)|]]; last first.
    { intros ([|c cs] & s' & -> & Hz & _ & ?); [done|]. rewrite zlen_cons in Hz.
      pose proof (zlen_nonneg cs). lia. }
    destruct (Utf8PreNum b =? 0) eqn:E0; zbool; cbn [negb].
    + rewrite IH by done. split.
      * intros (cs & s' & -> & Hz & _ & ?). apply zlen_zero in Hz as ->. cbn. auto.
      * intros [[_ ?]|[? _]]%utf8_cons_inv; [by exists [], s|lia].
    + destruct ((_ <? 2) || _) eqn:E1; zbool.
      { split; [done|]. intros [[? _]|[? _]]%utf8_cons_inv; lia. }
      rewrite IH by (done || lia). split.
      * intros (cs & s' & -> & Hz & ? & ?). apply utf8_seq; (done || lia).
      * intros [[? _]|[_ H']]%utf8_cons_inv; [lia|done].
  - destruct (Z.land b 0xc0 =? 0x80) eqn:Ec; zbool; cbn [negb].
    + rewrite IH by (done || lia). split.
      * intros (cs & s' & -> & Hz & ? & ?). exists (b :: cs), s'. rewrite zlen_cons. by repeat split; auto with lia.
      * intros ([|c cs] & s' & E & Hz & Hc & ?); [cbn in Hz; by subst|]. rewrite zlen_cons in Hz.
        injection E as -> ->. inversion Hc; subst. exists cs, s'. repeat split; (done || lia).
    + split; [done|]. intros ([|c cs] & s' & E & Hz & Hc & ?); [by subst|].
      injection E as -> ->. by inversion Hc.
Qed.

Lemma forallb_is_cont cs : forallb (λ c, Z.land c 0xc0 =? 0x80) cs = true ↔ Forall is_cont cs.
Proof.
  rewrite forallb_forall, Forall_forall. unfold is_cont. setoid_rewrite Z.eqb_eq.
  by setoid_rewrite <- list_elem_of_In.
Qed.

Lemma Utf8_loop_spec fuel s :
  Forall is_byte s → (length s <= fuel)%nat → Utf8_loop fuel s 1 = true ↔ utf8 8 s.
Proof.
  revert s. induction fuel as [|fuel IH]; intros [|b s] Hs Hf; cbn [Utf8_loop length] in *; try (split; [auto|done]); [lia|].
  inversion Hs; subst. rewrite high_bit by done. pose proof (Utf8PreNum_range b ltac:(done)) as Hr.
  destruct (Utf8PreNum b =? 0) eqn:E0; zbool.
  { rewrite IH by (done || lia). split; [auto|]. intros [[_ ?]|[? _]]%utf8_cons_inv; (done || lia). }
  destruct (Utf8PreNum b <=? 1) eqn:E1; zbool.
  { split; [done|]. intros [[? _]|[? _]]%utf8_cons_inv; lia. }
  set (k := Z.to_nat (Utf8PreNum b - 1)).
  assert (Hsplit : ∀ cs s', s = cs ++ s' → zlen cs = Utf8PreNum b - 1 → take k s = cs ∧ drop k s = s').
  { intros cs s' -> Hz. assert (k = length cs) as -> by (subst k; unfold zlen in Hz; lia).
    split; [apply take_app_length|apply drop_app_length]. }
  destruct (Utf8PreNum b >? zlen (b :: s)) eqn:E2; zbool.
  { split; [done|]. intros [[? _]|(? & cs & s' & -> & Hz & _)]%utf8_cons_inv; [lia|].
    rewrite zlen_cons, zlen_app in E2. pose proof (zlen_nonneg s'). lia. }
  rewrite zlen_cons in E2.
  destruct (forallb _ _) eqn:E3; cbn [negb].
  - rewrite IH by (try apply Forall_drop; try done; rewrite length_drop; lia). apply forallb_is_cont in E3. split.
    + intros Hd. rewrite <- (take_drop k s). apply utf8_seq; try done; [lia|].
      rewrite zlen_take. subst k. unfold zlen in *. lia.
    + intros [[? _]|(_ & cs & s' & Es & Hz & _ & ?)]%utf8_cons_inv; [lia|]. by destruct (Hsplit cs s' Es Hz) as [_ ->].
  - split; [done|]. intros [[? _]|(_ & cs & s' & Es & Hz & Hc & ?)]%utf8_cons_inv; [lia|].
    destruct (Hsplit cs s' Es Hz) as [Ht _]. apply forallb_is_cont in Hc. rewrite <- Ht in Hc. fold k in E3. congruence.
Qed.

Lemma utf8_weaken m n s : m <= n → utf8 m s → utf8 n s.
Proof. intros Hmn. induction 1; auto. apply utf8_seq; (done || lia). Qed.

(** The reader takes a name without the UTF-8 mark as UTF-8 exactly when it is a sequence of
    characters of one to six bytes; the writer marks a name exactly when it is one of characters of
    one to eight bytes; so every name the reader would take as UTF-8 is one the writer marks. *)
Theorem utf8_checks_agree s :
  Forall is_byte s →
  (IsUTF8Str s = true ↔ utf8 6 s) ∧ (IsUtf8Encoded s false = true ↔ utf8 8 s)
  ∧ (IsUTF8Str s = true → IsUtf8Encoded s false = true).
Proof.
  intros Hs. assert (IsUTF8Str s = true ↔ utf8 6 s) as H6.
  { unfold IsUTF8Str, CheckUTF8Str. rewrite CheckUTF8_loop_spec by (done || lia). split.
    - intros (cs & s' & -> & Hz & _ & ?). by apply zlen_zero in Hz as ->.
    - intros. by exists [], s. }
  assert (IsUtf8Encoded s false = true ↔ utf8 8 s) as H8 by by apply Utf8_loop_spec.
  split; [done|]. split; [done|]. rewrite H6, H8. apply utf8_weaken. lia.
Qed.
Lemma utf8_checks_agree_witness :
  Forall is_byte [0xe6; 0x96; 0x87; 0x41] ∧ IsUtf8Encoded [0xe6; 0x96; 0x87; 0x41] false = true.
Proof.
  assert (Forall is_byte [0xe6; 0x96; 0x87; 0x41]) as H by (unfold is_byte; repeat constructor; cbn; lia).
  split; [exact H|]. apply (utf8_checks_agree _ H). reflexivity.
Defined.
