(* ===== verification/ArchiveStream.v ===== *)
(** * Streams

    The streams of the archive code: stdio files (stream_file_posix.c), a growing
    buffer in memory (stream_mem.c), uncompressed entry data (stream_raw.c) and
    deflated entry data (stream_deflate.c).  The dispatch of stream.c is a sum of
    the two kinds that transform data; their base is passed along, for it is
    shared with the reader or writer that made it.  Behaviour that C leaves
    undefined (using a closed file, writing past a buffer) is no result. *)

From S2P Require Import Prelude Bytes ArchiveErr ArchivePath ArchiveFs.

Definition undefined {S A} : st S A := λ _, None.

(** zlib: its states, what a call answers (the return code, the input consumed, the output)
    and its checksum.  A loop over calls takes fewer than [z_fuel] turns. *)
Class Zlib := {
  zstate : Type;
  z_crc32 : Z → bytes → Z;
  z_deflateInit2 : Z → zstate + Z;                          (** from the level; or an error *)
  z_deflate : zstate → bytes → Z → Z → Z * nat * bytes * zstate;  (** input, avail_out, flush *)
  z_deflateReset : zstate → option zstate;
  z_deflateParams : zstate → Z → option zstate;
  z_compressBound : Z → Z;
  z_inflateInit2 : option zstate;
  z_inflate : zstate → bytes → Z → Z * nat * bytes * zstate;
  z_inflateReset2 : zstate → option zstate;
  z_inflateEnd : zstate → bool;
  z_fuel : nat
}.
Definition Z_OK : Z := 0.
Definition Z_STREAM_END : Z := 1.
Definition Z_DATA_ERROR : Z := -3.
Definition Z_NO_FLUSH : Z := 0.
Definition Z_FINISH : Z := 4.

(** The counters of [struct Stream]. *)
Record Stream := mkStream {
  totalIn : Z; totalOut : Z; maxTotalIn : Z; headerSize : Z
}.
Definition no_stream : Stream := mkStream 0 0 0 0.
Definition add_totals (i o : Z) (s : Stream) : Stream :=
  mkStream (u64 (totalIn s + i)) (u64 (totalOut s + o)) (maxTotalIn s) (headerSize s).
Definition set_maxTotalIn (m : Z) (s : Stream) : Stream :=
  mkStream (totalIn s) (totalOut s) m (headerSize s).

Definition STREAM_MODE_RD : Z := 1.
Definition STREAM_MODE_WR : Z := 2.
Definition OPEN_MODE_READ : Z := 0x01.
Definition OPEN_MODE_WRITE : Z := 0x02.
Definition OPEN_MODE_READ_WRITE : Z := Z.lor OPEN_MODE_READ OPEN_MODE_WRITE.
Definition OPEN_MODE_APPEND : Z := 0x04.
Definition OPEN_MODE_CREATE : Z := 0x08.

Section streams.
Context {AE : AEnv}.

(** ** Files *)
Record FileStream := mkFileStream { path : bytes; handle : option FILE; fstream : Stream }.

Definition set_handle (h : option FILE) (f : FileStream) : FileStream :=
  mkFileStream (path f) h (fstream f).

Definition ConvertWriteErrno (errnoNum defaultErrNum : Z) : Z :=
  if errnoNum =? A_ENOSPC then ARCHIVE_NO_SPACE_ERROR
  else if errnoNum =? A_EPERM then ARCHIVE_EPERM_ERROR
  else if errnoNum =? A_EIO then ARCHIVE_EIO_ERROR
  else if errnoNum =? A_EACCES then ARCHIVE_EACCES_ERROR
  else if errnoNum =? A_ENOENT then ARCHIVE_ENOENT_ERROR
  else if errnoNum =? A_ENAMETOOLONG then ARCHIVE_NAME_TOO_LONG_ERROR
  else defaultErrNum.

Definition FileStreamCreate (p : bytes) : st afs (option FileStream) :=
  m ← malloc_;
  sret (match m, strncpy_s PATH_MAX p (zlen p) with
        | Some _, Some p => Some (mkFileStream p None no_stream)
        | _, _ => None
        end).

(** Opening the resolved path, or the error. *)
Definition OpenResolved (f : FileStream) (m : fmode) (full : bytes) : st afs (Z * FileStream) :=
  h ← fopen_ full m;
  sret (match h with
        | inl h => (ARCHIVE_OK, set_handle (Some h) f)
        | inr e => (ConvertWriteErrno e ARCHIVE_OPEN_ERROR, set_handle None f)
        end).

Definition FileStreamOpen (f : FileStream) (mode : Z) : st afs (Z * FileStream) :=
  let rd := Z.land mode OPEN_MODE_READ_WRITE =? OPEN_MODE_READ in
  let app := negb (Z.land mode OPEN_MODE_APPEND =? 0) in
  if rd || app then
    r ← realpath_ (path f);
    match r with
    | inl resolvedPath => OpenResolved f (if rd then Mode_rb else Mode_rplusb) resolvedPath
    | inr e => sret (ConvertWriteErrno e ARCHIVE_OPEN_ERROR, f)
    end
  else if negb (Z.land mode OPEN_MODE_CREATE =? 0) then
    there ← access_ (path f);
    _ ← (if there : bool then remove_ (path f) else sret None);
    let '(ret, parentPath) := GetParentDirectory (Some (path f)) ZIP_FILE_NAME_LEN_MAX in
    if negb (ret =? ARCHIVE_OK) then sret (ARCHIVE_OPEN_ERROR, f) else
    r ← realpath_ parentPath;
    match r with
    | inr e => sret (ConvertWriteErrno e ARCHIVE_OPEN_ERROR, f)
    | inl resolvedPath =>
        match snprintf_s ZIP_FILE_NAME_LEN_MAX (resolvedPath ++ [SLASH] ++ GetFileName (path f)) with
        | None => sret (ARCHIVE_OPEN_ERROR, f)
        | Some fullPath => OpenResolved f Mode_wb fullPath
        end
    end
  else sret (ARCHIVE_OPEN_ERROR, f).

(** The result and the bytes. *)
Definition FileStreamRead (f : FileStream) (len : Z) : st afs (Z * bytes * FileStream) :=
  match handle f with
  | None => undefined
  | Some h =>
      if len <? 0 then undefined else
      '(data, h, e) ← fread_ len h;
      let f := set_handle (Some h) f in
      sret (if negb (zlen data =? len) && h_error h
            then (ConvertWriteErrno e ARCHIVE_READ_ERROR, data, f) else (zlen data, data, f))
  end.

Definition FileStreamWrite (f : FileStream) (buf : bytes) : st afs (Z * FileStream) :=
  match handle f with
  | None => undefined
  | Some h =>
      '(writeSize, h, e) ← fwrite_ buf h;
      let f := set_handle (Some h) f in
      sret (if negb (writeSize =? zlen buf) && h_error h
            then (ConvertWriteErrno e ARCHIVE_WRITE_ERROR, f) else (writeSize, f))
  end.

Definition FileStreamSeek (f : FileStream) (offset origin : Z) : st afs (Z * FileStream) :=
  match handle f with
  | None => undefined
  | Some h =>
      '(h, e) ← fseek_ offset origin h;
      let f := set_handle (Some h) f in
      sret (if negb (e =? 0) then (ConvertWriteErrno e ARCHIVE_SEEK_ERROR, f) else (0, f))
  end.

Definition FileStreamTell (f : FileStream) : st afs Z :=
  match handle f with
  | None => undefined
  | Some h =>
      '(tellPosition, e) ← ftell_ h;
      sret (if tellPosition =? -1 then ConvertWriteErrno e ARCHIVE_TELL_ERROR else tellPosition)
  end.

(** The result of [fclose] is not looked at. *)
Definition FileStreamClose (f : FileStream) : st afs (Z * FileStream) :=
  sret (ARCHIVE_OK, set_handle None f).

(** ** Memory *)
Record MemStream := mkMemStream {
  buffer : option bytes; size : Z; capacity : Z; position : Z; memInitSize : Z
}.
Definition MEM_INIT_SIZE : Z := 4096.

Definition MemStreamCreate : st afs (option MemStream) :=
  m ← malloc_;
  sret (match m with Some _ => Some (mkMemStream None 0 0 0 MEM_INIT_SIZE) | None => None end).

(** The bytes of a fresh block. *)
Definition fresh_block (junk : nat → Z) (n : Z) : bytes := map junk (seq 0 (Z.to_nat n)).

(** [copySize] bytes of the old buffer begin the new one. *)
Definition MemStreamResize (mem : MemStream) (newSize : Z) : st afs (Z * MemStream) :=
  if newSize =? 0 then sret (ARCHIVE_PARAM_ERROR, mem) else
  m ← malloc_;
  match m with
  | None => sret (ARCHIVE_MEM_ERROR, mem)
  | Some junk =>
      let newBuf := fresh_block junk newSize in
      let '(newBuf, copySize) :=
        match buffer mem with
        | Some old =>
            let copySize := if size mem <? newSize then size mem else newSize in
            (take (Z.to_nat copySize) old ++ drop (Z.to_nat copySize) newBuf, copySize)
        | None => (newBuf, 0)
        end in
      sret (ARCHIVE_OK, mkMemStream (Some newBuf) copySize newSize (position mem) (memInitSize mem))
  end.

Definition MemStreamOpen (mem : MemStream) : st afs (Z * MemStream) :=
  MemStreamResize (mkMemStream (buffer mem) (size mem) (capacity mem) 0 (memInitSize mem))
    (memInitSize mem).

Definition MemStreamRead (mem : MemStream) (len : Z) : st afs (Z * bytes * MemStream) :=
  let len := if u64 len >? size mem -₆₄ position mem then i64 (size mem -₆₄ position mem) else len in
  if len =? 0 then sret (0, [], mem) else
  match buffer mem with
  | None => undefined
  | Some buf =>
      if position mem + u64 len >? zlen buf then undefined else
      sret (len, slice (position mem) len buf,
            mkMemStream (buffer mem) (size mem) (capacity mem) (position mem +₆₄ len) (memInitSize mem))
  end.

(** Doubling until [len] bytes fit; at most 64 times before the size is zero. *)
Fixpoint grow (fuel : nat) (len newCap pos : Z) : Z :=
  match fuel with
  | O => newCap
  | S fuel => if u64 len >? newCap -₆₄ pos then grow fuel len (u64 (newCap * 2)) pos else newCap
  end.

Definition MemStreamWrite (mem : MemStream) (buf : bytes) : st afs (Z * MemStream) :=
  let len := zlen buf in
  if len =? 0 then sret (0, mem) else
  '(ret, mem) ← (if len >? capacity mem -₆₄ position mem
                 then MemStreamResize mem (grow 64 len (u64 (capacity mem * 2)) (position mem))
                 else sret (ARCHIVE_OK, mem));
  if negb (ret =? ARCHIVE_OK) then sret (ret, mem) else
  match buffer mem with
  | None => undefined
  | Some old =>
      if position mem + len >? zlen old then undefined else
      let pos := position mem +₆₄ len in
      sret (len, mkMemStream (Some (overwrite (position mem) buf old))
                   (if pos >? size mem then pos else size mem) (capacity mem) pos (memInitSize mem))
  end.

Definition MemStreamSeek (mem : MemStream) (offset origin : Z) : Z * MemStream :=
  if (origin <? SEEK_SET) || (origin >? SEEK_END) then (ARCHIVE_SEEK_ERROR, mem) else
  let newPos := if origin =? SEEK_SET then offset
                else if origin =? SEEK_CUR then i64 (position mem + offset)
                else i64 (size mem + offset) in
  if (newPos <? 0) || (newPos >? capacity mem) then (ARCHIVE_SEEK_ERROR, mem)
  else (ARCHIVE_OK, mkMemStream (buffer mem) (size mem) (capacity mem) newPos (memInitSize mem)).

Definition MemStreamTell (mem : MemStream) : Z := i64 (position mem).

Definition MemStreamClose (mem : MemStream) : Z * MemStream :=
  (ARCHIVE_OK, mkMemStream None (size mem) (capacity mem) (position mem) (memInitSize mem)).

(** The bytes from [pos] on, when the position exists. *)
Definition MemStreamGetBufferAt (mem : MemStream) (pos : Z) : Z * option bytes :=
  match buffer mem with
  | None => (ARCHIVE_SEEK_ERROR, None)
  | Some buf => if size mem <? pos then (ARCHIVE_SEEK_ERROR, None)
                else (ARCHIVE_OK, Some (drop (Z.to_nat pos) buf))
  end.

(** ** Uncompressed data *)
Definition RawStreamCreate : st afs (option Stream) :=
  m ← malloc_; sret (match m with Some _ => Some no_stream | None => None end).

Definition RawStreamOpen (raw : Stream) : Z * Stream := (ARCHIVE_OK, no_stream).

(** No more than [maxTotalIn] bytes in all, when that is set. *)
Definition RawStreamRead (raw : Stream) (base : FileStream) (len : Z) :
    st afs (Z * bytes * Stream * FileStream) :=
  let left := maxTotalIn raw -₆₄ totalIn raw in
  let readSize := if (maxTotalIn raw >? 0) && (u64 len >? left) then i64 left else len in
  '(read, data, base) ← FileStreamRead base readSize;
  sret (read, data, if read >? 0 then add_totals read read raw else raw, base).

Definition RawStreamWrite (raw : Stream) (base : FileStream) (buf : bytes) :
    st afs (Z * Stream * FileStream) :=
  '(writeSize, base) ← FileStreamWrite base buf;
  sret (writeSize, if writeSize =? zlen buf then add_totals (zlen buf) (zlen buf) raw else raw, base).

Definition RawStreamSeek (base : FileStream) (offset origin : Z) : st afs (Z * FileStream) :=
  FileStreamSeek base offset origin.
Definition RawStreamTell (base : FileStream) : st afs Z := FileStreamTell base.

(** ** Deflated data *)
Context {ZL : Zlib}.

Definition ZIP_BUF_INTERNAL : Z := 65536.

(** The input zlib has not consumed, and what it has put into the buffer. *)
Record DeflateStream := mkDeflateStream {
  dstream : Stream; zstream : option zstate; avail_in : bytes; out_buf : bytes;
  dmode : Z; dlevel : Z
}.
Definition DEFLATE_DEF_COMPRESS_LEVEL : Z := 6.

Definition set_zstream (z : zstate) (i o : bytes) (d : DeflateStream) : DeflateStream :=
  mkDeflateStream (dstream d) (Some z) i o (dmode d) (dlevel d).
Definition add_dtotals (i o : Z) (d : DeflateStream) : DeflateStream :=
  mkDeflateStream (add_totals i o (dstream d)) (zstream d) (avail_in d) (out_buf d) (dmode d) (dlevel d).

Definition DeflateStreamCreateSpec (level : Z) : st afs (option DeflateStream) :=
  m ← malloc_;
  sret (match m with Some _ => Some (mkDeflateStream no_stream None [] [] 0 level) | None => None end).
Definition DeflateStreamCreate : st afs (option DeflateStream) :=
  DeflateStreamCreateSpec DEFLATE_DEF_COMPRESS_LEVEL.

Definition DeflateStreamOpen (d : DeflateStream) (mode : Z) : Z * DeflateStream :=
  match (if negb (Z.land mode STREAM_MODE_WR =? 0)
         then match z_deflateInit2 (dlevel d) with inl z => Some z | inr _ => None end
         else z_inflateInit2) with
  | None => (ARCHIVE_ZLIB_ERROR, d)
  | Some z => (ARCHIVE_OK, mkDeflateStream no_stream (Some z) [] (out_buf d) mode (dlevel d))
  end.

(** One input buffer after the other, until the output is full or zlib stops: the bytes produced,
    or the result to return. *)
Fixpoint DeflateRead_loop (fuel : nat) (d : DeflateStream) (base : FileStream) (out : bytes) (size : Z) :
    st afs ((bytes + Z) * DeflateStream * FileStream) :=
  match fuel, zstream d with
  | S fuel, Some z =>
      '(len, data, d, base) ←
        (if zlen (avail_in d) =? 0 then
           '(len, data, base) ← FileStreamRead base ZIP_BUF_INTERNAL;
           sret (len, data, if (0 <=? len) && (len <=? ZIP_BUF_INTERNAL)
                            then add_dtotals len 0 (set_zstream z data (out_buf d) d) else d, base)
         else sret (0, [], d, base));
      if (len <? 0) || (len >? ZIP_BUF_INTERNAL) then sret (inr len, d, base) else
      let '(ret, used, new, z) := z_inflate z (avail_in d) (size - zlen out) in
      let d := set_zstream z (drop used (avail_in d)) (out_buf d) d in
      let out := out ++ new in
      if (zlen out <? size) && (ret =? Z_OK) then DeflateRead_loop fuel d base out size
      else if negb (ret =? Z_OK) && negb (ret =? Z_STREAM_END) then sret (inr Z_DATA_ERROR, d, base)
      else sret (inl out, d, base)
  | _, _ => undefined
  end.

Definition DeflateStreamRead (d : DeflateStream) (base : FileStream) (size : Z) :
    st afs (Z * bytes * DeflateStream * FileStream) :=
  '(r, d, base) ← DeflateRead_loop z_fuel d base [] size;
  sret (match r with
        | inl out => (zlen out, out, add_dtotals 0 (zlen out) d, base)
        | inr e => (e, [], d, base)
        end).

(** After [deflateEnd]. *)
Definition ended (d : DeflateStream) : DeflateStream :=
  mkDeflateStream (dstream d) None (avail_in d) (out_buf d) (dmode d) (dlevel d).
Definition set_buffers (i o : bytes) (d : DeflateStream) : DeflateStream :=
  mkDeflateStream (dstream d) (zstream d) i o (dmode d) (dlevel d).

(** [inl] carries the bytes flushed to the base before the loop ended, [inr] a result to return.
    [deflate] answers [Z_STREAM_ERROR] for a stream that has ended. *)
Fixpoint DeflateWriteBuf_loop (fuel : nat) (d : DeflateStream) (base : FileStream)
    (flush ret : Z) (flushedToBase : Z) : st afs ((Z + Z) * DeflateStream * FileStream) :=
  match fuel with
  | O => undefined
  | S fuel =>
      let full := zlen (out_buf d) =? ZIP_BUF_INTERNAL in
      '(len, base) ← (if full then FileStreamWrite base (out_buf d) else sret (ZIP_BUF_INTERNAL, base));
      if negb (len =? ZIP_BUF_INTERNAL)
      then sret (inr (if len <? 0 then ret else ARCHIVE_WRITE_ERROR), d, base) else
      let flushedToBase := if full then flushedToBase + ZIP_BUF_INTERNAL else flushedToBase in
      let buf := if full then [] else out_buf d in
      match zstream d with
      | None => sret (inr ARCHIVE_ZLIB_ERROR, set_buffers (avail_in d) buf d, base)
      | Some z =>
          let '(ret, used, new, z) := z_deflate z (avail_in d) (ZIP_BUF_INTERNAL - zlen buf) flush in
          let d := set_zstream z (drop used (avail_in d)) (buf ++ new) d in
          if ret =? Z_STREAM_END then sret (inl flushedToBase, d, base)
          else if negb (ret =? Z_OK) then sret (inr ARCHIVE_ZLIB_ERROR, ended d, base)
          else if (zlen (avail_in d) >? 0) || ((flush =? Z_FINISH) && (ret =? Z_OK))
          then DeflateWriteBuf_loop fuel d base flush ret flushedToBase
          else sret (inl flushedToBase, d, base)
      end
  end.

Definition DeflateWriteBuf (d : DeflateStream) (base : FileStream) (flush : Z) :
    st afs (Z * DeflateStream * FileStream) :=
  let availInBefore := zlen (avail_in d) in
  let outBefore := zlen (out_buf d) in
  '(r, d, base) ← DeflateWriteBuf_loop z_fuel d base flush Z_OK 0;
  sret (match r with
        | inl flushed =>
            (* availOutBefore - avail_out is what the buffer gained *)
            (ARCHIVE_OK, add_dtotals (availInBefore - zlen (avail_in d))
                                     (flushed + zlen (out_buf d) - outBefore) d, base)
        | inr e => (e, d, base)
        end).

Definition DeflateStreamWrite (d : DeflateStream) (base : FileStream) (buf : bytes) :
    st afs (Z * DeflateStream * FileStream) :=
  '(ret, d, base) ← DeflateWriteBuf (set_buffers buf (out_buf d) d) base Z_NO_FLUSH;
  sret (if negb (ret =? ARCHIVE_OK) then ret else zlen buf, d, base).

Definition DeflateStreamClose (d : DeflateStream) (base : FileStream) :
    st afs (Z * DeflateStream * FileStream) :=
  if negb (Z.land (dmode d) STREAM_MODE_WR =? 0) then
    '(ret, d, base) ← DeflateWriteBuf d base Z_FINISH;
    if negb (ret =? ARCHIVE_OK) then sret (ret, ended d, base) else
    '(writeRet, base) ← FileStreamWrite base (out_buf d);
    sret (if negb (writeRet =? zlen (out_buf d))
          then (if writeRet <? 0 then writeRet else ARCHIVE_WRITE_ERROR, ended d, base)
          else (ARCHIVE_OK, ended d, base))
  else sret (ARCHIVE_OK, ended d, base).

(** ** The dispatch of stream.c over the streams that transform entry data *)
Inductive CompressStream := CRaw (s : Stream) | CDeflate (d : DeflateStream).

Definition cstream (c : CompressStream) : Stream :=
  match c with CRaw s => s | CDeflate d => dstream d end.

Definition StreamOpen (c : CompressStream) (mode : Z) : Z * CompressStream :=
  match c with
  | CRaw s => let '(ret, s) := RawStreamOpen s in (ret, CRaw s)
  | CDeflate d => let '(ret, d) := DeflateStreamOpen d mode in (ret, CDeflate d)
  end.

Definition StreamRead (c : CompressStream) (base : FileStream) (len : Z) :
    st afs (Z * bytes * CompressStream * FileStream) :=
  match c with
  | CRaw s => '(ret, data, s, base) ← RawStreamRead s base len; sret (ret, data, CRaw s, base)
  | CDeflate d => '(ret, data, d, base) ← DeflateStreamRead d base len; sret (ret, data, CDeflate d, base)
  end.

Definition StreamWrite (c : CompressStream) (base : FileStream) (buf : bytes) :
    st afs (Z * CompressStream * FileStream) :=
  match c with
  | CRaw s => '(ret, s, base) ← RawStreamWrite s base buf; sret (ret, CRaw s, base)
  | CDeflate d => '(ret, d, base) ← DeflateStreamWrite d base buf; sret (ret, CDeflate d, base)
  end.

Definition StreamClose (c : CompressStream) (base : FileStream) :
    st afs (Z * CompressStream * FileStream) :=
  match c with
  | CRaw s => sret (ARCHIVE_OK, CRaw s, base)
  | CDeflate d => '(ret, d, base) ← DeflateStreamClose d base; sret (ret, CDeflate d, base)
  end.

Definition StreamGetTotalIn (s : Stream) : Z := totalIn s.
Definition StreamGetTotalOut (s : Stream) : Z := totalOut s.
Definition StreamGetHeaderSize (s : Stream) : Z := u32 (headerSize s).

Definition StreamSetMaxTotalIn (c : CompressStream) (m : Z) : CompressStream :=
  match c with
  | CRaw s => CRaw (set_maxTotalIn m s)
  | CDeflate d => CDeflate (mkDeflateStream (set_maxTotalIn m (dstream d)) (zstream d) (avail_in d)
                              (out_buf d) (dmode d) (dlevel d))
  end.
End streams.

(** ** Writing integers *)

(** The bytes of [value], lowest first, and what is left of it. *)
Fixpoint value_bytes (len : nat) (value : Z) : bytes * Z :=
  match len with
  | O => ([], value)
  | S len => let '(buf, rest) := value_bytes len (Z.shiftr value 8) in
             (Z.land value 0xff :: buf, rest)
  end.

(** A stream headers are written to: the file of the archive, or the memory that collects
    the central directory. *)
Class Sink (S : Type) := sink_write : S → bytes → st afs (Z * S).
#[export] Instance file_sink {AE : AEnv} : Sink FileStream := FileStreamWrite.
#[export] Instance mem_sink {AE : AEnv} : Sink MemStream := MemStreamWrite.

Section values.
Context {S : Type} {K : Sink S}.

(** [errno] is [ENOSPC] when the stream reported that. *)
Definition StreamWriteValue (stream : S) (value : Z) (len : nat) : st afs (Z * S) :=
  let '(buf, rest) := value_bytes len value in
  let buf := if negb (rest =? 0) then replicate len 0xff else buf in
  '(ret, stream) ← sink_write stream buf;
  sret (if negb (ret =? Z.of_nat len)
        then if ret =? ARCHIVE_NO_SPACE_ERROR then ARCHIVE_NO_SPACE_ERROR else ARCHIVE_WRITE_ERROR
        else ARCHIVE_OK, stream).
Definition StreamWriteUint32 (stream : S) (value : Z) : st afs (Z * S) :=
  StreamWriteValue stream (u32 value) 4.
Definition StreamWriteUint64 (stream : S) (value : Z) : st afs (Z * S) :=
  StreamWriteValue stream (u64 value) 8.
End values.

Lemma value_bytes_le n v : 0 <= v → value_bytes n v = (le n v, v / 256 ^ Z.of_nat n).
Proof.
  revert v. induction n as [|n IH]; intros v Hv; cbn [value_bytes le]; [by rewrite Z.div_1_r|].
  rewrite Z.shiftr_div_pow2 by lia. rewrite IH by (apply Z.div_pos; lia).
  change 0xff with (Z.ones 8). rewrite Z.land_ones by lia. rewrite pow256_S, Z.div_div by lia. done.
Qed.
