(* ===== verification/ArchiveUtils.v ===== *)
(** * Files and directories of the archive code

    The functions of archive_utils.c that use the file system, with the helpers
    of zip_reader.c and zip_writer.c that do.  Buffers for paths hold
    [ZIP_FILE_NAME_LEN_MAX] bytes. *)

From S2P Require Import Prelude Bytes ArchiveErr ArchivePath ArchiveFs.

Definition MAX_RENAME_COUNT : Z := 1000.

(** The part before the next slash, and the rest. *)
Fixpoint span_part (p : bytes) : bytes * bytes :=
  match p with
  | [] => ([], [])
  | c :: p' => if c =? SLASH then ([], p) else let '(w, r) := span_part p' in (c :: w, r)
  end.

Section utils.
Context {AE : AEnv}.

Definition IsDirectoryExists (path : bytes) : st afs bool :=
  r ← stat_ true path; sret (match r with inl ADir => true | _ => false end).

(** One directory after the other; [temp] is the path so far. *)
Fixpoint CreateDirectory_loop (fuel : nat) (temp p : bytes) (baseLen : Z) : st afs Z :=
  match fuel, p with
  | _, [] => sret ARCHIVE_OK
  | O, _ => λ _, None
  | S fuel, _ =>
      let '(part, rest) := span_part p in
      if negb (bool_decide (part = [])) && (zlen temp + zlen part >? ZIP_FILE_NAME_LEN_MAX - 1)
      then sret ARCHIVE_NAME_TOO_LONG_ERROR else
      let temp := temp ++ part in
      if negb (bool_decide (rest = [])) && (zlen temp >=? ZIP_FILE_NAME_LEN_MAX - 1)
      then sret ARCHIVE_NAME_TOO_LONG_ERROR else
      let temp := match rest with [] => temp | _ => temp ++ [SLASH] end in
      err ← (if zlen temp >? baseLen + 1 then
               there ← IsDirectoryExists temp;
               if there : bool then sret None else mkdir_ temp
             else sret None);
      match err with
      | Some e =>
          if negb (e =? A_EEXIST)
          then sret (if e =? A_ENAMETOOLONG then ARCHIVE_NAME_TOO_LONG_ERROR else ARCHIVE_PARAM_ERROR)
          else CreateDirectory_loop fuel temp (tail rest) baseLen
      | None => CreateDirectory_loop fuel temp (tail rest) baseLen
      end
  end.

Definition CreateDirectory (path : bytes) (base : option bytes) : st afs Z :=
  there ← IsDirectoryExists path;
  if there : bool then sret ARCHIVE_OK else
  let ret := ValidatePathPrefix path base in
  if negb (ret =? ARCHIVE_OK) then sret ret else
  let baseLen := match base with None => 0 | Some b => zlen b end in
  if bool_decide (absolute path)
  then CreateDirectory_loop (S (length path)) [SLASH] (tail path) baseLen
  else CreateDirectory_loop (S (length path)) [] path baseLen.

Definition CreateSymlink (targetPath symlinkPath : bytes) : st afs Z :=
  e ← symlink_ targetPath symlinkPath;
  sret (match e with None => ARCHIVE_OK | Some _ => ARCHIVE_INTERNAL_ERROR end).

(** [ValidateSymlinkTarget] with the [realpath] of the output directory. *)
Definition ValidateSymlinkIn (targetPath entryName outDir : bytes) : st afs Z :=
  match targetPath with
  | [] => sret ARCHIVE_INTERNAL_ERROR
  | _ =>
      r ← realpath_ outDir;
      sret (ValidateSymlinkTarget targetPath entryName
              (match r with inl resolved => Some resolved | inr _ => None end))
  end.

Definition CreateParentDirectory (filePath : bytes) (base : option bytes) : st afs Z :=
  if zlen filePath >=? ZIP_FILE_NAME_LEN_MAX then sret ARCHIVE_INTERNAL_ERROR else
  match FindLastSeparator filePath with
  | None => sret ARCHIVE_OK
  | Some parentPathLen =>
      if parentPathLen >=? ZIP_FILE_NAME_LEN_MAX then sret ARCHIVE_FULL_PATH_TOO_LONG else
      match strncpy_s ZIP_FILE_NAME_LEN_MAX filePath parentPathLen with
      | None => sret ARCHIVE_INTERNAL_ERROR
      | Some [] => sret ARCHIVE_OK
      | Some parentPath => CreateDirectory parentPath base
      end
  end.

Definition IsFileExists (fileName : bytes) : st afs Z :=
  r ← stat_ true fileName;
  sret (match r with inl _ => ARCHIVE_OK | inr _ => ARCHIVE_EXIST_ERROR end).

Definition IsSymlinkExists (fileName : bytes) : st afs Z :=
  r ← stat_ false fileName;
  sret (match r with inl (ALink _) => ARCHIVE_OK | _ => ARCHIVE_EXIST_ERROR end).

(** "name (2).ext" *)
Definition numbered (dir base ext : bytes) (counter : Z) : bytes :=
  let dir := if starts_with [DOT; SLASH] dir then drop 2 dir else dir in
  dir ++ base ++ bytes_of " (" ++ bytes_of (pretty counter) ++ bytes_of ")" ++ ext.

(** The first number from [counter] on whose name is free. *)
Fixpoint TryNewFileNameCount (fuel : nat) (dir base ext : bytes) (newPathSize counter : Z) :
    st afs (Z * bytes) :=
  match fuel with
  | O => λ _, None
  | S fuel =>
      match snprintf_s ZIP_FILE_NAME_LEN_MAX (numbered dir base ext counter) with
      | None => sret (ARCHIVE_EXIST_ERROR, [])
      | Some tempPath =>
          there ← access_ tempPath;
          if negb there then
            sret (match strncpy_s newPathSize tempPath newPathSize with
                  | None => (ARCHIVE_EXIST_ERROR, [])
                  | Some newPath => (ARCHIVE_OK, newPath)
                  end)
          else
            let counter := counter + 1 in
            if counter >=? MAX_RENAME_COUNT then sret (ARCHIVE_EXIST_ERROR, [])
            else TryNewFileNameCount fuel dir base ext newPathSize counter
      end
  end.

(** The last dot of a name, and what is before and from it on. *)
Fixpoint split_dot (s : bytes) : option (bytes * bytes) :=
  match s with
  | [] => None
  | c :: s' =>
      match split_dot s' with
      | Some (b, e) => Some (c :: b, e)
      | None => if c =? DOT then Some ([], s) else None
      end
  end.

Definition GenerateNewFilename (originalPath : bytes) (newPathSize : Z) : st afs (Z * bytes) :=
  if newPathSize =? 0 then sret (ARCHIVE_PARAM_ERROR, []) else
  let '(dir, filename) := match split_last originalPath with
                          | Some (d, n) => (d ++ [SLASH], n)
                          | None => ([DOT; SLASH], originalPath)
                          end in
  let '(base, ext) := match split_dot filename with
                      | Some (b, e) => (b, e)
                      | None => (filename, [])
                      end in
  match strcpy_s ZIP_FILE_NAME_LEN_MAX dir, strcpy_s ZIP_FILE_NAME_LEN_MAX base,
        strcpy_s ZIP_FILE_NAME_LEN_MAX ext with
  | Some dir, Some base, Some ext =>
      TryNewFileNameCount (Z.to_nat MAX_RENAME_COUNT) dir base ext newPathSize 2
  | _, _, _ => sret (ARCHIVE_EXIST_ERROR, [])
  end.

(** The file, and the directories above it that are empty then, down to the root. *)
Fixpoint DeleteParents (fuel : nat) (rootPath parentPath : bytes) : st afs unit :=
  match fuel with
  | O => λ _, None
  | S fuel =>
      if zlen rootPath <? zlen parentPath then
        e ← remove_ parentPath;
        match e with
        | Some _ => sret tt
        | None =>
            match strncpy_s ZIP_FILE_NAME_LEN_MAX parentPath (zlen parentPath) with
            | None => sret tt
            | Some tempParentPath =>
                let '(ret, parentPath) := GetParentDirectory (Some tempParentPath) ZIP_FILE_NAME_LEN_MAX in
                if negb (ret =? ARCHIVE_OK) then sret tt else DeleteParents fuel rootPath parentPath
            end
        end
      else sret tt
  end.
Definition DeleteTempFileWithRootPath (rootPath file : bytes) : st afs unit :=
  e ← remove_ file;
  match e with
  | Some _ => sret tt
  | None =>
      let '(ret, parentPath) := GetParentDirectory (Some file) ZIP_FILE_NAME_LEN_MAX in
      if negb (ret =? ARCHIVE_OK) then sret tt
      else DeleteParents (S (S (length file))) rootPath parentPath
  end.

(** ** Helpers of zip_writer.c *)
Definition IsSymlink (path : bytes) : st afs bool :=
  r ← stat_ false path; sret (match r with inl (ALink _) => true | _ => false end).

Definition ReadSymlink (path : bytes) (maxTargetPath : Z) : st afs (Z * bytes) :=
  r ← readlink_ path (maxTargetPath - 1);
  sret (match r with inl target => (ARCHIVE_OK, target) | inr _ => (ARCHIVE_EXIST_ERROR, []) end).

Definition GetFileSize (infile : bytes) : st afs Z :=
  r ← stat_ true infile; sret (match r with inl n => st_size n | inr _ => 0 end).

Definition IsDir (path : bytes) : st afs bool := IsDirectoryExists path.
End utils.
