(* ===== verification/ArchiveMonad.v ===== *)
(** * The state the zip code runs on

    A reader or writer of its own, the file system below it, and the values its
    progress handler has been given: the monad of ZipReader and ZipWriter. *)

From S2P Require Import Prelude Bytes ArchiveFs.

Record appstate (R : Type) := App { own : R; fs : afs; reported : list Z }.
Arguments App {R}. Arguments own {R}. Arguments fs {R}. Arguments reported {R}.

Section appstate.
Context {R : Type}.

Definition io {A} (m : st afs A) : st (appstate R) A := λ s,
  match m (fs s) with None => None | Some (a, f) => Some (a, App (own s) f (reported s)) end.
Definition asks {A} (f : R → A) : st (appstate R) A := λ s, Some (f (own s), s).
Definition modify (f : R → R) : st (appstate R) unit := λ s,
  Some (tt, App (f (own s)) (fs s) (reported s)).

(** A call of the progress handler, and its answer. *)
Definition report {AE : AEnv} (ratio : Z) : st (appstate R) Z := λ s,
  Some (a_progress (length (reported s)), App (own s) (fs s) (reported s ++ [ratio])).

(** [RETURN_IF_FAIL] *)
Definition if_ok {S} (ret : Z) (k : st S Z) : st S Z := if negb (ret =? 0) then sret ret else k.

Lemma wp_io {A} (m : st afs A) (Q : A → appstate R → Prop) s :
  wp m (λ a f, Q a (App (own s) f (reported s))) (fs s) → wp (io m) Q s.
Proof. unfold wp, io. by destruct (m (fs s)) as [[a f]|]. Qed.
Lemma wp_asks {A} (f : R → A) (Q : A → appstate R → Prop) s : Q (f (own s)) s → wp (asks f) Q s.
Proof. done. Qed.
Lemma wp_modify (f : R → R) (Q : unit → appstate R → Prop) s :
  Q tt (App (f (own s)) (fs s) (reported s)) → wp (modify f) Q s.
Proof. done. Qed.
Lemma wp_if_ok {S} ret (k : st S Z) (Q : Z → S → Prop) s :
  (ret ≠ 0 → Q ret s) → (ret = 0 → wp k Q s) → wp (if_ok ret k) Q s.
Proof. unfold if_ok. intros H1 H2. destruct (ret =? 0) eqn:E; zbool; cbn [negb]; [auto|apply wp_ret; auto]. Qed.
End appstate.

Definition OH_ARCHIVE_NO_COMPRESSION : Z := 0.
Definition OH_ARCHIVE_COMPRESS_DEFLATE : Z := 8.
Definition OH_ARCHIVE_PROGRESS_CONTINUE : Z := 0.
Definition OH_ARCHIVE_PROGRESS_CANCEL : Z := 1.
Definition PROGRESS_PERCENT : Z := 100.
