(* ===== verification/ZipReaderImpl.v ===== *)
(** * Finding and decoding the records of an archive

    zip_reader_impl.c: the search for the end record, the check of the central
    directory's place, the headers of entries and their extra fields.  Records
    are decoded with [unpack]; [EOCDInfo] collects what the source returns through
    pointers. *)

From S2P Require Import Prelude Bytes ZipFormat ArchiveErr ArchivePath ArchiveFs ArchiveStream.

(** [GetLittleEndianValue] of archive_macros.h. *)
Definition GetLittleEndianValue (buf : bytes) (n : nat) : Z :=
  fold_left (λ value i, u64 (value + Z.shiftl (nth i buf 0) (Z.of_nat i * 8)))
    (seq 1 (n - 1)) (nth 0 buf 0).

Record EOCDInfo := mkEOCDInfo {
  endOfCentralDir : EndOfCentralDir; offsetOfEOCD : Z;
  endOfCentralDir64 : EndOfCentralDir64; offsetOfEOCD64 : Z; isZip64 : Z
}.
Definition set_eocd (e : EndOfCentralDir) (i : EOCDInfo) : EOCDInfo :=
  mkEOCDInfo e (offsetOfEOCD i) (endOfCentralDir64 i) (offsetOfEOCD64 i) (isZip64 i).
Definition set_offsetOfEOCD (o : Z) (i : EOCDInfo) : EOCDInfo :=
  mkEOCDInfo (endOfCentralDir i) o (endOfCentralDir64 i) (offsetOfEOCD64 i) (isZip64 i).
Definition set_eocd64 (e : EndOfCentralDir64) (i : EOCDInfo) : EOCDInfo :=
  mkEOCDInfo (endOfCentralDir i) (offsetOfEOCD i) e (offsetOfEOCD64 i) (isZip64 i).
Definition set_offsetOfEOCD64 (o : Z) (i : EOCDInfo) : EOCDInfo :=
  mkEOCDInfo (endOfCentralDir i) (offsetOfEOCD i) (endOfCentralDir64 i) o (isZip64 i).
Definition set_isZip64 (z : Z) (i : EOCDInfo) : EOCDInfo :=
  mkEOCDInfo (endOfCentralDir i) (offsetOfEOCD i) (endOfCentralDir64 i) (offsetOfEOCD64 i) z.

Record ReadZip64ExtraField := mkReadZip64ExtraField {
  zf_uncompressedSize : Z; zf_compressedSize : Z; zf_relativeOffsetOfLocalHeader : Z;
  zf_diskNumberStart : Z
}.

(** ** In a buffer *)

Definition OFFSET_ADJUSTMENT_1 : Z := 1.
Definition OFFSET_ADJUSTMENT_2 : Z := 2.
Definition OFFSET_ADJUSTMENT_3 : Z := 3.
Definition OFFSET_ADJUSTMENT_4 : Z := 4.

Definition at_ (pos : Z) (buf : bytes) : bytes := drop (Z.to_nat pos) buf.

(** The position the loop of [ZipSearchEOCDFromback] stops at, if it is not negative. *)
Fixpoint search_signature (fuel : nat) (buffer : bytes) (cur : Z) : option Z :=
  match fuel with
  | O => None
  | S fuel =>
      if cur <? 0 then None else
      let b := nth (Z.to_nat cur) buffer 0 in
      if b =? 0x50 then
        if negb (GetLittleEndianValue (at_ cur buffer) 4 =? ZIP_MAGIC_ENDHEADER)
        then search_signature fuel buffer (cur - OFFSET_ADJUSTMENT_4)
        else Some cur
      else if b =? 0x4b then search_signature fuel buffer (cur - OFFSET_ADJUSTMENT_1)
      else if b =? 0x05 then search_signature fuel buffer (cur - OFFSET_ADJUSTMENT_2)
      else if b =? 0x06 then search_signature fuel buffer (cur - OFFSET_ADJUSTMENT_3)
      else search_signature fuel buffer (cur - OFFSET_ADJUSTMENT_4)
  end.

Definition ZipReadEOCD (buf : bytes) (pos : Z) : Z * EndOfCentralDir :=
  let eocd := unpack (A:=EndOfCentralDir) (at_ pos buf) in
  (if negb (eocd_totalNumberOfEntriesOnThisDisk eocd =? eocd_totalNumberOfEntries eocd)
   then ARCHIVE_FORMAT_ERROR else ARCHIVE_OK, eocd).

Definition ZipReadZip64ExtraField (extraField : bytes) (cur dataSize : Z)
    (field : ReadZip64ExtraField) : ReadZip64ExtraField :=
  let at8 pos := GetLittleEndianValue (at_ (cur + pos) extraField) 8 in
  if 8 >? dataSize then field else
  let '(field, pos) :=
    if zf_uncompressedSize field =? UINT32_MAX
    then (mkReadZip64ExtraField (at8 0) (zf_compressedSize field)
            (zf_relativeOffsetOfLocalHeader field) (zf_diskNumberStart field), 8)
    else (field, 0) in
  if pos + 8 >? dataSize then field else
  let '(field, pos) :=
    if zf_compressedSize field =? UINT32_MAX
    then (mkReadZip64ExtraField (zf_uncompressedSize field) (at8 pos)
            (zf_relativeOffsetOfLocalHeader field) (zf_diskNumberStart field), pos + 8)
    else (field, pos) in
  if pos + 8 >? dataSize then field else
  let '(field, pos) :=
    if zf_relativeOffsetOfLocalHeader field =? UINT32_MAX
    then (mkReadZip64ExtraField (zf_uncompressedSize field) (zf_compressedSize field)
            (at8 pos) (zf_diskNumberStart field), pos + 8)
    else (field, pos) in
  if pos + 4 >? dataSize then field else
  if zf_diskNumberStart field =? UINT16_MAX
  then mkReadZip64ExtraField (zf_uncompressedSize field) (zf_compressedSize field)
         (zf_relativeOffsetOfLocalHeader field)
         (u32 (GetLittleEndianValue (at_ (cur + pos) extraField) 4))
  else field.

(** The result, and the name that replaces [fileName]. *)
Definition ZipReadUnicodePathExtraField (crc32 : Z → bytes → Z) (extraField : bytes)
    (cur dataSize : Z) (fileName : bytes) (filenameSize : Z) : Z * bytes :=
  let version := u8 (GetLittleEndianValue (at_ cur extraField) 1) in
  if negb (version =? 1) then (ARCHIVE_FORMAT_ERROR, fileName) else
  let fileNameCrc := u32 (GetLittleEndianValue (at_ (cur + 1) extraField) 4) in
  if negb (fileNameCrc =? crc32 0 (slice 0 filenameSize fileName)) then (ARCHIVE_CRC_ERROR, fileName) else
  let fileNameSize := u16 (dataSize - 5) in
  if fileNameSize >? ZIP_FILE_NAME_LEN_MAX
  then (ARCHIVE_MEM_ERROR, replicate (Z.to_nat ZIP_FILE_NAME_LEN_MAX) 0)   (* [memcpy_s] clears it *)
  else (ARCHIVE_OK, slice (cur + 5) fileNameSize extraField).

Definition ZipReadGetPkVerify (date crc flag : Z) : Z :=
  if negb (Z.land flag ZIP_FLAG_DATA_DESCRIPTOR =? 0)
  then u16 (Z.lor (Z.shiftl (Z.land (Z.shiftr date 16) 0xff) 8) (Z.land (Z.shiftr date 8) 0xff))
  else u16 (Z.lor (Z.shiftl (Z.land (Z.shiftr crc 16) 0xff) 8) (Z.land (Z.shiftr crc 24) 0xff)).

(** ** In the file *)
Section impl.
Context {AE : AEnv}.

Definition ZipCheckSignature (stream : FileStream) (check : Z) : st afs (Z * FileStream) :=
  '(read, data, stream) ← FileStreamRead stream ZIP_SIZE_SIGNATURE;
  sret (if negb (read =? ZIP_SIZE_SIGNATURE) then ARCHIVE_INTERNAL_ERROR
        else if negb (le_value data =? check) then ARCHIVE_FORMAT_ERROR else ARCHIVE_OK, stream).

Definition ZipReadEOCD64 (stream : FileStream) (info : EOCDInfo) (buf : bytes) (pos : Z) :
    st afs (Z * EOCDInfo * FileStream) :=
  let eocdLocator64 := unpack (A:=EndOfCentralDirLocator64) (at_ pos buf) in
  let offset := loc64_offsetOfEOCD64 eocdLocator64 in
  let info := set_offsetOfEOCD64 offset info in
  '(ret, stream) ← FileStreamSeek stream (i64 offset) SEEK_SET;
  if negb (ret =? 0) then sret (ret, info, stream) else
  '(read, data, stream) ← FileStreamRead stream (sizeof EndOfCentralDir64);
  if negb (read =? sizeof EndOfCentralDir64) then sret (ARCHIVE_FORMAT_ERROR, info, stream) else
  let eocd64 := unpack (A:=EndOfCentralDir64) data in
  let info := set_eocd64 eocd64 info in
  sret (if negb (eocd64_signature eocd64 =? ZIP_MAGIC_ENDHEADER64) then ARCHIVE_FORMAT_ERROR
        else if negb (eocd64_totalNumberOfEntriesOnThisDisk eocd64 =? eocd64_totalNumberOfEntries eocd64)
        then ARCHIVE_FORMAT_ERROR else ARCHIVE_OK, info, stream).

Definition ZipSearchEOCD64 (stream : FileStream) (info : EOCDInfo) (buffer : bytes) (cur : Z) :
    st afs (Z * EOCDInfo * FileStream) :=
  if cur <? ZIP_SIZE_CD_LOCATOR64 then sret (ARCHIVE_FORMAT_ERROR, info, stream)
  else if GetLittleEndianValue (at_ (cur - ZIP_SIZE_CD_LOCATOR64) buffer) 4 =? ZIP_MAGIC_ENDLOCHEADER64
  then ZipReadEOCD64 stream info buffer (cur - ZIP_SIZE_CD_LOCATOR64)
  else sret (ARCHIVE_OK, info, stream).

Definition ZipSearchEOCDFromback (stream : FileStream) (buffer : bytes) (maxRead : Z)
    (info : EOCDInfo) (fileSize : Z) : st afs (Z * EOCDInfo * FileStream) :=
  match search_signature (S (length buffer)) buffer (maxRead - ZIP_SIZE_EOCD_FIXED) with
  | None => sret (ARCHIVE_FORMAT_ERROR, info, stream)
  | Some cur =>
      let '(ret, eocd) := ZipReadEOCD buffer cur in
      let info := set_eocd eocd info in
      if negb (ret =? 0) then sret (ret, info, stream) else
      let info := set_offsetOfEOCD (fileSize - (maxRead - cur)) info in
      if negb (eocd_totalNumberOfEntries eocd =? UINT16_MAX)
         && negb (eocd_offsetOfCentralDir eocd =? UINT32_MAX)
      then sret (ARCHIVE_OK, info, stream)
      else ZipSearchEOCD64 stream (set_isZip64 1 info) buffer cur
  end.

Definition ZipSearchEOCD (stream : FileStream) (info : EOCDInfo) : st afs (Z * EOCDInfo * FileStream) :=
  '(ret, stream) ← FileStreamSeek stream 0 SEEK_END;
  if negb (ret =? 0) then sret (ret, info, stream) else
  fileSize ← FileStreamTell stream;
  if fileSize <? 0 then sret (fileSize, info, stream) else
  let maxRead := ZIP_SIZE_MAX_GLOBAL_COMMENT + ZIP_SIZE_EOCD_FIXED + ZIP_SIZE_CD_LOCATOR64 in
  let maxRead := if fileSize <? maxRead then fileSize else maxRead in
  m ← malloc_;
  match m with
  | None => sret (ARCHIVE_MEM_ERROR, info, stream)
  | Some _ =>
      '(ret, stream) ← FileStreamSeek stream (- maxRead) SEEK_END;
      if negb (ret =? ARCHIVE_OK) then sret (ret, info, stream) else
      '(read, buffer, stream) ← FileStreamRead stream maxRead;
      if negb (read =? maxRead) then sret (ARCHIVE_INTERNAL_ERROR, info, stream) else
      ZipSearchEOCDFromback stream buffer maxRead info fileSize
  end.

(** The place, the size and the correction of the central directory. *)
Record CDPlace := mkCDPlace { cd_offset : Z; cd_size : Z; cd_correction : Z }.

(** What [ZipCheckAndCorrectCentralDirOffset] checks last. *)
Definition CheckPlace (offsetOfEOCD : Z) (p : CDPlace) (stream : FileStream) : Z * CDPlace * FileStream :=
  (if (offsetOfEOCD <? cd_offset p) || (cd_correction p <? 0) then ARCHIVE_FORMAT_ERROR
   else ARCHIVE_OK, p, stream).

Definition ZipCheckAndCorrectCentralDirOffset (stream : FileStream) (offsetOfEOCD isZip64 : Z)
    (offsetOfCentralDir sizeOfCentralDir : Z) : st afs (Z * CDPlace * FileStream) :=
  let place := mkCDPlace offsetOfCentralDir sizeOfCentralDir 0 in
  '(ret, stream) ← FileStreamSeek stream (i64 offsetOfCentralDir) SEEK_SET;
  if negb (ret =? 0) then sret (ret, place, stream) else
  '(sig, stream) ← ZipCheckSignature stream ZIP_MAGIC_CENTRALHEADER;
  if sig =? ARCHIVE_OK then
    sret (CheckPlace offsetOfEOCD
            (if offsetOfEOCD <? offsetOfCentralDir +₆₄ sizeOfCentralDir
             then mkCDPlace offsetOfCentralDir (offsetOfEOCD -₆₄ offsetOfCentralDir) 0 else place) stream)
  else if (offsetOfEOCD >? UINT32_MAX) && (isZip64 =? 0) then sret (ARCHIVE_FORMAT_ERROR, place, stream)
  else
    let start := offsetOfEOCD -₆₄ sizeOfCentralDir in
    '(ret, stream) ← FileStreamSeek stream (i64 start) SEEK_SET;
    if negb (ret =? 0) then sret (ret, place, stream) else
    '(sig, stream) ← ZipCheckSignature stream ZIP_MAGIC_CENTRALHEADER;
    if sig =? ARCHIVE_OK then
      sret (CheckPlace offsetOfEOCD
              (mkCDPlace start sizeOfCentralDir (i64 (start - offsetOfCentralDir))) stream)
    else if sizeOfCentralDir =? 0 then sret (CheckPlace offsetOfEOCD place stream)
    else sret (ARCHIVE_FORMAT_ERROR, place, stream).

Definition ZipReadExtraFieldBuffer (stream : FileStream) (extraFieldPos extraFieldLength : Z) :
    st afs (Z * bytes * FileStream) :=
  if extraFieldLength =? 0 then sret (ARCHIVE_OK, [], stream) else
  '(ret, stream) ← FileStreamSeek stream (i64 extraFieldPos) SEEK_SET;
  if negb (ret =? 0) then sret (ret, [], stream) else
  '(read, extraField, stream) ← FileStreamRead stream extraFieldLength;
  sret (if negb (read =? extraFieldLength) then ARCHIVE_READ_ERROR else ARCHIVE_OK, extraField, stream).

Definition ZipReadCentralDirHeader (stream : FileStream) (pos : Z) :
    st afs (Z * option ReadCentralDirHeader * FileStream) :=
  '(ret, stream) ← FileStreamSeek stream (i64 pos) SEEK_SET;
  if negb (ret =? 0) then sret (ret, None, stream) else
  '(read, sig, stream) ← FileStreamRead stream ZIP_SIZE_SIGNATURE;
  if negb (read =? ZIP_SIZE_SIGNATURE) then sret (ARCHIVE_FORMAT_ERROR, None, stream) else
  let signature := le_value sig in
  if negb (signature =? ZIP_MAGIC_CENTRALHEADER) then
    sret (if (signature =? ZIP_MAGIC_ENDHEADER) || (signature =? ZIP_MAGIC_ENDHEADER64)
          then ARCHIVE_END_OF_LIST else ARCHIVE_FORMAT_ERROR, None, stream)
  else
  '(read, data, stream) ← FileStreamRead stream (sizeof ReadCentralDirHeader);
  if negb (read =? sizeof ReadCentralDirHeader) then sret (ARCHIVE_FORMAT_ERROR, None, stream) else
  sret (ARCHIVE_OK, Some (unpack data), stream).

(** A try to find a local header at [pos]. *)
Definition TryLocalHeader (stream : FileStream) (pos : Z) : st afs (bool * FileStream) :=
  '(ret, stream) ← FileStreamSeek stream (i64 pos) SEEK_SET;
  if negb (ret =? ARCHIVE_OK) then sret (false, stream) else
  '(sig, stream) ← ZipCheckSignature stream ZIP_MAGIC_LOCALHEADER;
  sret (sig =? ARCHIVE_OK, stream).

Definition ZipSeekAndCheckLocalHeader (stream : FileStream)
    (relativeOffsetOfLocalHeader offsetCorrection : Z) : st afs (Z * FileStream) :=
  let corrected := relativeOffsetOfLocalHeader +₆₄ offsetCorrection in
  '(needCorrect, stream) ←
    (if (offsetCorrection >? 0) && (relativeOffsetOfLocalHeader <=? 2 ^ 64 - 1 - offsetCorrection)
     then TryLocalHeader stream corrected else sret (false, stream));
  if needCorrect : bool then FileStreamSeek stream (i64 corrected) SEEK_SET else
  '(found, stream) ← TryLocalHeader stream relativeOffsetOfLocalHeader;
  if negb found then sret (ARCHIVE_FORMAT_ERROR, stream)
  else FileStreamSeek stream (i64 relativeOffsetOfLocalHeader) SEEK_SET.
End impl.

(** ** Little-endian values *)

Lemma le_value_app a b : le_value (a ++ b) = le_value a + 256 ^ zlen a * le_value b.
Proof.
  unfold zlen. induction a as [|x a IH]; cbn [app le_value length]; [lia|]. rewrite IH, pow256_S. lia.
Qed.

Lemma take_S_nth (l : bytes) i : (i < length l)%nat → take (S i) l = take i l ++ [nth i l 0].
Proof.
  revert l. induction i as [|i IH]; intros [|x l] H; cbn in *; try lia; [done|]. by rewrite <- IH by lia.
Qed.

(** The value read so far is that of the first [i] bytes. *)
Lemma GetLittleEndianValue_loop buf k i :
  Forall is_byte buf → (i + k <= 8)%nat → (i + k <= length buf)%nat →
  fold_left (λ value i, u64 (value + Z.shiftl (nth i buf 0) (Z.of_nat i * 8))) (seq i k)
    (le_value (take i buf)) = le_value (take (i + k) buf).
Proof.
  intros Hb. revert i. induction k as [|k IH]; intros i H8 Hl; cbn [seq fold_left]; [by rewrite Nat.add_0_r|].
  rewrite Nat.add_succ_r, <- Nat.add_succ_l, <- IH by lia. f_equal.
  assert (Z.shiftl (nth i buf 0) (Z.of_nat i * 8) = 256 ^ Z.of_nat i * nth i buf 0) as ->.
  { rewrite Z.shiftl_mul_pow2 by lia. rewrite (Z.mul_comm (Z.of_nat i)), Z.pow_mul_r by lia. apply Z.mul_comm. }
  pose proof (le_value_range (take (S i) buf) ltac:(by apply Forall_take)) as Hr.
  assert (zlen (take i buf) = Z.of_nat i) as Hi by (rewrite zlen_take; unfold zlen; lia).
  rewrite take_S_nth, le_value_app, zlen_app, Hi in Hr by lia.
  rewrite take_S_nth, le_value_app, Hi by lia.
  cbn [le_value] in *. rewrite Z.mul_0_r, Z.add_0_r in *. apply u64_id. split; [lia|].
  eapply Z.lt_le_trans; [apply Hr|]. change (2 ^ 64) with (256 ^ 8). apply Z.pow_le_mono_r; [lia|].
  cbn. unfold zlen. cbn. lia.
Qed.

Lemma GetLittleEndianValue_eq buf n :
  Forall is_byte buf → (1 <= n <= 8)%nat → (n <= length buf)%nat →
  GetLittleEndianValue buf n = le_value (take n buf).
Proof.
  intros Hb Hn Hl. unfold GetLittleEndianValue.
  assert (nth 0 buf 0 = le_value (take 1 buf)) as -> by
    (destruct buf as [|b buf]; [cbn in Hl; lia|]; change (take 1 (b :: buf)) with [b];
     cbn [nth le_value]; lia).
  rewrite GetLittleEndianValue_loop by (done || lia). do 2 f_equal. lia.
Qed.

(** ** The search for the end record *)

Definition byte_at (buf : bytes) (q : Z) : Z := nth (Z.to_nat q) buf 0.

(** The signature of the end record at [q]. *)
Definition sig_at (buf : bytes) (q : Z) : Prop :=
  byte_at buf q = 0x50 ∧ byte_at buf (q + 1) = 0x4b ∧ byte_at buf (q + 2) = 0x05
  ∧ byte_at buf (q + 3) = 0x06.

Lemma drop_four (buf : bytes) q :
  0 <= q → q + 3 < zlen buf →
  take 4 (at_ q buf) = [byte_at buf q; byte_at buf (q + 1); byte_at buf (q + 2); byte_at buf (q + 3)].
Proof.
  intros Hq Hl. unfold at_, byte_at, zlen in *. rewrite !Z2Nat.inj_add by lia.
  set (k := Z.to_nat q). change (Z.to_nat 1) with 1%nat. change (Z.to_nat 2) with 2%nat.
  change (Z.to_nat 3) with 3%nat. assert (k + 3 < length buf)%nat as Hk by lia. clearbody k. clear q Hq Hl.
  revert buf Hk. induction k as [|k IH]; intros buf Hk.
  - destruct buf as [|a [|b [|c [|d buf]]]]; cbn in Hk; try lia. done.
  - destruct buf as [|a buf]; cbn in Hk; [lia|]. cbn. apply IH. lia.
Qed.

Lemma magic_sig_at buf q :
  Forall is_byte buf → 0 <= q → q + 3 < zlen buf →
  GetLittleEndianValue (at_ q buf) 4 = ZIP_MAGIC_ENDHEADER ↔ sig_at buf q.
Proof.
  intros Hb Hq Hl.
  assert (Forall is_byte (at_ q buf)) as Hb' by by apply Forall_drop.
  assert (4 <= length (at_ q buf))%nat as Hl' by (unfold at_, zlen in *; rewrite length_drop; lia).
  rewrite GetLittleEndianValue_eq by (done || lia).
  assert (Forall is_byte (take 4 (at_ q buf))) as Hb4 by by apply Forall_take.
  rewrite drop_four in * by done. unfold is_byte in Hb4. rewrite !Forall_cons in Hb4.
  destruct Hb4 as (H1 & H2 & H3 & H4 & _). unfold sig_at, ZIP_MAGIC_ENDHEADER. cbn [le_value].
  set (a := byte_at buf q) in *. set (b := byte_at buf (q + 1)) in *.
  set (c := byte_at buf (q + 2)) in *. set (d := byte_at buf (q + 3)) in *. clearbody a b c d. lia.
Qed.

Definition last_sig (buf : bytes) (hi : Z) (r : option Z) : Prop :=
  match r with
  | Some p => 0 <= p <= hi ∧ sig_at buf p ∧ ∀ q, p < q <= hi → ¬ sig_at buf q
  | None => ∀ q, 0 <= q <= hi → ¬ sig_at buf q
  end.

Lemma last_sig_skip buf hi k r :
  0 < k → (∀ q, hi - k < q <= hi → 0 <= q → ¬ sig_at buf q) → last_sig buf (hi - k) r → last_sig buf hi r.
Proof.
  intros Hk Hn. destruct r as [p|]; cbn.
  - intros (H1 & H2 & H3). split; [lia|]. split; [done|]. intros q Hq.
    destruct (Z_lt_le_dec (hi - k) q); [apply Hn; lia|apply H3; lia].
  - intros H q Hq. destruct (Z_lt_le_dec (hi - k) q); [apply Hn; lia|apply H; lia].
Qed.

Lemma search_signature_last fuel buf hi :
  Forall is_byte buf → hi + 3 < zlen buf → hi < Z.of_nat fuel →
  last_sig buf hi (search_signature fuel buf hi).
Proof.
  revert hi. induction fuel as [|fuel IH]; intros hi Hb Hl Hf; cbn [search_signature].
  { intros q Hq. lia. }
  destruct (hi <? 0) eqn:E; zbool; [intros q Hq; lia|].
  fold (byte_at buf hi). pose proof (magic_sig_at buf hi Hb E Hl) as Hm.
  assert (Hskip : ∀ k, 0 < k <= 4 → (1 < k → byte_at buf hi ≠ 0x4b) → (2 < k → byte_at buf hi ≠ 0x05) →
    (3 < k → byte_at buf hi ≠ 0x06) → ¬ sig_at buf hi →
    last_sig buf hi (search_signature fuel buf (hi - k))).
  { intros k Hk H1 H2 H3 H4. apply (last_sig_skip _ _ k); [lia| |apply IH; [done|lia|lia]].
    intros q Hq Hq0 Hs. pose proof Hs as (_ & S1 & S2 & S3).
    assert (q = hi ∨ q + 1 = hi ∨ q + 2 = hi ∨ q + 3 = hi) as [->|[E1|[E1|E1]]] by lia; [done| | |];
      rewrite E1 in *; [apply H1|apply H2|apply H3]; (lia || done). }
  unfold OFFSET_ADJUSTMENT_1, OFFSET_ADJUSTMENT_2, OFFSET_ADJUSTMENT_3, OFFSET_ADJUSTMENT_4.
  destruct (byte_at buf hi =? 0x50) eqn:E0; zbool.
  - destruct (GetLittleEndianValue _ _ =? ZIP_MAGIC_ENDHEADER) eqn:E1; zbool; cbn [negb].
    + split; [lia|]. split; [by apply Hm|]. intros q Hq. lia.
    + apply Hskip; try (rewrite E0; done); [lia|]. intros Hs. by apply E1, Hm.
  - assert (¬ sig_at buf hi) by (by intros [? _]).
    destruct (byte_at buf hi =? 0x4b) eqn:E1; zbool; [apply Hskip; [lia|lia|lia|lia|done]|].
    destruct (byte_at buf hi =? 0x05) eqn:E2; zbool; [apply Hskip; [lia|done|lia|lia|done]|].
    destruct (byte_at buf hi =? 0x06) eqn:E3; zbool; apply Hskip; (lia || done).
Qed.

(** A search has one answer. *)
Lemma last_sig_unique buf hi r r' : last_sig buf hi r → last_sig buf hi r' → r = r'.
Proof.
  destruct r as [p|], r' as [p'|]; cbn; intros H H'; [|by destruct H as (?&?&_); edestruct H'| |done].
  - f_equal. destruct H as (H1 & H2 & H3), H' as (H1' & H2' & H3').
    destruct (Z_lt_le_dec p p'); [by edestruct (H3 p'); [lia|]|].
    destruct (Z_lt_le_dec p' p); [by edestruct (H3' p); [lia|]|lia].
  - by destruct H' as (?&?&_); edestruct H.
Qed.

(** C13: going backwards in steps of up to four bytes, the search for the end record finds the last
    position at which its whole signature stands with room for the record, and finds nothing exactly
    when there is none. *)
Theorem search_finds_last_record buffer r :
  Forall is_byte buffer →
  search_signature (S (length buffer)) buffer (zlen buffer - ZIP_SIZE_EOCD_FIXED) = r
  ↔ last_sig buffer (zlen buffer - ZIP_SIZE_EOCD_FIXED) r.
Proof.
  intros Hb. assert (last_sig buffer (zlen buffer - ZIP_SIZE_EOCD_FIXED)
    (search_signature (S (length buffer)) buffer (zlen buffer - ZIP_SIZE_EOCD_FIXED))) as Hs.
  { apply search_signature_last; unfold ZIP_SIZE_EOCD_FIXED, zlen; (done || lia). }
  split; [by intros <-|]. by apply last_sig_unique.
Qed.
Lemma search_finds_last_record_witness :
  let buffer := [0x50; 0x4b; 0x50; 0x4b; 0x05; 0x06] ++ repeat 0 20 in
  Forall is_byte buffer ∧ last_sig buffer 4 (Some 2).
Proof.
  intros buffer. assert (Forall is_byte buffer) as Hb by (unfold is_byte; repeat constructor; cbn; lia).
  split; [exact Hb|]. apply (search_finds_last_record buffer (Some 2) Hb). reflexivity.
Defined.
