(* ===== verification/ZipReader.v ===== *)
(** * Reading and extracting an archive

    zip_reader.c: opening an archive, going through its central directory, and
    extracting every entry.  The functions run on the reader, the file system and
    the values the progress handler has been given.  An entry's data goes through
    a buffer that is cleared when the entry is opened. *)

From coqutil Require Import Datatypes.RecordSetters.
From S2P Require Import Prelude Bytes ZipFormat ZipTime ArchiveErr ArchivePath ArchiveText ArchiveFs ArchiveStream ArchiveUtils ArchiveMonad ZipReaderImpl.
Import TriangleBracketNotations.
#[local] Open Scope record_set.

(** ** Attributes *)
Definition S_IRUSR : Z := 0x100.
Definition S_IRGRP : Z := 0x20.
Definition S_IROTH : Z := 0x4.
Definition S_IWUSR : Z := 0x80.
Definition S_IWGRP : Z := 0x10.
Definition S_IWOTH : Z := 0x2.
Definition S_IXUSR : Z := 0x40.
Definition S_IXGRP : Z := 0x8.
Definition S_IXOTH : Z := 0x1.

Definition lors (l : list Z) : Z := fold_left Z.lor l 0.

Definition ZipAttribWin32ToPosix (win32Attrib : Z) : Z :=
  let posixAttrib := lors [S_IRUSR; S_IRGRP; S_IROTH] in
  let posixAttrib := if Z.land win32Attrib 0x01 =? 0
                     then lors [posixAttrib; S_IWUSR; S_IWGRP; S_IWOTH] else posixAttrib in
  if Z.land win32Attrib 0x400 =? 0x400 then Z.lor posixAttrib S_IFLNK
  else if Z.land win32Attrib 0x10 =? 0x10 then lors [posixAttrib; S_IFDIR; S_IXUSR; S_IXGRP; S_IXOTH]
  else Z.lor posixAttrib S_IFREG.

Definition ZipConvertAttrib (srcHostSys srcAttrib : Z) : Z * Z :=
  if (srcHostSys =? ZIP_HOST_SYSTEM_MSDOS) || (srcHostSys =? ZIP_HOST_SYSTEM_WINDOWS_NTFS)
  then (ARCHIVE_OK, ZipAttribWin32ToPosix srcAttrib)
  else if (srcHostSys =? ZIP_HOST_SYSTEM_UNIX) || (srcHostSys =? ZIP_HOST_SYSTEM_OSX_DARWIN)
          || (srcHostSys =? ZIP_HOST_SYSTEM_RISCOS)
  then (ARCHIVE_OK, if negb (Z.shiftr srcAttrib 16 =? 0) then Z.shiftr srcAttrib 16 else srcAttrib)
  else (ARCHIVE_SUPPORT_ERROR, 0).

Definition ZipIsSymlink (attrib versionMadeBy : Z) : bool :=
  let '(ret, posixAttrib) := ZipConvertAttrib (ZIP_HOST_SYSTEM versionMadeBy) attrib in
  (ret =? ARCHIVE_OK) && (Z.land posixAttrib S_IFMT =? S_IFLNK).

(** ** The reader *)
Record ZipReaderEntryInfo := mkZipReaderEntryInfo {
  ei_uncompressedSize : Z; ei_compressedSize : Z; ei_relativeOffsetOfLocalHeader : Z;
  ei_diskNumberStart : Z; ei_compressionMethod : Z; ei_aesVersion : Z; ei_aesStrength : Z;
  ei_pkVerify : Z; ei_isEncrypted : bool; ei_entryCrc : Z; ei_modifiedTime : Z;
  ei_useUnicodePath : bool; ei_entryName : bytes
}.
Definition no_entry : ZipReaderEntryInfo :=
  mkZipReaderEntryInfo 0 0 0 0 0 0 0 0 false 0 0 false [].

Definition zeroed {A} {P : Packed A} : A := of_fields [].
Definition no_info : EOCDInfo := mkEOCDInfo zeroed 0 zeroed 0 0.

Section reader.
Context {AE : AEnv} {ZL : Zlib} {IC : Iconv} (mktime : tm → Z).

Record ZipReader := mkZipReader {
  info : EOCDInfo;
  baseStream : FileStream; compressStream : option CompressStream; extractStream : option FileStream;
  outDir : bytes; fileIndex : Z; entryOpened : bool;
  centralDirHeader : ReadCentralDirHeader; localFileHeader : LocalFileHeader;
  entryInfo : ZipReaderEntryInfo;
  strongEncryptHeader : option (Z * Z * StrongEncryptionExtraFields);  (** headerID, size *)
  progressPrevious : Z; progressUpdated : Z;
  place : CDPlace; curCentralDirHeaderPos : Z; totalNumberOfEntries : Z;
  hasHandler : bool; progressTotal : Z
}.

Definition ZipReaderCreate (stream : FileStream) : ZipReader :=
  mkZipReader no_info stream None None [] 0 false zeroed zeroed no_entry None 0 0
    (mkCDPlace 0 0 0) 0 0 false 0.

Abbreviation rs := (appstate ZipReader).

(** An operation on the archive's stream. *)
Definition base {A} (m : FileStream → st afs (A * FileStream)) : st rs A :=
  b ← asks baseStream;
  '(a, b) ← io (m b);
  modify (λ r, r <| baseStream := b |>);;
  sret a.
Definition entry_ (f : ZipReaderEntryInfo → ZipReaderEntryInfo) : st rs unit :=
  modify (λ r, r <| entryInfo := f (entryInfo r) |>).

(** ** Extra fields *)

Definition ZipReaderProcessZip64ExtraField (extraField : bytes) (cur dataSize : Z) : st rs Z :=
  h ← asks centralDirHeader;
  let field := ZipReadZip64ExtraField extraField cur dataSize
                 (mkReadZip64ExtraField (rcd_uncompressedSize h) (rcd_compressedSize h)
                    (rcd_relativeOffsetOfLocalHeader h) (rcd_diskNumberStart h)) in
  entry_ (λ e, e <| ei_uncompressedSize := zf_uncompressedSize field |>
                 <| ei_compressedSize := zf_compressedSize field |>
                 <| ei_relativeOffsetOfLocalHeader := zf_relativeOffsetOfLocalHeader field |>
                 <| ei_diskNumberStart := zf_diskNumberStart field |>);;
  sret ARCHIVE_OK.

Definition ZipReaderProcessStrongEncryptExtraField (extraField : bytes) (cur dataSize : Z) : st rs Z :=
  if dataSize <? sizeof StrongEncryptionExtraFields then sret ARCHIVE_READ_ERROR else
  modify (λ r, r <| strongEncryptHeader := Some (0x0017, dataSize, unpack (at_ cur extraField)) |>);;
  sret ARCHIVE_OK.

(** One field; [cur] is behind its header. *)
Definition ProcessOneExtraField (headerID : Z) (extraField : bytes) (cur dataSize : Z) : st rs Z :=
  if headerID =? 0x0001 then ZipReaderProcessZip64ExtraField extraField cur dataSize
  else if headerID =? 0x0017 then ZipReaderProcessStrongEncryptExtraField extraField cur dataSize
  else if headerID =? 0x7075 then
    if dataSize <? EXTRA_FIELD_UNICODE_PATH_MIN_LEN then sret ARCHIVE_OK else
    h ← asks centralDirHeader;
    e ← asks entryInfo;
    let fileNameSize := Z.min (rcd_fileNameLength h) ZIP_FILE_NAME_LEN_MAX in
    let '(ret, name) := ZipReadUnicodePathExtraField z_crc32 extraField cur dataSize
                          (ei_entryName e) fileNameSize in
    entry_ (λ e, e <| ei_entryName := name |>);;
    (if ret =? ARCHIVE_OK then entry_ (λ e, e <| ei_useUnicodePath := true |>) else sret tt);;
    sret ret
  else sret ARCHIVE_OK.

Fixpoint ZipReaderProcessExtraField_loop (fuel : nat) (extraField : bytes) (extraFieldLength cur ret : Z) :
    st rs Z :=
  match fuel with
  | O => undefined
  | S fuel =>
      if negb ((ret =? ARCHIVE_OK) && (cur + EXTRA_FIELD_HEADER_BYTES <=? extraFieldLength))
      then sret ret else
      let headerID := u16 (GetLittleEndianValue (at_ cur extraField) 2) in
      let dataSize := u16 (GetLittleEndianValue (at_ (cur + 2) extraField) 2) in
      let cur := u16 (cur + EXTRA_FIELD_HEADER_BYTES) in
      let dataSize := if dataSize >? extraFieldLength - cur then u16 (extraFieldLength - cur) else dataSize in
      ret ← ProcessOneExtraField headerID extraField cur dataSize;
      ZipReaderProcessExtraField_loop fuel extraField extraFieldLength (u16 (cur + dataSize)) ret
  end.
Definition ZipReaderProcessExtraField (extraField : bytes) (extraFieldLength : Z) : st rs Z :=
  ZipReaderProcessExtraField_loop (S (length extraField)) extraField extraFieldLength 0 ARCHIVE_OK.

(** ** Going through the central directory *)

Definition ZipReaderProcessCentralDirHeader (offsetOfCentralDirHeader : Z) : st rs Z :=
  '(ret, header) ← base (λ b, ZipReadCentralDirHeader b offsetOfCentralDirHeader);
  (match header with Some h => modify (λ r, r <| centralDirHeader := h |>) | None => sret tt end);;
  if_ok ret (
  h ← asks centralDirHeader;
  let encrypted := negb (Z.land (rcd_flag h) ZIP_FLAG_ENCRYPTED =? 0) in
  entry_ (λ e, mkZipReaderEntryInfo (rcd_uncompressedSize h) (rcd_compressedSize h)
                 (rcd_relativeOffsetOfLocalHeader h) (rcd_diskNumberStart h) (rcd_compressionMethod h)
                 0 0
                 (if encrypted
                  then ZipReadGetPkVerify (rcd_dosModDateTime h) (rcd_crc32 h) (rcd_flag h) else 0)
                 encrypted (ei_entryCrc e) (ZipConvertDosDateToTime mktime (rcd_dosModDateTime h))
                 false (ei_entryName e));;
  sret ARCHIVE_OK).

Definition ZipReaderConvertFileNameEncoding (fileNameLen : Z) : st rs Z :=
  e ← asks entryInfo;
  let name := c_str (ei_entryName e) in
  if IsUTF8Str name then sret ARCHIVE_OK else
  let utf8NameSize := Z.min (u16 (fileNameLen * 4 + 1)) ZIP_FILE_NAME_LEN_MAX in
  utf8Name ← io (ConvertStrGBKToUTF8 name);
  match utf8Name with
  | None => sret ARCHIVE_OK
  | Some utf8Name =>
      match strncpy_s utf8NameSize utf8Name (zlen utf8Name) with
      | None => entry_ (λ e, e <| ei_entryName := [] |>);; sret ARCHIVE_INTERNAL_ERROR
      | Some name => entry_ (λ e, e <| ei_entryName := name |>);; sret ARCHIVE_OK
      end
  end.

Definition BACKSLASH : Z := 92.

Definition ZipReaderConvertPathSlash : st rs unit :=
  h ← asks centralDirHeader;
  let hostOS := ZIP_HOST_SYSTEM (rcd_versionMadeBy h) in
  if negb (hostOS =? ZIP_HOST_OS_FAT) && negb (hostOS =? ZIP_HOST_OS_NTFS)
     && negb (hostOS =? ZIP_HOST_OS_HPFS) && negb (hostOS =? ZIP_HOST_OS_VFAT)
  then sret tt
  else entry_ (λ e, e <| ei_entryName :=
                 map (λ c, if c =? BACKSLASH then SLASH else c) (c_str (ei_entryName e)) |>).

Definition ZipReaderGoToCentralDirHeader (offsetOfCentralDirHeader : Z) : st rs Z :=
  p ← asks place;
  if offsetOfCentralDirHeader >=? cd_offset p +₆₄ cd_size p then sret ARCHIVE_END_OF_LIST else
  ret ← ZipReaderProcessCentralDirHeader offsetOfCentralDirHeader;
  if_ok ret (
  h ← asks centralDirHeader;
  let fileNameLen := if rcd_fileNameLength h <? ZIP_FILE_NAME_LEN_MAX
                     then rcd_fileNameLength h else ZIP_FILE_NAME_LEN_MAX in
  '(read, name) ← base (λ b, FileStreamRead b fileNameLen);
  if negb (read =? fileNameLen) then sret ARCHIVE_READ_ERROR else
  entry_ (λ e, e <| ei_entryName := name |>);;
  m ← io malloc_;
  match m with
  | None => sret ARCHIVE_MEM_ERROR
  | Some _ =>
      '(ret, extraField) ← base (λ b, ZipReadExtraFieldBuffer b
          (offsetOfCentralDirHeader +₆₄ ZIP_SIZE_CD_ITEM +₆₄ rcd_fileNameLength h) (rcd_extraFieldLength h));
      if_ok ret (
      ret ← ZipReaderProcessExtraField extraField (rcd_extraFieldLength h);
      if_ok ret (
      e ← asks entryInfo;
      ret ← (if negb (ei_useUnicodePath e) && (Z.land (rcd_flag h) ZIP_FLAG_UTF8 =? 0)
             then ZipReaderConvertFileNameEncoding fileNameLen else sret ARCHIVE_OK);
      if_ok ret (ZipReaderConvertPathSlash;; sret ARCHIVE_OK)))
  end).

Definition ZipReaderGotoFirstCentralDirHeader : st rs Z :=
  modify (λ r, r <| fileIndex := 0 |>);;
  r ← asks id;
  let offsetOfFirstCentralDirHeader := cd_offset (place r) in
  if 0 >=? totalNumberOfEntries r then sret ARCHIVE_END_OF_LIST else
  ret ← ZipReaderGoToCentralDirHeader offsetOfFirstCentralDirHeader;
  if_ok ret (modify (λ r, r <| curCentralDirHeaderPos := offsetOfFirstCentralDirHeader |>);; sret ARCHIVE_OK).

Definition ZipReaderGotoNextCentralDirHeader : st rs Z :=
  r ← asks id;
  let h := centralDirHeader r in
  let offsetOfNextCentralDirHeader :=
    curCentralDirHeaderPos r +₆₄ ZIP_SIZE_CD_ITEM +₆₄ rcd_fileNameLength h +₆₄ rcd_extraFieldLength h
    +₆₄ rcd_fileCommentLength h in
  modify (λ r, r <| fileIndex := u64 (fileIndex r + 1) |>);;
  index ← asks fileIndex;
  if index >=? totalNumberOfEntries r then sret ARCHIVE_END_OF_LIST else
  ret ← ZipReaderGoToCentralDirHeader offsetOfNextCentralDirHeader;
  if_ok ret (modify (λ r, r <| curCentralDirHeaderPos := offsetOfNextCentralDirHeader |>);; sret ARCHIVE_OK).

(** ** Opening *)

Definition ZipReaderProcessEOCD : st rs Z :=
  i ← asks info;
  '(ret, i) ← base (λ b, ZipSearchEOCD b i);
  modify (λ r, r <| info := i |>);;
  if_ok ret (
  let zip64 := negb (isZip64 i =? 0) in
  let '(offset, size) :=
    if negb zip64
    then (eocd_offsetOfCentralDir (endOfCentralDir i), eocd_sizeOfCentralDir (endOfCentralDir i))
    else (eocd64_offsetOfCentralDir (endOfCentralDir64 i), eocd64_sizeOfCentralDir (endOfCentralDir64 i)) in
  '(ret, p) ← base (λ b, ZipCheckAndCorrectCentralDirOffset b
                           (if zip64 then offsetOfEOCD64 i else offsetOfEOCD i) (u8 (isZip64 i)) offset size);
  modify (λ r, r <| place := p |>);;
  sret ret).

(** Once the file is open. *)
Definition ZipReaderStart : st rs Z :=
  ret ← ZipReaderProcessEOCD;
  if_ok ret (
  i ← asks info;
  modify (λ r, r <| curCentralDirHeaderPos := 0 |> <| fileIndex := 0 |>
                 <| totalNumberOfEntries :=
                      if negb (isZip64 i =? 0) then eocd64_totalNumberOfEntries (endOfCentralDir64 i)
                      else eocd_totalNumberOfEntries (endOfCentralDir i) |>);;
  sret ARCHIVE_OK).

(** A reader, when the result is [ARCHIVE_OK]. *)
Definition ZipReaderOpenFile (infile : option bytes) : st afs (Z * option ZipReader) :=
  match infile with
  | None => sret (ARCHIVE_PARAM_ERROR, None)
  | Some infile =>
      m ← malloc_;
      match m with
      | None => sret (ARCHIVE_MEM_ERROR, None)
      | Some _ =>
          stream ← FileStreamCreate infile;
          match stream with
          | None => sret (ARCHIVE_INTERNAL_ERROR, None)
          | Some stream =>
              '(ret, stream) ← FileStreamOpen stream OPEN_MODE_READ;
              if negb (ret =? ARCHIVE_OK) then sret (ret, None) else
              λ f, match ZipReaderStart (App (ZipReaderCreate stream) f []) with
                   | None => None
                   | Some (ret, s) =>
                       if negb (ret =? ARCHIVE_OK)
                       then Some ((ret, None), fs s)     (* the stream is closed *)
                       else Some ((ARCHIVE_OK, Some (own s)), fs s)
                   end
          end
      end
  end.
(** ** The data of an entry *)

Definition PROGRESS_UPDATE_INTERVAL : Z := 1024 * 1024.

Definition ZipReaderReadData (len : Z) : st rs (Z * bytes) :=
  r ← asks id;
  let e := entryInfo r in
  if negb (entryOpened r) then sret (ARCHIVE_INTERNAL_ERROR, []) else
  if (ei_compressedSize e =? 0) || (ei_uncompressedSize e =? 0) then sret (0, []) else
  match compressStream r with
  | None => sret (0, [])
  | Some c =>
      if len =? 0 then sret (0, []) else
      '(read, data, c, b) ← io (StreamRead c (baseStream r) len);
      modify (λ r, r <| compressStream := Some c |> <| baseStream := b |>);;
      if read <? 0 then sret (read, [])
      else if read >? UINT32_MAX then sret (ARCHIVE_READ_ERROR, [])
      else entry_ (λ e, e <| ei_entryCrc := z_crc32 (ei_entryCrc e) data |>);;
           sret (read, data)
  end.

Definition ZipReaderWriteData (buf : bytes) : st rs Z :=
  x ← asks extractStream;
  match x with
  | None => undefined
  | Some x =>
      '(written, x) ← io (FileStreamWrite x buf);
      modify (λ r, r <| extractStream := Some x |>);;
      sret (if negb (written =? zlen buf)
            then if written =? ARCHIVE_NO_SPACE_ERROR then ARCHIVE_NO_SPACE_ERROR else ARCHIVE_WRITE_ERROR
            else ARCHIVE_OK)
  end.

Definition ZipReaderProcessLocalHeader : st rs Z :=
  r ← asks id;
  ret ← base (λ b, ZipSeekAndCheckLocalHeader b (ei_relativeOffsetOfLocalHeader (entryInfo r))
                     (cd_correction (place r)));
  if negb (ret =? ARCHIVE_OK) then sret ARCHIVE_FORMAT_ERROR else
  '(read, data) ← base (λ b, FileStreamRead b (sizeof LocalFileHeader));
  if negb (read =? sizeof LocalFileHeader) then sret ARCHIVE_READ_ERROR else
  let h := unpack (A:=LocalFileHeader) data in
  modify (λ r, r <| localFileHeader := h |>);;
  base (λ b, FileStreamSeek b (lh_fileNameLength h + lh_extraFieldLength h) SEEK_CUR).

(** Both streams are closed; the results are not looked at. *)
Definition ZipReaderCloseEntry : st rs unit :=
  r ← asks id;
  (match compressStream r with
   | None => sret tt
   | Some c =>
       '(_, _, b) ← io (StreamClose c (baseStream r));
       modify (λ r, r <| compressStream := None |> <| baseStream := b |>)
   end);;
  modify (λ r, r <| extractStream := None |> <| entryOpened := false |>).

Definition ZipReaderEntryIsSymlink (h : ReadCentralDirHeader) : bool :=
  ZipIsSymlink (rcd_externalFileAttr h) (rcd_versionMadeBy h).

Definition ZipReaderEntryIsDirectory (r : ZipReader) : bool :=
  let filename := c_str (ei_entryName (entryInfo r)) in
  let h := centralDirHeader r in
  let lastChar := default 0 (last filename) in
  if lastChar =? SLASH then true else
  let hostOS := ZIP_HOST_SYSTEM (rcd_versionMadeBy h) in
  let dos := (hostOS =? ZIP_HOST_OS_FAT) || (hostOS =? ZIP_HOST_OS_NTFS)
             || (hostOS =? ZIP_HOST_OS_HPFS) || (hostOS =? ZIP_HOST_OS_VFAT) in
  if (rcd_uncompressedSize h =? 0) && (rcd_compressedSize h =? 0) && (lastChar =? BACKSLASH) && dos
  then true else
  let highAttrib := u16 (Z.land (Z.shiftr (rcd_externalFileAttr h) 16) 0xFFFF) in
  if hostOS =? ZIP_HOST_OS_AMIGA then Z.land highAttrib 0xc00 =? 0x800
  else if dos then negb (Z.land (rcd_externalFileAttr h) 0x0010 =? 0)
  else if hostOS =? ZIP_HOST_OS_UNIX then Z.land highAttrib S_IFMT =? S_IFDIR
  else false.

Definition ZipReaderInitStream (outPath : bytes) : st rs Z :=
  r ← asks id;
  let method := ei_compressionMethod (entryInfo r) in
  if negb (method =? OH_ARCHIVE_NO_COMPRESSION) && negb (method =? OH_ARCHIVE_COMPRESS_DEFLATE)
  then sret ARCHIVE_SUPPORT_ERROR else
  c ← io (if method =? OH_ARCHIVE_NO_COMPRESSION
          then s ← RawStreamCreate; sret (CRaw <$> s) else d ← DeflateStreamCreate; sret (CDeflate <$> d));
  modify (λ r, r <| compressStream := c |>);;
  match c with
  | None => sret ARCHIVE_MEM_ERROR
  | Some c =>
      let '(ret, c) := StreamOpen c OPEN_MODE_READ in
      modify (λ r, r <| compressStream := Some c |>);;
      if_ok ret (
      if ZipReaderEntryIsSymlink (centralDirHeader r) then sret ret else
      x ← io (FileStreamCreate outPath);
      match x with
      | None => modify (λ r, r <| extractStream := None |>);; sret ARCHIVE_STREAM_ERROR
      | Some x =>
          '(ret, x) ← io (FileStreamOpen x OPEN_MODE_CREATE);
          modify (λ r, r <| extractStream := Some x |>);; sret ret
      end)
  end.

Definition set_base_max (m : Z) (b : FileStream) : FileStream :=
  mkFileStream (path b) (handle b) (set_maxTotalIn m (fstream b)).

Definition ZipReaderOpenEntry (outPath : bytes) : st rs Z :=
  opened ← asks entryOpened;
  (if opened : bool then ZipReaderCloseEntry else sret tt);;
  ret ← ZipReaderProcessLocalHeader;
  if_ok ret (
  ret ← ZipReaderInitStream outPath;
  if negb (ret =? ARCHIVE_OK) then ZipReaderCloseEntry;; sret ret else
  modify (λ r,
    let size := ei_compressedSize (entryInfo r) in
    if ei_compressionMethod (entryInfo r) =? OH_ARCHIVE_NO_COMPRESSION then
      let headerSize := StreamGetHeaderSize (fstream (baseStream r)) in
      r <| baseStream := set_base_max size (baseStream r) |>
        <| compressStream := option_map (λ c, StreamSetMaxTotalIn c (size -₆₄ headerSize)) (compressStream r) |>
    else r);;
  modify (λ r, r <| entryOpened := true |>);;
  entry_ (λ e, e <| ei_entryCrc := 0 |>);;
  sret ARCHIVE_OK).

Definition ZipReaderVerifyEntryCrc : st rs Z :=
  r ← asks id;
  let e := entryInfo r in
  sret (if ei_aesVersion e <=? 0x0001 then
          match compressStream r with
          | None => ARCHIVE_INTERNAL_ERROR
          | Some c =>
              let totalIn := StreamGetTotalIn (cstream c) in
              let totalIn := if ei_isEncrypted e
                             then totalIn +₆₄ StreamGetHeaderSize (fstream (baseStream r)) else totalIn in
              if (ei_compressedSize e <=? totalIn)
                 && negb (ei_entryCrc e =? rcd_crc32 (centralDirHeader r))
              then ARCHIVE_CRC_ERROR else ARCHIVE_OK
          end
        else ARCHIVE_OK).

Definition ZipReaderAutoRenamePath (outPath : bytes) (newFilePathSize : Z) : st rs (Z * bytes) :=
  match strncpy_s newFilePathSize outPath newFilePathSize with
  | None => sret (ARCHIVE_PARAM_ERROR, [])
  | Some newFilePath =>
      there ← io (IsFileExists newFilePath);
      if there =? ARCHIVE_OK then io (GenerateNewFilename outPath newFilePathSize)
      else sret (ARCHIVE_OK, newFilePath)
  end.

(** ** Extraction *)

Definition local_header_size (h : LocalFileHeader) : Z :=
  sizeof LocalFileHeader + lh_fileNameLength h + lh_extraFieldLength h.

Definition ZipReaderUpdateProgress (force : bool) : st rs Z :=
  r ← asks id;
  if progressTotal r =? 0 then sret OH_ARCHIVE_PROGRESS_CONTINUE
  else if hasHandler r then
    match compressStream r with
    | None => undefined
    | Some c =>
        let totalIn := Z.min (StreamGetTotalIn (cstream c)) (ei_compressedSize (entryInfo r)) in
        let totalIn := totalIn +₆₄ local_header_size (localFileHeader r) in
        let currentUpdate := (progressPrevious r +₆₄ totalIn) -₆₄ progressUpdated r in
        if (currentUpdate >? PROGRESS_UPDATE_INTERVAL) || force then
          let updated := progressPrevious r +₆₄ totalIn in
          modify (λ r, r <| progressUpdated := updated |>);;
          let progress := i32 (u64 (updated * PROGRESS_PERCENT) / progressTotal r) in
          report (if progress <=? 100 then progress else 100)
        else sret OH_ARCHIVE_PROGRESS_CONTINUE
    end
  else sret OH_ARCHIVE_PROGRESS_CONTINUE.

(** The file is removed when its extraction is cancelled. *)
Definition Cancelled (newFilePath : bytes) : st rs Z :=
  ZipReaderCloseEntry;;
  dir ← asks outDir;
  io (DeleteTempFileWithRootPath dir newFilePath);;
  sret ARCHIVE_CANCEL_ERROR.

Fixpoint SaveFile_loop (fuel : nat) (newFilePath : bytes) : st rs Z :=
  match fuel with
  | O => undefined
  | S fuel =>
      '(read, data) ← ZipReaderReadData ZIP_BUF_INTERNAL;
      if read <? 0 then ZipReaderCloseEntry;; sret ARCHIVE_READ_ERROR else
      ret ← (if read >? 0 then ZipReaderWriteData data else sret ARCHIVE_OK);
      if negb (ret =? ARCHIVE_OK) then ZipReaderCloseEntry;; sret ret else
      ret ← ZipReaderUpdateProgress false;
      if ret =? OH_ARCHIVE_PROGRESS_CANCEL then Cancelled newFilePath
      else if read >? 0 then SaveFile_loop fuel newFilePath
      else
        ZipReaderUpdateProgress true;;
        ret ← ZipReaderVerifyEntryCrc;
        ZipReaderCloseEntry;;
        sret ret
  end.

(** A turn that goes on has consumed input, or has called zlib. *)
Definition save_fuel (r : ZipReader) : nat := S (S (Z.to_nat (ei_compressedSize (entryInfo r)) + z_fuel)).

Definition ZipReaderSaveFile (newFilePath : bytes) : st rs Z :=
  ret ← ZipReaderUpdateProgress true;
  if ret =? OH_ARCHIVE_PROGRESS_CANCEL then Cancelled newFilePath else
  fuel ← asks save_fuel;
  SaveFile_loop fuel newFilePath.

(** The buffer holds the data and zeros behind it. *)
Definition ZipReaderCreateSymlink (newFilePath : bytes) : st rs Z :=
  e ← asks entryInfo;
  dir ← asks outDir;
  if ei_uncompressedSize e >=? ZIP_BUF_INTERNAL then sret ARCHIVE_FORMAT_ERROR else
  '(read, data) ← ZipReaderReadData ZIP_BUF_INTERNAL;
  if read <? 0 then ZipReaderCloseEntry;; sret ARCHIVE_READ_ERROR else
  let target := c_str (take (Z.to_nat (ei_uncompressedSize e)) data) in
  there ← io (IsSymlinkExists newFilePath);
  (if there =? ARCHIVE_OK then io (unlink_ newFilePath);; sret tt else sret tt);;
  ok ← io (ValidateSymlinkIn target (c_str (ei_entryName e)) dir);
  if negb (ok =? ARCHIVE_OK) then ZipReaderCloseEntry;; sret ARCHIVE_SYMLINK_ERROR else
  ret ← io (CreateSymlink target newFilePath);
  ZipReaderCloseEntry;;
  sret ret.

Definition ZipReaderSetFileTime (p : bytes) : st rs Z :=
  e ← asks entryInfo;
  err ← io (utime_ p (ei_modifiedTime e));
  sret (match err with Some _ => ARCHIVE_INTERNAL_ERROR | None => ARCHIVE_OK end).

Definition ZipReaderSetFileAttribs (p : bytes) : st rs Z :=
  h ← asks centralDirHeader;
  let '(ret, attribs) := ZipConvertAttrib (ZIP_HOST_SYSTEM (rcd_versionMadeBy h)) (rcd_externalFileAttr h) in
  if_ok ret (
  err ← io (chmod_ p attribs);
  sret (match err with Some _ => ARCHIVE_INTERNAL_ERROR | None => ARCHIVE_OK end)).

Definition ZipReaderExtractEntry (outPath : bytes) : st rs Z :=
  r ← asks id;
  if ZipReaderEntryIsDirectory r && negb (ZipReaderEntryIsSymlink (centralDirHeader r))
  then io (CreateDirectory outPath None) else
  '(ret, newFilePath) ← ZipReaderAutoRenamePath outPath ZIP_FILE_NAME_LEN_MAX;
  if_ok ret (
  ret ← io (CreateParentDirectory newFilePath None);
  if_ok ret (
  ret ← ZipReaderOpenEntry newFilePath;
  if_ok ret (
  if ZipReaderEntryIsSymlink (centralDirHeader r) then ZipReaderCreateSymlink newFilePath else
  ret ← ZipReaderSaveFile newFilePath;
  if_ok ret (
  ZipReaderSetFileTime newFilePath;;
  ZipReaderSetFileAttribs newFilePath;;
  sret ret)))).

Fixpoint ExtractAll_loop (fuel : nat) (dir : bytes) : st rs Z :=
  match fuel with
  | O => undefined
  | S fuel =>
      modify (λ r, r <| outDir := dir |>);;
      e ← asks entryInfo;
      let '(ret, outPath) := GetOutputFilePath (c_str (ei_entryName e)) dir ZIP_FILE_NAME_LEN_MAX in
      if_ok ret (
      ret ← ZipReaderExtractEntry outPath;
      if_ok ret (
      modify (λ r, r <| progressPrevious :=
                progressPrevious r +₆₄ u64 (ei_compressedSize (entryInfo r)
                                            + local_header_size (localFileHeader r)) |>);;
      ret ← ZipReaderGotoNextCentralDirHeader;
      if ret =? ARCHIVE_OK then ExtractAll_loop fuel dir
      else sret (if ret =? ARCHIVE_END_OF_LIST then ARCHIVE_OK else ret)))
  end.

(** Every turn goes to the next index. *)
Definition ZipReaderExtractAllFiles (handler : bool) (dir : bytes) : st rs Z :=
  modify (λ r, r <| hasHandler := handler |> <| progressTotal := cd_offset (place r) |>
                 <| progressPrevious := 0 |> <| progressUpdated := 0 |>);;
  ret ← ZipReaderGotoFirstCentralDirHeader;
  if_ok ret (
  fuel ← asks (λ r, Z.to_nat (totalNumberOfEntries r));
  ExtractAll_loop fuel dir).
End reader.
