(* ===== verification/ZipHeaders.v ===== *)
(** * Writing the records of an archive

    The functions of zip_writer.c that write headers, and zip_writer_impl.c.
    They write to a [Sink]; entry headers are built by functions of their own
    ([local_header], [central_header]) so that the reader's decoding can be
    compared with them. *)

From coqutil Require Import Datatypes.RecordSetters.
From S2P Require Import Prelude Bytes ZipFormat ArchiveErr ArchiveFs ArchiveStream ArchiveMonad.
Import TriangleBracketNotations.
#[local] Open Scope record_set.

Definition ZIP_VERSION_20 : Z := 20.
Definition ZIP_VERSION_45 : Z := 45.
Definition ARCHIVE_WZAES_COMPRESS_METHOD : Z := 99.
Definition DEFAULT_CD_COMMENT_LENGTH : Z := 0.
Definition ZIP64_COMPRESS_SIZE : Z := 8.
Definition ZIP64_UNCOMPRESS_SIZE : Z := 8.
Definition ZIP64_LOCALHEADEROFFSET_SIZE : Z := 8.
Definition ZIP_4GB_MAX_UNCOMPRESSED : Z := 0xff000000.

Record ZipWriterEntryInfo := mkZipWriterEntryInfo {
  we_versionMadeBy : Z; we_flag : Z; we_compressionMethod : Z; we_crc : Z;
  we_compressedSize : Z; we_uncompressedSize : Z; we_filenameSize : Z; we_diskNumber : Z;
  we_localHeaderOffset : Z; we_internalFa : Z; we_externalFa : Z; we_filename : bytes;
  we_dosModDateTime : Z; we_zip64 : bool; we_zip64extraInLocalHeaderPos : Z
}.

Definition NeedZip64 (size : Z) : bool := size >? ZIP_4GB_MAX_UNCOMPRESSED.

(** A 64-bit value in a 32-bit field. *)
Definition cap32 (v : Z) : Z := if v >? UINT32_MAX then UINT32_MAX else v.

Definition method_field (e : ZipWriterEntryInfo) : Z :=
  if negb (Z.land (we_flag e) ZIP_FLAG_ENCRYPTED =? 0) then ARCHIVE_WZAES_COMPRESS_METHOD
  else we_compressionMethod e.

(** [partLocalFileHeader] of [ZipEntryWriteLocalHeader]. *)
Definition local_header (e : ZipWriterEntryInfo) : LocalFileHeader :=
  mkLocalFileHeader ZIP_MAGIC_LOCALHEADER (if we_zip64 e then ZIP_VERSION_45 else ZIP_VERSION_20)
    (we_flag e) (method_field e) (we_dosModDateTime e) (u32 (we_crc e))
    (u32 (cap32 (we_compressedSize e))) (u32 (cap32 (we_uncompressedSize e))) (we_filenameSize e)
    (u16 (if we_zip64 e then sizeof LocalExtraDataZIP64 else 0)).

Definition GetCdExtraFieldZip64DataSize (e : ZipWriterEntryInfo) : Z :=
  u16 ((if we_uncompressedSize e >? UINT32_MAX then ZIP64_UNCOMPRESS_SIZE else 0)
       + (if we_compressedSize e >? UINT32_MAX then ZIP64_COMPRESS_SIZE else 0)
       + (if we_localHeaderOffset e >? UINT32_MAX then ZIP64_LOCALHEADEROFFSET_SIZE else 0)).

(** [partCentralDirHeader] of [ZipWritePartCentralDirHeader]. *)
Definition central_header (e : ZipWriterEntryInfo) (zip64ExtraFieldDataSize : Z) : CentralDirHeader :=
  mkCentralDirHeader ZIP_MAGIC_CENTRALHEADER (we_versionMadeBy e)
    (if zip64ExtraFieldDataSize >? 0 then ZIP_VERSION_45 else ZIP_VERSION_20)
    (we_flag e) (method_field e) (we_dosModDateTime e) (we_crc e) (cap32 (we_compressedSize e))
    (cap32 (we_uncompressedSize e)) (we_filenameSize e)
    (u16 (if zip64ExtraFieldDataSize >? 0
          then sizeof CdExtraDataZIP64 + zip64ExtraFieldDataSize else 0))
    DEFAULT_CD_COMMENT_LENGTH (u16 (we_diskNumber e)) (we_internalFa e) (we_externalFa e)
    (cap32 (we_localHeaderOffset e)).

Section sink.
Context {AE : AEnv} {S : Type} {K : Sink S}.

(** A write that must be complete. *)
Definition write_exact (stream : S) (buf : bytes) : st afs (Z * S) :=
  '(writeRet, stream) ← sink_write stream buf;
  sret (if negb (writeRet =? zlen buf)
        then if writeRet <? 0 then writeRet else ARCHIVE_WRITE_ERROR
        else ARCHIVE_OK, stream).

(** The next step, on the stream it leaves, when the last has succeeded. *)
Definition then_write (r : Z * S) (k : S → st afs (Z * S)) : st afs (Z * S) :=
  let '(ret, stream) := r in if negb (ret =? 0) then sret (ret, stream) else k stream.

Definition ZipWriteFileName (stream : S) (fileName : bytes) (filenameLength : Z) : st afs (Z * S) :=
  if filenameLength >? 0 then write_exact stream (take (Z.to_nat filenameLength) fileName)
  else sret (ARCHIVE_OK, stream).

Definition ZipWriteExtraFieldZip64Cd (stream : S) (e : ZipWriterEntryInfo) (zip64ExtraFieldDataSize : Z) :
    st afs (Z * S) :=
  if zip64ExtraFieldDataSize =? 0 then sret (ARCHIVE_OK, stream) else
  r ← write_exact stream (pack (mkCdExtraDataZIP64 ZIP_EXTRAFIELD_ZIP64_HEADER zip64ExtraFieldDataSize));
  then_write r (λ stream,
  r ← (if we_uncompressedSize e >? UINT32_MAX then StreamWriteUint64 stream (we_uncompressedSize e)
       else sret (ARCHIVE_OK, stream));
  then_write r (λ stream,
  r ← (if we_compressedSize e >? UINT32_MAX then StreamWriteUint64 stream (we_compressedSize e)
       else sret (ARCHIVE_OK, stream));
  then_write r (λ stream,
  r ← (if we_localHeaderOffset e >? UINT32_MAX then StreamWriteUint64 stream (we_localHeaderOffset e)
       else sret (ARCHIVE_OK, stream));
  then_write r (λ stream,
  (* [sizeCheck] adds up what [GetCdExtraFieldZip64DataSize] does *)
  let sizeCheck := GetCdExtraFieldZip64DataSize e in
  sret (if negb (sizeCheck =? zip64ExtraFieldDataSize) then ARCHIVE_WRITE_ERROR else ARCHIVE_OK, stream))))).

Definition ZipWritePartCentralDirHeader (stream : S) (e : ZipWriterEntryInfo)
    (zip64ExtraFieldDataSize : Z) : st afs (Z * S) :=
  write_exact stream (pack (central_header e zip64ExtraFieldDataSize)).

Definition ZipEntryWriteCdHeader (stream : S) (e : ZipWriterEntryInfo) : st afs (Z * S) :=
  let zip64ExtraFieldDataSize := GetCdExtraFieldZip64DataSize e in
  r ← ZipWritePartCentralDirHeader stream e zip64ExtraFieldDataSize;
  then_write r (λ stream,
  r ← ZipWriteFileName stream (we_filename e) (we_filenameSize e);
  then_write r (λ stream,
  if zip64ExtraFieldDataSize >? 0 then ZipWriteExtraFieldZip64Cd stream e zip64ExtraFieldDataSize
  else sret (ARCHIVE_OK, stream))).
End sink.

(** ** Local headers, in the file *)
Section file.
Context {AE : AEnv}.

Definition ZipWriterDataDesiptorZip64LocalHeader (stream : FileStream) (e : ZipWriterEntryInfo) :
    st afs (Z * FileStream * ZipWriterEntryInfo) :=
  pos ← FileStreamTell stream;
  let e := e <| we_zip64extraInLocalHeaderPos := u64 pos |> in
  '(ret, stream) ← write_exact stream
     (pack (mkLocalExtraDataZIP64 ZIP_EXTRAFIELD_ZIP64_HEADER ZIP_LOCAL_EXTRAFIELD_ZIP64_LENGTH
              (we_uncompressedSize e) (we_compressedSize e)));
  sret (ret, stream, e).

Definition ZipEntryWriteLocalHeader (stream : FileStream) (e : ZipWriterEntryInfo) :
    st afs (Z * FileStream * ZipWriterEntryInfo) :=
  '(ret, stream) ← write_exact stream (pack (local_header e));
  if negb (ret =? 0) then sret (ret, stream, e) else
  '(ret, stream) ← ZipWriteFileName stream (we_filename e) (we_filenameSize e);
  if negb (ret =? 0) then sret (ret, stream, e) else
  if we_zip64 e then ZipWriterDataDesiptorZip64LocalHeader stream e else sret (ARCHIVE_OK, stream, e).

(** The checksum and the sizes are filled in when the data has been written. *)
Definition ZipEntryUpdateLocalHeader (stream : FileStream) (e : ZipWriterEntryInfo) (inCache : bool) :
    st afs (Z * FileStream) :=
  currentPos ← FileStreamTell stream;
  let crcPos := if inCache then CRC_POS_IN_LOCAL_HEADER
                else i64 (i64 (we_localHeaderOffset e) + CRC_POS_IN_LOCAL_HEADER) in
  r ← FileStreamSeek stream crcPos SEEK_SET;
  then_write r (λ stream,
  r ← StreamWriteUint32 stream (we_crc e);
  then_write r (λ stream,
  if ((we_compressedSize e >? UINT32_MAX) || (we_uncompressedSize e >? UINT32_MAX)) && negb (we_zip64 e)
  then '(_, stream) ← FileStreamSeek stream currentPos SEEK_SET; sret (ARCHIVE_PARAM_ERROR, stream)
  else
  r ← StreamWriteUint32 stream (cap32 (we_compressedSize e));
  then_write r (λ stream,
  r ← StreamWriteUint32 stream (cap32 (we_uncompressedSize e));
  then_write r (λ stream,
  r ← (if we_zip64 e && (we_zip64extraInLocalHeaderPos e >? 0) then
         r ← FileStreamSeek stream (i64 (we_zip64extraInLocalHeaderPos e + EXTRA_FIELD_HEADER_BYTES)) SEEK_SET;
         then_write r (λ stream,
         r ← StreamWriteUint64 stream (we_uncompressedSize e);
         then_write r (λ stream, StreamWriteUint64 stream (we_compressedSize e)))
       else sret (ARCHIVE_OK, stream));
  then_write r (λ stream, FileStreamSeek stream currentPos SEEK_SET))))).

(** The bytes of the memory stream from its beginning. *)
Definition ZipWriteMemStream (writeToStream : FileStream) (memStream : MemStream) :
    st afs (Z * FileStream * MemStream) :=
  let '(ret, memStream) := MemStreamSeek memStream 0 SEEK_END in
  if negb (ret =? ARCHIVE_OK) then sret (ret, writeToStream, memStream) else
  let cdRetSize := MemStreamTell memStream in
  if cdRetSize <? 0 then sret (cdRetSize, writeToStream, memStream) else
  match MemStreamGetBufferAt memStream 0 with
  | (_, None) => sret (ARCHIVE_WRITE_ERROR, writeToStream, memStream)
  | (_, Some buf) =>
      '(ret, writeToStream) ← write_exact writeToStream (take (Z.to_nat cdRetSize) buf);
      sret (ret, writeToStream, memStream)
  end.
End file.
