(* ===== verification/ZipWriter.v ===== *)
(** * Writing an archive

    zip_writer.c, apart from the headers, and dir_item_queue.c: going through the
    inputs breadth first, adding a file or an empty directory at a time, and
    writing the central directory at the end.  The task the source keeps on its
    stack for an entry is part of the writer's state here.  [walk_fuel] bounds how
    many paths a traversal takes from its queue. *)

From coqutil Require Import Datatypes.RecordSetters.
From S2P Require Import Prelude Bytes ZipFormat ZipTime ArchiveErr ArchivePath ArchiveText ArchiveFs ArchiveStream ArchiveUtils ArchiveMonad ZipHeaders.
Import TriangleBracketNotations.
#[local] Open Scope record_set.

(** ** Paths *)

Definition SLASH_END_SIZE : Z := 2.

Definition PathAppendSlash (path : bytes) (maxPath slash : Z) : Z * bytes :=
  if zlen path + SLASH_END_SIZE >=? maxPath then (ARCHIVE_BUF_ERROR, path)
  else (ARCHIVE_OK, if negb (default 0 (last path) =? slash) then path ++ [slash] else path).

Definition PathCombine (path join : bytes) (maxPath : Z) : Z * bytes :=
  if maxPath <=? 0 then (ARCHIVE_PARAM_ERROR, path) else
  if zlen path =? 0 then
    match strncpy_s maxPath join (zlen join) with
    | Some p => (ARCHIVE_OK, p)
    | None => (ARCHIVE_INTERNAL_ERROR, [])
    end
  else
    let '(ret, path) := PathAppendSlash path maxPath SLASH in
    if negb (ret =? ARCHIVE_OK) then (ret, path) else
    if maxPath >? zlen path then
      match strncat_s maxPath path join with
      | Some p => (ARCHIVE_OK, p)
      | None => (ARCHIVE_INTERNAL_ERROR, [])
      end
    else (ARCHIVE_NAME_TOO_LONG_ERROR, path).

Definition IsValidFolderEnd (dir : bytes) : bool :=
  negb (bool_decide (dir = [])) && negb (bool_decide (dir = [DOT])) && negb (bool_decide (dir = dotdot)).

(** The index of the last slash that is not the last character. *)
Definition lastSlashIndex (input : bytes) : Z :=
  match FindLastSeparator (removelast input) with Some i => i | None => -1 end.

Definition GetprefixOfInput (input : bytes) : bytes :=
  let i := lastSlashIndex input in
  if (zlen input >? ZIP_FILE_NAME_LEN_MAX) || (i <? 0) then
    if bool_decide (input = [DOT]) then [DOT; SLASH]
    else if bool_decide (input = dotdot) then dotdot ++ [SLASH] else []
  else default [] (strncpy_s ZIP_FILE_NAME_LEN_MAX input (i + 1)).

(** What follows the prefix. *)
Definition GetSaveName (filePath inputDir : bytes) : Z * bytes :=
  if negb (bool_decide (inputDir = [])) && negb (starts_with inputDir filePath)
  then (ARCHIVE_INTERNAL_ERROR, [])
  else (ARCHIVE_OK, drop (length inputDir) filePath).

(** ** The queue of paths *)
Section writer.
Context {AE : AEnv} {ZL : Zlib} (localtime_r : Z → option tm) (now : Z) (walk_fuel : nat).

Definition DirItemQueue : Type := list bytes.

Definition PushDirItemQueueNode (q : DirItemQueue) (path : bytes) : st afs (Z * DirItemQueue) :=
  m ← malloc_;
  match m with
  | None => sret (ARCHIVE_MEM_ERROR, q)
  | Some _ =>
      m ← malloc_;
      sret (match m with None => (ARCHIVE_MEM_ERROR, q) | Some _ => (ARCHIVE_OK, q ++ [path]) end)
  end.
Definition PopDirItemQueueNode (q : DirItemQueue) : option (bytes * DirItemQueue) :=
  match q with [] => None | path :: q => Some (path, q) end.
Definition IsDirItemQueueEmpty (q : DirItemQueue) : bool := bool_decide (q = []).

Fixpoint Traversal_loop (names : list bytes) (currentDir : bytes) (q : DirItemQueue) :
    st afs (Z * DirItemQueue) :=
  match names with
  | [] => sret (ARCHIVE_OK, q)
  | name :: names =>
      if bool_decide (name = [DOT]) || bool_decide (name = dotdot)
      then Traversal_loop names currentDir q else
      let '(ret, fullPath) := PathCombine [] currentDir ZIP_FILE_NAME_LEN_MAX in
      if negb (ret =? ARCHIVE_OK) then sret (ret, q) else
      let '(ret, fullPath) := PathCombine fullPath name ZIP_FILE_NAME_LEN_MAX in
      if negb (ret =? ARCHIVE_OK) then sret (ret, q) else
      '(ret, q) ← PushDirItemQueueNode q fullPath;
      if negb (ret =? ARCHIVE_OK) then sret (ret, q) else Traversal_loop names currentDir q
  end.

(** A directory that cannot be opened is passed over. *)
Definition TraversalDir (q : DirItemQueue) (currentDir : bytes) : st afs (Z * DirItemQueue) :=
  d ← listdir_ currentDir;
  match d with None => sret (ARCHIVE_OK, q) | Some names => Traversal_loop names currentDir q end.

Fixpoint GetDirSize_loop (fuel : nat) (q : DirItemQueue) (totalSize : Z) : st afs (Z * Z) :=
  match fuel, PopDirItemQueueNode q with
  | _, None => sret (ARCHIVE_OK, totalSize)
  | O, _ => undefined
  | S fuel, Some (path, q) =>
      dir ← IsDir path;
      if dir : bool then
        '(ret, q) ← (if IsValidFolderEnd path then TraversalDir q path else sret (ARCHIVE_OK, q));
        if negb (ret =? ARCHIVE_OK) then sret (ret, totalSize) else GetDirSize_loop fuel q totalSize
      else
        r ← stat_ true path;
        GetDirSize_loop fuel q
          (match r with inl n => totalSize +₆₄ st_size n | inr _ => totalSize end)
  end.
Definition GetDirSize (infile : bytes) (totalSize : Z) : st afs (Z * Z) :=
  '(_, q) ← PushDirItemQueueNode [] infile;
  GetDirSize_loop walk_fuel q totalSize.

(** ** The writer *)
Inductive FileType := FILE_TYPE_FILE | FILE_TYPE_EMPTY_DIR.
#[export] Instance FileType_eq_dec : EqDecision FileType.
Proof. solve_decision. Defined.

Record FilePathNode := mkFilePathNode { filePath : bytes; saveName : bytes }.

(** [struct ArchiveWriteCtx]. *)
Record HmArchiveWriteInfo := mkHmArchiveWriteInfo {
  progressHandler : bool; method : Z; level : Z; append : Z
}.

Record ZipWriter := mkZipWriter {
  baseStream : option FileStream; cdMemStream : option MemStream;
  hasHandler : bool; progressTotal : Z; progressUpdated : Z;
  globalCommentLength : Z; numberOfDiskWithCD : Z; versionMadeBy : Z;
  offsetOfEOCD : Z; offsetOfCentralDir : Z; sizeOfCentralDir : Z;
  writtenEntries : Z; isOpened : bool; outfile : bytes;
  (* the task *)
  compressStream : option CompressStream; extractStream : option FileStream;
  entryInfo : option ZipWriterEntryInfo
}.
Definition ZipWriterCreate : ZipWriter :=
  mkZipWriter None None false 0 0 0 0 0 0 0 0 0 false [] None None None.

Abbreviation ws := (appstate ZipWriter).

(** An operation on the archive's stream, which is there. *)
Definition base {A} (m : FileStream → st afs (A * FileStream)) : st ws A :=
  b ← asks baseStream;
  match b with
  | None => undefined
  | Some b => '(a, b) ← io (m b); modify (λ w, w <| baseStream := Some b |>);; sret a
  end.

Definition ZipConvertAppendToStreamMode : Z := Z.lor OPEN_MODE_WRITE OPEN_MODE_CREATE.

Definition ZipWriterOpenFail : st ws unit :=
  modify (λ w, w <| baseStream := None |> <| cdMemStream := None |>).

Definition ZipWriterOpenFileOpenStream (mode : Z) : st ws Z :=
  ret ← base (λ b, FileStreamOpen b mode);
  if_ok ret (
  mem ← io MemStreamCreate;
  match mem with
  | None => sret ARCHIVE_MEM_ERROR
  | Some mem => '(ret, mem) ← io (MemStreamOpen mem); modify (λ w, w <| cdMemStream := Some mem |>);; sret ret
  end).

Definition ZipWriterOpenOutputFile : st ws Z :=
  ret ← ZipWriterOpenFileOpenStream ZipConvertAppendToStreamMode;
  (if negb (ret =? ARCHIVE_OK) then ZipWriterOpenFail else sret tt);;
  sret ret.

(** A writer, when the result is [ARCHIVE_OK]. *)
Definition ZipWriterOpenFile (out : option bytes) : st afs (Z * option ZipWriter) :=
  match out with
  | None => sret (ARCHIVE_PARAM_ERROR, None)
  | Some out =>
      m ← malloc_;
      match m with
      | None => sret (ARCHIVE_MEM_ERROR, None)
      | Some _ =>
          stream ← FileStreamCreate out;
          sret (match stream with
                | None => (ARCHIVE_MEM_ERROR, None)
                | Some stream =>
                    match strncpy_s ZIP_FILE_NAME_LEN_MAX out (zlen out) with
                    | None => (ARCHIVE_INTERNAL_ERROR, None)
                    | Some out =>
                        (ARCHIVE_OK, Some (ZipWriterCreate <| baseStream := Some stream |> <| outfile := out |>))
                    end
                end)
      end
  end.

Definition COMPRESS_OVER_PROCESS : Z := 100.

Definition ZipWriterUpdateProgress (len : Z) (isCompressOver : bool) : st ws Z :=
  w ← asks id;
  if negb (hasHandler w) then sret OH_ARCHIVE_PROGRESS_CONTINUE
  else if (progressTotal w =? 0) || isCompressOver
  then report (if isCompressOver then COMPRESS_OVER_PROCESS else 0)
  else
    let updated := progressUpdated w +₆₄ len in
    modify (λ w, w <| progressUpdated := updated |>);;
    report (i32 (u64 (updated * PROGRESS_PERCENT) / progressTotal w)).

(** ** An entry *)

Definition ZipWriterOpenInitCompressStream (archive : HmArchiveWriteInfo) (e : ZipWriterEntryInfo) : st ws Z :=
  let m := we_compressionMethod e in
  if negb (m =? OH_ARCHIVE_NO_COMPRESSION) && negb (m =? OH_ARCHIVE_COMPRESS_DEFLATE)
  then modify (λ w, w <| compressStream := None |>);; sret ARCHIVE_SUPPORT_ERROR else
  c ← io (if m =? OH_ARCHIVE_NO_COMPRESSION
          then s ← RawStreamCreate; sret (CRaw <$> s)
          else d ← DeflateStreamCreateSpec (level archive); sret (CDeflate <$> d));
  match c with
  | None => modify (λ w, w <| compressStream := None |>);; sret ARCHIVE_MEM_ERROR
  | Some c =>
      let '(ret, c) := StreamOpen c OPEN_MODE_WRITE in
      modify (λ w, w <| compressStream := Some c |>);; sret ret
  end.

Definition ZipWriterOpenInitExtractStream (fileType : FileType) (node : FilePathNode) : st ws Z :=
  if bool_decide (fileType = FILE_TYPE_EMPTY_DIR)
  then modify (λ w, w <| extractStream := None |>);; sret ARCHIVE_OK else
  x ← io (FileStreamCreate (filePath node));
  match x with
  | None => modify (λ w, w <| extractStream := None |>);; sret ARCHIVE_MEM_ERROR
  | Some x =>
      '(ret, x) ← io (FileStreamOpen x OPEN_MODE_READ);
      modify (λ w, w <| extractStream := Some x |>);; sret ret
  end.

Definition EXTER_ATTRIB_LOW_BITS : Z := 16.

(** The attributes of [lstat]'s answer. *)
Definition GetFileExternalAttributes (path : bytes) : st afs Z :=
  r ← stat_ false path;
  let attribute := match r with inl n => st_mode path n | inr _ => 0 end in
  sret (Z.lor (Z.shiftr attribute EXTER_ATTRIB_LOW_BITS) (u32 (Z.shiftl attribute EXTER_ATTRIB_LOW_BITS))).

Definition GetFileModfiyTime (path : bytes) : st afs Z :=
  r ← stat_ false path;
  sret (match r with
        | inl _ => ZipConvertTimeToDosDate localtime_r (a_mtime path)
        | inr _ => ZipGetCurrentDosModeDateTime localtime_r now
        end).

Definition COMPRESS_LEVEL_1 : Z := 1.
Definition COMPRESS_LEVEL_9 : Z := 9.

Definition ZipGetFlag (compressionMethod compressLevel : Z) : Z :=
  if compressionMethod =? OH_ARCHIVE_COMPRESS_DEFLATE then
    if compressLevel =? COMPRESS_LEVEL_9 then ZIP_FLAG_DEFLATE_MAX
    else if compressLevel =? COMPRESS_LEVEL_1 then ZIP_FLAG_DEFLATE_SUPER_FAST else 0
  else 0.

Definition ZipWriterOpenInitEntryInfo (archive : HmArchiveWriteInfo) (fileType : FileType)
    (node : FilePathNode) : st ws ZipWriterEntryInfo :=
  dosModDateTime ← io (GetFileModfiyTime (filePath node));
  externalFa ← io (GetFileExternalAttributes (filePath node));
  pos ← base (λ b, p ← FileStreamTell b; sret (p, b));
  size ← io (GetFileSize (filePath node));
  let flag := ZipGetFlag (method archive) (level archive) in
  let dir := bool_decide (fileType = FILE_TYPE_EMPTY_DIR) in
  let e := mkZipWriterEntryInfo ZIP_VERSION_MADEBY
             (if IsUtf8Encoded (saveName node) false then Z.lor flag ZIP_FLAG_UTF8 else flag)
             (if dir then OH_ARCHIVE_NO_COMPRESSION else u16 (method archive)) 0 0
             (if dir then 0 else size) (u16 (zlen (saveName node))) 0 (u64 pos) 0 externalFa
             (saveName node) dosModDateTime (NeedZip64 size) 0 in
  modify (λ w, w <| entryInfo := Some e |>);;
  sret e.

(** The checks of [ZipWriterEntryOpen] come after the task's entry is set. *)
Definition ZipWriterEntryOpen (archive : HmArchiveWriteInfo) (fileType : FileType)
    (node : FilePathNode) : st ws Z :=
  m ← io malloc_;
  match m with
  | None => sret ARCHIVE_MEM_ERROR
  | Some _ =>
      if negb (method archive =? OH_ARCHIVE_NO_COMPRESSION)
         && negb (method archive =? OH_ARCHIVE_COMPRESS_DEFLATE)
      then sret ARCHIVE_PARAM_ERROR else
      e ← ZipWriterOpenInitEntryInfo archive fileType node;
      if (zlen (we_filename e) =? 0) || (zlen (we_filename e) >? 0xffff)
      then sret ARCHIVE_PARAM_ERROR else
      ret ← ZipWriterOpenInitExtractStream fileType node;
      if_ok ret (
      '(ret, e) ← base (λ b, '(ret, b, e) ← ZipEntryWriteLocalHeader b e; sret ((ret, e), b));
      modify (λ w, w <| entryInfo := Some e |>);;
      if_ok ret (ZipWriterOpenInitCompressStream archive e))
  end.

(** A write to the transforming stream. *)
Definition compress_write (buf : bytes) : st ws Z :=
  w ← asks id;
  match compressStream w, baseStream w with
  | Some c, Some b =>
      '(writeRet, c, b) ← io (StreamWrite c b buf);
      modify (λ w, w <| compressStream := Some c |> <| baseStream := Some b |>);;
      sret writeRet
  | _, _ => undefined
  end.
Definition update_crc (buf : bytes) : st ws unit :=
  modify (λ w, w <| entryInfo := option_map (λ e, e <| we_crc := z_crc32 (we_crc e) buf |>) (entryInfo w) |>).

Fixpoint AddData_loop (fuel : nat) : st ws Z :=
  match fuel with
  | O => undefined
  | S fuel =>
      x ← asks extractStream;
      match x with
      | None => undefined
      | Some x =>
          '(readRet, data, x) ← io (FileStreamRead x ZIP_BUF_INTERNAL);
          modify (λ w, w <| extractStream := Some x |>);;
          if readRet <=? 0 then sret (if readRet <? 0 then readRet else ARCHIVE_OK) else
          writeRet ← compress_write data;
          if negb (writeRet =? readRet)
          then sret (if writeRet <? 0 then writeRet else ARCHIVE_WRITE_ERROR) else
          update_crc data;;
          ret ← ZipWriterUpdateProgress writeRet false;
          if ret =? OH_ARCHIVE_PROGRESS_CANCEL then sret ARCHIVE_CANCEL_ERROR else AddData_loop fuel
      end
  end.

(** What is left to read of the input, in bytes. *)
Definition left_to_read (s : ws) : nat :=
  match extractStream (own s) with
  | Some x => match handle x with
              | Some h => Z.to_nat (zlen (default [] (file_data (a_tree (fs s)) h)) - h_pos h)
              | None => O
              end
  | None => O
  end.

Definition ZipWriterAddData (node : FilePathNode) : st ws Z :=
  link ← io (IsSymlink (filePath node));
  if link : bool then
    '(ret, linkName) ← io (ReadSymlink (filePath node) ZIP_FILE_NAME_LEN_MAX);
    if negb (ret =? ARCHIVE_OK) then sret ARCHIVE_PARAM_ERROR else
    writerRet ← compress_write linkName;
    if negb (writerRet =? zlen linkName)
    then sret (if writerRet <? 0 then writerRet else ARCHIVE_WRITE_ERROR) else
    (if zlen linkName >? 0 then update_crc linkName else sret tt);;
    sret ARCHIVE_OK
  else λ s, AddData_loop (S (S (left_to_read s))) s.

Definition UpdateCompressedSize (c : CompressStream) (e : ZipWriterEntryInfo) : ZipWriterEntryInfo :=
  e <| we_compressedSize := StreamGetTotalOut (cstream c) |>
    <| we_uncompressedSize := StreamGetTotalIn (cstream c) |>.

Definition ZipWriterCloseStreamCheckInput (fileType : FileType) (w : ZipWriter) : Z :=
  match compressStream w with
  | None => ARCHIVE_PARAM_ERROR
  | Some _ =>
      if negb (bool_decide (fileType = FILE_TYPE_EMPTY_DIR))
         && match extractStream w with None => true | Some _ => false end
      then ARCHIVE_PARAM_ERROR else ARCHIVE_OK
  end.

Definition ZipWriterCloseStream (fileType : FileType) (needCalSize : bool) : st ws Z :=
  w ← asks id;
  if negb (ZipWriterCloseStreamCheckInput fileType w =? ARCHIVE_OK) then sret ARCHIVE_PARAM_ERROR else
  match compressStream w, baseStream w, entryInfo w, cdMemStream w with
  | Some c, Some b, Some e, Some mem =>
      '(ret, c, b) ← io (StreamClose c b);
      modify (λ w, w <| compressStream := Some c |> <| baseStream := Some b |>);;
      if_ok ret (
      let e := if needCalSize then UpdateCompressedSize c e else e in
      modify (λ w, w <| entryInfo := Some e |>);;
      ret ← base (λ b, ZipEntryUpdateLocalHeader b e false);
      if_ok ret (
      '(ret, mem) ← io (ZipEntryWriteCdHeader mem e);
      modify (λ w, w <| cdMemStream := Some mem |> <| writtenEntries := writtenEntries w +₆₄ 1 |>
                     <| compressStream := None |>);;
      sret ret))
  | _, _, _, _ => undefined
  end.

(** The results of closing are not looked at. *)
Definition ZipWriterDeleteStream : st ws unit :=
  w ← asks id;
  (match compressStream w, baseStream w with
   | None, _ => sret tt
   | Some c, Some b =>
       '(_, _, b) ← io (StreamClose c b);
       modify (λ w, w <| compressStream := None |> <| baseStream := Some b |>)
   | _, _ => undefined
   end);;
  modify (λ w, w <| extractStream := None |> <| entryInfo := None |>).

(** The task starts out cleared. *)
Definition new_task : st ws unit :=
  modify (λ w, w <| compressStream := None |> <| extractStream := None |> <| entryInfo := None |>).

Definition ZipWriterAddOneFile (archive : HmArchiveWriteInfo) (node : FilePathNode) : st ws Z :=
  new_task;;
  ret ← ZipWriterEntryOpen archive FILE_TYPE_FILE node;
  there ← (if ret =? ARCHIVE_OPEN_ERROR then io (access_ (filePath node)) else sret true);
  if negb there then sret ARCHIVE_OK else
  ret ← (if ret =? ARCHIVE_OK then ZipWriterAddData node else sret ret);
  ret ← (if ret =? ARCHIVE_OK then ZipWriterCloseStream FILE_TYPE_FILE true else sret ret);
  ZipWriterDeleteStream;;
  sret ret.

Definition ZipWriterAddEmptyDir (archive : HmArchiveWriteInfo) (inputDir path : bytes) : st ws Z :=
  match strncpy_s (ZIP_FILE_NAME_LEN_MAX + 1) path (zlen path) with
  | None => sret ARCHIVE_INTERNAL_ERROR
  | Some newPath =>
      let '(ret, _) := GetSaveName newPath inputDir in
      if_ok ret (
      let '(ret, newPath) := PathAppendSlash newPath ZIP_FILE_NAME_LEN_MAX SLASH in
      if_ok ret (
      (* the name points into the path *)
      let node := mkFilePathNode path (drop (length inputDir) newPath) in
      new_task;;
      ret ← ZipWriterEntryOpen archive FILE_TYPE_EMPTY_DIR node;
      ret ← (if ret =? ARCHIVE_OK then ZipWriterCloseStream FILE_TYPE_EMPTY_DIR false else sret ret);
      ZipWriterDeleteStream;;
      p ← ZipWriterUpdateProgress 0 false;
      sret (if p =? OH_ARCHIVE_PROGRESS_CANCEL then ARCHIVE_CANCEL_ERROR else ret)))
  end.

(** ** All inputs *)

Fixpoint AddOnePath_loop (fuel : nat) (archive : HmArchiveWriteInfo) (inputDir : bytes) (q : DirItemQueue) :
    st ws Z :=
  match fuel, PopDirItemQueueNode q with
  | _, None => sret ARCHIVE_OK
  | O, _ => undefined
  | S fuel, Some (path, q) =>
      dir ← io (IsDir path);
      '(ret, q) ←
        (if dir : bool then
           ret ← (if IsValidFolderEnd path then ZipWriterAddEmptyDir archive inputDir path
                  else sret ARCHIVE_OK);
           if ret =? ARCHIVE_OK then io (TraversalDir q path) else sret (ret, q)
         else
           let '(ret, name) := GetSaveName path inputDir in
           ret ← (if ret =? ARCHIVE_OK then ZipWriterAddOneFile archive (mkFilePathNode path name)
                  else sret ret);
           sret (ret, q));
      if negb (ret =? ARCHIVE_OK) then sret ret else AddOnePath_loop fuel archive inputDir q
  end.
Definition ZipWriterAddOnePath (archive : HmArchiveWriteInfo) (infile inputDir : bytes) : st ws Z :=
  '(_, q) ← io (PushDirItemQueueNode [] infile);
  AddOnePath_loop walk_fuel archive inputDir q.

Fixpoint TotalSize_loop (infile : list bytes) (total : Z) : st afs (Z * Z) :=
  match infile with
  | [] => sret (ARCHIVE_OK, total)
  | f :: infile =>
      '(ret, total) ← GetDirSize f total;
      if negb (ret =? ARCHIVE_OK) then sret (ARCHIVE_INTERNAL_ERROR, total) else TotalSize_loop infile total
  end.
Definition InitWriterProgress (archive : HmArchiveWriteInfo) (infile : list bytes) : st ws Z :=
  modify (λ w, w <| hasHandler := progressHandler archive |> <| progressUpdated := 0 |>);;
  '(ret, total) ← io (TotalSize_loop infile 0);
  if_ok ret (modify (λ w, w <| progressTotal := total |>);; sret ARCHIVE_OK).

Fixpoint ZipWriterAddFiles (archive : HmArchiveWriteInfo) (infile : list bytes) : st ws Z :=
  match infile with
  | [] => sret ARCHIVE_OK
  | f :: infile =>
      ret ← ZipWriterAddOnePath archive f (GetprefixOfInput f);
      if negb (ret =? ARCHIVE_OK) then sret ret else ZipWriterAddFiles archive infile
  end.

Definition ARCHIVE_APPEND_STATUS_CREATE : Z := 0.

(** A failed archive is removed. *)
Definition ZipWriterDeleteFiles (archive : HmArchiveWriteInfo) (ret : Z) : st ws unit :=
  if negb (ret =? ARCHIVE_OK) && (append archive =? ARCHIVE_APPEND_STATUS_CREATE) then
    w ← asks id;
    modify (λ w, w <| baseStream := None |>);;
    io (remove_ (outfile w));;
    sret tt
  else sret tt.

(** Every input must be there, before anything is added. *)
Fixpoint CheckInputs (infile : list (option bytes)) : st afs (Z * list bytes) :=
  match infile with
  | [] => sret (ARCHIVE_OK, [])
  | None :: _ => sret (ARCHIVE_PARAM_ERROR, [])
  | Some f :: infile =>
      r ← stat_ true f;
      match r with
      | inr _ => sret (ARCHIVE_EXIST_ERROR, [])
      | inl _ => '(ret, fs) ← CheckInputs infile; sret (ret, f :: fs)
      end
  end.

Definition ZipWriterAddFunc (archive : HmArchiveWriteInfo) (infile : list (option bytes)) : st ws Z :=
  w ← asks id;
  match baseStream w with
  | None => sret ARCHIVE_PARAM_ERROR
  | Some _ =>
      ret ← (if isOpened w then sret ARCHIVE_OK else
             ret ← ZipWriterOpenOutputFile;
             if_ok ret (modify (λ w, w <| isOpened := true |>);; sret ARCHIVE_OK));
      if_ok ret (
      '(ret, infile) ← io (CheckInputs infile);
      if_ok ret (
      ret ← InitWriterProgress archive infile;
      ret ← (if ret =? ARCHIVE_OK then ZipWriterAddFiles archive infile else sret ret);
      ret ← (if ret =? ARCHIVE_OK then
               p ← ZipWriterUpdateProgress 0 true;
               sret (if p =? OH_ARCHIVE_PROGRESS_CANCEL then ARCHIVE_CANCEL_ERROR else ARCHIVE_OK)
             else sret ret);
      ZipWriterDeleteFiles archive ret;;
      sret ret))
  end.

(** ** The central directory *)

Definition end_of_cd64 (w : ZipWriter) : EndOfCentralDir64 :=
  mkEndOfCentralDir64 ZIP_MAGIC_ENDHEADER64 ZIP_END_OF_CD64_SIZE (versionMadeBy w) ZIP_VERSION_45
    (numberOfDiskWithCD w) (numberOfDiskWithCD w) (writtenEntries w) (writtenEntries w)
    (sizeOfCentralDir w) (offsetOfCentralDir w).
Definition end_of_cd_locator64 (w : ZipWriter) : EndOfCentralDirLocator64 :=
  mkEndOfCentralDirLocator64 ZIP_MAGIC_ENDLOCHEADER64 (numberOfDiskWithCD w) (offsetOfEOCD w) 1.
Definition end_of_cd (w : ZipWriter) : EndOfCentralDir :=
  let n := if writtenEntries w >? UINT16_MAX then UINT16_MAX else writtenEntries w in
  mkEndOfCentralDir ZIP_MAGIC_ENDHEADER (u16 (numberOfDiskWithCD w)) (u16 (numberOfDiskWithCD w)) n n
    (cap32 (sizeOfCentralDir w)) (cap32 (offsetOfCentralDir w)) (globalCommentLength w).

Definition ZipWriterZip64EndOfCD : st ws Z :=
  w ← asks id; base (λ b, write_exact b (pack (end_of_cd64 w))).
Definition ZipWriterZip64EndOfCDLocator : st ws Z :=
  w ← asks id; base (λ b, write_exact b (pack (end_of_cd_locator64 w))).
Definition ZipWriteEndOfCD : st ws Z :=
  w ← asks id; base (λ b, write_exact b (pack (end_of_cd w))).

Definition tell : st ws Z := base (λ b, p ← FileStreamTell b; sret (u64 p, b)).

Definition ZipWriterSaveCD : st ws Z :=
  w ← asks id;
  match baseStream w, cdMemStream w with
  | Some _, Some mem =>
      offset ← tell;
      modify (λ w, w <| offsetOfCentralDir := offset |>);;
      '(ret, mem) ← base (λ b, '(ret, b, mem) ← ZipWriteMemStream b mem; sret ((ret, mem), b));
      modify (λ w, w <| cdMemStream := Some mem |>);;
      if_ok ret (
      pos ← tell;
      modify (λ w, w <| numberOfDiskWithCD := 0 |> <| sizeOfCentralDir := pos -₆₄ offset |>);;
      w ← asks id;
      ret ← (if (sizeOfCentralDir w >? UINT32_MAX) || (offsetOfCentralDir w >? UINT32_MAX)
                || (writtenEntries w >? UINT16_MAX)
             then
               eocd ← tell;
               modify (λ w, w <| offsetOfEOCD := eocd |>);;
               ret ← ZipWriterZip64EndOfCD;
               if_ok ret ZipWriterZip64EndOfCDLocator
             else sret ARCHIVE_OK);
      if_ok ret ZipWriteEndOfCD)
  | _, _ => sret ARCHIVE_OK
  end.

(** The writer is freed afterwards. *)
Definition ZipWriterClose : st ws Z :=
  w ← asks id;
  ret ← (if isOpened w then ZipWriterSaveCD else sret ARCHIVE_OK);
  modify (λ w, w <| cdMemStream := None |> <| baseStream := None |>);;
  sret ret.
End writer.
