(* ===== verification/ArchiveApi.v ===== *)
(** * The C interface for zip files

    oh_archive_reader.c and oh_archive_writer.c: the functions an application calls
    on whole archives.  No other implementation of the formats is loaded
    (oh_archive_plugin.c found no library).  A context is passed in and out; what
    the progress handler is given is the last component of a result. *)

From coqutil Require Import Datatypes.RecordSetters.
From S2P Require Import Prelude Bytes ZipTime ArchiveErr ArchivePath ArchiveText ArchiveFs ArchiveStream ArchiveUtils ArchiveMonad.
From S2P Require Import ZipReader ZipWriter.
Import TriangleBracketNotations.
#[local] Open Scope record_set.

(** ** File names *)

(** [tolower] in the C locale. *)
Definition tolower (c : Z) : Z := if (65 <=? c) && (c <=? 90) then c + 32 else c.

Fixpoint CheckSuffix (a b : bytes) : bool :=
  match a, b with
  | [], [] => true
  | [], _ => false
  | _, [] => false        (* no letter is the final zero *)
  | x :: a, y :: b => if tolower x =? tolower y then CheckSuffix a b else false
  end.

Inductive ArchiveFormat :=
  | ARCHIVE_FMT_ZIP | ARCHIVE_FMT_GZIP | ARCHIVE_FMT_7ZIP | ARCHIVE_FMT_RAR | ARCHIVE_FMT_INVALID.
#[export] Instance ArchiveFormat_eq_dec : EqDecision ArchiveFormat.
Proof. solve_decision. Defined.

(** What follows the last dot, unless that is the first character. *)
Definition GetFileArchiveFormat (inFile : bytes) : ArchiveFormat :=
  match split_dot inFile with
  | None => ARCHIVE_FMT_INVALID
  | Some ([], _) => ARCHIVE_FMT_INVALID
  | Some (_, ext) => if CheckSuffix (tail ext) (bytes_of "zip") then ARCHIVE_FMT_ZIP else ARCHIVE_FMT_INVALID
  end.

Section api.
Context {AE : AEnv} {ZL : Zlib} {IC : Iconv} (mktime : tm → Z) (localtime_r : Z → option tm) (now : Z)
  (walk_fuel : nat).

(** ** Reading *)
Record HmArchiveReadInfo := mkHmArchiveReadInfo { r_handler : bool; r_fmtInfo : ZipReader.ZipReader }.

Definition OH_Archive_Reader_OpenFile (inFile : option bytes) : st afs (option HmArchiveReadInfo) :=
  match inFile with
  | None => sret None
  | Some inFile =>
      if negb (bool_decide (GetFileArchiveFormat inFile = ARCHIVE_FMT_ZIP)) then sret None else
      m ← malloc_;
      match m with
      | None => sret None
      | Some _ =>
          '(ret, reader) ← ZipReader.ZipReaderOpenFile (Some inFile);
          sret (if negb (bool_decide (ConvertErrCode ret = OH_ARCHIVE_OK)) then None
                else mkHmArchiveReadInfo false <$> reader)
      end
  end.

Definition OH_Archive_Reader_SetProgressHandlerWithData (arc : option HmArchiveReadInfo) (handler : bool) :
    OH_Archive_ErrCode * option HmArchiveReadInfo :=
  match arc with
  | None => (OH_ARCHIVE_PARAM_ERROR, arc)
  | Some a => if negb handler then (OH_ARCHIVE_PARAM_ERROR, arc)
              else (OH_ARCHIVE_OK, Some (mkHmArchiveReadInfo true (r_fmtInfo a)))
  end.

Definition OH_Archive_Reader_ExtractAllFile (arc : option HmArchiveReadInfo) (outDir : option bytes) :
    st afs (OH_Archive_ErrCode * option HmArchiveReadInfo * list Z) :=
  match arc, outDir with
  | Some a, Some outDir =>
      if zlen outDir >=? PATH_MAX then sret (OH_ARCHIVE_FULL_PATH_TOO_LONG_ERROR, arc, []) else
      ret ← CreateDirectory outDir None;
      if negb (ret =? ARCHIVE_OK) then sret (OH_ARCHIVE_PARAM_ERROR, arc, []) else
      r ← realpath_ outDir;
      match r with
      | inr _ => sret (OH_ARCHIVE_PARAM_ERROR, arc, [])
      | inl resolvedPath =>
          λ f, match ZipReader.ZipReaderExtractAllFiles mktime (r_handler a) resolvedPath (App (r_fmtInfo a) f []) with
               | None => None
               | Some (ret, s) => Some ((ConvertErrCode ret,
                                         Some (mkHmArchiveReadInfo (r_handler a) (own s)), reported s), fs s)
               end
      end
  | _, _ => sret (OH_ARCHIVE_PARAM_ERROR, arc, [])
  end.

(** [ZipReaderClose]: the file is closed and the reader freed. *)
Definition ZipReaderClose (reader : option ZipReader.ZipReader) : Z :=
  match reader with None => ARCHIVE_INTERNAL_ERROR | Some _ => ARCHIVE_OK end.
Definition OH_Archive_Reader_Close (arc : option HmArchiveReadInfo) : OH_Archive_ErrCode :=
  match arc with
  | None => OH_ARCHIVE_PARAM_ERROR
  | Some a => ConvertErrCode (ZipReaderClose (Some (r_fmtInfo a)))
  end.

(** ** Writing *)
Definition OH_ARCHIVE_OPEN_MODE_CREATE : Z := 0.
Definition OH_ARCHIVE_FMT_ZIP : Z := 0.
Definition ARCHIVE_DEFAULT_COMPRESS_LEVEL : Z := 6.
Definition ARCHIVE_MAX_COMPRESS_LEVEL : Z := 9.

Definition WriterCtx : Type := HmArchiveWriteInfo * ZipWriter.ZipWriter.

Definition OH_Archive_Writer_OpenFile (outfile : option bytes) (openMode fmt : Z) : st afs (option WriterCtx) :=
  match outfile with
  | None => sret None
  | Some outfile =>
      if negb (openMode =? OH_ARCHIVE_OPEN_MODE_CREATE) then sret None else
      if negb (fmt =? OH_ARCHIVE_FMT_ZIP) then sret None else
      m ← malloc_;
      match m with
      | None => sret None
      | Some _ =>
          '(ret, writer) ← ZipWriter.ZipWriterOpenFile (Some outfile);
          sret (if negb (bool_decide (WriteConvertErrCode ret = OH_ARCHIVE_OK)) then None
                else pair (mkHmArchiveWriteInfo false OH_ARCHIVE_COMPRESS_DEFLATE
                             ARCHIVE_DEFAULT_COMPRESS_LEVEL openMode) <$> writer)
      end
  end.

(** The level is checked and dropped. *)
Definition OH_Archive_Writer_SetCompressMethod (arc : option WriterCtx) (m compressLevel : Z) :
    OH_Archive_ErrCode * option WriterCtx :=
  match arc with
  | None => (OH_ARCHIVE_PARAM_ERROR, arc)
  | Some (a, w) =>
      if negb (m =? OH_ARCHIVE_NO_COMPRESSION) && negb (m =? OH_ARCHIVE_COMPRESS_DEFLATE)
      then (OH_ARCHIVE_PARAM_ERROR, arc) else
      let compressLevel := if compressLevel =? -1 then ARCHIVE_DEFAULT_COMPRESS_LEVEL else compressLevel in
      if negb (m =? OH_ARCHIVE_NO_COMPRESSION)
         && ((compressLevel <? 0) || (compressLevel >? ARCHIVE_MAX_COMPRESS_LEVEL))
      then (OH_ARCHIVE_PARAM_ERROR, arc)
      else (OH_ARCHIVE_OK, Some (a <| ZipWriter.method := m |>, w))
  end.

Definition OH_Archive_Writer_SetProgressHandlerWithData (arc : option WriterCtx) (handler : bool) :
    OH_Archive_ErrCode * option WriterCtx :=
  match arc with
  | None => (OH_ARCHIVE_PARAM_ERROR, arc)
  | Some (a, w) => if negb handler then (OH_ARCHIVE_PARAM_ERROR, arc)
                   else (OH_ARCHIVE_OK, Some (a <| ZipWriter.progressHandler := true |>, w))
  end.

Definition OH_Archive_Writer_Add (arc : option WriterCtx) (infiles : option (list (option bytes))) :
    st afs (OH_Archive_ErrCode * option WriterCtx * list Z) :=
  match arc, infiles with
  | Some (a, w), Some infiles =>
      λ f, match ZipWriter.ZipWriterAddFunc localtime_r now walk_fuel a infiles (App w f []) with
           | None => None
           | Some (ret, s) => Some ((WriteConvertErrCode ret, Some (a, own s), reported s), fs s)
           end
  | _, _ => sret (OH_ARCHIVE_PARAM_ERROR, arc, [])
  end.

Definition OH_Archive_Writer_Close (arc : option WriterCtx) : st afs OH_Archive_ErrCode :=
  match arc with
  | None => sret OH_ARCHIVE_PARAM_ERROR
  | Some (a, w) =>
      λ f, match ZipWriter.ZipWriterClose (App w f []) with
           | None => None
           | Some (ret, s) => Some (WriteConvertErrCode ret, fs s)
           end
  end.
End api.
