(* ===== verification/ArchiveBuffer.v ===== *)
(** * Compressing buffers and streams of data

    oh_archive_streamwrite.c and the second half of oh_archive_reader.c: the
    functions that deflate and inflate one buffer, and the contexts that do it
    piece by piece, handing blocks to the application's output handler.  A context
    keeps what it has delivered; the handler is a function of the number of calls
    before and of the block, to the size it accepts.  zlib is the class [Zlib];
    no other implementation is loaded. *)

From coqutil Require Import Datatypes.RecordSetters.
From S2P Require Import Prelude Bytes ArchiveErr ArchiveFs ArchiveStream ArchiveMonad.
Import TriangleBracketNotations.
#[local] Open Scope record_set.

Definition UINT_MAX : Z := 2 ^ 32 - 1.
Definition Z_BUF_ERROR : Z := -5.
Definition Z_MEM_ERROR : Z := -4.
Definition Z_STREAM_ERROR : Z := -2.
Definition OH_ARCHIVE_NO_CHECKSUM : Z := 0.
Definition OH_ARCHIVE_CRC32 : Z := 1.
Definition DEFLATE_DEFAULT_LEVEL : Z := 6.
Definition DEFLATE_MIN_LEVEL : Z := -1.
Definition DEFLATE_MAX_LEVEL : Z := 9.
Definition DEFLATE_BLOCK_SIZE_THRESHOLD : Z := 32 * 1024.
Definition DEFLATE_BUFFER_BLOCK_SIZE : Z := 64 * 1024.

(** [OH_Archive_Stream_Config]. *)
Record Config := mkConfig { blockSize : Z; threadNum : Z; checksum : Z; cmethod : Z }.
Record StreamInfo := mkStreamInfo { totalInSize : Z; totalOutSize : Z; info_checksum : Z }.

Section buffer.
Context {ZL : Zlib}.

(** ** One buffer *)

(** What a turn gives zlib anew: no more than an unsigned int counts. *)
Definition chunk (l : bytes) : bytes := take (Z.to_nat UINT_MAX) l.

(** [src] is what zlib has not been given, [avail_in] and [avail_out] what it has; [out] what
    it has produced. *)
Fixpoint BufferRead_loop (fuel : nat) (z : zstate) (avail_in src : bytes) (avail_out maxDstLen : Z)
    (out : bytes) : option (OH_Archive_ErrCode * bytes) :=
  match fuel with
  | O => None
  | S fuel =>
      let remainingDst := maxDstLen - zlen out in
      if remainingDst =? 0 then Some (OH_ARCHIVE_INSUFFICIENT_OUTBUF_ERROR, []) else
      let avail_out := if avail_out =? 0 then Z.min remainingDst UINT_MAX else avail_out in
      let '(avail_in, src) := match avail_in with
                              | [] => (chunk src, drop (Z.to_nat UINT_MAX) src)
                              | _ => (avail_in, src)
                              end in
      let '(ret, used, new, z) := z_inflate z avail_in avail_out in
      let out := out ++ new in
      if ret =? Z_STREAM_END
      then Some (if z_inflateEnd z then OH_ARCHIVE_OK else OH_ARCHIVE_DEFLATE_ERROR, out)
      else if negb (ret =? Z_OK) then Some (OH_ARCHIVE_DEFLATE_ERROR, [])
      else
        let avail_in := drop used avail_in in
        if zlen avail_in + zlen src >? 0
        then BufferRead_loop fuel z avail_in src (avail_out - zlen new) maxDstLen out
        else if z_inflateEnd z then Some (OH_ARCHIVE_OK, out) else Some (OH_ARCHIVE_DEFLATE_ERROR, [])
  end.

(** The result and the bytes in the destination that [dstSize] then counts. *)
Definition OH_Archive_BufferRead (dstSize : option Z) (srcBuffer : option bytes) (method : Z) :
    option (OH_Archive_ErrCode * bytes) :=
  match dstSize, srcBuffer with
  | Some maxDstLen, Some src =>
      if zlen src =? 0 then Some (OH_ARCHIVE_PARAM_ERROR, []) else
      if negb (method =? OH_ARCHIVE_COMPRESS_DEFLATE) then Some (OH_ARCHIVE_PARAM_ERROR, []) else
      match z_inflateInit2 with
      | None => Some (OH_ARCHIVE_DEFLATE_ERROR, [])
      | Some z => BufferRead_loop z_fuel z [] src 0 maxDstLen []
      end
  | _, _ => Some (OH_ARCHIVE_PARAM_ERROR, [])
  end.

(** [StreamNext] refills what is empty; [room] is the space zlib has not been given. *)
Definition StreamNext (avail_in source : bytes) (avail_out room : Z) : bytes * bytes * Z * Z :=
  let '(avail_out, room) :=
    if avail_out =? 0 then (Z.min room UINT_MAX, room - Z.min room UINT_MAX) else (avail_out, room) in
  match avail_in with
  | [] => (chunk source, drop (Z.to_nat UINT_MAX) source, avail_out, room)
  | _ => (avail_in, source, avail_out, room)
  end.

Fixpoint CompressDeflate_loop (fuel : nat) (z : zstate) (avail_in source : bytes) (avail_out room : Z)
    (out : bytes) : option (Z * bytes) :=
  match fuel with
  | O => None
  | S fuel =>
      let '(avail_in, source, avail_out, room) := StreamNext avail_in source avail_out room in
      let '(err, used, new, z) := z_deflate z avail_in avail_out (if negb (zlen source =? 0) then Z_NO_FLUSH else Z_FINISH) in
      let out := out ++ new in
      if err =? Z_OK
      then CompressDeflate_loop fuel z (drop used avail_in) source (avail_out - zlen new) room out
      else Some (if err =? Z_STREAM_END then Z_OK else err, out)
  end.
Definition CompressDeflate (destLen : Z) (source : bytes) (level : Z) : option (Z * bytes) :=
  match z_deflateInit2 level with
  | inr err => Some (err, [])
  | inl z => CompressDeflate_loop z_fuel z [] source 0 destLen []
  end.

Definition OH_Archive_BufferWrite (destLen : option Z) (source : option bytes) (method level : Z) :
    option (OH_Archive_ErrCode * bytes) :=
  match destLen, source with
  | Some destLen, Some source =>
      if (zlen source =? 0) || negb (method =? OH_ARCHIVE_COMPRESS_DEFLATE)
      then Some (OH_ARCHIVE_PARAM_ERROR, []) else
      match CompressDeflate destLen source level with
      | None => None
      | Some (ret, out) =>
          Some (if ret =? Z_BUF_ERROR then OH_ARCHIVE_INSUFFICIENT_OUTBUF_ERROR
                else if ret =? Z_MEM_ERROR then OH_ARCHIVE_MEM_ERROR
                else if ret =? Z_STREAM_ERROR then OH_ARCHIVE_PARAM_ERROR else OH_ARCHIVE_OK, out)
      end
  | _, _ => Some (OH_ARCHIVE_PARAM_ERROR, [])
  end.

Definition OH_Archive_BufferWriteCompressBound (method sourceLen : Z) : Z :=
  if method =? OH_ARCHIVE_COMPRESS_DEFLATE then
    let blockBound := z_compressBound DEFLATE_BUFFER_BLOCK_SIZE in
    let blockCount := u64 (sourceLen + DEFLATE_BUFFER_BLOCK_SIZE - 1) / DEFLATE_BUFFER_BLOCK_SIZE in
    u64 (blockBound * blockCount)
  else 0.

(** ** Deflating piece by piece *)
Context (handler : nat → bytes → Z).

Inductive WriteStreamState := W_STREAM_CREATED | W_STREAM_STARTED | W_STREAM_CANCELED | W_STREAM_ENDED.
#[export] Instance WriteStreamState_eq_dec : EqDecision WriteStreamState.
Proof. solve_decision. Defined.

(** [zstream] is gone after [deflateEnd]; the counters are set by [Start]. *)
Record WriteCtx := mkWriteCtx {
  w_checksum : Z; w_started : bool; w_level : Z; w_result : OH_Archive_ErrCode;
  w_totalIn : Z; w_totalOut : Z; w_crc32 : Z;
  w_zstream : option zstate; w_avail_in : bytes; w_out : bytes; w_bufSize : Z;
  w_state : WriteStreamState; w_delivered : list bytes
}.

Definition CheckStreamWriteCreateParam (config : Config) : bool :=
  if negb (cmethod config =? OH_ARCHIVE_COMPRESS_DEFLATE) then false
  else if blockSize config <? DEFLATE_BLOCK_SIZE_THRESHOLD then false
  else negb ((checksum config <? 0) || (checksum config >? OH_ARCHIVE_CRC32)).

(** Two allocations may fail. *)
Definition OH_Archive_StreamWrite_Create (config : Config) (mem1 mem2 : bool) : option WriteCtx :=
  if negb (CheckStreamWriteCreateParam config) then None
  else if negb mem1 then None
  else if negb mem2 then None
  else match z_deflateInit2 DEFLATE_DEFAULT_LEVEL with
       | inr _ => None
       | inl z => Some (mkWriteCtx (checksum config) false DEFLATE_DEFAULT_LEVEL OH_ARCHIVE_OK 0 0 0
                           (Some z) [] [] (blockSize config) W_STREAM_CREATED [])
       end.

Definition OH_Archive_StreamWrite_SetCompressLevel (ctx : option WriteCtx) (compressLevel : Z) :
    OH_Archive_ErrCode * option WriteCtx :=
  match ctx with
  | None => (OH_ARCHIVE_PARAM_ERROR, ctx)
  | Some c =>
      if (compressLevel <? DEFLATE_MIN_LEVEL) || (compressLevel >? DEFLATE_MAX_LEVEL)
      then (OH_ARCHIVE_PARAM_ERROR, ctx) else
      let compressLevel := if compressLevel =? DEFLATE_MIN_LEVEL then DEFLATE_DEFAULT_LEVEL else compressLevel in
      if negb (bool_decide (w_state c = W_STREAM_CREATED)) && negb (bool_decide (w_state c = W_STREAM_ENDED))
      then (OH_ARCHIVE_PARAM_ERROR, ctx) else
      if w_level c =? compressLevel then (OH_ARCHIVE_OK, ctx) else
      match w_zstream c with
      | None => (OH_ARCHIVE_PARAM_ERROR, ctx)
      | Some z =>
          match z_deflateParams z compressLevel with
          | None => (OH_ARCHIVE_PARAM_ERROR, ctx)
          | Some z => (OH_ARCHIVE_OK, Some (c <| w_zstream := Some z |> <| w_level := compressLevel |>))
          end
      end
  end.

Definition reset (c : WriteCtx) : option zstate :=
  match w_zstream c with Some z => z_deflateReset z | None => None end.

Definition OH_Archive_StreamWrite_Cancel (ctx : option WriteCtx) : OH_Archive_ErrCode * option WriteCtx :=
  match ctx with
  | None => (OH_ARCHIVE_PARAM_ERROR, ctx)
  | Some c =>
      if negb (bool_decide (w_state c = W_STREAM_STARTED)) then (OH_ARCHIVE_PARAM_ERROR, ctx) else
      let z := match reset c with Some z => Some z | None => w_zstream c end in
      (OH_ARCHIVE_OK, Some (c <| w_result := OH_ARCHIVE_CANCEL_ERROR |> <| w_zstream := z |>
                              <| w_state := W_STREAM_CANCELED |>))
  end.

Definition OH_Archive_StreamWrite_Start (ctx : option WriteCtx) (writeCallback : bool) :
    OH_Archive_ErrCode * option WriteCtx :=
  match ctx with
  | None => (OH_ARCHIVE_PARAM_ERROR, ctx)
  | Some c =>
      if negb writeCallback then (OH_ARCHIVE_PARAM_ERROR, ctx) else
      let ctx := if bool_decide (w_state c = W_STREAM_STARTED)
                 then snd (OH_Archive_StreamWrite_Cancel (Some c)) else Some c in
      let c := default c ctx in
      match reset c with
      | None => (OH_ARCHIVE_DEFLATE_ERROR, Some c)
      | Some z =>
          (OH_ARCHIVE_OK,
           Some (c <| w_zstream := Some z |> <| w_out := [] |> <| w_state := W_STREAM_STARTED |>
                   <| w_result := OH_ARCHIVE_OK |> <| w_totalOut := 0 |> <| w_totalIn := 0 |>
                   <| w_crc32 := 0 |> <| w_started := true |> <| w_delivered := [] |>))
      end
  end.

(** A block for the handler: what it accepted, and the context with it delivered. *)
Definition deliver (c : WriteCtx) : Z * WriteCtx :=
  (handler (length (w_delivered c)) (w_out c), c <| w_delivered := w_delivered c ++ [w_out c] |>).

Fixpoint FlushInternalData (fuel : nat) (c : WriteCtx) (flushMode : Z) : option (OH_Archive_ErrCode * WriteCtx) :=
  match fuel with
  | O => None
  | S fuel =>
      if negb (bool_decide (w_result c = OH_ARCHIVE_OK)) then Some (w_result c, c) else
      let full := zlen (w_out c) =? w_bufSize c in
      let '(len, c) := if full then deliver c else (w_bufSize c, c) in
      if negb (len =? w_bufSize c) then Some (OH_ARCHIVE_STREAM_OUTPUT_ERROR, c) else
      let c := if full then c <| w_out := [] |> <| w_totalOut := w_totalOut c +₆₄ w_bufSize c |> else c in
      match w_zstream c with
      | None => Some (OH_ARCHIVE_DATA_ERROR, c)
      | Some z =>
          let '(ret, used, new, z) := z_deflate z (w_avail_in c) (w_bufSize c - zlen (w_out c)) flushMode in
          let c := c <| w_zstream := Some z |> <| w_avail_in := drop used (w_avail_in c) |>
                     <| w_out := w_out c ++ new |> in
          if ret =? Z_STREAM_END then Some (OH_ARCHIVE_OK, c)
          else if negb (ret =? Z_OK) then Some (OH_ARCHIVE_DATA_ERROR, c <| w_zstream := None |>)
          else if (zlen (w_avail_in c) >? 0) || ((flushMode =? Z_FINISH) && (ret =? Z_OK))
          then FlushInternalData fuel c flushMode
          else Some (OH_ARCHIVE_OK, c)
      end
  end.

(** [avail_in] and the length [crc32] takes are unsigned ints. *)
Definition PushDataSequential (c : WriteCtx) (data : bytes) : option (OH_Archive_ErrCode * WriteCtx) :=
  let given := take (Z.to_nat (u32 (zlen data))) data in
  let c := c <| w_avail_in := given |> <| w_totalIn := w_totalIn c +₆₄ zlen data |> in
  let c := if w_checksum c =? OH_ARCHIVE_CRC32
           then c <| w_crc32 := z_crc32 (w_crc32 c) given |> else c in
  FlushInternalData z_fuel c Z_NO_FLUSH.

Definition OH_Archive_StreamWrite_Update (ctx : option WriteCtx) (data : option bytes) :
    option (OH_Archive_ErrCode * option WriteCtx) :=
  match ctx, data with
  | Some c, Some data =>
      if negb (bool_decide (w_result c = OH_ARCHIVE_OK)) then Some (w_result c, ctx) else
      if negb (bool_decide (w_state c = W_STREAM_STARTED)) then Some (OH_ARCHIVE_PARAM_ERROR, ctx) else
      match PushDataSequential c data with
      | None => None
      | Some (ret, c) => Some (ret, Some c)
      end
  | _, _ => Some (OH_ARCHIVE_PARAM_ERROR, ctx)
  end.

(** The result, and the counters when it is [OH_ARCHIVE_OK]. *)
Definition OH_Archive_StreamWrite_End (ctx : option WriteCtx) :
    option (OH_Archive_ErrCode * option StreamInfo * option WriteCtx) :=
  match ctx with
  | None => Some (OH_ARCHIVE_PARAM_ERROR, None, ctx)
  | Some c =>
      if negb (bool_decide (w_state c = W_STREAM_STARTED)) && negb (bool_decide (w_state c = W_STREAM_CANCELED))
      then Some (OH_ARCHIVE_PARAM_ERROR, None, ctx) else
      match FlushInternalData z_fuel c Z_FINISH with
      | None => None
      | Some (result, c) =>
          if negb (bool_decide (result = OH_ARCHIVE_OK)) then Some (result, None, Some c) else
          let remainedSize := zlen (w_out c) in
          let '(len, c) := deliver c in
          if negb (len =? remainedSize) then Some (OH_ARCHIVE_STREAM_OUTPUT_ERROR, None, Some c) else
          let c := c <| w_totalOut := w_totalOut c +₆₄ remainedSize |> in
          Some (OH_ARCHIVE_OK, Some (mkStreamInfo (w_totalIn c) (w_totalOut c) (w_crc32 c)),
                Some (c <| w_state := W_STREAM_ENDED |>))
      end
  end.

(** ** Inflating piece by piece *)
Record ReadCtx := mkReadCtx {
  r_zstream : zstate; r_outBlockSize : Z; r_checksum : Z; r_cancel : bool; r_crc : Z;
  r_totalInSize : Z; r_totalOutSize : Z; r_delivered : list bytes
}.

Definition OH_Archive_StreamRead_Create (config : Config) (mem1 mem2 : bool) : option ReadCtx :=
  if negb (cmethod config =? OH_ARCHIVE_COMPRESS_DEFLATE) || (blockSize config =? 0) then None
  else if negb mem1 then None
  else if negb mem2 then None
  else match z_inflateInit2 with
       | None => None
       | Some z => Some (mkReadCtx z (blockSize config) (checksum config) false 0 0 0 [])
       end.

Definition OH_Archive_StreamRead_Start (ctx : option ReadCtx) (outputHandler : bool) :
    OH_Archive_ErrCode * option ReadCtx :=
  match ctx with
  | None => (OH_ARCHIVE_PARAM_ERROR, ctx)
  | Some c =>
      if negb outputHandler then (OH_ARCHIVE_PARAM_ERROR, ctx) else
      let c := c <| r_crc := 0 |> <| r_totalInSize := 0 |> <| r_totalOutSize := 0 |>
                 <| r_cancel := false |> <| r_delivered := [] |> in
      match z_inflateReset2 (r_zstream c) with
      | None => (OH_ARCHIVE_DEFLATE_ERROR, Some c)
      | Some z => (OH_ARCHIVE_OK, Some (c <| r_zstream := z |>))
      end
  end.

Definition OH_Archive_StreamRead_Cancel (ctx : option ReadCtx) : OH_Archive_ErrCode * option ReadCtx :=
  match ctx with
  | None => (OH_ARCHIVE_PARAM_ERROR, ctx)
  | Some c => (OH_ARCHIVE_OK, Some (c <| r_cancel := true |>))
  end.

(** [block] is what the output buffer holds. *)
Definition StreamReadHandle (c : ReadCtx) (block : bytes) : OH_Archive_ErrCode * ReadCtx :=
  let outBufLen := zlen block in
  let handleRet := handler (length (r_delivered c)) block in
  let c := c <| r_delivered := r_delivered c ++ [block] |> in
  if negb (handleRet =? outBufLen) then (OH_ARCHIVE_STREAM_OUTPUT_ERROR, c) else
  let c := if r_checksum c =? OH_ARCHIVE_CRC32 then c <| r_crc := z_crc32 (r_crc c) block |> else c in
  (OH_ARCHIVE_OK, c <| r_totalOutSize := r_totalOutSize c +₆₄ outBufLen |>).

Fixpoint StreamRead_loop (fuel : nat) (c : ReadCtx) (avail_in : bytes) : option (OH_Archive_ErrCode * ReadCtx) :=
  match fuel with
  | O => None
  | S fuel =>
      if r_cancel c then Some (OH_ARCHIVE_CANCEL_ERROR, c) else
      let '(ret, used, block, z) := z_inflate (r_zstream c) avail_in (r_outBlockSize c) in
      let c := c <| r_zstream := z |> in
      if ret =? Z_STREAM_END then Some (StreamReadHandle c block)
      else if negb (ret =? Z_OK) then Some (OH_ARCHIVE_DEFLATE_ERROR, c)
      else
        let '(handleRslt, c) := StreamReadHandle c block in
        if negb (bool_decide (handleRslt = OH_ARCHIVE_OK)) then Some (handleRslt, c) else
        let avail_in := drop used avail_in in
        if (zlen avail_in >? 0) && (zlen block =? r_outBlockSize c)
        then StreamRead_loop fuel c avail_in else Some (OH_ARCHIVE_OK, c)
  end.

(** [avail_in] is an unsigned int. *)
Definition OH_Archive_StreamRead_Update (ctx : option ReadCtx) (data : option bytes) :
    option (OH_Archive_ErrCode * option ReadCtx) :=
  match ctx, data with
  | Some c, Some data =>
      if zlen data =? 0 then Some (OH_ARCHIVE_PARAM_ERROR, ctx) else
      match StreamRead_loop z_fuel (c <| r_totalInSize := r_totalInSize c +₆₄ zlen data |>)
              (take (Z.to_nat (u32 (zlen data))) data) with
      | None => None
      | Some (ret, c) => Some (ret, Some c)
      end
  | _, _ => Some (OH_ARCHIVE_PARAM_ERROR, ctx)
  end.

Definition OH_Archive_StreamRead_End (ctx : option ReadCtx) : OH_Archive_ErrCode * option StreamInfo :=
  match ctx with
  | None => (OH_ARCHIVE_PARAM_ERROR, None)
  | Some c => (OH_ARCHIVE_OK, Some (mkStreamInfo (r_totalInSize c) (r_totalOutSize c) (r_crc c)))
  end.
End buffer.
