(* ===== verification/ArchiveCalm.v ===== *)
(** * Streams when no call fails

    Equations for the operations of the archive code's streams in an environment
    without faults, for a stream whose file has some data: the basis of the
    theorems on what is read and written.  A computation is run step by step with
    [stepping]. *)

From S2P Require Import Prelude Bytes ArchiveErr ArchivePath ArchiveFs ArchiveStream ArchiveMonad.

Lemma bind_eq {S A B} (m : st S A) (f : A → st S B) s a s' :
  m s = Some (a, s') → bind m f s = f a s'.
Proof. unfold bind. by intros ->. Qed.

(** Rewrite with the equation of the first computation, whose side conditions [tac] solves. *)
Ltac stepping eqn tac := erewrite bind_eq; [|eapply eqn; tac]; cbv beta iota.

Lemma if_ok_ok {S} (k : st S Z) : if_ok 0 k = k.
Proof. done. Qed.

Lemma io_eq {R A} (m : st afs A) (r : R) fs rep a fs' :
  m fs = Some (a, fs') → io m (App r fs rep) = Some (a, App r fs' rep).
Proof. intros H. unfold io. cbn. by rewrite H. Qed.

Lemma if_ok_bind_eq {S} (m : st S Z) (k : st S Z) s s' :
  m s = Some (ARCHIVE_OK, s') → (ret ← m; if_ok ret k) s = k s'.
Proof. intros H. unfold bind. by rewrite H. Qed.

Section calm.
Context {AE : AEnv}.
Class Calm : Prop := calm : ∀ k n, a_fault k n = None.
Context {CA : Calm}.
Implicit Types (t : atree) (n : nat) (f : FileStream) (p : apath) (data buf : bytes).

(** [f] open on the file at [p], at [pos], without an error so far. *)
Definition on (f : FileStream) (p : apath) (pos : Z) : FileStream :=
  set_handle (Some (mkFILE p pos false)) f.

Lemma on_on f p pos q pos' : on (on f p pos) q pos' = on f q pos'.
Proof. done. Qed.

Lemma acalled_calm {A} (k : acall) (bad : Z → nat → atree → A * atree) (ok : atree → A * atree) t n :
  acalled k bad ok (Afs t n) = Some ((ok t).1, Afs (ok t).2 (S n)).
Proof. unfold acalled. cbn. rewrite calm. by destruct (ok t). Qed.

Lemma malloc_calm t n : malloc_ (Afs t n) = Some (Some (a_junk n), Afs t (S n)).
Proof. unfold malloc_. cbn. by rewrite calm. Qed.

Lemma read_on f p pos len t n data :
  t !! p = Some (AFile data) → 0 <= len →
  FileStreamRead (on f p pos) len (Afs t n)
  = Some ((zlen (slice pos len data), slice pos len data, on f p (pos + zlen (slice pos len data))),
          Afs t (S n)).
Proof.
  intros Ht Hl. unfold FileStreamRead, on. cbn [handle set_handle].
  rewrite (proj2 (Z.ltb_ge len 0)) by done. unfold fread_.
  erewrite bind_eq by apply acalled_calm. unfold file_data. cbn [h_path]. rewrite Ht. cbn.
  by rewrite andb_false_r.
Qed.

Lemma seek_on f p pos off t n :
  0 <= off → FileStreamSeek (on f p pos) off SEEK_SET (Afs t n) = Some ((0, on f p off), Afs t (S n)).
Proof.
  intros Ho. unfold FileStreamSeek, on. cbn [handle set_handle]. unfold fseek_.
  erewrite bind_eq by apply acalled_calm. cbn. by rewrite (proj2 (Z.ltb_ge off 0)).
Qed.

Lemma seek_cur_on f p pos off t n :
  0 <= pos + off →
  FileStreamSeek (on f p pos) off SEEK_CUR (Afs t n) = Some ((0, on f p (pos + off)), Afs t (S n)).
Proof.
  intros Ho. unfold FileStreamSeek, on. cbn [handle set_handle]. unfold fseek_.
  erewrite bind_eq by apply acalled_calm. cbn. by rewrite (proj2 (Z.ltb_ge (pos + off) 0)).
Qed.

Lemma seek_end_on f p pos off t n data :
  t !! p = Some (AFile data) → 0 <= zlen data + off →
  FileStreamSeek (on f p pos) off SEEK_END (Afs t n) = Some ((0, on f p (zlen data + off)), Afs t (S n)).
Proof.
  intros Ht Ho. unfold FileStreamSeek, on. cbn [handle set_handle]. unfold fseek_.
  erewrite bind_eq by apply acalled_calm. unfold file_data. cbn. rewrite Ht. cbn.
  by rewrite (proj2 (Z.ltb_ge (zlen data + off) 0)).
Qed.

Lemma tell_on f p pos t n :
  0 <= pos → FileStreamTell (on f p pos) (Afs t n) = Some (pos, Afs t (S n)).
Proof.
  intros Hp. unfold FileStreamTell, on. cbn [handle set_handle]. unfold ftell_.
  erewrite bind_eq by apply acalled_calm. cbn. by rewrite (proj2 (Z.eqb_neq pos (-1))) by lia.
Qed.

Lemma write_on f p pos buf t n data :
  t !! p = Some (AFile data) →
  FileStreamWrite (on f p pos) buf (Afs t n)
  = Some ((zlen buf, on f p (pos + zlen buf)), Afs (<[p := AFile (overwrite pos buf data)]> t) (S n)).
Proof.
  intros Ht. unfold FileStreamWrite, on. cbn [handle set_handle]. unfold fwrite_.
  erewrite bind_eq by apply acalled_calm. cbn. unfold put_data, file_data. cbn. rewrite Ht.
  by rewrite Z.eqb_refl.
Qed.
End calm.
Arguments Calm AE : clear implicits.
