(* ===== verification/ArchiveMem.v ===== *)
(** * The memory stream is a file

    The growing buffer of stream_mem.c against its specification: a content and a
    position in it.  Capacity, doubling and copying are not visible. *)

From S2P Require Import Prelude Bytes ArchiveErr ArchiveFs ArchiveStream.

(** The stream holds [content] and stands at [pos]. *)
Record mem_rep (m : MemStream) (content : bytes) (pos : Z) : Prop := {
  rep_buffer : ∃ rest, buffer m = Some (content ++ rest) ∧ capacity m = zlen content + zlen rest;
  rep_size : size m = zlen content;
  rep_position : position m = pos;
  rep_pos : 0 <= pos <= zlen content;
  rep_capacity : 0 < capacity m <= 2 ^ 63
}.

(** Doubling stops at a size that fits. *)
Lemma grow_fits fuel len newCap pos :
  0 <= pos <= newCap → 0 <= len → pos + len <= 2 ^ 62 → 2 ^ 62 <= newCap * 2 ^ Z.of_nat fuel →
  newCap <= 2 ^ 63 → pos + len <= grow fuel len newCap pos <= 2 ^ 63.
Proof.
  revert newCap. induction fuel as [|fuel IH]; intros newCap Hp Hl Hs Hf Hc; cbn [grow].
  { change (Z.of_nat 0) with 0 in Hf. lia. }
  rewrite (u64_id len) by lia. rewrite (u64_id (newCap - pos)) by lia.
  destruct (len >? newCap - pos) eqn:E; zbool; [|lia].
  rewrite u64_id by lia. apply IH; [lia|done|done| |lia].
  rewrite Nat2Z.inj_succ, Z.pow_succ_r in Hf by lia. lia.
Qed.

Lemma overwrite_rest pos new content rest :
  0 <= pos <= zlen content → zlen new <= zlen content - pos + zlen rest →
  ∃ rest', overwrite pos new (content ++ rest) = overwrite pos new content ++ rest'.
Proof.
  intros Hp Hn. unfold overwrite, zlen in *. rewrite take_app_le by lia.
  replace (Z.to_nat pos - length (content ++ rest))%nat with 0%nat by (rewrite length_app; lia).
  replace (Z.to_nat pos - length content)%nat with 0%nat by lia.
  exists (drop (Z.to_nat pos + length new - length content) rest).
  cbn [replicate app]. by rewrite drop_app, <- !app_assoc.
Qed.

(** A call of [malloc] fails. *)
Definition no_memory `{AE : AEnv} : Prop := ∃ n, is_Some (a_fault C_malloc n).

Lemma rep_resize `{AE : AEnv} m content pos newSize s :
  mem_rep m content pos → capacity m <= newSize <= 2 ^ 63 →
  twp (MemStreamResize m newSize)
    (λ '(ret, m') s', a_tree s' = a_tree s ∧
       ((ret = ARCHIVE_MEM_ERROR ∧ m' = m ∧ no_memory) ∨
        (ret = ARCHIVE_OK ∧ mem_rep m' content pos ∧ capacity m' = newSize))) s.
Proof.
  intros [(rest & Hb & Hc) Hs Hp Hpos Hcap] Hn. unfold MemStreamResize.
  rewrite (proj2 (Z.eqb_neq newSize 0)) by lia. apply twp_bind. unfold malloc_, twp.
  destruct (a_fault _ _) eqn:Ef; [split; [done|left]; by repeat split; eexists|]. rewrite Hb. cbn [fst snd].
  pose proof (zlen_nonneg rest). rewrite Hs. split; [done|]. right. split; [done|].
  assert ((if zlen content <? newSize then zlen content else newSize) = zlen content) as ->.
  { destruct (zlen content <? newSize) eqn:E; zbool; lia. }
  assert (take (Z.to_nat (zlen content)) (content ++ rest) = content) as ->.
  { unfold zlen. rewrite Nat2Z.id. apply take_app_length. }
  split; [|done]. constructor; cbn; try done; [|lia].
  eexists. split; [done|]. rewrite zlen_drop. unfold fresh_block, zlen in *.
  rewrite length_map, length_seq. lia.
Qed.

(** Writing over a content the capacity has room for. *)
Lemma rep_overwrite m content pos new :
  mem_rep m content pos → 0 < zlen new → pos + zlen new <= capacity m →
  ∃ old, buffer m = Some old ∧ pos + zlen new <= zlen old ∧
    mem_rep (mkMemStream (Some (overwrite pos new old))
               (if pos + zlen new >? size m then pos + zlen new else size m)
               (capacity m) (pos + zlen new) (memInitSize m))
      (overwrite pos new content) (pos + zlen new).
Proof.
  intros [(rest & Hb & Hc) Hs Hp Hpos Hcap] Hn Hr. exists (content ++ rest). rewrite zlen_app.
  split; [done|]. split; [lia|]. destruct (overwrite_rest pos new content rest) as [rest' Er]; [done|lia|].
  assert (zlen (overwrite pos new (content ++ rest)) = zlen (content ++ rest)) as El.
  { rewrite zlen_overwrite, zlen_app by lia. pose proof (zlen_nonneg rest). lia. }
  constructor; cbn; try done.
  - exists rest'. rewrite Er. split; [done|]. rewrite <- zlen_app, <- Er, El, zlen_app. lia.
  - rewrite zlen_overwrite by lia. rewrite Hs. destruct (_ >? _) eqn:E; zbool; lia.
  - rewrite zlen_overwrite by lia. lia.
Qed.

Lemma rep_write `{AE : AEnv} m content pos new s :
  mem_rep m content pos → zlen content + zlen new <= 2 ^ 62 →
  twp (MemStreamWrite m new)
    (λ '(ret, m') s', a_tree s' = a_tree s ∧
       ((ret = ARCHIVE_MEM_ERROR ∧ m' = m ∧ no_memory) ∨
        (ret = zlen new ∧ mem_rep m' (overwrite pos new content) (pos + zlen new)))) s.
Proof.
  intros Hm Hl. pose proof Hm as [_ Hs Hp Hpos Hcap]. pose proof (zlen_nonneg new) as Hn.
  unfold MemStreamWrite. destruct (zlen new =? 0) eqn:E; zbool.
  { apply twp_ret. split; [done|]. right. apply zlen_zero in E as ->. rewrite overwrite_none by done.
    split; [done|]. change (zlen []) with 0. by rewrite Z.add_0_r. }
  rewrite Hp. apply twp_bind. eapply (twp_mono _ (λ '(ret, m') s', a_tree s' = a_tree s ∧
    ((ret = ARCHIVE_MEM_ERROR ∧ m' = m ∧ no_memory) ∨
     (ret = ARCHIVE_OK ∧ mem_rep m' content pos ∧ pos + zlen new <= capacity m')))).
  - assert (0 <= capacity m - pos) as Hroom.
    { destruct Hm as [(rest & _ & Hc) _ _ _ _]. pose proof (zlen_nonneg rest). lia. }
    rewrite (u64_id (capacity m - pos)) by lia. destruct (_ >? _) eqn:E2; zbool.
    + assert (capacity m * 2 <= 2 ^ 63) by lia. rewrite u64_id by lia.
      pose proof (grow_fits 64 (zlen new) (capacity m * 2) pos) as Hg.
      assert (2 ^ 62 <= capacity m * 2 * 2 ^ Z.of_nat 64) by (change (Z.of_nat 64) with 64; lia).
      set (g := grow _ _ _ _) in *. eapply twp_mono; [apply (rep_resize m content pos g); [done|lia]|].
      intros [ret m'] s' (Ht & [Herr|(-> & Hm' & Hc')]); (split; [done|]); [by left|right].
      split; [done|]. split; [done|]. lia.
    + apply twp_ret. split; [done|]. right. split; [done|]. split; [done|]. lia.
  - intros [ret m'] s' (Ht & [(-> & -> & ?)|(-> & Hm' & Hc')]); cbn [negb].
    { apply twp_ret. split; [done|by left]. }
    change (ARCHIVE_OK =? ARCHIVE_OK) with true. cbn [negb].
    destruct (rep_overwrite m' content pos new Hm' ltac:(lia) Hc') as (old & -> & Ho & Hrep).
    rewrite (rep_position _ _ _ Hm').
    destruct (pos + zlen new >? zlen old) eqn:E3; zbool; [lia|].
    rewrite u64_id by lia. apply twp_ret. split; [done|]. by right.
Qed.

Lemma rep_move m content pos pos' :
  mem_rep m content pos → 0 <= pos' <= zlen content →
  mem_rep (mkMemStream (buffer m) (size m) (capacity m) pos' (memInitSize m)) content pos'.
Proof. intros [Hb Hs Hp Hpos Hcap] Hpos'. by constructor. Qed.

Lemma rep_read `{AE : AEnv} m content pos len s :
  mem_rep m content pos → zlen content <= 2 ^ 62 → 0 <= len < 2 ^ 63 →
  twp (MemStreamRead m len)
    (λ '(ret, data, m') s', s' = s ∧ data = slice pos len content ∧ ret = zlen data
       ∧ mem_rep m' content (pos + ret)) s.
Proof.
  intros Hm Hl Hlen. pose proof Hm as [(rest & Hb & Hc) Hs Hp Hpos Hcap]. pose proof (zlen_nonneg rest).
  unfold MemStreamRead. rewrite Hs, Hp, !(u64_id (zlen content - pos)), (u64_id len) by lia.
  rewrite i64_id by lia. set (k := if len >? zlen content - pos then zlen content - pos else len).
  assert (0 <= k <= zlen content - pos ∧ k <= len) as Hk by (subst k; destruct (len >? _) eqn:E; zbool; lia).
  assert (slice pos len content = slice pos k content) as ->.
  { subst k. destruct (len >? zlen content - pos) eqn:E; zbool; [|done]. by rewrite !slice_to_end by lia. }
  assert (zlen (slice pos k content) = k) as Hz by (rewrite zlen_slice; lia).
  clearbody k. destruct (k =? 0) eqn:E; zbool.
  { apply twp_ret. subst k. apply zlen_zero in Hz as ->. change (zlen []) with 0. by rewrite Z.add_0_r. }
  rewrite Hb, zlen_app. rewrite (u64_id k) by lia.
  destruct (pos + k >? zlen content + zlen rest) eqn:E2; zbool; [lia|].
  apply twp_ret. rewrite slice_app_l by lia. rewrite u64_id by lia.
  split_and!; [done|done|done|]. rewrite <- Hb, <- Hs. apply (rep_move _ _ pos); [done|lia].
Qed.

(** The stream [m] but for its position, which may be behind the content. *)
Definition moved (m m' : MemStream) (pos : Z) : Prop :=
  buffer m' = buffer m ∧ size m' = size m ∧ capacity m' = capacity m ∧ memInitSize m' = memInitSize m ∧ position m' = pos.

(** Where a seek goes. *)
Definition target (origin pos len offset : Z) : Z :=
  (if origin =? SEEK_SET then 0 else if origin =? SEEK_CUR then pos else len) + offset.

Lemma rep_seek m content pos offset origin :
  mem_rep m content pos → let newPos := target origin pos (zlen content) offset in - 2 ^ 63 <= newPos < 2 ^ 63 →
  let '(ret, m') := MemStreamSeek m offset origin in
  if (SEEK_SET <=? origin) && (origin <=? SEEK_END) && (0 <=? newPos) && (newPos <=? capacity m)
  then ret = ARCHIVE_OK ∧ moved m m' newPos ∧ (newPos <= zlen content → mem_rep m' content newPos)
  else ret = ARCHIVE_SEEK_ERROR ∧ m' = m.
Proof.
  intros Hm newPos Hnew. pose proof Hm as [_ Hs Hp _ _]. unfold MemStreamSeek. rewrite Hs, Hp.
  assert ((if origin =? SEEK_SET then offset else if origin =? SEEK_CUR then i64 (pos + offset)
           else i64 (zlen content + offset)) = newPos) as ->.
  { subst newPos. unfold target in *. destruct (origin =? SEEK_SET); [done|].
    destruct (origin =? SEEK_CUR); apply i64_id; lia. }
  destruct ((origin <? SEEK_SET) || _) eqn:E.
  { assert ((SEEK_SET <=? origin) && (origin <=? SEEK_END) = false) as -> by (apply orb_prop in E as [E|E]; zbool; lia). done. }
  zbool. rewrite !(proj2 (Z.leb_le _ _)) by lia. cbn [andb].
  destruct ((newPos <? 0) || _) eqn:E2.
  { assert ((0 <=? newPos) && (newPos <=? capacity m) = false) as -> by (apply orb_prop in E2 as [E2|E2]; zbool; lia). done. }
  zbool. rewrite !(proj2 (Z.leb_le _ _)) by lia. cbn [andb]. split; [done|]. split; [by split_and!|].
  intros Hle. rewrite <- Hs. apply (rep_move _ _ pos); [done|lia].
Qed.

(** C14: the memory stream behaves as a file while it stands in its content. From there a
    write succeeds with the bytes put over the content, or changes nothing and reports that
    memory is short, which it only does when an allocation fails; a read delivers the content;
    and telling reports the place. A seek moves to every place up to the capacity and changes
    nothing else; others, and unknown origins, are refused with [ARCHIVE_SEEK_ERROR]. What the
    stream does behind its content, where a seek can lead, is not what a file does. *)
Theorem mem_stream_refines_file `{AE : AEnv} m content pos new len offset origin s :
  mem_rep m content pos → zlen content + zlen new <= 2 ^ 62 → 0 <= len < 2 ^ 63 →
  let newPos := target origin pos (zlen content) offset in - 2 ^ 63 <= newPos < 2 ^ 63 →
  twp (MemStreamWrite m new)
    (λ '(ret, m') s', a_tree s' = a_tree s ∧
       ((ret = ARCHIVE_MEM_ERROR ∧ m' = m ∧ no_memory) ∨
        (ret = zlen new ∧ mem_rep m' (overwrite pos new content) (pos + zlen new)))) s ∧
  twp (MemStreamRead m len)
    (λ '(ret, data, m') s', s' = s ∧ data = slice pos len content ∧ ret = zlen data
       ∧ mem_rep m' content (pos + ret)) s ∧
  (let '(ret, m') := MemStreamSeek m offset origin in
   if (SEEK_SET <=? origin) && (origin <=? SEEK_END) && (0 <=? newPos) && (newPos <=? capacity m)
   then ret = ARCHIVE_OK ∧ moved m m' newPos ∧ (newPos <= zlen content → mem_rep m' content newPos)
   else ret = ARCHIVE_SEEK_ERROR ∧ m' = m) ∧
  MemStreamTell m = pos.
Proof.
  intros Hm Hl Hlen newPos Hnew. pose proof (zlen_nonneg new). split_and!.
  - by apply rep_write.
  - apply rep_read; [done|lia|done].
  - by apply rep_seek.
  - unfold MemStreamTell. rewrite (rep_position _ _ _ Hm). pose proof (rep_pos _ _ _ Hm). apply i64_id. lia.
Qed.
#[local] Instance mem_env : AEnv := {| a_fault := λ _ _, None; a_cwd := []; a_junk := λ _ _, 7;
  a_perm := λ _, 0; a_mtime := λ _, 0; a_progress := λ _, 0 |}.
Lemma mem_stream_refines_file_witness :
  let m := mkMemStream (Some [1; 2; 3; 7]) 3 4 1 4096 in
  mem_rep m [1; 2; 3] 1 ∧ MemStreamTell m = 1 ∧
  twp (MemStreamRead m 2) (λ '(ret, data, m') _, data = [2; 3] ∧ mem_rep m' [1; 2; 3] 3) (Afs ∅ 0).
Proof.
  intros m. assert (mem_rep m [1; 2; 3] 1) as Hm.
  { constructor; cbn; try done. by exists [7]. }
  destruct (mem_stream_refines_file m [1; 2; 3] 1 [5; 6; 8; 9] 2 0 SEEK_CUR (Afs ∅ 0) Hm)
    as (_ & Hr & _ & Ht); try (cbn; lia); try done.
  split; [exact Hm|]. split; [exact Ht|]. eapply twp_mono; [exact Hr|].
  intros [[ret data] m'] s' (_ & -> & -> & Hm'). split; [reflexivity|]. exact Hm'.
Defined.
