(* ===== verification/ArchiveDirectory.v ===== *)
(** * The directory of an archive is read as it was written

    The bytes the writer leaves for an entry in the central directory and for the
    end of the archive, as functions of what it knows of them, and the theorems
    that the reader recovers exactly that. *)

From coqutil Require Import Datatypes.RecordSetters.
From S2P Require Import Prelude Bytes ZipFormat ZipTime ArchiveErr ArchivePath ArchiveFs ArchiveText ArchiveStream ArchiveMonad ArchiveCalm ArchiveMem ZipReaderImpl ZipHeaders ZipReader.
Import TriangleBracketNotations.
#[local] Open Scope record_set.

(** ** The bytes of an entry *)

(** The Zip64 field has those of the three values that do not fit. *)
Definition wide (v : Z) : bytes := if v >? UINT32_MAX then le 8 v else [].
Definition zip64_extra (e : ZipWriterEntryInfo) : bytes :=
  let size := GetCdExtraFieldZip64DataSize e in
  if size >? 0
  then pack (mkCdExtraDataZIP64 ZIP_EXTRAFIELD_ZIP64_HEADER size)
       ++ wide (we_uncompressedSize e) ++ wide (we_compressedSize e) ++ wide (we_localHeaderOffset e)
  else [].
Definition cd_bytes (e : ZipWriterEntryInfo) : bytes :=
  pack (central_header e (GetCdExtraFieldZip64DataSize e)) ++ we_filename e ++ zip64_extra e.

Definition u_range (w : Z) (v : Z) : Prop := 0 <= v < 2 ^ w.
Definition size64_ok (v : Z) : Prop := u_range 64 v ∧ v ≠ UINT32_MAX.

(** What the writer's entries satisfy, with a name it marked as UTF-8, no longer than a path. A
    value of exactly [UINT32_MAX] is not written as a wide one but read as if it were. *)
Record entry_ok (e : ZipWriterEntryInfo) : Prop := {
  ok_version : we_versionMadeBy e = ZIP_VERSION_MADEBY;
  ok_flag : u_range 16 (we_flag e) ∧ Z.land (we_flag e) ZIP_FLAG_ENCRYPTED = 0
            ∧ Z.land (we_flag e) ZIP_FLAG_UTF8 ≠ 0;
  ok_method : u_range 16 (we_compressionMethod e);
  ok_crc : u_range 32 (we_crc e);
  ok_compressed : size64_ok (we_compressedSize e);
  ok_uncompressed : size64_ok (we_uncompressedSize e);
  ok_offset : size64_ok (we_localHeaderOffset e);
  ok_disk : we_diskNumber e = 0;
  ok_internal : u_range 16 (we_internalFa e);
  ok_external : u_range 32 (we_externalFa e);
  ok_date : u_range 32 (we_dosModDateTime e);
  ok_name : Forall is_byte (we_filename e) ∧ zlen (we_filename e) <= ZIP_FILE_NAME_LEN_MAX;
  ok_name_size : we_filenameSize e = zlen (we_filename e)
}.

Lemma extra_size_range e : 0 <= GetCdExtraFieldZip64DataSize e <= 24.
Proof.
  unfold GetCdExtraFieldZip64DataSize, ZIP64_UNCOMPRESS_SIZE, ZIP64_COMPRESS_SIZE, ZIP64_LOCALHEADEROFFSET_SIZE.
  rewrite u16_id; repeat case_match; lia.
Qed.

Lemma zlen_wide v : zlen (wide v) = if v >? UINT32_MAX then 8 else 0.
Proof. unfold wide. destruct (v >? _); [by rewrite zlen_le|done]. Qed.

Lemma extra_size e :
  GetCdExtraFieldZip64DataSize e
  = zlen (wide (we_uncompressedSize e) ++ wide (we_compressedSize e) ++ wide (we_localHeaderOffset e)).
Proof.
  rewrite !zlen_app, !zlen_wide.
  unfold GetCdExtraFieldZip64DataSize, ZIP64_UNCOMPRESS_SIZE, ZIP64_COMPRESS_SIZE, ZIP64_LOCALHEADEROFFSET_SIZE.
  rewrite u16_id; repeat case_match; lia.
Qed.

Lemma zlen_zip64_extra e :
  zlen (zip64_extra e)
  = if GetCdExtraFieldZip64DataSize e >? 0 then 4 + GetCdExtraFieldZip64DataSize e else 0.
Proof.
  unfold zip64_extra. destruct (_ >? 0); [|done]. by rewrite zlen_app, zlen_pack, <- extra_size.
Qed.

(** ** Writing it to the memory stream *)
Section write.
Context {AE : AEnv}.

(** The stream has [new] behind its content, or an allocation has failed. *)
Definition appended (content new : bytes) (r : Z * MemStream) (s s' : afs) : Prop :=
  a_tree s' = a_tree s ∧
  ((r.1 ≠ 0 ∧ no_memory) ∨ (r.1 = 0 ∧ mem_rep r.2 (content ++ new) (zlen (content ++ new)))).

Lemma appends_exact m content new s :
  mem_rep m content (zlen content) → zlen content + zlen new <= 2 ^ 62 →
  twp (write_exact m new) (λ r s', appended content new r s s') s.
Proof.
  intros Hm Hl. unfold write_exact. apply twp_bind.
  eapply twp_mono; [by apply rep_write|]. intros [ret m'] s' (Ht & [(-> & -> & Hn)|(-> & Hm')]); apply twp_ret.
  - split; [done|]. left. split; [|done]. cbn [fst]. pose proof (zlen_nonneg new).
    rewrite (proj2 (Z.eqb_neq _ _)) by (unfold ARCHIVE_MEM_ERROR; lia). done.
  - split; [done|]. right. rewrite Z.eqb_refl. cbn [negb fst snd]. split; [done|].
    by rewrite overwrite_end, <- zlen_app in Hm'.
Qed.

Lemma appends_nothing m content s :
  mem_rep m content (zlen content) → twp (sret (ARCHIVE_OK, m)) (λ r s', appended content [] r s s') s.
Proof. intros Hm. apply twp_ret. split; [done|]. right. cbn. by rewrite app_nil_r. Qed.

Lemma appends_uint64 m content v s :
  mem_rep m content (zlen content) → zlen content + 8 <= 2 ^ 62 → u_range 64 v →
  twp (StreamWriteUint64 m v) (λ r s', appended content (le 8 v) r s s') s.
Proof.
  intros Hm Hl Hv. unfold StreamWriteUint64, StreamWriteValue. unfold u_range in Hv.
  rewrite (u64_id v), value_bytes_le by lia. rewrite Z.div_small by (change (256 ^ Z.of_nat 8) with (2 ^ 64); lia).
  change (0 =? 0) with true. cbn [negb]. apply twp_bind.
  eapply twp_mono; [apply (rep_write m content); [done|by rewrite zlen_le]|].
  intros [ret m'] s' (Ht & [(-> & -> & Hn)|(-> & Hm')]); apply twp_ret; split; try done.
  - left. split; [|done]. done.
  - right. rewrite zlen_le. change (Z.of_nat 8 =? Z.of_nat 8) with true. cbn [negb fst snd]. split; [done|].
    by rewrite overwrite_end, zlen_le, <- (zlen_le 8 v), <- zlen_app in Hm'.
Qed.

Lemma appends_then m content a b (k : MemStream → st afs (Z * MemStream)) c s :
  c = a ++ b →
  twp m (λ r s', appended content a r s s') s →
  (∀ m' s1, mem_rep m' (content ++ a) (zlen (content ++ a)) →
     twp (k m') (λ r s', appended (content ++ a) b r s1 s') s1) →
  twp (bind m (λ r, then_write r k)) (λ r s', appended content c r s s') s.
Proof.
  intros -> Hm Hk. apply twp_bind. eapply twp_mono; [exact Hm|].
  intros [ret m'] s1 (Ht & [[Hr Hn]|[Hr Hm']]); cbn [then_write fst snd] in *.
  - rewrite (proj2 (Z.eqb_neq _ _)) by done. apply twp_ret. split; [done|by left].
  - subst ret. change (0 =? 0) with true. cbn [negb]. eapply twp_mono; [by apply Hk|].
    intros r s' (Ht' & H'). split; [congruence|]. by rewrite app_assoc.
Qed.
Lemma appends_wide m content v s :
  mem_rep m content (zlen content) → zlen content + zlen (wide v) <= 2 ^ 62 → u_range 64 v →
  twp (if v >? UINT32_MAX then StreamWriteUint64 m v else sret (ARCHIVE_OK, m))
    (λ r s', appended content (wide v) r s s') s.
Proof.
  intros Hm Hl Hv. rewrite zlen_wide in Hl. unfold wide. destruct (v >? UINT32_MAX).
  - by apply appends_uint64.
  - by apply appends_nothing.
Qed.

Lemma appends_name m content name s :
  mem_rep m content (zlen content) → zlen content + zlen name <= 2 ^ 62 →
  twp (ZipWriteFileName m name (zlen name)) (λ r s', appended content name r s s') s.
Proof.
  intros Hm Hl. unfold ZipWriteFileName. destruct (zlen name >? 0) eqn:E; zbool.
  - unfold zlen at 1. rewrite Nat2Z.id, take_ge by done. by apply appends_exact.
  - pose proof (zlen_nonneg name). assert (name = []) as -> by (apply zlen_zero; lia). by apply appends_nothing.
Qed.

Lemma appends_zip64_extra m content e s :
  mem_rep m content (zlen content) → zlen content + zlen (zip64_extra e) <= 2 ^ 62 →
  u_range 64 (we_uncompressedSize e) → u_range 64 (we_compressedSize e) →
  u_range 64 (we_localHeaderOffset e) → GetCdExtraFieldZip64DataSize e > 0 →
  twp (ZipWriteExtraFieldZip64Cd m e (GetCdExtraFieldZip64DataSize e))
    (λ r s', appended content (zip64_extra e) r s s') s.
Proof.
  intros Hm Hl Hu Hc Ho Hpos. rewrite zlen_zip64_extra in Hl. unfold ZipWriteExtraFieldZip64Cd, zip64_extra.
  pose proof (extra_size e) as Hsize. rewrite !zlen_app in Hsize.
  pose proof (zlen_nonneg (wide (we_uncompressedSize e))). pose proof (zlen_nonneg (wide (we_compressedSize e))).
  pose proof (zlen_nonneg (wide (we_localHeaderOffset e))).
  destruct (GetCdExtraFieldZip64DataSize e >? 0) eqn:E; zbool; [|lia].
  rewrite (proj2 (Z.eqb_neq _ _)) by lia.
  assert (Hz : ∀ a : CdExtraDataZIP64, zlen (pack a) = 4) by (intros; by rewrite zlen_pack).
  eapply appends_then; [reflexivity|apply appends_exact; [done|rewrite Hz; lia]|]. clear m Hm. intros m s1 Hm.
  eapply appends_then; [reflexivity|apply appends_wide; [done|rewrite zlen_app, Hz; lia|done]|].
  clear m Hm. intros m s2 Hm.
  eapply appends_then; [reflexivity|apply appends_wide; [done|rewrite !zlen_app, Hz; lia|done]|].
  clear m Hm. intros m s3 Hm.
  eapply appends_then; [symmetry; apply app_nil_r|apply appends_wide; [done|rewrite !zlen_app, Hz; lia|done]|].
  clear m Hm. intros m s4 Hm. rewrite Z.eqb_refl. by apply appends_nothing.
Qed.

Lemma zlen_cd_bytes e :
  zlen (cd_bytes e) = ZIP_SIZE_CD_ITEM + zlen (we_filename e) + zlen (zip64_extra e).
Proof. unfold cd_bytes. rewrite !zlen_app, zlen_pack. change (sizeof CentralDirHeader) with 46. unfold ZIP_SIZE_CD_ITEM. lia. Qed.

Lemma appends_cd_header m content e s :
  mem_rep m content (zlen content) → zlen content + zlen (cd_bytes e) <= 2 ^ 62 → entry_ok e →
  twp (ZipEntryWriteCdHeader m e) (λ r s', appended content (cd_bytes e) r s s') s.
Proof.
  intros Hm Hl He. rewrite zlen_cd_bytes in Hl. unfold ZIP_SIZE_CD_ITEM in Hl.
  pose proof (zlen_nonneg (we_filename e)). pose proof (zlen_nonneg (zip64_extra e)).
  assert (Hz : ∀ a : CentralDirHeader, zlen (pack a) = 46) by (intros; by rewrite zlen_pack).
  unfold ZipEntryWriteCdHeader, cd_bytes. rewrite (ok_name_size e He).
  eapply appends_then; [reflexivity|apply appends_exact; [done|rewrite Hz; lia]|]. clear m Hm. intros m s1 Hm.
  eapply appends_then; [reflexivity|apply appends_name; [done|rewrite zlen_app, Hz; lia]|].
  clear m Hm. intros m s2 Hm. destruct (_ >? 0) eqn:E; zbool.
  - apply appends_zip64_extra; [done|rewrite !zlen_app, Hz; lia| | | |lia].
    + apply (ok_uncompressed e He).
    + apply (ok_compressed e He).
    + apply (ok_offset e He).
  - unfold zip64_extra. destruct (_ >? 0) eqn:E2; zbool; [lia|]. by apply appends_nothing.
Qed.
End write.

(** ** Reading it *)

Definition rcd_of (h : CentralDirHeader) : ReadCentralDirHeader :=
  mkReadCentralDirHeader (cd_versionMadeBy h) (cd_versionNeeded h) (cd_flag h) (cd_compressionMethod h)
    (cd_dosModDateTime h) (cd_crc32 h) (cd_compressedSize h) (cd_uncompressedSize h)
    (cd_fileNameLength h) (cd_extraFieldLength h) (cd_fileCommentLength h) (cd_diskNumberStart h)
    (cd_internalFileAttr h) (cd_externalFileAttr h) (cd_relativeOffsetOfLocalHeader h).

Lemma pack_central h : pack h = le 4 (cd_signature h) ++ pack (rcd_of h).
Proof. unfold pack, put_fields. cbn -[le]. by rewrite <- ?app_assoc. Qed.

Definition header_of (e : ZipWriterEntryInfo) : ReadCentralDirHeader :=
  rcd_of (central_header e (GetCdExtraFieldZip64DataSize e)).

(** The reader's view of an entry; the checksum it computes is not touched. *)
Definition entry_of (mktime : tm → Z) (e : ZipWriterEntryInfo) (crc : Z) : ZipReaderEntryInfo :=
  mkZipReaderEntryInfo (we_uncompressedSize e) (we_compressedSize e) (we_localHeaderOffset e) 0
    (we_compressionMethod e) 0 0 0 false crc
    (ZipConvertDosDateToTime mktime (we_dosModDateTime e)) false (we_filename e).

Lemma cap32_range v : 0 <= v → 0 <= cap32 v < 2 ^ 32.
Proof. unfold cap32, UINT32_MAX. intros. destruct (v >? _) eqn:E; zbool; lia. Qed.

Lemma method_field_ok e : entry_ok e → method_field e = we_compressionMethod e.
Proof. intros He. unfold method_field. destruct (ok_flag e He) as (_ & -> & _). done. Qed.

Lemma extra_length e :
  entry_ok e → rcd_extraFieldLength (header_of e) = zlen (zip64_extra e).
Proof.
  intros He. cbn. pose proof (extra_size_range e). rewrite zlen_zip64_extra.
  change (sizeof CdExtraDataZIP64) with 4. apply u16_id. destruct (_ >? 0); lia.
Qed.

Lemma fits_header e : entry_ok e → fits (header_of e).
Proof.
  intros He. pose proof (extra_size_range e). pose proof (extra_length e He) as Hx.
  pose proof (zlen_zip64_extra e) as Hz. pose proof (method_field_ok e He) as Hm.
  destruct He as [Hv (Hf & _ & _) Hme Hc Hcs Hus Ho Hdk Hi Hx' Hd [_ Hn] Hns].
  destruct Hcs as [Hcs _], Hus as [Hus _], Ho as [Ho _]. unfold u_range in *.
  pose proof (cap32_range (we_compressedSize e)). pose proof (cap32_range (we_uncompressedSize e)).
  pose proof (cap32_range (we_localHeaderOffset e)). pose proof (zlen_nonneg (we_filename e)).
  unfold header_of in *. unfold ZIP_FILE_NAME_LEN_MAX, PATH_MAX in Hn. unfold fits. cbn in *.
  rewrite Hx, Hz, Hm, Hns, Hv, Hdk.
  repeat apply Forall2_cons_2; try apply Forall2_nil_2; cbn; try lia. 1, 4, 5: by split.
  all: unfold ZIP_VERSION_45, ZIP_VERSION_20; destruct (_ >? 0); lia.
Qed.

(** A little-endian value in the middle of some bytes. *)
Lemma read_le n a v b pos :
  zlen a = pos → Forall is_byte a → Forall is_byte b → (1 <= n <= 8)%nat → 0 <= v < 256 ^ Z.of_nat n →
  GetLittleEndianValue (at_ pos (a ++ le n v ++ b)) n = v.
Proof.
  intros <- Ha Hb Hn Hv. unfold at_, zlen. rewrite Nat2Z.id, drop_app_length.
  rewrite GetLittleEndianValue_eq.
  - rewrite <- (length_le n v) at 1. rewrite take_app_length. by apply le_value_id.
  - apply Forall_app. split; [apply le_is_byte|done].
  - done.
  - rewrite length_app, length_le. lia.
Qed.

(** Evaluate the sums and comparisons of constants in the goal. *)
Ltac closed_tests :=
  repeat match goal with
  | |- context [?a >? ?b] =>
      let v := eval vm_compute in (a >? b) in
      match v with true => idtac | false => idtac end; change (a >? b) with v; cbn beta iota
  | |- context [at_ (?a + ?b) _] =>
      let v := eval vm_compute in (a + b) in
      match v with Z.pos _ => idtac end; change (a + b) with v
  end.

Lemma wide_is_byte v : Forall is_byte (wide v).
Proof. unfold wide. destruct (_ >? _); [apply le_is_byte|done]. Qed.

(** The values the field holds replace the capped ones. *)
Lemma read_zip64_extra e head :
  entry_ok e → GetCdExtraFieldZip64DataSize e > 0 → zlen head = 4 → Forall is_byte head →
  ZipReadZip64ExtraField
    (head ++ wide (we_uncompressedSize e) ++ wide (we_compressedSize e) ++ wide (we_localHeaderOffset e))
    4 (GetCdExtraFieldZip64DataSize e)
    (mkReadZip64ExtraField (cap32 (we_uncompressedSize e)) (cap32 (we_compressedSize e))
       (cap32 (we_localHeaderOffset e)) 0)
  = mkReadZip64ExtraField (we_uncompressedSize e) (we_compressedSize e) (we_localHeaderOffset e) 0.
Proof.
  intros He Hpos Hh Hb. rewrite extra_size, !zlen_app, !zlen_wide in *.
  destruct (ok_compressed e He) as [Hc Hc'], (ok_uncompressed e He) as [Hu Hu'], (ok_offset e He) as [Ho Ho'].
  set (u := we_uncompressedSize e) in *. set (c := we_compressedSize e) in *. set (o := we_localHeaderOffset e) in *.
  clearbody u c o. unfold u_range in *. clear He.
  assert (R1 : ∀ v b, 0 <= v < 2 ^ 64 → Forall is_byte b →
    GetLittleEndianValue (at_ 4 (head ++ le 8 v ++ b)) 8 = v).
  { intros v b Hv Hbb. apply read_le; (done || lia). }
  assert (R2 : ∀ w v b, 0 <= v < 2 ^ 64 → Forall is_byte b →
    GetLittleEndianValue (at_ 12 (head ++ le 8 w ++ le 8 v ++ b)) 8 = v).
  { intros w v b Hv Hbb. rewrite app_assoc. apply read_le; try (done || lia).
    - by rewrite zlen_app, Hh, zlen_le.
    - apply Forall_app. split; [done|apply le_is_byte]. }
  assert (R3 : ∀ x w v b, 0 <= v < 2 ^ 64 → Forall is_byte b →
    GetLittleEndianValue (at_ 20 (head ++ le 8 x ++ le 8 w ++ le 8 v ++ b)) 8 = v).
  { intros x w v b Hv Hbb. rewrite (app_assoc head), (app_assoc (head ++ _)). apply read_le; try (done || lia).
    - by rewrite !zlen_app, Hh, !zlen_le.
    - rewrite !Forall_app. repeat split; [done|apply le_is_byte|apply le_is_byte]. }
  unfold wide, cap32 in *. unfold ZipReadZip64ExtraField. cbn [zf_uncompressedSize zf_compressedSize
    zf_relativeOffsetOfLocalHeader zf_diskNumberStart].
  assert (Hne : ∀ v, v ≠ UINT32_MAX → (v =? UINT32_MAX) = false) by (intros; by apply Z.eqb_neq).
  destruct (u >? UINT32_MAX) eqn:Eu, (c >? UINT32_MAX) eqn:Ec, (o >? UINT32_MAX) eqn:Eo; zbool;
    try lia; rewrite ?Z.eqb_refl, ?Hne by done; try rewrite <- (app_nil_r (le 8 o));
    rewrite ?app_nil_l; closed_tests; cbn -[at_ GetLittleEndianValue le app Z.add]; closed_tests;
    cbn -[at_ GetLittleEndianValue le app Z.add]; closed_tests; try done;
    rewrite ?R1, ?R2, ?R3 by (lia || (rewrite ?Forall_app; repeat split; (apply le_is_byte || apply Forall_nil_2)));
    done.
Qed.

Section read.
Context {AE : AEnv} {ZL : Zlib} {IC : Iconv} (mktime : tm → Z).
Context {CA : Calm AE}.
Implicit Types (t : atree) (n : nat) (f : FileStream) (p : apath) (data pre post : bytes).

(** A read that finds all it asks for. *)
Lemma read_part f p pos t n pre part post :
  t !! p = Some (AFile (pre ++ part ++ post)) → zlen pre = pos →
  FileStreamRead (on f p pos) (zlen part) (Afs t n)
  = Some ((zlen part, part, on f p (pos + zlen part)), Afs t (S n)).
Proof.
  intros Ht Hp. erewrite read_on by (done || apply zlen_nonneg). by rewrite slice_mid.
Qed.

Lemma base_eq {A} (m : FileStream → st afs (A * FileStream)) (r : ZipReader) fs rep a b fs' :
  m (baseStream r) fs = Some ((a, b), fs') →
  base m (App r fs rep) = Some (a, App (r <| baseStream := b |>) fs' rep).
Proof. intros H. unfold base, asks, io, bind, modify, sret. cbn. by rewrite H. Qed.

Lemma read_central_header f p pos t n pre (h : CentralDirHeader) post :
  t !! p = Some (AFile (pre ++ pack h ++ post)) → cd_signature h = ZIP_MAGIC_CENTRALHEADER →
  fits (rcd_of h) → zlen pre < 2 ^ 63 →
  ZipReadCentralDirHeader (on f p pos) (zlen pre) (Afs t n)
  = Some ((ARCHIVE_OK, Some (rcd_of h), on f p (zlen pre + ZIP_SIZE_CD_ITEM)), Afs t (3 + n)).
Proof.
  intros Ht Hs Hf Hl. pose proof (zlen_nonneg pre). unfold ZipReadCentralDirHeader.
  rewrite i64_id by lia. stepping seek_on ltac:(lia). change (0 =? 0) with true. cbn [negb].
  rewrite pack_central, <- app_assoc in Ht. change ZIP_SIZE_SIGNATURE with (zlen (le 4 (cd_signature h))).
  stepping read_part ltac:(done). rewrite Z.eqb_refl. cbn [negb].
  rewrite Hs, le_value_id by done. rewrite Z.eqb_refl. cbn [negb].
  rewrite Hs, app_assoc in Ht. change (zlen (le 4 ZIP_MAGIC_CENTRALHEADER)) with 4.
  rewrite <- (zlen_pack (rcd_of h)). stepping read_part ltac:(done || by rewrite zlen_app).
  rewrite Z.eqb_refl. cbn [negb]. unfold sret. rewrite unpack_pack_nil by done.
  change (zlen (pack (rcd_of h))) with 42. by rewrite <- Z.add_assoc.
Qed.

(** [r] after the entry [e], whose record ends at [pos]. *)
Definition at_entry (r : ZipReader) (f : FileStream) (p : apath) (pos : Z) (e : ZipWriterEntryInfo) : ZipReader :=
  r <| baseStream := on f p pos |> <| centralDirHeader := header_of e |>
    <| entryInfo := entry_of mktime e (ei_entryCrc (entryInfo r)) |>.

(** The entry before its extra field is looked at. *)
Definition capped_entry (e : ZipWriterEntryInfo) (crc : Z) (name : bytes) : ZipReaderEntryInfo :=
  mkZipReaderEntryInfo (cap32 (we_uncompressedSize e)) (cap32 (we_compressedSize e))
    (cap32 (we_localHeaderOffset e)) 0 (we_compressionMethod e) 0 0 0 false crc
    (ZipConvertDosDateToTime mktime (we_dosModDateTime e)) false name.

Lemma cap32_small v : (v >? UINT32_MAX) = false → cap32 v = v.
Proof. unfold cap32. by intros ->. Qed.

Lemma process_header f p pos t n rep pre e post (r : ZipReader) :
  entry_ok e → t !! p = Some (AFile (pre ++ cd_bytes e ++ post)) → zlen pre < 2 ^ 63 →
  baseStream r = on f p pos →
  ZipReaderProcessCentralDirHeader mktime (zlen pre) (App r (Afs t n) rep)
  = Some (ARCHIVE_OK,
          App (r <| baseStream := on f p (zlen pre + ZIP_SIZE_CD_ITEM) |>
                 <| centralDirHeader := header_of e |>
                 <| entryInfo := capped_entry e (ei_entryCrc (entryInfo r)) (ei_entryName (entryInfo r)) |>)
              (Afs t (3 + n)) rep).
Proof.
  intros He Ht Hl Hr. unfold ZipReaderProcessCentralDirHeader, cd_bytes in *. rewrite <- app_assoc in Ht.
  stepping @base_eq ltac:(rewrite Hr; eapply read_central_header; (done || by apply fits_header)).
  unfold bind, modify, asks, entry_, sret, if_ok. cbn -[ZIP_SIZE_CD_ITEM header_of Z.land].
  unfold header_of, rcd_of. cbn -[ZIP_SIZE_CD_ITEM Z.land].
  destruct (ok_flag e He) as (_ & Hf & _). rewrite Hf, method_field_ok, (ok_disk e He) by done.
  done.
Qed.
Lemma read_extra f p pos t n pre x post xpos :
  t !! p = Some (AFile (pre ++ x ++ post)) → zlen pre = xpos → xpos < 2 ^ 63 →
  ∃ k, ZipReadExtraFieldBuffer (on f p pos) xpos (zlen x) (Afs t n)
  = Some ((ARCHIVE_OK, x, on f p (if zlen x =? 0 then pos else xpos + zlen x)), Afs t (k + n)).
Proof.
  intros Ht Hp Hl. pose proof (zlen_nonneg pre). unfold ZipReadExtraFieldBuffer.
  destruct (zlen x =? 0) eqn:E; zbool.
  - exists 0%nat. apply zlen_zero in E. by subst x.
  - exists 2%nat. rewrite i64_id by lia. stepping seek_on ltac:(lia). change (0 =? 0) with true. cbn [negb].
    stepping read_part ltac:(done). by rewrite Z.eqb_refl.
Qed.

Lemma extra_loop_end fuel x len cur ret :
  len < cur + EXTRA_FIELD_HEADER_BYTES → ZipReaderProcessExtraField_loop (S fuel) x len cur ret = sret ret.
Proof.
  intros H. cbn [ZipReaderProcessExtraField_loop]. rewrite (proj2 (Z.leb_gt _ _)) by done. by rewrite andb_false_r.
Qed.
Lemma extra_loop_step fuel x len cur id size :
  cur + EXTRA_FIELD_HEADER_BYTES + size <= len → 0 <= cur → len < 2 ^ 16 →
  GetLittleEndianValue (at_ cur x) 2 = id → GetLittleEndianValue (at_ (cur + 2) x) 2 = size →
  0 <= id < 2 ^ 16 → 0 <= size →
  ZipReaderProcessExtraField_loop (S fuel) x len cur ARCHIVE_OK
  = (ret ← ProcessOneExtraField id x (cur + EXTRA_FIELD_HEADER_BYTES) size;
     ZipReaderProcessExtraField_loop fuel x len (cur + EXTRA_FIELD_HEADER_BYTES + size) ret).
Proof.
  intros H Hc Hl Hi Hs Hir Hsr. cbn [ZipReaderProcessExtraField_loop].
  rewrite (proj2 (Z.leb_le _ _)) by lia. rewrite Hi, Hs. change (ARCHIVE_OK =? ARCHIVE_OK) with true.
  cbn [andb negb]. unfold EXTRA_FIELD_HEADER_BYTES in *. rewrite !(u16_id (cur + 4)), (u16_id id) by lia.
  rewrite !(u16_id size) by lia.
  destruct (size >? len - (cur + 4)) eqn:E; zbool; [lia|].
  by rewrite u16_id by lia.
Qed.

(** One field of the kind the writer makes. *)
Lemma process_one_extra (x w : bytes) size (r : ZipReader) fs rep :
  x = pack (mkCdExtraDataZIP64 ZIP_EXTRAFIELD_ZIP64_HEADER size) ++ w → zlen w = size →
  0 < size <= 24 → Forall is_byte w →
  ZipReaderProcessExtraField x (4 + size) (App r fs rep) = ZipReaderProcessZip64ExtraField x 4 size (App r fs rep).
Proof.
  intros Hx Hw Hs Hb. assert (x = le 2 1 ++ le 2 size ++ w) as Hx'.
  { rewrite Hx. unfold pack, put_fields. cbn -[le]. by rewrite app_nil_r, <- app_assoc. }
  assert (GetLittleEndianValue (at_ 0 x) 2 = 1) as H1.
  { rewrite Hx'. apply (read_le 2 [] 1); try (done || lia). rewrite Forall_app. split; [apply le_is_byte|done]. }
  assert (GetLittleEndianValue (at_ (0 + 2) x) 2 = size) as H2.
  { rewrite Hx'. apply (read_le 2 (le 2 1) size); try (done || lia). apply le_is_byte. }
  assert (Hl : zlen x = 4 + size) by (rewrite Hx', !zlen_app, !zlen_le; lia).
  unfold ZipReaderProcessExtraField, zlen in *. destruct (length x) as [|k] eqn:Ek; [lia|].
  rewrite (extra_loop_step _ _ _ _ 1 size) by (unfold EXTRA_FIELD_HEADER_BYTES; (done || lia)).
  unfold ProcessOneExtraField. change (1 =? 0x0001) with true. cbn iota.
  unfold bind. unfold ZipReaderProcessZip64ExtraField, entry_, modify, asks, bind, sret. cbn beta iota.
  rewrite extra_loop_end by (unfold EXTRA_FIELD_HEADER_BYTES; lia). done.
Qed.

Definition with_sizes (z : ReadZip64ExtraField) (i : ZipReaderEntryInfo) : ZipReaderEntryInfo :=
  i <| ei_uncompressedSize := zf_uncompressedSize z |> <| ei_compressedSize := zf_compressedSize z |>
    <| ei_relativeOffsetOfLocalHeader := zf_relativeOffsetOfLocalHeader z |>
    <| ei_diskNumberStart := zf_diskNumberStart z |>.

Lemma process_zip64 e x size (r : ZipReader) fs rep :
  we_diskNumber e = 0 → centralDirHeader r = header_of e →
  ZipReaderProcessZip64ExtraField x 4 size (App r fs rep)
  = Some (ARCHIVE_OK, App (r <| entryInfo := with_sizes
            (ZipReadZip64ExtraField x 4 size
               (mkReadZip64ExtraField (cap32 (we_uncompressedSize e)) (cap32 (we_compressedSize e))
                  (cap32 (we_localHeaderOffset e)) 0)) (entryInfo r) |>) fs rep).
Proof.
  intros Hd Hh. unfold ZipReaderProcessZip64ExtraField, asks, bind, entry_, modify, sret. cbn [own].
  rewrite Hh. unfold header_of, central_header, rcd_of. rewrite Hd. done.
Qed.

Lemma replace_entry (r : ZipReader) i : entryInfo r = i → r <| entryInfo := i |> = r.
Proof. intros <-. by destruct r. Qed.

(** The field of the writer is taken apart; without one the values are as they were. *)
Lemma process_extra e (r : ZipReader) fs rep :
  entry_ok e → centralDirHeader r = header_of e →
  entryInfo r = capped_entry e (ei_entryCrc (entryInfo r)) (we_filename e) →
  ZipReaderProcessExtraField (zip64_extra e) (zlen (zip64_extra e)) (App r fs rep)
  = Some (ARCHIVE_OK, App (r <| entryInfo := entry_of mktime e (ei_entryCrc (entryInfo r)) |>) fs rep).
Proof.
  intros He Hh Hi. pose proof (extra_size_range e) as Hr. pose proof (extra_size e) as Hs.
  rewrite zlen_zip64_extra. unfold zip64_extra.
  destruct (GetCdExtraFieldZip64DataSize e >? 0) eqn:E; zbool.
  - erewrite process_one_extra; [|reflexivity|by rewrite Hs|lia|].
    2: { rewrite !Forall_app. repeat split; apply wide_is_byte. }
    rewrite (process_zip64 e) by (done || apply (ok_disk e He)).
    rewrite read_zip64_extra; try (done || lia || by rewrite zlen_pack).
    2: apply pack_is_byte.
    set (z := mkReadZip64ExtraField _ _ _ _).
    assert (with_sizes z (entryInfo r) = entry_of mktime e (ei_entryCrc (entryInfo r))) as ->; [|done].
    by rewrite Hi at 1.
  - unfold ZipReaderProcessExtraField. rewrite extra_loop_end by (unfold EXTRA_FIELD_HEADER_BYTES; lia).
    unfold sret. rewrite replace_entry; [done|]. rewrite Hi. unfold capped_entry, entry_of. cbn.
    rewrite !zlen_app, !zlen_wide in Hs. rewrite !cap32_small; [done|..]; destruct (_ >? UINT32_MAX) eqn:?; 
      repeat case_match; try done; lia.
Qed.
Lemma convert_slash_unix (r : ZipReader) fs rep e :
  centralDirHeader r = header_of e → we_versionMadeBy e = ZIP_VERSION_MADEBY →
  ZipReaderConvertPathSlash (App r fs rep) = Some (tt, App r fs rep).
Proof.
  intros Hh Hv. unfold ZipReaderConvertPathSlash, bind, asks. cbn [own]. rewrite Hh.
  change (rcd_versionMadeBy (header_of e)) with (we_versionMadeBy e). by rewrite Hv.
Qed.

Lemma go_to_header f p pos t n rep pre e post (r : ZipReader) :
  entry_ok e → t !! p = Some (AFile (pre ++ cd_bytes e ++ post)) →
  zlen (pre ++ cd_bytes e) < 2 ^ 63 → baseStream r = on f p pos →
  zlen pre < cd_offset (place r) +₆₄ cd_size (place r) →
  ∃ k, ZipReaderGoToCentralDirHeader mktime (zlen pre) (App r (Afs t n) rep)
  = Some (ARCHIVE_OK, App (at_entry r f p (zlen (pre ++ cd_bytes e)) e) (Afs t (k + n)) rep).
Proof.
  intros He Ht Hl Hr Hp. rewrite zlen_app, zlen_cd_bytes in *.
  pose proof (zlen_nonneg pre). pose proof (zlen_nonneg (we_filename e)). pose proof (zlen_nonneg (zip64_extra e)).
  unfold ZIP_SIZE_CD_ITEM in *.
  unfold ZipReaderGoToCentralDirHeader. unfold asks at 1. rewrite bind_eq with (a := place r) (s' := App r (Afs t n) rep) by done.
  destruct (_ >=? _) eqn:E; zbool; [lia|].
  erewrite if_ok_bind_eq by (eapply process_header; (done || lia)).
  unfold asks at 1. erewrite bind_eq by done. cbn [own].
  destruct (ok_name e He) as [Hnb Hn]. pose proof (ok_name_size e He) as Hns.
  match goal with |- context [App ?r' _ rep] => set (r1 := r') end.
  assert (rcd_fileNameLength (centralDirHeader r1) = zlen (we_filename e)) as Hfl by (by rewrite <- Hns).
  rewrite Hfl.
  replace (if zlen (we_filename e) <? ZIP_FILE_NAME_LEN_MAX then zlen (we_filename e) else ZIP_FILE_NAME_LEN_MAX)
    with (zlen (we_filename e)) by (destruct (_ <? _) eqn:E2; zbool; lia).
  assert (Ht' : t !! p = Some (AFile ((pre ++ pack (central_header e (GetCdExtraFieldZip64DataSize e)))
                                      ++ we_filename e ++ zip64_extra e ++ post))).
  { rewrite Ht. unfold cd_bytes. by rewrite <- !app_assoc. }
  assert (Hl1 : zlen (pre ++ pack (central_header e (GetCdExtraFieldZip64DataSize e))) = zlen pre + 46)
    by by rewrite zlen_app, zlen_pack.
  stepping @base_eq ltac:(cbn; eapply read_part; done). rewrite Z.eqb_refl. cbn [negb].
  unfold entry_, modify. erewrite bind_eq by done. erewrite bind_eq by (apply io_eq, malloc_calm). cbn iota.
  rewrite (app_assoc _ (we_filename e)) in Ht'.
  assert (Hl2 : zlen ((pre ++ pack (central_header e (GetCdExtraFieldZip64DataSize e))) ++ we_filename e)
                = zlen pre + 46 + zlen (we_filename e)) by by rewrite zlen_app, Hl1.
  assert (Hx : zlen pre +₆₄ ZIP_SIZE_CD_ITEM +₆₄ zlen (we_filename e) = zlen pre + 46 + zlen (we_filename e)).
  { unfold ZIP_SIZE_CD_ITEM. rewrite !u64_id by (rewrite ?u64_id; lia). done. }
  rewrite Hx. change (rcd_extraFieldLength (centralDirHeader r1)) with (rcd_extraFieldLength (header_of e)).
  rewrite extra_length by done.
  destruct (read_extra f p (zlen pre + ZIP_SIZE_CD_ITEM + zlen (we_filename e)) t (S (S (3 + n))) _
              (zip64_extra e) post _ Ht' Hl2 ltac:(lia)) as [k Hk].
  exists (k + 5)%nat.
  stepping @base_eq ltac:(cbn; exact Hk).
  cbn [own reported]. rewrite if_ok_ok. erewrite if_ok_bind_eq by by apply process_extra.
  unfold asks. erewrite bind_eq by done.
  change (rcd_flag (centralDirHeader r1)) with (we_flag e). destruct (ok_flag e He) as (_ & _ & Hu).
  rewrite (proj2 (Z.eqb_neq _ _) Hu), andb_false_r. erewrite if_ok_bind_eq by done.
  erewrite bind_eq by (eapply convert_slash_unix; [done|apply (ok_version e He)]).
  unfold sret, at_entry, ZIP_SIZE_CD_ITEM. do 3 f_equal; [|f_equal; lia].
  replace (if _ =? 0 then _ else _) with (zlen pre + (46 + zlen (we_filename e) + zlen (zip64_extra e)))
    by (destruct (_ =? 0) eqn:E2; zbool; lia). done.
Qed.
(** ** Going through all of it *)

(** What [ZipReaderExtractAllFiles] does to go from entry to entry: the entries seen, and the result
    that ends it. *)
Fixpoint entries_from (fuel : nat) (ret : Z) : st (appstate ZipReader) (list (ReadCentralDirHeader * ZipReaderEntryInfo) * Z) :=
  match fuel with
  | O => undefined
  | S fuel =>
      if negb (ret =? ARCHIVE_OK) then sret ([], ret) else
      r ← asks id;
      ret ← ZipReaderGotoNextCentralDirHeader mktime;
      '(l, ret) ← entries_from fuel ret;
      sret ((centralDirHeader r, entryInfo r) :: l, ret)
  end.
Definition directory (fuel : nat) : st (appstate ZipReader) (list (ReadCentralDirHeader * ZipReaderEntryInfo) * Z) :=
  ret ← ZipReaderGotoFirstCentralDirHeader mktime; entries_from fuel ret.

Definition dir_bytes (es : list ZipWriterEntryInfo) : bytes := concat (map cd_bytes es).
Definition listed (crc : Z) (es : list ZipWriterEntryInfo) : list (ReadCentralDirHeader * ZipReaderEntryInfo) :=
  map (λ e, (header_of e, entry_of mktime e crc)) es.

Lemma cd_bytes_positive e : 46 <= zlen (cd_bytes e).
Proof.
  rewrite zlen_cd_bytes. pose proof (zlen_nonneg (we_filename e)). pose proof (zlen_nonneg (zip64_extra e)).
  unfold ZIP_SIZE_CD_ITEM. lia.
Qed.

Lemma goto_first_none (r : ZipReader) fs rep :
  totalNumberOfEntries r = 0 →
  ZipReaderGotoFirstCentralDirHeader mktime (App r fs rep)
  = Some (ARCHIVE_END_OF_LIST, App (r <| fileIndex := 0 |>) fs rep).
Proof. intros H. destruct r. cbn in H. by subst. Qed.

Section walk.
Context (f : FileStream) (p : apath) (pre post : bytes) (es : list ZipWriterEntryInfo) (crc : Z).
Hypothesis es_ok : Forall entry_ok es.
Hypothesis small : zlen pre + zlen (dir_bytes es) < 2 ^ 63.

(** The reader knows where the directory of the file is and how many entries it has. *)
Record placed (t : atree) (r : ZipReader) : Prop := {
  file_there : t !! p = Some (AFile (pre ++ dir_bytes es ++ post));
  place_known : cd_offset (place r) = zlen pre ∧ cd_size (place r) = zlen (dir_bytes es);
  count_known : totalNumberOfEntries r = zlen es;
  stream_there : ∃ pos, baseStream r = on f p pos;
  crc_kept : ei_entryCrc (entryInfo r) = crc
}.

(** It stands at the entry [e] behind those of [before]. *)
Record standing (before : list ZipWriterEntryInfo) (e : ZipWriterEntryInfo) (r : ZipReader) : Prop := {
  at_header : centralDirHeader r = header_of e;
  at_info : entryInfo r = entry_of mktime e crc;
  at_pos : curCentralDirHeaderPos r = zlen (pre ++ dir_bytes before);
  at_index : fileIndex r = zlen before
}.

Lemma dir_bytes_app a b : dir_bytes (a ++ b) = dir_bytes a ++ dir_bytes b.
Proof. unfold dir_bytes. by rewrite map_app, concat_app. Qed.
Lemma dir_bytes_cons e b : dir_bytes (e :: b) = cd_bytes e ++ dir_bytes b.
Proof. done. Qed.

Lemma dir_bytes_long l : 46 * zlen l <= zlen (dir_bytes l).
Proof.
  induction l as [|e l IH]; [done|]. rewrite dir_bytes_cons, zlen_app, zlen_cons.
  pose proof (cd_bytes_positive e). lia.
Qed.

(** Going to the entry [e], wherever the reader stands. *)
Lemma go_to_entry before e after t n rep (r : ZipReader) :
  es = before ++ e :: after → placed t r →
  ∃ k pos', ZipReaderGoToCentralDirHeader mktime (zlen (pre ++ dir_bytes before)) (App r (Afs t n) rep)
    = Some (ARCHIVE_OK, App (at_entry r f p pos' e) (Afs t (k + n)) rep).
Proof.
  intros Hes [Ht [Hp1 Hp2] Hc [pos Hb] Hcrc].
  assert (entry_ok e) as He by (rewrite Hes in es_ok; by apply Forall_app, proj2, Forall_cons in es_ok as [? _]).
  assert (Hd : dir_bytes es = dir_bytes before ++ cd_bytes e ++ dir_bytes after) by by rewrite Hes, dir_bytes_app.
  rewrite Hd, !zlen_app in small. pose proof (cd_bytes_positive e).
  pose proof (zlen_nonneg pre). pose proof (zlen_nonneg (dir_bytes before)). pose proof (zlen_nonneg (dir_bytes after)).
  edestruct (go_to_header f p pos t n rep (pre ++ dir_bytes before) e (dir_bytes after ++ post) r) as [k Hk]; [done|..].
  - by rewrite Ht, Hd, <- !app_assoc.
  - rewrite !zlen_app. lia.
  - done.
  - rewrite Hp1, Hp2, Hd, !zlen_app. rewrite u64_id; lia.
  - eauto.
Qed.

Lemma goto_first e after t n rep (r : ZipReader) :
  es = e :: after → placed t r →
  ∃ k r', ZipReaderGotoFirstCentralDirHeader mktime (App r (Afs t n) rep)
    = Some (ARCHIVE_OK, App r' (Afs t (k + n)) rep) ∧ placed t r' ∧ standing [] e r'.
Proof.
  intros Hes Hp. unfold ZipReaderGotoFirstCentralDirHeader, modify. erewrite bind_eq by done.
  unfold asks at 1. erewrite bind_eq by done. cbn [own fs reported id].
  set (r0 := r <| fileIndex := 0 |>). assert (placed t r0) as Hp0 by by destruct Hp.
  destruct (go_to_entry [] e after t n rep r0 Hes Hp0) as (k & pos' & Hg).
  destruct Hp0 as [Ht [Hp1 Hp2] Hc Hb Hcrc]. rewrite Hc, Hp1, Hes.
  destruct (0 >=? zlen (e :: after)) eqn:E; zbool; [rewrite zlen_cons in E; pose proof (zlen_nonneg after); lia|].
  assert (zlen (pre ++ dir_bytes []) = zlen pre) as Hz by (cbn; by rewrite app_nil_r).
  rewrite Hz in Hg. erewrite if_ok_bind_eq by exact Hg. erewrite bind_eq by done. unfold sret.
  eexists k, _. split; [reflexivity|]. split.
  - split; try done. by exists pos'.
  - split; cbn; [done|by rewrite <- Hcrc|by rewrite app_nil_r|done].
Qed.

Lemma next_position pre' before e0 :
  entry_ok e0 → zlen pre' + zlen (dir_bytes before ++ cd_bytes e0) < 2 ^ 63 →
  zlen (pre' ++ dir_bytes before) +₆₄ ZIP_SIZE_CD_ITEM +₆₄ rcd_fileNameLength (header_of e0)
    +₆₄ rcd_extraFieldLength (header_of e0) +₆₄ rcd_fileCommentLength (header_of e0)
  = zlen (pre' ++ dir_bytes (before ++ [e0])).
Proof.
  intros He Hl. rewrite extra_length by done. change (rcd_fileNameLength (header_of e0)) with (we_filenameSize e0).
  change (rcd_fileCommentLength (header_of e0)) with 0. rewrite (ok_name_size e0 He).
  rewrite dir_bytes_app, (dir_bytes_cons e0), app_nil_r. rewrite !zlen_app, zlen_cd_bytes in *.
  unfold ZIP_SIZE_CD_ITEM in *. pose proof (zlen_nonneg pre'). pose proof (zlen_nonneg (dir_bytes before)).
  pose proof (zlen_nonneg (we_filename e0)). pose proof (zlen_nonneg (zip64_extra e0)).
  rewrite (u64_id (_ + _ + 46)), (u64_id (_ + 46 + _)), (u64_id (_ + 46 + _ + _)), u64_id; lia.
Qed.

Lemma goto_next before e0 e after t n rep (r : ZipReader) :
  es = before ++ e0 :: e :: after → placed t r → standing before e0 r →
  ∃ k r', ZipReaderGotoNextCentralDirHeader mktime (App r (Afs t n) rep)
    = Some (ARCHIVE_OK, App r' (Afs t (k + n)) rep) ∧ placed t r' ∧ standing (before ++ [e0]) e r'.
Proof.
  intros Hes Hp [Hh Hi Hcur Hidx]. unfold ZipReaderGotoNextCentralDirHeader, modify.
  unfold asks at 1. erewrite bind_eq by done. erewrite bind_eq by done.
  unfold asks at 1. erewrite bind_eq by done. cbn [own fs reported id].
  set (r0 := r <| fileIndex := _ |>). assert (placed t r0) as Hp0 by by destruct Hp.
  assert (Hes' : es = (before ++ [e0]) ++ e :: after) by by rewrite Hes, <- app_assoc.
  destruct (go_to_entry (before ++ [e0]) e after t n rep r0 Hes' Hp0) as (k & pos' & Hg).
  pose proof (dir_bytes_long es) as Hlong. pose proof (zlen_nonneg pre). pose proof (zlen_nonneg before).
  pose proof (zlen_nonneg after).
  assert (entry_ok e0) as He0 by (rewrite Hes in es_ok; by apply Forall_app, proj2, Forall_cons in es_ok as [? _]).
  assert (Hz : zlen es = zlen before + (1 + (1 + zlen after))) by by rewrite Hes, zlen_app, !zlen_cons.
  assert (Hf : fileIndex r0 = zlen (before ++ [e0])).
  { cbn. rewrite Hidx, zlen_app, zlen_cons. change (zlen []) with 0. apply u64_id. lia. }
  rewrite Hf, (count_known _ _ Hp), Hz, zlen_app, zlen_cons. change (zlen []) with 0.
  destruct (_ >=? _) eqn:E; zbool; [lia|].
  assert (Hd : dir_bytes es = (dir_bytes before ++ cd_bytes e0) ++ dir_bytes (e :: after))
    by by rewrite Hes, dir_bytes_app, dir_bytes_cons, <- app_assoc.
  pose proof small as Hsmall. rewrite Hd, zlen_app in Hsmall. pose proof (zlen_nonneg (dir_bytes (e :: after))).
  rewrite Hcur, Hh, (next_position pre before e0) by (done || lia).
  erewrite if_ok_bind_eq by exact Hg. erewrite bind_eq by done. unfold sret.
  destruct Hp0 as [Ht [Hp1 Hp2] Hc Hb Hcrc]. eexists k, _. split; [reflexivity|]. split.
  - split; try done. by exists pos'.
  - split; cbn; [done|by rewrite <- Hcrc|done|exact Hf].
Qed.

Lemma goto_end before e0 t n rep (r : ZipReader) :
  es = before ++ [e0] → placed t r → standing before e0 r →
  ∃ r', ZipReaderGotoNextCentralDirHeader mktime (App r (Afs t n) rep)
    = Some (ARCHIVE_END_OF_LIST, App r' (Afs t n) rep).
Proof.
  intros Hes Hp [Hh Hi Hcur Hidx]. unfold ZipReaderGotoNextCentralDirHeader, modify.
  unfold asks at 1. erewrite bind_eq by done. erewrite bind_eq by done.
  unfold asks at 1. erewrite bind_eq by done. cbn [own fs reported id].
  pose proof (dir_bytes_long es). pose proof (zlen_nonneg pre). pose proof (zlen_nonneg before).
  assert (zlen es = zlen before + 1) as Hz by by rewrite Hes, zlen_app.
  assert (Hf : fileIndex (r <| fileIndex := fileIndex r +₆₄ 1 |>) = zlen before + 1).
  { cbn. rewrite Hidx. apply u64_id. lia. }
  rewrite Hf, (count_known _ _ Hp), Hz.
  destruct (_ >=? _) eqn:E; zbool; [|lia]. by eexists.
Qed.

Lemma entries_standing after before e t n rep (r : ZipReader) fuel :
  es = before ++ e :: after → placed t r → standing before e r → (length after + 1 < fuel)%nat →
  ∃ s', entries_from fuel ARCHIVE_OK (App r (Afs t n) rep) = Some ((listed crc (e :: after), ARCHIVE_END_OF_LIST), s').
Proof.
  revert before e n r fuel. induction after as [|e' after IH]; intros before e n r [|fuel] Hes Hp Hs Hf;
    cbn [length] in Hf; try lia; cbn [entries_from]; rewrite Z.eqb_refl; cbn [negb];
    unfold asks at 1; (erewrite bind_eq by done).
  - destruct (goto_end before e t n rep r Hes Hp Hs) as [r' Hr]. erewrite bind_eq by exact Hr.
    destruct fuel as [|fuel]; [lia|]. cbn. eexists. destruct Hs as [Hh Hi _ _]. by rewrite Hh, Hi.
  - destruct (goto_next before e e' after t n rep r Hes Hp Hs) as (k & r' & Hr & Hp' & Hs').
    erewrite bind_eq by exact Hr.
    destruct (IH (before ++ [e]) e' (k + n)%nat r' fuel) as [s' Hs'']; [by rewrite Hes, <- app_assoc|done|done|lia|].
    erewrite bind_eq by exact Hs''. unfold sret. eexists. destruct Hs as [Hh Hi _ _]. cbn. by rewrite Hh, Hi.
Qed.

Lemma directory_listed t n rep (r : ZipReader) fuel :
  placed t r → (length es + 1 < fuel)%nat →
  ∃ s', directory fuel (App r (Afs t n) rep) = Some ((listed crc es, ARCHIVE_END_OF_LIST), s').
Proof.
  intros Hp Hf. unfold directory.
  assert (es = [] ∨ ∃ e after, es = e :: after) as [Hes|(e & after & Hes)] by (destruct es; eauto).
  - destruct fuel as [|fuel]; [lia|]. pose proof (count_known _ _ Hp) as Hc. rewrite Hes in Hc.
    erewrite bind_eq by by apply goto_first_none. cbn [entries_from]. rewrite Hes. by eexists.
  - destruct (goto_first e after t n rep r Hes Hp) as (k & r' & Hr & Hp' & Hs').
    erewrite bind_eq by exact Hr. rewrite Hes in Hf |- *.
    eapply (entries_standing after []); try done. cbn in Hf. lia.
Qed.
End walk.
End read.
