(* ===== verification/ArchiveEnd.v ===== *)
(** * The end of an archive is read as it was written

    The records behind the central directory, with or without those of Zip64, and
    the theorem that a reader finds the directory and the number of entries. *)

From coqutil Require Import Datatypes.RecordSetters.
From S2P Require Import Prelude Bytes ZipFormat ZipTime ArchiveErr ArchivePath ArchiveFs ArchiveText ArchiveStream ArchiveMonad ArchiveCalm ArchiveMem ZipReaderImpl ZipHeaders ZipReader ArchiveDirectory.
Import TriangleBracketNotations.
#[local] Open Scope record_set.

(** ** The bytes of the end *)

Definition needs_zip64 (off size n : Z) : bool :=
  (size >? UINT32_MAX) || (off >? UINT32_MAX) || (n >? UINT16_MAX).
Definition cap16 (n : Z) : Z := if n >? UINT16_MAX then UINT16_MAX else n.
Definition eocd_of (off size n : Z) : EndOfCentralDir :=
  mkEndOfCentralDir ZIP_MAGIC_ENDHEADER 0 0 (cap16 n) (cap16 n) (cap32 size) (cap32 off) 0.
Definition eocd64_of (v off size n : Z) : EndOfCentralDir64 :=
  mkEndOfCentralDir64 ZIP_MAGIC_ENDHEADER64 ZIP_END_OF_CD64_SIZE v ZIP_VERSION_45 0 0 n n size off.
Definition locator_of (eocd : Z) : EndOfCentralDirLocator64 :=
  mkEndOfCentralDirLocator64 ZIP_MAGIC_ENDLOCHEADER64 0 eocd 1.
Definition end_records (v off size n : Z) : bytes :=
  (if needs_zip64 off size n then pack (eocd64_of v off size n) ++ pack (locator_of (off + size)) else [])
  ++ pack (eocd_of off size n).

(** The ends the reader understands: a number of entries of exactly [UINT16_MAX] or an offset of
    exactly [UINT32_MAX] makes it look for records that are not there, and for those the writer made
    only because the directory is large it does not look. *)
Definition reads_back (off size n : Z) : Prop :=
  (UINT16_MAX < n ∨ UINT32_MAX < off) ∨ (n < UINT16_MAX ∧ off < UINT32_MAX ∧ size <= UINT32_MAX).

Lemma fits_eocd off size n : 0 <= off → 0 <= size → 0 <= n → fits (eocd_of off size n).
Proof.
  intros. pose proof (cap32_range off). pose proof (cap32_range size).
  assert (0 <= cap16 n < 2 ^ 16) by (unfold cap16, UINT16_MAX; destruct (n >? _) eqn:?; zbool; lia).
  unfold fits. repeat apply Forall2_cons_2; try apply Forall2_nil_2; cbn; try lia. by split.
Qed.
Lemma fits_eocd64 v off size n :
  u_range 16 v → u_range 64 off → u_range 64 size → u_range 64 n → fits (eocd64_of v off size n).
Proof.
  unfold u_range. intros. unfold fits.
  repeat apply Forall2_cons_2; try apply Forall2_nil_2; cbn; try lia. all: by split.
Qed.
Lemma fits_locator eocd : u_range 64 eocd → fits (locator_of eocd).
Proof.
  unfold u_range. intros. unfold fits.
  repeat apply Forall2_cons_2; try apply Forall2_nil_2; cbn; try lia. all: by split.
Qed.

Lemma pack_eocd e : ∃ rest, pack e = le 4 (eocd_signature e) ++ rest ∧ Forall is_byte rest.
Proof.
  eexists (put_fields (tail (layout EndOfCentralDir)) (tail (to_fields e))). split; [done|].
  pose proof (pack_is_byte e) as H. change (pack e) with (le 4 (eocd_signature e) ++ put_fields (tail (layout EndOfCentralDir)) (tail (to_fields e))) in H.
  by apply Forall_app in H as [_ ?].
Qed.

(** ** In the buffer *)

Lemma at_app (a b : bytes) : at_ (zlen a) (a ++ b) = b.
Proof. unfold at_, zlen. by rewrite Nat2Z.id, drop_app_length. Qed.

Lemma search_at_end n a e :
  eocd_signature e = ZIP_MAGIC_ENDHEADER → search_signature (S n) (a ++ pack e) (zlen a) = Some (zlen a).
Proof.
  intros Hs. cbn [search_signature]. pose proof (zlen_nonneg a). rewrite (proj2 (Z.ltb_ge _ _)) by done.
  destruct (pack_eocd e) as (rest & Hp & Hb). rewrite Hp, Hs.
  assert (nth (Z.to_nat (zlen a)) (a ++ le 4 ZIP_MAGIC_ENDHEADER ++ rest) 0 = 0x50) as ->.
  { unfold zlen. rewrite Nat2Z.id, app_nth2, Nat.sub_diag by lia. done. }
  rewrite Z.eqb_refl, at_app.
  rewrite GetLittleEndianValue_eq; [|by rewrite Forall_app; split; [apply le_is_byte|]|lia|rewrite length_app; cbn; lia].
  done.
Qed.

Lemma read_eocd a off size n :
  0 <= off → 0 <= size → 0 <= n →
  ZipReadEOCD (a ++ pack (eocd_of off size n)) (zlen a) = (ARCHIVE_OK, eocd_of off size n).
Proof.
  intros. unfold ZipReadEOCD. rewrite at_app, unpack_pack_nil by by apply fits_eocd. cbn. by rewrite Z.eqb_refl.
Qed.

(** ** In the file *)
Section read_end.
Context {AE : AEnv} {ZL : Zlib} {IC : Iconv}.
Context {CA : Calm AE}.
Implicit Types (t : atree) (k : nat) (off size n : Z) (f : FileStream) (p : apath) (body dir data : bytes).

Lemma check_signature f p pos t k pre m rest sig :
  t !! p = Some (AFile (pre ++ le 4 m ++ rest)) → zlen pre = pos → 0 <= m < 2 ^ 32 →
  ZipCheckSignature (on f p pos) sig (Afs t k)
  = Some ((if m =? sig then ARCHIVE_OK else ARCHIVE_FORMAT_ERROR, on f p (pos + 4)), Afs t (S k)).
Proof.
  intros Ht Hp Hm. unfold ZipCheckSignature. change ZIP_SIZE_SIGNATURE with (zlen (le 4 m)).
  stepping read_part ltac:(done). rewrite Z.eqb_refl. cbn [negb]. rewrite le_value_id by done.
  unfold sret. by destruct (m =? sig).
Qed.

(** The last bytes of the file, up to the largest place the record can have. *)
Definition tail_length (size : Z) : Z :=
  let m := ZIP_SIZE_MAX_GLOBAL_COMMENT + ZIP_SIZE_EOCD_FIXED + ZIP_SIZE_CD_LOCATOR64 in
  if size <? m then size else m.

Lemma search_reads_tail f p pos t k x tail (i : EOCDInfo) :
  t !! p = Some (AFile (x ++ tail)) → zlen tail = tail_length (zlen (x ++ tail)) →
  ∃ k', ZipSearchEOCD (on f p pos) i (Afs t k)
  = ZipSearchEOCDFromback (on f p (zlen (x ++ tail))) tail (zlen tail) i (zlen (x ++ tail)) (Afs t (k' + k)).
Proof.
  intros Ht Hl. pose proof (zlen_nonneg x). pose proof (zlen_nonneg tail).
  unfold ZipSearchEOCD. stepping seek_end_on ltac:(done || (rewrite zlen_app; lia)).
  change (0 =? 0) with true. cbn [negb]. rewrite Z.add_0_r. stepping tell_on ltac:(rewrite zlen_app; lia).
  rewrite (proj2 (Z.ltb_ge _ _)) by (rewrite zlen_app; lia).
  fold (tail_length (zlen (x ++ tail))). rewrite <- Hl. stepping malloc_calm idtac.
  stepping seek_end_on ltac:(done || (rewrite zlen_app; lia)). change (0 =? ARCHIVE_OK) with true. cbn [negb].
  replace (zlen (x ++ tail) + - zlen tail) with (zlen x) by (rewrite zlen_app; lia).
  rewrite <- (app_nil_r tail) in Ht at 1. stepping read_part ltac:(done).
  rewrite Z.eqb_refl. cbn [negb]. exists 5%nat. by rewrite <- zlen_app.
Qed.
(** What is found of the end: where the record is that the place of the directory is checked with. *)
Definition found_end (i : EOCDInfo) (off size n : Z) : Prop :=
  if isZip64 i =? 0
  then endOfCentralDir i = eocd_of off size n ∧ offsetOfEOCD i = off + size
       ∧ off < UINT32_MAX ∧ n < UINT16_MAX ∧ size <= UINT32_MAX
  else isZip64 i = 1 ∧ offsetOfEOCD64 i = off + size ∧ ∃ v, endOfCentralDir64 i = eocd64_of v off size n.

Lemma zlen_eocd off size n : zlen (pack (eocd_of off size n)) = 22.
Proof. by rewrite zlen_pack. Qed.

Lemma tail_length_range n : 0 <= n → 0 <= tail_length n <= n ∧ (98 <= n → 98 <= tail_length n) ∧ (22 <= n → 22 <= tail_length n).
Proof.
  unfold tail_length, ZIP_SIZE_MAX_GLOBAL_COMMENT, ZIP_SIZE_EOCD_FIXED, ZIP_SIZE_CD_LOCATOR64.
  intros. destruct (_ <? _) eqn:E; zbool; lia.
Qed.

(** A list is split at any place before its end, so that the end has the length wanted. *)
Lemma split_tail (a b : bytes) m :
  zlen b <= m <= zlen a + zlen b → ∃ x y, a = x ++ y ∧ zlen (y ++ b) = m.
Proof.
  intros H. exists (take (Z.to_nat (zlen a + zlen b - m)) a), (drop (Z.to_nat (zlen a + zlen b - m)) a).
  split; [by rewrite take_drop|]. rewrite zlen_app, zlen_drop. unfold zlen in *. lia.
Qed.

Lemma search_plain f p pos t k z off size n (i : EOCDInfo) :
  t !! p = Some (AFile (z ++ pack (eocd_of off size n))) → zlen z = off + size →
  off < UINT32_MAX → n < UINT16_MAX → size <= UINT32_MAX → 0 <= off → 0 <= size → 0 <= n → isZip64 i = 0 →
  ∃ k' pos' i', ZipSearchEOCD (on f p pos) i (Afs t k) = Some ((ARCHIVE_OK, i', on f p pos'), Afs t (k' + k))
    ∧ found_end i' off size n.
Proof.
  intros Ht Hz Ho Hn Hs Ho0 Hs0 Hn0 Hi. set (e := eocd_of off size n) in *. pose proof (zlen_nonneg z).
  assert (zlen (pack e) = 22) as He by apply zlen_eocd.
  destruct (tail_length_range (zlen (z ++ pack e))) as ([H1 H2] & _ & H3); [rewrite zlen_app; lia|].
  destruct (split_tail z (pack e) (tail_length (zlen (z ++ pack e)))) as (x & y & Hxy & Hl).
  { rewrite zlen_app in *. lia. }
  rewrite Hxy, <- app_assoc in Ht, Hl.
  destruct (search_reads_tail f p pos t k x (y ++ pack e) i Ht Hl) as [k' Hk]. rewrite Hk. clear Hk.
  unfold ZipSearchEOCDFromback, ZIP_SIZE_EOCD_FIXED.
  replace (zlen (y ++ pack e) - 22) with (zlen y) by (rewrite zlen_app; lia).
  rewrite search_at_end by done. cbv iota. subst e. rewrite read_eocd by done. cbv iota zeta.
  change (eocd_totalNumberOfEntries (eocd_of off size n)) with (cap16 n).
  change (eocd_offsetOfCentralDir (eocd_of off size n)) with (cap32 off).
  assert (cap16 n = n) as -> by (unfold cap16; destruct (_ >? _) eqn:?; zbool; lia).
  assert (cap32 off = off) as -> by (unfold cap32; destruct (_ >? _) eqn:?; zbool; lia).
  change (negb (ARCHIVE_OK =? 0)) with false. cbv iota.
  rewrite !(proj2 (Z.eqb_neq _ _)) by lia. cbn [negb andb]. unfold sret.
  eexists k', _, _. split; [reflexivity|]. unfold found_end. cbn. rewrite Hi. cbn. split; [done|].
  rewrite Hxy in Hz. rewrite !zlen_app in *. lia.
Qed.

Lemma search_zip64 f p pos t k z v off size n (i : EOCDInfo) :
  t !! p = Some (AFile (z ++ pack (eocd64_of v off size n) ++ pack (locator_of (off + size)) ++ pack (eocd_of off size n))) →
  zlen z = off + size → off + size < 2 ^ 63 → UINT16_MAX < n ∨ UINT32_MAX < off →
  0 <= off → 0 <= size → 0 <= n < 2 ^ 64 → u_range 16 v →
  ∃ k' pos' i', ZipSearchEOCD (on f p pos) i (Afs t k) = Some ((ARCHIVE_OK, i', on f p pos'), Afs t (k' + k))
    ∧ found_end i' off size n.
Proof.
  intros Ht Hz Hsum Hbig Ho0 Hs0 Hn0 Hv. set (e := eocd_of off size n) in *. set (e64 := eocd64_of v off size n) in *.
  set (l := locator_of (off + size)) in *. pose proof (zlen_nonneg z).
  assert (zlen (pack e) = 22) as He by apply zlen_eocd.
  assert (zlen (pack e64) = 56) as He64 by by rewrite zlen_pack.
  assert (zlen (pack l) = 20) as Hl20 by by rewrite zlen_pack.
  set (data := z ++ pack e64 ++ pack l ++ pack e) in *.
  assert (Hdata : zlen data = off + size + 98) by (unfold data; rewrite !zlen_app; lia).
  destruct (tail_length_range (zlen data)) as ([H1 H2] & H3 & _); [lia|].
  destruct (split_tail (z ++ pack e64) (pack l ++ pack e) (tail_length (zlen data))) as (x & y & Hxy & Hl).
  { rewrite !zlen_app in *. lia. }
  assert (data = x ++ y ++ pack l ++ pack e) as Hdx by (unfold data; rewrite app_assoc, Hxy; by rewrite <- app_assoc).
  rewrite Hdx in Hl.
  assert (Ht' : t !! p = Some (AFile (x ++ y ++ pack l ++ pack e))) by by rewrite Ht, Hdx.
  destruct (search_reads_tail f p pos t k x _ i Ht' Hl) as [k' Hk]. rewrite Hk. clear Hk. rewrite <- Hdx.
  unfold ZipSearchEOCDFromback, ZIP_SIZE_EOCD_FIXED. rewrite (app_assoc y).
  replace (zlen ((y ++ pack l) ++ pack e) - 22) with (zlen (y ++ pack l)) by (rewrite (zlen_app (y ++ _)); lia).
  rewrite search_at_end by done. cbv iota. 
  pose proof (read_eocd (y ++ pack l) off size n ltac:(lia) ltac:(lia) ltac:(lia)) as Hr. fold e in Hr.
  rewrite Hr. cbv iota zeta.
  change (negb (ARCHIVE_OK =? 0)) with false. cbv iota.
  change (eocd_totalNumberOfEntries e) with (cap16 n).
  change (eocd_offsetOfCentralDir e) with (cap32 off).
  replace (negb (cap16 n =? UINT16_MAX) && negb (cap32 off =? UINT32_MAX)) with false.
  2: { unfold cap16, cap32. destruct Hbig as [Hb|Hb]; rewrite (proj2 (Z.gtb_lt _ _) Hb), Z.eqb_refl; [done|by rewrite andb_false_r]. }
  set (i1 := set_isZip64 1 _). unfold ZipSearchEOCD64, ZIP_SIZE_CD_LOCATOR64. pose proof (zlen_nonneg y).
  rewrite (zlen_app y), Hl20, (proj2 (Z.ltb_ge _ _)) by lia.
  replace (zlen y + 20 - 20) with (zlen y) by lia. rewrite <- app_assoc, at_app.
  rewrite GetLittleEndianValue_eq; [|by rewrite Forall_app; split; apply pack_is_byte|lia|].
  2: { rewrite length_app. unfold zlen in Hl20. lia. }
  change (le_value (take 4 (pack l ++ pack e))) with ZIP_MAGIC_ENDLOCHEADER64. rewrite Z.eqb_refl.
  unfold ZipReadEOCD64. rewrite at_app, unpack_pack by (apply fits_locator; unfold u_range; lia).
  change (loc64_offsetOfEOCD64 l) with (off + size). rewrite i64_id by lia.
  stepping seek_on ltac:(lia). change (0 =? 0) with true. cbn [negb].
  replace (sizeof EndOfCentralDir64) with (zlen (pack e64)) by apply zlen_pack.
  rewrite <- Hz. stepping read_part ltac:(exact Ht || done). rewrite Z.eqb_refl. cbn [negb].
  rewrite unpack_pack_nil by (apply fits_eocd64; unfold u_range in *; lia).
  change (eocd64_signature e64) with ZIP_MAGIC_ENDHEADER64.
  change (eocd64_totalNumberOfEntriesOnThisDisk e64) with (eocd64_totalNumberOfEntries e64).
  rewrite !Z.eqb_refl. cbn [negb]. unfold sret. eexists (S (S k')), _, _. split; [reflexivity|].
  unfold found_end. cbn. split; [done|]. split; [lia|]. by exists v.
Qed.

(** The directory is where the records say. *)
Lemma check_place f p pos t k body dir m rest isZip64 :
  t !! p = Some (AFile (body ++ dir ++ le 4 m ++ rest)) → zlen body + zlen dir < 2 ^ 63 →
  (dir = [] ∨ ∃ d, dir = le 4 ZIP_MAGIC_CENTRALHEADER ++ d) → 0 <= m < 2 ^ 32 → m ≠ ZIP_MAGIC_CENTRALHEADER →
  (isZip64 = 0 → zlen body <= UINT32_MAX) →
  ∃ k' pos', ZipCheckAndCorrectCentralDirOffset (on f p pos) (zlen body + zlen dir) isZip64 (zlen body) (zlen dir) (Afs t k)
    = Some ((ARCHIVE_OK, mkCDPlace (zlen body) (zlen dir) 0, on f p pos'), Afs t (k' + k)).
Proof.
  intros Ht Hl Hd Hm Hne Hz. pose proof (zlen_nonneg body). pose proof (zlen_nonneg dir).
  assert (Hc : ∀ s, CheckPlace (zlen body + zlen dir) (mkCDPlace (zlen body) (zlen dir) 0) s
                    = (ARCHIVE_OK, mkCDPlace (zlen body) (zlen dir) 0, s)).
  { intros s0. unfold CheckPlace. cbn. by rewrite (proj2 (Z.ltb_ge _ _)) by lia. }
  unfold ZipCheckAndCorrectCentralDirOffset. rewrite i64_id by lia.
  stepping seek_on ltac:(lia). change (0 =? 0) with true. cbn [negb].
  destruct Hd as [->|[d Hd]].
  - change (zlen []) with 0 in *. rewrite Z.add_0_r in *. cbn [app] in Ht.
    stepping check_signature ltac:(done). rewrite (proj2 (Z.eqb_neq _ _) Hne).
    change (ARCHIVE_FORMAT_ERROR =? ARCHIVE_OK) with false. cbv iota.
    replace ((zlen body >? UINT32_MAX) && (isZip64 =? 0)) with false.
    2: { destruct (isZip64 =? 0) eqn:E; zbool; [|by rewrite andb_false_r]. apply Hz in E.
         destruct (_ >? _) eqn:E2; zbool; [lia|done]. }
    rewrite Z.sub_0_r, u64_id, i64_id by lia. stepping seek_on ltac:(lia). change (0 =? 0) with true. cbn [negb].
    stepping check_signature ltac:(done). rewrite (proj2 (Z.eqb_neq _ _) Hne).
    change (ARCHIVE_FORMAT_ERROR =? ARCHIVE_OK) with false. cbv iota. unfold sret.
    rewrite Hc. by eexists 4%nat, _.
  - rewrite Hd, <- app_assoc in Ht. stepping check_signature ltac:(done). rewrite Z.eqb_refl.
    change (ARCHIVE_OK =? ARCHIVE_OK) with true. cbv iota. unfold sret.
    rewrite u64_id, Z.ltb_irrefl, Hc by lia. by eexists 2%nat, _.
Qed.
(** The records start with a signature that is not that of an entry. *)
Lemma end_records_start v off size n :
  ∃ m rest, end_records v off size n = le 4 m ++ rest ∧ 0 <= m < 2 ^ 32 ∧ m ≠ ZIP_MAGIC_CENTRALHEADER.
Proof.
  unfold end_records. destruct (needs_zip64 off size n).
  - exists ZIP_MAGIC_ENDHEADER64. eexists. split; [by rewrite <- !app_assoc|by split].
  - exists ZIP_MAGIC_ENDHEADER. eexists. split; [done|by split].
Qed.

Lemma search_end f p pos t k z v off size n (i : EOCDInfo) :
  t !! p = Some (AFile (z ++ end_records v off size n)) → zlen z = off + size → off + size < 2 ^ 63 →
  reads_back off size n → 0 <= off → 0 <= size → 0 <= n < 2 ^ 64 → u_range 16 v → isZip64 i = 0 →
  ∃ k' pos' i', ZipSearchEOCD (on f p pos) i (Afs t k) = Some ((ARCHIVE_OK, i', on f p pos'), Afs t (k' + k))
    ∧ found_end i' off size n.
Proof.
  unfold end_records, needs_zip64. intros Ht Hz Hl Hr Ho Hs Hn Hv Hi.
  destruct (size >? UINT32_MAX) eqn:E1, (off >? UINT32_MAX) eqn:E2, (n >? UINT16_MAX) eqn:E3; zbool;
    cbn [orb] in Ht; try (rewrite <- app_assoc in Ht; eapply search_zip64; try done; destruct Hr; lia).
  eapply search_plain; try done; destruct Hr; lia.
Qed.

Lemma found_values (i : EOCDInfo) off size n :
  found_end i off size n →
  (if negb (isZip64 i =? 0) then offsetOfEOCD64 i else offsetOfEOCD i) = off + size ∧
  (if negb (negb (isZip64 i =? 0))
   then (eocd_offsetOfCentralDir (endOfCentralDir i), eocd_sizeOfCentralDir (endOfCentralDir i))
   else (eocd64_offsetOfCentralDir (endOfCentralDir64 i), eocd64_sizeOfCentralDir (endOfCentralDir64 i)))
  = (off, size) ∧
  (if negb (isZip64 i =? 0) then eocd64_totalNumberOfEntries (endOfCentralDir64 i)
   else eocd_totalNumberOfEntries (endOfCentralDir i)) = n.
Proof.
  unfold found_end. destruct (isZip64 i =? 0); cbn [negb].
  - intros (-> & -> & Ho & Hn & Hs). cbn. unfold cap32, cap16.
    destruct (off >? _) eqn:?, (size >? _) eqn:?, (n >? _) eqn:?; zbool; (done || lia).
  - intros (_ & -> & v & ->). done.
Qed.

(** Opening, from what is found of the end and the place that is checked. *)
Lemma start_with f p pos t k k1 pos1 rep (i : EOCDInfo) eocd off size n pl (r : ZipReader) :
  baseStream r = on f p pos →
  ZipSearchEOCD (on f p pos) (info r) (Afs t k) = Some ((ARCHIVE_OK, i, on f p pos1), Afs t (k1 + k)) →
  (if negb (isZip64 i =? 0) then offsetOfEOCD64 i else offsetOfEOCD i) = eocd →
  (if negb (negb (isZip64 i =? 0))
   then (eocd_offsetOfCentralDir (endOfCentralDir i), eocd_sizeOfCentralDir (endOfCentralDir i))
   else (eocd64_offsetOfCentralDir (endOfCentralDir64 i), eocd64_sizeOfCentralDir (endOfCentralDir64 i)))
  = (off, size) →
  (if negb (isZip64 i =? 0) then eocd64_totalNumberOfEntries (endOfCentralDir64 i)
   else eocd_totalNumberOfEntries (endOfCentralDir i)) = n →
  (∃ k' pos', ZipCheckAndCorrectCentralDirOffset (on f p pos1) eocd (u8 (isZip64 i)) off size (Afs t (k1 + k))
    = Some ((ARCHIVE_OK, pl, on f p pos'), Afs t (k' + (k1 + k)))) →
  ∃ k' r', ZipReaderStart (App r (Afs t k) rep) = Some (ARCHIVE_OK, App r' (Afs t (k' + k)) rep)
    ∧ (∃ pos', baseStream r' = on f p pos') ∧ place r' = pl
    ∧ totalNumberOfEntries r' = n ∧ entryInfo r' = entryInfo r.
Proof.
  intros Hb Hs He1 Hp1 Hn1 (k2 & pos2 & Hc).
  assert (He : ∃ k' r', ZipReaderProcessEOCD (App r (Afs t k) rep) = Some (ARCHIVE_OK, App r' (Afs t (k' + k)) rep)
    ∧ info r' = i ∧ (∃ pos', baseStream r' = on f p pos') ∧ place r' = pl ∧ entryInfo r' = entryInfo r).
  { exists (k2 + k1)%nat. eexists. split.
    - unfold ZipReaderProcessEOCD. unfold asks at 1. erewrite bind_eq by done.
      stepping @base_eq ltac:(rewrite Hb; exact Hs). unfold modify at 1. erewrite bind_eq by done.
      change (if_ok ARCHIVE_OK ?k) with k. cbv zeta. rewrite Hp1, He1.
      stepping @base_eq ltac:(cbn; exact Hc). unfold modify. erewrite bind_eq by done. unfold sret.
      by rewrite Nat.add_assoc.
    - cbn. eauto. }
  destruct He as (k' & r' & Hp & Hi' & Hb' & Hpl & Hen). exists k'. eexists. split.
  - unfold ZipReaderStart. erewrite if_ok_bind_eq by exact Hp. unfold asks. erewrite bind_eq by done.
    unfold modify. erewrite bind_eq by done. reflexivity.
  - cbn. rewrite Hi', Hn1. auto.
Qed.

Lemma start_reads f p pos t k rep body dir v n (r : ZipReader) :
  t !! p = Some (AFile (body ++ dir ++ end_records v (zlen body) (zlen dir) n)) →
  zlen body + zlen dir < 2 ^ 63 → 0 <= n < 2 ^ 63 → u_range 16 v → reads_back (zlen body) (zlen dir) n →
  (dir = [] ∨ ∃ d, dir = le 4 ZIP_MAGIC_CENTRALHEADER ++ d) →
  baseStream r = on f p pos → isZip64 (info r) = 0 →
  ∃ k' r', ZipReaderStart (App r (Afs t k) rep) = Some (ARCHIVE_OK, App r' (Afs t (k' + k)) rep)
    ∧ (∃ pos', baseStream r' = on f p pos') ∧ place r' = mkCDPlace (zlen body) (zlen dir) 0
    ∧ totalNumberOfEntries r' = n ∧ entryInfo r' = entryInfo r.
Proof.
  intros Ht Hl Hn Hv Hr Hd Hb Hi. pose proof (zlen_nonneg body). pose proof (zlen_nonneg dir).
  destruct (end_records_start v (zlen body) (zlen dir) n) as (m & rest & Hrest & Hm & Hmne).
  destruct (search_end f p pos t k (body ++ dir) v (zlen body) (zlen dir) n (info r)) as (k1 & pos1 & i & Hs & Hf);
    try done; [by rewrite <- app_assoc|by rewrite zlen_app|lia|].
  destruct (found_values i _ _ _ Hf) as (He1 & Hp1 & Hn1).
  eapply start_with; try done. rewrite Hrest in Ht. eapply check_place; try done.
  intros Hz. unfold found_end in Hf.
  destruct (isZip64 i =? 0) eqn:E; zbool; [lia|]. destruct Hf as (Hi1 & _). by rewrite Hi1 in Hz.
Qed.

(** A record that asks for Zip64 without a locator before it. *)
Lemma search_misled f p pos t k z off size n (i : EOCDInfo) :
  t !! p = Some (AFile (z ++ pack (eocd_of off size n))) → n = UINT16_MAX ∨ off = UINT32_MAX →
  0 <= off → 0 <= size → 0 <= n → 20 <= zlen z →
  GetLittleEndianValue (at_ (zlen z - 20) (z ++ pack (eocd_of off size n))) 4 ≠ ZIP_MAGIC_ENDLOCHEADER64 →
  endOfCentralDir64 i = zeroed → offsetOfEOCD64 i = 0 →
  ∃ k' pos' i', ZipSearchEOCD (on f p pos) i (Afs t k) = Some ((ARCHIVE_OK, i', on f p pos'), Afs t (k' + k))
    ∧ isZip64 i' = 1 ∧ endOfCentralDir64 i' = zeroed ∧ offsetOfEOCD64 i' = 0.
Proof.
  intros Ht Hbad Ho Hs Hn Hz Hsig Hi64 Hi. set (e := eocd_of off size n) in *.
  assert (zlen (pack e) = 22) as He by apply zlen_eocd.
  destruct (tail_length_range (zlen (z ++ pack e))) as ([H1 H2] & _ & _); [rewrite zlen_app; lia|].
  assert (42 <= tail_length (zlen (z ++ pack e))) as Htl.
  { rewrite zlen_app, He. unfold tail_length, ZIP_SIZE_MAX_GLOBAL_COMMENT, ZIP_SIZE_EOCD_FIXED, ZIP_SIZE_CD_LOCATOR64.
    destruct (_ <? _) eqn:E; zbool; lia. }
  destruct (split_tail z (pack e) (tail_length (zlen (z ++ pack e)))) as (x & y & Hxy & Hl).
  { rewrite zlen_app in *. lia. }
  rewrite Hxy, <- app_assoc in Ht, Hl.
  destruct (search_reads_tail f p pos t k x (y ++ pack e) i Ht Hl) as [k' Hk]. rewrite Hk. clear Hk.
  unfold ZipSearchEOCDFromback, ZIP_SIZE_EOCD_FIXED.
  replace (zlen (y ++ pack e) - 22) with (zlen y) by (rewrite zlen_app; lia).
  assert (20 <= zlen y) as Hy by (rewrite !zlen_app in Hl; rewrite Hxy in Htl; rewrite <- app_assoc in Htl; rewrite !zlen_app in Htl; lia).
  rewrite search_at_end by done. cbv iota.
  pose proof (read_eocd y off size n Ho Hs Hn) as Hr. fold e in Hr. rewrite Hr. cbv iota zeta.
  change (negb (ARCHIVE_OK =? 0)) with false. cbv iota.
  change (eocd_totalNumberOfEntries e) with (cap16 n). change (eocd_offsetOfCentralDir e) with (cap32 off).
  replace (negb (cap16 n =? UINT16_MAX) && negb (cap32 off =? UINT32_MAX)) with false
    by (destruct Hbad as [-> | ->]; [done|by rewrite andb_false_r]).
  unfold ZipSearchEOCD64, ZIP_SIZE_CD_LOCATOR64. rewrite (proj2 (Z.ltb_ge _ _)) by lia.
  assert (at_ (zlen z - 20) (z ++ pack e) = at_ (zlen y - 20) (y ++ pack e)) as Hat.
  { rewrite Hxy, <- app_assoc. unfold at_. rewrite zlen_app. pose proof (zlen_nonneg x).
    replace (Z.to_nat (zlen x + zlen y - 20)) with (length x + Z.to_nat (zlen y - 20))%nat by (unfold zlen in *; lia).
    by rewrite <- drop_drop, drop_app_length. }
  rewrite <- Hat, (proj2 (Z.eqb_neq _ _) Hsig). unfold sret. eexists k', _, _. split; [reflexivity|]. by cbn.
Qed.

Lemma misled_place f p pos t k m rest :
  t !! p = Some (AFile (le 4 m ++ rest)) → 0 <= m < 2 ^ 32 → m ≠ ZIP_MAGIC_CENTRALHEADER →
  ∃ k' pos', ZipCheckAndCorrectCentralDirOffset (on f p pos) 0 1 0 0 (Afs t k)
    = Some ((ARCHIVE_OK, mkCDPlace 0 0 0, on f p pos'), Afs t (k' + k)).
Proof. intros Ht Hm Hne. by apply (check_place f p pos t k [] [] m rest 1); try done; left. Qed.
Lemma start_misled f p pos t k rep z m rest off size n (r : ZipReader) :
  t !! p = Some (AFile (z ++ pack (eocd_of off size n))) → n = UINT16_MAX ∨ off = UINT32_MAX →
  0 <= off → 0 <= size → 0 <= n → 20 <= zlen z →
  GetLittleEndianValue (at_ (zlen z - 20) (z ++ pack (eocd_of off size n))) 4 ≠ ZIP_MAGIC_ENDLOCHEADER64 →
  z = le 4 m ++ rest → 0 <= m < 2 ^ 32 → m ≠ ZIP_MAGIC_CENTRALHEADER →
  baseStream r = on f p pos → info r = no_info →
  ∃ k' r', ZipReaderStart (App r (Afs t k) rep) = Some (ARCHIVE_OK, App r' (Afs t (k' + k)) rep)
    ∧ totalNumberOfEntries r' = 0.
Proof.
  intros Ht Hbad Ho Hs Hn Hz Hsig Hstart Hm Hmne Hb Hi.
  destruct (search_misled f p pos t k z off size n (info r)) as (k1 & pos1 & i & Hsr & Hi1 & Hi2 & Hi3);
    try done; [by rewrite Hi|by rewrite Hi|].
  edestruct (start_with f p pos t k k1 pos1 rep i 0 0 0 0) as (k' & r' & Hr & _ & _ & Hn' & _); try done.
  - by rewrite Hi1.
  - by rewrite Hi1, Hi2.
  - by rewrite Hi1, Hi2.
  - rewrite Hi1. eapply misled_place; [|done..]. by rewrite Ht, Hstart, <- app_assoc.
  - eauto.
Qed.
End read_end.
