(* ===== verification/ArchiveRoundtrip.v ===== *)
(** * A written directory is read back

    The end of writing an archive ([ZipWriterSaveCD] of zip_writer.c) followed by
    the opening of the archive and the walk through its directory
    (zip_reader.c). *)

From coqutil Require Import Datatypes.RecordSetters.
From S2P Require Import Prelude Bytes ZipFormat ZipTime ArchiveErr ArchivePath ArchiveFs ArchiveText ArchiveStream ArchiveMonad ArchiveCalm ArchiveMem ZipReaderImpl ZipHeaders ZipReader ArchiveDirectory ArchiveEnd ZipWriter.
Import TriangleBracketNotations.
#[local] Open Scope record_set.

Section save.
Context {AE : AEnv} {ZL : Zlib}.
Context {CA : Calm AE}.
Implicit Types (t : atree) (k : nat) (f : FileStream) (p : apath) (body dir data buf : bytes).

Lemma write_exact_on f p t k data buf :
  t !! p = Some (AFile data) →
  write_exact (on f p (zlen data)) buf (Afs t k)
  = Some ((ARCHIVE_OK, on f p (zlen (data ++ buf))), Afs (<[p := AFile (data ++ buf)]> t) (S k)).
Proof.
  intros Ht. unfold write_exact, sink_write, file_sink. stepping write_on ltac:(done).
  rewrite Z.eqb_refl. cbn [negb]. by rewrite overwrite_end, zlen_app.
Qed.

Lemma write_mem_on f p t k data dir mem pos :
  t !! p = Some (AFile data) → mem_rep mem dir pos → zlen dir < 2 ^ 62 →
  ∃ mem', ZipWriteMemStream (on f p (zlen data)) mem (Afs t k)
  = Some ((ARCHIVE_OK, on f p (zlen (data ++ dir)), mem'), Afs (<[p := AFile (data ++ dir)]> t) (S k)).
Proof.
  intros Ht [(rest & Hb & Hc) Hs Hp Hpos Hcap] Hl. pose proof (zlen_nonneg rest). pose proof (zlen_nonneg dir).
  unfold ZipWriteMemStream, MemStreamSeek. change ((SEEK_END <? SEEK_SET) || (SEEK_END >? SEEK_END)) with false.
  change (SEEK_END =? SEEK_SET) with false. change (SEEK_END =? SEEK_CUR) with false. cbv iota zeta.
  rewrite Hs, Z.add_0_r, i64_id by lia.
  replace ((zlen dir <? 0) || (zlen dir >? capacity mem)) with false.
  2: { destruct (_ <? _) eqn:E1, (_ >? _) eqn:E2; zbool; (done || lia). }
  change (ARCHIVE_OK =? ARCHIVE_OK) with true. cbn [negb]. unfold MemStreamTell. cbn [position].
  rewrite i64_id by lia. rewrite (proj2 (Z.ltb_ge _ _)) by lia.
  unfold MemStreamGetBufferAt. cbn [buffer size]. rewrite Hb, (proj2 (Z.ltb_ge _ 0)) by lia.
  change (drop (Z.to_nat 0) (dir ++ rest)) with (dir ++ rest).
  assert (take (Z.to_nat (zlen dir)) (dir ++ rest) = dir) as -> by (unfold zlen; by rewrite Nat2Z.id, take_app_length).
  stepping write_exact_on ltac:(done). by eexists.
Qed.

Lemma wbase_eq {A} (m : FileStream → st afs (A * FileStream)) (w : ZipWriter) fs rep b0 a b fs' :
  baseStream w = Some b0 → m b0 fs = Some ((a, b), fs') →
  base m (App w fs rep) = Some (a, App (w <| baseStream := Some b |>) fs' rep).
Proof. intros Hw H. unfold base, asks, io, bind, modify, sret. cbn. rewrite Hw. cbn. by rewrite H. Qed.

Lemma tell_eq (w : ZipWriter) f p t k rep pos :
  baseStream w = Some (on f p pos) → 0 <= pos < 2 ^ 64 →
  tell (App w (Afs t k) rep) = Some (pos, App w (Afs t (S k)) rep).
Proof.
  intros Hw Hp. unfold tell. erewrite wbase_eq; [|done|].
  2: { stepping tell_on ltac:(lia). done. }
  rewrite u64_id by lia. do 3 f_equal. destruct w. cbn in *. by subst.
Qed.
(** A record written at the end of the file. *)
Lemma wbase_write (w : ZipWriter) f p t k rep data buf :
  baseStream w = Some (on f p (zlen data)) → t !! p = Some (AFile data) →
  base (λ b, write_exact b buf) (App w (Afs t k) rep)
  = Some (ARCHIVE_OK, App (w <| baseStream := Some (on f p (zlen (data ++ buf))) |>)
                          (Afs (<[p := AFile (data ++ buf)]> t) (S k)) rep).
Proof. intros Hw Ht. erewrite wbase_eq; [done|done|]. by apply write_exact_on. Qed.

Lemma wrecord (g : ZipWriter → bytes) (w : ZipWriter) f p t k rep data :
  baseStream w = Some (on f p (zlen data)) → t !! p = Some (AFile data) →
  (w ← asks id; base (λ b, write_exact b (g w))) (App w (Afs t k) rep)
  = Some (ARCHIVE_OK, App (w <| baseStream := Some (on f p (zlen (data ++ g w))) |>)
                          (Afs (<[p := AFile (data ++ g w)]> t) (S k)) rep).
Proof. intros Hw Ht. unfold asks. erewrite bind_eq by done. by apply wbase_write. Qed.

(** The writer has the file open at the end of [body] and [dir] in memory. *)
Record closing (w : ZipWriter) (f : FileStream) (p : apath) (body dir : bytes) (n : Z) : Prop := {
  closing_stream : baseStream w = Some (on f p (zlen body));
  closing_dir : ∃ mem pos, cdMemStream w = Some mem ∧ mem_rep mem dir pos;
  closing_size : zlen body + zlen dir < 2 ^ 62;
  closing_count : writtenEntries w = n;
  closing_comment : globalCommentLength w = 0
}.

Lemma end_of_cd_eq (w : ZipWriter) off size n :
  offsetOfCentralDir w = off → sizeOfCentralDir w = size → writtenEntries w = n →
  numberOfDiskWithCD w = 0 → globalCommentLength w = 0 →
  end_of_cd w = eocd_of off size n ∧ end_of_cd64 w = eocd64_of (versionMadeBy w) off size n.
Proof. unfold end_of_cd, end_of_cd64, eocd_of, cap16. by intros -> -> -> -> ->. Qed.

(** The records behind the directory. *)
Lemma save_end (w : ZipWriter) f p data off size n t k rep :
  baseStream w = Some (on f p (zlen data)) → t !! p = Some (AFile data) → zlen data = off + size →
  0 <= off + size < 2 ^ 62 →
  offsetOfCentralDir w = off → sizeOfCentralDir w = size → writtenEntries w = n →
  numberOfDiskWithCD w = 0 → globalCommentLength w = 0 →
  ∃ k' w', (ret ← (if needs_zip64 off size n then
                     eocd ← tell;
                     modify (λ w, w <| offsetOfEOCD := eocd |>);;
                     ret ← ZipWriterZip64EndOfCD;
                     if_ok ret ZipWriterZip64EndOfCDLocator
                   else sret ARCHIVE_OK);
            if_ok ret ZipWriteEndOfCD) (App w (Afs t k) rep)
    = Some (ARCHIVE_OK, App w' (Afs (<[p := AFile (data ++ end_records (versionMadeBy w) off size n)]> t) (k' + k)) rep).
Proof.
  intros Hb Ht Hd Hl Ho Hs Hn Hk Hg. unfold end_records. destruct (needs_zip64 off size n).
  - set (w1 := w <| offsetOfEOCD := off + size |>). destruct (end_of_cd_eq w1 off size n) as [He He64]; try done.
    change (versionMadeBy w1) with (versionMadeBy w) in He64.
    assert (Hl64 : end_of_cd_locator64 w1 = locator_of (off + size)) 
      by (unfold end_of_cd_locator64; change (numberOfDiskWithCD w1) with (numberOfDiskWithCD w); by rewrite Hk).
    erewrite bind_eq.
    2: { erewrite bind_eq by (eapply tell_eq; [exact Hb|lia]). unfold modify at 1. erewrite bind_eq by done.
         cbn [own fs reported]. rewrite Hd. fold w1. erewrite if_ok_bind_eq by by apply wrecord.
         by apply wrecord; [|rewrite lookup_insert_eq]. }
    cbv beta. rewrite if_ok_ok. unfold ZipWriteEndOfCD. erewrite wrecord; [|reflexivity|by rewrite lookup_insert_eq].
    rewrite !insert_insert_eq. exists 4%nat. eexists. do 3 f_equal.
    change (end_of_cd_locator64 (w1 <| baseStream := _ |>)) with (end_of_cd_locator64 w1).
    rewrite He64, Hl64. match goal with |- context [end_of_cd ?x] => change (end_of_cd x) with (end_of_cd w1) end.
    by rewrite He, <- !app_assoc.
  - destruct (end_of_cd_eq w off size n) as [He _]; try done. erewrite if_ok_bind_eq by done.
    unfold ZipWriteEndOfCD, asks. erewrite bind_eq by done. cbn [own id]. rewrite He.
    erewrite wbase_write by done. by eexists 1%nat, _.
Qed.

Lemma save_cd w f p body dir n t k rep :
  closing w f p body dir n → t !! p = Some (AFile body) →
  ∃ k' w', ZipWriterSaveCD (App w (Afs t k) rep)
    = Some (ARCHIVE_OK, App w'
        (Afs (<[p := AFile (body ++ dir ++ end_records (versionMadeBy w) (zlen body) (zlen dir) n)]> t)
           (k' + k)) rep).
Proof.
  intros [Hb (mem & pos & Hm & Hrep) Hl Hn Hg] Ht. pose proof (zlen_nonneg body). pose proof (zlen_nonneg dir).
  unfold ZipWriterSaveCD. unfold asks at 1. erewrite bind_eq by done. cbn [own id]. rewrite Hb, Hm.
  erewrite bind_eq by (eapply tell_eq; [exact Hb|lia]). unfold modify at 1. erewrite bind_eq by done.
  destruct (write_mem_on f p t (S k) body dir mem pos Ht Hrep ltac:(lia)) as [mem' Hw].
  stepping @wbase_eq ltac:(cbn; (exact Hb || (stepping Hw idtac; reflexivity))).
  cbn [own reported]. unfold modify at 1. erewrite bind_eq by done. rewrite if_ok_ok.
  erewrite bind_eq by (eapply tell_eq; [reflexivity|rewrite zlen_app; lia]).
  unfold modify at 1. erewrite bind_eq by done. unfold asks at 1. erewrite bind_eq by done. cbn [own id fs reported].
  set (w3 := (_ : ZipWriter) <| numberOfDiskWithCD := 0 |> <| sizeOfCentralDir := _ |>).
  assert (Hsize : sizeOfCentralDir w3 = zlen dir) 
    by (change (sizeOfCentralDir w3) with (zlen (body ++ dir) -₆₄ zlen body); rewrite zlen_app, u64_id; lia).
  change (offsetOfCentralDir w3) with (zlen body). change (writtenEntries w3) with (writtenEntries w).
  rewrite Hsize, Hn. fold (needs_zip64 (zlen body) (zlen dir) n).
  destruct (save_end w3 f p (body ++ dir) (zlen body) (zlen dir) n (<[p := AFile (body ++ dir)]> t) (S (S (S k))) rep)
    as (k' & w' & He); try (done || lia); [by rewrite lookup_insert_eq|by rewrite zlen_app|].
  rewrite He, <- app_assoc, insert_insert_eq. exists (k' + 3)%nat, w'. do 3 f_equal. by f_equal; lia.
Qed.
End save.

(** ** The headers of the entries, one after the other *)
Section headers.
Context {AE : AEnv}.

Fixpoint write_headers (mem : MemStream) (es : list ZipWriterEntryInfo) : st afs (Z * MemStream) :=
  match es with
  | [] => sret (ARCHIVE_OK, mem)
  | e :: es => r ← ZipEntryWriteCdHeader mem e; then_write r (λ mem, write_headers mem es)
  end.

Lemma appends_headers mem content es s :
  mem_rep mem content (zlen content) → zlen content + zlen (dir_bytes es) <= 2 ^ 62 → Forall entry_ok es →
  twp (write_headers mem es) (λ r s', appended content (dir_bytes es) r s s') s.
Proof.
  intros Hm Hl Hes. revert mem content s Hm Hl. induction Hes as [|e es He _ IH]; intros mem content s Hm Hl.
  - by apply appends_nothing.
  - rewrite dir_bytes_cons, zlen_app in Hl. pose proof (zlen_nonneg (dir_bytes es)).
    cbn [write_headers]. eapply appends_then; [apply dir_bytes_cons|apply appends_cd_header; (done || lia)|].
    intros m' s1 Hm'. apply IH; [done|]. rewrite zlen_app. lia.
Qed.

Lemma headers_calm {CA : Calm AE} mem es t k :
  mem_rep mem [] 0 → zlen (dir_bytes es) < 2 ^ 62 → Forall entry_ok es →
  ∃ mem' k', write_headers mem es (Afs t k) = Some ((ARCHIVE_OK, mem'), Afs t k')
    ∧ mem_rep mem' (dir_bytes es) (zlen (dir_bytes es)).
Proof.
  intros Hm Hl Hes.
  pose proof (appends_headers mem [] es (Afs t k) Hm) as H. cbn [app] in H.
  apply twp_elim in H as ([ret mem'] & [t' k'] & Hw & Ht & Hr); [|change (zlen []) with 0; lia|done].
  cbn in Ht. subst t'. destruct Hr as [[_ [n [x Hn]]]|[Hr Hm']]; [by rewrite calm in Hn|].
  cbn in *. subst ret. eauto.
Qed.
End headers.

Lemma dir_bytes_start es : dir_bytes es = [] ∨ ∃ d, dir_bytes es = le 4 ZIP_MAGIC_CENTRALHEADER ++ d.
Proof.
  destruct es as [|e es]; [by left|right]. rewrite dir_bytes_cons. unfold cd_bytes.
  rewrite pack_central, <- !app_assoc. by eexists.
Qed.

(** C2: what is written of the entries comes back. When the calls of the system succeed, the headers of
    entries with UTF-8 names that [ZipEntryWriteCdHeader] collects in memory and [ZipWriterSaveCD] puts
    behind the data of the archive, with records of Zip64 where they are needed, are found by a reader
    that opens this file: it lists these entries in their order, each with its name, method, checksum,
    time, attributes and 64-bit sizes and offset, and then reports the end of the list. The number of
    entries and the place of the directory must be such that the reader looks for the records the
    writer made. *)
Theorem directory_roundtrip {AE : AEnv} {ZL : Zlib} {IC : Iconv} {CA : Calm AE} (mktime : tm → Z)
    (w : ZipWriter) (f f' : FileStream) (p : apath) (body : bytes) (es : list ZipWriterEntryInfo) (mem : MemStream) (t : atree)
    (k : nat) (rep : list Z) :
  mem_rep mem [] 0 → Forall entry_ok es → t !! p = Some (AFile body) →
  baseStream w = Some (on f p (zlen body)) → writtenEntries w = zlen es →
  globalCommentLength w = 0 → u_range 16 (versionMadeBy w) →
  zlen body + zlen (dir_bytes es) < 2 ^ 62 → reads_back (zlen body) (zlen (dir_bytes es)) (zlen es) →
  ∃ mem' k', write_headers mem es (Afs t k) = Some ((ARCHIVE_OK, mem'), Afs t k') ∧
  ∃ s1, ZipWriterSaveCD (App (w <| cdMemStream := Some mem' |>) (Afs t k') rep) = Some (ARCHIVE_OK, s1) ∧
  ∃ s2, ZipReaderStart (App (ZipReaderCreate (on f' p 0)) (fs s1) []) = Some (ARCHIVE_OK, s2) ∧
  ∃ s3, directory mktime (length es + 2) s2 = Some ((listed mktime 0 es, ARCHIVE_END_OF_LIST), s3).
Proof.
  intros Hm Hes Ht Hb Hn Hg Hv Hl Hr. pose proof (zlen_nonneg body). pose proof (zlen_nonneg es).
  pose proof (dir_bytes_long es).
  destruct (headers_calm mem es t k Hm ltac:(lia) Hes) as (mem' & k' & Hw & Hm'). exists mem', k'. split; [done|].
  set (w' := w <| cdMemStream := Some mem' |>).
  assert (closing w' f p body (dir_bytes es) (zlen es)) as Hcl.
  { split; cbn; try done. exists mem', (zlen (dir_bytes es)). done. }
  destruct (save_cd w' f p body (dir_bytes es) (zlen es) t k' rep Hcl Ht) as (k1 & w1 & Hs). eexists. split; [exact Hs|].
  cbn [fs]. set (t1 := <[p := _]> t).
  assert (Ht1 : t1 !! p = Some (AFile (body ++ dir_bytes es ++ end_records (versionMadeBy w') (zlen body) (zlen (dir_bytes es)) (zlen es))))
    by apply lookup_insert_eq.
  destruct (start_reads f' p 0 t1 (k1 + k')%nat [] body (dir_bytes es) (versionMadeBy w') (zlen es) (ZipReaderCreate (on f' p 0)))
    as (k2 & r & Hst & Hbr & Hpl & Hc & He); try (done || lia); [apply dir_bytes_start|].
  eexists. split; [exact Hst|].
  eapply (directory_listed mktime f' p body (end_records (versionMadeBy w') _ _ _) es 0 Hes); [lia| |lia].
  split; [done|by rewrite Hpl|done|done|by rewrite He].
Qed.

#[local] Instance sound_env : AEnv := {| a_fault := λ _ _, None; a_cwd := []; a_junk := λ _ _, 7;
  a_perm := λ _, 0; a_mtime := λ _, 0; a_progress := λ _, 0 |}.
#[local] Instance plain_zlib : Zlib := {| zstate := unit; z_crc32 := λ c _, c; z_deflateInit2 := λ _, inl tt;
  z_deflate := λ s _ _ _, (Z_STREAM_END, O, [], s); z_deflateReset := λ s, Some s;
  z_deflateParams := λ s _, Some s; z_compressBound := λ n, n; z_inflateInit2 := Some tt;
  z_inflate := λ s _ _, (Z_STREAM_END, O, [], s); z_inflateReset2 := λ s, Some s;
  z_inflateEnd := λ _, true; z_fuel := O |}.
#[local] Instance no_iconv : Iconv := {| iconv_GBK_UTF8 := λ _ _, None |}.
Lemma directory_roundtrip_witness :
  let e1 := mkZipWriterEntryInfo ZIP_VERSION_MADEBY ZIP_FLAG_UTF8 0 77 3 3 2 0 0 0 0 [97; 98] 33 false 0 in
  let e2 := mkZipWriterEntryInfo ZIP_VERSION_MADEBY ZIP_FLAG_UTF8 8 78 (2 ^ 33) (2 ^ 34) 1 0 4 0 0 [99] 33 true 0 in
  let f := mkFileStream [122] None no_stream in
  let w := ZipWriterCreate <| baseStream := Some (on f [[122]] 3) |> <| writtenEntries := 2 |> in
  let mem := mkMemStream (Some [7; 7]) 0 2 0 2 in
  Forall entry_ok [e1; e2] ∧
  ∃ mem' k', write_headers mem [e1; e2] (Afs {[ [[122]] := AFile [1; 2; 3] ]} 0) = Some ((ARCHIVE_OK, mem'), Afs {[ [[122]] := AFile [1; 2; 3] ]} k') ∧
  ∃ s1, ZipWriterSaveCD (App (w <| cdMemStream := Some mem' |>) (Afs {[ [[122]] := AFile [1; 2; 3] ]} k') []) = Some (ARCHIVE_OK, s1) ∧
  ∃ s2, ZipReaderStart (App (ZipReaderCreate (on f [[122]] 0)) (fs s1) []) = Some (ARCHIVE_OK, s2) ∧
  ∃ s3, directory (λ _, 0) 4 s2 = Some ((listed (λ _, 0) 0 [e1; e2], ARCHIVE_END_OF_LIST), s3).
Proof.
  intros e1 e2 f w mem.
  assert (Forall entry_ok [e1; e2]) as Hes.
  { repeat apply Forall_cons_2; [| |apply Forall_nil_2]; split; cbn; unfold size64_ok, u_range; try (repeat split; done);
      split; try done; repeat apply Forall_cons_2; try apply Forall_nil_2; by split. }
  split; [exact Hes|].
  assert (Calm sound_env) as HC by done.
  apply (directory_roundtrip (CA := HC) (λ _, 0) w f f [[122]] [1; 2; 3] [e1; e2] mem); try done.
  - split; cbn; try done. by exists [7; 7].
  - right. by split.
Defined.

(** An archive with exactly 65535 entries is extracted to nothing. The writer leaves out the
    records of Zip64 up to this number, but the reader takes the number for the mark that they are
    there; unless the bytes before the end record happen to look like a locator, it opens the archive
    without an error, finds no entries, and extraction changes nothing and is reported as a success. *)
Theorem full_directory_unread {AE : AEnv} {ZL : Zlib} {IC : Iconv} {CA : Calm AE} (mktime : tm → Z)
    (w : ZipWriter) (f f' : FileStream) (p : apath) (body rest dir : bytes) (t : atree)
    (k : nat) (rep : list Z) handler (out : bytes) :
  closing w f p body dir UINT16_MAX → t !! p = Some (AFile body) →
  body = le 4 ZIP_MAGIC_LOCALHEADER ++ rest →
  20 <= zlen body → zlen body <= UINT32_MAX → zlen dir <= UINT32_MAX →
  GetLittleEndianValue (at_ (zlen (body ++ dir) - 20)
    ((body ++ dir) ++ pack (eocd_of (zlen body) (zlen dir) UINT16_MAX))) 4 ≠ ZIP_MAGIC_ENDLOCHEADER64 →
  ∃ s1, ZipWriterSaveCD (App w (Afs t k) rep) = Some (ARCHIVE_OK, s1) ∧
  ∃ s2, ZipReaderStart (App (ZipReaderCreate (on f' p 0)) (fs s1) []) = Some (ARCHIVE_OK, s2) ∧
  ∃ s3, ZipReaderExtractAllFiles mktime handler out s2 = Some (ARCHIVE_END_OF_LIST, s3) ∧
    fs s3 = fs s2 ∧ ConvertErrCode ARCHIVE_END_OF_LIST = OH_ARCHIVE_OK.
Proof.
  intros Hcl Ht Hbody Hlong Hb Hd Hsig. pose proof (zlen_nonneg dir).
  destruct (save_cd w f p body dir UINT16_MAX t k rep Hcl Ht) as (k1 & w1 & Hs). eexists. split; [exact Hs|].
  assert (needs_zip64 (zlen body) (zlen dir) UINT16_MAX = false) as Hz.
  { unfold needs_zip64. destruct (_ >? _) eqn:E1, (zlen body >? _) eqn:E2; zbool; (done || lia). }
  unfold end_records in *. rewrite Hz in *. cbn [app fs] in *.
  destruct (start_misled f' p 0 (<[p := AFile (body ++ dir ++ pack (eocd_of (zlen body) (zlen dir) UINT16_MAX))]> t)
    (k1 + k)%nat [] (body ++ dir) ZIP_MAGIC_LOCALHEADER (rest ++ dir) (zlen body) (zlen dir) UINT16_MAX
    (ZipReaderCreate (on f' p 0))) as (k2 & r & Hst & Hn); try (done || lia); try (by left).
  - rewrite lookup_insert_eq. by rewrite <- app_assoc.
  - rewrite zlen_app. lia.
  - by rewrite Hbody, <- app_assoc.
  - eexists. split; [exact Hst|]. unfold ZipReaderExtractAllFiles, modify. erewrite bind_eq by done.
    erewrite bind_eq by by apply goto_first_none. by eexists.
Qed.
Lemma full_directory_unread_witness :
  let f := mkFileStream [122] None no_stream in
  let body := le 4 ZIP_MAGIC_LOCALHEADER ++ repeat 0 16 in
  let w := ZipWriterCreate <| baseStream := Some (on f [[122]] 20) |> <| writtenEntries := UINT16_MAX |>
             <| cdMemStream := Some (mkMemStream (Some [7; 7]) 0 2 0 2) |> in
  closing w f [[122]] body [] UINT16_MAX ∧
  ∃ s1, ZipWriterSaveCD (App w (Afs {[ [[122]] := AFile body ]} 0) []) = Some (ARCHIVE_OK, s1) ∧
  ∃ s2, ZipReaderStart (App (ZipReaderCreate (on f [[122]] 0)) (fs s1) []) = Some (ARCHIVE_OK, s2) ∧
  ∃ s3, ZipReaderExtractAllFiles (λ _, 0) false [] s2 = Some (ARCHIVE_END_OF_LIST, s3) ∧
    fs s3 = fs s2 ∧ ConvertErrCode ARCHIVE_END_OF_LIST = OH_ARCHIVE_OK.
Proof.
  intros f body w.
  assert (closing w f [[122]] body [] UINT16_MAX) as Hc.
  { split; try done. exists (mkMemStream (Some [7; 7]) 0 2 0 2), 0. split; [done|]. split; cbn; try done.
    by exists [7; 7]. }
  split; [exact Hc|]. assert (Calm sound_env) as HC by done.
  apply (full_directory_unread (CA := HC) (λ _, 0) w f f [[122]] body (repeat 0 16) []); done.
Defined.
