(* ===== verification/ArchiveStored.v ===== *)
(** * Stored data

    What the reader makes of an entry that is not compressed (zip_reader.c): the
    loop of [ZipReaderSaveFile] copies exactly its bytes and checks their sum. *)

From coqutil Require Import Datatypes.RecordSetters.
From S2P Require Import Prelude Bytes ZipFormat ZipTime ArchiveErr ArchivePath ArchiveFs ArchiveText ArchiveStream ArchiveUtils ArchiveMonad ArchiveCalm ZipReaderImpl ZipReader.
Import TriangleBracketNotations.
#[local] Open Scope record_set.

(** zlib's documentation: a running checksum, which starts from that of nothing. *)
Class CrcLaws (ZL : Zlib) : Prop := {
  crc_app c a b : z_crc32 (z_crc32 c a) b = z_crc32 c (a ++ b);
  crc_start : z_crc32 0 [] = 0
}.

Section stored.
Context {AE : AEnv} {ZL : Zlib} {IC : Iconv}.
Context {CA : Calm AE} {CL : CrcLaws ZL}.
Context (f x : FileStream) (p q : apath) (pre content post : bytes).
Hypothesis elsewhere : p ≠ q.
Hypothesis small : zlen content < 2 ^ 62.
Hypothesis some_data : content ≠ [].
Implicit Types (t : atree) (k : nat) (r : ZipReader) (d rest : bytes).

(** The bytes [d] of the content have been read and written. *)
Record copying (t : atree) (r : ZipReader) (d rest : bytes) : Prop := {
  c_content : content = d ++ rest;
  c_opened : entryOpened r = true;
  c_in : baseStream r = on f p (zlen pre + zlen d);
  c_source : t !! p = Some (AFile (pre ++ content ++ post));
  c_raw : ∃ s, compressStream r = Some (CRaw s) ∧ totalIn s = zlen d ∧ maxTotalIn s = zlen content;
  c_out : extractStream r = Some (on x q (zlen d));
  c_target : t !! q = Some (AFile d);
  c_sizes : ei_compressedSize (entryInfo r) = zlen content ∧ ei_uncompressedSize (entryInfo r) ≠ 0;
  c_crc : ei_entryCrc (entryInfo r) = z_crc32 0 d;
  c_quiet : hasHandler r = false;
  c_plain : ei_aesVersion (entryInfo r) = 0 ∧ ei_isEncrypted (entryInfo r) = false
}.

Lemma some_content : 0 < zlen content.
Proof. pose proof (zlen_nonneg content). destruct (Z.eq_dec (zlen content) 0) as [E|]; [by apply zlen_zero in E|lia]. Qed.

(** The next piece. *)
Definition piece (rest : bytes) : bytes := slice 0 ZIP_BUF_INTERNAL rest.

Lemma raw_read (s : Stream) d rest t k :
  content = d ++ rest → t !! p = Some (AFile (pre ++ content ++ post)) →
  totalIn s = zlen d → maxTotalIn s = zlen content →
  ∃ s', RawStreamRead s (on f p (zlen pre + zlen d)) ZIP_BUF_INTERNAL (Afs t k)
    = Some ((zlen (piece rest), piece rest, s', on f p (zlen pre + zlen (d ++ piece rest))), Afs t (S k))
    ∧ totalIn s' = zlen (d ++ piece rest) ∧ maxTotalIn s' = zlen content.
Proof.
  intros Hc Ht Hi Hm. pose proof some_content. pose proof (zlen_nonneg d). pose proof (zlen_nonneg rest).
  pose proof (zlen_nonneg pre).
  assert (zlen content = zlen d + zlen rest) as Hz by by rewrite Hc, zlen_app.
  unfold RawStreamRead. rewrite Hi, Hm, (proj2 (Z.gtb_lt (zlen content) 0)), (u64_id (zlen content - zlen d)) by lia. cbn [andb].
  change (u64 ZIP_BUF_INTERNAL) with ZIP_BUF_INTERNAL. unfold piece.
  set (len := if ZIP_BUF_INTERNAL >? zlen content - zlen d then _ else _).
  assert (len = Z.min ZIP_BUF_INTERNAL (zlen rest)) as Hlen.
  { subst len. rewrite i64_id by lia. unfold ZIP_BUF_INTERNAL. destruct (_ >? _) eqn:E; zbool; lia. }
  assert (0 <= len) by (unfold ZIP_BUF_INTERNAL in Hlen; lia).
  assert (slice (zlen pre + zlen d) len (pre ++ content ++ post) = slice 0 ZIP_BUF_INTERNAL rest) as Hs.
  { rewrite slice_app_r, Hc, <- app_assoc by lia. rewrite slice_app_r by lia.
    replace (zlen pre + zlen d - zlen pre - zlen d) with 0 by lia. rewrite slice_app_l by lia.
    rewrite Hlen. unfold ZIP_BUF_INTERNAL in *. destruct (Z_le_gt_dec 65536 (zlen rest)); [by rewrite Z.min_l by lia|].
    rewrite Z.min_r by lia. rewrite slice_all. unfold slice.
    change (drop (Z.to_nat 0) rest) with rest. rewrite take_ge; [done|]. unfold zlen in *. lia. }
  erewrite bind_eq by (apply read_on; done). cbv beta iota. rewrite Hs. set (w := slice 0 ZIP_BUF_INTERNAL rest).
  assert (zlen w <= zlen rest ∧ 0 <= zlen w) as [Hw1 Hw2].
  { unfold w. rewrite zlen_slice by (unfold ZIP_BUF_INTERNAL; lia). lia. }
  eexists. split; [unfold sret; rewrite zlen_app, Z.add_assoc; reflexivity|]. rewrite zlen_app.
  destruct (zlen w >? 0) eqn:E; zbool; cbn; rewrite ?Hi; [rewrite u64_id by lia; done|split; [lia|done]].
Qed.
(** Reading the next piece. *)
Lemma read_data t r d rest k rep :
  copying t r d rest →
  ∃ r', ZipReaderReadData ZIP_BUF_INTERNAL (App r (Afs t k) rep)
    = Some ((zlen (piece rest), piece rest), App r' (Afs t (S k)) rep)
  ∧ entryOpened r' = true ∧ baseStream r' = on f p (zlen pre + zlen (d ++ piece rest))
  ∧ (∃ s, compressStream r' = Some (CRaw s) ∧ totalIn s = zlen (d ++ piece rest) ∧ maxTotalIn s = zlen content)
  ∧ extractStream r' = extractStream r ∧ hasHandler r' = hasHandler r ∧ centralDirHeader r' = centralDirHeader r
  ∧ entryInfo r' = (entryInfo r) <| ei_entryCrc := z_crc32 0 (d ++ piece rest) |>.
Proof.
  intros [Hc Ho Hb Ht (s & Hcs & Hi & Hm) Hx Hq [Hz1 Hz2] Hcrc Hh Hpl]. pose proof some_content.
  destruct (raw_read s d rest t k Hc Ht Hi Hm) as (s' & Hs & Hi' & Hm').
  unfold ZipReaderReadData. unfold asks at 1. erewrite bind_eq by done. cbn [own id]. rewrite Ho, Hcs, Hz1. cbn [negb].
  rewrite (proj2 (Z.eqb_neq (zlen content) 0)), (proj2 (Z.eqb_neq _ _) Hz2) by lia. cbn [orb].
  change (ZIP_BUF_INTERNAL =? 0) with false. cbn iota. unfold StreamRead.
  erewrite bind_eq.
  2: { apply io_eq. rewrite Hb. stepping Hs idtac. reflexivity. }
  cbv beta iota. unfold modify at 1. erewrite bind_eq by done.
  assert (0 <= zlen (piece rest) <= ZIP_BUF_INTERNAL) as Hp.
  { unfold piece. rewrite zlen_slice by (unfold ZIP_BUF_INTERNAL; lia). unfold ZIP_BUF_INTERNAL. lia. }
  rewrite (proj2 (Z.ltb_ge _ 0)) by lia. unfold ZIP_BUF_INTERNAL, UINT32_MAX in *.
  destruct (zlen (piece rest) >? _) eqn:E; zbool; [lia|].
  unfold entry_, modify. erewrite bind_eq by done. unfold sret. eexists. split; [reflexivity|].
  rewrite <- crc_app, <- Hcrc. repeat split; try done. eauto.
Qed.
Lemma write_data t (r : ZipReader) d w k rep :
  extractStream r = Some (on x q (zlen d)) → t !! q = Some (AFile d) →
  ZipReaderWriteData w (App r (Afs t k) rep)
  = Some (ARCHIVE_OK, App (r <| extractStream := Some (on x q (zlen (d ++ w))) |>)
                          (Afs (<[q := AFile (d ++ w)]> t) (S k)) rep).
Proof.
  intros Hx Hq. unfold ZipReaderWriteData. unfold asks at 1. erewrite bind_eq by done. cbn [own]. rewrite Hx.
  erewrite bind_eq by by apply io_eq, write_on. cbv beta iota. unfold modify. erewrite bind_eq by done.
  rewrite Z.eqb_refl, overwrite_end, zlen_app. done.
Qed.

Lemma quiet_progress (r : ZipReader) fs rep force :
  hasHandler r = false → ZipReaderUpdateProgress force (App r fs rep) = Some (OH_ARCHIVE_PROGRESS_CONTINUE, App r fs rep).
Proof.
  intros Hh. unfold ZipReaderUpdateProgress. unfold asks. erewrite bind_eq by done. cbn [own id]. rewrite Hh.
  by destruct (_ =? 0).
Qed.

Definition verdict (r : ZipReader) : Z :=
  if z_crc32 0 content =? rcd_crc32 (centralDirHeader r) then ARCHIVE_OK else ARCHIVE_CRC_ERROR.

Lemma close_raw (r : ZipReader) fs rep s :
  compressStream r = Some (CRaw s) → ∃ r', ZipReaderCloseEntry (App r fs rep) = Some (tt, App r' fs rep).
Proof.
  intros Hs. unfold ZipReaderCloseEntry. unfold asks. erewrite bind_eq by done. cbn [own id]. rewrite Hs.
  erewrite bind_eq.
  2: { erewrite bind_eq by (apply io_eq; reflexivity). reflexivity. }
  by eexists.
Qed.

(** Nothing is left to read: the sum is checked. *)
Lemma verify_end t (r : ZipReader) rep k :
  copying t r content [] →
  ∃ r', (ret ← ZipReaderVerifyEntryCrc; ZipReaderCloseEntry;; sret ret) (App r (Afs t k) rep)
    = Some (verdict r, App r' (Afs t k) rep).
Proof.
  intros [Hc Ho Hb Ht (s & Hcs & Hi & Hm) Hx Hq [Hz1 Hz2] Hcrc Hh [Ha He]].
  destruct (close_raw r (Afs t k) rep s Hcs) as [r' Hcl].
  exists r'. unfold ZipReaderVerifyEntryCrc. erewrite bind_eq.
  2: { unfold asks. erewrite bind_eq by done. cbn [own id]. rewrite Ha, Hcs, He, Hz1, Hcrc.
       change (0 <=? 1) with true. cbv iota zeta. unfold StreamGetTotalIn. cbn [cstream].
       rewrite Hi, (proj2 (Z.leb_le _ _)) by done. cbn [andb]. reflexivity. }
  erewrite bind_eq by exact Hcl. unfold sret, verdict. by destruct (_ =? _).
Qed.

Lemma piece_nonempty rest : rest ≠ [] → ∃ w rest', piece rest = w ∧ rest = w ++ rest' ∧ 0 < zlen w ∧ (length rest' < length rest)%nat.
Proof.
  intros Hr. exists (piece rest), (drop (Z.to_nat ZIP_BUF_INTERNAL) rest). unfold piece, slice.
  change (drop (Z.to_nat 0) rest) with rest.
  assert (0 < length rest)%nat by (destruct rest; [done|cbn; lia]).
  split; [done|]. split; [by rewrite take_drop|]. unfold zlen. rewrite length_take, length_drop. unfold ZIP_BUF_INTERNAL. lia.
Qed.

Lemma save_loop fuel newFilePath t (r : ZipReader) d rest k rep :
  copying t r d rest → (length rest + 1 < fuel)%nat →
  ∃ r' k', SaveFile_loop fuel newFilePath (App r (Afs t k) rep)
    = Some (verdict r, App r' (Afs (<[q := AFile content]> t) k') rep).
Proof.
  revert t r d rest k. induction fuel as [|fuel IH]; intros t r d rest k Hcp Hf; [lia|].
  cbn [SaveFile_loop]. destruct (read_data t r d rest k rep Hcp) as (r1 & Hr & Ho1 & Hb1 & Hs1 & Hx1 & Hh1 & Hc1 & He1).
  destruct Hcp as [Hc Ho Hb Ht Hs Hx Hq [Hz1 Hz2] Hcrc Hh [Ha He]].
  erewrite bind_eq by exact Hr. cbv beta iota.
  assert (Hdec : rest = [] ∨ rest ≠ []) by (destruct rest; auto).
  destruct Hdec as [->|Hne].
  - change (piece []) with (@nil Z) in *. change (zlen []) with 0. rewrite !app_nil_r in *. subst d.
    change (0 <? 0) with false. change (0 >? 0) with false. cbv iota.
    erewrite bind_eq by done. change (negb (ARCHIVE_OK =? ARCHIVE_OK)) with false. cbv iota.
    erewrite bind_eq by (apply quiet_progress; congruence).
    change (OH_ARCHIVE_PROGRESS_CONTINUE =? OH_ARCHIVE_PROGRESS_CANCEL) with false. cbv iota.
    erewrite bind_eq by (apply quiet_progress; congruence).
    destruct (verify_end t r1 rep (S k)) as [r' Hv].
    { split; try done; try congruence; [by rewrite app_nil_r|..]; by rewrite He1. }
    rewrite Hv. exists r', (S k). unfold verdict. rewrite Hc1, insert_id by done. done.
  - destruct (piece_nonempty rest Hne) as (w & rest' & Hw & Hrest & Hpos & Hlt). rewrite Hw in *.
    rewrite (proj2 (Z.ltb_ge _ 0)), (proj2 (Z.gtb_lt _ 0)) by lia.
    erewrite bind_eq by (apply write_data; [by rewrite Hx1|done]).
    change (negb (ARCHIVE_OK =? ARCHIVE_OK)) with false. cbv iota.
    erewrite bind_eq by (apply quiet_progress; change (hasHandler r1 = false); congruence).
    change (OH_ARCHIVE_PROGRESS_CONTINUE =? OH_ARCHIVE_PROGRESS_CANCEL) with false. cbv iota.
    destruct (IH (<[q := AFile (d ++ w)]> t) (r1 <| extractStream := Some (on x q (zlen (d ++ w))) |>) (d ++ w) rest' (S (S k)))
      as (r' & k' & Hl).
    + split; try done; try (change (hasHandler r1 = false); congruence).
      * by rewrite Hc, Hrest, app_assoc.
      * by rewrite lookup_insert_ne.
      * by rewrite lookup_insert_eq.
      * change (entryInfo (r1 <| extractStream := _ |>)) with (entryInfo r1). rewrite He1. done.
      * change (entryInfo (r1 <| extractStream := _ |>)) with (entryInfo r1). rewrite He1. done.
      * change (entryInfo (r1 <| extractStream := _ |>)) with (entryInfo r1). rewrite He1. done.
    + lia.
    + exists r', k'. rewrite Hl. rewrite insert_insert_eq. unfold verdict. by rewrite <- Hc1.
Qed.
End stored.

(** C5: stored data is extracted exactly. When no call fails, for an opened entry that is
    uncompressed, not encrypted, not empty and wholly present in the archive, and without a
    progress handler, [ZipReaderSaveFile] returns; the file it has created then holds the bytes of
    the entry, however many pieces they were copied in, and no other file has changed; the result
    is success when the checksum of these bytes is the one of the central directory, and a
    checksum error otherwise. *)
Theorem stored_entry_extracted {AE : AEnv} {ZL : Zlib} {IC : Iconv} {CA : Calm AE} {CL : CrcLaws ZL}
    (f x : FileStream) (p q : apath) (pre content post newFilePath : bytes) (t : atree) (r : ZipReader)
    (k : nat) (rep : list Z) :
  p ≠ q → content ≠ [] → zlen content < 2 ^ 62 → copying f x p q pre content post t r [] content →
  ∃ r' k', ZipReaderSaveFile newFilePath (App r (Afs t k) rep)
    = Some (if z_crc32 0 content =? rcd_crc32 (centralDirHeader r) then ARCHIVE_OK else ARCHIVE_CRC_ERROR,
            App r' (Afs (<[q := AFile content]> t) k') rep).
Proof.
  intros Hpq Hne Hl Hcp. unfold ZipReaderSaveFile.
  erewrite bind_eq by (apply quiet_progress; apply Hcp).
  change (OH_ARCHIVE_PROGRESS_CONTINUE =? OH_ARCHIVE_PROGRESS_CANCEL) with false. cbv iota.
  unfold asks. erewrite bind_eq by done. cbn [own]. eapply (save_loop f x p q pre content post); try done.
  destruct (c_sizes _ _ _ _ _ _ _ _ _ _ _ Hcp) as [Hs _]. unfold save_fuel. rewrite Hs. unfold zlen. lia.
Qed.
#[local] Instance sound_env : AEnv := {| a_fault := λ _ _, None; a_cwd := []; a_junk := λ _ _, 7;
  a_perm := λ _, 0; a_mtime := λ _, 0; a_progress := λ _, 0 |}.
(** A checksum that is easy to reason about: the sum of the bytes. *)
#[local] Instance sum_zlib : Zlib := {| zstate := unit; z_crc32 := λ c b, fold_left Z.add b c; z_deflateInit2 := λ _, inl tt;
  z_deflate := λ s _ _ _, (Z_STREAM_END, O, [], s); z_deflateReset := λ s, Some s;
  z_deflateParams := λ s _, Some s; z_compressBound := λ n, n; z_inflateInit2 := Some tt;
  z_inflate := λ s _ _, (Z_STREAM_END, O, [], s); z_inflateReset2 := λ s, Some s;
  z_inflateEnd := λ _, true; z_fuel := O |}.
#[local] Instance no_iconv : Iconv := {| iconv_GBK_UTF8 := λ _ _, None |}.
Lemma sum_laws : CrcLaws sum_zlib.
Proof. split; [|done]. intros c a b. symmetry. apply fold_left_app. Qed.
Lemma stored_entry_extracted_witness :
  let f := mkFileStream [] None no_stream in
  let r := (ZipReaderCreate (on f [[112]] 2)) <| entryOpened := true |>
             <| compressStream := Some (CRaw (mkStream 0 0 3 0)) |> <| extractStream := Some (on f [[113]] 0) |>
             <| entryInfo := mkZipReaderEntryInfo 3 3 0 0 0 0 0 0 false 0 0 false [113] |>
             <| centralDirHeader := mkReadCentralDirHeader 0 0 0 0 0 12 0 0 0 0 0 0 0 0 0 |> in
  let t : atree := {[ [[112]] := AFile [9; 9; 3; 4; 5; 9]; [[113]] := AFile [] ]} in
  copying f f [[112]] [[113]] [9; 9] [3; 4; 5] [9] t r [] [3; 4; 5] ∧
  ∃ r' k', ZipReaderSaveFile [113] (App r (Afs t 0) [])
    = Some (ARCHIVE_OK, App r' (Afs (<[ [[113]] := AFile [3; 4; 5]]> t) k') []).
Proof.
  intros f r t.
  assert (copying f f [[112]] [[113]] [9; 9] [3; 4; 5] [9] t r [] [3; 4; 5]) as Hc.
  { split; try done. by eexists. }
  split; [exact Hc|]. assert (Calm sound_env) as HC by done.
  apply (stored_entry_extracted (CA := HC) (CL := sum_laws) f f [[112]] [[113]] [9; 9] [3; 4; 5] [9] [113] t r 0 []); done.
Defined.
