(* ===== verification/ArchiveConfined.v ===== *)
(** * Extraction stays below the output directory

    Whatever calls fail: the extraction of an entry that is not a link, into an
    output directory without links, changes nothing that is not below the
    directory and makes no link.  The state is described by [sealed]; every call
    keeps it when its path is one of the directory's. *)

From coqutil Require Import Datatypes.RecordSetters.
From S2P Require Import Prelude Bytes ZipFormat ZipTime ArchiveErr ArchivePath ArchiveFs ArchiveText ArchiveStream ArchiveUtils ArchiveMonad ZipReaderImpl ZipReader.
Import TriangleBracketNotations.
#[local] Open Scope record_set.

(** ** Resolving a path without links *)

(** The names on a list of parts. *)
Definition names (parts : list bytes) : list bytes := filter (λ c, c ≠ [] ∧ c ≠ [DOT]) parts.

Lemma names_dot c parts : is_dot c = true → names (c :: parts) = names parts.
Proof.
  unfold is_dot, names. rewrite bool_decide_eq_true. intros H. rewrite filter_cons_False; [done|].
  intros [H1 H2]. by destruct H.
Qed.
Lemma names_name c parts : is_dot c = false → names (c :: parts) = c :: names parts.
Proof.
  unfold is_dot, names. rewrite bool_decide_eq_false. intros H. rewrite filter_cons_True; [done|].
  split; intros ->; apply H; auto.
Qed.
Lemma names_empty parts : forallb (λ c, bool_decide (c = [])) parts = true → names parts = [].
Proof.
  induction parts as [|c parts IH]; [done|]. cbn [forallb]. intros [Hc Hp]%andb_true_iff.
  rewrite names_dot, IH; [done|done|]. apply bool_decide_eq_true in Hc as ->. done.
Qed.

Definition resolved_to (t : atree) (q : apath) (r : lookup_result) : Prop :=
  match r with
  | Found p n => p = q ∧ t !! q = Some n
  | Absent d c => d ++ [c] = q ∧ t !! d = Some ADir ∧ t !! q = None
  | Failed _ => True
  end.

Lemma namei_cons links follow t c rest cur :
  namei links follow t (c :: rest) cur =
  if negb (bool_decide (t !! cur = Some ADir)) then Failed A_ENOTDIR
  else if is_dot c then namei links follow t rest cur
  else if bool_decide (c = dotdot) then namei links follow t rest (removelast cur)
  else match t !! (cur ++ [c]) with
       | None => if forallb (λ c, bool_decide (c = [])) rest then Absent cur c else Failed A_ENOENT
       | Some (ALink target) =>
           if bool_decide (rest = []) && negb follow then Found (cur ++ [c]) (ALink target) else
           match links with
           | O => Failed A_ELOOP
           | S links => namei links follow t (split target ++ rest) (if bool_decide (absolute target) then [] else cur)
           end
       | Some _ => namei links follow t rest (cur ++ [c])
       end.
Proof. by destruct links. Qed.

(** No link stands on the way. *)
Definition free (t : atree) (q : apath) : Prop := ∀ p target, p `prefix_of` q → t !! p ≠ Some (ALink target).

Lemma namei_free links follow t parts cur :
  Forall (.≠ dotdot) parts → free t (cur ++ names parts) →
  resolved_to t (cur ++ names parts) (namei links follow t parts cur).
Proof.
  revert cur. induction parts as [|c parts IH]; intros cur Hd Hf.
  { rewrite app_nil_r. destruct links; cbn; destruct (t !! cur) eqn:E; (done || by rewrite app_nil_r). }
  inversion_clear Hd as [|?? Hc Hd']. rewrite namei_cons. destruct (bool_decide _) eqn:E1; [|done]. cbn [negb].
  apply bool_decide_eq_true in E1. destruct (is_dot c) eqn:E2.
  { rewrite names_dot in * by done. by apply IH. }
  rewrite names_name in * by done. rewrite bool_decide_eq_false_2 by done.
  rewrite (cons_middle c cur), app_assoc in Hf |- *.
  destruct (t !! (cur ++ [c])) as [[data| |target]|] eqn:E3.
  - by apply IH.
  - by apply IH.
  - destruct (Hf (cur ++ [c]) target); [by apply prefix_app_r|done].
  - destruct (forallb _ parts) eqn:E4; [|done]. rewrite (names_empty parts) in * by done. by rewrite app_nil_r.
Qed.

(** A path that can be resolved like this. *)
Definition plain_path (s : bytes) : Prop := absolute s ∧ Forall (.≠ dotdot) (split s).

Lemma lookup_free `{AE : AEnv} follow t s :
  plain_path s → free t (components s) → resolved_to t (components s) (lookup_path follow t s).
Proof.
  intros [Ha Hd] Hf. unfold lookup_path. destruct s as [|c s]; [done|]. rewrite bool_decide_eq_true_2 by done.
  by apply (namei_free _ _ _ _ []).
Qed.

(** ** Paths as names *)

(** A string of names, each after a slash. *)
Definition str (cs : list bytes) : bytes := concat (map (cons SLASH) cs).
Definition good_name (c : bytes) : Prop := good c ∧ noslash c.

Lemma str_snoc cs c : str (cs ++ [c]) = str cs ++ SLASH :: c.
Proof. unfold str. rewrite map_app, concat_app. cbn. by rewrite app_nil_r. Qed.

Lemma str_slash cs b : str cs ++ SLASH :: b = lead true ++ flat cs ++ b.
Proof.
  revert b. induction cs as [|c cs IH] using rev_ind; intros b; [done|].
  rewrite str_snoc, flat_snoc, <- !app_assoc. cbn [app]. apply (IH (c ++ SLASH :: b)).
Qed.

Lemma components_noslash b : noslash b → components b = names [b].
Proof. intros H. unfold components. by rewrite split_noslash. Qed.
Lemma components_good c : good_name c → components c = [c].
Proof. intros [(H1 & H2 & _) H]. rewrite components_noslash by done. unfold names. by rewrite filter_cons_True by done. Qed.

(** [cs] and a last part [b]. *)
Lemma components_str cs b :
  Forall good_name cs → noslash b → components (str cs ++ SLASH :: b) = cs ++ names [b].
Proof.
  intros Hcs Hb. rewrite components_app, (components_noslash b) by done. f_equal.
  induction cs as [|c cs IH] using rev_ind; [done|]. apply Forall_app in Hcs as [Hcs Hc].
  rewrite str_snoc, components_app, IH by done. rewrite Forall_singleton in Hc. by rewrite components_good.
Qed.

Lemma plain_str cs b : Forall good_name cs → noslash b → b ≠ dotdot → plain_path (str cs ++ SLASH :: b).
Proof. intros Hcs Hb Hd. rewrite str_slash. split; [done|]. by apply shape_no_dotdot. Qed.

Lemma str_name cs c : Forall good_name cs → good_name c → components (str (cs ++ [c])) = cs ++ [c] ∧ plain_path (str (cs ++ [c])).
Proof.
  intros Hcs Hc. pose proof Hc as [(H1 & H2 & H3) Hn]. rewrite str_snoc. split; [|by apply plain_str].
  rewrite components_str by done. f_equal. unfold names. by rewrite filter_cons_True by done.
Qed.
Lemma str_names cs : Forall good_name cs → cs ≠ [] → components (str cs) = cs ∧ plain_path (str cs).
Proof.
  intros Hcs Hne. destruct cs as [|c cs _] using rev_ind; [done|]. apply Forall_app in Hcs as [Hcs Hc].
  rewrite Forall_singleton in Hc. by apply str_name.
Qed.
Lemma path_string_str cs : cs ≠ [] → path_string cs = str cs.
Proof. by destruct cs. Qed.

Lemma split_last_slash a b : noslash b → split_last (a ++ SLASH :: b) = Some (a, b).
Proof.
  intros Hb. assert (split_last b = None) as Hn.
  { induction b as [|c b IH]; [done|]. apply noslash_cons in Hb as [Hc Hb]. cbn. rewrite IH by done.
    by rewrite (proj2 (Z.eqb_neq _ _)). }
  induction a as [|c a IH]; cbn; [by rewrite Hn|]. by rewrite IH.
Qed.

Lemma take_zlen (a b : bytes) : take (Z.to_nat (zlen a)) (a ++ b) = a.
Proof. unfold zlen. by rewrite Nat2Z.id, take_app_length. Qed.

Lemma take_all (a : bytes) : take (Z.to_nat (zlen a)) a = a.
Proof. apply take_ge. unfold zlen. lia. Qed.

Lemma parent_of cs b n :
  noslash b → cs ≠ [] → zlen (str cs ++ SLASH :: b) < n → n <= ZIP_FILE_NAME_LEN_MAX →
  GetParentDirectory (Some (str cs ++ SLASH :: b)) n = (ARCHIVE_OK, str cs).
Proof.
  intros Hb Hcs Hl Hn. unfold GetParentDirectory, FindLastSeparator. destruct (_ >=? n) eqn:E; zbool; [lia|].
  rewrite split_last_slash by done. rewrite zlen_app, zlen_cons in Hl. pose proof (zlen_nonneg b).
  destruct (zlen (str cs) >=? _) eqn:E2; zbool; [lia|].
  unfold strncpy_s. rewrite take_zlen, (proj2 (Z.ltb_lt _ _)) by lia.
  destruct (str cs) eqn:E3; [by destruct cs|done].
Qed.
Lemma parent_fails cs b n ret p :
  noslash b → cs ≠ [] → n <= ZIP_FILE_NAME_LEN_MAX →
  GetParentDirectory (Some (str cs ++ SLASH :: b)) n = (ret, p) → ret ≠ ARCHIVE_OK ∨ p = str cs.
Proof.
  intros Hb Hcs Hn H. destruct (Z_lt_le_dec (zlen (str cs ++ SLASH :: b)) n).
  - rewrite parent_of in H by done. simplify_eq. by right.
  - left. unfold GetParentDirectory in H. destruct (_ >=? n) eqn:E; zbool; [by simplify_eq|lia].
Qed.
Lemma file_name a b : noslash b → GetFileName (a ++ SLASH :: b) = b.
Proof.
  intros Hb. unfold GetFileName, FindLastSeparator. rewrite split_last_slash by done.
  replace (Z.to_nat (zlen a + 1)) with (length a + 1)%nat by (unfold zlen; lia).
  by rewrite <- drop_drop, drop_app_length.
Qed.

(** ** The output directory *)
Section confined.
Context {AE : AEnv} (D : apath) (t0 : atree).
Hypothesis D_real : ∀ q, q `prefix_of` D → t0 !! q = Some ADir.

Definition below (q : apath) : Prop := ∃ n r, q = D ++ n :: r.

(** Only what is below the directory has changed, and there is no link there. *)
Record sealed (t : atree) : Prop := {
  sealed_kept : ∀ q, ¬ below q → t !! q = t0 !! q;
  sealed_free : ∀ q target, below q → t !! q ≠ Some (ALink target)
}.

(** A path that leads to the directory or into it, and one that leads into it. *)
Definition along (s : bytes) : Prop :=
  plain_path s ∧ (components s `prefix_of` D ∨ below (components s)).
Definition inside (s : bytes) : Prop := plain_path s ∧ below (components s).

Lemma inside_along s : inside s → along s.
Proof. intros [? ?]. split; [done|by right]. Qed.

Lemma prefix_not_below q : q `prefix_of` D → ¬ below q.
Proof.
  intros [r Hr] (n & r' & ->). apply (f_equal length) in Hr. rewrite !length_app in Hr. cbn in Hr. lia.
Qed.
Lemma prefix_real t q : sealed t → q `prefix_of` D → t !! q = Some ADir.
Proof.
  intros Hs Hq. rewrite (sealed_kept t Hs) by by apply prefix_not_below. by apply D_real.
Qed.
Lemma below_prefix p q : below q → p `prefix_of` q → p `prefix_of` D ∨ below p.
Proof.
  intros (n & r & ->) Hp. destruct (prefix_weak_total p D (D ++ n :: r)) as [?|[k ->]]; [done|by eexists|by left|].
  destruct k as [|m k]; [left; by rewrite app_nil_r|]. right. by exists m, k.
Qed.
Lemma below_more p q : below p → p `prefix_of` q → below q.
Proof. intros (n & r & ->) [k ->]. exists n, (r ++ k). by rewrite <- app_assoc. Qed.

Lemma sealed_way t s : sealed t → along s → free t (components s).
Proof.
  intros Hs [_ [Hp|Hb]] p target Hpre Ht.
  - rewrite (prefix_real t p Hs) in Ht; [done|]. by etrans.
  - destruct (below_prefix _ _ Hb Hpre) as [Hd|Hd]; [by rewrite (prefix_real t p Hs) in Ht|by eapply sealed_free].
Qed.

Lemma lookup_along follow t s :
  sealed t → along s → resolved_to t (components s) (lookup_path follow t s).
Proof. intros Hs Ha. apply lookup_free; [by destruct Ha|by apply sealed_way]. Qed.

Lemma sealed_insert t q n : sealed t → below q → (∀ target, n ≠ ALink target) → sealed (<[q := n]> t).
Proof.
  intros Hs Hq Hn. split.
  - intros q' Hq'. rewrite lookup_insert_ne by (intros ->; done). by apply sealed_kept.
  - intros q' target Hq'. destruct (decide (q = q')) as [->|]; [rewrite lookup_insert_eq; intros [= ?]; by eapply Hn|].
    rewrite lookup_insert_ne by done. by apply sealed_free.
Qed.
Lemma sealed_delete t q : sealed t → below q → sealed (delete q t).
Proof.
  intros Hs Hq. split.
  - intros q' Hq'. rewrite lookup_delete_ne by (intros ->; done). by apply sealed_kept.
  - intros q' target Hq'. destruct (decide (q = q')) as [->|]; [by rewrite lookup_delete_eq|].
    rewrite lookup_delete_ne by done. by apply sealed_free.
Qed.

(** ** The calls *)

(** The tree stays sealed, and something is known of the result. *)
Definition keeps_with {A} (m : st afs A) (P : A → Prop) : Prop :=
  ∀ s, sealed (a_tree s) → wp m (λ a s', P a ∧ sealed (a_tree s')) s.

Lemma stays_ret {A} (a : A) (P : A → Prop) : P a → keeps_with (sret a) P.
Proof. intros H s Hs. by apply wp_ret. Qed.
Lemma stays_bind {A B} (m : st afs A) (f : A → st afs B) P Q :
  keeps_with m P → (∀ a, P a → keeps_with (f a) Q) → keeps_with (bind m f) Q.
Proof.
  intros Hm Hf s Hs. apply wp_bind. eapply wp_mono; [|by apply Hm]. cbn. intros a s' [Ha Hs']. by apply Hf.
Qed.
Lemma stays_mono {A} (m : st afs A) (P Q : A → Prop) : (∀ a, P a → Q a) → keeps_with m P → keeps_with m Q.
Proof. intros HPQ Hm s Hs. eapply wp_mono; [|by apply Hm]. cbn. intros a s' [? ?]. auto. Qed.
Lemma stays_none {A} (P : A → Prop) : keeps_with (λ _, None) P.
Proof. by intros s Hs. Qed.

(** A call keeps what both of its outcomes keep. *)
Lemma stays_acalled {A} (k : acall) (bad : Z → nat → atree → A * atree) (ok : atree → A * atree) (P : A → Prop) :
  (∀ e n t, sealed t → P (bad e n t).1 ∧ sealed (bad e n t).2) →
  (∀ t, sealed t → P (ok t).1 ∧ sealed (ok t).2) →
  keeps_with (acalled k bad ok) P.
Proof.
  intros Hbad Hok s Hs. unfold acalled, wp. destruct (a_fault k (a_calls s)) as [[e n]|].
  - specialize (Hbad e n (a_tree s) Hs). by destruct (bad e n (a_tree s)).
  - specialize (Hok (a_tree s) Hs). by destruct (ok (a_tree s)).
Qed.

Definition any {A} (a : A) : Prop := True.

Lemma stays_malloc : keeps_with malloc_ any.
Proof. by intros s Hs. Qed.
Lemma stays_stat follow s : keeps_with (stat_ follow s) any.
Proof. apply stays_acalled; done. Qed.
Lemma stays_access s : keeps_with (access_ s) any.
Proof. eapply stays_bind; [apply stays_stat|]. intros a _. by apply stays_ret. Qed.

Lemma stays_mkdir s : along s → keeps_with (mkdir_ s) any.
Proof.
  intros Ha. apply stays_acalled; [done|]. intros t Ht. split; [done|].
  pose proof (lookup_along false t s Ht Ha) as H. destruct (lookup_path false t s) as [q n|d c|e]; cbn in *; [done| |done].
  destruct H as (-> & _ & Hn). destruct Ha as [_ [Hp|Hb]]; [by rewrite (prefix_real t _ Ht) in Hn|].
  by apply sealed_insert.
Qed.

Lemma stays_remove s : inside s → keeps_with (remove_ s) any.
Proof.
  intros Ha. apply stays_acalled; [done|]. intros t Ht. split; [done|].
  pose proof (lookup_along false t s Ht (inside_along _ Ha)) as H. destruct Ha as [_ Hb].
  destruct (lookup_path false t s) as [q n|d c|e]; cbn in *; [|done|done]. destruct H as [-> _].
  destruct n; cbn; repeat case_match; try done; by apply sealed_delete.
Qed.

Lemma stays_chmod s m : keeps_with (chmod_ s m) any.
Proof. apply stays_acalled; done. Qed.
Lemma stays_utime s m : keeps_with (utime_ s m) any.
Proof. apply stays_acalled; done. Qed.

(** The path [realpath] returns. *)
Lemma stays_realpath s :
  along s → keeps_with (realpath_ s) (λ r, match r with inl p => p = path_string (components s) | inr _ => True end).
Proof.
  intros Ha. apply stays_acalled; [done|]. intros t Ht. split; [|done].
  pose proof (lookup_along true t s Ht Ha) as H. destruct (lookup_path true t s) as [q n|d c|e]; cbn in *; [|done|done].
  by destruct H as [-> _].
Qed.

(** A file opened for writing is below the directory; one opened for reading is anywhere. *)
Definition writes_below (h : FILE) : Prop := below (h_path h).

Lemma stays_fopen_write s :
  inside s → keeps_with (fopen_ s Mode_wb) (λ r, match r with inl h => writes_below h | inr _ => True end).
Proof.
  intros Ha. apply stays_acalled; [done|]. intros t Ht.
  pose proof (lookup_along true t s Ht (inside_along _ Ha)) as H. destruct Ha as [_ Hb].
  destruct (lookup_path true t s) as [q n|d c|e]; cbn in *; [destruct H as [-> _]|destruct H as (-> & _)|done].
  - destruct n; cbn; (split; [done|]); try done; by apply sealed_insert.
  - split; [done|]. by apply sealed_insert.
Qed.

Lemma sealed_put t pos new h : sealed t → writes_below h → sealed (put_data pos new h t).
Proof. intros Ht Hh. unfold put_data. destruct (file_data t h); [|done]. by apply sealed_insert. Qed.

Lemma stays_fwrite buf h :
  writes_below h → keeps_with (fwrite_ buf h) (λ r, writes_below r.1.2).
Proof. intros Hh. apply stays_acalled; intros; cbn; (split; [done|]); by apply sealed_put. Qed.
Lemma stays_fread len h : keeps_with (fread_ len h) any.
Proof. apply stays_acalled; intros; cbn; repeat case_match; done. Qed.
Lemma stays_fseek off origin h : keeps_with (fseek_ off origin h) any.
Proof. apply stays_acalled; intros; cbn; repeat case_match; done. Qed.
Lemma stays_ftell h : keeps_with (ftell_ h) any.
Proof. apply stays_acalled; done. Qed.
(** ** Streams and the functions of archive_utils.c *)
Context {ZL : Zlib}.
Hypothesis D_good : Forall good_name D.
Hypothesis D_some : D ≠ [].

(** A place for an entry: names that lead into the directory, and a last one. *)
Record spot (s : bytes) (cs : list bytes) (b : bytes) : Prop := {
  spot_eq : s = str cs ++ SLASH :: b;
  spot_names : Forall good_name cs;
  spot_last : good_name b;
  spot_into : D `prefix_of` cs
}.

Lemma spot_inside s cs b : spot s cs b → inside s.
Proof.
  intros [-> Hcs Hb [k ->]]. rewrite <- str_snoc. destruct (str_name (D ++ k) b Hcs Hb) as [Hc Hp]. split; [done|].
  rewrite Hc, <- app_assoc. destruct k as [|n k]; [by exists b, []|by exists n, (k ++ [b])].
Qed.
Lemma spot_ne s cs b : spot s cs b → cs ≠ [].
Proof. intros [_ _ _ [k ->]] E. by apply app_eq_nil in E as [? _]. Qed.

(** The strings of the directories on the way. *)
Lemma str_along cs : Forall good_name cs → cs ≠ [] → D `prefix_of` cs ∨ cs `prefix_of` D → along (str cs).
Proof.
  intros Hcs Hne Hd. destruct (str_names cs Hcs Hne) as [Hc Hp]. split; [done|]. rewrite Hc.
  destruct Hd as [[[|n k] ->]|Hd]; [left; by rewrite app_nil_r|right; by exists n, k|by left].
Qed.

Definition out_stream (x : FileStream) : Prop :=
  match handle x with Some h => writes_below h | None => True end.

Lemma stays_stream_create p :
  keeps_with (FileStreamCreate p) (λ r, match r with Some x => path x = p ∧ out_stream x | None => True end).
Proof.
  eapply stays_bind; [apply stays_malloc|]. intros m _. apply stays_ret. destruct m; [|done].
  unfold strncpy_s. rewrite take_all. by destruct (_ <? _).
Qed.

Lemma open_create_mode :
  (Z.land OPEN_MODE_CREATE OPEN_MODE_READ_WRITE =? OPEN_MODE_READ)
  || negb (Z.land OPEN_MODE_CREATE OPEN_MODE_APPEND =? 0) = false
  ∧ negb (Z.land OPEN_MODE_CREATE OPEN_MODE_CREATE =? 0) = true.
Proof. done. Qed.

Lemma stays_stream_open x cs b :
  spot (path x) cs b → out_stream x → keeps_with (FileStreamOpen x OPEN_MODE_CREATE) (λ r, out_stream r.2).
Proof.
  intros Hs Hx. pose proof (spot_inside _ _ _ Hs) as Hin. pose proof (spot_ne _ _ _ Hs) as Hne.
  unfold FileStreamOpen. destruct open_create_mode as [-> ->].
  eapply stays_bind; [apply stays_access|]. intros there _.
  eapply stays_bind; [instantiate (1 := any); destruct there; [by apply stays_remove|by apply stays_ret]|]. intros _ _.
  destruct Hs as [Heq Hcs Hb Hd].
  destruct (GetParentDirectory _ _) as [ret parent] eqn:E. rewrite Heq in E.
  apply parent_fails in E; [|by apply Hb|done|done].
  destruct (negb (ret =? ARCHIVE_OK)) eqn:Er; [by apply stays_ret|].
  destruct E as [E| ->]; [by rewrite (proj2 (Z.eqb_neq _ _) E) in Er|].
  assert (along (str cs)) as Hal by (apply str_along; [done|done|by left]).
  eapply stays_bind; [by apply stays_realpath|]. intros [p|e] Hp; [|by apply stays_ret].
  destruct (str_names cs Hcs Hne) as [Hc _]. rewrite Hc, path_string_str in Hp by done. subst p.
  rewrite Heq, file_name by apply Hb.
  destruct (snprintf_s _ _) as [full|] eqn:Ef; [|by apply stays_ret].
  unfold snprintf_s in Ef. destruct (_ <? _); simplify_eq. rewrite Heq in Hin.
  eapply stays_bind; [by apply stays_fopen_write|]. intros [h|e] Hh; by apply stays_ret.
Qed.

Lemma stays_stream_write x buf : out_stream x → keeps_with (FileStreamWrite x buf) (λ r, out_stream r.2).
Proof.
  intros Hx. unfold FileStreamWrite, out_stream in *. destruct (handle x) as [h|]; [|apply stays_none].
  eapply stays_bind; [by apply stays_fwrite|]. intros [[n h'] e] Hh. apply stays_ret. by destruct (_ && _).
Qed.
Lemma stays_stream_read f len : keeps_with (FileStreamRead f len) any.
Proof.
  unfold FileStreamRead. destruct (handle f); [|apply stays_none]. destruct (_ <? _); [apply stays_none|].
  eapply stays_bind; [apply stays_fread|]. intros [[? ?] ?] _. by apply stays_ret.
Qed.
Lemma stays_stream_seek f off origin : keeps_with (FileStreamSeek f off origin) any.
Proof.
  unfold FileStreamSeek. destruct (handle f); [|apply stays_none].
  eapply stays_bind; [apply stays_fseek|]. intros [? ?] _. by apply stays_ret.
Qed.
Lemma stays_stream_tell f : keeps_with (FileStreamTell f) any.
Proof.
  unfold FileStreamTell. destruct (handle f); [|apply stays_none].
  eapply stays_bind; [apply stays_ftell|]. intros [? ?] _. by apply stays_ret.
Qed.
(** *** Creating directories *)

Lemma span_part_spec p : ∃ w r, span_part p = (w, r) ∧ p = w ++ r ∧ (r = [] ∨ ∃ r', r = SLASH :: r').
Proof.
  induction p as [|c p (w & r & E & -> & Hr)]; [by exists [], []; eauto|]. cbn.
  destruct (c =? SLASH) eqn:Ec; zbool; [subst c; exists [], (SLASH :: w ++ r); eauto|].
  rewrite E. exists (c :: w), r. auto.
Qed.

Lemma along_cut a b : along (a ++ SLASH :: b) → absolute (a ++ [SLASH]) → along (a ++ [SLASH]).
Proof.
  intros [[_ Hd] Hp] Ha. assert (Hc : components (a ++ [SLASH]) = components a) by by rewrite components_app, app_nil_r.
  rewrite components_app in Hp. rewrite split_slash in Hd. apply Forall_app in Hd as [Hd _]. split.
  - split; [done|]. rewrite split_slash. apply Forall_app. split; [done|by repeat constructor].
  - rewrite Hc. destruct Hp as [Hp|Hp]; [left; etrans; [|done]; by apply prefix_app_r|].
    eapply below_prefix; [done|by apply prefix_app_r].
Qed.

Lemma absolute_app a b : a ≠ [] → absolute (a ++ b) ↔ absolute a.
Proof. by destruct a. Qed.

Lemma stays_create_loop fuel temp p :
  along (temp ++ p) → temp ≠ [] → keeps_with (CreateDirectory_loop fuel temp p 0) any.
Proof.
  revert temp p. induction fuel as [|fuel IH]; intros temp p Ha Hne; cbn [CreateDirectory_loop].
  { destruct p; [by apply stays_ret|apply stays_none]. }
  destruct p as [|c p]; [by apply stays_ret|].
  destruct (span_part_spec (c :: p)) as (w & r & E & Hp & Hr). rewrite E, Hp in *. clear E.
  destruct (_ && _); [by apply stays_ret|]. destruct (_ && _); [by apply stays_ret|].
  set (temp' := match r with [] => temp ++ w | _ => (temp ++ w) ++ [SLASH] end).
  assert (along temp' ∧ along (temp' ++ tail r) ∧ temp' ≠ []) as (H1 & H2 & H3).
  { subst temp'. destruct Hr as [->|[r' ->]]; cbn [tail].
    - rewrite !app_nil_r in *. split; [done|]. split; [done|]. by destruct temp.
    - rewrite (app_assoc temp w) in Ha. split_and!; [|by rewrite <- (app_assoc (temp ++ w))|by destruct temp].
      eapply along_cut; [exact Ha|]. destruct Ha as [[Ha _] _]. by destruct temp. }
  clearbody temp'. eapply (stays_bind _ _ any).
  - destruct (_ >? _); [|by apply stays_ret]. eapply (stays_bind _ _ any).
    + eapply stays_bind; [apply stays_stat|]. intros ? _. by apply stays_ret.
    + intros there _. destruct there; [by apply stays_ret|by apply stays_mkdir].
  - intros [e|] _; [|by apply IH]. destruct (negb _); [by apply stays_ret|by apply IH].
Qed.

Lemma stays_create_directory p : along p → keeps_with (CreateDirectory p None) any.
Proof.
  intros Ha. unfold CreateDirectory. eapply (stays_bind _ _ any).
  { eapply stays_bind; [apply stays_stat|]. intros ? _. by apply stays_ret. }
  intros there _. destruct there; [by apply stays_ret|]. destruct (negb _); [by apply stays_ret|].
  destruct p as [|c p]; [by destruct Ha as [[? _] _]|].
  assert (c = SLASH) as -> by (by destruct Ha as [[[= ?] _] _]).
  rewrite bool_decide_eq_true_2 by done. by apply (stays_create_loop _ [SLASH]).
Qed.

Lemma stays_create_parent s cs b : spot s cs b → keeps_with (CreateParentDirectory s None) any.
Proof.
  intros Hs. pose proof (spot_ne _ _ _ Hs) as Hne. destruct Hs as [-> Hcs Hb Hd]. unfold CreateParentDirectory.
  destruct (_ >=? _); [by apply stays_ret|]. unfold FindLastSeparator. rewrite split_last_slash by apply Hb.
  destruct (_ >=? _); [by apply stays_ret|]. unfold strncpy_s. rewrite take_zlen.
  destruct (_ <? _); [|by apply stays_ret].
  assert (along (str cs)) as Ha by (apply str_along; [done|done|by left]).
  destruct (str cs); [by apply stays_ret|by apply stays_create_directory].
Qed.

(** *** A new name *)

Lemma pretty_noslash k : 2 <= k < MAX_RENAME_COUNT → noslash (bytes_of (pretty k)).
Proof.
  intros Hk. assert (forallb (λ k, forallb (λ c, negb (c =? SLASH)) (bytes_of (pretty (Z.of_nat k)))) (seq 0 1000) = true)
    as H by by vm_compute.
  rewrite forallb_forall in H. specialize (H (Z.to_nat k)). rewrite in_seq in H.
  rewrite Z2Nat.id in H by lia. unfold MAX_RENAME_COUNT in Hk. specialize (H ltac:(lia)). rewrite forallb_forall in H.
  intros Hin. apply list_elem_of_In, H in Hin. done.
Qed.

Lemma numbered_spot cs base ext k :
  Forall good_name cs → D `prefix_of` cs → noslash base → noslash ext → 2 <= k < MAX_RENAME_COUNT →
  ∃ b, spot (numbered (str cs ++ [SLASH]) base ext k) cs b.
Proof.
  intros Hcs Hd Hb He Hk. pose proof (pretty_noslash k Hk) as Hp.
  assert (starts_with [DOT; SLASH] (str cs ++ [SLASH]) = false) as Hs.
  { destruct cs as [|c cs]; [by apply prefix_nil_inv in Hd|done]. }
  unfold numbered. rewrite Hs. eexists. split; [by rewrite <- app_assoc|done| |done].
  split.
  - split; [|split]; intros E; apply (f_equal (λ l, bool_decide (40 ∈ l))) in E; revert E;
      rewrite bool_decide_eq_true_2 by (rewrite !elem_of_app; right; left; vm_compute; repeat constructor); done.
  - unfold noslash in *. rewrite !not_elem_of_app. split_and!; try done; by apply (bool_decide_unpack _).
Qed.

Lemma strncpy_whole n s s' : strncpy_s n s n = Some s' → s' = s.
Proof.
  unfold strncpy_s. destruct (_ <? _) eqn:E; zbool; [|done]. intros [= <-]. rewrite zlen_take in E.
  pose proof (zlen_nonneg s). apply take_ge. unfold zlen in *. lia.
Qed.

Definition new_spot (cs : list bytes) (r : Z * bytes) : Prop := r.1 = ARCHIVE_OK → ∃ b, spot r.2 cs b.

Lemma stays_try_name fuel cs base ext n k :
  Forall good_name cs → D `prefix_of` cs → noslash base → noslash ext → 2 <= k < MAX_RENAME_COUNT →
  keeps_with (TryNewFileNameCount fuel (str cs ++ [SLASH]) base ext n k) (new_spot cs).
Proof.
  revert k. induction fuel as [|fuel IH]; intros k Hcs Hd Hb He Hk; cbn [TryNewFileNameCount]; [apply stays_none|].
  destruct (numbered_spot cs base ext k Hcs Hd Hb He Hk) as [b Hs]. unfold snprintf_s.
  destruct (_ <? ZIP_FILE_NAME_LEN_MAX); [|by apply stays_ret].
  eapply stays_bind; [apply stays_access|]. intros there _. destruct there; cbn [negb].
  - destruct (_ >=? _) eqn:E; zbool; [by apply stays_ret|]. apply IH; try done. lia.
  - apply stays_ret. destruct (strncpy_s _ _ _) as [new|] eqn:E; [|done]. apply strncpy_whole in E as ->.
    intros _. by exists b.
Qed.

Lemma split_dot_noslash s b e : split_dot s = Some (b, e) → noslash s → noslash b ∧ noslash e.
Proof.
  revert b e. induction s as [|c s IH]; intros b e; [done|]. cbn. rewrite noslash_cons.
  destruct (split_dot s) as [[b' e']|]; [|destruct (c =? DOT); [|done]]; intros [= <- <-] [Hc Hs].
  - destruct (IH _ _ eq_refl Hs). by rewrite noslash_cons.
  - split; [apply noslash_nil|by rewrite noslash_cons].
Qed.

Lemma stays_generate s cs b n :
  spot s cs b → keeps_with (GenerateNewFilename s n) (new_spot cs).
Proof.
  intros [-> Hcs [_ Hb] Hd]. unfold GenerateNewFilename. destruct (n =? 0); [by apply stays_ret|].
  rewrite split_last_slash by done.
  assert (∃ base ext, (match split_dot b with Some (b, e) => (b, e) | None => (b, []) end) = (base, ext) ∧ noslash base ∧ noslash ext)
    as (base & ext & -> & Hba & He).
  { destruct (split_dot b) as [[b' e']|] eqn:E; eexists _, _; (split; [done|]); [by eapply split_dot_noslash|].
    split; [done|apply noslash_nil]. }
  unfold strcpy_s. do 3 (destruct (_ <? _); [|by apply stays_ret]).
  by apply stays_try_name.
Qed.
(** *** Removing a file whose extraction was cancelled *)

Lemma zlen_str_prefix cs : cs `prefix_of` D → zlen (str cs) <= zlen (str D).
Proof.
  intros [k ->]. unfold str. rewrite map_app, concat_app, zlen_app. pose proof (zlen_nonneg (concat (map (cons SLASH) k))). lia.
Qed.
Lemma root_long : 2 <= zlen (str D).
Proof.
  destruct D as [|c D'] eqn:E; [done|]. unfold str. cbn [map concat]. rewrite zlen_app, zlen_cons.
  rewrite Forall_cons in D_good. destruct D_good as [[(Hc & _) _] _].
  pose proof (zlen_nonneg (concat (map (cons SLASH) D'))). destruct c; [done|]. rewrite zlen_cons.
  pose proof (zlen_nonneg c). lia.
Qed.

Lemma stays_delete_parents fuel cs :
  Forall good_name cs → D `prefix_of` cs ∨ cs `prefix_of` D → cs ≠ [] →
  keeps_with (DeleteParents fuel (str D) (str cs)) any.
Proof.
  revert cs. induction fuel as [|fuel IH]; intros cs Hcs Hd Hne; cbn [DeleteParents]; [apply stays_none|].
  destruct (_ <? _) eqn:E; zbool; [|by apply stays_ret].
  destruct Hd as [Hd|Hd]; [|pose proof (zlen_str_prefix cs Hd); lia].
  destruct cs as [|c cs' _] using rev_ind; [done|]. rewrite Forall_app, Forall_singleton in Hcs. destruct Hcs as [Hcs Hc].
  assert (D `prefix_of` cs') as Hd'.
  { destruct Hd as [k Hk]. destruct k as [|n k _] using rev_ind.
    - rewrite app_nil_r in Hk. rewrite Hk in E. lia.
    - rewrite app_assoc in Hk. apply app_inj_tail in Hk as [-> _]. by exists k. }
  assert (cs' ≠ []) as Hne' by (intros ->; by apply prefix_nil_inv in Hd').
  assert (spot (str (cs' ++ [c])) cs' c) as Hs by (split; [apply str_snoc|done..]).
  eapply stays_bind; [eapply stays_remove, spot_inside, Hs|]. intros [e|] _; [by apply stays_ret|].
  unfold strncpy_s. rewrite take_all.
  destruct (_ <? _); [|by apply stays_ret]. rewrite str_snoc.
  destruct (GetParentDirectory _ _) as [ret p] eqn:Ep. apply parent_fails in Ep; [|by apply Hc|done|done].
  destruct (negb (ret =? ARCHIVE_OK)) eqn:Er; [by apply stays_ret|].
  destruct Ep as [Ep| ->]; [by rewrite (proj2 (Z.eqb_neq _ _) Ep) in Er|]. apply IH; [done|by left|done].
Qed.

Lemma stays_delete_temp s cs b : spot s cs b → keeps_with (DeleteTempFileWithRootPath (str D) s) any.
Proof.
  intros Hs. pose proof (spot_ne _ _ _ Hs) as Hne. pose proof (spot_inside _ _ _ Hs) as Hin.
  unfold DeleteTempFileWithRootPath. eapply stays_bind; [by apply stays_remove|]. intros [e|] _; [by apply stays_ret|].
  destruct Hs as [-> Hcs Hb Hd]. destruct (GetParentDirectory _ _) as [ret p] eqn:Ep.
  apply parent_fails in Ep; [|by apply Hb|done|done].
  destruct (negb (ret =? ARCHIVE_OK)) eqn:Er; [by apply stays_ret|].
  destruct Ep as [Ep| ->]; [by rewrite (proj2 (Z.eqb_neq _ _) Ep) in Er|].
  apply stays_delete_parents; [done|by left|done].
Qed.

(** *** The data of an entry *)

(** A stream that does not write when it is closed. *)
Definition reads (c : CompressStream) : Prop :=
  match c with CRaw _ => True | CDeflate d => Z.land (dmode d) STREAM_MODE_WR = 0 end.

Lemma stays_deflate_read fuel d b out n :
  keeps_with (DeflateRead_loop fuel d b out n) (λ r, dmode r.1.2 = dmode d).
Proof.
  revert d b out. induction fuel as [|fuel IH]; intros d b out; cbn [DeflateRead_loop]; [apply stays_none|].
  destruct (zstream d) as [z|]; [|apply stays_none].
  eapply (stays_bind _ _ (λ r, dmode r.1.2 = dmode d)).
  - destruct (_ =? 0); [|by apply stays_ret]. eapply stays_bind; [apply stays_stream_read|].
    intros [[len data] b'] _. apply stays_ret. by destruct (_ && _).
  - intros [[[len data] d'] b'] Hd. cbn in Hd. destruct (_ || _); [by apply stays_ret|].
    destruct (z_inflate _ _ _) as [[[ret used] new] z']. destruct (_ && _).
    + eapply stays_mono; [|apply IH]. cbn. intros a ->. done.
    + destruct (_ && _); by apply stays_ret.
Qed.

Lemma stays_compress_read c b n : reads c → keeps_with (StreamRead c b n) (λ r, reads r.1.2).
Proof.
  intros Hc. destruct c as [s|d]; unfold StreamRead.
  - eapply (stays_bind _ _ any).
    + eapply stays_bind; [apply stays_stream_read|]. intros [[? ?] ?] _. by apply stays_ret.
    + intros [[[? ?] ?] ?] _. by apply stays_ret.
  - eapply (stays_bind _ _ (λ r, dmode r.1.2 = dmode d)).
    + eapply stays_bind; [apply stays_deflate_read|]. intros [[r d'] b'] Hd. apply stays_ret. by destruct r.
    + intros [[[? ?] d'] ?] Hd. apply stays_ret. cbn in *. by rewrite Hd.
Qed.
Lemma stays_compress_close c b : reads c → keeps_with (StreamClose c b) any.
Proof.
  intros Hc. destruct c as [s|d]; unfold StreamClose; [by apply stays_ret|].
  eapply (stays_bind _ _ any); [|intros [[? ?] ?] _; by apply stays_ret].
  unfold DeflateStreamClose. cbn in Hc. rewrite Hc. by apply stays_ret.
Qed.
(** ** The reader *)
Context {IC : Iconv} (mktime : tm → Z).

(** Its streams write nothing outside, and it is at an entry that is not a link. *)
Record tame (r : ZipReader) : Prop := {
  tame_out : ∀ x, extractStream r = Some x → out_stream x;
  tame_in : ∀ c, compressStream r = Some c → reads c;
  tame_dir : outDir r = str D;
  tame_link : ZipReaderEntryIsSymlink (centralDirHeader r) = false
}.

Definition tamed {A} (m : st (appstate ZipReader) A) (P : A → Prop) : Prop :=
  ∀ s, sealed (a_tree (fs s)) → tame (own s) →
    wp m (λ a s', P a ∧ sealed (a_tree (fs s')) ∧ tame (own s')) s.

Lemma tamed_ret {A} (a : A) (P : A → Prop) : P a → tamed (sret a) P.
Proof. intros H s Hs Hr. by apply wp_ret. Qed.
Lemma tamed_none {A} (P : A → Prop) : tamed (λ _, None) P.
Proof. by intros s Hs Hr. Qed.
Lemma tamed_bind {A B} (m : st (appstate ZipReader) A) (f : A → st (appstate ZipReader) B) P Q :
  tamed m P → (∀ a, P a → tamed (f a) Q) → tamed (bind m f) Q.
Proof.
  intros Hm Hf s Hs Hr. apply wp_bind. eapply wp_mono; [|by apply Hm]. cbn. intros a s' (Ha & Hs' & Hr'). by apply Hf.
Qed.
Lemma tamed_mono {A} (m : st (appstate ZipReader) A) (P Q : A → Prop) : (∀ a, P a → Q a) → tamed m P → tamed m Q.
Proof. intros HPQ Hm s Hs Hr. eapply wp_mono; [|by apply Hm]. cbn. intros a s' (? & ? & ?). auto. Qed.
Lemma tamed_io {A} (m : st afs A) (P : A → Prop) : keeps_with m P → tamed (io m) P.
Proof. intros Hm s Hs Hr. apply wp_io. eapply wp_mono; [|by apply Hm]. cbn. intros a f [? ?]. done. Qed.
Lemma tamed_asks {A} (f : ZipReader → A) : tamed (asks f) (λ a, ∃ r, tame r ∧ a = f r).
Proof. intros s Hs Hr. apply wp_asks. eauto. Qed.
Lemma tamed_modify f : (∀ r, tame r → tame (f r)) → tamed (modify f) any.
Proof. intros Hf s Hs Hr. apply wp_modify. split_and!; [done|done|by apply Hf]. Qed.
Lemma tamed_if_ok ret (k : st (appstate ZipReader) Z) : tamed k any → tamed (if_ok ret k) any.
Proof. intros Hk. unfold if_ok. destruct (negb _); [by apply tamed_ret|done]. Qed.
Lemma tamed_report n : tamed (report n) any.
Proof. by intros s Hs Hr. Qed.

Lemma tamed_entry f : tamed (entry_ f) any.
Proof. apply tamed_modify. by intros r []. Qed.
Lemma tamed_base {A} (m : FileStream → st afs (A * FileStream)) : (∀ b, keeps_with (m b) any) → tamed (base m) any.
Proof.
  intros Hm. unfold base. eapply tamed_bind; [apply tamed_asks|]. intros b _.
  eapply tamed_bind; [by apply tamed_io|]. intros [a b'] _.
  eapply tamed_bind; [apply tamed_modify; by intros r []|]. intros _ _. by apply tamed_ret.
Qed.

Lemma tamed_close : tamed ZipReaderCloseEntry any.
Proof.
  unfold ZipReaderCloseEntry. eapply tamed_bind; [apply tamed_asks|]. intros r' (r & Hr & ->). cbn [id].
  eapply (tamed_bind _ _ any); [|intros _ _; apply tamed_modify; by intros ? []].
  destruct (compressStream r) as [c|] eqn:Ec; [|by apply tamed_ret].
  eapply tamed_bind; [apply tamed_io, stays_compress_close; by eapply tame_in|]. intros [[? ?] b] _.
  apply tamed_modify. by intros ? [].
Qed.

Lemma tamed_cancelled s cs b : spot s cs b → tamed (Cancelled s) any.
Proof.
  intros Hs. unfold Cancelled. eapply tamed_bind; [apply tamed_close|]. intros _ _.
  eapply tamed_bind; [apply tamed_asks|]. intros d (r & Hr & ->). rewrite (tame_dir r Hr).
  eapply tamed_bind; [eapply tamed_io, stays_delete_temp, Hs|]. intros _ _. by apply tamed_ret.
Qed.

Lemma tamed_read n : tamed (ZipReaderReadData n) any.
Proof.
  unfold ZipReaderReadData. eapply tamed_bind; [apply tamed_asks|]. intros r' (r & Hr & ->). cbn [id].
  destruct (negb _); [by apply tamed_ret|]. destruct (_ || _); [by apply tamed_ret|].
  destruct (compressStream r) as [c|] eqn:Ec; [|by apply tamed_ret]. destruct (n =? 0); [by apply tamed_ret|].
  eapply tamed_bind; [apply tamed_io, stays_compress_read; by eapply tame_in|]. intros [[[read data] c'] b] Hc.
  eapply tamed_bind.
  { apply tamed_modify. intros r0 [H1 H2 H3 H4]. split; try done. by intros c0 [= <-]. }
  intros _ _. destruct (_ <? _); [by apply tamed_ret|]. destruct (_ >? _); [by apply tamed_ret|].
  eapply tamed_bind; [apply tamed_entry|]. intros _ _. by apply tamed_ret.
Qed.
Lemma tamed_write buf : tamed (ZipReaderWriteData buf) any.
Proof.
  unfold ZipReaderWriteData. eapply tamed_bind; [apply tamed_asks|]. intros x' (r & Hr & ->).
  destruct (extractStream r) as [x|] eqn:Ex; [|apply tamed_none].
  eapply tamed_bind; [apply tamed_io, stays_stream_write; by eapply tame_out|]. intros [n x'] Hx.
  eapply tamed_bind; [|intros _ _; by apply tamed_ret].
  apply tamed_modify. intros r0 [H1 H2 H3 H4]. split; try done. by intros x0 [= <-].
Qed.
Lemma tamed_progress force : tamed (ZipReaderUpdateProgress force) any.
Proof.
  unfold ZipReaderUpdateProgress. eapply tamed_bind; [apply tamed_asks|]. intros r' (r & Hr & ->). cbn [id].
  destruct (_ =? 0); [by apply tamed_ret|]. destruct (hasHandler r); [|by apply tamed_ret].
  destruct (compressStream r); [|apply tamed_none]. cbv zeta. destruct (_ || _); [|by apply tamed_ret].
  eapply tamed_bind; [apply tamed_modify; by intros ? []|]. intros _ _. apply tamed_report.
Qed.
Lemma tamed_verify : tamed ZipReaderVerifyEntryCrc any.
Proof. unfold ZipReaderVerifyEntryCrc. eapply tamed_bind; [apply tamed_asks|]. intros ? _. by apply tamed_ret. Qed.

Lemma tamed_save_loop fuel s cs b : spot s cs b → tamed (SaveFile_loop fuel s) any.
Proof.
  intros Hs. induction fuel as [|fuel IH]; cbn [SaveFile_loop]; [apply tamed_none|].
  eapply tamed_bind; [apply tamed_read|]. intros [read data] _. destruct (_ <? _).
  { eapply tamed_bind; [apply tamed_close|]. intros _ _. by apply tamed_ret. }
  eapply (tamed_bind _ _ any); [destruct (_ >? _); [apply tamed_write|by apply tamed_ret]|]. intros ret _.
  destruct (negb _).
  { eapply tamed_bind; [apply tamed_close|]. intros _ _. by apply tamed_ret. }
  eapply tamed_bind; [apply tamed_progress|]. intros p _. destruct (_ =? _); [by eapply tamed_cancelled|].
  destruct (_ >? _); [done|]. eapply tamed_bind; [apply tamed_progress|]. intros _ _.
  eapply tamed_bind; [apply tamed_verify|]. intros ? _.
  eapply tamed_bind; [apply tamed_close|]. intros _ _. by apply tamed_ret.
Qed.
Lemma tamed_save s cs b : spot s cs b → tamed (ZipReaderSaveFile s) any.
Proof.
  intros Hs. unfold ZipReaderSaveFile. eapply tamed_bind; [apply tamed_progress|]. intros ret _.
  destruct (_ =? _); [by eapply tamed_cancelled|].
  eapply tamed_bind; [apply tamed_asks|]. intros fuel _. by eapply tamed_save_loop.
Qed.
(** ** An entry *)

Lemma stays_signature b m : keeps_with (ZipCheckSignature b m) any.
Proof.
  eapply stays_bind; [apply stays_stream_read|]. intros [[? ?] ?] _. by apply stays_ret.
Qed.
Lemma stays_try_local b pos : keeps_with (TryLocalHeader b pos) any.
Proof.
  eapply stays_bind; [apply stays_stream_seek|]. intros [ret b'] _. destruct (negb _); [by apply stays_ret|].
  eapply stays_bind; [apply stays_signature|]. intros [? ?] _. by apply stays_ret.
Qed.
Lemma stays_seek_local b off c : keeps_with (ZipSeekAndCheckLocalHeader b off c) any.
Proof.
  unfold ZipSeekAndCheckLocalHeader. eapply (stays_bind _ _ any).
  { destruct (_ && _); [apply stays_try_local|by apply stays_ret]. }
  intros [[|] b'] _; [apply stays_stream_seek|]. eapply stays_bind; [apply stays_try_local|].
  intros [found b''] _. destruct (negb _); [by apply stays_ret|apply stays_stream_seek].
Qed.

Lemma tamed_local_header : tamed ZipReaderProcessLocalHeader any.
Proof.
  unfold ZipReaderProcessLocalHeader. eapply tamed_bind; [apply tamed_asks|]. intros r' _.
  eapply tamed_bind; [apply tamed_base; intros; apply stays_seek_local|]. intros ret _.
  destruct (negb _); [by apply tamed_ret|].
  eapply tamed_bind; [apply tamed_base; intros; apply stays_stream_read|]. intros [read data] _.
  destruct (negb _); [by apply tamed_ret|].
  eapply tamed_bind; [apply tamed_modify; by intros ? []|]. intros _ _.
  apply tamed_base. intros. apply stays_stream_seek.
Qed.

Lemma open_reads c : reads c → reads (StreamOpen c OPEN_MODE_READ).2.
Proof.
  destruct c as [s|d]; [done|]. unfold StreamOpen, DeflateStreamOpen.
  change (negb (Z.land OPEN_MODE_READ STREAM_MODE_WR =? 0)) with false. cbv iota. by destruct z_inflateInit2.
Qed.

Lemma tamed_init_stream s cs b : spot s cs b → tamed (ZipReaderInitStream s) any.
Proof.
  intros Hs. unfold ZipReaderInitStream. eapply tamed_bind; [apply tamed_asks|]. intros r' (r & Hr & ->). cbn [id].
  destruct (_ && _); [by apply tamed_ret|].
  eapply (tamed_bind _ _ (λ c, match c with Some c => reads c | None => True end)).
  { apply tamed_io. destruct (_ =? _).
    - eapply (stays_bind _ _ any); [eapply stays_bind; [apply stays_malloc|intros ? _; by apply stays_ret]|].
      intros [?|] _; by apply stays_ret.
    - eapply (stays_bind _ _ (λ d, match d with Some d => dmode d = 0 | None => True end)).
      + eapply stays_bind; [apply stays_malloc|]. intros m _. apply stays_ret. by destruct m.
      + intros [d|] Hd; apply stays_ret; [cbn; by rewrite Hd|done]. }
  intros [c|] Hc.
  2: { eapply tamed_bind; [apply tamed_modify; by intros ? []|]. intros _ _. by apply tamed_ret. }
  eapply tamed_bind; [apply tamed_modify; intros r0 [H1 H2 H3 H4]; split; [done|by intros ? [= <-]|done|done]|]. intros _ _.
  pose proof (open_reads c Hc) as Ho. destruct (StreamOpen c OPEN_MODE_READ) as [ret c']. cbn in Ho.
  eapply tamed_bind; [apply tamed_modify; intros r0 [H1 H2 H3 H4]; split; [done|by intros ? [= <-]|done|done]|]. intros _ _.
  apply tamed_if_ok. rewrite (tame_link r Hr).
  eapply tamed_bind; [apply tamed_io, stays_stream_create|]. intros [x|] Hx.
  2: { eapply tamed_bind; [apply tamed_modify; intros r0 [H1 H2 H3 H4]; by split|]. intros _ _. by apply tamed_ret. }
  destruct Hx as [Hp Hx]. eapply tamed_bind; [apply tamed_io; eapply stays_stream_open; [by rewrite Hp|done]|].
  intros [ret' x'] Hx'. cbn in Hx'.
  eapply tamed_bind; [apply tamed_modify; intros r0 [H1 H2 H3 H4]; split; [by intros ? [= <-]|done..]|].
  intros _ _. by apply tamed_ret.
Qed.

Lemma tamed_open_entry s cs b : spot s cs b → tamed (ZipReaderOpenEntry s) any.
Proof.
  intros Hs. unfold ZipReaderOpenEntry. eapply tamed_bind; [apply tamed_asks|]. intros opened _.
  eapply (tamed_bind _ _ any); [destruct opened; [apply tamed_close|by apply tamed_ret]|]. intros _ _.
  eapply tamed_bind; [apply tamed_local_header|]. intros ret _. apply tamed_if_ok.
  eapply tamed_bind; [by eapply tamed_init_stream|]. intros ret' _. destruct (negb _).
  { eapply tamed_bind; [apply tamed_close|]. intros _ _. by apply tamed_ret. }
  eapply (tamed_bind _ _ any).
  { apply tamed_modify. intros r0 [H1 H2 H3 H4]. destruct (_ =? _); [|done]. split; try done.
    intros c Hc. cbn in Hc. destruct (compressStream r0) as [c0|] eqn:E; [|done]. injection Hc as <-.
    specialize (H2 c0 eq_refl). by destruct c0. }
  intros _ _. eapply tamed_bind; [apply tamed_modify; by intros r0 []|]. intros _ _.
  eapply tamed_bind; [apply tamed_entry|]. intros _ _. by apply tamed_ret.
Qed.

Lemma tamed_rename s cs b n :
  spot s cs b → tamed (ZipReaderAutoRenamePath s n) (λ r, r.1 = ARCHIVE_OK → ∃ b', spot r.2 cs b').
Proof.
  intros Hs. unfold ZipReaderAutoRenamePath. destruct (strncpy_s _ _ _) as [new|] eqn:E; [|by apply tamed_ret].
  apply strncpy_whole in E as ->. eapply (tamed_bind _ _ any).
  { apply tamed_io. eapply stays_bind; [apply stays_stat|]. intros ? _. by apply stays_ret. }
  intros there _. destruct (_ =? _); [by eapply tamed_io, stays_generate|]. apply tamed_ret. by exists b.
Qed.

(** A directory is made along its path; a file needs a place. *)
Lemma extract_directory p s :
  along p → sealed (a_tree (fs s)) → tame (own s) → ZipReaderEntryIsDirectory (own s) = true →
  wp (ZipReaderExtractEntry p) (λ _ s', sealed (a_tree (fs s')) ∧ tame (own s')) s.
Proof.
  intros Hp Hf Hr Hd. unfold ZipReaderExtractEntry. apply wp_bind, wp_asks. cbn [id].
  rewrite Hd, (tame_link _ Hr). cbn [negb andb].
  eapply wp_mono; [|by apply (tamed_io _ any); [by apply stays_create_directory|..]]. cbn. by intros a s' (_ & ? & ?).
Qed.

Lemma tamed_extract s cs b : spot s cs b → tamed (ZipReaderExtractEntry s) any.
Proof.
  intros Hs. unfold ZipReaderExtractEntry. eapply tamed_bind; [apply tamed_asks|]. intros r' (r & Hr & ->). cbn [id].
  rewrite (tame_link r Hr), andb_true_r. destruct (ZipReaderEntryIsDirectory r).
  { by eapply tamed_io, stays_create_directory, inside_along, spot_inside. }
  eapply tamed_bind; [by eapply tamed_rename|]. intros [ret new] Hnew. cbn in Hnew.
  unfold if_ok at 1. destruct (negb (ret =? 0)) eqn:Er; [by apply tamed_ret|].
  destruct Hnew as [b' Hs']; [by apply negb_false_iff, Z.eqb_eq in Er|].
  eapply tamed_bind; [by eapply tamed_io, stays_create_parent|]. intros ? _. apply tamed_if_ok.
  eapply tamed_bind; [by eapply tamed_open_entry|]. intros ? _. apply tamed_if_ok.
  eapply tamed_bind; [by eapply tamed_save|]. intros ret' _. apply tamed_if_ok.
  eapply (tamed_bind _ _ any).
  { unfold ZipReaderSetFileTime. eapply tamed_bind; [apply tamed_asks|]. intros ? _.
    eapply tamed_bind; [apply tamed_io, stays_utime|]. intros ? _. by apply tamed_ret. }
  intros _ _. eapply (tamed_bind _ _ any); [|intros _ _; by apply tamed_ret].
  unfold ZipReaderSetFileAttribs. eapply tamed_bind; [apply tamed_asks|]. intros h _.
  destruct (ZipConvertAttrib _ _). apply tamed_if_ok.
  eapply tamed_bind; [apply tamed_io, stays_chmod|]. intros ? _. by apply tamed_ret.
Qed.
End confined.

(** ** The path of an entry *)

Lemma canonical_str D : Forall good_name D → D ≠ [] → canonical (str D).
Proof.
  intros Hg Hne. destruct D as [|b cs _] using rev_ind; [done|]. rewrite Forall_app, Forall_singleton in Hg.
  destruct Hg as [Hcs [Hb Hn]]. right. exists cs, b. by rewrite str_snoc, str_slash.
Qed.

(** The answer of [GetOutputFilePath] is a sequence of names and a last part, which may be
    empty or a dot; and its names are those of the directory and of the entry. *)
Lemma output_shape D name size o :
  Forall good_name D → D ≠ [] → GetOutputFilePath name (str D) size = (ARCHIVE_OK, o) →
  ∃ cs b, o = str cs ++ SLASH :: b ∧ Forall good_name cs ∧ noslash b ∧ b ≠ dotdot ∧
    cs ++ names [b] = D ++ lexical name.
Proof.
  intros Hg Hne Ho.
  destruct (GetOutputFilePath_path _ _ _ _ (canonical_str D Hg Hne) Ho) as (Ha & _ & Hc & p & Hp).
  apply NormalizePath_shape in Hp as (l & cs & b & Eq & Hcs & Hb & Hbd & _).
  assert (o = str cs ++ SLASH :: b) as ->.
  { destruct l; [by rewrite str_slash|]. exfalso. rewrite Eq in Ha. cbn [lead app] in Ha. unfold absolute in Ha.
    destruct Hcs as [|c cs [(Hcne & _) Hcn] _].
    - destruct b as [|x b]; [done|]. cbn in Ha. simplify_eq. by apply noslash_cons in Hb as [? _].
    - destruct c as [|x c]; [done|]. cbn in Ha. simplify_eq. by apply noslash_cons in Hcn as [? _]. }
  exists cs, b. split_and!; try done.
  rewrite components_str in Hc by done. destruct (str_names D Hg Hne) as [HD _]. by rewrite HD in Hc.
Qed.

Lemma output_spot D name size o :
  Forall good_name D → D ≠ [] → GetOutputFilePath name (str D) size = (ARCHIVE_OK, o) →
  lexical name ≠ [] → good (GetFileName o) → ∃ cs b, spot D o cs b.
Proof.
  intros Hg Hne Ho Hlex Hlast. destruct (output_shape D name size o Hg Hne Ho) as (cs & b & -> & Hcs & Hb & _ & Hc).
  rewrite file_name in Hlast by done. exists cs, b. split; try done.
  pose proof Hlast as (H1 & H2 & _). unfold names in Hc. rewrite filter_cons_True in Hc by done.
  change (filter _ []) with (@nil bytes) in Hc.
  destruct (lexical name) as [|x k _] using rev_ind; [done|]. rewrite app_assoc in Hc.
  apply app_inj_tail in Hc as [-> _]. by exists k.
Qed.
Lemma output_along D name size o :
  Forall good_name D → D ≠ [] → GetOutputFilePath name (str D) size = (ARCHIVE_OK, o) → along D o.
Proof.
  intros Hg Hne Ho. destruct (output_shape D name size o Hg Hne Ho) as (cs & b & -> & Hcs & Hb & Hbd & Hc).
  split; [by apply plain_str|]. rewrite components_str, Hc by done.
  destruct (lexical name) as [|x k]; [left; by rewrite app_nil_r|right; by exists x, k].
Qed.

(** C3: the extraction of an entry stays below the output directory. Whatever calls fail and however
    much they move, when the directory is a real one with no link below it and the entry is not a link,
    [ZipReaderExtractEntry] at the path [GetOutputFilePath] gives for the name changes, creates and
    removes nothing that is not below the directory, and leaves no link there; and the streams of the
    reader are as they must be for the next entry. Entries of directories may have any name; that of
    a file must name something below the directory and not end in a dot as its last part. *)
Theorem extract_entry_confined {AE : AEnv} {ZL : Zlib} {IC : Iconv} (D : apath) (t0 : atree) (r : ZipReader)
    (outPath : bytes) (k : nat) (rep : list Z) :
  Forall good_name D → D ≠ [] → (∀ q, q `prefix_of` D → t0 !! q = Some ADir) →
  (∀ q target, below D q → t0 !! q ≠ Some (ALink target)) → tame D r →
  GetOutputFilePath (c_str (ei_entryName (entryInfo r))) (outDir r) ZIP_FILE_NAME_LEN_MAX = (ARCHIVE_OK, outPath) →
  (ZipReaderEntryIsDirectory r = false →
     lexical (c_str (ei_entryName (entryInfo r))) ≠ [] ∧ good (GetFileName outPath)) →
  wp (ZipReaderExtractEntry outPath)
    (λ _ s', (∀ q, ¬ below D q → a_tree (fs s') !! q = t0 !! q)
             ∧ (∀ q target, below D q → a_tree (fs s') !! q ≠ Some (ALink target))
             ∧ tame D (own s')) (App r (Afs t0 k) rep).
Proof.
  intros Hg Hne Hreal Hfree Hr Ho Hname. rewrite (tame_dir _ _ Hr) in Ho.
  destruct (ZipReaderEntryIsDirectory r) eqn:Ed.
  - pose proof (output_along D _ _ _ Hg Hne Ho) as Ha.
    eapply wp_mono; [|eapply (extract_directory D t0); try done; by split].
    cbn. intros a s' ([Hk Hf] & Ht). done.
  - destruct (Hname eq_refl) as [Hlex Hlast]. destruct (output_spot D _ _ _ Hg Hne Ho Hlex Hlast) as (cs & b & Hs).
    eapply wp_mono; [|eapply (tamed_extract D t0 Hreal Hg Hne _ cs b Hs); [by split|done]].
    cbn. intros a s' (_ & [Hk Hf] & Ht). done.
Qed.
#[local] Instance faulty_env : AEnv := {| a_fault := λ k n, if bool_decide (n = 9%nat) then Some (A_EIO, 1%nat) else None;
  a_cwd := []; a_junk := λ _ _, 7; a_perm := λ _, 0; a_mtime := λ _, 0; a_progress := λ _, 0 |}.
#[local] Instance idle_zlib : Zlib := {| zstate := unit; z_crc32 := λ c _, c; z_deflateInit2 := λ _, inl tt;
  z_deflate := λ s _ _ _, (Z_STREAM_END, O, [], s); z_deflateReset := λ s, Some s;
  z_deflateParams := λ s _, Some s; z_compressBound := λ n, n; z_inflateInit2 := Some tt;
  z_inflate := λ s _ _, (Z_STREAM_END, O, [], s); z_inflateReset2 := λ s, Some s;
  z_inflateEnd := λ _, true; z_fuel := O |}.
#[local] Instance no_iconv : Iconv := {| iconv_GBK_UTF8 := λ _ _, None |}.
Definition sample_dir : apath := [bytes_of "data"; bytes_of "out"].
Definition sample_tree : atree := <[sample_dir := ADir]> (<[ [bytes_of "data"] := ADir]> {[ [] := ADir ]}).
Definition sample_reader (name : bytes) : ZipReader :=
  (ZipReaderCreate (mkFileStream [] None no_stream)) <| outDir := str sample_dir |>
    <| entryInfo := mkZipReaderEntryInfo 0 0 0 0 0 0 0 0 false 0 0 false name |>.
Definition sample_confined (name outPath : bytes) : Prop :=
  GetOutputFilePath (c_str (ei_entryName (entryInfo (sample_reader name)))) (outDir (sample_reader name))
    ZIP_FILE_NAME_LEN_MAX = (ARCHIVE_OK, outPath) ∧
  wp (ZipReaderExtractEntry outPath)
    (λ _ s', (∀ q, ¬ below sample_dir q → a_tree (fs s') !! q = sample_tree !! q)
             ∧ (∀ q target, below sample_dir q → a_tree (fs s') !! q ≠ Some (ALink target))
             ∧ tame sample_dir (own s')) (App (sample_reader name) (Afs sample_tree 0) []).

(** A file and a directory. *)
Lemma extract_entry_confined_witness :
  sample_confined (bytes_of "../x/y") (bytes_of "/data/out/x/y") ∧ sample_confined (bytes_of "x/") (bytes_of "/data/out/x/").
Proof.
  assert (∀ name outPath, GetOutputFilePath (c_str name) (str sample_dir) ZIP_FILE_NAME_LEN_MAX = (ARCHIVE_OK, outPath) →
    (ZipReaderEntryIsDirectory (sample_reader name) = false → lexical (c_str name) ≠ [] ∧ good (GetFileName outPath)) →
    sample_confined name outPath) as H.
  { intros name outPath Ho Hname. split; [exact Ho|].
    apply (extract_entry_confined sample_dir sample_tree (sample_reader name) outPath 0 []).
    - (apply Forall_cons_2; [|apply Forall_cons_2; [|apply Forall_nil_2]]; (split; [split_and!|]; apply (bool_decide_unpack _); vm_compute; exact I)).
    - done.
    - intros q [l Hl]. assert (q = take (length q) sample_dir) as Hq by (rewrite Hl; symmetry; apply take_app_length).
      pose proof (f_equal length Hl) as Hlen. rewrite length_app in Hlen. change (length sample_dir) with 2%nat in Hlen.
      rewrite Hq. (destruct (length q) as [|[|[|n]]]; [vm_compute; reflexivity..|lia]).
    - intros q target _ H. unfold sample_tree in H.
      repeat (apply lookup_insert_Some in H as [[_ ?]|[_ H]]; [done|]). by apply lookup_singleton_Some in H as [_ ?].
    - by split.
    - exact Ho.
    - exact Hname. }
  split; apply H.
  - vm_compute. reflexivity.
  - intros _. split; [|split_and!]; apply (bool_decide_unpack _); vm_compute; exact I.
  - vm_compute. reflexivity.
  - intros E. vm_compute in E. discriminate.
Defined.
