(* ===== verification/ArchiveSafety.v ===== *)
(** * Where extraction writes

    Entries' names are confined to the output directory as text (ArchivePath); a
    chain of links that pass the check of [ValidateSymlinkTarget] one by one leads
    out of it on the file system. *)

From coqutil Require Import Datatypes.RecordSetters.
From S2P Require Import Prelude Bytes ZipFormat ZipTime ArchiveErr ArchivePath ArchiveFs ArchiveText ArchiveStream ArchiveUtils ArchiveMonad ZipHeaders ZipReader ZipWriter ArchiveApi ArchiveDirectory ArchiveEnd.
Import TriangleBracketNotations.
#[local] Open Scope record_set.

(** ** An environment without faults *)

(** zlib's [crc32], bit by bit. *)
Definition crc32_bit (c : Z) : Z :=
  let s := Z.shiftr c 1 in if Z.odd c then Z.lxor s 0xEDB88320 else s.
Definition crc32_byte (c b : Z) : Z := Nat.iter 8 crc32_bit (Z.lxor c b).
Definition crc32_of (crc : Z) (buf : bytes) : Z :=
  Z.lxor (fold_left crc32_byte buf (Z.lxor crc 0xFFFFFFFF)) 0xFFFFFFFF.

#[local] Instance sound_env : AEnv := {| a_fault := λ _ _, None; a_cwd := []; a_junk := λ _ _, 7;
  a_perm := λ _, 0x1a4; a_mtime := λ _, 0; a_progress := λ _, 0 |}.
#[local] Instance raw_zlib : Zlib := {| zstate := unit; z_crc32 := crc32_of; z_deflateInit2 := λ _, inr (-2);
  z_deflate := λ s _ _ _, (Z_DATA_ERROR, O, [], s); z_deflateReset := λ s, Some s;
  z_deflateParams := λ s _, Some s; z_compressBound := λ n, n; z_inflateInit2 := None;
  z_inflate := λ s _ _, (Z_DATA_ERROR, O, [], s); z_inflateReset2 := λ s, Some s;
  z_inflateEnd := λ _, true; z_fuel := O |}.
#[local] Instance no_iconv : Iconv := {| iconv_GBK_UTF8 := λ _ _, None |}.

(** ** An archive *)

(** An entry with stored data at [off]. *)
Definition stored (name data : bytes) (mode off : Z) : ZipWriterEntryInfo :=
  mkZipWriterEntryInfo ZIP_VERSION_MADEBY ZIP_FLAG_UTF8 0 (crc32_of 0 data) (zlen data) (zlen data)
    (zlen name) 0 off 0 (Z.shiftl mode 16) name 33 false 0.
Fixpoint archive_from (l : list (string * string * Z)) (body : bytes) (es : list ZipWriterEntryInfo) : bytes :=
  match l with
  | [] => body ++ dir_bytes es ++ end_records 0 (zlen body) (zlen (dir_bytes es)) (zlen es)
  | (name, data, mode) :: l =>
      let e := stored (bytes_of name) (bytes_of data) mode (zlen body) in
      archive_from l (body ++ pack (local_header e) ++ we_filename e ++ bytes_of data) (es ++ [e])
  end.
Definition archive (l : list (string * string * Z)) : bytes := archive_from l [] [].

(** Open the archive at [path] and extract it. *)
Definition extract (path dir : string) : st afs OH_Archive_ErrCode :=
  arc ← OH_Archive_Reader_OpenFile (Some (bytes_of path));
  '(ret, _, _) ← OH_Archive_Reader_ExtractAllFile (λ _, 0) arc (Some (bytes_of dir));
  sret ret.

Definition chain : list (string * string * Z) :=
  [("x/y/l", "../..", S_IFLNK); ("x/y/l/m", "../../..", S_IFLNK); ("x/y/l/m/etc/passwd", "root", S_IFREG)].
Definition system : atree :=
  {[ [] := ADir; [bytes_of "a.zip"] := AFile (archive chain); [bytes_of "etc"] := ADir;
     [bytes_of "etc"; bytes_of "passwd"] := AFile (bytes_of "user") ]}.

(** Links are checked one at a time, so a chain of them leads out of the output directory. The
    archive has a link "x/y/l" to "../..", then "x/y/l/m" to "../../..", each of them within the output
    directory by its name; the second is made through the first, in the output directory itself, and
    leads above it. The file "x/y/l/m/etc/passwd" is then written to "/etc", and the extraction succeeds. *)
Theorem symlink_chain_escapes :
  match extract "/a.zip" "/data/out" (Afs system 0) with
  | Some (ret, s) =>
      ret = OH_ARCHIVE_OK ∧
      system !! [bytes_of "etc"; bytes_of "passwd (2)"] = None ∧
      a_tree s !! [bytes_of "etc"; bytes_of "passwd (2)"] = Some (AFile (bytes_of "root")) ∧
      (GetOutputFilePath (bytes_of "x/y/l/m/etc/passwd") (bytes_of "/data/out") ZIP_FILE_NAME_LEN_MAX).2
      = bytes_of "/data/out/x/y/l/m/etc/passwd"
  | None => False
  end.
Proof. vm_compute. repeat split. Qed.
